(* ===== verification/_CoqProject ===== *)
-Q . S2P
Prelude.v
IntegerValue.v
BigUInt.v
FloatValue.v
Dyadic.v
Rounding.v
FloatSpecial.v
FloatArith.v
FloatConvert.v
FloatComplex.v
FloatText.v
FloatRoundTrip.v
FloatDecimal.v
Target.v
TargetMacros.v
CirTypes.v
Layout.v
LayoutProps.v
CallClasses.v
CallClassesProps.v
CallDispatch.v
CallDispatchProps.v
Vectors.v
AirInsts.v
AirTypes.v
AirFunction.v
AirLists.v
AirSweep.v
AirDce.v
Dominators.v
DominatorsIter.v
DominatorsProps.v
AirSimplify.v
AirVerify.v
AirSemantics.v
AirFold.v
AirSimplifyProps.v
AirSimplifyPass.v
Mir.v
Liveness.v
LinearScan.v
LinearScanProps.v
MirSemantics.v
LinearScanRefines.v
MirTargets.v
LinearScanCorrect.v
Outcome.v
AsmLexer.v
AsmExpr.v
AsmUnit.v
Assembler.v
SortedTable.v
AsmDirectives.v
AsmRelax.v
AsmFinish.v
AsmSafe.v
AsmStatements.v
AsmRelaxProps.v
AsmFinishSafe.v
A64Isa.v
A64Bitmask.v
A64IsaProps.v
AsmOperands.v
AsmA64.v
AsmA64Safe.v
X86Isa.v
X86IsaProps.v
X86Pack.v
X86Reads.v
AsmX86.v
AsmX86Safe.v
AsmInstructions.v
