(* ===== verification/Prelude.v ===== *)
(** * A verification development of the aburi C and C++ compiler

    aburi compiles C, C++ and Objective-C. The lexer, preprocessor and parser feed
    the collector, which builds a typed syntax graph, the CIR (src/cir); the CIR is
    lowered either to LLVM or to a native SSA form, the AIR (src/air), which passes
    simplify and the backends (src/backend) turn into machine code. Beneath all of
    them lie the constants of src/numeric, whose arithmetic the compiler does
    itself instead of borrowing the host's, and src/abi, which says how each target
    lays out its types and passes its arguments. The native path ends in src/assembler,
    which turns the backends' text, and inline assembly, into bytes and relocations.
    This development models these lower layers, the AIR with two of its passes, the
    register allocation of the backends, their instruction tables with the encoders,
    and the assembler: the parts whose errors are wrong code rather than a wrong
    diagnostic.

    ** The parts and their files

    Constants (src/numeric). [IntegerValue] is integer_value.h: integers of up to
    128 bits in two words. [BigUInt] is the private class of floating_point.cpp:
    vectors of words, each member function proved to compute on the numbers the
    vectors denote. [FloatValue] has the formats and encodings; [Dyadic] the
    abstract specification of rounding; [Rounding] the function round_rational all
    results go through; [FloatSpecial], [FloatArith], [FloatConvert] and
    [FloatComplex] the operations, proved against exact rationals; [FloatText],
    [FloatRoundTrip] and [FloatDecimal] the parser and the printers of literals.

    Targets and calling conventions (src/abi, src/cir/layout.cpp). [Target] and
    [TargetMacros] are target_info.cpp: the targets, the triples, the predefined
    macros. [CirTypes] is the table of types of the CIR as far as layout reads it;
    [Layout] and [LayoutProps] the queries of sizes, alignments and padding.
    [CallClasses], [CallClassesProps], [CallDispatch] and [CallDispatchProps] are
    the classification of arguments on the four targets.

    The AIR (src/air). [AirInsts], [AirTypes] and [AirFunction] are its
    instructions, types and functions: arenas indexed by 32-bit ids, with
    instructions and blocks in linked lists whose links [AirLists] proves to be
    lists. [AirSemantics] says what instructions compute and [AirVerify] what
    verifier.cpp demands of them. [Dominators], [DominatorsIter] and
    [DominatorsProps] are dominators.cpp. [AirSweep] has the loops the passes
    share; [AirDce] is run_dce; [AirSimplify], [AirFold], [AirSimplifyProps] and
    [AirSimplifyPass] are run_instsimplify.

    Vectors. [Vectors] is what the code's [std::vector] is here, with the loops over
    vectors whose body may have no result, for the AIR and the backends.

    The backends (src/backend). [Mir] is mir.h and regalloc.h: machine code before
    and after registers are assigned, and what an allocator is told of a target.
    [Liveness] and [LinearScan] are the two halves of regalloc_linear.cpp;
    [LinearScanProps] shows that what is live is covered and that registers are not
    shared, [MirSemantics] says what it means to execute machine code,
    [LinearScanRefines] how an instruction and its reloads and stores run, and
    [LinearScanCorrect] puts them together as a simulation. [MirTargets] has the
    tables of registers of the targets.

    The instruction tables (isa.def, isa.h and isa.cpp of src/backend/aarch64 and src/backend/x86).
    [SortedTable] is the stable sort by name and the binary search both use. [A64Isa]
    and [X86Isa] are the tables, row by row, with the matching of operands and the
    encoders; [A64Bitmask] is about the search for the fields of a bitmask immediate;
    [A64IsaProps], and for x86 [X86IsaProps] (addressing forms), [X86Pack] (the bytes a
    row packs, and their bounds) and [X86Reads], give the architecture's reading of what
    is encoded and show that it is the operands.

    The assembler (src/assembler). [Outcome] is the monad of code that may leave a
    vector's bounds, overflow or run out of fuel. [AsmLexer] is lexer.cpp; [AsmExpr] is
    expr.cpp over an interface of the context that looks symbols up; [AsmUnit] has the
    unit's data and the LEB128 numbers; [Assembler] is assembler.cpp up to the layout;
    [AsmDirectives] is directives.cpp and the statements, with the instruction parser as a
    class; [AsmRelax] is the relaxation of fields of variable size and [AsmFinish] the
    filling of fixups and fragment.cpp. [AsmSafe] has the invariant and that each operation
    keeps it, [AsmStatements] the same of directives and statements, [AsmRelaxProps] what
    the layout is, [AsmFinishSafe] that a whole run is safe. [AsmOperands], [AsmA64] and
    [AsmX86] are the parsers of instructions, which [AsmA64Safe] and [AsmX86Safe] show to
    keep the invariant; [AsmInstructions] chooses between them by the target and closes
    the assembler.

    How they use each other. The parser of literals and the folding of the AIR
    call the arithmetic; the target's macros are literals its parser reads, and
    are proved to give the formats' limits; layout reads the target; the
    classification reads layout and the type table; the passes work on functions
    through the operations of [AirFunction] only, and what [AirLists] proves of
    these is all the passes' proofs know of the links. The assembler's statements know the
    parser of instructions by its class [InstructionParser] alone, and the proof of a run
    knows it by [InstructionParserSafe]; expressions know the assembler by their context.

    ** How the code is translated

    A member function or function is a definition of the same name; loops are
    fixpoints with fuel or on a list. Unsigned words are integers wrapped by
    [uwrap] where the code can overflow, signed ones by [swrap]; where the code
    cannot, a lemma or a hypothesis gives the bound. An assertion of the code
    that fails, a read out of a vector's bounds and fuel that runs out are all
    the absence of a result, so every theorem that gives a result says that none
    of them happens. The assembler's code runs in [Outcome], where these failures
    are told apart from a signed overflow or a vector past its largest size. Errors the code reports are values of its own error types.

    ** What the theorems show

    - Arithmetic: every operation of BigUInt is exact; round_rational is the
      rounding of IEEE 754 in every format and mode, with its flags; addition,
      multiplication, division and conversion are correctly rounded, remainders
      exact; comparison is the order of the values; NaNs, infinities and malformed
      operands are treated case by case; what is printed reads back.
    - Layout: queries terminate on well-founded tables; sizes are multiples of
      alignments, which are powers of two; the rules of the psABI are refined.
    - Calls: the x86-64 classes are the joins the psABI defines; homogeneous
      aggregates of AArch64 are characterised; the dispatch stays in bounds.
    - AIR: interned ids are unique; links are lists; the dominator tree answers
      dominance as defined by paths; folding is two's-complement arithmetic;
      simplification keeps every consistent valuation and finishes at a fixed
      point; dead-code elimination removes exactly the unused.
    - Backends: liveness is what paths define; the allocated function runs as the
      given one, for every meaning of the target's instructions that agrees with
      what the tables say of them; the tables of all targets meet the allocator's
      assumptions.
    - Instructions: every x86-64 row that takes its operands encodes them in at most
      fifteen bytes that read back as the row's opcode and the operands, or is refused
      with a message; so for AArch64 and its words, bitmask immediates included.
    - Assembler: tokens and expressions read back; LEB128 numbers read back in the bytes
      counted; a layout that is accepted is consistent with what every field says; a run
      on any text, for either instruction set, ends and stays in bounds.
    - Divergences found: where the code does not do what it means to, a theorem
      states what it does.

    ** Fuel and bounds

    Type queries carry as much fuel as the table has entries and one more: a
    ranked table cannot nest deeper. The search for a power of two has 65 rounds,
    one more than the bits of a word. The loops over digits and words have their
    number as fuel. The depth-first search has the number of edges and blocks; the
    iteration of the dominators squares the number of blocks, since each round
    that changes something moves a block up. A walk along links has the length of
    the arena, and rounds of a pass the number of instructions, as each round
    that changes something unlinks one. Theorems show that each is enough; none
    states a result only for the case that it is. Arenas and tables have at most
    2^32 entries, after which the creating operation has no result.

    Liveness has a round for each bit of its rows, and one more, since every round
    that changes something sets a bit.

    The lexer has a round per character, an expression three calls per token, the lists
    of operands, labels and statements a round per token that is left; a LEB128 number has
    ten groups. The rounds of the relaxation are the code's own bound, after which it
    reports an error. A text has fewer than 2^32 - 1 characters, so that symbols, of which
    each costs a character, have ids of 32 bits. What the lexer's slot holds when no
    token is buffered is a parameter ([EmptySlot]): some diagnostics take their place
    from it.

    Execution of machine code is counted in blocks: for every number of blocks, the
    given and the allocated function are at the same block with the same memory, or
    have halted with the same. The meaning of an instruction is a parameter, which
    gets the values of its operands and the rest of the machine; a theorem about
    the allocator is about every such meaning. The theorem asks of the function
    that the registers it names itself are neither handed out nor scratch registers
    of the target (selected code that uses a scratch register as its own between two
    instructions is outside), that no instruction has more spilled operands than
    there are scratch registers, and that control leaves a block only for the
    successors recorded in it, after the definitions those rely on; the landing pads
    of exceptions are not recorded, as the findings say. [function_check] decides
    the conditions that are about the code alone.

    The AIR is read as a system of equations: a valuation is consistent when each
    instruction that only computes has the value its operands give. A pass that
    keeps consistent valuations keeps what every execution computes, whatever
    order the blocks run in; memory, calls and control are left as they are.

    ** Not modelled

    The lexer, preprocessor, parser and collector, and the constant evaluator and
    the lowerings, are mutually recursive walks over the whole CIR, whose model
    would be the language itself. Name mangling, Objective-C metadata and the
    builders produce text or data for other programs. Of the passes, mem2reg,
    simplify_cfg and legalisation are not modelled, nor are instruction selection, the
    fast allocator and the emitters of the backends, nor the object writer of the
    assembler (sink_macho.cpp). Diagnostics, files, processes and LLVM are outside. Of the modelled parts, names, source locations
    and attributes that no operation reads are left out, as each file says. *)
From stdpp Require Export base tactics list numbers option.
From Stdlib Require Export Lia ZArith Ascii.
From Stdlib Require String.
Export String.StringSyntax.

Open Scope Z_scope.

(** ** Scope of the development's notations *)
Declare Scope aburi_scope.
Delimit Scope aburi_scope with aburi.
Open Scope aburi_scope.

(** ** Machine words

    An unsigned w-bit machine integer is a [Z] in [0, 2^w); the wrap-around
    of C++'s unsigned arithmetic is [uwrap w]. Signed integers are [Z]s in
    [-2^(w-1), 2^(w-1)); the conversion from an unsigned pattern is [swrap]. *)
Definition uwrap (w x : Z) : Z := x mod 2 ^ w.
Definition swrap (w x : Z) : Z :=
  let y := uwrap w x in if y <? 2 ^ (w - 1) then y else y - 2 ^ w.

Abbreviation u8 := (uwrap 8).
Abbreviation u16 := (uwrap 16).
Abbreviation u32 := (uwrap 32).
Abbreviation u64 := (uwrap 64).
Abbreviation u128 := (uwrap 128).
Abbreviation s32 := (swrap 32).
Abbreviation s64 := (swrap 64).
Abbreviation s128 := (swrap 128).

(** Bitwise complement of a w-bit unsigned word. *)
Definition unot (w x : Z) : Z := uwrap w (Z.lnot x).

(** A value is a w-bit word. *)
Definition word (w x : Z) : Prop := 0 <= x < 2 ^ w.
#[export] Instance word_dec w x : Decision (word w x).
Proof. unfold word. apply _. Defined.

(** ** Tactics *)

(** Discharge decidable Z tests in hypotheses and goal. *)
Ltac ztests :=
  repeat match goal with
  | H : (_ <? _) = true |- _ => apply Z.ltb_lt in H
  | H : (_ <? _) = false |- _ => apply Z.ltb_ge in H
  | H : (_ <=? _) = true |- _ => apply Z.leb_le in H
  | H : (_ <=? _) = false |- _ => apply Z.leb_gt in H
  | H : (_ =? _) = true |- _ => apply Z.eqb_eq in H
  | H : (_ =? _) = false |- _ => apply Z.eqb_neq in H
  | H : negb _ = true |- _ => apply negb_true_iff in H
  | H : negb _ = false |- _ => apply negb_false_iff in H
  | H : (_ && _)%bool = true |- _ => apply andb_true_iff in H; destruct H
  | H : (_ || _)%bool = false |- _ => apply orb_false_iff in H; destruct H
  end.

(** Case analysis on the first boolean condition of the goal. *)
Ltac zcase :=
  match goal with
  | |- context [if ?b then _ else _] =>
      lazymatch b with context [if _ then _ else _] => fail | _ => idtac end;
      let E := fresh "E" in destruct b eqn:E; ztests
  end.

(** Close an arithmetic goal with div/mod by constants. *)
Ltac zdiv := Z.to_euclidean_division_equations; nia.

(** ** Words: basic facts *)

Lemma pow2_pos n : 0 <= n -> 0 < 2 ^ n.
Proof. intros; apply Z.pow_pos_nonneg; lia. Qed.

Lemma pow2_nz n : 0 <= n -> 2 ^ n <> 0.
Proof. intros H; pose proof (pow2_pos n H); lia. Qed.

Lemma pow2_le a b : 0 <= a <= b -> 2 ^ a <= 2 ^ b.
Proof. intros; apply Z.pow_le_mono_r; lia. Qed.

Lemma pow2_lt a b : 0 <= a < b -> 2 ^ a < 2 ^ b.
Proof. intros; apply Z.pow_lt_mono_r; lia. Qed.

Lemma pow2_split a b : 0 <= a -> 0 <= b -> 2 ^ (a + b) = 2 ^ a * 2 ^ b.
Proof. intros; apply Z.pow_add_r; lia. Qed.

Lemma pow2_succ a : 0 <= a -> 2 ^ (a + 1) = 2 * 2 ^ a.
Proof. intros; rewrite Z.pow_add_r by lia; change (2 ^ 1) with 2; lia. Qed.

Lemma uwrap_range w x : 0 <= w -> 0 <= uwrap w x < 2 ^ w.
Proof. intros; apply Z.mod_pos_bound, pow2_pos; lia. Qed.

Lemma uwrap_word w x : 0 <= w -> word w (uwrap w x).
Proof. apply uwrap_range. Qed.

Lemma uwrap_small w x : word w x -> uwrap w x = x.
Proof. apply Z.mod_small. Qed.

Lemma uwrap_idem w x : uwrap w (uwrap w x) = uwrap w x.
Proof. apply Zmod_mod. Qed.

Lemma uwrap_ones w x : 0 <= w -> uwrap w x = Z.land x (Z.ones w).
Proof. intros; symmetry; apply Z.land_ones; lia. Qed.

Lemma land_pow2_minus_1 x w : 0 <= w -> Z.land x (2 ^ w - 1) = x mod 2 ^ w.
Proof.
  intros. replace (2 ^ w - 1) with (Z.ones w) by (rewrite Z.ones_equiv; lia).
  apply Z.land_ones; lia.
Qed.

Lemma unot_eq w x : 0 <= w -> word w x -> unot w x = 2 ^ w - 1 - x.
Proof.
  intros Hw [H1 H2]. unfold unot, uwrap.
  replace (Z.lnot x) with ((2 ^ w - 1 - x) + (-1) * 2 ^ w)
    by (pose proof (Z.add_lnot_diag x); lia).
  rewrite Z_mod_plus_full. apply Z.mod_small. lia.
Qed.

Lemma word_mono w w' x : 0 <= w <= w' -> word w x -> word w' x.
Proof. intros H [? ?]. pose proof (pow2_le w w' H). split; lia. Qed.

Lemma shiftr_div x n : 0 <= n -> Z.shiftr x n = x / 2 ^ n.
Proof. apply Z.shiftr_div_pow2. Qed.

Lemma shiftl_mul x n : 0 <= n -> Z.shiftl x n = x * 2 ^ n.
Proof. apply Z.shiftl_mul_pow2. Qed.

(** Bits of a word vanish from its width on. *)
Lemma word_testbit_high w x i : 0 <= w -> word w x -> w <= i -> Z.testbit x i = false.
Proof.
  intros Hw [H1 H2] Hi. rewrite <- (Z.mod_small x (2 ^ w)) by lia.
  apply Z.mod_pow2_bits_high; lia.
Qed.

Lemma word_bits w x : 0 <= w -> 0 <= x -> (forall i, w <= i -> Z.testbit x i = false) -> word w x.
Proof.
  intros Hw Hx Hb. assert (x = x mod 2 ^ w) as ->; [|apply Z.mod_pos_bound, pow2_pos; lia].
  apply Z.bits_inj'. intros i Hi. destruct (Z.lt_ge_cases i w).
  - by rewrite Z.mod_pow2_bits_low.
  - rewrite Z.mod_pow2_bits_high by lia. by apply Hb.
Qed.
Lemma word_lor w x y : 0 <= w -> word w x -> word w y -> word w (Z.lor x y).
Proof.
  intros Hw Hx Hy. apply word_bits; [done|apply Z.lor_nonneg; split; [apply Hx|apply Hy]|]. intros i Hi.
  by rewrite Z.lor_spec, (word_testbit_high w x), (word_testbit_high w y).
Qed.
Lemma word_land w x y : 0 <= w -> word w x -> 0 <= y -> word w (Z.land x y).
Proof.
  intros Hw Hx Hy. apply word_bits; [done|apply Z.land_nonneg; left; apply Hx|]. intros i Hi.
  by rewrite Z.land_spec, (word_testbit_high w x).
Qed.
Lemma unot_testbit w x i : 0 <= i < w -> Z.testbit (unot w x) i = negb (Z.testbit x i).
Proof. intros Hi. unfold unot, uwrap. rewrite Z.mod_pow2_bits_low by lia. apply Z.lnot_spec. lia. Qed.

(** A disjunction of a low field and a shifted high field is their sum. *)
Lemma land_disjoint_fields a b w :
  0 <= w -> word w a -> Z.land a (b * 2 ^ w) = 0.
Proof.
  intros Hw Ha. apply Z.bits_inj'. intros i Hi.
  rewrite Z.land_spec, Z.bits_0.
  destruct (Z.lt_ge_cases i w).
  - rewrite Z.mul_pow2_bits_low by lia. apply andb_false_r.
  - rewrite (word_testbit_high w a) by (auto; lia). reflexivity.
Qed.

Lemma lor_fields a b w :
  0 <= w -> word w a -> Z.lor a (b * 2 ^ w) = a + b * 2 ^ w.
Proof.
  intros Hw Ha. pose proof (land_disjoint_fields a b w Hw Ha) as Hl.
  rewrite Z.add_nocarry_lxor by exact Hl.
  apply Z.bits_inj'. intros i Hi.
  rewrite Z.lor_spec, Z.lxor_spec.
  assert (Z.testbit (Z.land a (b * 2 ^ w)) i = false) as Hb by (rewrite Hl; apply Z.bits_0).
  rewrite Z.land_spec in Hb.
  destruct (Z.testbit a i), (Z.testbit (b * 2 ^ w) i); simpl in *; congruence.
Qed.

Lemma lor_fields' a b w :
  0 <= w -> word w a -> Z.lor (b * 2 ^ w) a = a + b * 2 ^ w.
Proof. intros; rewrite Z.lor_comm; apply lor_fields; auto. Qed.

(** Testing one bit by masking. *)
Lemma land_pow2_testbit x i :
  0 <= i -> negb (Z.land x (2 ^ i) =? 0) = Z.testbit x i.
Proof.
  intros Hi. destruct (Z.testbit x i) eqn:E.
  - apply negb_true_iff, Z.eqb_neq. intros H.
    assert (Z.testbit (Z.land x (2 ^ i)) i = false) as F by (rewrite H; apply Z.bits_0).
    rewrite Z.land_spec, E, Z.pow2_bits_true in F by lia. discriminate.
  - apply negb_false_iff, Z.eqb_eq. apply Z.bits_inj'. intros j Hj.
    rewrite Z.land_spec, Z.bits_0, Z.pow2_bits_eqb by lia.
    destruct (Z.eqb_spec i j) as [->|]; [by rewrite E | apply andb_false_r].
Qed.

(** The top bit of a word compares it with half of its range. *)
Lemma testbit_top w x : 0 < w -> word w x -> Z.testbit x (w - 1) = (2 ^ (w - 1) <=? x).
Proof.
  intros Hw [H1 H2].
  pose proof (pow2_succ (w - 1) ltac:(lia)) as Hp. replace (w - 1 + 1) with w in Hp by lia.
  destruct (Z.leb_spec (2 ^ (w - 1)) x).
  - apply Z.testbit_true; [lia|].
    replace (x / 2 ^ (w - 1)) with 1; [reflexivity|].
    apply Z.div_unique with (x - 2 ^ (w - 1)); lia.
  - apply Z.testbit_false; [lia|]. rewrite Z.div_small by lia. reflexivity.
Qed.

Lemma swrap_range w x : 0 < w -> - 2 ^ (w - 1) <= swrap w x < 2 ^ (w - 1).
Proof.
  intros Hw. unfold swrap. pose proof (uwrap_range w x ltac:(lia)).
  pose proof (pow2_succ (w - 1) ltac:(lia)) as Hp. replace (w - 1 + 1) with w in Hp by lia.
  zcase; lia.
Qed.

Lemma swrap_small w x : 0 < w -> - 2 ^ (w - 1) <= x < 2 ^ (w - 1) -> swrap w x = x.
Proof.
  intros Hw H. unfold swrap, uwrap.
  pose proof (pow2_succ (w - 1) ltac:(lia)) as Hp. replace (w - 1 + 1) with w in Hp by lia.
  destruct (Z.lt_ge_cases x 0).
  - replace (x mod 2 ^ w) with (x + 2 ^ w).
    + zcase; lia.
    + apply Z.mod_unique with (-1); lia.
  - rewrite Z.mod_small by lia. zcase; lia.
Qed.

(** ** Counted loops

    [for_up n f a] is [for (i = 0; i < n; ++i) a = f(i, a)] and
    [for_down n f a] is [for (i = n; i-- > 0;) a = f(i, a)]. *)
Fixpoint for_from {A} (i n : nat) (f : nat -> A -> A) (a : A) : A :=
  match n with
  | O => a
  | S n' => for_from (S i) n' f (f i a)
  end.
Definition for_up {A} (n : nat) (f : nat -> A -> A) (a : A) : A := for_from 0 n f a.

Fixpoint for_down {A} (n : nat) (f : nat -> A -> A) (a : A) : A :=
  match n with
  | O => a
  | S n' => for_down n' f (f n' a)
  end.

Lemma for_from_inv {A} (P : nat -> A -> Prop) (f : nat -> A -> A) n :
  forall i a,
  P i a ->
  (forall j b, (i <= j < i + n)%nat -> P j b -> P (S j) (f j b)) ->
  P (i + n)%nat (for_from i n f a).
Proof.
  induction n as [|n IH]; intros i a H0 Hstep; simpl.
  - by rewrite Nat.add_0_r.
  - replace (i + S n)%nat with (S i + n)%nat by lia. apply IH.
    + apply Hstep; [lia|done].
    + intros j b Hj. apply Hstep. lia.
Qed.

(** Invariant rule of the ascending loop. *)
Lemma for_up_inv {A} (P : nat -> A -> Prop) (f : nat -> A -> A) n a :
  P O a ->
  (forall j b, (j < n)%nat -> P j b -> P (S j) (f j b)) ->
  P n (for_up n f a).
Proof. intros H0 Hs. apply (for_from_inv P f n 0); [done|]. intros; apply Hs; [lia|done]. Qed.

(** Invariant rule of the descending loop: [P i a] holds before index [i - 1]. *)
Lemma for_down_inv {A} (P : nat -> A -> Prop) (f : nat -> A -> A) n :
  forall a,
  P n a ->
  (forall j b, (j < n)%nat -> P (S j) b -> P j (f j b)) ->
  P O (for_down n f a).
Proof.
  induction n as [|n IH]; intros a H0 Hs; simpl; [done|].
  apply IH; [apply Hs; [lia|done]|]. intros; apply Hs; [lia|done].
Qed.

(** ** Lists indexed by position *)

(** Reading a vector inside its bounds; [nthz] is [words_[i]]. *)
Abbreviation nthz l i := (nth i l 0).

Lemma nth_lookup_Some (l : list Z) i x : l !! i = Some x -> nth i l 0 = x.
Proof. apply nth_lookup_Some. Qed.

Lemma nth_insert_eq (l : list Z) i x : (i < length l)%nat -> nth i (<[i:=x]> l) 0 = x.
Proof.
  intros. apply nth_lookup_Some. by apply list_lookup_insert_eq.
Qed.

Lemma nth_insert_ne (l : list Z) i j x : i <> j -> nth j (<[i:=x]> l) 0 = nth j l 0.
Proof.
  intros. rewrite !nth_lookup. by rewrite list_lookup_insert_ne.
Qed.

Lemma nth_Forall (P : Z -> Prop) (l : list Z) i : P 0 -> Forall P l -> P (nth i l 0).
Proof.
  intros P0 HP. rewrite nth_lookup. destruct (l !! i) eqn:E; simpl; [|done].
  rewrite Forall_lookup in HP. by eapply HP.
Qed.

(** ** Characters and strings

    A [std::string] is the list of its characters. *)
Abbreviation chars := (list ascii).
Definition str (s : String.string) : chars := String.list_ascii_of_string s.
Arguments str s%_string_scope.

Definition code (c : ascii) : Z := Z.of_nat (nat_of_ascii c).
Definition chr (n : Z) : ascii := ascii_of_nat (Z.to_nat n).

#[export] Instance ascii_eq_dec : EqDecision ascii := Ascii.ascii_dec.

Definition ceqb (a b : ascii) : bool := Ascii.eqb a b.

Lemma code_range c : 0 <= code c < 256.
Proof. unfold code. pose proof (nat_ascii_bounded c). lia. Qed.

Lemma code_chr n : 0 <= n < 256 -> code (chr n) = n.
Proof.
  intros. unfold code, chr. rewrite nat_ascii_embedding by lia. lia.
Qed.

Lemma chr_code c : chr (code c) = c.
Proof. unfold code, chr. rewrite Nat2Z.id. apply ascii_nat_embedding. Qed.

Lemma code_inj c d : code c = code d -> c = d.
Proof. intros H. rewrite <- (chr_code c), <- (chr_code d), H. done. Qed.

(** ** Positional digits

    [digits_be base fuel n acc] is the loop that peels the low digit of [n]
    in [base] and pushes it in front of [acc]. *)
Definition digit_char (d : Z) : ascii :=
  if d <? 10 then chr (48 + d) else chr (87 + d).

Fixpoint digits_go (base : Z) (fuel : nat) (n : Z) (acc : chars) : chars :=
  match fuel with
  | O => acc
  | S fuel' =>
      let acc' := digit_char (n mod base) :: acc in
      if n / base =? 0 then acc' else digits_go base fuel' (n / base) acc'
  end.

(** Decimal and hexadecimal renderings of a non-negative integer, as printed
    by the standard streams; the fuel is the number of binary digits. *)
Definition to_digits (base n : Z) : chars :=
  digits_go base (S (Z.to_nat (Z.log2 n))) n [].

(** [std::setw(w)] with [std::setfill('0')]. *)
Definition pad0 (w : nat) (s : chars) : chars :=
  replicate (w - length s) "0"%char ++ s.

(** The value of a digit string, most significant digit first. *)
Definition char_digit (c : ascii) : option Z :=
  let n := code c in
  if (48 <=? n) && (n <=? 57) then Some (n - 48)
  else if (97 <=? n) && (n <=? 102) then Some (n - 87)
  else None.

Fixpoint digits_value (base acc : Z) (s : chars) : option Z :=
  match s with
  | [] => Some acc
  | c :: s' =>
      match char_digit c with
      | Some d => if d <? base then digits_value base (acc * base + d) s' else None
      | None => None
      end
  end.

(** A character that renders a digit of [base]. *)
Definition is_digit_of (base : Z) (c : ascii) : Prop :=
  exists d, 0 <= d < base /\ c = digit_char d.

Lemma char_digit_of d : 0 <= d < 16 -> char_digit (digit_char d) = Some d.
Proof.
  intros Hd. unfold digit_char, char_digit.
  zcase; rewrite code_chr by lia.
  - rewrite !(proj2 (Z.leb_le _ _)) by lia. simpl. f_equal. lia.
  - rewrite (proj2 (Z.leb_gt (87 + d) 57)), andb_false_r by lia.
    rewrite !(proj2 (Z.leb_le _ _)) by lia. simpl. f_equal. lia.
Qed.

Lemma digits_value_step base a c s d :
  char_digit c = Some d -> d < base ->
  digits_value base a (c :: s) = digits_value base (a * base + d) s.
Proof. intros Hc Hd. simpl. by rewrite Hc, (proj2 (Z.ltb_lt d base)). Qed.

Lemma digits_value_app base s1 s2 : forall a v,
  digits_value base a s1 = Some v ->
  digits_value base a (s1 ++ s2) = digits_value base v s2.
Proof.
  induction s1 as [|c s1 IH]; intros a v; simpl; [congruence|].
  destruct (char_digit c) as [d|]; [|done]. destruct (d <? base); [|done]. apply IH.
Qed.

(** Reading a digit string after a prefix of value [a] shifts [a]. *)
Lemma digits_value_shift base s : forall a b v,
  digits_value base a s = Some v ->
  digits_value base (a + b) s = Some (v + b * base ^ Z.of_nat (length s)).
Proof.
  induction s as [|c s IH]; intros a b v; simpl.
  - intros [= ->]. f_equal. change (Z.of_nat 0) with 0. lia.
  - destruct (char_digit c) as [d|]; [|done]. destruct (d <? base); [|done].
    intros H. replace ((a + b) * base + d) with ((a * base + d) + b * base) by lia.
    rewrite (IH _ _ _ H). f_equal.
    rewrite Nat2Z.inj_succ, Z.pow_succ_r by lia. lia.
Qed.

Lemma digits_go_value base fuel : forall n acc,
  2 <= base <= 16 -> 0 <= n < base ^ Z.of_nat fuel -> (0 < fuel)%nat ->
  digits_value base 0 (digits_go base fuel n acc) = digits_value base n acc.
Proof.
  induction fuel as [|fuel IH]; intros n acc Hb Hn Hf; [lia|].
  simpl digits_go.
  pose proof (Z.mod_pos_bound n base ltac:(lia)) as Hm.
  pose proof (Z.div_mod n base ltac:(lia)) as Hdm.
  destruct (Z.eqb_spec (n / base) 0) as [E|E].
  - rewrite (digits_value_step _ _ _ _ (n mod base)); [|apply char_digit_of; lia|lia].
    f_equal. lia.
  - assert (n / base < base ^ Z.of_nat fuel) as Hlt.
    { apply Z.div_lt_upper_bound; [lia|].
      rewrite Nat2Z.inj_succ, Z.pow_succ_r in Hn by lia. lia. }
    pose proof (Z.div_pos n base ltac:(lia) ltac:(lia)).
    rewrite IH; [|lia|lia|destruct fuel; [change (base ^ Z.of_nat 0) with 1 in Hlt; lia|lia]].
    rewrite (digits_value_step _ _ _ _ (n mod base)); [|apply char_digit_of; lia|lia].
    f_equal. lia.
Qed.

Lemma fuel_enough base n :
  2 <= base -> 0 <= n -> 0 <= n < base ^ Z.of_nat (S (Z.to_nat (Z.log2 n))).
Proof.
  intros Hb Hn. split; [lia|].
  pose proof (Z.log2_nonneg n).
  rewrite Nat2Z.inj_succ, Z2Nat.id by lia.
  destruct (Z.eq_dec n 0) as [->|Hz]; [apply Z.pow_pos_nonneg; lia|].
  apply Z.lt_le_trans with (2 ^ Z.succ (Z.log2 n)).
  - apply Z.log2_spec. lia.
  - apply Z.pow_le_mono_l. lia.
Qed.

(** Rendering then reading a number gives it back. *)
Lemma to_digits_value base n :
  2 <= base <= 16 -> 0 <= n -> digits_value base 0 (to_digits base n) = Some n.
Proof.
  intros Hb Hn. unfold to_digits.
  rewrite digits_go_value; [done|lia| |lia]. apply fuel_enough; lia.
Qed.

Lemma digits_go_digits base fuel : forall n acc,
  2 <= base <= 16 ->
  Forall (is_digit_of base) acc -> Forall (is_digit_of base) (digits_go base fuel n acc).
Proof.
  induction fuel as [|fuel IH]; intros n acc Hb Ha; simpl; [done|].
  assert (is_digit_of base (digit_char (n mod base))).
  { exists (n mod base). split; [apply Z.mod_pos_bound; lia|done]. }
  destruct (n / base =? 0); [by constructor|]. apply IH; [done|by constructor].
Qed.

Lemma to_digits_digits base n : 2 <= base <= 16 -> Forall (is_digit_of base) (to_digits base n).
Proof. intros. apply digits_go_digits; [done|constructor]. Qed.

Lemma digits_go_length base fuel : forall n acc k,
  2 <= base -> 0 <= n < base ^ Z.of_nat k -> (0 < k)%nat ->
  (length (digits_go base fuel n acc) <= k + length acc)%nat.
Proof.
  induction fuel as [|fuel IH]; intros n acc k Hb Hn Hk; simpl; [lia|].
  destruct (Z.eqb_spec (n / base) 0) as [E|E]; [simpl; lia|].
  destruct k as [|[|k]]; [lia| |].
  - change (Z.of_nat 1) with 1 in Hn. rewrite Z.pow_1_r in Hn.
    rewrite Z.div_small in E by lia. lia.
  - etransitivity; [apply (IH _ _ (S k)); [lia| |lia]|simpl; lia].
    rewrite (Nat2Z.inj_succ (S k)), Z.pow_succ_r in Hn by lia.
    split; [apply Z.div_pos; lia|apply Z.div_lt_upper_bound; lia].
Qed.

Lemma to_digits_length base n k :
  2 <= base -> 0 <= n < base ^ Z.of_nat k -> (0 < k)%nat ->
  (length (to_digits base n) <= k)%nat.
Proof.
  intros. etransitivity; [apply (digits_go_length _ _ _ _ k); done|simpl; lia].
Qed.

Lemma digits_go_nonempty base fuel n acc :
  (0 < fuel)%nat \/ acc <> [] -> digits_go base fuel n acc <> [].
Proof.
  revert n acc. induction fuel as [|fuel IH]; intros n acc H; simpl; [destruct H; [lia|done]|].
  destruct (n / base =? 0); [done|]. apply IH. by right.
Qed.

Lemma to_digits_nonempty base n : to_digits base n <> [].
Proof. apply digits_go_nonempty. left; lia. Qed.

Lemma digits_value_zeros base k : forall a s,
  2 <= base -> digits_value base a (replicate k "0"%char ++ s) = digits_value base (a * base ^ Z.of_nat k) s.
Proof.
  induction k as [|k IH]; intros a s Hb.
  - simpl. f_equal. change (Z.of_nat 0) with 0. lia.
  - change (replicate (S k) "0"%char ++ s) with ("0"%char :: (replicate k "0"%char ++ s)).
    rewrite (digits_value_step _ _ _ _ 0); [|done|lia]. rewrite IH by lia.
    rewrite Nat2Z.inj_succ, Z.pow_succ_r by lia. f_equal. lia.
Qed.

(** A zero-padded field of width [k] appends [k] digits. *)
Lemma pad0_value base k n a :
  2 <= base <= 16 -> 0 <= n < base ^ Z.of_nat k -> (0 < k)%nat ->
  digits_value base a (pad0 k (to_digits base n)) = Some (a * base ^ Z.of_nat k + n).
Proof.
  intros Hb Hn Hk. unfold pad0. rewrite digits_value_zeros by lia.
  pose proof (to_digits_length base n k ltac:(lia) Hn Hk) as Hl.
  set (l := length (to_digits base n)) in *.
  pose proof (digits_value_shift base (to_digits base n) 0 (a * base ^ Z.of_nat (k - l)) n
                (to_digits_value base n Hb ltac:(lia))) as E.
  rewrite Z.add_0_l in E. rewrite E. f_equal. fold l.
  replace (Z.of_nat k) with (Z.of_nat (k - l) + Z.of_nat l) by lia.
  rewrite Z.pow_add_r by lia. lia.
Qed.

Lemma pad0_digits base k n :
  2 <= base <= 16 -> Forall (is_digit_of base) (pad0 k (to_digits base n)).
Proof.
  intros Hb. apply Forall_app. split; [|by apply to_digits_digits].
  apply Forall_replicate. exists 0. split; [lia|done].
Qed.

(** ** Concrete instances *)

(** A closed decidable fact, by evaluation. *)
Ltac concrete := vm_compute; repeat split; (discriminate || reflexivity).
