(* ===== verification/IntegerValue.v ===== *)
(** * Integer constants (src/numeric/integer_value.h)

    [IntegerValue] is the compiler's integer constant of up to 128 bits: two
    64-bit words, a declared width and a signedness. Each member function is a
    definition of the same name; 128-bit intermediate results are [Z]s wrapped
    by [u128] and [s128] where the code converts. The theorems relate every
    operation to the mathematical integer [to_Z] the value denotes. *)
From S2P Require Import Prelude.

Record IntegerValue := mkInteger {
  low_bits : Z;
  high_bits : Z;
  bit_width : Z;
  is_unsigned : bool;
}.

#[export] Instance IntegerValue_eq_dec : EqDecision IntegerValue.
Proof. solve_decision. Defined.

(** ** Operations *)

Definition normalized_width (width : Z) : Z :=
  if width =? 0 then 1 else if width >? 128 then 128 else width.

Definition width_mask (width : Z) : Z :=
  let width := normalized_width width in
  if width =? 128 then unot 128 0
  else u128 (Z.shiftl 1 width) - 1.

Definition from_bits128 (bits width : Z) (unsigned_value : bool) : IntegerValue :=
  let bits := Z.land bits (width_mask width) in
  {| low_bits := u64 bits;
     high_bits := u64 (Z.shiftr bits 64);
     bit_width := if width =? 0 then 1 else width;
     is_unsigned := unsigned_value |}.

Definition from_words (low high width : Z) (unsigned_value : bool) : IntegerValue :=
  from_bits128 (Z.lor (u128 (Z.shiftl high 64)) low) width unsigned_value.

Definition from_unsigned (value width : Z) : IntegerValue :=
  from_bits128 value width true.

Definition from_signed (value width : Z) : IntegerValue :=
  from_bits128 (u128 value) width false.

Definition to_unsigned_u128 (v : IntegerValue) : Z :=
  let bits := Z.lor (u128 (Z.shiftl (high_bits v) 64)) (low_bits v) in
  Z.land bits (width_mask (bit_width v)).

Definition to_signed_i128 (v : IntegerValue) : Z :=
  let bits := to_unsigned_u128 v in
  let width := normalized_width (bit_width v) in
  let bits :=
    if (width <? 128) && negb (Z.land bits (u128 (Z.shiftl 1 (width - 1))) =? 0)
    then Z.lor bits (unot 128 (width_mask width))
    else bits in
  s128 bits.

Definition to_unsigned_u64 (v : IntegerValue) : Z := low_bits v.

Definition to_signed_i64 (v : IntegerValue) : Z := s64 (to_signed_i128 v).

Definition try_as_uint64 (v : IntegerValue) : option Z :=
  if is_unsigned v then
    if high_bits v =? 0 then Some (low_bits v) else None
  else
    let value := to_signed_i128 v in
    if (value <? 0) || (u128 value >? 2 ^ 64 - 1) then None
    else Some (u64 value).

Definition try_as_int64 (v : IntegerValue) : option Z :=
  if is_unsigned v then
    let value := to_unsigned_u128 v in
    if value >? 2 ^ 63 - 1 then None else Some (s64 value)
  else
    let value := to_signed_i128 v in
    if (value <? - 2 ^ 63) || (value >? 2 ^ 63 - 1) then None
    else Some (s64 value).

Definition cast (v : IntegerValue) (new_width : Z) (new_unsigned : bool) : IntegerValue :=
  let value := if is_unsigned v then to_unsigned_u128 v else u128 (to_signed_i128 v) in
  from_bits128 value new_width new_unsigned.

Definition canonical (v : IntegerValue) : bool :=
  (1 <=? bit_width v) && (bit_width v <=? 128) &&
  bool_decide (v = from_words (low_bits v) (high_bits v) (bit_width v) (is_unsigned v)).

Definition is_zero (v : IntegerValue) : bool :=
  (low_bits v =? 0) && (high_bits v =? 0).

Definition is_negative (v : IntegerValue) : bool :=
  negb (is_unsigned v) && (to_signed_i128 v <? 0).

(** The do-while loop of [decimal]; [room] counts the bytes left in front of
    [current] in the 40-byte buffer, so [None] is a write before it. *)
Fixpoint decimal_loop (room : nat) (magnitude : Z) (current : chars) : option chars :=
  match room with
  | O => None
  | S room' =>
      let digit := magnitude mod 10 in
      let current := chr (48 + digit) :: current in
      let magnitude := magnitude / 10 in
      if negb (magnitude =? 0) then decimal_loop room' magnitude current
      else Some current
  end.

Definition decimal (v : IntegerValue) : option chars :=
  let negative := is_negative v in
  let magnitude :=
    if negative then
      let bits := to_unsigned_u128 v in
      Z.land (u128 (unot 128 bits + 1)) (width_mask (bit_width v))
    else to_unsigned_u128 v in
  match decimal_loop 40 magnitude [] with
  | Some s => Some (if negative then "-"%char :: s else s)
  | None => None
  end.

(** ** Specification: the integer a value denotes *)

(** The number of bits the operations keep. *)
Abbreviation width_of v := (normalized_width (bit_width v)).

(** Both words are 64-bit words and the width fits its 16-bit field. *)
Definition words_ok (v : IntegerValue) : Prop :=
  word 64 (low_bits v) /\ word 64 (high_bits v) /\ word 16 (bit_width v).

Definition raw_Z (v : IntegerValue) : Z := low_bits v + high_bits v * 2 ^ 64.

(** Two's complement (or unsigned) reading of the low [w] bits of [x]. *)
Definition wrap_to (w : Z) (uns : bool) (x : Z) : Z := if uns then uwrap w x else swrap w x.

Definition to_Z (v : IntegerValue) : Z := wrap_to (width_of v) (is_unsigned v) (raw_Z v).

(** Reading a decimal rendering back. *)
Definition decimal_read (s : chars) : option Z :=
  match s with
  | c :: s' => if ceqb c "-"%char then option_map Z.opp (digits_value 10 0 s')
               else digits_value 10 0 s
  | [] => None
  end.

(** ** Lemmas *)

Lemma normalized_width_range w : 0 <= w -> 1 <= normalized_width w <= 128.
Proof. intros. unfold normalized_width. rewrite Z.gtb_ltb. repeat zcase; lia. Qed.

Lemma normalized_width_id w : 1 <= w <= 128 -> normalized_width w = w.
Proof. intros. unfold normalized_width. rewrite Z.gtb_ltb. repeat zcase; lia. Qed.

Lemma width_mask_ones w : 0 <= w -> width_mask w = 2 ^ normalized_width w - 1.
Proof.
  intros Hw. pose proof (normalized_width_range w Hw). unfold width_mask. zcase.
  - rewrite E. reflexivity.
  - rewrite shiftl_mul, Z.mul_1_l by lia. unfold uwrap.
    rewrite Z.mod_small; [done|]. split; [apply Z.pow_nonneg; lia|].
    apply pow2_lt. lia.
Qed.

Lemma land_width_mask x w : 0 <= w -> Z.land x (width_mask w) = uwrap (normalized_width w) x.
Proof.
  intros Hw. rewrite width_mask_ones by done. pose proof (normalized_width_range w Hw).
  apply land_pow2_minus_1. lia.
Qed.

(** Joining the two words. *)
Lemma join_words lo hi :
  word 64 lo -> word 64 hi -> Z.lor (u128 (Z.shiftl hi 64)) lo = lo + hi * 2 ^ 64.
Proof.
  intros Hl Hh. rewrite shiftl_mul by lia. rewrite uwrap_small.
  - apply lor_fields'; [lia|done].
  - unfold word in *. lia.
Qed.

Lemma raw_range v : words_ok v -> word 128 (raw_Z v).
Proof. intros (? & ? & ?). unfold raw_Z, word in *. lia. Qed.

Lemma split_words x : word 128 x -> u64 x + u64 (Z.shiftr x 64) * 2 ^ 64 = x.
Proof.
  intros [H1 H2]. rewrite shiftr_div by lia. unfold uwrap.
  rewrite (Z.mod_small (x / _)) by (split; [apply Z.div_pos|apply Z.div_lt_upper_bound]; lia).
  pose proof (Z.div_mod x (2 ^ 64) ltac:(lia)). lia.
Qed.

Lemma uwrap_word128 w x : 1 <= w <= 128 -> word 128 (uwrap w x).
Proof. intros. apply (word_mono w); [lia|]. apply uwrap_word; lia. Qed.

Lemma from_bits128_ok bits width uns :
  word 16 width -> words_ok (from_bits128 bits width uns).
Proof.
  intros [H1 H2]. repeat split; simpl; try (apply uwrap_range; lia); zcase; lia.
Qed.

Lemma from_bits128_width bits width uns :
  0 <= width -> width_of (from_bits128 bits width uns) = normalized_width width.
Proof.
  intros. simpl. destruct (Z.eqb_spec width 0) as [->|]; done.
Qed.

Lemma from_bits128_raw bits width uns :
  0 <= width -> raw_Z (from_bits128 bits width uns) = uwrap (normalized_width width) bits.
Proof.
  intros. unfold raw_Z. simpl. rewrite land_width_mask by done.
  apply split_words, uwrap_word128, normalized_width_range. done.
Qed.

Lemma to_unsigned_spec v : words_ok v -> to_unsigned_u128 v = uwrap (width_of v) (raw_Z v).
Proof.
  intros Hv. unfold to_unsigned_u128. destruct Hv as (Hl & Hh & Hw).
  rewrite join_words by done. apply land_width_mask. unfold word in Hw; lia.
Qed.

Lemma sign_fill w x :
  1 <= w < 128 -> word w x -> Z.testbit x (w - 1) = true ->
  s128 (Z.lor x (unot 128 (width_mask w))) = x - 2 ^ w.
Proof.
  intros Hw Hx Ht. rewrite testbit_top in Ht by (done || lia). ztests.
  assert (unot 128 (width_mask w) = (2 ^ (128 - w) - 1) * 2 ^ w) as ->.
  { pose proof (width_mask_ones w ltac:(lia)) as Hm. rewrite normalized_width_id in Hm by lia.
    pose proof (pow2_split (128 - w) w ltac:(lia) ltac:(lia)) as Hp.
    replace (128 - w + w) with 128 in Hp by lia.
    pose proof (pow2_pos w ltac:(lia)). pose proof (pow2_lt w 128 ltac:(lia)).
    rewrite unot_eq, Hm; unfold word; lia. }
  rewrite lor_fields by (done || lia).
  pose proof (pow2_split (128 - w) w ltac:(lia) ltac:(lia)) as Hp.
  replace (128 - w + w) with 128 in Hp by lia.
  pose proof (pow2_le w 127 ltac:(lia)). pose proof (pow2_le (w - 1) w ltac:(lia)).
  unfold word in Hx. unfold swrap, uwrap.
  rewrite Z.mod_small by nia.
  replace ((2 ^ (128 - w) - 1) * 2 ^ w) with (2 ^ 128 - 2 ^ w) by lia.
  zcase; lia.
Qed.

Lemma to_signed_spec v : words_ok v -> to_signed_i128 v = swrap (width_of v) (raw_Z v).
Proof.
  intros Hv. unfold to_signed_i128. rewrite to_unsigned_spec by done.
  destruct Hv as (_ & _ & Hw). pose proof (normalized_width_range (bit_width v) ltac:(unfold word in Hw; lia)) as Hr.
  set (w := normalized_width (bit_width v)) in *. set (x := uwrap w (raw_Z v)).
  assert (word w x) as Hx by (apply uwrap_word; lia).
  assert (u128 (Z.shiftl 1 (w - 1)) = 2 ^ (w - 1)) as ->.
  { rewrite shiftl_mul, Z.mul_1_l by lia. apply uwrap_small. unfold word.
    pose proof (pow2_lt (w - 1) 128 ltac:(lia)). pose proof (pow2_pos (w - 1) ltac:(lia)). lia. }
  rewrite land_pow2_testbit by lia.
  assert (swrap w (raw_Z v) = if Z.testbit x (w - 1) then x - 2 ^ w else x) as ->.
  { unfold swrap. fold x. rewrite testbit_top by (done || lia).
    rewrite Z.leb_antisym. by destruct (x <? 2 ^ (w - 1)). }
  destruct (Z.ltb_spec w 128) as [Hlt|Hge]; simpl.
  - destruct (Z.testbit x (w - 1)) eqn:Et.
    + apply sign_fill; (done || lia).
    + rewrite testbit_top in Et by (done || lia). ztests.
      apply swrap_small; [lia|]. pose proof (pow2_le (w - 1) 127 ltac:(lia)).
      destruct Hx. lia.
  - assert (w = 128) as Ew by lia. clearbody w x. subst w.
    unfold swrap. rewrite uwrap_small by done. rewrite testbit_top by (done || lia).
    rewrite Z.leb_antisym. by destruct (x <? 2 ^ (128 - 1)).
Qed.

Lemma to_Z_signed v : words_ok v -> is_unsigned v = false -> to_signed_i128 v = to_Z v.
Proof. intros Hv Hs. rewrite to_signed_spec by done. unfold to_Z. by rewrite Hs. Qed.

Lemma to_Z_unsigned v : words_ok v -> is_unsigned v = true -> to_unsigned_u128 v = to_Z v.
Proof. intros Hv Hs. rewrite to_unsigned_spec by done. unfold to_Z. by rewrite Hs. Qed.

Lemma uwrap_uwrap w w' x : 0 <= w <= w' -> uwrap w (uwrap w' x) = uwrap w x.
Proof.
  intros. unfold uwrap. replace (2 ^ w') with (2 ^ w * 2 ^ (w' - w)).
  - rewrite Z.rem_mul_r by (apply pow2_nz || apply pow2_pos; lia).
    rewrite (Z.mul_comm (2 ^ w)), Z_mod_plus_full. apply Zmod_mod.
  - rewrite <- Z.pow_add_r by lia. f_equal; lia.
Qed.

Lemma uwrap_swrap w x : 0 <= w -> uwrap w (swrap w x) = uwrap w x.
Proof.
  intros. unfold swrap. zcase; [apply uwrap_idem|].
  unfold uwrap. replace (x mod 2 ^ w - 2 ^ w) with (x mod 2 ^ w + (-1) * 2 ^ w) by lia.
  rewrite Z_mod_plus_full. apply Zmod_mod.
Qed.

Lemma wrap_to_uwrap w w' uns x :
  0 <= w <= w' -> wrap_to w uns (uwrap w' x) = wrap_to w uns x.
Proof.
  intros. unfold wrap_to, swrap. destruct uns; by rewrite ?uwrap_uwrap by lia.
Qed.

Lemma wrap_to_id w (uns : bool) x :
  0 < w -> (if uns then 0 <= x < 2 ^ w else - 2 ^ (w - 1) <= x < 2 ^ (w - 1)) ->
  wrap_to w uns x = x.
Proof.
  intros Hw Hx. unfold wrap_to. destruct uns; [by apply uwrap_small|by apply swrap_small].
Qed.

Lemma to_Z_from_bits bits width uns :
  0 <= width -> to_Z (from_bits128 bits width uns) = wrap_to (normalized_width width) uns bits.
Proof.
  intros H. unfold to_Z. rewrite from_bits128_width, from_bits128_raw by done.
  pose proof (normalized_width_range width H).
  simpl. apply wrap_to_uwrap. lia.
Qed.

Lemma decimal_loop_go room : forall m acc,
  decimal_loop room m acc = None \/
  (exists s, decimal_loop room m acc = Some s /\ s = digits_go 10 room m acc).
Proof.
  induction room as [|room IH]; intros m acc; simpl; [by left|].
  assert (0 <= m mod 10 < 10) as Hd by (apply Z.mod_pos_bound; lia).
  assert (digit_char (m mod 10) = chr (48 + m mod 10)) as ->.
  { unfold digit_char. zcase; [done|lia]. }
  destruct (Z.eqb_spec (m / 10) 0) as [E|E]; simpl; [right; eauto|apply IH].
Qed.

Lemma decimal_loop_total room : forall m acc,
  0 <= m < 10 ^ Z.of_nat room -> (0 < room)%nat -> decimal_loop room m acc <> None.
Proof.
  induction room as [|room IH]; intros m acc Hm Hr; simpl; [lia|].
  destruct (Z.eqb_spec (m / 10) 0) as [E|E]; simpl; [done|].
  rewrite Nat2Z.inj_succ, Z.pow_succ_r in Hm by lia.
  apply IH.
  - split; [apply Z.div_pos; lia|apply Z.div_lt_upper_bound; lia].
  - destruct room; [|lia]. change (10 ^ Z.of_nat 0) with 1 in Hm.
    rewrite Z.div_small in E by lia. lia.
Qed.

Lemma decimal_loop_spec m :
  word 128 m -> exists s, decimal_loop 40 m [] = Some s /\ digits_value 10 0 s = Some m
                          /\ Forall (is_digit_of 10) s /\ s <> [].
Proof.
  intros [H1 H2].
  assert (0 <= m < 10 ^ Z.of_nat 40) as Hm by (change (10 ^ Z.of_nat 40) with (10 ^ 40); lia).
  destruct (decimal_loop_go 40 m []) as [E|(s & E & ->)].
  - exfalso. exact (decimal_loop_total 40 m [] Hm ltac:(lia) E).
  - exists (digits_go 10 40 m []). split; [done|]. split; [|split].
    + rewrite digits_go_value; [done|lia|done|lia].
    + apply digits_go_digits; [lia|constructor].
    + apply digits_go_nonempty. left; lia.
Qed.

(** The magnitude [decimal] prints. *)
Lemma decimal_magnitude v :
  words_ok v -> is_negative v = true ->
  Z.land (u128 (unot 128 (to_unsigned_u128 v) + 1)) (width_mask (bit_width v)) = - to_Z v.
Proof.
  intros Hv Hn. unfold is_negative in Hn. apply andb_true_iff in Hn as [Hs Hn]. ztests.
  rewrite to_signed_spec in Hn by done.
  unfold to_Z. rewrite Hs. simpl.
  pose proof Hv as (_ & _ & Hbw). unfold word in Hbw.
  pose proof (normalized_width_range (bit_width v) ltac:(lia)) as Hr.
  rewrite land_width_mask by lia. rewrite uwrap_uwrap by lia.
  rewrite to_unsigned_spec by done.
  set (w := normalized_width (bit_width v)) in *. set (r := raw_Z v) in *.
  pose proof (uwrap_range w r ltac:(lia)) as Hu.
  rewrite unot_eq by (lia || apply uwrap_word128; lia).
  unfold swrap in *. destruct (Z.ltb_spec (uwrap w r) (2 ^ (w - 1))); [lia|].
  pose proof (pow2_pos (w - 1) ltac:(lia)).
  unfold uwrap at 1.
  replace (2 ^ 128 - 1 - uwrap w r + 1) with ((2 ^ w - uwrap w r) + (2 ^ (128 - w) - 1) * 2 ^ w).
  - rewrite Z_mod_plus_full. rewrite Z.mod_small by lia. lia.
  - pose proof (pow2_split (128 - w) w ltac:(lia) ltac:(lia)) as Hp.
    replace (128 - w + w) with 128 in Hp by lia. lia.
Qed.

Lemma digit_not_minus base c : 2 <= base <= 16 -> is_digit_of base c -> ceqb c "-"%char = false.
Proof.
  intros Hb (d & Hd & ->). unfold ceqb. apply Ascii.eqb_neq. intros E.
  pose proof (char_digit_of d ltac:(lia)) as H. rewrite E in H. discriminate.
Qed.

(** ** Properties *)

(** [from_bits128] keeps exactly the low bits: the result denotes the
    two's complement (or unsigned) reading of the requested width, and casting a
    value re-reads the integer it denotes at the new width and signedness. *)
Theorem cast_denotes v width uns :
  words_ok v -> word 16 width ->
  words_ok (cast v width uns) /\
  to_Z (cast v width uns) = wrap_to (normalized_width width) uns (to_Z v).
Proof.
  intros Hv Hw. pose proof Hw as [Hw1 _]. unfold cast. split; [by apply from_bits128_ok|].
  rewrite to_Z_from_bits by done.
  pose proof (normalized_width_range width Hw1).
  destruct (is_unsigned v) eqn:E.
  - by rewrite (to_Z_unsigned v Hv E).
  - rewrite (to_Z_signed v Hv E). apply wrap_to_uwrap. lia.
Qed.

Lemma cast_denotes_witness :
  to_Z (cast (from_signed (-3) 16) 8 true) = 253.
Proof.
  exact (proj2 (cast_denotes (from_signed (-3) 16) 8 true
    ltac:(vm_compute; repeat split; discriminate || reflexivity)
    ltac:(vm_compute; split; discriminate || reflexivity))).
Defined.

Lemma canonical_spec v :
  canonical v = true -> words_ok v ->
  1 <= bit_width v <= 128 /\ word (bit_width v) (raw_Z v).
Proof.
  unfold canonical. intros Hc Hv. ztests.
  match goal with H : bool_decide _ = true |- _ => apply bool_decide_eq_true in H; rename H into He end.
  split; [lia|]. pose proof Hv as (Hl & Hh & _).
  assert (raw_Z v = uwrap (bit_width v) (raw_Z v)) as ->; [|apply uwrap_word; lia].
  rewrite He at 1. unfold from_words. rewrite from_bits128_raw by lia.
  rewrite normalized_width_id by lia. by rewrite join_words.
Qed.

Lemma high_zero_iff v : words_ok v -> (high_bits v =? 0) = (raw_Z v <? 2 ^ 64).
Proof.
  intros (Hl & Hh & _). unfold raw_Z, word in *.
  destruct (Z.eqb_spec (high_bits v) 0), (Z.ltb_spec (low_bits v + high_bits v * 2 ^ 64) (2 ^ 64)); lia.
Qed.

Lemma signed_bounds v :
  words_ok v -> - 2 ^ 127 <= swrap (width_of v) (raw_Z v) < 2 ^ 127.
Proof.
  intros (_ & _ & Hw). pose proof (normalized_width_range (bit_width v) ltac:(unfold word in Hw; lia)).
  pose proof (swrap_range (width_of v) (raw_Z v) ltac:(lia)).
  pose proof (pow2_le (width_of v - 1) 127 ltac:(lia)). lia.
Qed.

(** the checked conversions succeed exactly on the values that fit, and
    return the integer the value denotes. *)
Theorem try_as_exact v :
  words_ok v -> canonical v = true ->
  try_as_uint64 v = (if (0 <=? to_Z v) && (to_Z v <? 2 ^ 64) then Some (to_Z v) else None) /\
  try_as_int64 v = (if (- 2 ^ 63 <=? to_Z v) && (to_Z v <? 2 ^ 63) then Some (to_Z v) else None).
Proof.
  intros Hv Hc. pose proof (canonical_spec v Hc Hv) as [Hw Hr].
  pose proof (signed_bounds v Hv) as Hb. unfold try_as_uint64, try_as_int64.
  unfold to_Z, wrap_to. rewrite to_unsigned_spec, to_signed_spec by done.
  rewrite normalized_width_id in * by lia.
  destruct (is_unsigned v).
  - rewrite uwrap_small by done. rewrite high_zero_iff by done.
    assert (raw_Z v < 2 ^ 64 -> low_bits v = raw_Z v).
    { intros. destruct Hv as (? & ? & _). unfold raw_Z, word in *. lia. }
    destruct Hr. rewrite !(proj2 (Z.leb_le _ (raw_Z v))) by lia. simpl.
    rewrite Z.gtb_ltb. split.
    + zcase; [f_equal; auto|done].
    + destruct (Z.ltb_spec (2 ^ 63 - 1) (raw_Z v)), (Z.ltb_spec (raw_Z v) (2 ^ 63)); try lia; [done|].
      f_equal. apply swrap_small; lia.
  - set (z := swrap (bit_width v) (raw_Z v)) in *. rewrite !Z.gtb_ltb, !Z.leb_antisym. split.
    + destruct (Z.ltb_spec z 0); simpl; [done|]. rewrite (uwrap_small 128) by (unfold word; lia).
      destruct (Z.ltb_spec (2 ^ 64 - 1) z), (Z.ltb_spec z (2 ^ 64)); try lia; [done|].
      f_equal. apply uwrap_small. unfold word. lia.
    + destruct (Z.ltb_spec z (- 2 ^ 63)); simpl; [done|].
      destruct (Z.ltb_spec (2 ^ 63 - 1) z), (Z.ltb_spec z (2 ^ 63)); try lia; [done|].
      f_equal. apply swrap_small; lia.
Qed.

Lemma try_as_exact_witness :
  try_as_uint64 (from_signed (-1) 64) = None /\ try_as_int64 (from_signed (-1) 64) = Some (-1).
Proof.
  exact (try_as_exact (from_signed (-1) 64)
    ltac:(vm_compute; repeat split; discriminate || reflexivity) ltac:(reflexivity)).
Defined.

(** [decimal] never writes outside its 40-byte buffer (the model returns
    a string), and the string read back as a signed decimal numeral is the
    integer the value denotes, the most negative 128-bit value included. *)
Theorem decimal_reads_back v :
  words_ok v -> exists s, decimal v = Some s /\ decimal_read s = Some (to_Z v).
Proof.
  intros Hv. pose proof (signed_bounds v Hv) as Hb.
  unfold decimal. destruct (is_negative v) eqn:En.
  - rewrite decimal_magnitude by done.
    assert (word 128 (- to_Z v)) as Hm.
    { unfold is_negative in En. apply andb_true_iff in En as [Hs En]. ztests.
      rewrite to_signed_spec in En by done. unfold to_Z. rewrite Hs. unfold word. simpl. lia. }
    destruct (decimal_loop_spec _ Hm) as (s & -> & Hs & _ & _).
    exists ("-"%char :: s). split; [done|]. simpl. rewrite Hs. simpl. f_equal. lia.
  - assert (to_unsigned_u128 v = to_Z v) as Et.
    { rewrite to_unsigned_spec by done. unfold to_Z, is_negative in *.
      destruct (is_unsigned v); [done|]. simpl in *. ztests. rewrite to_signed_spec in En by done.
      unfold swrap in *. destruct (uwrap _ _ <? _) eqn:E1; [done|].
      pose proof Hv as (_ & _ & Hw). pose proof (normalized_width_range (bit_width v) ltac:(unfold word in Hw; lia)).
      pose proof (uwrap_range (width_of v) (raw_Z v) ltac:(lia)). lia. }
    rewrite Et.
    assert (word 128 (to_Z v)) as Hm.
    { rewrite <- Et, to_unsigned_spec by done. apply uwrap_word128, normalized_width_range.
      destruct Hv as (_ & _ & []). done. }
    destruct (decimal_loop_spec _ Hm) as (s & -> & Hs & Hd & Hne).
    exists s. split; [done|]. destruct s as [|c s']; [done|]. simpl decimal_read.
    rewrite (digit_not_minus 10) by (lia || by inversion Hd). done.
Qed.

Lemma decimal_reads_back_witness :
  exists s, decimal (from_signed (- 2 ^ 127) 128) = Some s /\ decimal_read s = Some (- 2 ^ 127).
Proof.
  exact (decimal_reads_back (from_signed (- 2 ^ 127) 128)
    ltac:(vm_compute; repeat split; discriminate || reflexivity)).
Defined.
