(* ===== verification/BigUInt.v ===== *)
(** * Arbitrary-precision unsigned integers (class BigUInt, src/numeric/floating_point.cpp)

    A [BigUInt] is its vector [words_] of 64-bit words, least significant
    first; the class keeps it free of leading zero words. Every member function
    is a definition of the same name over that vector, with the 64- and 128-bit
    wrap-around of the code written out. [bval] is the number a vector denotes
    and [wf] the class invariant; the lemmas show that each operation keeps [wf]
    and computes the expected integer. *)
From S2P Require Import Prelude.

(** The field [words_] of the class. *)
Abbreviation BigUInt := (list Z) (only parsing).

(** ** Helpers of the model *)

(** [__builtin_clzll] on a non-zero 64-bit word. *)
Definition clzll (x : Z) : Z := 63 - Z.log2 x.

(** [words_.resize(n, 0)]. *)
Definition vec_resize (n : nat) (ws : list Z) : list Z :=
  take n ws ++ replicate (n - length ws) 0.

(** ** Operations *)

(** Pop the zero words at the back. *)
Fixpoint normalize (ws : BigUInt) : BigUInt :=
  match ws with
  | [] => []
  | w :: ws' =>
      match normalize ws' with
      | [] => if w =? 0 then [] else [w]
      | r => w :: r
      end
  end.

Definition of_u128 (value : Z) : BigUInt :=
  let low := u64 value in
  let words := if negb (low =? 0) then [low]
               else if negb (Z.shiftr value 64 =? 0) then [0] else [] in
  let high := u64 (Z.shiftr value 64) in
  if negb (high =? 0) then words ++ [high] else words.

Definition is_zero (b : BigUInt) : bool := match b with [] => true | _ => false end.

Definition is_odd (b : BigUInt) : bool :=
  negb (is_zero b) && negb (Z.land (nthz b 0) 1 =? 0).

Definition word_count (b : BigUInt) : nat := length b.

Definition bit_width (b : BigUInt) : Z :=
  if is_zero b then 0
  else
    let top := nthz b (length b - 1) in
    (Z.of_nat (length b) - 1) * 64 + (64 - clzll top).

Definition bit (b : BigUInt) (index : Z) : bool :=
  let word := Z.to_nat (index / 64) in
  (word <? length b)%nat &&
  negb (Z.land (nthz b word) (u64 (Z.shiftl 1 (index mod 64))) =? 0).

Definition set_bit (b : BigUInt) (index : Z) : BigUInt :=
  let word := Z.to_nat (index / 64) in
  let b := if (length b <=? word)%nat then vec_resize (word + 1) b else b in
  <[word := Z.lor (nthz b word) (u64 (Z.shiftl 1 (index mod 64)))]> b.

(** The scan of [compare] from the most significant word. *)
Fixpoint compare_loop (a b : BigUInt) (i : nat) : Z :=
  match i with
  | O => 0
  | S i' =>
      if negb (nthz a i' =? nthz b i')
      then (if nthz a i' <? nthz b i' then -1 else 1)
      else compare_loop a b i'
  end.

Definition compare (a b : BigUInt) : Z :=
  if negb (length a =? length b)%nat
  then (if (length a <? length b)%nat then -1 else 1)
  else compare_loop a b (length a).

Definition shifted_left (b : BigUInt) (bits : Z) : BigUInt :=
  if is_zero b || (bits =? 0) then b
  else
    let whole := Z.to_nat (bits / 64) in
    let part := bits mod 64 in
    let out := replicate (length b + whole + (if (part =? 0)%Z then 0 else 1))%nat 0 in
    let out :=
      for_up (length b) (fun i out =>
        let out := <[(i + whole)%nat :=
          Z.lor (nthz out (i + whole)) (u64 (Z.shiftl (nthz b i) part))]> out in
        if negb (part =? 0)
        then <[(i + whole + 1)%nat :=
               Z.lor (nthz out (i + whole + 1)) (Z.shiftr (nthz b i) (64 - part))]> out
        else out) out in
    normalize out.

(** The words dropped by a right shift: [*discarded] of [shifted_right]. *)
Definition shift_discards (b : BigUInt) (whole : nat) (part : Z) : bool :=
  let discarded :=
    for_up (min whole (length b)) (fun i d => d || negb (nthz b i =? 0)) false in
  if negb (part =? 0) && (whole <? length b)%nat
  then discarded || negb (Z.land (nthz b whole) (u64 (Z.shiftl 1 part) - 1) =? 0)
  else discarded.

(** The result and the final [*discarded]. *)
Definition shifted_right (b : BigUInt) (bits : Z) : BigUInt * bool :=
  if is_zero b || (bits =? 0) then (b, false)
  else
    let whole := Z.to_nat (bits / 64) in
    let part := bits mod 64 in
    let discarded := shift_discards b whole part in
    if (length b <=? whole)%nat then ([], discarded)
    else
      let out := replicate (length b - whole) 0 in
      let out :=
        for_up (length b - whole) (fun target out =>
          let i := (whole + target)%nat in
          let out := <[target := Z.lor (nthz out target) (Z.shiftr (nthz b i) part)]> out in
          if negb (part =? 0) && (i + 1 <? length b)%nat
          then <[target := Z.lor (nthz out target)
                                 (u64 (Z.shiftl (nthz b (i + 1)) (64 - part)))]> out
          else out) out in
      (normalize out, discarded).

(** The descending loop of [shift_right_one]: new words and the carry that
    reaches the next lower word. *)
Fixpoint shift_right_one_loop (ws : BigUInt) : BigUInt * Z :=
  match ws with
  | [] => ([], 0)
  | w :: ws' =>
      let '(r, carry) := shift_right_one_loop ws' in
      let next := u64 (Z.shiftl w 63) in
      (Z.lor (Z.shiftr w 1) carry :: r, next)
  end.

Definition shift_right_one (b : BigUInt) : BigUInt :=
  normalize (shift_right_one_loop b).1.

Fixpoint add_loop (ws other : BigUInt) (carry : Z) : BigUInt * Z :=
  match ws with
  | [] => ([], carry)
  | w :: ws' =>
      let sum := u128 (w + hd 0 other + carry) in
      let '(r, carry) := add_loop ws' (tail other) (Z.shiftr sum 64) in
      (u64 sum :: r, carry)
  end.

Definition add (b other : BigUInt) : BigUInt :=
  let size := max (length b) (length other) in
  let '(ws, carry) := add_loop (vec_resize size b) other 0 in
  if negb (carry =? 0) then ws ++ [u64 carry] else ws.

Fixpoint add_small_loop (ws : BigUInt) (carry : Z) : BigUInt * Z :=
  match ws with
  | [] => ([], carry)
  | w :: ws' =>
      if carry =? 0 then (ws, carry)
      else
        let sum := u128 (w + carry) in
        let '(r, carry) := add_small_loop ws' (Z.shiftr sum 64) in
        (u64 sum :: r, carry)
  end.

Definition add_small (b : BigUInt) (value : Z) : BigUInt :=
  if value =? 0 then b
  else if is_zero b then [value]
  else
    let '(ws, carry) := add_small_loop b value in
    if negb (carry =? 0) then ws ++ [u64 carry] else ws.

Fixpoint subtract_loop (ws other : BigUInt) (borrow : Z) : BigUInt :=
  match ws with
  | [] => []
  | prior :: ws' =>
      let rhs := hd 0 other in
      let with_borrow := u64 (rhs + borrow) in
      let rhs_overflow := with_borrow <? rhs in
      let w := u64 (prior - with_borrow) in
      let borrow := if rhs_overflow || (prior <? with_borrow) then 1 else 0 in
      w :: subtract_loop ws' (tail other) borrow
  end.

Definition subtract (b other : BigUInt) : BigUInt :=
  normalize (subtract_loop b other 0).

Fixpoint multiply_small_loop (ws : BigUInt) (value carry : Z) : BigUInt * Z :=
  match ws with
  | [] => ([], carry)
  | w :: ws' =>
      let product := u128 (w * value + carry) in
      let '(r, carry) := multiply_small_loop ws' value (Z.shiftr product 64) in
      (u64 product :: r, carry)
  end.

Definition multiply_small (b : BigUInt) (value : Z) : BigUInt :=
  if (value =? 0) || is_zero b then []
  else
    let '(ws, carry) := multiply_small_loop b value 0 in
    if negb (carry =? 0) then ws ++ [u64 carry] else ws.

(** The loop [while (carry != 0)] of [multiply]; [fuel] bounds its rounds. *)
Fixpoint carry_loop (fuel : nat) (out : BigUInt) (index : nat) (carry : Z) : BigUInt :=
  match fuel with
  | O => out
  | S fuel' =>
      if carry =? 0 then out
      else
        let sum := u128 (nthz out index + carry) in
        let out := <[index := u64 sum]> out in
        let carry := Z.shiftr sum 64 in
        let index := S index in
        let out := if (index =? length out)%nat && negb (carry =? 0)
                   then out ++ [0] else out in
        carry_loop fuel' out index carry
  end.

(** One round of the outer loop of [multiply]: add [lhs[i] * rhs] at word [i]. *)
Definition multiply_row (rhs : BigUInt) (lhs_i : Z) (i : nat) (out : BigUInt) : BigUInt :=
  let '(out, carry) :=
    for_up (length rhs) (fun j st =>
      let '(out, carry) := st in
      let index := (i + j)%nat in
      let product := u128 (u128 (lhs_i * nthz rhs j) + nthz out index + carry) in
      (<[index := u64 product]> out, Z.shiftr product 64)) (out, 0) in
  carry_loop (S (length out)) out (i + length rhs) carry.

Definition multiply (lhs rhs : BigUInt) : BigUInt :=
  if is_zero lhs || is_zero rhs then []
  else
    let out := replicate (length lhs + length rhs) 0 in
    normalize (for_up (length lhs) (fun i out => multiply_row rhs (nthz lhs i) i out) out).

(** One round of the restoring division: the state is the remaining
    [numerator], the shifted denominator and the quotient so far. *)
Definition divmod_step (index : nat) (st : BigUInt * BigUInt * BigUInt)
    : BigUInt * BigUInt * BigUInt :=
  let '(numerator, shifted, quotient) := st in
  let '(numerator, quotient) :=
    if 0 <=? compare numerator shifted
    then (subtract numerator shifted, set_bit quotient (Z.of_nat index))
    else (numerator, quotient) in
  let shifted := if negb (index =? 0)%nat then shift_right_one shifted else shifted in
  (numerator, shifted, quotient).

Definition divmod (numerator denominator : BigUInt) : BigUInt * BigUInt :=
  if is_zero denominator || (compare numerator denominator <? 0) then ([], numerator)
  else
    let shift := bit_width numerator - bit_width denominator in
    let shifted := shifted_left denominator shift in
    let '(numerator, _, quotient) :=
      for_down (S (Z.to_nat shift)) divmod_step (numerator, shifted, []) in
    (normalize quotient, normalize numerator).

Fixpoint divide_small_loop (ws : BigUInt) (divisor : Z) : BigUInt * Z :=
  match ws with
  | [] => ([], 0)
  | w :: ws' =>
      let '(r, remainder) := divide_small_loop ws' divisor in
      let current := Z.lor (u128 (Z.shiftl remainder 64)) w in
      (u64 (current / divisor) :: r, current mod divisor)
  end.

Definition divide_small (b : BigUInt) (divisor : Z) : BigUInt * Z :=
  let '(ws, remainder) := divide_small_loop b divisor in
  (normalize ws, u32 remainder).

Definition to_u128 (b : BigUInt) : Z :=
  let result := nthz b 0 in
  if (1 <? length b)%nat then Z.lor result (u128 (Z.shiftl (nthz b 1) 64)) else result.

(** The chunks of nine decimal digits, least significant first. *)
Fixpoint decimal_chunks (fuel : nat) (copy : BigUInt) : list Z :=
  match fuel with
  | O => []
  | S fuel' =>
      if is_zero copy then []
      else
        let '(copy, chunk) := divide_small copy 1000000000 in
        chunk :: decimal_chunks fuel' copy
  end.

(** Print the last element bare and the others, downwards, in zero-filled
    fields of [width] digits. *)
Definition print_groups (base : Z) (width : nat) (groups : list Z) : chars :=
  match rev groups with
  | [] => []
  | top :: rest => to_digits base top ++ concat (map (fun g => pad0 width (to_digits base g)) rest)
  end.

Definition to_decimal (b : BigUInt) : chars :=
  if is_zero b then str "0"
  else print_groups 10 9 (decimal_chunks (Z.to_nat (bit_width b)) b).

Definition to_hex (b : BigUInt) : chars :=
  if is_zero b then str "0" else print_groups 16 16 b.

(** ** Specification *)

(** The number a vector of words denotes. *)
Fixpoint bval (ws : BigUInt) : Z :=
  match ws with
  | [] => 0
  | w :: ws' => w + 2 ^ 64 * bval ws'
  end.

(** The class invariant: 64-bit words, no zero word at the back. *)
Definition wf (b : BigUInt) : Prop := Forall (word 64) b /\ normalize b = b.

Definition sign_of (c : comparison) : Z :=
  match c with Lt => -1 | Eq => 0 | Gt => 1 end.

Example divmod_ex :
  let '(q, r) := divmod (of_u128 (2 ^ 127 + 12345)) (of_u128 (10 ^ 20 + 7)) in
  (bval q, bval r) = ((2 ^ 127 + 12345) / (10 ^ 20 + 7), (2 ^ 127 + 12345) mod (10 ^ 20 + 7)).
Proof. vm_compute. reflexivity. Qed.
Example mul_ex : bval (multiply (of_u128 (2 ^ 128 - 1)) (multiply (of_u128 (2 ^ 128 - 1)) (of_u128 (2^128 -1)))) = (2 ^ 128 - 1)^3.
Proof. vm_compute. reflexivity. Qed.
Example shr_ex : bval (shifted_right (of_u128 (2 ^ 128 - 12345)) 67).1 = (2 ^ 128 - 12345) / 2^67.
Proof. vm_compute. reflexivity. Qed.
Example dec_ex : to_decimal (of_u128 (2 ^ 128 - 1)) = str "340282366920938463463374607431768211455".
Proof. vm_compute. reflexivity. Qed.

(** ** Values of word vectors *)

Abbreviation words := (Forall (word 64)).
Abbreviation base64 n := (2 ^ (64 * Z.of_nat n)).

Lemma base64_S n : base64 (S n) = 2 ^ 64 * base64 n.
Proof. rewrite Nat2Z.inj_succ. replace (64 * Z.succ (Z.of_nat n)) with (64 + 64 * Z.of_nat n) by lia. apply Z.pow_add_r; lia. Qed.

Lemma base64_pos n : 0 < base64 n.
Proof. apply pow2_pos. lia. Qed.

Lemma base64_add m n : base64 (m + n) = base64 m * base64 n.
Proof. rewrite <- Z.pow_add_r by lia. f_equal. lia. Qed.

Lemma bval_bound ws : words ws -> 0 <= bval ws < base64 (length ws).
Proof.
  induction 1 as [|w ws Hw _ IH]; [simpl; lia|].
  simpl bval. simpl length. rewrite base64_S. unfold word in Hw. nia.
Qed.

Lemma bval_nonneg ws : words ws -> 0 <= bval ws.
Proof. intros; by apply bval_bound. Qed.

Lemma bval_app a b : bval (a ++ b) = bval a + base64 (length a) * bval b.
Proof.
  induction a as [|w a IH]; simpl app; simpl bval; [simpl length; change (64 * Z.of_nat 0) with 0; lia|].
  simpl length. rewrite IH, base64_S. lia.
Qed.

Lemma bval_replicate n : bval (replicate n 0) = 0.
Proof. induction n; simpl; lia. Qed.

Lemma words_replicate n : words (replicate n 0).
Proof. apply Forall_replicate. unfold word; lia. Qed.

Lemma words_nth ws i : words ws -> word 64 (nthz ws i).
Proof. intros. apply (nth_Forall (word 64)); [unfold word; lia|done]. Qed.

Lemma words_insert ws i x : words ws -> word 64 x -> words (<[i:=x]> ws).
Proof. intros. by apply Forall_insert. Qed.

Lemma bval_insert ws i x :
  (i < length ws)%nat -> bval (<[i:=x]> ws) = bval ws + (x - nthz ws i) * base64 i.
Proof.
  revert i. induction ws as [|w ws IH]; intros i Hi; [simpl in Hi; lia|].
  destruct i as [|i]; simpl.
  - change (64 * Z.of_nat 0) with 0. lia.
  - simpl in Hi. rewrite IH by lia. pose proof (base64_S i) as E. simpl in E. rewrite E. lia.
Qed.

Lemma bval_take_S ws i :
  (i < length ws)%nat -> bval (take (S i) ws) = bval (take i ws) + nthz ws i * base64 i.
Proof.
  intros Hi. destruct (lookup_lt_is_Some_2 ws i Hi) as [x Hx].
  rewrite (take_S_r _ _ x Hx), bval_app. simpl. rewrite length_take_le by lia.
  rewrite (nth_lookup_Some ws i x Hx). lia.
Qed.

Lemma bval_drop ws i : bval ws = bval (take i ws) + base64 (length (take i ws)) * bval (drop i ws).
Proof. rewrite <- (take_drop i ws) at 1. apply bval_app. Qed.

Lemma bval_drop_S ws i :
  (i < length ws)%nat -> bval (drop i ws) = nthz ws i + 2 ^ 64 * bval (drop (S i) ws).
Proof.
  intros Hi. destruct (lookup_lt_is_Some_2 ws i Hi) as [x Hx].
  rewrite (drop_S _ _ _ Hx). simpl. by rewrite (nth_lookup_Some ws i x Hx).
Qed.

Lemma bval_drop_div ws i : words ws -> bval (drop i ws) = bval ws / base64 i.
Proof.
  intros Hw. destruct (Nat.le_gt_cases (length ws) i) as [H|H].
  - rewrite drop_ge by done. simpl. symmetry. apply Z.div_small.
    pose proof (bval_bound ws Hw). pose proof (pow2_le (64 * Z.of_nat (length ws)) (64 * Z.of_nat i) ltac:(lia)). lia.
  - apply Z.div_unique with (bval (take i ws)).
    + left. pose proof (bval_bound (take i ws) (Forall_take _ _ _ Hw)) as Hb.
      rewrite length_take_le in Hb by lia. done.
    + rewrite (bval_drop ws i) at 1. rewrite length_take_le by lia. lia.
Qed.

Lemma bval_take_mod ws i : words ws -> bval (take i ws) = bval ws mod base64 i.
Proof.
  intros Hw. destruct (Nat.le_gt_cases (length ws) i) as [H|H].
  - rewrite take_ge by done. symmetry. apply Z.mod_small.
    pose proof (bval_bound ws Hw). pose proof (pow2_le (64 * Z.of_nat (length ws)) (64 * Z.of_nat i) ltac:(lia)). lia.
  - apply Z.mod_unique with (bval (drop i ws)).
    + left. pose proof (bval_bound (take i ws) (Forall_take _ _ _ Hw)) as Hb.
      rewrite length_take_le in Hb by lia. done.
    + rewrite (bval_drop ws i) at 1. rewrite length_take_le by lia. lia.
Qed.

(** ** The class invariant *)

Lemma normalize_words ws : words ws -> words (normalize ws).
Proof.
  induction 1 as [|w ws Hw _ IH]; simpl; [constructor|].
  destruct (normalize ws); [destruct (w =? 0); repeat constructor; apply Hw|by constructor].
Qed.

Lemma normalize_bval ws : bval (normalize ws) = bval ws.
Proof.
  induction ws as [|w ws IH]; simpl; [done|].
  destruct (normalize ws) eqn:E; simpl in *; [|lia].
  destruct (Z.eqb_spec w 0); simpl; lia.
Qed.

Lemma normalize_idem ws : normalize (normalize ws) = normalize ws.
Proof.
  induction ws as [|w ws IH]; simpl; [done|].
  destruct (normalize ws) as [|x r] eqn:E.
  - destruct (w =? 0) eqn:Ew; simpl; [done|]. by rewrite Ew.
  - remember (x :: r) as l eqn:El. simpl. rewrite IH. by rewrite El.
Qed.

Lemma normalize_wf ws : words ws -> wf (normalize ws).
Proof. intros. split; [by apply normalize_words|apply normalize_idem]. Qed.

Lemma wf_words b : wf b -> words b.
Proof. by intros [? _]. Qed.

Lemma wf_nil : wf [].
Proof. by split. Qed.

Lemma wf_tail w ws : wf (w :: ws) -> wf ws.
Proof.
  intros [Hw Hn]. inversion Hw; subst. split; [done|].
  simpl in Hn. destruct (normalize ws) eqn:E.
  - destruct (w =? 0); [done|]. by injection Hn as <-.
  - by injection Hn as ->.
Qed.

(** A normalised non-empty vector reaches its top word. *)
Lemma wf_lower b : wf b -> b <> [] -> base64 (length b - 1) <= bval b.
Proof.
  induction b as [|w ws IH]; intros Hwf Hne; [done|].
  pose proof (wf_tail _ _ Hwf) as Ht. destruct Hwf as [Hw Hn].
  inversion Hw as [|? ? Hw1 Hw2]; subst.
  destruct ws as [|w' ws'].
  - simpl in *. destruct (Z.eqb_spec w 0); [done|]. unfold word in Hw1. change (64 * Z.of_nat 0) with 0. lia.
  - specialize (IH Ht ltac:(done)).
    replace (length (w :: w' :: ws') - 1)%nat with (S (length (w' :: ws') - 1)) by (simpl; lia).
    rewrite base64_S. simpl bval in *. unfold word in Hw1. lia.
Qed.

Lemma wf_intro b : words b -> (b = [] \/ base64 (length b - 1) <= bval b) -> wf b.
Proof.
  intros Hw H. split; [done|].
  induction b as [|w ws IH]; [done|].
  inversion Hw as [|? ? Hw1 Hw2]; subst. destruct H as [H|H]; [done|].
  destruct ws as [|w' ws'].
  - simpl in *. change (64 * Z.of_nat 0) with 0 in H. destruct (Z.eqb_spec w 0); [lia|done].
  - change (normalize (w :: w' :: ws')) with
      (match normalize (w' :: ws') with [] => if w =? 0 then [] else [w] | r => w :: r end).
    rewrite IH; [done|done|]. right.
    replace (length (w :: w' :: ws') - 1)%nat with (S (length (w' :: ws') - 1)) in H by (simpl; lia).
    rewrite base64_S in H. simpl bval in *. unfold word in Hw1. nia.
Qed.

Lemma wf_zero b : wf b -> bval b = 0 -> b = [].
Proof.
  intros Hwf Hz. destruct b as [|w ws]; [done|].
  pose proof (wf_lower _ Hwf ltac:(done)). pose proof (base64_pos (length (w :: ws) - 1)). lia.
Qed.

Lemma is_zero_spec b : wf b -> is_zero b = (bval b =? 0).
Proof.
  intros Hwf. destruct (Z.eqb_spec (bval b) 0) as [E|E].
  - by rewrite (wf_zero b Hwf E).
  - destruct b; [done|done].
Qed.

(** The representation is canonical. *)
Lemma bval_inj a : forall b, wf a -> wf b -> bval a = bval b -> a = b.
Proof.
  induction a as [|x a IH]; intros b Ha Hb E.
  - symmetry. apply wf_zero; [done|]. by rewrite <- E.
  - destruct b as [|y b]; [by apply wf_zero in E|].
    pose proof (wf_words _ Ha) as Hwa. pose proof (wf_words _ Hb) as Hwb.
    inversion Hwa; inversion Hwb; subst. simpl in E. unfold word in *.
    assert (x = y) by lia. subst. f_equal.
    apply IH; [by eapply wf_tail|by eapply wf_tail|lia].
Qed.

(** ** Construction and inspection *)

Lemma of_u128_spec x : word 128 x -> wf (of_u128 x) /\ bval (of_u128 x) = x.
Proof.
  intros Hx. unfold of_u128, word in *.
  rewrite shiftr_div by lia. unfold uwrap.
  assert (0 <= x / 2 ^ 64 < 2 ^ 64) as Hd.
  { split; [apply Z.div_pos|apply Z.div_lt_upper_bound]; lia. }
  rewrite (Z.mod_small (x / _)) by done.
  pose proof (Z.mod_pos_bound x (2 ^ 64) ltac:(lia)) as Hm.
  pose proof (Z.div_mod x (2 ^ 64) ltac:(lia)) as E.
  destruct (Z.eqb_spec (x mod 2 ^ 64) 0), (Z.eqb_spec (x / 2 ^ 64) 0); simpl.
  all: split; [apply wf_intro; [repeat constructor; unfold word; lia|simpl]|lia].
  - by left.
  - right. change (64 * Z.of_nat 1) with 64. lia.
  - right. change (64 * Z.of_nat 0) with 0. lia.
  - right. change (64 * Z.of_nat 1) with 64. lia.
Qed.

Lemma is_odd_spec b : wf b -> is_odd b = Z.odd (bval b).
Proof.
  intros Hwf. unfold is_odd. destruct b as [|w ws]; [done|]. simpl.
  change 1 with (2 ^ 0). rewrite land_pow2_testbit, Z.bit0_odd by lia.
  rewrite Z.odd_add_mul_even; [done|]. by exists (2 ^ 63).
Qed.

Lemma log2_top w hi n :
  word 64 w -> 0 < hi -> 0 <= n -> Z.log2 (w + 2 ^ 64 * hi) = 64 + Z.log2 hi.
Proof.
  intros Hw Hh _. pose proof (Z.log2_spec hi Hh) as [H1 H2].
  apply Z.log2_unique; [pose proof (Z.log2_nonneg hi); lia|].
  pose proof (Z.log2_nonneg hi). unfold word in Hw.
  rewrite Z.pow_add_r by lia. replace (Z.succ (64 + Z.log2 hi)) with (64 + Z.succ (Z.log2 hi)) by lia.
  rewrite Z.pow_add_r by lia. nia.
Qed.

Lemma log2_bval b :
  wf b -> b <> [] ->
  Z.log2 (bval b) = (Z.of_nat (length b) - 1) * 64 + Z.log2 (nthz b (length b - 1)).
Proof.
  induction b as [|w ws IH]; intros Hwf Hne; [done|].
  pose proof (wf_words _ Hwf) as Hw. inversion Hw as [|? ? Hw1 Hw2]; subst.
  pose proof (wf_tail _ _ Hwf) as Ht.
  destruct ws as [|w' ws']; [simpl; rewrite Z.mul_0_r, Z.add_0_r; lia|].
  change (bval (w :: w' :: ws')) with (w + 2 ^ 64 * bval (w' :: ws')).
  pose proof (wf_lower _ Ht ltac:(done)) as Hlow. pose proof (base64_pos (length (w' :: ws') - 1)).
  rewrite (log2_top w _ 0) by (done || lia). rewrite IH by done.
  replace (length (w :: w' :: ws') - 1)%nat with (S (length (w' :: ws') - 1)) by (simpl; lia).
  simpl length. simpl nth. lia.
Qed.

Lemma bit_width_spec b : wf b -> bit_width b = if bval b =? 0 then 0 else Z.log2 (bval b) + 1.
Proof.
  intros Hwf. unfold bit_width. rewrite is_zero_spec by done.
  destruct (Z.eqb_spec (bval b) 0) as [E|E]; [done|].
  assert (b <> []) by (intros ->; done).
  rewrite log2_bval by done. unfold clzll. lia.
Qed.

(** Bounds of a positive number by its bit width. *)
Lemma bit_width_bounds b :
  wf b -> 0 < bval b ->
  1 <= bit_width b /\ 2 ^ (bit_width b - 1) <= bval b < 2 ^ bit_width b.
Proof.
  intros Hwf Hp. rewrite bit_width_spec by done. rewrite (proj2 (Z.eqb_neq _ 0)) by lia.
  pose proof (Z.log2_spec _ Hp). pose proof (Z.log2_nonneg (bval b)).
  replace (Z.log2 (bval b) + 1 - 1) with (Z.log2 (bval b)) by lia.
  rewrite <- Z.add_1_r in *. lia.
Qed.

Lemma bval_lower_words b i : words b -> nthz b i * base64 i <= bval b.
Proof.
  intros Hw. destruct (Nat.le_gt_cases (length b) i) as [H|H].
  - rewrite nth_overflow by done. pose proof (bval_nonneg _ Hw). lia.
  - pose proof (bval_take_S b i H) as E. rewrite (bval_drop b (S i)), E.
    pose proof (bval_nonneg _ (Forall_take (word 64) i b Hw)).
    pose proof (bval_nonneg _ (Forall_drop (word 64) (S i) b Hw)).
    pose proof (base64_pos (length (take (S i) b))). nia.
Qed.

Lemma compare_loop_spec a b n :
  words a -> words b -> (n <= length a)%nat -> (n <= length b)%nat ->
  compare_loop a b n = sign_of (bval (take n a) ?= bval (take n b)).
Proof.
  intros Ha Hb. induction n as [|n IH]; intros Hna Hnb; [done|].
  simpl compare_loop. rewrite !bval_take_S by lia.
  pose proof (bval_bound (take n a) (Forall_take _ _ _ Ha)) as Ba.
  pose proof (bval_bound (take n b) (Forall_take _ _ _ Hb)) as Bb.
  rewrite length_take_le in Ba, Bb by lia.
  destruct (Z.eqb_spec (nthz a n) (nthz b n)) as [E|E]; simpl.
  - rewrite IH by lia. rewrite E. f_equal.
    symmetry. rewrite (Z.add_comm (bval (take n a))), (Z.add_comm (bval (take n b))).
    apply Z.add_compare_mono_l.
  - destruct (Z.ltb_spec (nthz a n) (nthz b n)).
    + rewrite (proj2 (Z.compare_lt_iff _ _)); [done|nia].
    + rewrite (proj2 (Z.compare_gt_iff _ _)); [done|nia].
Qed.

Lemma wf_length_lt a b : wf a -> wf b -> (length a < length b)%nat -> bval a < bval b.
Proof.
  intros Ha Hb Hl. pose proof (bval_bound _ (wf_words _ Ha)).
  pose proof (wf_lower b Hb ltac:(intros ->; simpl in Hl; lia)).
  pose proof (pow2_le (64 * Z.of_nat (length a)) (64 * Z.of_nat (length b - 1)) ltac:(lia)). lia.
Qed.

Lemma compare_spec a b : wf a -> wf b -> compare a b = sign_of (bval a ?= bval b).
Proof.
  intros Ha Hb. unfold compare.
  destruct (Nat.eqb_spec (length a) (length b)) as [E|E]; simpl.
  - rewrite compare_loop_spec by (auto using wf_words; lia).
    rewrite !take_ge by lia. done.
  - destruct (Nat.ltb_spec (length a) (length b)) as [L|L].
    + pose proof (wf_length_lt a b Ha Hb L). by rewrite (proj2 (Z.compare_lt_iff _ _)).
    + pose proof (wf_length_lt b a Hb Ha ltac:(lia)). by rewrite (proj2 (Z.compare_gt_iff _ _)).
Qed.

Lemma compare_lt a b : wf a -> wf b -> (compare a b <? 0) = (bval a <? bval b).
Proof.
  intros. rewrite compare_spec by done. unfold Z.ltb at 2.
  by destruct (bval a ?= bval b).
Qed.

Lemma compare_ge a b : wf a -> wf b -> (0 <=? compare a b) = (bval b <=? bval a).
Proof.
  intros. rewrite compare_spec by done. rewrite (Z.leb_antisym (bval a) (bval b)).
  unfold Z.ltb. by destruct (bval a ?= bval b).
Qed.

Lemma to_u128_spec b : words b -> to_u128 b = bval b mod 2 ^ 128.
Proof.
  intros Hw. replace (2 ^ 128) with (base64 2) by reflexivity.
  rewrite <- bval_take_mod by done. unfold to_u128.
  destruct b as [|w0 [|w1 b]]; simpl; [done|lia|].
  apply Forall_cons_1 in Hw as [W0 Hw]. apply Forall_cons_1 in Hw as [W1 _].
  rewrite shiftl_mul by lia. unfold word in *. rewrite uwrap_small by (unfold word; lia).
  rewrite lor_fields by (unfold word; lia). lia.
Qed.

Lemma to_u128_small b : words b -> bval b < 2 ^ 128 -> to_u128 b = bval b.
Proof.
  intros Hw Hb. rewrite to_u128_spec by done. apply Z.mod_small.
  pose proof (bval_nonneg _ Hw). lia.
Qed.

(** ** Addition and subtraction *)

Lemma hd_tail_bval ws : bval ws = hd 0 ws + 2 ^ 64 * bval (tail ws).
Proof. destruct ws; simpl; lia. Qed.

Lemma hd_word ws : words ws -> word 64 (hd 0 ws).
Proof. destruct 1; simpl; [unfold word; lia|done]. Qed.

Lemma tail_words ws : words ws -> words (tail ws).
Proof. by destruct 1. Qed.

Lemma tail_length {A} (ws : list A) : length (tail ws) = (length ws - 1)%nat.
Proof. destruct ws; simpl; lia. Qed.

Lemma add_loop_spec ws : forall other carry,
  words ws -> words other -> 0 <= carry <= 1 -> (length other <= length ws)%nat ->
  let '(r, c) := add_loop ws other carry in
  words r /\ length r = length ws /\ 0 <= c <= 1 /\
  bval r + c * base64 (length ws) = bval ws + bval other + carry.
Proof.
  induction ws as [|w ws IH]; intros other carry Hw Ho Hc Hl; simpl.
  - destruct other; [|simpl in Hl; lia]. simpl. change (64 * Z.of_nat 0) with 0.
    split; [constructor|]. repeat split; lia.
  - inversion Hw as [|? ? Hw1 Hw2]; subst. pose proof (hd_word _ Ho) as Hh. unfold word in *.
    rewrite (uwrap_small 128) by (unfold word; lia).
    set (sum := w + hd 0 other + carry). rewrite shiftr_div by lia.
    assert (0 <= sum / 2 ^ 64 <= 1) as Hq.
    { split; [apply Z.div_pos; lia|]. apply Z.lt_succ_r, Z.div_lt_upper_bound; lia. }
    specialize (IH (tail other) (sum / 2 ^ 64) Hw2 (tail_words _ Ho) Hq).
    rewrite tail_length in IH. specialize (IH ltac:(simpl in Hl; lia)).
    destruct (add_loop ws (tail other) (sum / 2 ^ 64)) as [r c].
    destruct IH as (I1 & I2 & I3 & I4).
    split; [constructor; [apply uwrap_range; lia|done]|]. split; [simpl; lia|]. split; [done|].
    cbn [bval]. rewrite (hd_tail_bval other).
    pose proof (base64_S (length ws)) as Eb. cbn [length]. rewrite Eb.
    pose proof (Z.div_mod sum (2 ^ 64) ltac:(lia)) as Ed. unfold uwrap.
    replace (2 ^ 64 * base64 (length ws)) with (base64 (length ws) * 2 ^ 64) by lia.
    rewrite Z.mul_assoc. lia.
Qed.

Lemma bval_vec_resize n ws : (length ws <= n)%nat -> bval (vec_resize n ws) = bval ws.
Proof.
  intros H. unfold vec_resize. rewrite take_ge by done.
  rewrite bval_app, bval_replicate. lia.
Qed.

Lemma words_vec_resize n ws : words ws -> words (vec_resize n ws).
Proof.
  intros H. unfold vec_resize. apply Forall_app. split; [by apply Forall_take|apply words_replicate].
Qed.

Lemma length_vec_resize n ws : length (vec_resize n ws) = n.
Proof. unfold vec_resize. rewrite length_app, length_take, length_replicate. lia. Qed.

(** The vector a carrying loop ends with: [ws] plus a final carry word. *)
Lemma push_carry_spec ws carry :
  words ws -> 0 <= carry < 2 ^ 64 ->
  let r := if negb (carry =? 0) then ws ++ [u64 carry] else ws in
  words r /\ bval r = bval ws + carry * base64 (length ws) /\
  length r = (length ws + if (carry =? 0)%Z then 0 else 1)%nat.
Proof.
  intros Hw Hc. simpl. destruct (Z.eqb_spec carry 0); simpl.
  - repeat split; [done|lia|lia].
  - rewrite (uwrap_small 64) by done. rewrite bval_app, length_app. simpl. split; [|split; lia].
    apply Forall_app. split; [done|]. constructor; [done|constructor].
Qed.

Lemma wf_push_carry ws carry :
  words ws -> 0 <= carry < 2 ^ 64 ->
  (ws = [] \/ base64 (length ws - 1) <= bval ws + carry * base64 (length ws)) ->
  wf (if negb (carry =? 0) then ws ++ [u64 carry] else ws).
Proof.
  intros Hw Hc H. destruct (push_carry_spec ws carry Hw Hc) as (P1 & P2 & P3).
  apply wf_intro; [done|]. rewrite P2, P3.
  destruct (Z.eqb_spec carry 0) as [E|E]; simpl.
  - subst. rewrite Nat.add_0_r. destruct H; [by left|right; lia].
  - right. replace (length ws + 1 - 1)%nat with (length ws) by lia.
    pose proof (bval_nonneg _ Hw). pose proof (base64_pos (length ws)). nia.
Qed.

Lemma add_spec a b : wf a -> wf b -> wf (add a b) /\ bval (add a b) = bval a + bval b.
Proof.
  intros Ha Hb. pose proof (wf_words _ Ha) as Hwa. pose proof (wf_words _ Hb) as Hwb.
  unfold add. set (n := max (length a) (length b)).
  pose proof (add_loop_spec (vec_resize n a) b 0 (words_vec_resize _ _ Hwa) Hwb ltac:(lia)) as H.
  rewrite length_vec_resize in H. specialize (H ltac:(lia)).
  destruct (add_loop _ _ _) as [r c]. destruct H as (H1 & H2 & H3 & H4).
  rewrite bval_vec_resize in H4 by lia.
  destruct (push_carry_spec r c H1 ltac:(lia)) as (P1 & P2 & P3).
  split; [|rewrite P2, H2; lia].
  apply wf_push_carry; [done|lia|]. rewrite H2, H4.
  destruct (Nat.eq_dec n 0) as [En|En]; [left; apply length_zero_iff_nil; lia|right].
  pose proof (bval_nonneg _ Hwa). pose proof (bval_nonneg _ Hwb).
  destruct (Nat.le_gt_cases (length b) (length a)).
  - replace n with (length a) by lia. pose proof (wf_lower a Ha ltac:(intros ->; simpl in *; lia)). lia.
  - replace n with (length b) by lia. pose proof (wf_lower b Hb ltac:(intros ->; simpl in *; lia)). lia.
Qed.

Lemma add_small_loop_spec ws : forall carry,
  words ws -> word 64 carry ->
  let '(r, c) := add_small_loop ws carry in
  words r /\ length r = length ws /\ word 64 c /\
  bval r + c * base64 (length ws) = bval ws + carry.
Proof.
  induction ws as [|w ws IH]; intros carry Hw Hc; simpl.
  - change (64 * Z.of_nat 0) with 0. split; [constructor|]. split; [done|]. split; [done|lia].
  - inversion Hw as [|? ? Hw1 Hw2]; subst.
    destruct (Z.eqb_spec carry 0) as [->|E].
    + split; [done|]. split; [done|]. split; [unfold word; lia|simpl; lia].
    + unfold word in *. rewrite (uwrap_small 128) by (unfold word; lia).
      rewrite shiftr_div by lia.
      assert (0 <= (w + carry) / 2 ^ 64 < 2 ^ 64) as Hq.
      { split; [apply Z.div_pos; lia|]. apply Z.div_lt_upper_bound; lia. }
      specialize (IH _ Hw2 Hq). destruct (add_small_loop ws _) as [r c].
      destruct IH as (I1 & I2 & I3 & I4).
      split; [constructor; [apply uwrap_range; lia|done]|]. split; [simpl; lia|]. split; [done|].
      cbn [bval length]. rewrite base64_S. unfold uwrap.
      pose proof (Z.div_mod (w + carry) (2 ^ 64) ltac:(lia)) as Ed.
      replace (2 ^ 64 * base64 (length ws)) with (base64 (length ws) * 2 ^ 64) by lia.
      rewrite Z.mul_assoc. lia.
Qed.

Lemma add_small_spec b x :
  wf b -> word 32 x -> wf (add_small b x) /\ bval (add_small b x) = bval b + x.
Proof.
  intros Hb Hx. unfold add_small. unfold word in Hx.
  destruct (Z.eqb_spec x 0) as [->|E]; [split; [done|lia]|].
  destruct b as [|w ws]; simpl is_zero; cbv iota.
  { split; [|simpl; lia]. apply wf_intro; [repeat constructor; unfold word; lia|right].
    simpl. change (64 * Z.of_nat 0) with 0. lia. }
  pose proof (add_small_loop_spec (w :: ws) x (wf_words _ Hb) ltac:(unfold word; lia)) as H.
  destruct (add_small_loop _ _) as [r c]. destruct H as (H1 & H2 & H3 & H4).
  destruct (push_carry_spec r c H1 H3) as (P1 & P2 & P3).
  split; [|rewrite P2, H2; lia].
  apply wf_push_carry; [done|done|right]. rewrite H2, H4.
  pose proof (wf_lower _ Hb ltac:(done)). lia.
Qed.

Lemma subtract_loop_spec ws : forall other borrow,
  words ws -> words other -> 0 <= borrow <= 1 -> (length other <= length ws)%nat ->
  words (subtract_loop ws other borrow) /\
  exists b', 0 <= b' <= 1 /\
  bval (subtract_loop ws other borrow) - b' * base64 (length ws) = bval ws - bval other - borrow.
Proof.
  induction ws as [|w ws IH]; intros other borrow Hw Ho Hb Hl; simpl.
  - destruct other; [|simpl in Hl; lia]. split; [constructor|]. exists borrow. split; [lia|].
    change (64 * Z.of_nat 0) with 0. simpl. lia.
  - inversion Hw as [|? ? Hw1 Hw2]; subst. pose proof (hd_word _ Ho) as Hh.
    set (wb := u64 (hd 0 other + borrow)).
    set (b1 := if (wb <? hd 0 other) || (w <? wb) then 1 else 0).
    assert (0 <= b1 <= 1) as Hb1 by (unfold b1; destruct (_ || _); lia).
    assert (u64 (w - wb) = w - (hd 0 other + borrow) + b1 * 2 ^ 64) as Ew.
    { unfold word in *. unfold b1, wb.
      destruct (Z.lt_ge_cases (hd 0 other + borrow) (2 ^ 64)) as [L|L].
      - rewrite !(uwrap_small 64 (hd 0 other + borrow)) by (unfold word; lia).
        destruct (Z.ltb_spec (hd 0 other + borrow) (hd 0 other)); [lia|]. simpl.
        destruct (Z.ltb_spec w (hd 0 other + borrow)).
        + unfold uwrap. symmetry. apply Z.mod_unique with (-1); lia.
        + rewrite uwrap_small by (unfold word; lia). lia.
      - assert (hd 0 other + borrow = 2 ^ 64) as -> by lia.
        change (u64 (2 ^ 64)) with 0.
        destruct (Z.ltb_spec 0 (hd 0 other)); [|lia]. simpl.
        rewrite Z.sub_0_r. rewrite uwrap_small by (unfold word; lia). lia. }
    specialize (IH (tail other) b1 Hw2 (tail_words _ Ho) Hb1).
    rewrite tail_length in IH. specialize (IH ltac:(simpl in Hl; lia)).
    destruct IH as (I1 & b' & I2 & I3).
    split; [constructor; [apply uwrap_range; lia|done]|]. exists b'. split; [done|].
    cbn [bval length]. rewrite base64_S, (hd_tail_bval other), Ew.
    replace (b' * (2 ^ 64 * base64 (length ws))) with (2 ^ 64 * (b' * base64 (length ws))) by lia. lia.
Qed.

Lemma subtract_spec a b :
  wf a -> wf b -> bval b <= bval a -> wf (subtract a b) /\ bval (subtract a b) = bval a - bval b.
Proof.
  intros Ha Hb Hle. pose proof (wf_words _ Ha) as Hwa. pose proof (wf_words _ Hb) as Hwb.
  assert (length b <= length a)%nat as Hl.
  { destruct (Nat.le_gt_cases (length b) (length a)); [done|].
    pose proof (wf_length_lt a b Ha Hb ltac:(lia)). lia. }
  destruct (subtract_loop_spec a b 0 Hwa Hwb ltac:(lia) Hl) as (H1 & b' & H2 & H3).
  unfold subtract. split; [by apply normalize_wf|]. rewrite normalize_bval.
  assert (length (subtract_loop a b 0) = length a) as E.
  { clear. generalize 0 at 1. revert b. induction a as [|x a IH]; intros b z; simpl; [done|]. f_equal. apply IH. }
  pose proof (bval_bound _ H1) as B1. rewrite E in B1. pose proof (bval_bound a Hwa).
  pose proof (bval_nonneg b Hwb). assert (b' = 0 \/ b' = 1) as [-> | ->] by lia; lia.
Qed.

(** ** Multiplication and division by a word *)

Lemma multiply_small_loop_spec ws value : forall carry,
  words ws -> word 32 value -> word 64 carry ->
  let '(r, c) := multiply_small_loop ws value carry in
  words r /\ length r = length ws /\ word 64 c /\
  bval r + c * base64 (length ws) = bval ws * value + carry.
Proof.
  induction ws as [|w ws IH]; intros carry Hw Hv Hc; simpl.
  - change (64 * Z.of_nat 0) with 0. split; [constructor|]. split; [done|]. split; [done|lia].
  - inversion Hw as [|? ? Hw1 Hw2]; subst. unfold word in *.
    rewrite (uwrap_small 128) by (unfold word; nia).
    rewrite shiftr_div by lia.
    assert (0 <= (w * value + carry) / 2 ^ 64 < 2 ^ 64) as Hq.
    { split; [apply Z.div_pos; nia|]. apply Z.div_lt_upper_bound; nia. }
    specialize (IH _ Hw2 Hv Hq). destruct (multiply_small_loop ws value _) as [r c].
    destruct IH as (I1 & I2 & I3 & I4).
    split; [constructor; [apply uwrap_range; lia|done]|]. split; [simpl; lia|]. split; [done|].
    cbn [bval length]. rewrite base64_S. unfold uwrap.
    pose proof (Z.div_mod (w * value + carry) (2 ^ 64) ltac:(lia)) as Ed.
    replace (c * (2 ^ 64 * base64 (length ws))) with (2 ^ 64 * (c * base64 (length ws))) by lia.
    replace (c * base64 (length ws)) with (bval ws * value + (w * value + carry) / 2 ^ 64 - bval r) by lia.
    lia.
Qed.

Lemma multiply_small_spec b x :
  wf b -> word 32 x -> wf (multiply_small b x) /\ bval (multiply_small b x) = bval b * x.
Proof.
  intros Hb Hx. unfold multiply_small.
  destruct (Z.eqb_spec x 0) as [->|E]; [split; [apply wf_nil|simpl; lia]|].
  destruct b as [|w ws]; [split; [apply wf_nil|done]|]. simpl orb. cbv iota.
  pose proof (multiply_small_loop_spec (w :: ws) x 0 (wf_words _ Hb) Hx ltac:(unfold word; lia)) as H.
  destruct (multiply_small_loop _ _ _) as [r c]. destruct H as (H1 & H2 & H3 & H4).
  destruct (push_carry_spec r c H1 H3) as (P1 & P2 & P3).
  split; [|rewrite P2, H2; lia].
  apply wf_push_carry; [done|done|right]. rewrite H2, H4. unfold word in Hx.
  pose proof (wf_lower _ Hb ltac:(done)). pose proof (bval_nonneg _ (wf_words _ Hb)). nia.
Qed.

Lemma divide_small_loop_spec ws d :
  words ws -> 0 < d < 2 ^ 32 ->
  let '(r, m) := divide_small_loop ws d in
  words r /\ 0 <= m < d /\ bval ws = d * bval r + m.
Proof.
  intros Hw Hd. induction Hw as [|w ws Hw _ IH]; simpl; [split; [constructor|]; split; lia|].
  destruct (divide_small_loop ws d) as [r m]. destruct IH as (I1 & I2 & I3).
  unfold word in Hw. rewrite shiftl_mul by lia. rewrite (uwrap_small 128) by (unfold word; lia).
  rewrite lor_fields' by (unfold word; lia).
  set (cur := w + m * 2 ^ 64).
  assert (0 <= cur / d < 2 ^ 64) as Hq.
  { unfold cur. split; [apply Z.div_pos; lia|]. apply Z.div_lt_upper_bound; nia. }
  rewrite uwrap_small by (unfold word; lia).
  pose proof (Z.mod_pos_bound cur d ltac:(lia)). pose proof (Z.div_mod cur d ltac:(lia)) as Ed.
  split; [by constructor|]. split; [done|]. simpl bval. unfold cur in *. nia.
Qed.

Lemma divide_small_spec b d :
  wf b -> 0 < d < 2 ^ 32 ->
  let '(q, r) := divide_small b d in
  wf q /\ bval q = bval b / d /\ r = bval b mod d.
Proof.
  intros Hb Hd. unfold divide_small.
  pose proof (divide_small_loop_spec b d (wf_words _ Hb) Hd) as H.
  destruct (divide_small_loop b d) as [q r]. destruct H as (H1 & H2 & H3).
  split; [by apply normalize_wf|]. rewrite normalize_bval, uwrap_small by (unfold word; lia).
  split; [apply Z.div_unique with r; lia|apply Z.mod_unique with (bval q); lia].
Qed.

(** ** Shifts *)

Lemma shl_word_split w part :
  word 64 w -> 0 <= part < 64 ->
  u64 (w * 2 ^ part) + 2 ^ 64 * (w / 2 ^ (64 - part)) = w * 2 ^ part.
Proof.
  intros Hw Hp. unfold uwrap.
  assert (w / 2 ^ (64 - part) = w * 2 ^ part / 2 ^ 64) as ->.
  { replace (2 ^ 64) with (2 ^ (64 - part) * 2 ^ part) by (rewrite <- Z.pow_add_r by lia; f_equal; lia).
    rewrite Z.div_mul_cancel_r; [done|apply pow2_nz; lia|apply pow2_nz; lia]. }
  pose proof (Z.div_mod (w * 2 ^ part) (2 ^ 64) ltac:(lia)). lia.
Qed.

(** Or-ing shifted bits into a word whose bits stop below the shift. *)
Lemma lor_shifted x w part :
  0 <= part < 64 -> 0 <= x < 2 ^ part ->
  Z.lor x (u64 (w * 2 ^ part)) = x + u64 (w * 2 ^ part) /\
  word 64 (x + u64 (w * 2 ^ part)).
Proof.
  intros Hp Hx.
  assert (u64 (w * 2 ^ part) = (w mod 2 ^ (64 - part)) * 2 ^ part) as ->.
  { unfold uwrap. replace (2 ^ 64) with (2 ^ (64 - part) * 2 ^ part)
      by (rewrite <- Z.pow_add_r by lia; f_equal; lia).
    rewrite Z.mul_mod_distr_r; [done|apply pow2_nz; lia|apply pow2_nz; lia]. }
  split; [apply lor_fields; [lia|done]|].
  pose proof (Z.mod_pos_bound w (2 ^ (64 - part)) ltac:(apply pow2_pos; lia)) as Hm.
  pose proof (pow2_split (64 - part) part ltac:(lia) ltac:(lia)) as E.
  replace (64 - part + part) with 64 in E by lia. unfold word. nia.
Qed.

(** The loop invariant of [shifted_left] before word [i]. *)
Definition shl_inv (b : BigUInt) (whole : nat) (part : Z) (n : nat) (i : nat) (out : BigUInt) : Prop :=
  length out = n /\ words out /\
  bval out = bval (take i b) * 2 ^ part * base64 whole /\
  0 <= nthz out (i + whole) < 2 ^ part /\
  (forall j, (i + whole < j)%nat -> nthz out j = 0) /\
  (part = 0 -> nthz out (i + whole) = 0).

Lemma nth_replicate0 n j : nthz (replicate n 0) j = 0.
Proof.
  rewrite nth_lookup. destruct (replicate n 0 !! j) eqn:E; [|done].
  by apply lookup_replicate in E as [-> _].
Qed.

Lemma shl_inv_step b whole part i out :
  0 <= part < 64 -> words b -> (i < length b)%nat ->
  shl_inv b whole part (length b + whole + (if (part =? 0)%Z then 0 else 1))%nat i out ->
  shl_inv b whole part (length b + whole + (if (part =? 0)%Z then 0 else 1))%nat (S i)
    (let out := <[(i + whole)%nat :=
        Z.lor (nthz out (i + whole)) (u64 (Z.shiftl (nthz b i) part))]> out in
     if negb (part =? 0)
     then <[(i + whole + 1)%nat :=
            Z.lor (nthz out (i + whole + 1)) (Z.shiftr (nthz b i) (64 - part))]> out
     else out).
Proof.
  intros Hp Hb Hi (Hl & Hw & Hv & Hx & Hz & H0).
  pose proof (words_nth b i Hb) as Hbi. set (w := nthz b i) in *.
  rewrite shiftl_mul, shiftr_div by lia.
  destruct (lor_shifted (nthz out (i + whole)) w part Hp Hx) as [-> Hlw].
  pose proof (shl_word_split w part Hbi Hp) as Hs.
  set (x := nthz out (i + whole)) in *. set (lo := u64 (w * 2 ^ part)) in *.
  assert (bval (take (S i) b) * 2 ^ part * base64 whole =
          bval out + (w * 2 ^ part) * base64 (i + whole)) as Hv'.
  { rewrite bval_take_S by done. fold w. rewrite Hv, base64_add. lia. }
  cbv zeta. destruct (Z.eqb_spec part 0) as [E|E]; simpl negb; cbv iota.
  - assert (x = 0) as Ex by (apply H0, E).
    assert (lo = w) as Elo by (unfold lo; rewrite E, Z.pow_0_r, Z.mul_1_r; by apply uwrap_small).
    assert (w * 2 ^ part = w) as Ew by (rewrite E; lia). rewrite Ew in Hv'.
    split; [by rewrite length_insert|]. split; [by apply words_insert|].
    split; [rewrite bval_insert by lia; fold x; lia|].
    simpl Nat.add. rewrite (nth_insert_ne _ _ (S (i + whole))), (Hz (S (i + whole))) by lia.
    pose proof (pow2_pos part ltac:(lia)).
    split; [lia|]. split; [|done]. intros j Hj. rewrite nth_insert_ne by lia. apply Hz; lia.
  - rewrite (nth_insert_ne out (i + whole) (i + whole + 1)) by lia.
    rewrite (Hz (i + whole + 1)%nat), Z.lor_0_l by lia.
    assert (0 <= w / 2 ^ (64 - part) < 2 ^ part) as Hhi.
    { unfold word in Hbi. split; [apply Z.div_pos; [lia|apply pow2_pos; lia]|].
      apply Z.div_lt_upper_bound; [apply pow2_pos; lia|].
      rewrite <- Z.pow_add_r by lia. replace (64 - part + part) with 64 by lia. lia. }
    pose proof (pow2_lt part 64 ltac:(lia)).
    split; [by rewrite !length_insert|].
    split; [apply words_insert; [by apply words_insert|unfold word; lia]|].
    split.
    { rewrite bval_insert by (rewrite length_insert; lia).
      rewrite nth_insert_ne, (Hz (i + whole + 1)%nat) by lia.
      rewrite bval_insert by lia. fold x. rewrite Hv', <- Hs.
      replace (i + whole + 1)%nat with (S (i + whole)) by lia. rewrite base64_S. lia. }
    replace (S i + whole)%nat with (i + whole + 1)%nat by lia.
    rewrite nth_insert_eq by (rewrite length_insert; lia).
    split; [done|]. split; [|lia].
    intros j Hj. rewrite !nth_insert_ne by lia. apply Hz. lia.
Qed.

Lemma bits_split bits :
  0 <= bits -> 2 ^ bits = 2 ^ (bits mod 64) * base64 (Z.to_nat (bits / 64)).
Proof.
  intros Hb. pose proof (Z.div_pos bits 64 ltac:(lia) ltac:(lia)).
  pose proof (Z.mod_pos_bound bits 64 ltac:(lia)).
  rewrite Z2Nat.id by lia. rewrite <- Z.pow_add_r by lia. f_equal.
  pose proof (Z.div_mod bits 64 ltac:(lia)). lia.
Qed.

Lemma shifted_left_spec b bits :
  wf b -> 0 <= bits -> wf (shifted_left b bits) /\ bval (shifted_left b bits) = bval b * 2 ^ bits.
Proof.
  intros Hb Hbits. unfold shifted_left.
  destruct b as [|w0 ws]; [split; [apply wf_nil|done]|]. simpl orb.
  destruct (Z.eqb_spec bits 0) as [->|E]; [split; [done|lia]|].
  set (b := w0 :: ws) in *. set (part := bits mod 64). set (whole := Z.to_nat (bits / 64)).
  pose proof (Z.mod_pos_bound bits 64 ltac:(lia)) as Hp. fold part in Hp.
  pose (N := (length b + whole + (if (part =? 0)%Z then 0 else 1))%nat).
  match goal with |- context [for_up ?n ?f ?a] =>
    assert (shl_inv b whole part N (length b) (for_up n f a)) as H end.
  { apply (for_up_inv (shl_inv b whole part N)).
    - split; [apply length_replicate|]. split; [apply words_replicate|].
      split; [by rewrite bval_replicate|]. rewrite nth_replicate0.
      pose proof (pow2_pos part ltac:(lia)).
      split; [lia|]. split; [intros; apply nth_replicate0|done].
    - intros i out Hi. apply shl_inv_step; [done|apply Hb|done]. }
  destruct H as (H1 & H2 & H3 & _).
  split; [by apply normalize_wf|]. rewrite normalize_bval, H3, take_ge by done.
  rewrite (bits_split bits Hbits). fold part whole. lia.
Qed.

(** The words of [b] shifted right by [part] bits. *)
Fixpoint shr_words (part : Z) (ws : BigUInt) : BigUInt :=
  match ws with
  | [] => []
  | w :: ws' => Z.lor (Z.shiftr w part) (u64 (Z.shiftl (hd 0 ws') (64 - part))) :: shr_words part ws'
  end.

Lemma shr_words_length part ws : length (shr_words part ws) = length ws.
Proof. induction ws; simpl; lia. Qed.

Lemma shr_words_spec part ws :
  0 < part < 64 -> words ws ->
  words (shr_words part ws) /\ bval (shr_words part ws) = bval ws / 2 ^ part.
Proof.
  intros Hp Hw. induction Hw as [|w ws Hw Hws IH]; [split; [constructor|done]|].
  destruct IH as [I1 I2]. simpl. rewrite shiftr_div, shiftl_mul by lia.
  pose proof (hd_word _ Hws) as Hh. unfold word in Hw.
  assert (0 <= w / 2 ^ part < 2 ^ (64 - part)) as Hlo.
  { split; [apply Z.div_pos; [lia|apply pow2_pos; lia]|].
    apply Z.div_lt_upper_bound; [apply pow2_pos; lia|].
    rewrite <- Z.pow_add_r by lia. replace (part + (64 - part)) with 64 by lia. lia. }
  destruct (lor_shifted (w / 2 ^ part) (hd 0 ws) (64 - part) ltac:(lia) Hlo) as [-> Hlw].
  split; [by constructor|]. rewrite I2.
  assert (u64 (hd 0 ws * 2 ^ (64 - part)) = (bval ws mod 2 ^ part) * 2 ^ (64 - part)) as ->.
  { rewrite (hd_tail_bval ws).
    replace (2 ^ 64) with (2 ^ (64 - part) * 2 ^ part) by (rewrite <- Z.pow_add_r by lia; f_equal; lia).
    replace (hd 0 ws + 2 ^ (64 - part) * 2 ^ part * bval (tail ws))
      with (hd 0 ws + (2 ^ (64 - part) * bval (tail ws)) * 2 ^ part) by lia.
    rewrite Z_mod_plus_full. unfold uwrap.
    replace (2 ^ 64) with (2 ^ part * 2 ^ (64 - part)) by (rewrite <- Z.pow_add_r by lia; f_equal; lia).
    rewrite Z.mul_mod_distr_r; [done|apply pow2_nz; lia|apply pow2_nz; lia]. }
  pose proof (pow2_pos part ltac:(lia)) as Hpp.
  pose proof (Z.div_mod (bval ws) (2 ^ part) ltac:(lia)) as Ed.
  replace (2 ^ 64) with (2 ^ part * 2 ^ (64 - part)) by (rewrite <- Z.pow_add_r by lia; f_equal; lia).
  rewrite Ed at 3.
  replace (w + 2 ^ part * 2 ^ (64 - part) * (2 ^ part * (bval ws / 2 ^ part) + bval ws mod 2 ^ part))
    with (w + (2 ^ (64 - part) * (2 ^ part * (bval ws / 2 ^ part) + bval ws mod 2 ^ part)) * 2 ^ part) by lia.
  rewrite Z.div_add by lia. lia.
Qed.

Lemma nth_drop (l : BigUInt) n i : nthz (drop n l) i = nthz l (n + i).
Proof. by rewrite !nth_lookup, lookup_drop. Qed.

Lemma nth_shr_words part ws : forall j,
  (j < length ws)%nat ->
  nthz (shr_words part ws) j =
  Z.lor (Z.shiftr (nthz ws j) part) (u64 (Z.shiftl (nthz ws (S j)) (64 - part))).
Proof.
  induction ws as [|w ws IH]; intros j Hj; simpl in Hj; [lia|].
  destruct j as [|j]; [by destruct ws|]. simpl. apply IH. lia.
Qed.

Lemma shiftr_words_loop b whole part :
  0 <= part < 64 -> words b -> (whole < length b)%nat ->
  for_up (length b - whole) (fun target out =>
    let i := (whole + target)%nat in
    let out := <[target := Z.lor (nthz out target) (Z.shiftr (nthz b i) part)]> out in
    if negb (part =? 0) && (i + 1 <? length b)%nat
    then <[target := Z.lor (nthz out target) (u64 (Z.shiftl (nthz b (i + 1)) (64 - part)))]> out
    else out) (replicate (length b - whole) 0)
  = if part =? 0 then drop whole b else shr_words part (drop whole b).
Proof.
  intros Hp Hb Hlen. set (res := if part =? 0 then drop whole b else shr_words part (drop whole b)).
  assert (length res = length b - whole)%nat as Hres.
  { unfold res. destruct (part =? 0); rewrite ?shr_words_length; apply length_drop. }
  match goal with |- for_up ?n ?f ?a = _ =>
    assert (length (for_up n f a) = n /\ (forall j, (j < n)%nat -> nthz (for_up n f a) j = nthz res j)
            /\ (forall j, (n <= j)%nat -> nthz (for_up n f a) j = 0)) as H end.
  { pose (P (t : nat) (out : BigUInt) :=
      length out = (length b - whole)%nat /\
      (forall j, (j < t)%nat -> nthz out j = nthz res j) /\
      (forall j, (t <= j)%nat -> nthz out j = 0)).
    apply (for_up_inv P).
    - split; [apply length_replicate|]. split; [lia|]. intros; apply nth_replicate0.
    - intros t out Ht (Hl & Hdone & Hz). cbv zeta.
      rewrite (Hz t), Z.lor_0_l, nth_insert_eq by lia.
      assert (nthz res t = if negb (part =? 0) && (whole + t + 1 <? length b)%nat
        then Z.lor (Z.shiftr (nthz b (whole + t)) part)
                   (u64 (Z.shiftl (nthz b (whole + t + 1)) (64 - part)))
        else Z.shiftr (nthz b (whole + t)) part) as Er.
      { unfold res. destruct (Z.eqb_spec part 0) as [->|E]; simpl.
        - by rewrite nth_drop, Z.shiftr_0_r.
        - rewrite nth_shr_words, !nth_drop by (rewrite length_drop; lia).
          replace (whole + S t)%nat with (whole + t + 1)%nat by lia.
          destruct (Nat.ltb_spec (whole + t + 1) (length b)); [done|].
          rewrite (nth_overflow b (n := (whole + t + 1)%nat) 0) by lia. by rewrite Z.shiftl_0_l, Z.lor_0_r. }
      destruct (negb (part =? 0) && (whole + t + 1 <? length b)%nat).
      + rewrite list_insert_insert_eq.
        split; [by rewrite length_insert|]. split; intros j Hj.
        * destruct (Nat.eq_dec j t) as [->|]; [by rewrite nth_insert_eq by lia|].
          rewrite nth_insert_ne by lia. apply Hdone. lia.
        * rewrite nth_insert_ne by lia. apply Hz. lia.
      + split; [by rewrite length_insert|]. split; intros j Hj.
        * destruct (Nat.eq_dec j t) as [->|]; [by rewrite nth_insert_eq by lia|].
          rewrite nth_insert_ne by lia. apply Hdone. lia.
        * rewrite nth_insert_ne by lia. apply Hz. lia. }
  destruct H as (H1 & H2 & _). apply (nth_ext _ _ 0 0); [lia|].
  intros j Hj. apply H2. lia.
Qed.

Lemma sum_eqb_zero a w B : 0 <= a -> 0 <= w -> 0 < B -> (a + w * B =? 0) = (a =? 0) && (w =? 0).
Proof.
  intros. destruct (Z.eqb_spec a 0), (Z.eqb_spec w 0); simpl; apply Z.eqb_eq || apply Z.eqb_neq; nia.
Qed.

Lemma discard_loop_spec b n :
  words b -> (n <= length b)%nat ->
  for_up n (fun i d => d || negb (nthz b i =? 0)) false = negb (bval (take n b) =? 0).
Proof.
  intros Hb. revert n.
  assert (forall n, (n <= length b)%nat -> (fun n d => (n <= length b)%nat -> d = negb (bval (take n b) =? 0)) n
     (for_up n (fun i d => d || negb (nthz b i =? 0)) false)) as H; [|intros n Hn; by apply H].
  intros n _. apply for_up_inv; [done|].
  intros i d _ IH Hi. rewrite IH by lia. rewrite bval_take_S by lia.
  pose proof (bval_nonneg _ (Forall_take (word 64) i b Hb)).
  pose proof (words_nth b i Hb) as Hw. unfold word in Hw. pose proof (base64_pos i).
  rewrite sum_eqb_zero by lia. symmetry. apply negb_andb.
Qed.

Lemma mod_word_whole b whole part :
  words b -> 0 <= part < 64 -> (whole < length b)%nat ->
  bval b mod (2 ^ part * base64 whole) =
  bval (take whole b) + (nthz b whole mod 2 ^ part) * base64 whole.
Proof.
  intros Hb Hp Hl. rewrite Z.mul_comm, Z.rem_mul_r by (pose proof (base64_pos whole); pose proof (pow2_pos part); lia).
  rewrite <- bval_take_mod, <- bval_drop_div by done.
  rewrite bval_drop_S by done.
  assert ((nthz b whole + 2 ^ 64 * bval (drop (S whole) b)) mod 2 ^ part = nthz b whole mod 2 ^ part) as ->; [|lia].
  replace (2 ^ 64) with (2 ^ (64 - part) * 2 ^ part) by (rewrite <- Z.pow_add_r by lia; f_equal; lia).
  replace (2 ^ (64 - part) * 2 ^ part * bval (drop (S whole) b))
    with ((2 ^ (64 - part) * bval (drop (S whole) b)) * 2 ^ part) by lia.
  apply Z_mod_plus_full.
Qed.

Lemma shift_discards_spec b whole part :
  words b -> 0 <= part < 64 ->
  shift_discards b whole part = negb (bval b mod (2 ^ part * base64 whole) =? 0).
Proof.
  intros Hb Hp. unfold shift_discards. rewrite discard_loop_spec by (done || lia).
  destruct (Nat.ltb_spec whole (length b)) as [L|L].
  - rewrite mod_word_whole by done. rewrite Nat.min_l by lia.
    pose proof (bval_nonneg _ (Forall_take (word 64) whole b Hb)).
    pose proof (Z.mod_pos_bound (nthz b whole) (2 ^ part) ltac:(apply pow2_pos; lia)).
    pose proof (base64_pos whole).
    destruct (Z.eqb_spec part 0) as [->|E]; simpl negb; simpl andb; cbv iota.
    + rewrite Z.pow_0_r, Z.mod_1_r. f_equal. f_equal. lia.
    + rewrite shiftl_mul, Z.mul_1_l, (uwrap_small 64) by
        (try lia; unfold word; pose proof (pow2_pos part); pose proof (pow2_lt part 64); lia).
      rewrite land_pow2_minus_1, sum_eqb_zero by lia. symmetry. apply negb_andb.
  - rewrite andb_false_r, take_ge by lia. do 2 f_equal. symmetry. apply Z.mod_small.
    pose proof (bval_bound b Hb). pose proof (pow2_le (64 * Z.of_nat (length b)) (64 * Z.of_nat whole) ltac:(lia)).
    pose proof (pow2_pos part ltac:(lia)). nia.
Qed.

Lemma shifted_right_spec b bits :
  wf b -> 0 <= bits ->
  wf (shifted_right b bits).1 /\ bval (shifted_right b bits).1 = bval b / 2 ^ bits /\
  (shifted_right b bits).2 = negb (bval b mod 2 ^ bits =? 0).
Proof.
  intros Hb Hbits. unfold shifted_right.
  destruct (is_zero b) eqn:Ez.
  { destruct b; [|done]. pose proof (pow2_pos bits Hbits). cbn [orb is_zero fst snd bval].
    rewrite Z.div_0_l, Z.mod_0_l by lia. split; [apply wf_nil|done]. }
  destruct (Z.eqb_spec bits 0) as [->|E].
  { simpl. rewrite Z.div_1_r, Z.mod_1_r. done. }
  simpl orb. cbv iota. pose proof (Z.mod_pos_bound bits 64 ltac:(lia)) as Hp.
  rewrite (bits_split bits Hbits) at 1. set (part := bits mod 64) in *. set (whole := Z.to_nat (bits / 64)).
  pose proof (wf_words _ Hb) as Hw. pose proof (pow2_pos part ltac:(lia)). pose proof (base64_pos whole).
  assert (bval b / (2 ^ part * base64 whole) = bval (drop whole b) / 2 ^ part) as Hq.
  { rewrite bval_drop_div by done. rewrite Z.mul_comm, Z.div_div by lia. done. }
  assert (forall x : BigUInt, (x, shift_discards b whole part).2 = negb (bval b mod 2 ^ bits =? 0)) as Hd.
  { intros x. simpl. rewrite shift_discards_spec by done. by rewrite (bits_split bits Hbits). }
  destruct (Nat.leb_spec (length b) whole) as [L|L].
  - split; [apply wf_nil|]. split; [|apply Hd]. rewrite Hq, drop_ge by lia. simpl.
    by rewrite Z.div_0_l by lia.
  - rewrite shiftr_words_loop by done. split; [|split; [|apply Hd]].
    + apply normalize_wf. destruct (Z.eqb_spec part 0); [by apply Forall_drop|].
      apply shr_words_spec; [lia|by apply Forall_drop].
    + simpl fst. rewrite normalize_bval, Hq. destruct (Z.eqb_spec part 0) as [->|].
      * by rewrite Z.pow_0_r, Z.div_1_r.
      * apply shr_words_spec; [lia|by apply Forall_drop].
Qed.

Lemma shift_right_one_loop_spec ws :
  words ws ->
  let '(r, c) := shift_right_one_loop ws in
  words r /\ bval r = bval ws / 2 /\ c = (bval ws mod 2) * 2 ^ 63.
Proof.
  induction 1 as [|w ws Hw Hws IH]; simpl; [split; [constructor|done]|].
  destruct (shift_right_one_loop ws) as [r c]. destruct IH as (I1 & I2 & ->).
  pose proof (Z.mod_pos_bound (bval ws) 2 ltac:(lia)). unfold word in Hw.
  rewrite shiftr_div, shiftl_mul by lia. change (2 ^ 1) with 2.
  assert (0 <= w / 2 < 2 ^ 63) as Hh by zdiv.
  rewrite lor_fields by (unfold word; lia).
  split; [constructor; [unfold word; lia|done]|]. simpl bval. rewrite I2.
  pose proof (Z.div_mod (bval ws) 2 ltac:(lia)). pose proof (Z.div_mod w 2 ltac:(lia)).
  pose proof (Z.mod_pos_bound w 2 ltac:(lia)).
  replace (w + 2 ^ 64 * bval ws) with (w + (2 ^ 63 * bval ws) * 2) by lia.
  rewrite Z.div_add, Z_mod_plus_full by lia. split; [lia|].
  unfold uwrap. replace (2 ^ 64) with (2 * 2 ^ 63) by lia.
  rewrite Z.mul_mod_distr_r by lia. done.
Qed.

Lemma shift_right_one_spec b : wf b -> wf (shift_right_one b) /\ bval (shift_right_one b) = bval b / 2.
Proof.
  intros Hb. unfold shift_right_one.
  pose proof (shift_right_one_loop_spec b (wf_words _ Hb)) as H.
  destruct (shift_right_one_loop b) as [r c]. destruct H as (H1 & H2 & _). simpl.
  split; [by apply normalize_wf|]. by rewrite normalize_bval.
Qed.

(** ** Multiplication *)

Lemma carry_loop_spec fuel : forall out index carry,
  words out -> word 64 carry -> (index <= length out)%nat -> (length out - index < fuel)%nat ->
  bval out + carry * base64 index < base64 (length out) ->
  words (carry_loop fuel out index carry) /\
  length (carry_loop fuel out index carry) = length out /\
  bval (carry_loop fuel out index carry) = bval out + carry * base64 index.
Proof.
  induction fuel as [|fuel IH]; intros out index carry Hw Hc Hi Hf Hb; [lia|].
  cbn [carry_loop]. destruct (Z.eqb_spec carry 0) as [->|E]; [split; [done|]; split; [done|lia]|].
  cbv zeta.
  unfold word in Hc. pose proof (bval_nonneg _ Hw) as Hnn.
  assert (index < length out)%nat as Hlt.
  { destruct (Nat.eq_dec index (length out)) as [->|]; [|lia]. pose proof (base64_pos (length out)). nia. }
  pose proof (words_nth out index Hw) as Hx. unfold word in Hx. set (x := nthz out index) in *.
  rewrite (uwrap_small 128) by (unfold word; lia). rewrite shiftr_div by lia.
  set (out' := <[index := u64 (x + carry)]> out). set (c' := (x + carry) / 2 ^ 64).
  assert (0 <= c' <= 1) as Hc'.
  { unfold c'. split; [apply Z.div_pos; lia|]. apply Z.lt_succ_r, Z.div_lt_upper_bound; lia. }
  assert (length out' = length out) as Hl' by apply length_insert.
  assert (words out') as Hw' by (apply words_insert; [done|apply uwrap_word; lia]).
  assert (bval out' + c' * base64 (S index) = bval out + carry * base64 index) as Hv.
  { unfold out'. rewrite bval_insert by done. fold x. rewrite base64_S. unfold uwrap, c'.
    pose proof (Z.div_mod (x + carry) (2 ^ 64) ltac:(lia)). nia. }
  assert ((S index =? length out')%nat && negb (c' =? 0) = false) as ->.
  { destruct (Nat.eqb_spec (S index) (length out')) as [En|]; [|done]. simpl.
    apply negb_false_iff, Z.eqb_eq. rewrite En, Hl' in Hv. pose proof (bval_nonneg _ Hw').
    pose proof (base64_pos (length out)). nia. }
  destruct (IH out' (S index) c' Hw') as (I1 & I2 & I3); [unfold word; lia|lia|lia|rewrite Hv, Hl'; lia|].
  split; [done|]. split; [lia|]. by rewrite I3.
Qed.

(** The state of the inner loop of [multiply] after [j] words of [rhs]. *)
Definition row_inv (rhs : BigUInt) (x : Z) (i : nat) (out0 : BigUInt) (j : nat) (st : BigUInt * Z) : Prop :=
  words st.1 /\ length st.1 = length out0 /\ word 64 st.2 /\
  bval st.1 + st.2 * base64 (i + j) = bval out0 + x * bval (take j rhs) * base64 i.

Lemma multiply_row_loop rhs x i out0 :
  words rhs -> word 64 x -> words out0 -> (i + length rhs <= length out0)%nat ->
  row_inv rhs x i out0 (length rhs)
    (for_up (length rhs) (fun j st =>
      let '(out, carry) := st in
      let index := (i + j)%nat in
      let product := u128 (u128 (x * nthz rhs j) + nthz out index + carry) in
      (<[index := u64 product]> out, Z.shiftr product 64)) (out0, 0)).
Proof.
  intros Hr Hx Ho Hlen. apply (for_up_inv (row_inv rhs x i out0)).
  - split; [done|]. split; [done|]. split; [unfold word; simpl; lia|]. simpl. lia.
  - intros j [out carry] Hj (I1 & I2 & I3 & I4). simpl fst in *; simpl snd in *.
    pose proof (words_nth rhs j Hr) as Hrj. pose proof (words_nth out (i + j) I1) as Hoj.
    unfold word in *. set (y := nthz rhs j) in *. set (z := nthz out (i + j)) in *.
    rewrite (uwrap_small 128 (x * y)) by (unfold word; nia).
    rewrite (uwrap_small 128) by (unfold word; nia). rewrite shiftr_div by lia.
    set (p := x * y + z + carry).
    assert (0 <= p < 2 ^ 128) as Hp by (unfold p; nia).
    split; [apply words_insert; [done|apply uwrap_word; lia]|].
    split; [simpl; by rewrite length_insert|].
    split; [simpl; unfold word; split; [apply Z.div_pos; lia|apply Z.div_lt_upper_bound; lia]|].
    simpl fst; simpl snd. rewrite bval_insert by lia. fold z.
    rewrite bval_take_S by done. fold y.
    replace (i + S j)%nat with (S (i + j)) by lia. rewrite base64_S.
    pose proof (Z.div_mod p (2 ^ 64) ltac:(lia)) as Ed. unfold uwrap.
    assert (x * (bval (take j rhs) + y * base64 j) * base64 i =
            x * bval (take j rhs) * base64 i + x * y * base64 (i + j)) as -> by (rewrite base64_add; lia).
    rewrite Z.add_assoc, <- I4. unfold p in *. nia.
Qed.

Lemma multiply_row_spec rhs x i out :
  words rhs -> word 64 x -> words out -> (i + length rhs <= length out)%nat ->
  bval out + x * bval rhs * base64 i < base64 (length out) ->
  words (multiply_row rhs x i out) /\ length (multiply_row rhs x i out) = length out /\
  bval (multiply_row rhs x i out) = bval out + x * bval rhs * base64 i.
Proof.
  intros Hr Hx Ho Hl Hb. unfold multiply_row.
  pose proof (multiply_row_loop rhs x i out Hr Hx Ho Hl) as H.
  destruct (for_up _ _ _) as [out1 carry]. destruct H as (H1 & H2 & H3 & H4).
  simpl fst in *; simpl snd in *. rewrite take_ge in H4 by done.
  destruct (carry_loop_spec (S (length out1)) out1 (i + length rhs) carry H1 H3) as (C1 & C2 & C3);
    [lia|lia|rewrite H4, H2; done|].
  split; [done|]. split; [lia|]. by rewrite C3.
Qed.

Lemma multiply_spec a b :
  wf a -> wf b -> wf (multiply a b) /\ bval (multiply a b) = bval a * bval b.
Proof.
  intros Ha Hb. pose proof (wf_words _ Ha) as Hwa. pose proof (wf_words _ Hb) as Hwb.
  unfold multiply. destruct (is_zero a) eqn:Ea.
  { rewrite is_zero_spec in Ea by done. ztests. rewrite Ea. simpl. split; [apply wf_nil|lia]. }
  destruct (is_zero b) eqn:Eb.
  { rewrite is_zero_spec in Eb by done. ztests. rewrite Eb. simpl. split; [apply wf_nil|lia]. }
  simpl orb. cbv iota.
  pose (P (i : nat) (out : BigUInt) := words out /\ length out = (length a + length b)%nat /\
          bval out = bval (take i a) * bval b).
  match goal with |- context [for_up ?n ?f ?z] => assert (P n (for_up n f z)) as (H1 & H2 & H3) end.
  { apply (for_up_inv P).
    - split; [apply words_replicate|]. split; [apply length_replicate|]. by rewrite bval_replicate.
    - intros i out Hi (I1 & I2 & I3).
      pose proof (words_nth a i Hwa) as Hx.
      assert (bval (take (S i) a) * bval b = bval out + nthz a i * bval b * base64 i) as E.
      { rewrite bval_take_S, I3 by done. lia. }
      destruct (multiply_row_spec b (nthz a i) i out Hwb Hx I1) as (M1 & M2 & M3); [lia| |].
      + rewrite <- E, I2.
        pose proof (bval_bound (take (S i) a) (Forall_take _ _ _ Hwa)) as B1.
        rewrite length_take_le in B1 by lia. pose proof (bval_bound b Hwb) as B2.
        pose proof (pow2_le (64 * Z.of_nat (S i)) (64 * Z.of_nat (length a)) ltac:(lia)).
        rewrite base64_add. nia.
      + split; [done|]. split; [lia|]. by rewrite M3. }
  split; [by apply normalize_wf|]. rewrite normalize_bval, H3, take_ge by done. done.
Qed.

(** ** Division *)

Lemma testbit_bval b i :
  words b -> 0 <= i ->
  Z.testbit (bval b) i = Z.testbit (nthz b (Z.to_nat (i / 64))) (i mod 64).
Proof.
  intros Hw Hi. pose proof (Z.mod_pos_bound i 64 ltac:(lia)). pose proof (Z.div_pos i 64 ltac:(lia) ltac:(lia)).
  set (n := Z.to_nat (i / 64)).
  replace i with (i mod 64 + 64 * Z.of_nat n) at 1 by (unfold n; pose proof (Z.div_mod i 64); lia).
  rewrite <- Z.div_pow2_bits by lia. rewrite <- bval_drop_div by done.
  destruct (Nat.le_gt_cases (length b) n).
  - by rewrite drop_ge, nth_overflow by lia.
  - rewrite bval_drop_S by lia.
    rewrite <- (Z.mod_pow2_bits_low _ 64 (i mod 64)) by lia.
    replace (nthz b n + 2 ^ 64 * bval (drop (S n) b)) with (nthz b n + bval (drop (S n) b) * 2 ^ 64) by lia.
    rewrite Z_mod_plus_full. by rewrite Z.mod_pow2_bits_low by lia.
Qed.

Lemma set_bit_spec b i :
  words b -> 0 <= i -> Z.testbit (bval b) i = false ->
  words (set_bit b i) /\ bval (set_bit b i) = bval b + 2 ^ i.
Proof.
  intros Hw Hi Ht. rewrite testbit_bval in Ht by done. unfold set_bit.
  pose proof (Z.mod_pos_bound i 64 ltac:(lia)) as Hm. pose proof (Z.div_pos i 64 ltac:(lia) ltac:(lia)).
  set (n := Z.to_nat (i / 64)) in *. set (k := i mod 64) in *.
  set (b' := if (length b <=? n)%nat then vec_resize (n + 1) b else b).
  assert (words b' /\ bval b' = bval b /\ (n < length b')%nat /\ nthz b' n = nthz b n) as (B1 & B2 & B3 & B4).
  { unfold b'. destruct (Nat.leb_spec (length b) n); [|done].
    split; [by apply words_vec_resize|]. split; [by apply bval_vec_resize; lia|].
    rewrite length_vec_resize. split; [lia|]. rewrite (nth_overflow b) by lia.
    unfold vec_resize. rewrite take_ge by lia. rewrite app_nth2 by lia. apply nth_replicate0. }
  rewrite B4. rewrite shiftl_mul, Z.mul_1_l by lia.
  rewrite (uwrap_small 64) by (unfold word; pose proof (pow2_pos k); pose proof (pow2_lt k 64); lia).
  assert (Z.lor (nthz b n) (2 ^ k) = nthz b n + 2 ^ k) as E.
  { rewrite Z.add_nocarry_lxor.
    - apply Z.bits_inj'. intros j Hj. rewrite Z.lor_spec, Z.lxor_spec, Z.pow2_bits_eqb by lia.
      destruct (Z.eqb_spec k j) as [<-|]; [by rewrite Ht|]. by rewrite orb_false_r, xorb_false_r.
    - apply Z.bits_inj'. intros j Hj. rewrite Z.land_spec, Z.pow2_bits_eqb, Z.bits_0 by lia.
      destruct (Z.eqb_spec k j) as [<-|]; [by rewrite Ht|]. apply andb_false_r. }
  pose proof (words_nth b n Hw) as Hx.
  assert (word 64 (Z.lor (nthz b n) (2 ^ k))) as Hlw.
  { split; [rewrite E; pose proof (pow2_pos k); unfold word in Hx; lia|].
    destruct (Z.eq_dec (Z.lor (nthz b n) (2 ^ k)) 0) as [->|]; [lia|].
    apply Z.log2_lt_pow2; [unfold word in Hx; pose proof (pow2_pos k); lia|].
    rewrite Z.log2_lor by (unfold word in Hx; pose proof (pow2_pos k); lia).
    rewrite Z.log2_pow2 by lia. apply Z.max_lub_lt; [|lia].
    destruct (Z.eq_dec (nthz b n) 0) as [->|]; [simpl; lia|]. apply Z.log2_lt_pow2; unfold word in Hx; lia. }
  split; [by apply words_insert|]. rewrite bval_insert by done. rewrite B2, B4, E.
  replace (2 ^ i) with (2 ^ k * base64 n) by (symmetry; apply bits_split; done). lia.
Qed.

(** State of [divmod] before the round of index [i - 1]. *)
Definition div_inv (N D : Z) (i : nat) (st : BigUInt * BigUInt * BigUInt) : Prop :=
  let '(num, shifted, quo) := st in
  wf num /\ wf shifted /\ words quo /\
  (i = O \/ bval shifted = D * 2 ^ (Z.of_nat i - 1)) /\
  bval num + D * bval quo = N /\ bval num < D * 2 ^ Z.of_nat i /\
  bval quo mod 2 ^ Z.of_nat i = 0.

Lemma div_inv_step N D j st :
  0 < D -> div_inv N D (S j) st -> div_inv N D j (divmod_step j st).
Proof.
  intros HD. destruct st as [[num shifted] quo]. intros (I1 & I2 & I3 & I4 & I5 & I6 & I7).
  destruct I4 as [I4|I4]; [done|].
  replace (Z.of_nat (S j)) with (Z.of_nat j + 1) in * by lia.
  replace (Z.of_nat j + 1 - 1) with (Z.of_nat j) in I4 by lia.
  rewrite pow2_succ in * by lia. pose proof (pow2_pos (Z.of_nat j) ltac:(lia)) as Hp.
  set (B := 2 ^ Z.of_nat j) in *.
  apply Z_div_exact_full_2 in I7; [|lia]. set (h := bval quo / (2 * B)) in *.
  unfold divmod_step. rewrite compare_ge by done.
  assert (wf (if negb (j =? 0)%nat then shift_right_one shifted else shifted) /\
    (j = O \/ bval (if negb (j =? 0)%nat then shift_right_one shifted else shifted) = D * 2 ^ (Z.of_nat j - 1)))
    as (S1 & S2).
  { destruct (Nat.eqb_spec j 0) as [->|Ej]; simpl; [split; [done|by left]|].
    destruct (shift_right_one_spec shifted I2) as [Q1 Q2]. split; [done|right].
    rewrite Q2, I4. unfold B. replace (Z.of_nat j) with (Z.of_nat j - 1 + 1) at 1 by lia.
    rewrite pow2_succ by lia. replace (D * (2 * 2 ^ (Z.of_nat j - 1))) with (D * 2 ^ (Z.of_nat j - 1) * 2) by lia.
    apply Z.div_mul. lia. }
  destruct (Z.leb_spec (bval shifted) (bval num)) as [L|L].
  - destruct (subtract_spec num shifted I1 I2 L) as [U1 U2].
    destruct (set_bit_spec quo (Z.of_nat j) I3 ltac:(lia)) as [V1 V2].
    { apply Z.testbit_false; [lia|]. fold B. rewrite I7.
      replace (2 * B * h) with (2 * h * B) by lia. rewrite Z.div_mul by lia.
      rewrite Z.mul_comm. apply Z.mod_mul. lia. }
    split; [done|]. split; [done|]. split; [done|]. split; [done|].
    fold B in V2. rewrite U2, V2, I4. fold B. split; [lia|]. split; [lia|].
    rewrite I7. replace (2 * B * h + B) with ((2 * h + 1) * B) by lia. apply Z.mod_mul. lia.
  - split; [done|]. split; [done|]. split; [done|]. split; [done|].
    split; [done|]. fold B. split; [lia|]. rewrite I7.
    replace (2 * B * h) with ((2 * h) * B) by lia. apply Z.mod_mul. lia.
Qed.

Lemma divmod_spec a b :
  wf a -> wf b -> 0 < bval b ->
  wf (divmod a b).1 /\ wf (divmod a b).2 /\
  bval (divmod a b).1 = bval a / bval b /\ bval (divmod a b).2 = bval a mod bval b.
Proof.
  intros Ha Hb Hp. unfold divmod. rewrite is_zero_spec by done.
  rewrite (proj2 (Z.eqb_neq _ 0)) by lia. simpl orb. rewrite compare_lt by done.
  pose proof (bval_nonneg _ (wf_words _ Ha)).
  destruct (Z.ltb_spec (bval a) (bval b)) as [L|L].
  { simpl. rewrite Z.div_small, Z.mod_small by lia. split; [apply wf_nil|]. done. }
  destruct (bit_width_bounds a Ha ltac:(lia)) as [Wa1 Wa2].
  destruct (bit_width_bounds b Hb Hp) as [Wb1 Wb2].
  assert (bit_width b <= bit_width a) as Hle.
  { apply Z.lt_succ_r. rewrite <- Z.add_1_r. assert (bit_width b - 1 < bit_width a); [|lia].
    apply (Z.pow_lt_mono_r_iff 2); lia. }
  set (shift := bit_width a - bit_width b) in *.
  destruct (shifted_left_spec b shift Hb ltac:(lia)) as [S1 S2].
  match goal with |- context [for_down ?n ?f ?z] =>
    assert (div_inv (bval a) (bval b) 0 (for_down n f z)) as H0 end.
  { apply (for_down_inv (div_inv (bval a) (bval b))).
    - unfold div_inv. rewrite Nat2Z.inj_succ, Z2Nat.id by lia.
      split; [done|]. split; [done|]. split; [constructor|].
      split; [right; rewrite S2; do 2 f_equal; lia|]. split; [simpl; lia|].
      split; [|apply Z.mod_0_l, pow2_nz; lia].
      replace (Z.succ shift) with (bit_width a - (bit_width b - 1)) by lia.
      pose proof (pow2_split (bit_width a - (bit_width b - 1)) (bit_width b - 1) ltac:(lia) ltac:(lia)) as E.
      replace (bit_width a - (bit_width b - 1) + (bit_width b - 1)) with (bit_width a) in E by lia.
      pose proof (pow2_pos (bit_width a - (bit_width b - 1)) ltac:(lia)). nia.
    - intros j st _. by apply div_inv_step. }
  destruct (for_down _ _ _) as [[num shifted] quo].
  destruct H0 as (I1 & _ & I3 & _ & I5 & I6 & _). change (2 ^ Z.of_nat 0) with 1 in I6.
  pose proof (bval_nonneg _ (wf_words _ I1)). simpl.
  split; [by apply normalize_wf|]. split; [by apply normalize_wf, wf_words|].
  rewrite !normalize_bval.
  split; [apply Z.div_unique with (bval num)|apply Z.mod_unique with (bval quo)]; lia.
Qed.

(** ** Printing *)

(** The number denoted by groups of digits in base [B], least significant first. *)
Definition groups_value (B : Z) (gs : list Z) : Z := foldr (fun g a => g + B * a) 0 gs.

Lemma groups_value_words b : groups_value (2 ^ 64) b = bval b.
Proof. induction b as [|w b IH]; [done|]. unfold groups_value in *. cbn [foldr bval]. by rewrite IH. Qed.

Lemma print_rest_value base width rest : forall a,
  2 <= base <= 16 -> (0 < width)%nat ->
  Forall (fun g => 0 <= g < base ^ Z.of_nat width) rest ->
  digits_value base a (concat (map (fun g => pad0 width (to_digits base g)) rest)) =
  Some (fold_left (fun a g => a * base ^ Z.of_nat width + g) rest a).
Proof.
  induction rest as [|g rest IH]; intros a Hb Hw Hf; [done|].
  apply Forall_cons_1 in Hf as [Hg Hf]. cbn [map concat fold_left].
  rewrite (digits_value_app _ _ _ _ _ (pad0_value base width g a Hb Hg Hw)). by apply IH.
Qed.

Lemma print_groups_value base width gs :
  2 <= base <= 16 -> (0 < width)%nat -> gs <> [] ->
  Forall (fun g => 0 <= g < base ^ Z.of_nat width) gs ->
  digits_value base 0 (print_groups base width gs) =
  Some (groups_value (base ^ Z.of_nat width) gs).
Proof.
  intros Hb Hw Hne Hf. unfold print_groups.
  assert (groups_value (base ^ Z.of_nat width) gs =
          fold_left (fun a g => a * base ^ Z.of_nat width + g) (rev gs) 0) as ->.
  { unfold groups_value. rewrite <- (rev_involutive gs) at 1.
    rewrite fold_left_rev_right. generalize 0. induction (rev gs) as [|g l IHl]; intros z; simpl; [done|].
    rewrite IHl. f_equal. lia. }
  assert (Forall (fun g => 0 <= g < base ^ Z.of_nat width) (rev gs)) as Hf' by (by apply Forall_rev).
  destruct (rev gs) as [|top rest] eqn:E.
  { apply (f_equal (@rev Z)) in E. rewrite rev_involutive in E. done. }
  apply Forall_cons_1 in Hf' as [Ht Hf'].
  rewrite (digits_value_app _ _ _ _ _ (to_digits_value base top Hb ltac:(lia))).
  rewrite print_rest_value by done. cbn [fold_left]. do 2 f_equal.
Qed.

Lemma print_groups_digits base width gs :
  2 <= base <= 16 -> gs <> [] ->
  Forall (is_digit_of base) (print_groups base width gs) /\ print_groups base width gs <> [].
Proof.
  intros Hb Hne. unfold print_groups. destruct (rev gs) as [|top rest] eqn:E.
  { apply (f_equal (@rev Z)) in E. rewrite rev_involutive in E. done. }
  split.
  - apply Forall_app. split; [by apply to_digits_digits|]. apply Forall_concat, Forall_forall.
    intros x Hx. apply in_map_iff in Hx as (g & <- & _). by apply pad0_digits.
  - pose proof (to_digits_nonempty base top). destruct (to_digits base top); done.
Qed.

Lemma decimal_chunks_spec fuel : forall b,
  wf b -> bval b < 2 ^ Z.of_nat fuel ->
  groups_value 1000000000 (decimal_chunks fuel b) = bval b /\
  Forall (fun g => 0 <= g < 1000000000) (decimal_chunks fuel b).
Proof.
  induction fuel as [|fuel IH]; intros b Hb Hlt.
  - change (2 ^ Z.of_nat 0) with 1 in Hlt. pose proof (bval_nonneg _ (wf_words _ Hb)).
    split; [simpl; lia|constructor].
  - cbn [decimal_chunks]. rewrite is_zero_spec by done.
    destruct (Z.eqb_spec (bval b) 0) as [E|E]; [by rewrite E|].
    pose proof (divide_small_spec b 1000000000 Hb ltac:(lia)) as H.
    destruct (divide_small b 1000000000) as [q r]. destruct H as (Hq & Hv & ->).
    pose proof (bval_nonneg _ (wf_words _ Hb)).
    rewrite Nat2Z.inj_succ, Z.pow_succ_r in Hlt by lia.
    destruct (IH q Hq) as [I1 I2].
    { rewrite Hv. apply Z.div_lt_upper_bound; lia. }
    pose proof (Z.mod_pos_bound (bval b) 1000000000 ltac:(lia)).
    pose proof (Z.div_mod (bval b) 1000000000 ltac:(lia)).
    split; [|by constructor]. unfold groups_value in *. cbn [foldr]. rewrite I1, Hv. lia.
Qed.

Lemma decimal_chunks_nonempty b :
  wf b -> bval b <> 0 -> decimal_chunks (Z.to_nat (bit_width b)) b <> [].
Proof.
  intros Hb Hz E. pose proof (bval_nonneg _ (wf_words _ Hb)).
  destruct (bit_width_bounds b Hb ltac:(lia)) as [W1 W2].
  destruct (decimal_chunks_spec (Z.to_nat (bit_width b)) b Hb) as [H1 _]; [rewrite Z2Nat.id by lia; lia|].
  rewrite E in H1. simpl in H1. lia.
Qed.

(** The decimal rendering denotes the number, and consists of decimal digits. *)
Lemma to_decimal_spec b :
  wf b -> digits_value 10 0 (to_decimal b) = Some (bval b) /\
          Forall (is_digit_of 10) (to_decimal b) /\ to_decimal b <> [].
Proof.
  intros Hb. unfold to_decimal. rewrite is_zero_spec by done.
  destruct (Z.eqb_spec (bval b) 0) as [E|E].
  { rewrite E. split; [done|]. split; [|done]. constructor; [|constructor]. exists 0. done. }
  pose proof (bval_nonneg _ (wf_words _ Hb)).
  destruct (bit_width_bounds b Hb ltac:(lia)) as [W1 W2].
  pose proof (decimal_chunks_nonempty b Hb E) as Hne.
  destruct (decimal_chunks_spec (Z.to_nat (bit_width b)) b Hb) as [H1 H2]; [rewrite Z2Nat.id by lia; lia|].
  destruct (print_groups_digits 10 9 _ ltac:(lia) Hne) as [D1 D2].
  split; [|done]. rewrite print_groups_value by (done || lia). by rewrite <- H1.
Qed.

Lemma to_hex_spec b :
  wf b -> digits_value 16 0 (to_hex b) = Some (bval b) /\
          Forall (is_digit_of 16) (to_hex b) /\ to_hex b <> [].
Proof.
  intros Hb. unfold to_hex. destruct b as [|w ws].
  { split; [done|]. split; [|done]. constructor; [|constructor]. exists 0. done. }
  simpl is_zero. cbv iota.
  destruct (print_groups_digits 16 16 (w :: ws) ltac:(lia) ltac:(done)) as [D1 D2].
  split; [|done]. rewrite print_groups_value.
  - change (16 ^ Z.of_nat 16) with (2 ^ 64). by rewrite groups_value_words.
  - lia.
  - lia.
  - done.
  - change (16 ^ Z.of_nat 16) with (2 ^ 64). exact (wf_words _ Hb).
Qed.

(** ** Hints: every operation keeps the invariant and has its value *)

(** The invariant is kept by every operation; used to discharge [wf] goals. *)
Lemma of_u128_wf x : word 128 x -> wf (of_u128 x).
Proof. intros. destruct (of_u128_spec x); auto. Qed.
Lemma of_u128_bval x : word 128 x -> bval (of_u128 x) = x.
Proof. intros. destruct (of_u128_spec x); auto. Qed.
Lemma add_wf a b : wf a -> wf b -> wf (add a b).
Proof. intros. destruct (add_spec a b); auto. Qed.
Lemma add_bval a b : wf a -> wf b -> bval (add a b) = bval a + bval b.
Proof. intros. destruct (add_spec a b); auto. Qed.
Lemma add_small_wf a x : wf a -> word 32 x -> wf (add_small a x).
Proof. intros. destruct (add_small_spec a x); auto. Qed.
Lemma add_small_bval a x : wf a -> word 32 x -> bval (add_small a x) = bval a + x.
Proof. intros. destruct (add_small_spec a x); auto. Qed.
Lemma subtract_wf a b : wf a -> wf b -> bval b <= bval a -> wf (subtract a b).
Proof. intros. destruct (subtract_spec a b); auto. Qed.
Lemma subtract_bval a b : wf a -> wf b -> bval b <= bval a -> bval (subtract a b) = bval a - bval b.
Proof. intros. destruct (subtract_spec a b); auto. Qed.
Lemma multiply_wf a b : wf a -> wf b -> wf (multiply a b).
Proof. intros. destruct (multiply_spec a b); auto. Qed.
Lemma multiply_bval a b : wf a -> wf b -> bval (multiply a b) = bval a * bval b.
Proof. intros. destruct (multiply_spec a b); auto. Qed.
Lemma multiply_small_wf a x : wf a -> word 32 x -> wf (multiply_small a x).
Proof. intros. destruct (multiply_small_spec a x); auto. Qed.
Lemma multiply_small_bval a x : wf a -> word 32 x -> bval (multiply_small a x) = bval a * x.
Proof. intros. destruct (multiply_small_spec a x); auto. Qed.
Lemma shifted_left_wf a n : wf a -> 0 <= n -> wf (shifted_left a n).
Proof. intros. destruct (shifted_left_spec a n); auto. Qed.
Lemma shifted_left_bval a n : wf a -> 0 <= n -> bval (shifted_left a n) = bval a * 2 ^ n.
Proof. intros. destruct (shifted_left_spec a n); auto. Qed.
Lemma wf_nonneg b : wf b -> 0 <= bval b.
Proof. intros Hb. apply bval_nonneg, Hb. Qed.

Create HintDb bigint.
Create Rewrite HintDb bigint.
#[export] Hint Resolve wf_nil of_u128_wf add_wf add_small_wf subtract_wf multiply_wf
  multiply_small_wf shifted_left_wf wf_words wf_nonneg : bigint.
#[export] Hint Rewrite of_u128_bval add_bval add_small_bval subtract_bval multiply_bval
  multiply_small_bval shifted_left_bval using (solve [eauto with bigint]) : bigint.

(** ** Properties *)

(** Schoolbook multiplication computes the product and keeps the
    invariant; the words of the product never overflow the vector the code
    allocates. *)
Theorem multiply_refines a b :
  wf a -> wf b ->
  wf (multiply a b) /\ bval (multiply a b) = bval a * bval b /\
  (length (multiply a b) <= length a + length b)%nat.
Proof.
  intros Ha Hb. destruct (multiply_spec a b Ha Hb) as [H1 H2].
  split; [done|]. split; [done|].
  destruct (multiply a b) as [|w ws] eqn:E; [simpl; lia|].
  pose proof (wf_lower _ H1 ltac:(done)) as Hl. rewrite H2 in Hl.
  pose proof (bval_bound a (wf_words _ Ha)). pose proof (bval_bound b (wf_words _ Hb)).
  apply Nat.nlt_ge. intros Hlt.
  pose proof (pow2_le (64 * Z.of_nat (length a + length b)) (64 * Z.of_nat (length (w :: ws) - 1)) ltac:(lia)) as Hp.
  rewrite base64_add in Hp. nia.
Qed.

Lemma multiply_refines_witness :
  bval (multiply (of_u128 (2 ^ 127 + 5)) (of_u128 (2 ^ 100 + 3))) = (2 ^ 127 + 5) * (2 ^ 100 + 3).
Proof.
  refine (proj1 (proj2 (multiply_refines (of_u128 (2 ^ 127 + 5)) (of_u128 (2 ^ 100 + 3)) _ _)));
    split; [repeat constructor; (vm_compute; congruence)|reflexivity
           |repeat constructor; (vm_compute; congruence)|reflexivity].
Defined.

(** Claim C23: the restoring shift-and-subtract division terminates with the
    Euclidean quotient and remainder, both normalised; dividing by zero returns
    a zero quotient and the numerator. *)
Theorem divmod_refines a b :
  wf a -> wf b ->
  wf (divmod a b).1 /\ wf (divmod a b).2 /\
  (0 < bval b -> bval (divmod a b).1 = bval a / bval b /\ bval (divmod a b).2 = bval a mod bval b) /\
  (bval b = 0 -> divmod a b = ([], a)).
Proof.
  intros Ha Hb. pose proof (wf_nonneg b Hb).
  destruct (Z.eq_dec (bval b) 0) as [E|E].
  - unfold divmod. rewrite is_zero_spec, (proj2 (Z.eqb_eq _ _) E) by done.
    split; [apply wf_nil|]. split; [done|]. split; [lia|done].
  - destruct (divmod_spec a b Ha Hb ltac:(lia)) as (H1 & H2 & H3 & H4).
    split; [done|]. split; [done|]. split; [done|lia].
Qed.

Lemma divmod_refines_witness :
  let '(q, r) := divmod (of_u128 (10 ^ 38)) (of_u128 (7 ^ 30)) in
  bval q = 10 ^ 38 / 7 ^ 30 /\ bval r = 10 ^ 38 mod 7 ^ 30.
Proof.
  assert (wf (of_u128 (10 ^ 38)) /\ wf (of_u128 (7 ^ 30))) as [Ha Hb]
    by (split; apply of_u128_wf; split; vm_compute; congruence).
  exact (proj1 (proj2 (proj2 (divmod_refines _ _ Ha Hb))) eq_refl).
Defined.

(** a right shift computes the floor of the division by the power of two
    and reports in [discarded] exactly whether a non-zero bit was dropped. *)
Theorem shifted_right_refines b bits :
  wf b -> 0 <= bits ->
  wf (shifted_right b bits).1 /\ bval (shifted_right b bits).1 = bval b / 2 ^ bits /\
  ((shifted_right b bits).2 = true <-> bval b mod 2 ^ bits <> 0).
Proof.
  intros Hb Hbits. destruct (shifted_right_spec b bits Hb Hbits) as (H1 & H2 & H3).
  split; [done|]. split; [done|]. rewrite H3, negb_true_iff. apply Z.eqb_neq.
Qed.

Lemma shifted_right_refines_witness :
  bval (shifted_right (of_u128 (2 ^ 100 + 1)) 65).1 = (2 ^ 100 + 1) / 2 ^ 65.
Proof.
  refine (proj1 (proj2 (shifted_right_refines (of_u128 (2 ^ 100 + 1)) 65 _ _)));
    [apply of_u128_wf; split; vm_compute; congruence|lia].
Defined.

(** The decimal rendering read back as a numeral is the number. *)
Theorem to_decimal_reads_back b :
  wf b -> digits_value 10 0 (to_decimal b) = Some (bval b).
Proof. intros Hb. apply (to_decimal_spec b Hb). Qed.

Lemma to_decimal_reads_back_witness :
  digits_value 10 0 (to_decimal (of_u128 (2 ^ 128 - 1))) = Some (2 ^ 128 - 1).
Proof.
  refine (to_decimal_reads_back (of_u128 (2 ^ 128 - 1)) _).
  apply of_u128_wf; split; vm_compute; congruence.
Defined.

#[global] Arguments of_u128 : simpl never.
#[global] Arguments bit_width : simpl never.
#[global] Arguments compare : simpl never.
#[global] Arguments shifted_left : simpl never.
#[global] Arguments shifted_right : simpl never.
#[global] Arguments add : simpl never.
#[global] Arguments add_small : simpl never.
#[global] Arguments subtract : simpl never.
#[global] Arguments multiply : simpl never.
#[global] Arguments multiply_small : simpl never.
#[global] Arguments divmod : simpl never.
#[global] Arguments to_u128 : simpl never.
#[global] Arguments to_decimal : simpl never.
#[global] Arguments to_hex : simpl never.
