(* ===== verification/FloatValue.v ===== *)
(** * Floating-point values and their encodings (src/numeric/floating_point.h, .cpp)

    The formats with their descriptors, the bit-level accessors, [decode], and
    the constructors of special values. A [FloatValue] is its format and two
    64-bit words; [raw_bits] joins them into one 128-bit pattern. The theorems
    show that the fields of a pattern put together by the constructors are read
    back exactly, and give the class and the exact value of every encoding. *)
From S2P Require Import Prelude BigUInt.

(** ** Enumerations and records of floating_point.h *)

Inductive FloatFormat :=
  | Format_Invalid
  | IEEEBinary16
  | IEEEBinary32
  | IEEEBinary64
  | X87Extended80
  | IEEEBinary128.

#[export] Instance FloatFormat_eq_dec : EqDecision FloatFormat.
Proof. solve_decision. Defined.

Record FloatFormatDescriptor := mkDescriptor {
  storage_bits : Z;
  precision : Z;
  significand_storage_bits : Z;
  exponent_bits : Z;
  exponent_bias : Z;
  explicit_integer_bit : bool;
}.

Definition min_normal_exponent (fmt : FloatFormatDescriptor) : Z :=
  1 - exponent_bias fmt.

Definition max_normal_exponent (fmt : FloatFormatDescriptor) : Z :=
  (Z.shiftl 1 (exponent_bits fmt) - 2) - exponent_bias fmt.

Record FloatValue := mkFloat {
  semantics : FloatFormat;
  low_bits : Z;
  high_bits : Z;
}.

#[export] Instance FloatValue_eq_dec : EqDecision FloatValue.
Proof. solve_decision. Defined.

(** A default-constructed [FloatValue]. *)
Definition invalid_value : FloatValue := mkFloat Format_Invalid 0 0.

Definition valid (v : FloatValue) : bool := negb (bool_decide (semantics v = Format_Invalid)).

Inductive FloatClass :=
  | Class_Invalid
  | Zero
  | Subnormal
  | Normal
  | Infinity
  | QuietNaN
  | SignalingNaN.

#[export] Instance FloatClass_eq_dec : EqDecision FloatClass.
Proof. solve_decision. Defined.

(** [==] on classes, as a boolean. *)
Definition class_eqb (a b : FloatClass) : bool := bool_decide (a = b).

Inductive RoundingMode :=
  | NearestTiesToEven
  | NearestTiesAway
  | TowardZero
  | TowardPositive
  | TowardNegative.

Inductive TininessMode := BeforeRounding | AfterRounding.

Record FloatControl := mkControl {
  rounding : RoundingMode;
  tininess : TininessMode;
}.

Definition default_control : FloatControl := mkControl NearestTiesToEven AfterRounding.

Inductive FloatStatusFlag := Flag_Invalid | DivideByZero | Overflow | Underflow | Inexact.

Definition flag_bit (f : FloatStatusFlag) : Z :=
  match f with
  | Flag_Invalid => Z.shiftl 1 0
  | DivideByZero => Z.shiftl 1 1
  | Overflow => Z.shiftl 1 2
  | Underflow => Z.shiftl 1 3
  | Inexact => Z.shiftl 1 4
  end.

(** [FloatStatus] is its byte [bits]; [{}] is 0. *)
Abbreviation FloatStatus := Z (only parsing).

Definition status_has (bits : FloatStatus) (flag : FloatStatusFlag) : bool :=
  negb (Z.land bits (flag_bit flag) =? 0).

Definition status_set (bits : FloatStatus) (flag : FloatStatusFlag) : FloatStatus :=
  u8 (Z.lor bits (flag_bit flag)).

Definition status_merge (bits other : FloatStatus) : FloatStatus := u8 (Z.lor bits other).

Definition status_empty (bits : FloatStatus) : bool := bits =? 0.

Inductive FloatError :=
  | Error_None
  | InvalidFormat
  | InvalidEncoding
  | FormatMismatch
  | InvalidIntegerWidth
  | IntegerOutOfRange.

#[export] Instance FloatError_eq_dec : EqDecision FloatError.
Proof. solve_decision. Defined.

Record FloatResult := mkResult {
  value : FloatValue;
  status : FloatStatus;
  error : FloatError;
}.

Definition has_value (r : FloatResult) : bool :=
  bool_decide (error r = Error_None) && valid (value r).

(** ** Formats *)

Definition descriptor (format : FloatFormat) : option FloatFormatDescriptor :=
  match format with
  | Format_Invalid => None
  | IEEEBinary16 => Some (mkDescriptor 16 11 10 5 15 false)
  | IEEEBinary32 => Some (mkDescriptor 32 24 23 8 127 false)
  | IEEEBinary64 => Some (mkDescriptor 64 53 52 11 1023 false)
  | X87Extended80 => Some (mkDescriptor 80 64 64 15 16383 true)
  | IEEEBinary128 => Some (mkDescriptor 128 113 112 15 16383 false)
  end.

Definition bit_width (v : FloatValue) : Z :=
  match descriptor (semantics v) with Some fmt => storage_bits fmt | None => 0 end.

Definition canonical (v : FloatValue) : bool :=
  match descriptor (semantics v) with
  | None => false
  | Some fmt =>
      if storage_bits fmt <=? 64 then
        (high_bits v =? 0) &&
        ((storage_bits fmt =? 64) || (Z.shiftr (low_bits v) (storage_bits fmt) =? 0))
      else
        let high_width := storage_bits fmt - 64 in
        (high_width =? 64) || (Z.shiftr (high_bits v) high_width =? 0)
  end.

(** ** Bit fields *)

Definition low_mask (bits : Z) : Z :=
  if bits =? 0 then 0
  else if bits >=? 128 then unot 128 0
  else u128 (Z.shiftl 1 bits) - 1.

Definition raw_bits (v : FloatValue) : Z :=
  Z.lor (low_bits v) (u128 (Z.shiftl (high_bits v) 64)).

Definition from_raw (format : FloatFormat) (raw : Z) : FloatValue :=
  match descriptor format with
  | None => invalid_value
  | Some fmt =>
      let raw := if storage_bits fmt <? 128 then Z.land raw (low_mask (storage_bits fmt)) else raw in
      mkFloat format (u64 raw) (u64 (Z.shiftr raw 64))
  end.

Definition exponent_mask (fmt : FloatFormatDescriptor) : Z := low_mask (exponent_bits fmt).

Definition exponent_field (v : FloatValue) (fmt : FloatFormatDescriptor) : Z :=
  Z.land (Z.shiftr (raw_bits v) (significand_storage_bits fmt)) (exponent_mask fmt).

Definition significand_field (v : FloatValue) (fmt : FloatFormatDescriptor) : Z :=
  Z.land (raw_bits v) (low_mask (significand_storage_bits fmt)).

Definition sign_field (v : FloatValue) (fmt : FloatFormatDescriptor) : bool :=
  negb (Z.land (Z.shiftr (raw_bits v) (storage_bits fmt - 1)) 1 =? 0).

Definition sign_bits (negative : bool) (fmt : FloatFormatDescriptor) : Z :=
  if negative then u128 (Z.shiftl 1 (storage_bits fmt - 1)) else 0.

(** ** Decoding *)

Record DecodedFloat := mkDecoded {
  classification : FloatClass;
  negative : bool;
  significand : BigUInt;
  payload : BigUInt;
  exponent : Z;
}.

Definition decode_none (negative : bool) : DecodedFloat :=
  mkDecoded Class_Invalid negative [] [] 0.

Definition decode (v : FloatValue) : DecodedFloat :=
  match descriptor (semantics v) with
  | None => decode_none false
  | Some fmt =>
    if negb (canonical v) then decode_none false else
    let negative := sign_field v fmt in
    let exponent := exponent_field v fmt in
    let significand := significand_field v fmt in
    let max_exponent := exponent_mask fmt in
    let integer_bit :=
      if explicit_integer_bit fmt then u128 (Z.shiftl 1 (precision fmt - 1)) else 0 in
    let fraction_mask :=
      if explicit_integer_bit fmt then integer_bit - 1
      else low_mask (significand_storage_bits fmt) in
    if exponent =? max_exponent then
      if explicit_integer_bit fmt && (Z.land significand integer_bit =? 0)
      then decode_none negative
      else
        let fraction := Z.land significand fraction_mask in
        if fraction =? 0 then mkDecoded Infinity negative [] [] 0
        else
          let quiet_bit := u128 (Z.shiftl 1
            (if explicit_integer_bit fmt then precision fmt - 2
             else significand_storage_bits fmt - 1)) in
          mkDecoded (if negb (Z.land fraction quiet_bit =? 0) then QuietNaN else SignalingNaN)
                    negative [] (of_u128 (Z.land fraction (unot 128 quiet_bit))) 0
    else if exponent =? 0 then
      if significand =? 0 then mkDecoded Zero negative [] [] 0
      else
        mkDecoded (if explicit_integer_bit fmt && negb (Z.land significand integer_bit =? 0)
                   then Normal else Subnormal)
                  negative (of_u128 significand) []
                  (min_normal_exponent fmt - (precision fmt - 1))
    else if explicit_integer_bit fmt && (Z.land significand integer_bit =? 0)
    then decode_none negative
    else
      let full_significand :=
        if explicit_integer_bit fmt then significand
        else Z.lor significand (u128 (Z.shiftl 1 (precision fmt - 1))) in
      let unbiased := s32 exponent - exponent_bias fmt in
      mkDecoded Normal negative (of_u128 full_significand) []
                (unbiased - (precision fmt - 1))
  end.

(** ** Special values *)

Definition zero (format : FloatFormat) (negative : bool) : FloatValue :=
  match descriptor format with
  | Some fmt => from_raw format (sign_bits negative fmt)
  | None => invalid_value
  end.

Definition infinity (format : FloatFormat) (negative : bool) : FloatValue :=
  match descriptor format with
  | None => invalid_value
  | Some fmt =>
      let significand :=
        if explicit_integer_bit fmt then u128 (Z.shiftl 1 (precision fmt - 1)) else 0 in
      from_raw format
        (Z.lor (Z.lor (sign_bits negative fmt)
                      (u128 (Z.shiftl (exponent_mask fmt) (significand_storage_bits fmt))))
               significand)
  end.

Definition maximum_finite (format : FloatFormat) (negative : bool) : FloatValue :=
  match descriptor format with
  | None => invalid_value
  | Some fmt =>
      let exponent := exponent_mask fmt - 1 in
      let significand := low_mask (significand_storage_bits fmt) in
      from_raw format
        (Z.lor (Z.lor (sign_bits negative fmt)
                      (u128 (Z.shiftl exponent (significand_storage_bits fmt))))
               significand)
  end.

Definition minimum_subnormal (format : FloatFormat) (negative : bool) : FloatValue :=
  match descriptor format with
  | None => invalid_value
  | Some fmt => from_raw format (Z.lor (sign_bits negative fmt) 1)
  end.

Definition make_nan (format : FloatFormat) (negative signaling : bool) (payload : BigUInt)
    : FloatValue :=
  match descriptor format with
  | None => invalid_value
  | Some fmt =>
      let quiet_position :=
        if explicit_integer_bit fmt then precision fmt - 2
        else significand_storage_bits fmt - 1 in
      let quiet_bit := u128 (Z.shiftl 1 quiet_position) in
      let payload_mask := quiet_bit - 1 in
      let fraction := Z.land (to_u128 payload) payload_mask in
      let fraction :=
        if signaling then (if fraction =? 0 then 1 else fraction)
        else Z.lor fraction quiet_bit in
      let fraction :=
        if explicit_integer_bit fmt
        then Z.lor fraction (u128 (Z.shiftl 1 (precision fmt - 1))) else fraction in
      let exponent := exponent_mask fmt in
      from_raw format
        (Z.lor (Z.lor (sign_bits negative fmt)
                      (u128 (Z.shiftl exponent (significand_storage_bits fmt))))
               fraction)
  end.

Definition negate (v : FloatValue) : FloatValue :=
  match descriptor (semantics v) with
  | None => invalid_value
  | Some fmt =>
      if negb (canonical v) then invalid_value
      else from_raw (semantics v)
             (Z.lxor (raw_bits v) (u128 (Z.shiftl 1 (storage_bits fmt - 1))))
  end.

(** ** Classification *)

Definition classify (v : FloatValue) : FloatClass := classification (decode v).

Definition is_zero (v : FloatValue) : bool := class_eqb (classify v) Zero.

Definition is_nan_class (c : FloatClass) : bool :=
  class_eqb c QuietNaN || class_eqb c SignalingNaN.

Definition is_nan (v : FloatValue) : bool :=
  let value_class := classify v in
  class_eqb value_class QuietNaN || class_eqb value_class SignalingNaN.

Definition is_infinity (v : FloatValue) : bool := class_eqb (classify v) Infinity.

Definition is_negative (v : FloatValue) : bool :=
  match descriptor (semantics v) with
  | Some fmt => canonical v && sign_field v fmt
  | None => false
  end.

(** ** Error results *)

Definition error_result (e : FloatError) : FloatResult := mkResult invalid_value 0 e.

(** ** Specification of the encodings *)

(** What the descriptors of the table have in common. *)
Record desc_ok (d : FloatFormatDescriptor) : Prop := {
  dk_storage : storage_bits d = 1 + exponent_bits d + significand_storage_bits d;
  dk_significand : significand_storage_bits d = precision d - (if explicit_integer_bit d then 0 else 1);
  dk_bias : exponent_bias d = 2 ^ (exponent_bits d - 1) - 1;
  dk_precision : 11 <= precision d <= 113;
  dk_exponent : 5 <= exponent_bits d <= 15;
  dk_range : 16 <= storage_bits d <= 128;
}.

Definition words_ok (v : FloatValue) : Prop := word 64 (low_bits v) /\ word 64 (high_bits v).

(** The pattern with sign [neg], biased exponent [e] and stored significand [m]. *)
Definition compose (d : FloatFormatDescriptor) (neg : bool) (e m : Z) : Z :=
  m + e * 2 ^ significand_storage_bits d + Z.b2z neg * 2 ^ (storage_bits d - 1).

(** The meaning of the three fields. *)
Definition decode_fields (d : FloatFormatDescriptor) (neg : bool) (e m : Z) : DecodedFloat :=
  let ibit := 2 ^ (precision d - 1) in
  let quiet := 2 ^ (precision d - 2) in
  if e =? 2 ^ exponent_bits d - 1 then
    if explicit_integer_bit d && (m <? ibit) then decode_none neg
    else
      let fraction := m mod ibit in
      if fraction =? 0 then mkDecoded Infinity neg [] [] 0
      else mkDecoded (if quiet <=? fraction then QuietNaN else SignalingNaN)
                     neg [] (of_u128 (fraction mod quiet)) 0
  else if e =? 0 then
    if m =? 0 then mkDecoded Zero neg [] [] 0
    else mkDecoded (if ibit <=? m then Normal else Subnormal) neg (of_u128 m) []
                   (min_normal_exponent d - (precision d - 1))
  else if explicit_integer_bit d && (m <? ibit) then decode_none neg
  else mkDecoded Normal neg (of_u128 (if explicit_integer_bit d then m else m + ibit)) []
                 (e - exponent_bias d - (precision d - 1)).

(** ** Lemmas *)

Lemma descriptor_ok f d : descriptor f = Some d -> desc_ok d.
Proof. destruct f; intros [= <-]; split; simpl; (reflexivity || lia). Qed.

Lemma low_mask_eq n : 0 <= n <= 128 -> low_mask n = 2 ^ n - 1.
Proof.
  intros Hn. unfold low_mask. rewrite Z.geb_leb.
  destruct (Z.eqb_spec n 0) as [->|]; [done|].
  destruct (Z.leb_spec 128 n).
  - assert (n = 128) as -> by lia. reflexivity.
  - rewrite shiftl_mul, Z.mul_1_l by lia. rewrite uwrap_small; [done|].
    unfold word. pose proof (pow2_pos n). pose proof (pow2_lt n 128). lia.
Qed.

Lemma land_low_mask x n : 0 <= n <= 128 -> Z.land x (low_mask n) = x mod 2 ^ n.
Proof. intros. rewrite low_mask_eq by done. apply land_pow2_minus_1. lia. Qed.

Lemma u128_shiftl_1 n : 0 <= n < 128 -> u128 (Z.shiftl 1 n) = 2 ^ n.
Proof.
  intros. rewrite shiftl_mul, Z.mul_1_l by lia. apply uwrap_small.
  unfold word. pose proof (pow2_pos n). pose proof (pow2_lt n 128). lia.
Qed.

Lemma raw_bits_eq v : words_ok v -> raw_bits v = low_bits v + high_bits v * 2 ^ 64.
Proof.
  intros [Hl Hh]. unfold raw_bits. rewrite shiftl_mul by lia.
  rewrite uwrap_small by (unfold word in *; lia). apply lor_fields; [lia|done].
Qed.

Lemma raw_bits_word v : words_ok v -> word 128 (raw_bits v).
Proof. intros Hv. rewrite raw_bits_eq by done. destruct Hv. unfold word in *. lia. Qed.

Lemma value_ext v w : words_ok v -> words_ok w -> semantics v = semantics w -> raw_bits v = raw_bits w -> v = w.
Proof.
  intros Hv Hw Hs Hr. rewrite !raw_bits_eq in Hr by done. destruct v, w, Hv, Hw.
  simpl in *. unfold word in *. f_equal; [done|lia|lia].
Qed.

Lemma shiftr_eq_0 x n : 0 <= n -> 0 <= x -> (Z.shiftr x n =? 0) = (x <? 2 ^ n).
Proof.
  intros Hn Hx. rewrite shiftr_div by done. pose proof (pow2_pos n Hn).
  destruct (Z.ltb_spec x (2 ^ n)).
  - rewrite Z.div_small by lia. done.
  - apply Z.eqb_neq. intros E. apply Z.div_small_iff in E; lia.
Qed.

Lemma canonical_eq v d :
  descriptor (semantics v) = Some d -> words_ok v ->
  canonical v = (raw_bits v <? 2 ^ storage_bits d).
Proof.
  intros Hd Hv. pose proof (descriptor_ok _ _ Hd) as [_ _ _ _ _ Hr].
  rewrite raw_bits_eq by done. destruct Hv as [Hl Hh]. unfold canonical. rewrite Hd.
  unfold word in *. destruct (Z.leb_spec (storage_bits d) 64).
  - rewrite shiftr_eq_0 by lia. pose proof (pow2_le (storage_bits d) 64 ltac:(lia)).
    destruct (Z.eqb_spec (storage_bits d) 64) as [E|E]; [rewrite E|];
      destruct (Z.eqb_spec (high_bits v) 0) as [E0|E0]; rewrite ?E0; simpl; symmetry;
      rewrite ?(proj2 (Z.ltb_lt _ _)), ?(proj2 (Z.ltb_ge _ _)) by lia; try done.
    by rewrite Z.add_0_r.
  - rewrite shiftr_eq_0 by lia.
    pose proof (pow2_split (storage_bits d - 64) 64 ltac:(lia) ltac:(lia)) as E.
    replace (storage_bits d - 64 + 64) with (storage_bits d) in E by lia.
    rewrite E. destruct (Z.eqb_spec (storage_bits d - 64) 64) as [E'|E'].
    + rewrite E'. symmetry. apply Z.ltb_lt. lia.
    + simpl. destruct (Z.ltb_spec (high_bits v) (2 ^ (storage_bits d - 64))); symmetry;
        [apply Z.ltb_lt|apply Z.ltb_ge]; nia.
Qed.

Lemma from_raw_spec f d raw :
  descriptor f = Some d -> word 128 raw ->
  semantics (from_raw f raw) = f /\ words_ok (from_raw f raw) /\
  raw_bits (from_raw f raw) = raw mod 2 ^ storage_bits d /\ canonical (from_raw f raw) = true.
Proof.
  intros Hd Hr. pose proof (descriptor_ok _ _ Hd) as [_ _ _ _ _ Hs].
  assert ((if storage_bits d <? 128 then Z.land raw (low_mask (storage_bits d)) else raw)
          = raw mod 2 ^ storage_bits d) as E.
  { destruct (Z.ltb_spec (storage_bits d) 128).
    - apply land_low_mask. lia.
    - assert (storage_bits d = 128) as -> by lia. symmetry. apply Z.mod_small. apply Hr. }
  pose proof (Z.mod_pos_bound raw (2 ^ storage_bits d) ltac:(apply pow2_pos; lia)) as Hm.
  pose proof (pow2_le (storage_bits d) 128 ltac:(lia)).
  assert (semantics (from_raw f raw) = f) as Hsem by (unfold from_raw; by rewrite Hd).
  assert (words_ok (from_raw f raw)) as Hw.
  { unfold from_raw. rewrite Hd. split; apply uwrap_range; lia. }
  assert (raw_bits (from_raw f raw) = raw mod 2 ^ storage_bits d) as Hraw.
  { rewrite raw_bits_eq by done. unfold from_raw. rewrite Hd, E. simpl.
    rewrite shiftr_div by lia. unfold uwrap.
    rewrite (Z.mod_small (_ / _)) by (split; [apply Z.div_pos|apply Z.div_lt_upper_bound]; lia).
    rewrite Z.add_comm, Z.mul_comm. symmetry. apply Z.div_mod. lia. }
  split; [done|]. split; [done|]. split; [done|].
  rewrite (canonical_eq _ d) by (by rewrite ?Hsem). rewrite Hraw. apply Z.ltb_lt. lia.
Qed.

Section Fields.
Context (d : FloatFormatDescriptor) (Hd : desc_ok d).

Lemma ssb_range : 10 <= significand_storage_bits d <= 113.
Proof. destruct Hd as [H1 H2 _ H3 H4 H5]. destruct (explicit_integer_bit d); lia. Qed.

Lemma storage_pred : storage_bits d - 1 = significand_storage_bits d + exponent_bits d.
Proof. destruct Hd. lia. Qed.

Lemma compose_range neg e m :
  word (exponent_bits d) e -> word (significand_storage_bits d) m ->
  word (storage_bits d) (compose d neg e m).
Proof.
  intros He Hm. pose proof ssb_range. destruct Hd as [H1 _ _ _ He' _]. unfold compose, word in *.
  replace (storage_bits d) with (significand_storage_bits d + exponent_bits d + 1) by lia.
  rewrite Z.add_simpl_r, pow2_succ, pow2_split by lia. destruct neg; simpl Z.b2z; nia.
Qed.

Lemma compose_word neg e m :
  word (exponent_bits d) e -> word (significand_storage_bits d) m -> word 128 (compose d neg e m).
Proof.
  intros. eapply word_mono; [|by apply compose_range]. destruct Hd. lia.
Qed.

Lemma sign_bits_eq neg : sign_bits neg d = Z.b2z neg * 2 ^ (storage_bits d - 1).
Proof.
  unfold sign_bits. destruct neg; [|done]. rewrite u128_shiftl_1 by (destruct Hd; lia). simpl; lia.
Qed.

Lemma compose_lor neg e m :
  word (exponent_bits d) e -> word (significand_storage_bits d) m ->
  Z.lor (Z.lor (sign_bits neg d) (u128 (Z.shiftl e (significand_storage_bits d)))) m = compose d neg e m.
Proof.
  intros He Hm. pose proof ssb_range. pose proof (compose_range neg e m He Hm) as Hc.
  pose proof (compose_word false e m He Hm) as Hw.
  destruct Hd as [H1 _ _ _ He' Hr].
  rewrite shiftl_mul by lia. rewrite uwrap_small.
  2: { unfold compose in Hw. change (Z.b2z false) with 0 in Hw. unfold word in *.
       pose proof (pow2_pos (significand_storage_bits d) ltac:(lia)).
       split; [apply Z.mul_nonneg_nonneg; lia|lia]. }
  rewrite sign_bits_eq, storage_pred, <- Z.lor_assoc.
  rewrite (lor_fields' m e) by (done || lia). rewrite lor_fields'.
  - unfold compose. by rewrite storage_pred.
  - lia.
  - unfold word in *. rewrite pow2_split by lia. nia.
Qed.

Lemma compose_lor0 neg m :
  word (significand_storage_bits d) m -> Z.lor (sign_bits neg d) m = compose d neg 0 m.
Proof.
  intros Hm. rewrite <- (compose_lor neg 0 m); [|unfold word; split; [lia|apply pow2_pos; destruct Hd; lia]|done].
  rewrite Z.shiftl_0_l. change (u128 0) with 0. by rewrite Z.lor_0_r.
Qed.

Context (v : FloatValue) (Hv : words_ok v) (Hc : raw_bits v < 2 ^ storage_bits d).

Lemma exponent_field_eq :
  exponent_field v d = (raw_bits v / 2 ^ significand_storage_bits d) mod 2 ^ exponent_bits d.
Proof.
  pose proof ssb_range. unfold exponent_field, exponent_mask.
  rewrite land_low_mask by (destruct Hd; lia). rewrite shiftr_div by lia. done.
Qed.

Lemma significand_field_eq : significand_field v d = raw_bits v mod 2 ^ significand_storage_bits d.
Proof. pose proof ssb_range. apply land_low_mask. lia. Qed.

Lemma sign_field_eq : sign_field v d = negb (raw_bits v / 2 ^ (storage_bits d - 1) =? 0).
Proof.
  unfold sign_field. change 1 with (2 ^ 0) at 2. rewrite land_pow2_testbit by lia.
  rewrite shiftr_div by (destruct Hd; lia). rewrite Z.bit0_odd.
  pose proof (raw_bits_word v Hv) as [Hr _].
  assert (0 <= raw_bits v / 2 ^ (storage_bits d - 1) <= 1) as H.
  { pose proof (pow2_succ (storage_bits d - 1) ltac:(destruct Hd; lia)) as E.
    replace (storage_bits d - 1 + 1) with (storage_bits d) in E by lia.
    pose proof (pow2_pos (storage_bits d - 1) ltac:(destruct Hd; lia)).
    split; [apply Z.div_pos; lia|]. apply Z.lt_succ_r, Z.div_lt_upper_bound; lia. }
  assert (raw_bits v / 2 ^ (storage_bits d - 1) = 0 \/ raw_bits v / 2 ^ (storage_bits d - 1) = 1)
    as [-> | ->] by lia; done.
Qed.

Lemma field_ranges :
  word (exponent_bits d) (exponent_field v d) /\
  word (significand_storage_bits d) (significand_field v d).
Proof.
  pose proof ssb_range. rewrite exponent_field_eq, significand_field_eq.
  split; apply Z.mod_pos_bound, pow2_pos; destruct Hd; lia.
Qed.

(** A canonical pattern is the composition of its fields. *)
Lemma raw_bits_compose :
  raw_bits v = compose d (sign_field v d) (exponent_field v d) (significand_field v d).
Proof.
  pose proof ssb_range. pose proof (raw_bits_word v Hv) as [Hr _].
  rewrite sign_field_eq, exponent_field_eq, significand_field_eq. unfold compose.
  set (r := raw_bits v) in *. set (s := significand_storage_bits d) in *.
  rewrite storage_pred. fold s. destruct Hd as [H1 _ _ _ He _]. fold s in H1.
  set (k := exponent_bits d) in *.
  rewrite pow2_split, <- Z.div_div by (apply pow2_nz || apply pow2_pos || lia; lia).
  pose proof (pow2_pos s ltac:(lia)). pose proof (pow2_pos k ltac:(lia)).
  pose proof (Z.div_mod r (2 ^ s) ltac:(lia)) as E1. set (q := r / 2 ^ s) in *.
  pose proof (Z.div_mod q (2 ^ k) ltac:(lia)) as E2. set (t := q / 2 ^ k) in *.
  assert (t = 0 \/ t = 1) as Ht.
  { assert (0 <= q) by (apply Z.div_pos; lia). assert (0 <= t) by (apply Z.div_pos; lia).
    assert (t < 2); [|lia]. apply Z.div_lt_upper_bound; [lia|]. apply Z.div_lt_upper_bound; [lia|].
    replace (storage_bits d) with (s + k + 1) in Hc by lia. rewrite pow2_succ, pow2_split in Hc by lia. lia. }
  destruct Ht as [-> | ->]; simpl; lia.
Qed.

Lemma fields_of_compose neg e m :
  word (exponent_bits d) e -> word (significand_storage_bits d) m ->
  raw_bits v = compose d neg e m ->
  sign_field v d = neg /\ exponent_field v d = e /\ significand_field v d = m.
Proof.
  intros He Hm E. pose proof ssb_range. destruct field_ranges as [Fe Fm].
  rewrite raw_bits_compose in E. unfold compose in E. rewrite storage_pred in E.
  destruct Hd as [_ _ _ _ Hk _]. rewrite pow2_split in E by lia.
  set (P := 2 ^ significand_storage_bits d) in *. set (K := 2 ^ exponent_bits d) in *.
  unfold word in *. fold P in Fm, Hm. fold K in Fe, He.
  set (e' := exponent_field v d) in *. set (m' := significand_field v d) in *.
  assert (e' + Z.b2z (sign_field v d) * K = e + Z.b2z neg * K /\ m' = m) as [E1 ->].
  { assert (P * (e' + Z.b2z (sign_field v d) * K) + m' = P * (e + Z.b2z neg * K) + m) as E' by lia.
    apply Z.div_mod_unique in E'; [done|left; lia|left; lia]. }
  destruct (sign_field v d), neg; simpl in E1; (split; [done|]) || (exfalso; lia); split; lia.
Qed.
End Fields.

(** [from_raw] of a composed pattern has those fields. *)
Lemma from_raw_compose f d neg e m :
  descriptor f = Some d ->
  word (exponent_bits d) e -> word (significand_storage_bits d) m ->
  let v := from_raw f (compose d neg e m) in
  semantics v = f /\ words_ok v /\ canonical v = true /\
  raw_bits v = compose d neg e m /\
  sign_field v d = neg /\ exponent_field v d = e /\ significand_field v d = m.
Proof.
  intros Hd He Hm v. pose proof (descriptor_ok _ _ Hd) as Hok.
  pose proof (compose_range d Hok neg e m He Hm) as Hc.
  destruct (from_raw_spec f d (compose d neg e m) Hd (compose_word d Hok neg e m He Hm)) as (H1 & H2 & H3 & H4).
  rewrite Z.mod_small in H3 by done. fold v in H1, H2, H3, H4.
  split; [done|]. split; [done|]. split; [done|]. split; [done|].
  apply fields_of_compose; try done. rewrite H3. apply Hc.
Qed.

(** Clearing the quiet bit of a fraction. *)
Lemma land_unot_pow2 x k :
  0 <= k < 127 -> word (k + 1) x -> Z.land x (unot 128 (2 ^ k)) = x mod 2 ^ k.
Proof.
  intros Hk Hx. apply Z.bits_inj'. intros i Hi. unfold unot, uwrap.
  rewrite Z.land_spec. destruct (Z.lt_ge_cases i 128) as [L|L].
  - rewrite Z.mod_pow2_bits_low, Z.lnot_spec, Z.pow2_bits_eqb by lia.
    destruct (Z.lt_ge_cases i k) as [L1|L1].
    + rewrite Z.mod_pow2_bits_low by lia. rewrite (proj2 (Z.eqb_neq _ _)) by lia. apply andb_true_r.
    + rewrite Z.mod_pow2_bits_high by lia. destruct (Z.eqb_spec k i); [apply andb_false_r|].
      by rewrite (word_testbit_high (k + 1) x) by (done || lia).
  - rewrite !Z.mod_pow2_bits_high by lia. apply andb_false_r.
Qed.

Lemma testbit_pow_mask x w : 0 < w -> word w x -> negb (Z.land x (2 ^ (w - 1)) =? 0) = (2 ^ (w - 1) <=? x).
Proof. intros. rewrite land_pow2_testbit by lia. by apply testbit_top. Qed.

Lemma mask_clear x w : 0 < w -> word w x -> (Z.land x (2 ^ (w - 1)) =? 0) = (x <? 2 ^ (w - 1)).
Proof.
  intros. rewrite Z.ltb_antisym, <- testbit_pow_mask by done. by rewrite negb_involutive.
Qed.

(** [decode] reads the three fields and interprets them. *)
Lemma decode_spec v d :
  descriptor (semantics v) = Some d -> words_ok v -> canonical v = true ->
  decode v = decode_fields d (sign_field v d) (exponent_field v d) (significand_field v d).
Proof.
  intros Hd Hv Hc. pose proof (descriptor_ok _ _ Hd) as Hok.
  destruct (field_ranges d Hok v) as [He Hm].
  pose proof (ssb_range d Hok) as Hs.
  unfold decode. rewrite Hd, Hc. simpl negb. cbv iota.
  destruct Hok as [K1 K2 K3 K4 K5 K6].
  unfold exponent_mask. rewrite low_mask_eq by lia.
  rewrite !u128_shiftl_1 by (destruct (explicit_integer_bit d); lia).
  set (e := exponent_field v d) in *. set (m := significand_field v d) in *.
  assert ((if explicit_integer_bit d then precision d - 2 else significand_storage_bits d - 1)
          = precision d - 2) as -> by (rewrite K2; destruct (explicit_integer_bit d); lia).
  unfold decode_fields.
  assert ((explicit_integer_bit d && (Z.land m (if explicit_integer_bit d then 2 ^ (precision d - 1) else 0) =? 0))%bool
          = (explicit_integer_bit d && (m <? 2 ^ (precision d - 1)))%bool) as Ei.
  { destruct (explicit_integer_bit d); [|done]. simpl. apply mask_clear; [lia|].
    by replace (precision d) with (significand_storage_bits d) by lia. }
  rewrite Ei.
  assert (Z.land m (if explicit_integer_bit d then (if explicit_integer_bit d then 2 ^ (precision d - 1) else 0) - 1
                    else low_mask (significand_storage_bits d)) = m mod 2 ^ (precision d - 1)) as Ef.
  { destruct (explicit_integer_bit d).
    - apply land_pow2_minus_1. lia.
    - rewrite land_low_mask by lia. by rewrite K2. }
  rewrite Ef. set (fr := m mod 2 ^ (precision d - 1)).
  assert (word (precision d - 1) fr) as Hfr by (apply uwrap_word; lia).
  destruct (e =? 2 ^ exponent_bits d - 1).
  - destruct (explicit_integer_bit d && (m <? 2 ^ (precision d - 1)))%bool; [done|].
    destruct (fr =? 0); [done|].
    replace (precision d - 2) with (precision d - 1 - 1) by lia.
    rewrite testbit_pow_mask by (done || lia).
    rewrite land_unot_pow2; [done|lia|]. by replace (precision d - 1 - 1 + 1) with (precision d - 1) by lia.
  - destruct (Z.eqb_spec e 0) as [E0|E0].
    + destruct (m =? 0); [done|]. f_equal.
      destruct (explicit_integer_bit d) eqn:Ex; simpl.
      * rewrite testbit_pow_mask by (lia || (replace (precision d) with (significand_storage_bits d) by lia; done)). done.
      * rewrite (proj2 (Z.leb_gt _ m)); [done|]. rewrite K2 in Hm. apply Hm.
    + destruct (explicit_integer_bit d && (m <? 2 ^ (precision d - 1)))%bool; [done|].
      assert (s32 e = e) as ->.
      { apply swrap_small; [lia|]. unfold word in He. pose proof (pow2_le (exponent_bits d) 31 ltac:(lia)). lia. }
      f_equal. f_equal. destruct (explicit_integer_bit d) eqn:Ex; [done|].
      replace (2 ^ (precision d - 1)) with (1 * 2 ^ (precision d - 1)) by lia.
      apply lor_fields; [lia|]. by rewrite <- K2.
Qed.

(** Whatever the input, a decoded value that is not invalid comes from a
    canonical pattern of a known format. *)
Lemma decode_class_inv v :
  classification (decode v) <> Class_Invalid ->
  exists d, descriptor (semantics v) = Some d /\ canonical v = true.
Proof.
  unfold decode. destruct (descriptor (semantics v)) as [d|]; [|done].
  destruct (canonical v); [eauto|done].
Qed.

(** ** Values of decoded numbers *)

(** The classes that denote a finite number: value = significand * 2^exponent. *)
Definition finite_class (c : FloatClass) : bool :=
  match c with Zero | Subnormal | Normal => true | _ => false end.

(** The shape of the number a decoded finite value denotes in format [d]. *)
Definition finite_shape (d : FloatFormatDescriptor) (m x : Z) : Prop :=
  (m = 0 /\ x = 0) \/
  (0 < m < 2 ^ precision d /\ x = min_normal_exponent d - (precision d - 1)) \/
  (2 ^ (precision d - 1) <= m < 2 ^ precision d /\
   min_normal_exponent d - (precision d - 1) <= x <= max_normal_exponent d - (precision d - 1)).

Lemma max_normal_eq d : desc_ok d -> max_normal_exponent d = exponent_bias d.
Proof.
  intros [_ _ H _ He _]. unfold max_normal_exponent. rewrite shiftl_mul, H by lia.
  replace (exponent_bits d) with (exponent_bits d - 1 + 1) at 1 by lia. rewrite pow2_succ by lia. lia.
Qed.

Lemma bias_bounds d : desc_ok d -> 15 <= exponent_bias d <= 16383.
Proof.
  intros [_ _ H _ He _]. rewrite H.
  pose proof (pow2_le 4 (exponent_bits d - 1) ltac:(lia)).
  pose proof (pow2_le (exponent_bits d - 1) 14 ltac:(lia)).
  change (2 ^ 4) with 16 in *. change (2 ^ 14) with 16384 in *. lia.
Qed.

Lemma small_word128 n x : 0 <= n <= 128 -> word n x -> word 128 x.
Proof. intros. by apply (word_mono n). Qed.

Lemma decode_fields_finite d neg e m :
  desc_ok d -> word (exponent_bits d) e -> word (significand_storage_bits d) m ->
  finite_class (classification (decode_fields d neg e m)) = true ->
  negative (decode_fields d neg e m) = neg /\
  wf (significand (decode_fields d neg e m)) /\
  finite_shape d (bval (significand (decode_fields d neg e m))) (exponent (decode_fields d neg e m)).
Proof.
  intros Hok He Hm. pose proof (max_normal_eq d Hok) as Hmax. pose proof (bias_bounds d Hok) as Hbb.
  pose proof (ssb_range d Hok). destruct Hok as [K1 K2 K3 K4 K5 K6].
  pose proof (pow2_succ (precision d - 1) ltac:(lia)) as Hp2.
  replace (precision d - 1 + 1) with (precision d) in Hp2 by lia.
  pose proof (pow2_le (precision d) 113 ltac:(lia)). pose proof (pow2_lt 113 128 ltac:(lia)).
  assert (word (precision d) m) as Hmp.
  { apply (word_mono (significand_storage_bits d)); [destruct (explicit_integer_bit d); lia|done]. }
  unfold word in *. unfold decode_fields.
  destruct (Z.eqb_spec e (2 ^ exponent_bits d - 1)) as [E1|E1].
  { destruct (_ && _)%bool; [done|]. destruct (_ =? 0); [done|]. by destruct (_ <=? _). }
  destruct (Z.eqb_spec e 0) as [E2|E2].
  - destruct (Z.eqb_spec m 0) as [E3|E3]; intros Hf.
    + cbn [negative significand exponent bval]. split; [done|]. split; [apply wf_nil|]. by left.
    + cbn [negative significand exponent]. split; [done|]. destruct (of_u128_spec m) as [W1 W2]; [unfold word; lia|].
      split; [done|]. rewrite W2. right; left. lia.
  - destruct (explicit_integer_bit d) eqn:Ex; simpl andb.
    + destruct (Z.ltb_spec m (2 ^ (precision d - 1))); [done|]. intros _. cbn [negative significand exponent].
      destruct (of_u128_spec m) as [W1 W2]; [unfold word; lia|].
      split; [done|]. split; [done|]. rewrite W2. right; right.
      unfold min_normal_exponent. rewrite Hmax. split; [lia|].
      pose proof (pow2_succ (exponent_bits d - 1) ltac:(lia)) as Hk.
      replace (exponent_bits d - 1 + 1) with (exponent_bits d) in Hk by lia. lia.
    + intros _. cbn [negative significand exponent]. rewrite K2 in Hm.
      destruct (of_u128_spec (m + 2 ^ (precision d - 1))) as [W1 W2]; [unfold word; lia|].
      split; [done|]. split; [done|]. rewrite W2. right; right.
      unfold min_normal_exponent. rewrite Hmax. split; [lia|].
      pose proof (pow2_succ (exponent_bits d - 1) ltac:(lia)) as Hk.
      replace (exponent_bits d - 1 + 1) with (exponent_bits d) in Hk by lia. lia.
Qed.

Lemma decode_finite v d :
  descriptor (semantics v) = Some d -> words_ok v ->
  finite_class (classification (decode v)) = true ->
  wf (significand (decode v)) /\
  finite_shape d (bval (significand (decode v))) (exponent (decode v)).
Proof.
  intros Hd Hv Hf.
  destruct (decode_class_inv v) as (d' & Hd' & Hc); [intros E; by rewrite E in Hf|].
  rewrite Hd in Hd'. injection Hd' as <-.
  pose proof (descriptor_ok _ _ Hd) as Hok. destruct (field_ranges d Hok v) as [He Hm].
  rewrite (decode_spec v d Hd Hv Hc) in *. by apply decode_fields_finite.
Qed.
