(* ===== verification/Dyadic.v ===== *)
(** * Dyadic rationals and the specification of rounding

    The abstract specification the floating-point code is proved against.
    [dy m x] is the rational m * 2^x; [representable d f] says that [f] is the
    magnitude of a number of format [d] with no upper bound on the exponent, and
    [rounds_to d mode neg v f] that [f] is the rounding of the magnitude [v]
    under a rounding mode. [grid_rounding] is the one lemma that relates the
    specification to integer quotients and remainders. *)
From Stdlib Require Export QArith Qabs Qpower Lqa.
From S2P Require Import Prelude BigUInt FloatValue.

Open Scope Z_scope.

(** ** Powers of two and dyadic numbers *)

Definition q2 (x : Z) : Q := Qpower 2 x.
Definition dy (m x : Z) : Q := (inject_Z m * q2 x)%Q.

Lemma inject_Z_sub a b : (inject_Z (a - b) == inject_Z a - inject_Z b)%Q.
Proof. unfold Z.sub. rewrite inject_Z_plus, inject_Z_opp. reflexivity. Qed.

Lemma q2_pos x : (0 < q2 x)%Q.
Proof. apply Qpower_0_lt. reflexivity. Qed.

Lemma q2_add a b : (q2 (a + b) == q2 a * q2 b)%Q.
Proof. apply Qpower_plus. discriminate. Qed.

Lemma q2_nonneg x : 0 <= x -> (q2 x == inject_Z (2 ^ x))%Q.
Proof. intros H. unfold q2. rewrite Zpower_Qpower by exact H. reflexivity. Qed.

Lemma q2_0 : (q2 0 == 1)%Q.
Proof. reflexivity. Qed.

#[export] Instance dy_proper_eq : Proper (eq ==> eq ==> Qeq) dy.
Proof. intros ? ? -> ? ? ->. reflexivity. Qed.

(** Moving a power of two from the exponent to the significand. *)
Lemma dy_shift m x k : 0 <= k -> (dy m (x + k) == dy (m * 2 ^ k) x)%Q.
Proof.
  intros Hk. unfold dy. rewrite q2_add, (q2_nonneg k Hk), inject_Z_mult. ring.
Qed.

Lemma dy_lower m x y : y <= x -> (dy m x == dy (m * 2 ^ (x - y)) y)%Q.
Proof.
  intros H. rewrite <- dy_shift by lia. replace (y + (x - y)) with x by lia. reflexivity.
Qed.

Lemma dy_le m n x : (dy m x <= dy n x)%Q <-> m <= n.
Proof.
  unfold dy. rewrite Qmult_le_r by apply q2_pos. by rewrite <- Zle_Qle.
Qed.

Lemma dy_lt m n x : (dy m x < dy n x)%Q <-> m < n.
Proof.
  unfold dy. rewrite Qmult_lt_r by apply q2_pos. by rewrite <- Zlt_Qlt.
Qed.

Lemma dy_eq m n x : (dy m x == dy n x)%Q <-> m = n.
Proof.
  split; [|intros ->; reflexivity]. intros H.
  apply Z.le_antisymm; apply (dy_le _ _ x); rewrite H; apply Qle_refl.
Qed.

Lemma dy_0 x : (dy 0 x == 0)%Q.
Proof. unfold dy. change (inject_Z 0) with 0%Q. ring. Qed.

Lemma dy_nonneg m x : 0 <= m -> (0 <= dy m x)%Q.
Proof. intros H. rewrite <- (dy_0 x). by apply dy_le. Qed.

Lemma dy_1 x : (dy 1 x == q2 x)%Q.
Proof. unfold dy. change (inject_Z 1) with 1%Q. ring. Qed.

Lemma dy_pow2 k x : 0 <= k -> (dy (2 ^ k) x == q2 (x + k))%Q.
Proof. intros H. rewrite <- dy_1, dy_shift by done. rewrite Z.mul_1_l. reflexivity. Qed.

Lemma q2_lt a b : (q2 a < q2 b)%Q <-> a < b.
Proof.
  assert (forall a b, a < b -> (q2 a < q2 b)%Q) as H.
  { intros x y Hxy. rewrite <- (dy_1 x), <- (dy_1 y), (dy_lower 1 y x) by lia.
    apply dy_lt. pose proof (pow2_lt 0 (y - x) ltac:(lia)). lia. }
  split; [|apply H]. intros L. destruct (Z.lt_trichotomy a b) as [|[->|G]]; [done| |].
  - exfalso. by apply Qlt_irrefl in L.
  - exfalso. apply H in G. apply (Qlt_irrefl (q2 a)). by eapply Qlt_trans.
Qed.

Lemma q2_le a b : (q2 a <= q2 b)%Q <-> a <= b.
Proof.
  rewrite <- Z.nlt_ge, <- (q2_lt b a). split.
  - intros H G. by apply (Qle_not_lt _ _ H).
  - intros H. by apply Qnot_lt_le.
Qed.

(** Products and sums of dyadics. *)
Lemma dy_mul m n x y : (dy m x * dy n y == dy (m * n) (x + y))%Q.
Proof. unfold dy. rewrite q2_add, inject_Z_mult. ring. Qed.

Lemma dy_add m n x : (dy m x + dy n x == dy (m + n) x)%Q.
Proof. unfold dy. rewrite inject_Z_plus. ring. Qed.

Lemma dy_sub m n x : (dy m x - dy n x == dy (m - n) x)%Q.
Proof. unfold dy. rewrite inject_Z_sub. ring. Qed.

(** ** Representable magnitudes and rounding *)

Definition min_subnormal_exponent (d : FloatFormatDescriptor) : Z :=
  min_normal_exponent d - (precision d - 1).

Definition representable (d : FloatFormatDescriptor) (f : Q) : Prop :=
  exists m x, 0 <= m < 2 ^ precision d /\ min_subnormal_exponent d <= x /\ (f == dy m x)%Q.

(** The significand of [f], taken at full precision, is even. *)
Definition even_significand (d : FloatFormatDescriptor) (f : Q) : Prop :=
  exists m x, (f == dy m x)%Q /\ Z.Even m /\ 0 <= m < 2 ^ precision d /\
    min_subnormal_exponent d <= x /\ (x = min_subnormal_exponent d \/ 2 ^ (precision d - 1) <= m).

(** What a mode does to the magnitude of a number of the given sign. *)
Inductive direction := Down | Up | NearEven | NearAway.

Definition direction_of (mode : RoundingMode) (neg : bool) : direction :=
  match mode with
  | NearestTiesToEven => NearEven
  | NearestTiesAway => NearAway
  | TowardZero => Down
  | TowardPositive => if neg then Down else Up
  | TowardNegative => if neg then Up else Down
  end.

Definition nearest (d : FloatFormatDescriptor) (v f : Q) : Prop :=
  forall g, representable d g -> (Qabs (f - v) <= Qabs (g - v))%Q.

Definition rounds_to (d : FloatFormatDescriptor) (mode : RoundingMode) (neg : bool) (v f : Q) : Prop :=
  representable d f /\
  match direction_of mode neg with
  | Down => (f <= v)%Q /\ forall g, representable d g -> (g <= v)%Q -> (g <= f)%Q
  | Up => (v <= f)%Q /\ forall g, representable d g -> (v <= g)%Q -> (f <= g)%Q
  | NearEven => nearest d v f /\
      forall g, representable d g -> (Qabs (g - v) == Qabs (f - v))%Q -> (g == f)%Q \/ even_significand d f
  | NearAway => nearest d v f /\
      forall g, representable d g -> (Qabs (g - v) == Qabs (f - v))%Q -> (g <= f)%Q
  end.

(** The decision the code takes on the integer quotient [q] (its parity) and
    the remainder [r] of a division by [den]. *)
Definition increments (dir : direction) (q_odd : bool) (r den : Z) : bool :=
  if r =? 0 then false
  else match dir with
       | Down => false
       | Up => true
       | NearEven => (den <? 2 * r) || ((2 * r =? den) && q_odd)
       | NearAway => (den <? 2 * r) || (2 * r =? den)
       end.

(** ** Rounding on a grid *)

Section Grid.
Context (d : FloatFormatDescriptor) (Hprec : 2 <= precision d).
Context (u q r den : Z) (v : Q).
Context (Hu : min_subnormal_exponent d <= u) (Hden : 0 < den) (Hr : 0 <= r < den).
Context (Hq : (u = min_subnormal_exponent d /\ 0 <= q < 2 ^ (precision d - 1)) \/
              2 ^ (precision d - 1) <= q < 2 ^ precision d).

(** One unit of the last place of [den * v]. *)
Let w : Q := (q2 u / inject_Z den)%Q.
Context (Hv : (v == inject_Z (q * den + r) * (q2 u / inject_Z den))%Q).

Lemma grid_unit_pos : (0 < w)%Q.
Proof.
  unfold w. apply Qlt_shift_div_l; [change 0%Q with (inject_Z 0); rewrite <- Zlt_Qlt; lia|].
  rewrite Qmult_0_l. apply q2_pos.
Qed.

Lemma grid_point k : (dy k u == inject_Z (k * den) * w)%Q.
Proof.
  unfold dy, w. rewrite inject_Z_mult. field.
  intros H. unfold Qeq in H. simpl in H. lia.
Qed.

Lemma grid_le k : (dy k u <= v)%Q <-> k <= q.
Proof.
  rewrite grid_point, Hv. fold w. rewrite Qmult_le_r by apply grid_unit_pos.
  rewrite <- Zle_Qle. split; intros; nia.
Qed.

Lemma grid_ge k : (v <= dy k u)%Q <-> (q + (if r =? 0 then 0 else 1)) <= k.
Proof.
  rewrite grid_point, Hv. fold w. rewrite Qmult_le_r by apply grid_unit_pos.
  rewrite <- Zle_Qle. destruct (Z.eqb_spec r 0); split; intros; nia.
Qed.

(** A representable number is on the grid or below every grid point from
    [q] on. *)
Lemma representable_grid g :
  representable d g ->
  (exists k, 0 <= k /\ (g == dy k u)%Q) \/ (g < dy q u)%Q.
Proof.
  intros (m & x & Hm & Hx & E). destruct (Z.le_gt_cases u x) as [L|L].
  - left. exists (m * 2 ^ (x - u)). split; [pose proof (pow2_pos (x - u)); nia|].
    rewrite E. by apply dy_lower.
  - right. rewrite E. destruct Hq as [[Hu' _]|Hq']; [lia|].
    rewrite (dy_lower q u x) by lia. apply dy_lt.
    apply Z.lt_le_trans with (2 ^ precision d); [lia|].
    apply Z.le_trans with (2 ^ (precision d - 1) * 2 ^ (u - x)).
    + rewrite <- Z.pow_add_r by lia. apply pow2_le. lia.
    + apply Z.mul_le_mono_nonneg_r; [apply Z.pow_nonneg; lia|lia].
Qed.

Lemma grid_q_bounds : 0 <= q < 2 ^ precision d.
Proof.
  pose proof (pow2_le (precision d - 1) (precision d) ltac:(lia)).
  pose proof (pow2_pos (precision d - 1) ltac:(lia)). lia.
Qed.

Lemma grid_representable inc : 0 <= inc <= 1 -> representable d (dy (q + inc) u).
Proof.
  intros Hi. pose proof grid_q_bounds.
  destruct (Z.eq_dec (q + inc) (2 ^ precision d)) as [E|E].
  - exists (2 ^ (precision d - 1)), (u + 1).
    pose proof (pow2_lt (precision d - 1) (precision d) ltac:(lia)).
    pose proof (pow2_pos (precision d - 1) ltac:(lia)).
    split; [lia|]. split; [lia|]. rewrite dy_shift by lia. rewrite E.
    rewrite <- Z.pow_add_r by lia. replace (precision d - 1 + 1) with (precision d) by lia. reflexivity.
  - exists (q + inc), u. split; [lia|]. split; [done|]. reflexivity.
Qed.

Lemma grid_even inc : 0 <= inc <= 1 -> Z.Even (q + inc) -> even_significand d (dy (q + inc) u).
Proof.
  intros Hi He. pose proof grid_q_bounds. pose proof (pow2_pos (precision d - 1) ltac:(lia)).
  pose proof (pow2_lt (precision d - 1) (precision d) ltac:(lia)).
  destruct (Z.eq_dec (q + inc) (2 ^ precision d)) as [E|E].
  - exists (2 ^ (precision d - 1)), (u + 1).
    split.
    { rewrite dy_shift by lia. rewrite E, <- Z.pow_add_r by lia.
      replace (precision d - 1 + 1) with (precision d) by lia. reflexivity. }
    split; [exists (2 ^ (precision d - 2)); rewrite <- Z.pow_succ_r by lia; f_equal; lia|].
    split; [lia|]. split; [lia|]. right. lia.
  - exists (q + inc), u. split; [reflexivity|]. split; [done|]. split; [lia|]. split; [done|].
    destruct Hq as [[? _]|?]; [by left|right; lia].
Qed.

(** Distances to [v], in units. *)
Lemma grid_dist k : (Qabs (dy k u - v) == inject_Z (Z.abs (k * den - (q * den + r))) * w)%Q.
Proof.
  rewrite grid_point, Hv. fold w.
  assert (inject_Z (k * den) * w - inject_Z (q * den + r) * w
          == inject_Z (k * den - (q * den + r)) * w)%Q as ->.
  { rewrite inject_Z_sub. ring. }
  rewrite Qabs_Qmult. rewrite (Qabs_pos w) by apply Qlt_le_weak, grid_unit_pos. reflexivity.
Qed.

Lemma grid_dist_below g : (g < dy q u)%Q -> (inject_Z r * w < Qabs (g - v))%Q.
Proof.
  intros Hg. pose proof (grid_point q) as E.
  assert (v == dy q u + inject_Z r * w)%Q as Ev.
  { rewrite E, Hv. fold w. rewrite inject_Z_plus. ring. }
  assert (0 <= inject_Z r * w)%Q as Hrw.
  { apply Qmult_le_0_compat; [change 0%Q with (inject_Z 0); rewrite <- Zle_Qle; lia|].
    apply Qlt_le_weak, grid_unit_pos. }
  rewrite Qabs_neg; lra.
Qed.

Lemma unit_le a b : (inject_Z a * w <= inject_Z b * w)%Q <-> a <= b.
Proof. rewrite Qmult_le_r by apply grid_unit_pos. by rewrite <- Zle_Qle. Qed.

Lemma unit_eq a b : (inject_Z a * w == inject_Z b * w)%Q -> a = b.
Proof.
  intros H. apply Z.le_antisymm; apply unit_le; rewrite H; apply Qle_refl.
Qed.

(** The chosen neighbour is at least as close as any representable number. *)
Lemma grid_nearest inc :
  (inc = 0 /\ 2 * r <= den) \/ (inc = 1 /\ den <= 2 * r) -> nearest d v (dy (q + inc) u).
Proof.
  intros Hi g Hg. rewrite grid_dist.
  assert (Z.abs ((q + inc) * den - (q * den + r)) <= r) as Ha by (destruct Hi as [[-> ?]|[-> ?]]; lia).
  destruct (representable_grid g Hg) as [(k & Hk & ->)|Hb].
  - rewrite grid_dist. apply unit_le. destruct (Z.le_gt_cases k q); destruct Hi as [[-> ?]|[-> ?]]; nia.
  - apply Qle_trans with (inject_Z r * w)%Q; [by apply unit_le|].
    by apply Qlt_le_weak, grid_dist_below.
Qed.

(** A representable number at the same distance is one of the two neighbours. *)
Lemma grid_tie inc g :
  (inc = 0 /\ 2 * r <= den) \/ (inc = 1 /\ den <= 2 * r) ->
  representable d g -> (Qabs (g - v) == Qabs (dy (q + inc) u - v))%Q ->
  exists k, (g == dy k u)%Q /\
    (k = q + inc \/ (2 * r = den /\ (k = q \/ k = q + 1))).
Proof.
  intros Hi Hg E. rewrite grid_dist in E.
  assert (Z.abs ((q + inc) * den - (q * den + r)) <= r) as Ha by (destruct Hi as [[-> ?]|[-> ?]]; lia).
  destruct (representable_grid g Hg) as [(k & Hk & Eg)|Hb].
  - exists k. split; [done|]. rewrite Eg, grid_dist in E. apply unit_eq in E.
    destruct (Z.eq_dec k (q + inc)) as [|Hne]; [by left|right].
    destruct (Z.lt_ge_cases k q); [exfalso; destruct Hi as [[-> ?]|[-> ?]]; nia|].
    destruct (Z.lt_ge_cases (q + 1) k); [exfalso; destruct Hi as [[-> ?]|[-> ?]]; nia|].
    assert (k = q \/ k = q + 1) as [-> | ->] by lia; destruct Hi as [[-> ?]|[-> ?]]; lia.
  - exfalso. apply grid_dist_below in Hb. rewrite E in Hb. apply (unit_le) in Ha.
    apply (Qlt_irrefl (inject_Z r * w)%Q). by eapply Qlt_le_trans.
Qed.

(** The code's decision is the rounding the mode asks for. *)
Theorem grid_rounding mode neg :
  rounds_to d mode neg v
    (dy (q + Z.b2z (increments (direction_of mode neg) (Z.odd q) r den)) u).
Proof.
  set (dir := direction_of mode neg). unfold rounds_to. fold dir.
  split; [apply grid_representable; destruct (increments _ _ _ _); simpl; lia|].
  unfold increments. destruct (Z.eqb_spec r 0) as [E|E]; simpl Z.b2z.
  - (* exact *)
    rewrite Z.add_0_r.
    assert (dy q u == v)%Q as Hx.
    { apply Qle_antisym; [by apply grid_le|apply grid_ge; rewrite E; simpl; lia]. }
    assert (v - v == 0)%Q as Hvv by ring.
    assert (nearest d v (dy q u)) as Hn.
    { intros g _. rewrite Hx, Hvv. apply Qabs_nonneg. }
    assert (forall g, (Qabs (g - v) == Qabs (dy q u - v))%Q -> (g == dy q u)%Q) as Ht.
    { intros g Hg. rewrite Hx, Hvv in Hg.
      rewrite Hx. change (Qabs 0) with 0%Q in Hg.
      assert (g - v == 0)%Q as Hz; [|lra].
      apply Qle_antisym; [rewrite <- Hg; apply Qle_Qabs|].
      rewrite <- (Qopp_involutive (g - v)).
      apply (Qopp_le_compat _ 0). rewrite <- Hg, <- Qabs_opp. apply Qle_Qabs. }
    destruct dir; (split; [try done; rewrite Hx; apply Qle_refl|]).
    + intros g _ Hg. by rewrite Hx.
    + intros g _ Hg. by rewrite Hx.
    + intros g _ Hg. left. by apply Ht.
    + intros g _ Hg. rewrite (Ht g Hg). apply Qle_refl.
  - destruct dir; simpl Z.b2z.
    + rewrite Z.add_0_r. split; [by apply grid_le|]. intros g Hg Hle.
      destruct (representable_grid g Hg) as [(k & Hk & Eg)|Hb]; [|by apply Qlt_le_weak].
      rewrite Eg in *. apply dy_le. by apply grid_le.
    + split; [apply grid_ge; rewrite (proj2 (Z.eqb_neq _ _)) by done; lia|]. intros g Hg Hle.
      destruct (representable_grid g Hg) as [(k & Hk & Eg)|Hb].
      * rewrite Eg in *. apply dy_le. apply grid_ge in Hle.
        rewrite (proj2 (Z.eqb_neq _ _)) in Hle by done. lia.
      * exfalso. apply (Qlt_irrefl g). eapply Qlt_le_trans; [exact Hb|].
        apply Qle_trans with v; [by apply grid_le|done].
    + set (inc := Z.b2z _).
      assert ((inc = 0 /\ 2 * r <= den) \/ (inc = 1 /\ den <= 2 * r)) as Hi.
      { unfold inc. destruct (Z.ltb_spec den (2 * r)); simpl; [lia|].
        destruct (Z.eqb_spec (2 * r) den); simpl; [|lia]. destruct (Z.odd q); simpl; lia. }
      split; [by apply grid_nearest|]. intros g Hg Ht.
      destruct (grid_tie inc g Hi Hg Ht) as (k & Eg & [->|[Et Hk]]); [by left|right].
      apply grid_even; [lia|]. unfold inc.
      rewrite (proj2 (Z.ltb_ge _ _)), (proj2 (Z.eqb_eq _ _) Et) by lia. simpl.
      destruct (Z.odd q) eqn:Eo; simpl.
      * apply Z.even_spec. rewrite Z.even_add, <- Z.negb_odd, Eo. done.
      * apply Z.even_spec. rewrite Z.add_0_r, <- Z.negb_odd, Eo. done.
    + set (inc := Z.b2z _).
      assert ((inc = 0 /\ 2 * r < den) \/ (inc = 1 /\ den <= 2 * r)) as Hi.
      { unfold inc. destruct (Z.ltb_spec den (2 * r)); simpl; [lia|].
        destruct (Z.eqb_spec (2 * r) den); simpl; lia. }
      split; [apply grid_nearest; lia|]. intros g Hg Ht.
      destruct (grid_tie inc g ltac:(lia) Hg Ht) as (k & Eg & Hk).
      rewrite Eg. apply dy_le. lia.
Qed.
End Grid.
