(* ===== verification/Rounding.v ===== *)
(** * Rounding a rational to a format (round_rational, src/numeric/floating_point.cpp)

    [round_rational] turns sign * numerator / denominator * 2^binary_exponent
    into the nearest encoding of a format, with the status flags. The exponents
    are 64-bit integers in the code; they are [Z]s here, their magnitudes stay
    below 2^40. The theorem is that the result is the rounding specified in
    [Dyadic], with overflow exactly when the rounded magnitude reaches
    2^(max_normal_exponent + 1). *)
From S2P Require Import Prelude BigUInt FloatValue Dyadic.
Open Scope Z_scope.

(** ** The code *)

Definition overflow_result (format : FloatFormat) (negative : bool) (control : FloatControl)
    : FloatResult :=
  let status := status_set (status_set 0 Overflow) Inexact in
  let to_infinity :=
    match rounding control with
    | NearestTiesToEven | NearestTiesAway => true
    | TowardZero => false
    | TowardPositive => negb negative
    | TowardNegative => negative
    end in
  mkResult (if to_infinity then infinity format negative else maximum_finite format negative)
           status Error_None.

Definition tiny_nonzero_result (format : FloatFormat) (negative : bool) (control : FloatControl)
    : FloatResult :=
  let status := status_set (status_set 0 Underflow) Inexact in
  let away :=
    match rounding control with
    | TowardPositive => negb negative
    | TowardNegative => negative
    | _ => false
    end in
  mkResult (if away then minimum_subnormal format negative else zero format negative)
           status Error_None.

Definition compare_scaled (lhs : BigUInt) (lhs_shift : Z) (rhs : BigUInt) (rhs_shift : Z) : Z :=
  if BigUInt.is_zero lhs || BigUInt.is_zero rhs then
    if Bool.eqb (BigUInt.is_zero lhs) (BigUInt.is_zero rhs) then 0
    else if BigUInt.is_zero lhs then -1 else 1
  else
    let lhs_top := BigUInt.bit_width lhs + lhs_shift in
    let rhs_top := BigUInt.bit_width rhs + rhs_shift in
    if negb (lhs_top =? rhs_top) then (if lhs_top <? rhs_top then -1 else 1)
    else
      let minimum := Z.min lhs_shift rhs_shift in
      compare (shifted_left lhs (lhs_shift - minimum)) (shifted_left rhs (rhs_shift - minimum)).

(** Quotient, remainder and the denominator actually used. *)
Definition scaled_division (numerator denominator : BigUInt) (binary_shift : Z)
    : BigUInt * BigUInt * BigUInt :=
  let effective_numerator :=
    if 0 <=? binary_shift then shifted_left numerator binary_shift else numerator in
  let effective_denominator :=
    if 0 <=? binary_shift then denominator else shifted_left denominator (- binary_shift) in
  (divmod effective_numerator effective_denominator, effective_denominator).

(** The exponent of the leading bit of the rational. *)
Definition leading_exponent (numerator denominator : BigUInt) (binary_exponent : Z) : Z :=
  let candidate_exponent :=
    BigUInt.bit_width numerator - BigUInt.bit_width denominator + binary_exponent in
  let scale_compare :=
    compare_scaled numerator 0 denominator
      (BigUInt.bit_width numerator - BigUInt.bit_width denominator) in
  candidate_exponent - (if scale_compare <? 0 then 1 else 0).

(** The [switch] that decides whether the quotient is incremented. *)
Definition increment (negative : bool) (rounded_significand remainder effective_denominator : BigUInt)
    (mode : RoundingMode) : bool :=
  if negb (BigUInt.is_zero remainder) then
    match mode with
    | NearestTiesToEven | NearestTiesAway =>
        let twice := multiply_small remainder 2 in
        let half := compare twice effective_denominator in
        (half >? 0) ||
        ((half =? 0) &&
         (match mode with NearestTiesAway => true | _ => false end || is_odd rounded_significand))
    | TowardZero => false
    | TowardPositive => negb negative
    | TowardNegative => negative
    end
  else false.

(** Put the rounded significand together. *)
Definition pack_rounded (fmt : FloatFormatDescriptor) (negative : bool)
    (normal : bool) (exponent significand : Z) : Z :=
  let minimum_normal := u128 (Z.shiftl 1 (precision fmt - 1)) in
  let raw := sign_bits negative fmt in
  if normal then
    let stored := if explicit_integer_bit fmt then significand
                  else Z.land significand (minimum_normal - 1) in
    let biased := u128 (exponent + exponent_bias fmt) in
    Z.lor (Z.lor raw (u128 (Z.shiftl biased (significand_storage_bits fmt)))) stored
  else Z.lor raw significand.

(** The tail of [round_rational], once the significand is rounded: carry into the
    next exponent, overflow, packing and status. *)
Definition finish_rounding (fmt : FloatFormatDescriptor) (format : FloatFormat) (negative : bool)
    (control : FloatControl) (tiny_before : bool) (exponent : Z) (inexact : bool)
    (significand : Z) : FloatResult :=
  let normal_limit := u128 (Z.shiftl 1 (precision fmt)) in
  let minimum_normal := u128 (Z.shiftl 1 (precision fmt - 1)) in
  let '(normal, significand, exponent) :=
    if negb tiny_before && (significand >=? normal_limit)
    then (true, Z.shiftr significand 1, exponent + 1)
    else if tiny_before && (significand >=? minimum_normal)
    then (true, significand, min_normal_exponent fmt)
    else (negb tiny_before, significand, exponent) in
  if normal && (exponent >? max_normal_exponent fmt)
  then overflow_result format negative control
  else
  let raw := pack_rounded fmt negative normal exponent significand in
  let tiny_after := negb normal in
  let status := if inexact then status_set 0 Inexact else 0 in
  let tiny := match tininess control with
              | BeforeRounding => tiny_before
              | AfterRounding => tiny_after
              end in
  let status := if inexact && tiny then status_set status Underflow else status in
  mkResult (from_raw format raw) status Error_None.

Definition round_rational (negative : bool) (numerator denominator : BigUInt)
    (binary_exponent : Z) (format : FloatFormat) (control : FloatControl) : FloatResult :=
  match descriptor format with
  | None => error_result InvalidFormat
  | Some fmt =>
    if BigUInt.is_zero numerator then mkResult (zero format negative) 0 Error_None
    else if BigUInt.is_zero denominator then error_result InvalidEncoding
    else
    let exponent := leading_exponent numerator denominator binary_exponent in
    let minimum_subnormal_exponent := min_normal_exponent fmt - (precision fmt - 1) in
    if exponent >? max_normal_exponent fmt + 1 then overflow_result format negative control
    else if exponent <? minimum_subnormal_exponent - 1
    then tiny_nonzero_result format negative control
    else
    let tiny_before := exponent <? min_normal_exponent fmt in
    let unit_exponent :=
      if tiny_before then minimum_subnormal_exponent else exponent - (precision fmt - 1) in
    let '(rounded_significand, remainder, effective_denominator) :=
      scaled_division numerator denominator (binary_exponent - unit_exponent) in
    let rounded_significand' :=
      if increment negative rounded_significand remainder effective_denominator (rounding control)
      then add_small rounded_significand 1 else rounded_significand in
    finish_rounding fmt format negative control tiny_before exponent
      (negb (BigUInt.is_zero remainder)) (to_u128 rounded_significand')
  end.

(** ** Specification *)

(** The magnitude numerator / denominator * 2^e. *)
Definition magnitude (num den : BigUInt) (e : Z) : Q :=
  (inject_Z (bval num) / inject_Z (bval den) * q2 e)%Q.

(** The magnitude of a decoded finite value. *)
Definition decoded_value (v : FloatValue) : Q :=
  dy (bval (significand (decode v))) (exponent (decode v)).

Definition is_finite (v : FloatValue) : bool := finite_class (classify v).

(** The first magnitude out of range. *)
Definition overflow_threshold (d : FloatFormatDescriptor) : Q := q2 (max_normal_exponent d + 1).

Example round_third :
  value (round_rational false (of_u128 1) (of_u128 3) 0 IEEEBinary64 default_control)
  = mkFloat IEEEBinary64 0x3FD5555555555555 0.
Proof. vm_compute. reflexivity. Qed.

(** ** Comparison of scaled integers *)

Lemma dy_compare_scale a b x y k :
  k <= x -> k <= y ->
  (dy a x ?= dy b y)%Q = (a * 2 ^ (x - k) ?= b * 2 ^ (y - k)).
Proof.
  intros Hx Hy. pose proof (dy_lower a x k Hx) as Ea. pose proof (dy_lower b y k Hy) as Eb.
  rewrite Ea, Eb.
  destruct (Z.compare_spec (a * 2 ^ (x - k)) (b * 2 ^ (y - k))) as [E|E|E].
  - rewrite E. by apply Qeq_alt.
  - apply Qlt_alt. by apply dy_lt.
  - apply Qgt_alt. by apply dy_lt.
Qed.

Lemma dy_compare_top a b x y :
  wf a -> wf b -> 0 < bval a -> 0 < bval b ->
  BigUInt.bit_width a + x < BigUInt.bit_width b + y -> (dy (bval a) x < dy (bval b) y)%Q.
Proof.
  intros Ha Hb Pa Pb H.
  destruct (bit_width_bounds a Ha Pa) as [A1 A2]. destruct (bit_width_bounds b Hb Pb) as [B1 B2].
  apply Qlt_le_trans with (dy (2 ^ BigUInt.bit_width a) x); [apply dy_lt; lia|].
  apply Qle_trans with (dy (2 ^ (BigUInt.bit_width b - 1)) y); [|apply dy_le; lia].
  rewrite !dy_pow2 by lia. apply q2_le. lia.
Qed.

Lemma compare_scaled_spec a x b y :
  wf a -> wf b -> compare_scaled a x b y = sign_of (dy (bval a) x ?= dy (bval b) y)%Q.
Proof.
  intros Ha Hb. unfold compare_scaled. rewrite !BigUInt.is_zero_spec by done.
  pose proof (wf_nonneg a Ha). pose proof (wf_nonneg b Hb).
  destruct (Z.eqb_spec (bval a) 0) as [Ea|Ea], (Z.eqb_spec (bval b) 0) as [Eb|Eb]; simpl.
  - rewrite Ea, Eb, !dy_0. done.
  - replace (dy (bval a) x ?= dy (bval b) y)%Q with Lt; [done|]. symmetry. apply Qlt_alt.
    rewrite Ea, (dy_0 x), <- (dy_0 y). apply dy_lt. lia.
  - replace (dy (bval a) x ?= dy (bval b) y)%Q with Gt; [done|]. symmetry. apply Qgt_alt.
    rewrite Eb, (dy_0 y), <- (dy_0 x). apply dy_lt. lia.
  - destruct (Z.eqb_spec (BigUInt.bit_width a + x) (BigUInt.bit_width b + y)) as [E|E]; simpl.
    + rewrite BigUInt.compare_spec, !shifted_left_bval by (eauto with bigint || lia || (apply shifted_left_wf; [done|lia])).
      by rewrite <- dy_compare_scale by lia.
    + destruct (Z.ltb_spec (BigUInt.bit_width a + x) (BigUInt.bit_width b + y)).
      * replace (dy (bval a) x ?= dy (bval b) y)%Q with Lt; [done|]. symmetry. apply Qlt_alt.
        apply dy_compare_top; (done || lia).
      * replace (dy (bval a) x ?= dy (bval b) y)%Q with Gt; [done|]. symmetry. apply Qgt_alt.
        apply dy_compare_top; (done || lia).
Qed.

(** ** The rational and its leading exponent *)

Section Rational.
Context (num den : BigUInt) (e : Z).
Context (Hn : wf num) (Hd : wf den) (Pn : 0 < bval num) (Pd : 0 < bval den).

Lemma den_pos : (0 < inject_Z (bval den))%Q.
Proof. change 0%Q with (inject_Z 0). by rewrite <- Zlt_Qlt. Qed.

Lemma den_nz : ~ (inject_Z (bval den) == 0)%Q.
Proof. pose proof den_pos as H. intros E. rewrite E in H. by apply Qlt_irrefl in H. Qed.

(** The magnitude against a dyadic bound, cleared of the denominator. *)
Lemma magnitude_ge m x :
  (dy m x <= magnitude num den e)%Q <-> (dy (m * bval den) (x - e) <= dy (bval num) 0)%Q.
Proof.
  unfold magnitude. pose proof den_pos as Hp. pose proof den_nz as Hz.
  rewrite <- (Qmult_le_r _ _ (inject_Z (bval den) * q2 (- e))).
  2: { apply Qmult_lt_0_compat; [done|apply q2_pos]. }
  assert (dy m x * (inject_Z (bval den) * q2 (- e)) == dy (m * bval den) (x - e))%Q as ->.
  { unfold dy. replace (x - e) with (x + - e) by lia. rewrite q2_add, inject_Z_mult. ring. }
  assert (inject_Z (bval num) / inject_Z (bval den) * q2 e * (inject_Z (bval den) * q2 (- e))
          == dy (bval num) 0)%Q as ->; [|done].
  unfold dy. transitivity (inject_Z (bval num) * (q2 e * q2 (- e)))%Q; [field; done|].
  rewrite <- q2_add. replace (e + - e) with 0 by lia. reflexivity.
Qed.

Lemma leading_exponent_spec :
  (q2 (leading_exponent num den e) <= magnitude num den e)%Q /\
  (magnitude num den e < q2 (leading_exponent num den e + 1))%Q.
Proof.
  destruct (bit_width_bounds num Hn Pn) as [A1 A2]. destruct (bit_width_bounds den Hd Pd) as [B1 B2].
  unfold leading_exponent. rewrite compare_scaled_spec by done.
  set (bn := BigUInt.bit_width num) in *. set (bd := BigUInt.bit_width den) in *.
  assert (forall E, (q2 E <= magnitude num den e)%Q <-> (dy (bval den) (E - e) <= dy (bval num) 0)%Q) as HE.
  { intros E. rewrite <- dy_1, magnitude_ge, Z.mul_1_l. done. }
  assert (forall E, (magnitude num den e < q2 E)%Q <-> (dy (bval num) 0 < dy (bval den) (E - e))%Q) as HL.
  { intros E. specialize (HE E). split; intros H; apply Qnot_le_lt; intros G;
      apply (Qlt_not_le _ _ H); by apply HE. }
  rewrite HE, HL.
  assert (dy (bval den) (bn - bd - 1) < dy (bval num) 0)%Q as Hlow.
  { apply dy_compare_top; try done. fold bn bd. lia. }
  assert (dy (bval num) 0 < dy (bval den) (bn - bd + 1))%Q as Hhigh.
  { apply dy_compare_top; try done. fold bn bd. lia. }
  destruct (dy (bval num) 0 ?= dy (bval den) (bn - bd))%Q eqn:C; simpl.
  - apply Qeq_alt in C.
    replace (bn - bd + e - 0 - e) with (bn - bd) by lia.
    replace (bn - bd + e - 0 + 1 - e) with (bn - bd + 1) by lia.
    split; [rewrite C; apply Qle_refl|done].
  - apply Qlt_alt in C.
    replace (bn - bd + e - 1 - e) with (bn - bd - 1) by lia.
    replace (bn - bd + e - 1 + 1 - e) with (bn - bd) by lia.
    split; [by apply Qlt_le_weak|done].
  - apply Qgt_alt in C.
    replace (bn - bd + e - 0 - e) with (bn - bd) by lia.
    replace (bn - bd + e - 0 + 1 - e) with (bn - bd + 1) by lia.
    split; [by apply Qlt_le_weak|done].
Qed.

(** Division at a unit exponent. *)
Lemma scaled_division_spec u :
  let '(q, r, den') := scaled_division num den (e - u) in
  wf q /\ wf r /\ wf den' /\ 0 <= bval r < bval den' /\ 0 <= bval q /\
  (magnitude num den e == inject_Z (bval q * bval den' + bval r) * (q2 u / inject_Z (bval den')))%Q.
Proof.
  unfold scaled_division. set (s := e - u).
  set (num' := if 0 <=? s then shifted_left num s else num).
  set (den' := if 0 <=? s then den else shifted_left den (- s)).
  assert (wf num' /\ wf den' /\ 0 < bval den' /\
    (magnitude num den e == inject_Z (bval num') * (q2 u / inject_Z (bval den')))%Q) as (Wn & Wd & Pd' & Ev).
  { unfold num', den', magnitude. pose proof den_nz as Hz. destruct (Z.leb_spec 0 s).
    - rewrite shifted_left_bval by done.
      split; [by apply shifted_left_wf|]. split; [done|]. split; [done|].
      rewrite inject_Z_mult, <- (q2_nonneg s) by done.
      replace e with (s + u) by lia. rewrite q2_add. field. done.
    - rewrite shifted_left_bval by (done || lia). pose proof (pow2_pos (- s) ltac:(lia)).
      split; [done|]. split; [apply shifted_left_wf; [done|lia]|]. split; [nia|].
      rewrite inject_Z_mult, <- (q2_nonneg (- s)) by lia.
      replace u with (- s + e) by lia. rewrite q2_add. field.
      split; [|done]. pose proof (q2_pos (- s)) as Hq. intros E. rewrite E in Hq. by apply Qlt_irrefl in Hq. }
  destruct (divmod_spec num' den' Wn Wd Pd') as (D1 & D2 & D3 & D4).
  destruct (divmod num' den') as [q r]. simpl in *.
  pose proof (Z.mod_pos_bound (bval num') (bval den') Pd').
  split; [done|]. split; [done|]. split; [done|]. split; [lia|]. split; [by apply wf_nonneg|].
  rewrite Ev. do 2 f_equiv. rewrite D3, D4, Z.mul_comm. by apply Z.div_mod; lia.
Qed.
End Rational.

Lemma increment_spec neg q r den' mode :
  wf q -> wf r -> wf den' ->
  increment neg q r den' mode = increments (direction_of mode neg) (Z.odd (bval q)) (bval r) (bval den').
Proof.
  intros Hq Hr Hd. unfold increment, increments. rewrite BigUInt.is_zero_spec by done.
  destruct (Z.eqb_spec (bval r) 0); [done|]. simpl.
  assert (wf (multiply_small r 2)) by (apply multiply_small_wf; [done|split; lia]).
  assert (bval (multiply_small r 2) = 2 * bval r) as E2.
  { rewrite multiply_small_bval by (done || split; lia). lia. }
  destruct mode; simpl; try (destruct neg; done);
    rewrite BigUInt.compare_spec, E2, ?is_odd_spec by done.
  - destruct (Z.compare_spec (2 * bval r) (bval den')) as [C|C|C]; simpl.
    + rewrite C, Z.ltb_irrefl, Z.eqb_refl. done.
    + rewrite (proj2 (Z.ltb_ge _ _)), (proj2 (Z.eqb_neq (2 * bval r) _)) by lia. done.
    + rewrite (proj2 (Z.ltb_lt _ _)) by lia. done.
  - destruct (Z.compare_spec (2 * bval r) (bval den')) as [C|C|C]; simpl.
    + rewrite C, Z.ltb_irrefl, Z.eqb_refl. done.
    + rewrite (proj2 (Z.ltb_ge _ _)), (proj2 (Z.eqb_neq (2 * bval r) _)) by lia. done.
    + rewrite (proj2 (Z.ltb_lt _ _)) by lia. done.
Qed.

(** ** Packing *)

Lemma exponent_field_bound d E :
  desc_ok d -> min_normal_exponent d <= E <= max_normal_exponent d ->
  1 <= E + exponent_bias d < 2 ^ exponent_bits d - 1.
Proof.
  intros Hok HE. rewrite (max_normal_eq d Hok) in HE. unfold min_normal_exponent in HE.
  destruct Hok as [_ _ Hb _ He _]. pose proof (pow2_succ (exponent_bits d - 1) ltac:(lia)) as Hk.
  replace (exponent_bits d - 1 + 1) with (exponent_bits d) in Hk by lia. lia.
Qed.

(** The stored significand of a full one. *)
Definition stored_of (d : FloatFormatDescriptor) (s : Z) : Z :=
  if explicit_integer_bit d then s else s mod 2 ^ (precision d - 1).

Lemma stored_word d s :
  desc_ok d -> 0 <= s < 2 ^ precision d -> word (significand_storage_bits d) (stored_of d s).
Proof.
  intros [_ H _ Hp _ _] Hs. unfold stored_of, word. rewrite H.
  destruct (explicit_integer_bit d); [by rewrite Z.sub_0_r|]. apply Z.mod_pos_bound, pow2_pos. lia.
Qed.

Lemma pack_normal d neg E s :
  desc_ok d -> min_normal_exponent d <= E <= max_normal_exponent d ->
  2 ^ (precision d - 1) <= s < 2 ^ precision d ->
  pack_rounded d neg true E s = compose d neg (E + exponent_bias d) (stored_of d s) /\
  word (exponent_bits d) (E + exponent_bias d) /\
  decode_fields d neg (E + exponent_bias d) (stored_of d s)
  = mkDecoded Normal neg (of_u128 s) [] (E - (precision d - 1)).
Proof.
  intros Hok HE Hs. pose proof (exponent_field_bound d E Hok HE) as Hf.
  pose proof (pow2_pos (precision d - 1) ltac:(destruct Hok; lia)) as Hp1.
  pose proof (stored_word d s Hok ltac:(lia)) as Hw.
  assert (word (exponent_bits d) (E + exponent_bias d)) as Hwe by (unfold word; lia).
  split; [|split; [done|]].
  - unfold pack_rounded. rewrite u128_shiftl_1 by (destruct Hok; lia).
    rewrite (uwrap_small 128 (E + exponent_bias d)).
    2: { apply (word_mono (exponent_bits d)); [destruct Hok; lia|done]. }
    rewrite land_pow2_minus_1 by (destruct Hok; lia).
    by apply compose_lor.
  - unfold decode_fields. rewrite (proj2 (Z.eqb_neq _ _)) by lia.
    rewrite (proj2 (Z.eqb_neq _ 0)) by lia. unfold stored_of.
    replace (E + exponent_bias d - exponent_bias d) with E by lia.
    destruct (explicit_integer_bit d) eqn:Ex; simpl.
    + rewrite (proj2 (Z.ltb_ge _ _)) by lia. done.
    + assert (s mod 2 ^ (precision d - 1) = s - 2 ^ (precision d - 1)) as ->.
      { symmetry. apply Z.mod_unique with 1; [left|lia].
        pose proof (pow2_succ (precision d - 1) ltac:(destruct Hok; lia)) as Hk.
        replace (precision d - 1 + 1) with (precision d) in Hk by lia. lia. }
      by rewrite Z.sub_add.
Qed.

Lemma pack_subnormal d neg E s :
  desc_ok d -> 0 <= s < 2 ^ (precision d - 1) ->
  pack_rounded d neg false E s = compose d neg 0 s /\
  word (significand_storage_bits d) s /\
  decode_fields d neg 0 s =
    if s =? 0 then mkDecoded Zero neg [] [] 0
    else mkDecoded Subnormal neg (of_u128 s) [] (min_subnormal_exponent d).
Proof.
  intros Hok Hs.
  assert (word (significand_storage_bits d) s) as Hw.
  { apply (word_mono (precision d - 1)); [destruct Hok; destruct (explicit_integer_bit d); lia|done]. }
  split; [|split; [done|]].
  - unfold pack_rounded. by apply compose_lor0.
  - unfold decode_fields. rewrite (proj2 (Z.eqb_neq 0 _)).
    2: { pose proof (pow2_le 1 (exponent_bits d) ltac:(destruct Hok; lia)). change (2 ^ 1) with 2 in *. lia. }
    rewrite Z.eqb_refl. destruct (s =? 0); [done|]. rewrite (proj2 (Z.leb_gt _ _)) by lia. done.
Qed.

(** A value built from composed fields decodes as those fields say. *)
Lemma decode_from_raw f d neg e m :
  descriptor f = Some d -> word (exponent_bits d) e -> word (significand_storage_bits d) m ->
  decode (from_raw f (compose d neg e m)) = decode_fields d neg e m /\
  semantics (from_raw f (compose d neg e m)) = f /\ words_ok (from_raw f (compose d neg e m)) /\
  canonical (from_raw f (compose d neg e m)) = true.
Proof.
  intros Hd He Hm. destruct (from_raw_compose f d neg e m Hd He Hm) as (H1 & H2 & H3 & _ & H5 & H6 & H7).
  split; [|done]. rewrite (decode_spec _ d); [by rewrite H5, H6, H7|by rewrite H1|done|done].
Qed.

Lemma word_0 n : 0 <= n -> word n 0.
Proof. intros. split; [lia|by apply pow2_pos]. Qed.

Lemma word_ones n : 0 < n -> word n (2 ^ n - 1).
Proof. intros. unfold word. pose proof (pow2_pos n). lia. Qed.

Lemma zero_compose f d neg : descriptor f = Some d -> zero f neg = from_raw f (compose d neg 0 0).
Proof.
  intros Hd. pose proof (descriptor_ok _ _ Hd) as Hok. unfold zero. rewrite Hd. f_equal.
  rewrite <- (compose_lor0 d Hok neg 0); [by rewrite Z.lor_0_r|].
  apply word_0. pose proof (ssb_range d Hok). lia.
Qed.

Lemma minimum_subnormal_compose f d neg :
  descriptor f = Some d -> minimum_subnormal f neg = from_raw f (compose d neg 0 1).
Proof.
  intros Hd. pose proof (descriptor_ok _ _ Hd) as Hok. unfold minimum_subnormal. rewrite Hd. f_equal.
  apply compose_lor0; [done|]. pose proof (ssb_range d Hok).
  pose proof (pow2_le 1 (significand_storage_bits d) ltac:(lia)). change (2 ^ 1) with 2 in *. unfold word; lia.
Qed.

Lemma decode_zero f d neg :
  descriptor f = Some d -> decode (zero f neg) = mkDecoded Zero neg [] [] 0.
Proof.
  intros Hd. pose proof (descriptor_ok _ _ Hd) as Hok. rewrite (zero_compose f d neg Hd).
  destruct (decode_from_raw f d neg 0 0 Hd) as [-> _].
  - apply word_0; destruct Hok; lia.
  - apply word_0; pose proof (ssb_range d Hok); lia.
  - by destruct (pack_subnormal d neg 0 0 Hok) as (_ & _ & ->); [split; [lia|apply pow2_pos; destruct Hok; lia]|].
Qed.

(** ** The rounded value *)

(** [v] is an encoding of the finite number of sign [neg] and magnitude [f]. *)
Definition encodes (format : FloatFormat) (neg : bool) (f : Q) (v : FloatValue) : Prop :=
  semantics v = format /\ words_ok v /\ canonical v = true /\ is_finite v = true /\
  negative (decode v) = neg /\ (decoded_value v == f)%Q.

(** What [round_rational] must return for the magnitude [v]: the rounding [f] of
    [v], encoded when it is in range and replaced by the overflow value when not,
    with exactly the flags the rounding calls for. *)
Definition rounds_result (d : FloatFormatDescriptor) (format : FloatFormat) (control : FloatControl)
    (neg : bool) (v : Q) (r : FloatResult) : Prop :=
  exists f, rounds_to d (rounding control) neg v f /\
    ((overflow_threshold d <= f)%Q /\ r = overflow_result format neg control \/
     (f < overflow_threshold d)%Q /\ error r = Error_None /\ encodes format neg f (value r) /\
     status_has (status r) Overflow = false /\ status_has (status r) DivideByZero = false /\
     status_has (status r) Flag_Invalid = false /\
     (status_has (status r) Inexact = true <-> ~ (f == v)%Q) /\
     (status_has (status r) Underflow = true <->
        ~ (f == v)%Q /\
        match tininess control with
        | BeforeRounding => (v < q2 (min_normal_exponent d))%Q
        | AfterRounding => (f < q2 (min_normal_exponent d))%Q
        end)).

Lemma encodes_of_fields f d neg e m s x c :
  descriptor f = Some d -> word (exponent_bits d) e -> word (significand_storage_bits d) m ->
  0 <= s < 2 ^ precision d -> finite_class c = true ->
  decode_fields d neg e m = mkDecoded c neg (of_u128 s) [] x ->
  encodes f neg (dy s x) (from_raw f (compose d neg e m)).
Proof.
  intros Hd He Hm Hs Hc Hdec. pose proof (descriptor_ok _ _ Hd) as Hok.
  destruct (decode_from_raw f d neg e m Hd He Hm) as (E1 & E2 & E3 & E4).
  rewrite Hdec in E1.
  split; [done|]. split; [done|]. split; [done|]. unfold is_finite, classify, decoded_value.
  rewrite E1. cbn [classification negative significand exponent].
  split; [done|]. split; [done|]. rewrite of_u128_bval; [reflexivity|].
  apply (word_mono (precision d)); [destruct Hok; lia|done].
Qed.

Lemma encodes_zero f d neg : descriptor f = Some d -> encodes f neg 0 (zero f neg).
Proof.
  intros Hd. pose proof (descriptor_ok _ _ Hd) as Hok.
  pose proof (decode_zero f d neg Hd) as E. rewrite (zero_compose f d neg Hd) in *.
  destruct (decode_from_raw f d neg 0 0 Hd) as (_ & E2 & E3 & E4);
    [apply word_0; destruct Hok; lia|apply word_0; pose proof (ssb_range d Hok); lia|].
  split; [done|]. split; [done|]. split; [done|]. unfold is_finite, classify, decoded_value. rewrite E.
  split; [done|]. split; [done|]. apply dy_0.
Qed.

Lemma encodes_proper f neg a b v : (a == b)%Q -> encodes f neg a v -> encodes f neg b v.
Proof. intros E (H1 & H2 & H3 & H4 & H5 & H6). repeat (split; [done|]). by rewrite <- E. Qed.

Lemma encodes_normal f d neg E s :
  descriptor f = Some d -> min_normal_exponent d <= E <= max_normal_exponent d ->
  2 ^ (precision d - 1) <= s < 2 ^ precision d ->
  encodes f neg (dy s (E - (precision d - 1))) (from_raw f (pack_rounded d neg true E s)).
Proof.
  intros Hd HE Hs. pose proof (descriptor_ok _ _ Hd) as Hok.
  pose proof (pow2_pos (precision d - 1) ltac:(destruct Hok; lia)).
  destruct (pack_normal d neg E s Hok HE Hs) as (-> & Hw & Hf).
  eapply (encodes_of_fields f d neg _ _ s _ Normal); try done; [apply stored_word; [done|lia]|lia].
Qed.

Lemma encodes_subnormal f d neg E s :
  descriptor f = Some d -> 0 <= s < 2 ^ (precision d - 1) ->
  encodes f neg (dy s (min_subnormal_exponent d)) (from_raw f (pack_rounded d neg false E s)).
Proof.
  intros Hd Hs. pose proof (descriptor_ok _ _ Hd) as Hok.
  destruct (pack_subnormal d neg E s Hok Hs) as (-> & Hw & Hf).
  destruct (Z.eqb_spec s 0) as [->|Hz].
  - rewrite <- (zero_compose f d neg Hd). apply (encodes_proper f neg 0); [symmetry; apply dy_0|].
    by apply (encodes_zero f d).
  - pose proof (pow2_le (precision d - 1) (precision d) ltac:(destruct Hok; lia)).
    eapply (encodes_of_fields f d neg _ _ s _ Subnormal); try done; [apply word_0; destruct Hok; lia|lia].
Qed.

(** ** Correctness of round_rational *)

Section Round.
Context (format : FloatFormat) (d : FloatFormatDescriptor) (Hd : descriptor format = Some d).
Context (control : FloatControl) (neg : bool).
Context (num den : BigUInt) (e : Z).
Context (Hn : wf num) (Hde : wf den) (Pn : 0 < bval num) (Pd : 0 < bval den).

Abbreviation V := (magnitude num den e).
Abbreviation E := (leading_exponent num den e).
Abbreviation p := (precision d).

(** The unit of the last place of the rounding. *)
Definition unit_of (x : Z) : Z :=
  if x <? min_normal_exponent d then min_subnormal_exponent d else x - (p - 1).

(** The increment the code adds. *)
Definition inc_of (q r den' : BigUInt) : Z :=
  Z.b2z (increments (direction_of (rounding control) neg) (Z.odd (bval q)) (bval r) (bval den')).

Lemma inc_of_range q r den' : 0 <= inc_of q r den' <= 1.
Proof. unfold inc_of. destruct (increments _ _ _ _); simpl; lia. Qed.

Lemma precision_range : 11 <= p <= 113.
Proof. apply (descriptor_ok _ _ Hd). Qed.

Lemma unit_ge : min_subnormal_exponent d <= unit_of E.
Proof.
  unfold unit_of, min_subnormal_exponent. pose proof precision_range.
  destruct (Z.ltb_spec E (min_normal_exponent d)); lia.
Qed.

Section Division.
Context (q r den' : BigUInt).
Context (Hdiv : scaled_division num den (e - unit_of E) = (q, r, den')).

Lemma division_spec :
  wf q /\ wf r /\ wf den' /\ 0 <= bval r < bval den' /\ 0 <= bval q /\
  (V == inject_Z (bval q * bval den' + bval r) * (q2 (unit_of E) / inject_Z (bval den')))%Q.
Proof. pose proof (scaled_division_spec num den e Hn Hde Pd (unit_of E)) as H. by rewrite Hdiv in H. Qed.

Lemma quotient_ge k : (dy k (unit_of E) <= V)%Q <-> k <= bval q.
Proof.
  destruct division_spec as (_ & _ & _ & Hr & _ & Hv).
  pose proof precision_range. apply (grid_le d) with (r := bval r) (den := bval den'); (done || lia).
Qed.

Lemma quotient_lt k : (V < dy k (unit_of E))%Q -> bval q < k.
Proof.
  intros H. apply Z.nle_gt. intros G. apply quotient_ge in G. by apply (Qlt_not_le _ _ H).
Qed.

Lemma quotient_range :
  (E < min_normal_exponent d /\ unit_of E = min_subnormal_exponent d /\ 0 <= bval q < 2 ^ (p - 1)) \/
  (min_normal_exponent d <= E /\ unit_of E = E - (p - 1) /\ 2 ^ (p - 1) <= bval q < 2 ^ p).
Proof.
  destruct (leading_exponent_spec num den e Hn Hde Pn Pd) as [HE1 HE2].
  destruct division_spec as (_ & _ & _ & _ & Hq & _).
  pose proof precision_range as Hp. pose proof quotient_ge as Hge. pose proof quotient_lt as Hlt.
  destruct (Z.ltb_spec E (min_normal_exponent d)) as [L|L].
  - left. assert (unit_of E = min_subnormal_exponent d) as Eu.
    { unfold unit_of. by rewrite (proj2 (Z.ltb_lt _ _) L). }
    split; [done|]. split; [done|]. split; [done|]. apply Hlt. rewrite Eu.
    eapply Qlt_le_trans; [exact HE2|]. rewrite dy_pow2 by lia. apply q2_le.
    unfold min_subnormal_exponent. lia.
  - right. assert (unit_of E = E - (p - 1)) as Eu.
    { unfold unit_of. by rewrite (proj2 (Z.ltb_ge _ _) L). }
    split; [done|]. split; [done|]. split.
    + apply Hge. rewrite Eu, dy_pow2 by lia.
      replace (E - (p - 1) + (p - 1)) with E by lia. done.
    + apply Hlt. rewrite Eu, dy_pow2 by lia.
      replace (E - (p - 1) + p) with (E + 1) by lia. done.
Qed.

Lemma rounded_spec :
  rounds_to d (rounding control) neg V (dy (bval q + inc_of q r den') (unit_of E)).
Proof.
  destruct division_spec as (_ & _ & _ & Hr & Hq & Hv). pose proof precision_range.
  apply grid_rounding; try done; [lia|apply unit_ge|lia|].
  destruct quotient_range as [(_ & -> & ?)|(_ & _ & ?)]; [left; by split|by right].
Qed.

(** Exactness is a zero remainder. *)
Lemma exact_iff : (dy (bval q + inc_of q r den') (unit_of E) == V)%Q <-> bval r = 0.
Proof.
  destruct division_spec as (_ & _ & _ & Hr & Hq & Hv). split.
  - intros Eq. destruct (Z.eq_dec (bval r) 0) as [|Hz]; [done|exfalso].
    assert (bval q + inc_of q r den' <= bval q) as H1.
    { apply quotient_ge. rewrite Eq. apply Qle_refl. }
    pose proof (inc_of_range q r den').
    assert (bval q + 1 <= bval q + inc_of q r den') as H2; [|lia].
    replace 1 with (if bval r =? 0 then 0 else 1) by (by rewrite (proj2 (Z.eqb_neq _ _) Hz)).
    pose proof precision_range.
    apply (grid_ge d) with (u := unit_of E) (den := bval den') (v := V); [lia|lia|done|done|].
    rewrite Eq. apply Qle_refl.
  - intros Hz. unfold inc_of, increments. rewrite Hz, Z.eqb_refl. simpl. rewrite Z.add_0_r.
    apply Qle_antisym; [by apply quotient_ge|].
    pose proof precision_range.
    apply (grid_ge d) with (q := bval q) (r := bval r) (den := bval den'); [lia|lia|done|done|].
    rewrite Hz. simpl. lia.
Qed.
End Division.

(** *** The tail *)

Lemma emin_le_emax : min_normal_exponent d + 1 < max_normal_exponent d.
Proof.
  pose proof (descriptor_ok _ _ Hd) as Hok. rewrite (max_normal_eq d Hok).
  unfold min_normal_exponent. destruct Hok as [_ _ Hb _ He _].
  pose proof (pow2_le 4 (exponent_bits d - 1) ltac:(lia)) as H. change (2 ^ 4) with 16 in H. lia.
Qed.

Definition status_of (inexact tiny : bool) : FloatStatus :=
  if inexact && tiny then status_set (status_set 0 Inexact) Underflow
  else if inexact then status_set 0 Inexact else 0.

(** What the tail returns for a rounded significand [s] with unit [u]. *)
Definition finishes (tb inexact : bool) (f : Q) (r : FloatResult) : Prop :=
  ((overflow_threshold d <= f)%Q /\ r = overflow_result format neg control) \/
  ((f < overflow_threshold d)%Q /\ error r = Error_None /\ encodes format neg f (value r) /\
   exists ta, status r = status_of inexact
                (match tininess control with BeforeRounding => tb | AfterRounding => ta end) /\
     (ta = true <-> (f < q2 (min_normal_exponent d))%Q)).

(** A normal outcome. *)
Lemma finish_normal tb inexact x s f :
  min_normal_exponent d <= x -> 2 ^ (p - 1) <= s < 2 ^ p -> (f == dy s (x - (p - 1)))%Q ->
  finishes tb inexact f
    (if true && (x >? max_normal_exponent d) then overflow_result format neg control
     else mkResult (from_raw format (pack_rounded d neg true x s))
            (status_of inexact (match tininess control with BeforeRounding => tb | AfterRounding => false end))
            Error_None).
Proof.
  intros Hx Hs Hf. pose proof precision_range as Hp.
  assert (q2 x <= f)%Q as Hlow.
  { rewrite Hf. replace x with (x - (p - 1) + (p - 1)) at 1 by lia. rewrite <- dy_pow2 by lia. apply dy_le. lia. }
  assert (f < q2 (x + 1))%Q as Hhigh.
  { rewrite Hf. replace (x + 1) with (x - (p - 1) + p) by lia. rewrite <- dy_pow2 by lia. apply dy_lt. lia. }
  unfold finishes, overflow_threshold. rewrite andb_true_l.
  destruct (Z.gtb_spec x (max_normal_exponent d)) as [G|G]; [left|right].
  - split; [|done]. eapply Qle_trans; [|exact Hlow]. apply q2_le. lia.
  - split; [eapply Qlt_le_trans; [exact Hhigh|apply q2_le; lia]|]. split; [done|]. split.
    + apply (encodes_proper _ _ (dy s (x - (p - 1)))); [by symmetry|]. cbn [value].
      by apply (encodes_normal format d).
    + exists false. split; [done|]. split; [done|]. intros L. exfalso.
      apply (Qlt_not_le _ _ L). eapply Qle_trans; [|exact Hlow]. by apply q2_le.
Qed.

Lemma finish_subnormal inexact x s f :
  0 <= s < 2 ^ (p - 1) -> (f == dy s (min_subnormal_exponent d))%Q ->
  finishes true inexact f
    (mkResult (from_raw format (pack_rounded d neg false x s)) (status_of inexact
       (match tininess control with BeforeRounding => true | AfterRounding => true end)) Error_None).
Proof.
  intros Hs Hf. pose proof precision_range as Hp. pose proof emin_le_emax as Hm.
  assert (f < q2 (min_normal_exponent d))%Q as Hhigh.
  { rewrite Hf. replace (min_normal_exponent d) with (min_subnormal_exponent d + (p - 1))
      by (unfold min_subnormal_exponent; lia).
    rewrite <- dy_pow2 by lia. apply dy_lt. lia. }
  right. split; [eapply Qlt_le_trans; [exact Hhigh|apply q2_le; lia]|]. split; [done|]. split.
  - apply (encodes_proper _ _ (dy s (min_subnormal_exponent d))); [by symmetry|]. cbn [value].
    by apply (encodes_subnormal format d).
  - exists true. split; [done|]. done.
Qed.

Lemma finish_spec tb inexact x s u :
  (tb = true /\ x < min_normal_exponent d /\ u = min_subnormal_exponent d /\ 0 <= s <= 2 ^ (p - 1)) \/
  (tb = false /\ min_normal_exponent d <= x /\ u = x - (p - 1) /\ 2 ^ (p - 1) <= s <= 2 ^ p) ->
  finishes tb inexact (dy s u) (finish_rounding d format neg control tb x inexact s).
Proof.
  intros H. pose proof precision_range as Hp. pose proof (pow2_pos (p - 1) ltac:(lia)) as Hp1.
  pose proof (pow2_succ (p - 1) ltac:(lia)) as Hp2. replace (p - 1 + 1) with p in Hp2 by lia.
  unfold finish_rounding. rewrite !u128_shiftl_1 by lia.
  rewrite !Z.geb_leb.
  assert (forall t, (if inexact && t then status_set (if inexact then status_set 0 Inexact else 0) Underflow
                     else if inexact then status_set 0 Inexact else 0) = status_of inexact t) as Hst.
  { intros t. unfold status_of. by destruct inexact, t. }
  destruct H as [(-> & Hx & -> & Hs)|(-> & Hx & -> & Hs)]; cbn [negb andb].
  - destruct (Z.leb_spec (2 ^ (p - 1)) s) as [L|L].
    + cbv zeta. rewrite Hst. apply finish_normal; [lia|lia|]. reflexivity.
    + cbn [negb andb]. cbv zeta. rewrite Hst. apply finish_subnormal; [lia|]. reflexivity.
  - destruct (Z.leb_spec (2 ^ p) s) as [L|L].
    + cbv zeta. cbn [negb]. rewrite Hst. assert (s = 2 ^ p) as -> by lia.
      rewrite shiftr_div by lia. change (2 ^ 1) with 2.
      assert (2 ^ p / 2 = 2 ^ (p - 1)) as -> by (symmetry; apply Z.div_unique_exact; lia).
      apply finish_normal; [lia|lia|].
      rewrite !dy_pow2 by lia. replace (x - (p - 1) + p) with (x + 1 - (p - 1) + (p - 1)) by lia. reflexivity.
    + cbv zeta. cbn [negb]. rewrite Hst. apply finish_normal; [lia|lia|]. reflexivity.
Qed.

(** The patterns the tail can build: a normal number has its top bit and a
    subnormal one lacks it. *)
Lemma finish_shape tb inexact x s :
  (tb = true /\ x < min_normal_exponent d /\ 0 <= s <= 2 ^ (p - 1)) \/
  (tb = false /\ min_normal_exponent d <= x /\ 2 ^ (p - 1) <= s <= 2 ^ p) ->
  let v := value (finish_rounding d format neg control tb x inexact s) in
  v = value (overflow_result format neg control) \/
  (exists y t, min_normal_exponent d <= y <= max_normal_exponent d /\ 2 ^ (p - 1) <= t < 2 ^ p /\
     v = from_raw format (pack_rounded d neg true y t)) \/
  (exists y t, 0 <= t < 2 ^ (p - 1) /\ v = from_raw format (pack_rounded d neg false y t)).
Proof.
  intros H v. subst v. pose proof precision_range as Hp. pose proof (pow2_pos (p - 1) ltac:(lia)) as Hp1.
  pose proof (pow2_succ (p - 1) ltac:(lia)) as Hp2. replace (p - 1 + 1) with p in Hp2 by lia.
  assert (forall y t st, min_normal_exponent d <= y -> 2 ^ (p - 1) <= t < 2 ^ p ->
    let v := value (if true && (y >? max_normal_exponent d) then overflow_result format neg control
                    else mkResult (from_raw format (pack_rounded d neg true y t)) st Error_None) in
    v = value (overflow_result format neg control) \/
    (exists y t, min_normal_exponent d <= y <= max_normal_exponent d /\ 2 ^ (p - 1) <= t < 2 ^ p /\
       v = from_raw format (pack_rounded d neg true y t)) \/
    (exists y t, 0 <= t < 2 ^ (p - 1) /\ v = from_raw format (pack_rounded d neg false y t))) as Hnormal.
  { intros y t st Hy Ht. cbn [andb]. destruct (Z.gtb_spec y (max_normal_exponent d)); [by left|].
    right; left. exists y, t. split; [lia|done]. }
  unfold finish_rounding. rewrite !u128_shiftl_1, !Z.geb_leb by lia.
  destruct H as [(-> & Hx & Hs)|(-> & Hx & Hs)]; cbn [negb andb].
  - destruct (Z.leb_spec (2 ^ (p - 1)) s) as [L|L]; [apply Hnormal; lia|].
    right; right. exists x, s. split; [lia|done].
  - destruct (Z.leb_spec (2 ^ p) s) as [L|L]; [|apply Hnormal; lia].
    apply Hnormal; [lia|]. assert (s = 2 ^ p) as -> by lia. rewrite shiftr_div by lia. change (2 ^ 1) with 2.
    assert (2 ^ p / 2 = 2 ^ (p - 1)) as -> by (symmetry; apply Z.div_unique_exact; lia). lia.
Qed.

Lemma finishes_rounds tb inexact f r :
  rounds_to d (rounding control) neg V f ->
  (inexact = true <-> ~ (f == V)%Q) -> (tb = true <-> (V < q2 (min_normal_exponent d))%Q) ->
  finishes tb inexact f r -> rounds_result d format control neg V r.
Proof.
  intros Hr Hi Ht [[H1 H2]|(H1 & H2 & H3 & ta & H4 & H5)]; exists f; (split; [done|]); [by left|right].
  split; [done|]. split; [done|]. split; [done|]. rewrite H4.
  assert (forall a b, status_has (status_of a b) Overflow = false /\
    status_has (status_of a b) DivideByZero = false /\ status_has (status_of a b) Flag_Invalid = false /\
    status_has (status_of a b) Inexact = a /\ status_has (status_of a b) Underflow = a && b) as Hf.
  { intros [] []; vm_compute; done. }
  destruct (Hf inexact (match tininess control with BeforeRounding => tb | AfterRounding => ta end))
    as (F1 & F2 & F3 & F4 & F5).
  rewrite F4, F5, andb_true_iff. do 3 (split; [done|]). split; [done|].
  rewrite Hi. destruct (tininess control); [by rewrite Ht|by rewrite H5].
Qed.

(** *** The three ranges of the leading exponent *)

Lemma tiny_iff : (E <? min_normal_exponent d) = true <-> (V < q2 (min_normal_exponent d))%Q.
Proof.
  destruct (leading_exponent_spec num den e Hn Hde Pn Pd) as [HE1 HE2].
  rewrite Z.ltb_lt. split; intros H.
  - eapply Qlt_le_trans; [exact HE2|]. apply q2_le. lia.
  - apply q2_lt. by eapply Qle_lt_trans.
Qed.

Lemma round_huge :
  max_normal_exponent d + 1 < E -> rounds_result d format control neg V (overflow_result format neg control).
Proof.
  intros G. destruct (scaled_division num den (e - unit_of E)) as [[q r] den'] eqn:Hdiv.
  exists (dy (bval q + inc_of q r den') (unit_of E)). split; [by apply rounded_spec|]. left.
  split; [|done]. pose proof (inc_of_range q r den'). pose proof precision_range. pose proof emin_le_emax.
  destruct (quotient_range q r den' Hdiv) as [(? & _ & _)|(_ & -> & Hq)]; [lia|].
  apply Qle_trans with (q2 E); [apply q2_le; lia|].
  replace E with (E - (p - 1) + (p - 1)) at 1 by lia. rewrite <- dy_pow2 by lia. apply dy_le. lia.
Qed.

(** Below half of the least subnormal the quotient is zero and the remainder
    is below half. *)
Lemma tiny_quotient q r den' :
  scaled_division num den (e - unit_of E) = (q, r, den') -> E < min_subnormal_exponent d - 1 ->
  unit_of E = min_subnormal_exponent d /\ bval q = 0 /\ 0 < bval r /\ 2 * bval r < bval den'.
Proof.
  intros Hdiv G. destruct (leading_exponent_spec num den e Hn Hde Pn Pd) as [HE1 HE2].
  pose proof precision_range as Hp.
  destruct (quotient_range q r den' Hdiv) as [(_ & Hu & Hq)|(? & _)];
    [|unfold min_subnormal_exponent in *; lia].
  split; [done|].
  destruct (division_spec q r den' Hdiv) as (_ & _ & _ & Hr & _ & Hv). rewrite Hu in Hv.
  assert (V < q2 (min_subnormal_exponent d - 1))%Q as Hsmall.
  { eapply Qlt_le_trans; [exact HE2|]. apply q2_le. lia. }
  assert (bval q < 1) as Hq1.
  { apply (quotient_lt q r den' Hdiv). rewrite Hu, dy_1. eapply Qlt_trans; [exact Hsmall|]. apply q2_lt. lia. }
  assert (bval q = 0) as Eq by lia. split; [done|]. rewrite Eq, Z.mul_0_l, Z.add_0_l in Hv.
  assert (0 < q2 (min_subnormal_exponent d - 1) / inject_Z (bval den'))%Q as Hw.
  { apply Qlt_shift_div_l; [change 0%Q with (inject_Z 0); rewrite <- Zlt_Qlt; lia|].
    rewrite Qmult_0_l. apply q2_pos. }
  assert (q2 (min_subnormal_exponent d) == 2 * q2 (min_subnormal_exponent d - 1))%Q as E2.
  { replace (min_subnormal_exponent d) with (1 + (min_subnormal_exponent d - 1)) at 1 by lia.
    rewrite q2_add. reflexivity. }
  assert (~ inject_Z (bval den') == 0)%Q as Hz by (unfold Qeq; simpl; lia).
  assert (V == inject_Z (2 * bval r) * (q2 (min_subnormal_exponent d - 1) / inject_Z (bval den')))%Q as Ev.
  { rewrite Hv, E2, inject_Z_mult. change (inject_Z 2) with 2%Q. field. done. }
  split.
  - assert (0 < V)%Q as HV by (eapply Qlt_le_trans; [apply (q2_pos E)|done]).
    rewrite Ev in HV. rewrite <- (Qmult_0_l (q2 (min_subnormal_exponent d - 1) / inject_Z (bval den'))) in HV.
    apply Qmult_lt_r in HV; [|done]. change 0%Q with (inject_Z 0) in HV. rewrite <- Zlt_Qlt in HV. lia.
  - rewrite Ev in Hsmall.
    assert (q2 (min_subnormal_exponent d - 1)
      == inject_Z (bval den') * (q2 (min_subnormal_exponent d - 1) / inject_Z (bval den')))%Q as E3
      by (field; done).
    rewrite E3 in Hsmall at 2. apply Qmult_lt_r in Hsmall; [|done]. by rewrite <- Zlt_Qlt in Hsmall.
Qed.

Lemma round_tiny :
  E < min_subnormal_exponent d - 1 ->
  rounds_result d format control neg V (tiny_nonzero_result format neg control).
Proof.
  intros G. destruct (scaled_division num den (e - unit_of E)) as [[q r] den'] eqn:Hdiv.
  destruct (tiny_quotient q r den' Hdiv G) as (Hu & Hq & Hr0 & Hr).
  pose proof precision_range as Hp. pose proof emin_le_emax as Hm.
  set (away := match rounding control with TowardPositive => negb neg | TowardNegative => neg | _ => false end).
  assert (inc_of q r den' = Z.b2z away) as Hinc.
  { unfold inc_of, increments, away. rewrite (proj2 (Z.eqb_neq (bval r) 0)) by lia.
    rewrite (proj2 (Z.ltb_ge _ _)), (proj2 (Z.eqb_neq (2 * bval r) _)) by lia. by destruct (rounding control), neg. }
  apply (finishes_rounds true true (dy (bval q + inc_of q r den') (unit_of E))).
  - by apply rounded_spec.
  - split; [|done]. intros _. rewrite exact_iff by done. lia.
  - split; [|done]. intros _. apply tiny_iff, Z.ltb_lt. unfold min_subnormal_exponent in G. lia.
  - rewrite Hq, Hinc, Hu. pose proof (pow2_le 1 (p - 1) ltac:(lia)) as H1. change (2 ^ 1) with 2 in H1.
    assert (tiny_nonzero_result format neg control =
      mkResult (from_raw format (pack_rounded d neg false 0 (Z.b2z away)))
        (status_of true (match tininess control with BeforeRounding => true | AfterRounding => true end)) Error_None)
      as ->; [|apply finish_subnormal; [destruct away; simpl; lia|reflexivity]].
    unfold tiny_nonzero_result. fold away. f_equal; [|by destruct (tininess control)].
    pose proof (descriptor_ok _ _ Hd) as Hok. destruct away; simpl Z.b2z.
    + rewrite (minimum_subnormal_compose _ d) by done.
      by destruct (pack_subnormal d neg 0 1 Hok ltac:(lia)) as [-> _].
    + rewrite (zero_compose _ d) by done. by destruct (pack_subnormal d neg 0 0 Hok ltac:(lia)) as [-> _].
Qed.

(** The significand after the increment still fits the 128-bit arithmetic. *)
Lemma rounded_significand q r den' :
  scaled_division num den (e - unit_of E) = (q, r, den') ->
  to_u128 (if increment neg q r den' (rounding control) then add_small q 1 else q)
  = bval q + inc_of q r den'.
Proof.
  intros Hdiv. destruct (division_spec q r den' Hdiv) as (Wq & Wr & Wd & Hr & Hq & _).
  pose proof precision_range as Hp. pose proof (pow2_lt p 128 ltac:(lia)).
  pose proof (pow2_le (p - 1) p ltac:(lia)).
  pose proof (quotient_range q r den' Hdiv) as Hrange.
  rewrite increment_spec by done. unfold inc_of. destruct (increments _ _ _ _); simpl.
  - assert (word 32 1) by done. rewrite to_u128_small, add_small_bval; try done;
      [apply wf_words; by apply add_small_wf|]. rewrite add_small_bval by done. lia.
  - rewrite Z.add_0_r. apply to_u128_small; [by apply wf_words|lia].
Qed.

Lemma round_general q r den' :
  scaled_division num den (e - unit_of E) = (q, r, den') ->
  rounds_result d format control neg V
    (finish_rounding d format neg control (E <? min_normal_exponent d) E (negb (BigUInt.is_zero r))
      (to_u128 (if increment neg q r den' (rounding control) then add_small q 1 else q))).
Proof.
  intros Hdiv. destruct (division_spec q r den' Hdiv) as (Wq & Wr & Wd & Hr & Hq & _).
  pose proof precision_range as Hp. pose proof (inc_of_range q r den') as Hi.
  pose proof (pow2_pos (p - 1) ltac:(lia)). pose proof (pow2_le (p - 1) p ltac:(lia)).
  pose proof (quotient_range q r den' Hdiv) as Hrange.
  rewrite (rounded_significand q r den' Hdiv).
  apply (finishes_rounds (E <? min_normal_exponent d) (negb (BigUInt.is_zero r))
           (dy (bval q + inc_of q r den') (unit_of E))).
  - by apply rounded_spec.
  - rewrite exact_iff by done. rewrite BigUInt.is_zero_spec, negb_true_iff, Z.eqb_neq by done. done.
  - apply tiny_iff.
  - apply finish_spec.
    destruct Hrange as [(L & Hu & Hb)|(L & Hu & Hb)].
    + left. rewrite (proj2 (Z.ltb_lt _ _)) by done. split; [done|]. split; [done|]. split; [done|]. lia.
    + right. rewrite (proj2 (Z.ltb_ge _ _)) by done. split; [done|]. split; [done|]. split; [done|]. lia.
Qed.
End Round.

(** The patterns [round_rational] can return. *)
Lemma round_rational_shape format d control neg num den e :
  descriptor format = Some d -> wf num -> wf den -> 0 < bval num -> 0 < bval den ->
  let v := value (round_rational neg num den e format control) in
  v = value (overflow_result format neg control) \/
  (exists y t, min_normal_exponent d <= y <= max_normal_exponent d /\
     2 ^ (precision d - 1) <= t < 2 ^ precision d /\ v = from_raw format (pack_rounded d neg true y t)) \/
  (exists y t, 0 <= t < 2 ^ (precision d - 1) /\ v = from_raw format (pack_rounded d neg false y t)).
Proof.
  intros Hd Hn Hde Pn Pd. unfold round_rational. rewrite Hd, !BigUInt.is_zero_spec by done.
  rewrite (proj2 (Z.eqb_neq (bval num) 0)), (proj2 (Z.eqb_neq (bval den) 0)) by lia. cbv zeta.
  rewrite Z.gtb_ltb.
  destruct (Z.ltb_spec (max_normal_exponent d + 1) (leading_exponent num den e)); [by left|].
  change (min_normal_exponent d - (precision d - 1)) with (min_subnormal_exponent d).
  pose proof (descriptor_ok _ _ Hd) as Hok.
  destruct (Z.ltb_spec (leading_exponent num den e) (min_subnormal_exponent d - 1)).
  { right; right. pose proof (pow2_le 1 (precision d - 1) ltac:(destruct Hok; lia)) as H1. change (2 ^ 1) with 2 in H1.
    unfold tiny_nonzero_result. cbn [value].
    destruct (match rounding control with TowardPositive => negb neg | TowardNegative => neg | _ => false end).
    - exists 0, 1. split; [lia|]. rewrite (minimum_subnormal_compose _ d) by done.
      by destruct (pack_subnormal d neg 0 1 Hok ltac:(lia)) as [-> _].
    - exists 0, 0. split; [lia|]. rewrite (zero_compose _ d) by done.
      by destruct (pack_subnormal d neg 0 0 Hok ltac:(lia)) as [-> _]. }
  destruct (scaled_division num den _) as [[q r] den'] eqn:Hdiv.
  rewrite (rounded_significand format d Hd control neg num den e Hn Hde Pn Pd q r den' Hdiv).
  pose proof (inc_of_range control neg q r den').
  apply (finish_shape format d Hd).
  destruct (quotient_range format d Hd num den e Hn Hde Pn Pd q r den' Hdiv) as [(L & _ & Hb)|(L & _ & Hb)].
  - left. rewrite (proj2 (Z.ltb_lt _ _)) by done. split; [done|]. split; [done|]. lia.
  - right. rewrite (proj2 (Z.ltb_ge _ _)) by done. split; [done|]. split; [done|]. lia.
Qed.

Lemma round_rational_spec format d control neg num den e :
  descriptor format = Some d -> wf num -> wf den -> 0 < bval num -> 0 < bval den ->
  rounds_result d format control neg (magnitude num den e)
    (round_rational neg num den e format control).
Proof.
  intros Hd Hn Hde Pn Pd. unfold round_rational. rewrite Hd, !BigUInt.is_zero_spec by done.
  rewrite (proj2 (Z.eqb_neq (bval num) 0)), (proj2 (Z.eqb_neq (bval den) 0)) by lia. cbv zeta.
  rewrite Z.gtb_ltb.
  destruct (Z.ltb_spec (max_normal_exponent d + 1) (leading_exponent num den e)); [by apply round_huge|].
  change (min_normal_exponent d - (precision d - 1)) with (min_subnormal_exponent d).
  destruct (Z.ltb_spec (leading_exponent num den e) (min_subnormal_exponent d - 1)); [by apply round_tiny|].
  destruct (scaled_division num den _) as [[q r] den'] eqn:Hdiv. by apply round_general.
Qed.



(** The operands [round_rational] does not round. *)
Lemma round_rational_zero format d control neg num den e :
  descriptor format = Some d -> wf num -> bval num = 0 ->
  round_rational neg num den e format control = mkResult (zero format neg) 0 Error_None.
Proof.
  intros Hd Hn Hz. unfold round_rational. rewrite Hd, BigUInt.is_zero_spec, Hz by done. done.
Qed.

Lemma round_rational_zero_denominator format d control neg num den e :
  descriptor format = Some d -> wf num -> wf den -> 0 < bval num -> bval den = 0 ->
  round_rational neg num den e format control = error_result InvalidEncoding.
Proof.
  intros Hd Hn Hde Pn Hz. unfold round_rational. rewrite Hd, !BigUInt.is_zero_spec, Hz by done.
  by rewrite (proj2 (Z.eqb_neq (bval num) 0)) by lia.
Qed.
