(* ===== verification/FloatSpecial.v ===== *)
(** * Special values (infinity, maximum_finite, make_nan, negate of
    src/numeric/floating_point.cpp)

    What the constructors of special values decode to, and that negation only
    flips the sign. Every pattern with a known format and canonical words is in
    scope, NaNs and the x87 pseudo-denormals included. *)
From S2P Require Import Prelude BigUInt FloatValue Dyadic Rounding.
Open Scope Z_scope.

(** The value with sign. *)
Definition signed_value (v : FloatValue) : Q :=
  if negative (decode v) then (- decoded_value v)%Q else decoded_value v.

(** A well-formed value of a format with descriptor [d]. *)
Definition well_formed (d : FloatFormatDescriptor) (v : FloatValue) : Prop :=
  descriptor (semantics v) = Some d /\ words_ok v /\ canonical v = true.

(** Two values that decode to the same thing up to sign. *)
Definition with_sign (neg : bool) (r : DecodedFloat) : DecodedFloat :=
  mkDecoded (classification r) neg (significand r) (payload r) (exponent r).

(** ** Infinity and the largest finite value *)

Lemma infinity_compose f d neg :
  descriptor f = Some d ->
  infinity f neg = from_raw f (compose d neg (2 ^ exponent_bits d - 1)
                                 (if explicit_integer_bit d then 2 ^ (precision d - 1) else 0)) /\
  word (exponent_bits d) (2 ^ exponent_bits d - 1) /\
  word (significand_storage_bits d) (if explicit_integer_bit d then 2 ^ (precision d - 1) else 0).
Proof.
  intros Hd. pose proof (descriptor_ok _ _ Hd) as Hok. pose proof (ssb_range d Hok) as Hs.
  assert (word (exponent_bits d) (2 ^ exponent_bits d - 1)) as We by (apply word_ones; destruct Hok; lia).
  assert (word (significand_storage_bits d) (if explicit_integer_bit d then 2 ^ (precision d - 1) else 0)) as Wm.
  { destruct Hok as [_ K _ Hp _ _]. destruct (explicit_integer_bit d); [|apply word_0; lia].
    unfold word. rewrite K. pose proof (pow2_lt (precision d - 1) (precision d - 0) ltac:(lia)).
    pose proof (pow2_pos (precision d - 1) ltac:(lia)). lia. }
  split; [|done]. unfold infinity. rewrite Hd. f_equal. unfold exponent_mask.
  rewrite low_mask_eq, u128_shiftl_1 by (destruct Hok; lia). by apply compose_lor.
Qed.

Lemma decode_infinity f d neg :
  descriptor f = Some d -> decode (infinity f neg) = mkDecoded Infinity neg [] [] 0 /\
  well_formed d (infinity f neg) /\ semantics (infinity f neg) = f.
Proof.
  intros Hd. pose proof (descriptor_ok _ _ Hd) as Hok.
  destruct (infinity_compose f d neg Hd) as (-> & We & Wm).
  destruct (decode_from_raw f d neg _ _ Hd We Wm) as (-> & E & W & C).
  split; [|split; [split; [by rewrite E|done]|done]].
  unfold decode_fields. rewrite Z.eqb_refl. destruct (explicit_integer_bit d); cbn [andb].
  - rewrite Z.ltb_irrefl, Z.mod_same by (apply pow2_nz; destruct Hok; lia). done.
  - rewrite Z.mod_0_l by (apply pow2_nz; destruct Hok; lia). done.
Qed.

(** The largest magnitude of a format. *)
Definition max_magnitude (d : FloatFormatDescriptor) : Q :=
  dy (2 ^ precision d - 1) (max_normal_exponent d - (precision d - 1)).

Lemma maximum_finite_pack f d neg :
  descriptor f = Some d ->
  maximum_finite f neg = from_raw f (pack_rounded d neg true (max_normal_exponent d) (2 ^ precision d - 1)).
Proof.
  intros Hd. pose proof (descriptor_ok _ _ Hd) as Hok. pose proof (emin_le_emax f d Hd) as Hm.
  pose proof (pow2_succ (precision d - 1) ltac:(destruct Hok; lia)) as Hp2.
  replace (precision d - 1 + 1) with (precision d) in Hp2 by lia.
  pose proof (pow2_le 1 (precision d - 1) ltac:(destruct Hok; lia)) as Hp1. change (2 ^ 1) with 2 in Hp1.
  destruct (pack_normal d neg (max_normal_exponent d) (2 ^ precision d - 1) Hok ltac:(lia) ltac:(lia))
    as (-> & We & _).
  unfold maximum_finite. rewrite Hd. f_equal.
  pose proof (ssb_range d Hok) as Hs. unfold exponent_mask.
  rewrite !low_mask_eq by (destruct Hok; lia).
  assert (max_normal_exponent d + exponent_bias d = 2 ^ exponent_bits d - 1 - 1) as Ee.
  { unfold max_normal_exponent. rewrite shiftl_mul by (destruct Hok; lia). lia. }
  rewrite Ee in We. rewrite compose_lor by (done || apply word_ones; lia). rewrite Ee.
  f_equal. unfold stored_of. destruct Hok as [_ -> _ Hp _ _]. destruct (explicit_integer_bit d); [by rewrite Z.sub_0_r|].
  apply Z.mod_unique with 1; [left|]; lia.
Qed.

Lemma maximum_finite_encodes f d neg :
  descriptor f = Some d -> encodes f neg (max_magnitude d) (maximum_finite f neg).
Proof.
  intros Hd. pose proof (descriptor_ok _ _ Hd) as Hok. pose proof (emin_le_emax f d Hd) as Hm.
  pose proof (pow2_succ (precision d - 1) ltac:(destruct Hok; lia)) as Hp2.
  replace (precision d - 1 + 1) with (precision d) in Hp2 by lia.
  pose proof (pow2_le 1 (precision d - 1) ltac:(destruct Hok; lia)) as Hp1. change (2 ^ 1) with 2 in Hp1.
  rewrite (maximum_finite_pack f d neg Hd). apply (encodes_normal f d); (done || lia).
Qed.

(** ** NaNs *)

(** The payload that fits a format. *)
Definition payload_field (d : FloatFormatDescriptor) (payload : Z) : Z :=
  (payload mod 2 ^ 128) mod 2 ^ (precision d - 2).

(** The fraction bits of a NaN. *)
Definition nan_fraction (d : FloatFormatDescriptor) (signaling : bool) (payload : Z) : Z :=
  if signaling then (if payload_field d payload =? 0 then 1 else payload_field d payload)
  else payload_field d payload + 2 ^ (precision d - 2).

Lemma nan_fraction_range d signaling payload :
  desc_ok d ->
  0 < nan_fraction d signaling payload < 2 ^ (precision d - 1) /\
  (2 ^ (precision d - 2) <=? nan_fraction d signaling payload) = negb signaling /\
  nan_fraction d signaling payload mod 2 ^ (precision d - 2)
  = if signaling && (payload_field d payload =? 0) then 1 else payload_field d payload.
Proof.
  intros Hok. pose proof (dk_precision d Hok) as Hp. unfold nan_fraction, payload_field.
  set (x := (payload mod 2 ^ 128) mod 2 ^ (precision d - 2)).
  assert (0 <= x < 2 ^ (precision d - 2)) as Hx by (apply Z.mod_pos_bound, pow2_pos; lia).
  pose proof (pow2_le 1 (precision d - 2) ltac:(lia)) as H1. change (2 ^ 1) with 2 in H1.
  pose proof (pow2_succ (precision d - 2) ltac:(lia)) as H2.
  replace (precision d - 2 + 1) with (precision d - 1) in H2 by lia.
  destruct signaling; cbn [andb negb].
  - destruct (Z.eqb_spec x 0); (split; [lia|]); (split; [apply Z.leb_gt; lia|apply Z.mod_small; lia]).
  - split; [lia|]. split; [apply Z.leb_le; lia|]. symmetry. apply Z.mod_unique with 1; lia.
Qed.

Lemma make_nan_compose f d neg signaling payload :
  descriptor f = Some d -> words payload ->
  let m := nan_fraction d signaling (bval payload)
           + (if explicit_integer_bit d then 2 ^ (precision d - 1) else 0) in
  make_nan f neg signaling payload = from_raw f (compose d neg (2 ^ exponent_bits d - 1) m) /\
  word (exponent_bits d) (2 ^ exponent_bits d - 1) /\ word (significand_storage_bits d) m.
Proof.
  intros Hd Hw m. pose proof (descriptor_ok _ _ Hd) as Hok. pose proof (dk_precision d Hok) as Hp.
  destruct (nan_fraction_range d signaling (bval payload) Hok) as (Hr & _ & _).
  pose proof (pow2_succ (precision d - 1) ltac:(lia)) as H2.
  replace (precision d - 1 + 1) with (precision d) in H2 by lia.
  assert (word (exponent_bits d) (2 ^ exponent_bits d - 1)) as We by (apply word_ones; destruct Hok; lia).
  assert (word (significand_storage_bits d) m) as Wm.
  { unfold m, word. rewrite (dk_significand d Hok).
    destruct (explicit_integer_bit d); [rewrite Z.sub_0_r; lia|lia]. }
  split; [|done]. unfold make_nan. rewrite Hd. cbv zeta. f_equal.
  assert ((if explicit_integer_bit d then precision d - 2 else significand_storage_bits d - 1)
          = precision d - 2) as ->.
  { rewrite (dk_significand d Hok). destruct (explicit_integer_bit d); lia. }
  unfold exponent_mask. rewrite low_mask_eq, !u128_shiftl_1 by (destruct Hok; lia).
  rewrite land_pow2_minus_1, to_u128_spec by (done || lia). fold (payload_field d (bval payload)).
  rewrite <- compose_lor by done. f_equal. unfold m.
  assert ((if signaling then if payload_field d (bval payload) =? 0 then 1 else payload_field d (bval payload)
           else Z.lor (payload_field d (bval payload)) (2 ^ (precision d - 2)))
          = nan_fraction d signaling (bval payload)) as ->.
  { unfold nan_fraction. destruct signaling; [done|].
    replace (2 ^ (precision d - 2)) with (1 * 2 ^ (precision d - 2)) by lia. apply lor_fields; [lia|].
    apply Z.mod_pos_bound, pow2_pos. lia. }
  destruct (explicit_integer_bit d); [|lia].
  replace (2 ^ (precision d - 1)) with (1 * 2 ^ (precision d - 1)) by lia. apply lor_fields; [lia|].
  unfold word. lia.
Qed.

Lemma decode_make_nan f d neg signaling payload :
  descriptor f = Some d -> words payload ->
  decode (make_nan f neg signaling payload)
  = mkDecoded (if signaling then SignalingNaN else QuietNaN) neg []
      (of_u128 (if signaling && (payload_field d (bval payload) =? 0) then 1
                else payload_field d (bval payload))) 0 /\
  well_formed d (make_nan f neg signaling payload) /\ semantics (make_nan f neg signaling payload) = f.
Proof.
  intros Hd Hw. pose proof (descriptor_ok _ _ Hd) as Hok.
  destruct (make_nan_compose f d neg signaling payload Hd Hw) as (-> & We & Wm).
  destruct (decode_from_raw f d neg _ _ Hd We Wm) as (-> & E & W & C).
  split; [|split; [split; [by rewrite E|done]|done]].
  destruct (nan_fraction_range d signaling (bval payload) Hok) as (Hr & Hq & Hm).
  unfold decode_fields. rewrite Z.eqb_refl.
  assert ((nan_fraction d signaling (bval payload)
     + (if explicit_integer_bit d then 2 ^ (precision d - 1) else 0)) mod 2 ^ (precision d - 1)
     = nan_fraction d signaling (bval payload)) as ->.
  { destruct (explicit_integer_bit d).
    - symmetry. apply Z.mod_unique with 1; lia.
    - rewrite Z.add_0_r. apply Z.mod_small. lia. }
  rewrite (proj2 (Z.eqb_neq (nan_fraction _ _ _) 0)) by lia. rewrite Hq, Hm.
  assert ((explicit_integer_bit d && (nan_fraction d signaling (bval payload)
     + (if explicit_integer_bit d then 2 ^ (precision d - 1) else 0) <? 2 ^ (precision d - 1)))%bool = false) as ->.
  { destruct (explicit_integer_bit d); [|done]. apply Z.ltb_ge. lia. }
  by destruct signaling.
Qed.

(** ** Negation *)

Lemma lxor_top (body : Z) (s : bool) k :
  0 <= k -> word k body ->
  Z.lxor (body + Z.b2z s * 2 ^ k) (2 ^ k) = body + Z.b2z (negb s) * 2 ^ k.
Proof.
  intros Hk Hb.
  assert (forall t, body + Z.b2z t * 2 ^ k = Z.lxor body (Z.b2z t * 2 ^ k)) as H.
  { intros t. rewrite <- Z.add_nocarry_lxor; [done|]. by apply land_disjoint_fields. }
  rewrite !H, Z.lxor_assoc. f_equal. destruct s; simpl Z.b2z.
  - by rewrite Z.mul_1_l, Z.lxor_nilpotent.
  - by rewrite Z.mul_0_l, Z.mul_1_l, Z.lxor_0_l.
Qed.

Lemma negate_compose v d :
  well_formed d v ->
  negate v = from_raw (semantics v)
    (compose d (negb (sign_field v d)) (exponent_field v d) (significand_field v d)).
Proof.
  intros (Hd & Hw & Hc). pose proof (descriptor_ok _ _ Hd) as Hok. unfold negate. rewrite Hd, Hc. cbn [negb].
  f_equal. rewrite u128_shiftl_1 by (destruct Hok; lia).
  destruct (field_ranges d Hok v) as [We Wm].
  assert (raw_bits v < 2 ^ storage_bits d) as Hr.
  { rewrite (canonical_eq v d) in Hc by done. by apply Z.ltb_lt. }
  rewrite (raw_bits_compose d Hok v Hw Hr). unfold compose.
  rewrite lxor_top; [done|destruct Hok; lia|]. pose proof (ssb_range d Hok).
  rewrite (storage_pred d Hok). unfold word in *. rewrite pow2_split by (destruct Hok; lia). nia.
Qed.

Lemma with_sign_fields d neg e m n :
  with_sign n (decode_fields d neg e m) = decode_fields d n e m.
Proof.
  unfold decode_fields, with_sign, decode_none.
  destruct (e =? _); [destruct (_ && _)%bool; [done|destruct (_ =? 0); [done|done]]|].
  destruct (e =? 0); [destruct (m =? 0); done|]. destruct (_ && _)%bool; done.
Qed.

Lemma negate_spec v d :
  well_formed d v ->
  decode (negate v) = with_sign (negb (negative (decode v))) (decode v) /\
  well_formed d (negate v) /\ semantics (negate v) = semantics v.
Proof.
  intros Hv. rewrite (negate_compose v d Hv). destruct Hv as (Hd & Hw & Hc).
  pose proof (descriptor_ok _ _ Hd) as Hok. destruct (field_ranges d Hok v) as [We Wm].
  destruct (decode_from_raw (semantics v) d (negb (sign_field v d)) _ _ Hd We Wm) as (-> & E & W & C).
  split; [|split; [split; [by rewrite E|done]|done]].
  rewrite (decode_spec v d Hd Hw Hc).
  assert (negative (decode_fields d (sign_field v d) (exponent_field v d) (significand_field v d))
          = sign_field v d) as ->; [|by rewrite with_sign_fields].
  rewrite <- (with_sign_fields d true _ _ (sign_field v d)). done.
Qed.

(** The sign of a decoded value is the top bit. *)
Lemma decode_negative v d :
  well_formed d v -> negative (decode v) = sign_field v d.
Proof.
  intros (Hd & Hw & Hc). rewrite (decode_spec v d Hd Hw Hc).
  rewrite <- (with_sign_fields d true _ _ (sign_field v d)). done.
Qed.

(** negating a well-formed value flips its sign and nothing else, for
    NaNs and infinities too; negating twice gives back the same bits, and a
    finite value is turned into its opposite. *)
Theorem negate_correct v d :
  well_formed d v ->
  negate (negate v) = v /\ is_negative (negate v) = negb (is_negative v) /\
  classify (negate v) = classify v /\ payload (decode (negate v)) = payload (decode v) /\
  (signed_value (negate v) == - signed_value v)%Q.
Proof.
  intros Hv. destruct (negate_spec v d Hv) as (Ed & Wn & Es).
  pose proof (decode_negative v d Hv) as Sv. pose proof (decode_negative _ d Wn) as Sn.
  rewrite Ed in Sn. cbn [with_sign negative] in Sn. rewrite Sv in Sn.
  assert (forall w, well_formed d w -> is_negative w = sign_field w d) as Hneg.
  { intros w (Hd & _ & Hc). unfold is_negative. by rewrite Hd, Hc. }
  split.
  - rewrite (negate_compose _ d Wn), Es, <- Sn, negb_involutive.
    pose proof (negate_compose v d Hv) as Ec. destruct Hv as (Hd & Hw & Hc).
    pose proof (descriptor_ok _ _ Hd) as Hok. destruct (field_ranges d Hok v) as [We Wm].
    pose proof (from_raw_compose (semantics v) d (negb (sign_field v d)) _ _ Hd We Wm) as H.
    cbv zeta in H. rewrite <- Ec in H. destruct H as (_ & _ & _ & _ & _ & -> & ->).
    assert (raw_bits v < 2 ^ storage_bits d) as Hr.
    { rewrite (canonical_eq v d) in Hc by done. by apply Z.ltb_lt. }
    destruct (from_raw_compose (semantics v) d (sign_field v d) _ _ Hd We Wm) as (E1 & E2 & _ & E4 & _).
    apply value_ext; [done|done|done|]. rewrite E4. by rewrite <- (raw_bits_compose d Hok v Hw Hr).
  - rewrite !Hneg, <- Sn by done. split; [done|]. unfold classify, signed_value, decoded_value.
    rewrite Ed. cbn [with_sign classification payload negative significand exponent].
    split; [done|]. split; [done|]. rewrite Sv. destruct (sign_field v d); simpl; ring.
Qed.

Lemma negate_correct_witness :
  negate (negate (mkFloat IEEEBinary64 0x7FF8000000000001 0)) = mkFloat IEEEBinary64 0x7FF8000000000001 0.
Proof.
  refine (proj1 (negate_correct (mkFloat IEEEBinary64 0x7FF8000000000001 0)
    (mkDescriptor 64 53 52 11 1023 false) _)).
  vm_compute. repeat split; discriminate || reflexivity.
Defined.

(** ** Finite operands *)

Definition operand (d : FloatFormatDescriptor) (v : FloatValue) : Prop :=
  well_formed d v /\ is_finite v = true.

Lemma decode_fields_zero d neg e m :
  desc_ok d -> word (exponent_bits d) e -> word (significand_storage_bits d) m ->
  finite_class (classification (decode_fields d neg e m)) = true ->
  (classification (decode_fields d neg e m) = Zero <->
   bval (significand (decode_fields d neg e m)) = 0).
Proof.
  intros Hok We Wm. pose proof (pow2_pos (precision d - 1) ltac:(destruct Hok; lia)) as Hp.
  pose proof (pow2_succ (precision d - 1) ltac:(destruct Hok; lia)) as Hp2.
  replace (precision d - 1 + 1) with (precision d) in Hp2 by lia.
  assert (word 128 m) as Wm'.
  { apply (word_mono (significand_storage_bits d)); [pose proof (ssb_range d Hok); lia|done]. }
  pose proof (pow2_lt (precision d) 128 ltac:(destruct Hok; lia)) as H128.
  unfold decode_fields.
  destruct (e =? _); [destruct (_ && _)%bool; [done|destruct (_ =? 0); [done|by destruct (_ <=? _)]]|].
  destruct (e =? 0).
  - destruct (Z.eqb_spec m 0); [done|]. intros _. cbn [classification significand].
    rewrite of_u128_bval by done. destruct (_ <=? _); split; (done || lia).
  - destruct (explicit_integer_bit d) eqn:Ex; cbn [andb].
    + destruct (Z.ltb_spec m (2 ^ (precision d - 1))); [done|]. intros _. cbn [classification significand].
      rewrite of_u128_bval by done. split; (done || lia).
    + intros _. cbn [classification significand]. destruct Hok as [_ K _ _ _ _]. rewrite Ex in K.
      unfold word in *. rewrite K in Wm. rewrite of_u128_bval by (unfold word; lia). split; (done || lia).
Qed.

Section Operand.
Context (d : FloatFormatDescriptor) (v : FloatValue) (Hv : operand d v).

Lemma operand_shape :
  wf (significand (decode v)) /\
  finite_shape d (bval (significand (decode v))) (exponent (decode v)).
Proof. destruct Hv as [(Hd & Hw & _) Hf]. by apply decode_finite. Qed.

Lemma operand_ok : desc_ok d.
Proof. destruct Hv as [(Hd & _) _]. by apply (descriptor_ok (semantics v)). Qed.

Lemma operand_zero : classification (decode v) = Zero <-> bval (significand (decode v)) = 0.
Proof.
  destruct Hv as [(Hd & Hw & Hc) Hf]. unfold is_finite, classify in Hf.
  pose proof (descriptor_ok _ _ Hd) as Hok. destruct (field_ranges d Hok v) as [We Wm].
  rewrite (decode_spec v d Hd Hw Hc) in *. by apply decode_fields_zero.
Qed.

Lemma operand_range : 0 <= bval (significand (decode v)) < 2 ^ precision d.
Proof.
  destruct operand_shape as [_ H]. pose proof operand_ok as Hok.
  pose proof (pow2_pos (precision d) ltac:(destruct Hok; lia)).
  pose proof (pow2_pos (precision d - 1) ltac:(destruct Hok; lia)).
  destruct H as [[-> _]|[[? _]|[? _]]]; lia.
Qed.

Lemma operand_exponent :
  bval (significand (decode v)) <> 0 -> min_subnormal_exponent d <= exponent (decode v).
Proof.
  destruct operand_shape as [_ H]. intros Hz. unfold min_subnormal_exponent.
  destruct H as [[? _]|[[_ ->]|[_ ?]]]; lia.
Qed.

Lemma operand_nonneg : (0 <= decoded_value v)%Q.
Proof. apply dy_nonneg, operand_range. Qed.

Lemma operand_zero_value : classification (decode v) = Zero <-> (decoded_value v == 0)%Q.
Proof.
  rewrite operand_zero. unfold decoded_value. rewrite <- (dy_0 (exponent (decode v))).
  by rewrite dy_eq.
Qed.

Lemma operand_representable : representable d (decoded_value v).
Proof.
  pose proof operand_range as Hr. pose proof operand_ok as Hok.
  destruct (Z.eq_dec (bval (significand (decode v))) 0) as [E|E].
  - exists 0, (min_subnormal_exponent d). split; [split; [lia|apply pow2_pos; destruct Hok; lia]|].
    split; [lia|]. unfold decoded_value. rewrite E, !dy_0. reflexivity.
  - exists (bval (significand (decode v))), (exponent (decode v)). split; [done|].
    split; [by apply operand_exponent|reflexivity].
Qed.

Lemma operand_below : (decoded_value v < overflow_threshold d)%Q.
Proof.
  pose proof operand_range as Hr. pose proof operand_ok as Hok. destruct Hv as [(Hd & _) _].
  pose proof (emin_le_emax _ _ Hd) as Hm. destruct operand_shape as [_ H].
  unfold decoded_value, overflow_threshold.
  destruct H as [[-> _]|H]; [rewrite dy_0; apply q2_pos|].
  apply Qlt_le_trans with (dy (2 ^ precision d) (exponent (decode v))); [apply dy_lt; lia|].
  rewrite dy_pow2 by (destruct Hok; lia). apply q2_le.
  destruct H as [[_ ->]|[_ ?]]; lia.
Qed.

Lemma operand_encodes : encodes (semantics v) (negative (decode v)) (decoded_value v) v.
Proof. destruct Hv as [(Hd & Hw & Hc) Hf]. repeat (split; [done|]). reflexivity. Qed.

Lemma operand_not_special :
  class_eqb (classification (decode v)) Class_Invalid = false /\
  is_nan_class (classification (decode v)) = false /\
  class_eqb (classification (decode v)) Infinity = false /\
  class_eqb (classification (decode v)) SignalingNaN = false.
Proof. destruct Hv as [_ Hf]. unfold is_finite, classify in Hf. by destruct (classification (decode v)). Qed.
End Operand.

Lemma encodes_operand f d neg q v :
  descriptor f = Some d -> encodes f neg q v -> operand d v /\ semantics v = f /\
  (signed_value v == if neg then - q else q)%Q.
Proof.
  intros Hd (H1 & H2 & H3 & H4 & H5 & H6). split; [split; [split; [by rewrite H1|done]|done]|].
  split; [done|]. unfold signed_value. rewrite H5. destruct neg; rewrite H6; reflexivity.
Qed.

(** ** Results that need no rounding *)

(** No flag is raised. *)
Definition no_flags (status : FloatStatus) : Prop := forall flag, status_has status flag = false.

Lemma no_flags_0 : no_flags 0.
Proof. intros []; reflexivity. Qed.

(** The statuses [round_rational] can return. *)
Definition rounding_status (status : FloatStatus) : Prop := In status [0; 16; 20; 24].

Lemma finish_status fmt format neg control tb exponent inexact sig :
  rounding_status (status (finish_rounding fmt format neg control tb exponent inexact sig)).
Proof.
  unfold finish_rounding, overflow_result. cbv zeta.
  repeat case_match; simplify_eq/=; vm_compute; auto.
Qed.

Lemma round_rational_status neg num den e format control :
  rounding_status (status (round_rational neg num den e format control)).
Proof.
  unfold round_rational. destruct (descriptor format); [|by left]. destruct (BigUInt.is_zero num); [by left|].
  destruct (BigUInt.is_zero den); [by left|]. cbv zeta.
  destruct (_ >? _); [by vm_compute; auto|]. destruct (_ <? _ - 1); [by vm_compute; auto 6|].
  destruct (scaled_division _ _ _) as [[q r] d']. apply finish_status.
Qed.

Lemma no_flags_status st : rounding_status st -> no_flags st -> st = 0.
Proof. intros [<-|[<-|[<-|[<-|[]]]]] H; [done| | |]; by specialize (H Inexact). Qed.

(** A representable magnitude in range is returned exactly. *)
Definition returns_exactly (format : FloatFormat) (neg : bool) (v : Q) (r : FloatResult) : Prop :=
  error r = Error_None /\ no_flags (status r) /\ encodes format neg v (value r).

Lemma rounds_to_exact d mode neg v f :
  representable d v -> rounds_to d mode neg v f -> (f == v)%Q.
Proof.
  intros Hv [Hf H].
  assert (nearest d v f -> (f == v)%Q) as Hn.
  { intros Hn. specialize (Hn v Hv). assert (v - v == 0)%Q as E by ring. rewrite E in Hn.
    change (Qabs 0) with 0%Q in Hn.
    pose proof (Qle_trans _ _ _ (Qle_Qabs (f - v)) Hn) as H1.
    pose proof (Qle_Qabs (- (f - v))) as H2. rewrite Qabs_opp in H2. lra. }
  destruct (direction_of mode neg).
  - destruct H as [H1 H2]. apply Qle_antisym; [done|]. apply H2; [done|apply Qle_refl].
  - destruct H as [H1 H2]. apply Qle_antisym; [|done]. apply H2; [done|apply Qle_refl].
  - apply Hn, H.
  - apply Hn, H.
Qed.

Lemma rounds_result_exact d format control neg v r :
  representable d v -> (v < overflow_threshold d)%Q ->
  rounds_result d format control neg v r -> returns_exactly format neg v r.
Proof.
  intros Hv Ht (f & Hf & H). pose proof (rounds_to_exact _ _ _ _ _ Hv Hf) as E.
  destruct H as [[H _]|(_ & He & Hen & F1 & F2 & F3 & F4 & F5)].
  - exfalso. rewrite E in H. by apply (Qlt_not_le _ _ Ht).
  - split; [done|]. split; [|by apply (encodes_proper _ _ f)].
    intros [| | | |]; [done|done|done| |]; apply not_true_is_false; [rewrite F5|rewrite F4]; tauto.
Qed.

Lemma rounds_to_self d mode neg v : representable d v -> rounds_to d mode neg v v.
Proof.
  intros Hv. split; [done|]. assert (Qabs (v - v) == 0)%Q as E0.
  { assert (v - v == 0)%Q as -> by ring. reflexivity. }
  assert (nearest d v v) as Hn by (intros g _; rewrite E0; apply Qabs_nonneg).
  assert (forall g, (Qabs (g - v) == Qabs (v - v))%Q -> (g == v)%Q) as Ht.
  { intros g Hg. rewrite E0 in Hg. pose proof (Qle_Qabs (g - v)). pose proof (Qle_Qabs (- (g - v))) as H2.
    rewrite Qabs_opp in H2. lra. }
  destruct (direction_of mode neg).
  - split; [apply Qle_refl|]. by intros.
  - split; [apply Qle_refl|]. by intros.
  - split; [done|]. intros g _ Hg. left. by apply Ht.
  - split; [done|]. intros g _ Hg. rewrite (Ht g Hg). apply Qle_refl.
Qed.

Lemma exact_rounds_result d format control neg v x :
  representable d v -> (v < overflow_threshold d)%Q -> encodes format neg v x ->
  rounds_result d format control neg v (mkResult x 0 Error_None).
Proof.
  intros Hv Ht Hx. exists v. split; [by apply rounds_to_self|]. right.
  split; [exact Ht|]. split; [reflexivity|]. split; [exact Hx|].
  cbn [status]. do 3 (split; [reflexivity|]).
  split; (split; [discriminate|]); intros H; exfalso; apply H; reflexivity.
Qed.

(** Rounding respects equality of rationals. *)
#[export] Instance nearest_proper d : Proper (Qeq ==> eq ==> iff) (nearest d).
Proof.
  intros v v' E f ? <-. unfold nearest. split; intros H g Hg; specialize (H g Hg); by rewrite E in * || rewrite <- E in *.
Qed.

#[export] Instance rounds_to_proper d mode neg : Proper (Qeq ==> eq ==> iff) (rounds_to d mode neg).
Proof.
  assert (forall v v' f, (v == v')%Q -> rounds_to d mode neg v f -> rounds_to d mode neg v' f) as H.
  { intros v v' f E [Hf H]. split; [done|]. destruct (direction_of mode neg).
    - destruct H as [H1 H2]. split; [by rewrite <- E|]. intros g Hg. rewrite <- E. by apply H2.
    - destruct H as [H1 H2]. split; [by rewrite <- E|]. intros g Hg. rewrite <- E. by apply H2.
    - destruct H as [H1 H2]. split; [by rewrite <- E|]. intros g Hg. rewrite <- E. by apply H2.
    - destruct H as [H1 H2]. split; [by rewrite <- E|]. intros g Hg. rewrite <- E. by apply H2. }
  intros v v' E f ? <-. split; apply H; [done|by symmetry].
Qed.

Lemma rounds_result_proper d format control neg v v' r :
  (v == v')%Q -> rounds_result d format control neg v r -> rounds_result d format control neg v' r.
Proof.
  intros E (f & Hf & H). exists f. split; [rewrite <- E; exact Hf|].
  destruct H as [H|(H1 & H2 & H3 & H4 & H5 & H6 & H7 & H8)]; [left; exact H|right].
  assert ((f == v)%Q <-> (f == v')%Q) as Eq by (split; intros G; [rewrite G|rewrite G; symmetry]; exact E).
  assert (match tininess control with
          | BeforeRounding => (v < q2 (min_normal_exponent d))%Q
          | AfterRounding => (f < q2 (min_normal_exponent d))%Q
          end <->
          match tininess control with
          | BeforeRounding => (v' < q2 (min_normal_exponent d))%Q
          | AfterRounding => (f < q2 (min_normal_exponent d))%Q
          end) as Et.
  { destruct (tininess control); [|reflexivity]. split; intros G; [rewrite <- E|rewrite E]; exact G. }
  repeat (split; [assumption|]). clear -H7 H8 Eq Et. tauto.
Qed.
