(* ===== verification/FloatArith.v ===== *)
(** * Arithmetic on floating-point values (src/numeric/floating_point.cpp)

    [binary] and its five operations. Finite operands are proved correctly
    rounded against the exact rational result; NaNs, infinities and malformed
    operands are proved case by case. *)
From S2P Require Import Prelude BigUInt FloatValue Dyadic Rounding FloatSpecial.
Open Scope Z_scope.

(** ** The code *)

Inductive BinaryOperation := Add | Subtract | Multiply | Divide | Modulo.

(** The status with one flag. *)
Abbreviation flagged f := (status_set 0 f).

Definition propagate_nan (lhs : FloatValue) (left : DecodedFloat) (rhs : FloatValue)
    (right : DecodedFloat) : FloatResult :=
  let selected :=
    if is_nan_class (classification left) then Some (left, semantics lhs)
    else if is_nan_class (classification right) then Some (right, semantics rhs)
    else None in
  match selected with
  | None => mkResult (make_nan (semantics lhs) false false []) (flagged Flag_Invalid) Error_None
  | Some (selected, format) =>
      mkResult (make_nan format (negative selected) false (payload selected))
        (if class_eqb (classification left) SignalingNaN || class_eqb (classification right) SignalingNaN
         then flagged Flag_Invalid else 0) Error_None
  end.

Definition invalid_operation (format : FloatFormat) : FloatResult :=
  mkResult (make_nan format false false []) (flagged Flag_Invalid) Error_None.

Definition is_toward_negative (mode : RoundingMode) : bool :=
  match mode with TowardNegative => true | _ => false end.

Definition format_eqb (a b : FloatFormat) : bool := bool_decide (a = b).

(** What the four arithmetic operations check first, in this order. *)
Definition guarded (lhs rhs : FloatValue) (left right : DecodedFloat) (rest : FloatResult)
    : FloatResult :=
  if negb (format_eqb (semantics lhs) (semantics rhs)) then error_result FormatMismatch
  else if class_eqb (classification left) Class_Invalid || class_eqb (classification right) Class_Invalid
  then error_result InvalidEncoding
  else if is_nan_class (classification left) || is_nan_class (classification right)
  then propagate_nan lhs left rhs right
  else rest.

Definition add_values (lhs rhs : FloatValue) (subtract : bool) (control : FloatControl) : FloatResult :=
  let left := decode lhs in
  let right := decode rhs in
  let right := if subtract then with_sign (negb (negative right)) right else right in
  guarded lhs rhs left right
  (if class_eqb (classification left) Infinity || class_eqb (classification right) Infinity then
    if class_eqb (classification left) Infinity && class_eqb (classification right) Infinity &&
       negb (Bool.eqb (negative left) (negative right))
    then invalid_operation (semantics lhs)
    else mkResult (infinity (semantics lhs)
           (if class_eqb (classification left) Infinity then negative left else negative right)) 0 Error_None
  else if class_eqb (classification left) Zero && class_eqb (classification right) Zero then
    let negative :=
      if Bool.eqb (negative left) (negative right) then negative left
      else is_toward_negative (rounding control) in
    mkResult (zero (semantics lhs) negative) 0 Error_None
  else if class_eqb (classification left) Zero then
    mkResult (if subtract then negate rhs else rhs) 0 Error_None
  else if class_eqb (classification right) Zero then mkResult lhs 0 Error_None
  else
    let common_exponent := Z.min (exponent left) (exponent right) in
    let left_integer := shifted_left (significand left) (exponent left - common_exponent) in
    let right_integer := shifted_left (significand right) (exponent right - common_exponent) in
    if Bool.eqb (negative left) (negative right) then
      round_rational (negative left) (add left_integer right_integer) (of_u128 1) common_exponent
        (semantics lhs) control
    else
      let ordering := BigUInt.compare left_integer right_integer in
      if ordering =? 0 then
        mkResult (zero (semantics lhs) (is_toward_negative (rounding control))) 0 Error_None
      else if ordering >? 0 then
        round_rational (negative left) (BigUInt.subtract left_integer right_integer) (of_u128 1)
          common_exponent (semantics lhs) control
      else
        round_rational (negative right) (BigUInt.subtract right_integer left_integer) (of_u128 1)
          common_exponent (semantics lhs) control).

Definition multiply_values (lhs rhs : FloatValue) (control : FloatControl) : FloatResult :=
  let left := decode lhs in
  let right := decode rhs in
  let negative := xorb (negative left) (negative right) in
  let left_zero := class_eqb (classification left) Zero in
  let right_zero := class_eqb (classification right) Zero in
  let left_inf := class_eqb (classification left) Infinity in
  let right_inf := class_eqb (classification right) Infinity in
  guarded lhs rhs left right
  (if (left_zero && right_inf) || (left_inf && right_zero) then invalid_operation (semantics lhs)
  else if left_inf || right_inf then mkResult (infinity (semantics lhs) negative) 0 Error_None
  else if left_zero || right_zero then mkResult (zero (semantics lhs) negative) 0 Error_None
  else
    let product := multiply (significand left) (significand right) in
    round_rational negative product (of_u128 1) (exponent left + exponent right)
      (semantics lhs) control).

Definition divide_values (lhs rhs : FloatValue) (control : FloatControl) : FloatResult :=
  let left := decode lhs in
  let right := decode rhs in
  let negative := xorb (negative left) (negative right) in
  let left_zero := class_eqb (classification left) Zero in
  let right_zero := class_eqb (classification right) Zero in
  let left_inf := class_eqb (classification left) Infinity in
  let right_inf := class_eqb (classification right) Infinity in
  guarded lhs rhs left right
  (if (left_zero && right_zero) || (left_inf && right_inf) then invalid_operation (semantics lhs)
  else if right_zero
  then mkResult (infinity (semantics lhs) negative) (flagged DivideByZero) Error_None
  else if left_inf then mkResult (infinity (semantics lhs) negative) 0 Error_None
  else if right_inf || left_zero then mkResult (zero (semantics lhs) negative) 0 Error_None
  else
    round_rational negative (significand left) (significand right) (exponent left - exponent right)
      (semantics lhs) control).

Definition remainder_values (lhs rhs : FloatValue) (control : FloatControl) : FloatResult :=
  let left := decode lhs in
  let right := decode rhs in
  guarded lhs rhs left right
  (if class_eqb (classification left) Infinity || class_eqb (classification right) Zero
  then invalid_operation (semantics lhs)
  else if class_eqb (classification left) Zero || class_eqb (classification right) Infinity
  then mkResult lhs 0 Error_None
  else
    let common := Z.min (exponent left) (exponent right) in
    let dividend := shifted_left (significand left) (exponent left - common) in
    let divisor := shifted_left (significand right) (exponent right - common) in
    let remainder := snd (divmod dividend divisor) in
    if BigUInt.is_zero remainder then mkResult (zero (semantics lhs) (negative left)) 0 Error_None
    else round_rational (negative left) remainder (of_u128 1) common (semantics lhs) control).

Definition binary (operation : BinaryOperation) (lhs rhs : FloatValue) (control : FloatControl)
    : FloatResult :=
  match operation with
  | Add => add_values lhs rhs false control
  | Subtract => add_values lhs rhs true control
  | Multiply => multiply_values lhs rhs control
  | Divide => divide_values lhs rhs control
  | Modulo => remainder_values lhs rhs control
  end.

(** ** Shared lemmas *)

Lemma magnitude_one num e : (magnitude num (of_u128 1) e == dy (bval num) e)%Q.
Proof.
  unfold magnitude, dy. rewrite of_u128_bval by done. change (inject_Z 1) with 1%Q. field.
Qed.

Lemma round_integer f d control neg num e :
  descriptor f = Some d -> wf num -> 0 < bval num ->
  rounds_result d f control neg (dy (bval num) e) (round_rational neg num (of_u128 1) e f control).
Proof.
  intros Hd Hn Pn. apply (rounds_result_proper _ _ _ _ (magnitude num (of_u128 1) e)); [apply magnitude_one|].
  apply round_rational_spec; [done|done|by apply of_u128_wf|done|by rewrite of_u128_bval].
Qed.

Section Binary.
Context (d : FloatFormatDescriptor) (lhs rhs : FloatValue).
Context (Hl : operand d lhs) (Hr : operand d rhs) (Hs : semantics lhs = semantics rhs).

Lemma guarded_operands neg rest :
  guarded lhs rhs (decode lhs) (with_sign neg (decode rhs)) rest = rest /\
  guarded lhs rhs (decode lhs) (decode rhs) rest = rest.
Proof.
  destruct (operand_not_special d lhs Hl) as (E1 & E2 & _).
  destruct (operand_not_special d rhs Hr) as (F1 & F2 & _).
  unfold guarded, format_eqb. rewrite (bool_decide_eq_true_2 _ Hs). cbn [negb with_sign classification].
  by rewrite E1, E2, F1, F2.
Qed.

(** The two significands scaled to a common exponent. *)
Lemma common_scale (x y : FloatValue) :
  operand d x -> let c := Z.min (exponent (decode x)) (exponent (decode y)) in
  wf (shifted_left (significand (decode x)) (exponent (decode x) - c)) /\
  (decoded_value x == dy (bval (shifted_left (significand (decode x)) (exponent (decode x) - c))) c)%Q.
Proof.
  intros Hx c. destruct (operand_shape d x Hx) as [Hw _].
  rewrite shifted_left_bval by (done || lia). split; [apply shifted_left_wf; [done|lia]|].
  apply dy_lower. lia.
Qed.
End Binary.

(** The sign of a rational, as the code carries it. *)
Definition q_negative (x : Q) : bool := negb (Qle_bool 0 x).

Lemma q_negative_dy s x : q_negative (dy s x) = (s <? 0).
Proof.
  unfold q_negative. destruct (Qle_bool 0 (dy s x)) eqn:E; simpl; symmetry.
  - apply Qle_bool_iff in E. rewrite <- (dy_0 x), dy_le in E. lia.
  - apply Z.ltb_lt. apply not_true_iff_false in E. rewrite Qle_bool_iff, <- (dy_0 x), dy_le in E. lia.
Qed.

#[export] Instance q_negative_proper : Proper (Qeq ==> eq) q_negative.
Proof. intros x y E. unfold q_negative. by rewrite E. Qed.

Lemma Qabs_dy s x : (Qabs (dy s x) == dy (Z.abs s) x)%Q.
Proof.
  unfold dy. rewrite Qabs_Qmult. rewrite (Qabs_pos (q2 x)) by (apply Qlt_le_weak, q2_pos). reflexivity.
Qed.

Definition signed (neg : bool) (m : Z) : Z := if neg then - m else m.

Lemma signed_dy (neg : bool) m x : ((if neg then - dy m x else dy m x) == dy (signed neg m) x)%Q.
Proof. destruct neg; simpl; [|reflexivity]. unfold dy. rewrite inject_Z_opp. ring. Qed.

(** ** Addition and subtraction *)

(** The exact sum or difference. *)
Definition exact_sum (subtract : bool) (lhs rhs : FloatValue) : Q :=
  if subtract then (signed_value lhs - signed_value rhs)%Q else (signed_value lhs + signed_value rhs)%Q.

(** The sign of an exact zero sum: that of the operands when they agree,
    otherwise minus only when rounding toward minus infinity. *)
Definition zero_sum_sign (subtract : bool) (lhs rhs : FloatValue) (control : FloatControl) : bool :=
  let r := if subtract then negb (negative (decode rhs)) else negative (decode rhs) in
  if Bool.eqb (negative (decode lhs)) r then negative (decode lhs)
  else is_toward_negative (rounding control).

Section Addition.
Context (d : FloatFormatDescriptor) (lhs rhs : FloatValue) (subtract : bool) (control : FloatControl).
Context (Hl : operand d lhs) (Hr : operand d rhs) (Hs : semantics lhs = semantics rhs).

Abbreviation L := (decode lhs).
Abbreviation R := (decode rhs).
Abbreviation c := (Z.min (exponent L) (exponent R)).
Abbreviation ML := (shifted_left (significand L) (exponent L - c)).
Abbreviation MR := (shifted_left (significand R) (exponent R - c)).

Definition right_sign : bool := if subtract then negb (negative R) else negative R.

Lemma right_decoded :
  (if subtract then with_sign (negb (negative R)) R else R) = with_sign right_sign R.
Proof. unfold right_sign. destruct subtract; [done|]. by destruct R. Qed.

Lemma sum_decoded :
  (exact_sum subtract lhs rhs
   == (if negative L then - decoded_value lhs else decoded_value lhs)
      + (if right_sign then - decoded_value rhs else decoded_value rhs))%Q.
Proof.
  unfold exact_sum, signed_value, right_sign. destruct subtract, (negative R); simpl; ring.
Qed.

Lemma sum_dy :
  (exact_sum subtract lhs rhs == dy (signed (negative L) (bval ML) + signed right_sign (bval MR)) c)%Q.
Proof.
  destruct (common_scale d lhs rhs Hl) as [_ El]. destruct (common_scale d rhs lhs Hr) as [_ Er].
  rewrite sum_decoded, <- dy_add, <- !signed_dy.
  rewrite (Z.min_comm (exponent R)) in Er.
  destruct (negative L), right_sign; rewrite El, Er; reflexivity.
Qed.

(** The sum when both significands are not zero. *)
Lemma add_general :
  0 < bval ML -> 0 < bval MR ->
  let r :=
    if Bool.eqb (negative L) right_sign then
      round_rational (negative L) (add ML MR) (of_u128 1) c (semantics lhs) control
    else
      let ordering := BigUInt.compare ML MR in
      if ordering =? 0 then
        mkResult (zero (semantics lhs) (is_toward_negative (rounding control))) 0 Error_None
      else if ordering >? 0 then
        round_rational (negative L) (BigUInt.subtract ML MR) (of_u128 1) c (semantics lhs) control
      else round_rational right_sign (BigUInt.subtract MR ML) (of_u128 1) c (semantics lhs) control in
  let s := signed (negative L) (bval ML) + signed right_sign (bval MR) in
  if s =? 0 then Bool.eqb (negative L) right_sign = false /\
    r = mkResult (zero (semantics lhs) (is_toward_negative (rounding control))) 0 Error_None
  else rounds_result d (semantics lhs) control (s <? 0) (dy (Z.abs s) c) r.
Proof.
  intros Pl Pr r s. destruct (common_scale d lhs rhs Hl) as [Wl _].
  destruct (common_scale d rhs lhs Hr) as [Wr _]. rewrite (Z.min_comm (exponent R)) in Wr.
  pose proof (proj1 (proj1 Hl)) as Hd. subst r.
  destruct (Bool.eqb (negative L) right_sign) eqn:E.
  - apply Bool.eqb_prop in E. subst s. rewrite <- E.
    destruct (negative L); cbn [signed].
    + rewrite (proj2 (Z.eqb_neq _ 0)), (proj2 (Z.ltb_lt _ 0)) by lia.
      replace (Z.abs (- bval ML + - bval MR)) with (bval (add ML MR)) by (rewrite add_bval by done; lia).
      apply round_integer; [done|by apply add_wf|]. rewrite add_bval by done. lia.
    + rewrite (proj2 (Z.eqb_neq _ 0)), (proj2 (Z.ltb_ge _ 0)) by lia.
      replace (Z.abs (bval ML + bval MR)) with (bval (add ML MR)) by (rewrite add_bval by done; lia).
      apply round_integer; [done|by apply add_wf|]. rewrite add_bval by done. lia.
  - apply Bool.eqb_false_iff in E. cbv zeta. rewrite BigUInt.compare_spec by done.
    assert (s = signed (negative L) (bval ML - bval MR)) as Es.
    { subst s. destruct (negative L), right_sign; simpl; (done || lia). }
    rewrite Es. destruct (Z.compare_spec (bval ML) (bval MR)) as [C|C|C]; simpl sign_of.
    + rewrite C, Z.sub_diag. replace (signed (negative L) 0) with 0 by (by destruct (negative L)). done.
    + rewrite (proj2 (Z.eqb_neq _ 0)) by (destruct (negative L); simpl; lia). cbn [Z.eqb Z.gtb Z.compare].
      assert (right_sign = (signed (negative L) (bval ML - bval MR) <? 0)) as <-.
      { destruct (negative L), right_sign; simpl; (done || lia). }
      replace (Z.abs (signed (negative L) (bval ML - bval MR))) with (bval (BigUInt.subtract MR ML))
        by (rewrite subtract_bval by (done || lia); destruct (negative L); simpl; lia).
      apply round_integer; [done|apply subtract_wf; (done || lia)|]. rewrite subtract_bval by (done || lia). lia.
    + rewrite (proj2 (Z.eqb_neq _ 0)) by (destruct (negative L); simpl; lia). cbn [Z.eqb Z.gtb Z.compare].
      assert (negative L = (signed (negative L) (bval ML - bval MR) <? 0)) as <-.
      { destruct (negative L), right_sign; simpl; (done || lia). }
      replace (Z.abs (signed (negative L) (bval ML - bval MR))) with (bval (BigUInt.subtract ML MR))
        by (rewrite subtract_bval by (done || lia); destruct (negative L); simpl; lia).
      apply round_integer; [done|apply subtract_wf; (done || lia)|]. rewrite subtract_bval by (done || lia). lia.
Qed.
End Addition.

Lemma class_zero_eqb d v :
  operand d v -> class_eqb (classification (decode v)) Zero = (bval (significand (decode v)) =? 0).
Proof.
  intros Hv. pose proof (operand_zero d v Hv) as H. unfold class_eqb.
  case_bool_decide as E; symmetry; [apply Z.eqb_eq; tauto|apply Z.eqb_neq; tauto].
Qed.

Lemma scaled_pos d v c :
  operand d v -> c <= exponent (decode v) -> (bval (significand (decode v)) =? 0) = false ->
  0 < bval (shifted_left (significand (decode v)) (exponent (decode v) - c)).
Proof.
  intros Hv Hc Hz. destruct (operand_shape d v Hv) as [Hw _]. pose proof (operand_range d v Hv).
  rewrite shifted_left_bval by (done || lia). apply Z.eqb_neq in Hz.
  pose proof (pow2_pos (exponent (decode v) - c) ltac:(lia)). nia.
Qed.

(** An operand kept as it is, possibly negated. *)
Lemma operand_returned d v control (flip : bool) :
  operand d v ->
  rounds_result d (semantics v) control
    (if flip then negb (negative (decode v)) else negative (decode v)) (decoded_value v)
    (mkResult (if flip then negate v else v) 0 Error_None).
Proof.
  intros Hv. apply exact_rounds_result; [by apply operand_representable|by apply operand_below|].
  destruct flip; [|by apply (operand_encodes d)]. destruct Hv as [Hw Hf].
  destruct (negate_spec v d Hw) as (E & (_ & W2 & W3) & Es).
  split; [done|]. split; [done|]. split; [done|]. unfold is_finite, classify, decoded_value in *.
  rewrite E. cbn [with_sign classification negative significand exponent].
  split; [done|]. split; [done|]. reflexivity.
Qed.

Lemma zero_value_dy d v : operand d v -> (bval (significand (decode v)) =? 0) = true -> (decoded_value v == 0)%Q.
Proof.
  intros Hv E. apply Z.eqb_eq in E. apply (operand_zero_value d v Hv). by apply (operand_zero d v Hv).
Qed.

(** A rounding claim stated for [x] from one for its magnitude and sign. *)
Lemma rounds_signed d f control (neg : bool) m x r :
  (0 < m)%Q -> (x == if neg then - m else m)%Q -> rounds_result d f control neg m r ->
  rounds_result d f control (q_negative x) (Qabs x) r.
Proof.
  intros Pm E H. assert (q_negative x = neg) as ->.
  { unfold q_negative. rewrite E. destruct neg, (Qle_bool 0 _) eqn:C; try done.
    - apply Qle_bool_iff in C. lra.
    - apply not_true_iff_false in C. rewrite Qle_bool_iff in C. lra. }
  apply (rounds_result_proper _ _ _ _ m); [|done]. rewrite E.
  destruct neg; [rewrite Qabs_opp|]; symmetry; apply Qabs_pos; lra.
Qed.

Lemma add_values_spec d lhs rhs subtract control :
  operand d lhs -> operand d rhs -> semantics lhs = semantics rhs ->
  let total := exact_sum subtract lhs rhs in
  let result := binary (if subtract then Subtract else Add) lhs rhs control in
  ((total == 0)%Q /\
   result = mkResult (zero (semantics lhs) (zero_sum_sign subtract lhs rhs control)) 0 Error_None) \/
  (~ (total == 0)%Q /\
   rounds_result d (semantics lhs) control (q_negative total) (Qabs total) result).
Proof.
  intros Hl Hr Hs total result.
  assert (result = add_values lhs rhs subtract control) as -> by (subst result; by destruct subtract).
  unfold add_values. rewrite right_decoded.
  rewrite (proj1 (guarded_operands d lhs rhs Hl Hr Hs _ _)). cbn [with_sign classification negative significand exponent].
  destruct (operand_not_special d lhs Hl) as (_ & _ & -> & _).
  destruct (operand_not_special d rhs Hr) as (_ & _ & -> & _). cbn [orb].
  rewrite !(class_zero_eqb d) by done.
  pose proof (sum_decoded lhs rhs subtract) as Et. fold total in Et.
  destruct (bval (significand (decode lhs)) =? 0) eqn:Zl, (bval (significand (decode rhs)) =? 0) eqn:Zr;
    cbn [andb].
  - left. pose proof (zero_value_dy d lhs Hl Zl) as E1. pose proof (zero_value_dy d rhs Hr Zr) as E2.
    split; [|done].
    rewrite Et. destruct (negative (decode lhs)), (right_sign rhs subtract); rewrite E1, E2; reflexivity.
  - right. pose proof (zero_value_dy d lhs Hl Zl) as E1.
    pose proof (operand_nonneg d rhs Hr) as H0. apply Z.eqb_neq in Zr.
    assert (~ (decoded_value rhs == 0)%Q) as Hz.
    { rewrite <- (operand_zero_value d rhs Hr), (operand_zero d rhs Hr). done. }
    assert (0 < decoded_value rhs)%Q as Hp by (apply Qle_lt_or_eq in H0 as [|H0]; [done|by symmetry in H0]).
    assert (total == if right_sign rhs subtract then - decoded_value rhs else decoded_value rhs)%Q as Et'.
    { rewrite Et. destruct (negative (decode lhs)), (right_sign rhs subtract); rewrite E1; ring. }
    split; [rewrite Et'; destruct (right_sign rhs subtract); intros ?; lra|].
    apply (rounds_signed _ _ _ (right_sign rhs subtract) (decoded_value rhs)); [done|done|].
    rewrite Hs. by apply operand_returned.
  - right. pose proof (zero_value_dy d rhs Hr Zr) as E1.
    pose proof (operand_nonneg d lhs Hl) as H0. apply Z.eqb_neq in Zl.
    assert (~ (decoded_value lhs == 0)%Q) as Hz.
    { rewrite <- (operand_zero_value d lhs Hl), (operand_zero d lhs Hl). done. }
    assert (0 < decoded_value lhs)%Q as Hp by (apply Qle_lt_or_eq in H0 as [|H0]; [done|by symmetry in H0]).
    assert (total == if negative (decode lhs) then - decoded_value lhs else decoded_value lhs)%Q as Et'.
    { rewrite Et. destruct (negative (decode lhs)), (right_sign rhs subtract); rewrite E1; ring. }
    split; [rewrite Et'; destruct (negative (decode lhs)); intros ?; lra|].
    apply (rounds_signed _ _ _ (negative (decode lhs)) (decoded_value lhs)); [done|done|].
    by apply (operand_returned d lhs control false).
  - pose proof (add_general d lhs rhs subtract control Hl Hr) as H.
    specialize (H (scaled_pos d lhs _ Hl (Z.le_min_l _ _) Zl) (scaled_pos d rhs _ Hr (Z.le_min_r _ _) Zr)).
    cbv zeta in H. pose proof (sum_dy d lhs rhs subtract Hl Hr) as Es. fold total in Es.
    set (s := signed _ _ + signed _ _) in *.
    destruct (Z.eqb_spec s 0) as [E|E].
    + left. destruct H as [Hsign H]. split; [by rewrite Es, E, dy_0|].
      rewrite H. unfold zero_sum_sign. fold (right_sign rhs subtract). by rewrite Hsign.
    + right. split.
      * rewrite Es, <- (dy_0 (Z.min (exponent (decode lhs)) (exponent (decode rhs)))), dy_eq. done.
      * rewrite <- q_negative_dy with (x := Z.min (exponent (decode lhs)) (exponent (decode rhs))) in H.
        rewrite <- Es in H. apply (rounds_result_proper _ _ _ _ (dy (Z.abs s)
          (Z.min (exponent (decode lhs)) (exponent (decode rhs))))); [|exact H].
        rewrite Es. symmetry. apply Qabs_dy.
Qed.

(** Claim C11: adding and subtracting finite values of one format is correctly
    rounded. A non-zero exact sum is rounded as [round_rational_correct] says,
    in every mode, with cancellation and gradual underflow included; an exact
    zero has the sign of the operands when they agree and otherwise the sign
    that the rounding direction gives. *)
Theorem add_values_correct d lhs rhs subtract control :
  operand d lhs -> operand d rhs -> semantics lhs = semantics rhs ->
  let total := exact_sum subtract lhs rhs in
  let result := binary (if subtract then Subtract else Add) lhs rhs control in
  ((total == 0)%Q /\
   result = mkResult (zero (semantics lhs) (zero_sum_sign subtract lhs rhs control)) 0 Error_None) \/
  (~ (total == 0)%Q /\
   rounds_result d (semantics lhs) control (q_negative total) (Qabs total) result).
Proof. exact (@add_values_spec d lhs rhs subtract control). Qed.

Lemma add_values_correct_witness :
  let x := mkFloat IEEEBinary32 0x3F800000 0 in
  let y := mkFloat IEEEBinary32 0x3DCCCCCD 0 in
  rounds_result (mkDescriptor 32 24 23 8 127 false) IEEEBinary32 default_control
    (q_negative (exact_sum true x y)) (Qabs (exact_sum true x y)) (binary Subtract x y default_control).
Proof.
  destruct (add_values_correct (mkDescriptor 32 24 23 8 127 false) (mkFloat IEEEBinary32 0x3F800000 0)
    (mkFloat IEEEBinary32 0x3DCCCCCD 0) true default_control ltac:(concrete) ltac:(concrete) eq_refl)
    as [[E _]|[_ H]]; [vm_compute in E; discriminate E|exact H].
Defined.

(** ** Multiplication and division *)

Lemma operand_pos d v :
  operand d v -> (bval (significand (decode v)) =? 0) = false ->
  0 < bval (significand (decode v)) /\ (0 < decoded_value v)%Q.
Proof.
  intros Hv Hz. apply Z.eqb_neq in Hz. pose proof (operand_range d v Hv).
  split; [lia|]. rewrite <- (dy_0 (exponent (decode v))). apply dy_lt. lia.
Qed.

Lemma multiply_values_spec d lhs rhs control :
  operand d lhs -> operand d rhs -> semantics lhs = semantics rhs ->
  let neg := xorb (negative (decode lhs)) (negative (decode rhs)) in
  let product := (decoded_value lhs * decoded_value rhs)%Q in
  let result := binary Multiply lhs rhs control in
  ((product == 0)%Q /\ result = mkResult (zero (semantics lhs) neg) 0 Error_None) \/
  ((0 < product)%Q /\ rounds_result d (semantics lhs) control neg product result).
Proof.
  intros Hl Hr Hs neg product result. subst result. cbn [binary]. unfold multiply_values.
  rewrite (proj2 (guarded_operands d lhs rhs Hl Hr Hs false _)).
  destruct (operand_not_special d lhs Hl) as (_ & _ & -> & _).
  destruct (operand_not_special d rhs Hr) as (_ & _ & -> & _). rewrite !andb_false_r. cbn [orb andb].
  rewrite !(class_zero_eqb d) by done.
  destruct (operand_shape d lhs Hl) as [Wl _]. destruct (operand_shape d rhs Hr) as [Wr _].
  destruct (bval (significand (decode lhs)) =? 0) eqn:Zl; cbn [orb].
  { left. split; [|done]. subst product. pose proof (zero_value_dy d lhs Hl Zl) as ->. ring. }
  destruct (bval (significand (decode rhs)) =? 0) eqn:Zr.
  { left. split; [|done]. subst product. pose proof (zero_value_dy d rhs Hr Zr) as ->. ring. }
  destruct (operand_pos d lhs Hl Zl) as [Pl Ql]. destruct (operand_pos d rhs Hr Zr) as [Pr Qr].
  right. split; [by apply Qmult_lt_0_compat|].
  apply (rounds_result_proper _ _ _ _ (dy (bval (multiply (significand (decode lhs)) (significand (decode rhs))))
    (exponent (decode lhs) + exponent (decode rhs)))).
  - subst product. unfold decoded_value. rewrite dy_mul, multiply_bval by done. reflexivity.
  - apply round_integer; [apply Hl|by apply multiply_wf|]. rewrite multiply_bval by done. nia.
Qed.

(** Multiplying finite values of one format is correctly rounded: a zero
    factor gives the zero of the product's sign, and any other product is the
    rounding of the exact one. *)
Theorem multiply_values_correct d lhs rhs control :
  operand d lhs -> operand d rhs -> semantics lhs = semantics rhs ->
  let neg := xorb (negative (decode lhs)) (negative (decode rhs)) in
  let product := (decoded_value lhs * decoded_value rhs)%Q in
  let result := binary Multiply lhs rhs control in
  ((product == 0)%Q /\ result = mkResult (zero (semantics lhs) neg) 0 Error_None) \/
  ((0 < product)%Q /\ rounds_result d (semantics lhs) control neg product result).
Proof. exact (@multiply_values_spec d lhs rhs control). Qed.

Lemma multiply_values_correct_witness :
  let x := mkFloat IEEEBinary32 0xBF800001 0 in
  let y := mkFloat IEEEBinary32 0x3DCCCCCD 0 in
  rounds_result (mkDescriptor 32 24 23 8 127 false) IEEEBinary32 default_control true
    (decoded_value x * decoded_value y) (binary Multiply x y default_control).
Proof.
  destruct (multiply_values_correct (mkDescriptor 32 24 23 8 127 false) (mkFloat IEEEBinary32 0xBF800001 0)
    (mkFloat IEEEBinary32 0x3DCCCCCD 0) default_control ltac:(concrete) ltac:(concrete) eq_refl)
    as [[E _]|[_ H]]; [vm_compute in E; discriminate E|exact H].
Defined.

Lemma magnitude_quotient m n x y :
  0 < bval n -> (magnitude m n (x - y) == dy (bval m) x / dy (bval n) y)%Q.
Proof.
  intros Hn. unfold magnitude, dy.
  assert (~ inject_Z (bval n) == 0)%Q as Hz by (unfold Qeq; simpl; lia).
  pose proof (q2_pos y) as Hy.
  assert (~ q2 y == 0)%Q as Hq by (intros E; rewrite E in Hy; by apply Qlt_irrefl in Hy).
  assert (q2 x == q2 (x - y) * q2 y)%Q as E.
  { rewrite <- q2_add. replace (x - y + y) with x by lia. reflexivity. }
  rewrite E. field. by split.
Qed.

Lemma divide_values_spec d lhs rhs control :
  operand d lhs -> operand d rhs -> semantics lhs = semantics rhs ->
  let neg := xorb (negative (decode lhs)) (negative (decode rhs)) in
  let result := binary Divide lhs rhs control in
  ((decoded_value rhs == 0)%Q /\ (decoded_value lhs == 0)%Q /\ result = invalid_operation (semantics lhs)) \/
  ((decoded_value rhs == 0)%Q /\ (0 < decoded_value lhs)%Q /\
   result = mkResult (infinity (semantics lhs) neg) (flagged DivideByZero) Error_None) \/
  ((0 < decoded_value rhs)%Q /\ (decoded_value lhs == 0)%Q /\
   result = mkResult (zero (semantics lhs) neg) 0 Error_None) \/
  ((0 < decoded_value rhs)%Q /\ (0 < decoded_value lhs)%Q /\
   rounds_result d (semantics lhs) control neg (decoded_value lhs / decoded_value rhs) result).
Proof.
  intros Hl Hr Hs neg result. subst result. cbn [binary]. unfold divide_values.
  rewrite (proj2 (guarded_operands d lhs rhs Hl Hr Hs false _)).
  destruct (operand_not_special d lhs Hl) as (_ & _ & -> & _).
  destruct (operand_not_special d rhs Hr) as (_ & _ & -> & _). cbn [orb andb]. rewrite orb_false_r.
  rewrite !(class_zero_eqb d) by done.
  destruct (operand_shape d lhs Hl) as [Wl _]. destruct (operand_shape d rhs Hr) as [Wr _].
  destruct (bval (significand (decode rhs)) =? 0) eqn:Zr.
  - pose proof (zero_value_dy d rhs Hr Zr).
    destruct (bval (significand (decode lhs)) =? 0) eqn:Zl; cbn [andb].
    + left. pose proof (zero_value_dy d lhs Hl Zl). done.
    + right; left. destruct (operand_pos d lhs Hl Zl). done.
  - rewrite andb_false_r. destruct (operand_pos d rhs Hr Zr) as [Pr Qr].
    destruct (bval (significand (decode lhs)) =? 0) eqn:Zl.
    + right; right; left. pose proof (zero_value_dy d lhs Hl Zl). done.
    + right; right; right. destruct (operand_pos d lhs Hl Zl) as [Pl Ql].
      split; [done|]. split; [done|].
      apply (rounds_result_proper _ _ _ _ (magnitude (significand (decode lhs)) (significand (decode rhs))
        (exponent (decode lhs) - exponent (decode rhs)))).
      * by apply magnitude_quotient.
      * apply round_rational_spec; try done. apply Hl.
Qed.

(** Claim C31: dividing finite values of one format is correctly rounded for a
    non-zero divisor; a non-zero value over zero is the signed infinity with
    DivideByZero and only that flag, and zero over zero is an invalid operation. *)
Theorem divide_values_correct d lhs rhs control :
  operand d lhs -> operand d rhs -> semantics lhs = semantics rhs ->
  let neg := xorb (negative (decode lhs)) (negative (decode rhs)) in
  let result := binary Divide lhs rhs control in
  ((decoded_value rhs == 0)%Q /\ (decoded_value lhs == 0)%Q /\ result = invalid_operation (semantics lhs)) \/
  ((decoded_value rhs == 0)%Q /\ (0 < decoded_value lhs)%Q /\
   result = mkResult (infinity (semantics lhs) neg) (flagged DivideByZero) Error_None) \/
  ((0 < decoded_value rhs)%Q /\ (decoded_value lhs == 0)%Q /\
   result = mkResult (zero (semantics lhs) neg) 0 Error_None) \/
  ((0 < decoded_value rhs)%Q /\ (0 < decoded_value lhs)%Q /\
   rounds_result d (semantics lhs) control neg (decoded_value lhs / decoded_value rhs) result).
Proof. exact (@divide_values_spec d lhs rhs control). Qed.

Lemma divide_values_correct_witness :
  let x := mkFloat IEEEBinary64 0x3FF0000000000000 0 in
  let y := mkFloat IEEEBinary64 0x4008000000000000 0 in
  rounds_result (mkDescriptor 64 53 52 11 1023 false) IEEEBinary64 default_control false
    (decoded_value x / decoded_value y) (binary Divide x y default_control).
Proof.
  destruct (divide_values_correct (mkDescriptor 64 53 52 11 1023 false) (mkFloat IEEEBinary64 0x3FF0000000000000 0)
    (mkFloat IEEEBinary64 0x4008000000000000 0) default_control ltac:(concrete) ltac:(concrete) eq_refl)
    as [[E _]|[[E _]|[(_ & E & _)|(_ & _ & H)]]];
    [vm_compute in E; discriminate E|vm_compute in E; discriminate E|vm_compute in E; discriminate E|exact H].
Defined.

(** ** Remainder *)

Lemma representable_small d m x :
  0 <= m < 2 ^ precision d -> min_subnormal_exponent d <= x -> representable d (dy m x).
Proof. intros. exists m, x. split; [done|]. split; [done|]. reflexivity. Qed.

Lemma remainder_values_spec d lhs rhs control :
  operand d lhs -> operand d rhs -> semantics lhs = semantics rhs -> ~ (decoded_value rhs == 0)%Q ->
  exists (n : Z) (f : Q),
    0 <= n /\ (f == decoded_value lhs - inject_Z n * decoded_value rhs)%Q /\
    (0 <= f)%Q /\ (f < decoded_value rhs)%Q /\
    returns_exactly (semantics lhs) (negative (decode lhs)) f (binary Modulo lhs rhs control).
Proof.
  intros Hl Hr Hs Hnz. cbn [binary]. unfold remainder_values.
  rewrite (proj2 (guarded_operands d lhs rhs Hl Hr Hs false _)).
  destruct (operand_not_special d lhs Hl) as (_ & _ & -> & _).
  destruct (operand_not_special d rhs Hr) as (_ & _ & -> & _). cbn [orb]. rewrite orb_false_r.
  rewrite !(class_zero_eqb d) by done. pose proof (operand_ok d lhs Hl) as Hok.
  destruct (bval (significand (decode rhs)) =? 0) eqn:Zr; [exfalso; by apply Hnz, (zero_value_dy d)|].
  destruct (operand_pos d rhs Hr Zr) as [Pr Qr].
  destruct (bval (significand (decode lhs)) =? 0) eqn:Zl.
  { exists 0, 0%Q. pose proof (zero_value_dy d lhs Hl Zl) as E. split; [lia|]. rewrite E.
    split; [ring|]. split; [apply Qle_refl|]. split; [done|].
    split; [done|]. split; [apply no_flags_0|].
    apply (encodes_proper _ _ (decoded_value lhs)); [done|]. by apply (operand_encodes d). }
  destruct (operand_pos d lhs Hl Zl) as [Pl Ql].
  set (c := Z.min (exponent (decode lhs)) (exponent (decode rhs))).
  destruct (common_scale d lhs rhs Hl) as [W1 E1]. destruct (common_scale d rhs lhs Hr) as [W2 E2].
  rewrite (Z.min_comm (exponent (decode rhs))) in W2, E2. fold c in W1, E1, W2, E2.
  pose proof (scaled_pos d rhs c Hr ltac:(lia) Zr) as P2.
  set (M1 := shifted_left (significand (decode lhs)) (exponent (decode lhs) - c)) in *.
  set (M2 := shifted_left (significand (decode rhs)) (exponent (decode rhs) - c)) in *.
  destruct (divmod_spec M1 M2 W1 W2 P2) as (_ & D2 & _ & D4). set (r := (divmod M1 M2).2) in *.
  pose proof (Z.mod_pos_bound (bval M1) (bval M2) P2) as Hrb. rewrite <- D4 in Hrb.
  pose proof (wf_nonneg M1 W1) as H1.
  exists (bval M1 / bval M2), (dy (bval r) c).
  split; [by apply Z.div_pos|]. split.
  { rewrite E1, E2. unfold dy. rewrite D4.
    pose proof (Z.div_mod (bval M1) (bval M2) ltac:(lia)) as Em.
    rewrite Em at 2. rewrite inject_Z_plus, inject_Z_mult. ring. }
  split; [apply dy_nonneg; lia|]. split; [rewrite E2; apply dy_lt; lia|].
  rewrite BigUInt.is_zero_spec by done. destruct (Z.eqb_spec (bval r) 0) as [E0|E0].
  { split; [done|]. split; [apply no_flags_0|]. cbn [value]. rewrite E0.
    apply (encodes_proper _ _ 0); [symmetry; apply dy_0|]. apply (encodes_zero _ d). apply Hl. }
  pose proof (operand_exponent d lhs Hl ltac:(lia)) as X1. pose proof (operand_exponent d rhs Hr ltac:(lia)) as X2.
  assert (bval r < 2 ^ precision d) as Hrp.
  { pose proof (operand_range d lhs Hl). pose proof (operand_range d rhs Hr).
    destruct (Z.le_ge_cases (exponent (decode lhs)) (exponent (decode rhs))).
    - assert (bval M1 = bval (significand (decode lhs))).
      { subst M1 c. rewrite Z.min_l, Z.sub_diag by done. by rewrite shifted_left_bval, Z.mul_1_r by (done || apply (operand_shape d lhs Hl)). }
      assert (bval r <= bval M1); [|lia]. rewrite D4. apply Z.mod_le; lia.
    - assert (bval M2 = bval (significand (decode rhs))); [|lia].
      subst M2 c. rewrite Z.min_r, Z.sub_diag by done.
      by rewrite shifted_left_bval, Z.mul_1_r by (done || apply (operand_shape d rhs Hr)). }
  apply (rounds_result_exact d _ control); [apply representable_small; lia| |].
  - apply Qlt_trans with (decoded_value rhs); [rewrite E2; apply dy_lt; lia|]. by apply operand_below.
  - apply round_integer; [apply Hl|done|lia].
Qed.

(** Claim C32: the remainder of finite values by a non-zero divisor is exact, with
    no flag raised in any rounding mode: it is |lhs| - n * |rhs| for the integer
    n = floor(|lhs| / |rhs|), carries the sign of [lhs], and is smaller than the
    divisor. *)
Theorem remainder_values_exact d lhs rhs control :
  operand d lhs -> operand d rhs -> semantics lhs = semantics rhs -> ~ (decoded_value rhs == 0)%Q ->
  exists (n : Z) (f : Q),
    0 <= n /\ (f == decoded_value lhs - inject_Z n * decoded_value rhs)%Q /\
    (0 <= f)%Q /\ (f < decoded_value rhs)%Q /\
    returns_exactly (semantics lhs) (negative (decode lhs)) f (binary Modulo lhs rhs control).
Proof. exact (@remainder_values_spec d lhs rhs control). Qed.

Lemma remainder_values_exact_witness :
  exists f : Q,
    returns_exactly IEEEBinary64 true f
      (binary Modulo (mkFloat IEEEBinary64 0xC014000000000000 0) (mkFloat IEEEBinary64 0x4008000000000000 0) default_control).
Proof.
  destruct (remainder_values_exact (mkDescriptor 64 53 52 11 1023 false) (mkFloat IEEEBinary64 0xC014000000000000 0)
    (mkFloat IEEEBinary64 0x4008000000000000 0) default_control ltac:(concrete) ltac:(concrete) eq_refl
    ltac:(vm_compute; discriminate)) as (n & f & _ & _ & _ & _ & H).
  exists f. exact H.
Defined.

(** ** NaNs, infinities and malformed operands *)

Lemma nan_class_inv c : is_nan_class c = true -> c = QuietNaN \/ c = SignalingNaN.
Proof. by destruct c; auto. Qed.

(** The payload of a decoded value fits its format. *)
Lemma decode_payload v d :
  well_formed d v -> words (payload (decode v)) /\
  payload_field d (bval (payload (decode v))) = bval (payload (decode v)).
Proof.
  intros (Hd & Hw & Hc). pose proof (descriptor_ok _ _ Hd) as Hok. rewrite (decode_spec v d Hd Hw Hc).
  assert (payload_field d 0 = 0) as H0 by (unfold payload_field; by rewrite !Z.mod_0_l by (apply pow2_nz; destruct Hok; lia)).
  assert (words []) by constructor.
  unfold decode_fields, decode_none.
  destruct (_ =? 2 ^ exponent_bits d - 1).
  - destruct (_ && _)%bool; [done|]. destruct (_ =? 0); [done|]. cbn [payload].
    set (x := (_ mod _) mod 2 ^ (precision d - 2)).
    assert (0 <= x < 2 ^ (precision d - 2)) as Hx by (apply Z.mod_pos_bound, pow2_pos; destruct Hok; lia).
    pose proof (pow2_lt (precision d - 2) 128 ltac:(destruct Hok; lia)).
    assert (word 128 x) as Wx by (unfold word; lia). split; [by apply wf_words, of_u128_wf|].
    rewrite of_u128_bval by done. unfold payload_field. rewrite (Z.mod_small x (2 ^ 128)) by lia.
    by apply Z.mod_small.
  - destruct (_ =? 0); [by destruct (_ =? 0)|]. by destruct (_ && _)%bool.
Qed.

(** The first NaN operand, as [binary] sees it: a subtrahend is negated first. *)
Definition selected_nan (op : BinaryOperation) (lhs rhs : FloatValue) : bool * BigUInt :=
  if is_nan lhs then (negative (decode lhs), payload (decode lhs))
  else (match op with Subtract => negb (negative (decode rhs)) | _ => negative (decode rhs) end,
        payload (decode rhs)).

Lemma propagate_nan_correct d lhs rhs neg :
  well_formed d lhs -> well_formed d rhs -> semantics lhs = semantics rhs ->
  is_nan_class (classification (decode lhs)) || is_nan_class (classification (decode rhs)) = true ->
  let r := propagate_nan lhs (decode lhs) rhs (with_sign neg (decode rhs)) in
  let sel := if is_nan lhs then decode lhs else with_sign neg (decode rhs) in
  error r = Error_None /\ well_formed d (value r) /\
  classify (value r) = QuietNaN /\ semantics (value r) = semantics lhs /\
  negative (decode (value r)) = negative sel /\
  bval (payload (decode (value r))) = bval (payload sel) /\
  status r = (if class_eqb (classification (decode lhs)) SignalingNaN ||
                 class_eqb (classification (decode rhs)) SignalingNaN then flagged Flag_Invalid else 0).
Proof.
  intros Hl Hr Hs Hn r sel.
  assert (forall v n, well_formed d v ->
    let m := make_nan (semantics v) n false (payload (decode v)) in
    well_formed d m /\ classify m = QuietNaN /\ semantics m = semantics v /\ negative (decode m) = n /\
    bval (payload (decode m)) = bval (payload (decode v))) as H.
  { intros v n Hv m. destruct (decode_payload v d Hv) as [Hp Hf].
    destruct (decode_make_nan (semantics v) d n false (payload (decode v)) (proj1 Hv) Hp) as (E & Hwf & Es).
    split; [done|]. unfold classify. subst m. rewrite E. cbn [andb classification negative payload].
    rewrite Hf. split; [done|]. split; [done|]. split; [done|].
    pose proof (descriptor_ok _ _ (proj1 Hv)) as Hok. apply of_u128_bval. rewrite <- Hf.
    apply (word_mono (precision d - 2)); [destruct Hok; lia|]. apply Z.mod_pos_bound, pow2_pos. destruct Hok; lia. }
  subst r sel. unfold propagate_nan.
  change (is_nan lhs) with (is_nan_class (classification (decode lhs))).
  destruct (is_nan_class (classification (decode lhs))) eqn:E1.
  - destruct (H lhs (negative (decode lhs)) Hl) as (H0 & H1 & H2 & H3 & H4). done.
  - cbn [with_sign classification negative payload]. cbn [orb] in Hn. rewrite Hn.
    destruct (H rhs neg Hr) as (H0 & H1 & H2 & H3 & H4). cbn [value error status]. by rewrite Hs.
Qed.

Lemma binary_nan_spec d op lhs rhs control :
  well_formed d lhs -> well_formed d rhs -> semantics lhs = semantics rhs ->
  classify lhs <> Class_Invalid -> classify rhs <> Class_Invalid ->
  is_nan lhs || is_nan rhs = true ->
  let r := binary op lhs rhs control in
  error r = Error_None /\ well_formed d (value r) /\
  classify (value r) = QuietNaN /\ semantics (value r) = semantics lhs /\
  negative (decode (value r)) = (selected_nan op lhs rhs).1 /\
  bval (payload (decode (value r))) = bval (selected_nan op lhs rhs).2 /\
  status r = (if class_eqb (classify lhs) SignalingNaN || class_eqb (classify rhs) SignalingNaN
              then flagged Flag_Invalid else 0).
Proof.
  intros Hl Hr Hs Il Ir Hn r.
  set (neg := match op with Subtract => negb (negative (decode rhs)) | _ => negative (decode rhs) end).
  assert (r = propagate_nan lhs (decode lhs) rhs (with_sign neg (decode rhs))) as ->.
  { assert (forall rest, guarded lhs rhs (decode lhs) (with_sign neg (decode rhs)) rest
              = propagate_nan lhs (decode lhs) rhs (with_sign neg (decode rhs))) as H.
    { intros rest. unfold guarded, format_eqb. rewrite (bool_decide_eq_true_2 _ Hs).
      unfold class_eqb at 1 2. cbn [negb with_sign classification].
      rewrite (bool_decide_eq_false_2 _ Il), (bool_decide_eq_false_2 _ Ir). cbn [orb].
      change (is_nan_class (classification (decode lhs)) || is_nan_class (classification (decode rhs)) = true) in Hn.
      by rewrite Hn. }
    assert (with_sign (negative (decode rhs)) (decode rhs) = decode rhs) as Ew by by destruct (decode rhs).
    subst r neg. destruct op; cbn [binary]; rewrite ?Ew in *; apply H. }
  pose proof (propagate_nan_correct d lhs rhs neg Hl Hr Hs Hn) as H. cbv zeta in H.
  unfold selected_nan. fold neg. destruct (is_nan lhs); apply H.
Qed.

(** NaN operands. Whenever an operand of one of the five operations is a
    NaN and neither is malformed, the result is a quiet NaN of the same format
    with the payload and sign of the first NaN operand (a NaN subtrahend has its
    sign flipped), and the Invalid flag is raised exactly for a signaling one. *)
Theorem binary_nan d op lhs rhs control :
  well_formed d lhs -> well_formed d rhs -> semantics lhs = semantics rhs ->
  classify lhs <> Class_Invalid -> classify rhs <> Class_Invalid ->
  is_nan lhs || is_nan rhs = true ->
  let r := binary op lhs rhs control in
  error r = Error_None /\ well_formed d (value r) /\
  classify (value r) = QuietNaN /\ semantics (value r) = semantics lhs /\
  negative (decode (value r)) = (selected_nan op lhs rhs).1 /\
  bval (payload (decode (value r))) = bval (selected_nan op lhs rhs).2 /\
  status r = (if class_eqb (classify lhs) SignalingNaN || class_eqb (classify rhs) SignalingNaN
              then flagged Flag_Invalid else 0).
Proof. exact (@binary_nan_spec d op lhs rhs control). Qed.

Lemma binary_nan_witness :
  classify (value (binary Subtract (mkFloat IEEEBinary32 0x3F800000 0) (mkFloat IEEEBinary32 0x7F800123 0)
    default_control)) = QuietNaN.
Proof.
  refine (proj1 (proj2 (proj2 (binary_nan (mkDescriptor 32 24 23 8 127 false) Subtract (mkFloat IEEEBinary32 0x3F800000 0)
    (mkFloat IEEEBinary32 0x7F800123 0) default_control _ _ eq_refl _ _ eq_refl)))).
  - concrete.
  - concrete.
  - vm_compute; discriminate.
  - vm_compute; discriminate.
Defined.

(** The table of an operation with an infinite operand and no NaN. [neg] is the
    sign of the quotient or product, [rneg] that of the right operand as added. *)
Definition infinite_result (op : BinaryOperation) (lhs rhs : FloatValue) : FloatResult :=
  let f := semantics lhs in
  let neg := xorb (negative (decode lhs)) (negative (decode rhs)) in
  let exact v := mkResult v 0 Error_None in
  match op with
  | Add | Subtract =>
      let rneg := match op with Subtract => negb (negative (decode rhs)) | _ => negative (decode rhs) end in
      if is_infinity lhs then
        if is_infinity rhs && xorb (negative (decode lhs)) rneg then invalid_operation f
        else exact (infinity f (negative (decode lhs)))
      else exact (infinity f rneg)
  | Multiply => if is_zero lhs || is_zero rhs then invalid_operation f else exact (infinity f neg)
  | Divide =>
      if is_infinity lhs then
        if is_infinity rhs then invalid_operation f
        else mkResult (infinity f neg) (if is_zero rhs then flagged DivideByZero else 0) Error_None
      else exact (zero f neg)
  | Modulo => if is_infinity lhs then invalid_operation f else exact lhs
  end.

Lemma binary_special_cases op lhs rhs control :
  (semantics lhs <> semantics rhs -> binary op lhs rhs control = error_result FormatMismatch) /\
  (semantics lhs = semantics rhs -> classify lhs = Class_Invalid \/ classify rhs = Class_Invalid ->
   binary op lhs rhs control = error_result InvalidEncoding) /\
  (semantics lhs = semantics rhs -> classify lhs <> Class_Invalid -> classify rhs <> Class_Invalid ->
   is_nan lhs = false -> is_nan rhs = false -> is_infinity lhs || is_infinity rhs = true ->
   binary op lhs rhs control = infinite_result op lhs rhs).
Proof.
  assert (forall neg rest, semantics lhs <> semantics rhs ->
    guarded lhs rhs (decode lhs) (with_sign neg (decode rhs)) rest = error_result FormatMismatch) as G1.
  { intros neg rest Hs. unfold guarded, format_eqb. by rewrite bool_decide_eq_false_2. }
  assert (forall neg rest, semantics lhs = semantics rhs -> classify lhs = Class_Invalid \/ classify rhs = Class_Invalid ->
    guarded lhs rhs (decode lhs) (with_sign neg (decode rhs)) rest = error_result InvalidEncoding) as G2.
  { intros neg rest Hs Hi. unfold guarded, format_eqb. rewrite bool_decide_eq_true_2 by done.
    cbn [with_sign classification negb]. unfold classify in Hi.
    destruct Hi as [-> | ->]; [done|]. by rewrite orb_true_r. }
  assert (with_sign (negative (decode rhs)) (decode rhs) = decode rhs) as Ew by by destruct (decode rhs).
  split; [|split].
  - intros Hs. pose proof (fun rest => G1 (negative (decode rhs)) rest Hs) as G. rewrite Ew in G.
    destruct op; cbn [binary]; try apply G; by apply G1.
  - intros Hs Hi. pose proof (fun rest => G2 (negative (decode rhs)) rest Hs Hi) as G. rewrite Ew in G.
    destruct op; cbn [binary]; try apply G; by apply G2.
  - unfold is_nan, is_infinity, classify, infinite_result, is_zero, is_infinity, classify.
    intros Hs Il Ir Nl Nr Hi. cbv zeta in Nl, Nr.
    destruct op; cbn [binary]; unfold add_values, multiply_values, divide_values, remainder_values, guarded, format_eqb;
      rewrite (bool_decide_eq_true_2 _ Hs); cbn [negb with_sign classification negative];
      destruct (classification (decode lhs)), (classification (decode rhs)); try done;
      destruct (negative (decode lhs)), (negative (decode rhs)); reflexivity.
Qed.

(** Claim C33: infinite operands, and the checks that come first. Operands of
    different formats are a FormatMismatch and otherwise a malformed one is an
    InvalidEncoding, without a value or a flag; with an infinite operand and no
    NaN the five operations follow the IEEE 754 table ([infinite_result]), whose
    one surprise is that infinity over zero also raises DivideByZero. *)
Theorem binary_special op lhs rhs control :
  (semantics lhs <> semantics rhs -> binary op lhs rhs control = error_result FormatMismatch) /\
  (semantics lhs = semantics rhs -> classify lhs = Class_Invalid \/ classify rhs = Class_Invalid ->
   binary op lhs rhs control = error_result InvalidEncoding) /\
  (semantics lhs = semantics rhs -> classify lhs <> Class_Invalid -> classify rhs <> Class_Invalid ->
   is_nan lhs = false -> is_nan rhs = false -> is_infinity lhs || is_infinity rhs = true ->
   binary op lhs rhs control = infinite_result op lhs rhs).
Proof. exact (@binary_special_cases op lhs rhs control). Qed.

Lemma binary_special_witness :
  binary Divide (infinity IEEEBinary32 true) (zero IEEEBinary32 false) default_control
  = mkResult (infinity IEEEBinary32 true) (flagged DivideByZero) Error_None.
Proof.
  exact (proj2 (proj2 (binary_special Divide (infinity IEEEBinary32 true) (zero IEEEBinary32 false) default_control))
    eq_refl ltac:(vm_compute; discriminate) ltac:(vm_compute; discriminate) eq_refl eq_refl eq_refl).
Defined.
