(* ===== verification/FloatConvert.v ===== *)
(** * Conversion and comparison of floating-point values
    (src/numeric/floating_point.cpp)

    [convert], [scale_by_power_of_two], [compare], [from_integer] and
    [to_integer], proved against the exact rational values. *)
From Stdlib Require Import Qround.
From S2P Require Import Prelude BigUInt FloatValue Dyadic Rounding FloatSpecial FloatArith.
Open Scope Z_scope.

(** ** The code *)

Inductive CompareResult := Less | Equal | Greater | Unordered.

Record FloatCompareResult := mkCompare {
  compare_value : CompareResult;
  compare_status : Z;
  compare_error : FloatError;
}.

Record FloatIntegerResult := mkInteger {
  integer_value : Z;
  integer_status : Z;
  integer_error : FloatError;
}.

Definition convert (v : FloatValue) (format : FloatFormat) (control : FloatControl) : FloatResult :=
  match descriptor format with
  | None => error_result InvalidFormat
  | Some _ =>
    let decoded := decode v in
    if class_eqb (classification decoded) Class_Invalid then error_result InvalidEncoding
    else if class_eqb (classification decoded) Zero
    then mkResult (zero format (negative decoded)) 0 Error_None
    else if class_eqb (classification decoded) Infinity
    then mkResult (infinity format (negative decoded)) 0 Error_None
    else if is_nan_class (classification decoded)
    then mkResult (make_nan format (negative decoded) false (payload decoded))
           (if class_eqb (classification decoded) SignalingNaN then flagged Flag_Invalid else 0) Error_None
    else round_rational (negative decoded) (significand decoded) (of_u128 1) (exponent decoded)
           format control
  end.

Definition scale_by_power_of_two (v : FloatValue) (exponent : Z) (control : FloatControl)
    : FloatResult :=
  let decoded := decode v in
  if class_eqb (classification decoded) Class_Invalid then error_result InvalidEncoding
  else if class_eqb (classification decoded) Zero || class_eqb (classification decoded) Infinity ||
          is_nan_class (classification decoded)
  then convert v (semantics v) control
  else if exponent >? 1000000 then overflow_result (semantics v) (negative decoded) control
  else if exponent <? -1000000 then tiny_nonzero_result (semantics v) (negative decoded) control
  else round_rational (negative decoded) (significand decoded) (of_u128 1)
         (FloatValue.exponent decoded + exponent) (semantics v) control.

(** The lambda [magnitude_compare] of [compare]. *)
Definition magnitude_compare (left right : DecodedFloat) : Z :=
  if class_eqb (classification left) Infinity || class_eqb (classification right) Infinity then
    if class_eqb (classification left) (classification right) then 0
    else if class_eqb (classification left) Infinity then 1 else -1
  else if class_eqb (classification left) Zero || class_eqb (classification right) Zero then
    if class_eqb (classification left) (classification right) then 0
    else if class_eqb (classification left) Zero then -1 else 1
  else compare_scaled (significand left) (exponent left) (significand right) (exponent right).

Definition compare (lhs rhs : FloatValue) : FloatCompareResult :=
  if negb (format_eqb (semantics lhs) (semantics rhs)) then mkCompare Unordered 0 FormatMismatch
  else
  let left := decode lhs in
  let right := decode rhs in
  if class_eqb (classification left) Class_Invalid || class_eqb (classification right) Class_Invalid
  then mkCompare Unordered 0 InvalidEncoding
  else if is_nan_class (classification left) || is_nan_class (classification right) then
    mkCompare Unordered
      (if class_eqb (classification left) SignalingNaN || class_eqb (classification right) SignalingNaN
       then flagged Flag_Invalid else 0) Error_None
  else if class_eqb (classification left) Zero && class_eqb (classification right) Zero
  then mkCompare Equal 0 Error_None
  else if negb (Bool.eqb (negative left) (negative right))
  then mkCompare (if negative left then Less else Greater) 0 Error_None
  else
    let ordering := magnitude_compare left right in
    let ordering := if negative left then - ordering else ordering in
    mkCompare (if ordering <? 0 then Less else if ordering >? 0 then Greater else Equal) 0 Error_None.

Definition from_integer (bits bit_width : Z) (is_signed : bool) (format : FloatFormat)
    (control : FloatControl) : FloatResult :=
  match descriptor format with
  | None => error_result InvalidFormat
  | Some _ =>
    if (bit_width =? 0) || (bit_width >? 128) then error_result InvalidIntegerWidth
    else
    let mask := low_mask bit_width in
    let bits := Z.land bits mask in
    let negative := is_signed && negb (Z.land bits (u128 (Z.shiftl 1 (bit_width - 1))) =? 0) in
    let magnitude := if negative then Z.land (u128 (unot 128 bits + 1)) mask else bits in
    round_rational negative (of_u128 magnitude) (of_u128 1) 0 format control
  end.

Definition to_integer (v : FloatValue) (bit_width : Z) (is_signed : bool) : FloatIntegerResult :=
  if (bit_width =? 0) || (bit_width >? 128) then mkInteger 0 0 InvalidIntegerWidth
  else
  let decoded := decode v in
  if class_eqb (classification decoded) Class_Invalid then mkInteger 0 0 InvalidEncoding
  else if class_eqb (classification decoded) Infinity || is_nan_class (classification decoded)
  then mkInteger 0 (flagged Flag_Invalid) IntegerOutOfRange
  else
  let '(magnitude, discarded) :=
    if exponent decoded >=? 0
    then (shifted_left (significand decoded) (exponent decoded), false)
    else shifted_right (significand decoded) (- exponent decoded) in
  let status := if discarded then flagged Inexact else 0 in
  let out_of_range :=
    if is_signed then
      let limit := of_u128 (u128 (Z.shiftl 1 (bit_width - 1))) in
      let positive_limit := BigUInt.subtract limit (of_u128 1) in
      (negb (negative decoded) && (BigUInt.compare magnitude positive_limit >? 0)) ||
      (negative decoded && (BigUInt.compare magnitude limit >? 0))
    else
      (negative decoded && negb (BigUInt.is_zero magnitude)) ||
      (BigUInt.compare magnitude (of_u128 (low_mask bit_width)) >? 0) in
  if out_of_range then mkInteger 0 (status_set status Flag_Invalid) IntegerOutOfRange
  else
  let raw := Z.land (to_u128 magnitude) (low_mask bit_width) in
  let raw :=
    if negative decoded && negb (raw =? 0)
    then Z.land (u128 (unot 128 raw + 1)) (low_mask bit_width) else raw in
  mkInteger raw status Error_None.

(** ** Conversion between formats *)

Lemma operand_classes d v :
  operand d v -> class_eqb (classification (decode v)) Class_Invalid = false /\
  class_eqb (classification (decode v)) Infinity = false /\ is_nan_class (classification (decode v)) = false.
Proof. intros Hv. by destruct (operand_not_special d v Hv) as (H1 & H2 & H3 & _). Qed.

Lemma convert_spec d d' v format control :
  operand d v -> descriptor format = Some d' ->
  rounds_result d' format control (negative (decode v)) (decoded_value v) (convert v format control).
Proof.
  intros Hv Hd'. unfold convert. rewrite Hd'. destruct (operand_classes d v Hv) as (-> & -> & ->).
  pose proof (descriptor_ok _ _ Hd') as Hok. pose proof (operand_shape d v Hv) as [Hw _].
  rewrite (class_zero_eqb d) by done. destruct (Z.eqb_spec (bval (significand (decode v))) 0) as [E|E].
  - assert (decoded_value v == 0)%Q as E0 by (unfold decoded_value; rewrite E; apply dy_0).
    apply (rounds_result_proper _ _ _ _ 0); [by symmetry|]. apply exact_rounds_result.
    + exists 0, (min_subnormal_exponent d'). split; [split; [lia|apply pow2_pos; destruct Hok; lia]|].
      split; [lia|]. symmetry. apply dy_0.
    + apply q2_pos.
    + by apply (encodes_zero _ d').
  - apply round_integer; [done|done|]. pose proof (operand_range d v Hv). lia.
Qed.

(** Claim C29: converting a finite value to any format is correctly rounded, in
    every mode; zeros keep their sign. *)
Theorem convert_correct d d' v format control :
  operand d v -> descriptor format = Some d' ->
  rounds_result d' format control (negative (decode v)) (decoded_value v) (convert v format control).
Proof. exact (@convert_spec d d' v format control). Qed.

Lemma convert_correct_witness :
  rounds_result (mkDescriptor 16 11 10 5 15 false) IEEEBinary16 default_control false
    (decoded_value (mkFloat IEEEBinary32 0x3DCCCCCD 0))
    (convert (mkFloat IEEEBinary32 0x3DCCCCCD 0) IEEEBinary16 default_control).
Proof.
  exact (convert_correct (mkDescriptor 32 24 23 8 127 false) (mkDescriptor 16 11 10 5 15 false)
    (mkFloat IEEEBinary32 0x3DCCCCCD 0) IEEEBinary16 default_control ltac:(concrete) eq_refl).
Defined.

(** *** Uniqueness of encodings *)

(** An x87 pattern with a zero exponent field and the integer bit set: a second
    encoding of a number with exponent field one. *)
Definition pseudo_denormal (d : FloatFormatDescriptor) (v : FloatValue) : bool :=
  (exponent_field v d =? 0) && (2 ^ (precision d - 1) <=? significand_field v d).

(** A significand and an exponent in normal form. *)
Definition normal_form (d : FloatFormatDescriptor) (m x : Z) : Prop :=
  0 <= m < 2 ^ precision d /\ min_subnormal_exponent d <= x /\
  (x = min_subnormal_exponent d \/ 2 ^ (precision d - 1) <= m).

Lemma normal_form_unique d a x b y :
  desc_ok d -> normal_form d a x -> normal_form d b y -> (dy a x == dy b y)%Q -> a = b /\ x = y.
Proof.
  intros Hok. assert (forall a x b y, normal_form d a x -> normal_form d b y -> (dy a x == dy b y)%Q -> x <= y) as H.
  { clear a x b y. intros a x b y (A1 & A2 & A3) (B1 & B2 & B3) E. destruct (Z.le_gt_cases x y) as [|L]; [done|exfalso].
    destruct A3 as [A3|A3]; [lia|].
    pose proof (dy_lower a x y ltac:(lia)) as El. rewrite El in E. apply dy_eq in E.
    pose proof (pow2_succ (precision d - 1) ltac:(destruct Hok; lia)) as Hp.
    replace (precision d - 1 + 1) with (precision d) in Hp by lia.
    pose proof (pow2_le 1 (x - y) ltac:(lia)) as Hk. change (2 ^ 1) with 2 in Hk. nia. }
  intros Ha Hb E. assert (x = y) as <-.
  { apply Z.le_antisymm; [eapply H; eauto|]. eapply H; [exact Hb|exact Ha|]. by symmetry. }
  split; [|done]. by apply dy_eq in E.
Qed.

(** The normal form of a finite value, and the fields it comes from. *)
Lemma operand_normal_form d v :
  operand d v -> pseudo_denormal d v = false ->
  exists s x, normal_form d s x /\ (decoded_value v == dy s x)%Q /\
    exponent_field v d = (if s <? 2 ^ (precision d - 1) then 0 else x + (precision d - 1) + exponent_bias d) /\
    significand_field v d = (if s <? 2 ^ (precision d - 1) then s else stored_of d s).
Proof.
  intros [(Hd & Hw & Hc) Hf] Hps. pose proof (descriptor_ok _ _ Hd) as Hok.
  destruct (field_ranges d Hok v) as [We Wm]. unfold pseudo_denormal in Hps.
  unfold is_finite, classify, decoded_value in *. rewrite (decode_spec v d Hd Hw Hc) in *.
  set (e := exponent_field v d) in *. set (m := significand_field v d) in *.
  pose proof (pow2_pos (precision d - 1) ltac:(destruct Hok; lia)) as Hp1.
  pose proof (pow2_succ (precision d - 1) ltac:(destruct Hok; lia)) as Hp.
  replace (precision d - 1 + 1) with (precision d) in Hp by lia.
  pose proof (pow2_lt (precision d) 128 ltac:(destruct Hok; lia)) as H128.
  assert (word (precision d) m) as Wp.
  { apply (word_mono (significand_storage_bits d)); [|done]. rewrite (dk_significand d Hok).
    pose proof (dk_precision d Hok). destruct (explicit_integer_bit d); lia. }
  unfold word in We, Wp. unfold decode_fields in *.
  destruct (e =? 2 ^ exponent_bits d - 1) eqn:E1.
  { exfalso. destruct (_ && _)%bool in Hf; [done|]. destruct (_ =? 0) in Hf; [done|]. by destruct (_ <=? _) in Hf. }
  destruct (Z.eqb_spec e 0) as [E0|E0].
  - cbn [andb] in Hps. apply Z.leb_gt in Hps. exists m, (min_subnormal_exponent d).
    split; [split; [lia|split; [lia|by left]]|]. rewrite (proj2 (Z.ltb_lt _ _)) by done.
    split; [|by rewrite E0]. destruct (Z.eqb_spec m 0) as [->|]; cbn [significand exponent bval].
    + by rewrite !dy_0.
    + by rewrite of_u128_bval by (unfold word; lia).
  - assert (exists s, 2 ^ (precision d - 1) <= s < 2 ^ precision d /\ stored_of d s = m /\
      (explicit_integer_bit d && (m <? 2 ^ (precision d - 1)))%bool = false /\
      s = (if explicit_integer_bit d then m else m + 2 ^ (precision d - 1))) as (s & Hs & Hst & Hex & Es).
    { unfold stored_of. destruct (explicit_integer_bit d) eqn:Ex; cbn [andb] in *.
      - exists m. destruct (Z.ltb_spec m (2 ^ (precision d - 1))); [done|]. split; [lia|done].
      - assert (m < 2 ^ (precision d - 1)) as Hm.
        { destruct Hok as [_ K _ _ _ _]. rewrite Ex in K. rewrite K in Wm. apply Wm. }
        exists (m + 2 ^ (precision d - 1)). split; [lia|]. split; [|done].
        symmetry. apply Z.mod_unique with 1; lia. }
    rewrite Hex. cbn [significand exponent]. rewrite <- Es, of_u128_bval by (unfold word; lia).
    exists s, (e - exponent_bias d - (precision d - 1)). split.
    { split; [lia|]. unfold min_subnormal_exponent, min_normal_exponent. split; [lia|right; lia]. }
    split; [reflexivity|]. rewrite (proj2 (Z.ltb_ge _ _)) by lia. split; [lia|done].
Qed.

Lemma encodes_inj f d neg q v w :
  descriptor f = Some d -> encodes f neg q v -> encodes f neg q w ->
  pseudo_denormal d v = false -> pseudo_denormal d w = false -> v = w.
Proof.
  intros Hd Hv Hw Pv Pw. pose proof (descriptor_ok _ _ Hd) as Hok.
  destruct (encodes_operand f d neg q v Hd Hv) as (Ov & Sv & _).
  destruct (encodes_operand f d neg q w Hd Hw) as (Ow & Sw & _).
  destruct (operand_normal_form d v Ov Pv) as (s & x & N1 & E1 & F1 & G1).
  destruct (operand_normal_form d w Ow Pw) as (t & y & N2 & E2 & F2 & G2).
  destruct Hv as (_ & W1 & C1 & _ & Ng1 & Q1). destruct Hw as (_ & W2 & C2 & _ & Ng2 & Q2).
  destruct (normal_form_unique d s x t y Hok N1 N2) as [-> ->]; [by rewrite <- E1, <- E2, Q1, Q2|].
  rewrite (decode_negative v d (proj1 Ov)) in Ng1. rewrite (decode_negative w d (proj1 Ow)) in Ng2.
  apply value_ext; [done|done|by rewrite Sv, Sw|].
  assert (forall u, words_ok u -> canonical u = true -> semantics u = f ->
    raw_bits u = compose d (sign_field u d) (exponent_field u d) (significand_field u d)) as Hc.
  { intros u Wu Cu Su. apply raw_bits_compose; [done|done|]. rewrite (canonical_eq u d) in Cu by (by rewrite ?Su).
    by apply Z.ltb_lt. }
  rewrite !Hc by done. by rewrite Ng1, Ng2, F1, F2, G1, G2.
Qed.

(** [round_rational], [zero] and so on never build a pseudo-denormal. *)
Lemma pseudo_denormal_from_raw f d neg e m :
  descriptor f = Some d -> word (exponent_bits d) e -> word (significand_storage_bits d) m ->
  (e = 0 -> m < 2 ^ (precision d - 1)) -> pseudo_denormal d (from_raw f (compose d neg e m)) = false.
Proof.
  intros Hd We Wm H. destruct (from_raw_compose f d neg e m Hd We Wm) as (_ & _ & _ & _ & _ & E1 & E2).
  unfold pseudo_denormal. rewrite E1, E2. destruct (Z.eqb_spec e 0) as [E|E]; [|done]. apply Z.leb_gt. by apply H.
Qed.

Lemma round_rational_not_pseudo f d control neg num den e :
  descriptor f = Some d -> wf num -> wf den -> 0 < bval num -> 0 < bval den ->
  pseudo_denormal d (value (round_rational neg num den e f control)) = false.
Proof.
  intros Hd Hn Hde Pn Pd. pose proof (descriptor_ok _ _ Hd) as Hok.
  assert (forall m, word (significand_storage_bits d) m ->
    pseudo_denormal d (from_raw f (compose d neg (2 ^ exponent_bits d - 1) m)) = false) as Hmax.
  { intros m Hm. apply pseudo_denormal_from_raw; [done|apply word_ones; destruct Hok; lia|done|].
    intros E. pose proof (pow2_le 1 (exponent_bits d) ltac:(destruct Hok; lia)) as H1. change (2 ^ 1) with 2 in H1. lia. }
  assert (forall y t, min_normal_exponent d <= y <= max_normal_exponent d ->
    2 ^ (precision d - 1) <= t < 2 ^ precision d -> pseudo_denormal d (from_raw f (pack_rounded d neg true y t)) = false) as Hnorm.
  { intros y t Hy Ht. destruct (pack_normal d neg y t Hok Hy Ht) as (-> & We & _).
    pose proof (exponent_field_bound d y Hok Hy).
    apply pseudo_denormal_from_raw; [done|done|apply stored_word; [done|]|lia].
    pose proof (pow2_pos (precision d - 1) ltac:(destruct Hok; lia)). lia. }
  assert (forall y t, 0 <= t < 2 ^ (precision d - 1) ->
    pseudo_denormal d (from_raw f (pack_rounded d neg false y t)) = false) as Hsub.
  { intros y t Ht. destruct (pack_subnormal d neg y t Hok Ht) as (-> & Wt & _).
    apply pseudo_denormal_from_raw; [done|apply word_0; destruct Hok; lia|done|lia]. }
  destruct (round_rational_shape f d control neg num den e Hd Hn Hde Pn Pd)
    as [->|[(y & t & Hy & Ht & ->)|(y & t & Ht & ->)]]; [|by apply Hnorm|by apply Hsub].
  assert (pseudo_denormal d (infinity f neg) = false) as Hinf.
  { destruct (infinity_compose f d neg Hd) as (-> & _ & Wm). by apply Hmax. }
  assert (pseudo_denormal d (maximum_finite f neg) = false) as Hfin.
  { rewrite (maximum_finite_pack f d neg Hd). pose proof (emin_le_emax f d Hd).
    pose proof (pow2_succ (precision d - 1) ltac:(destruct Hok; lia)) as Hp2.
    replace (precision d - 1 + 1) with (precision d) in Hp2 by lia.
    pose proof (pow2_le 1 (precision d - 1) ltac:(destruct Hok; lia)) as Hp1. change (2 ^ 1) with 2 in Hp1.
    apply Hnorm; lia. }
  unfold overflow_result. cbn [value]. by destruct (rounding control), neg.
Qed.

Lemma implicit_not_pseudo d v :
  operand d v -> explicit_integer_bit d = false -> pseudo_denormal d v = false.
Proof.
  intros [(Hd & _) _] Ex. pose proof (descriptor_ok _ _ Hd) as Hok. destruct (field_ranges d Hok v) as [_ Wm].
  unfold pseudo_denormal. rewrite (proj2 (Z.leb_gt _ _)); [apply andb_false_r|].
  destruct Hok as [_ K _ _ _ _]. rewrite Ex in K. rewrite K in Wm. apply Wm.
Qed.

(** [d'] represents every number of [d]. *)
Definition widens (d d' : FloatFormatDescriptor) : Prop :=
  precision d <= precision d' /\ min_subnormal_exponent d' <= min_subnormal_exponent d /\
  max_normal_exponent d <= max_normal_exponent d'.

Lemma widens_representable d d' q :
  widens d d' -> desc_ok d -> representable d q -> representable d' q.
Proof.
  intros (H1 & H2 & _) Hok (m & x & Hm & Hx & E). exists m, x.
  pose proof (pow2_le (precision d) (precision d') ltac:(destruct Hok; lia)).
  split; [lia|]. split; [lia|done].
Qed.

(** Widening loses nothing. Converting a finite value to a format with at
    least its precision and range is exact and raises no flag, in any mode, and
    converting back, again in any mode, gives the same number exactly; for the
    formats with a hidden integer bit it gives back the same bits. *)
Theorem convert_widen_narrow d d' v format c1 c2 :
  operand d v -> descriptor format = Some d' -> widens d d' ->
  let w := value (convert v format c1) in
  returns_exactly format (negative (decode v)) (decoded_value v) (convert v format c1) /\
  returns_exactly (semantics v) (negative (decode v)) (decoded_value v) (convert w (semantics v) c2) /\
  (explicit_integer_bit d = false -> value (convert w (semantics v) c2) = v).
Proof.
  intros Hv Hd' Hw w. pose proof (proj1 (proj1 Hv)) as Hd. pose proof (descriptor_ok _ _ Hd) as Hok.
  pose proof (operand_representable d v Hv) as Hrep. pose proof (operand_below d v Hv) as Hlt.
  assert (returns_exactly format (negative (decode v)) (decoded_value v) (convert v format c1)) as H1.
  { apply (rounds_result_exact d' _ c1); [by apply (widens_representable d)| |by apply (convert_spec d)].
    eapply Qlt_le_trans; [exact Hlt|]. apply q2_le. destruct Hw as (_ & _ & ?). lia. }
  split; [done|]. pose proof (proj2 (proj2 H1)) as Hen. fold w in Hen.
  destruct (encodes_operand format d' _ _ w Hd' Hen) as (Ow & Sw & _).
  destruct Hen as (_ & _ & _ & _ & Hneg & Hval).
  assert (returns_exactly (semantics v) (negative (decode v)) (decoded_value v) (convert w (semantics v) c2)) as H2.
  { rewrite <- Hneg. apply (rounds_result_exact d _ c2); [done|done|].
    apply (rounds_result_proper _ _ _ _ (decoded_value w)); [done|]. by apply (convert_spec d'). }
  split; [done|]. intros Ex. destruct H2 as (_ & _ & H2).
  apply (encodes_inj (semantics v) d (negative (decode v)) (decoded_value v)); [done|done|by apply (operand_encodes d)| |].
  - apply implicit_not_pseudo; [|done]. by destruct (encodes_operand _ d _ _ _ Hd H2) as [? _].
  - by apply implicit_not_pseudo.
Qed.

Lemma convert_widen_narrow_witness :
  let v := mkFloat IEEEBinary16 0x8001 0 in
  value (convert (value (convert v IEEEBinary128 default_control)) IEEEBinary16 default_control) = v.
Proof.
  refine (proj2 (proj2 (convert_widen_narrow (mkDescriptor 16 11 10 5 15 false) (mkDescriptor 128 113 112 15 16383 false)
    (mkFloat IEEEBinary16 0x8001 0) IEEEBinary128 default_control default_control _ eq_refl _)) eq_refl).
  - concrete.
  - vm_compute. repeat split; discriminate.
Defined.

(** ** Scaling by a power of two *)

Lemma leading_exponent_ge num e x :
  wf num -> 0 < bval num -> (q2 x <= magnitude num (of_u128 1) e)%Q -> x <= leading_exponent num (of_u128 1) e.
Proof.
  intros Wn Pn H. destruct (leading_exponent_spec num (of_u128 1) e Wn (of_u128_wf 1 ltac:(done)) Pn) as [_ L];
    [by rewrite of_u128_bval|].
  assert (x < leading_exponent num (of_u128 1) e + 1); [|lia]. apply q2_lt. by eapply Qle_lt_trans.
Qed.

Lemma leading_exponent_lt num e x :
  wf num -> 0 < bval num -> (magnitude num (of_u128 1) e < q2 x)%Q -> leading_exponent num (of_u128 1) e < x.
Proof.
  intros Wn Pn H. destruct (leading_exponent_spec num (of_u128 1) e Wn (of_u128_wf 1 ltac:(done)) Pn) as [L _];
    [by rewrite of_u128_bval|].
  apply q2_lt. by eapply Qle_lt_trans.
Qed.

Lemma exponent_bounds d : desc_ok d ->
  -20000 <= min_subnormal_exponent d /\ max_normal_exponent d <= 20000.
Proof.
  intros Hok. pose proof (bias_bounds d Hok). rewrite (max_normal_eq d Hok).
  unfold min_subnormal_exponent, min_normal_exponent. destruct Hok; lia.
Qed.

Lemma scale_spec d v n control :
  operand d v ->
  rounds_result d (semantics v) control (negative (decode v)) (decoded_value v * q2 n)
    (scale_by_power_of_two v n control).
Proof.
  intros Hv. pose proof (proj1 (proj1 Hv)) as Hd. pose proof (descriptor_ok _ _ Hd) as Hok.
  pose proof (operand_shape d v Hv) as [Hw _]. pose proof (exponent_bounds d Hok) as Hb.
  pose proof (operand_range d v Hv) as Hr.
  unfold scale_by_power_of_two. destruct (operand_classes d v Hv) as (-> & -> & ->).
  rewrite !orb_false_r, (class_zero_eqb d) by done.
  destruct (Z.eqb_spec (bval (significand (decode v))) 0) as [E|E].
  { apply (rounds_result_proper _ _ _ _ (decoded_value v)); [|by apply (convert_spec d)].
    assert (decoded_value v == 0)%Q as -> by (unfold decoded_value; rewrite E; apply dy_0). ring. }
  set (num := significand (decode v)) in *. set (x := exponent (decode v)).
  assert (0 < bval num) as Pn by lia.
  pose proof (operand_exponent d v Hv E) as Hx. fold x in Hx.
  assert (magnitude num (of_u128 1) (x + n) == decoded_value v * q2 n)%Q as Em.
  { rewrite magnitude_one. unfold decoded_value, dy. fold num x. rewrite q2_add. ring. }
  apply (rounds_result_proper _ _ _ _ (magnitude num (of_u128 1) (x + n))); [done|].
  pose proof (operand_below d v Hv) as Hlt.
  rewrite Z.gtb_ltb. destruct (Z.ltb_spec 1000000 n).
  - apply (round_huge _ d Hd); [done|by apply of_u128_wf|done|by rewrite of_u128_bval|].
    apply Z.lt_le_trans with (x + n); [lia|]. apply leading_exponent_ge; [done|done|].
    rewrite magnitude_one, <- dy_1. apply dy_le. lia.
  - destruct (Z.ltb_spec n (-1000000)).
    + apply (round_tiny _ d Hd); [done|by apply of_u128_wf|done|by rewrite of_u128_bval|].
      apply Z.lt_le_trans with (max_normal_exponent d + 1 + n); [|lia].
      apply leading_exponent_lt; [done|done|]. rewrite Em, q2_add.
      apply Qmult_lt_r; [apply q2_pos|done].
    + apply round_rational_spec; [done|done|by apply of_u128_wf|done|by rewrite of_u128_bval].
Qed.

(** scaling a finite value by 2^n is correctly rounded for every integer
    [n]; the shortcuts for |n| > 1000000 give what the rounding would. *)
Theorem scale_by_power_of_two_correct d v n control :
  operand d v ->
  rounds_result d (semantics v) control (negative (decode v)) (decoded_value v * q2 n)
    (scale_by_power_of_two v n control).
Proof. exact (@scale_spec d v n control). Qed.

Lemma scale_by_power_of_two_correct_witness :
  rounds_result (mkDescriptor 64 53 52 11 1023 false) IEEEBinary64 default_control true
    (decoded_value (mkFloat IEEEBinary64 0xBFF8000000000001 0) * q2 (-1073))
    (scale_by_power_of_two (mkFloat IEEEBinary64 0xBFF8000000000001 0) (-1073) default_control).
Proof.
  exact (scale_by_power_of_two_correct (mkDescriptor 64 53 52 11 1023 false)
    (mkFloat IEEEBinary64 0xBFF8000000000001 0) (-1073) default_control ltac:(concrete)).
Defined.

(** ** Comparison *)

(** A number or a signed infinity. *)
Inductive extended := NegInfinity | Finite (q : Q) | PosInfinity.

Definition extended_compare (a b : extended) : comparison :=
  match a, b with
  | NegInfinity, NegInfinity | PosInfinity, PosInfinity => Eq
  | NegInfinity, _ | _, PosInfinity => Lt
  | PosInfinity, _ | _, NegInfinity => Gt
  | Finite x, Finite y => (x ?= y)%Q
  end.

(** What a value that is neither NaN nor malformed denotes. *)
Definition denoted (v : FloatValue) : extended :=
  if is_infinity v then (if negative (decode v) then NegInfinity else PosInfinity)
  else Finite (signed_value v).

Definition result_of (c : comparison) : CompareResult :=
  match c with Lt => Less | Eq => Equal | Gt => Greater end.

Definition ordered (d : FloatFormatDescriptor) (v : FloatValue) : Prop :=
  well_formed d v /\ (is_finite v = true \/ is_infinity v = true).

Lemma Qcompare_of_lt x y : (x < y)%Q -> (x ?= y)%Q = Lt.
Proof. apply Qlt_alt. Qed.

Lemma Qcompare_of_gt x y : (y < x)%Q -> (x ?= y)%Q = Gt.
Proof. apply Qgt_alt. Qed.

Lemma result_of_sign (neg : bool) c :
  (let o := if neg then - sign_of c else sign_of c in
   if o <? 0 then Less else if o >? 0 then Greater else Equal)
  = result_of (if neg then CompOpp c else c).
Proof. by destruct neg, c. Qed.

Lemma Qcompare_opp x y : (- x ?= - y)%Q = CompOpp (x ?= y)%Q.
Proof.
  destruct (Qcompare_spec x y) as [E|L|L]; simpl.
  - apply Qeq_alt. by rewrite E.
  - apply Qcompare_of_gt. lra.
  - apply Qcompare_of_lt. lra.
Qed.

(** Finite values of the same sign, not both zero. *)
Lemma magnitude_compare_spec d lhs rhs :
  operand d lhs -> operand d rhs ->
  magnitude_compare (decode lhs) (decode rhs) = sign_of (decoded_value lhs ?= decoded_value rhs)%Q.
Proof.
  intros Hl Hr. unfold magnitude_compare. destruct (operand_classes d lhs Hl) as (_ & -> & _).
  destruct (operand_classes d rhs Hr) as (_ & -> & _). cbn [orb].
  destruct (operand_shape d lhs Hl) as [Wl _]. destruct (operand_shape d rhs Hr) as [Wr _].
  rewrite !(class_zero_eqb d) by done.
  destruct (bval (significand (decode lhs)) =? 0) eqn:Zl, (bval (significand (decode rhs)) =? 0) eqn:Zr; cbn [orb].
  - pose proof (zero_value_dy d lhs Hl Zl) as ->. pose proof (zero_value_dy d rhs Hr Zr) as ->.
    assert (classification (decode lhs) = Zero) as -> by (apply (operand_zero d lhs Hl); by apply Z.eqb_eq).
    assert (classification (decode rhs) = Zero) as -> by (apply (operand_zero d rhs Hr); by apply Z.eqb_eq). done.
  - pose proof (zero_value_dy d lhs Hl Zl) as ->. destruct (operand_pos d rhs Hr Zr) as [Pr Qr].
    rewrite Qcompare_of_lt by done. unfold class_eqb. rewrite bool_decide_eq_false_2; [done|].
    intros E. rewrite (proj2 (operand_zero d lhs Hl)) in E by (by apply Z.eqb_eq).
    symmetry in E. apply (operand_zero d rhs Hr) in E. lia.
  - pose proof (zero_value_dy d rhs Hr Zr) as ->. destruct (operand_pos d lhs Hl Zl) as [Pl Ql].
    rewrite Qcompare_of_gt by done. unfold class_eqb. rewrite bool_decide_eq_false_2; [done|].
    intros E. rewrite (proj2 (operand_zero d rhs Hr)) in E by (by apply Z.eqb_eq).
    apply (operand_zero d lhs Hl) in E. lia.
  - by apply compare_scaled_spec.
Qed.

Lemma compare_guards d lhs rhs :
  ordered d lhs -> ordered d rhs -> semantics lhs = semantics rhs ->
  compare lhs rhs =
    let left := decode lhs in
    let right := decode rhs in
    if class_eqb (classification left) Zero && class_eqb (classification right) Zero
    then mkCompare Equal 0 Error_None
    else if negb (Bool.eqb (negative left) (negative right))
    then mkCompare (if negative left then Less else Greater) 0 Error_None
    else mkCompare (let o := if negative left then - magnitude_compare left right else magnitude_compare left right in
                    if o <? 0 then Less else if o >? 0 then Greater else Equal) 0 Error_None.
Proof.
  intros [_ Hl] [_ Hr] Hs. unfold compare, format_eqb. rewrite (bool_decide_eq_true_2 _ Hs).
  unfold is_finite, is_infinity, classify in *. cbn [negb].
  destruct (classification (decode lhs)), (classification (decode rhs)); try done; simpl in *; destruct Hl, Hr; done.
Qed.

Lemma compare_finite d lhs rhs :
  operand d lhs -> operand d rhs -> semantics lhs = semantics rhs ->
  compare lhs rhs = mkCompare (result_of (signed_value lhs ?= signed_value rhs)%Q) 0 Error_None.
Proof.
  intros Hl Hr Hs. rewrite (compare_guards d); [|split; [apply Hl|left; apply Hl]|split; [apply Hr|left; apply Hr]|done].
  cbv zeta. rewrite (magnitude_compare_spec d) by done.
  pose proof (operand_nonneg d lhs Hl) as Nl. pose proof (operand_nonneg d rhs Hr) as Nr.
  pose proof (zero_value_dy d lhs Hl) as Vl. pose proof (zero_value_dy d rhs Hr) as Vr.
  pose proof (operand_pos d lhs Hl) as Pl. pose proof (operand_pos d rhs Hr) as Pr.
  rewrite !(class_zero_eqb d) by done. unfold signed_value.
  destruct (bval (significand (decode lhs)) =? 0) eqn:Zl, (bval (significand (decode rhs)) =? 0) eqn:Zr; cbn [andb];
    repeat match goal with
    | H : true = true -> _ |- _ => specialize (H eq_refl)
    | H : false = false -> _ |- _ => specialize (H eq_refl)
    end.
  { assert ((if negative (decode lhs) then - decoded_value lhs else decoded_value lhs) == 0)%Q as -> by (destruct (negative (decode lhs)); lra).
    assert ((if negative (decode rhs) then - decoded_value rhs else decoded_value rhs) == 0)%Q as -> by (destruct (negative (decode rhs)); lra).
    done. }
  all: destruct (negative (decode lhs)) eqn:Nel, (negative (decode rhs)) eqn:Ner; cbn [Bool.eqb negb].
  all: try (rewrite Qcompare_of_lt by lra; reflexivity).
  all: try (rewrite Qcompare_of_gt by lra; reflexivity).
  all: try (f_equal; rewrite Qcompare_opp; apply (result_of_sign true)).
  all: f_equal; apply (result_of_sign false).
Qed.

(** Claim C30: comparison. Two values of one format that are not NaN compare as the
    numbers they denote, the infinities below and above every number and the two
    zeros equal, and no flag is raised. *)
Theorem compare_correct d lhs rhs :
  ordered d lhs -> ordered d rhs -> semantics lhs = semantics rhs ->
  compare lhs rhs =
    mkCompare (result_of (extended_compare (denoted lhs) (denoted rhs))) 0 Error_None.
Proof.
  intros Hl Hr Hs. unfold denoted.
  destruct (is_infinity lhs) eqn:Il, (is_infinity rhs) eqn:Ir.
  - rewrite (compare_guards d) by done. unfold is_infinity, class_eqb, magnitude_compare, classify in *.
    apply bool_decide_eq_true in Il, Ir. rewrite Il, Ir. by destruct (negative (decode lhs)), (negative (decode rhs)).
  - rewrite (compare_guards d) by done. destruct Hr as [_ [Hr|Hr]]; [|by rewrite Hr in Ir].
    unfold is_finite, is_infinity, magnitude_compare, classify in *.
    apply bool_decide_eq_true in Il. rewrite Il.
    destruct (classification (decode rhs)); try done; by destruct (negative (decode lhs)), (negative (decode rhs)).
  - rewrite (compare_guards d) by done. destruct Hl as [_ [Hl|Hl]]; [|by rewrite Hl in Il].
    unfold is_finite, is_infinity, magnitude_compare, classify in *.
    apply bool_decide_eq_true in Ir. rewrite Ir.
    destruct (classification (decode lhs)); try done; by destruct (negative (decode lhs)), (negative (decode rhs)).
  - apply (compare_finite d); [| |done].
    + destruct Hl as [? [?|Hl]]; [done|by rewrite Hl in Il].
    + destruct Hr as [? [?|Hr]]; [done|by rewrite Hr in Ir].
Qed.

Lemma compare_correct_witness :
  compare (mkFloat IEEEBinary64 0xFFF0000000000000 0) (mkFloat IEEEBinary64 0x8000000000000000 0)
  = mkCompare Less 0 Error_None.
Proof.
  refine (compare_correct (mkDescriptor 64 53 52 11 1023 false) (mkFloat IEEEBinary64 0xFFF0000000000000 0)
    (mkFloat IEEEBinary64 0x8000000000000000 0) _ _ eq_refl);
    (split; [concrete|vm_compute; tauto]).
Defined.

(** Comparisons without an answer. *)
Lemma compare_unordered lhs rhs :
  (semantics lhs <> semantics rhs -> compare lhs rhs = mkCompare Unordered 0 FormatMismatch) /\
  (semantics lhs = semantics rhs -> classify lhs = Class_Invalid \/ classify rhs = Class_Invalid ->
   compare lhs rhs = mkCompare Unordered 0 InvalidEncoding) /\
  (semantics lhs = semantics rhs -> classify lhs <> Class_Invalid -> classify rhs <> Class_Invalid ->
   is_nan lhs || is_nan rhs = true ->
   compare lhs rhs = mkCompare Unordered
     (if class_eqb (classify lhs) SignalingNaN || class_eqb (classify rhs) SignalingNaN
      then flagged Flag_Invalid else 0) Error_None).
Proof.
  unfold compare, format_eqb, is_nan, classify. split; [|split].
  - intros Hs. by rewrite bool_decide_eq_false_2.
  - intros Hs Hi. rewrite bool_decide_eq_true_2 by done. cbn [negb].
    destruct Hi as [-> | ->]; [done|]. by rewrite orb_true_r.
  - intros Hs Il Ir Hn. rewrite bool_decide_eq_true_2 by done. cbn [negb].
    destruct (classification (decode lhs)), (classification (decode rhs)); try done.
Qed.

(** ** Integers *)

(** The integer the low [w] bits denote. *)
Definition integer_of (w : Z) (is_signed : bool) (bits : Z) : Z :=
  if is_signed then swrap w bits else uwrap w bits.

(** The range of the type. *)
Definition integer_min (w : Z) (is_signed : bool) : Z := if is_signed then - 2 ^ (w - 1) else 0.
Definition integer_max (w : Z) (is_signed : bool) : Z := if is_signed then 2 ^ (w - 1) - 1 else 2 ^ w - 1.

(** Truncation toward zero of a signed magnitude. *)
Definition truncated (v : FloatValue) : Z :=
  let m := Qfloor (decoded_value v) in
  if negative (decode v) then - m else m.

Lemma negate_bits w m : 0 < w <= 128 -> 0 <= m < 2 ^ w -> Z.land (u128 (unot 128 m + 1)) (low_mask w) = (- m) mod 2 ^ w.
Proof.
  intros Hw Hm. rewrite land_low_mask by lia. pose proof (pow2_le w 128 ltac:(lia)).
  rewrite unot_eq by (unfold word; lia). unfold uwrap.
  rewrite Z.mod_mod_divide by (exists (2 ^ (128 - w)); rewrite <- Z.pow_add_r by lia; f_equal; lia).
  replace (2 ^ 128 - 1 - m + 1) with (- m + 1 * 2 ^ 128) by lia. replace (2 ^ 128) with (2 ^ (128 - w) * 2 ^ w)
    by (rewrite <- Z.pow_add_r by lia; f_equal; lia).
  rewrite Z.mul_assoc, Z.mod_add; [done|]. pose proof (pow2_pos w). lia.
Qed.

Lemma floor_unique q k : (inject_Z k <= q)%Q -> (q < inject_Z (k + 1))%Q -> Qfloor q = k.
Proof.
  intros H1 H2. pose proof (Qfloor_le q) as F1. pose proof (Qlt_floor q) as F2.
  pose proof (Qle_lt_trans _ _ _ H1 F2) as A. pose proof (Qle_lt_trans _ _ _ F1 H2) as B.
  rewrite <- Zlt_Qlt in A, B. lia.
Qed.

Lemma inject_dy k : (inject_Z k == dy k 0)%Q.
Proof. unfold dy. rewrite q2_0. ring. Qed.

Lemma floor_dy m x :
  0 <= m ->
  Qfloor (dy m x) = (if 0 <=? x then m * 2 ^ x else m / 2 ^ (- x)) /\
  ((dy m x == inject_Z (Qfloor (dy m x)))%Q <-> (0 <= x \/ m mod 2 ^ (- x) = 0)).
Proof.
  intros Hm. destruct (Z.leb_spec 0 x) as [L|L].
  - assert (dy m x == inject_Z (m * 2 ^ x))%Q as E by (rewrite inject_dy, <- dy_shift by done; reflexivity).
    assert (Qfloor (dy m x) = m * 2 ^ x) as F.
    { apply floor_unique; rewrite E; [apply Qle_refl|]. rewrite <- Zlt_Qlt. lia. }
    split; [done|]. rewrite F. split; [by left|done].
  - pose proof (pow2_pos (- x) ltac:(lia)) as Hp. pose proof (Z.div_mod m (2 ^ (- x)) ltac:(lia)) as Em.
    pose proof (Z.mod_pos_bound m (2 ^ (- x)) Hp) as Hr.
    set (k := m / 2 ^ (- x)) in *. set (r := m mod 2 ^ (- x)) in *.
    assert (forall j, inject_Z j == dy (j * 2 ^ (- x)) x)%Q as Ej.
    { intros j. rewrite inject_dy. pose proof (dy_lower j 0 x ltac:(lia)) as E.
      by replace (0 - x) with (- x) in E by lia. }
    assert (Qfloor (dy m x) = k) as F.
    { apply floor_unique; rewrite Ej; [apply dy_le|apply dy_lt]; lia. }
    split; [done|]. rewrite F, Ej, dy_eq. lia.
Qed.

(** The integer part of a finite value, as the code computes it. *)
Lemma to_integer_magnitude d v :
  operand d v ->
  let '(magnitude, discarded) :=
    if exponent (decode v) >=? 0
    then (shifted_left (significand (decode v)) (exponent (decode v)), false)
    else shifted_right (significand (decode v)) (- exponent (decode v)) in
  wf magnitude /\ bval magnitude = Qfloor (decoded_value v) /\
  (discarded = false <-> (decoded_value v == inject_Z (Qfloor (decoded_value v)))%Q).
Proof.
  intros Hv. pose proof (operand_shape d v Hv) as [Hw _]. pose proof (operand_range d v Hv) as Hr.
  unfold decoded_value. set (m := significand (decode v)) in *. set (x := exponent (decode v)).
  destruct (floor_dy (bval m) x ltac:(lia)) as [F1 F2]. rewrite Z.geb_leb.
  destruct (Z.leb_spec 0 x) as [L|L]; cbv zeta beta iota.
  - rewrite F2, F1. split; [by apply shifted_left_wf|]. split; [by apply shifted_left_bval|].
    split; [by left|done].
  - destruct (shifted_right_spec m (- x) Hw ltac:(lia)) as (S1 & S2 & S3).
    destruct (shifted_right m (- x)) as [a b]. simpl in S1, S2, S3. rewrite F2, F1. split; [done|]. split; [done|].
    rewrite S3, negb_false_iff, Z.eqb_eq. split; [by right|]. intros [?|?]; [lia|done].
Qed.

(** The range test of [to_integer]. *)
Lemma to_integer_range w (is_signed neg : bool) magnitude :
  0 < w <= 128 -> wf magnitude ->
  (if is_signed then
     (negb neg && (BigUInt.compare magnitude (BigUInt.subtract (of_u128 (u128 (Z.shiftl 1 (w - 1)))) (of_u128 1)) >? 0)) ||
     (neg && (BigUInt.compare magnitude (of_u128 (u128 (Z.shiftl 1 (w - 1)))) >? 0))
   else
     (neg && negb (BigUInt.is_zero magnitude)) ||
     (BigUInt.compare magnitude (of_u128 (low_mask w)) >? 0))%bool = false <->
  integer_min w is_signed <= signed neg (bval magnitude) <= integer_max w is_signed.
Proof.
  intros Hw Wm. pose proof (wf_nonneg magnitude Wm) as Hm. unfold integer_min, integer_max.
  pose proof (pow2_pos (w - 1) ltac:(lia)) as P1. pose proof (pow2_pos w ltac:(lia)) as P2.
  pose proof (pow2_le w 128 ltac:(lia)) as P3. pose proof (pow2_lt (w - 1) 128 ltac:(lia)) as P4.
  assert (forall b, wf b -> (BigUInt.compare magnitude b >? 0) = (bval b <? bval magnitude)) as Hc.
  { intros b Hb. rewrite BigUInt.compare_spec by done.
    destruct (Z.compare_spec (bval magnitude) (bval b)); simpl; symmetry;
      [apply Z.ltb_ge|apply Z.ltb_ge|apply Z.ltb_lt]; lia. }
  assert (word 128 1) as W1 by done.
  destruct is_signed.
  - rewrite u128_shiftl_1 by lia. assert (word 128 (2 ^ (w - 1))) as Wl by (unfold word; lia).
    assert (bval (of_u128 1) <= bval (of_u128 (2 ^ (w - 1)))) as Hle by (rewrite !of_u128_bval by done; lia).
    rewrite !Hc by (apply subtract_wf || apply of_u128_wf; (done || by apply of_u128_wf)).
    rewrite subtract_bval, !of_u128_bval by (done || by apply of_u128_wf).
    destruct neg; cbn [negb andb orb signed]; rewrite ?orb_false_r, Z.ltb_ge; lia.
  - rewrite low_mask_eq by lia. assert (word 128 (2 ^ w - 1)) as Wl by (unfold word; lia).
    rewrite Hc by (by apply of_u128_wf). rewrite of_u128_bval, BigUInt.is_zero_spec by done.
    rewrite orb_false_iff, Z.ltb_ge. destruct neg; cbn [andb signed].
    + rewrite negb_false_iff, Z.eqb_eq. lia.
    + split; [lia|]. intros ?. split; [done|lia].
Qed.

Lemma to_integer_spec d v w is_signed :
  well_formed d v -> classify v <> Class_Invalid -> 0 < w <= 128 ->
  (is_finite v = true -> integer_min w is_signed <= truncated v <= integer_max w is_signed ->
   exists inexact : bool, to_integer v w is_signed
     = mkInteger (truncated v mod 2 ^ w) (if inexact then flagged Inexact else 0) Error_None /\
     (inexact = false <-> (decoded_value v == inject_Z (Qfloor (decoded_value v)))%Q)) /\
  (is_finite v = false \/ ~ (integer_min w is_signed <= truncated v <= integer_max w is_signed) ->
   integer_error (to_integer v w is_signed) = IntegerOutOfRange /\
   status_has (integer_status (to_integer v w is_signed)) Flag_Invalid = true).
Proof.
  intros Hv Hcl Hw. unfold to_integer.
  rewrite (proj2 (Z.eqb_neq w 0)), Z.gtb_ltb, (proj2 (Z.ltb_ge 128 w)) by lia. cbn [orb].
  assert (class_eqb (classification (decode v)) Class_Invalid = false) as -> by by apply bool_decide_eq_false_2.
  destruct (is_finite v) eqn:Ef.
  2: { assert (class_eqb (classification (decode v)) Infinity || is_nan_class (classification (decode v)) = true)%bool as ->.
       { unfold is_finite, classify in *. destruct (classification (decode v)); done. }
       split; [done|]. done. }
  assert (operand d v) as Ho by done. destruct (operand_classes d v Ho) as (_ & -> & ->). cbn [orb].
  pose proof (to_integer_magnitude d v Ho) as Hmag.
  destruct (if exponent (decode v) >=? 0 then (_, _) else _) as [magnitude discarded].
  destruct Hmag as (Wm & Em & Ed).
  pose proof (to_integer_range w is_signed (negative (decode v)) magnitude Hw Wm) as Hrange.
  assert (signed (negative (decode v)) (bval magnitude) = truncated v) as Et.
  { unfold truncated, signed. by rewrite Em. }
  rewrite Et in Hrange. cbv zeta.
  match goal with |- context [if ?b then mkInteger 0 (status_set _ _) _ else _] => destruct b eqn:Eo end.
  - split; [intros _ H; by apply Hrange in H|]. intros _. split; [done|]. by destruct discarded.
  - split; [|intros [?|H]; [done|exfalso; by apply H, Hrange]]. intros _ H. exists discarded. split; [|done].
    f_equal. pose proof (wf_nonneg magnitude Wm) as H0.
    pose proof (pow2_pos (w - 1) ltac:(lia)) as P1. pose proof (pow2_succ (w - 1) ltac:(lia)) as P2.
    replace (w - 1 + 1) with w in P2 by lia. pose proof (pow2_le w 128 ltac:(lia)) as P3.
    assert (bval magnitude < 2 ^ w) as Hb.
    { rewrite <- Et in H. unfold integer_min, integer_max, signed in H.
      destruct is_signed, (negative (decode v)); lia. }
    rewrite to_u128_small by (apply wf_words in Wm; (done || lia)).
    rewrite land_low_mask by lia. rewrite Z.mod_small by lia. rewrite <- Et. unfold signed.
    destruct (negative (decode v)); cbn [andb]; [|by rewrite Z.mod_small by lia].
    destruct (Z.eqb_spec (bval magnitude) 0) as [->|]; cbn [negb]; [by rewrite Z.mod_0_l by lia|].
    apply negate_bits; lia.
Qed.

(** Claim C22: conversion to an integer truncates toward zero. A finite value whose
    integer part fits the width and signedness gives that integer in two's
    complement, with Inexact exactly when a fraction was dropped; every other
    finite value gives IntegerOutOfRange with the Invalid flag, and so do
    infinities and NaNs. *)
Theorem to_integer_correct d v w is_signed :
  well_formed d v -> classify v <> Class_Invalid -> 0 < w <= 128 ->
  (is_finite v = true -> integer_min w is_signed <= truncated v <= integer_max w is_signed ->
   exists inexact : bool, to_integer v w is_signed
     = mkInteger (truncated v mod 2 ^ w) (if inexact then flagged Inexact else 0) Error_None /\
     (inexact = false <-> (decoded_value v == inject_Z (Qfloor (decoded_value v)))%Q)) /\
  (is_finite v = false \/ ~ (integer_min w is_signed <= truncated v <= integer_max w is_signed) ->
   integer_error (to_integer v w is_signed) = IntegerOutOfRange /\
   status_has (integer_status (to_integer v w is_signed)) Flag_Invalid = true).
Proof. exact (@to_integer_spec d v w is_signed). Qed.

Lemma to_integer_correct_witness :
  exists inexact : bool,
    to_integer (mkFloat IEEEBinary64 0xC004000000000000 0) 8 true
    = mkInteger 0xFE (if inexact then flagged Inexact else 0) Error_None.
Proof.
  destruct (proj1 (to_integer_correct (mkDescriptor 64 53 52 11 1023 false)
    (mkFloat IEEEBinary64 0xC004000000000000 0) 8 true ltac:(concrete) ltac:(vm_compute; discriminate)
    ltac:(concrete)) eq_refl ltac:(vm_compute; split; discriminate)) as (inexact & H & _).
  exists inexact. exact H.
Defined.

(** ** From integers *)

Lemma from_integer_unfold f d w (is_signed : bool) bits control :
  descriptor f = Some d -> 0 < w <= 128 ->
  let z := integer_of w is_signed bits in
  from_integer bits w is_signed f control
  = round_rational (z <? 0) (of_u128 (Z.abs z)) (of_u128 1) 0 f control /\ Z.abs z <= 2 ^ w - 1.
Proof.
  intros Hd Hw z. unfold from_integer. rewrite Hd.
  rewrite (proj2 (Z.eqb_neq w 0)), Z.gtb_ltb, (proj2 (Z.ltb_ge 128 w)) by lia. cbn [orb]. cbv zeta.
  pose proof (pow2_pos (w - 1) ltac:(lia)) as P1. pose proof (pow2_succ (w - 1) ltac:(lia)) as P2.
  replace (w - 1 + 1) with w in P2 by lia.
  rewrite (land_low_mask bits) by lia. set (b := bits mod 2 ^ w).
  assert (0 <= b < 2 ^ w) as Hb by (apply Z.mod_pos_bound; lia).
  rewrite u128_shiftl_1 by lia. rewrite testbit_pow_mask by (unfold word; lia).
  assert (z = if is_signed then (if b <? 2 ^ (w - 1) then b else b - 2 ^ w) else b) as -> by (by destruct is_signed).
  destruct is_signed; cbn [andb].
  - destruct (Z.leb_spec (2 ^ (w - 1)) b) as [L|L].
    + rewrite negate_bits by lia. rewrite (proj2 (Z.ltb_ge b _)) by lia.
      rewrite (proj2 (Z.ltb_lt (b - 2 ^ w) 0)) by lia.
      split; [|lia]. do 2 f_equal. replace (- b) with (2 ^ w - b + (-1) * 2 ^ w) by lia.
      rewrite Z.mod_add by lia. rewrite Z.mod_small by lia. lia.
    + rewrite (proj2 (Z.ltb_lt b _)) by lia. rewrite (proj2 (Z.ltb_ge b 0)) by lia.
      split; [|lia]. do 2 f_equal. lia.
  - rewrite (proj2 (Z.ltb_ge b 0)) by lia. split; [|lia]. do 2 f_equal. lia.
Qed.

Lemma from_integer_spec f d w (is_signed : bool) bits control :
  descriptor f = Some d -> 0 < w <= 128 ->
  let z := integer_of w is_signed bits in
  rounds_result d f control (z <? 0) (inject_Z (Z.abs z)) (from_integer bits w is_signed f control).
Proof.
  intros Hd Hw z. destruct (from_integer_unfold f d w is_signed bits control Hd Hw) as [-> Hz]. fold z in Hz |- *.
  pose proof (descriptor_ok _ _ Hd) as Hok. pose proof (pow2_le w 128 ltac:(lia)).
  assert (word 128 (Z.abs z)) as W by (unfold word; lia).
  apply (rounds_result_proper _ _ _ _ (dy (Z.abs z) 0)); [by rewrite inject_dy|].
  destruct (Z.eq_dec z 0) as [E|E].
  - rewrite E. cbn [Z.ltb Z.abs Z.compare].
    rewrite (round_rational_zero f d) by (done || apply wf_nil).
    apply (rounds_result_proper _ _ _ _ 0); [by rewrite dy_0|].
    apply exact_rounds_result; [|apply q2_pos|by apply (encodes_zero _ d)].
    exists 0, (min_subnormal_exponent d). split; [split; [lia|apply pow2_pos; destruct Hok; lia]|].
    split; [lia|]. symmetry. apply dy_0.
  - rewrite <- (of_u128_bval (Z.abs z)) at 1 by done.
    apply round_integer; [done|by apply of_u128_wf|]. rewrite of_u128_bval by done. lia.
Qed.

(** conversion from an integer is correctly rounded: the low [w] bits are
    read in two's complement or unsigned, and their value is rounded in every
    mode; zero is the positive zero. *)
Theorem from_integer_correct f d w (is_signed : bool) bits control :
  descriptor f = Some d -> 0 < w <= 128 ->
  let z := integer_of w is_signed bits in
  rounds_result d f control (z <? 0) (inject_Z (Z.abs z)) (from_integer bits w is_signed f control).
Proof. exact (@from_integer_spec f d w is_signed bits control). Qed.

Lemma from_integer_correct_witness :
  rounds_result (mkDescriptor 32 24 23 8 127 false) IEEEBinary32 default_control true
    (inject_Z (2 ^ 127)) (from_integer (2 ^ 127) 128 true IEEEBinary32 default_control).
Proof.
  exact (from_integer_correct IEEEBinary32 (mkDescriptor 32 24 23 8 127 false) 128 true (2 ^ 127)
    default_control eq_refl ltac:(concrete)).
Defined.

Lemma precision_in_range f d :
  descriptor f = Some d -> precision d <= max_normal_exponent d + 1 /\ min_subnormal_exponent d <= 0.
Proof. destruct f; intros [= <-]; vm_compute; split; discriminate. Qed.

Lemma integer_of_range w (is_signed : bool) bits :
  0 < w -> integer_min w is_signed <= integer_of w is_signed bits <= integer_max w is_signed.
Proof.
  intros Hw. unfold integer_of, integer_min, integer_max. destruct is_signed.
  - pose proof (swrap_range w bits Hw). lia.
  - pose proof (uwrap_range w bits ltac:(lia)). lia.
Qed.

Lemma integer_of_mod w (is_signed : bool) bits :
  0 < w -> integer_of w is_signed bits mod 2 ^ w = bits mod 2 ^ w.
Proof.
  intros Hw. pose proof (pow2_pos w ltac:(lia)). unfold integer_of, swrap, uwrap.
  destruct is_signed; [|by apply Zmod_mod]. destruct (_ <? _); [by apply Zmod_mod|].
  replace (bits mod 2 ^ w - 2 ^ w) with (bits mod 2 ^ w + (-1) * 2 ^ w) by lia.
  rewrite Z.mod_add by lia. apply Zmod_mod.
Qed.

(** Integers no wider than the precision survive the round trip:
    [from_integer] is exact on them and [to_integer] gives back the same bits,
    signed or not, in every format and rounding mode, without any flag. *)
Theorem integer_round_trip f d w (is_signed : bool) bits control :
  descriptor f = Some d -> 0 < w -> w <= precision d ->
  no_flags (status (from_integer bits w is_signed f control)) /\
  to_integer (value (from_integer bits w is_signed f control)) w is_signed
  = mkInteger (bits mod 2 ^ w) 0 Error_None.
Proof.
  intros Hd Hw Hp. pose proof (descriptor_ok _ _ Hd) as Hok. destruct (precision_in_range f d Hd) as [R1 R2].
  assert (0 < w <= 128) as Hw' by (destruct Hok; lia).
  set (z := integer_of w is_signed bits).
  assert (Z.abs z <= 2 ^ w - 1) as Hz by (by destruct (from_integer_unfold f d w is_signed bits control Hd Hw')).
  pose proof (pow2_le w (precision d) ltac:(lia)) as Hpw.
  assert (returns_exactly f (z <? 0) (inject_Z (Z.abs z)) (from_integer bits w is_signed f control)) as (H1 & H2 & H3).
  { apply (rounds_result_exact d _ control); [| |by apply from_integer_spec].
    - exists (Z.abs z), 0. split; [lia|]. split; [done|apply inject_dy].
    - rewrite inject_dy. apply Qlt_le_trans with (dy (2 ^ precision d) 0); [apply dy_lt; lia|].
      rewrite dy_pow2 by (destruct Hok; lia). apply q2_le. lia. }
  split; [done|]. set (v := value _) in *.
  destruct (encodes_operand f d _ _ v Hd H3) as (Ho & _ & _). destruct H3 as (_ & _ & _ & Hf & Hneg & Hval).
  assert (Qfloor (decoded_value v) = Z.abs z) as Hfl.
  { apply floor_unique; rewrite Hval; [apply Qle_refl|]. rewrite <- Zlt_Qlt. lia. }
  assert (truncated v = z) as Ht.
  { unfold truncated. rewrite Hfl, Hneg. destruct (Z.ltb_spec z 0); lia. }
  destruct (to_integer_spec d v w is_signed (proj1 Ho)) as [Hto _]; [|done|].
  { destruct Ho as [_ Hf']. intros E. unfold is_finite in Hf'. by rewrite E in Hf'. }
  destruct (Hto Hf) as (inexact & -> & Hi); [rewrite Ht; by apply integer_of_range|].
  rewrite Ht. unfold z. rewrite integer_of_mod by done.
  assert (inexact = false) as ->; [|done]. apply Hi. rewrite Hfl, Hval. reflexivity.
Qed.

Lemma integer_round_trip_witness :
  to_integer (value (from_integer 0xFFFF8001 32 true IEEEBinary64 default_control)) 32 true
  = mkInteger 0xFFFF8001 0 Error_None.
Proof.
  exact (proj2 (integer_round_trip IEEEBinary64 (mkDescriptor 64 53 52 11 1023 false) 32 true 0xFFFF8001
    default_control eq_refl eq_refl ltac:(vm_compute; discriminate))).
Defined.
