(* ===== verification/FloatComplex.v ===== *)
(** * Complex multiplication and division (complex_multiply, complex_divide of
    src/numeric/floating_point.cpp)

    The two functions thread the accumulated status and the first error through
    every elementary operation, by lambdas that capture both by reference: a
    small state monad here. Arguments of nested calls are evaluated from left to
    right (the order is unspecified in C++; only the merged status could see it,
    and merging commutes). Proved: every operation on proper values of a format
    is defined, the products of representable parts are exact, and a product
    with an infinite factor is infinite (C Annex G). *)
From S2P Require Import Prelude BigUInt FloatValue Dyadic Rounding FloatSpecial FloatArith FloatConvert.
Open Scope Z_scope.

(** ** The code *)

Record ComplexFloatValue := mkComplex { real : FloatValue; imag : FloatValue }.

Definition complex_valid (v : ComplexFloatValue) : bool :=
  valid (real v) && valid (imag v) && format_eqb (semantics (real v)) (semantics (imag v)).

Record ComplexFloatResult := mkComplexResult {
  complex_value : ComplexFloatValue;
  complex_status : Z;
  complex_error : FloatError;
}.

(** The status and error the lambdas capture. *)
Definition Flags : Type := Z * FloatError.
Definition Calc (A : Type) : Type := Flags -> A * Flags.

Definition ret {A} (a : A) : Calc A := fun s => (a, s).
Definition bind {A B} (m : Calc A) (k : A -> Calc B) : Calc B := fun s => let '(a, s) := m s in k a s.

Declare Scope calc_scope.
Delimit Scope calc_scope with calc.
Notation "x <-- m ;; k" := (bind m (fun x => k)) (at level 60, m at next level, right associativity) : calc_scope.
Open Scope calc_scope.

Definition no_error (e : FloatError) : bool := bool_decide (e = Error_None).

(** Merge the outcome of one operation into the captured variables. *)
Definition record (r : FloatResult) : Calc FloatValue := fun '(st, er) =>
  (value r, (status_merge st (status r), if negb (has_value r) && no_error er then error r else er)).

Section Code.
Context (control : FloatControl).

Definition calculate (op : BinaryOperation) (left right : FloatValue) : Calc FloatValue :=
  record (binary op left right control).

Definition scale (v : FloatValue) (exponent : Z) : Calc FloatValue :=
  record (scale_by_power_of_two v exponent control).

Definition evaluate (left right : ComplexFloatValue) : Calc ComplexFloatValue :=
  ac <-- calculate Multiply (real left) (real right) ;;
  bd <-- calculate Multiply (imag left) (imag right) ;;
  ad <-- calculate Multiply (real left) (imag right) ;;
  bc <-- calculate Multiply (imag left) (real right) ;;
  re <-- calculate Subtract ac bd ;;
  im <-- calculate Add ad bc ;;
  ret (mkComplex re im).

(** [signed_unit_or_zero] and [boxed]: a signed one for an infinity and a signed
    zero for anything else. *)
Definition signed_unit_or_zero (format : FloatFormat) (v : FloatValue) : FloatValue :=
  let magnitude := if is_infinity v then value (from_integer 1 1 false format default_control)
                   else zero format false in
  if is_negative v then negate magnitude else magnitude.

Definition box (format : FloatFormat) (v : ComplexFloatValue) : ComplexFloatValue :=
  mkComplex (signed_unit_or_zero format (real v)) (signed_unit_or_zero format (imag v)).

(** A NaN becomes a zero of its sign. *)
Definition nan_to_zero (format : FloatFormat) (v : FloatValue) : FloatValue :=
  if is_nan v then zero format (is_negative v) else v.

Definition nans_to_zero (format : FloatFormat) (v : ComplexFloatValue) : ComplexFloatValue :=
  mkComplex (nan_to_zero format (real v)) (nan_to_zero format (imag v)).

Definition has_infinity (v : ComplexFloatValue) : bool := is_infinity (real v) || is_infinity (imag v).

Definition both_nan (v : ComplexFloatValue) : bool := is_nan (real v) && is_nan (imag v).

(** The check at the start of both functions. *)
Definition operands_error (lhs rhs : ComplexFloatValue) : option FloatError :=
  if negb (complex_valid lhs) || negb (complex_valid rhs) ||
     negb (format_eqb (semantics (real lhs)) (semantics (real rhs)))
  then Some (if complex_valid lhs && complex_valid rhs then FormatMismatch else InvalidEncoding)
  else None.

Definition complex_invalid (e : FloatError) : ComplexFloatResult :=
  mkComplexResult (mkComplex invalid_value invalid_value) 0 e.

Definition complex_multiply (lhs rhs : ComplexFloatValue) : ComplexFloatResult :=
  match operands_error lhs rhs with
  | Some e => complex_invalid e
  | None =>
    let format := semantics (real lhs) in
    let '(v, (st, er)) := evaluate lhs rhs (0, Error_None) in
    if negb (no_error er) || negb (both_nan v) then mkComplexResult v st er
    else
    let '(lhs, rhs, recalculate) :=
      if has_infinity lhs then (box format lhs, nans_to_zero format rhs, true)
      else (lhs, rhs, false) in
    let '(lhs, rhs, recalculate) :=
      if has_infinity rhs then (nans_to_zero format lhs, box format rhs, true)
      else (lhs, rhs, recalculate) in
    let '(lhs, rhs, recalculate) :=
      if negb recalculate then
        let '(overflowed, _) :=
          (ac <-- calculate Multiply (real lhs) (real rhs) ;;
           bd <-- calculate Multiply (imag lhs) (imag rhs) ;;
           ad <-- calculate Multiply (real lhs) (imag rhs) ;;
           bc <-- calculate Multiply (imag lhs) (real rhs) ;;
           ret (is_infinity ac || is_infinity bd || is_infinity ad || is_infinity bc)) (0, Error_None) in
        if overflowed then (nans_to_zero format lhs, nans_to_zero format rhs, true)
        else (lhs, rhs, recalculate)
      else (lhs, rhs, recalculate) in
    if negb recalculate then mkComplexResult v st er
    else
    let '(v, (st, er)) :=
      (finite <-- evaluate lhs rhs ;;
       re <-- calculate Multiply (infinity format false) (real finite) ;;
       im <-- calculate Multiply (infinity format false) (imag finite) ;;
       ret (mkComplex re im)) (0, Error_None) in
    mkComplexResult v st er
  end.

(** [magnitude_exponent]: the exponent of the leading bit. *)
Definition magnitude_exponent (v : DecodedFloat) : Z :=
  if class_eqb (classification v) Zero then - 2 ^ 63
  else exponent v + BigUInt.bit_width (significand v) - 1.

(** [finite_denominator] and [finite_numerator]. *)
Definition finite_parts (x y : DecodedFloat) : bool :=
  negb (class_eqb (classification x) Class_Invalid) && negb (class_eqb (classification y) Class_Invalid) &&
  negb (is_nan_class (classification x)) && negb (is_nan_class (classification y)) &&
  negb (class_eqb (classification x) Infinity) && negb (class_eqb (classification y) Infinity).

(** Scale both parts of an operand that is finite and not zero so that the
    larger has exponent zero; the exponent taken out. *)
Definition scale_operand (v : ComplexFloatValue) : Calc (ComplexFloatValue * Z) :=
  let x := decode (real v) in
  let y := decode (imag v) in
  if finite_parts x y &&
     (negb (class_eqb (classification x) Zero) || negb (class_eqb (classification y) Zero)) then
    let scale_exponent := Z.max (magnitude_exponent x) (magnitude_exponent y) in
    re <-- scale (real v) (- scale_exponent) ;;
    im <-- scale (imag v) (- scale_exponent) ;;
    ret (mkComplex re im, scale_exponent)
  else ret (v, 0).

(** (ac + bd) * by and (bc - ad) * by, the last steps of the special cases. *)
Definition recovered (by_value : FloatValue) (lhs rhs : ComplexFloatValue) : Calc ComplexFloatValue :=
  ac <-- calculate Multiply (real lhs) (real rhs) ;;
  bd <-- calculate Multiply (imag lhs) (imag rhs) ;;
  sum <-- calculate Add ac bd ;;
  re <-- calculate Multiply by_value sum ;;
  bc <-- calculate Multiply (imag lhs) (real rhs) ;;
  ad <-- calculate Multiply (real lhs) (imag rhs) ;;
  difference <-- calculate Subtract bc ad ;;
  im <-- calculate Multiply by_value difference ;;
  ret (mkComplex re im).

(** The quotient before the special cases. *)
Definition divide_scaled (lhs rhs : ComplexFloatValue) (finite_denominator : bool) (result_scale : Z)
    : Calc ComplexFloatValue :=
  cc <-- calculate Multiply (real rhs) (real rhs) ;;
  dd <-- calculate Multiply (imag rhs) (imag rhs) ;;
  denominator <-- calculate Add cc dd ;;
  ac <-- calculate Multiply (real lhs) (real rhs) ;;
  bd <-- calculate Multiply (imag lhs) (imag rhs) ;;
  bc <-- calculate Multiply (imag lhs) (real rhs) ;;
  ad <-- calculate Multiply (real lhs) (imag rhs) ;;
  sum <-- calculate Add ac bd ;;
  re <-- calculate Divide sum denominator ;;
  difference <-- calculate Subtract bc ad ;;
  im <-- calculate Divide difference denominator ;;
  if finite_denominator && negb (result_scale =? 0) then
    re <-- scale re result_scale ;;
    im <-- scale im result_scale ;;
    ret (mkComplex re im)
  else ret (mkComplex re im).

Definition complex_divide (lhs rhs : ComplexFloatValue) : ComplexFloatResult :=
  match operands_error lhs rhs with
  | Some e => complex_invalid e
  | None =>
    let format := semantics (real lhs) in
    let finite_denominator := finite_parts (decode (real rhs)) (decode (imag rhs)) in
    let '((rhs, scale_exponent), flags) := scale_operand rhs (0, Error_None) in
    let '((lhs, numerator_scale_exponent), flags) := scale_operand lhs flags in
    let '(v, flags) :=
      divide_scaled lhs rhs finite_denominator (numerator_scale_exponent - scale_exponent) flags in
    let '(st, er) := flags in
    if negb (no_error er) || negb (both_nan v) then mkComplexResult v st er
    else
    let denominator_zero := is_zero (real rhs) && is_zero (imag rhs) in
    let numerator_has_number := negb (is_nan (real lhs)) || negb (is_nan (imag lhs)) in
    if denominator_zero && numerator_has_number then
      let '(v, (st, er)) :=
        (re <-- calculate Multiply (infinity format (is_negative (real rhs))) (real lhs) ;;
         im <-- calculate Multiply (infinity format (is_negative (real rhs))) (imag lhs) ;;
         ret (mkComplex re im)) flags in
      mkComplexResult v st er
    else if has_infinity lhs && finite_denominator then
      let '(v, (st, er)) := recovered (infinity format false) (box format lhs) rhs flags in
      mkComplexResult v st er
    else
    let numerator_finite := negb (is_infinity (real lhs)) && negb (is_infinity (imag lhs)) &&
                            negb (is_nan (real lhs)) && negb (is_nan (imag lhs)) in
    if has_infinity rhs && numerator_finite then
      let '(v, (st, er)) := recovered (zero format false) lhs (box format rhs) flags in
      mkComplexResult v st er
    else mkComplexResult v st er
  end.
End Code.

(** ** Every elementary operation is defined on proper values *)

(** A value of format [f] that is not malformed. *)
Definition proper (f : FloatFormat) (v : FloatValue) : Prop :=
  semantics v = f /\ words_ok v /\ canonical v = true /\ classify v <> Class_Invalid.

Definition proper_complex (f : FloatFormat) (v : ComplexFloatValue) : Prop :=
  proper f (real v) /\ proper f (imag v).

Section Proper.
Context (f : FloatFormat) (d : FloatFormatDescriptor) (Hd : descriptor f = Some d).

Lemma proper_well_formed v : proper f v -> well_formed d v.
Proof. intros (H1 & H2 & H3 & _). split; [by rewrite H1|done]. Qed.

Lemma well_formed_proper v c :
  well_formed d v -> semantics v = f -> classify v = c -> c <> Class_Invalid -> proper f v.
Proof. intros (H1 & H2 & H3) Hs Hc Hn. repeat (split; [done|]). by rewrite Hc. Qed.

(** A proper value is finite, infinite or NaN. *)
Lemma proper_cases v : proper f v -> operand d v \/ is_infinity v = true \/ is_nan v = true.
Proof.
  intros Hv. pose proof (proper_well_formed v Hv) as Hw. destruct Hv as (_ & _ & _ & Hc).
  unfold operand, is_finite, is_infinity, is_nan, classify in *.
  destruct (classification (decode v)); try done; [left|left|left|right; left|right; right|right; right]; done.
Qed.

Lemma encodes_proper_value neg q v : encodes f neg q v -> proper f v.
Proof.
  intros (H1 & H2 & H3 & H4 & _). repeat (split; [done|]). intros E. unfold is_finite in H4. by rewrite E in H4.
Qed.

Lemma operand_proper v : operand d v -> semantics v = f -> proper f v.
Proof. intros Hv Hs. pose proof (operand_encodes d v Hv) as H. rewrite Hs in H. by apply encodes_proper_value in H. Qed.

Lemma zero_proper neg : proper f (zero f neg).
Proof. by apply (encodes_proper_value neg 0%Q), (encodes_zero f d). Qed.

Lemma infinity_proper neg : proper f (infinity f neg).
Proof.
  destruct (decode_infinity f d neg Hd) as (E & Hw & Hs).
  apply (well_formed_proper _ Infinity); [done|done| |done]. unfold classify. by rewrite E.
Qed.

Lemma invalid_operation_proper : proper f (value (invalid_operation f)).
Proof.
  destruct (decode_make_nan f d false false [] Hd ltac:(constructor)) as (E & Hw & Hs).
  apply (well_formed_proper _ QuietNaN); [done|done| |done]. unfold classify. simpl value. by rewrite E.
Qed.

Lemma overflow_proper neg control : proper f (value (overflow_result f neg control)).
Proof.
  unfold overflow_result. cbn [value].
  assert (proper f (maximum_finite f neg)) as Hm
    by (eapply encodes_proper_value; by apply (maximum_finite_encodes f d)).
  pose proof (infinity_proper neg). destruct (rounding control), neg; assumption.
Qed.

Lemma negate_proper v : proper f v -> proper f (negate v).
Proof.
  intros Hv. destruct (negate_spec v d (proper_well_formed v Hv)) as (E & Hw & Hs).
  destruct Hv as (H1 & _ & _ & H4). apply (well_formed_proper _ (classify v)); [done|by rewrite Hs| |done].
  unfold classify. by rewrite E.
Qed.

(** What a caller needs of a result. *)
Definition defined (r : FloatResult) : Prop := error r = Error_None /\ proper f (value r).

Lemma rounds_result_defined control neg v r : rounds_result d f control neg v r -> defined r.
Proof.
  intros (q & _ & [[_ ->]|(_ & H & He & _)]).
  - split; [done|apply overflow_proper].
  - split; [done|]. by eapply encodes_proper_value.
Qed.

Lemma exact_defined v st : proper f v -> defined (mkResult v st Error_None).
Proof. intros H. by split. Qed.

Lemma infinite_result_defined op lhs rhs :
  proper f lhs -> proper f rhs -> defined (infinite_result op lhs rhs).
Proof.
  intros Hl Hr. destruct (Hl) as (Hs & _). unfold infinite_result. rewrite Hs.
  assert (defined (invalid_operation f)) as Hi by (split; [done|apply invalid_operation_proper]).
  destruct op; repeat case_match;
    first [exact Hi | apply exact_defined; first [apply infinity_proper | apply zero_proper | exact Hl]].
Qed.

(** The remainder is the one operation on finite operands that is not always a
    rounding: by zero it is invalid. *)
Lemma modulo_zero control lhs rhs :
  operand d lhs -> operand d rhs -> semantics lhs = semantics rhs -> (decoded_value rhs == 0)%Q ->
  binary Modulo lhs rhs control = invalid_operation (semantics lhs).
Proof.
  intros Hl Hr Hs Hz. cbn [binary]. unfold remainder_values.
  rewrite (proj2 (guarded_operands d lhs rhs Hl Hr Hs false _)).
  rewrite (class_zero_eqb d rhs Hr). apply (operand_zero_value d rhs Hr), (operand_zero d rhs Hr) in Hz.
  rewrite Hz. cbn [Z.eqb]. by rewrite orb_true_r.
Qed.

Lemma binary_finite_defined op lhs rhs control :
  operand d lhs -> operand d rhs -> semantics lhs = f -> semantics rhs = f ->
  defined (binary op lhs rhs control).
Proof.
  intros Hl Hr Sl Sr. assert (semantics lhs = semantics rhs) as Hs by by rewrite Sl, Sr.
  destruct op.
  - destruct (add_values_spec d lhs rhs false control Hl Hr Hs) as [[_ H]|[_ H]]; rewrite Sl in H.
    + rewrite H. apply exact_defined, zero_proper.
    + by apply rounds_result_defined in H.
  - destruct (add_values_spec d lhs rhs true control Hl Hr Hs) as [[_ H]|[_ H]]; rewrite Sl in H.
    + rewrite H. apply exact_defined, zero_proper.
    + by apply rounds_result_defined in H.
  - destruct (multiply_values_spec d lhs rhs control Hl Hr Hs) as [[_ H]|[_ H]]; rewrite Sl in H.
    + rewrite H. apply exact_defined, zero_proper.
    + by apply rounds_result_defined in H.
  - destruct (divide_values_spec d lhs rhs control Hl Hr Hs)
      as [(_ & _ & H)|[(_ & _ & H)|[(_ & _ & H)|(_ & _ & H)]]]; rewrite Sl in H.
    + rewrite H. split; [done|apply invalid_operation_proper].
    + rewrite H. apply exact_defined, infinity_proper.
    + rewrite H. apply exact_defined, zero_proper.
    + by apply rounds_result_defined in H.
  - destruct (Qeq_dec (decoded_value rhs) 0) as [E|E].
    + rewrite (modulo_zero control lhs rhs Hl Hr Hs E), Sl. split; [done|apply invalid_operation_proper].
    + destruct (remainder_values_spec d lhs rhs control Hl Hr Hs E) as (n & q & _ & _ & _ & _ & H1 & _ & H3).
      rewrite Sl in H3. split; [done|]. by eapply encodes_proper_value.
Qed.

Lemma operand_kinds v : operand d v -> is_infinity v = false /\ is_nan v = false.
Proof.
  intros Hv. destruct (operand_not_special d v Hv) as (_ & H1 & H2 & _).
  unfold is_infinity, is_nan, classify. split; [done|]. exact H1.
Qed.

Lemma binary_defined op lhs rhs control :
  proper f lhs -> proper f rhs -> defined (binary op lhs rhs control).
Proof.
  intros Hl Hr. assert (semantics lhs = semantics rhs) as Hs by (destruct Hl as [-> _], Hr as [-> _]; done).
  pose proof (proper_well_formed lhs Hl) as Wl. pose proof (proper_well_formed rhs Hr) as Wr.
  destruct (is_nan lhs || is_nan rhs) eqn:En.
  { destruct (binary_nan_spec d op lhs rhs control Wl Wr Hs) as (H1 & H2 & H3 & H4 & _); [apply Hl|apply Hr|done|].
    split; [done|]. apply (well_formed_proper _ QuietNaN); [done|rewrite H4; apply Hl|done|done]. }
  apply orb_false_iff in En as [Nl Nr]. destruct (is_infinity lhs || is_infinity rhs) eqn:Ei.
  { destruct (binary_special_cases op lhs rhs control) as (_ & _ & H).
    rewrite (H Hs (proj2 (proj2 (proj2 Hl))) (proj2 (proj2 (proj2 Hr))) Nl Nr Ei). by apply infinite_result_defined. }
  apply orb_false_iff in Ei as [Il Ir].
  apply binary_finite_defined; [| |apply Hl|apply Hr].
  - destruct (proper_cases lhs Hl) as [?|[E|E]]; [done|by rewrite E in Il|by rewrite E in Nl].
  - destruct (proper_cases rhs Hr) as [?|[E|E]]; [done|by rewrite E in Ir|by rewrite E in Nr].
Qed.

Lemma scale_defined v n control : proper f v -> defined (scale_by_power_of_two v n control).
Proof.
  intros Hv. destruct (proper_cases v Hv) as [Ho|Hs].
  { apply (rounds_result_defined control (negative (decode v)) (decoded_value v * q2 n)).
    rewrite <- (proj1 Hv). by apply scale_spec. }
  unfold scale_by_power_of_two, convert. rewrite (proj1 Hv), Hd.
  pose proof (proper_well_formed v Hv) as Hw.
  unfold is_infinity, is_nan, classify in Hs. destruct (classification (decode v)) eqn:E; try (by destruct Hs).
  - apply exact_defined, infinity_proper.
  - apply exact_defined. destruct (decode_payload v d Hw) as [Hp _].
    destruct (decode_make_nan f d (negative (decode v)) false (payload (decode v)) Hd Hp) as (E' & Hw' & Hs').
    apply (well_formed_proper _ QuietNaN); [done|done| |done]. unfold classify. by rewrite E'.
  - apply exact_defined. destruct (decode_payload v d Hw) as [Hp _].
    destruct (decode_make_nan f d (negative (decode v)) false (payload (decode v)) Hd Hp) as (E' & Hw' & Hs').
    apply (well_formed_proper _ QuietNaN); [done|done| |done]. unfold classify. by rewrite E'.
Qed.

(** *** Runs of the monad that record no error *)

Definition runs {A} (m : Calc A) (P : A -> Prop) : Prop :=
  forall st, exists a st', m (st, Error_None) = (a, (st', Error_None)) /\ P a.

Lemma runs_ret {A} (a : A) (P : A -> Prop) : P a -> runs (ret a) P.
Proof. intros H st. by exists a, st. Qed.

Lemma runs_bind {A B} (m : Calc A) (k : A -> Calc B) P Q :
  runs m P -> (forall a, P a -> runs (k a) Q) -> runs (bind m k) Q.
Proof.
  intros Hm Hk st. destruct (Hm st) as (a & st' & E & Ha). destruct (Hk a Ha st') as (b & st'' & E' & Hb).
  exists b, st''. unfold bind. by rewrite E.
Qed.

Lemma runs_record r : defined r -> runs (record r) (proper f).
Proof.
  intros [He Hv] st. exists (value r), (status_merge st (status r)). split; [|done]. unfold record.
  assert (has_value r = true) as ->; [|done]. unfold has_value, valid. rewrite He, (proj1 Hv).
  by destruct f.
Qed.

Lemma runs_calculate control op x y : proper f x -> proper f y -> runs (calculate control op x y) (proper f).
Proof. intros. by apply runs_record, binary_defined. Qed.

Lemma runs_scale control x n : proper f x -> runs (scale control x n) (proper f).
Proof. intros. by apply runs_record, scale_defined. Qed.

#[local] Hint Resolve runs_calculate runs_scale zero_proper infinity_proper negate_proper : core.

(** One step of a straight-line computation. *)
Ltac run_step :=
  match goal with
  | |- runs (bind _ _) _ => eapply runs_bind; [solve [eauto]|intros ? ?]
  | |- runs (ret _) _ => apply runs_ret
  end.

Lemma evaluate_runs control lhs rhs :
  proper_complex f lhs -> proper_complex f rhs -> runs (evaluate control lhs rhs) (proper_complex f).
Proof. intros [? ?] [? ?]. unfold evaluate. repeat run_step. by split. Qed.

Lemma recovered_runs control b lhs rhs :
  proper f b -> proper_complex f lhs -> proper_complex f rhs ->
  runs (recovered control b lhs rhs) (proper_complex f).
Proof. intros ? [? ?] [? ?]. unfold recovered. repeat run_step. by split. Qed.

Lemma divide_scaled_runs control lhs rhs b n :
  proper_complex f lhs -> proper_complex f rhs -> runs (divide_scaled control lhs rhs b n) (proper_complex f).
Proof.
  intros [? ?] [? ?]. unfold divide_scaled. repeat run_step. destruct (b && _); repeat run_step; by split.
Qed.

Lemma scale_operand_runs control v :
  proper_complex f v -> runs (scale_operand control v) (fun r => proper_complex f r.1).
Proof.
  intros [? ?]. unfold scale_operand. destruct (_ && _); repeat run_step; by split.
Qed.

Lemma signed_unit_proper v : proper f v -> proper f (signed_unit_or_zero f v).
Proof.
  intros _. unfold signed_unit_or_zero.
  assert (proper f (value (from_integer 1 1 false f default_control))) as H1.
  { apply (rounds_result_defined default_control _ _ _ (from_integer_spec f d 1 false 1 default_control Hd ltac:(lia))). }
  destruct (is_infinity v), (is_negative v); auto.
Qed.

Lemma nan_to_zero_proper v : proper f v -> proper f (nan_to_zero f v).
Proof. intros. unfold nan_to_zero. destruct (is_nan v); auto. Qed.

Lemma box_proper v : proper_complex f v -> proper_complex f (box f v).
Proof. intros [? ?]. split; by apply signed_unit_proper. Qed.

Lemma nans_proper v : proper_complex f v -> proper_complex f (nans_to_zero f v).
Proof. intros [? ?]. split; by apply nan_to_zero_proper. Qed.

Lemma operands_ok lhs rhs :
  proper_complex f lhs -> proper_complex f rhs -> operands_error lhs rhs = None.
Proof.
  intros [(L1 & _) (L2 & _)] [(R1 & _) (R2 & _)].
  unfold operands_error, complex_valid, valid, format_eqb. rewrite L1, L2, R1, R2.
  rewrite (bool_decide_eq_true_2 (f = f)) by done. by destruct f.
Qed.
End Proper.

(** The outcome of a function on proper operands. *)
Definition complex_defined (f : FloatFormat) (r : ComplexFloatResult) : Prop :=
  complex_error r = Error_None /\ proper_complex f (complex_value r).

Lemma run_defined f (m : Calc ComplexFloatValue) st :
  runs m (proper_complex f) ->
  complex_defined f (let '(v, (st, er)) := m (st, Error_None) in mkComplexResult v st er).
Proof. intros H. destruct (H st) as (v & st' & -> & Hv). done. Qed.

(** Complex multiplication is total. On proper parts of one format, NaNs
    and infinities included, no error is recorded on any path and both parts of
    the product are proper values of the format. *)
Theorem complex_multiply_defined f d control lhs rhs :
  descriptor f = Some d -> proper_complex f lhs -> proper_complex f rhs ->
  complex_defined f (complex_multiply control lhs rhs).
Proof.
  intros Hd Hl Hr. unfold complex_multiply. rewrite (operands_ok f d Hd lhs rhs Hl Hr).
  replace (semantics (real lhs)) with f by (symmetry; apply Hl).
  destruct (evaluate_runs f d Hd control lhs rhs Hl Hr 0) as (v & st & -> & Hv).
  cbn [no_error]. destruct (negb _ || _); [done|].
  set (stage1 := if has_infinity lhs then _ else _).
  assert (proper_complex f stage1.1.1 /\ proper_complex f stage1.1.2) as [H1 H2].
  { subst stage1. destruct (has_infinity lhs); [|done]. split; [by apply (box_proper f d)|by apply (nans_proper f d)]. }
  destruct stage1 as [[lhs1 rhs1] r1]. cbn [fst snd] in H1, H2.
  set (stage2 := if has_infinity rhs1 then _ else _).
  assert (proper_complex f stage2.1.1 /\ proper_complex f stage2.1.2) as [H3 H4].
  { subst stage2. destruct (has_infinity rhs1); [|done]. split; [by apply (nans_proper f d)|by apply (box_proper f d)]. }
  destruct stage2 as [[lhs2 rhs2] r2]. cbn [fst snd] in H3, H4.
  set (stage3 := if negb r2 then _ else _).
  assert (proper_complex f stage3.1.1 /\ proper_complex f stage3.1.2) as [H5 H6].
  { subst stage3. destruct (negb r2); [|done]. destruct (bind _ _ _) as [o s]. destruct o; [|done].
    split; by apply (nans_proper f d). }
  destruct stage3 as [[lhs3 rhs3] r3]. cbn [fst snd] in H5, H6.
  destruct (negb r3); [done|]. apply run_defined.
  apply (runs_bind _ _ (proper_complex f)); [by apply (evaluate_runs f d)|]. intros w [? ?].
  pose proof (infinity_proper f d Hd false).
  apply (runs_bind _ _ (proper f)); [by apply (runs_calculate f d)|]. intros x Hx.
  apply (runs_bind _ _ (proper f)); [by apply (runs_calculate f d)|]. intros y Hy.
  by apply runs_ret.
Qed.

(** Complex division is total. On proper parts of one format no error is
    recorded on any path, scaling and the special cases included, and both parts
    of the quotient are proper values of the format. *)
Theorem complex_divide_defined f d control lhs rhs :
  descriptor f = Some d -> proper_complex f lhs -> proper_complex f rhs ->
  complex_defined f (complex_divide control lhs rhs).
Proof.
  intros Hd Hl Hr. unfold complex_divide. rewrite (operands_ok f d Hd lhs rhs Hl Hr).
  replace (semantics (real lhs)) with f by (symmetry; apply Hl).
  destruct (scale_operand_runs f d Hd control rhs Hr 0) as ([rhs' n] & st1 & -> & Hr').
  destruct (scale_operand_runs f d Hd control lhs Hl st1) as ([lhs' k] & st2 & -> & Hl'). cbn [fst] in Hr', Hl'.
  match goal with |- context [divide_scaled control lhs' rhs' ?b ?m] =>
    destruct (divide_scaled_runs f d Hd control lhs' rhs' b m Hl' Hr' st2) as (v & st3 & -> & Hv) end.
  destruct (negb _ || _); [done|]. destruct (is_zero _ && _ && _).
  { apply run_defined. pose proof (infinity_proper f d Hd (is_negative (real rhs'))). destruct Hl' as [? ?].
    apply (runs_bind _ _ (proper f)); [by apply (runs_calculate f d)|]. intros x Hx.
    apply (runs_bind _ _ (proper f)); [by apply (runs_calculate f d)|]. intros y Hy. by apply runs_ret. }
  destruct (has_infinity lhs' && _).
  { apply run_defined, (recovered_runs f d); [done|by apply (infinity_proper f d)|by apply (box_proper f d)|done]. }
  destruct (has_infinity rhs' && _); [|done].
  apply run_defined, (recovered_runs f d); [done|by apply (zero_proper f d)|done|by apply (box_proper f d)].
Qed.

(** inf + NaN i over 0 + 1 i, a product through the recovery, and 1 + 2 i over
    0, as concrete instances. *)
Definition sample_infinite : ComplexFloatValue :=
  mkComplex (mkFloat IEEEBinary32 0x7F800000 0) (mkFloat IEEEBinary32 0x7FC00000 0).
Definition sample_finite : ComplexFloatValue :=
  mkComplex (mkFloat IEEEBinary32 0x3F800000 0) (mkFloat IEEEBinary32 0x40000000 0).

Lemma complex_multiply_defined_witness :
  complex_defined IEEEBinary32 (complex_multiply default_control sample_infinite sample_finite).
Proof.
  refine (complex_multiply_defined IEEEBinary32 (mkDescriptor 32 24 23 8 127 false) default_control
    sample_infinite sample_finite eq_refl _ _); concrete.
Defined.

Lemma complex_divide_defined_witness :
  complex_defined IEEEBinary32 (complex_divide default_control sample_finite sample_infinite).
Proof.
  refine (complex_divide_defined IEEEBinary32 (mkDescriptor 32 24 23 8 127 false) default_control
    sample_finite sample_infinite eq_refl _ _); concrete.
Defined.

(** ** Products with an infinite factor *)

(** The values [evaluate] computes, whatever the flags. *)
Definition product_value (control : FloatControl) (l r : ComplexFloatValue) : ComplexFloatValue :=
  let mul x y := value (binary Multiply x y control) in
  mkComplex (value (binary Subtract (mul (real l) (real r)) (mul (imag l) (imag r)) control))
            (value (binary Add (mul (real l) (imag r)) (mul (imag l) (real r)) control)).

Lemma evaluate_value control l r s : (evaluate control l r s).1 = product_value control l r.
Proof. by destruct s. Qed.

Definition infinite_or_nan (v : FloatValue) : Prop := is_infinity v = true \/ is_nan v = true.

(** Neither NaN, and not both zero. *)
Definition nonzero_pair (x y : FloatValue) : Prop :=
  ~ ((signed_value x == 0)%Q /\ (signed_value y == 0)%Q).

Section Infinite.
Context (f : FloatFormat) (d : FloatFormatDescriptor) (Hd : descriptor f = Some d).
Context (control : FloatControl).

Lemma infinite_not_nan v : is_infinity v = true -> is_nan v = false.
Proof. unfold is_infinity, is_nan. by destruct (classify v). Qed.

Lemma decoded_infinity neg : decode (infinity f neg) = mkDecoded Infinity neg [] [] 0.
Proof. by destruct (decode_infinity f d neg Hd). Qed.

(** An infinite operand of a sum, difference or product. *)
Lemma binary_infinite op x y :
  proper f x -> proper f y -> is_infinity x = true \/ is_infinity y = true ->
  match op with Add | Subtract | Multiply => infinite_or_nan (value (binary op x y control)) | _ => True end.
Proof.
  intros Hx Hy Hi. assert (semantics x = semantics y) as Hs by (destruct Hx as [-> _], Hy as [-> _]; done).
  destruct op; try done.
  all: destruct (is_nan x || is_nan y) eqn:En.
  all: try (match goal with |- infinite_or_nan (value (binary ?op _ _ _)) =>
    destruct (binary_nan_spec d op x y control (proper_well_formed f d Hd x Hx) (proper_well_formed f d Hd y Hy) Hs)
      as (_ & _ & H & _); [apply Hx|apply Hy|done|right; unfold is_nan; by rewrite H] end).
  all: apply orb_false_iff in En as [Nx Ny].
  all: match goal with |- infinite_or_nan (value (binary ?op _ _ _)) =>
    destruct (binary_special_cases op x y control) as (_ & _ & H);
    rewrite (H Hs (proj2 (proj2 (proj2 Hx))) (proj2 (proj2 (proj2 Hy))) Nx Ny ltac:(by destruct Hi as [-> | ->]; rewrite ?orb_true_r)) end.
  all: unfold infinite_result; rewrite (proj1 Hx).
  all: assert (infinite_or_nan (value (invalid_operation f))) as Hnan
    by (right; unfold is_nan, classify; simpl value;
        by destruct (decode_make_nan f d false false [] Hd ltac:(constructor)) as (-> & _)).
  all: assert (forall b, infinite_or_nan (infinity f b)) as Hinf
    by (intros b; left; unfold is_infinity, classify; by rewrite decoded_infinity).
  all: repeat case_match; first [exact Hnan | apply Hinf].
Qed.

Lemma infinite_nan_binary op x y :
  match op with Add | Subtract | Multiply => True | _ => False end ->
  proper f x -> proper f y -> infinite_or_nan x \/ infinite_or_nan y ->
  infinite_or_nan (value (binary op x y control)).
Proof.
  intros Hop Hx Hy Hi. assert (semantics x = semantics y) as Hs by (destruct Hx as [-> _], Hy as [-> _]; done).
  destruct (is_nan x || is_nan y) eqn:En.
  - destruct (binary_nan_spec d op x y control (proper_well_formed f d Hd x Hx) (proper_well_formed f d Hd y Hy) Hs)
      as (_ & _ & H & _); [apply Hx|apply Hy|done|right; unfold is_nan; by rewrite H].
  - apply orb_false_iff in En as [Nx Ny].
    assert (is_infinity x = true \/ is_infinity y = true) as Hi'.
    { destruct Hi as [[?|E]|[?|E]]; [by left|by rewrite E in Nx|by right|by rewrite E in Ny]. }
    pose proof (binary_infinite op x y Hx Hy Hi') as H. by destruct op.
Qed.

(** Both parts of a product with an infinite factor are infinite or NaN. *)
Lemma product_infinite l r :
  proper_complex f l -> proper_complex f r -> has_infinity l = true \/ has_infinity r = true ->
  infinite_or_nan (real (product_value control l r)) /\ infinite_or_nan (imag (product_value control l r)).
Proof.
  intros [L1 L2] [R1 R2] Hi. unfold product_value. cbn [real imag].
  assert (forall x y, proper f x -> proper f y -> proper f (value (binary Multiply x y control))) as Hm.
  { intros x y Hx Hy. by destruct (binary_defined f d Hd Multiply x y control Hx Hy). }
  assert (forall x y, proper f x -> proper f y -> is_infinity x = true \/ is_infinity y = true ->
    infinite_or_nan (value (binary Multiply x y control))) as Hmi.
  { intros x y Hx Hy H. exact (binary_infinite Multiply x y Hx Hy H). }
  unfold has_infinity in Hi. rewrite !orb_true_iff in Hi.
  split; apply infinite_nan_binary; auto; destruct Hi as [[?|?]|[?|?]]; auto.
Qed.

(** *** Finite products that are exact *)

Lemma signed_value_abs v : operand d v -> (Qabs (signed_value v) == decoded_value v)%Q.
Proof.
  intros Hv. pose proof (operand_nonneg d v Hv). unfold signed_value.
  destruct (negative (decode v)); [rewrite Qabs_opp|]; by apply Qabs_pos.
Qed.

(** A product by a factor of magnitude at most one that is 0 or 1. *)
Lemma multiply_unit x y :
  operand d x -> operand d y -> semantics x = f -> semantics y = f ->
  (decoded_value x == 0)%Q \/ (decoded_value x == 1)%Q \/ (decoded_value y == 0)%Q \/ (decoded_value y == 1)%Q ->
  let r := value (binary Multiply x y control) in
  operand d r /\ semantics r = f /\ (signed_value r == signed_value x * signed_value y)%Q.
Proof.
  intros Hx Hy Sx Sy Hu r. assert (semantics x = semantics y) as Hs by by rewrite Sx, Sy.
  set (neg := xorb (negative (decode x)) (negative (decode y))).
  assert (encodes f neg (decoded_value x * decoded_value y) r) as He.
  { subst r. destruct (multiply_values_spec d x y control Hx Hy Hs) as [[E ->]|[P H]]; rewrite Sx in *.
    - apply (encodes_proper _ _ 0); [by symmetry|]. by apply (encodes_zero f d).
    - assert (representable d (decoded_value x * decoded_value y) /\
              (decoded_value x * decoded_value y < overflow_threshold d)%Q) as [H1 H2].
      { pose proof (operand_representable d x Hx) as (m & e & ? & ? & Em). pose proof (operand_below d x Hx).
        pose proof (operand_representable d y Hy) as (n & g & ? & ? & En). pose proof (operand_below d y Hy).
        assert ((decoded_value x * decoded_value y == decoded_value x)%Q \/
                (decoded_value x * decoded_value y == decoded_value y)%Q) as [E|E].
        { destruct Hu as [E|[E|[E|E]]]; [left|right|right|left]; rewrite E; ring. }
        - split; [exists m, e; split; [done|split; [done|by rewrite E]]|by rewrite E].
        - split; [exists n, g; split; [done|split; [done|by rewrite E]]|by rewrite E]. }
      by destruct (rounds_result_exact d f control neg _ _ H1 H2 H) as (_ & _ & ?). }
  destruct (encodes_operand f d neg _ r Hd He) as (H1 & H2 & H3). split; [done|]. split; [done|].
  rewrite H3. unfold neg, signed_value. destruct (negative (decode x)), (negative (decode y)); simpl; ring.
Qed.

(** Rounding never takes a number that is at least the least subnormal to zero. *)
Lemma rounds_to_nonzero mode neg v q :
  (q2 (min_subnormal_exponent d) <= v)%Q -> rounds_to d mode neg v q -> ~ (q == 0)%Q.
Proof.
  intros Hv [_ H] E. pose proof (q2_pos (min_subnormal_exponent d)) as Hp.
  set (g := q2 (min_subnormal_exponent d)) in *.
  assert (representable d g) as Hg.
  { exists 1, (min_subnormal_exponent d). pose proof (descriptor_ok _ _ Hd) as Hok.
    pose proof (pow2_le 1 (precision d) ltac:(destruct Hok; lia)) as H1. change (2 ^ 1) with 2 in H1.
    split; [lia|]. split; [lia|]. by rewrite dy_1. }
  assert (nearest d v q -> False) as Hn.
  { intros Hn. specialize (Hn g Hg). rewrite E in Hn.
    rewrite (Qabs_neg (0 - v)), (Qabs_neg (g - v)) in Hn by lra. lra. }
  destruct (direction_of mode neg).
  - destruct H as [_ H]. specialize (H g Hg Hv). rewrite E in H. lra.
  - destruct H as [H _]. rewrite E in H. lra.
  - apply Hn, H.
  - apply Hn, H.
Qed.

(** A finite sum is not a NaN, and is zero only if the exact sum is. *)
Lemma sum_not_zero (subtract : bool) x y :
  operand d x -> operand d y -> semantics x = f -> semantics y = f ->
  let r := value (binary (if subtract then Subtract else Add) x y control) in
  is_nan r = false /\ (is_zero r = true -> (exact_sum subtract x y == 0)%Q).
Proof.
  intros Hx Hy Sx Sy r. assert (semantics x = semantics y) as Hs by by rewrite Sx, Sy.
  assert (forall v, operand d v -> is_nan v = false /\ (is_zero v = true -> (decoded_value v == 0)%Q)) as Hop.
  { intros v Hv. split; [by destruct (operand_kinds d v Hv)|]. intros Hz. apply (operand_zero_value d v Hv).
    unfold is_zero, classify, class_eqb in Hz. by apply bool_decide_eq_true in Hz. }
  subst r. destruct (add_values_spec d x y subtract control Hx Hy Hs) as [[E ->]|[E H]]; rewrite Sx in *.
  { split; [|done]. apply Hop. eapply encodes_operand; [exact Hd|]. by apply (encodes_zero f d). }
  destruct H as (q & Hq & [[_ ->]|(_ & _ & He & _)]).
  - assert (forall v, is_infinity v = true -> is_nan v = false /\ is_zero v = false) as Hinf.
    { intros v. unfold is_infinity, is_nan, is_zero. by destruct (classify v). }
    assert (forall n, is_nan (value (overflow_result f n control)) = false /\
                      is_zero (value (overflow_result f n control)) = false) as Hov.
    { intros n. assert (is_nan (infinity f n) = false /\ is_zero (infinity f n) = false).
      { apply Hinf. unfold is_infinity, classify. by rewrite decoded_infinity. }
      assert (is_nan (maximum_finite f n) = false /\ is_zero (maximum_finite f n) = false).
      { pose proof (maximum_finite_encodes f d n Hd) as Hm.
        destruct (encodes_operand _ d _ _ _ Hd Hm) as (Ho & _). destruct (Hop _ Ho) as [? Hz]. split; [done|].
        apply not_true_is_false. intros T. apply Hz in T. destruct Hm as (_ & _ & _ & _ & _ & Hv).
        rewrite Hv in T. unfold max_magnitude in T.
        rewrite <- (dy_0 (max_normal_exponent d - (precision d - 1))) in T. apply dy_eq in T.
        pose proof (descriptor_ok _ _ Hd) as Hok.
        pose proof (pow2_le 1 (precision d) ltac:(destruct Hok; lia)) as H1. change (2 ^ 1) with 2 in H1. lia. }
      unfold overflow_result. cbn [value]. destruct (rounding control), n; assumption. }
    destruct (Hov (q_negative (exact_sum subtract x y))) as [-> ->]. done.
  - destruct (encodes_operand f d _ _ _ Hd He) as (Ho & _). destruct (Hop _ Ho) as [H1 H2]. split; [done|].
    intros Hz. exfalso. apply H2 in Hz. destruct He as (_ & _ & _ & _ & _ & Hv). rewrite Hv in Hz.
    refine (rounds_to_nonzero _ _ _ q _ Hq Hz).
    pose proof (sum_dy d x y subtract Hx Hy) as Es. rewrite Es in E |- *. rewrite Qabs_dy.
    set (c := Z.min _ _) in *. set (s := signed _ _ + signed _ _) in *.
    rewrite <- (dy_0 c), dy_eq in E.
    apply Qle_trans with (q2 c); [|rewrite <- dy_1; apply dy_le; lia].
    apply q2_le. subst c. destruct (precision_in_range f d Hd) as [_ Hmin].
    assert (forall v, operand d v -> min_subnormal_exponent d <= exponent (decode v)) as Hexp; [|pose proof (Hexp x Hx); pose proof (Hexp y Hy); lia].
    intros v Ov. destruct (operand_shape d v Ov) as [_ Hsh]. unfold min_subnormal_exponent in *.
    destruct Hsh as [[_ ->]|[[_ ->]|[_ ?]]]; lia.
Qed.

(** Infinity times a number that is not zero. *)
Lemma infinity_times v :
  proper f v -> is_nan v = false -> is_zero v = false ->
  is_infinity (value (binary Multiply (infinity f false) v control)) = true.
Proof.
  intros Hv Nv Zv. pose proof (infinity_proper f d Hd false) as Hi.
  assert (is_infinity (infinity f false) = true) as Ii by (unfold is_infinity, classify; by rewrite decoded_infinity).
  assert (is_nan (infinity f false) = false) as Ni by by apply infinite_not_nan.
  assert (is_zero (infinity f false) = false) as Zi by (unfold is_zero, classify; by rewrite decoded_infinity).
  destruct (binary_special_cases Multiply (infinity f false) v control) as (_ & _ & H). rewrite H; try done.
  - unfold infinite_result. rewrite Zi, Zv. cbn [orb value]. unfold is_infinity, classify.
    destruct (decode_infinity f d false Hd) as (_ & _ & ->). by rewrite decoded_infinity.
  - destruct Hi as [-> _]. symmetry. apply Hv.
  - apply Hi.
  - apply Hv.
  - by rewrite Ii.
Qed.

(** *** The recovery *)

Definition operand_pair (v : ComplexFloatValue) : Prop :=
  (operand d (real v) /\ semantics (real v) = f) /\ (operand d (imag v) /\ semantics (imag v) = f).

(** Parts of magnitude zero or one. *)
Definition unit_parts (v : ComplexFloatValue) : Prop :=
  ((decoded_value (real v) == 0)%Q \/ (decoded_value (real v) == 1)%Q) /\
  ((decoded_value (imag v) == 0)%Q \/ (decoded_value (imag v) == 1)%Q).

Lemma square_nonneg (q : Q) : (0 <= q * q)%Q.
Proof. nra. Qed.

Lemma square_zero (q : Q) : (q * q == 0)%Q -> (q == 0)%Q.
Proof. intros H. by apply Qmult_integral in H as [?|?]. Qed.

(** |l|^2 * |r|^2 = |l * r|^2. *)
Lemma product_nonzero (a b c e : Q) :
  (a * c - b * e == 0)%Q -> (a * e + b * c == 0)%Q ->
  ((a == 0)%Q /\ (b == 0)%Q) \/ ((c == 0)%Q /\ (e == 0)%Q).
Proof.
  intros H1 H2. assert ((a * a + b * b) * (c * c + e * e) == 0)%Q as H.
  { transitivity ((a * c - b * e) * (a * c - b * e) + (a * e + b * c) * (a * e + b * c))%Q; [ring|].
    rewrite H1, H2. ring. }
  assert (forall x y, (x * x + y * y == 0)%Q -> (x == 0)%Q /\ (y == 0)%Q) as Hz.
  { intros x y E. pose proof (square_nonneg x). pose proof (square_nonneg y). split; apply square_zero; lra. }
  apply Qmult_integral in H as [H|H]; [left|right]; by apply Hz.
Qed.

Lemma recovery_infinite l r :
  operand_pair l -> operand_pair r -> unit_parts l \/ unit_parts r ->
  nonzero_pair (real l) (imag l) -> nonzero_pair (real r) (imag r) ->
  let p := product_value control l r in
  is_infinity (value (binary Multiply (infinity f false) (real p) control)) = true \/
  is_infinity (value (binary Multiply (infinity f false) (imag p) control)) = true.
Proof.
  intros [[L1 S1] [L2 S2]] [[R1 S3] [R2 S4]] Hu Nl Nr p. subst p. unfold product_value. cbn [real imag].
  assert (forall x y, In x [real l; imag l] -> In y [real r; imag r] ->
    let m := value (binary Multiply x y control) in
    operand d m /\ semantics m = f /\ (signed_value m == signed_value x * signed_value y)%Q) as Hm.
  { intros x y Hx Hy. apply multiply_unit.
    - destruct Hx as [<-|[<-|[]]]; done.
    - destruct Hy as [<-|[<-|[]]]; done.
    - destruct Hx as [<-|[<-|[]]]; done.
    - destruct Hy as [<-|[<-|[]]]; done.
    - destruct Hu as [[U1 U2]|[U1 U2]].
      + destruct Hx as [<-|[<-|[]]]; tauto.
      + destruct Hy as [<-|[<-|[]]]; tauto. }
  destruct (Hm (real l) (real r)) as (A1 & A2 & A3); [by left|by left|].
  destruct (Hm (imag l) (imag r)) as (B1 & B2 & B3); [by right; left|by right; left|].
  destruct (Hm (real l) (imag r)) as (C1 & C2 & C3); [by left|by right; left|].
  destruct (Hm (imag l) (real r)) as (D1 & D2 & D3); [by right; left|by left|].
  destruct (sum_not_zero true _ _ A1 B1 A2 B2) as [N1 Z1]. destruct (sum_not_zero false _ _ C1 D1 C2 D2) as [N2 Z2].
  destruct (binary_finite_defined f d Hd Subtract _ _ control A1 B1 A2 B2) as [_ P1].
  destruct (binary_finite_defined f d Hd Add _ _ control C1 D1 C2 D2) as [_ P2].
  cbv iota in *. set (re := value (binary Subtract _ _ _)) in *. set (im := value (binary Add _ _ _)) in *.
  destruct (is_zero re) eqn:E1; [|left; exact (infinity_times re P1 N1 E1)].
  destruct (is_zero im) eqn:E2; [|right; exact (infinity_times im P2 N2 E2)].
  exfalso. specialize (Z1 eq_refl). specialize (Z2 eq_refl). unfold exact_sum in Z1, Z2.
  rewrite A3, B3 in Z1. rewrite C3, D3 in Z2.
  destruct (product_nonzero _ _ _ _ Z1 Z2); [by apply Nl|by apply Nr].
Qed.

(** *** Boxing *)

Lemma unit_value :
  let one := value (from_integer 1 1 false f default_control) in
  operand d one /\ semantics one = f /\ (decoded_value one == 1)%Q.
Proof.
  pose proof (from_integer_spec f d 1 false 1 default_control Hd ltac:(lia)) as H. cbv zeta in H.
  change (integer_of 1 false 1) with 1 in H.
  assert (representable d (inject_Z 1) /\ (inject_Z 1 < overflow_threshold d)%Q) as [Hr Ht].
  { split.
  - pose proof (descriptor_ok _ _ Hd) as Hok. destruct (precision_in_range f d Hd) as [_ ?].
    pose proof (pow2_le 1 (precision d) ltac:(destruct Hok; lia)) as H1. change (2 ^ 1) with 2 in H1.
    exists 1, 0. split; [lia|]. split; [lia|reflexivity].
  - destruct (precision_in_range f d Hd) as [? _]. pose proof (descriptor_ok _ _ Hd) as Hok.
    change (inject_Z 1) with (q2 0). apply q2_lt. destruct Hok; lia. }
  destruct (rounds_result_exact _ _ _ _ _ _ Hr Ht H) as (_ & _ & He).
  destruct (encodes_operand f d _ _ _ Hd He) as (H1 & H2 & _). split; [exact H1|]. split; [exact H2|]. apply He.
Qed.

Lemma boxed_part v :
  let b := signed_unit_or_zero f v in
  operand d b /\ semantics b = f /\
  (decoded_value b == if is_infinity v then 1 else 0)%Q.
Proof.
  intros b. set (m := if is_infinity v then value (from_integer 1 1 false f default_control) else zero f false).
  assert (operand d m /\ semantics m = f /\ (decoded_value m == if is_infinity v then 1 else 0)%Q) as (M1 & M2 & M3).
  { subst m. destruct (is_infinity v); [apply unit_value|].
    pose proof (encodes_zero f d false Hd) as He. destruct (encodes_operand f d _ _ _ Hd He) as (H1 & H2 & _).
    split; [done|]. split; [done|apply He]. }
  subst b. unfold signed_unit_or_zero. fold m. destruct (is_negative v); [|done].
  destruct M1 as [W1 W2]. destruct (negate_spec m d W1) as (E & W & S).
  unfold operand, is_finite, classify, decoded_value in *. rewrite E. cbn [with_sign classification significand exponent].
  by rewrite S.
Qed.

Lemma signed_zero_iff v : operand d v -> (signed_value v == 0)%Q <-> (decoded_value v == 0)%Q.
Proof. intros _. unfold signed_value. destruct (negative (decode v)); lra. Qed.

Lemma box_spec v :
  has_infinity v = true ->
  operand_pair (box f v) /\ unit_parts (box f v) /\ nonzero_pair (real (box f v)) (imag (box f v)).
Proof.
  intros Hi. destruct (boxed_part (real v)) as (A1 & A2 & A3). destruct (boxed_part (imag v)) as (B1 & B2 & B3).
  split; [exact (conj (conj A1 A2) (conj B1 B2))|]. unfold unit_parts, nonzero_pair. cbn [box real imag] in *.
  rewrite !signed_zero_iff by assumption. rewrite A3, B3. unfold has_infinity in Hi.
  destruct (is_infinity (real v)), (is_infinity (imag v)); try done; (split; [split; auto; (by right) || by left|]);
    intros [H1 H2]; discriminate.
Qed.

Lemma nans_operand v : operand_pair v -> nans_to_zero f v = v.
Proof.
  intros [[H1 _] [H2 _]]. unfold nans_to_zero, nan_to_zero.
  destruct (operand_kinds d _ H1) as [_ ->]. destruct (operand_kinds d _ H2) as [_ ->]. by destruct v.
Qed.

Lemma nan_to_zero_infinity v : is_infinity (nan_to_zero f v) = is_infinity v.
Proof.
  unfold nan_to_zero. destruct (is_nan v) eqn:E; [|done].
  transitivity false; [unfold is_infinity, classify; by rewrite (decode_zero f d)|].
  symmetry. apply not_true_is_false. intros H. by rewrite (infinite_not_nan v H) in E.
Qed.

Lemma nans_infinity v : has_infinity (nans_to_zero f v) = has_infinity v.
Proof. unfold has_infinity, nans_to_zero. cbn [real imag]. by rewrite !nan_to_zero_infinity. Qed.

Lemma operand_no_infinity v : operand_pair v -> has_infinity v = false.
Proof.
  intros [[H1 _] [H2 _]]. unfold has_infinity.
  by destruct (operand_kinds d _ H1) as [-> _], (operand_kinds d _ H2) as [-> _].
Qed.

(** The operands the recovery works on. *)
Definition recoverable (l r : ComplexFloatValue) : Prop :=
  operand_pair l /\ operand_pair r /\ (unit_parts l \/ unit_parts r) /\
  nonzero_pair (real l) (imag l) /\ nonzero_pair (real r) (imag r).

(** An infinity, or a finite number other than zero. *)
Definition complex_nonzero (v : ComplexFloatValue) : Prop :=
  has_infinity v = true \/ (operand_pair v /\ nonzero_pair (real v) (imag v)).

Lemma recovery_operands l r :
  (has_infinity l = true /\ complex_nonzero r) \/ (complex_nonzero l /\ has_infinity r = true) ->
  let '(l, r, again) :=
    if has_infinity l then (box f l, nans_to_zero f r, true) else (l, r, false) in
  let '(l, r, again) :=
    if has_infinity r then (nans_to_zero f l, box f r, true) else (l, r, again) in
  again = true /\ recoverable l r.
Proof.
  intros H. assert (complex_nonzero l /\ complex_nonzero r /\ (has_infinity l = true \/ has_infinity r = true))
    as (Nl & Nr & Hi) by (unfold complex_nonzero in *; tauto).
  clear H. destruct (has_infinity l) eqn:El.
  - destruct (box_spec l El) as (B1 & B2 & B3). destruct Nr as [Er|[Or Nr]].
    + rewrite nans_infinity, Er. rewrite nans_operand by done. split; [done|].
      destruct (box_spec (nans_to_zero f r)) as (C1 & C2 & C3); [by rewrite nans_infinity|].
      split; [done|]. split; [done|]. split; [by left|]. done.
    + rewrite nans_infinity, operand_no_infinity by done. split; [done|]. rewrite nans_operand by done.
      split; [done|]. split; [done|]. split; [by left|]. done.
  - destruct Nl as [?|[Ol Nl]]; [congruence|]. destruct Hi as [?|Er]; [congruence|]. rewrite Er. split; [done|].
    destruct (box_spec r Er) as (C1 & C2 & C3). rewrite nans_operand by done.
    split; [done|]. split; [done|]. split; [by right|]. done.
Qed.

End Infinite.

(** Claim C34: a product with an infinite factor is infinite. When one factor has an
    infinite part, the other part possibly NaN, and the other factor is infinite
    or finite and not zero, some part of the product is an infinity in every
    rounding mode, through the recovery when both parts come out NaN (C Annex G,
    G.5.1). *)
Theorem complex_multiply_infinite f d control lhs rhs :
  descriptor f = Some d -> proper_complex f lhs -> proper_complex f rhs ->
  (has_infinity lhs = true /\ complex_nonzero f d rhs) \/ (complex_nonzero f d lhs /\ has_infinity rhs = true) ->
  has_infinity (complex_value (complex_multiply control lhs rhs)) = true.
Proof.
  intros Hd Hl Hr H. unfold complex_multiply. rewrite (operands_ok f d Hd lhs rhs Hl Hr).
  replace (semantics (real lhs)) with f by (symmetry; apply Hl).
  destruct (evaluate_runs f d Hd control lhs rhs Hl Hr 0) as (v & st & E & Hv).
  pose proof (evaluate_value control lhs rhs (0, Error_None)) as Ev. rewrite E in Ev |- *. cbn [fst] in Ev.
  cbn [no_error]. destruct (negb (both_nan v)) eqn:Eb.
  { rewrite orb_true_r. cbn [complex_value]. subst v.
    destruct (product_infinite f d Hd control lhs rhs Hl Hr) as [H1 H2]; [tauto|].
    unfold both_nan, has_infinity in *. destruct H1 as [->|H1]; [done|]. destruct H2 as [->|H2]; [apply orb_true_r|].
    by rewrite H1, H2 in Eb. }
  change (negb (no_error Error_None) || false) with false. cbv iota.
  pose proof (recovery_operands f d Hd lhs rhs H) as Hrec.
  destruct (if has_infinity lhs then _ else _) as [[l1 r1] again1].
  destruct (if has_infinity r1 then _ else _) as [[l2 r2] again2].
  destruct Hrec as (-> & Ol & Or & Hu & Nl & Nr). cbn [negb].
  pose proof (recovery_infinite f d Hd control l2 r2 Ol Or Hu Nl Nr) as Hinf. cbv zeta in Hinf.
  unfold bind at 1. pose proof (evaluate_value control l2 r2 (0, Error_None)) as Ew.
  destruct (evaluate control l2 r2 (0, Error_None)) as [w [s1 e1]]. cbn [fst] in Ew. subst w.
  unfold has_infinity. cbn [bind calculate record ret complex_value real imag].
  destruct Hinf as [-> | ->]; [done|apply orb_true_r].
Qed.

Lemma complex_multiply_infinite_witness :
  has_infinity (complex_value (complex_multiply default_control sample_infinite sample_finite)) = true.
Proof.
  refine (complex_multiply_infinite IEEEBinary32 (mkDescriptor 32 24 23 8 127 false) default_control
    sample_infinite sample_finite eq_refl _ _ _); [concrete|concrete|].
  left. split; [reflexivity|]. right. split; [concrete|]. intros [E _]. vm_compute in E. discriminate.
Defined.
