(* ===== verification/FloatText.v ===== *)
(** * Spelling and parsing floating-point values (parse, nan, display,
    hex_display, bit_pattern_hex of src/numeric/floating_point.cpp)

    Strings are lists of characters; [std::tolower] and [std::isdigit] are those
    of the C locale. Exponents are [Z]s: parse_exponent keeps them within
    10^9, so the int64_t arithmetic of the code cannot overflow. *)
From S2P Require Import Prelude BigUInt FloatValue Dyadic Rounding FloatSpecial FloatArith FloatConvert.
Open Scope Z_scope.

(** ** The code: parsing *)

Inductive ParseError := Parse_None | Parse_InvalidFormat | InvalidSyntax | InvalidPayload.

Record FloatParseResult := mkParse {
  parse_value : FloatValue;
  parse_status : Z;
  parse_error : ParseError;
}.

Definition parsed_ok (r : FloatParseResult) : bool :=
  match parse_error r with Parse_None => valid (parse_value r) | _ => false end.

Definition parse_failure (e : ParseError) : FloatParseResult := mkParse invalid_value 0 e.

Definition parse_success (v : FloatValue) : FloatParseResult := mkParse v 0 Parse_None.

Definition power_of_five (exponent : nat) : BigUInt :=
  for_up exponent (fun _ value => multiply_small value 5) (of_u128 1).

Definition in_range (lo hi : ascii) (c : ascii) : bool := (code lo <=? code c) && (code c <=? code hi).

Definition digit_value (character : ascii) (base : Z) : Z :=
  let value :=
    if in_range "0" "9" character then code character - code "0"
    else if in_range "a" "f" character then 10 + code character - code "a"
    else if in_range "A" "F" character then 10 + code character - code "A"
    else -1 in
  if (value >=? 0) && (value <? base) then value else -1.

Fixpoint parse_digits_loop (digits : chars) (base : Z) (value : BigUInt) : option BigUInt :=
  match digits with
  | [] => Some value
  | character :: rest =>
      let digit := digit_value character base in
      if digit <? 0 then None
      else parse_digits_loop rest base (add_small (multiply_small value base) digit)
  end.

Definition parse_big_digits (digits : chars) (base : Z) : option BigUInt :=
  match digits with [] => None | _ => parse_digits_loop digits base [] end.

Definition tolower (c : ascii) : ascii := if in_range "A" "Z" c then chr (code c + 32) else c.

Fixpoint case_equal (lhs rhs : chars) : bool :=
  match lhs, rhs with
  | [], [] => true
  | a :: lhs, b :: rhs => ceqb (tolower a) (tolower b) && case_equal lhs rhs
  | _, _ => false
  end.

(** [s.back()] is one of the characters. *)
Definition ends_in (s : chars) (cs : chars) : bool :=
  match rev s with c :: _ => existsb (ceqb c) cs | [] => false end.

Definition pop_back (s : chars) : chars := removelast s.

Fixpoint starts_with (s prefix : chars) : bool :=
  match prefix, s with
  | [], _ => true
  | p :: prefix, c :: s => ceqb p c && starts_with s prefix
  | _, [] => false
  end.

Definition ends_with (s suffix : chars) : bool := starts_with (rev s) (rev suffix).

(** The first suffix of the list that can be removed. *)
Fixpoint strip_suffix (s : chars) (suffixes : list chars) : option chars :=
  match suffixes with
  | [] => None
  | suffix :: rest =>
      if (length suffix <? length s)%nat && ends_with s suffix
      then Some (take (length s - length suffix) s) else strip_suffix s rest
  end.

Definition literal_suffixes : list chars :=
  [str "bf16"; str "BF16"; str "f128"; str "F128"; str "f64"; str "F64"; str "f32"; str "F32";
   str "f16"; str "F16"].

Definition drop_sign (s : chars) : chars :=
  match s with c :: rest => if ceqb c "+" || ceqb c "-" then rest else s | [] => s end.

Definition normalize_spelling (spelling : chars) : chars :=
  let normalized := List.filter (fun c => negb (ceqb c "'")) spelling in
  let normalized := if ends_in normalized (str "iIjJ") then pop_back normalized else normalized in
  let unsigned_spelling := drop_sign normalized in
  if case_equal unsigned_spelling (str "inf") || case_equal unsigned_spelling (str "infinity") ||
     case_equal unsigned_spelling (str "nan")
  then normalized
  else
    match strip_suffix normalized literal_suffixes with
    | Some stripped => stripped
    | None => if ends_in normalized (str "fFlL") then pop_back normalized else normalized
    end.

Definition exponent_limit : Z := 1000000000.

Fixpoint parse_exponent_loop (text : chars) (value : Z) : option Z :=
  match text with
  | [] => Some value
  | c :: rest =>
      if negb (in_range "0" "9" c) then None
      else
        let digit := code c - code "0" in
        parse_exponent_loop rest
          (if value >? (exponent_limit - digit) / 10 then exponent_limit else value * 10 + digit)
  end.

Definition parse_exponent (text : chars) : option Z :=
  match text with
  | [] => None
  | c :: rest =>
      let negative := ceqb c "-" in
      let text := if ceqb c "+" || ceqb c "-" then rest else text in
      match text with
      | [] => None
      | _ => match parse_exponent_loop text 0 with
             | Some value => Some (if negative then - value else value)
             | None => None
             end
      end
  end.

Definition from_float_result (r : FloatResult) : FloatParseResult :=
  mkParse (value r) (status r)
    (if bool_decide (error r = Error_None) then Parse_None else Parse_InvalidFormat).

Definition is_x (c : ascii) : bool := ceqb c "x" || ceqb c "X".

(** A spelling that starts with 0x. *)
Definition hex_prefix (s : chars) : bool :=
  match s with c0 :: c1 :: _ => ceqb c0 "0" && is_x c1 | _ => false end.

Definition nan (format : FloatFormat) (payload_text : chars) (signaling negative : bool)
    : FloatParseResult :=
  match descriptor format with
  | None => parse_failure Parse_InvalidFormat
  | Some _ =>
    let '(base, payload_text) :=
      if (2 <? length payload_text)%nat && hex_prefix payload_text
      then (16, drop 2 payload_text) else (10, payload_text) in
    match payload_text with
    | [] => parse_success (make_nan format negative signaling [])
    | _ =>
      match parse_big_digits payload_text base with
      | None => parse_failure InvalidPayload
      | Some payload =>
          if BigUInt.bit_width payload >? 128 then parse_failure InvalidPayload
          else parse_success (make_nan format negative signaling payload)
      end
    end
  end.

(** [find_first_of] one of two characters, as the parts around it. *)
Fixpoint split_at_first (p : ascii -> bool) (s : chars) : option (chars * chars) :=
  match s with
  | [] => None
  | c :: rest =>
      if p c then Some ([], rest)
      else match split_at_first p rest with
           | Some (before, after) => Some (c :: before, after)
           | None => None
           end
  end.

(** The test for [nan(...)] and the text between the parentheses. *)
Definition nan_payload (s : chars) : option chars :=
  match s with
  | c0 :: c1 :: c2 :: c3 :: _ =>
      if (5 <=? length s)%nat && ceqb (tolower c0) "n" && ceqb (tolower c1) "a" && ceqb (tolower c2) "n" &&
         ceqb c3 "(" && ends_in s (str ")")
      then Some (take (length s - 5) (drop 4 s)) else None
  | _ => None
  end.

(** The conversion once the digits, the count of fractional digits and the
    explicit exponent are known. *)
Definition parse_number (hexadecimal negative : bool) (significand : BigUInt)
    (digit_count fractional_digits : nat) (explicit_exponent : Z)
    (format : FloatFormat) (control : FloatControl) : FloatParseResult :=
  if BigUInt.is_zero significand then parse_success (zero format negative)
  else if hexadecimal then
    from_float_result (round_rational negative significand (of_u128 1)
      (explicit_exponent - Z.of_nat fractional_digits * 4) format control)
  else
    let decimal_exponent := explicit_exponent - Z.of_nat fractional_digits in
    let adjusted_decimal_exponent := Z.of_nat digit_count + decimal_exponent - 1 in
    if adjusted_decimal_exponent >? 6000 then from_float_result (overflow_result format negative control)
    else if adjusted_decimal_exponent <? -6000
    then from_float_result (tiny_nonzero_result format negative control)
    else
      let numerator :=
        if 0 <=? decimal_exponent
        then multiply significand (power_of_five (Z.to_nat decimal_exponent)) else significand in
      let denominator :=
        if 0 <=? decimal_exponent then of_u128 1 else power_of_five (Z.to_nat (- decimal_exponent)) in
      from_float_result (round_rational negative numerator denominator decimal_exponent format control).

Definition parse (spelling : chars) (format : FloatFormat) (control : FloatControl)
    : FloatParseResult :=
  match descriptor format with
  | None => parse_failure Parse_InvalidFormat
  | Some _ =>
    let normalized := normalize_spelling spelling in
    let negative := match normalized with c :: _ => ceqb c "-" | [] => false end in
    let normalized := drop_sign normalized in
    if case_equal normalized (str "inf") || case_equal normalized (str "infinity")
    then parse_success (infinity format negative)
    else if case_equal normalized (str "nan") then nan format [] false negative
    else
    match nan_payload normalized with
    | Some payload => nan format payload false negative
    | None =>
      let hexadecimal := hex_prefix normalized in
      let parts :=
        if hexadecimal
        then match split_at_first (fun c => ceqb c "p" || ceqb c "P") (drop 2 normalized) with
             | Some (before, after) => Some (take 2 normalized ++ before, after)
             | None => None
             end
        else split_at_first (fun c => ceqb c "e" || ceqb c "E") normalized in
      match
        match parts with
        | Some (significand_text, exponent_text) =>
            match parse_exponent exponent_text with
            | Some exponent => Some (significand_text, exponent)
            | None => None
            end
        | None => if hexadecimal then None else Some (normalized, 0)
        end
      with
      | None => parse_failure InvalidSyntax
      | Some (significand_text, explicit_exponent) =>
        let significand_text := if hexadecimal then drop 2 significand_text else significand_text in
        let '(digits, fractional_digits, two_points) :=
          match split_at_first (ceqb ".") significand_text with
          | Some (before, after) => (before ++ after, length after, existsb (ceqb ".") after)
          | None => (significand_text, 0%nat, false)
          end in
        if two_points then parse_failure InvalidSyntax
        else
        match parse_big_digits digits (if hexadecimal then 16 else 10) with
        | None => parse_failure InvalidSyntax
        | Some significand =>
            parse_number hexadecimal negative significand (length digits) fractional_digits
              explicit_exponent format control
        end
      end
    end
  end.

(** ** The code: spelling *)

(** [std::to_string] of a signed integer. *)
Definition to_string (z : Z) : chars :=
  if z <? 0 then "-"%char :: to_digits 10 (- z) else to_digits 10 z.

(** The loop of [increment_decimal], on the reversed string. *)
Fixpoint increment_rev (value : chars) : chars :=
  match value with
  | [] => ["1"%char]
  | c :: rest => if negb (ceqb c "9") then chr (code c + 1) :: rest else "0"%char :: increment_rev rest
  end.

Definition increment_decimal (value : chars) : chars := rev (increment_rev (rev value)).

(** Drop trailing zeros, keeping one character. *)
Fixpoint trim_zeros_rev (s : chars) : chars :=
  match s with
  | c :: (_ :: _) as rest => if ceqb c "0" then trim_zeros_rev rest else s
  | _ => s
  end.

Definition trim_zeros (s : chars) : chars := rev (trim_zeros_rev (rev s)).

Definition candidate_spelling (coefficient : chars) (scientific_exponent : Z) (negative : bool) : chars :=
  let coefficient := trim_zeros coefficient in
  let scientific :=
    take 1 coefficient ++
    (if (1 <? length coefficient)%nat then "."%char :: drop 1 coefficient else []) ++
    (if negb (scientific_exponent =? 0) then "e"%char :: to_string scientific_exponent else []) in
  let point := scientific_exponent + 1 in
  let fixed :=
    if point <=? 0 then str "0." ++ replicate (Z.to_nat (- point)) "0"%char ++ coefficient
    else if point >=? Z.of_nat (length coefficient)
    then coefficient ++ replicate (Z.to_nat (point - Z.of_nat (length coefficient))) "0"%char
    else take (Z.to_nat point) coefficient ++ "."%char :: drop (Z.to_nat point) coefficient in
  let result := if (length fixed <=? length scientific)%nat then fixed else scientific in
  if negative then "-"%char :: result else result.

Definition bit_pattern_hex (v : FloatValue) : chars :=
  if negb (FloatValue.canonical v) then []
  else
    let hex w x := pad0 w (to_digits 16 x) in
    match semantics v with
    | IEEEBinary16 => hex 4%nat (u16 (low_bits v))
    | IEEEBinary32 => hex 8%nat (u32 (low_bits v))
    | IEEEBinary64 => hex 16%nat (low_bits v)
    | X87Extended80 => hex 4%nat (u16 (high_bits v)) ++ hex 16%nat (low_bits v)
    | IEEEBinary128 => hex 16%nat (high_bits v) ++ hex 16%nat (low_bits v)
    | Format_Invalid => []
    end.

Definition invalid_text : chars := str "<invalid-floating-value>".

Definition hex_display (v : FloatValue) : chars :=
  let decoded := decode v in
  if class_eqb (classification decoded) Class_Invalid then invalid_text
  else if is_nan_class (classification decoded)
  then (if negative decoded then str "-nan(0x" else str "nan(0x") ++ bit_pattern_hex v ++ str ")"
  else if class_eqb (classification decoded) Infinity
  then (if negative decoded then str "-inf" else str "inf")
  else if class_eqb (classification decoded) Zero
  then (if negative decoded then str "-0x0p0" else str "0x0p0")
  else (if negative decoded then str "-0x" else str "0x") ++ BigUInt.to_hex (significand decoded) ++
       "p"%char :: to_string (exponent decoded).

(** [operator<] on strings. *)
Fixpoint string_ltb (a b : chars) : bool :=
  match a, b with
  | [], _ :: _ => true
  | _, [] => false
  | x :: a, y :: b => (code x <? code y) || (ceqb x y && string_ltb a b)
  end.

Definition chars_eqb (a b : chars) : bool := bool_decide (a = b).

Fixpoint insert_sorted (x : chars) (l : list chars) : list chars :=
  match l with
  | [] => [x]
  | y :: rest => if string_ltb y x then y :: insert_sorted x rest else x :: l
  end.

(** [std::sort] of the short vector of coefficients. *)
Definition sort_strings (l : list chars) : list chars := foldr insert_sorted [] l.

(** [std::unique] and [erase]. *)
Fixpoint unique (l : list chars) : list chars :=
  match l with
  | x :: (y :: _) as rest => if chars_eqb x y then unique rest else x :: unique rest
  | _ => l
  end.

Definition nonzero_digit (c : ascii) : bool := negb (ceqb c "0").

(** The coefficients [display] tries with [count] digits. *)
Definition coefficients (exact_digits : chars) (count : nat) : list chars :=
  let prefix := take count exact_digits in
  let prefix := prefix ++ replicate (count - length prefix) "0"%char in
  let tail := drop count exact_digits in
  let candidates :=
    if existsb nonzero_digit tail then
      let first_discarded := hd "0"%char tail in
      let later_nonzero := existsb nonzero_digit (drop 1 tail) in
      let round_up :=
        (code first_discarded >? code "5") ||
        (ceqb first_discarded "5" &&
         (later_nonzero || negb (Z.land (code (hd "0"%char (rev prefix)) - code "0") 1 =? 0))) in
      [prefix; increment_decimal prefix; if round_up then increment_decimal prefix else prefix]
    else [prefix] in
  unique (sort_strings candidates).

Definition value_eqb (a b : FloatValue) : bool := bool_decide (a = b).

(** One candidate of the inner loop; [best] is empty when none was found. *)
Definition try_candidate (v : FloatValue) (neg : bool) (scientific_exponent : Z) (count : nat)
    (best coefficient : chars) : chars :=
  let '(coefficient, candidate_exponent) :=
    if (count <? length coefficient)%nat then (pop_back coefficient, scientific_exponent + 1)
    else (coefficient, scientific_exponent) in
  let candidate := candidate_spelling coefficient candidate_exponent neg in
  let parsed := parse candidate (semantics v) default_control in
  if parsed_ok parsed && value_eqb (parse_value parsed) v &&
     (match best with [] => true | _ => false end ||
      (length candidate <? length best)%nat ||
      ((length candidate =? length best)%nat && string_ltb candidate best))
  then candidate else best.

(** The loop over the number of digits; [room] counts the iterations left. *)
Fixpoint display_loop (v : FloatValue) (neg : bool) (exact_digits : chars) (scientific_exponent : Z)
    (room count : nat) : chars :=
  match room with
  | O => hex_display v
  | S room =>
      let best := foldl (try_candidate v neg scientific_exponent count) [] (coefficients exact_digits count) in
      match best with
      | [] => display_loop v neg exact_digits scientific_exponent room (S count)
      | _ => best
      end
  end.

Definition display (v : FloatValue) : chars :=
  let decoded := decode v in
  match descriptor (semantics v) with
  | None => invalid_text
  | Some fmt =>
    if class_eqb (classification decoded) Class_Invalid then invalid_text
    else if is_nan_class (classification decoded)
    then (if negative decoded then str "-nan(0x" else str "nan(0x") ++ bit_pattern_hex v ++ str ")"
    else if class_eqb (classification decoded) Infinity
    then (if negative decoded then str "-inf" else str "inf")
    else if class_eqb (classification decoded) Zero
    then (if negative decoded then str "-0" else str "0")
    else
    let '(decimal_integer, decimal_scale) :=
      if exponent decoded >=? 0
      then (shifted_left (significand decoded) (exponent decoded), 0)
      else (multiply (significand decoded) (power_of_five (Z.to_nat (- exponent decoded))), - exponent decoded) in
    let exact_digits := BigUInt.to_decimal decimal_integer in
    let scientific_exponent := Z.of_nat (length exact_digits) - decimal_scale - 1 in
    let max_digits := (precision fmt * 30103 + 99999) / 100000 + 1 in
    display_loop v (negative decoded) exact_digits scientific_exponent (Z.to_nat max_digits) 1
  end.

Example display_tenth : display (mkFloat IEEEBinary32 0x3DCCCCCD 0) = str "0.1".
Proof. vm_compute. reflexivity. Qed.

(** ** Digits *)

Lemma digit_value_char c d base :
  char_digit c = Some d -> d < base -> digit_value c base = d.
Proof.
  unfold char_digit, digit_value, in_range. intros H Hb.
  change (code "0") with 48. change (code "9") with 57. change (code "a") with 97. change (code "f") with 102.
  change (code "A") with 65. change (code "F") with 70.
  destruct (Z.leb_spec 48 (code c)), (Z.leb_spec (code c) 57); cbn [andb] in *.
  all: try (destruct (Z.leb_spec 97 (code c)), (Z.leb_spec (code c) 102); cbn [andb] in *; try discriminate; try lia).
  all: injection H as <-.
  all: rewrite Z.geb_leb, (proj2 (Z.leb_le 0 _)), (proj2 (Z.ltb_lt _ base)) by lia; cbn [andb]; lia.
Qed.

Lemma parse_digits_loop_spec base s : forall a v b,
  word 32 base -> digits_value base a s = Some v -> wf b -> bval b = a ->
  exists b', parse_digits_loop s base b = Some b' /\ wf b' /\ bval b' = v.
Proof.
  induction s as [|c s IH]; intros a v b Hbase Hv Wb Eb; simpl in *.
  - injection Hv as <-. by exists b.
  - destruct (char_digit c) as [dg|] eqn:Ec; [|done]. destruct (Z.ltb_spec dg base) as [L|]; [|done].
    assert (0 <= dg) as H0.
    { unfold char_digit in Ec. repeat case_match; simplify_eq;
        repeat match goal with H : (_ && _)%bool = true |- _ => apply andb_true_iff in H as [?%Z.leb_le ?%Z.leb_le] end; lia. }
    rewrite (digit_value_char c dg base Ec L). rewrite (proj2 (Z.ltb_ge dg 0)) by done.
    assert (word 32 dg) as Wd by (unfold word in *; lia).
    assert (wf (multiply_small b base)) by by apply multiply_small_wf.
    apply (IH (a * base + dg) v); [done|exact Hv|by apply add_small_wf|].
    rewrite add_small_bval, multiply_small_bval by done. lia.
Qed.

Lemma parse_big_digits_spec base s v :
  word 32 base -> s <> [] -> digits_value base 0 s = Some v ->
  exists b, parse_big_digits s base = Some b /\ wf b /\ bval b = v.
Proof.
  intros Hb Hs Hv. destruct s as [|c s]; [done|]. unfold parse_big_digits.
  apply (parse_digits_loop_spec base (c :: s) 0); [done|done|apply wf_nil|done].
Qed.

(** ** Exponents *)

Lemma parse_exponent_loop_spec s : forall a v,
  0 <= a -> digits_value 10 a s = Some v ->
  parse_exponent_loop s (Z.min a exponent_limit) = Some (Z.min v exponent_limit).
Proof.
  unfold exponent_limit. induction s as [|c s IH]; intros a v Ha Hv; simpl in *; [by injection Hv as <-|].
  destruct (char_digit c) as [dg|] eqn:Ec; [|done]. destruct (Z.ltb_spec dg 10) as [L|]; [|done].
  assert (in_range "0" "9" c = true /\ code c - code "0" = dg /\ 0 <= dg) as (-> & -> & H0).
  { unfold char_digit in Ec. unfold in_range. change (code "0") with 48. change (code "9") with 57.
    destruct (Z.leb_spec 48 (code c)), (Z.leb_spec (code c) 57); cbn [andb] in *; try (injection Ec as <-; lia).
    all: destruct (Z.leb_spec 97 (code c)), (Z.leb_spec (code c) 102); cbn [andb] in *; simplify_eq; lia. }
  cbn [negb]. rewrite <- (IH (a * 10 + dg) v); [|lia|done]. f_equal. unfold exponent_limit.
  rewrite Z.gtb_ltb. pose proof (Z.div_mod (1000000000 - dg) 10 ltac:(lia)).
  pose proof (Z.mod_pos_bound (1000000000 - dg) 10 ltac:(lia)).
  destruct (Z.ltb_spec ((1000000000 - dg) / 10) (Z.min a 1000000000)); lia.
Qed.

Lemma parse_exponent_signed (sign : chars) s v :
  sign = [] \/ sign = ["+"%char] \/ sign = ["-"%char] -> s <> [] -> digits_value 10 0 s = Some v ->
  parse_exponent (sign ++ s)
  = Some (if bool_decide (sign = ["-"%char]) then - Z.min v 1000000000 else Z.min v 1000000000).
Proof.
  intros Hsign Hs Hv. pose proof (parse_exponent_loop_spec s 0 v ltac:(lia) Hv) as Hl.
  change (Z.min 0 exponent_limit) with 0 in Hl. fold exponent_limit.
  destruct Hsign as [-> | [-> | ->]]; cbn [app parse_exponent].
  - destruct s as [|c s]; [done|]. cbn [app parse_exponent].
    assert (ceqb c "-" = false /\ ceqb c "+" = false) as [-> ->].
    { cbn [digits_value] in Hv. unfold ceqb. split; apply Ascii.eqb_neq; intros ->; done. }
    cbn [orb]. by rewrite Hl.
  - destruct s as [|c s]; [done|]. cbn [ceqb Ascii.eqb Bool.eqb orb]. by rewrite Hl.
  - destruct s as [|c s]; [done|]. cbn [ceqb Ascii.eqb Bool.eqb orb]. by rewrite Hl.
Qed.

Lemma parse_exponent_to_string z : Z.abs z <= 1000000000 -> parse_exponent (to_string z) = Some z.
Proof.
  intros Hz. unfold to_string. destruct (Z.ltb_spec z 0).
  - change ("-"%char :: to_digits 10 (- z)) with (["-"%char] ++ to_digits 10 (- z)).
    rewrite (parse_exponent_signed _ _ (- z)); [|by right; right|apply to_digits_nonempty|by apply to_digits_value; lia].
    rewrite bool_decide_eq_true_2 by done. f_equal. lia.
  - change (to_digits 10 z) with ([] ++ to_digits 10 z).
    rewrite (parse_exponent_signed _ _ z); [|by left|apply to_digits_nonempty|by apply to_digits_value; lia].
    rewrite bool_decide_eq_false_2 by done. f_equal. lia.
Qed.

(** exponents saturate. A signed decimal exponent of any length is read
    exactly up to 10^9 and as plus or minus 10^9 beyond, so the 64-bit
    accumulator never overflows. *)
Theorem parse_exponent_saturates (sign : chars) s v :
  sign = [] \/ sign = ["+"%char] \/ sign = ["-"%char] -> s <> [] -> digits_value 10 0 s = Some v ->
  parse_exponent (sign ++ s)
  = Some (if bool_decide (sign = ["-"%char]) then - Z.min v 1000000000 else Z.min v 1000000000).
Proof. exact (parse_exponent_signed sign s v). Qed.

Lemma parse_exponent_saturates_witness :
  parse_exponent (str "-99999999999999999999") = Some (-1000000000).
Proof.
  exact (parse_exponent_saturates ["-"%char] (str "99999999999999999999") 99999999999999999999
    (or_intror (or_intror eq_refl)) ltac:(discriminate) eq_refl).
Defined.
