(* ===== verification/FloatRoundTrip.v ===== *)
(** * Spellings that read back (src/numeric/floating_point.cpp)

    The parser on the spellings [hex_display] and [display] produce: what is
    printed reads back as the same value. *)
From S2P Require Import Prelude BigUInt FloatValue Dyadic Rounding FloatSpecial FloatArith FloatConvert FloatText.
Open Scope Z_scope.

(** ** Characters *)

(** A property of the digits of a base, checked on each of them. *)
Definition digits_all (base : nat) (P : ascii -> bool) : bool :=
  forallb (fun d => P (digit_char (Z.of_nat d))) (seq 0 base).

Lemma digits_all_spec base P c :
  is_digit_of (Z.of_nat base) c -> digits_all base P = true -> P c = true.
Proof.
  intros (x & Hx & ->) H. unfold digits_all in H. rewrite forallb_forall in H.
  specialize (H (Z.to_nat x)). rewrite Z2Nat.id in H by lia. apply H. apply in_seq. lia.
Qed.

Lemma Forall_digits base P s :
  Forall (is_digit_of (Z.of_nat base)) s -> digits_all base P = true -> Forall (fun c => P c = true) s.
Proof. intros Hs HP. eapply Forall_impl; [|exact Hs]. intros c Hc. by apply (digits_all_spec base). Qed.

Lemma filter_all (P : ascii -> bool) s : Forall (fun c => P c = true) s -> List.filter P s = s.
Proof. induction 1 as [|c s Hc _ IH]; simpl; [done|]. by rewrite Hc, IH. Qed.

Lemma split_at_first_none p s :
  Forall (fun c => negb (p c) = true) s -> split_at_first p s = None.
Proof.
  induction 1 as [|c s Hc _ IH]; simpl; [done|]. apply negb_true_iff in Hc. by rewrite Hc, IH.
Qed.

Lemma split_at_first_app p s c rest :
  Forall (fun c => negb (p c) = true) s -> p c = true -> split_at_first p (s ++ c :: rest) = Some (s, rest).
Proof.
  intros Hs Hc. induction Hs as [|x s Hx _ IH]; simpl; [by rewrite Hc|].
  apply negb_true_iff in Hx. by rewrite Hx, IH.
Qed.

(** A suffix made of a letter and digits does not match digits after another
    character. *)
Definition is_decimal (c : ascii) : bool := in_range "0" "9" c.

Lemma suffix_mismatch ds : forall sds c rest g x,
  Forall (fun c => is_decimal c = true) ds -> Forall (fun c => is_decimal c = true) sds ->
  is_decimal c = false -> is_decimal g = false -> c <> g ->
  starts_with (ds ++ c :: rest) (sds ++ g :: x) = false.
Proof.
  induction ds as [|a ds IH]; intros [|b sds] c rest g x Hd Hs Hc Hg Hne; simpl.
  - unfold ceqb. by rewrite (proj2 (Ascii.eqb_neq g c)) by congruence.
  - inversion Hs; subst. unfold ceqb. rewrite (proj2 (Ascii.eqb_neq b c)); [done|congruence].
  - inversion Hd; subst. unfold ceqb. rewrite (proj2 (Ascii.eqb_neq g a)); [done|congruence].
  - inversion Hd; inversion Hs; subst. rewrite IH by done. apply andb_false_r.
Qed.

(** A spelling that ends in decimal digits after a character that is neither a
    digit nor an f loses nothing to [normalize_spelling]. *)
Lemma normalize_digits_end s ds c :
  Forall (fun c => negb (ceqb c "'") = true) (s ++ c :: ds) ->
  Forall (fun c => is_decimal c = true) ds -> ds <> [] ->
  is_decimal c = false -> c <> "f"%char -> c <> "F"%char ->
  normalize_spelling (s ++ c :: ds) = s ++ c :: ds.
Proof.
  intros Hq Hds Hne Hc Hf HF. unfold normalize_spelling. rewrite (filter_all _ _ Hq).
  set (t := s ++ c :: ds). set (rds := rev ds).
  assert (rev t = rds ++ c :: rev s) as Hrev.
  { subst t rds. rewrite rev_app_distr. cbn [rev]. by rewrite <- app_assoc. }
  assert (Forall (fun c => is_decimal c = true) rds) as Hrds by by apply Forall_rev.
  assert (exists x xs, rds = x :: xs /\ is_decimal x = true) as (x & xs & Ex & Hx).
  { destruct rds as [|x xs] eqn:E; [|exists x, xs; split; [done|by inversion Hrds]].
    exfalso. apply Hne. rewrite <- (rev_involutive ds). fold rds. by rewrite E. }
  assert (forall l, Forall (fun y => is_decimal y = false) l -> ends_in t l = false) as Hends.
  { intros l Hl. unfold ends_in. rewrite Hrev, Ex. cbn [app].
    induction Hl as [|y l Hy _ IH]; simpl; [done|]. rewrite IH. unfold ceqb.
    by rewrite (proj2 (Ascii.eqb_neq x y)) by congruence. }
  rewrite !Hends by (repeat constructor).
  assert (strip_suffix t literal_suffixes = None) as ->; [|by destruct (_ || _ || _)].
  assert (forall sds g y z, rev z = sds ++ g :: y -> Forall (fun c => is_decimal c = true) sds ->
    is_decimal g = false -> c <> g -> ends_with t z = false) as Hend.
  { intros sds g y z Ez H1 H2 H3. unfold ends_with. rewrite Hrev, Ez. by apply suffix_mismatch. }
  cbn [literal_suffixes strip_suffix].
  rewrite (Hend (str "61") "f"%char (str "b") (str "bf16")), (Hend (str "61") "F"%char (str "B") (str "BF16")),
    (Hend (str "821") "f"%char [] (str "f128")), (Hend (str "821") "F"%char [] (str "F128")),
    (Hend (str "46") "f"%char [] (str "f64")), (Hend (str "46") "F"%char [] (str "F64")),
    (Hend (str "23") "f"%char [] (str "f32")), (Hend (str "23") "F"%char [] (str "F32")),
    (Hend (str "61") "f"%char [] (str "f16")), (Hend (str "61") "F"%char [] (str "F16"))
    by (reflexivity || done || (repeat constructor)).
  by rewrite !andb_false_r.
Qed.

(** A string starting with a digit is not one of the words. *)
Lemma case_equal_digit c s w x :
  is_decimal c = true -> is_decimal (tolower w) = false -> case_equal (c :: s) (w :: x) = false.
Proof.
  intros Hc Hw. cbn [case_equal]. assert (tolower c = c) as ->.
  { unfold tolower, is_decimal, in_range in *. change (code "A") with 65. change (code "0") with 48 in Hc.
    change (code "9") with 57 in Hc. apply andb_true_iff in Hc as [H1%Z.leb_le H2%Z.leb_le].
    by rewrite (proj2 (Z.leb_gt 65 _)) by lia. }
  unfold ceqb. rewrite (proj2 (Ascii.eqb_neq c (tolower w))); [done|congruence].
Qed.

(** ** Hexadecimal literals *)

Definition sign_text (neg : bool) : chars := if neg then ["-"%char] else [].

Lemma to_string_shape x :
  (0 <= x /\ to_string x = to_digits 10 x) \/ (x < 0 /\ to_string x = "-"%char :: to_digits 10 (- x)).
Proof. unfold to_string. destruct (Z.ltb_spec x 0); [right|left]; done. Qed.

Lemma decimal_text n : Forall (fun c => is_decimal c = true) (to_digits 10 n) /\ to_digits 10 n <> [].
Proof.
  split; [|apply to_digits_nonempty]. apply (Forall_digits 10); [by apply to_digits_digits|reflexivity].
Qed.

(** A prefix, a mark and an exponent: what [normalize_spelling] keeps. *)
Lemma normalize_exponent s c x :
  Forall (fun c => negb (ceqb c "'") = true) (s ++ [c]) ->
  is_decimal c = false -> c <> "f"%char -> c <> "F"%char ->
  normalize_spelling (s ++ c :: to_string x) = s ++ c :: to_string x.
Proof.
  intros Hq Hc Hf HF.
  assert (forall n, Forall (fun c => negb (ceqb c "'") = true) (to_digits 10 n)) as Hd.
  { intros n. apply (Forall_digits 10); [by apply to_digits_digits|reflexivity]. }
  apply Forall_app in Hq as [Hs Hq]. inversion Hq as [|? ? Hqc _]; subst.
  destruct (to_string_shape x) as [[_ ->]|[_ ->]].
  - apply normalize_digits_end; try done; try apply decimal_text.
    apply Forall_app. split; [done|]. by constructor.
  - change (s ++ c :: "-"%char :: to_digits 10 (- x)) with (s ++ [c] ++ "-"%char :: to_digits 10 (- x)).
    rewrite app_assoc. apply normalize_digits_end; try done; try apply decimal_text.
    rewrite <- app_assoc. apply Forall_app. split; [done|]. constructor; [done|]. by constructor.
Qed.

Lemma sign_text_front neg c s :
  is_decimal c = true ->
  (match sign_text neg ++ c :: s with x :: _ => ceqb x "-" | [] => false end) = neg /\
  drop_sign (sign_text neg ++ c :: s) = c :: s.
Proof.
  intros Hc. destruct neg; [done|]. cbn [sign_text app drop_sign].
  assert (ceqb c "-" = false /\ ceqb c "+" = false) as [-> ->]; [|done].
  unfold ceqb. split; apply Ascii.eqb_neq; intros ->; done.
Qed.

Lemma nan_payload_digit c s : is_decimal c = true -> nan_payload (c :: s) = None.
Proof.
  intros Hc. assert (ceqb (tolower c) "n" = false) as H.
  { assert (tolower c = c) as ->.
    { unfold tolower, is_decimal, in_range in *. change (code "A") with 65. change (code "0") with 48 in Hc.
      change (code "9") with 57 in Hc. apply andb_true_iff in Hc as [H1%Z.leb_le H2%Z.leb_le].
      by rewrite (proj2 (Z.leb_gt 65 _)) by lia. }
    apply Ascii.eqb_neq. intros ->. done. }
  unfold nan_payload. destruct s as [|c1 [|c2 [|c3 s]]]; try done. rewrite H. by rewrite andb_false_r.
Qed.

(** The words and NaN tests on a text that starts with a digit. *)
Lemma not_a_word c s :
  is_decimal c = true ->
  case_equal (c :: s) (str "inf") = false /\ case_equal (c :: s) (str "infinity") = false /\
  case_equal (c :: s) (str "nan") = false /\ nan_payload (c :: s) = None.
Proof.
  intros Hc. split; [by apply case_equal_digit|]. split; [by apply case_equal_digit|].
  split; [by apply case_equal_digit|]. by apply nan_payload_digit.
Qed.

Lemma parse_hex_literal f d control neg hex m x :
  descriptor f = Some d -> Forall (is_digit_of 16) hex -> hex <> [] -> digits_value 16 0 hex = Some m ->
  Z.abs x <= 1000000000 ->
  exists b, wf b /\ bval b = m /\
    parse (sign_text neg ++ str "0x" ++ hex ++ "p"%char :: to_string x) f control
    = parse_number true neg b (length hex) 0 x f control.
Proof.
  intros Hd Hhex Hne Hm Hx. unfold parse. rewrite Hd.
  rewrite !app_assoc, normalize_exponent; try done.
  2: { apply Forall_app. split; [|by repeat constructor]. apply Forall_app. split; [by destruct neg; repeat constructor|].
       apply (Forall_digits 16); [done|reflexivity]. }
  rewrite <- !app_assoc. change (str "0x" ++ hex ++ "p"%char :: to_string x)
    with ("0"%char :: "x"%char :: hex ++ "p"%char :: to_string x).
  destruct (sign_text_front neg "0"%char ("x"%char :: hex ++ "p"%char :: to_string x) eq_refl) as [-> ->].
  destruct (not_a_word "0"%char ("x"%char :: hex ++ "p"%char :: to_string x) eq_refl) as (-> & -> & -> & ->).
  cbn [orb hex_prefix is_x drop take]. change (ceqb "0" "0" && is_x "x") with true. cbv iota.
  rewrite drop_0, take_0.
  rewrite split_at_first_app; [|apply (Forall_digits 16); [done|reflexivity]|reflexivity].
  rewrite parse_exponent_to_string by done. cbn [drop app]. rewrite drop_0.
  rewrite split_at_first_none by (apply (Forall_digits 16); [done|reflexivity]).
  destruct (parse_big_digits_spec 16 hex m ltac:(done) Hne Hm) as (b & -> & Wb & Eb).
  by exists b.
Qed.

(** The exact value of a hexadecimal literal that a finite value is. *)
Lemma parse_number_hex_exact f d control v b n :
  operand d v -> semantics v = f -> pseudo_denormal d v = false -> descriptor f = Some d ->
  wf b -> bval b = bval (significand (decode v)) -> 0 < bval b ->
  parse_number true (negative (decode v)) b n 0 (exponent (decode v)) f control = parse_success v.
Proof.
  intros Hv Hs Hps Hd Wb Eb Pb. unfold parse_number. rewrite BigUInt.is_zero_spec by done.
  rewrite (proj2 (Z.eqb_neq _ 0)) by lia. change (Z.of_nat 0 * 4) with 0. rewrite Z.sub_0_r.
  set (r := round_rational _ _ _ _ _ _).
  pose proof (operand_representable d v Hv) as Hrep. pose proof (operand_below d v Hv) as Hlt.
  unfold decoded_value in Hrep, Hlt. rewrite <- Eb in Hrep, Hlt.
  pose proof (round_integer f d control (negative (decode v)) b (exponent (decode v)) Hd Wb Pb) as Hr. fold r in Hr.
  destruct (rounds_result_exact d f control _ _ _ Hrep Hlt Hr) as (H1 & H2 & H3).
  assert (value r = v) as Ev.
  { apply (encodes_inj f d (negative (decode v)) (decoded_value v)); [done| | | |done].
    - unfold decoded_value. by rewrite <- Eb.
    - rewrite <- Hs. by apply (operand_encodes d).
    - apply round_rational_not_pseudo; [done|done|by apply of_u128_wf|done|by rewrite of_u128_bval]. }
  unfold from_float_result. rewrite Ev, H1, bool_decide_eq_true_2 by done.
  unfold parse_success. f_equal. by apply no_flags_status; [apply round_rational_status|].
Qed.

(** ** Values from their fields *)

Lemma rebuild d v :
  well_formed d v ->
  v = from_raw (semantics v) (compose d (sign_field v d) (exponent_field v d) (significand_field v d)).
Proof.
  intros (Hd & Hw & Hc). pose proof (descriptor_ok _ _ Hd) as Hok. destruct (field_ranges d Hok v) as [We Wm].
  assert (raw_bits v < 2 ^ storage_bits d) as Hr.
  { rewrite (canonical_eq v d) in Hc by done. by apply Z.ltb_lt. }
  destruct (from_raw_compose (semantics v) d (sign_field v d) _ _ Hd We Wm) as (E1 & E2 & _ & E4 & _).
  apply value_ext; [done|done|done|]. rewrite E4. by rewrite <- (raw_bits_compose d Hok v Hw Hr).
Qed.

Lemma field_cases d v :
  well_formed d v -> classify v <> Class_Invalid -> is_finite v = false ->
  exponent_field v d = 2 ^ exponent_bits d - 1 /\
  let m := significand_field v d in
  (explicit_integer_bit d = true -> 2 ^ (precision d - 1) <= m) /\
  (is_infinity v = true <-> m mod 2 ^ (precision d - 1) = 0) /\
  (classify v = QuietNaN <-> 2 ^ (precision d - 2) <= m mod 2 ^ (precision d - 1)).
Proof.
  intros (Hd & Hw & Hc). pose proof (descriptor_ok _ _ Hd) as Hok.
  pose proof (pow2_pos (precision d - 2) ltac:(destruct Hok; lia)).
  unfold is_finite, is_infinity, classify. rewrite (decode_spec v d Hd Hw Hc). unfold decode_fields.
  destruct (Z.eqb_spec (exponent_field v d) (2 ^ exponent_bits d - 1)) as [E|E].
  - destruct (explicit_integer_bit d); cbn [andb].
    + destruct (Z.ltb_spec (significand_field v d) (2 ^ (precision d - 1))); [done|].
      destruct (Z.eqb_spec (significand_field v d mod 2 ^ (precision d - 1)) 0) as [E0|E0].
      * intros _ _. split; [done|]. split; [done|]. split; [done|]. rewrite E0. split; [done|lia].
      * cbn [classification]. destruct (Z.leb_spec (2 ^ (precision d - 2)) (significand_field v d mod 2 ^ (precision d - 1)));
          intros _ _; (split; [done|]); (split; [done|]); (split; [done|]); (split; [done|]); done || lia.
    + destruct (Z.eqb_spec (significand_field v d mod 2 ^ (precision d - 1)) 0) as [E0|E0].
      * intros _ _. split; [done|]. split; [done|]. split; [done|]. rewrite E0. split; [done|lia].
      * cbn [classification]. destruct (Z.leb_spec (2 ^ (precision d - 2)) (significand_field v d mod 2 ^ (precision d - 1)));
          intros _ _; (split; [done|]); (split; [done|]); (split; [done|]); (split; [done|]); done || lia.
  - intros Hn Hf. exfalso. destruct (_ =? 0); [by destruct (_ =? 0); [|destruct (_ <=? _)]|].
    by destruct (_ && _)%bool.
Qed.

(** The stored significand is the integer bit and the fraction. *)
Lemma significand_split d v :
  well_formed d v -> (explicit_integer_bit d = true -> 2 ^ (precision d - 1) <= significand_field v d) ->
  significand_field v d
  = significand_field v d mod 2 ^ (precision d - 1) + (if explicit_integer_bit d then 2 ^ (precision d - 1) else 0).
Proof.
  intros (Hd & _) Hm. pose proof (descriptor_ok _ _ Hd) as Hok. destruct (field_ranges d Hok v) as [_ Wm].
  pose proof (pow2_pos (precision d - 1) ltac:(destruct Hok; lia)).
  pose proof (pow2_succ (precision d - 1) ltac:(destruct Hok; lia)) as Hp.
  replace (precision d - 1 + 1) with (precision d) in Hp by lia.
  unfold word in Wm. rewrite (dk_significand d Hok) in Wm. destruct (explicit_integer_bit d).
  - rewrite Z.sub_0_r in Wm. specialize (Hm eq_refl).
    assert (significand_field v d mod 2 ^ (precision d - 1) = significand_field v d - 2 ^ (precision d - 1)); [|lia].
    symmetry. apply Z.mod_unique with 1; lia.
  - rewrite Z.mod_small by lia. lia.
Qed.

Lemma infinity_rebuild d v :
  well_formed d v -> is_infinity v = true -> v = infinity (semantics v) (negative (decode v)).
Proof.
  intros Hw Hi. assert (classify v = Infinity) as Hc.
  { unfold is_infinity, class_eqb in Hi. by apply bool_decide_eq_true in Hi. }
  destruct (field_cases d v Hw) as (E & H1 & H2 & _); [by rewrite Hc|unfold is_finite; by rewrite Hc|].
  rewrite (rebuild d v Hw) at 1. rewrite (proj1 (infinity_compose (semantics v) d _ (proj1 Hw))).
  rewrite (decode_negative v d Hw). f_equal. f_equal; [done|].
  rewrite (significand_split d v Hw H1) at 1. rewrite (proj1 H2 Hi). lia.
Qed.

Lemma quiet_nan_rebuild d v b :
  well_formed d v -> classify v = QuietNaN -> words b -> bval b = raw_bits v ->
  make_nan (semantics v) (negative (decode v)) false b = v.
Proof.
  intros Hw Hc Wb Eb. pose proof (descriptor_ok _ _ (proj1 Hw)) as Hok.
  destruct (field_cases d v Hw) as (E & H1 & _ & H3); [by rewrite Hc|unfold is_finite; by rewrite Hc|].
  symmetry. rewrite (rebuild d v Hw) at 1.
  rewrite (proj1 (make_nan_compose (semantics v) d _ false b (proj1 Hw) Wb)). rewrite (decode_negative v d Hw).
  f_equal. f_equal; [done|]. rewrite (significand_split d v Hw H1) at 1. f_equal.
  unfold nan_fraction, payload_field. rewrite Eb.
  set (m := significand_field v d) in *. set (K := 2 ^ (precision d - 2)).
  pose proof (pow2_succ (precision d - 2) ltac:(destruct Hok; lia)) as Hp. fold K in Hp.
  replace (precision d - 2 + 1) with (precision d - 1) in Hp by lia.
  assert (0 < K) as HK by (apply pow2_pos; destruct Hok; lia).
  assert (raw_bits v mod 2 ^ 128 mod K = m mod (2 ^ (precision d - 1)) mod K) as ->.
  { pose proof (raw_bits_word v (proj1 (proj2 Hw))) as Hr128. rewrite (Z.mod_small _ (2 ^ 128)) by exact Hr128.
    assert (raw_bits v < 2 ^ storage_bits d) as Hr.
    { destruct Hw as (Hd & Hw & Hcan). rewrite (canonical_eq v d) in Hcan by done. by apply Z.ltb_lt. }
    rewrite (raw_bits_compose d Hok v (proj1 (proj2 Hw)) Hr). fold m. unfold compose.
    rewrite Hp, Z.mod_mod_divide by (exists 2; lia).
    pose proof (ssb_range d Hok). pose proof (storage_pred d Hok).
    assert (precision d - 2 <= significand_storage_bits d) by (destruct Hok as [_ -> _ _ _ _]; destruct (explicit_integer_bit d); lia).
    replace (2 ^ significand_storage_bits d) with (2 ^ (significand_storage_bits d - (precision d - 2)) * K)
      by (unfold K; rewrite <- Z.pow_add_r by (destruct Hok; lia); f_equal; lia).
    replace (2 ^ (storage_bits d - 1)) with (2 ^ (storage_bits d - 1 - (precision d - 2)) * K)
      by (unfold K; rewrite <- Z.pow_add_r by (destruct Hok; lia); f_equal; lia).
    rewrite !Z.mul_assoc, <- Z.add_assoc, <- Z.mul_add_distr_r. by rewrite Z.mod_add by lia. }
  pose proof (proj1 H3 Hc) as Hq. fold K in Hq.
  pose proof (Z.mod_pos_bound m (2 ^ (precision d - 1)) ltac:(lia)) as Hb.
  set (fr := m mod 2 ^ (precision d - 1)) in *.
  assert (fr mod K = fr - K); [symmetry; apply Z.mod_unique with 1; lia|lia].
Qed.

(** ** The bit pattern in hexadecimal *)

Lemma bit_pattern_hex_spec d v :
  well_formed d v ->
  digits_value 16 0 (bit_pattern_hex v) = Some (raw_bits v) /\
  Forall (is_digit_of 16) (bit_pattern_hex v) /\ bit_pattern_hex v <> [].
Proof.
  intros (Hd & Hw & Hc). unfold bit_pattern_hex. rewrite Hc. cbn [negb].
  pose proof (canonical_eq v d Hd Hw) as Hcan. rewrite Hc in Hcan. symmetry in Hcan. apply Z.ltb_lt in Hcan.
  rewrite (raw_bits_eq v Hw) in *. destruct Hw as [[L1 L2] [H1 H2]].
  assert (forall k n, (0 < k)%nat -> 0 <= n < 16 ^ Z.of_nat k ->
    digits_value 16 0 (pad0 k (to_digits 16 n)) = Some n /\ Forall (is_digit_of 16) (pad0 k (to_digits 16 n)) /\
    pad0 k (to_digits 16 n) <> []) as Hone.
  { intros k n Hk Hn. split; [rewrite pad0_value by (done || lia); by f_equal; lia|].
    split; [by apply pad0_digits|]. unfold pad0. intros E. apply app_eq_nil in E as [_ E]. by apply to_digits_nonempty in E. }
  assert (forall k n, (0 < k)%nat -> 0 <= n < 16 ^ Z.of_nat k ->
    digits_value 16 0 (pad0 k (to_digits 16 n) ++ pad0 16 (to_digits 16 (low_bits v))) = Some (low_bits v + n * 2 ^ 64) /\
    Forall (is_digit_of 16) (pad0 k (to_digits 16 n) ++ pad0 16 (to_digits 16 (low_bits v))) /\
    pad0 k (to_digits 16 n) ++ pad0 16 (to_digits 16 (low_bits v)) <> []) as Htwo.
  { intros k n Hk Hn. destruct (Hone k n Hk Hn) as (A & B & C).
    split; [|split; [apply Forall_app; split; [done|by apply pad0_digits]|]].
    - rewrite (digits_value_app 16 _ _ 0 n A), pad0_value by (done || lia). f_equal. change (16 ^ Z.of_nat 16) with (2 ^ 64). lia.
    - intros E. by apply app_eq_nil in E as [? _]. }
  destruct (semantics v); [done|..]; injection Hd as <-; cbn [storage_bits] in Hcan.
  - rewrite uwrap_small by (unfold word; lia). assert (high_bits v = 0) as -> by lia.
    rewrite Z.add_0_r. apply Hone; [lia|]. change (16 ^ Z.of_nat 4) with (2 ^ 16). lia.
  - rewrite uwrap_small by (unfold word; lia). assert (high_bits v = 0) as -> by lia.
    rewrite Z.add_0_r. apply Hone; [lia|]. change (16 ^ Z.of_nat 8) with (2 ^ 32). lia.
  - assert (high_bits v = 0) as -> by lia.
    rewrite Z.add_0_r. apply Hone; [lia|]. change (16 ^ Z.of_nat 16) with (2 ^ 64). lia.
  - rewrite uwrap_small by (unfold word; lia). apply Htwo; [lia|]. change (16 ^ Z.of_nat 4) with (2 ^ 16). lia.
  - apply Htwo; [lia|]. change (16 ^ Z.of_nat 16) with (2 ^ 64). lia.
Qed.

Lemma parse_nan_literal f d control neg hex m :
  descriptor f = Some d -> Forall (is_digit_of 16) hex -> hex <> [] -> digits_value 16 0 hex = Some m ->
  m < 2 ^ 128 ->
  exists b, wf b /\ bval b = m /\
    parse (sign_text neg ++ str "nan(0x" ++ hex ++ str ")") f control
    = parse_success (make_nan f neg false b).
Proof.
  intros Hd Hhex Hne Hm Hlt. destruct (parse_big_digits_spec 16 hex m ltac:(done) Hne Hm) as (b & Eb & Wb & Vb).
  exists b. split; [done|]. split; [done|]. unfold parse. rewrite Hd.
  set (body := str "nan(0x" ++ hex ++ str ")").
  assert (normalize_spelling (sign_text neg ++ body) = sign_text neg ++ body) as ->.
  { unfold normalize_spelling. rewrite filter_all.
    2: { apply Forall_app. split; [by destruct neg; repeat constructor|]. unfold body. apply Forall_app.
         split; [by repeat constructor|]. apply Forall_app. split; [|by repeat constructor].
         apply (Forall_digits 16); [done|reflexivity]. }
    assert (rev (sign_text neg ++ body) = ")"%char :: rev (sign_text neg ++ str "nan(0x" ++ hex)) as Hrev.
    { unfold body. rewrite !app_assoc, rev_app_distr. done. }
    unfold ends_in. rewrite Hrev. cbn [existsb ceqb Ascii.eqb Bool.eqb str String.list_ascii_of_string orb].
    cbn [literal_suffixes strip_suffix]. unfold ends_with. rewrite Hrev.
    cbn [str String.list_ascii_of_string rev app starts_with ceqb Ascii.eqb Bool.eqb andb]. rewrite !andb_false_r.
    by destruct neg. }
  assert ((match sign_text neg ++ body with c :: _ => ceqb c "-" | [] => false end) = neg) as -> by by destruct neg.
  assert (drop_sign (sign_text neg ++ body) = body) as -> by by destruct neg.
  assert (case_equal body (str "inf") = false) as -> by done.
  assert (case_equal body (str "infinity") = false) as -> by done.
  assert (case_equal body (str "nan") = false) as -> by done. cbn [orb].
  assert (nan_payload body = Some (str "0x" ++ hex)) as ->.
  { unfold body. change (str "nan(0x" ++ hex ++ str ")") with (str "nan(" ++ (str "0x" ++ hex) ++ str ")").
    set (t := str "0x" ++ hex). unfold nan_payload. cbn [str String.list_ascii_of_string app].
    assert (ends_in ("n"%char :: "a"%char :: "n"%char :: "("%char :: t ++ [")"%char]) [")"%char] = true) as Hend.
    { unfold ends_in. change ("n"%char :: "a"%char :: "n"%char :: "("%char :: t ++ [")"%char]) with
        ((str "nan(" ++ t) ++ [")"%char]). by rewrite rev_app_distr. }
    rewrite Hend. cbn [length]. rewrite length_app. cbn [length Nat.leb Nat.sub drop]. 
    replace (length t + 1)%nat with (S (length t)) by lia.
    change (ceqb (tolower "n") "n") with true. change (ceqb (tolower "a") "a") with true. change (ceqb "(" "(") with true.
    cbn [andb]. f_equal. rewrite drop_0. replace (S (length t) - 1)%nat with (length t) by lia. apply take_app_length. }
  unfold nan. rewrite Hd. cbn [str String.list_ascii_of_string app length hex_prefix].
  assert ((2 <? S (S (length hex)))%nat = true) as ->.
  { apply Nat.ltb_lt. destruct hex; [done|simpl; lia]. }
  change (ceqb "0" "0" && is_x "x") with true. cbn [andb drop]. rewrite drop_0. destruct hex as [|c hex]; [done|].
  rewrite Eb. pose proof (wf_nonneg b Wb).
  assert (BigUInt.bit_width b <= 128) as Hbw.
  { destruct (Z.eq_dec (bval b) 0) as [E0|E0].
    - rewrite (bit_width_spec b Wb). rewrite E0. vm_compute. discriminate.
    - destruct (bit_width_bounds b Wb ltac:(lia)) as (_ & H1 & _).
      apply Z.nlt_ge. intros L. pose proof (pow2_le 128 (BigUInt.bit_width b - 1) ltac:(lia)). lia. }
  rewrite Z.gtb_ltb, (proj2 (Z.ltb_ge 128 _)) by done. done.
Qed.

(** ** What is printed reads back *)

Lemma zero_rebuild d v :
  operand d v -> classification (decode v) = Zero -> pseudo_denormal d v = false ->
  v = zero (semantics v) (negative (decode v)).
Proof.
  intros Hv Hz Hps. pose proof (proj1 (proj1 Hv)) as Hd. pose proof (descriptor_ok _ _ Hd) as Hok.
  apply (encodes_inj (semantics v) d (negative (decode v)) 0); [done| |by apply (encodes_zero _ d)|done|].
  - apply (encodes_proper _ _ (decoded_value v)); [by apply (operand_zero_value d v Hv)|by apply (operand_encodes d)].
  - rewrite (zero_compose _ d) by done. apply pseudo_denormal_from_raw; [done| | |].
    + apply word_0. destruct Hok; lia.
    + apply word_0. pose proof (ssb_range d Hok). lia.
    + intros _. apply pow2_pos. destruct Hok; lia.
Qed.

Lemma operand_exponent_bound d v : operand d v -> Z.abs (exponent (decode v)) <= 1000000000.
Proof.
  intros Hv. pose proof (descriptor_ok _ _ (proj1 (proj1 Hv))) as Hok. pose proof (exponent_bounds d Hok).
  destruct (operand_shape d v Hv) as [_ Hs]. unfold min_subnormal_exponent in *.
  pose proof (dk_precision d Hok). pose proof (bias_bounds d Hok). unfold finite_shape, min_normal_exponent in *.
  destruct Hs as [[_ ->]|[[_ ->]|[_ ?]]]; lia.
Qed.

(** The values with one spelling each: not malformed, not a signaling NaN (which
    the parser does not produce) and not an x87 pseudo-denormal. *)
Definition printable (d : FloatFormatDescriptor) (v : FloatValue) : Prop :=
  well_formed d v /\ classify v <> Class_Invalid /\ classify v <> SignalingNaN /\ pseudo_denormal d v = false.

Lemma hex_display_finite d v control :
  operand d v -> pseudo_denormal d v = false ->
  parse (hex_display v) (semantics v) control = parse_success v.
Proof.
  intros Hv Hps. pose proof (proj1 (proj1 Hv)) as Hd. unfold hex_display.
  destruct (operand_classes d v Hv) as (-> & -> & ->). rewrite (class_zero_eqb d v Hv).
  destruct (operand_shape d v Hv) as [Wsig _]. pose proof (operand_range d v Hv) as Hr.
  destruct (Z.eqb_spec (bval (significand (decode v))) 0) as [E|E].
  - assert ((if negative (decode v) then str "-0x0p0" else str "0x0p0")
            = sign_text (negative (decode v)) ++ str "0x" ++ str "0" ++ "p"%char :: to_string 0) as ->
      by by destruct (negative (decode v)).
    destruct (parse_hex_literal (semantics v) d control (negative (decode v)) (str "0") 0 0 Hd)
      as (b & Wb & Eb & ->); [by repeat (constructor; [by exists 0|])|done|done|done|].
    unfold parse_number. rewrite BigUInt.is_zero_spec, Eb by done. cbn [Z.eqb].
    by rewrite <- (zero_rebuild d v Hv (proj2 (operand_zero d v Hv) E) Hps).
  - destruct (to_hex_spec _ Wsig) as (H1 & H2 & H3).
    assert ((if negative (decode v) then str "-0x" else str "0x") = sign_text (negative (decode v)) ++ str "0x") as ->
      by by destruct (negative (decode v)).
    rewrite <- app_assoc.
    destruct (parse_hex_literal (semantics v) d control (negative (decode v)) _ _ _ Hd H2 H3 H1 (operand_exponent_bound d v Hv))
      as (b & Wb & Eb & ->).
    apply (parse_number_hex_exact _ d); try done. lia.
Qed.

Lemma display_infinity d v control s :
  well_formed d v -> is_infinity v = true ->
  s = (if negative (decode v) then str "-inf" else str "inf") ->
  parse s (semantics v) control = parse_success v.
Proof.
  intros Hw Hi ->. rewrite (infinity_rebuild d v Hw Hi) at 3.
  unfold parse. rewrite (proj1 Hw). by destruct (negative (decode v)).
Qed.

Lemma display_nan d v control s :
  well_formed d v -> classify v = QuietNaN ->
  s = (if negative (decode v) then str "-nan(0x" else str "nan(0x") ++ bit_pattern_hex v ++ str ")" ->
  parse s (semantics v) control = parse_success v.
Proof.
  intros Hw Hc ->. destruct (bit_pattern_hex_spec d v Hw) as (H1 & H2 & H3).
  assert ((if negative (decode v) then str "-nan(0x" else str "nan(0x") = sign_text (negative (decode v)) ++ str "nan(0x") as ->
    by by destruct (negative (decode v)).
  rewrite <- app_assoc.
  destruct (parse_nan_literal (semantics v) d control (negative (decode v)) _ _ (proj1 Hw) H2 H3 H1)
    as (b & Wb & Eb & ->); [by apply raw_bits_word, Hw|].
  by rewrite (quiet_nan_rebuild d v b Hw Hc (wf_words _ Wb) Eb).
Qed.

Lemma printable_cases d v :
  printable d v -> operand d v \/ is_infinity v = true \/ classify v = QuietNaN.
Proof.
  intros (Hw & H1 & H2 & _). unfold operand, is_finite, is_infinity, classify in *.
  destruct (classification (decode v)); try done; auto.
Qed.

Lemma hex_reads_back d v control :
  printable d v -> parse (hex_display v) (semantics v) control = parse_success v.
Proof.
  intros Hp. destruct (printable_cases d v Hp) as [Hv|[Hi|Hc]].
  - apply (hex_display_finite d); [done|apply Hp].
  - apply (display_infinity d); [apply Hp|done|]. unfold hex_display.
    unfold is_infinity, classify in Hi. by destruct (classification (decode v)).
  - apply (display_nan d); [apply Hp|done|]. unfold hex_display. unfold classify in Hc. by rewrite Hc.
Qed.

(** hexadecimal spelling round trip. For every format and every value
    that is not malformed, a signaling NaN or an x87 pseudo-denormal, parsing
    what [hex_display] prints gives back exactly the same bits with no flag and
    no error, in any rounding mode: finite values through the exact hexadecimal
    literal, zeros with their sign, infinities, and quiet NaNs with their
    payload. *)
Theorem hex_round_trip d v control :
  printable d v -> parse (hex_display v) (semantics v) control = parse_success v.
Proof. exact (@hex_reads_back d v control). Qed.

Lemma hex_round_trip_witness :
  parse (str "-0x1234567890123p-1074") IEEEBinary64 default_control
  = parse_success (mkFloat IEEEBinary64 0x8001234567890123 0).
Proof.
  exact (hex_round_trip (mkDescriptor 64 53 52 11 1023 false) (mkFloat IEEEBinary64 0x8001234567890123 0)
    default_control ltac:(concrete)).
Defined.

(** A spelling the parser reads as [v]. *)
Definition reads_as (v : FloatValue) (s : chars) : Prop :=
  parsed_ok (parse s (semantics v) default_control) = true /\
  parse_value (parse s (semantics v) default_control) = v.

Lemma success_reads_as v s :
  valid v = true -> parse s (semantics v) default_control = parse_success v -> reads_as v s.
Proof. intros Hv E. unfold reads_as, parsed_ok. by rewrite E. Qed.

Lemma try_candidate_reads v neg x count best coefficient :
  best = [] \/ reads_as v best ->
  try_candidate v neg x count best coefficient = [] \/ reads_as v (try_candidate v neg x count best coefficient).
Proof.
  intros Hb. unfold try_candidate. destruct (if (count <? length coefficient)%nat then _ else _) as [c y].
  destruct (_ && _ && _) eqn:E; [right|done]. apply andb_true_iff in E as [E _]. apply andb_true_iff in E as [E1 E2].
  split; [done|]. by apply bool_decide_eq_true in E2.
Qed.

Lemma foldl_reads v neg x count cs : forall best,
  best = [] \/ reads_as v best ->
  foldl (try_candidate v neg x count) best cs = [] \/ reads_as v (foldl (try_candidate v neg x count) best cs).
Proof.
  induction cs as [|c cs IH]; intros best Hb; simpl; [done|]. apply IH. by apply try_candidate_reads.
Qed.

Lemma display_loop_reads v neg digits x room : forall count,
  reads_as v (hex_display v) -> reads_as v (display_loop v neg digits x room count).
Proof.
  induction room as [|room IH]; intros count Hh; simpl; [done|].
  destruct (foldl_reads v neg x count (coefficients digits count) [] ltac:(by left)) as [E|E].
  - rewrite E. apply IH; exact Hh.
  - destruct (foldl _ [] _); [apply IH; exact Hh|exact E].
Qed.

(** Claim C10: decimal display round trip. Parsing what [display] prints, in the
    default mode, gives back exactly the same bits, for every value that is not
    malformed, a signaling NaN or an x87 pseudo-denormal; the search over digit
    counts can fail, and then the hexadecimal spelling is printed. *)
Theorem display_round_trip d v :
  printable d v -> reads_as v (display v).
Proof.
  intros Hp. pose proof (hex_reads_back d v default_control Hp) as Hhex. destruct (Hp) as (Hw & _ & _ & Hps).
  assert (valid v = true) as Hval.
  { unfold valid. destruct Hw as [Hd _]. by destruct (semantics v). }
  unfold display. rewrite (proj1 Hw). destruct (printable_cases d v Hp) as [Hv|[Hi|Hc]].
  - destruct (operand_classes d v Hv) as (-> & -> & ->).
    destruct (class_eqb (classification (decode v)) Zero) eqn:Ez.
    + apply success_reads_as; [done|]. apply bool_decide_eq_true in Ez.
      rewrite (zero_rebuild d v Hv Ez Hps) at 3. unfold parse. rewrite (proj1 Hw).
      by destruct (negative (decode v)).
    + destruct (if exponent (decode v) >=? 0 then (_, _) else _) as [n s].
      apply display_loop_reads. by apply success_reads_as.
  - apply success_reads_as; [done|]. apply (display_infinity d); [done|done|].
    unfold is_infinity, classify in Hi. by destruct (classification (decode v)).
  - apply success_reads_as; [done|]. apply (display_nan d); [done|done|]. unfold classify in Hc. by rewrite Hc.
Qed.

Lemma display_round_trip_witness : reads_as (mkFloat IEEEBinary32 0x3DCCCCCD 0) (str "0.1").
Proof.
  exact (display_round_trip (mkDescriptor 32 24 23 8 127 false) (mkFloat IEEEBinary32 0x3DCCCCCD 0)
    ltac:(concrete)).
Defined.
