(* ===== verification/FloatDecimal.v ===== *)
(** * Decimal literals (parse of src/numeric/floating_point.cpp)

    A decimal literal is correctly rounded from its exact decimal value. The two
    shortcuts of the code, for an adjusted exponent above 6000 or below -6000,
    are proved sound for literals without superfluous leading zeros; the first is
    shown to be wrong on a literal that has them. *)
From S2P Require Import Prelude BigUInt FloatValue Dyadic Rounding FloatSpecial FloatArith FloatConvert FloatText FloatRoundTrip.
Open Scope Z_scope.

(** ** Powers of five and ten *)

Lemma power_of_five_spec n : wf (power_of_five n) /\ bval (power_of_five n) = 5 ^ Z.of_nat n.
Proof.
  unfold power_of_five.
  apply (for_up_inv (fun i b => wf b /\ bval b = 5 ^ Z.of_nat i)).
  - split; [by apply of_u128_wf|by rewrite of_u128_bval].
  - intros i b _ [Hw Hb]. assert (word 32 5) by done. split; [by apply multiply_small_wf|].
    rewrite multiply_small_bval, Hb by done. rewrite Nat2Z.inj_succ, Z.pow_succ_r by lia. lia.
Qed.

(** The decimal number m * 10^k. *)
Definition decimal_value (m k : Z) : Q := (inject_Z m * Qpower 10 k)%Q.

Lemma q10_split k : (Qpower 10 k == Qpower 5 k * q2 k)%Q.
Proof.
  unfold q2. rewrite <- Qmult_power. assert (5 * 2 == 10)%Q as -> by reflexivity. reflexivity.
Qed.

Lemma qpower_nonneg b k : 0 <= k -> (Qpower (inject_Z b) k == inject_Z (b ^ k))%Q.
Proof. intros H. rewrite Zpower_Qpower by exact H. reflexivity. Qed.

(** The quotient the parser builds. *)
Definition scaled_numerator (b : BigUInt) (k : Z) : BigUInt :=
  if 0 <=? k then multiply b (power_of_five (Z.to_nat k)) else b.
Definition scaled_denominator (k : Z) : BigUInt :=
  if 0 <=? k then of_u128 1 else power_of_five (Z.to_nat (- k)).

Lemma scaled_quotient b k :
  wf b -> 0 < bval b ->
  wf (scaled_numerator b k) /\ wf (scaled_denominator k) /\ 0 < bval (scaled_numerator b k) /\
  0 < bval (scaled_denominator k) /\
  (magnitude (scaled_numerator b k) (scaled_denominator k) k == decimal_value (bval b) k)%Q.
Proof.
  intros Wb Pb. unfold scaled_numerator, scaled_denominator, decimal_value, magnitude.
  destruct (Z.leb_spec 0 k) as [L|L].
  - destruct (power_of_five_spec (Z.to_nat k)) as [W5 E5]. rewrite Z2Nat.id in E5 by done.
    pose proof (Z.pow_pos_nonneg 5 k ltac:(lia) L) as P5.
    rewrite multiply_bval, of_u128_bval, E5 by done.
    split; [by apply multiply_wf|]. split; [by apply of_u128_wf|]. split; [nia|]. split; [done|].
    rewrite q10_split, inject_Z_mult. assert (Qpower 5 k == inject_Z (5 ^ k))%Q as -> by by apply qpower_nonneg.
    change (inject_Z 1) with 1%Q. field.
  - destruct (power_of_five_spec (Z.to_nat (- k))) as [W5 E5]. rewrite Z2Nat.id in E5 by lia.
    pose proof (Z.pow_pos_nonneg 5 (- k) ltac:(lia) ltac:(lia)) as P5. rewrite E5.
    split; [done|]. split; [done|]. split; [done|]. split; [done|].
    rewrite q10_split.
    assert (Qpower 5 k == / Qpower 5 (- k))%Q as -> by (rewrite <- Qpower_opp, Z.opp_involutive; reflexivity).
    assert (Qpower 5 (- k) == inject_Z (5 ^ (- k)))%Q as -> by (apply qpower_nonneg; lia).
    field. intros E. unfold Qeq in E. simpl in E. lia.
Qed.

(** ** The shortcuts *)

Lemma q10_pos k : (0 < Qpower 10 k)%Q.
Proof. apply Qpower_0_lt. reflexivity. Qed.

Lemma q10_add a b : (Qpower 10 (a + b) == Qpower 10 a * Qpower 10 b)%Q.
Proof. apply Qpower_plus. discriminate. Qed.

(** 8^n <= 10^n, upwards and downwards. *)
Lemma q10_ge_q2 n : 0 <= n -> (q2 (3 * n) <= Qpower 10 n)%Q.
Proof.
  intros Hn. rewrite q2_nonneg by lia. assert (Qpower 10 n == inject_Z (10 ^ n))%Q as -> by by apply qpower_nonneg.
  rewrite <- Zle_Qle. rewrite Z.pow_mul_r by lia. apply Z.pow_le_mono_l. change (2 ^ 3) with 8. lia.
Qed.

Lemma q10_le_q2 n : 0 <= n -> (Qpower 10 (- n) <= q2 (- (3 * n)))%Q.
Proof.
  intros Hn. pose proof (q10_ge_q2 n Hn) as H. pose proof (q2_pos (3 * n)) as Hp.
  assert (Qpower 10 (- n) == / Qpower 10 n)%Q as -> by apply Qpower_opp.
  assert (q2 (- (3 * n)) == / q2 (3 * n))%Q as -> by apply Qpower_opp.
  apply Qle_shift_inv_l; [done|]. rewrite Qmult_comm.
  apply Qle_shift_div_r; [apply q10_pos|]. by rewrite Qmult_1_l.
Qed.

Lemma q10_mono a b : a <= b -> (Qpower 10 a <= Qpower 10 b)%Q.
Proof.
  intros H. replace b with (a + (b - a)) by lia. rewrite q10_add.
  rewrite <- (Qmult_1_r (Qpower 10 a)) at 1. rewrite Qmult_le_l by apply q10_pos.
  assert (Qpower 10 (b - a) == inject_Z (10 ^ (b - a)))%Q as -> by (apply qpower_nonneg; lia).
  change 1%Q with (inject_Z 1). rewrite <- Zle_Qle. pose proof (Z.pow_pos_nonneg 10 (b - a)). lia.
Qed.

(** Bounds on the number [n] digits denote. *)
Lemma digits_value_bounds base s : forall a v,
  2 <= base -> 0 <= a -> digits_value base a s = Some v ->
  a * base ^ Z.of_nat (length s) <= v < (a + 1) * base ^ Z.of_nat (length s).
Proof.
  induction s as [|c s IH]; intros a v Hb Ha Hv.
  - injection Hv as <-. change (Z.of_nat (length [])) with 0. lia.
  - cbn [digits_value] in Hv. destruct (char_digit c) as [dg|] eqn:Ec; [|done].
    destruct (Z.ltb_spec dg base) as [L|]; [|done].
    assert (0 <= dg) as H0.
    { unfold char_digit in Ec. repeat case_match; simplify_eq;
        repeat match goal with H : (_ && _)%bool = true |- _ => apply andb_true_iff in H as [?%Z.leb_le ?%Z.leb_le] end; lia. }
    destruct (IH (a * base + dg) v Hb ltac:(nia) Hv) as [H1 H2]. cbn [length].
    rewrite Nat2Z.inj_succ, Z.pow_succ_r by lia. pose proof (Z.pow_pos_nonneg base (Z.of_nat (length s))). nia.
Qed.

Lemma decimal_huge f d control neg b k :
  descriptor f = Some d -> wf b -> 0 < bval b -> (Qpower 10 6001 <= decimal_value (bval b) k)%Q ->
  rounds_result d f control neg (decimal_value (bval b) k) (overflow_result f neg control).
Proof.
  intros Hd Wb Pb H. pose proof (descriptor_ok _ _ Hd) as Hok.
  destruct (scaled_quotient b k Wb Pb) as (Wn & Wd & Pn & Pd & E).
  apply (rounds_result_proper _ _ _ _ _ _ _ E).
  apply (round_huge f d Hd control neg _ _ k Wn Wd Pn Pd).
  destruct (leading_exponent_spec _ _ k Wn Wd Pn Pd) as [_ L]. rewrite E in L.
  pose proof (Qle_lt_trans _ _ _ (Qle_trans _ _ _ (q10_ge_q2 6001 ltac:(lia)) H) L) as L2.
  apply (proj1 (q2_lt _ _)) in L2.
  rewrite (max_normal_eq d Hok). pose proof (bias_bounds d Hok). lia.
Qed.

Lemma decimal_tiny f d control neg b k :
  descriptor f = Some d -> wf b -> 0 < bval b -> (decimal_value (bval b) k < Qpower 10 (-6000))%Q ->
  rounds_result d f control neg (decimal_value (bval b) k) (tiny_nonzero_result f neg control).
Proof.
  intros Hd Wb Pb H. pose proof (descriptor_ok _ _ Hd) as Hok.
  destruct (scaled_quotient b k Wb Pb) as (Wn & Wd & Pn & Pd & E).
  apply (rounds_result_proper _ _ _ _ _ _ _ E).
  apply (round_tiny f d Hd control neg _ _ k Wn Wd Pn Pd).
  destruct (leading_exponent_spec _ _ k Wn Wd Pn Pd) as [L _]. rewrite E in L.
  pose proof (Qlt_le_trans _ _ _ (Qle_lt_trans _ _ _ L H) (q10_le_q2 6000 ltac:(lia))) as L2.
  apply (proj1 (q2_lt _ _)) in L2.
  unfold min_subnormal_exponent, min_normal_exponent. pose proof (bias_bounds d Hok). destruct Hok; lia.
Qed.

(** ** Correct rounding *)

(** The digits after the shift: an integer of [n] digits times 10^k. *)
Lemma decimal_rounded f d control neg b n k :
  descriptor f = Some d -> wf b -> 0 < bval b -> bval b < 10 ^ Z.of_nat n ->
  10 ^ (Z.of_nat n - 1) <= bval b \/ Z.of_nat n + k - 1 <= 6000 ->
  exists r, parse_number false neg b n 0 k f control = from_float_result r /\ error r = Error_None /\
    rounds_result d f control neg (decimal_value (bval b) k) r.
Proof.
  intros Hd Wb Pb Hlt Hlead. unfold parse_number. rewrite BigUInt.is_zero_spec by done.
  rewrite (proj2 (Z.eqb_neq _ 0)) by lia. cbv zeta. change (Z.of_nat 0) with 0. rewrite Z.sub_0_r.
  rewrite Z.gtb_ltb. destruct (Z.ltb_spec 6000 (Z.of_nat n + k - 1)) as [L|L].
  - exists (overflow_result f neg control). split; [done|]. split; [done|].
    apply decimal_huge; [done|done|done|]. destruct Hlead as [Hlead|]; [|lia].
    assert (1 <= Z.of_nat n) as Hn by (destruct n; [simpl in Hlt; lia|lia]).
    apply Qle_trans with (Qpower 10 (Z.of_nat n - 1 + k)); [apply q10_mono; lia|]. rewrite q10_add.
    unfold decimal_value. apply Qmult_le_compat_r; [|apply Qlt_le_weak, q10_pos].
    assert (Qpower 10 (Z.of_nat n - 1) == inject_Z (10 ^ (Z.of_nat n - 1)))%Q as -> by (apply qpower_nonneg; lia).
    by rewrite <- Zle_Qle.
  - destruct (Z.ltb_spec (Z.of_nat n + k - 1) (-6000)) as [L2|L2].
    + exists (tiny_nonzero_result f neg control). split; [done|]. split; [done|].
      apply decimal_tiny; [done|done|done|].
      apply Qlt_le_trans with (Qpower 10 (Z.of_nat n + k)); [|apply q10_mono; lia]. rewrite q10_add.
      unfold decimal_value. rewrite Qmult_lt_r by apply q10_pos.
      assert (Qpower 10 (Z.of_nat n) == inject_Z (10 ^ Z.of_nat n))%Q as -> by (apply qpower_nonneg; lia).
      by rewrite <- Zlt_Qlt.
    + fold (scaled_numerator b k) (scaled_denominator k).
      destruct (scaled_quotient b k Wb Pb) as (Wn & Wd & Pn & Pd & E).
      exists (round_rational neg (scaled_numerator b k) (scaled_denominator k) k f control).
      split; [done|]. pose proof (round_rational_spec f d control neg _ _ k Hd Wn Wd Pn Pd) as H.
      split; [by destruct H as (q & _ & [[_ ->]|(_ & ? & _)])|].
      by apply (rounds_result_proper _ _ _ _ _ _ _ E).
Qed.

(** A sign, an integer part, a fraction and an exponent. *)
Definition decimal_literal (neg : bool) (ip fp : chars) (x : Z) : chars :=
  sign_text neg ++ ip ++ "."%char :: fp ++ "e"%char :: to_string x.

Lemma parse_number_shift neg b n fr x f control :
  parse_number false neg b n fr x f control = parse_number false neg b n 0 (x - Z.of_nat fr) f control.
Proof. unfold parse_number. change (Z.of_nat 0) with 0. by rewrite !Z.sub_0_r. Qed.

Lemma parse_decimal_literal f d control neg ip fp m x :
  descriptor f = Some d -> Forall (is_digit_of 10) ip -> Forall (is_digit_of 10) fp -> ip <> [] ->
  digits_value 10 0 (ip ++ fp) = Some m -> Z.abs x <= 1000000000 ->
  exists b, wf b /\ bval b = m /\
    parse (decimal_literal neg ip fp x) f control
    = parse_number false neg b (length (ip ++ fp)) (length fp) x f control.
Proof.
  intros Hd Hip Hfp Hne Hm Hx.
  destruct (parse_big_digits_spec 10 (ip ++ fp) m ltac:(done)) as (b & Eb & Wb & Vb);
    [by destruct ip|done|]. exists b. split; [done|]. split; [done|].
  assert (forall P, digits_all 10 P = true -> P "."%char = true ->
    Forall (fun c => P c = true) (ip ++ "."%char :: fp)) as Hall.
  { intros P HP Hdot. apply Forall_app. split; [by apply (Forall_digits 10)|].
    constructor; [done|by apply (Forall_digits 10)]. }
  unfold parse, decimal_literal. rewrite Hd.
  change (ip ++ "."%char :: fp ++ "e"%char :: to_string x) with (ip ++ ("."%char :: fp) ++ "e"%char :: to_string x).
  rewrite !app_assoc, normalize_exponent; try done.
  2: { apply Forall_app. split; [|by repeat constructor].
       rewrite <- app_assoc. apply Forall_app. split; [by destruct neg; repeat constructor|].
       by apply (Hall (fun c => negb (ceqb c "'"))). }
  rewrite <- !app_assoc.
  assert (exists c rest, (ip ++ ("."%char :: fp) ++ "e"%char :: to_string x) = c :: rest /\ is_decimal c = true /\
    hex_prefix (c :: rest) = false) as (c & rest & Ec & Hc & Hhex).
  { destruct ip as [|c0 ip]; [done|]. inversion Hip as [|? ? H0 Hip']; subst.
    assert (is_decimal c0 = true) by by apply (digits_all_spec 10).
    exists c0, (ip ++ ("."%char :: fp) ++ "e"%char :: to_string x). split; [done|]. split; [done|].
    destruct ip as [|c1 ip]; cbn [hex_prefix app]; [by rewrite andb_false_r|].
    inversion Hip' as [|? ? H1 _]; subst.
    assert (negb (is_x c1) = true) as Hx1 by by apply (digits_all_spec 10 (fun c => negb (is_x c))).
    apply negb_true_iff in Hx1. by rewrite Hx1, andb_false_r. }
  rewrite Ec. destruct (sign_text_front neg c rest Hc) as [-> ->].
  destruct (not_a_word c rest Hc) as (-> & -> & -> & ->). cbn [orb]. rewrite Hhex, <- Ec.
  rewrite app_assoc, split_at_first_app; [|by apply (Hall (fun c => negb (ceqb c "e" || ceqb c "E")))|reflexivity].
  rewrite parse_exponent_to_string by done.
  rewrite split_at_first_app; [|by apply (Forall_digits 10 (fun c => negb (ceqb "." c)))|reflexivity].
  assert (existsb (ceqb ".") fp = false) as ->.
  { apply not_true_is_false. intros T. apply existsb_exists in T as (y & Hy & Ey).
    rewrite Forall_forall in Hfp. specialize (Hfp y). apply Ascii.eqb_eq in Ey. subst y.
    destruct Hfp as (z & Hz & Ez); [exact Hy|].
    assert (negb (ceqb "." (digit_char z)) = true) as T; [|by rewrite <- Ez in T].
    apply (digits_all_spec 10 (fun c => negb (ceqb "." c))); [by exists z|reflexivity]. }
  by rewrite Eb.
Qed.



(** The literal 00...01 of 6002 digits. *)
Definition padded_one : chars := replicate (Z.to_nat 6001) "0"%char ++ str "1".

