(* ===== verification/Target.v ===== *)
(** * Targets (src/abi/target_info.h, src/abi/target_info.cpp)

    [TargetInfo] with the constructors of every supported target, the choice of
    one from a triple, and the macros the preprocessor predefines for it: those
    that name the integer types, the limits of the floating-point formats and the
    platform. Strings are lists of characters. *)
From Stdlib Require Import String.
From S2P Require Import Prelude BigUInt FloatValue Rounding FloatText.
Open Scope Z_scope.

(** ** Data *)

Inductive TargetArch := AARCH64 | X86_64 | X86 | ARM32 | RISCV64 | RISCV32 | OR1K.
Inductive EndiannessKind := Little | Big.
Inductive TargetOS := MACOS | LINUX | WINDOWS | FREEBSD | NETBSD | OS_NONE.
Inductive LongDoubleFormat := IEEE_DOUBLE | X87_EXTENDED | IEEE_QUAD.
Inductive VaListKind := CHAR_PTR | AARCH64_VA_LIST | X86_64_VA_LIST.

#[export] Instance arch_eq_dec : EqDecision TargetArch.
Proof. solve_decision. Defined.
#[export] Instance endianness_eq_dec : EqDecision EndiannessKind.
Proof. solve_decision. Defined.
#[export] Instance os_eq_dec : EqDecision TargetOS.
Proof. solve_decision. Defined.
#[export] Instance ldf_eq_dec : EqDecision LongDoubleFormat.
Proof. solve_decision. Defined.
#[export] Instance va_eq_dec : EqDecision VaListKind.
Proof. solve_decision. Defined.

Record TargetInfo := mkTarget {
  arch : TargetArch;
  os : TargetOS;
  pointer_width : Z;
  long_width : Z;
  long_double_width : Z;
  long_double_storage_bytes : Z;
  long_double_align_bytes : Z;
  real_mode_16 : bool;
  wchar_width : Z;
  wchar_is_unsigned : bool;
  char_is_unsigned : bool;
  endianness : EndiannessKind;
  long_double_format : LongDoubleFormat;
  va_list_kind : VaListKind;
  max_alignment_bytes : Z;
  default_new_alignment_bytes : Z;
  triple : chars;
  gnu_major : Z; gnu_minor : Z; gnu_patch : Z;
  clang_major : Z; clang_minor : Z; clang_patch : Z;
}.

(** The compiler versions and the default alignment of [new], which no
    constructor changes. *)
Definition target (a : TargetArch) (o : TargetOS) (pointer long long_double : Z) (ld_storage ld_align : Z)
    (real_mode : bool) (wchar : Z) (wchar_unsigned char_unsigned : bool) (e : EndiannessKind)
    (ldf : LongDoubleFormat) (va : VaListKind) (t : chars) : TargetInfo :=
  mkTarget a o pointer long long_double ld_storage ld_align real_mode wchar wchar_unsigned char_unsigned e ldf va
    16 16 t 4 2 1 16 0 0.

Definition with_os (o : TargetOS) (real_mode : bool) (ti : TargetInfo) : TargetInfo :=
  mkTarget (arch ti) o (pointer_width ti) (long_width ti) (long_double_width ti) (long_double_storage_bytes ti)
    (long_double_align_bytes ti) real_mode (wchar_width ti) (wchar_is_unsigned ti) (char_is_unsigned ti)
    (endianness ti) (long_double_format ti) (va_list_kind ti) (max_alignment_bytes ti)
    (default_new_alignment_bytes ti) (triple ti) (gnu_major ti) (gnu_minor ti) (gnu_patch ti)
    (clang_major ti) (clang_minor ti) (clang_patch ti).

Definition make_aarch64_darwin (t : chars) : TargetInfo :=
  target AARCH64 MACOS 64 64 64 0 0 false 32 false false Little IEEE_DOUBLE CHAR_PTR t.
Definition make_x86_64_darwin (t : chars) : TargetInfo :=
  target X86_64 MACOS 64 64 80 0 0 false 32 false false Little X87_EXTENDED X86_64_VA_LIST t.
Definition make_aarch64_linux (t : chars) : TargetInfo :=
  target AARCH64 LINUX 64 64 128 0 0 false 32 true true Little IEEE_QUAD AARCH64_VA_LIST t.
Definition make_aarch64_freebsd (t : chars) : TargetInfo := with_os FREEBSD false (make_aarch64_linux t).
Definition make_aarch64_netbsd (t : chars) : TargetInfo := with_os NETBSD false (make_aarch64_linux t).
Definition make_x86_64_linux (t : chars) : TargetInfo :=
  target X86_64 LINUX 64 64 80 0 0 false 32 false false Little X87_EXTENDED X86_64_VA_LIST t.
Definition make_x86_64_windows (t : chars) : TargetInfo :=
  target X86_64 WINDOWS 64 32 64 0 0 false 16 true false Little IEEE_DOUBLE CHAR_PTR t.
Definition make_x86_linux (t : chars) : TargetInfo :=
  target X86 LINUX 32 32 80 12 4 false 32 false false Little X87_EXTENDED CHAR_PTR t.
Definition make_x86_bare (t : chars) : TargetInfo := with_os OS_NONE true (make_x86_linux t).
Definition make_or1k_linux (t : chars) : TargetInfo :=
  target OR1K LINUX 32 32 64 0 0 false 32 false false Big IEEE_DOUBLE CHAR_PTR t.
Definition make_x86_64_freebsd (t : chars) : TargetInfo := with_os FREEBSD false (make_x86_64_linux t).
Definition make_x86_64_netbsd (t : chars) : TargetInfo := with_os NETBSD false (make_x86_64_linux t).

(** ** The target of a triple *)

Definition lowercase_ascii (value : chars) : chars := map tolower value.

Fixpoint starts_with (needle s : chars) : bool :=
  match needle, s with
  | [], _ => true
  | a :: needle, b :: s => ceqb a b && starts_with needle s
  | _ :: _, [] => false
  end.

(** [std::string::find]. *)
Fixpoint find (needle s : chars) : option nat :=
  if starts_with needle s then Some O
  else match s with
       | [] => None
       | _ :: s => match find needle s with Some n => Some (S n) | None => None end
       end.

Definition contains (s : chars) (needle : String.string) : bool :=
  match find (str needle) s with Some _ => true | None => false end.

Arguments contains s needle%_string.

Definition or_default (original : chars) (default : String.string) : chars :=
  match original with [] => str default | _ => original end.

Arguments or_default original default%_string.

Definition create_apple_aarch64 : TargetInfo := make_aarch64_darwin (str "aarch64-apple-darwin").

(** A target that is not supported: the host's default with another triple. *)
Definition unknown_target (t : chars) : TargetInfo :=
  with_os OS_NONE false (make_aarch64_darwin t).

Definition is_arm64 (lowered : chars) : bool := contains lowered "aarch64" || contains lowered "arm64".
Definition is_amd64 (lowered : chars) : bool := contains lowered "x86_64" || contains lowered "amd64".
Definition is_apple (lowered : chars) : bool :=
  contains lowered "apple" || contains lowered "darwin" || contains lowered "macos".
Definition is_windows (lowered : chars) : bool :=
  contains lowered "windows" || contains lowered "win32" || contains lowered "mingw" || contains lowered "msvc".

Definition create_for_triple (original : chars) : TargetInfo :=
  let lowered := lowercase_ascii original in
  if is_arm64 lowered && is_apple lowered then make_aarch64_darwin (or_default original "aarch64-apple-darwin")
  else if is_amd64 lowered && is_apple lowered then make_x86_64_darwin (or_default original "x86_64-apple-darwin")
  else if is_amd64 lowered && is_windows lowered then make_x86_64_windows (or_default original "x86_64-pc-windows-msvc")
  else if is_arm64 lowered && contains lowered "freebsd"
  then make_aarch64_freebsd (or_default original "aarch64-unknown-freebsd")
  else if is_amd64 lowered && contains lowered "freebsd"
  then make_x86_64_freebsd (or_default original "x86_64-unknown-freebsd")
  else if is_arm64 lowered && contains lowered "netbsd"
  then make_aarch64_netbsd (or_default original "aarch64-unknown-netbsd")
  else if is_amd64 lowered && contains lowered "netbsd"
  then make_x86_64_netbsd (or_default original "x86_64-unknown-netbsd")
  else if is_arm64 lowered && contains lowered "linux"
  then make_aarch64_linux (or_default original "aarch64-unknown-linux-gnu")
  else if is_amd64 lowered && contains lowered "linux"
  then make_x86_64_linux (or_default original "x86_64-unknown-linux-gnu")
  else
  let is_x86_32 := contains lowered "i386" || contains lowered "i486" ||
                   contains lowered "i586" || contains lowered "i686" in
  if is_x86_32 && contains lowered "linux" then make_x86_linux (or_default original "i686-unknown-linux-gnu")
  else if is_x86_32 then make_x86_bare (or_default original "i386-unknown-none")
  else if contains lowered "or1k" || contains lowered "openrisc"
  then make_or1k_linux (or_default original "or1k-unknown-linux-musl")
  else unknown_target original.

(** The host the compiler was built for selects the branch of [create_host]. *)
Inductive Host := AppleArm64 | AppleX86_64 | LinuxAArch64 | LinuxX86_64 | OtherHost.

Definition create_host (h : Host) : TargetInfo :=
  match h with
  | AppleArm64 => create_for_triple (str "aarch64-apple-darwin")
  | AppleX86_64 => create_for_triple (str "x86_64-apple-darwin")
  | LinuxAArch64 => create_for_triple (str "aarch64-unknown-linux-gnu")
  | LinuxX86_64 => create_for_triple (str "x86_64-unknown-linux-gnu")
  | OtherHost => unknown_target (str "unknown-unknown-unknown")
  end.

(** ** Predefined macros *)

Definition Macro : Type := chars * chars.
Definition mac (name value : String.string) : Macro := (str name, str value).
Definition macz (name : String.string) (value : chars) : Macro := (str name, value).

Arguments mac (name value)%_string.
Arguments macz name%_string value.

Definition wchar_type_spelling (ti : TargetInfo) : chars :=
  if wchar_width ti <=? 16 then (if wchar_is_unsigned ti then str "unsigned short" else str "short")
  else if wchar_width ti <=? 32 then (if wchar_is_unsigned ti then str "unsigned int" else str "int")
  else if wchar_width ti <=? long_width ti then (if wchar_is_unsigned ti then str "unsigned long" else str "long")
  else (if wchar_is_unsigned ti then str "unsigned long long" else str "long long").

(** The digits that follow "freebsd" in the triple. *)
Fixpoint take_digits (s : chars) : chars :=
  match s with
  | c :: s => if in_range "0" "9" c then c :: take_digits s else []
  | [] => []
  end.

Definition freebsd_major (ti : TargetInfo) : chars :=
  let lowered_triple := lowercase_ascii (triple ti) in
  match find (str "freebsd") lowered_triple with
  | None => str "14"
  | Some pos =>
      match take_digits (drop (pos + 7) lowered_triple) with [] => str "14" | digits => digits end
  end.

Definition os_macros (ti : TargetInfo) : list Macro :=
  match os ti with
  | MACOS =>
    [mac "__APPLE__" "1";
    mac "__MACH__" "1";
    mac "__APPLE_CC__" "6000";
    mac "__PIC__" "2";
    mac "__pic__" "2";
    mac "__ENVIRONMENT_MAC_OS_X_VERSION_MIN_REQUIRED__" "260000";
    mac "__ENVIRONMENT_OS_VERSION_MIN_REQUIRED__" "260000"]
  | LINUX =>
    [mac "__linux__" "1";
    mac "__linux" "1";
    mac "linux" "1";
    mac "__gnu_linux__" "1";
    mac "__unix__" "1";
    mac "__unix" "1";
    mac "unix" "1";
    mac "__ELF__" "1"]
  | WINDOWS =>
    [mac "_WIN32" "1";
    mac "_WIN64" "1"]
  | FREEBSD =>
    let major := freebsd_major ti in
    [macz "__FreeBSD__" major; macz "__FreeBSD_cc_version" (major ++ str "00001")] ++
    [mac "__ELF__" "1";
    mac "__unix__" "1";
    mac "__unix" "1";
    mac "unix" "1"]
  | NETBSD =>
    [mac "__NetBSD__" "1";
    mac "__ELF__" "1";
    mac "__unix__" "1";
    mac "__unix" "1";
    mac "unix" "1"]
  | OS_NONE => []
  end.

Definition arch_macros (ti : TargetInfo) : list Macro :=
  match arch ti with
  | AARCH64 =>
    [mac "__aarch64__" "1";
    mac "__arm64__" "1";
    mac "__ARM_ARCH" "8";
    mac "__ARM_ARCH_ISA_A64" "1";
    mac "__ARM_ARCH_PROFILE" "'A'";
    mac "__ARM_PCS_AAPCS64" "1";
    mac "__ARM_FP" "0xE";
    mac "__ARM_FP16_ARGS" "1";
    mac "__ARM_FP16_FORMAT_IEEE" "1";
    mac "__ARM_NEON" "1";
    mac "__ARM_NEON__" "1";
    mac "__ARM_NEON_FP" "0xE";
    mac "__ARM_FEATURE_AES" "1";
    mac "__ARM_FEATURE_CRYPTO" "1"]
  | X86_64 =>
    [mac "__x86_64__" "1";
    mac "__float128" "long double";
    mac "__amd64__" "1"]
  | X86 =>
    [mac "__i386__" "1";
    mac "__float128" "long double"]
  | ARM32 =>
    [mac "__arm__" "1"]
  | RISCV64 =>
    [mac "__riscv" "1";
    mac "__riscv_xlen" "64"]
  | RISCV32 =>
    [mac "__riscv" "1";
    mac "__riscv_xlen" "32"]
  | OR1K =>
    [mac "__or1k__" "1";
    mac "__OR1K__" "1"]
  end.

Definition INT32_MAX : Z := 2147483647.
Definition INT64_MAX : Z := 9223372036854775807.
Definition UINT64_MAX : Z := 18446744073709551615.

(** [(uint64_t{1} << n) - 1]. *)
Definition ones64 (n : Z) : Z := u64 (u64 (Z.shiftl 1 n) - 1).

Definition ptrdiff_max (ti : TargetInfo) : Z :=
  if pointer_width ti >=? 64 then INT64_MAX else ones64 (pointer_width ti - 1).

Definition ptrdiff_max_spelling (ti : TargetInfo) : chars :=
  to_string (ptrdiff_max ti) ++
  (if pointer_width ti >? 32 then (if pointer_width ti <=? long_width ti then str "L" else str "LL") else []).

Definition wchar_max (ti : TargetInfo) : Z :=
  if wchar_is_unsigned ti then (if wchar_width ti >=? 64 then UINT64_MAX else ones64 (wchar_width ti))
  else (if wchar_width ti >=? 64 then INT64_MAX else ones64 (wchar_width ti - 1)).

Definition wchar_max_spelling (ti : TargetInfo) : chars :=
  to_string (wchar_max ti) ++
  (if wchar_is_unsigned ti && (wchar_max ti >? INT32_MAX)
   then (if wchar_width ti >? 32 then str "ULL" else str "U")
   else if negb (wchar_is_unsigned ti) && (wchar_width ti >? 32) then str "LL" else []).

Definition quote : chars := [chr 34].

Definition get_builtin_macros (ti : TargetInfo) : list Macro :=
  os_macros ti ++ arch_macros ti ++
  (if pointer_width ti =? 64
   then [mac "__LP64__" "1"; mac "_LP64" "1"; mac "__SIZEOF_INT128__" "16"] else []) ++
  (if char_is_unsigned ti then [mac "__CHAR_UNSIGNED__" "1"] else []) ++
  (if wchar_is_unsigned ti then [mac "__WCHAR_UNSIGNED__" "1"] else []) ++
  [mac "__UINT16_MAX__" "65535";
   mac "__UINT32_MAX__" "4294967295U";
   macz "__PTRDIFF_MAX__" (ptrdiff_max_spelling ti);
   macz "__WCHAR_MAX__" (wchar_max_spelling ti);
   mac "__ORDER_LITTLE_ENDIAN__" "1234";
   mac "__ORDER_BIG_ENDIAN__" "4321"] ++
  (match endianness ti with
   | Big => [mac "__BIG_ENDIAN__" "1"; mac "__BYTE_ORDER__" "__ORDER_BIG_ENDIAN__"]
   | Little => [mac "__LITTLE_ENDIAN__" "1"; mac "__BYTE_ORDER__" "__ORDER_LITTLE_ENDIAN__"]
   end) ++
  [macz "__GNUC__" (to_string (gnu_major ti));
   macz "__GNUC_MINOR__" (to_string (gnu_minor ti));
   macz "__GNUC_PATCHLEVEL__" (to_string (gnu_patch ti));
   mac "__clang__" "1";
   macz "__clang_major__" (to_string (clang_major ti));
   macz "__clang_minor__" (to_string (clang_minor ti));
   macz "__clang_patchlevel__" (to_string (clang_patch ti));
   macz "__clang_version__"
     (quote ++ to_string (clang_major ti) ++ str "." ++ to_string (clang_minor ti) ++ str "." ++
      to_string (clang_patch ti) ++ str " (Aburi)" ++ quote)].

Definition integer_type_for_width (ti : TargetInfo) (width : Z) (is_unsigned : bool) : chars :=
  if width <=? 32 then (if is_unsigned then str "unsigned int" else str "int")
  else if width <=? long_width ti then (if is_unsigned then str "unsigned long" else str "long")
  else (if is_unsigned then str "unsigned long long" else str "long long").

Definition int64_is_long (ti : TargetInfo) : bool :=
  (bool_decide (os ti = LINUX) || bool_decide (os ti = FREEBSD) || bool_decide (os ti = NETBSD)) &&
  (long_width ti =? 64).
Definition int64_spelling (ti : TargetInfo) : chars :=
  if int64_is_long ti then str "long" else str "long long".
Definition uint64_spelling (ti : TargetInfo) : chars :=
  if int64_is_long ti then str "unsigned long" else str "unsigned long long".

(** The limits of [float] and [double]. *)
Definition float_macros : list Macro :=
    [mac "__FLT_MIN__" "1.17549435082228750797e-38F";
    mac "__FLT_MAX__" "3.40282346638528859812e+38F";
    mac "__FLT_EPSILON__" "1.19209289550781250000e-7F";
    mac "__FLT_DENORM_MIN__" "1.40129846432481707092e-45F";
    mac "__FLT_HAS_DENORM__" "1";
    mac "__FLT_HAS_INFINITY__" "1";
    mac "__FLT_HAS_QUIET_NAN__" "1";
    mac "__FLT_MANT_DIG__" "24";
    mac "__FLT_MAX_EXP__" "128";
    mac "__FLT_MAX_10_EXP__" "38";
    mac "__FLT_MIN_EXP__" "-125";
    mac "__FLT_MIN_10_EXP__" "-37";
    mac "__FLT_DIG__" "6";
    mac "__FLT_DECIMAL_DIG__" "9";
    mac "__FLT_EVAL_METHOD__" "0";
    mac "__DBL_MIN__" "2.2250738585072014e-308";
    mac "__DBL_MAX__" "1.7976931348623157e+308";
    mac "__DBL_EPSILON__" "2.2204460492503131e-16";
    mac "__DBL_DENORM_MIN__" "4.9406564584124654e-324";
    mac "__DBL_HAS_DENORM__" "1";
    mac "__DBL_HAS_INFINITY__" "1";
    mac "__DBL_HAS_QUIET_NAN__" "1";
    mac "__DBL_MANT_DIG__" "53";
    mac "__DBL_MAX_EXP__" "1024";
    mac "__DBL_MAX_10_EXP__" "308";
    mac "__DBL_MIN_EXP__" "-1021";
    mac "__DBL_MIN_10_EXP__" "-307";
    mac "__DBL_DIG__" "15";
    mac "__DBL_DECIMAL_DIG__" "17"].

(** The names of the digits of the widest type, and the limits of [_Float16]. *)
Definition flt16_macros : list Macro :=
    [mac "__LDBL_HAS_DENORM__" "1";
    mac "__LDBL_HAS_INFINITY__" "1";
    mac "__LDBL_HAS_QUIET_NAN__" "1";
    mac "__DECIMAL_DIG__" "__LDBL_DECIMAL_DIG__";
    mac "__FLT16_MIN__" "6.103515625e-5";
    mac "__FLT16_MAX__" "6.5504e+4";
    mac "__FLT16_EPSILON__" "9.765625e-4";
    mac "__FLT16_MANT_DIG__" "11";
    mac "__FLT16_DIG__" "3";
    mac "__FLT16_MAX_EXP__" "16";
    mac "__FLT16_MIN_EXP__" "-13"].

Definition long_double_macros (f : LongDoubleFormat) : list Macro :=
  match f with
  | IEEE_DOUBLE =>
    [mac "__LDBL_MIN__" "2.2250738585072014e-308L";
    mac "__LDBL_MAX__" "1.7976931348623157e+308L";
    mac "__LDBL_EPSILON__" "2.2204460492503131e-16L";
    mac "__LDBL_DENORM_MIN__" "4.9406564584124654e-324L";
    mac "__LDBL_MANT_DIG__" "53";
    mac "__LDBL_MAX_EXP__" "1024";
    mac "__LDBL_MAX_10_EXP__" "308";
    mac "__LDBL_MIN_EXP__" "-1021";
    mac "__LDBL_MIN_10_EXP__" "-307";
    mac "__LDBL_DIG__" "15";
    mac "__LDBL_DECIMAL_DIG__" "17"]
  | X87_EXTENDED =>
    [mac "__LDBL_MIN__" "3.36210314311209350626e-4932L";
    mac "__LDBL_MAX__" "1.18973149535723176502e+4932L";
    mac "__LDBL_EPSILON__" "1.08420217248550443401e-19L";
    mac "__LDBL_DENORM_MIN__" "3.64519953188247460253e-4951L";
    mac "__LDBL_MANT_DIG__" "64";
    mac "__LDBL_MAX_EXP__" "16384";
    mac "__LDBL_MAX_10_EXP__" "4932";
    mac "__LDBL_MIN_EXP__" "-16381";
    mac "__LDBL_MIN_10_EXP__" "-4931";
    mac "__LDBL_DIG__" "18";
    mac "__LDBL_DECIMAL_DIG__" "21"]
  | IEEE_QUAD =>
    [mac "__LDBL_MIN__" "3.36210314311209350626267781732175260e-4932L";
    mac "__LDBL_MAX__" "1.18973149535723176508575932662800702e+4932L";
    mac "__LDBL_EPSILON__" "1.92592994438723585305597794258492732e-34L";
    mac "__LDBL_DENORM_MIN__" "6.47517511943802511092443895822764655e-4966L";
    mac "__LDBL_MANT_DIG__" "113";
    mac "__LDBL_MAX_EXP__" "16384";
    mac "__LDBL_MAX_10_EXP__" "4932";
    mac "__LDBL_MIN_EXP__" "-16381";
    mac "__LDBL_MIN_10_EXP__" "-4931";
    mac "__LDBL_DIG__" "33";
    mac "__LDBL_DECIMAL_DIG__" "36"]
  end.

(** The names of the integer types. *)
Definition integer_type_macros (ti : TargetInfo) : list Macro :=
  let integer_type := integer_type_for_width ti in
  [macz "__SIZE_TYPE__" (integer_type (pointer_width ti) true);
   macz "__PTRDIFF_TYPE__" (integer_type (pointer_width ti) false);
   macz "__INTPTR_TYPE__" (integer_type (pointer_width ti) false);
   macz "__UINTPTR_TYPE__" (integer_type (pointer_width ti) true);
   macz "__INTMAX_TYPE__" (integer_type (Z.max 64 (long_width ti)) false);
   macz "__UINTMAX_TYPE__" (integer_type (Z.max 64 (long_width ti)) true)] ++
  [mac "__INT8_TYPE__" "signed char";
    mac "__UINT8_TYPE__" "unsigned char";
    mac "__INT16_TYPE__" "short";
    mac "__UINT16_TYPE__" "unsigned short";
    mac "__INT32_TYPE__" "int";
    mac "__UINT32_TYPE__" "unsigned int"] ++
  [macz "__INT64_TYPE__" (int64_spelling ti); macz "__UINT64_TYPE__" (uint64_spelling ti)] ++
  [mac "__INT_LEAST8_TYPE__" "signed char";
    mac "__UINT_LEAST8_TYPE__" "unsigned char";
    mac "__INT_LEAST16_TYPE__" "short";
    mac "__UINT_LEAST16_TYPE__" "unsigned short";
    mac "__INT_LEAST32_TYPE__" "int";
    mac "__UINT_LEAST32_TYPE__" "unsigned int"] ++
  [macz "__INT_LEAST64_TYPE__" (int64_spelling ti); macz "__UINT_LEAST64_TYPE__" (uint64_spelling ti)] ++
  [mac "__INT_FAST8_TYPE__" "signed char";
    mac "__UINT_FAST8_TYPE__" "unsigned char"] ++
  (if bool_decide (os ti = LINUX) && (pointer_width ti =? 64) then
    [mac "__INT_FAST16_TYPE__" "long";
    mac "__UINT_FAST16_TYPE__" "unsigned long";
    mac "__INT_FAST32_TYPE__" "long";
    mac "__UINT_FAST32_TYPE__" "unsigned long";
    mac "__INT_FAST64_TYPE__" "long";
    mac "__UINT_FAST64_TYPE__" "unsigned long"]
  else
    [mac "__INT_FAST16_TYPE__" "short";
    mac "__UINT_FAST16_TYPE__" "unsigned short";
    mac "__INT_FAST32_TYPE__" "int";
    mac "__UINT_FAST32_TYPE__" "unsigned int";
    mac "__INT_FAST64_TYPE__" "long long";
    mac "__UINT_FAST64_TYPE__" "unsigned long long"]) ++
  [macz "__WCHAR_TYPE__" (wchar_type_spelling ti); macz "__WINT_TYPE__" (wchar_type_spelling ti)].

Definition get_builtin_type_macros (ti : TargetInfo) : list Macro :=
  integer_type_macros ti ++ float_macros ++ long_double_macros (long_double_format ti) ++ flt16_macros.

