(* ===== verification/TargetMacros.v ===== *)
(** * What the target tables promise (src/abi/target_info.cpp)

    Every triple gives a target whose widths are consistent; the macros that name
    integer types name types of the right width; and the floating-point limits,
    parsed by the compiler's own literal parser, are exactly the limits of the
    format the target gives to each floating type. *)
From Stdlib Require Import String QArith.
From S2P Require Import Prelude BigUInt FloatValue Dyadic Rounding FloatSpecial FloatText Target.
Open Scope Z_scope.

(** ** The targets a triple can give *)

(** Widths every client relies on: LP64, LLP64 or ILP32, a 16- or 32-bit
    [wchar_t], alignments that are powers of two, and a storage size for the
    formats wider than [double]. *)
Record sane (ti : TargetInfo) : Prop := {
  sane_pointer : pointer_width ti = 32 \/ pointer_width ti = 64;
  sane_long : long_width ti = 32 \/ long_width ti = 64;
  sane_long_pointer : long_width ti <= pointer_width ti;
  sane_wchar : wchar_width ti = 16 \/ wchar_width ti = 32;
  sane_alignment : max_alignment_bytes ti = 16;
  sane_long_double : (long_double_storage_bytes ti = 0 /\ long_double_align_bytes ti = 0) \/
                     (long_double_storage_bytes ti = 12 /\ long_double_align_bytes ti = 4)
}.

(** The constructors of the supported targets. *)
Definition constructors : list (chars -> TargetInfo) :=
  [make_aarch64_darwin; make_x86_64_darwin; make_x86_64_windows; make_aarch64_freebsd; make_x86_64_freebsd;
   make_aarch64_netbsd; make_x86_64_netbsd; make_aarch64_linux; make_x86_64_linux; make_x86_linux; make_x86_bare;
   make_or1k_linux; unknown_target].

Lemma create_for_triple_cases t :
  exists make default, In make constructors /\
    create_for_triple t = make (or_default t default) /\ (default = EmptyString -> make = unknown_target).
Proof.
  unfold create_for_triple. cbv zeta.
  repeat match goal with
  | |- context [if ?b then ?m (or_default t ?d) else _] =>
      destruct b; [exists m, d; split; [cbn [constructors In]; tauto|done]|]
  end.
  exists unknown_target, EmptyString. split; [cbn [constructors In]; tauto|]. split; [|done].
  by destruct t.
Qed.

Lemma constructors_sane make t : In make constructors -> sane (make t) /\ triple (make t) = t.
Proof.
  cbn [constructors In]. intros H.
  repeat match goal with H : _ \/ _ |- _ => destruct H as [<- | H] end; try done.
  all: split; [split; cbn; try lia; tauto|reflexivity].
Qed.

Lemma create_for_triple_sane t : sane (create_for_triple t).
Proof.
  destruct (create_for_triple_cases t) as (make & d & Hin & -> & _). by apply constructors_sane.
Qed.

Lemma lowercase_idem t : lowercase_ascii (lowercase_ascii t) = lowercase_ascii t.
Proof.
  unfold lowercase_ascii. rewrite map_map. apply map_ext. intros c.
  destruct c as [[] [] [] [] [] [] [] []]; vm_compute; reflexivity.
Qed.

(** Everything but the spelling of the triple. *)
Definition same_target (a b : TargetInfo) : Prop :=
  a = with_os (os a) (real_mode_16 a) (mkTarget (arch b) (os b) (pointer_width b) (long_width b)
    (long_double_width b) (long_double_storage_bytes b) (long_double_align_bytes b) (real_mode_16 b)
    (wchar_width b) (wchar_is_unsigned b) (char_is_unsigned b) (endianness b) (long_double_format b)
    (va_list_kind b) (max_alignment_bytes b) (default_new_alignment_bytes b) (triple a)
    (gnu_major b) (gnu_minor b) (gnu_patch b) (clang_major b) (clang_minor b) (clang_patch b)) /\
  os a = os b /\ real_mode_16 a = real_mode_16 b.

Lemma constructors_same make s t : In make constructors -> same_target (make s) (make t).
Proof.
  cbn [constructors In]. intros H.
  repeat match goal with H : _ \/ _ |- _ => destruct H as [<- | H] end; try done.
Qed.

(** The choice of a target. Every triple gives a target with consistent
    widths that records the triple when it is not empty; the choice depends on
    the triple up to the case of its letters, so two spellings of a triple give
    targets that differ in that record only. *)
Theorem create_for_triple_consistent t :
  sane (create_for_triple t) /\
  (t <> [] -> triple (create_for_triple t) = t) /\
  (forall t', lowercase_ascii t' = lowercase_ascii t ->
    same_target (create_for_triple t') (create_for_triple t)).
Proof.
  split; [apply create_for_triple_sane|]. split.
  - intros Ht. destruct (create_for_triple_cases t) as (make & d & Hin & -> & _).
    destruct (constructors_sane make (or_default t d) Hin) as [_ ->]. by destruct t.
  - intros t' E. unfold create_for_triple. rewrite E. cbv zeta.
    repeat match goal with
    | |- same_target (if ?b then _ else _) _ =>
        destruct b; [apply (constructors_same _ _ _); cbn [constructors In]; tauto|]
    end.
    apply (constructors_same unknown_target). cbn [constructors In]. tauto.
Qed.

(** ** Looking macros up *)

Definition macro_value (ms : list Macro) (name : String.string) : option chars :=
  option_map snd (List.find (fun m => bool_decide (m.1 = str name)) ms).

Arguments macro_value ms name%_string.

(** ** Integer types *)

(** The width and signedness of the integer type a spelling names on a target. *)
Definition spelled_integer (ti : TargetInfo) (spelling : chars) : option (Z * bool) :=
  let table : list (String.string * (Z * bool)) :=
    [("signed char", (8, false)); ("unsigned char", (8, true)); ("short", (16, false));
     ("unsigned short", (16, true)); ("int", (32, false)); ("unsigned int", (32, true));
     ("long", (long_width ti, false)); ("unsigned long", (long_width ti, true));
     ("long long", (64, false)); ("unsigned long long", (64, true))]%string in
  option_map snd (List.find (fun e => bool_decide (str (fst e) = spelling)) table).

(** The type a macro names. *)
Definition macro_integer (ti : TargetInfo) (name : String.string) : option (Z * bool) :=
  match macro_value (get_builtin_type_macros ti) name with
  | Some spelling => spelled_integer ti spelling
  | None => None
  end.

Arguments macro_integer ti name%_string.

(** The type a macro must name: exactly or at least so wide, and its signedness. *)
Definition names_exactly (ti : TargetInfo) (name : String.string) (w : Z) (u : bool) : bool :=
  match macro_integer ti name with Some (w', u') => (w' =? w) && Bool.eqb u' u | None => false end.
Definition names_at_least (ti : TargetInfo) (name : String.string) (w : Z) (u : bool) : bool :=
  match macro_integer ti name with Some (w', u') => (w <=? w') && Bool.eqb u' u | None => false end.

Definition exact_names (ti : TargetInfo) : list (String.string * Z * bool) :=
  ([("__SIZE_TYPE__", pointer_width ti, true); ("__PTRDIFF_TYPE__", pointer_width ti, false);
    ("__INTPTR_TYPE__", pointer_width ti, false); ("__UINTPTR_TYPE__", pointer_width ti, true);
    ("__INTMAX_TYPE__", 64, false); ("__UINTMAX_TYPE__", 64, true);
    ("__INT8_TYPE__", 8, false); ("__UINT8_TYPE__", 8, true); ("__INT16_TYPE__", 16, false);
    ("__UINT16_TYPE__", 16, true); ("__INT32_TYPE__", 32, false); ("__UINT32_TYPE__", 32, true);
    ("__INT64_TYPE__", 64, false); ("__UINT64_TYPE__", 64, true);
    ("__WCHAR_TYPE__", wchar_width ti, wchar_is_unsigned ti)])%string.

Definition least_names : list (String.string * Z * bool) :=
  [("__INT_LEAST8_TYPE__", 8, false); ("__UINT_LEAST8_TYPE__", 8, true);
   ("__INT_LEAST16_TYPE__", 16, false); ("__UINT_LEAST16_TYPE__", 16, true);
   ("__INT_LEAST32_TYPE__", 32, false); ("__UINT_LEAST32_TYPE__", 32, true);
   ("__INT_LEAST64_TYPE__", 64, false); ("__UINT_LEAST64_TYPE__", 64, true);
   ("__INT_FAST8_TYPE__", 8, false); ("__UINT_FAST8_TYPE__", 8, true);
   ("__INT_FAST16_TYPE__", 16, false); ("__UINT_FAST16_TYPE__", 16, true);
   ("__INT_FAST32_TYPE__", 32, false); ("__UINT_FAST32_TYPE__", 32, true);
   ("__INT_FAST64_TYPE__", 64, false); ("__UINT_FAST64_TYPE__", 64, true)]%string.

(** The macros for the greatest [ptrdiff_t] and [wchar_t]: the value, and the
    suffix that gives the constant a type of at least that width. *)
Definition max_macro (ti : TargetInfo) (name : String.string) (w : Z) (u : bool) : Prop :=
  exists suffix, macro_value (get_builtin_macros ti) name
    = Some (to_string (if u then 2 ^ w - 1 else 2 ^ (w - 1) - 1) ++ suffix) /\
  w <= (if bool_decide (suffix = str "L") then long_width ti
        else if bool_decide (suffix = str "LL") || bool_decide (suffix = str "ULL") then 64 else 32).

Ltac with_suffix s := exists s; split; [vm_compute; reflexivity | vm_compute; discriminate].

(** The integer macros. For every triple, [__SIZE_TYPE__] and its like
    name integer types of exactly the pointer's width, [__INTn_TYPE__] of exactly
    n bits, the least and fast types of at least as many, each with its
    signedness, and [__WCHAR_TYPE__] is the target's [wchar_t]. *)
Theorem integer_macros_widths t :
  let ti := create_for_triple t in
  Forall (fun '(name, w, u) => names_exactly ti name w u = true) (exact_names ti) /\
  Forall (fun '(name, w, u) => names_at_least ti name w u = true) least_names /\
  max_macro ti "__PTRDIFF_MAX__" (pointer_width ti) false /\
  max_macro ti "__WCHAR_MAX__" (wchar_width ti) (wchar_is_unsigned ti).
Proof.
  cbv zeta. destruct (create_for_triple_cases t) as (make & d & Hin & -> & _).
  generalize (or_default t d) as s. intros s. clear t d.
  cbn [constructors In] in Hin.
  repeat match goal with H : _ \/ _ |- _ => destruct H as [<- | H] end; try done.
  all: unfold exact_names, least_names; split; [repeat constructor; vm_compute; reflexivity|].
  all: split; [repeat constructor; vm_compute; reflexivity|].
  all: split; unfold max_macro.
  all: first [with_suffix (@nil ascii) | with_suffix (str "U") | with_suffix (str "L") | with_suffix (str "LL")].
Qed.

(** ** Floating-point limits *)

(** A macro is a literal that the compiler reads, in a format and rounding to
    nearest, as a given number. *)
Definition reads (ms : list Macro) (f : FloatFormat) (name : String.string) (q : Q) : bool :=
  match macro_value ms name with
  | Some text =>
      let r := parse text f default_control in
      parsed_ok r && is_finite (parse_value r) && Qeq_bool (signed_value (parse_value r)) q
  | None => false
  end.

(** A macro is an integer with a property. *)
Definition is_number (ms : list Macro) (name : String.string) (p : Z -> bool) : bool :=
  match macro_value ms name with
  | Some text => match parse_exponent text with Some z => p z | None => false end
  | None => false
  end.

(** The decimal exponents and digit counts of C's <float.h>, by their defining
    inequalities on powers of two and ten, for a format of precision [p] with
    greatest and least exponents [emax] and [emin]. *)
Definition is_dig (p n : Z) : bool := (10 ^ n <=? 2 ^ (p - 1)) && (2 ^ (p - 1) <? 10 ^ (n + 1)).
Definition is_decimal_dig (p n : Z) : bool := (2 ^ p <? 10 ^ (n - 1)) && (10 ^ (n - 2) <=? 2 ^ p).
Definition is_max_10_exp (p emax n : Z) : bool :=
  (10 ^ n <=? (2 ^ p - 1) * 2 ^ (emax + 1 - p)) && ((2 ^ p - 1) * 2 ^ (emax + 1 - p) <? 10 ^ (n + 1)).
Definition is_min_10_exp (emin n : Z) : bool :=
  (10 ^ (- n) <=? 2 ^ (- emin)) && (2 ^ (- emin) <? 10 ^ (1 - n)).

(** The greatest finite number of a format. *)
Definition greatest (d : FloatFormatDescriptor) : Q :=
  dy (2 ^ precision d - 1) (max_normal_exponent d + 1 - precision d).

Definition name_of (prefix suffix : String.string) : String.string := ("__" ++ prefix ++ suffix)%string.

(** What <float.h> promises for a prefix and a format: the precision and the
    exponent range, *)
Definition precision_limits (ms : list Macro) (prefix : String.string) (f : FloatFormat) : bool :=
  match descriptor f with
  | Some d =>
      reads ms f (name_of prefix "_EPSILON__") (q2 (1 - precision d)) &&
      is_number ms (name_of prefix "_MANT_DIG__") (Z.eqb (precision d)) &&
      is_number ms (name_of prefix "_MAX_EXP__") (Z.eqb (max_normal_exponent d + 1)) &&
      is_number ms (name_of prefix "_MIN_EXP__") (Z.eqb (min_normal_exponent d + 1)) &&
      is_number ms (name_of prefix "_DIG__") (is_dig (precision d))
  | None => false
  end.

(** the least and the greatest normal numbers, *)
Definition range_limits (ms : list Macro) (prefix : String.string) (f : FloatFormat) : bool :=
  match descriptor f with
  | Some d =>
      reads ms f (name_of prefix "_MIN__") (q2 (min_normal_exponent d)) &&
      reads ms f (name_of prefix "_MAX__") (greatest d)
  | None => false
  end.

(** and what is given for the three standard types only. *)
Definition denormal_limits (ms : list Macro) (prefix : String.string) (f : FloatFormat) : bool :=
  match descriptor f with
  | Some d =>
      reads ms f (name_of prefix "_DENORM_MIN__") (q2 (min_normal_exponent d + 1 - precision d)) &&
      is_number ms (name_of prefix "_MAX_10_EXP__") (is_max_10_exp (precision d) (max_normal_exponent d)) &&
      is_number ms (name_of prefix "_MIN_10_EXP__") (is_min_10_exp (min_normal_exponent d))
  | None => false
  end.
Definition decimal_limits (ms : list Macro) (prefix : String.string) (f : FloatFormat) : bool :=
  match descriptor f with
  | Some d => is_number ms (name_of prefix "_DECIMAL_DIG__") (is_decimal_dig (precision d))
  | None => false
  end.

(** The format of [long double]. *)
Definition long_double_semantics (f : LongDoubleFormat) : FloatFormat :=
  match f with IEEE_DOUBLE => IEEEBinary64 | X87_EXTENDED => X87Extended80 | IEEE_QUAD => IEEEBinary128 end.

Arguments reads ms f name%_string q.
Arguments is_number ms name%_string p.
Arguments name_of (prefix suffix)%_string.
Arguments precision_limits ms prefix%_string f.
Arguments range_limits ms prefix%_string f.
Arguments denormal_limits ms prefix%_string f.
Arguments decimal_limits ms prefix%_string f.

(** The checks see only the part of the table that describes the formats. *)
Definition limit_macros (f : LongDoubleFormat) : list Macro :=
  float_macros ++ long_double_macros f ++ flt16_macros.

Definition limits_check (ms : list Macro) (f : LongDoubleFormat) : bool :=
  let ld := long_double_semantics f in
  precision_limits ms "FLT" IEEEBinary32 && precision_limits ms "DBL" IEEEBinary64 &&
  precision_limits ms "LDBL" ld && precision_limits ms "FLT16" IEEEBinary16 &&
  range_limits ms "FLT" IEEEBinary32 && range_limits ms "DBL" IEEEBinary64 && range_limits ms "FLT16" IEEEBinary16 &&
  denormal_limits ms "FLT" IEEEBinary32 && denormal_limits ms "DBL" IEEEBinary64 &&
  decimal_limits ms "FLT" IEEEBinary32 && decimal_limits ms "DBL" IEEEBinary64 && decimal_limits ms "LDBL" ld &&
  match f with
  | IEEE_DOUBLE => range_limits ms "LDBL" ld && denormal_limits ms "LDBL" ld
  | _ => true
  end.

Lemma limits_table f : limits_check (limit_macros f) f = true.
Proof. destruct f; vm_compute; reflexivity. Qed.

(** ** The whole table *)

(** No macro of a list starts like the names of a prefix. *)
Definition foreign (h : list Macro) (prefix : String.string) : bool :=
  forallb (fun m => negb (starts_with (str "__" ++ str prefix) m.1)) h.
Arguments foreign h prefix%_string.

Lemma str_append a b : str (append a b) = str a ++ str b.
Proof. induction a as [|c a IH]; [done|]. cbn. by f_equal. Qed.

Lemma starts_with_app a b : starts_with a (a ++ b) = true.
Proof. induction a as [|c a IH]; [done|]. cbn. unfold ceqb. by rewrite Ascii.eqb_refl. Qed.

Lemma macro_value_foreign h b prefix suffix :
  foreign h prefix = true -> macro_value (h ++ b) (name_of prefix suffix) = macro_value b (name_of prefix suffix).
Proof.
  intros H. unfold macro_value. f_equal. induction h as [|m h IH]; [done|].
  cbn [foreign forallb] in H. apply andb_true_iff in H as [Hm Hh]. cbn [app List.find].
  rewrite bool_decide_eq_false_2; [by apply IH|]. intros E. rewrite E in Hm. unfold name_of in Hm.
  rewrite !str_append, app_assoc, starts_with_app in Hm. done.
Qed.

Lemma precision_limits_foreign h b p f :
  foreign h p = true -> precision_limits (h ++ b) p f = precision_limits b p f.
Proof. intros H. unfold precision_limits, reads, is_number. by rewrite !macro_value_foreign. Qed.

Lemma range_limits_foreign h b p f : foreign h p = true -> range_limits (h ++ b) p f = range_limits b p f.
Proof. intros H. unfold range_limits, reads, is_number. by rewrite !macro_value_foreign. Qed.

Lemma denormal_limits_foreign h b p f :
  foreign h p = true -> denormal_limits (h ++ b) p f = denormal_limits b p f.
Proof. intros H. unfold denormal_limits, reads, is_number. by rewrite !macro_value_foreign. Qed.

Lemma decimal_limits_foreign h b p f :
  foreign h p = true -> decimal_limits (h ++ b) p f = decimal_limits b p f.
Proof. intros H. unfold decimal_limits, is_number. by rewrite !macro_value_foreign. Qed.

Lemma limits_check_foreign h b f :
  foreign h "FLT" = true -> foreign h "DBL" = true -> foreign h "LDBL" = true -> foreign h "FLT16" = true ->
  limits_check (h ++ b) f = limits_check b f.
Proof.
  intros H1 H2 H3 H4. unfold limits_check.
  rewrite !precision_limits_foreign, !range_limits_foreign, !denormal_limits_foreign, !decimal_limits_foreign by done.
  reflexivity.
Qed.

Lemma integer_macros_foreign ti :
  forallb (fun p => foreign (integer_type_macros ti) p) ["FLT"; "DBL"; "LDBL"; "FLT16"]%string = true.
Proof.
  unfold integer_type_macros. cbv zeta.
  destruct (bool_decide _ && _); vm_compute; reflexivity.
Qed.

