(* ===== verification/CirTypes.v ===== *)
(** * The type table of the CIR (src/cir/ids.h, src/cir/type.h, src/cir/file.h)

    The part of [cir::File] that layout and calling conventions read: the table
    of types with their canonical, desugared and resolved links, their payloads,
    and the facts of the records. An id is an index with a generation; a lookup
    with a stale or null id gives an invalid type, as in the code. Names, source
    locations, attributes and template data are left out: no operation modelled
    here reads them. *)
From stdpp Require Import gmap.
From S2P Require Import Prelude Target.
Open Scope Z_scope.

(** ** Ids (src/cir/ids.h) *)

Record Id := mkId { index : Z; generation : Z }.
Abbreviation TypeId := Id.
Abbreviation EntityId := Id.

Definition null_id : Id := mkId 0 0.
Definition id_valid (id : Id) : bool := negb (index id =? 0).

#[export] Instance id_eq_dec : EqDecision Id.
Proof. solve_decision. Defined.

(** ** Types (src/cir/type.h) *)

Inductive MemorySpace := Space_Default | Space_Generic | Space_Global | Space_Constant | Space_Workgroup
  | Space_Private | Space_Function.

Record TypeRef := mkRef { ref_type : TypeId; qualifiers : Z; memory_space : MemorySpace }.
Definition ref_valid (r : TypeRef) : bool := id_valid (ref_type r).

Inductive TypeKind :=
  | Kind_Invalid | Kind_Error | Kind_Unknown | Kind_Builtin | Kind_Pointer | Kind_BlockPointer
  | Kind_MemberPointer | Kind_LValueReference | Kind_RValueReference | Kind_Array | Kind_Function | Kind_Record
  | Kind_Enum | Kind_Vector | Kind_Complex | Kind_BitInt | Kind_Typedef | Kind_TypeParam
  | Kind_TemplateSpecialization | Kind_AliasSpecialization | Kind_DependentName | Kind_Dependent
  | Kind_Placeholder | Kind_Auto | Kind_TypeofExpr | Kind_DecltypeExpr | Kind_BuiltinTransform
  | Kind_BuiltinPackElement | Kind_PackIndex | Kind_Place.

Inductive BuiltinTypeKind :=
  | Bt_Void | Bt_NullPtr | Bt_Bool | Bt_Char | Bt_SChar | Bt_UChar | Bt_WChar | Bt_Char8 | Bt_Char16 | Bt_Char32
  | Bt_Short | Bt_UShort | Bt_Int | Bt_UInt | Bt_Long | Bt_ULong | Bt_LongLong | Bt_ULongLong | Bt_Int128
  | Bt_UInt128 | Bt_USize | Bt_Float16 | Bt_Float | Bt_Double | Bt_LongDouble | Bt_MetaInfo | Bt_Other.

Inductive ReferenceKind := Ref_LValue | Ref_RValue.
Inductive ArraySizeKind := Size_Incomplete | Size_Constant | Size_Variable.

#[export] Instance kind_eq_dec : EqDecision TypeKind.
Proof. solve_decision. Defined.
#[export] Instance builtin_eq_dec : EqDecision BuiltinTypeKind.
Proof. solve_decision. Defined.
#[export] Instance size_kind_eq_dec : EqDecision ArraySizeKind.
Proof. solve_decision. Defined.

Inductive TypePayload :=
  | InvalidTypePayload
  | ErrorTypePayload
  | UnknownTypePayload
  | BuiltinTypePayload (kind : BuiltinTypeKind)
  | PointerTypePayload (pointee : TypeRef)
  | BlockPointerTypePayload (pointee : TypeRef)
  | MemberPointerTypePayload (class_type member_type : TypeRef)
  | ReferenceTypePayload (referred_type : TypeRef) (reference_kind : ReferenceKind)
  | ArrayTypePayload (element_type : TypeRef) (size_kind : ArraySizeKind) (size : option Z)
  | FunctionTypePayload (return_type : TypeRef) (parameters : list TypeRef) (is_variadic : bool)
  | RecordTypePayload (entity : EntityId) (is_union is_incomplete : bool)
  | EnumTypePayload (entity : EntityId) (is_scoped is_incomplete : bool) (underlying_type : TypeRef)
  | VectorTypePayload (element_type : TypeRef) (element_count size_bytes : Z)
  | ComplexTypePayload (element_type : TypeRef)
  | BitIntTypePayload (bits : Z) (is_unsigned : bool)
  | TypedefTypePayload (entity : EntityId) (underlying_type : TypeRef)
  | TypeParamTypePayload | TemplateSpecializationTypePayload | AliasSpecializationTypePayload
  | DependentNameTypePayload | DependentTypePayload | PlaceholderTypePayload | AutoTypePayload
  | TypeofExprTypePayload | DecltypeExprTypePayload | BuiltinTypeTransformTypePayload
  | BuiltinPackElementTypePayload | PackIndexTypePayload | PlaceTypePayload.

Definition type_payload_kind (p : TypePayload) : TypeKind :=
  match p with
  | InvalidTypePayload => Kind_Invalid
  | ErrorTypePayload => Kind_Error
  | UnknownTypePayload => Kind_Unknown
  | BuiltinTypePayload _ => Kind_Builtin
  | PointerTypePayload _ => Kind_Pointer
  | BlockPointerTypePayload _ => Kind_BlockPointer
  | MemberPointerTypePayload _ _ => Kind_MemberPointer
  | ReferenceTypePayload _ k =>
      match k with Ref_LValue => Kind_LValueReference | Ref_RValue => Kind_RValueReference end
  | ArrayTypePayload _ _ _ => Kind_Array
  | FunctionTypePayload _ _ _ => Kind_Function
  | RecordTypePayload _ _ _ => Kind_Record
  | EnumTypePayload _ _ _ _ => Kind_Enum
  | VectorTypePayload _ _ _ => Kind_Vector
  | ComplexTypePayload _ => Kind_Complex
  | BitIntTypePayload _ _ => Kind_BitInt
  | TypedefTypePayload _ _ => Kind_Typedef
  | TypeParamTypePayload => Kind_TypeParam
  | TemplateSpecializationTypePayload => Kind_TemplateSpecialization
  | AliasSpecializationTypePayload => Kind_AliasSpecialization
  | DependentNameTypePayload => Kind_DependentName
  | DependentTypePayload => Kind_Dependent
  | PlaceholderTypePayload => Kind_Placeholder
  | AutoTypePayload => Kind_Auto
  | TypeofExprTypePayload => Kind_TypeofExpr
  | DecltypeExprTypePayload => Kind_DecltypeExpr
  | BuiltinTypeTransformTypePayload => Kind_BuiltinTransform
  | BuiltinPackElementTypePayload => Kind_BuiltinPackElement
  | PackIndexTypePayload => Kind_PackIndex
  | PlaceTypePayload => Kind_Place
  end.

Record Type_ := mkType {
  kind : TypeKind;
  payload_index : Z;
  canonical : TypeId;
  desugared : TypeId;
  resolved : TypeId;
}.

Definition invalid_type : Type_ := mkType Kind_Invalid 0 null_id null_id null_id.

(** ** Facts of records (src/cir/file.h) *)

Inductive RecordKind := Record_Struct | Record_Class | Record_Union.
Inductive ClassPropertyState := Prop_False | Prop_True | Prop_Dependent | Prop_Unavailable.
Inductive SubobjectSizeKind := Subobject_NonZero | Subobject_Zero | Subobject_Dependent.

#[export] Instance record_kind_eq_dec : EqDecision RecordKind.
Proof. solve_decision. Defined.
#[export] Instance class_property_eq_dec : EqDecision ClassPropertyState.
Proof. solve_decision. Defined.
#[export] Instance subobject_eq_dec : EqDecision SubobjectSizeKind.
Proof. solve_decision. Defined.

Record RecordFieldFact := mkField {
  field_type : TypeRef;
  offset : Z;
  storage_size_override : Z;
  storage_alignment_override : Z;
  is_bitfield : bool;
  is_flexible_array_member : bool;
  bit_offset : Z;
  field_bit_width : Z;
  is_mutable : bool;
  subobject_size : SubobjectSizeKind;
}.

Record RecordFacts := mkFacts {
  record_kind : RecordKind;
  facts_incomplete : bool;
  is_empty : ClassPropertyState;
  is_non_trivial_for_calls : bool;
  fields : list RecordFieldFact;
  size_bits : Z;
  alignment : Z;
}.

(** ** The file *)

Record File := mkFile {
  types : list Type_;
  type_generations : list Z;
  type_payloads : list TypePayload;
  record_facts_ : gmap Z RecordFacts;
  target_info : TargetInfo;
}.

(** [valid_id] and its instance for types; the index is unsigned. *)
Definition valid (file : File) (id : TypeId) : bool :=
  (0 <=? index id) && id_valid id && (index id <? Z.of_nat (length (types file))) &&
  (index id <? Z.of_nat (length (type_generations file))) &&
  (nthz (type_generations file) (Z.to_nat (index id)) =? generation id).

Definition type_of (file : File) (id : TypeId) : Type_ :=
  if negb (valid file id) then invalid_type else nth (Z.to_nat (index id)) (types file) invalid_type.

Definition payload_at (file : File) (i : Z) : TypePayload :=
  if (i =? 0) || (Z.of_nat (length (type_payloads file)) <=? i) then InvalidTypePayload
  else nth (Z.to_nat i) (type_payloads file) InvalidTypePayload.

Definition type_payload (file : File) (id : TypeId) : TypePayload :=
  if negb (valid file id) then InvalidTypePayload else payload_at file (payload_index (type_of file id)).

Definition canonical_type (file : File) (id : TypeId) : TypeId :=
  if negb (valid file id) then null_id
  else let c := canonical (type_of file id) in if id_valid c then c else id.

Definition desugared_type (file : File) (id : TypeId) : TypeId :=
  if negb (valid file id) then null_id
  else let d := desugared (type_of file id) in if id_valid d then d else canonical_type file id.

Definition resolved_type (file : File) (id : TypeId) : TypeId :=
  if negb (valid file id) then null_id
  else let r := resolved (type_of file id) in if id_valid r then r else desugared_type file id.

Definition kind_of (file : File) (id : TypeId) : TypeKind := kind (type_of file id).

Definition id_key (id : Id) : Z := Z.lor (u64 (Z.shiftl (generation id) 32)) (index id).

Definition record_entity (file : File) (id : TypeId) : EntityId :=
  let resolved := resolved_type file id in
  if negb (valid file resolved) || negb (bool_decide (kind_of file resolved = Kind_Record)) then null_id
  else match type_payload file resolved with RecordTypePayload entity _ _ => entity | _ => null_id end.

Definition record_facts (file : File) (entity : EntityId) : option RecordFacts :=
  record_facts_ file !! id_key entity.

Definition record_facts_for_type (file : File) (id : TypeId) : option RecordFacts :=
  let entity := record_entity file id in
  if id_valid entity then record_facts file entity else None.

Definition member_pointer_member_ref (file : File) (id : TypeId) : TypeRef :=
  let id := resolved_type file id in
  if negb (valid file id) || negb (bool_decide (kind_of file id = Kind_MemberPointer))
  then mkRef null_id 0 Space_Default
  else match type_payload file id with
       | MemberPointerTypePayload _ member => member
       | _ => mkRef null_id 0 Space_Default
       end.

Definition member_pointer_points_to_function (file : File) (id : TypeId) : bool :=
  let member := resolved_type file (ref_type (member_pointer_member_ref file id)) in
  valid file member && bool_decide (kind_of file member = Kind_Function).

(** ** Well-formed tables

    The payload of a type is of its kind: [intern_type] stores specifications
    checked by [type_spec_matches_payload]. *)
Definition payloads_match (file : File) : Prop :=
  forall id, valid file id = true -> type_payload_kind (type_payload file id) = kind_of file id.

(** The types whose storage a type's storage contains. Pointers and references
    are not followed. *)
Definition components (file : File) (id : TypeId) : list TypeId :=
  match type_payload file id with
  | ArrayTypePayload e _ _ | VectorTypePayload e _ _ | ComplexTypePayload e => [ref_type e]
  | EnumTypePayload _ _ _ u | TypedefTypePayload _ u => [ref_type u]
  | RecordTypePayload _ _ _ =>
      match record_facts_for_type file id with
      | Some facts => map (fun f => ref_type (field_type f)) (fields facts)
      | None => []
      end
  | _ => []
  end.

(** No type contains itself: the types can be ranked so that the (resolved)
    components of a type have a lower rank. *)
Definition ranked (file : File) (rank : TypeId -> nat) : Prop :=
  (forall id, valid file id = true -> (rank id < length (types file))%nat) /\
  forall id c, valid file id = true -> In c (components file id) ->
    valid file (resolved_type file c) = true -> (rank (resolved_type file c) < rank id)%nat.

(** Resolving reaches a type that resolves to itself. *)
Definition resolves (file : File) : Prop :=
  forall id, valid file (resolved_type file id) = true ->
    resolved_type file (resolved_type file id) = resolved_type file id.

(** Enough fuel for a walk down the components. *)
Definition type_fuel (file : File) : nat := S (length (types file)).

(** ** Recursion over components

    A query that descends into the components of a type is written as one level,
    [body], over the answers for the arguments it asks about; [key] gives the type
    an argument is about. [descend] ties the knot with fuel. *)
Section Descend.
Context {X A : Type} (key : X -> TypeId).

Fixpoint descend (body : (X -> option A) -> X -> option A) (fuel : nat) (x : X) : option A :=
  match fuel with
  | O => None
  | S fuel => body (descend body fuel) x
  end.

Context (file : File) (rank : TypeId -> nat) (Hranked : ranked file rank).

(** [x] asks about a component of the type of [y], or about what it resolves to. *)
Definition below (x y : X) : Prop :=
  valid file (resolved_type file (key y)) = true /\
  exists c, In c (components file (resolved_type file (key y))) /\
    (valid file (resolved_type file (key x)) = true -> resolved_type file (key x) = resolved_type file c).

Lemma component_below x y :
  valid file (resolved_type file (key y)) = true -> In (key x) (components file (resolved_type file (key y))) ->
  below x y.
Proof. intros Hv Hin. split; [done|]. by exists (key x). Qed.

Lemma resolved_below x y c :
  resolves file -> valid file (resolved_type file (key y)) = true ->
  In c (components file (resolved_type file (key y))) -> key x = resolved_type file c -> below x y.
Proof.
  intros Hres Hv Hin E. split; [done|]. exists c. split; [done|]. rewrite E. intros Hx. apply Hres.
  destruct (valid file (resolved_type file c)) eqn:Ec; [done|].
  unfold resolved_type at 1 in Hx. rewrite Ec in Hx. done.
Qed.

(** A level looks at the answers below only, and has an answer when they do. *)
Definition local (body : (X -> option A) -> X -> option A) : Prop :=
  forall rec rec' y, (forall x, below x y -> rec x = rec' x) -> body rec y = body rec' y.
Definition productive (body : (X -> option A) -> X -> option A) : Prop :=
  forall rec y, (forall x, below x y -> rec x <> None) -> body rec y <> None.

Definition enough (n : nat) (x : X) : Prop :=
  (1 <= n)%nat /\ (valid file (resolved_type file (key x)) = true ->
                   (rank (resolved_type file (key x)) + 2 <= n)%nat).

Lemma enough_below n x y : enough (S n) y -> below x y -> enough n x.
Proof.
  intros [_ Hy] (Hv & c & Hin & E). specialize (Hy Hv). destruct Hranked as [_ Hr].
  split; [lia|]. intros Hx. pose proof (E Hx) as E'. rewrite E' in *. specialize (Hr _ _ Hv Hin Hx). lia.
Qed.

Lemma enough_type_fuel x : enough (type_fuel file) x.
Proof.
  unfold enough, type_fuel. split; [lia|]. intros Hv. destruct Hranked as [Hl _]. specialize (Hl _ Hv). lia.
Qed.

Lemma descend_stable body n m x :
  local body -> enough n x -> enough m x -> descend body n x = descend body m x.
Proof.
  intros Hloc. revert m x. induction n as [|n IH]; intros m x Hn Hm; [destruct Hn; lia|].
  destruct m as [|m]; [destruct Hm; lia|]. cbn [descend]. apply Hloc. intros x' Hx'.
  apply IH; by eapply enough_below.
Qed.

Lemma descend_total body n x : productive body -> enough n x -> descend body n x <> None.
Proof.
  intros Hp. revert x. induction n as [|n IH]; intros x Hn; [destruct Hn; lia|].
  cbn [descend]. apply Hp. intros x' Hx'. apply IH. by eapply enough_below.
Qed.

(** With the fuel of the table, a query answers and satisfies its equation. *)
Lemma descend_equation body x :
  local body -> descend body (type_fuel file) x = body (descend body (type_fuel file)) x.
Proof.
  intros Hloc. rewrite (descend_stable body _ (S (type_fuel file)) x Hloc).
  - reflexivity.
  - apply enough_type_fuel.
  - destruct (enough_type_fuel x). split; [lia|]. intros Hv. specialize (H0 Hv). lia.
Qed.

(** Induction over components. *)
Lemma below_induction (P : X -> Prop) : (forall y, (forall x, below x y -> P x) -> P y) -> forall y, P y.
Proof.
  intros HP. assert (forall n y, enough n y -> P y) as H.
  { induction n as [|n IH]; intros y Hy; [destruct Hy; lia|]. apply HP. intros x Hx.
    apply IH. by eapply enough_below. }
  intros y. apply (H (type_fuel file)), enough_type_fuel.
Qed.
End Descend.

(** ** Checking a table

    The valid ids of a table are its indices with their generations, so the
    conditions above can be evaluated on a concrete table. *)
Definition table_ids (file : File) : list TypeId :=
  map (fun k => mkId (Z.of_nat k) (nthz (type_generations file) k)) (seq 0 (length (types file))).

Lemma valid_in_table file id : valid file id = true -> In id (table_ids file).
Proof.
  intros H. unfold valid in H. ztests. apply in_map_iff. exists (Z.to_nat (index id)).
  split; [|apply in_seq; lia]. destruct id as [i g]; cbn in *. by rewrite Z2Nat.id; [f_equal|].
Qed.

Lemma table_forall file (P : TypeId -> bool) :
  forallb P (table_ids file) = true -> forall id, valid file id = true -> P id = true.
Proof. intros H id Hv. rewrite forallb_forall in H. by apply H, valid_in_table. Qed.

Definition payloads_match_check (file : File) : bool :=
  forallb (fun id => negb (valid file id) ||
                     bool_decide (type_payload_kind (type_payload file id) = kind_of file id)) (table_ids file).

Lemma payloads_match_sound file : payloads_match_check file = true -> payloads_match file.
Proof.
  intros H id Hv. pose proof (table_forall file _ H id Hv) as E. cbn beta in E. rewrite Hv in E.
  by apply bool_decide_eq_true in E.
Qed.

Definition resolves_check (file : File) : bool :=
  forallb (fun id => bool_decide (resolved_type file (resolved_type file id) = resolved_type file id)) (table_ids file).

Lemma resolves_sound file : resolves_check file = true -> resolves file.
Proof.
  intros H id Hv. destruct (valid file id) eqn:E.
  - pose proof (table_forall file _ H id E) as E'. by apply bool_decide_eq_true in E'.
  - unfold resolved_type at 1 in Hv. rewrite E in Hv. done.
Qed.

(** Ranks given by a list, by index. *)
Definition list_rank (ranks : list nat) (id : TypeId) : nat := nth (Z.to_nat (index id)) ranks O.

Definition ranked_check (file : File) (ranks : list nat) : bool :=
  forallb (fun id => (list_rank ranks id <? length (types file))%nat &&
    forallb (fun c => negb (valid file (resolved_type file c)) ||
                      (list_rank ranks (resolved_type file c) <? list_rank ranks id)%nat) (components file id))
    (table_ids file).

Lemma ranked_sound file ranks : ranked_check file ranks = true -> ranked file (list_rank ranks).
Proof.
  intros H. split.
  - intros id Hv. pose proof (table_forall file _ H id Hv) as E. apply andb_true_iff in E as [E _].
    by apply Nat.ltb_lt.
  - intros id c Hv Hin Hc. pose proof (table_forall file _ H id Hv) as E. apply andb_true_iff in E as [_ E].
    rewrite forallb_forall in E. specialize (E c Hin). rewrite Hc in E. by apply Nat.ltb_lt.
Qed.

(** ** Tables built from payloads

    Slot 0 of every table is unused; each type resolves to itself. *)
Definition table_of (payloads : list TypePayload) (facts : list (Z * RecordFacts)) (t : TargetInfo) : File :=
  let ps := InvalidTypePayload :: payloads in
  let id k := mkId (Z.of_nat k) 1 in
  mkFile (imap (fun k p => mkType (type_payload_kind p) (Z.of_nat k) (id k) null_id null_id) ps)
    (replicate (length ps) 1) ps (list_to_map facts) t.

Definition nth_type (k : Z) : TypeRef := mkRef (mkId k 1) 0 Space_Default.
Definition type_id (k : Z) : TypeId := mkId k 1.

Definition plain_field (k off : Z) : RecordFieldFact :=
  mkField (nth_type k) off 0 0 false false 0 0 false Subobject_NonZero.

Definition plain_struct (fs : list RecordFieldFact) (bytes align : Z) : RecordFacts :=
  mkFacts Record_Struct false Prop_False false fs (8 * bytes) align.

(** Some types: [int], [float], [double], [float[3]], a structure of an [int]
    and the array, [_BitInt(12)], an enumeration, a vector of four [float]s, a
    pointer, [double _Complex], a reference and a structure that holds one. *)
Definition sample_payloads : list TypePayload :=
  [ BuiltinTypePayload Bt_Int;
    BuiltinTypePayload Bt_Float;
    BuiltinTypePayload Bt_Double;
    ArrayTypePayload (nth_type 2) Size_Constant (Some 3);
    RecordTypePayload (mkId 1 1) false false;
    BitIntTypePayload 12 false;
    EnumTypePayload (mkId 2 1) false false (nth_type 1);
    VectorTypePayload (nth_type 2) 4 16;
    PointerTypePayload (nth_type 5);
    ComplexTypePayload (nth_type 3);
    ReferenceTypePayload (nth_type 1) Ref_LValue;
    RecordTypePayload (mkId 3 1) false false ].

Definition sample_facts : list (Z * RecordFacts) :=
  [ (id_key (mkId 1 1), plain_struct [plain_field 1 0; plain_field 4 4] 16 4);
    (id_key (mkId 3 1), plain_struct [plain_field 11 0] 8 8) ].

Definition sample_file (t : TargetInfo) : File := table_of sample_payloads sample_facts t.

Definition sample_ranks : list nat := [0; 0; 0; 0; 1; 2; 0; 1; 1; 0; 1; 0; 1]%nat.

Lemma sample_ranked t : ranked (sample_file t) (list_rank sample_ranks).
Proof. apply ranked_sound. vm_compute. reflexivity. Qed.
Lemma sample_payloads_match t : payloads_match (sample_file t).
Proof. apply payloads_match_sound. vm_compute. reflexivity. Qed.
Lemma sample_resolves t : resolves (sample_file t).
Proof. apply resolves_sound. vm_compute. reflexivity. Qed.

(** A property of every payload of a table. *)
Lemma payloads_forall file (P : TypePayload -> Prop) :
  P InvalidTypePayload -> Forall P (type_payloads file) -> forall id, P (type_payload file id).
Proof.
  intros H0 H id. unfold type_payload. case_match; [done|]. unfold payload_at. case_match; [done|].
  destruct (nth_in_or_default (Z.to_nat (payload_index (type_of file id))) (type_payloads file) InvalidTypePayload)
    as [Hin | ->]; [|done].
  rewrite List.Forall_forall in H. by apply H.
Qed.
