(* ===== verification/Layout.v ===== *)
(** * Sizes and alignments of types (src/cir/layout.cpp)

    The layout queries follow the types a type contains. The model threads fuel;
    a table whose types are ranked never runs out of it, and then the queries
    satisfy the recursive equations of the code. *)
From stdpp Require Import gmap.
From S2P Require Import Prelude Target CirTypes.
Open Scope Z_scope.

(** ** Data *)

Record TypeSizeAlign := mkSizeAlign { size_bytes : Z; alignment_bytes : Z }.
Record IntegerTypeShape := mkShape { bit_width : Z; shape_unsigned : bool }.
Definition default_shape : IntegerTypeShape := mkShape 64 false.

(** ** Builtin types *)

Definition builtin_kind (file : File) (type : TypeId) : BuiltinTypeKind :=
  let type := resolved_type file type in
  if negb (valid file type) || negb (bool_decide (kind_of file type = Kind_Builtin)) then Bt_Other
  else match type_payload file type with BuiltinTypePayload k => k | _ => Bt_Other end.

Definition bytes_for_bits (bits : Z) : Z := Z.max 1 (Z.quot (bits + 7) 8).

(** [power <<= 1] while it is less than [value]; the shift loses the bit above
    2^63, and the loop then never ends. *)
Fixpoint next_power_loop (fuel : nat) (power value : Z) : option Z :=
  match fuel with
  | O => None
  | S fuel => if power <? value then next_power_loop fuel (u64 (Z.shiftl power 1)) value else Some power
  end.
Definition next_power_of_two (value : Z) : option Z :=
  if value <=? 1 then Some 1 else next_power_loop 65 1 value.

Definition builtin_size_align (kind : BuiltinTypeKind) (target : TargetInfo) : option TypeSizeAlign :=
  let pointer_bytes := bytes_for_bits (pointer_width target) in
  let long_bytes := bytes_for_bits (long_width target) in
  let wchar_bytes := bytes_for_bits (wchar_width target) in
  match kind with
  | Bt_Void => Some (mkSizeAlign 1 1)
  | Bt_NullPtr | Bt_USize | Bt_MetaInfo => Some (mkSizeAlign pointer_bytes pointer_bytes)
  | Bt_Bool | Bt_Char | Bt_SChar | Bt_UChar | Bt_Char8 => Some (mkSizeAlign 1 1)
  | Bt_Short | Bt_UShort | Bt_Char16 | Bt_Float16 => Some (mkSizeAlign 2 2)
  | Bt_Int | Bt_UInt | Bt_Char32 | Bt_Float => Some (mkSizeAlign 4 4)
  | Bt_WChar => Some (mkSizeAlign wchar_bytes wchar_bytes)
  | Bt_Long | Bt_ULong => Some (mkSizeAlign long_bytes long_bytes)
  | Bt_LongLong | Bt_ULongLong | Bt_Double => Some (mkSizeAlign 8 8)
  | Bt_Int128 | Bt_UInt128 => Some (mkSizeAlign 16 16)
  | Bt_LongDouble =>
      if bool_decide (long_double_format target = IEEE_DOUBLE) then Some (mkSizeAlign 8 8)
      else if long_double_storage_bytes target >? 0
      then Some (mkSizeAlign (long_double_storage_bytes target) (Z.max 1 (long_double_align_bytes target)))
      else Some (mkSizeAlign 16 16)
  | Bt_Other => None
  end.

Definition builtin_integer_width (kind : BuiltinTypeKind) (target : TargetInfo) : Z :=
  match kind with
  | Bt_Bool | Bt_Char | Bt_SChar | Bt_UChar | Bt_Char8 => 8
  | Bt_Short | Bt_UShort | Bt_Char16 => 16
  | Bt_Int | Bt_UInt | Bt_Char32 => 32
  | Bt_WChar => u16 (wchar_width target)
  | Bt_Long | Bt_ULong => u16 (long_width target)
  | Bt_LongLong | Bt_ULongLong => 64
  | Bt_NullPtr | Bt_USize | Bt_MetaInfo => u16 (pointer_width target)
  | Bt_Int128 | Bt_UInt128 => 128
  | _ => 64
  end.

Definition builtin_is_unsigned (kind : BuiltinTypeKind) (target : TargetInfo) : bool :=
  match kind with
  | Bt_Bool | Bt_UChar | Bt_Char8 | Bt_UShort | Bt_UInt | Bt_ULong | Bt_ULongLong | Bt_UInt128 | Bt_USize
  | Bt_NullPtr | Bt_MetaInfo | Bt_Char16 | Bt_Char32 => true
  | Bt_Char => char_is_unsigned target
  | Bt_WChar => wchar_is_unsigned target
  | _ => false
  end.

Definition builtin_is_integer_like (kind : BuiltinTypeKind) : bool :=
  match kind with
  | Bt_Bool | Bt_Char | Bt_SChar | Bt_UChar | Bt_Char8 | Bt_WChar | Bt_Char16 | Bt_Char32 | Bt_Short | Bt_UShort
  | Bt_Int | Bt_UInt | Bt_Long | Bt_ULong | Bt_LongLong | Bt_ULongLong | Bt_Int128 | Bt_UInt128 | Bt_USize => true
  | _ => false
  end.

(** ** Size and alignment

    One level of the recursion: [rec] answers for the types contained. The outer
    option is the model's: [None] when the answer is not available within the
    fuel; the inner one is the code's [std::nullopt]. *)
Definition size_align_body (file : File) (target : TargetInfo)
    (rec : TypeId -> option (option TypeSizeAlign)) (type_id : TypeId) : option (option TypeSizeAlign) :=
  let type_id := resolved_type file type_id in
  if negb (valid file type_id) then Some None
  else
  let payload := type_payload file type_id in
  match kind_of file type_id with
  | Kind_Builtin =>
      Some (match payload with BuiltinTypePayload k => builtin_size_align k target | _ => None end)
  | Kind_Pointer | Kind_BlockPointer | Kind_LValueReference | Kind_RValueReference =>
      Some (Some (mkSizeAlign (bytes_for_bits (pointer_width target)) (bytes_for_bits (pointer_width target))))
  | Kind_MemberPointer =>
      let pointer_bytes := bytes_for_bits (pointer_width target) in
      let size := if member_pointer_points_to_function file type_id then pointer_bytes * 2 else pointer_bytes in
      Some (Some (mkSizeAlign size pointer_bytes))
  | Kind_Function => Some (Some (mkSizeAlign 1 1))
  | Kind_Array =>
      match payload with
      | ArrayTypePayload element_type _ (Some size) =>
          element ← rec (ref_type element_type);
          Some (match element with
                | Some e => Some (mkSizeAlign (u64 (size_bytes e * size)) (alignment_bytes e))
                | None => None
                end)
      | _ => Some None
      end
  | Kind_Record =>
      Some (match record_facts_for_type file type_id with
            | Some facts =>
                if facts_incomplete facts then None
                else Some (mkSizeAlign (u64 (size_bits facts + 7) / 8)
                             (if alignment facts >? 0 then alignment facts else 1))
            | None => None
            end)
  | Kind_Enum =>
      match payload with
      | EnumTypePayload _ _ _ underlying =>
          if ref_valid underlying then rec (ref_type underlying) else Some (Some (mkSizeAlign 4 4))
      | _ => Some (Some (mkSizeAlign 4 4))
      end
  | Kind_Vector =>
      match payload with
      | VectorTypePayload element_type count size =>
          if negb (ref_valid element_type) || (count =? 0) || (size =? 0) then Some None
          else
          element ← rec (ref_type element_type);
          match element with
          | None => Some None
          | Some e =>
              preferred ← next_power_of_two size;
              let capped := Z.min preferred
                (if max_alignment_bytes target >? 0 then max_alignment_bytes target else 1) in
              Some (Some (mkSizeAlign size (Z.max (alignment_bytes e) (Z.max 1 capped))))
          end
      | _ => Some None
      end
  | Kind_Complex =>
      match payload with
      | ComplexTypePayload element_type =>
          if negb (ref_valid element_type) then Some None
          else
          element ← rec (ref_type element_type);
          Some (match element with
                | Some e => Some (mkSizeAlign (u64 (size_bytes e * 2)) (alignment_bytes e))
                | None => None
                end)
      | _ => Some None
      end
  | Kind_BitInt =>
      Some (match payload with
            | BitIntTypePayload bits _ =>
                if (bits =? 0) || (bits >? 128) then None
                else
                let bytes := for_up 5 (fun _ bytes => if bytes * 8 <? bits then bytes * 2 else bytes) 1 in
                Some (mkSizeAlign bytes bytes)
            | _ => None
            end)
  | Kind_Typedef =>
      match payload with
      | TypedefTypePayload _ underlying =>
          if ref_valid underlying then rec (ref_type underlying) else Some None
      | _ => Some None
      end
  | _ => Some None
  end.

Definition size_align_go (file : File) (target : TargetInfo) : nat -> TypeId -> option (option TypeSizeAlign) :=
  descend (size_align_body file target).

(** The queries for a given target and for the file's own. *)
Definition size_align_for (file : File) (target : TargetInfo) (type_id : TypeId) : option TypeSizeAlign :=
  default None (size_align_go file target (type_fuel file) type_id).
Definition size_align_of_type (file : File) (type_id : TypeId) : option TypeSizeAlign :=
  size_align_for file (target_info file) type_id.

Definition size_of_type (file : File) (type : TypeId) : option Z :=
  match size_align_of_type file type with Some sa => Some (size_bytes sa) | None => None end.

(** An array is as aligned as its element, also when its size is not known. *)
Definition align_body (file : File) (rec : TypeId -> option (option Z)) (type : TypeId) : option (option Z) :=
  let resolved := resolved_type file type in
  let from_size := match size_align_of_type file type with Some sa => Some (alignment_bytes sa) | None => None end in
  if valid file resolved && bool_decide (kind_of file resolved = Kind_Array) then
    match type_payload file resolved with
    | ArrayTypePayload element_type _ _ => rec (ref_type element_type)
    | _ => Some from_size
    end
  else Some from_size.
Definition align_go (file : File) : nat -> TypeId -> option (option Z) := descend (align_body file).
Definition align_of_type (file : File) (type : TypeId) : option Z := default None (align_go file (type_fuel file) type).

(** ** Classification of types *)

Definition is_integer_like_body (file : File) (rec : TypeId -> option bool) (type : TypeId) : option bool :=
  let type := resolved_type file type in
  if negb (valid file type) then Some false
  else
  let payload := type_payload file type in
  match kind_of file type with
  | Kind_Enum => Some true
  | Kind_Typedef =>
      match payload with
      | TypedefTypePayload _ underlying => rec (ref_type underlying)
      | _ => Some false
      end
  | Kind_BitInt => Some true
  | Kind_Builtin => Some (builtin_is_integer_like (builtin_kind file type))
  | _ => Some false
  end.
Definition is_integer_like_go (file : File) : nat -> TypeId -> option bool := descend (is_integer_like_body file).
Definition is_integer_like_type (file : File) (type : TypeId) : bool :=
  default false (is_integer_like_go file (type_fuel file) type).

Definition is_floating_type (file : File) (type : TypeId) : bool :=
  match builtin_kind file type with
  | Bt_Float16 | Bt_Float | Bt_Double | Bt_LongDouble => true
  | _ => false
  end.

Definition integer_shape_body (file : File) (target : TargetInfo) (rec : TypeId -> option IntegerTypeShape) (type : TypeId) : option IntegerTypeShape :=
  let type := resolved_type file type in
  if negb (valid file type) then Some default_shape
  else
  let payload := type_payload file type in
  let builtin := let k := builtin_kind file type in
                 Some (mkShape (builtin_integer_width k target) (builtin_is_unsigned k target)) in
  match kind_of file type with
  | Kind_Enum =>
      match payload with
      | EnumTypePayload _ _ _ underlying =>
          if ref_valid underlying then rec (ref_type underlying)
          else Some (mkShape 32 false)
      | _ => Some (mkShape 32 false)
      end
  | Kind_Typedef =>
      match payload with
      | TypedefTypePayload _ underlying =>
          if ref_valid underlying then rec (ref_type underlying)
          else Some default_shape
      | _ => Some default_shape
      end
  | Kind_BitInt =>
      match payload with
      | BitIntTypePayload bits is_unsigned => Some (mkShape (u16 bits) is_unsigned)
      | _ => Some default_shape
      end
  | _ => builtin
  end.
Definition integer_shape_go (file : File) (target : TargetInfo) : nat -> TypeId -> option IntegerTypeShape := descend (integer_shape_body file target).
Definition integer_shape_for (file : File) (target : TargetInfo) (type : TypeId) : IntegerTypeShape :=
  default default_shape (integer_shape_go file target (type_fuel file) type).
Definition integer_shape_for_type (file : File) (type : TypeId) : IntegerTypeShape :=
  integer_shape_for file (target_info file) type.

(** ** Padding *)

Definition no_padding_body (file : File) (rec : TypeId -> option bool) (type : TypeId) : option bool :=
  let type := resolved_type file type in
  if negb (valid file type) then Some false
  else
  let size := size_of_type file type in
  if is_integer_like_type file type then
    let shape := integer_shape_for_type file type in
    Some (match size with Some s => u64 (s * 8) =? bit_width shape | None => false end)
  else
  let payload := type_payload file type in
  match kind_of file type with
  | Kind_Pointer | Kind_BlockPointer | Kind_MemberPointer => Some true
  | Kind_Builtin =>
      Some (match builtin_kind file type with
            | Bt_NullPtr | Bt_Float16 | Bt_Float | Bt_Double => true
            | Bt_LongDouble => negb (bool_decide (long_double_format (target_info file) = X87_EXTENDED))
            | _ => false
            end)
  | Kind_Array =>
      match size, payload with
      | Some _, ArrayTypePayload element_type _ _ => rec (ref_type element_type)
      | _, _ => Some false
      end
  | Kind_Vector =>
      match payload with
      | VectorTypePayload element_type count _ =>
          match size, size_of_type file (ref_type element_type) with
          | Some s, Some es =>
              if s =? u64 (es * count) then rec (ref_type element_type) else Some false
          | _, _ => Some false
          end
      | _ => Some false
      end
  | Kind_Complex =>
      match payload with
      | ComplexTypePayload element_type =>
          match size, size_of_type file (ref_type element_type) with
          | Some s, Some es =>
              if s =? u64 (es * 2) then rec (ref_type element_type) else Some false
          | _, _ => Some false
          end
      | _ => Some false
      end
  | _ => Some false
  end.
Definition no_padding_go (file : File) : nat -> TypeId -> option bool := descend (no_padding_body file).
Definition type_has_known_no_padding (file : File) (type : TypeId) : bool :=
  default false (no_padding_go file (type_fuel file) type).

Definition bitfield_value_width (file : File) (field : RecordFieldFact) : Z :=
  let declared_width := field_bit_width field in
  let type_width := bit_width (integer_shape_for_type file (ref_type (field_type field))) in
  if (declared_width =? 0) || (type_width =? 0) then declared_width else Z.min declared_width type_width.

(** The first field that answers yes ends the search. *)
Fixpoint any_field {A} (answer : A -> option bool) (l : list A) : option bool :=
  match l with
  | [] => Some false
  | x :: l => b ← answer x; if (b : bool) then Some true else any_field answer l
  end.

Definition mutable_subobject_body (file : File) (rec : TypeId -> option bool) (type : TypeId) : option bool :=
  let type := resolved_type file type in
  if negb (valid file type) then Some false
  else match kind_of file type with
  | Kind_Array =>
      match type_payload file type with
      | ArrayTypePayload element_type _ _ => rec (ref_type element_type)
      | _ => Some false
      end
  | Kind_Record =>
      match record_facts_for_type file type with
      | None => Some false
      | Some facts =>
          any_field (fun field =>
            if is_mutable field then Some true
            else rec (ref_type (field_type field))) (fields facts)
      end
  | _ => Some false
  end.
Definition mutable_subobject_go (file : File) : nat -> TypeId -> option bool := descend (mutable_subobject_body file).
Definition type_has_mutable_subobject (file : File) (type : TypeId) : bool :=
  default false (mutable_subobject_go file (type_fuel file) type).
