(* ===== verification/LayoutProps.v ===== *)
(** * Layout queries are total and sound (src/cir/layout.cpp)

    On a table whose types are ranked every query terminates and satisfies the
    recursive equations of the code; sizes are multiples of alignments, which are
    powers of two; integer shapes fit the storage; types reported to have no
    padding have none. *)
From stdpp Require Import gmap.
From S2P Require Import Prelude FloatText Target TargetMacros CirTypes Layout.
Open Scope Z_scope.

(** ** Powers of two *)

Definition is_pow2 (a : Z) : Prop := exists k, 0 <= k < 64 /\ a = 2 ^ k.

Lemma is_pow2_check a : existsb (fun k => a =? 2 ^ Z.of_nat k) (seq 0 64) = true -> is_pow2 a.
Proof.
  intros H. apply existsb_exists in H as (k & Hk & E%Z.eqb_eq). apply in_seq in Hk.
  exists (Z.of_nat k). split; [lia|done].
Qed.

Lemma is_pow2_pos a : is_pow2 a -> 1 <= a < 2 ^ 64.
Proof.
  intros (k & Hk & ->). pose proof (pow2_pos k ltac:(lia)). pose proof (pow2_lt k 64 ltac:(lia)). lia.
Qed.

Lemma is_pow2_divides a b : is_pow2 a -> is_pow2 b -> a <= b -> (a | b).
Proof.
  intros (k & Hk & ->) (n & Hn & ->) Hle. apply Z.pow_le_mono_r_iff in Hle; [|lia|lia].
  exists (2 ^ (n - k)). rewrite <- Z.pow_add_r by lia. f_equal. lia.
Qed.

Lemma is_pow2_u64 a x : is_pow2 a -> (a | x) -> (a | u64 x).
Proof.
  intros (k & Hk & ->) Hx. unfold uwrap. rewrite Z.mod_eq by lia. apply Z.divide_sub_r; [done|].
  apply Z.divide_mul_l. exists (2 ^ (64 - k)). rewrite <- Z.pow_add_r by lia. f_equal. lia.
Qed.

Lemma is_pow2_max a b : is_pow2 a -> is_pow2 b -> is_pow2 (Z.max a b).
Proof. intros Ha Hb. destruct (Z.max_spec a b) as [[_ ->] | [_ ->]]; done. Qed.
Lemma is_pow2_min a b : is_pow2 a -> is_pow2 b -> is_pow2 (Z.min a b).
Proof. intros Ha Hb. destruct (Z.min_spec a b) as [[_ ->] | [_ ->]]; done. Qed.
Lemma is_pow2_of k : 0 <= k < 64 -> is_pow2 (2 ^ k).
Proof. intros Hk. by exists k. Qed.

Create HintDb layout.
#[export] Hint Resolve is_pow2_max is_pow2_min is_pow2_u64 : layout.

(** ** The loop of [next_power_of_two] *)

Lemma next_power_loop_spec value n : forall k,
  0 <= k -> 2 ^ (k - 1) < value <= 2 ^ 63 -> (64 - k <= Z.of_nat n) ->
  exists e, next_power_loop n (2 ^ k) value = Some (2 ^ e) /\ k <= e <= 63 /\ 2 ^ (e - 1) < value <= 2 ^ e.
Proof.
  induction n as [|n IH]; intros k Hk Hv Hn.
  - assert (64 <= k) by lia. pose proof (pow2_le 63 (k - 1) ltac:(lia)). lia.
  - cbn [next_power_loop]. destruct (Z.ltb_spec (2 ^ k) value) as [L|L].
    + assert (k < 63) as Hk63 by (apply (Z.pow_lt_mono_r_iff 2); lia).
      rewrite shiftl_mul by lia. change (2 ^ 1) with 2.
      replace (2 ^ k * 2) with (2 ^ (k + 1)) by (rewrite pow2_succ by lia; lia).
      rewrite uwrap_small by (split; [apply Z.lt_le_incl, pow2_pos; lia|apply pow2_lt; lia]).
      destruct (IH (k + 1)) as (e & E & He & Hb); [lia| |lia|].
      { replace (k + 1 - 1) with k by lia. lia. }
      exists e. split; [done|]. split; [lia|done].
    + exists k. split; [done|]. split; [|lia]. split; [lia|].
      destruct (Z.le_gt_cases k 63); [done|]. pose proof (pow2_le 63 (k - 1) ltac:(lia)). lia.
Qed.

Lemma next_power_of_two_spec value :
  1 <= value <= 2 ^ 63 ->
  exists e, next_power_of_two value = Some (2 ^ e) /\ 0 <= e <= 63 /\ 2 ^ (e - 1) < value <= 2 ^ e.
Proof.
  intros Hv. unfold next_power_of_two. destruct (Z.leb_spec value 1).
  - exists 0. assert (value = 1) as -> by lia. repeat split; done || lia.
  - destruct (next_power_loop_spec value 65 0) as (e & E & He & Hb); [lia| |lia|].
    { change (2 ^ (0 - 1)) with 0. lia. }
    exists e. change (2 ^ 0) with 1 in E. split; [done|]. split; [lia|done].
Qed.

Lemma next_power_loop_zero value n : 0 < value -> next_power_loop n 0 value = None.
Proof. intros Hv. induction n as [|n IH]; [done|]. cbn [next_power_loop]. by rewrite (proj2 (Z.ltb_lt _ _)). Qed.

Lemma next_power_loop_diverges value n : forall k,
  2 ^ 63 < value -> 0 <= k <= 63 -> next_power_loop n (2 ^ k) value = None.
Proof.
  induction n as [|n IH]; intros k Hv Hk; [done|]. cbn [next_power_loop].
  pose proof (pow2_le k 63 ltac:(lia)). rewrite (proj2 (Z.ltb_lt _ _)) by lia.
  rewrite shiftl_mul by lia. change (2 ^ 1) with 2.
  replace (2 ^ k * 2) with (2 ^ (k + 1)) by (rewrite pow2_succ by lia; lia).
  destruct (Z.eq_dec k 63) as [-> |].
  - apply next_power_loop_zero. lia.
  - rewrite uwrap_small by (split; [apply Z.lt_le_incl, pow2_pos; lia|apply pow2_lt; lia]). apply IH; lia.
Qed.

(** ** Well-formed tables *)

(** The size of a vector, as it is stored, is within reach of the loop. *)
Definition vectors_bounded (file : File) : Prop :=
  forall id e n s, type_payload file id = VectorTypePayload e n s -> 0 <= s <= 2 ^ 63.

Section Queries.
Context (file : File) (target : TargetInfo) (rank : TypeId -> nat).
Context (Hranked : ranked file rank) (Hvectors : vectors_bounded file).

Lemma below_component (x y : TypeId) :
  valid file (resolved_type file y) = true -> In x (components file (resolved_type file y)) ->
  below (fun id => id) file x y.
Proof. apply (component_below (fun id => id)). Qed.

Ltac component Hrec Ep :=
  apply Hrec, below_component; [done|]; unfold components; rewrite Ep; cbn; tauto.

Lemma size_align_local : local (fun id => id) file (size_align_body file target).
Proof.
  intros rec rec' y Hrec. unfold size_align_body.
  destruct (valid file (resolved_type file y)) eqn:Ev; [|done]. cbn [negb].
  destruct (kind_of file (resolved_type file y)); try done;
    destruct (type_payload file (resolved_type file y)) eqn:Ep; try done.
  - destruct size; [|done]. rewrite (Hrec (ref_type element_type)); [done|].
    apply below_component; [done|]. unfold components. rewrite Ep. by left.
  - case_match; [|done]. component Hrec Ep.
  - case_match; [done|]. rewrite (Hrec (ref_type element_type)); [done|].
    apply below_component; [done|]. unfold components. rewrite Ep. by left.
  - case_match; [done|]. rewrite (Hrec (ref_type element_type)); [done|].
    apply below_component; [done|]. unfold components. rewrite Ep. by left.
  - case_match; [|done]. component Hrec Ep.
Qed.

Lemma size_align_productive : productive (fun id => id) file (size_align_body file target).
Proof.
  intros rec y Hrec. unfold size_align_body.
  destruct (valid file (resolved_type file y)) eqn:Ev; [|done]. cbn [negb].
  destruct (kind_of file (resolved_type file y)); try done;
    destruct (type_payload file (resolved_type file y)) eqn:Ep; try done.
  - destruct size; [|done]. destruct (rec (ref_type element_type)) eqn:Er; [done|].
    exfalso. revert Er. component Hrec Ep.
  - case_match; [|done]. component Hrec Ep.
  - case_match; [done|]. destruct (rec (ref_type element_type)) as [[e|]|] eqn:Er; [|done|].
    + destruct (Z.le_gt_cases size_bytes 1); cbn [mbind option_bind].
      * unfold next_power_of_two. by rewrite (proj2 (Z.leb_le _ _)).
      * pose proof (Hvectors _ _ _ _ Ep) as Hb.
        destruct (next_power_of_two_spec size_bytes ltac:(lia)) as (k & -> & _). done.
    + exfalso. revert Er. component Hrec Ep.
  - case_match; [done|]. destruct (rec (ref_type element_type)) eqn:Er; [done|].
    exfalso. revert Er. component Hrec Ep.
  - case_match; [|done]. component Hrec Ep.
Qed.

(** The query as the code states it: it always returns, and its answer satisfies
    the recursive equation. *)
Lemma size_align_equation id :
  size_align_body file target (fun c => Some (size_align_for file target c)) id
  = Some (size_align_for file target id).
Proof.
  assert (forall c, size_align_go file target (type_fuel file) c = Some (size_align_for file target c)) as Hgo.
  { intros c. unfold size_align_for. destruct (size_align_go file target (type_fuel file) c) eqn:E; [done|].
    exfalso. revert E. apply (descend_total _ file rank Hranked _ _ _ size_align_productive).
    by apply enough_type_fuel. }
  rewrite <- Hgo. unfold size_align_go.
  rewrite (descend_equation _ file rank Hranked _ id size_align_local).
  apply size_align_local. intros c _. symmetry. apply Hgo.
Qed.
End Queries.

(** ** The layout rules

    What the query computes, as rules on the payload of the resolved type. *)
Definition resolves_to (file : File) (id : TypeId) (p : TypePayload) : Prop :=
  valid file (resolved_type file id) = true /\ type_payload file (resolved_type file id) = p.

Abbreviation pointer_size target := (bytes_for_bits (pointer_width target)).

(** The storage of a [_BitInt]: the least power of two of bytes that holds it. *)
Definition bitint_storage (bits bytes : Z) : Prop :=
  exists k, 0 <= k /\ bytes = 2 ^ k /\ bits <= 8 * bytes /\ (k = 0 \/ 4 * bytes < bits).

Inductive has_layout (file : File) (target : TargetInfo) : TypeId -> TypeSizeAlign -> Prop :=
  | Layout_builtin id k sa :
      resolves_to file id (BuiltinTypePayload k) -> builtin_size_align k target = Some sa ->
      has_layout file target id sa
  | Layout_pointer id p :
      resolves_to file id (PointerTypePayload p) \/ resolves_to file id (BlockPointerTypePayload p) \/
      (exists k, resolves_to file id (ReferenceTypePayload p k)) ->
      has_layout file target id (mkSizeAlign (pointer_size target) (pointer_size target))
  | Layout_member_pointer id c m :
      resolves_to file id (MemberPointerTypePayload c m) ->
      has_layout file target id
        (mkSizeAlign (if member_pointer_points_to_function file (resolved_type file id)
                      then pointer_size target * 2 else pointer_size target) (pointer_size target))
  | Layout_function id r ps v :
      resolves_to file id (FunctionTypePayload r ps v) -> has_layout file target id (mkSizeAlign 1 1)
  | Layout_array id e sk n es :
      resolves_to file id (ArrayTypePayload e sk (Some n)) -> has_layout file target (ref_type e) es ->
      has_layout file target id (mkSizeAlign (u64 (size_bytes es * n)) (alignment_bytes es))
  | Layout_record id ent u i facts :
      resolves_to file id (RecordTypePayload ent u i) ->
      record_facts_for_type file (resolved_type file id) = Some facts -> facts_incomplete facts = false ->
      has_layout file target id
        (mkSizeAlign (u64 (size_bits facts + 7) / 8) (if alignment facts >? 0 then alignment facts else 1))
  | Layout_enum id ent sc i u sa :
      resolves_to file id (EnumTypePayload ent sc i u) -> ref_valid u = true ->
      has_layout file target (ref_type u) sa -> has_layout file target id sa
  | Layout_enum_int id ent sc i u :
      resolves_to file id (EnumTypePayload ent sc i u) -> ref_valid u = false ->
      has_layout file target id (mkSizeAlign 4 4)
  | Layout_vector id e n s es k :
      resolves_to file id (VectorTypePayload e n s) -> ref_valid e = true -> n <> 0 -> s <> 0 ->
      has_layout file target (ref_type e) es -> next_power_of_two s = Some k ->
      has_layout file target id (mkSizeAlign s (Z.max (alignment_bytes es) (Z.max 1 (Z.min k
        (if max_alignment_bytes target >? 0 then max_alignment_bytes target else 1)))))
  | Layout_complex id e es :
      resolves_to file id (ComplexTypePayload e) -> ref_valid e = true -> has_layout file target (ref_type e) es ->
      has_layout file target id (mkSizeAlign (u64 (size_bytes es * 2)) (alignment_bytes es))
  | Layout_bitint id bits u bytes :
      resolves_to file id (BitIntTypePayload bits u) -> bits <> 0 -> bits <= 128 -> bitint_storage bits bytes ->
      has_layout file target id (mkSizeAlign bytes bytes)
  | Layout_typedef id ent u sa :
      resolves_to file id (TypedefTypePayload ent u) -> ref_valid u = true ->
      has_layout file target (ref_type u) sa -> has_layout file target id sa.

Definition bitint_bytes (bits : Z) : Z :=
  for_up 5 (fun _ bytes => if bytes * 8 <? bits then bytes * 2 else bytes) 1.

Lemma bitint_bytes_spec bits : bits <= 128 -> forall bytes, bitint_storage bits bytes <-> bytes = bitint_bytes bits.
Proof.
  intros Hb bytes. assert (bitint_storage bits (bitint_bytes bits)) as H0.
  { unfold bitint_bytes, for_up. cbn [for_from].
    repeat match goal with |- context [if ?a <? ?b then _ else _] => destruct (Z.ltb_spec a b); try lia end.
    all: [> exists 4 | exists 3 | exists 2 | exists 1 | exists 0]; change (2 ^ 4) with 16; change (2 ^ 3) with 8;
      change (2 ^ 2) with 4; change (2 ^ 1) with 2; change (2 ^ 0) with 1; lia. }
  split; [|by intros ->]. destruct H0 as (m & Hm & -> & Hs & Hl). intros (k & Hk & -> & Hs' & Hl').
  f_equal. destruct (Z.lt_trichotomy k m) as [L | [-> | L]]; [|done|].
  - pose proof (pow2_le (k + 1) m ltac:(lia)). rewrite pow2_succ in H by lia. lia.
  - pose proof (pow2_le (m + 1) k ltac:(lia)). rewrite pow2_succ in H by lia. lia.
Qed.

Lemma some_some_inj {A} (a b : A) : Some (Some a) = Some (Some b) -> a = b.
Proof. congruence. Qed.

Section Rules.
Context (file : File) (target : TargetInfo) (rank : TypeId -> nat).
Context (Hranked : ranked file rank) (Hpayloads : payloads_match file) (Hvectors : vectors_bounded file).

Lemma size_align_rules id : forall sa,
  size_align_for file target id = Some sa -> has_layout file target id sa.
Proof.
  induction id as [id IH] using (below_induction (fun id => id) file rank Hranked). intros sa H.
  pose proof (size_align_equation file target rank Hranked Hvectors id) as E. rewrite H in E. clear H.
  unfold size_align_body in E. destruct (valid file (resolved_type file id)) eqn:Ev; [|discriminate].
  cbn [negb] in E. cbv zeta in E. rewrite <- (Hpayloads _ Ev) in E.
  assert (forall c, In c (components file (resolved_type file id)) -> below (fun id => id) file c id) as Hb by (intros c Hc; by apply component_below).
  unfold components in Hb. pose proof (fun p Ep => conj Ev Ep : resolves_to file id p) as Hr.
  destruct (type_payload file (resolved_type file id)) eqn:Ep; cbn [type_payload_kind] in E; try discriminate;
    specialize (Hr _ eq_refl); cbn [In] in Hb.
  - injection E as E. by eapply Layout_builtin.
  - injection E as <-. eapply Layout_pointer. eauto.
  - injection E as <-. eapply Layout_pointer. eauto.
  - apply some_some_inj in E as <-. exact (Layout_member_pointer _ _ _ _ _ Hr).
  - destruct reference_kind; injection E as <-; eapply Layout_pointer; eauto.
  - destruct size as [n|]; [|discriminate]. cbn [mbind option_bind] in E.
    destruct (size_align_for file target (ref_type element_type)) as [es|] eqn:Ee; [|discriminate].
    injection E as <-. eapply Layout_array; [done|]. apply IH; [|done]. apply Hb. by left.
  - injection E as <-. by eapply Layout_function.
  - destruct (record_facts_for_type file (resolved_type file id)) as [facts|] eqn:Ef; [|discriminate].
    destruct (facts_incomplete facts) eqn:Ei; [discriminate|]. injection E as <-. by eapply Layout_record.
  - destruct (ref_valid underlying_type) eqn:Er.
    + injection E as E. eapply Layout_enum; [done|done|]. apply IH; [|done]. apply Hb. by left.
    + injection E as <-. by eapply Layout_enum_int.
  - destruct (negb (ref_valid element_type) || (element_count =? 0) || (size_bytes =? 0)) eqn:Eg; [discriminate|].
    ztests. cbn [mbind option_bind] in E.
    destruct (size_align_for file target (ref_type element_type)) as [es|] eqn:Ee; [|discriminate].
    destruct (next_power_of_two size_bytes) as [k|] eqn:Ek; [|discriminate]. injection E as <-.
    eapply Layout_vector; try done. apply IH; [|done]. apply Hb. by left.
  - destruct (negb (ref_valid element_type)) eqn:Eg; [discriminate|]. ztests. cbn [mbind option_bind] in E.
    destruct (size_align_for file target (ref_type element_type)) as [es|] eqn:Ee; [|discriminate].
    injection E as <-. eapply Layout_complex; try done. apply IH; [|done]. apply Hb. by left.
  - destruct ((bits =? 0) || (bits >? 128)) eqn:Eg; [discriminate|]. rewrite Z.gtb_ltb in Eg. ztests.
    injection E as <-. eapply Layout_bitint; try done. by apply bitint_bytes_spec.
  - destruct (ref_valid underlying_type) eqn:Er; [|discriminate].
    injection E as E. eapply Layout_typedef; [done|done|]. apply IH; [|done]. apply Hb. by left.
Qed.

(** A rule applies to one payload, and the query follows it. *)
Lemma body_of_payload id p rec :
  resolves_to file id p ->
  size_align_body file target rec id =
  match p with
  | BuiltinTypePayload k => Some (builtin_size_align k target)
  | PointerTypePayload _ | BlockPointerTypePayload _ | ReferenceTypePayload _ _ =>
      Some (Some (mkSizeAlign (pointer_size target) (pointer_size target)))
  | MemberPointerTypePayload _ _ =>
      Some (Some (mkSizeAlign (if member_pointer_points_to_function file (resolved_type file id)
                               then pointer_size target * 2 else pointer_size target) (pointer_size target)))
  | _ => size_align_body file target rec id
  end.
Proof.
  intros [Hv Ep]. unfold size_align_body. rewrite Hv, <- (Hpayloads _ Hv), Ep. cbn [negb].
  destruct p; try reflexivity. by destruct reference_kind.
Qed.

Ltac rule_body Hr :=
  let Hv := fresh in let Ep := fresh in
  destruct Hr as [Hv Ep]; unfold size_align_body; rewrite Hv, <- (Hpayloads _ Hv), Ep; cbn [negb type_payload_kind].

Lemma rules_size_align id sa : has_layout file target id sa -> size_align_for file target id = Some sa.
Proof.
  intros H. apply (inj Some). rewrite <- (size_align_equation file target rank Hranked Hvectors).
  induction H as [id k sa Hr E | id p Hr | id c m Hr | id r ps v Hr | id e sk n es Hr _ IH | id ent u i facts Hr Ef Ei
    | id ent sc i u sa Hr Eu _ IH | id ent sc i u Hr Eu | id e n s es k Hr Ee Hn Hs _ IH Ek | id e es Hr Ee _ IH
    | id bits u bytes Hr Hn Hb Hst | id ent u sa Hr Eu _ IH];
    try rewrite (size_align_equation file target rank Hranked Hvectors) in IH.
  - by rewrite (body_of_payload _ _ _ Hr), E.
  - destruct Hr as [Hr | [Hr | [k Hr]]]; by rewrite (body_of_payload _ _ _ Hr).
  - by rewrite (body_of_payload _ _ _ Hr).
  - rule_body Hr. reflexivity.
  - rule_body Hr. cbn [mbind option_bind]. apply (inj Some) in IH. by rewrite IH.
  - rule_body Hr. by rewrite Ef, Ei.
  - rule_body Hr. by rewrite Eu.
  - rule_body Hr. by rewrite Eu.
  - rule_body Hr. rewrite Ee, (proj2 (Z.eqb_neq _ _) Hn), (proj2 (Z.eqb_neq _ _) Hs). cbn [negb orb mbind option_bind].
    apply (inj Some) in IH. by rewrite IH, Ek.
  - rule_body Hr. rewrite Ee. cbn [negb mbind option_bind]. apply (inj Some) in IH. by rewrite IH.
  - rule_body Hr. apply bitint_bytes_spec in Hst; [|done]. subst bytes.
    rewrite (proj2 (Z.eqb_neq _ _) Hn), Z.gtb_ltb, (proj2 (Z.ltb_ge _ _) Hb). reflexivity.
  - rule_body Hr. by rewrite Eu.
Qed.
End Rules.

(** ** Sizes and alignments *)

(** What record layout and vector types store: alignments that are powers of two,
    sizes in whole multiples of them, vectors of a power-of-two size that their
    elements fill. *)
Record stored_ok (file : File) (target : TargetInfo) : Prop := {
  records_aligned : forall k facts, record_facts_ file !! k = Some facts -> facts_incomplete facts = false ->
    0 <= size_bits facts < 2 ^ 64 - 8 /\ is_pow2 (Z.max 1 (alignment facts)) /\
    (Z.max 1 (alignment facts) | (size_bits facts + 7) / 8);
  vectors_filled : forall id e n s, type_payload file id = VectorTypePayload e n s ->
    is_pow2 s /\ forall es, has_layout file target (ref_type e) es -> s = size_bytes es * n
}.

Lemma stored_vectors_bounded file target : stored_ok file target -> vectors_bounded file.
Proof.
  intros [_ Hv] id e n s Ep. destruct (Hv _ _ _ _ Ep) as [(k & Hk & ->) _].
  pose proof (pow2_pos k ltac:(lia)). pose proof (pow2_le k 63 ltac:(lia)). lia.
Qed.

(** An answer that makes sense: a power of two divides the size. *)
Definition aligned (sa : TypeSizeAlign) : Prop :=
  is_pow2 (alignment_bytes sa) /\ (alignment_bytes sa | size_bytes sa) /\ 0 <= size_bytes sa < 2 ^ 64.

Lemma aligned_square k : 0 <= k < 64 -> aligned (mkSizeAlign (2 ^ k) (2 ^ k)).
Proof.
  intros Hk. split; [by apply is_pow2_of|]. cbn. split; [done|].
  pose proof (pow2_pos k ltac:(lia)). pose proof (pow2_lt k 64 ltac:(lia)). lia.
Qed.

Ltac aligned_const k := exact (aligned_square k ltac:(lia)).

Lemma bytes_for_bits_sane target :
  sane target ->
  (bytes_for_bits (pointer_width target) = 4 \/ bytes_for_bits (pointer_width target) = 8) /\
  (bytes_for_bits (long_width target) = 4 \/ bytes_for_bits (long_width target) = 8) /\
  (bytes_for_bits (wchar_width target) = 2 \/ bytes_for_bits (wchar_width target) = 4).
Proof.
  intros [Hp Hl _ Hw _ _]. destruct Hp as [-> | ->], Hl as [-> | ->], Hw as [-> | ->]; vm_compute; tauto.
Qed.

Lemma builtin_aligned k target sa : sane target -> builtin_size_align k target = Some sa -> aligned sa.
Proof.
  intros Hs H. destruct (bytes_for_bits_sane target Hs) as (Hp & Hl & Hw).
  unfold builtin_size_align in H. destruct k; try discriminate; injection H as <- || idtac.
  all: try (aligned_const 0 || aligned_const 1 || aligned_const 2 || aligned_const 3 || aligned_const 4).
  all: try (destruct Hp as [-> | ->]; (aligned_const 2 || aligned_const 3)).
  all: try (destruct Hl as [-> | ->]; (aligned_const 2 || aligned_const 3)).
  all: try (destruct Hw as [-> | ->]; (aligned_const 1 || aligned_const 2)).
  case_bool_decide; [injection H as <-; aligned_const 3|].
  destruct (sane_long_double target Hs) as [[E1 E2] | [E1 E2]]; rewrite E1, ?E2 in H; injection H as <-.
  - aligned_const 4.
  - split; [by apply (is_pow2_of 2)|]. cbn. split; [by exists 3|lia].
Qed.

Lemma array_aligned e n : aligned e -> aligned (mkSizeAlign (u64 (size_bytes e * n)) (alignment_bytes e)).
Proof.
  intros (Hp & Hd & Hs). split; [done|]. split; cbn.
  - apply is_pow2_u64; [done|]. by apply Z.divide_mul_l.
  - apply uwrap_range. lia.
Qed.

Lemma pow2_next s : is_pow2 s -> next_power_of_two s = Some s.
Proof.
  intros (k & Hk & ->). pose proof (pow2_pos k ltac:(lia)). pose proof (pow2_le k 63 ltac:(lia)).
  destruct (next_power_of_two_spec (2 ^ k) ltac:(lia)) as (e & -> & He & Hb). f_equal. f_equal.
  destruct Hb as [H1 H2]. apply Z.pow_le_mono_r_iff in H2; [|lia|lia].
  destruct (Z.eq_dec e 0); [lia|]. apply Z.pow_lt_mono_r_iff in H1; lia.
Qed.

Lemma vector_aligned target e s :
  sane target -> aligned e -> is_pow2 s -> (alignment_bytes e | s) ->
  aligned (mkSizeAlign s (Z.max (alignment_bytes e) (Z.max 1 (Z.min s
    (if max_alignment_bytes target >? 0 then max_alignment_bytes target else 1))))).
Proof.
  intros Hs (Hp & _ & _) Hs2 Hd. rewrite (sane_alignment target Hs). change (16 >? 0) with true. cbv iota.
  pose proof (is_pow2_pos s Hs2). assert (is_pow2 16) by by apply (is_pow2_of 4).
  rewrite (Z.max_r 1) by lia. split; [cbn; auto with layout|]. cbn. split; [|lia].
  destruct (Z.max_spec (alignment_bytes e) (Z.min s 16)) as [[_ ->] | [_ ->]]; [|done].
  apply is_pow2_divides; [auto with layout|done|lia].
Qed.

Lemma bitint_aligned bits bytes : bits <= 128 -> bitint_storage bits bytes -> aligned (mkSizeAlign bytes bytes).
Proof.
  intros Hb Hs. apply bitint_bytes_spec in Hs as ->; [|done]. unfold bitint_bytes, for_up. cbn [for_from].
  repeat match goal with |- context [if ?a <? ?b then _ else _] => destruct (Z.ltb_spec a b); try lia end;
    (aligned_const 0 || aligned_const 1 || aligned_const 2 || aligned_const 3 || aligned_const 4).
Qed.

Lemma record_aligned file target ent facts :
  stored_ok file target -> record_facts file ent = Some facts -> facts_incomplete facts = false ->
  aligned (mkSizeAlign (u64 (size_bits facts + 7) / 8) (if alignment facts >? 0 then alignment facts else 1)).
Proof.
  intros Hst Ef Ei. destruct (records_aligned _ _ Hst _ _ Ef Ei) as (Hsz & Hpw & Hdv).
  rewrite uwrap_small by (unfold word; lia).
  replace (if alignment facts >? 0 then alignment facts else 1) with (Z.max 1 (alignment facts))
    by (rewrite Z.gtb_ltb; destruct (Z.ltb_spec 0 (alignment facts)); lia).
  split; [done|]. split; [done|]. cbn. split; [apply Z.div_pos; lia|apply Z.div_lt_upper_bound; lia].
Qed.

Lemma facts_found file id facts :
  record_facts_for_type file id = Some facts -> exists ent, record_facts file ent = Some facts.
Proof. unfold record_facts_for_type. case_match; [|done]. eauto. Qed.

Lemma layout_aligned file target id sa :
  sane target -> stored_ok file target -> has_layout file target id sa -> aligned sa.
Proof.
  intros Hs Hst. destruct (bytes_for_bits_sane target Hs) as (Hp & _ & _).
  induction 1 as [id k sa Hr E | id p Hr | id c m Hr | id r ps v Hr | id e sk n es Hr _ IH | id ent u i facts Hr Ef Ei
    | id ent sc i u sa Hr Eu _ IH | id ent sc i u Hr Eu | id e n s es k Hr Ee Hn Hsz Hl IH Ek | id e es Hr Ee _ IH
    | id bits u bytes Hr Hn Hb Hbs | id ent u sa Hr Eu _ IH]; try assumption.
  - by eapply builtin_aligned.
  - destruct Hp as [-> | ->]; (aligned_const 2 || aligned_const 3).
  - destruct Hp as [-> | ->], (member_pointer_points_to_function file (resolved_type file id));
      first [aligned_const 2 | aligned_const 3 | (split; [apply (is_pow2_of 2) || apply (is_pow2_of 3); lia|];
        cbn; split; [by exists 2|lia])].
  - aligned_const 0.
  - by apply array_aligned.
  - destruct (facts_found _ _ _ Ef) as [ent' Ef']. by eapply record_aligned.
  - aligned_const 2.
  - destruct Hr as [_ Ep]. destruct (vectors_filled _ _ Hst _ _ _ _ Ep) as [Hpw Hfill].
    rewrite (pow2_next s Hpw) in Ek. injection Ek as <-. apply vector_aligned; [done..|].
    rewrite (Hfill es Hl). apply Z.divide_mul_l. apply IH.
  - by apply array_aligned.
  - by eapply bitint_aligned.
Qed.

(** ** The other queries descend as well *)

Section Descents.
Context (file : File) (target : TargetInfo).

(** The answer for a component of the payload [Ep]. *)
Ltac component Hrec Ev Ep :=
  apply Hrec, component_below; [exact Ev|]; unfold components; rewrite Ep; cbn; tauto.
Ltac productive_component Hrec Ev Ep :=
  let E := fresh in
  match goal with |- context [?rec (ref_type ?e)] =>
    destruct (rec (ref_type e)) eqn:E; [done|]; exfalso; revert E; component Hrec Ev Ep end.

Lemma is_integer_like_local : local (fun id => id) file (is_integer_like_body file).
Proof.
  intros rec rec' y Hrec. unfold is_integer_like_body.
  destruct (valid file (resolved_type file y)) eqn:Ev; [|done]. cbn [negb].
  destruct (kind_of file (resolved_type file y)); try done.
  destruct (type_payload file (resolved_type file y)) eqn:Ep; try done. component Hrec Ev Ep.
Qed.

Lemma is_integer_like_productive : productive (fun id => id) file (is_integer_like_body file).
Proof.
  intros rec y Hrec. unfold is_integer_like_body.
  destruct (valid file (resolved_type file y)) eqn:Ev; [|done]. cbn [negb].
  destruct (kind_of file (resolved_type file y)); try done.
  destruct (type_payload file (resolved_type file y)) eqn:Ep; try done. component Hrec Ev Ep.
Qed.

Lemma integer_shape_local : local (fun id => id) file (integer_shape_body file target).
Proof.
  intros rec rec' y Hrec. unfold integer_shape_body.
  destruct (valid file (resolved_type file y)) eqn:Ev; [|done]. cbn [negb].
  destruct (kind_of file (resolved_type file y)); try done;
    destruct (type_payload file (resolved_type file y)) eqn:Ep; try done;
    case_match; try done; component Hrec Ev Ep.
Qed.

Lemma integer_shape_productive : productive (fun id => id) file (integer_shape_body file target).
Proof.
  intros rec y Hrec. unfold integer_shape_body.
  destruct (valid file (resolved_type file y)) eqn:Ev; [|done]. cbn [negb].
  destruct (kind_of file (resolved_type file y)); try done;
    destruct (type_payload file (resolved_type file y)) eqn:Ep; try done;
    case_match; try done; component Hrec Ev Ep.
Qed.

Lemma align_local : local (fun id => id) file (align_body file).
Proof.
  intros rec rec' y Hrec. unfold align_body. cbv zeta.
  destruct (valid file (resolved_type file y)) eqn:Ev; [|done]. cbn [andb].
  case_bool_decide; [|done].
  destruct (type_payload file (resolved_type file y)) eqn:Ep; try done. component Hrec Ev Ep.
Qed.

Lemma align_productive : productive (fun id => id) file (align_body file).
Proof.
  intros rec y Hrec. unfold align_body. cbv zeta.
  destruct (valid file (resolved_type file y)) eqn:Ev; [|done]. cbn [andb].
  case_bool_decide; [|done].
  destruct (type_payload file (resolved_type file y)) eqn:Ep; try done. component Hrec Ev Ep.
Qed.

Lemma no_padding_local : local (fun id => id) file (no_padding_body file).
Proof.
  intros rec rec' y Hrec. unfold no_padding_body. cbv zeta.
  destruct (valid file (resolved_type file y)) eqn:Ev; [|done]. cbn [negb].
  destruct (is_integer_like_type file (resolved_type file y)); [done|].
  destruct (kind_of file (resolved_type file y)); try done;
    destruct (type_payload file (resolved_type file y)) eqn:Ep; try done;
    repeat (case_match; try done); component Hrec Ev Ep.
Qed.

Lemma no_padding_productive : productive (fun id => id) file (no_padding_body file).
Proof.
  intros rec y Hrec. unfold no_padding_body. cbv zeta.
  destruct (valid file (resolved_type file y)) eqn:Ev; [|done]. cbn [negb].
  destruct (is_integer_like_type file (resolved_type file y)); [done|].
  destruct (kind_of file (resolved_type file y)); try done;
    destruct (type_payload file (resolved_type file y)) eqn:Ep;
    try (repeat (case_match; try done); done); repeat (case_match; try done); component Hrec Ev Ep.
Qed.

Lemma any_field_ext {A} (f g : A -> option bool) l :
  (forall x, In x l -> f x = g x) -> any_field f l = any_field g l.
Proof.
  induction l as [|x l IH]; intros H; [done|]. cbn [any_field]. rewrite (H x) by by left.
  destruct (g x) as [[]|]; try done. cbn [mbind option_bind]. apply IH. intros; apply H. by right.
Qed.

Lemma any_field_total {A} (f : A -> option bool) l : (forall x, In x l -> f x <> None) -> any_field f l <> None.
Proof.
  induction l as [|x l IH]; intros H; [done|]. cbn [any_field]. specialize (H x (or_introl eq_refl)) as Hx.
  destruct (f x) as [[]|]; try done. cbn [mbind option_bind]. apply IH. intros; apply H. by right.
Qed.

(** The types of the fields of a record are its components. *)
Lemma field_component (Hpayloads : payloads_match file) id facts field :
  valid file id = true -> kind_of file id = Kind_Record -> record_facts_for_type file id = Some facts ->
  In field (fields facts) -> In (ref_type (field_type field)) (components file id).
Proof.
  intros Hv Hk Hf Hin. unfold components. pose proof (Hpayloads _ Hv) as Hp. rewrite Hk in Hp.
  destruct (type_payload file id); try discriminate; [by destruct reference_kind|].
  rewrite Hf. by apply (in_map (fun f => ref_type (field_type f))).
Qed.

Lemma mutable_subobject_local (Hpayloads : payloads_match file) :
  local (fun id => id) file (mutable_subobject_body file).
Proof.
  intros rec rec' y Hrec. unfold mutable_subobject_body. cbv zeta.
  destruct (valid file (resolved_type file y)) eqn:Ev; [|done]. cbn [negb].
  destruct (kind_of file (resolved_type file y)) eqn:Ek; try done.
  - destruct (type_payload file (resolved_type file y)) eqn:Ep; try done. component Hrec Ev Ep.
  - destruct (record_facts_for_type file (resolved_type file y)) as [facts|] eqn:Ef; [|done].
    apply any_field_ext. intros field Hin. case_match; [done|]. apply Hrec, component_below; [done|].
    by eapply field_component.
Qed.

Lemma mutable_subobject_productive (Hpayloads : payloads_match file) :
  productive (fun id => id) file (mutable_subobject_body file).
Proof.
  intros rec y Hrec. unfold mutable_subobject_body. cbv zeta.
  destruct (valid file (resolved_type file y)) eqn:Ev; [|done]. cbn [negb].
  destruct (kind_of file (resolved_type file y)) eqn:Ek; try done.
  - destruct (type_payload file (resolved_type file y)) eqn:Ep; try done. component Hrec Ev Ep.
  - destruct (record_facts_for_type file (resolved_type file y)) as [facts|] eqn:Ef; [|done].
    apply any_field_total. intros field Hin. case_match; [done|]. apply Hrec, component_below; [done|].
    by eapply field_component.
Qed.
End Descents.

(** ** Properties *)

Lemma descend_answer {A} (file : File) rank body (d : A) fuel (id : TypeId) :
  ranked file rank -> local (fun id => id) file body -> productive (fun id => id) file body ->
  (type_fuel file <= fuel)%nat ->
  descend body fuel id = Some (default d (descend body (type_fuel file) id)).
Proof.
  intros Hr Hl Hp Hf. pose proof (enough_type_fuel (fun id => id) file rank Hr id) as He.
  rewrite (descend_stable _ file rank Hr body fuel (type_fuel file) id Hl); [|destruct He as [h1 h2]; split; [lia|intros Hx; specialize (h2 Hx); lia]|done].
  destruct (descend body (type_fuel file) id) eqn:E; [done|].
  exfalso. revert E. by apply (descend_total (fun id => id) file rank Hr).
Qed.

(** The equation of a query. *)
Lemma query_equation {A} (file : File) rank body (d : A) (id : TypeId) :
  ranked file rank -> local (fun id => id) file body -> productive (fun id => id) file body ->
  let q id := default d (descend body (type_fuel file) id) in
  body (fun c => Some (q c)) id = Some (q id).
Proof.
  intros Hr Hl Hp q. subst q. cbn beta.
  rewrite <- (descend_answer file rank body d (type_fuel file) id Hr Hl Hp (le_n _)).
  rewrite (descend_equation (fun id => id) file rank Hr body id Hl).
  apply Hl. intros c _. symmetry. by apply (descend_answer file rank).
Qed.

Lemma is_integer_like_equation file rank id :
  ranked file rank ->
  is_integer_like_body file (fun c => Some (is_integer_like_type file c)) id = Some (is_integer_like_type file id).
Proof.
  intros Hr. apply (query_equation file rank _ false id Hr (is_integer_like_local file) (is_integer_like_productive file)).
Qed.

Lemma integer_shape_equation file target rank id :
  ranked file rank ->
  integer_shape_body file target (fun c => Some (integer_shape_for file target c)) id
  = Some (integer_shape_for file target id).
Proof.
  intros Hr.
  apply (query_equation file rank _ default_shape id Hr (integer_shape_local file target)
           (integer_shape_productive file target)).
Qed.

(** ** Integer shapes *)

(** The underlying type of an enumeration is an integer type. *)
Definition enums_integral (file : File) : Prop :=
  forall id ent s i u, type_payload file id = EnumTypePayload ent s i u -> ref_valid u = true ->
    is_integer_like_type file (ref_type u) = true.

(** The width of a [_BitInt] is unsigned. *)
Definition bitints_unsigned (file : File) : Prop :=
  forall id bits u, type_payload file id = BitIntTypePayload bits u -> 0 <= bits.

Lemma builtin_shape_fits k target sa :
  sane target -> builtin_is_integer_like k = true -> builtin_size_align k target = Some sa ->
  builtin_integer_width k target = 8 * size_bytes sa /\ 0 < size_bytes sa.
Proof.
  intros [Hp Hl _ Hw _ _] Hk H. destruct k; try discriminate; injection H as <-;
    unfold builtin_integer_width, bytes_for_bits; cbn [size_bytes]; try (split; [reflexivity|lia]).
  - destruct Hw as [-> | ->]; (split; [reflexivity|lia]).
  - destruct Hl as [-> | ->]; (split; [reflexivity|lia]).
  - destruct Hl as [-> | ->]; (split; [reflexivity|lia]).
  - destruct Hp as [-> | ->]; (split; [reflexivity|lia]).
Qed.

Lemma builtin_kind_resolved file id k :
  resolves file -> payloads_match file -> resolves_to file id (BuiltinTypePayload k) ->
  builtin_kind file (resolved_type file id) = k.
Proof.
  intros Hres Hm [Hv Ep]. unfold builtin_kind. rewrite (Hres _ Hv), Hv, <- (Hm _ Hv), Ep. cbn [negb orb].
  by rewrite bool_decide_eq_true_2.
Qed.

Lemma integer_shape_layout file target rank :
  sane target -> ranked file rank -> payloads_match file -> resolves file -> enums_integral file ->
  bitints_unsigned file ->
  forall id sa, has_layout file target id sa -> is_integer_like_type file id = true ->
  0 < bit_width (integer_shape_for file target id) <= 8 * size_bytes sa /\
  (forall bits u, type_payload file (resolved_type file id) = BitIntTypePayload bits u ->
     bit_width (integer_shape_for file target id) = bits) /\
  (forall k, type_payload file (resolved_type file id) = BuiltinTypePayload k ->
     bit_width (integer_shape_for file target id) = 8 * size_bytes sa).
Proof.
  intros Hs Hr Hm Hres Henum Hbits.
  assert (forall id p, resolves_to file id p ->
    integer_shape_body file target (fun c => Some (integer_shape_for file target c)) id
      = Some (integer_shape_for file target id) /\
    is_integer_like_body file (fun c => Some (is_integer_like_type file c)) id = Some (is_integer_like_type file id) /\
    valid file (resolved_type file id) = true /\ kind_of file (resolved_type file id) = type_payload_kind p /\
    type_payload file (resolved_type file id) = p) as Hid.
  { intros id p [Hv Ep]. split; [by eapply integer_shape_equation|]. split; [by eapply is_integer_like_equation|].
    rewrite <- (Hm _ Hv), Ep. done. }
  induction 1 as [id k sa Hp E | id p Hp | id c m Hp | id r ps v Hp | id e sk n es Hp _ IH | id ent u i facts Hp Ef Ei
    | id ent sc i u sa Hp Eu _ IH | id ent sc i u Hp Eu | id e n s es k Hp Ee Hn Hsz Hl IH Ek | id e es Hp Ee _ IH
    | id bits u bytes Hp Hn Hb Hbs | id ent u sa Hp Eu _ IH]; intros Hlike.
  2: destruct Hp as [Hp | [Hp | [rk Hp]]].
  all: destruct (Hid _ _ Hp) as (Es & El & Hv & Ek' & Ep); rewrite Hlike in El;
    unfold integer_shape_body in Es; unfold is_integer_like_body in El;
    rewrite Hv, Ek', Ep in Es; rewrite Hv, Ek', ?Ep in El; cbn [negb type_payload_kind] in Es, El;
    try discriminate El; rewrite Ep.
  - injection El as El. injection Es as <-. rewrite (builtin_kind_resolved file id k Hres Hm Hp) in *.
    cbn [bit_width]. pose proof (builtin_shape_fits k target sa Hs El E) as [Ew H0].
    split; [lia|]. by split.
  - destruct rk; discriminate El.
  - rewrite Eu in Es. injection Es as <-. destruct Hp as [_ Ep']. destruct IH as [IH _]; [by eapply Henum|].
    by split.
  - rewrite Eu in Es. injection Es as <-. by split.
  - injection Es as <-. cbn [bit_width]. destruct Hbs as (k & Hk & -> & Hfit & Hl). cbn [size_bytes].
    pose proof (Hbits _ _ _ Ep) as H0. rewrite uwrap_small by (unfold word; lia).
    split; [lia|]. split; [|done]. intros bits' u' H'. by injection H' as -> _.
  - injection El as El. assert (ref_valid u = true) as Eu' by done. rewrite Eu' in Es. injection Es as <-.
    destruct (IH El) as [IH1 _]. by split.
Qed.

(** The queries see a type through what it resolves to. *)
Lemma size_align_resolved file target rank id :
  ranked file rank -> vectors_bounded file -> resolves file -> valid file (resolved_type file id) = true ->
  size_align_for file target (resolved_type file id) = size_align_for file target id.
Proof.
  intros Hr Hv Hres Hid. apply (inj Some). rewrite <- !(size_align_equation file target rank Hr Hv).
  unfold size_align_body. by rewrite (Hres _ Hid).
Qed.

Lemma is_integer_like_resolved file rank id :
  ranked file rank -> resolves file -> valid file (resolved_type file id) = true ->
  is_integer_like_type file (resolved_type file id) = is_integer_like_type file id.
Proof.
  intros Hr Hres Hid. apply (inj Some). rewrite <- !(is_integer_like_equation file rank _ Hr).
  unfold is_integer_like_body. by rewrite (Hres _ Hid).
Qed.

Lemma integer_shape_resolved file target rank id :
  ranked file rank -> resolves file -> valid file (resolved_type file id) = true ->
  integer_shape_for file target (resolved_type file id) = integer_shape_for file target id.
Proof.
  intros Hr Hres Hid. apply (inj Some). rewrite <- !(integer_shape_equation file target rank _ Hr).
  unfold integer_shape_body. by rewrite (Hres _ Hid).
Qed.

Lemma no_padding_integer file rank id sa :
  ranked file rank -> vectors_bounded file -> resolves file -> valid file (resolved_type file id) = true ->
  size_align_of_type file id = Some sa -> is_integer_like_type file id = true ->
  type_has_known_no_padding file id
  = (u64 (size_bytes sa * 8) =? bit_width (integer_shape_for file (target_info file) id)).
Proof.
  intros Hr Hv Hres Hid Hsz Hlike.
  pose proof (query_equation file rank _ false id Hr (no_padding_local file) (no_padding_productive file)) as E.
  apply (inj Some). unfold type_has_known_no_padding, no_padding_go. rewrite <- E.
  unfold no_padding_body. rewrite Hid. cbn [negb]. cbv zeta.
  rewrite (is_integer_like_resolved file rank id Hr Hres Hid), Hlike. unfold size_of_type, size_align_of_type.
  rewrite (size_align_resolved file (target_info file) rank id Hr Hv Hres Hid).
  unfold size_align_of_type in Hsz. rewrite Hsz. unfold integer_shape_for_type.
  by rewrite (integer_shape_resolved file (target_info file) rank id Hr Hres Hid).
Qed.

Lemma layout_resolves file target id sa : has_layout file target id sa -> valid file (resolved_type file id) = true.
Proof.
  destruct 1; repeat match goal with
  | H : resolves_to _ _ _ |- _ => apply H
  | H : _ \/ _ |- _ => destruct H
  | H : exists _, _ |- _ => destruct H
  end.
Qed.

(** Claim C25: integer shapes fit. For every triple, an integer-like type that has a
    layout has a positive width of at most the bits of its storage: exactly those
    for a builtin type, and the declared number for a [_BitInt]; the query for
    padding reports none exactly when the two agree. *)
Theorem integer_shape_fits file rank id sa t :
  ranked file rank -> payloads_match file -> resolves file -> vectors_bounded file -> enums_integral file ->
  bitints_unsigned file -> target_info file = create_for_triple t ->
  size_align_of_type file id = Some sa -> is_integer_like_type file id = true -> size_bytes sa < 2 ^ 61 ->
  let width := bit_width (integer_shape_for_type file id) in
  0 < width <= 8 * size_bytes sa /\
  (forall k, type_payload file (resolved_type file id) = BuiltinTypePayload k -> width = 8 * size_bytes sa) /\
  (forall bits u, type_payload file (resolved_type file id) = BitIntTypePayload bits u -> width = bits) /\
  (type_has_known_no_padding file id = true <-> width = 8 * size_bytes sa).
Proof.
  intros Hr Hm Hres Hv Henum Hbits Et Hsz Hlike Hmax width. subst width. unfold integer_shape_for_type.
  assert (sane (target_info file)) as Hs by (rewrite Et; apply create_for_triple_sane).
  assert (has_layout file (target_info file) id sa) as Hlay by (by eapply size_align_rules).
  destruct (integer_shape_layout file (target_info file) rank Hs Hr Hm Hres Henum Hbits id sa Hlay Hlike)
    as (Hw & Hb & Hk).
  split; [done|]. split; [done|]. split; [done|].
  rewrite (no_padding_integer file rank id sa Hr Hv Hres (layout_resolves _ _ _ _ Hlay) Hsz Hlike).
  rewrite uwrap_small by (unfold word; lia). rewrite Z.eqb_eq. lia.
Qed.

(** Claim C24: the layout queries terminate. On a table where no type contains itself
    and vectors have at most 2^63 bytes, each query returns once the recursion may
    be as deep as the table is long, and more depth never changes its answer;
    beyond 2^63 bytes the doubling loop of [next_power_of_two] loses its bit and
    never ends, however long it runs. *)
Theorem layout_queries_terminate file target rank :
  ranked file rank -> payloads_match file -> vectors_bounded file ->
  (forall fuel id, (type_fuel file <= fuel)%nat ->
    size_align_go file target fuel id = Some (size_align_for file target id) /\
    align_go file fuel id = Some (align_of_type file id) /\
    is_integer_like_go file fuel id = Some (is_integer_like_type file id) /\
    integer_shape_go file target fuel id = Some (integer_shape_for file target id) /\
    no_padding_go file fuel id = Some (type_has_known_no_padding file id) /\
    mutable_subobject_go file fuel id = Some (type_has_mutable_subobject file id)) /\
  (forall fuel value, 2 ^ 63 < value -> next_power_loop fuel 1 value = None).
Proof.
  intros Hr Hm Hv. split; [|intros; by apply (next_power_loop_diverges _ _ 0)]. intros fuel id Hf.
  split; [by apply (descend_answer file rank); [|apply size_align_local|by apply size_align_productive|]|].
  split; [by apply (descend_answer file rank); [|apply align_local|apply align_productive|]|].
  split; [by apply (descend_answer file rank); [|apply is_integer_like_local|apply is_integer_like_productive|]|].
  split; [by apply (descend_answer file rank); [|apply integer_shape_local|apply integer_shape_productive|]|].
  split; [by apply (descend_answer file rank); [|apply no_padding_local|apply no_padding_productive|]|].
  by apply (descend_answer file rank); [|apply mutable_subobject_local|apply mutable_subobject_productive|].
Qed.



(** ** Witnesses on the sample table *)

Lemma sample_vectors_bounded t : vectors_bounded (sample_file t).
Proof.
  intros id e n s E.
  assert (match type_payload (sample_file t) id with VectorTypePayload _ _ s => 0 <= s <= 2 ^ 63 | _ => True end) as H.
  { apply (payloads_forall (sample_file t)
      (fun p => match p with VectorTypePayload _ _ s => 0 <= s <= 2 ^ 63 | _ => True end)); [done|].
    repeat constructor; done. }
  by rewrite E in H.
Qed.

Lemma layout_queries_terminate_witness :
  size_align_go (sample_file create_apple_aarch64) create_apple_aarch64 20 (type_id 5) = Some (Some (mkSizeAlign 16 4)).
Proof.
  destruct (layout_queries_terminate (sample_file create_apple_aarch64) create_apple_aarch64 (list_rank sample_ranks)
    (sample_ranked _) (sample_payloads_match _) (sample_vectors_bounded _)) as [H _].
  destruct (H 20%nat (type_id 5)) as [E _]; [vm_compute; lia|]. exact E.
Defined.


Lemma sample_stored_ok t : stored_ok (sample_file t) create_apple_aarch64.
Proof.
  split.
  - intros k facts Hf _. apply elem_of_list_to_map_2 in Hf. unfold sample_facts in Hf.
    apply elem_of_cons in Hf as [E | Hf]; [injection E as -> ->; cbn|].
    + split; [lia|]. split; [by apply (is_pow2_of 2)|by exists 4].
    + apply elem_of_cons in Hf as [E | Hf]; [injection E as -> ->; cbn|by apply elem_of_nil in Hf].
      split; [lia|]. split; [by apply (is_pow2_of 3)|by exists 1].
  - intros id e n s E.
    assert (match type_payload (sample_file t) id with
            | VectorTypePayload e n s => is_pow2 s /\ ref_type e = type_id 2 /\ s = 4 * n
            | _ => True end) as H.
    { apply (payloads_forall (sample_file t)
        (fun p => match p with VectorTypePayload e n s => is_pow2 s /\ ref_type e = type_id 2 /\ s = 4 * n | _ => True end));
        [done|]. repeat constructor; by apply (is_pow2_of 4). }
    rewrite E in H. destruct H as (Hp & He & Hs). split; [done|]. intros es Hes. rewrite He in Hes.
    apply (rules_size_align _ _ (list_rank sample_ranks) (sample_ranked t) (sample_payloads_match t)
             (sample_vectors_bounded t)) in Hes.
    assert (size_align_for (sample_file t) create_apple_aarch64 (type_id 2) = Some (mkSizeAlign 4 4)) as E2
      by (vm_compute; reflexivity).
    rewrite E2 in Hes. by injection Hes as <-.
Qed.


Lemma sample_enums_integral t : enums_integral (sample_file t).
Proof.
  intros id ent sc i u E Hu.
  assert (match type_payload (sample_file t) id with EnumTypePayload _ _ _ u => ref_type u = type_id 1 | _ => True end) as H.
  { apply (payloads_forall (sample_file t)
      (fun p => match p with EnumTypePayload _ _ _ u => ref_type u = type_id 1 | _ => True end)); [done|].
    repeat constructor; done. }
  rewrite E in H. rewrite H. vm_compute. reflexivity.
Qed.

Lemma sample_bitints_unsigned t : bitints_unsigned (sample_file t).
Proof.
  intros id bits u E.
  assert (match type_payload (sample_file t) id with BitIntTypePayload b _ => 0 <= b | _ => True end) as H.
  { apply (payloads_forall (sample_file t) (fun p => match p with BitIntTypePayload b _ => 0 <= b | _ => True end)); [done|].
    repeat constructor; done. }
  by rewrite E in H.
Qed.

Lemma integer_shape_fits_witness :
  let file := sample_file (create_for_triple (str "x86_64-linux")) in
  bit_width (integer_shape_for_type file (type_id 6)) = 12 /\ type_has_known_no_padding file (type_id 6) = false.
Proof.
  cbv zeta. set (t := create_for_triple (str "x86_64-linux")).
  destruct (integer_shape_fits (sample_file t) (list_rank sample_ranks) (type_id 6) (mkSizeAlign 2 2) (str "x86_64-linux")
    (sample_ranked t) (sample_payloads_match t) (sample_resolves t) (sample_vectors_bounded t) (sample_enums_integral t)
    (sample_bitints_unsigned t) eq_refl ltac:(vm_compute; reflexivity) ltac:(vm_compute; reflexivity)
    ltac:(vm_compute; reflexivity)) as (_ & _ & H & _).
  split; [apply (H 12 false); vm_compute; reflexivity|]. vm_compute. reflexivity.
Defined.
