(* ===== verification/CallClasses.v ===== *)
(** * Calling conventions: the x86-64 System V classification
    (src/abi/call_classify.h, src/abi/x86_64_call_classify.cpp)

    How a record or complex argument is passed: the eightbytes of its storage are
    classified by the scalars they hold. *)
From stdpp Require Import gmap.
From S2P Require Import Prelude Target CirTypes Layout.
Open Scope Z_scope.

(** ** Data (src/abi/call_classify.h) *)

Inductive AggregatePass :=
  UseSourceType | Ignore | CoerceHfa | CoerceIntSlots | CoerceClassedSlots | Indirect | MemoryByval.

#[export] Instance pass_eq_dec : EqDecision AggregatePass.
Proof. solve_decision. Defined.

Record AggregateClass := mkClass {
  pass : AggregatePass;
  hfa_element : BuiltinTypeKind;
  hfa_count : Z;
  int_slot_count : Z;
  slot_bytes : Z;
  sse_slot_mask : Z;
  byte_size : Z;
  byte_align : Z;
}.

(** A default-constructed class: the argument keeps its source type. *)
Definition default_class : AggregateClass := mkClass UseSourceType Bt_Other 0 0 8 0 0 1.
Definition with_size (sz al : Z) : AggregateClass := mkClass UseSourceType Bt_Other 0 0 8 0 sz al.
Definition with_pass (p : AggregatePass) (r : AggregateClass) : AggregateClass :=
  mkClass p (hfa_element r) (hfa_count r) (int_slot_count r) (slot_bytes r) (sse_slot_mask r) (byte_size r) (byte_align r).
Definition with_slots (count : Z) (r : AggregateClass) : AggregateClass :=
  mkClass (pass r) (hfa_element r) (hfa_count r) count (slot_bytes r) (sse_slot_mask r) (byte_size r) (byte_align r).
Definition with_mask (mask : Z) (r : AggregateClass) : AggregateClass :=
  mkClass (pass r) (hfa_element r) (hfa_count r) (int_slot_count r) (slot_bytes r) mask (byte_size r) (byte_align r).
Definition with_hfa (k : BuiltinTypeKind) (count : Z) (r : AggregateClass) : AggregateClass :=
  mkClass (pass r) k count (int_slot_count r) (slot_bytes r) (sse_slot_mask r) (byte_size r) (byte_align r).

(** ** Records (src/abi/aarch64_call_classify.cpp, shared by the targets) *)

Definition is_complete_record_type (file : File) (type_id : TypeId) : bool :=
  let type_id := resolved_type file type_id in
  if negb (valid file type_id) || negb (bool_decide (kind_of file type_id = Kind_Record)) then false
  else match record_facts_for_type file type_id with
       | Some facts => negb (facts_incomplete facts)
       | None => false
       end.

Definition is_empty_record_abi_ignored (file : File) (type_id : TypeId) : bool :=
  let type_id := resolved_type file type_id in
  if negb (valid file type_id) || negb (bool_decide (kind_of file type_id = Kind_Record)) then false
  else match record_facts_for_type file type_id with
       | Some facts =>
           negb (facts_incomplete facts) && negb (bool_decide (record_kind facts = Record_Union)) &&
           bool_decide (is_empty facts = Prop_True)
       | None => false
       end.

(** ** The x86-64 classes (src/abi/x86_64_call_classify.cpp) *)

Definition is_x86_64_sysv (target : TargetInfo) : bool :=
  bool_decide (arch target = X86_64) && (bool_decide (os target = MACOS) || bool_decide (os target = LINUX)).

Inductive SlotCls := Slot_None | Slot_Sse | Slot_Int.
Definition cls_rank (c : SlotCls) : Z := match c with Slot_None => 0 | Slot_Sse => 1 | Slot_Int => 2 end.
Definition cls_eqb (a b : SlotCls) : bool := cls_rank a =? cls_rank b.
(** [std::max]: the second when it is greater. *)
Definition cls_max (a b : SlotCls) : SlotCls := if cls_rank a <? cls_rank b then b else a.

Record ClassifyState := mkState { slot0 : SlotCls; slot1 : SlotCls; memory : bool }.
Definition initial_state : ClassifyState := mkState Slot_None Slot_None false.

Definition slot (st : ClassifyState) (i : nat) : SlotCls := match i with O => slot0 st | _ => slot1 st end.
Definition set_slot (i : nat) (c : SlotCls) (st : ClassifyState) : ClassifyState :=
  match i with O => mkState c (slot1 st) (memory st) | _ => mkState (slot0 st) c (memory st) end.
Definition in_memory (st : ClassifyState) : ClassifyState := mkState (slot0 st) (slot1 st) true.

Definition merge_slot (slot cls : SlotCls) : SlotCls :=
  if cls_eqb cls Slot_Int || cls_eqb slot Slot_None then cls_max slot cls else slot.

Definition mark_bytes (state : ClassifyState) (offset size : Z) (cls : SlotCls) : ClassifyState :=
  let end_ := u64 (offset + size) in
  for_up 2 (fun i state =>
    let lo := 8 * Z.of_nat i in
    if (offset <? lo + 8) && (end_ >? lo) then set_slot i (merge_slot (slot state i) cls) state else state) state.

(** [for (i = 0; i < n && !memory; ++i)]. *)
Fixpoint element_loop (n : nat) (i : Z) (visit : Z -> ClassifyState -> option ClassifyState) (state : ClassifyState)
    : option ClassifyState :=
  match n with
  | O => Some state
  | S n => if memory state then Some state
           else state ← visit i state; element_loop n (i + 1) visit state
  end.

(** Fields that take no part. *)
Definition skipped_field (field : RecordFieldFact) : bool :=
  is_flexible_array_member field || bool_decide (subobject_size field = Subobject_Zero).

Definition bitfield_bytes (field_offset : Z) (field : RecordFieldFact) : Z * Z :=
  let first := u64 (field_offset + bit_offset field / 8) in
  let last := u64 (field_offset + u32 (bit_offset field + field_bit_width field + 7) / 8) in
  (first, Z.max 1 (u64 (last - first))).

Definition visit_field (file : File) (visit : TypeId -> Z -> ClassifyState -> option ClassifyState) (off : Z)
    (field : RecordFieldFact) (state : ClassifyState) : option ClassifyState :=
  if skipped_field field then Some state
  else
  let field_offset := u64 (off + offset field) in
  if is_bitfield field then
    if field_bit_width field =? 0 then Some state
    else let '(first, count) := bitfield_bytes field_offset field in
         Some (mark_bytes state first count Slot_Int)
  else
  let field_type := resolved_type file (ref_type (field_type field)) in
  match size_align_of_type file field_type with
  | None => Some (in_memory state)
  | Some field_size =>
      if (alignment_bytes field_size >? 0) && negb (field_offset mod alignment_bytes field_size =? 0)
      then Some (in_memory state)
      else visit field_type field_offset state
  end.

Fixpoint field_loop (visit : RecordFieldFact -> ClassifyState -> option ClassifyState) (l : list RecordFieldFact)
    (state : ClassifyState) : option ClassifyState :=
  match l with
  | [] => Some state
  | field :: l => if memory state then Some state else state ← visit field state; field_loop visit l state
  end.

(** One level of [classify_bytes]. The answer is missing when [std::get] would
    throw on a payload of another kind, or when the fuel runs out. *)
Definition classify_body (file : File)
    (rec : TypeId * Z * ClassifyState -> option ClassifyState) (arg : TypeId * Z * ClassifyState)
    : option ClassifyState :=
  let '(type, off, state) := arg in
  let visit type off state := rec (type, off, state) in
  if memory state then Some state
  else
  let resolved := resolved_type file type in
  if negb (valid file resolved) then Some (in_memory state)
  else match size_align_of_type file resolved with
  | None => Some (in_memory state)
  | Some size_align =>
  let size := size_bytes size_align in
  let payload := type_payload file resolved in
  match kind_of file resolved with
  | Kind_Builtin =>
      match payload with
      | BuiltinTypePayload kind =>
          match kind with
          | Bt_Float16 | Bt_Float | Bt_Double => Some (mark_bytes state off size Slot_Sse)
          | Bt_LongDouble => Some (in_memory state)
          | Bt_Void => Some state
          | _ => Some (mark_bytes state off size Slot_Int)
          end
      | _ => None
      end
  | Kind_Pointer | Kind_Enum => Some (mark_bytes state off size Slot_Int)
  | Kind_Complex =>
      match payload with
      | ComplexTypePayload element_type =>
          let element := resolved_type file (ref_type element_type) in
          match size_align_of_type file element with
          | None => Some (in_memory state)
          | Some element_size =>
              state ← visit element off state;
              visit element (u64 (off + size_bytes element_size)) state
          end
      | _ => None
      end
  | Kind_Array =>
      match payload with
      | ArrayTypePayload element_type Size_Constant (Some n) =>
          let element := resolved_type file (ref_type element_type) in
          match size_align_of_type file element with
          | None => Some (in_memory state)
          | Some element_size =>
              element_loop (Z.to_nat n) 0
                (fun i state => visit element (u64 (off + i * size_bytes element_size)) state) state
          end
      | ArrayTypePayload _ _ _ => Some (in_memory state)
      | _ => None
      end
  | Kind_Record =>
      match record_facts_for_type file resolved with
      | None => Some (in_memory state)
      | Some facts =>
          if facts_incomplete facts then Some (in_memory state)
          else field_loop (visit_field file visit off) (fields facts) state
      end
  | _ => Some (in_memory state)
  end
  end.

Definition classify_bytes_go (file : File) : nat -> TypeId * Z * ClassifyState -> option ClassifyState :=
  descend (classify_body file).
Definition classify_bytes (file : File) (type : TypeId) (off : Z) (state : ClassifyState) : option ClassifyState :=
  classify_bytes_go file (type_fuel file) (type, off, state).

Definition from_state (state : ClassifyState) (size_bytes align_bytes : Z) : AggregateClass :=
  let result := with_size size_bytes (Z.max 1 align_bytes) in
  if memory state || (size_bytes >? 16) then with_pass MemoryByval result
  else
  let slot_count := u8 (Z.max 1 (u64 (size_bytes + 7) / 8)) in
  let '(any_marked, sse_mask) :=
    for_up (Z.to_nat slot_count) (fun i '(any_marked, sse_mask) =>
      (any_marked || negb (cls_eqb (slot state i) Slot_None),
       if cls_eqb (slot state i) Slot_Sse then Z.lor sse_mask (u8 (Z.shiftl 1 (Z.of_nat i))) else sse_mask))
      (false, 0) in
  if negb any_marked then with_pass Ignore result
  else
  let result := with_slots slot_count result in
  if sse_mask =? 0 then with_pass CoerceIntSlots result
  else with_pass CoerceClassedSlots (with_mask sse_mask result).

Definition classify_x86_64_argument_native (file : File) (type : TypeRef) (target : option TargetInfo)
    : option AggregateClass :=
  match target with
  | None => Some default_class
  | Some target =>
  if negb (is_x86_64_sysv target) || negb (valid file (ref_type type)) then Some default_class
  else
  let resolved := resolved_type file (ref_type type) in
  if negb (valid file resolved) then Some default_class
  else
  let is_complex := bool_decide (kind_of file resolved = Kind_Complex) in
  if negb is_complex && negb (is_complete_record_type file resolved) then Some default_class
  else match size_align_of_type file resolved with
  | None => Some default_class
  | Some size_align =>
      state ← classify_bytes file resolved 0 initial_state;
      Some (from_state state (size_bytes size_align) (u32 (alignment_bytes size_align)))
  end
  end.

Definition classify_x86_64_vararg_native (file : File) (type : TypeRef) (target : option TargetInfo)
    : option AggregateClass :=
  classify_x86_64_argument_native file type target.
