(* ===== verification/CallClassesProps.v ===== *)
(** * The x86-64 classification is the ABI's (src/abi/x86_64_call_classify.cpp)

    The classification of an eightbyte is the join of the classes of the scalars
    that overlap it, however the type nests; an argument goes to memory exactly
    when some part of it forces that or it is larger than two eightbytes. *)
From stdpp Require Import gmap.
From S2P Require Import Prelude FloatText Target TargetMacros CirTypes Layout LayoutProps CallClasses.
Open Scope Z_scope.

(** ** The lattice of classes *)

Definition cls_le (a b : SlotCls) : Prop := cls_rank a <= cls_rank b.
#[export] Instance cls_le_dec a b : Decision (cls_le a b).
Proof. unfold cls_le. apply _. Defined.

Lemma merge_slot_max a b : merge_slot a b = cls_max a b.
Proof. by destruct a, b. Qed.
Lemma merge_slot_comm a b : merge_slot a b = merge_slot b a.
Proof. by destruct a, b. Qed.
Lemma merge_slot_assoc a b c : merge_slot a (merge_slot b c) = merge_slot (merge_slot a b) c.
Proof. by destruct a, b, c. Qed.
Lemma merge_slot_le a b c : cls_le c (merge_slot a b) <-> cls_le c a \/ cls_le c b.
Proof. destruct a, b, c; unfold cls_le; cbn; lia. Qed.

(** A byte range [lo, lo + size) meets an eightbyte. *)
Definition overlaps (i : nat) (lo size : Z) : Prop := lo < 8 * Z.of_nat i + 8 /\ u64 (lo + size) > 8 * Z.of_nat i.
#[export] Instance overlaps_dec i lo size : Decision (overlaps i lo size).
Proof. unfold overlaps. apply _. Defined.

Lemma mark_bytes_spec st lo size k :
  memory (mark_bytes st lo size k) = memory st /\
  forall i, (i < 2)%nat ->
    slot (mark_bytes st lo size k) i = if decide (overlaps i lo size) then merge_slot (slot st i) k else slot st i.
Proof.
  unfold mark_bytes, for_up. cbn [for_from]. rewrite !Z.gtb_ltb.
  assert (forall i, ((lo <? 8 * Z.of_nat i + 8) && (8 * Z.of_nat i <? u64 (lo + size))) =
                    bool_decide (overlaps i lo size)) as E.
  { intros i. unfold overlaps. destruct (Z.ltb_spec lo (8 * Z.of_nat i + 8)), (Z.ltb_spec (8 * Z.of_nat i) (u64 (lo + size)));
      cbn [andb]; symmetry; (apply bool_decide_eq_true_2 || apply bool_decide_eq_false_2); lia. }
  rewrite !E, !bool_decide_decide. split.
  - repeat case_match; reflexivity.
  - intros [|[|i]] Hi; [| |lia]; repeat case_match; try done; reflexivity.
Qed.

(** ** The parts of a type

    What the storage of a type at an offset consists of: scalars with their
    class, nested types, or something that forces the argument to memory. *)
Inductive Part := Scalar (lo size : Z) (cls : SlotCls) | Nested (type : TypeId) (off : Z) | ForcesMemory.

Section Parts.
Context (file : File).

(** An element type and its size. *)
Definition of_element (e : TypeRef) (f : TypeId -> Z -> list Part) : list Part :=
  let element := resolved_type file (ref_type e) in
  match size_align_of_type file element with Some es => f element (size_bytes es) | None => [ForcesMemory] end.

Definition field_parts (off : Z) (field : RecordFieldFact) : list Part :=
  if skipped_field field then []
  else
  let field_offset := u64 (off + offset field) in
  if is_bitfield field then
    if field_bit_width field =? 0 then []
    else let '(first, count) := bitfield_bytes field_offset field in [Scalar first count Slot_Int]
  else
  let field_type := resolved_type file (ref_type (field_type field)) in
  match size_align_of_type file field_type with
  | None => [ForcesMemory]
  | Some fs =>
      if (alignment_bytes fs >? 0) && negb (field_offset mod alignment_bytes fs =? 0) then [ForcesMemory]
      else [Nested field_type field_offset]
  end.

Definition parts (type : TypeId) (off : Z) : list Part :=
  let resolved := resolved_type file type in
  if negb (valid file resolved) then [ForcesMemory]
  else match size_align_of_type file resolved with
  | None => [ForcesMemory]
  | Some sa =>
      match type_payload file resolved with
      | BuiltinTypePayload (Bt_Float16 | Bt_Float | Bt_Double) => [Scalar off (size_bytes sa) Slot_Sse]
      | BuiltinTypePayload Bt_LongDouble => [ForcesMemory]
      | BuiltinTypePayload Bt_Void => []
      | BuiltinTypePayload _ | PointerTypePayload _ | EnumTypePayload _ _ _ _ =>
          [Scalar off (size_bytes sa) Slot_Int]
      | ComplexTypePayload e =>
          of_element e (fun element size => [Nested element off; Nested element (u64 (off + size))])
      | ArrayTypePayload e Size_Constant (Some n) =>
          of_element e (fun element size =>
            map (fun i => Nested element (u64 (off + Z.of_nat i * size))) (seq 0 (Z.to_nat n)))
      | RecordTypePayload _ _ _ =>
          match record_facts_for_type file resolved with
          | Some facts => if facts_incomplete facts then [ForcesMemory] else flat_map (field_parts off) (fields facts)
          | None => [ForcesMemory]
          end
      | _ => [ForcesMemory]
      end
  end.

(** The scalars at any depth, and what forces memory at any depth. *)
Inductive scalar_of (type : TypeId) (off : Z) : Z -> Z -> SlotCls -> Prop :=
  | scalar_here lo size k : In (Scalar lo size k) (parts type off) -> scalar_of type off lo size k
  | scalar_nested c o lo size k :
      In (Nested c o) (parts type off) -> scalar_of c o lo size k -> scalar_of type off lo size k.

Inductive forced_to_memory (type : TypeId) (off : Z) : Prop :=
  | forced_here : In ForcesMemory (parts type off) -> forced_to_memory type off
  | forced_nested c o : In (Nested c o) (parts type off) -> forced_to_memory c o -> forced_to_memory type off.

(** ** The code visits the parts in order *)

Section Visit.
Context (visit : TypeId -> Z -> ClassifyState -> option ClassifyState).

Definition step (p : Part) (st : ClassifyState) : option ClassifyState :=
  match p with
  | Scalar lo size k => Some (mark_bytes st lo size k)
  | Nested c o => visit c o st
  | ForcesMemory => Some (in_memory st)
  end.

Fixpoint run (ps : list Part) (st : ClassifyState) : option ClassifyState :=
  match ps with
  | [] => Some st
  | p :: ps => if memory st then Some st else st ← step p st; run ps st
  end.

(** A type already known to be in memory is not visited further. *)
Definition stops : Prop := forall c o st, memory st = true -> visit c o st = Some st.

Lemma run_memory ps st : memory st = true -> run ps st = Some st.
Proof. destruct ps; cbn [run]; [done|]. by intros ->. Qed.

Lemma run_app ps qs st : run (ps ++ qs) st = (st ← run ps st; run qs st).
Proof.
  revert st. induction ps as [|p ps IH]; intros st; [done|]. cbn [app run].
  destruct (memory st) eqn:Em; cbn [mbind option_bind]; [by rewrite run_memory|].
  destruct (step p st); [apply IH|done].
Qed.

Lemma run_one p st : memory st = false -> run [p] st = step p st.
Proof. intros Em. cbn [run]. rewrite Em. by destruct (step p st). Qed.

Lemma run_two p q st : memory st = false -> stops -> (exists c o, q = Nested c o) ->
  run [p; q] st = (st ← step p st; step q st).
Proof.
  intros Em Hs (c & o & ->). cbn [run]. rewrite Em. destruct (step p st) as [st'|]; [|done].
  cbn [mbind option_bind step]. destruct (memory st') eqn:E; [by rewrite Hs|]. by destruct (visit c o st').
Qed.

Lemma element_loop_run f n : forall i st,
  element_loop n i (fun i st => visit (f i).1 (f i).2 st) st
  = run (map (fun k => Nested (f (i + Z.of_nat k)).1 (f (i + Z.of_nat k)).2) (seq 0 n)) st.
Proof.
  induction n as [|n IH]; intros i st; [done|]. cbn [element_loop seq map run].
  destruct (memory st); [done|]. rewrite Z.add_0_r. cbn [step].
  destruct (visit (f i).1 (f i).2 st) as [st'|]; [|done]. cbn [mbind option_bind]. rewrite IH, <- seq_shift, map_map.
  f_equal. apply map_ext. intros k. by replace (i + 1 + Z.of_nat k) with (i + Z.of_nat (S k)) by lia.
Qed.

Lemma visit_field_run off field st :
  memory st = false -> visit_field file visit off field st = run (field_parts off field) st.
Proof.
  intros Em. unfold visit_field, field_parts. cbv zeta. destruct (skipped_field field); [done|].
  destruct (is_bitfield field).
  - destruct (field_bit_width field =? 0); [done|].
    destruct (bitfield_bytes (u64 (off + offset field)) field) as [first count]. by rewrite run_one.
  - destruct (size_align_of_type file _); [|by rewrite run_one]. case_match; by rewrite run_one.
Qed.

Lemma field_loop_run off l st :
  field_loop (visit_field file visit off) l st = run (flat_map (field_parts off) l) st.
Proof.
  revert st. induction l as [|field l IH]; intros st; [done|]. cbn [field_loop flat_map].
  destruct (memory st) eqn:Em; [by rewrite run_memory|].
  rewrite (visit_field_run off field st Em), run_app. destruct (run (field_parts off field) st); [apply IH|done].
Qed.
End Visit.

Lemma classify_body_run rec type off st :
  payloads_match file -> stops (fun c o st => rec (c, o, st)) ->
  classify_body file rec (type, off, st)
  = if memory st then Some st else run (fun c o st => rec (c, o, st)) (parts type off) st.
Proof.
  intros Hm Hs. unfold classify_body. destruct (memory st) eqn:Em; [done|]. cbv zeta. unfold parts.
  destruct (valid file (resolved_type file type)) eqn:Ev; cbn [negb]; [|by rewrite run_one].
  rewrite <- (Hm _ Ev).
  destruct (size_align_of_type file (resolved_type file type)) as [sa|]; [|by rewrite run_one].
  destruct (type_payload file (resolved_type file type)); cbn [type_payload_kind]; try (by rewrite run_one).
  - destruct kind; try (by rewrite run_one). done.
  - destruct reference_kind; by rewrite run_one.
  - destruct size_kind, size; try (by rewrite run_one). unfold of_element.
    destruct (size_align_of_type file _) as [es|]; [|by rewrite run_one].
    apply (element_loop_run (fun c o st => rec (c, o, st))
      (fun i => (resolved_type file (ref_type element_type), u64 (off + i * size_bytes es)))).
  - destruct (record_facts_for_type file (resolved_type file type)) as [facts|]; [|by rewrite run_one].
    destruct (facts_incomplete facts); [by rewrite run_one|]. apply field_loop_run.
  - unfold of_element. destruct (size_align_of_type file _) as [es|]; [|by rewrite run_one].
    rewrite run_two by eauto. done.
Qed.
End Parts.

(** ** The recursion is over components *)

Lemma element_loop_ext n f g : (forall i st, f i st = g i st) -> forall i st, element_loop n i f st = element_loop n i g st.
Proof.
  intros H. induction n as [|n IH]; intros i st; [done|]. cbn [element_loop]. rewrite H.
  destruct (memory st); [done|]. by destruct (g i st); [apply IH|].
Qed.

Lemma element_loop_total n f : (forall i st, f i st <> None) -> forall i st, element_loop n i f st <> None.
Proof.
  intros H. induction n as [|n IH]; intros i st; [done|]. cbn [element_loop].
  destruct (memory st); [done|]. specialize (H i st). by destruct (f i st); [apply IH|].
Qed.

Lemma field_loop_ext f g l : (forall x st, In x l -> f x st = g x st) -> forall st, field_loop f l st = field_loop g l st.
Proof.
  induction l as [|x l IH]; intros H st; [done|]. cbn [field_loop]. rewrite (H x) by by left.
  destruct (memory st); [done|]. destruct (g x st); [|done]. cbn [mbind option_bind]. apply IH. intros; apply H. by right.
Qed.

Lemma field_loop_total f l : (forall x st, In x l -> f x st <> None) -> forall st, field_loop f l st <> None.
Proof.
  induction l as [|x l IH]; intros H st; [done|]. cbn [field_loop]. destruct (memory st); [done|].
  specialize (H x st (or_introl eq_refl)) as Hx. destruct (f x st); [|done]. cbn [mbind option_bind].
  apply IH. intros; apply H. by right.
Qed.

Section Recursion.
Context (file : File) (rank : TypeId -> nat).
Context (Hranked : ranked file rank) (Hpayloads : payloads_match file) (Hresolves : resolves file).

Definition arg_type (x : TypeId * Z * ClassifyState) : TypeId := x.1.1.

Lemma element_below e off st y :
  valid file (resolved_type file (arg_type y)) = true -> In e (components file (resolved_type file (arg_type y))) ->
  below arg_type file (resolved_type file e, off, st) y.
Proof. intros Hv Hin. by eapply resolved_below. Qed.

Lemma classify_local : local arg_type file (classify_body file).
Proof.
  intros rec rec' [[type off] st] Hrec. unfold classify_body. cbv zeta.
  destruct (memory st); [done|]. destruct (valid file (resolved_type file type)) eqn:Ev; [|done]. cbn [negb].
  assert (forall e o s, In e (components file (resolved_type file type)) ->
    rec (resolved_type file e, o, s) = rec' (resolved_type file e, o, s)) as Hel.
  { intros e o s Hin. apply Hrec. by apply element_below. }
  destruct (size_align_of_type file (resolved_type file type)); [|done].
  destruct (kind_of file (resolved_type file type)) eqn:Ek; try done.
  - destruct (type_payload file (resolved_type file type)) eqn:Ep; try done.
    destruct size_kind, size; try done. destruct (size_align_of_type file (resolved_type file (ref_type element_type))); [|done].
    apply element_loop_ext. intros i s. apply Hel. unfold components. rewrite Ep. by left.
  - destruct (record_facts_for_type file (resolved_type file type)) as [facts|] eqn:Ef; [|done].
    destruct (facts_incomplete facts); [done|]. apply field_loop_ext. intros x s Hin.
    unfold visit_field. repeat (case_match; try done). apply Hel. by eapply field_component.
  - destruct (type_payload file (resolved_type file type)) eqn:Ep; try done.
    destruct (size_align_of_type file (resolved_type file (ref_type element_type))); [|done].
    rewrite (Hel (ref_type element_type)) by (unfold components; rewrite Ep; by left).
    destruct (rec' (resolved_type file (ref_type element_type), off, st)); [|done]. cbn [mbind option_bind].
    apply Hel. unfold components. rewrite Ep. by left.
Qed.

Lemma classify_productive : productive arg_type file (classify_body file).
Proof.
  intros rec [[type off] st] Hrec. unfold classify_body. cbv zeta.
  destruct (memory st); [done|]. destruct (valid file (resolved_type file type)) eqn:Ev; [|done]. cbn [negb].
  assert (forall e o s, In e (components file (resolved_type file type)) ->
    rec (resolved_type file e, o, s) <> None) as Hel.
  { intros e o s Hin. apply Hrec. by apply element_below. }
  pose proof (Hpayloads _ Ev) as Hp.
  destruct (size_align_of_type file (resolved_type file type)); [|done].
  destruct (kind_of file (resolved_type file type)) eqn:Ek; try done.
  - destruct (type_payload file (resolved_type file type)) eqn:Ep; try done; [by destruct kind|by destruct reference_kind].
  - destruct (type_payload file (resolved_type file type)) eqn:Ep; try done; [by destruct reference_kind|].
    destruct size_kind, size; try done. destruct (size_align_of_type file (resolved_type file (ref_type element_type))); [|done].
    apply element_loop_total. intros i s. apply Hel. unfold components. rewrite Ep. by left.
  - destruct (record_facts_for_type file (resolved_type file type)) as [facts|] eqn:Ef; [|done].
    destruct (facts_incomplete facts); [done|]. apply field_loop_total. intros x s Hin.
    unfold visit_field. repeat (case_match; try done). apply Hel. by eapply field_component.
  - destruct (type_payload file (resolved_type file type)) eqn:Ep; try done; [by destruct reference_kind|].
    destruct (size_align_of_type file (resolved_type file (ref_type element_type))); [|done].
    assert (In (ref_type element_type) (components file (resolved_type file type))) as Hin
      by (unfold components; rewrite Ep; by left).
    pose proof (Hel _ off st Hin). destruct (rec (resolved_type file (ref_type element_type), off, st)); [|done].
    cbn [mbind option_bind]. by apply Hel.
Qed.

Lemma classify_equation x :
  classify_bytes_go file (type_fuel file) x = classify_body file (classify_bytes_go file (type_fuel file)) x.
Proof. apply (descend_equation arg_type file rank Hranked), classify_local. Qed.

Lemma classify_total type off st : classify_bytes file type off st <> None.
Proof.
  apply (descend_total arg_type file rank Hranked _ _ _ classify_productive). by apply enough_type_fuel.
Qed.

Lemma classify_stops : stops (classify_bytes file).
Proof.
  intros c o st Em. unfold classify_bytes. rewrite classify_equation. unfold classify_body. by rewrite Em.
Qed.

(** Classifying a type runs over its parts. *)
Lemma classify_bytes_run type off st :
  memory st = false -> classify_bytes file type off st = run (classify_bytes file) (parts file type off) st.
Proof.
  intros Em. unfold classify_bytes at 1. rewrite classify_equation, classify_body_run by (done || apply classify_stops).
  by rewrite Em.
Qed.

(** Nested parts are components. *)
Lemma nested_below type off c o st st' :
  In (Nested c o) (parts file type off) -> below arg_type file (c, o, st') (type, off, st).
Proof.
  unfold parts. destruct (valid file (resolved_type file type)) eqn:Ev; cbn [negb]; [|by intros [H | []]].
  destruct (size_align_of_type file (resolved_type file type)) as [sa|]; [|by intros [H | []]].
  assert (forall e, In e (components file (resolved_type file type)) -> c = resolved_type file e ->
    below arg_type file (c, o, st') (type, off, st)) as Hb by (intros e He ->; by apply element_below).
  destruct (type_payload file (resolved_type file type)) eqn:Ep; try (by intros [H | []]).
  - destruct kind; cbn; intuition discriminate.
  - destruct size_kind, size; try (by intros [H | []]). unfold of_element.
    destruct (size_align_of_type file (resolved_type file (ref_type element_type))); [|by intros [H | []]].
    intros Hin. apply in_map_iff in Hin as (i & E & _). injection E as <- <-.
    apply (Hb (ref_type element_type)); [unfold components; rewrite Ep; by left|done].
  - destruct (record_facts_for_type file (resolved_type file type)) as [facts|] eqn:Ef; [|by intros [H | []]].
    destruct (facts_incomplete facts); [by intros [H | []]|]. intros Hin. apply in_flat_map in Hin as (x & Hx & Hin).
    assert (c = resolved_type file (ref_type (field_type x))) as ->.
    { unfold field_parts in Hin. cbv zeta in Hin. repeat (case_match; try done); cbn in Hin; intuition congruence. }
    apply (Hb (ref_type (field_type x))); [|done]. pose proof (Hpayloads _ Ev) as Hk. rewrite Ep in Hk.
    by eapply field_component.
  - unfold of_element. destruct (size_align_of_type file (resolved_type file (ref_type element_type))); [|by intros [H | []]].
    intros [E | [E | []]]; injection E as <- <-;
      (apply (Hb (ref_type element_type)); [unfold components; rewrite Ep; by left|done]).
Qed.
End Recursion.

(** ** What the state records *)

Section Classes.
Context (file : File).

Definition part_scalar (p : Part) (lo size : Z) (k : SlotCls) : Prop :=
  match p with
  | Scalar lo' size' k' => lo' = lo /\ size' = size /\ k' = k
  | Nested c o => scalar_of file c o lo size k
  | ForcesMemory => False
  end.
Definition part_forces (p : Part) : Prop :=
  match p with Scalar _ _ _ => False | Nested c o => forced_to_memory file c o | ForcesMemory => True end.

Lemma scalar_of_parts type off lo size k :
  scalar_of file type off lo size k <-> exists p, In p (parts file type off) /\ part_scalar p lo size k.
Proof.
  split.
  - destruct 1 as [lo size k H | c o lo size k H H']; [by exists (Scalar lo size k)|by exists (Nested c o)].
  - intros ([lo' size' k' | c o |] & Hin & H); cbn in H; [|by eapply scalar_nested|done].
    destruct H as (-> & -> & ->). by apply scalar_here.
Qed.

Lemma forced_parts type off : forced_to_memory file type off <-> exists p, In p (parts file type off) /\ part_forces p.
Proof.
  split.
  - destruct 1 as [H | c o H H']; [by exists ForcesMemory|by exists (Nested c o)].
  - intros ([lo' size' k' | c o |] & Hin & H); cbn in H; [done|by eapply forced_nested|by apply forced_here].
Qed.

(** From [st] to [st'], memory is forced exactly when [forces] says, and the class
    of an eightbyte is the join with those of the scalars that overlap it. *)
Definition records (scalars : Z -> Z -> SlotCls -> Prop) (forces : Prop) (st st' : ClassifyState) : Prop :=
  (memory st' = true <-> forces) /\
  (memory st' = false -> forall i c, (i < 2)%nat ->
     cls_le c (slot st' i) <->
     cls_le c (slot st i) \/ exists lo size k, scalars lo size k /\ overlaps i lo size /\ cls_le c k).

Definition visits (visit : TypeId -> Z -> ClassifyState -> option ClassifyState) (p : Part) : Prop :=
  match p with
  | Nested c o => forall st, memory st = false ->
      exists st', visit c o st = Some st' /\ records (scalar_of file c o) (forced_to_memory file c o) st st'
  | _ => True
  end.

Lemma step_records visit p st :
  memory st = false -> visits visit p ->
  exists st', step visit p st = Some st' /\ records (part_scalar p) (part_forces p) st st'.
Proof.
  intros Em Hv. destruct p as [lo size k | c o |]; cbn [step].
  - destruct (mark_bytes_spec st lo size k) as [Emem Hslot]. eexists. split; [done|]. split.
    + rewrite Emem, Em. cbn. split; [discriminate|done].
    + intros _ i c Hi. rewrite (Hslot i Hi). cbn [part_scalar]. destruct (decide (overlaps i lo size)) as [Ho|Ho].
      * rewrite merge_slot_le. split; intros [H | H]; [by left| |by left|].
        -- right. by exists lo, size, k.
        -- destruct H as (? & ? & ? & (-> & -> & ->) & _ & H). by right.
      * split; [by left|]. intros [H | (? & ? & ? & (-> & -> & ->) & H & _)]; done.
  - by apply Hv.
  - eexists. split; [done|]. split; [done|]. cbn. discriminate.
Qed.

Lemma run_records visit ps : forall st,
  memory st = false -> (forall p, In p ps -> visits visit p) ->
  exists st', run visit ps st = Some st' /\
    records (fun lo size k => exists p, In p ps /\ part_scalar p lo size k) (exists p, In p ps /\ part_forces p) st st'.
Proof.
  induction ps as [|p ps IH]; intros st Em Hv.
  - exists st. split; [done|]. split.
    + rewrite Em. split; [discriminate|by intros (p & [] & _)].
    + intros _ i c Hi. split; [by left|]. intros [H | (? & ? & ? & (p & [] & _) & _)]. done.
  - destruct (step_records visit p st Em (Hv p (or_introl eq_refl))) as (st1 & E1 & Hm1 & Hs1).
    cbn [run]. rewrite Em, E1. cbn [mbind option_bind].
    destruct (memory st1) eqn:Em1.
    + exists st1. split; [by apply run_memory|]. split.
      * split; [|done]. intros _. exists p. split; [by left|]. by apply Hm1.
      * intros H. by rewrite H in Em1.
    + destruct (IH st1 Em1 (fun q Hq => Hv q (or_intror Hq))) as (st2 & E2 & Hm2 & Hs2).
      exists st2. split; [done|]. split.
      * rewrite Hm2. split; [intros (q & Hq & Hf); exists q; split; [by right|done]|].
        intros (q & [<- | Hq] & Hf); [|by exists q]. apply Hm1 in Hf. discriminate.
      * intros Em2 i c Hi. rewrite (Hs2 Em2 i c Hi), (Hs1 eq_refl i c Hi). clear. split.
        -- intros [[H | (lo & size & k & H & Ho & Hc)] | (lo & size & k & (q & Hq & H) & Ho & Hc)]; [by left| |].
           ++ right. exists lo, size, k. split; [|done]. exists p. split; [by left|done].
           ++ right. exists lo, size, k. split; [|done]. exists q. split; [by right|done].
        -- intros [H | (lo & size & k & (q & [<- | Hq] & H) & Ho & Hc)]; [by left; left| |].
           ++ left. right. by exists lo, size, k.
           ++ right. exists lo, size, k. split; [|done]. by exists q.
Qed.

Lemma records_proper s s' f f' st st' :
  (forall lo size k, s lo size k <-> s' lo size k) -> (f <-> f') -> records s f st st' -> records s' f' st st'.
Proof.
  intros Hs Hf [H1 H2]. split; [by rewrite <- Hf|]. intros Em i c Hi. rewrite (H2 Em i c Hi).
  by setoid_rewrite Hs.
Qed.

(** The classification of a type at an offset. *)
Lemma classify_bytes_records rank :
  ranked file rank -> payloads_match file -> resolves file ->
  forall type off st, memory st = false ->
  exists st', classify_bytes file type off st = Some st' /\
    records (scalar_of file type off) (forced_to_memory file type off) st st'.
Proof.
  intros Hr Hm Hres.
  assert (forall y : TypeId * Z * ClassifyState, memory y.2 = false ->
    exists st', classify_bytes file y.1.1 y.1.2 y.2 = Some st' /\
      records (scalar_of file y.1.1 y.1.2) (forced_to_memory file y.1.1 y.1.2) y.2 st') as H.
  2: { intros type off st. apply (H (type, off, st)). }
  intros y. induction y as [[[type off] st] IH] using (below_induction arg_type file rank Hr). cbn [fst snd].
  intros Em. rewrite (classify_bytes_run file rank Hr Hm Hres type off st Em).
  destruct (run_records (classify_bytes file) (parts file type off) st Em) as (st' & E & Hrec).
  - intros [lo size k | c o |] Hin; try done. cbn. intros st1 Em1.
    apply (IH (c, o, st1)); [|done]. by eapply nested_below.
  - exists st'. split; [done|]. eapply records_proper; [|  |exact Hrec].
    + intros. symmetry. apply scalar_of_parts.
    + symmetry. apply forced_parts.
Qed.
End Classes.

(** ** The class of an argument *)

Definition eightbytes (size : Z) : Z := if size <=? 8 then 1 else 2.

Lemma slot_count_small size : 0 <= size <= 16 -> u8 (Z.max 1 (u64 (size + 7) / 8)) = eightbytes size.
Proof.
  intros H. rewrite (uwrap_small 64) by (unfold word; lia). unfold eightbytes.
  destruct (Z.leb_spec size 8).
  - replace (Z.max 1 ((size + 7) / 8)) with 1 by (Z.to_euclidean_division_equations; lia). done.
  - replace (Z.max 1 ((size + 7) / 8)) with 2 by (Z.to_euclidean_division_equations; lia). done.
Qed.

(** What is read off a state that is not in memory. *)
Definition reads_state (st : ClassifyState) (n : Z) (r : AggregateClass) : Prop :=
  (pass r = Ignore <-> forall i, Z.of_nat i < n -> slot st i = Slot_None) /\
  (pass r <> Ignore ->
     int_slot_count r = n /\ slot_bytes r = 8 /\
     (forall i, Z.of_nat i < n -> (Z.testbit (sse_slot_mask r) (Z.of_nat i) = true <-> slot st i = Slot_Sse)) /\
     pass r = if bool_decide (sse_slot_mask r = 0) then CoerceIntSlots else CoerceClassedSlots).

Lemma below_one (P : nat -> Prop) : (forall i, Z.of_nat i < 1 -> P i) <-> P O.
Proof. split; [intros H; apply H; lia|]. intros H i Hi. by assert (i = O) as -> by lia. Qed.
Lemma below_two (P : nat -> Prop) : (forall i, Z.of_nat i < 2 -> P i) <-> P O /\ P 1%nat.
Proof. split; [intros H; split; apply H; lia|]. intros [H0 H1] i Hi. destruct i as [|[|i]]; [done|done|lia]. Qed.

Lemma from_state_memory st size al :
  memory st = true \/ 16 < size -> from_state st size al = with_pass MemoryByval (with_size size (Z.max 1 al)).
Proof.
  intros H. unfold from_state. rewrite Z.gtb_ltb.
  destruct (memory st); [done|]. destruct H as [H | H]; [done|]. by rewrite (proj2 (Z.ltb_lt _ _) H).
Qed.

Lemma from_state_slots st size al :
  memory st = false -> 0 <= size <= 16 ->
  reads_state st (eightbytes size) (from_state st size al) /\ pass (from_state st size al) <> MemoryByval /\
  byte_size (from_state st size al) = size /\ byte_align (from_state st size al) = Z.max 1 al.
Proof.
  intros Em Hs. unfold from_state. rewrite Em, slot_count_small by done. cbn [orb].
  rewrite Z.gtb_ltb, (proj2 (Z.ltb_ge _ _)) by lia.
  destruct st as [s0 s1 m]. cbn in Em. subst m.
  assert (eightbytes size = 1 \/ eightbytes size = 2) as Hn by (unfold eightbytes; case_match; lia).
  generalize dependent (eightbytes size). intros n Hn.
  split; [|split; [by destruct Hn as [-> | ->], s0, s1|split; by destruct Hn as [-> | ->], s0, s1]].
  unfold reads_state. destruct Hn as [-> | ->]; [rewrite !below_one|rewrite !below_two].
  all: destruct s0, s1; vm_compute; intuition congruence.
Qed.

(** ** Properties *)

(** The arguments the convention classifies: complex numbers and complete
    records, on System V targets. *)
Definition classifiable (file : File) (type : TypeRef) (target : TargetInfo) : bool :=
  let id := resolved_type file (ref_type type) in
  is_x86_64_sysv target && valid file (ref_type type) && valid file id &&
  (bool_decide (kind_of file id = Kind_Complex) || is_complete_record_type file id).

(** Some scalar of a class at least [c] overlaps an eightbyte. *)
Definition holds (file : File) (id : TypeId) (c : SlotCls) (i : nat) : Prop :=
  exists lo size k, scalar_of file id 0 lo size k /\ overlaps i lo size /\ cls_le c k.

Lemma slot_classes file id st :
  records (scalar_of file id 0) (forced_to_memory file id 0) initial_state st -> memory st = false ->
  forall i, (i < 2)%nat ->
  (slot st i = Slot_None <-> ~ holds file id Slot_Sse i) /\
  (slot st i = Slot_Sse <-> holds file id Slot_Sse i /\ ~ holds file id Slot_Int i).
Proof.
  intros [_ H] Em i Hi. pose proof (H Em i Slot_Sse Hi) as Hs. pose proof (H Em i Slot_Int Hi) as Hn.
  assert (slot initial_state i = Slot_None) as E0 by (by destruct i).
  rewrite E0 in Hs, Hn. fold (holds file id Slot_Sse i) in Hs. fold (holds file id Slot_Int i) in Hn.
  assert (~ cls_le Slot_Sse Slot_None) by (unfold cls_le; cbn; lia).
  assert (~ cls_le Slot_Int Slot_None) by (unfold cls_le; cbn; lia).
  assert (cls_le Slot_Sse (slot st i) <-> holds file id Slot_Sse i) as Hs' by tauto.
  assert (cls_le Slot_Int (slot st i) <-> holds file id Slot_Int i) as Hn' by tauto.
  rewrite <- Hs', <- Hn'. clear. unfold cls_le. destruct (slot st i); cbn; (split; split; intros; try done; lia).
Qed.

(** Claim C7: the x86-64 classification is the ABI's. For a complex number or a
    complete record, of any nesting, on a System V target the code terminates
    with: memory exactly when some part forces it ([long double], an unsupported
    or incomplete type, a misaligned field) or the size exceeds two eightbytes;
    otherwise nothing is passed exactly when no scalar overlaps an eightbyte of
    the object, and else one slot for each eightbyte, in an SSE register exactly
    when scalars overlap it and none of them is of class INTEGER. *)
Theorem x86_64_classification file rank type target sa :
  ranked file rank -> payloads_match file -> resolves file -> classifiable file type target = true ->
  let id := resolved_type file (ref_type type) in
  size_align_of_type file id = Some sa -> 0 <= size_bytes sa ->
  exists r, classify_x86_64_argument_native file type (Some target) = Some r /\
    byte_size r = size_bytes sa /\ byte_align r = Z.max 1 (u32 (alignment_bytes sa)) /\
    (pass r = MemoryByval <-> forced_to_memory file id 0 \/ 16 < size_bytes sa) /\
    (pass r <> MemoryByval ->
      let n := eightbytes (size_bytes sa) in
      (pass r = Ignore <-> forall i, Z.of_nat i < n -> ~ holds file id Slot_Sse i) /\
      (pass r <> Ignore ->
        int_slot_count r = n /\ slot_bytes r = 8 /\
        (forall i, Z.of_nat i < n ->
           (Z.testbit (sse_slot_mask r) (Z.of_nat i) = true <->
            holds file id Slot_Sse i /\ ~ holds file id Slot_Int i)) /\
        pass r = if bool_decide (sse_slot_mask r = 0) then CoerceIntSlots else CoerceClassedSlots)).
Proof.
  intros Hr Hm Hres Hc id Hsz H0. unfold classifiable in Hc. rewrite !andb_true_iff in Hc.
  destruct Hc as (((Hsys & Hv1) & Hv2) & Hk). fold id in Hv2, Hk.
  destruct (classify_bytes_records file rank Hr Hm Hres id 0 initial_state eq_refl) as (st & Est & Hrec).
  assert (classify_x86_64_argument_native file type (Some target)
          = Some (from_state st (size_bytes sa) (u32 (alignment_bytes sa)))) as E.
  { unfold classify_x86_64_argument_native. rewrite Hsys, Hv1. cbn [negb orb]. fold id. rewrite Hv2. cbn [negb].
    replace (negb (bool_decide (kind_of file id = Kind_Complex)) && negb (is_complete_record_type file id)) with false
      by (rewrite <- negb_orb, Hk; done).
    by rewrite Hsz, Est. }
  eexists. split; [exact E|]. destruct (Z.lt_ge_cases 16 (size_bytes sa)) as [L|L].
  { rewrite from_state_memory by (by right). repeat split; cbn; try done. by right. }
  destruct (memory st) eqn:Em.
  { rewrite from_state_memory by (by left). repeat split; cbn; try done. intros _. left. by apply Hrec. }
  destruct (from_state_slots st (size_bytes sa) (u32 (alignment_bytes sa)) Em ltac:(lia)) as ((Hi & Hs) & Hp & Eb & Ea).
  split; [done|]. split; [done|]. split.
  { split; [done|]. intros [Hf | Hf]; [|lia]. apply Hrec in Hf. by rewrite Hf in Em. }
  intros _ n. assert (n <= 2) by (subst n; unfold eightbytes; destruct (size_bytes sa <=? 8); lia). fold n in Hi, Hs.
  pose proof (slot_classes file id st Hrec Em) as Hcl. split.
  - rewrite Hi. split; intros Hall i Hin; apply (Hcl i); try lia; by apply Hall.
  - intros Hni. destruct (Hs Hni) as (Hcount & Hb & Hmask & Hpass).
    split; [done|]. split; [done|]. split; [|done].
    intros i Hin. rewrite (Hmask i Hin). apply Hcl. lia.
Qed.

Lemma x86_64_classification_witness :
  exists r, classify_x86_64_argument_native (sample_file (create_for_triple (str "x86_64-linux"))) (nth_type 5)
    (Some (create_for_triple (str "x86_64-linux"))) = Some r /\ pass r = CoerceClassedSlots /\ sse_slot_mask r = 2.
Proof.
  set (t := create_for_triple (str "x86_64-linux")).
  destruct (x86_64_classification (sample_file t) (list_rank sample_ranks) (nth_type 5) t (mkSizeAlign 16 4)
    (sample_ranked t) (sample_payloads_match t) (sample_resolves t) ltac:(vm_compute; reflexivity)
    ltac:(vm_compute; reflexivity) ltac:(vm_compute; discriminate)) as (r & E & _).
  exists r. split; [exact E|]. vm_compute in E. injection E as <-. split; reflexivity.
Defined.
