(* ===== verification/CallDispatch.v ===== *)
(** * Calling conventions: AArch64, the 32-bit targets and the dispatch
    (src/abi/aarch64_call_classify.cpp, src/abi/ilp32_classify_common.cpp,
    src/abi/or1k_call_classify.cpp, src/abi/call_classify.cpp) *)
From stdpp Require Import gmap.
From S2P Require Import Prelude Target CirTypes Layout CallClasses.
Open Scope Z_scope.

(** ** Homogeneous floating-point aggregates *)

Definition is_aarch64_aapcs (target : TargetInfo) : bool :=
  bool_decide (arch target = AARCH64) && (bool_decide (os target = MACOS) || bool_decide (os target = LINUX)).

Definition is_hfa_builtin_kind (kind : BuiltinTypeKind) (target : TargetInfo) : bool :=
  match kind with
  | Bt_Float16 | Bt_Float | Bt_Double => true
  | Bt_LongDouble => bool_decide (long_double_format target = IEEE_QUAD)
  | _ => false
  end.

Definition normalize_hfa_builtin_kind (kind : BuiltinTypeKind) (target : TargetInfo) : BuiltinTypeKind :=
  if bool_decide (kind = Bt_LongDouble) && bool_decide (long_double_format target = IEEE_DOUBLE) then Bt_Double
  else kind.

Definition int_slot_count_for_size (size_bytes : Z) : Z := u8 (Z.max 1 (u64 (size_bytes + 7) / 8)).

(** The element kind and count the code threads by reference. *)
Definition HfaState : Type := BuiltinTypeKind * Z.

Fixpoint hfa_times (n : nat) (visit : HfaState -> option (bool * HfaState)) (st : HfaState)
    : option (bool * HfaState) :=
  match n with
  | O => Some (true, st)
  | S n =>
      r ← visit st;
      let '(ok, st) := (r : bool * HfaState) in if ok then hfa_times n visit st else Some (false, st)
  end.

Fixpoint hfa_fields (visit : TypeRef -> HfaState -> option (bool * HfaState)) (l : list RecordFieldFact)
    (st : HfaState) : option (bool * HfaState) :=
  match l with
  | [] => Some ((0 <? st.2) && (st.2 <=? 4), st)
  | field :: l =>
      if bool_decide (subobject_size field = Subobject_Zero) then hfa_fields visit l st
      else if is_bitfield field || (storage_size_override field >? 0) || (storage_alignment_override field >? 0)
      then Some (false, st)
      else
        r ← visit (field_type field) st;
        let '(ok, st) := (r : bool * HfaState) in if ok then hfa_fields visit l st else Some (false, st)
  end.

(** One level of [collect_hfa_members]; no answer when [std::get] would throw. *)
Definition hfa_body (file : File) (target : TargetInfo) (rec : TypeId * HfaState -> option (bool * HfaState))
    (arg : TypeId * HfaState) : option (bool * HfaState) :=
  let '(type, st) := arg in
  let visit (t : TypeRef) st := rec (ref_type t, st) in
  if negb (valid file type) then Some (false, st)
  else
  let type_id := resolved_type file type in
  if negb (valid file type_id) then Some (false, st)
  else
  let payload := type_payload file type_id in
  match kind_of file type_id with
  | Kind_Builtin =>
      match payload with
      | BuiltinTypePayload k =>
          let candidate := normalize_hfa_builtin_kind k target in
          if negb (is_hfa_builtin_kind candidate target) then Some (false, st)
          else
          let '(element_kind, element_count) := st in
          if element_count =? 0 then Some (u32 (element_count + 1) <=? 4, (candidate, u32 (element_count + 1)))
          else if negb (bool_decide (element_kind = candidate)) then Some (false, st)
          else Some (u32 (element_count + 1) <=? 4, (element_kind, u32 (element_count + 1)))
      | _ => None
      end
  | Kind_Array =>
      match payload with
      | ArrayTypePayload element_type Size_Constant (Some n) =>
          if (n =? 0) || (n >? 4) then Some (false, st)
          else hfa_times (Z.to_nat n) (visit element_type) st
      | ArrayTypePayload _ _ _ => Some (false, st)
      | _ => None
      end
  | Kind_Record =>
      match record_facts_for_type file type_id with
      | None => Some (false, st)
      | Some facts =>
          if facts_incomplete facts || bool_decide (record_kind facts = Record_Union) then Some (false, st)
          else hfa_fields visit (fields facts) st
      end
  | _ => Some (false, st)
  end.

Definition collect_hfa_members_go (file : File) (target : TargetInfo)
    : nat -> TypeId * HfaState -> option (bool * HfaState) := descend (hfa_body file target).
Definition collect_hfa_members (file : File) (target : TargetInfo) (type : TypeRef) (st : HfaState)
    : option (bool * HfaState) := collect_hfa_members_go file target (type_fuel file) (ref_type type, st).

(** ** AArch64 *)

Definition classify_aarch64_argument (file : File) (type : TypeRef) (target : option TargetInfo)
    : option AggregateClass :=
  match target with
  | None => Some default_class
  | Some target =>
  if negb (is_aarch64_aapcs target) || negb (is_complete_record_type file (ref_type type)) then Some default_class
  else match size_align_of_type file (ref_type type) with
  | None => Some default_class
  | Some size_align =>
  let size := size_bytes size_align in
  let result := with_size size 1 in
  if is_empty_record_abi_ignored file (ref_type type) then
    if bool_decide (os target = MACOS) || (size =? 0) then Some (with_pass Ignore result)
    else Some (with_pass CoerceIntSlots (with_slots 1 result))
  else
  hfa ← collect_hfa_members file target type (Bt_Other, 0);
  let '(is_hfa, (hfa_kind, hfa_count)) := (hfa : bool * HfaState) in
  if is_hfa && (0 <? hfa_count) && (hfa_count <=? 4)
  then Some (with_pass CoerceHfa (with_hfa hfa_kind (u8 hfa_count) result))
  else if size >? 16 then Some (with_pass Indirect result)
  else Some (with_pass CoerceIntSlots (with_slots (int_slot_count_for_size size) result))
  end
  end.

Definition classify_complex (file : File) (type : TypeRef) (target : TargetInfo) (is_vararg : bool)
    : option (option AggregateClass) :=
  let resolved := resolved_type file (ref_type type) in
  if negb (valid file resolved) || negb (bool_decide (kind_of file resolved = Kind_Complex)) then Some None
  else match size_align_of_type file resolved with
  | None => Some None
  | Some size_align =>
  let size := size_bytes size_align in
  let result := with_size size 1 in
  match type_payload file resolved with
  | ComplexTypePayload element_type =>
      let element := resolved_type file (ref_type element_type) in
      element_kind ←
        (if valid file element && bool_decide (kind_of file element = Kind_Builtin)
         then match type_payload file element with
              | BuiltinTypePayload k => Some (normalize_hfa_builtin_kind k target)
              | _ => None
              end
         else Some Bt_Other);
      if negb is_vararg && is_hfa_builtin_kind element_kind target
      then Some (Some (with_pass CoerceHfa (with_hfa element_kind 2 result)))
      else if size >? 16 then Some (Some (with_pass Indirect result))
      else Some (Some (with_pass CoerceIntSlots (with_slots (int_slot_count_for_size size) result)))
  | _ => None
  end
  end.

Definition classify_aarch64_argument_native (file : File) (type : TypeRef) (target : option TargetInfo)
    : option AggregateClass :=
  complex ←
    match target with
    | Some t => if is_aarch64_aapcs t then classify_complex file type t false else Some None
    | None => Some None
    end;
  match (complex : option AggregateClass) with
  | Some c => Some c
  | None => classify_aarch64_argument file type target
  end.

Definition classify_aarch64_vararg (file : File) (type : TypeRef) (target : option TargetInfo)
    : option AggregateClass :=
  match target with
  | None => Some default_class
  | Some t =>
  if negb (bool_decide (va_list_kind t = CHAR_PTR)) then classify_aarch64_argument file type target
  else if negb (is_complete_record_type file (ref_type type)) then Some default_class
  else match size_align_of_type file (ref_type type) with
  | None => Some default_class
  | Some size_align =>
  let size := size_bytes size_align in
  let result := with_size size 1 in
  if size >? 16 then Some (with_pass Indirect result)
  else Some (with_pass CoerceIntSlots (with_slots (int_slot_count_for_size size) result))
  end
  end.

Definition classify_aarch64_vararg_native (file : File) (type : TypeRef) (target : option TargetInfo)
    : option AggregateClass :=
  match target with
  | None => classify_aarch64_vararg file type target
  | Some t =>
      if negb (bool_decide (va_list_kind t = CHAR_PTR)) then classify_aarch64_argument_native file type target
      else
        complex ← classify_complex file type t true;
        match (complex : option AggregateClass) with
        | Some c => Some c
        | None => classify_aarch64_vararg file type target
        end
  end.

(** ** 32-bit targets *)

Definition aggregate_size_align (file : File) (resolved : TypeId) : option (Z * Z) :=
  if negb (valid file resolved) then None
  else
  let is_complex := bool_decide (kind_of file resolved = Kind_Complex) in
  if negb is_complex && negb (is_complete_record_type file resolved) then None
  else match size_align_of_type file resolved with
       | None => None
       | Some sa => Some (size_bytes sa, u32 (Z.max 1 (alignment_bytes sa)))
       end.

Definition is_ignored_empty_record (file : File) (resolved : TypeId) : bool :=
  is_empty_record_abi_ignored file resolved.

Definition coerce_word_slots (size_bytes align_bytes : Z) : AggregateClass :=
  mkClass CoerceIntSlots Bt_Other 0 (u8 (Z.max 1 (u64 (size_bytes + 3) / 4))) 4 0 size_bytes (Z.max 1 align_bytes).
Definition pass_indirect (size_bytes align_bytes : Z) : AggregateClass :=
  with_pass Indirect (with_size size_bytes (Z.max 1 align_bytes)).
Definition pass_memory_byval (size_bytes align_bytes : Z) : AggregateClass :=
  with_pass MemoryByval (with_size size_bytes (Z.max 1 align_bytes)).

Definition classify_or1k (file : File) (type : TypeRef) : AggregateClass :=
  if negb (valid file (ref_type type)) then default_class
  else
  let resolved := resolved_type file (ref_type type) in
  match aggregate_size_align file resolved with
  | None => default_class
  | Some (size, al) =>
      if is_ignored_empty_record file resolved then with_pass Ignore default_class else pass_indirect size al
  end.

Definition classify_or1k_argument_native (file : File) (type : TypeRef) (_ : option TargetInfo) : AggregateClass :=
  classify_or1k file type.
Definition classify_or1k_vararg_native (file : File) (type : TypeRef) (_ : option TargetInfo) : AggregateClass :=
  classify_or1k file type.

(** ** Dispatch *)

Definition classify_non_trivial_class (file : File) (type : TypeRef) : option AggregateClass :=
  let resolved := resolved_type file (ref_type type) in
  match (if valid file resolved then record_facts_for_type file resolved else None) with
  | None => None
  | Some facts =>
      if facts_incomplete facts || negb (is_non_trivial_for_calls facts) then None
      else
      Some (match size_align_of_type file resolved with
            | Some sa => with_pass Indirect (with_size (size_bytes sa) (u32 (Z.max 1 (alignment_bytes sa))))
            | None => with_pass Indirect default_class
            end)
  end.

Definition classify_x86_32 (file : File) (type : TypeRef) : AggregateClass :=
  if negb (valid file (ref_type type)) then default_class
  else
  let resolved := resolved_type file (ref_type type) in
  if negb (valid file resolved) then default_class
  else
  let is_complex := bool_decide (kind_of file resolved = Kind_Complex) in
  if negb is_complex && negb (is_complete_record_type file resolved) then default_class
  else match size_align_of_type file resolved with
  | None => default_class
  | Some sa =>
      if is_empty_record_abi_ignored file resolved then with_pass Ignore default_class
      else with_pass MemoryByval (with_size (size_bytes sa) (u32 (Z.max 1 (alignment_bytes sa))))
  end.

Definition arch_is (target : option TargetInfo) (a : TargetArch) : bool :=
  match target with Some t => bool_decide (arch t = a) | None => false end.

Definition classify_argument_native (file : File) (type : TypeRef) (target : option TargetInfo)
    : option AggregateClass :=
  match classify_non_trivial_class file type with
  | Some non_trivial => Some non_trivial
  | None =>
      if arch_is target X86_64 then classify_x86_64_argument_native file type target
      else if arch_is target X86 then Some (classify_x86_32 file type)
      else if arch_is target OR1K then Some (classify_or1k_argument_native file type target)
      else classify_aarch64_argument_native file type target
  end.

Definition classify_vararg_native (file : File) (type : TypeRef) (target : option TargetInfo)
    : option AggregateClass :=
  match classify_non_trivial_class file type with
  | Some non_trivial => Some non_trivial
  | None =>
      if arch_is target X86_64 then classify_x86_64_vararg_native file type target
      else if arch_is target X86 then Some (classify_x86_32 file type)
      else if arch_is target OR1K then Some (classify_or1k_vararg_native file type target)
      else classify_aarch64_vararg_native file type target
  end.
