(* ===== verification/CallDispatchProps.v ===== *)
(** * Homogeneous aggregates and the dispatch (src/abi)

    The search for homogeneous floating-point aggregates accepts aggregates of at
    most four members of one kind; every classification terminates with a class
    whose counts are in bounds. *)
From stdpp Require Import gmap.
From S2P Require Import Prelude FloatText Target TargetMacros CirTypes Layout LayoutProps CallClasses CallClassesProps CallDispatch.
Open Scope Z_scope.

(** ** The floating-point members of a type *)

Section Hfa.
Context (file : File) (target : TargetInfo).

(** Fields that stop the search. *)
Definition stopping_field (field : RecordFieldFact) : bool :=
  is_bitfield field || (storage_size_override field >? 0) || (storage_alignment_override field >? 0).

(** The kinds of the members in order; [strict] asks that nested records have some. *)
Inductive hfa_members (strict : bool) : TypeId -> list BuiltinTypeKind -> Prop :=
  | members_builtin id k :
      valid file id = true -> resolves_to file id (BuiltinTypePayload k) ->
      is_hfa_builtin_kind (normalize_hfa_builtin_kind k target) target = true ->
      hfa_members strict id [normalize_hfa_builtin_kind k target]
  | members_array id e n l :
      valid file id = true -> resolves_to file id (ArrayTypePayload e Size_Constant (Some n)) -> n <> 0 -> n <= 4 ->
      element_members strict (ref_type e) (Z.to_nat n) l -> hfa_members strict id l
  | members_record id ent u i facts l :
      valid file id = true -> resolves_to file id (RecordTypePayload ent u i) ->
      record_facts_for_type file (resolved_type file id) = Some facts -> facts_incomplete facts = false ->
      record_kind facts <> Record_Union -> field_members strict (fields facts) l -> (strict = true -> l <> []) ->
      hfa_members strict id l
with field_members (strict : bool) : list RecordFieldFact -> list BuiltinTypeKind -> Prop :=
  | fields_nil : field_members strict [] []
  | fields_skip f fs l :
      subobject_size f = Subobject_Zero -> field_members strict fs l -> field_members strict (f :: fs) l
  | fields_cons f fs l1 l2 :
      subobject_size f <> Subobject_Zero -> stopping_field f = false ->
      hfa_members strict (ref_type (field_type f)) l1 -> field_members strict fs l2 ->
      field_members strict (f :: fs) (l1 ++ l2)
with element_members (strict : bool) : TypeId -> nat -> list BuiltinTypeKind -> Prop :=
  | elements_O e : element_members strict e O []
  | elements_S e n l1 l2 :
      hfa_members strict e l1 -> element_members strict e n l2 -> element_members strict e (S n) (l1 ++ l2).

(** ** The recursion *)

Definition hfa_key (x : TypeId * HfaState) : TypeId := x.1.

Lemma hfa_times_ext n f g : (forall st, f st = g st) -> forall st, hfa_times n f st = hfa_times n g st.
Proof.
  intros H. induction n as [|n IH]; intros st; [done|]. cbn [hfa_times]. rewrite H.
  destruct (g st) as [[ok st']|]; [|done]. cbn [mbind option_bind]. destruct ok; [apply IH|done].
Qed.

Lemma hfa_times_total n f : (forall st, f st <> None) -> forall st, hfa_times n f st <> None.
Proof.
  intros H. induction n as [|n IH]; intros st; [done|]. cbn [hfa_times]. specialize (H st).
  destruct (f st) as [[ok st']|]; [|done]. cbn [mbind option_bind]. destruct ok; [apply IH|done].
Qed.

Lemma hfa_fields_ext f g l :
  (forall x st, In x l -> f (field_type x) st = g (field_type x) st) -> forall st, hfa_fields f l st = hfa_fields g l st.
Proof.
  induction l as [|x l IH]; intros H st; [done|]. cbn [hfa_fields]. rewrite (H x) by by left.
  assert (forall st, hfa_fields f l st = hfa_fields g l st) as IH' by (apply IH; intros; apply H; by right).
  case_match; [apply IH'|]. case_match; [done|].
  destruct (g (field_type x) st) as [[ok st']|]; [|done]. cbn [mbind option_bind]. destruct ok; [apply IH'|done].
Qed.

Lemma hfa_fields_total f l :
  (forall x st, In x l -> f (field_type x) st <> None) -> forall st, hfa_fields f l st <> None.
Proof.
  induction l as [|x l IH]; intros H st; [done|]. cbn [hfa_fields].
  assert (forall st, hfa_fields f l st <> None) as IH' by (apply IH; intros; apply H; by right).
  specialize (H x st (or_introl eq_refl)).
  case_match; [apply IH'|]. case_match; [done|].
  destruct (f (field_type x) st) as [[ok st']|]; [|done]. cbn [mbind option_bind]. destruct ok; [apply IH'|done].
Qed.

Context (rank : TypeId -> nat) (Hranked : ranked file rank) (Hpayloads : payloads_match file).

Lemma hfa_local : local hfa_key file (hfa_body file target).
Proof.
  intros rec rec' [type st] Hrec. unfold hfa_body. cbv zeta.
  destruct (valid file type); [|done]. cbn [negb].
  destruct (valid file (resolved_type file type)) eqn:Ev; [|done]. cbn [negb].
  assert (forall e s, In e (components file (resolved_type file type)) -> rec (e, s) = rec' (e, s)) as Hel.
  { intros e s Hin. apply Hrec. by apply component_below. }
  destruct (kind_of file (resolved_type file type)) eqn:Ek; try done.
  - destruct (type_payload file (resolved_type file type)) eqn:Ep; try done.
    destruct size_kind, size; try done. case_match; [done|]. apply hfa_times_ext. intros s.
    apply Hel. unfold components. rewrite Ep. by left.
  - destruct (record_facts_for_type file (resolved_type file type)) as [facts|] eqn:Ef; [|done].
    case_match; [done|]. apply hfa_fields_ext. intros x s Hin. apply Hel. by eapply field_component.
Qed.

Lemma hfa_productive : productive hfa_key file (hfa_body file target).
Proof.
  intros rec [type st] Hrec. unfold hfa_body. cbv zeta.
  destruct (valid file type); [|done]. cbn [negb].
  destruct (valid file (resolved_type file type)) eqn:Ev; [|done]. cbn [negb].
  assert (forall e s, In e (components file (resolved_type file type)) -> rec (e, s) <> None) as Hel.
  { intros e s Hin. apply Hrec. by apply component_below. }
  pose proof (Hpayloads _ Ev) as Hp.
  destruct (kind_of file (resolved_type file type)) eqn:Ek; try done.
  - destruct (type_payload file (resolved_type file type)) eqn:Ep; try done; [|by destruct reference_kind].
    destruct st. repeat (case_match; try done).
  - destruct (type_payload file (resolved_type file type)) eqn:Ep; try done; [by destruct reference_kind|].
    destruct size_kind, size; try done. case_match; [done|]. apply hfa_times_total. intros s.
    apply Hel. unfold components. rewrite Ep. by left.
  - destruct (record_facts_for_type file (resolved_type file type)) as [facts|] eqn:Ef; [|done].
    case_match; [done|]. apply hfa_fields_total. intros x s Hin. apply Hel. by eapply field_component.
Qed.

Definition collect (id : TypeId) (st : HfaState) : option (bool * HfaState) :=
  collect_hfa_members_go file target (type_fuel file) (id, st).

Lemma collect_equation id st : collect id st = hfa_body file target (fun x => collect x.1 x.2) (id, st).
Proof.
  unfold collect at 1, collect_hfa_members_go. rewrite (descend_equation hfa_key file rank Hranked _ _ hfa_local).
  apply hfa_local. by intros [c s] _.
Qed.

Lemma collect_total id st : collect id st <> None.
Proof.
  apply (descend_total hfa_key file rank Hranked _ _ _ hfa_productive). by apply enough_type_fuel.
Qed.
End Hfa.

(** ** What the search accepts *)

(** [l] is appended to what was found: at most four members, all of one kind. *)
Record extends (st : HfaState) (l : list BuiltinTypeKind) (st' : HfaState) : Prop := {
  ext_start : 0 <= st.2;
  ext_count : st'.2 = st.2 + Z.of_nat (length l);
  ext_bound : st'.2 <= 4;
  ext_kind : Forall (eq st'.1) l;
  ext_same : 0 < st.2 \/ l = [] -> st'.1 = st.1
}.

Lemma extends_refl st : 0 <= st.2 <= 4 -> extends st [] st.
Proof. intros H. split; cbn; try lia; done. Qed.

Lemma extends_app st l1 st1 l2 st2 : extends st l1 st1 -> extends st1 l2 st2 -> extends st (l1 ++ l2) st2.
Proof.
  intros [H0 Hc1 Hb1 Hk1 Hs1] [H0' Hc2 Hb2 Hk2 Hs2].
  split; [done| rewrite length_app; lia |done| |].
  - apply List.Forall_app. split; [|done]. destruct l1 as [|k l1]; [constructor|].
    rewrite Hs2; [done|]. left. cbn in Hc1. lia.
  - intros [H | H].
    + rewrite Hs2, Hs1; [done|by left|left; lia].
    + apply app_eq_nil in H as [-> ->]. rewrite Hs2, Hs1; [done|by right|by right].
Qed.

Lemma extends_split st l1 l2 st2 :
  extends st (l1 ++ l2) st2 -> l1 <> [] \/ 0 < st.2 ->
  extends st l1 (st2.1, st.2 + Z.of_nat (length l1)) /\ extends (st2.1, st.2 + Z.of_nat (length l1)) l2 st2.
Proof.
  intros [H0 Hc Hb Hk Hs] Hne. rewrite length_app in Hc. apply List.Forall_app in Hk as [Hk1 Hk2].
  split; split; cbn; try done; try lia.
  intros [H | H]; [apply Hs; by left|]. destruct Hne as [Hne | Hne]; [done|]. apply Hs. by left.
Qed.

Section Accepts.
Context (file : File) (target : TargetInfo) (rank : TypeId -> nat).
Context (Hranked : ranked file rank) (Hpayloads : payloads_match file).

Definition accepts (id : TypeId) (st st' : HfaState) : Prop := collect file target id st = Some (true, st').

Definition sound (id : TypeId) : Prop := forall st st',
  0 <= st.2 <= 4 -> accepts id st st' -> exists l, hfa_members file target false id l /\ extends st l st'.

Lemma extends_range st l st' : extends st l st' -> 0 <= st'.2 <= 4.
Proof. intros [H0 Hc Hb _ _]. lia. Qed.

Lemma hfa_times_sound n e : sound e -> forall st st',
  0 <= st.2 <= 4 -> hfa_times n (collect file target e) st = Some (true, st') ->
  exists l, element_members file target false e n l /\ extends st l st'.
Proof.
  intros He. induction n as [|n IH]; intros st st' Hst H; cbn [hfa_times] in H.
  - injection H as <-. exists []. split; [constructor|by apply extends_refl].
  - destruct (collect file target e st) as [[ok st1]|] eqn:E; [|done]. cbn [mbind option_bind] in H.
    destruct ok; [|done]. destruct (He st st1 Hst E) as (l1 & Hl1 & Hx1).
    destruct (IH st1 st' (extends_range _ _ _ Hx1) H) as (l2 & Hl2 & Hx2).
    exists (l1 ++ l2). split; [by constructor|by eapply extends_app].
Qed.

Lemma hfa_fields_sound fs : (forall f, In f fs -> sound (ref_type (field_type f))) -> forall st st',
  0 <= st.2 <= 4 -> hfa_fields (fun t st => collect file target (ref_type t) st) fs st = Some (true, st') ->
  exists l, field_members file target false fs l /\ extends st l st'.
Proof.
  induction fs as [|f fs IH]; intros Hf st st' Hst H; cbn [hfa_fields] in H.
  - injection H as _ <-. exists []. split; [constructor|by apply extends_refl].
  - specialize (IH (fun g Hg => Hf g (or_intror Hg))). case_bool_decide as Ez.
    + destruct (IH st st' Hst H) as (l & Hl & Hx). exists l. split; [by constructor|done].
    + fold (stopping_field f) in H. destruct (stopping_field f) eqn:Es; [done|].
      destruct (collect file target (ref_type (field_type f)) st) as [[ok st1]|] eqn:E; [|done].
      cbn [mbind option_bind] in H. destruct ok; [|done].
      destruct (Hf f (or_introl eq_refl) st st1 Hst E) as (l1 & Hl1 & Hx1).
      destruct (IH st1 st' (extends_range _ _ _ Hx1) H) as (l2 & Hl2 & Hx2).
      exists (l1 ++ l2). split; [by constructor|by eapply extends_app].
Qed.

Lemma count_step c : 0 <= c <= 4 -> u32 (c + 1) = c + 1.
Proof. intros H. apply uwrap_small. unfold word. lia. Qed.

Lemma collect_sound id : sound id.
Proof.
  induction id as [id IH] using (below_induction (fun id => id) file rank Hranked).
  intros st st' Hst H. unfold accepts in H. rewrite (collect_equation file target rank Hranked Hpayloads) in H.
  unfold hfa_body in H. cbv zeta in H. cbn [fst snd] in H.
  destruct (valid file id) eqn:Hv; [|done]. cbn [negb] in H.
  destruct (valid file (resolved_type file id)) eqn:Ev; [|done]. cbn [negb] in H.
  rewrite <- (Hpayloads _ Ev) in H.
  assert (forall e, In e (components file (resolved_type file id)) -> sound e) as Hs.
  { intros e He. apply IH. by apply component_below. }
  destruct (type_payload file (resolved_type file id)) eqn:Ep; cbn [type_payload_kind] in H; try done;
    try (by destruct reference_kind).
  - destruct st as [k0 c0]. cbn [snd] in Hst.
    destruct (is_hfa_builtin_kind (normalize_hfa_builtin_kind kind target) target) eqn:Eh; [|done]. cbn [negb] in H.
    exists [normalize_hfa_builtin_kind kind target]. split; [by apply members_builtin|].
    rewrite (count_step c0 Hst) in H. destruct (c0 =? 0) eqn:E0; ztests.
    + injection H as Hle <-. apply Z.leb_le in Hle.
      split; cbn; try lia; [by repeat constructor|]. intros [H | H]; [lia|done].
    + case_bool_decide as Ek; [|done]. cbn [negb] in H. injection H as Hle <-. apply Z.leb_le in Hle. subst k0.
      split; cbn; try lia; [by repeat constructor|done].
  - destruct size_kind, size as [n|]; try done. destruct ((n =? 0) || (n >? 4)) eqn:En; [done|].
    rewrite Z.gtb_ltb in En. ztests.
    destruct (hfa_times_sound (Z.to_nat n) (ref_type element_type)) with (st := st) (st' := st') as (l & Hl & Hx).
    + apply Hs. unfold components. rewrite Ep. by left.
    + done.
    + exact H.
    + exists l. split; [|done]. eapply members_array; [done|by split|done|done|done].
  - destruct (record_facts_for_type file (resolved_type file id)) as [facts|] eqn:Ef; [|done].
    destruct (facts_incomplete facts) eqn:Ei; [done|]. cbn [orb] in H. case_bool_decide as Eu; [done|].
    destruct (hfa_fields_sound (fields facts)) with (st := st) (st' := st') as (l & Hl & Hx); [|done|exact H|].
    + intros f Hf. apply Hs. apply (field_component file Hpayloads _ facts f Ev); [|done|done].
      by rewrite <- (Hpayloads _ Ev), Ep.
    + exists l. split; [|done]. by eapply members_record.
Qed.

(** Strict members are accepted when they fit. *)
Definition complete (id : TypeId) : Prop := forall st l st',
  hfa_members file target true id l -> extends st l st' -> accepts id st st'.

Lemma extends_nil st st' : extends st [] st' -> st' = st.
Proof.
  intros [_ Hc _ _ Hs]. specialize (Hs (or_intror eq_refl)). destruct st, st'; cbn in *. f_equal; [done|lia].
Qed.

Lemma hfa_times_complete e n l : complete e -> (forall l', hfa_members file target true e l' -> l' <> []) ->
  element_members file target true e n l -> forall st st', extends st l st' ->
  hfa_times n (collect file target e) st = Some (true, st').
Proof.
  intros He Hne. revert l. induction n as [|n IH]; intros l Hl st st' Hx; inversion Hl as [|e' n' l1 l2 H1 H2]; subst.
  - by rewrite (extends_nil _ _ Hx).
  - destruct (extends_split _ _ _ _ Hx (or_introl (Hne _ H1))) as [Hx1 Hx2].
    cbn [hfa_times]. rewrite (He _ _ _ H1 Hx1). cbn [mbind option_bind]. by apply (IH l2).
Qed.

Lemma hfa_fields_complete fs l :
  (forall f, In f fs -> complete (ref_type (field_type f))) ->
  (forall f l', In f fs -> hfa_members file target true (ref_type (field_type f)) l' -> l' <> []) ->
  field_members file target true fs l -> forall st st', extends st l st' -> 0 < st'.2 ->
  hfa_fields (fun t st => collect file target (ref_type t) st) fs st = Some (true, st').
Proof.
  revert l. induction fs as [|f fs IH]; intros l Hf Hne Hl st st' Hx H0; cbn [hfa_fields];
    inversion Hl as [|f' fs' l' Hz Hl' | f' fs' l1 l2 Hz Hstop H1 H2]; subst.
  - pose proof (extends_range _ _ _ Hx). rewrite (extends_nil _ _ Hx) in *.
    by rewrite (proj2 (Z.ltb_lt _ _)), (proj2 (Z.leb_le _ _)) by lia.
  - rewrite bool_decide_eq_true_2 by done. apply (IH l); try done; [intros g Hg; apply Hf; by right|].
    intros g l'' Hg. apply Hne. by right.
  - rewrite bool_decide_eq_false_2 by done. fold (stopping_field f). rewrite Hstop.
    destruct (extends_split _ _ _ _ Hx (or_introl (Hne f _ (or_introl eq_refl) H1))) as [Hx1 Hx2].
    rewrite (Hf f (or_introl eq_refl) _ _ _ H1 Hx1). cbn [mbind option_bind].
    apply (IH l2); try done; [intros g Hg; apply Hf; by right|]. intros g l'' Hg. apply Hne. by right.
Qed.

Lemma element_members_nonempty e n l : (forall l', hfa_members file target true e l' -> l' <> []) ->
  element_members file target true e n l -> n <> O -> l <> [].
Proof. intros Hne H Hn. destruct H; [done|]. intros E. apply app_eq_nil in E as [-> _]. by eapply Hne. Qed.

(** What a member list says about the type. *)
Lemma members_cases strict id l : hfa_members file target strict id l ->
  valid file id = true /\ valid file (resolved_type file id) = true.
Proof. by destruct 1 as [id k Hv [Hr _] | id e n l Hv [Hr _] | id ent u i facts l Hv [Hr _]]. Qed.

Definition sizes_unsigned : Prop :=
  forall id e sk n, type_payload file id = ArrayTypePayload e sk (Some n) -> 0 <= n.

Lemma strict_nonempty (Hsizes : sizes_unsigned) id : forall l, hfa_members file target true id l -> l <> [].
Proof.
  induction id as [id IH] using (below_induction (fun id => id) file rank Hranked). intros l H.
  destruct H as [id k Hv Hr Hk | id e n l Hv [Hr Ep] Hn0 Hn Hl | id ent u i facts l Hv [Hr Ep] Hf Hi Hu Hl Hne];
    [done| |by apply Hne].
  specialize (Hsizes _ _ _ _ Ep). eapply element_members_nonempty; [|exact Hl|lia].
  apply IH, component_below; [done|]. unfold components. rewrite Ep. by left.
Qed.

Lemma collect_complete (Hsizes : sizes_unsigned) id : complete id.
Proof.
  induction id as [id IH] using (below_induction (fun id => id) file rank Hranked).
  intros st l st' H Hx. unfold accepts. rewrite (collect_equation file target rank Hranked Hpayloads).
  destruct (members_cases _ _ _ H) as [Hv Hr]. unfold hfa_body. cbv zeta. rewrite Hv, Hr, <- (Hpayloads _ Hr).
  cbn [negb fst snd].
  assert (forall e, In e (components file (resolved_type file id)) -> complete e) as Hc.
  { intros e He. apply IH. by apply component_below. }
  destruct H as [id k _ [_ Ep] Hk | id e n l _ [_ Ep] Hn0 Hn Hl | id ent u i facts l _ [_ Ep] Hf Hi Hu Hl Hne];
    rewrite Ep; cbn [type_payload_kind].
  - rewrite Hk. cbn [negb]. destruct st as [k0 c0], st' as [k1 c1].
    destruct Hx as [H0 Hcount Hb Hkind Hsame]. cbn in *. assert (c1 = c0 + 1) as -> by lia. clear Hcount.
    apply List.Forall_inv in Hkind. rewrite (count_step c0) by lia. rewrite (proj2 (Z.leb_le _ _)) by lia.
    destruct (Z.eqb_spec c0 0); [by rewrite Hkind|].
    rewrite bool_decide_eq_true_2 by (rewrite <- Hkind; symmetry; apply Hsame; left; lia). cbn [negb].
    by rewrite Hsame by (left; lia).
  - rewrite (proj2 (Z.eqb_neq _ _)) by done. rewrite Z.gtb_ltb, (proj2 (Z.ltb_ge _ _)) by done. cbn [orb].
    eapply hfa_times_complete; [|by apply strict_nonempty|exact Hl|exact Hx].
    apply Hc. unfold components. rewrite Ep. by left.
  - rewrite Hf, Hi. cbn [orb]. rewrite bool_decide_eq_false_2 by done.
    eapply hfa_fields_complete; [| |exact Hl|exact Hx|].
    + intros f Hin. apply Hc. apply (field_component file Hpayloads _ facts f Hr); [|done|done].
      by rewrite <- (Hpayloads _ Hr), Ep.
    + intros f l' _. by apply strict_nonempty.
    + destruct Hx as [H0 Hcount _ _ _]. specialize (Hne eq_refl). destruct l; [done|]. cbn in Hcount. lia.
Qed.
End Accepts.

(** ** Properties *)

Lemma int_slot_count_eightbytes size : 0 <= size <= 16 -> int_slot_count_for_size size = eightbytes size.
Proof. apply slot_count_small. Qed.


(** A class whose counts agree with how it passes the argument. *)
Definition class_ok (r : AggregateClass) : Prop :=
  match pass r with
  | CoerceHfa => 1 <= hfa_count r <= 4 /\ int_slot_count r = 0
  | CoerceIntSlots => 1 <= int_slot_count r <= 2 /\ slot_bytes r = 8 /\ sse_slot_mask r = 0
  | CoerceClassedSlots =>
      1 <= int_slot_count r <= 2 /\ slot_bytes r = 8 /\ 0 < sse_slot_mask r < 2 ^ int_slot_count r
  | _ => int_slot_count r = 0 /\ sse_slot_mask r = 0 /\ hfa_count r = 0
  end.

Lemma from_state_ok st size al : 0 <= size -> class_ok (from_state st size al).
Proof.
  intros H0. destruct (Z.lt_ge_cases 16 size); [by rewrite from_state_memory by (by right)|].
  destruct (memory st) eqn:Em; [by rewrite from_state_memory by (by left)|].
  unfold from_state. rewrite Em, slot_count_small by lia. cbn [orb]. rewrite Z.gtb_ltb, (proj2 (Z.ltb_ge _ _)) by lia.
  assert (eightbytes size = 1 \/ eightbytes size = 2) as Hn by (unfold eightbytes; case_match; lia).
  destruct st as [s0 s1 m]. destruct Hn as [-> | ->], s0, s1; vm_compute; intuition congruence.
Qed.

Lemma int_slots_ok size r : 0 <= size <= 16 -> sse_slot_mask r = 0 -> slot_bytes r = 8 ->
  class_ok (with_pass CoerceIntSlots (with_slots (int_slot_count_for_size size) r)).
Proof.
  intros Hs Hm Hb. rewrite int_slot_count_eightbytes by done. unfold class_ok. cbn.
  split; [unfold eightbytes; case_match; lia|done].
Qed.

(** The classes below 16 bytes and above. *)
Lemma by_size_ok size : 0 <= size ->
  class_ok (if size >? 16 then with_pass Indirect (with_size size 1)
            else with_pass CoerceIntSlots (with_slots (int_slot_count_for_size size) (with_size size 1))).
Proof. intros H0. rewrite Z.gtb_ltb. destruct (Z.ltb_spec 16 size); [done|]. by apply int_slots_ok. Qed.

Section Bounds.
Context (file : File) (rank : TypeId -> nat).
Context (Hranked : ranked file rank) (Hpayloads : payloads_match file) (Hresolves : resolves file).
Context (Hsizes : forall id sa, size_align_of_type file id = Some sa -> 0 <= size_bytes sa).

(** An answer with a class in bounds. *)
Definition answers (o : option AggregateClass) : Prop := exists r, o = Some r /\ class_ok r.

Lemma answers_some r : class_ok r -> answers (Some r).
Proof. by exists r. Qed.

Lemma x86_64_answers type target : answers (classify_x86_64_argument_native file type target).
Proof.
  unfold classify_x86_64_argument_native. destruct target as [t|]; [|by apply answers_some].
  case_match; [by apply answers_some|]. cbv zeta. case_match; [by apply answers_some|].
  case_match; [by apply answers_some|].
  destruct (size_align_of_type file (resolved_type file (ref_type type))) as [sa|] eqn:Es; [|by apply answers_some].
  destruct (classify_bytes file (resolved_type file (ref_type type)) 0 initial_state) eqn:Ec.
  - apply answers_some, from_state_ok. by apply (Hsizes _ _ Es).
  - by apply (classify_total file rank Hranked Hpayloads Hresolves) in Ec.
Qed.

Lemma x86_32_ok type : class_ok (classify_x86_32 file type).
Proof. unfold classify_x86_32. cbv zeta. repeat (case_match; try done). Qed.

Lemma or1k_ok type : class_ok (classify_or1k file type).
Proof. unfold classify_or1k. cbv zeta. repeat (case_match; try done). Qed.

Lemma aarch64_argument_answers type target : answers (classify_aarch64_argument file type target).
Proof.
  unfold classify_aarch64_argument. destruct target as [t|]; [|by apply answers_some].
  case_match; [by apply answers_some|].
  destruct (size_align_of_type file (ref_type type)) as [sa|] eqn:Es; [|by apply answers_some]. cbv zeta.
  pose proof (Hsizes _ _ Es) as H0.
  destruct (is_empty_record_abi_ignored file (ref_type type)).
  { case_match; apply answers_some; [done|]. unfold class_ok. cbn. lia. }
  destruct (collect_hfa_members file t type (Bt_Other, 0)) as [[ok [k c]]|] eqn:E;
    [|by apply (collect_total file t rank Hranked Hpayloads) in E].
  cbn [mbind option_bind]. case_match eqn:Eok.
  - rewrite !andb_true_iff in Eok. destruct Eok as [[_ H1] H4]. ztests. apply answers_some. unfold class_ok. cbn.
    rewrite uwrap_small by (unfold word; lia). lia.
  - pose proof (by_size_ok (size_bytes sa) H0) as Hok. destruct (size_bytes sa >? 16); by apply answers_some.
Qed.

Lemma complex_answers type t is_vararg :
  exists o, classify_complex file type t is_vararg = Some o /\ forall r, o = Some r -> class_ok r.
Proof.
  unfold classify_complex. cbv zeta. destruct (_ || _) eqn:Eg; [by exists None|].
  apply orb_false_iff in Eg as [Hv Hk]. apply negb_false_iff in Hv, Hk. apply bool_decide_eq_true in Hk.
  destruct (size_align_of_type file (resolved_type file (ref_type type))) as [sa|] eqn:Es; [|by exists None].
  pose proof (Hpayloads _ Hv) as Hp. rewrite Hk in Hp. pose proof (by_size_ok _ (Hsizes _ _ Es)) as Hok.
  destruct (type_payload file (resolved_type file (ref_type type))); try discriminate; [by destruct reference_kind|].
  assert (forall k, exists o,
    (if negb is_vararg && is_hfa_builtin_kind k t then Some (Some (with_pass CoerceHfa (with_hfa k 2 (with_size (size_bytes sa) 1))))
     else if size_bytes sa >? 16 then Some (Some (with_pass Indirect (with_size (size_bytes sa) 1)))
     else Some (Some (with_pass CoerceIntSlots (with_slots (int_slot_count_for_size (size_bytes sa))
            (with_size (size_bytes sa) 1))))) = Some o /\ forall r, o = Some r -> class_ok r) as Hend.
  { intros k. destruct (negb is_vararg && is_hfa_builtin_kind k t).
    - eexists. split; [done|]. intros r E. injection E as <-. unfold class_ok. cbn. lia.
    - destruct (size_bytes sa >? 16); eexists; (split; [done|]); intros r E; by injection E as <-. }
  destruct (valid file (resolved_type file (ref_type element_type))) eqn:Ev; cbn [andb]; [|apply Hend].
  case_bool_decide as Eb; [|apply Hend]. pose proof (Hpayloads _ Ev) as Hp'. rewrite Eb in Hp'.
  destruct (type_payload file (resolved_type file (ref_type element_type))); try discriminate; [|by destruct reference_kind].
  apply Hend.
Qed.

Lemma complex_or type t is_vararg rest :
  answers rest ->
  answers (complex ← classify_complex file type t is_vararg;
           match (complex : option AggregateClass) with Some c => Some c | None => rest end).
Proof.
  intros Hrest. destruct (complex_answers type t is_vararg) as ([c|] & -> & Hc); cbn [mbind option_bind]; [|done].
  by apply answers_some, Hc.
Qed.

Lemma aarch64_native_answers type target : answers (classify_aarch64_argument_native file type target).
Proof.
  unfold classify_aarch64_argument_native. pose proof (aarch64_argument_answers type target) as H.
  destruct target as [t|]; [|exact H]. destruct (is_aarch64_aapcs t); [by apply complex_or|exact H].
Qed.

Lemma aarch64_vararg_answers type target : answers (classify_aarch64_vararg file type target).
Proof.
  unfold classify_aarch64_vararg. destruct target as [t|]; [|by apply answers_some].
  case_match; [apply aarch64_argument_answers|]. case_match; [by apply answers_some|].
  destruct (size_align_of_type file (ref_type type)) as [sa|] eqn:Es; [|by apply answers_some]. cbv zeta.
  pose proof (by_size_ok _ (Hsizes _ _ Es)) as Hok. destruct (size_bytes sa >? 16); by apply answers_some.
Qed.

Lemma aarch64_vararg_native_answers type target : answers (classify_aarch64_vararg_native file type target).
Proof.
  unfold classify_aarch64_vararg_native. destruct target as [t|]; [|apply aarch64_vararg_answers].
  case_match; [apply aarch64_native_answers|]. apply complex_or, aarch64_vararg_answers.
Qed.

Lemma non_trivial_ok type r : classify_non_trivial_class file type = Some r -> class_ok r /\ pass r = Indirect.
Proof.
  unfold classify_non_trivial_class. cbv zeta.
  destruct (if valid file _ then record_facts_for_type file _ else None) as [facts|]; [|done].
  destruct (facts_incomplete facts || negb (is_non_trivial_for_calls facts)); [done|].
  destruct (size_align_of_type file _); intros H; by injection H as <-.
Qed.
End Bounds.

(** Claim C21: every argument is classified, with counts in bounds. For any type, any
    target and for named and variadic arguments alike, the classification
    terminates, no payload is read as one of another kind, and the class is
    consistent: one to four members in floating-point registers, or one or two
    integer slots, with SSE bits for existing slots only, or no slots at all. *)
Theorem classification_in_bounds file rank type target :
  ranked file rank -> payloads_match file -> resolves file ->
  (forall id sa, size_align_of_type file id = Some sa -> 0 <= size_bytes sa) ->
  (exists r, classify_argument_native file type target = Some r /\ class_ok r) /\
  (exists r, classify_vararg_native file type target = Some r /\ class_ok r).
Proof.
  intros Hr Hm Hres Hs. unfold classify_argument_native, classify_vararg_native.
  destruct (classify_non_trivial_class file type) as [r|] eqn:En.
  { destruct (non_trivial_ok file type r En) as [Hok _]. by split; exists r. }
  split.
  - destruct (arch_is target X86_64); [by eapply x86_64_answers|].
    destruct (arch_is target X86); [apply answers_some, x86_32_ok|].
    destruct (arch_is target OR1K); [apply answers_some, or1k_ok|]. by eapply aarch64_native_answers.
  - destruct (arch_is target X86_64); [by eapply x86_64_answers|].
    destruct (arch_is target X86); [apply answers_some, x86_32_ok|].
    destruct (arch_is target OR1K); [apply answers_some, or1k_ok|]. by eapply aarch64_vararg_native_answers.
Qed.

Lemma aarch64_complex_none file type t v :
  kind_of file (resolved_type file (ref_type type)) <> Kind_Complex -> classify_complex file type t v = Some None.
Proof. intros H. unfold classify_complex. cbv zeta. rewrite bool_decide_eq_false_2 by done. by rewrite orb_true_r. Qed.

Lemma complete_record_kind file id :
  kind_of file (resolved_type file id) <> Kind_Record -> is_complete_record_type file id = false.
Proof. intros H. unfold is_complete_record_type. cbv zeta. rewrite bool_decide_eq_false_2 by done. by rewrite orb_true_r. Qed.

Lemma facts_kind file id facts : record_facts_for_type file id = Some facts -> kind_of file (resolved_type file id) = Kind_Record.
Proof.
  unfold record_facts_for_type, record_entity. cbv zeta. case_match eqn:E; [|done]. intros _. revert E.
  case_bool_decide as Ek; [done|]. by rewrite orb_true_r.
Qed.

(** the dispatch. On every target, a complete class that is not trivial for
    calls is passed indirectly with its size and alignment, as a named or a
    variadic argument; an argument that resolves to neither a record nor a
    complex number keeps its source type. *)
Theorem dispatch_by_kind file type target :
  resolves file ->
  let id := resolved_type file (ref_type type) in
  (forall facts sa, valid file id = true -> record_facts_for_type file id = Some facts ->
     facts_incomplete facts = false -> is_non_trivial_for_calls facts = true -> size_align_of_type file id = Some sa ->
     let r := with_pass Indirect (with_size (size_bytes sa) (u32 (Z.max 1 (alignment_bytes sa)))) in
     classify_argument_native file type target = Some r /\ classify_vararg_native file type target = Some r) /\
  (kind_of file id <> Kind_Record -> kind_of file id <> Kind_Complex ->
     classify_argument_native file type target = Some default_class /\
     classify_vararg_native file type target = Some default_class).
Proof.
  intros Hres id. split.
  - intros facts sa Hv Hf Hi Hn Hs r. unfold classify_argument_native, classify_vararg_native, classify_non_trivial_class.
    fold id. rewrite Hv, Hf, Hi, Hn, Hs. done.
  - intros Hr Hc.
    assert (valid file id = true -> kind_of file (resolved_type file id) = kind_of file id) as Hid.
    { intros Hv. f_equal. by apply Hres. }
    assert (classify_non_trivial_class file type = None) as En.
    { unfold classify_non_trivial_class. fold id. destruct (valid file id) eqn:Hv; [|done]. cbv zeta.
      destruct (record_facts_for_type file id) eqn:Ef; [|done]. apply facts_kind in Ef. by rewrite (Hid eq_refl) in Ef. }
    assert (is_complete_record_type file (ref_type type) = false) as E1 by by apply complete_record_kind.
    assert (valid file id = true -> is_complete_record_type file id = false) as E2.
    { intros Hv. apply complete_record_kind. by rewrite Hid. }
    assert (bool_decide (kind_of file id = Kind_Complex) = false) as Ek by by apply bool_decide_eq_false_2.
    assert (classify_x86_64_argument_native file type target = Some default_class) as Ex.
    { unfold classify_x86_64_argument_native. fold id. rewrite Ek. destruct target; [|done]. case_match; [done|].
      cbv zeta. destruct (valid file id); [|done]. by rewrite E2. }
    assert (classify_x86_32 file type = default_class) as Ex32.
    { unfold classify_x86_32. fold id. rewrite Ek. case_match; [done|]. cbv zeta. destruct (valid file id); [|done].
      by rewrite E2. }
    assert (classify_or1k file type = default_class) as Eo.
    { unfold classify_or1k, aggregate_size_align. fold id. case_match; [done|]. cbv zeta. rewrite Ek.
      destruct (valid file id); [|done]. by rewrite E2. }
    assert (classify_aarch64_argument file type target = Some default_class) as Ea.
    { unfold classify_aarch64_argument. rewrite E1. destruct target; [|done]. by rewrite orb_true_r. }
    assert (classify_aarch64_argument_native file type target = Some default_class) as Ean.
    { unfold classify_aarch64_argument_native. destruct target as [t|]; [|done].
      destruct (is_aarch64_aapcs t); [rewrite aarch64_complex_none by done|]; done. }
    assert (classify_aarch64_vararg_native file type target = Some default_class) as Eav.
    { unfold classify_aarch64_vararg_native, classify_aarch64_vararg. destruct target as [t|]; [|done].
      rewrite aarch64_complex_none by done. case_match; [done|]. cbn [mbind option_bind]. by rewrite E1. }
    unfold classify_argument_native, classify_vararg_native, classify_x86_64_vararg_native.
    unfold classify_or1k_argument_native, classify_or1k_vararg_native.
    rewrite En, Ex, Ex32, Eo, Ean, Eav. split; repeat case_match; done.
Qed.

(** ** Two departures from the ABIs *)

(** A structure that holds a reference and one that holds a pointer. *)
Definition reference_file : File :=
  table_of
    [ BuiltinTypePayload Bt_Int; ReferenceTypePayload (nth_type 1) Ref_LValue; PointerTypePayload (nth_type 1);
      RecordTypePayload (mkId 1 1) false false; RecordTypePayload (mkId 2 1) false false ]
    [ (id_key (mkId 1 1), plain_struct [plain_field 2 0] 8 8); (id_key (mkId 2 1), plain_struct [plain_field 3 0] 8 8) ]
    (create_for_triple (str "x86_64-linux")).

(** References in x86-64 arguments. A structure of one reference is passed
    in memory, while a structure of one pointer of the same size is passed in an
    integer register; the ABI gives both the class INTEGER. *)
Theorem reference_member_in_memory :
  let classify k := classify_argument_native reference_file (nth_type k) (Some (target_info reference_file)) in
  classify 4 = Some (mkClass MemoryByval Bt_Other 0 0 8 0 8 8) /\
  classify 5 = Some (mkClass CoerceIntSlots Bt_Other 0 1 8 0 8 8).
Proof. vm_compute. split; reflexivity. Qed.

(** [struct E {}], [struct { float f; E e; }] and [struct { E e; float f; }]. *)
Definition empty_member_file : File :=
  table_of
    [ BuiltinTypePayload Bt_Float; RecordTypePayload (mkId 1 1) false false;
      RecordTypePayload (mkId 2 1) false false; RecordTypePayload (mkId 3 1) false false ]
    [ (id_key (mkId 1 1), mkFacts Record_Struct false Prop_True false [] 8 1);
      (id_key (mkId 2 1), plain_struct [plain_field 1 0; plain_field 2 4] 8 4);
      (id_key (mkId 3 1), plain_struct [plain_field 2 0; plain_field 1 4] 8 4) ]
    (create_for_triple (str "aarch64-linux")).

(** Empty members in AArch64 aggregates. A structure of a [float] and an
    empty class, of 8 bytes, is taken for a homogeneous aggregate of one [float]
    when the [float] comes first and is passed in an integer slot when it comes
    second: the search looks at the count of members found so far when it leaves
    the empty class, and never compares the members with the size. *)
Theorem empty_member_order :
  let classify k := classify_argument_native empty_member_file (nth_type k) (Some (target_info empty_member_file)) in
  classify 3 = Some (mkClass CoerceHfa Bt_Float 1 0 8 0 8 1) /\
  classify 4 = Some (mkClass CoerceIntSlots Bt_Other 0 1 8 0 8 1).
Proof. vm_compute. split; reflexivity. Qed.

(** ** Witnesses *)

Definition vector_file : File :=
  table_of
    [ BuiltinTypePayload Bt_Float; ArrayTypePayload (nth_type 1) Size_Constant (Some 2);
      RecordTypePayload (mkId 1 1) false false ]
    [ (id_key (mkId 1 1), plain_struct [plain_field 1 0; plain_field 2 4] 12 4) ]
    (create_for_triple (str "aarch64-linux")).

Lemma vector_file_sizes : sizes_unsigned vector_file.
Proof.
  intros id e sk n E.
  assert (match type_payload vector_file id with ArrayTypePayload _ _ (Some n) => 0 <= n | _ => True end) as H.
  { apply (payloads_forall vector_file (fun p => match p with ArrayTypePayload _ _ (Some n) => 0 <= n | _ => True end));
      [done|]. repeat constructor; done. }
  by rewrite E in H.
Qed.


Lemma dispatch_by_kind_witness :
  classify_vararg_native vector_file (nth_type 1) (Some (create_for_triple (str "i686-linux"))) = Some default_class.
Proof.
  destruct (dispatch_by_kind vector_file (nth_type 1) (Some (create_for_triple (str "i686-linux")))
    ltac:(apply resolves_sound; vm_compute; reflexivity)) as [_ H].
  apply H; vm_compute; discriminate.
Defined.

Lemma sample_sizes id sa :
  size_align_of_type (sample_file create_apple_aarch64) id = Some sa -> 0 <= size_bytes sa.
Proof.
  intros H. apply (size_align_rules _ _ (list_rank sample_ranks) (sample_ranked _) (sample_payloads_match _)
    (sample_vectors_bounded _)) in H.
  apply (layout_aligned _ create_apple_aarch64) in H as (_ & _ & H0 & _); [done| |apply sample_stored_ok].
  exact (create_for_triple_sane (str "aarch64-apple-darwin")).
Qed.

Lemma classification_in_bounds_witness :
  exists r, classify_vararg_native (sample_file create_apple_aarch64) (nth_type 10) (Some create_apple_aarch64) = Some r /\
    class_ok r /\ pass r = CoerceIntSlots.
Proof.
  destruct (classification_in_bounds (sample_file create_apple_aarch64) (list_rank sample_ranks) (nth_type 10)
    (Some create_apple_aarch64) (sample_ranked _) (sample_payloads_match _) (sample_resolves _) sample_sizes)
    as [_ (r & E & Hok)].
  exists r. split; [exact E|]. split; [exact Hok|]. vm_compute in E. injection E as <-. reflexivity.
Defined.
