(* ===== verification/Vectors.v ===== *)
(** * Vectors

    A [std::vector] is the list of its elements; an access out of its bounds has no
    result. With them, the loops over vectors whose body may have none. *)
From S2P Require Import Prelude.
Open Scope Z_scope.

(** ** Elements by position *)

(** [v[i]]. *)
Definition at_ {A} (v : list A) (i : Z) : option A := if i <? 0 then None else v !! Z.to_nat i.
Definition put {A} (v : list A) (i : Z) (a : A) : list A := if i <? 0 then v else <[Z.to_nat i := a]> v.
Definition size {A} (v : list A) : Z := Z.of_nat (length v).

(** The id of the next element: [static_cast<uint32_t>(v.size())]. *)
Definition next_id {A} (v : list A) : option Z := if size v <? 2 ^ 32 then Some (size v) else None.

Lemma next_id_some {A} (v : list A) id : next_id v = Some id -> id = size v.
Proof. unfold next_id. destruct (_ <? _); congruence. Qed.
Lemma size_nonneg {A} (v : list A) : 0 <= size v.
Proof. unfold size. lia. Qed.
Lemma size_app {A} (v w : list A) : size (v ++ w) = size v + size w.
Proof. unfold size. rewrite length_app. lia. Qed.
Lemma at_lt {A} (v : list A) i a : at_ v i = Some a -> 0 <= i < size v.
Proof. unfold at_, size. destruct (Z.ltb_spec i 0); [done|]. intros Hlt%lookup_lt_Some. lia. Qed.
Lemma at_is_Some {A} (v : list A) i : is_Some (at_ v i) <-> 0 <= i < size v.
Proof.
  unfold at_, size. destruct (Z.ltb_spec i 0); [split; [intros [? [=]]|lia]|].
  rewrite lookup_lt_is_Some. lia.
Qed.
Lemma at_app_l {A} (v w : list A) i a : at_ v i = Some a -> at_ (v ++ w) i = Some a.
Proof. unfold at_. destruct (_ <? _); [done|]. apply lookup_app_l_Some. Qed.
Lemma at_snoc {A} (v : list A) a : at_ (v ++ [a]) (size v) = Some a.
Proof.
  unfold at_, size. destruct (Z.ltb_spec (Z.of_nat (length v)) 0); [lia|]. rewrite Nat2Z.id.
  rewrite lookup_app_r by lia. by rewrite Nat.sub_diag.
Qed.
Lemma at_snoc_inv {A} (v : list A) a i b :
  at_ (v ++ [a]) i = Some b -> at_ v i = Some b \/ (i = size v /\ b = a).
Proof.
  unfold at_, size. destruct (Z.ltb_spec i 0); [done|]. intros Hb.
  apply lookup_app_Some in Hb as [Hb|[Hlen Hb]]; [by left|right].
  apply list_lookup_singleton_Some in Hb as [Hi Hb]. split; [lia|done].
Qed.
Lemma length_put {A} (v : list A) i a : length (put v i a) = length v.
Proof. unfold put. destruct (_ <? _); [done|]. by rewrite length_insert. Qed.
Lemma size_put {A} (v : list A) i a : size (put v i a) = size v.
Proof. unfold size. by rewrite length_put. Qed.
Lemma at_put_eq {A} (v : list A) i a : 0 <= i < size v -> at_ (put v i a) i = Some a.
Proof.
  intros Hi. unfold at_, put, size in *. destruct (Z.ltb_spec i 0); [lia|].
  apply list_lookup_insert_eq. lia.
Qed.
Lemma at_put_ne {A} (v : list A) i j a : i <> j -> at_ (put v i a) j = at_ v j.
Proof.
  intros Hne. unfold at_, put. destruct (Z.ltb_spec j 0); [done|]. destruct (Z.ltb_spec i 0); [done|].
  apply list_lookup_insert_ne. lia.
Qed.
Lemma map_put {A B} (g : A -> B) v i a : map g (put v i a) = put (map g v) i (g a).
Proof. unfold put. destruct (_ <? _); [done|]. apply list_fmap_insert. Qed.
Lemma at_map {A B} (g : A -> B) v i : at_ (map g v) i = g <$> at_ v i.
Proof. unfold at_. destruct (_ <? _); [done|]. apply list_lookup_fmap. Qed.
Lemma size_map {A B} (g : A -> B) v : size (map g v) = size v.
Proof. unfold size. by rewrite length_map. Qed.
Lemma put_same {A} (v : list A) i a : at_ v i = Some a -> put v i a = v.
Proof. unfold at_, put. destruct (_ <? _); [done|]. apply list_insert_id. Qed.

(** [v[i] = g(v[i])] *)
Definition modify {A} (v : list A) (i : Z) (g : A -> A) : option (list A) :=
  a ← at_ v i; Some (put v i (g a)).
Lemma modify_some {A} (v : list A) i g a : at_ v i = Some a -> modify v i g = Some (put v i (g a)).
Proof. unfold modify. by intros ->. Qed.
Lemma at_put {A} (v : list A) i j a : 0 <= i < size v -> at_ (put v i a) j = if decide (i = j) then Some a else at_ v j.
Proof. intros Hi. destruct (decide (i = j)) as [<-|Hne]; [by apply at_put_eq|by apply at_put_ne]. Qed.
Lemma at_none {A} (v : list A) i : ~ (0 <= i < size v) -> at_ v i = None.
Proof. intros H. destruct (at_ v i) eqn:E; [|done]. destruct H. by apply at_lt in E. Qed.
Lemma at_cons_0 {A} (a : A) v : at_ (a :: v) 0 = Some a.
Proof. done. Qed.
Lemma at_cons_S {A} (a : A) v i : 0 <= i -> at_ (a :: v) (i + 1) = at_ v i.
Proof.
  intros Hi. unfold at_. destruct (Z.ltb_spec (i + 1) 0), (Z.ltb_spec i 0); try lia.
  by replace (Z.to_nat (i + 1)) with (S (Z.to_nat i)) by lia.
Qed.
Lemma at_elem {A} (v : list A) i a : at_ v i = Some a -> a ∈ v.
Proof. unfold at_. destruct (_ <? _); [done|]. apply list_elem_of_lookup_2. Qed.
Lemma elem_at {A} (v : list A) a : a ∈ v -> exists i, at_ v i = Some a.
Proof.
  intros [i Hi]%list_elem_of_lookup_1. exists (Z.of_nat i). unfold at_.
  destruct (Z.ltb_spec (Z.of_nat i) 0); [lia|]. by rewrite Nat2Z.id.
Qed.
Lemma at_replicate {A} n (a : A) i : at_ (replicate n a) i = if decide (0 <= i < Z.of_nat n) then Some a else None.
Proof.
  destruct (decide _) as [Hi|Hi].
  - unfold at_. destruct (Z.ltb_spec i 0); [lia|]. apply lookup_replicate_2. lia.
  - apply at_none. unfold size. by rewrite length_replicate.
Qed.
Lemma at_replicate_inv {A} n (a : A) i x : at_ (replicate n a) i = Some x -> x = a.
Proof. rewrite at_replicate. by destruct (decide _); intros [= ->]. Qed.
Lemma size_replicate {A} n (a : A) : size (replicate n a) = Z.of_nat n.
Proof. unfold size. by rewrite length_replicate. Qed.

Lemma at_inj {A} (v : list A) i j a : NoDup v -> at_ v i = Some a -> at_ v j = Some a -> i = j.
Proof.
  intros Hnd Hi Hj. pose proof (at_lt _ _ _ Hi). pose proof (at_lt _ _ _ Hj). unfold at_ in *.
  destruct (Z.ltb_spec i 0), (Z.ltb_spec j 0); try lia. pose proof (NoDup_lookup _ _ _ _ Hnd Hi Hj). lia.
Qed.

(** ** Loops whose body may have no result *)

(** [for (a : l) f(a, s)] *)
Fixpoint for_each {A S} (f : A -> S -> option S) (l : list A) (s : S) : option S :=
  match l with
  | [] => Some s
  | a :: l => s ← f a s; for_each f l s
  end.

Lemma for_each_app {A S} (f : A -> S -> option S) l1 l2 s :
  for_each f (l1 ++ l2) s = s' ← for_each f l1 s; for_each f l2 s'.
Proof. revert s. induction l1 as [|a l1 IH]; intros s; cbn; [done|]. destruct (f a s); cbn; [apply IH|done]. Qed.

(** The rule of the loops: [P] holds of the elements done and the state. *)
Lemma for_each_spec {A S} (f : A -> S -> option S) (P : list A -> S -> Prop) l s :
  P [] s ->
  (forall l1 a l2 s, l = l1 ++ a :: l2 -> P l1 s -> exists s', f a s = Some s' /\ P (l1 ++ [a]) s') ->
  exists s', for_each f l s = Some s' /\ P l s'.
Proof.
  intros H0 Hstep. cut (forall l2 l1 s, l = l1 ++ l2 -> P l1 s -> exists s', for_each f l2 s = Some s' /\ P l s').
  { intros H. by apply (H l [] s). }
  induction l2 as [|a l2 IH]; intros l1 s1 El HP; cbn.
  - exists s1. rewrite app_nil_r in El. by subst.
  - destruct (Hstep l1 a l2 s1 El HP) as (s2 & -> & HP2). cbn. apply (IH (l1 ++ [a])); [|done].
    by rewrite <- app_assoc.
Qed.
(** When nothing depends on the elements done. *)
Lemma for_each_inv {A S} (f : A -> S -> option S) (P : S -> Prop) l s :
  P s -> (forall a s, a ∈ l -> P s -> exists s', f a s = Some s' /\ P s') ->
  exists s', for_each f l s = Some s' /\ P s'.
Proof.
  intros H0 Hstep. apply (for_each_spec f (fun _ => P)); [done|]. intros l1 a l2 s1 -> HP. apply Hstep; [|done].
  apply elem_of_app. right. left.
Qed.
