(* ===== verification/AirInsts.v ===== *)
(** * The instructions of the AIR (src/air/insts.h, src/air/insts.cpp, src/air/opcodes.def)

    The opcodes with their traits, the conditions, memory orders and
    read-modify-write operations, their spellings, and the packing of the
    auxiliary words of an instruction. *)
From Stdlib Require Import String.
From S2P Require Import Prelude.
Open Scope Z_scope.

(** ** Data *)

Inductive Opcode :=
  | Op_StackAlloc | Op_StackAllocDyn | Op_StackSave | Op_StackRestore | Op_Load | Op_Store | Op_Memcpy
  | Op_Memmove | Op_Memset | Op_AtomicLoad | Op_AtomicStore | Op_AtomicRmw | Op_AtomicCas | Op_Fence | Op_Iadd
  | Op_Isub | Op_Imul | Op_Iand | Op_Ior | Op_Ixor | Op_Shl | Op_Sdiv | Op_Udiv | Op_Srem | Op_Urem | Op_Ashr
  | Op_Lshr | Op_Bswap | Op_Clz | Op_Ctz | Op_Popcnt | Op_Fadd | Op_Fsub | Op_Fmul | Op_Fdiv | Op_Frem
  | Op_Fneg | Op_Icmp | Op_Fcmp | Op_Trunc | Op_Zext | Op_Sext | Op_Fptrunc | Op_Fpext | Op_Fptosi | Op_Fptoui
  | Op_Sitofp | Op_Uitofp | Op_Ptrtoint | Op_Inttoptr | Op_Bitcast | Op_PtrAdd | Op_Select | Op_VaStart
  | Op_InlineAsm | Op_EhAllocException | Op_EhLandingPad | Op_EhSelector | Op_EhTypeId | Op_CatchBegin
  | Op_CatchEnd | Op_Trap | Op_FrameAddr | Op_ReturnAddr | Op_Jump | Op_BrIf | Op_Switch | Op_BrIndirect
  | Op_AsmGoto | Op_Ret | Op_Unreachable | Op_Throw | Op_Rethrow | Op_Resume | Op_Call | Op_CallIndirect
  | Op_Invoke | Op_InvokeIndirect | Op_TailCallIndirect.

Inductive ResultKind := Result_None | Result_Value | Result_SigDependent.
Inductive IntCond := Eq | Ne | Slt | Sle | Sgt | Sge | Ult | Ule | Ugt | Uge.
Inductive FloatCond :=
  | F_Oeq | F_One | F_Olt | F_Ole | F_Ogt | F_Oge | F_Ord | F_Uno | F_Ueq | F_Une | F_Ult | F_Ule | F_Ugt | F_Uge.
Inductive MemOrder := Relaxed | Acquire | Release | AcqRel | SeqCst.
Inductive RmwOp := Xchg | Rmw_Add | Rmw_Sub | Rmw_And | Nand | Rmw_Or | Rmw_Xor | Rmw_Max | Rmw_Min | UMax | UMin.

#[export] Instance opcode_eq_dec : EqDecision Opcode.
Proof. solve_decision. Defined.
#[export] Instance result_kind_eq_dec : EqDecision ResultKind.
Proof. solve_decision. Defined.
#[export] Instance int_cond_eq_dec : EqDecision IntCond.
Proof. solve_decision. Defined.
#[export] Instance float_cond_eq_dec : EqDecision FloatCond.
Proof. solve_decision. Defined.
#[export] Instance mem_order_eq_dec : EqDecision MemOrder.
Proof. solve_decision. Defined.
#[export] Instance rmw_op_eq_dec : EqDecision RmwOp.
Proof. solve_decision. Defined.

(** ** Traits *)

Record OpcodeTraits := mkTraits {
  mnemonic : string; operand_count : Z; is_terminator : bool; result_kind : ResultKind; has_side_effects : bool }.
Arguments mkTraits _%_string _ _ _ _.

Definition traits (op : Opcode) : OpcodeTraits :=
  match op with
  | Op_StackAlloc => mkTraits "stack_alloc" 0 false Result_Value false
  | Op_StackAllocDyn => mkTraits "stack_alloc_dyn" 1 false Result_Value true
  | Op_StackSave => mkTraits "stack_save" 0 false Result_Value false
  | Op_StackRestore => mkTraits "stack_restore" 1 false Result_None true
  | Op_Load => mkTraits "load" 1 false Result_Value false
  | Op_Store => mkTraits "store" 2 false Result_None true
  | Op_Memcpy => mkTraits "memcpy" 3 false Result_None true
  | Op_Memmove => mkTraits "memmove" 3 false Result_None true
  | Op_Memset => mkTraits "memset" 3 false Result_None true
  | Op_AtomicLoad => mkTraits "atomic_load" 1 false Result_Value true
  | Op_AtomicStore => mkTraits "atomic_store" 2 false Result_None true
  | Op_AtomicRmw => mkTraits "atomic_rmw" 2 false Result_Value true
  | Op_AtomicCas => mkTraits "atomic_cas" 3 false Result_Value true
  | Op_Fence => mkTraits "fence" 0 false Result_None true
  | Op_Iadd => mkTraits "iadd" 2 false Result_Value false
  | Op_Isub => mkTraits "isub" 2 false Result_Value false
  | Op_Imul => mkTraits "imul" 2 false Result_Value false
  | Op_Iand => mkTraits "iand" 2 false Result_Value false
  | Op_Ior => mkTraits "ior" 2 false Result_Value false
  | Op_Ixor => mkTraits "ixor" 2 false Result_Value false
  | Op_Shl => mkTraits "shl" 2 false Result_Value false
  | Op_Sdiv => mkTraits "sdiv" 2 false Result_Value false
  | Op_Udiv => mkTraits "udiv" 2 false Result_Value false
  | Op_Srem => mkTraits "srem" 2 false Result_Value false
  | Op_Urem => mkTraits "urem" 2 false Result_Value false
  | Op_Ashr => mkTraits "ashr" 2 false Result_Value false
  | Op_Lshr => mkTraits "lshr" 2 false Result_Value false
  | Op_Bswap => mkTraits "bswap" 1 false Result_Value false
  | Op_Clz => mkTraits "clz" 1 false Result_Value false
  | Op_Ctz => mkTraits "ctz" 1 false Result_Value false
  | Op_Popcnt => mkTraits "popcnt" 1 false Result_Value false
  | Op_Fadd => mkTraits "fadd" 2 false Result_Value false
  | Op_Fsub => mkTraits "fsub" 2 false Result_Value false
  | Op_Fmul => mkTraits "fmul" 2 false Result_Value false
  | Op_Fdiv => mkTraits "fdiv" 2 false Result_Value false
  | Op_Frem => mkTraits "frem" 2 false Result_Value false
  | Op_Fneg => mkTraits "fneg" 1 false Result_Value false
  | Op_Icmp => mkTraits "icmp" 2 false Result_Value false
  | Op_Fcmp => mkTraits "fcmp" 2 false Result_Value false
  | Op_Trunc => mkTraits "trunc" 1 false Result_Value false
  | Op_Zext => mkTraits "zext" 1 false Result_Value false
  | Op_Sext => mkTraits "sext" 1 false Result_Value false
  | Op_Fptrunc => mkTraits "fptrunc" 1 false Result_Value false
  | Op_Fpext => mkTraits "fpext" 1 false Result_Value false
  | Op_Fptosi => mkTraits "fptosi" 1 false Result_Value false
  | Op_Fptoui => mkTraits "fptoui" 1 false Result_Value false
  | Op_Sitofp => mkTraits "sitofp" 1 false Result_Value false
  | Op_Uitofp => mkTraits "uitofp" 1 false Result_Value false
  | Op_Ptrtoint => mkTraits "ptrtoint" 1 false Result_Value false
  | Op_Inttoptr => mkTraits "inttoptr" 1 false Result_Value false
  | Op_Bitcast => mkTraits "bitcast" 1 false Result_Value false
  | Op_PtrAdd => mkTraits "ptr_add" 2 false Result_Value false
  | Op_Select => mkTraits "select" 3 false Result_Value false
  | Op_VaStart => mkTraits "va_start" 1 false Result_None true
  | Op_InlineAsm => mkTraits "inline_asm" (-1) false Result_None true
  | Op_EhAllocException => mkTraits "eh_alloc_exception" 0 false Result_Value true
  | Op_EhLandingPad => mkTraits "eh_landing_pad" 0 false Result_Value true
  | Op_EhSelector => mkTraits "eh_selector" 1 false Result_Value false
  | Op_EhTypeId => mkTraits "eh_typeid_for" 1 false Result_Value false
  | Op_CatchBegin => mkTraits "catch_begin" 1 false Result_Value true
  | Op_CatchEnd => mkTraits "catch_end" 0 false Result_None true
  | Op_Trap => mkTraits "trap" 0 false Result_None true
  | Op_FrameAddr => mkTraits "frame_addr" 0 false Result_Value false
  | Op_ReturnAddr => mkTraits "return_addr" 0 false Result_Value false
  | Op_Jump => mkTraits "jump" 0 true Result_None true
  | Op_BrIf => mkTraits "br_if" 1 true Result_None true
  | Op_Switch => mkTraits "switch" 1 true Result_None true
  | Op_BrIndirect => mkTraits "br_indirect" 1 true Result_None true
  | Op_AsmGoto => mkTraits "asm_goto" (-1) true Result_None true
  | Op_Ret => mkTraits "ret" (-1) true Result_None true
  | Op_Unreachable => mkTraits "unreachable" 0 true Result_None true
  | Op_Throw => mkTraits "throw" (-1) true Result_None true
  | Op_Rethrow => mkTraits "rethrow" 0 true Result_None true
  | Op_Resume => mkTraits "resume" 2 true Result_None true
  | Op_Call => mkTraits "call" (-1) false Result_SigDependent true
  | Op_CallIndirect => mkTraits "call_indirect" (-1) false Result_SigDependent true
  | Op_Invoke => mkTraits "invoke" (-1) true Result_SigDependent true
  | Op_InvokeIndirect => mkTraits "invoke_indirect" (-1) true Result_SigDependent true
  | Op_TailCallIndirect => mkTraits "tail_call_indirect" (-1) true Result_None true
  end.

(** The opcodes in the order of their numbers. *)
Definition opcodes : list Opcode :=
  [Op_StackAlloc; Op_StackAllocDyn; Op_StackSave; Op_StackRestore; Op_Load; Op_Store; Op_Memcpy; Op_Memmove;
   Op_Memset; Op_AtomicLoad; Op_AtomicStore; Op_AtomicRmw; Op_AtomicCas; Op_Fence; Op_Iadd; Op_Isub; Op_Imul;
   Op_Iand; Op_Ior; Op_Ixor; Op_Shl; Op_Sdiv; Op_Udiv; Op_Srem; Op_Urem; Op_Ashr; Op_Lshr; Op_Bswap; Op_Clz;
   Op_Ctz; Op_Popcnt; Op_Fadd; Op_Fsub; Op_Fmul; Op_Fdiv; Op_Frem; Op_Fneg; Op_Icmp; Op_Fcmp; Op_Trunc;
   Op_Zext; Op_Sext; Op_Fptrunc; Op_Fpext; Op_Fptosi; Op_Fptoui; Op_Sitofp; Op_Uitofp; Op_Ptrtoint;
   Op_Inttoptr; Op_Bitcast; Op_PtrAdd; Op_Select; Op_VaStart; Op_InlineAsm; Op_EhAllocException;
   Op_EhLandingPad; Op_EhSelector; Op_EhTypeId; Op_CatchBegin; Op_CatchEnd; Op_Trap; Op_FrameAddr;
   Op_ReturnAddr; Op_Jump; Op_BrIf; Op_Switch; Op_BrIndirect; Op_AsmGoto; Op_Ret; Op_Unreachable; Op_Throw;
   Op_Rethrow; Op_Resume; Op_Call; Op_CallIndirect; Op_Invoke; Op_InvokeIndirect; Op_TailCallIndirect].

Definition opcode_count : Z := Z.of_nat (length opcodes).
Definition opcode_mnemonic (op : Opcode) : string := mnemonic (traits op).
Definition opcode_operand_count (op : Opcode) : Z := operand_count (traits op).
Definition opcode_is_terminator (op : Opcode) : bool := is_terminator (traits op).
Definition opcode_result_kind (op : Opcode) : ResultKind := result_kind (traits op).
Definition opcode_has_side_effects (op : Opcode) : bool := has_side_effects (traits op).

Definition opcode_is_cast (op : Opcode) : bool :=
  match op with
  | Op_Trunc | Op_Zext | Op_Sext | Op_Fptrunc | Op_Fpext | Op_Fptosi | Op_Fptoui | Op_Sitofp | Op_Uitofp
  | Op_Ptrtoint | Op_Inttoptr | Op_Bitcast => true
  | _ => false
  end.

(** ** Spellings *)

(** The first value of an enumeration whose spelling is the text. *)
Fixpoint from_mnemonic {A} (spelling : A -> string) (values : list A) (text : string) : option A :=
  match values with
  | [] => None
  | v :: values => if String.eqb (spelling v) text then Some v else from_mnemonic spelling values text
  end.

Definition opcode_from_mnemonic : string -> option Opcode := from_mnemonic opcode_mnemonic opcodes.

Definition int_cond_mnemonic (v : IntCond) : string :=
  match v with
  | Eq => "eq" | Ne => "ne" | Slt => "slt" | Sle => "sle" | Sgt => "sgt" | Sge => "sge" | Ult => "ult"
  | Ule => "ule" | Ugt => "ugt" | Uge => "uge"
  end%string.
Definition int_conds : list IntCond :=
  [Eq; Ne; Slt; Sle; Sgt; Sge; Ult; Ule; Ugt; Uge].
Definition int_cond_from_mnemonic : string -> option IntCond := from_mnemonic int_cond_mnemonic int_conds.

Definition float_cond_mnemonic (v : FloatCond) : string :=
  match v with
  | F_Oeq => "oeq" | F_One => "one" | F_Olt => "olt" | F_Ole => "ole" | F_Ogt => "ogt" | F_Oge => "oge"
  | F_Ord => "ord" | F_Uno => "uno" | F_Ueq => "ueq" | F_Une => "une" | F_Ult => "ult" | F_Ule => "ule"
  | F_Ugt => "ugt" | F_Uge => "uge"
  end%string.
Definition float_conds : list FloatCond :=
  [F_Oeq; F_One; F_Olt; F_Ole; F_Ogt; F_Oge; F_Ord; F_Uno; F_Ueq; F_Une; F_Ult; F_Ule; F_Ugt; F_Uge].
Definition float_cond_from_mnemonic : string -> option FloatCond := from_mnemonic float_cond_mnemonic float_conds.

Definition mem_order_mnemonic (v : MemOrder) : string :=
  match v with
  | Relaxed => "relaxed" | Acquire => "acquire" | Release => "release" | AcqRel => "acq_rel"
  | SeqCst => "seq_cst"
  end%string.
Definition mem_orders : list MemOrder :=
  [Relaxed; Acquire; Release; AcqRel; SeqCst].
Definition mem_order_from_mnemonic : string -> option MemOrder := from_mnemonic mem_order_mnemonic mem_orders.

Definition rmw_op_mnemonic (v : RmwOp) : string :=
  match v with
  | Xchg => "xchg" | Rmw_Add => "add" | Rmw_Sub => "sub" | Rmw_And => "and" | Nand => "nand" | Rmw_Or => "or"
  | Rmw_Xor => "xor" | Rmw_Max => "max" | Rmw_Min => "min" | UMax => "umax" | UMin => "umin"
  end%string.
Definition rmw_ops : list RmwOp :=
  [Xchg; Rmw_Add; Rmw_Sub; Rmw_And; Nand; Rmw_Or; Rmw_Xor; Rmw_Max; Rmw_Min; UMax; UMin].
Definition rmw_op_from_mnemonic : string -> option RmwOp := from_mnemonic rmw_op_mnemonic rmw_ops.

(** ** Auxiliary words *)

Definition INST_FLAG_VOLATILE : Z := 1.

(** The number of an enumerator and the enumerator of a number. *)
Definition enum_index {A} `{EqDecision A} (values : list A) (v : A) : Z :=
  match list_find (fun x => v = x) values with Some (i, _) => Z.of_nat i | None => 0 end.
Definition enum_at {A} (values : list A) (n : Z) : option A := values !! Z.to_nat n.

Definition pack_atomic_access_aux (order : MemOrder) (align_log2 : Z) : Z :=
  Z.lor (enum_index mem_orders order) (Z.shiftl align_log2 8).
Definition atomic_access_order (aux : Z) : option MemOrder := enum_at mem_orders (Z.land aux 255).
Definition atomic_access_align_log2 (aux : Z) : Z := u8 (Z.shiftr aux 8).
Definition pack_rmw_aux (op : RmwOp) (order : MemOrder) : Z :=
  Z.lor (enum_index rmw_ops op) (Z.shiftl (enum_index mem_orders order) 8).
Definition rmw_op (aux : Z) : option RmwOp := enum_at rmw_ops (Z.land aux 255).
Definition rmw_order (aux : Z) : option MemOrder := enum_at mem_orders (u8 (Z.shiftr aux 8)).
Definition pack_cas_aux (success failure : MemOrder) : Z :=
  Z.lor (enum_index mem_orders success) (Z.shiftl (enum_index mem_orders failure) 8).
Definition cas_success_order (aux : Z) : option MemOrder := enum_at mem_orders (Z.land aux 255).
Definition cas_failure_order (aux : Z) : option MemOrder := enum_at mem_orders (u8 (Z.shiftr aux 8)).

(** Two 32-bit halves (src/air/function.h). *)
Definition pack_pair_aux (low high : Z) : Z := Z.lor low (Z.shiftl high 32).
Definition aux_low (aux : Z) : Z := u32 aux.
Definition aux_high (aux : Z) : Z := u32 (Z.shiftr aux 32).

Definition pack_stack_alloc_aux (size_bytes align_log2 : Z) : Z :=
  Z.lor (Z.shiftl align_log2 56) (Z.land size_bytes (2 ^ 56 - 1)).
Definition stack_alloc_size (aux : Z) : Z := Z.land aux (2 ^ 56 - 1).
Definition stack_alloc_align_log2 (aux : Z) : Z := u8 (Z.shiftr aux 56).

(** ** Spellings and packed words are read back *)

(** Every opcode, condition, memory order and read-modify-write operation is read
    back from its spelling. *)
Lemma mnemonics_read_back_spec :
  (forall op, opcode_from_mnemonic (opcode_mnemonic op) = Some op) /\
  (forall c, int_cond_from_mnemonic (int_cond_mnemonic c) = Some c) /\
  (forall c, float_cond_from_mnemonic (float_cond_mnemonic c) = Some c) /\
  (forall o, mem_order_from_mnemonic (mem_order_mnemonic o) = Some o) /\
  (forall o, rmw_op_from_mnemonic (rmw_op_mnemonic o) = Some o).
Proof. by repeat split; intros []; vm_compute. Qed.

(** The halves of a packed word are read back. *)
Lemma aux_low_pack low high : word 32 low -> 0 <= high -> aux_low (pack_pair_aux low high) = low.
Proof.
  intros Hl Hh. unfold aux_low, pack_pair_aux, uwrap. rewrite <- Z.land_ones by lia.
  apply Z.bits_inj'. intros i Hi. rewrite Z.land_spec, Z.lor_spec, Z.shiftl_spec by done.
  destruct (Z.ltb_spec i 32).
  - rewrite Z.ones_spec_low, (Z.testbit_neg_r high) by lia. by rewrite orb_false_r, andb_true_r.
  - rewrite Z.ones_spec_high by lia. rewrite andb_false_r. symmetry. apply Z.bits_above_log2; [apply Hl|].
    destruct (decide (low = 0)) as [->|]; [cbn; lia|].
    apply Z.lt_le_trans with 32; [|done]. apply Z.log2_lt_pow2; unfold word in Hl; lia.
Qed.
Lemma aux_high_pack low high : word 32 low -> word 32 high -> aux_high (pack_pair_aux low high) = high.
Proof.
  intros Hl Hh. unfold aux_high, pack_pair_aux. rewrite Z.shiftr_lor, Z.shiftr_shiftl_l by lia.
  replace (Z.shiftr low 32) with 0 by (rewrite Z.shiftr_div_pow2 by lia; symmetry; apply Z.div_small, Hl).
  replace (32 - 32) with 0 by lia. rewrite Z.lor_0_l, Z.shiftl_0_r. by apply Z.mod_small.
Qed.
