(* ===== verification/AirTypes.v ===== *)
(** * The types of the AIR (src/air/types.h, src/air/types.cpp)

    Types and signatures are interned: a table keeps each once, and an index of
    the table is as good as the type. The interning of a vector through a
    multimap of hashes is one definition with its lemmas, shared with the
    constants of functions ([AirFunction]). Ids are 32-bit indices; a table that
    has 2^32 entries is full, and the operation has no result. *)
From S2P Require Import Prelude Vectors.
Open Scope Z_scope.

(** ** Interning *)

(** The entries of a multimap with a key. The standard leaves the order of equal
    keys open; the invariant below makes the answer independent of it. *)
Definition equal_range (lookup : list (Z * Z)) (h : Z) : list Z :=
  map snd (filter (fun entry => entry.1 = h) lookup).

Definition hash_combine (seed value : Z) : Z :=
  Z.lxor seed (u64 (value + 0x9e3779b97f4a7c15 + u64 (Z.shiftl seed 12) + Z.shiftr seed 4)).

Section Intern.
Context {A : Type} (hash : A -> Z) (equals : A -> A -> bool).

(** The loop over [equal_range]. *)
Fixpoint first_equal (arena : list A) (data : A) (candidates : list Z) : option Z :=
  match candidates with
  | [] => None
  | i :: candidates =>
      match at_ arena i with
      | Some cand => if equals cand data then Some i else first_equal arena data candidates
      | None => first_equal arena data candidates
      end
  end.

Definition intern_in (arena : list A) (lookup : list (Z * Z)) (data : A)
    : option (Z * (list A * list (Z * Z))) :=
  let h := hash data in
  match first_equal arena data (equal_range lookup h) with
  | Some i => Some (i, (arena, lookup))
  | None =>
      id ← next_id arena;
      Some (id, (arena ++ [data], lookup ++ [(h, id)]))
  end.

(** The index [i] of the arena is interned. *)
Definition interned (lookup : list (Z * Z)) (i : Z) : Prop := i ∈ map snd lookup.

Record interning_ok (arena : list A) (lookup : list (Z * Z)) : Prop := {
  io_hash : forall h i, (h, i) ∈ lookup -> exists a, at_ arena i = Some a /\ h = hash a;
  io_unique : forall i j a, interned lookup i -> interned lookup j ->
    at_ arena i = Some a -> at_ arena j = Some a -> i = j }.

Hypothesis equals_spec : forall a b, equals a b = true <-> a = b.

Lemma elem_of_equal_range lookup h i : i ∈ equal_range lookup h <-> (h, i) ∈ lookup.
Proof using.
  unfold equal_range. rewrite list_elem_of_fmap. split.
  - intros [[h' i'] [-> [Hh Hin]%list_elem_of_filter]]. cbn in *. by subst.
  - intros Hin. exists (h, i). split; [done|]. by apply list_elem_of_filter.
Qed.

Lemma interned_iff lookup i : interned lookup i <-> exists h, (h, i) ∈ lookup.
Proof using.
  unfold interned. rewrite list_elem_of_fmap. split.
  - intros [[h j] [-> Hin]]. by exists h.
  - intros [h Hin]. by exists (h, i).
Qed.

Lemma interned_in_range arena lookup i : interning_ok arena lookup -> interned lookup i -> 0 <= i < size arena.
Proof using. intros Hok [h Hin]%interned_iff. destruct (io_hash _ _ Hok _ _ Hin) as (a & Ha & _). by eapply at_lt. Qed.

Lemma first_equal_some arena data candidates i :
  first_equal arena data candidates = Some i -> i ∈ candidates /\ at_ arena i = Some data.
Proof using equals_spec.
  induction candidates as [|j candidates IH]; [done|]. cbn.
  destruct (at_ arena j) as [cand|] eqn:Hj.
  - destruct (equals cand data) eqn:E.
    + intros [= <-]. apply equals_spec in E. subst. split; [left|done].
    + intros H. destruct (IH H) as [Hin Ha]. split; [by right|done].
  - intros H. destruct (IH H) as [Hin Ha]. split; [by right|done].
Qed.

Lemma first_equal_none arena data candidates i :
  first_equal arena data candidates = None -> i ∈ candidates -> at_ arena i <> Some data.
Proof using equals_spec.
  induction candidates as [|j candidates IH]; [by intros _ ?%elem_of_nil|]. cbn.
  intros H Hin. apply elem_of_cons in Hin.
  destruct (at_ arena j) as [cand|] eqn:Hj.
  - destruct (equals cand data) eqn:E; [done|]. destruct Hin as [->|Hin]; [|by apply IH].
    rewrite Hj. intros [= ->]. assert (equals data data = true) by by apply equals_spec. congruence.
  - destruct Hin as [->|Hin]; [congruence|by apply IH].
Qed.

(** Interning: the element is at the returned index, the arena only grows, the
    invariant is kept, and an element already interned is found. *)
Lemma intern_in_spec arena lookup data i arena' lookup' :
  interning_ok arena lookup ->
  intern_in arena lookup data = Some (i, (arena', lookup')) ->
  interning_ok arena' lookup' /\ interned lookup' i /\ at_ arena' i = Some data /\
  ((arena' = arena /\ lookup' = lookup) \/
   (arena' = arena ++ [data] /\ lookup' = lookup ++ [(hash data, i)] /\ i = size arena /\
    forall j, interned lookup j -> at_ arena j <> Some data)).
Proof using equals_spec.
  intros Hok Hi. unfold intern_in in Hi.
  destruct (first_equal _ _ _) as [j|] eqn:E.
  - injection Hi as <- <- <-. destruct (first_equal_some _ _ _ _ E) as [Hin Ha].
    apply elem_of_equal_range in Hin. split; [done|]. split; [apply interned_iff; eauto|]. split; [done|by left].
  - destruct (next_id arena) as [id|] eqn:Hid; [|done]. cbn in Hi. injection Hi as <- <- <-.
    apply next_id_some in Hid. subst id.
    assert (Hfresh : forall j, interned lookup j -> at_ arena j <> Some data).
    { intros j [h Hin]%interned_iff Hj. destruct (io_hash _ _ Hok _ _ Hin) as (a & Ha & ->).
      assert (a = data) as -> by congruence.
      eapply first_equal_none; [exact E| by apply elem_of_equal_range |done]. }
    assert (Hint : forall j, interned (lookup ++ [(hash data, size arena)]) j ->
              interned lookup j \/ j = size arena).
    { intros j. unfold interned. rewrite map_app, elem_of_app. cbn. rewrite list_elem_of_singleton. done. }
    split; [split|split; [|split; [apply at_snoc|right; done]]].
    + intros h j Hin. apply elem_of_app in Hin as [Hin|Hin%list_elem_of_singleton].
      * destruct (io_hash _ _ Hok _ _ Hin) as (a & Ha & Hh). exists a. split; [by apply at_app_l|done].
      * injection Hin as -> ->. exists data. split; [apply at_snoc|done].
    + assert (Hcases : forall j a, interned (lookup ++ [(hash data, size arena)]) j ->
        at_ (arena ++ [data]) j = Some a ->
        (interned lookup j /\ at_ arena j = Some a) \/ (j = size arena /\ a = data)).
      { intros j a Hj Ha. apply Hint in Hj as [Hj| ->].
        - left. split; [done|]. pose proof (interned_in_range _ _ _ Hok Hj) as Hr.
          apply at_snoc_inv in Ha as [?|[-> _]]; [done|lia].
        - right. split; [done|]. rewrite at_snoc in Ha. congruence. }
      intros j k a Hj Hk Ha Hb.
      destruct (Hcases _ _ Hj Ha) as [[H1 H2]|[-> ->]], (Hcases _ _ Hk Hb) as [[H3 H4]|[-> H4]]; subst.
      * eapply io_unique; eauto.
      * exfalso. by eapply Hfresh.
      * exfalso. by eapply Hfresh.
      * done.
    + apply interned_iff. exists (hash data). apply elem_of_app. right. by apply list_elem_of_singleton.
Qed.

(** An interned element is found again, and nothing changes. *)
Lemma intern_in_again arena lookup data i :
  interning_ok arena lookup -> interned lookup i -> at_ arena i = Some data ->
  intern_in arena lookup data = Some (i, (arena, lookup)).
Proof using equals_spec.
  intros Hok Hi Ha. unfold intern_in.
  destruct (first_equal _ _ _) as [j|] eqn:E.
  - destruct (first_equal_some _ _ _ _ E) as [Hin Hj]. apply elem_of_equal_range in Hin.
    assert (interned lookup j) by (apply interned_iff; eauto).
    by rewrite (io_unique _ _ Hok i j data).
  - exfalso. pose proof Hi as [h Hin]%interned_iff. destruct (io_hash _ _ Hok _ _ Hin) as (a & Ha' & ->).
    assert (a = data) as -> by congruence.
    eapply first_equal_none; [exact E| by apply elem_of_equal_range |done].
Qed.
End Intern.

(** ** Types and signatures (src/air/types.h) *)

Abbreviation TypeId := Z.
Abbreviation SigId := Z.

Inductive TypeKind := Kind_Void | Kind_Int | Kind_Float | Kind_Ptr.
Inductive FloatKind := F32 | F64 | F128 | F80.
Record TypeData := mkType { kind : TypeKind; float_kind : FloatKind; type_int_width : Z; address_space : Z }.

Inductive RetClass := Ret_Void | Ret_Scalar | IntPair | Hfa | IndirectSret.
Inductive ParamRole := Normal | Sret | IndirectByval | StackByval.
Record SigParam := mkParam {
  param_type : TypeId; role : ParamRole; byval_size : Z; byval_align : Z; coerce_group : Z }.
Record SigData := mkSig {
  ret_class : RetClass; ret_type : TypeId; ret_count : Z; ret_sse_mask : Z; params : list SigParam;
  is_variadic : bool; fixed_param_count : Z }.

#[export] Instance type_kind_eq_dec : EqDecision TypeKind.
Proof. solve_decision. Defined.
#[export] Instance float_kind_eq_dec : EqDecision FloatKind.
Proof. solve_decision. Defined.
#[export] Instance type_data_eq_dec : EqDecision TypeData.
Proof. solve_decision. Defined.
#[export] Instance ret_class_eq_dec : EqDecision RetClass.
Proof. solve_decision. Defined.
#[export] Instance param_role_eq_dec : EqDecision ParamRole.
Proof. solve_decision. Defined.
#[export] Instance sig_param_eq_dec : EqDecision SigParam.
Proof. solve_decision. Defined.

(** [TypeData data;] and [SigData sig;] *)
Definition default_type : TypeData := mkType Kind_Void F64 0 0.
Definition default_sig : SigData := mkSig Ret_Void 0 0 0 [] false 0.

Definition VOID : TypeId := 1.
Definition I8 : TypeId := 2.
Definition I16 : TypeId := 3.
Definition I32 : TypeId := 4.
Definition I64 : TypeId := 5.
Definition I128 : TypeId := 6.
Definition TF32 : TypeId := 7.
Definition TF64 : TypeId := 8.
Definition TF128 : TypeId := 9.
Definition PTR : TypeId := 10.
Definition TF80 : TypeId := 11.

Definition kind_number (k : TypeKind) : Z :=
  match k with Kind_Void => 0 | Kind_Int => 1 | Kind_Float => 2 | Kind_Ptr => 3 end.
Definition float_kind_number (k : FloatKind) : Z := match k with F32 => 0 | F64 => 1 | F128 => 2 | F80 => 3 end.
Definition ret_class_number (c : RetClass) : Z :=
  match c with Ret_Void => 0 | Ret_Scalar => 1 | IntPair => 2 | Hfa => 3 | IndirectSret => 4 end.
Definition role_number (r : ParamRole) : Z :=
  match r with Normal => 0 | Sret => 1 | IndirectByval => 2 | StackByval => 3 end.

(** ** The table (src/air/types.cpp) *)

Definition hash_type (data : TypeData) : Z :=
  fold_left hash_combine
    [kind_number (kind data); float_kind_number (float_kind data); type_int_width data; address_space data] 0x11.

Definition type_equals (a b : TypeData) : bool :=
  bool_decide (kind a = kind b) && bool_decide (float_kind a = float_kind b) &&
  (type_int_width a =? type_int_width b) && (address_space a =? address_space b).

Definition hash_sig (sig : SigData) : Z :=
  let h := fold_left hash_combine
    [ret_class_number (ret_class sig); ret_type sig; ret_count sig; Z.b2z (is_variadic sig);
     fixed_param_count sig; ret_sse_mask sig] 0x51 in
  fold_left (fun h param =>
    fold_left hash_combine
      [param_type param; role_number (role param); byval_size param; byval_align param; coerce_group param] h)
    (params sig) h.

Definition sig_equals (a b : SigData) : bool :=
  bool_decide (ret_class a = ret_class b) && (ret_type a =? ret_type b) && (ret_count a =? ret_count b) &&
  (ret_sse_mask a =? ret_sse_mask b) && Bool.eqb (is_variadic a) (is_variadic b) &&
  (fixed_param_count a =? fixed_param_count b) && bool_decide (params a = params b).

Record TypeTable := mkTable {
  types_ : list TypeData; sigs_ : list SigData; type_lookup_ : list (Z * Z); sig_lookup_ : list (Z * Z) }.

Definition intern (t : TypeTable) (data : TypeData) : option (TypeId * TypeTable) :=
  '(id, (types, lookup)) ← intern_in hash_type type_equals (types_ t) (type_lookup_ t) data;
  Some (id, mkTable types (sigs_ t) lookup (sig_lookup_ t)).

Definition get_int (t : TypeTable) (bit_width : Z) : option (TypeId * TypeTable) :=
  intern t (mkType Kind_Int F64 bit_width 0).
Definition get_float (t : TypeTable) (kind : FloatKind) : option (TypeId * TypeTable) :=
  intern t (mkType Kind_Float kind 0 0).
Definition get_ptr (t : TypeTable) (address_space : Z) : option (TypeId * TypeTable) :=
  intern t (mkType Kind_Ptr F64 0 address_space).

(** [TypeTable::TypeTable]: the predefined types, in the order of their constants. *)
Definition predefined_types : list (TypeData * TypeId) :=
  [(mkType Kind_Void F64 0 0, VOID); (mkType Kind_Int F64 8 0, I8); (mkType Kind_Int F64 16 0, I16);
   (mkType Kind_Int F64 32 0, I32); (mkType Kind_Int F64 64 0, I64); (mkType Kind_Int F64 128 0, I128);
   (mkType Kind_Float F32 0 0, TF32); (mkType Kind_Float F64 0 0, TF64); (mkType Kind_Float F128 0 0, TF128);
   (mkType Kind_Ptr F64 0 0, PTR); (mkType Kind_Float F80 0 0, TF80)].

(** [put]: an assertion stops the constructor when an id is not the constant. *)
Definition put_type (t : option TypeTable) (entry : TypeData * TypeId) : option TypeTable :=
  t ← t;
  '(id, t) ← intern t entry.1;
  if id =? entry.2 then Some t else None.
Definition new_table : option TypeTable :=
  fold_left put_type predefined_types (Some (mkTable [default_type] [default_sig] [] [])).

Definition normalize_sig (sig : SigData) : SigData :=
  if is_variadic sig then sig
  else mkSig (ret_class sig) (ret_type sig) (ret_count sig) (ret_sse_mask sig) (params sig) false
         (u32 (size (params sig))).
Definition get_signature (t : TypeTable) (sig : SigData) : option (SigId * TypeTable) :=
  '(id, (sigs, lookup)) ← intern_in hash_sig sig_equals (sigs_ t) (sig_lookup_ t) (normalize_sig sig);
  Some (id, mkTable (types_ t) sigs (type_lookup_ t) lookup).
Definition get_signature_of (t : TypeTable) (ret_class : RetClass) (ret_type : TypeId) (ret_count : Z)
    (params : list SigParam) (is_variadic : bool) (fixed_param_count : Z) : option (SigId * TypeTable) :=
  get_signature t (mkSig ret_class ret_type ret_count 0 params is_variadic
    (if is_variadic then fixed_param_count else u32 (size params))).

Definition type_valid (t : TypeTable) (id : TypeId) : bool := (0 <? id) && (id <? size (types_ t)).
Definition type (t : TypeTable) (id : TypeId) : option TypeData :=
  if type_valid t id then at_ (types_ t) id else None.
Definition signature (t : TypeTable) (id : SigId) : option SigData :=
  if (0 <? id) && (id <? size (sigs_ t)) then at_ (sigs_ t) id else None.

Definition is_int (t : TypeTable) (id : TypeId) : option bool :=
  data ← type t id; Some (bool_decide (kind data = Kind_Int)).
Definition is_float (t : TypeTable) (id : TypeId) : option bool :=
  data ← type t id; Some (bool_decide (kind data = Kind_Float)).
Definition is_scalar (t : TypeTable) (id : TypeId) : option bool :=
  data ← type t id; Some (negb (bool_decide (kind data = Kind_Void))).
Definition int_width (t : TypeTable) (id : TypeId) : option Z :=
  data ← type t id; Some (type_int_width data).

Definition byte_size (t : TypeTable) (id : TypeId) (ptr_size_bytes : Z) : option Z :=
  data ← type t id;
  Some (match kind data with
        | Kind_Void => 0
        | Kind_Int => (type_int_width data + 7) / 8
        | Kind_Float => match float_kind data with F32 => 4 | F64 => 8 | F128 | F80 => 16 end
        | Kind_Ptr => ptr_size_bytes
        end).

Definition spelling (t : TypeTable) (id : TypeId) : option chars :=
  data ← type t id;
  Some (match kind data with
        | Kind_Void => str "void"
        | Kind_Int => str "i" ++ to_digits 10 (type_int_width data)
        | Kind_Float =>
            match float_kind data with F32 => str "f32" | F64 => str "f64" | F128 => str "f128" | F80 => str "f80" end
        | Kind_Ptr =>
            if address_space data =? 0 then str "ptr"
            else str "ptr(" ++ to_digits 10 (address_space data) ++ str ")"
        end).

(** ** The invariant of the table *)

Lemma type_equals_spec a b : type_equals a b = true <-> a = b.
Proof.
  unfold type_equals. rewrite !andb_true_iff, !bool_decide_eq_true, !Z.eqb_eq. destruct a, b; cbn.
  split; [intros [[[-> ->] ->] ->]; done|intros [= -> -> -> ->]; done].
Qed.
Lemma sig_equals_spec a b : sig_equals a b = true <-> a = b.
Proof.
  unfold sig_equals. rewrite !andb_true_iff, !bool_decide_eq_true, !Z.eqb_eq, eqb_true_iff. destruct a, b; cbn.
  split; [intros [[[[[[-> ->] ->] ->] ->] ->] ->]; done|intros [= -> -> -> -> -> -> ->]; done].
Qed.

(** Every entry but the null one is interned. *)
Record table_ok (t : TypeTable) : Prop := {
  tk_types : interning_ok hash_type (types_ t) (type_lookup_ t);
  tk_sigs : interning_ok hash_sig (sigs_ t) (sig_lookup_ t);
  tk_all_types : forall i, interned (type_lookup_ t) i <-> 0 < i < size (types_ t);
  tk_all_sigs : forall i, interned (sig_lookup_ t) i <-> 0 < i < size (sigs_ t);
  tk_null : 0 < size (types_ t) /\ 0 < size (sigs_ t) }.

(** [t'] has the types and signatures of [t], at the same ids. *)
Definition extends (t t' : TypeTable) : Prop := types_ t `prefix_of` types_ t' /\ sigs_ t `prefix_of` sigs_ t'.

Lemma extends_type t t' id data : extends t t' -> type t id = Some data -> type t' id = Some data.
Proof.
  intros [[w Hw] _]. unfold type, type_valid. rewrite Hw, size_app.
  destruct ((0 <? id) && (id <? size (types_ t))) eqn:E; [|done]. intros Ha. pose proof (size_nonneg w).
  replace (_ && _) with true by (symmetry; apply andb_true_iff; lia). by apply at_app_l.
Qed.

(** What interning adds to a fully interned arena. *)
Lemma all_interned_snoc {A} (arena : list A) lookup h :
  (forall i, interned lookup i <-> 0 < i < size arena) -> 0 < size arena ->
  forall a i, interned (lookup ++ [(h, size arena)]) i <-> 0 < i < size (arena ++ [a]).
Proof.
  intros Hall H0 a i. unfold interned in *. rewrite size_app, map_app, elem_of_app, Hall. cbn.
  rewrite list_elem_of_singleton. change (size [a]) with 1. lia.
Qed.

Lemma intern_spec t data id t' :
  table_ok t -> intern t data = Some (id, t') ->
  table_ok t' /\ extends t t' /\ type t' id = Some data.
Proof.
  intros Hok. unfold intern. destruct (intern_in _ _ _ _ _) as [[i [ts lk]]|] eqn:E; [|done].
  cbn. intros [= <- <-]. destruct Hok as [H1 H2 H3 H4 [H5 H6]].
  destruct (intern_in_spec _ _ type_equals_spec _ _ _ _ _ _ H1 E) as (Ho & Hi & Ha & Hch).
  assert (Hall : forall j, interned lk j <-> 0 < j < size ts).
  { destruct Hch as [[-> ->]|(-> & -> & -> & _)]; [done|]. by apply all_interned_snoc. }
  assert (Hsz : types_ t `prefix_of` ts) by (destruct Hch as [[-> _]|(-> & _)]; [done|by apply prefix_app_r]).
  split; [|split].
  - split; cbn; try done. split; [|done]. destruct Hsz as [w ->]. rewrite size_app. pose proof (size_nonneg w). lia.
  - by split; cbn.
  - unfold type, type_valid. cbn. apply Hall in Hi.
    replace (_ && _) with true by (symmetry; apply andb_true_iff; lia). done.
Qed.

Lemma get_signature_spec t sig id t' :
  table_ok t -> get_signature t sig = Some (id, t') ->
  table_ok t' /\ extends t t' /\ signature t' id = Some (normalize_sig sig).
Proof.
  intros Hok. unfold get_signature. destruct (intern_in _ _ _ _ _) as [[i [ts lk]]|] eqn:E; [|done].
  cbn. intros [= <- <-]. destruct Hok as [H1 H2 H3 H4 [H5 H6]].
  destruct (intern_in_spec _ _ sig_equals_spec _ _ _ _ _ _ H2 E) as (Ho & Hi & Ha & Hch).
  assert (Hall : forall j, interned lk j <-> 0 < j < size ts).
  { destruct Hch as [[-> ->]|(-> & -> & -> & _)]; [done|]. by apply all_interned_snoc. }
  assert (Hsz : sigs_ t `prefix_of` ts) by (destruct Hch as [[-> _]|(-> & _)]; [done|by apply prefix_app_r]).
  split; [|split].
  - split; cbn; try done. split; [done|]. destruct Hsz as [w ->]. rewrite size_app. pose proof (size_nonneg w). lia.
  - by split; cbn.
  - unfold signature. cbn. apply Hall in Hi.
    replace (_ && _) with true by (symmetry; apply andb_true_iff; lia). done.
Qed.

Lemma type_id_unique t i j data : table_ok t -> type t i = Some data -> type t j = Some data -> i = j.
Proof.
  intros Hok. unfold type, type_valid.
  destruct ((0 <? i) && (i <? _)) eqn:Ei, ((0 <? j) && (j <? _)) eqn:Ej; try done. intros Hi Hj.
  eapply (io_unique _ _ _ (tk_types _ Hok)); [apply (tk_all_types _ Hok)|apply (tk_all_types _ Hok)|exact Hi|exact Hj];
    ztests; lia.
Qed.
Lemma signature_id_unique t i j sig :
  table_ok t -> signature t i = Some sig -> signature t j = Some sig -> i = j.
Proof.
  intros Hok. unfold signature.
  destruct ((0 <? i) && (i <? _)) eqn:Ei, ((0 <? j) && (j <? _)) eqn:Ej; try done. intros Hi Hj.
  eapply (io_unique _ _ _ (tk_sigs _ Hok)); [apply (tk_all_sigs _ Hok)|apply (tk_all_sigs _ Hok)|exact Hi|exact Hj];
    ztests; lia.
Qed.

Lemma new_table_ok : exists t, new_table = Some t /\ table_ok t /\
  forall entry, entry ∈ predefined_types -> type t entry.2 = Some entry.1.
Proof.
  assert (H0 : table_ok (mkTable [default_type] [default_sig] [] [])).
  { split; [split|split| | |done].
    - by intros h i ?%elem_of_nil.
    - by intros i j a ?%elem_of_nil.
    - by intros h i ?%elem_of_nil.
    - by intros i j a ?%elem_of_nil.
    - intros i. unfold interned, size. cbn. split; [by intros ?%elem_of_nil|lia].
    - intros i. unfold interned, size. cbn. split; [by intros ?%elem_of_nil|lia]. }
  assert (Hput : forall l t t', table_ok t -> fold_left put_type l (Some t) = Some t' ->
            table_ok t' /\ extends t t' /\ forall entry, entry ∈ l -> type t' entry.2 = Some entry.1).
  { induction l as [|e l IH]; intros t t' Ht Hf; cbn in Hf.
    - injection Hf as <-. split; [done|]. split; [by split|]. by intros ? ?%elem_of_nil.
    - destruct (intern t e.1) as [[id t1]|] eqn:E; cbn in Hf; cycle 1.
      { clear -Hf. exfalso. induction l; [done|by apply IHl]. }
      destruct (id =? e.2) eqn:Eid; cycle 1.
      { clear -Hf. exfalso. induction l; [done|by apply IHl]. }
      apply Z.eqb_eq in Eid. subst id.
      destruct (intern_spec _ _ _ _ Ht E) as (Ht1 & [X1 X2] & Hty).
      destruct (IH _ _ Ht1 Hf) as (Ht' & [Y1 Y2] & Hall). split; [done|].
      split; [by split; etrans|]. intros entry [->|Hin]%elem_of_cons; [|by apply Hall].
      by eapply extends_type. }
  destruct new_table as [t|] eqn:E; [|vm_compute in E; discriminate].
  exists t. split; [reflexivity|]. destruct (Hput _ _ _ H0 E) as (Ht & _ & Hall). exact (conj Ht Hall).
Qed.

Definition initial_table : TypeTable :=
  match new_table with Some t => t | None => mkTable [] [] [] [] end.
Lemma initial_table_ok : table_ok initial_table.
Proof. destruct new_table_ok as (t & E & Ht & _). unfold initial_table. by rewrite E. Qed.

(** Claim C36: The ids of types and signatures are as good as what they stand for: the table
    starts with the predefined types at their constants; interning returns an id
    of what was interned and keeps every earlier id; asked again, later, it gives
    the same id; and two valid ids are equal exactly when they stand for equal
    types, or equal signatures. *)
Theorem interned_ids_unique :
  (exists t, new_table = Some t /\ table_ok t /\
     forall entry, entry ∈ predefined_types -> type t entry.2 = Some entry.1) /\
  (forall t data id t1, table_ok t -> intern t data = Some (id, t1) ->
     table_ok t1 /\ extends t t1 /\ type t1 id = Some data /\
     forall t2, table_ok t2 -> extends t1 t2 -> intern t2 data = Some (id, t2)) /\
  (forall t sig id t1, table_ok t -> get_signature t sig = Some (id, t1) ->
     table_ok t1 /\ extends t t1 /\ signature t1 id = Some (normalize_sig sig)) /\
  (forall t i j data data', table_ok t -> type t i = Some data -> type t j = Some data' ->
     (i = j <-> data = data')) /\
  (forall t i j sig sig', table_ok t -> signature t i = Some sig -> signature t j = Some sig' ->
     (i = j <-> sig = sig')).
Proof.
  split; [exact new_table_ok|]. split; [|split; [intros *; apply get_signature_spec|split]].
  - intros t data id t1 Ht E. destruct (intern_spec _ _ _ _ Ht E) as (H1 & H2 & H3).
    split_and!; try done. intros t2 Ht2 Hx. pose proof (extends_type _ _ _ _ Hx H3) as Hty.
    unfold intern. unfold type, type_valid in Hty. destruct (_ && _) eqn:Ev; [|done]. ztests.
    rewrite (intern_in_again _ _ type_equals_spec _ _ _ id); [by destruct t2|apply Ht2|by apply Ht2|done].
  - intros t i j d d' Ht Hi Hj. split; [congruence|]. intros <-. by eapply type_id_unique.
  - intros t i j d d' Ht Hi Hj. split; [congruence|]. intros <-. by eapply signature_id_unique.
Qed.
