(* ===== verification/AirFunction.v ===== *)
(** * Functions of the AIR (src/air/function.h, src/air/function.cpp)

    A [Function] is a set of arenas indexed by 32-bit ids, whose entry 0 is the
    null one: instructions and blocks, which the ids of their neighbours link into
    lists; values; calls of blocks, with the targets and arguments of jumps; and
    pools of operands and block parameters. An operation whose assertion fails,
    or that reads a vector out of its bounds, has no result. Names of values,
    source locations, and the name, linkage and attributes of the function are
    left out: no operation modelled here reads them. *)
From S2P Require Import Prelude Vectors AirInsts AirTypes.
Open Scope Z_scope.

(** ** Data *)

Abbreviation ValueId := Z.
Abbreviation InstId := Z.
Abbreviation BlockId := Z.
Abbreviation BlockCallId := Z.

(** [id.is_valid()] *)
Definition id_ok (id : Z) : bool := negb (id =? 0).

Inductive ValueKind := InstResult | BlockParam | ConstInt | ConstFloat | ConstNull | Undef | GlobalAddr | FuncAddr
  | LabelAddr.
#[export] Instance value_kind_eq_dec : EqDecision ValueKind.
Proof. solve_decision. Defined.

Record ValueData := mkValue { value_kind : ValueKind; value_ty : TypeId; payload : Z; payload2 : Z }.

Record InstData := mkInst {
  op : Opcode; flags : Z; inst_type : TypeId; op_begin : Z; op_count : Z; aux : Z; aux2 : Z;
  result : ValueId; inst_block : BlockId; inst_prev : InstId; inst_next : InstId }.

Record BlockData := mkBlock {
  first : InstId; last_inst : InstId; param_begin : Z; param_count : Z; block_prev : BlockId; block_next : BlockId }.

Record BlockCall := mkCall { target : BlockId; arg_begin : Z; arg_count : Z }.
Record SwitchCase := mkCase { case_value : Z; case_target : BlockCallId }.

Definition default_value : ValueData := mkValue Undef 0 0 0.
Definition default_inst : InstData := mkInst Op_Unreachable 0 0 0 0 0 0 0 0 0 0.
Definition default_block : BlockData := mkBlock 0 0 0 0 0 0.
Definition default_call : BlockCall := mkCall 0 0 0.

Record Function := mkFunction {
  entry_block_ : BlockId; last_block_ : BlockId;
  insts_ : list InstData; blocks_ : list BlockData; values_ : list ValueData; block_calls_ : list BlockCall;
  operand_pool_ : list ValueId; block_param_pool_ : list ValueId;
  jump_tables_ : list (list SwitchCase); block_call_lists_ : list (list BlockCallId);
  constant_lookup_ : list (Z * Z) }.

(** [Function::Function] *)
Definition new_function : Function :=
  mkFunction 0 0 [default_inst] [default_block] [default_value] [default_call] [] [] [] [] [].

(** *** Assignments of one field *)

Definition set_links (p n : InstId) (d : InstData) : InstData :=
  mkInst (op d) (flags d) (inst_type d) (op_begin d) (op_count d) (aux d) (aux2 d) (result d) (inst_block d) p n.
Definition set_prev (p : InstId) (d : InstData) : InstData := set_links p (inst_next d) d.
Definition set_next (n : InstId) (d : InstData) : InstData := set_links (inst_prev d) n d.
Definition set_block (b : BlockId) (d : InstData) : InstData :=
  mkInst (op d) (flags d) (inst_type d) (op_begin d) (op_count d) (aux d) (aux2 d) (result d) b
    (inst_prev d) (inst_next d).
Definition set_type (t : TypeId) (d : InstData) : InstData :=
  mkInst (op d) (flags d) t (op_begin d) (op_count d) (aux d) (aux2 d) (result d) (inst_block d)
    (inst_prev d) (inst_next d).
Definition set_first (i : InstId) (d : BlockData) : BlockData :=
  mkBlock i (last_inst d) (param_begin d) (param_count d) (block_prev d) (block_next d).
Definition set_last (i : InstId) (d : BlockData) : BlockData :=
  mkBlock (first d) i (param_begin d) (param_count d) (block_prev d) (block_next d).
Definition set_params (b n : Z) (d : BlockData) : BlockData :=
  mkBlock (first d) (last_inst d) b n (block_prev d) (block_next d).
Definition set_block_links (p n : BlockId) (d : BlockData) : BlockData :=
  mkBlock (first d) (last_inst d) (param_begin d) (param_count d) p n.

Definition with_insts (v : list InstData) (f : Function) : Function :=
  mkFunction (entry_block_ f) (last_block_ f) v (blocks_ f) (values_ f) (block_calls_ f) (operand_pool_ f)
    (block_param_pool_ f) (jump_tables_ f) (block_call_lists_ f) (constant_lookup_ f).
Definition with_blocks (v : list BlockData) (f : Function) : Function :=
  mkFunction (entry_block_ f) (last_block_ f) (insts_ f) v (values_ f) (block_calls_ f) (operand_pool_ f)
    (block_param_pool_ f) (jump_tables_ f) (block_call_lists_ f) (constant_lookup_ f).
Definition with_ends (entry last : BlockId) (f : Function) : Function :=
  mkFunction entry last (insts_ f) (blocks_ f) (values_ f) (block_calls_ f) (operand_pool_ f)
    (block_param_pool_ f) (jump_tables_ f) (block_call_lists_ f) (constant_lookup_ f).
Definition with_values (v : list ValueData) (lookup : list (Z * Z)) (f : Function) : Function :=
  mkFunction (entry_block_ f) (last_block_ f) (insts_ f) (blocks_ f) v (block_calls_ f) (operand_pool_ f)
    (block_param_pool_ f) (jump_tables_ f) (block_call_lists_ f) lookup.
Definition with_calls (v : list BlockCall) (f : Function) : Function :=
  mkFunction (entry_block_ f) (last_block_ f) (insts_ f) (blocks_ f) (values_ f) v (operand_pool_ f)
    (block_param_pool_ f) (jump_tables_ f) (block_call_lists_ f) (constant_lookup_ f).
Definition with_pool (v : list ValueId) (f : Function) : Function :=
  mkFunction (entry_block_ f) (last_block_ f) (insts_ f) (blocks_ f) (values_ f) (block_calls_ f) v
    (block_param_pool_ f) (jump_tables_ f) (block_call_lists_ f) (constant_lookup_ f).
Definition with_param_pool (v : list ValueId) (f : Function) : Function :=
  mkFunction (entry_block_ f) (last_block_ f) (insts_ f) (blocks_ f) (values_ f) (block_calls_ f) (operand_pool_ f)
    v (jump_tables_ f) (block_call_lists_ f) (constant_lookup_ f).
Definition with_tables (t : list (list SwitchCase)) (l : list (list BlockCallId)) (f : Function) : Function :=
  mkFunction (entry_block_ f) (last_block_ f) (insts_ f) (blocks_ f) (values_ f) (block_calls_ f) (operand_pool_ f)
    (block_param_pool_ f) t l (constant_lookup_ f).

Definition modify_inst (i : InstId) (g : InstData -> InstData) (f : Function) : option Function :=
  v ← modify (insts_ f) i g; Some (with_insts v f).
Definition modify_block (b : BlockId) (g : BlockData -> BlockData) (f : Function) : option Function :=
  v ← modify (blocks_ f) b g; Some (with_blocks v f).
Definition modify_value (x : ValueId) (g : ValueData -> ValueData) (f : Function) : option Function :=
  v ← modify (values_ f) x g; Some (with_values v (constant_lookup_ f) f).
Definition modify_call (c : BlockCallId) (g : BlockCall -> BlockCall) (f : Function) : option Function :=
  v ← modify (block_calls_ f) c g; Some (with_calls v f).

(** A span of a pool; reading one past the end of the pool has no result. *)
Definition span {A} (pool : list A) (begin count : Z) : option (list A) :=
  if (0 <=? begin) && (0 <=? count) && (begin + count <=? size pool)
  then Some (take (Z.to_nat count) (drop (Z.to_nat begin) pool)) else None.

(** ** Reading *)

Definition valid_id {A} (v : list A) (id : Z) : bool := (0 <? id) && (id <? size v).

Definition inst (f : Function) (id : InstId) : option InstData :=
  if valid_id (insts_ f) id then at_ (insts_ f) id else None.
Definition block (f : Function) (id : BlockId) : option BlockData :=
  if valid_id (blocks_ f) id then at_ (blocks_ f) id else None.
Definition value (f : Function) (id : ValueId) : option ValueData :=
  if valid_id (values_ f) id then at_ (values_ f) id else None.
Definition block_call (f : Function) (id : BlockCallId) : option BlockCall :=
  if valid_id (block_calls_ f) id then at_ (block_calls_ f) id else None.

Definition block_params (f : Function) (id : BlockId) : option (list ValueId) :=
  data ← block f id; span (block_param_pool_ f) (param_begin data) (param_count data).
Definition value_type (f : Function) (id : ValueId) : option TypeId := data ← value f id; Some (value_ty data).
Definition operands (f : Function) (id : InstId) : option (list ValueId) :=
  data ← inst f id; span (operand_pool_ f) (op_begin data) (op_count data).
Definition block_call_args (f : Function) (id : BlockCallId) : option (list ValueId) :=
  call ← block_call f id; span (operand_pool_ f) (arg_begin call) (arg_count call).
Definition jump_table (f : Function) (index : Z) : option (list SwitchCase) := at_ (jump_tables_ f) index.
Definition block_call_list (f : Function) (index : Z) : option (list BlockCallId) := at_ (block_call_lists_ f) index.

Definition kind_is_constant (k : ValueKind) : bool := match k with InstResult | BlockParam => false | _ => true end.
Definition is_constant (f : Function) (id : ValueId) : option bool :=
  data ← value f id; Some (kind_is_constant (value_kind data)).

Definition def_inst (f : Function) (id : ValueId) : option InstId :=
  data ← value f id;
  Some (if bool_decide (value_kind data = InstResult) then u32 (payload data) else 0).

Definition successors (f : Function) (id : InstId) : option (list BlockCallId) :=
  data ← inst f id;
  match op data with
  | Op_Jump => Some [aux_low (aux data)]
  | Op_BrIf => Some [aux_low (aux data); aux_high (aux data)]
  | Op_Switch =>
      cases ← jump_table f (aux_high (aux data));
      Some (aux_low (aux data) :: map case_target cases)
  | Op_BrIndirect => block_call_list f (aux_low (aux data))
  | Op_AsmGoto => block_call_list f (u32 (aux2 data))
  | Op_Invoke | Op_InvokeIndirect => Some [aux_low (aux2 data); aux_high (aux2 data)]
  | _ => Some []
  end.

(** ** Values *)

Definition new_value (kind : ValueKind) (type : TypeId) (payload payload2 : Z) (f : Function)
    : option (ValueId * Function) :=
  id ← next_id (values_ f);
  Some (id, with_values (values_ f ++ [mkValue kind type payload payload2]) (constant_lookup_ f) f).

Definition value_kind_number (k : ValueKind) : Z :=
  match k with
  | InstResult => 0 | BlockParam => 1 | ConstInt => 2 | ConstFloat => 3 | ConstNull => 4 | Undef => 5
  | GlobalAddr => 6 | FuncAddr => 7 | LabelAddr => 8
  end.
Definition hash_constant (data : ValueData) : Z :=
  fold_left hash_combine
    [value_kind_number (value_kind data); value_ty data; payload data; payload2 data] 0xC0.
Definition constant_equals (cand data : ValueData) : bool :=
  bool_decide (value_kind cand = value_kind data) && (value_ty cand =? value_ty data) &&
  (payload cand =? payload data) && (payload2 cand =? payload2 data).

Definition intern_constant (kind : ValueKind) (type : TypeId) (payload payload2 : Z) (f : Function)
    : option (ValueId * Function) :=
  if negb (id_ok type) then None
  else
    '(id, (values, lookup)) ←
      intern_in hash_constant constant_equals (values_ f) (constant_lookup_ f) (mkValue kind type payload payload2);
    Some (id, with_values values lookup f).

Definition const_int (type : TypeId) (bits high_bits : Z) : Function -> option (ValueId * Function) :=
  intern_constant ConstInt type bits high_bits.
Definition const_float_bits (type : TypeId) (bits high_bits : Z) : Function -> option (ValueId * Function) :=
  intern_constant ConstFloat type bits high_bits.
Definition const_null (ptr_type : TypeId) : Function -> option (ValueId * Function) :=
  intern_constant ConstNull ptr_type 0 0.
Definition undef (type : TypeId) : Function -> option (ValueId * Function) := intern_constant Undef type 0 0.
Definition global_addr (global : Z) (ptr_type : TypeId) : Function -> option (ValueId * Function) :=
  intern_constant GlobalAddr ptr_type global 0.
Definition func_addr (func : Z) (ptr_type : TypeId) : Function -> option (ValueId * Function) :=
  intern_constant FuncAddr ptr_type func 0.
Definition label_addr (b : BlockId) (ptr_type : TypeId) (f : Function) : option (ValueId * Function) :=
  if valid_id (blocks_ f) b then intern_constant LabelAddr ptr_type b 0 f else None.

Definition retype_value (id : ValueId) (type : TypeId) (f : Function) : option Function :=
  data ← value f id;
  if kind_is_constant (value_kind data) then None
  else
    f ← modify_value id (fun d => mkValue (value_kind d) type (payload d) (payload2 d)) f;
    if bool_decide (value_kind data = InstResult) then modify_inst (u32 (payload data)) (set_type type) f else Some f.

(** ** Operands *)

Definition append_operands (operands : list ValueId) (f : Function) : option (Z * Function) :=
  if size (operand_pool_ f) + size operands <? 2 ^ 32
  then Some (size (operand_pool_ f), with_pool (operand_pool_ f ++ operands) f) else None.

Definition set_operand (id : InstId) (index : Z) (v : ValueId) (f : Function) : option Function :=
  data ← inst f id;
  if index <? op_count data
  then pool ← modify (operand_pool_ f) (op_begin data + index) (fun _ => v); Some (with_pool pool f) else None.

Definition replace_all_uses (old_value new_value : ValueId) (f : Function) : option Function :=
  if valid_id (values_ f) old_value && valid_id (values_ f) new_value
  then Some (with_pool (map (fun slot => if slot =? old_value then new_value else slot) (operand_pool_ f)) f)
  else None.

(** ** Instructions *)

Definition make_inst (op : Opcode) (result_type : TypeId) (operands : list ValueId) (aux flags aux2 : Z) (f : Function)
    : option (InstId * Function) :=
  let expected := opcode_operand_count op in
  if negb ((expected <? 0) || (expected =? size operands)) then None
  else
    id ← next_id (insts_ f);
    '(op_begin, f) ← append_operands operands f;
    let has_result :=
      match opcode_result_kind op with
      | Result_Value => true
      | Result_SigDependent => id_ok result_type
      | Result_None => false
      end in
    if has_result then
      if negb (id_ok result_type) then None
      else
        '(result, f) ← new_value InstResult result_type id 0 f;
        let data := mkInst op flags result_type op_begin (size operands) aux aux2 result 0 0 0 in
        Some (id, with_insts (insts_ f ++ [data]) f)
    else
      let data := mkInst op flags 0 op_begin (size operands) aux aux2 0 0 0 0 in
      Some (id, with_insts (insts_ f ++ [data]) f).

Definition append_inst (block_id : BlockId) (inst_id : InstId) (f : Function) : option Function :=
  block_data ← block f block_id;
  data ← inst f inst_id;
  if id_ok (inst_block data) then None
  else
    let last := last_inst block_data in
    f ← modify_inst inst_id (fun d => set_links last 0 (set_block block_id d)) f;
    f ← (if id_ok last then modify_inst last (set_next inst_id) f
         else modify_block block_id (set_first inst_id) f);
    modify_block block_id (set_last inst_id) f.

Definition insert_before (pos inst_id : InstId) (f : Function) : option Function :=
  pos_data ← inst f pos;
  data ← inst f inst_id;
  if negb (id_ok (inst_block pos_data)) || id_ok (inst_block data) then None
  else
    let prev := inst_prev pos_data in
    f ← modify_inst inst_id (fun d => set_links prev pos (set_block (inst_block pos_data) d)) f;
    f ← (if id_ok prev then modify_inst prev (set_next inst_id) f
         else modify_block (inst_block pos_data) (set_first inst_id) f);
    modify_inst pos (set_prev inst_id) f.

Definition remove_inst (inst_id : InstId) (f : Function) : option Function :=
  data ← inst f inst_id;
  if negb (id_ok (inst_block data)) then None
  else
    let prev := inst_prev data in
    let next := inst_next data in
    f ← (if id_ok prev then modify_inst prev (set_next next) f
         else modify_block (inst_block data) (set_first next) f);
    f ← (if id_ok next then modify_inst next (set_prev prev) f
         else modify_block (inst_block data) (set_last prev) f);
    modify_inst inst_id (fun d => set_links 0 0 (set_block 0 d)) f.

(** ** Blocks *)

(** Parameters [i, i+1, ...] of block [id]. *)
Fixpoint new_params (id : BlockId) (types : list TypeId) (i : Z) (f : Function) : option Function :=
  match types with
  | [] => Some f
  | type :: types =>
      '(param, f) ← new_value BlockParam type id i f;
      new_params id types (i + 1) (with_param_pool (block_param_pool_ f ++ [param]) f)
  end.

Definition create_block (param_types : list TypeId) (f : Function) : option (BlockId * Function) :=
  id ← next_id (blocks_ f);
  param_begin ← next_id (block_param_pool_ f);
  f ← new_params id param_types 0 f;
  let prev := last_block_ f in
  f ← (if id_ok prev then modify_block prev (fun d => set_block_links (block_prev d) id d) f
       else Some (with_ends id (last_block_ f) f));
  let data := mkBlock 0 0 param_begin (size param_types) (if id_ok prev then prev else 0) 0 in
  Some (id, with_blocks (blocks_ f ++ [data]) (with_ends (entry_block_ f) id f)).

Definition append_block_param (id : BlockId) (type : TypeId) (f : Function) : option (ValueId * Function) :=
  data ← block f id;
  '(param, f) ← new_value BlockParam type id (param_count data) f;
  let pool := block_param_pool_ f in
  if param_begin data + param_count data =? size pool then
    f ← modify_block id (set_params (param_begin data) (param_count data + 1)) (with_param_pool (pool ++ [param]) f);
    Some (param, f)
  else
    new_begin ← next_id pool;
    moved ← span pool (param_begin data) (param_count data);
    f ← modify_block id (set_params new_begin (param_count data + 1)) (with_param_pool (pool ++ moved ++ [param]) f);
    Some (param, f).

(** [for (i = index + 1; i < count; ++i)]: shift a parameter down and renumber it. *)
Fixpoint shift_params (n : nat) (i begin count : Z) (f : Function) : option Function :=
  match n with
  | O => Some f
  | S n =>
      if i <? count then
        moved ← at_ (block_param_pool_ f) (begin + i);
        pool ← modify (block_param_pool_ f) (begin + i - 1) (fun _ => moved);
        f ← modify_value moved (fun d => mkValue (value_kind d) (value_ty d) (payload d) (i - 1))
              (with_param_pool pool f);
        shift_params n (i + 1) begin count f
      else Some f
  end.

Definition remove_block_param (id : BlockId) (index : Z) (f : Function) : option Function :=
  data ← block f id;
  if negb (index <? param_count data) then None
  else
    f ← shift_params (Z.to_nat (param_count data)) (index + 1) (param_begin data) (param_count data) f;
    modify_block id (set_params (param_begin data) (param_count data - 1)) f.

Definition set_block_params (id : BlockId) (types : list TypeId) (f : Function) : option Function :=
  _ ← block f id;
  new_begin ← next_id (block_param_pool_ f);
  f ← new_params id types 0 f;
  modify_block id (set_params new_begin (size types)) f.

Definition remove_block (id : BlockId) (f : Function) : option Function :=
  data ← block f id;
  if id =? entry_block_ f then None
  else
    f ← (if id_ok (block_prev data)
         then modify_block (block_prev data) (fun d => set_block_links (block_prev d) (block_next data) d) f
         else Some f);
    f ← (if id_ok (block_next data)
         then modify_block (block_next data) (fun d => set_block_links (block_prev data) (block_next d) d) f
         else Some (with_ends (entry_block_ f) (block_prev data) f));
    modify_block id (set_block_links 0 0) f.

(** ** Calls of blocks *)

Definition make_block_call (t : BlockId) (args : list ValueId) (f : Function) : option (BlockCallId * Function) :=
  if negb (valid_id (blocks_ f) t) then None
  else
    id ← next_id (block_calls_ f);
    '(arg_begin, f) ← append_operands args f;
    Some (id, with_calls (block_calls_ f ++ [mkCall t arg_begin (size args)]) f).

Definition set_block_call_arg (id : BlockCallId) (index : Z) (v : ValueId) (f : Function) : option Function :=
  call ← block_call f id;
  if index <? arg_count call
  then pool ← modify (operand_pool_ f) (arg_begin call + index) (fun _ => v); Some (with_pool pool f) else None.

Definition append_block_call_arg (id : BlockCallId) (v : ValueId) (f : Function) : option Function :=
  call ← block_call f id;
  let pool := operand_pool_ f in
  if arg_begin call + arg_count call =? size pool then
    modify_call id (fun c => mkCall (target c) (arg_begin c) (arg_count c + 1)) (with_pool (pool ++ [v]) f)
  else
    new_begin ← next_id pool;
    moved ← span pool (arg_begin call) (arg_count call);
    modify_call id (fun c => mkCall (target c) new_begin (arg_count c + 1)) (with_pool (pool ++ moved ++ [v]) f).

Fixpoint shift_args (n : nat) (i begin count : Z) (pool : list ValueId) : option (list ValueId) :=
  match n with
  | O => Some pool
  | S n =>
      if i <? count then
        moved ← at_ pool (begin + i);
        pool ← modify pool (begin + i - 1) (fun _ => moved);
        shift_args n (i + 1) begin count pool
      else Some pool
  end.

Definition remove_block_call_arg (id : BlockCallId) (index : Z) (f : Function) : option Function :=
  call ← block_call f id;
  if negb (index <? arg_count call) then None
  else
    pool ← shift_args (Z.to_nat (arg_count call)) (index + 1) (arg_begin call) (arg_count call) (operand_pool_ f);
    modify_call id (fun c => mkCall (target c) (arg_begin c) (arg_count c - 1)) (with_pool pool f).

(** Write [args] over the pool from [begin] on. *)
Fixpoint write_args (begin : Z) (args pool : list ValueId) : option (list ValueId) :=
  match args with
  | [] => Some pool
  | v :: args => pool ← modify pool begin (fun _ => v); write_args (begin + 1) args pool
  end.

Definition set_block_call_args (id : BlockCallId) (args : list ValueId) (f : Function) : option Function :=
  call ← block_call f id;
  if size args =? arg_count call then
    pool ← write_args (arg_begin call) args (operand_pool_ f);
    Some (with_pool pool f)
  else
    '(new_begin, f) ← append_operands args f;
    modify_call id (fun c => mkCall (target c) new_begin (size args)) f.

Definition set_block_call_target (id : BlockCallId) (b : BlockId) (f : Function) : option Function :=
  _ ← block_call f id;
  if valid_id (blocks_ f) b then modify_call id (fun c => mkCall b (arg_begin c) (arg_count c)) f else None.

Definition make_jump_table (cases : list SwitchCase) (f : Function) : option (Z * Function) :=
  index ← next_id (jump_tables_ f);
  Some (index, with_tables (jump_tables_ f ++ [cases]) (block_call_lists_ f) f).
Definition make_block_call_list (calls : list BlockCallId) (f : Function) : option (Z * Function) :=
  index ← next_id (block_call_lists_ f);
  Some (index, with_tables (jump_tables_ f) (block_call_lists_ f ++ [calls]) f).

(** ** Walking the lists

    [for (i = from; i.is_valid(); i = next(i))], for a body that does not change
    the links: the ids visited. A list that closes on itself is never walked to
    the end; the fuel is the number of ids there are. *)
Fixpoint walk (fuel : nat) (next : Z -> option Z) (from : Z) : option (list Z) :=
  if negb (id_ok from) then Some []
  else match fuel with
  | O => None
  | S fuel => n ← next from; l ← walk fuel next n; Some (from :: l)
  end.
Definition next_block (f : Function) (b : BlockId) : option BlockId := d ← block f b; Some (block_next d).
Definition next_inst (f : Function) (i : InstId) : option InstId := d ← inst f i; Some (inst_next d).
Definition block_ids (f : Function) : option (list BlockId) :=
  walk (length (blocks_ f)) (next_block f) (entry_block_ f).
Definition inst_ids (f : Function) (b : BlockId) : option (list InstId) :=
  d ← block f b; walk (length (insts_ f)) (next_inst f) (first d).

Definition occurrences (id : ValueId) (l : list ValueId) : Z := size (filter (fun v => v = id) l).
Definition sum_up {A} (measure : A -> option Z) (l : list A) : option Z :=
  foldr (fun a total => m ← measure a; t ← total; Some (m + t)) (Some 0) l.
Definition uses_in_call (f : Function) (id : ValueId) (call : BlockCallId) : option Z :=
  args ← block_call_args f call; Some (occurrences id args).
Definition uses_in_inst (f : Function) (id : ValueId) (i : InstId) : option Z :=
  ops ← operands f i;
  succs ← successors f i;
  n ← sum_up (uses_in_call f id) succs;
  Some (occurrences id ops + n).
Definition uses_in_block (f : Function) (id : ValueId) (b : BlockId) : option Z :=
  insts ← inst_ids f b; sum_up (uses_in_inst f id) insts.
Definition count_uses (f : Function) (id : ValueId) : option Z :=
  bs ← block_ids f;
  n ← sum_up (uses_in_block f id) bs;
  Some (u32 n).
