(* ===== verification/AirLists.v ===== *)
(** * The linked lists of a function (src/air/function.cpp)

    The instructions of a block and the blocks of a function are doubly linked
    lists threaded through the arenas. [placed f bs lists] relates a function to
    the list of its blocks and to a list of instructions per block; the operations
    that link and unlink are proved to be the operations of lists, to succeed
    exactly when the code's assertions hold, and to change nothing else. *)
From stdpp Require Import functions.
From S2P Require Import Prelude Vectors AirInsts AirTypes AirFunction.
Open Scope Z_scope.

(** ** What linking does not change *)

(** An instruction, a block and a function without their links. *)
Definition core (d : InstData) : InstData := set_links 0 0 (set_block 0 d).
Definition block_core (d : BlockData) : BlockData := set_first 0 (set_last 0 d).
Definition skeleton (f : Function) : Function :=
  with_insts (map core (insts_ f)) (with_blocks (map block_core (blocks_ f)) f).

Lemma inst_skeleton f i : inst (skeleton f) i = core <$> inst f i.
Proof. unfold inst, valid_id, skeleton. cbn. rewrite size_map. destruct (_ && _); [|done]. apply at_map. Qed.
Lemma block_skeleton f b : block (skeleton f) b = block_core <$> block f b.
Proof. unfold block, valid_id, skeleton. cbn. rewrite size_map. destruct (_ && _); [|done]. apply at_map. Qed.

Lemma inst_lt f i d : inst f i = Some d -> 0 < i < size (insts_ f) /\ at_ (insts_ f) i = Some d.
Proof. unfold inst, valid_id. destruct (_ && _) eqn:E; [|done]. intros ->. ztests. split; [lia|done]. Qed.
Lemma block_lt f b d : block f b = Some d -> 0 < b < size (blocks_ f) /\ at_ (blocks_ f) b = Some d.
Proof. unfold block, valid_id. destruct (_ && _) eqn:E; [|done]. intros ->. ztests. split; [lia|done]. Qed.
Lemma id_ok_pos i : 0 < i -> id_ok i = true.
Proof. intros Hi. unfold id_ok. apply negb_true_iff, Z.eqb_neq. lia. Qed.

(** One field of one entry. *)
Lemma modify_inst_eq f i d g : inst f i = Some d ->
  modify_inst i g f = Some (with_insts (put (insts_ f) i (g d)) f).
Proof. intros [_ Ha]%inst_lt. unfold modify_inst, modify. by rewrite Ha. Qed.
Lemma modify_block_eq f b d g : block f b = Some d ->
  modify_block b g f = Some (with_blocks (put (blocks_ f) b (g d)) f).
Proof. intros [_ Ha]%block_lt. unfold modify_block, modify. by rewrite Ha. Qed.

Lemma inst_put f i d x j : inst f i = Some d ->
  inst (with_insts (put (insts_ f) i x) f) j = if decide (j = i) then Some x else inst f j.
Proof.
  intros [Hi Ha]%inst_lt. unfold inst, valid_id. cbn. rewrite size_put. case_decide as E.
  - subst. replace (_ && _) with true by (symmetry; apply andb_true_iff; lia). apply at_put_eq. lia.
  - by rewrite at_put_ne by done.
Qed.
Lemma block_put f b d x j : block f b = Some d ->
  block (with_blocks (put (blocks_ f) b x) f) j = if decide (j = b) then Some x else block f j.
Proof.
  intros [Hi Ha]%block_lt. unfold block, valid_id. cbn. rewrite size_put. case_decide as E.
  - subst. replace (_ && _) with true by (symmetry; apply andb_true_iff; lia). apply at_put_eq. lia.
  - by rewrite at_put_ne by done.
Qed.
Lemma skeleton_put_inst f i d x : inst f i = Some d -> core x = core d ->
  skeleton (with_insts (put (insts_ f) i x) f) = skeleton f.
Proof.
  intros [Hi Ha]%inst_lt Hc. unfold skeleton. cbn. rewrite map_put, Hc, put_same; [done|].
  by rewrite at_map, Ha.
Qed.
Lemma skeleton_put_block f b d x : block f b = Some d -> block_core x = block_core d ->
  skeleton (with_blocks (put (blocks_ f) b x) f) = skeleton f.
Proof.
  intros [Hi Ha]%block_lt Hc. unfold skeleton. cbn. rewrite map_put, Hc, put_same; [done|].
  by rewrite at_map, Ha.
Qed.
Lemma home_put f i d x : inst f i = Some d -> inst_block x = inst_block d ->
  map inst_block (put (insts_ f) i x) = map inst_block (insts_ f).
Proof. intros [Hi Ha]%inst_lt Hb. rewrite map_put, Hb. apply put_same. by rewrite at_map, Ha. Qed.

(** ** Segments of a linked list *)

Definition last_or (p : Z) (l : list Z) : Z := List.last l p.
Lemma last_or_snoc p l x : last_or p (l ++ [x]) = x.
Proof. apply List.last_last. Qed.
Lemma last_or_cons p x l : last_or p (x :: l) = last_or x l.
Proof. unfold last_or. revert p x. induction l as [|y l IH]; intros p x; [done|]. cbn in *. destruct l; [done|]. by rewrite (IH p y), <- (IH x y). Qed.

Lemma last_or_app p l1 l2 : last_or p (l1 ++ l2) = last_or (last_or p l1) l2.
Proof. revert p. induction l1 as [|x l1 IH]; intros p; [done|]. cbn [app]. by rewrite !last_or_cons. Qed.

(** From [prev], the instructions [l] of block [b], then [next]. *)
Fixpoint seg (f : Function) (b : BlockId) (prev : InstId) (l : list InstId) (next : InstId) : Prop :=
  match l with
  | [] => True
  | i :: l =>
      (exists d, inst f i = Some d /\ inst_block d = b /\ inst_prev d = prev /\ inst_next d = hd next l) /\
      seg f b i l next
  end.

Lemma seg_app f b p l1 l2 n : seg f b p (l1 ++ l2) n <-> seg f b p l1 (hd n l2) /\ seg f b (last_or p l1) l2 n.
Proof.
  revert p. induction l1 as [|x l1 IH]; intros p; [cbn; tauto|]. rewrite last_or_cons. cbn. rewrite IH.
  replace (hd n (l1 ++ l2)) with (hd (hd n l2) l1) by by destruct l1. tauto.
Qed.
Lemma seg_ext f f' b p l n : (forall i, i ∈ l -> inst f' i = inst f i) -> seg f b p l n -> seg f' b p l n.
Proof.
  revert p. induction l as [|x l IH]; intros p He; cbn; [done|]. intros [(d & Hd & H) Hs].
  split; [exists d; by rewrite He by left|]. apply IH; [|done]. intros i Hi. apply He. by right.
Qed.
Lemma seg_elem f b p l n i : seg f b p l n -> i ∈ l -> exists d, inst f i = Some d /\ inst_block d = b.
Proof.
  revert p. induction l as [|x l IH]; intros p; cbn; [by intros _ ?%elem_of_nil|].
  intros [(d & Hd & Hb & _) Hs] [->|Hi]%elem_of_cons; [by exists d|by eapply IH].
Qed.
Lemma seg_valid f b p l n i : seg f b p l n -> i ∈ l -> 0 < i.
Proof. intros Hs Hi. destruct (seg_elem _ _ _ _ _ _ Hs Hi) as (d & Hd & _). apply inst_lt in Hd. lia. Qed.

(** The part of the list of block [b] before [next], and the part after [prev]. *)
Definition left_part (f : Function) (b : BlockId) (l : list InstId) (next : InstId) : Prop :=
  (exists d, block f b = Some d /\ first d = hd next l) /\ seg f b 0 l next.
Definition right_part (f : Function) (b : BlockId) (prev : InstId) (l : list InstId) : Prop :=
  (exists d, block f b = Some d /\ last_inst d = last_or prev l) /\ seg f b prev l 0.

Lemma left_first f b l n d : left_part f b l n -> block f b = Some d -> first d = hd n l.
Proof. intros [(d' & Hd & Hf) _] Hb. congruence. Qed.
Lemma right_last f b p l d : right_part f b p l -> block f b = Some d -> last_inst d = last_or p l.
Proof. intros [(d' & Hd & Hf) _] Hb. congruence. Qed.

(** [if (prev) inst(prev).next = next; else block(b).first = next;] and its mirror
    image, the parts of the operations. *)
Definition link_next (b : BlockId) (prev next : InstId) (f : Function) : option Function :=
  if id_ok prev then modify_inst prev (set_next next) f else modify_block b (set_first next) f.
Definition link_prev (b : BlockId) (prev next : InstId) (f : Function) : option Function :=
  if id_ok next then modify_inst next (set_prev prev) f else modify_block b (set_last prev) f.

(** What is left alone: all but the instructions of [l], block [b] and the links. *)
Record linked (f f' : Function) (b : BlockId) (l : list InstId) : Prop := {
  ln_skeleton : skeleton f' = skeleton f;
  ln_inst : forall i, i ∉ l -> inst f' i = inst f i;
  ln_home : map inst_block (insts_ f') = map inst_block (insts_ f);
  ln_block : forall b', b' <> b -> block f' b' = block f b' }.

Lemma link_next_spec f b l n n' : left_part f b l n -> NoDup l ->
  exists f', link_next b (last_or 0 l) n' f = Some f' /\ left_part f' b l n' /\ linked f f' b l /\
    (forall d, block f b = Some d -> exists d', block f' b = Some d' /\ last_inst d' = last_inst d).
Proof.
  intros [(d & Hd & Hf) Hs] Hnd. destruct l as [|x l _] using rev_ind.
  - unfold link_next, last_or. cbn [List.last id_ok Z.eqb negb]. rewrite (modify_block_eq _ _ _ _ Hd).
    eexists. split; [done|]. cbn in Hf. split_and!.
    + split; [|done]. exists (set_first n' d). by rewrite (block_put _ _ _ _ _ Hd), decide_True.
    + split; [by apply (skeleton_put_block _ _ d)|done|done|].
      intros b' Hb. by rewrite (block_put _ _ _ _ _ Hd), decide_False.
    + intros d1 H1. exists (set_first n' d). rewrite (block_put _ _ _ _ _ Hd), decide_True by done.
      split; [done|]. cbn. congruence.
  - rewrite last_or_snoc. apply seg_app in Hs as [Hs [(dx & Hx & Hbx & Hpx & Hnx) _]].
    assert (Hpos : id_ok x = true) by (apply id_ok_pos; apply inst_lt in Hx; lia).
    unfold link_next. rewrite Hpos, (modify_inst_eq _ _ _ _ Hx). eexists. split; [done|].
    apply list.NoDup_app in Hnd as (_ & Hnd & _).
    split_and!; [split|split|intros d1 H1; by exists d1].
    + exists d. split; [done|]. rewrite Hf. by destruct l.
    + apply seg_app. split.
      * apply (seg_ext f); [|done]. intros i Hi. rewrite (inst_put _ _ _ _ _ Hx), decide_False; [done|].
        intros ->. apply (Hnd x Hi). by left.
      * cbn. split; [|done]. exists (set_next n' dx). by rewrite (inst_put _ _ _ _ _ Hx), decide_True.
    + by apply (skeleton_put_inst _ _ dx).
    + intros i Hi. rewrite (inst_put _ _ _ _ _ Hx), decide_False; [done|]. intros ->. apply Hi, elem_of_app. right; by left.
    + by apply (home_put _ _ dx).
    + done.
Qed.

Lemma link_prev_spec f b l p p' : right_part f b p l -> NoDup l ->
  exists f', link_prev b p' (hd 0 l) f = Some f' /\ right_part f' b p' l /\ linked f f' b l /\
    (forall d, block f b = Some d -> exists d', block f' b = Some d' /\ first d' = first d).
Proof.
  intros [(d & Hd & Hf) Hs] Hnd. destruct l as [|x l].
  - unfold link_prev. cbn [hd id_ok Z.eqb negb]. rewrite (modify_block_eq _ _ _ _ Hd).
    eexists. split; [done|]. cbn in Hf. split_and!.
    + split; [|done]. exists (set_last p' d). by rewrite (block_put _ _ _ _ _ Hd), decide_True.
    + split; [by apply (skeleton_put_block _ _ d)|done|done|].
      intros b' Hb. by rewrite (block_put _ _ _ _ _ Hd), decide_False.
    + intros d1 H1. exists (set_last p' d). rewrite (block_put _ _ _ _ _ Hd), decide_True by done.
      split; [done|]. cbn. congruence.
  - cbn [hd]. destruct Hs as [(dx & Hx & Hbx & Hpx & Hnx) Hs].
    assert (Hpos : id_ok x = true) by (apply id_ok_pos; apply inst_lt in Hx; lia).
    unfold link_prev. rewrite Hpos, (modify_inst_eq _ _ _ _ Hx). eexists. split; [done|].
    apply list.NoDup_cons in Hnd as [Hnd _].
    split_and!; [split|split|intros d1 H1; by exists d1].
    + exists d. split; [done|]. by rewrite Hf, !last_or_cons.
    + split.
      * exists (set_prev p' dx). by rewrite (inst_put _ _ _ _ _ Hx), decide_True.
      * apply (seg_ext f); [|done]. intros i Hi. rewrite (inst_put _ _ _ _ _ Hx), decide_False; [done|].
        by intros ->.
    + by apply (skeleton_put_inst _ _ dx).
    + intros i Hi. rewrite (inst_put _ _ _ _ _ Hx), decide_False; [done|]. intros ->. apply Hi. by left.
    + by apply (home_put _ _ dx).
    + done.
Qed.

(** Both links of a place between [l1] and [l2]. *)
Lemma link_around f b l1 l2 n0 p0 n p : left_part f b l1 n0 -> right_part f b p0 l2 -> NoDup (l1 ++ l2) ->
  exists f1 f', link_next b (last_or 0 l1) n f = Some f1 /\ link_prev b p (hd 0 l2) f1 = Some f' /\
    left_part f' b l1 n /\ right_part f' b p l2 /\ linked f f' b (l1 ++ l2).
Proof.
  intros HL [(db & Hb & Hlast) HR] (Hnd1 & Hdisj & Hnd2)%list.NoDup_app.
  destruct (link_next_spec f b l1 n0 n HL Hnd1) as (f1 & E1 & P1 & L1 & K1).
  destruct (K1 _ Hb) as (db1 & Hb1 & Hlast1). pose proof P1 as [_ S1].
  destruct (link_prev_spec f1 b l2 p0 p) as (f2 & E2 & P2 & L2 & K2); [|done|].
  { split; [exists db1; split; [done|]; by rewrite Hlast1|].
    apply (seg_ext f); [|done]. intros j Hj. apply (ln_inst _ _ _ _ L1). intros Hj1. by apply (Hdisj _ Hj1). }
  exists f1, f2. split_and!; [done|done| |done|split].
  - destruct (K2 _ Hb1) as (db2 & Hb2 & Hfirst2). split.
    + exists db2. split; [done|]. by rewrite Hfirst2, (left_first _ _ _ _ _ P1 Hb1).
    + apply (seg_ext f1); [|done]. intros j Hj. apply (ln_inst _ _ _ _ L2). by apply Hdisj.
  - by rewrite (ln_skeleton _ _ _ _ L2), (ln_skeleton _ _ _ _ L1).
  - intros j Hj. rewrite elem_of_app in Hj. by rewrite (ln_inst _ _ _ _ L2), (ln_inst _ _ _ _ L1) by tauto.
  - by rewrite (ln_home _ _ _ _ L2), (ln_home _ _ _ _ L1).
  - intros b' Hb'. by rewrite (ln_block _ _ _ _ L2), (ln_block _ _ _ _ L1).
Qed.

(** ** The lists of instructions *)

(** [lists b] are the instructions of block [b], in order; every instruction that
    is in a block is in its list. *)
Record placed (f : Function) (lists : BlockId -> list InstId) : Prop := {
  pl_block : forall b d, block f b = Some d ->
    first d = hd 0 (lists b) /\ last_inst d = last_or 0 (lists b) /\ seg f b 0 (lists b) 0 /\ NoDup (lists b);
  pl_inst : forall i d, inst f i = Some d -> inst_block d <> 0 ->
    is_Some (block f (inst_block d)) /\ i ∈ lists (inst_block d) }.

(** Only the list of block [b] changes, to [l']. *)
Lemma placed_update f f' lists b l' d' :
  placed f lists -> is_Some (block f b) ->
  (forall b', b' <> b -> block f' b' = block f b') ->
  (forall i, i ∉ lists b -> i ∉ l' -> inst f' i = inst f i) ->
  (forall i d, i ∈ lists b -> i ∉ l' -> inst f' i = Some d -> inst_block d = 0) ->
  (forall i d, i ∈ l' -> i ∉ lists b -> inst f i = Some d -> inst_block d = 0) ->
  block f' b = Some d' -> first d' = hd 0 l' -> last_inst d' = last_or 0 l' -> seg f' b 0 l' 0 -> NoDup l' ->
  placed f' (<[b := l']> lists).
Proof.
  intros Hpl [db Hb] Hbl Hin Hout Hnew Hd' Hfirst Hlast Hseg Hnd. split.
  - intros b1 d1 H1. destruct (decide (b1 = b)) as [->|Hne].
    + rewrite fn_lookup_insert. assert (d1 = d') as -> by congruence. done.
    + rewrite fn_lookup_insert_ne by done. rewrite (Hbl _ Hne) in H1.
      destruct (pl_block _ _ Hpl _ _ H1) as (Hf & Hl & Hs & Hn). split_and!; try done.
      apply (seg_ext f); [|done]. intros i Hi. destruct (seg_elem _ _ _ _ _ _ Hs Hi) as (d & Hd & Hbd).
      assert (Hnb : i ∉ lists b).
      { intros Hib. destruct (pl_block _ _ Hpl _ _ Hb) as (_ & _ & Hsb & _).
        destruct (seg_elem _ _ _ _ _ _ Hsb Hib) as (d2 & Hd2 & Hbd2). congruence. }
      apply Hin; [done|]. intros Hil. rewrite (Hnew _ _ Hil Hnb Hd) in Hbd. apply block_lt in H1. lia.
  - intros i d Hi H0. destruct (decide (i ∈ l')) as [Hil|Hil].
    + destruct (seg_elem _ _ _ _ _ _ Hseg Hil) as (d2 & Hd2 & Hbd2). assert (d2 = d) as -> by congruence.
      rewrite Hbd2, fn_lookup_insert. split; [by eexists|done].
    + destruct (decide (i ∈ lists b)) as [Hib|Hib]; [by destruct (H0 (Hout _ _ Hib Hil Hi))|].
      rewrite Hin in Hi by done. destruct (pl_inst _ _ Hpl _ _ Hi H0) as [Hsome Hil'].
      assert (inst_block d <> b) by congruence. rewrite Hbl by done. split; [done|]. by rewrite fn_lookup_insert_ne.
Qed.

Lemma placed_not_in f lists b i d db : placed f lists -> block f b = Some db -> inst f i = Some d -> inst_block d = 0 ->
  i ∉ lists b.
Proof.
  intros Hpl Hb Hi H0 Hin. destruct (pl_block _ _ Hpl _ _ Hb) as (_ & _ & Hs & _).
  destruct (seg_elem _ _ _ _ _ _ Hs Hin) as (d2 & Hd2 & Hbd2). apply block_lt in Hb. assert (d2 = d) by congruence.
  subst. lia.
Qed.

(** The list of a block around one of its instructions. *)
Lemma placed_around f lists i d : placed f lists -> inst f i = Some d -> inst_block d <> 0 ->
  exists l1 l2, lists (inst_block d) = l1 ++ i :: l2 /\ NoDup (l1 ++ i :: l2) /\
    is_Some (block f (inst_block d)) /\ inst_prev d = last_or 0 l1 /\ inst_next d = hd 0 l2 /\
    left_part f (inst_block d) l1 i /\ right_part f (inst_block d) i l2.
Proof.
  intros Hpl Hi H0. destruct (pl_inst _ _ Hpl _ _ Hi H0) as [[db Hb] Hin].
  destruct (list_elem_of_split _ _ Hin) as (l1 & l2 & Hl). exists l1, l2.
  destruct (pl_block _ _ Hpl _ _ Hb) as (Hf & Hlast & Hs & Hnd). rewrite Hl in Hf, Hlast, Hs, Hnd.
  apply seg_app in Hs as [Hs1 [(d2 & Hd2 & _ & Hprev & Hnext) Hs2]].
  assert (d2 = d) as -> by congruence. split_and!; [done|done|by eexists|done|done| |].
  - split; [|done]. exists db. split; [done|]. rewrite Hf. by destruct l1.
  - split; [|done]. exists db. split; [done|]. by rewrite Hlast, last_or_app, last_or_cons.
Qed.

(** Unlinking. *)
Lemma remove_inst_spec f lists i d : placed f lists -> inst f i = Some d -> inst_block d <> 0 ->
  exists f' l1 l2, remove_inst i f = Some f' /\ lists (inst_block d) = l1 ++ i :: l2 /\
    placed f' (<[inst_block d := l1 ++ l2]> lists) /\ skeleton f' = skeleton f /\
    map inst_block (insts_ f') = put (map inst_block (insts_ f)) i 0.
Proof.
  intros Hpl Hi H0.
  destruct (placed_around _ _ _ _ Hpl Hi H0) as (l1 & l2 & Hl & Hnd & Hsome & Hprev & Hnext & HL & HR).
  set (b := inst_block d) in *. pose proof Hnd as Hperm. rewrite <- (Permutation_middle l1 l2 i) in Hperm.
  apply list.NoDup_cons in Hperm as [Hni Hnd'].
  destruct (link_around f b l1 l2 _ _ (hd 0 l2) (last_or 0 l1) HL HR Hnd') as
    (f1 & f2 & E1 & E2 & [(db & Hb & Hf) S1] & PR & L). pose proof PR as [_ S2].
  assert (Hi2 : inst f2 i = Some d) by (by rewrite (ln_inst _ _ _ _ L)).
  assert (Hput : forall j, j <> i -> inst (with_insts (put (insts_ f2) i (core d)) f2) j = inst f2 j).
  { intros j Hj. by rewrite (inst_put _ _ _ _ _ Hi2), decide_False. }
  exists (with_insts (put (insts_ f2) i (core d)) f2), l1, l2. split_and!; [|done| | |].
  - unfold remove_inst. rewrite Hi. cbn [mbind option_bind]. fold b. rewrite id_ok_pos; cycle 1.
    { destruct Hsome as [? Hx%block_lt]. lia. }
    cbn [negb]. change (link_next b (inst_prev d) (inst_next d) f ≫= (fun f =>
      link_prev b (inst_prev d) (inst_next d) f ≫= (fun f => modify_inst i (fun d => set_links 0 0 (set_block 0 d)) f))
      = Some (with_insts (put (insts_ f2) i (core d)) f2)).
    rewrite Hprev, Hnext, E1. cbn [mbind option_bind]. rewrite E2. cbn [mbind option_bind].
    by rewrite (modify_inst_eq _ _ _ _ Hi2).
  - apply (placed_update f _ lists b (l1 ++ l2) db); [done|done| | | | |done| | | |done].
    + apply L.
    + intros j Hj Hj'. rewrite Hput; [by apply L|]. intros ->. apply Hj. rewrite Hl. apply elem_of_app. right. by left.
    + intros j dj Hj Hj' Hdj. rewrite Hl, elem_of_app, elem_of_cons in Hj. rewrite elem_of_app in Hj'.
      assert (j = i) as -> by tauto. rewrite (inst_put _ _ _ _ _ Hi2), decide_True in Hdj by done. by injection Hdj as <-.
    + intros j dj Hj []. rewrite Hl. rewrite elem_of_app in Hj. rewrite elem_of_app, elem_of_cons. tauto.
    + rewrite Hf. by destruct l1.
    + rewrite (right_last _ _ _ _ _ PR Hb). by rewrite last_or_app.
    + apply (seg_ext f2); [intros j Hj; apply Hput; by intros ->|]. by apply seg_app.
  - rewrite (skeleton_put_inst _ _ _ _ Hi2) by done. apply L.
  - cbn. rewrite map_put. cbn. by rewrite (ln_home _ _ _ _ L).
Qed.

(** Linking a detached instruction between [l1] and [l2]. *)
Lemma place_spec f lists b i d l1 l2 n0 p0 : placed f lists -> is_Some (block f b) -> inst f i = Some d -> inst_block d = 0 ->
  lists b = l1 ++ l2 -> left_part f b l1 n0 -> right_part f b p0 l2 ->
  exists f1 f2 f', modify_inst i (fun d => set_links (last_or 0 l1) (hd 0 l2) (set_block b d)) f = Some f1 /\
    link_next b (last_or 0 l1) i f1 = Some f2 /\ link_prev b i (hd 0 l2) f2 = Some f' /\
    placed f' (<[b := l1 ++ i :: l2]> lists) /\ skeleton f' = skeleton f.
Proof.
  intros Hpl Hsome Hi H0 Hl [(db1 & Hb1 & Hf1) HL] [(db2 & Hb2 & Hl2) HR].
  assert (Hni : i ∉ l1 ++ l2) by (rewrite <- Hl; by eapply placed_not_in).
  assert (Hnd : NoDup (l1 ++ l2)) by (rewrite <- Hl; apply (pl_block _ _ Hpl _ _ Hb1)).
  rewrite (modify_inst_eq _ _ _ _ Hi). set (x := set_links _ _ _). set (f1 := with_insts _ f).
  assert (Hput : forall j, j <> i -> inst f1 j = inst f j).
  { intros j Hj. unfold f1. by rewrite (inst_put _ _ _ _ _ Hi), decide_False. }
  destruct (link_around f1 b l1 l2 n0 p0 i i) as (f2 & f3 & E1 & E2 & [(db & Hb & Hf) S1] & PR & L); [| |done|].
  { split; [by exists db1|]. apply (seg_ext f); [|done]. intros j Hj. apply Hput. intros ->. apply Hni, elem_of_app. by left. }
  { split; [by exists db2|]. apply (seg_ext f); [|done]. intros j Hj. apply Hput. intros ->. apply Hni, elem_of_app. by right. }
  pose proof PR as [_ S2]. exists f1, f2, f3. split_and!; [done|done|done| |].
  - apply (placed_update f _ lists b (l1 ++ i :: l2) db); [done|done| | | | |done| | | |].
    + intros b' Hb'. by rewrite (ln_block _ _ _ _ L).
    + intros j Hj Hj'. rewrite Hl in Hj. rewrite (ln_inst _ _ _ _ L) by done. apply Hput. intros ->.
      apply Hj', elem_of_app. right. by left.
    + intros j dj Hj []. rewrite Hl, elem_of_app in Hj. rewrite elem_of_app, elem_of_cons. tauto.
    + intros j dj Hj Hj' Hdj. rewrite Hl, elem_of_app in Hj'. rewrite elem_of_app, elem_of_cons in Hj.
      assert (j = i) as -> by tauto. congruence.
    + rewrite Hf. by destruct l1.
    + rewrite (right_last _ _ _ _ _ PR Hb). by rewrite last_or_app, last_or_cons.
    + apply seg_app. split; [done|]. split; [|done]. exists x. rewrite (ln_inst _ _ _ _ L) by done.
      split; [|done]. unfold f1. by rewrite (inst_put _ _ _ _ _ Hi), decide_True.
    + rewrite <- (Permutation_middle l1 l2 i). by apply list.NoDup_cons.
  - rewrite (ln_skeleton _ _ _ _ L). by apply (skeleton_put_inst _ _ d).
Qed.

Lemma append_inst_spec f lists b i d : placed f lists -> is_Some (block f b) -> inst f i = Some d -> inst_block d = 0 ->
  exists f', append_inst b i f = Some f' /\ placed f' (<[b := lists b ++ [i]]> lists) /\ skeleton f' = skeleton f.
Proof.
  intros Hpl [db Hb] Hi H0. destruct (pl_block _ _ Hpl _ _ Hb) as (Hf & Hlast & Hs & _).
  destruct (place_spec f lists b i d (lists b) [] 0 (last_or 0 (lists b)) Hpl) as (f1 & f2 & f3 & E1 & E2 & E3 & Hpl' & Hsk);
    [by eexists|done|done|by rewrite app_nil_r|split; [by exists db|done]|split; [by exists db|done]|].
  exists f3. split; [|done]. unfold append_inst. rewrite Hb. cbn [mbind option_bind]. rewrite Hi. cbn [mbind option_bind].
  rewrite H0. cbn [id_ok Z.eqb negb]. rewrite Hlast. cbn [hd] in E1. rewrite E1. cbn [mbind option_bind].
  unfold link_next in E2. rewrite E2. exact E3.
Qed.

Lemma insert_before_spec f lists pos i d pd : placed f lists -> inst f pos = Some pd -> inst_block pd <> 0 ->
  inst f i = Some d -> inst_block d = 0 ->
  exists f' l1 l2, insert_before pos i f = Some f' /\ lists (inst_block pd) = l1 ++ pos :: l2 /\
    placed f' (<[inst_block pd := l1 ++ i :: pos :: l2]> lists) /\ skeleton f' = skeleton f.
Proof.
  intros Hpl Hpos Hpb Hi H0.
  destruct (placed_around _ _ _ _ Hpl Hpos Hpb) as (l1 & l2 & Hl & Hnd & Hsome & Hprev & Hnext & HL & [(db & Hb & Hlast) HR]).
  set (b := inst_block pd) in *.
  destruct (place_spec f lists b i d l1 (pos :: l2) pos (last_or 0 l1) Hpl) as (f1 & f2 & f3 & E1 & E2 & E3 & Hpl' & Hsk);
    [done|done|done|done|done| |].
  { split; [exists db; split; [done|]; by rewrite Hlast, last_or_cons|]. split; [by exists pd|done]. }
  exists f3, l1, l2. split; [|done]. unfold insert_before. rewrite Hpos. cbn [mbind option_bind]. rewrite Hi.
  cbn [mbind option_bind]. fold b. rewrite H0, id_ok_pos by (destruct Hsome as [? Hx%block_lt]; lia).
  cbn [id_ok Z.eqb negb orb]. rewrite Hprev. cbn [hd] in E1. rewrite E1. cbn [mbind option_bind].
  unfold link_next in E2. rewrite E2. cbn [mbind option_bind hd] in *. unfold link_prev in E3.
  rewrite id_ok_pos in E3 by (apply inst_lt in Hpos; lia). exact E3.
Qed.

(** ** Walking *)

Fixpoint follows (next : Z -> option Z) (l : list Z) : Prop :=
  match l with [] => True | x :: l => 0 < x /\ next x = Some (hd 0 l) /\ follows next l end.

Lemma walk_follows fuel next l : follows next l -> (length l <= fuel)%nat -> walk fuel next (hd 0 l) = Some l.
Proof.
  revert fuel. induction l as [|x l IH]; intros fuel; [by destruct fuel|]. cbn [follows hd length].
  intros (Hx & Hn & Hl) Hlen. destruct fuel as [|fuel]; [lia|]. cbn [walk].
  rewrite id_ok_pos by done. cbn [negb]. rewrite Hn. cbn [mbind option_bind].
  rewrite IH by (done || lia). done.
Qed.

Lemma seg_follows f b p l : seg f b p l 0 -> follows (next_inst f) l.
Proof.
  revert p. induction l as [|x l IH]; intros p; [done|]. intros [(d & Hd & _ & _ & Hn) Hs].
  split; [apply inst_lt in Hd; lia|]. split; [|by eapply IH]. unfold next_inst. rewrite Hd. cbn. by rewrite Hn.
Qed.

(** As many distinct ids as there are. *)
Lemma ids_bound (l : list Z) n : NoDup l -> (forall i, i ∈ l -> 0 < i < n) -> Z.of_nat (length l) < n \/ l = [].
Proof.
  intros Hnd Hr. destruct l as [|x l]; [by right|left].
  assert (Hle : (length (x :: l) <= length (seqZ 1 (n - 1)))%nat).
  { apply NoDup_incl_length; [by apply NoDup_ListNoDup|]. intros i Hi. apply list_elem_of_In, elem_of_seqZ.
    apply list_elem_of_In in Hi. specialize (Hr _ Hi). lia. }
  rewrite length_seqZ in Hle. specialize (Hr x ltac:(left)). lia.
Qed.

Lemma inst_ids_spec f lists b : placed f lists -> is_Some (block f b) -> inst_ids f b = Some (lists b).
Proof.
  intros Hpl [d Hb]. destruct (pl_block _ _ Hpl _ _ Hb) as (Hf & _ & Hs & Hnd).
  unfold inst_ids. rewrite Hb. cbn [mbind option_bind]. rewrite Hf. apply walk_follows; [by eapply seg_follows|].
  destruct (ids_bound (lists b) (size (insts_ f)) Hnd) as [Hlt| ->]; [|unfold size in *; lia|cbn; lia].
  intros i Hi. destruct (seg_elem _ _ _ _ _ _ Hs Hi) as (di & Hdi & _). by apply inst_lt in Hdi as [? _].
Qed.

(** ** The list of blocks *)

Fixpoint block_seg (f : Function) (prev : BlockId) (l : list BlockId) (next : BlockId) : Prop :=
  match l with
  | [] => True
  | b :: l =>
      (exists d, block f b = Some d /\ block_prev d = prev /\ block_next d = hd next l) /\ block_seg f b l next
  end.
Record chained (f : Function) (bs : list BlockId) : Prop := {
  ch_ends : entry_block_ f = hd 0 bs /\ last_block_ f = last_or 0 bs;
  ch_seg : block_seg f 0 bs 0;
  ch_nodup : NoDup bs }.

Lemma block_seg_app f p l1 l2 n :
  block_seg f p (l1 ++ l2) n <-> block_seg f p l1 (hd n l2) /\ block_seg f (last_or p l1) l2 n.
Proof.
  revert p. induction l1 as [|x l1 IH]; intros p; [cbn; tauto|]. rewrite last_or_cons. cbn. rewrite IH.
  replace (hd n (l1 ++ l2)) with (hd (hd n l2) l1) by by destruct l1. tauto.
Qed.
Lemma block_seg_ext f f' p l n :
  (forall b, b ∈ l -> block_core <$> block f' b = block_core <$> block f b) -> block_seg f p l n -> block_seg f' p l n.
Proof.
  revert p. induction l as [|x l IH]; intros p He; cbn; [done|]. intros [(d & Hd & Hp & Hn) Hs]. split.
  - specialize (He x ltac:(left)). rewrite Hd in He. destruct (block f' x) as [d'|]; [|done]. cbn in He.
    injection He as He. exists d'. split; [done|]. split; congruence.
  - apply IH; [|done]. intros i Hi. apply He. by right.
Qed.
Lemma block_seg_elem f p l n b : block_seg f p l n -> b ∈ l -> is_Some (block f b).
Proof.
  revert p. induction l as [|x l IH]; intros p; cbn; [by intros _ ?%elem_of_nil|].
  intros [(d & Hd & _) Hs] [->|Hi]%elem_of_cons; [by eexists|by eapply IH].
Qed.

Lemma skeleton_block f f' b : skeleton f' = skeleton f -> block_core <$> block f' b = block_core <$> block f b.
Proof. intros H. by rewrite <- !block_skeleton, H. Qed.
Lemma skeleton_inst f f' i : skeleton f' = skeleton f -> core <$> inst f' i = core <$> inst f i.
Proof. intros H. by rewrite <- !inst_skeleton, H. Qed.
Lemma skeleton_is_block f f' b : skeleton f' = skeleton f -> is_Some (block f b) -> is_Some (block f' b).
Proof. intros H [d Hd]. apply (skeleton_block _ _ b) in H. rewrite Hd in H. destruct (block f' b); [by eexists|done]. Qed.

(** Linking instructions leaves the blocks where they are. *)
Lemma chained_skeleton f f' bs : skeleton f' = skeleton f -> chained f bs -> chained f' bs.
Proof.
  intros H [[H1 H2] H3 H4]. split; [|by apply (block_seg_ext f); [intros; apply skeleton_block|]|done].
  split; [rewrite <- H1|rewrite <- H2]; [change (entry_block_ (skeleton f') = entry_block_ (skeleton f))|
    change (last_block_ (skeleton f') = last_block_ (skeleton f))]; by rewrite H.
Qed.

Lemma block_seg_follows f p l : block_seg f p l 0 -> follows (next_block f) l.
Proof.
  revert p. induction l as [|x l IH]; intros p; [done|]. intros [(d & Hd & _ & Hn) Hs].
  split; [apply block_lt in Hd; lia|]. split; [|by eapply IH]. unfold next_block. rewrite Hd. cbn. by rewrite Hn.
Qed.
Lemma block_ids_spec f bs : chained f bs -> block_ids f = Some bs.
Proof.
  intros [[He _] Hs Hnd]. unfold block_ids. rewrite He. apply walk_follows.
  - by eapply block_seg_follows.
  - destruct (ids_bound bs (size (blocks_ f)) Hnd) as [Hlt| ->]; [|unfold size in *; lia|cbn; lia].
    intros b Hb. destruct (block_seg_elem _ _ _ _ _ Hs Hb) as [d Hd]. by apply block_lt in Hd as [? _].
Qed.

(** ** Growing the arenas *)

(** Functions with the instructions and blocks of [f], a new detached instruction or
    a new empty block aside. *)
Lemma placed_same f f' lists : insts_ f' = insts_ f -> blocks_ f' = blocks_ f -> placed f lists -> placed f' lists.
Proof.
  intros Hi Hb [H1 H2].
  assert (Ei : forall i, inst f' i = inst f i) by (intros i; unfold inst; by rewrite Hi).
  assert (Eb : forall b, block f' b = block f b) by (intros b; unfold block; by rewrite Hb).
  split.
  - intros b d. rewrite Eb. intros Hd. destruct (H1 _ _ Hd) as (A & B & C & D). split_and!; try done.
    by apply (seg_ext f).
  - intros i d. rewrite Ei, Eb. apply H2.
Qed.
Lemma chained_same f f' bs : blocks_ f' = blocks_ f -> entry_block_ f' = entry_block_ f -> last_block_ f' = last_block_ f ->
  chained f bs -> chained f' bs.
Proof.
  intros Hb He Hl [H1 H2 H3]. split; [by rewrite He, Hl| |done]. apply (block_seg_ext f); [|done].
  intros b _. unfold block. by rewrite Hb.
Qed.

Lemma inst_snoc f x i : inst (with_insts (insts_ f ++ [x]) f) i =
  if decide (i = size (insts_ f)) then (if decide (0 < i) then Some x else None) else inst f i.
Proof.
  unfold inst, valid_id. cbn. rewrite size_app. change (size [x]) with 1. pose proof (size_nonneg (insts_ f)).
  repeat case_decide; subst.
  - replace (_ && _) with true by (symmetry; apply andb_true_iff; lia). apply at_snoc.
  - replace (_ && _) with false by (symmetry; apply andb_false_iff; lia). done.
  - destruct (decide (i < size (insts_ f))).
    + replace (i <? size (insts_ f) + 1) with (i <? size (insts_ f)) by lia. destruct (_ && _) eqn:E; [|done]. ztests.
      destruct (proj2 (at_is_Some (insts_ f) i) ltac:(lia)) as [y Hy]. rewrite Hy. by apply at_app_l.
    + replace (i <? size (insts_ f) + 1) with false by lia. replace (i <? size (insts_ f)) with false by lia. by rewrite andb_false_r.
Qed.
Lemma placed_new_inst f lists x : placed f lists -> inst_block x = 0 -> placed (with_insts (insts_ f ++ [x]) f) lists.
Proof.
  intros [H1 H2] Hx. split.
  - intros b d Hd. destruct (H1 _ _ Hd) as (A & B & C & D). split_and!; try done. apply (seg_ext f); [|done].
    intros i Hi. destruct (seg_elem _ _ _ _ _ _ C Hi) as (di & Hdi & _). rewrite inst_snoc. case_decide; [|done].
    apply inst_lt in Hdi. lia.
  - intros i d. rewrite inst_snoc. repeat case_decide; [|done|apply H2]. intros [= <-] Hne. by rewrite Hx in Hne.
Qed.

Lemma make_inst_placed op type ops aux flags aux2 f i f' lists bs :
  placed f lists -> chained f bs -> make_inst op type ops aux flags aux2 f = Some (i, f') ->
  placed f' lists /\ chained f' bs /\ i = size (insts_ f) /\ (exists x, insts_ f' = insts_ f ++ [x] /\ inst_block x = 0).
Proof.
  intros Hpl Hch. unfold make_inst. case_match; [done|]. destruct (next_id (insts_ f)) as [id|] eqn:Hid; [|done].
  apply next_id_some in Hid. cbn [mbind option_bind]. unfold append_operands. destruct (_ <? 2 ^ 32); [|done].
  cbn [mbind option_bind]. match goal with |- (if ?c then _ else _) = _ -> _ => destruct c end.
  - case_match; [done|]. unfold new_value. destruct (next_id _) as [v|]; [|done]. cbn [mbind option_bind].
    intros [= <- <-]. split_and!; [|by apply (chained_same f)|done|by eexists].
    match goal with |- placed (with_insts _ ?g) _ => apply (placed_new_inst g lists); [by apply (placed_same f)|done] end.
  - intros [= <- <-]. split_and!; [|by apply (chained_same f)|done|by eexists].
    match goal with |- placed (with_insts _ ?g) _ => apply (placed_new_inst g lists); [by apply (placed_same f)|done] end.
Qed.

Lemma new_params_same id tys i f f' : new_params id tys i f = Some f' ->
  insts_ f' = insts_ f /\ blocks_ f' = blocks_ f /\ entry_block_ f' = entry_block_ f /\ last_block_ f' = last_block_ f.
Proof.
  revert i f. induction tys as [|t tys IH]; intros i f; cbn; [by intros [= <-]|].
  unfold new_value. destruct (next_id _) as [v|]; [|done]. cbn. intros H. by apply IH in H.
Qed.

Lemma block_snoc f x b : 0 < size (blocks_ f) ->
  block (with_blocks (blocks_ f ++ [x]) f) b = if decide (b = size (blocks_ f)) then Some x else block f b.
Proof.
  intros H0. unfold block, valid_id. cbn. rewrite size_app. change (size [x]) with 1. case_decide; subst.
  - replace (_ && _) with true by (symmetry; apply andb_true_iff; lia). apply at_snoc.
  - destruct (decide (b < size (blocks_ f))).
    + replace (b <? size (blocks_ f) + 1) with (b <? size (blocks_ f)) by lia. destruct (_ && _) eqn:E; [|done]. ztests.
      destruct (proj2 (at_is_Some (blocks_ f) b) ltac:(lia)) as [y Hy]. rewrite Hy. by apply at_app_l.
    + replace (b <? size (blocks_ f) + 1) with false by lia. replace (b <? size (blocks_ f)) with false by lia. by rewrite andb_false_r.
Qed.

(** The blocks of [f] with the links of some changed, and a new empty one. *)
Lemma placed_new_block f f' x lists :
  placed f lists -> 0 < size (blocks_ f) -> (forall i, inst f' i = inst f i) -> first x = 0 -> last_inst x = 0 ->
  (forall b, b <> size (blocks_ f) -> set_block_links 0 0 <$> block f' b = set_block_links 0 0 <$> block f b) ->
  block f' (size (blocks_ f)) = Some x -> placed f' (<[size (blocks_ f) := []]> lists).
Proof.
  intros [H1 H2] H0 Hi Hx1 Hx2 Hb Hnew. split.
  - intros b d Hd. destruct (decide (b = size (blocks_ f))) as [->|Hne].
    + rewrite fn_lookup_insert. assert (d = x) as -> by congruence. rewrite Hx1, Hx2. repeat split. constructor.
    + rewrite fn_lookup_insert_ne by done. specialize (Hb _ Hne). rewrite Hd in Hb.
      destruct (block f b) as [d0|] eqn:Hd0; [|done]. cbn in Hb. destruct (H1 _ _ Hd0) as (A & B & C & D).
      assert (first d = first d0 /\ last_inst d = last_inst d0) as [-> ->] by (by injection Hb).
      split_and!; try done. by apply (seg_ext f).
  - intros i d. rewrite Hi. intros Hd Hne. destruct (H2 _ _ Hd Hne) as [[d0 Hd0] Hin].
    assert (Hlt : inst_block d <> size (blocks_ f)) by (apply block_lt in Hd0; lia).
    rewrite fn_lookup_insert_ne by done. split; [|done]. specialize (Hb _ Hlt). rewrite Hd0 in Hb.
    destruct (block f' (inst_block d)); [by eexists|done].
Qed.

Lemma create_block_spec tys f b f' lists bs :
  placed f lists -> chained f bs -> 0 < size (blocks_ f) -> create_block tys f = Some (b, f') ->
  b = size (blocks_ f) /\ is_Some (block f' b) /\ placed f' (<[b := []]> lists) /\ chained f' (bs ++ [b]).
Proof.
  intros Hpl Hch H0. unfold create_block. destruct (next_id (blocks_ f)) as [id|] eqn:Hid; [|done].
  apply next_id_some in Hid. cbn [mbind option_bind]. destruct (next_id (block_param_pool_ f)) as [pb|]; [|done].
  cbn [mbind option_bind]. destruct (new_params id tys 0 f) as [f1|] eqn:Ep; [|done]. cbn [mbind option_bind].
  destruct (new_params_same _ _ _ _ _ Ep) as (Ei & Eb & Ee & El).
  assert (Hf1 : forall b, block f1 b = block f b) by (intros b1; unfold block; by rewrite Eb).
  assert (Hi1 : forall i, inst f1 i = inst f i) by (intros i; unfold inst; by rewrite Ei).
  destruct Hch as [[He Hl] Hs Hnd]. rewrite El, Hl. destruct bs as [|b0 bs _] using rev_ind.
  - cbn [last_or List.last id_ok Z.eqb negb mbind option_bind]. intros [= <- <-].
    set (x := mkBlock _ _ _ _ _ _). set (f2 := with_blocks _ _).
    assert (Hf2 : forall b, block f2 b = if decide (b = id) then Some x else block f b).
    { intros b1. unfold f2. rewrite <- Hf1, Hid, <- Eb.
      apply (block_snoc (with_ends (entry_block_ (with_ends (size (blocks_ f1)) (last_block_ f1) f1)) (size (blocks_ f1)) f1)).
      cbn. by rewrite Eb. }
    split_and!; [done|rewrite Hf2, decide_True by done; by eexists| |split].
    + rewrite Hid. apply (placed_new_block f _ x); [done|done|done|done|done| |].
      * intros b1 Hb1. rewrite Hf2, decide_False; [done|]. by rewrite Hid.
      * by rewrite Hf2, decide_True.
    + done.
    + cbn. split; [|done]. exists x. by rewrite Hf2, decide_True.
    + cbn. apply NoDup_singleton.
  - rewrite last_or_snoc. apply block_seg_app in Hs as [Hs [(d0 & Hd0 & Hp0 & Hn0) _]].
    pose proof (block_lt _ _ _ Hd0) as [Hlt0 _]. rewrite id_ok_pos by lia. rewrite <- Hf1 in Hd0.
    rewrite (modify_block_eq _ _ _ _ Hd0). cbn [mbind option_bind]. intros [= <- <-].
    set (x0 := set_block_links _ id d0). set (x := mkBlock _ _ _ _ _ _). set (f2 := with_blocks _ _).
    assert (Hf2 : forall b, block f2 b = if decide (b = id) then Some x else if decide (b = b0) then Some x0 else block f b).
    { intros b1. unfold f2. rewrite <- Hf1, Hid, <- Eb, <- (size_put (blocks_ f1) b0 x0).
      rewrite <- (block_put f1 b0 d0 x0 b1 Hd0).
      apply (block_snoc (with_ends (entry_block_ (with_blocks (put (blocks_ f1) b0 x0) f1))
        (size (put (blocks_ f1) b0 x0)) (with_blocks (put (blocks_ f1) b0 x0) f1))).
      cbn. by rewrite size_put, Eb. }
    split_and!; [done|rewrite Hf2, decide_True by done; by eexists| |split].
    + rewrite Hid. apply (placed_new_block f _ x); [done|done|done|done|done| |].
      * intros b1 Hb1. rewrite Hf2, decide_False by (by rewrite Hid). case_decide; [|done]. subst b1.
        by rewrite <- Hf1, Hd0.
      * by rewrite Hf2, decide_True.
    + rewrite !last_or_snoc. split; [|done]. change (entry_block_ f1 = hd 0 ((bs ++ [b0]) ++ [id])).
      rewrite Ee, He. by destruct bs.
    + assert (Hids : forall b, b ∈ bs -> b <> id /\ b <> b0).
      { intros b1 Hb1. split.
        - destruct (block_seg_elem _ _ _ _ _ Hs Hb1) as [? Hx%block_lt]. lia.
        - apply list.NoDup_app in Hnd as (_ & Hnd & _). intros ->. apply (Hnd _ Hb1). by left. }
      rewrite <- app_assoc. apply block_seg_app. split.
      * apply (block_seg_ext f); [|by destruct bs]. intros b1 Hb1. destruct (Hids _ Hb1).
        by rewrite Hf2, !decide_False.
      * cbn. split; [|split; [|done]].
        -- exists x0. rewrite Hf2, decide_False, decide_True by (done || lia). done.
        -- exists x. rewrite Hf2, decide_True by done. done.
    + apply list.NoDup_app. split; [done|]. split; [|apply NoDup_singleton].
      intros b1 Hb1 ->%list_elem_of_singleton. assert (is_Some (block f id)) as [? Hx%block_lt]; [|lia].
      apply elem_of_app in Hb1 as [Hb1|Hb1%list_elem_of_singleton]; [by eapply block_seg_elem|].
      subst. rewrite <- Hf1. by eexists.
Qed.

(** Unlinking a block leaves its instructions in it. *)
Lemma placed_links f f' lists : (forall i, inst f' i = inst f i) ->
  (forall b, set_block_links 0 0 <$> block f' b = set_block_links 0 0 <$> block f b) -> placed f lists -> placed f' lists.
Proof.
  intros Hi Hb [H1 H2]. split.
  - intros b d Hd. specialize (Hb b). rewrite Hd in Hb. destruct (block f b) as [d0|] eqn:Hd0; [|done].
    destruct (H1 _ _ Hd0) as (A & B & C & D).
    assert (first d = first d0 /\ last_inst d = last_inst d0) as [-> ->] by (by injection Hb).
    split_and!; try done. by apply (seg_ext f).
  - intros i d. rewrite Hi. intros Hd Hne. destruct (H2 _ _ Hd Hne) as [[d0 Hd0] Hin]. split; [|done].
    specialize (Hb (inst_block d)). rewrite Hd0 in Hb. destruct (block f' (inst_block d)); [by eexists|done].
Qed.

(** Only links of the blocks [l] change. *)
Record relinked (f f' : Function) (l : list BlockId) : Prop := {
  rl_inst : forall i, inst f' i = inst f i;
  rl_links : forall b, set_block_links 0 0 <$> block f' b = set_block_links 0 0 <$> block f b;
  rl_block : forall b, b ∉ l -> block f' b = block f b;
  rl_entry : entry_block_ f' = entry_block_ f }.
Lemma relinked_trans f f1 f2 l l' : relinked f f1 l -> relinked f1 f2 l' -> relinked f f2 (l ++ l').
Proof.
  intros [A1 A2 A3 A4] [B1 B2 B3 B4]. split; [congruence|congruence| |congruence].
  intros b Hb. rewrite elem_of_app in Hb. rewrite B3, A3 by tauto. done.
Qed.
Lemma relinked_seg f f' l p l0 n : relinked f f' l -> (forall b, b ∈ l0 -> b ∉ l) -> block_seg f p l0 n -> block_seg f' p l0 n.
Proof. intros H Hd. apply block_seg_ext. intros b Hb. by rewrite (rl_block _ _ _ H) by (by apply Hd). Qed.

Lemma link_block f b d g : block f b = Some d -> (forall d, set_block_links 0 0 (g d) = set_block_links 0 0 d) ->
  exists f', modify_block b g f = Some f' /\ block f' b = Some (g d) /\ relinked f f' [b] /\ last_block_ f' = last_block_ f.
Proof.
  intros Hb Hg. eexists. split; [by apply modify_block_eq|].
  assert (H : forall b', block (with_blocks (put (blocks_ f) b (g d)) f) b' = if decide (b' = b) then Some (g d) else block f b').
  { intros b'. by apply (block_put _ _ d). }
  split; [by rewrite H, decide_True|]. split; [split; [done| | |done]|done].
  - intros b'. rewrite H. case_decide; [subst|done]. rewrite Hb. cbn. by rewrite Hg.
  - intros b' Hb'. rewrite H, decide_False; [done|]. intros ->. apply Hb'. by left.
Qed.
Lemma link_block_next f p0 l p n n' : block_seg f p0 (l ++ [p]) n -> p ∉ l ->
  exists f', modify_block p (fun d => set_block_links (block_prev d) n' d) f = Some f' /\ block_seg f' p0 (l ++ [p]) n' /\
    relinked f f' [p] /\ last_block_ f' = last_block_ f.
Proof.
  intros [Hs [(d & Hd & Hp & _) _]]%block_seg_app Hni.
  destruct (link_block f p d (fun d => set_block_links (block_prev d) n' d) Hd ltac:(done)) as (f' & Ef & Hb & Hr & Hl).
  exists f'. split; [done|]. split; [|done]. apply block_seg_app. split.
  - apply (relinked_seg _ _ _ _ _ _ Hr); [|done]. intros b Hb' ->%list_elem_of_singleton. done.
  - split; [|done]. by eexists.
Qed.
Lemma link_block_prev f p p' b l n : block_seg f p (b :: l) n -> b ∉ l ->
  exists f', modify_block b (fun d => set_block_links p' (block_next d) d) f = Some f' /\ block_seg f' p' (b :: l) n /\
    relinked f f' [b] /\ last_block_ f' = last_block_ f.
Proof.
  intros [(d & Hd & _ & Hn) Hs] Hni.
  destruct (link_block f b d (fun d => set_block_links p' (block_next d) d) Hd ltac:(done)) as (f' & Ef & Hb & Hr & Hl).
  exists f'. split; [done|]. split; [|done]. split; [by eexists|].
  apply (relinked_seg _ _ _ _ _ _ Hr); [|done]. intros b' Hb' ->%list_elem_of_singleton. done.
Qed.

Lemma remove_block_spec f lists l1 b l2 : placed f lists -> chained f (l1 ++ b :: l2) -> l1 <> [] ->
  exists f', remove_block b f = Some f' /\ chained f' (l1 ++ l2) /\ placed f' lists.
Proof.
  intros Hpl [[He Hl] Hs Hnd] Hne. destruct l1 as [|p l1 _] using rev_ind; [done|clear Hne].
  pose proof Hnd as Hnd'. rewrite <- (Permutation_middle (l1 ++ [p]) l2 b) in Hnd'.
  apply list.NoDup_cons in Hnd' as [Hb Hnd']. pose proof Hnd' as (Hn1 & Hd & Hn2)%list.NoDup_app.
  apply block_seg_app in Hs as [Hs1 [(db & Hdb & Hbp & Hbn) Hs2]]. cbn [hd] in Hs1.
  assert (Hent : entry_block_ f = hd 0 ((l1 ++ [p]) ++ l2)) by (rewrite He; by destruct l1).
  assert (Hne : b <> entry_block_ f).
  { rewrite Hent. intros ->. apply Hb. destruct l1; by left. }
  assert (Hpos : 0 < p).
  { destruct (block_seg_elem _ _ _ _ p Hs1) as [? Hx%block_lt]; [apply elem_of_app; right; left|lia]. }
  assert (Hpl1 : p ∉ l1) by (apply list.NoDup_app in Hn1 as (_ & Hn1 & _); intros Hx; apply (Hn1 _ Hx); left).
  unfold remove_block. rewrite Hdb. cbn [mbind option_bind].
  rewrite (proj2 (Z.eqb_neq _ _) Hne), Hbp, Hbn, last_or_snoc, (id_ok_pos p) by lia.
  destruct (link_block_next f 0 l1 p b (hd 0 l2) Hs1 Hpl1) as (f1 & -> & S1 & R1 & L1). cbn [mbind option_bind].
  assert (Hs2' : block_seg f1 b l2 0).
  { apply (relinked_seg _ _ _ _ _ _ R1); [|done]. intros x Hx ->%list_elem_of_singleton.
    apply (Hd p); [apply elem_of_app; right; left|done]. }
  assert (Hfin : forall f2 l, relinked f1 f2 l -> (forall x, x ∈ l -> x ∈ l2) -> block_seg f2 p l2 0 -> last_block_ f2 = last_or p l2 ->
    exists f', modify_block b (set_block_links 0 0) f2 = Some f' /\ chained f' ((l1 ++ [p]) ++ l2) /\ placed f' lists).
  { intros f2 l R2 Hin S2 L2. pose proof (relinked_trans _ _ _ _ _ R1 R2) as R12.
    rewrite elem_of_app in Hb. assert (Hb2 : block f2 b = Some db).
    { rewrite (rl_block _ _ _ R12); [done|]. rewrite elem_of_app. intros [->%list_elem_of_singleton|Hx]; [|by auto].
      apply Hb. left. apply elem_of_app. right. left. }
    destruct (link_block f2 b db (set_block_links 0 0) Hb2 ltac:(done)) as (f3 & -> & _ & R3 & L3).
    exists f3. split; [done|]. pose proof (relinked_trans _ _ _ _ _ R12 R3) as R. split.
    - split; [split; [by rewrite (rl_entry _ _ _ R)|by rewrite L3, L2, !last_or_app]| |done].
      apply block_seg_app. rewrite last_or_snoc. split.
      + apply (relinked_seg _ _ _ _ _ _ (relinked_trans _ _ _ _ _ R2 R3)); [|done]. intros x Hx [Hy|Hy]%elem_of_app.
        * by apply (Hd x); auto.
        * apply list_elem_of_singleton in Hy as ->. by apply Hb; left.
      + apply (relinked_seg _ _ _ _ _ _ R3); [|done]. intros x Hx ->%list_elem_of_singleton. by apply Hb; right.
    - apply (placed_links f); [apply R|apply R|done]. }
  destruct l2 as [|n l2]; cbn [hd id_ok Z.eqb negb mbind option_bind] in *.
  - by apply (Hfin _ []).
  - assert (Hnpos : 0 < n) by (destruct (block_seg_elem _ _ _ _ n Hs2) as [? Hx%block_lt]; [left|lia]).
    rewrite id_ok_pos by lia. apply list.NoDup_cons in Hn2 as [Hn2 _].
    destruct (link_block_prev f1 b p n l2 0 Hs2' Hn2) as (f2 & -> & S2 & R2 & L2). cbn [mbind option_bind].
    apply (Hfin f2 [n]); [done| |done|].
    + intros x ->%list_elem_of_singleton. left.
    + rewrite L2, L1, Hl. by rewrite !last_or_app, !last_or_cons.
Qed.

(** ** Checking a concrete function *)

Fixpoint seg_check (f : Function) (b : BlockId) (prev : InstId) (l : list InstId) : bool :=
  match l with
  | [] => true
  | i :: l =>
      match inst f i with
      | Some d => (inst_block d =? b) && (inst_prev d =? prev) && (inst_next d =? hd 0 l)
      | None => false
      end && seg_check f b i l
  end.
Definition placed_check (f : Function) (lists : BlockId -> list InstId) : bool :=
  forallb (fun b =>
    match block f b with
    | Some d => (first d =? hd 0 (lists b)) && (last_inst d =? last_or 0 (lists b)) && seg_check f b 0 (lists b) &&
        bool_decide (NoDup (lists b))
    | None => true
    end) (seqZ 0 (size (blocks_ f))) &&
  forallb (fun i =>
    match inst f i with
    | Some d => (inst_block d =? 0) || (valid_id (blocks_ f) (inst_block d) && bool_decide (i ∈ lists (inst_block d)))
    | None => true
    end) (seqZ 0 (size (insts_ f))).
Fixpoint block_seg_check (f : Function) (prev : BlockId) (l : list BlockId) : bool :=
  match l with
  | [] => true
  | b :: l =>
      match block f b with Some d => (block_prev d =? prev) && (block_next d =? hd 0 l) | None => false end &&
      block_seg_check f b l
  end.
Definition chained_check (f : Function) (bs : list BlockId) : bool :=
  (entry_block_ f =? hd 0 bs) && (last_block_ f =? last_or 0 bs) && block_seg_check f 0 bs && bool_decide (NoDup bs).

Lemma seg_check_ok f b prev l : seg_check f b prev l = true -> seg f b prev l 0.
Proof.
  revert prev. induction l as [|i l IH]; intros prev; [done|]. cbn. rewrite andb_true_iff. intros [H Hl].
  split; [|by apply IH]. destruct (inst f i) as [d|]; [|done]. exists d. rewrite !andb_true_iff, !Z.eqb_eq in H. tauto.
Qed.
Lemma block_seg_check_ok f prev l : block_seg_check f prev l = true -> block_seg f prev l 0.
Proof.
  revert prev. induction l as [|i l IH]; intros prev; [done|]. cbn. rewrite andb_true_iff. intros [H Hl].
  split; [|by apply IH]. destruct (block f i) as [d|]; [|done]. exists d. rewrite !andb_true_iff, !Z.eqb_eq in H. tauto.
Qed.
Lemma placed_check_ok f lists : placed_check f lists = true -> placed f lists.
Proof.
  unfold placed_check. rewrite andb_true_iff, !forallb_forall. intros [H1 H2]. split.
  - intros b d Hd. pose proof (block_lt _ _ _ Hd) as [Hb _]. specialize (H1 b). rewrite Hd in H1.
    rewrite !andb_true_iff, !Z.eqb_eq, bool_decide_eq_true in H1.
    destruct H1 as [[[A B] C] D]; [apply list_elem_of_In, elem_of_seqZ; lia|]. split_and!; try done. by apply seg_check_ok.
  - intros i d Hd Hne. pose proof (inst_lt _ _ _ Hd) as [Hi _]. specialize (H2 i). rewrite Hd in H2.
    rewrite orb_true_iff, andb_true_iff, Z.eqb_eq, bool_decide_eq_true in H2.
    destruct H2 as [H2|[Hv Hin]]; [apply list_elem_of_In, elem_of_seqZ; lia|done|]. split; [|done].
    unfold block. rewrite Hv. unfold valid_id in Hv. apply at_is_Some. ztests. lia.
Qed.
Lemma chained_check_ok f bs : chained_check f bs = true -> chained f bs.
Proof.
  unfold chained_check. rewrite !andb_true_iff, !Z.eqb_eq, bool_decide_eq_true. intros [[[A B] C] D].
  split; [done|by apply block_seg_check_ok|done].
Qed.

Lemma new_function_lists : placed new_function (fun _ => []) /\ chained new_function [].
Proof.
  split; [split|split; [done|done|constructor]].
  - intros b d [Hb _]%block_lt. change (size (blocks_ new_function)) with 1 in Hb. lia.
  - intros i d [Hi _]%inst_lt. change (size (insts_ new_function)) with 1 in Hi. lia.
Qed.

(** Claim C19: The linked lists are lists: where a function's blocks are [bs] and the
    instructions of block [b] are [lists b], walking visits exactly them, and each
    operation that links or unlinks has a result when the code's assertions hold:
    the function with the changed lists, whose instructions and blocks are
    otherwise the same. Appending puts a detached instruction at the end, inserting
    puts it right before another, removing takes it out; creating a block appends
    an empty one, and removing a block that is not the entry takes it out. *)
Theorem linked_lists_are_lists (f : Function) (bs : list BlockId) (lists : BlockId -> list InstId)
    (Hplaced : placed f lists) (Hchained : chained f bs) :
  block_ids f = Some bs /\
  (forall b, is_Some (block f b) -> inst_ids f b = Some (lists b)) /\
  (forall b i d, is_Some (block f b) -> inst f i = Some d -> inst_block d = 0 ->
     exists f', append_inst b i f = Some f' /\ skeleton f' = skeleton f /\ chained f' bs /\
       placed f' (<[b := lists b ++ [i]]> lists)) /\
  (forall pos i pd d, inst f pos = Some pd -> inst_block pd <> 0 -> inst f i = Some d -> inst_block d = 0 ->
     exists f' l1 l2, insert_before pos i f = Some f' /\ skeleton f' = skeleton f /\ chained f' bs /\
       lists (inst_block pd) = l1 ++ pos :: l2 /\ placed f' (<[inst_block pd := l1 ++ i :: pos :: l2]> lists)) /\
  (forall i d, inst f i = Some d ->
     (inst_block d = 0 /\ remove_inst i f = None) \/
     exists f' l1 l2, remove_inst i f = Some f' /\ skeleton f' = skeleton f /\ chained f' bs /\
       lists (inst_block d) = l1 ++ i :: l2 /\ placed f' (<[inst_block d := l1 ++ l2]> lists)) /\
  (forall types b f', 0 < size (blocks_ f) -> create_block types f = Some (b, f') ->
     placed f' (<[b := []]> lists) /\ chained f' (bs ++ [b])) /\
  (forall l1 b l2, bs = l1 ++ b :: l2 ->
     (l1 = [] /\ remove_block b f = None) \/
     exists f', remove_block b f = Some f' /\ placed f' lists /\ chained f' (l1 ++ l2)).
Proof.
  split_and!.
  - by apply block_ids_spec.
  - intros b. by apply inst_ids_spec.
  - intros b i d Hb Hi H0. destruct (append_inst_spec _ _ _ _ _ Hplaced Hb Hi H0) as (f' & E & Hpl & Hsk).
    exists f'. split_and!; try done. by apply (chained_skeleton f).
  - intros pos i pd d Hpos Hp0 Hi H0.
    destruct (insert_before_spec _ _ _ _ _ _ Hplaced Hpos Hp0 Hi H0) as (f' & l1 & l2 & E & Hl & Hpl & Hsk).
    exists f', l1, l2. split_and!; try done. by apply (chained_skeleton f).
  - intros i d Hi. destruct (decide (inst_block d = 0)) as [H0|H0].
    + left. split; [done|]. unfold remove_inst. rewrite Hi. cbn [mbind option_bind]. by rewrite H0.
    + right. destruct (remove_inst_spec _ _ _ _ Hplaced Hi H0) as (f' & l1 & l2 & E & Hl & Hpl & Hsk & _).
      exists f', l1, l2. split_and!; try done. by apply (chained_skeleton f).
  - intros types b f' H0 E. by destruct (create_block_spec _ _ _ _ _ _ Hplaced Hchained H0 E) as (_ & _ & ? & ?).
  - intros l1 b l2 ->. destruct l1 as [|x l1].
    + left. split; [done|]. pose proof (ch_seg _ _ Hchained) as [(d & Hd & _) _]. destruct (ch_ends _ _ Hchained) as [He _].
      unfold remove_block. rewrite Hd, He. cbn [mbind option_bind hd]. by rewrite Z.eqb_refl.
    + right. destruct (remove_block_spec _ _ (x :: l1) b l2 Hplaced Hchained) as (f' & E & Hch & Hpl); [done|].
      by exists f'.
Qed.

Definition one_block : Function :=
  match create_block [] new_function with Some (_, f) => f | None => new_function end.
Definition with_traps : Function :=
  match ('(_, f) ← make_inst Op_Trap 0 [] 0 0 0 one_block; '(_, f) ← make_inst Op_Trap 0 [] 0 0 0 f; Some f) with
  | Some f => f | None => one_block end.

Lemma linked_lists_are_lists_witness : exists f g,
  append_inst 1 2 with_traps = Some f /\ inst_ids f 1 = Some [2] /\
  insert_before 2 1 f = Some g /\ inst_ids g 1 = Some [1; 2] /\ block_ids g = Some [1].
Proof.
  destruct new_function_lists as [P0 C0].
  destruct (create_block_spec [] new_function 1 one_block _ _ P0 C0 eq_refl eq_refl) as (_ & B1 & P1 & C1).
  destruct (make_inst_placed Op_Trap 0 [] 0 0 0 one_block 1 _ _ _ P1 C1 eq_refl) as (P2 & C2 & _ & _).
  destruct (make_inst_placed Op_Trap 0 [] 0 0 0 _ 2 with_traps _ _ P2 C2 eq_refl) as (P3 & C3 & _ & _).
  destruct (linked_lists_are_lists with_traps _ _ P3 C3) as (_ & _ & Happend & _).
  destruct (Happend 1 2 _ ltac:(by eexists) eq_refl eq_refl) as (f & Ef & _ & C4 & P4).
  destruct (linked_lists_are_lists f _ _ P4 C4) as (_ & Hwalk & _ & Hinsert & _).
  assert (Hf : append_inst 1 2 with_traps = Some f) by exact Ef. vm_compute in Ef. injection Ef as <-.
  destruct (Hinsert 2 1 _ _ eq_refl ltac:(done) eq_refl eq_refl) as (g & l1 & l2 & Eg & _ & C5 & Hl & P5).
  destruct (linked_lists_are_lists g _ _ P5 C5) as (Hblocks & Hwalk' & _).
  eexists _, g. split; [exact Hf|]. split; [apply (Hwalk 1); by eexists|]. split; [exact Eg|].
  cbn in Hl. destruct l1 as [|x l1]; [|by destruct l1]. injection Hl as <-. split; [|exact Hblocks].
  apply (Hwalk' 1). vm_compute in Eg. injection Eg as <-. by eexists.
Defined.
