(* ===== verification/AirSweep.v ===== *)
(** * Sweeping over the instructions of a function

    The passes visit the instructions block by block, reading the successor of an
    instruction before they may unlink it, and repeat such rounds until one changes
    nothing. The loops are here once, with what they establish from what a visit
    does: a sweep finishes, keeps the invariant of the visits, and unlinks at least
    one instruction when it reports a change. *)
From stdpp Require Import functions.
From S2P Require Import Prelude Vectors AirInsts AirTypes AirFunction AirLists.
Open Scope Z_scope.

(** ** The loops *)

(** [i = first; while (i.is_valid()) { next = inst(i).next; visit(i); i = next; }] *)
Fixpoint sweep_insts (visit : InstId -> Function -> option (bool * Function)) (fuel : nat) (i : InstId) (f : Function)
    (changed : bool) : option (bool * Function) :=
  if negb (id_ok i) then Some (changed, f)
  else match fuel with
  | O => None
  | S fuel =>
      data ← inst f i;
      '(c, f) ← visit i f;
      sweep_insts visit fuel (inst_next data) f (changed || c)
  end.

(** [for (b = first_block(); b.is_valid(); b = block(b).next)] *)
Fixpoint sweep_blocks (visit : InstId -> Function -> option (bool * Function)) (fuel : nat) (b : BlockId) (f : Function)
    (changed : bool) : option (bool * Function) :=
  if negb (id_ok b) then Some (changed, f)
  else match fuel with
  | O => None
  | S fuel =>
      data ← block f b;
      '(changed, f) ← sweep_insts visit (length (insts_ f)) (first data) f changed;
      data ← block f b;
      sweep_blocks visit fuel (block_next data) f changed
  end.
Definition sweep (visit : InstId -> Function -> option (bool * Function)) (f : Function) : option (bool * Function) :=
  sweep_blocks visit (length (blocks_ f)) (entry_block_ f) f false.

(** [while (round_changed)]. *)
Fixpoint rounds (round : Function -> option (bool * Function)) (fuel : nat) (f : Function) (changed : bool)
    : option (bool * Function) :=
  match fuel with
  | O => None
  | S fuel =>
      '(round_changed, f) ← round f;
      if (round_changed : bool) then rounds round fuel f true else Some (changed, f)
  end.
(** Every round that changes something unlinks an instruction. *)
Definition until_stable (round : Function -> option (bool * Function)) (f : Function) : option (bool * Function) :=
  rounds round (S (length (insts_ f))) f false.

(** ** What a sweep leaves *)

(** All of a function but its links, values and operands. *)
Definition shape (f : Function) : Function := with_values [] [] (with_pool [] (skeleton f)).

Lemma shape_inst f f' i : shape f' = shape f -> core <$> inst f' i = core <$> inst f i.
Proof.
  intros H. assert (Hi : insts_ (shape f') = insts_ (shape f)) by by rewrite H. cbn in Hi.
  rewrite <- !inst_skeleton. unfold inst, skeleton. cbn. by rewrite Hi.
Qed.
Lemma shape_block f f' b : shape f' = shape f -> block_core <$> block f' b = block_core <$> block f b.
Proof.
  intros H. assert (Hi : blocks_ (shape f') = blocks_ (shape f)) by by rewrite H. cbn in Hi.
  rewrite <- !block_skeleton. unfold block, skeleton. cbn. by rewrite Hi.
Qed.
Lemma shape_chained f f' bs : shape f' = shape f -> chained f bs -> chained f' bs.
Proof.
  intros H [[H1 H2] H3 H4]. split; [|by apply (block_seg_ext f); [intros; apply shape_block|]|done].
  split; [rewrite <- H1; change (entry_block_ (shape f') = entry_block_ (shape f))|
    rewrite <- H2; change (last_block_ (shape f') = last_block_ (shape f))]; by rewrite H.
Qed.
Lemma skeleton_shape f f' : skeleton f' = skeleton f -> shape f' = shape f.
Proof. unfold shape. by intros ->. Qed.
Lemma inst_core_inv f f' i d' : shape f' = shape f -> inst f' i = Some d' -> exists d, inst f i = Some d /\ core d' = core d.
Proof.
  intros H Hd. pose proof (shape_inst _ _ i H) as Hi. rewrite Hd in Hi. destruct (inst f i) as [d|]; [|done].
  exists d. split; [done|]. cbn in Hi. congruence.
Qed.

(** Instructions that are in a block. *)
Definition live (f : Function) : Z := size (filter (fun b => b <> 0) (map inst_block (insts_ f))).

Lemma filter_put (v : list Z) i b : at_ v i = Some b -> b <> 0 ->
  size (filter (fun b => b <> 0) v) = size (filter (fun b => b <> 0) (put v i 0)) + 1.
Proof.
  unfold at_, put. destruct (i <? 0); [done|]. generalize (Z.to_nat i). clear i.
  induction v as [|x v IH]; intros [|n]; cbn [lookup list_lookup]; try done.
  - intros [= ->] Hb. cbn [insert list_insert list_alter]. rewrite !filter_cons, decide_True, decide_False by auto.
    unfold size. cbn [length]. lia.
  - intros Hn Hb. change (<[S n:=0]> (x :: v)) with (x :: <[n:=0]> v). rewrite !filter_cons. specialize (IH _ Hn Hb).
    case_decide; [|done]. unfold size in *. cbn [length]. lia.
Qed.
Lemma live_bound f : live f <= size (insts_ f).
Proof. unfold live, size. pose proof (length_filter (fun b => b <> 0) (map inst_block (insts_ f))). rewrite length_map in *. lia. Qed.

Lemma split_unique (l1 l2 k1 k2 : list Z) i : NoDup (l1 ++ i :: l2) -> l1 ++ i :: l2 = k1 ++ i :: k2 -> l1 = k1 /\ l2 = k2.
Proof.
  revert k1. induction l1 as [|x l1 IH]; intros [|y k1] Hnd; cbn.
  - by intros [= ->].
  - intros [= <- ->]. apply list.NoDup_cons in Hnd as [Hnd _]. destruct Hnd. apply elem_of_app. right. left.
  - intros [= -> E]. apply list.NoDup_cons in Hnd as [Hnd _]. destruct Hnd. apply elem_of_app. right. left.
  - intros [= -> E]. apply list.NoDup_cons in Hnd as [_ Hnd]. destruct (IH _ Hnd E). by subst.
Qed.

Lemma list_fits f lists b d : placed f lists -> block f b = Some d -> (length (lists b) <= length (insts_ f))%nat.
Proof.
  intros Hpl Hb. destruct (pl_block _ _ Hpl _ _ Hb) as (_ & _ & Hs & Hnd).
  destruct (ids_bound (lists b) (size (insts_ f)) Hnd) as [Hlt| ->]; [|unfold size in *; lia|cbn; lia].
  intros i Hi. destruct (seg_elem _ _ _ _ _ _ Hs Hi) as (di & Hdi & _). by apply inst_lt in Hdi as [? _].
Qed.

(** Unlinking one instruction. *)
Lemma live_removed f f' i d : inst f i = Some d -> inst_block d <> 0 ->
  map inst_block (insts_ f') = put (map inst_block (insts_ f)) i 0 -> live f = live f' + 1.
Proof.
  intros [_ Hi]%inst_lt Hb Hhome. unfold live. rewrite Hhome. apply (filter_put _ i (inst_block d)); [|done].
  by rewrite at_map, Hi.
Qed.
Lemma live_pos f i d : inst f i = Some d -> inst_block d <> 0 -> 0 < live f.
Proof.
  intros [_ Hi]%inst_lt Hb. unfold live. rewrite (filter_put _ i (inst_block d)); [|by rewrite at_map, Hi|done].
  pose proof (size_nonneg (filter (fun b => b <> 0) (put (map inst_block (insts_ f)) i 0))). lia.
Qed.

Section Sweep.
Context (f0 : Function) (bs : list BlockId) (inv : Function -> (BlockId -> list InstId) -> Prop).
Hypothesis Hchain : chained f0 bs.
Hypothesis inv_placed : forall f lists, inv f lists -> placed f lists.
Hypothesis inv_shape : forall f lists, inv f lists -> shape f = shape f0.

(** A visit leaves the function as it is, or unlinks the instruction. *)
Definition visits (visit : InstId -> Function -> option (bool * Function)) (f : Function) (lists : BlockId -> list InstId)
    (i : InstId) (data : InstData) : Prop :=
  exists c f', visit i f = Some (c, f') /\
    if (c : bool) then
      exists l1 l2, lists (inst_block data) = l1 ++ i :: l2 /\ live f' < live f /\
        inv f' (<[inst_block data := l1 ++ l2]> lists)
    else f' = f.

Section Visit.
Context (visit : InstId -> Function -> option (bool * Function)).
Hypothesis Hvisit : forall f lists i data, inv f lists -> inst f i = Some data -> inst_block data <> 0 ->
  inst_block data ∈ bs -> visits visit f lists i data.

Lemma inv_block f lists b d : inv f lists -> block f0 b = Some d ->
  exists d', block f b = Some d' /\ block_next d' = block_next d.
Proof using inv_shape.
  intros Hinv Hd. pose proof (shape_block _ _ b (inv_shape _ _ Hinv)) as H. rewrite Hd in H.
  destruct (block f b) as [d'|]; [|done]. exists d'. split; [done|]. by injection H.
Qed.

Lemma sweep_insts_spec fuel b r : forall f lists front changed, inv f lists -> is_Some (block f0 b) -> b ∈ bs ->
  lists b = front ++ r -> (length r <= fuel)%nat ->
  exists c f' lists', sweep_insts visit fuel (hd 0 r) f changed = Some (changed || c, f') /\ inv f' lists' /\
    if (c : bool) then live f' < live f else f' = f /\ forall i, i ∈ r -> visit i f = Some (false, f).
Proof using Hvisit inv_placed inv_shape.
  revert fuel. induction r as [|i r IH]; intros fuel f lists front changed Hinv Hb Hbs Hl Hfuel.
  { exists false, f, lists. rewrite orb_false_r. split; [by destruct fuel|]. split; [done|]. split; [done|].
    by intros i ?%elem_of_nil. }
  pose proof Hb as [db0 Hb0]. destruct (inv_block _ _ _ _ Hinv Hb0) as (db & Hdb & _).
  destruct (pl_block _ _ (inv_placed _ _ Hinv) _ _ Hdb) as (_ & _ & Hs & Hnd).
  rewrite Hl in Hs, Hnd. apply seg_app in Hs as [_ [(data & Hi & Hbd & _ & Hnext) _]].
  assert (Hne : inst_block data <> 0) by (apply block_lt in Hdb; lia).
  pose proof (inst_lt _ _ _ Hi) as [Hpos Hat]. cbn [length] in Hfuel. destruct fuel as [|fuel]; [lia|].
  cbn [sweep_insts hd]. rewrite id_ok_pos by lia. cbn [negb]. rewrite Hi. cbn [mbind option_bind].
  destruct (Hvisit f lists i data Hinv Hi Hne ltac:(by rewrite Hbd)) as (c & f1 & Hv & Hcase). rewrite Hv.
  cbn [mbind option_bind]. rewrite Hnext. destruct c.
  - destruct Hcase as (l1 & l2 & Hl12 & Hlive & Hinv1). rewrite Hbd, Hl in Hl12.
    destruct (split_unique front r l1 l2 i Hnd Hl12) as [E1 E2]. subst l1 l2. rewrite Hbd in Hinv1.
    destruct (IH fuel f1 _ front (changed || true) Hinv1 Hb Hbs) as (c & f' & lists' & E & Hinv' & Hc').
    + by rewrite fn_lookup_insert.
    + lia.
    + exists true, f', lists'. rewrite E. split; [by rewrite orb_true_r|]. split; [done|].
      destruct c; [lia|by destruct Hc' as [-> _]].
  - subst f1. destruct (IH fuel f lists (front ++ [i]) (changed || false) Hinv Hb Hbs) as (c & f' & lists' & E & Hinv' & Hc').
    + by rewrite <- app_assoc.
    + lia.
    + exists c, f', lists'. rewrite E, orb_false_r. split; [done|]. split; [done|]. destruct c; [done|].
      destruct Hc' as [-> Hr]. split; [done|]. intros j [->|Hj]%elem_of_cons; [done|by apply Hr].
Qed.

Lemma sweep_blocks_spec fuel r : forall f lists prev changed, inv f lists -> block_seg f0 prev r 0 ->
  (forall b, b ∈ r -> b ∈ bs) -> (length r <= fuel)%nat ->
  exists c f' lists', sweep_blocks visit fuel (hd 0 r) f changed = Some (changed || c, f') /\ inv f' lists' /\
    if (c : bool) then live f' < live f else f' = f /\ forall b i, b ∈ r -> i ∈ lists b -> visit i f = Some (false, f).
Proof using Hvisit inv_placed inv_shape.
  revert fuel. induction r as [|b r IH]; intros fuel f lists prev changed Hinv Hs Hsub Hfuel.
  { exists false, f, lists. rewrite orb_false_r. split; [by destruct fuel|]. split; [done|]. split; [done|].
    by intros b i ?%elem_of_nil. }
  destruct Hs as [(d0 & Hd0 & _ & Hnext) Hs]. cbn [length] in Hfuel. destruct fuel as [|fuel]; [lia|].
  pose proof (block_lt _ _ _ Hd0) as [Hpos _]. cbn [sweep_blocks hd]. rewrite id_ok_pos by lia. cbn [negb].
  destruct (inv_block _ _ _ _ Hinv Hd0) as (d & Hd & _). rewrite Hd. cbn [mbind option_bind].
  destruct (pl_block _ _ (inv_placed _ _ Hinv) _ _ Hd) as (-> & _).
  destruct (sweep_insts_spec (length (insts_ f)) b (lists b) f lists [] changed Hinv ltac:(by eexists) ltac:(apply Hsub; left) eq_refl)
    as (c & f1 & lists1 & -> & Hinv1 & Hc); [by eapply list_fits; [apply inv_placed|]|]. cbn [mbind option_bind].
  destruct (inv_block _ _ _ _ Hinv1 Hd0) as (d1 & -> & Hn). cbn [mbind option_bind]. rewrite Hn, Hnext. destruct c.
  - destruct (IH fuel f1 lists1 b (changed || true) Hinv1 Hs ltac:(intros x Hx; apply Hsub; by right) ltac:(lia))
      as (c & f' & lists' & -> & Hinv' & Hc').
    exists true, f', lists'. split; [by destruct changed|]. split; [done|]. destruct c; [lia|by destruct Hc' as [-> _]].
  - destruct Hc as [-> Hr].
    destruct (IH fuel f lists b (changed || false) Hinv Hs ltac:(intros x Hx; apply Hsub; by right) ltac:(lia))
      as (c & f' & lists' & -> & Hinv' & Hc').
    exists c, f', lists'. rewrite orb_false_r. split; [done|]. split; [done|]. destruct c; [done|].
    destruct Hc' as [-> Hr']. split; [done|]. intros x i [->|Hx]%elem_of_cons Hi; [by apply Hr|by eapply Hr'].
Qed.

Lemma sweep_spec f lists : inv f lists ->
  exists c f' lists', sweep visit f = Some (c, f') /\ inv f' lists' /\
    if (c : bool) then live f' < live f else f' = f /\ forall b i, b ∈ bs -> i ∈ lists b -> visit i f = Some (false, f).
Proof using Hchain Hvisit inv_placed inv_shape.
  intros Hinv. pose proof (inv_shape _ _ Hinv) as Hsh. destruct (shape_chained _ _ _ Hsh Hchain) as [[He _] _ _].
  assert (Hlen : length (blocks_ f) = length (blocks_ f0)).
  { assert (Hb : blocks_ (shape f) = blocks_ (shape f0)) by by rewrite Hsh.
    cbn in Hb. apply (f_equal length) in Hb. by rewrite !length_map in Hb. }
  unfold sweep. rewrite He.
  destruct (sweep_blocks_spec (length (blocks_ f)) bs f lists 0 false Hinv (ch_seg _ _ Hchain))
    as (c & f' & lists' & E & Hinv' & Hc); [done| |by exists c, f', lists'].
  destruct (ids_bound bs (size (blocks_ f0)) (ch_nodup _ _ Hchain)) as [Hlt| ->]; [|unfold size in *; lia|cbn; lia].
  intros b Hb. destruct (block_seg_elem _ _ _ _ _ (ch_seg _ _ Hchain) Hb) as [d Hd]. by apply block_lt in Hd as [? _].
Qed.
End Visit.

(** Rounds that keep the invariant. *)
Definition round_ok (round : Function -> option (bool * Function)) (f : Function) : Prop :=
  exists c f' lists', round f = Some (c, f') /\ inv f' lists' /\ if (c : bool) then live f' < live f else f' = f.

Lemma rounds_spec round : (forall f lists, inv f lists -> round_ok round f) ->
  forall fuel f lists changed, inv f lists -> (Z.to_nat (live f) < fuel)%nat ->
  exists c f' lists', rounds round fuel f changed = Some (changed || c, f') /\ inv f' lists' /\
    (c = false -> f' = f) /\ round f' = Some (false, f').
Proof using.
  intros Hround. induction fuel as [|fuel IH]; intros f lists changed Hinv Hfuel; [lia|].
  destruct (Hround f lists Hinv) as (c & f1 & lists1 & E & Hinv1 & Hc). cbn [rounds]. rewrite E. cbn [mbind option_bind].
  destruct c.
  - assert (0 <= live f1) by apply size_nonneg.
    destruct (IH f1 lists1 true Hinv1 ltac:(lia)) as (c & f' & lists' & E' & Hinv' & _ & Hfix).
    exists true, f', lists'. rewrite E'. by rewrite orb_true_r.
  - subst f1. exists false, f, lists1. by rewrite orb_false_r.
Qed.

Lemma until_stable_spec round f lists : (forall f lists, inv f lists -> round_ok round f) -> inv f lists ->
  exists c f' lists', until_stable round f = Some (c, f') /\ inv f' lists' /\ (c = false -> f' = f) /\
    round f' = Some (false, f') /\ until_stable round f' = Some (false, f').
Proof using.
  intros Hround Hinv. pose proof (live_bound f).
  destruct (rounds_spec round Hround (S (length (insts_ f))) f lists false Hinv) as (c & f' & lists' & E & Hinv' & Hc & Hfix);
    [unfold size in *; lia|].
  exists c, f', lists'. split_and!; try done. unfold until_stable. cbn [rounds]. by rewrite Hfix.
Qed.
End Sweep.
