(* ===== verification/AirDce.v ===== *)
(** * Dead-code elimination (run_dce of src/air/passes.cpp)

    Each round counts the uses of every value by the instructions in the blocks and
    unlinks the instructions without effects whose result has none, until a round
    unlinks nothing. *)
From stdpp Require Import functions.
From S2P Require Import Prelude Vectors AirInsts AirTypes AirFunction AirLists AirSweep.
Open Scope Z_scope.

(** ** The pass *)

Definition is_removable (data : InstData) : bool :=
  bool_decide (opcode_result_kind (op data) = Result_Value) && negb (opcode_has_side_effects (op data)) &&
  (Z.land (flags data) INST_FLAG_VOLATILE =? 0).

(** The values an instruction uses: its operands, and the arguments of the block calls
    it can take. *)
Definition inst_uses (f : Function) (i : InstId) : option (list ValueId) :=
  ops ← operands f i;
  succs ← successors f i;
  args ← mapM (block_call_args f) succs;
  Some (ops ++ concat args).
Definition block_uses (f : Function) (b : BlockId) : option (list ValueId) :=
  insts ← inst_ids f b; uses ← mapM (inst_uses f) insts; Some (concat uses).
Definition collect_uses (f : Function) : option (list ValueId) :=
  bs ← block_ids f; uses ← mapM (block_uses f) bs; Some (concat uses).

(** [uses[v]], a 32-bit counter. *)
Definition use_count (uses : list ValueId) (v : ValueId) : Z := u32 (occurrences v uses).

Definition dce_at (uses : list ValueId) (i : InstId) (f : Function) : option (bool * Function) :=
  data ← inst f i;
  if is_removable data && (use_count uses (result data) =? 0)
  then f ← remove_inst i f; Some (true, f)
  else Some (false, f).

Definition dce_round (f : Function) : option (bool * Function) :=
  uses ← collect_uses f; sweep (dce_at uses) f.
Definition run_dce (f : Function) : option (bool * Function) := until_stable dce_round f.

(** ** What is used *)

(** [v] is used by an instruction of the blocks [bs]. *)
Definition used (f : Function) (bs : list BlockId) (lists : BlockId -> list InstId) (v : ValueId) : Prop :=
  exists b i uses, b ∈ bs /\ i ∈ lists b /\ inst_uses f i = Some uses /\ v ∈ uses.

(** The instructions in the blocks can be read. *)
Definition readable (f : Function) (bs : list BlockId) (lists : BlockId -> list InstId) : Prop :=
  forall b i, b ∈ bs -> i ∈ lists b -> is_Some (inst_uses f i).

Lemma skeleton_uses f f' i : skeleton f' = skeleton f -> inst_uses f' i = inst_uses f i.
Proof.
  intros H. pose proof (skeleton_inst _ _ i H) as Hi.
  assert (Hp : operand_pool_ f' = operand_pool_ f) by (change (operand_pool_ (skeleton f') = operand_pool_ (skeleton f)); by rewrite H).
  assert (Hc : block_calls_ f' = block_calls_ f) by (change (block_calls_ (skeleton f') = block_calls_ (skeleton f)); by rewrite H).
  assert (Hj : jump_tables_ f' = jump_tables_ f) by (change (jump_tables_ (skeleton f') = jump_tables_ (skeleton f)); by rewrite H).
  assert (Hl : block_call_lists_ f' = block_call_lists_ f)
    by (change (block_call_lists_ (skeleton f') = block_call_lists_ (skeleton f)); by rewrite H).
  assert (Ha : forall c, block_call_args f' c = block_call_args f c)
    by (intros c; unfold block_call_args, block_call; by rewrite Hp, Hc).
  assert (Hm : forall l, mapM (block_call_args f') l = mapM (block_call_args f) l)
    by (induction l as [|c l IH]; [done|]; cbn; rewrite Ha; by destruct (block_call_args f c); cbn; rewrite ?IH).
  unfold inst_uses, operands, successors. destruct (inst f' i) as [d'|], (inst f i) as [d|]; try done.
  injection Hi as E1 _ _ E2 E3 E4 E5 _. cbn [mbind option_bind]. rewrite Hp, E1, E2, E3, E4, E5.
  destruct (span _ _ _); [|done]. cbn [mbind option_bind]. unfold jump_table, block_call_list. rewrite Hj, Hl.
  match goal with |- mbind _ ?s = mbind _ ?s => destruct s end; [|done]. cbn [mbind option_bind]. by rewrite Hm.
Qed.

Lemma mapM_total {A B} (g : A -> option B) l : (forall x, x ∈ l -> is_Some (g x)) -> is_Some (mapM g l).
Proof.
  induction l as [|x l IH]; intros H; [by eexists|]. destruct (H x) as [y Hy]; [left|].
  destruct IH as [k Hk]; [intros z Hz; apply H; by right|]. cbn. rewrite Hy. cbn. rewrite Hk. by eexists.
Qed.
Lemma mapM_elem {A B} (g : A -> option B) l k y : mapM g l = Some k -> y ∈ k <-> mapM g l = Some k /\ exists x, x ∈ l /\ g x = Some y.
Proof.
  intros H. split; [intros Hy; split; [done|]|intros [_ Hy]; revert Hy].
  - revert k H Hy. induction l as [|x l IH]; intros k; [by intros [= <-] ?%elem_of_nil|].
    cbn. destruct (g x) as [z|] eqn:Hz; [|done]. cbn. destruct (mapM g l) as [k'|]; [|done]. cbn. intros [= <-].
    intros [->|Hy]%elem_of_cons; [exists x; split; [left|done]|].
    destruct (IH k' eq_refl Hy) as (w & Hw & Hg). exists w. split; [by right|done].
  - revert k H. induction l as [|x l IH]; intros k; [by intros _ (? & ?%elem_of_nil & _)|].
    cbn. destruct (g x) as [z|] eqn:Hz; [|done]. cbn. destruct (mapM g l) as [k'|]; [|done]. cbn. intros [= <-].
    intros (w & [->|Hw]%elem_of_cons & Hg); [rewrite Hg in Hz; injection Hz as ->; left|].
    right. apply (IH k'); [done|by exists w].
Qed.

Lemma concat_elem {A} (ls : list (list A)) x : x ∈ concat ls <-> exists l, l ∈ ls /\ x ∈ l.
Proof.
  induction ls as [|l ls IH]; cbn; [split; [by intros ?%elem_of_nil|by intros (? & ?%elem_of_nil & _)]|].
  rewrite elem_of_app, IH. split.
  - intros [H|(k & Hk & H)]; [exists l; split; [left|done]|exists k; split; [by right|done]].
  - intros (k & [->|Hk]%elem_of_cons & H); [by left|right; by exists k].
Qed.

Lemma collect_uses_spec f bs lists : placed f lists -> chained f bs -> readable f bs lists ->
  exists uses, collect_uses f = Some uses /\ forall v, v ∈ uses <-> used f bs lists v.
Proof.
  intros Hpl Hch Hread. unfold collect_uses. rewrite (block_ids_spec _ _ Hch). cbn [mbind option_bind].
  assert (Hb : forall b, b ∈ bs -> exists us, mapM (inst_uses f) (lists b) = Some us /\ block_uses f b = Some (concat us)).
  { intros b Hb. unfold block_uses. rewrite (inst_ids_spec _ lists); [|done|].
    - destruct (mapM_total (inst_uses f) (lists b)) as [us Hus]; [intros i Hi; by apply (Hread b)|].
      exists us. cbn [mbind option_bind]. by rewrite Hus.
    - eapply block_seg_elem; [apply Hch|done]. }
  destruct (mapM_total (block_uses f) bs) as [all Hall]; [intros b Hb'; destruct (Hb _ Hb') as (us & _ & ->); by eexists|].
  rewrite Hall. exists (concat all). split; [done|]. intros v. rewrite concat_elem. split.
  - intros (us & Hus & Hv). apply (mapM_elem _ _ _ _ Hall) in Hus as (_ & b & Hin & Hbu).
    destruct (Hb _ Hin) as (us' & Hus' & E). rewrite Hbu in E. injection E as ->. apply concat_elem in Hv as (u & Hu & Hv).
    apply (mapM_elem _ _ _ _ Hus') in Hu as (_ & i & Hi & Hui). by exists b, i, u.
  - intros (b & i & u & Hin & Hi & Hui & Hv). destruct (Hb _ Hin) as (us' & Hus' & E). exists (concat us'). split.
    + apply (mapM_elem _ _ _ _ Hall). split; [done|]. by exists b.
    + apply concat_elem. exists u. split; [|done]. apply (mapM_elem _ _ _ _ Hus'). split; [done|]. by exists i.
Qed.

Lemma use_count_zero uses v : size uses < 2 ^ 32 -> (use_count uses v =? 0) = negb (bool_decide (v ∈ uses)).
Proof.
  intros Hsz. unfold use_count, occurrences. set (l := filter (fun x => x = v) uses).
  assert (Hlen : size l <= size uses) by (unfold size, l; pose proof (length_filter (fun x => x = v) uses); lia).
  rewrite (uwrap_small 32); [|split; [apply size_nonneg|lia]].
  destruct (bool_decide_reflect (v ∈ uses)) as [Hin|Hout]; cbn [negb].
  - assert (Hl : v ∈ l) by by apply list_elem_of_filter. apply Z.eqb_neq. unfold size. destruct l; [by apply elem_of_nil in Hl|cbn; lia].
  - apply Z.eqb_eq. destruct l as [|x l'] eqn:E; [done|]. destruct Hout.
    assert (Hx : x ∈ l) by (rewrite E; left). by apply list_elem_of_filter in Hx as [-> ?].
Qed.

(** Fewer instructions have fewer uses. *)
Lemma mapM_sublist {A B} (g : A -> option B) l l' k : l' `sublist_of` l -> mapM g l = Some k ->
  exists k', mapM g l' = Some k' /\ k' `sublist_of` k.
Proof.
  intros Hs. revert k. induction Hs as [|x l1 l2 _ IH|x l1 l2 _ IH]; intros k Hk.
  - exists []. split; [done|]. apply sublist_nil_l.
  - cbn in *. destruct (g x) as [y|]; [|done]. cbn in *. destruct (mapM g l2) as [k2|]; [|done]. cbn in Hk.
    injection Hk as <-. destruct (IH k2 eq_refl) as (k' & -> & Hk'). exists (y :: k'). split; [done|by constructor].
  - cbn in Hk. destruct (g x) as [y|]; [|done]. cbn in Hk. destruct (mapM g l2) as [k2|]; [|done]. cbn in Hk.
    injection Hk as <-. destruct (IH k2 eq_refl) as (k' & -> & Hk'). exists k'. split; [done|by constructor].
Qed.
Lemma concat_sublist {A} (ls ls' : list (list A)) : ls' `sublist_of` ls -> concat ls' `sublist_of` concat ls.
Proof.
  induction 1 as [|x l1 l2 _ IH|x l1 l2 _ IH]; cbn; [done|by apply sublist_app|by apply sublist_inserts_l].
Qed.
Lemma mapM_pointwise {A B} (g g' : A -> option (list B)) l k :
  (forall x u, x ∈ l -> g x = Some u -> exists u', g' x = Some u' /\ u' `sublist_of` u) -> mapM g l = Some k ->
  exists k', mapM g' l = Some k' /\ concat k' `sublist_of` concat k.
Proof.
  intros H. revert k. induction l as [|x l IH]; intros k; [by intros [= <-]; exists []|]. cbn.
  destruct (g x) as [u|] eqn:Hu; [|done]. cbn. destruct (mapM g l) as [k0|]; [|done]. cbn. intros [= <-].
  destruct (H x u ltac:(left) Hu) as (u' & -> & Hsub). cbn.
  destruct (IH ltac:(intros y w Hy; apply H; by right) k0 eq_refl) as (k' & -> & Hk'). exists (u' :: k').
  split; [done|]. cbn. by apply sublist_app.
Qed.

Lemma uses_shrink f f' bs lists lists' uses : placed f lists -> chained f bs -> placed f' lists' ->
  skeleton f' = skeleton f -> (forall b, lists' b `sublist_of` lists b) -> collect_uses f = Some uses ->
  exists uses', collect_uses f' = Some uses' /\ size uses' <= size uses.
Proof.
  intros Hpl Hch Hpl' Hsk Hsub. unfold collect_uses. pose proof (chained_skeleton _ _ _ Hsk Hch) as Hch'.
  rewrite (block_ids_spec _ _ Hch), (block_ids_spec _ _ Hch'). cbn [mbind option_bind].
  destruct (mapM (block_uses f) bs) as [us|] eqn:Hus; [|done]. cbn [mbind option_bind]. intros [= <-].
  destruct (mapM_pointwise (block_uses f) (block_uses f') bs us) as (us' & -> & Hs); [|done|].
  - intros b u Hb. unfold block_uses.
    rewrite (inst_ids_spec _ lists), (inst_ids_spec _ lists'); [|done| |done|]; cycle 1.
    { eapply block_seg_elem; [apply Hch'|done]. }
    { eapply block_seg_elem; [apply Hch|done]. }
    cbn [mbind option_bind]. destruct (mapM (inst_uses f) (lists b)) as [w|] eqn:Hw; [|done]. cbn. intros [= <-].
    destruct (mapM_sublist _ _ _ _ (Hsub b) Hw) as (w' & Hw' & Hs').
    assert (E : mapM (inst_uses f') (lists' b) = mapM (inst_uses f) (lists' b)).
    { clear -Hsk. induction (lists' b) as [|i l IH]; [done|]. cbn. rewrite IH. by rewrite (skeleton_uses f f'). }
    rewrite E, Hw'. cbn. exists (concat w'). split; [done|]. by apply concat_sublist.
  - exists (concat us'). split; [done|]. unfold size. apply sublist_length in Hs. lia.
Qed.

(** ** The pass is correct *)

Section Dce.
Context (f0 : Function) (bs : list BlockId) (lists0 : BlockId -> list InstId).
Hypothesis Hchain : chained f0 bs.
Hypothesis Hread : readable f0 bs lists0.
Hypothesis Hplaced : placed f0 lists0.
Hypothesis Hsmall : forall uses, collect_uses f0 = Some uses -> size uses < 2 ^ 32.

(** The function after some removals: what was removed is removable and unused. *)
Record dce_inv (f : Function) (lists : BlockId -> list InstId) : Prop := {
  di_placed : placed f lists;
  di_skeleton : skeleton f = skeleton f0;
  di_sublist : forall b, lists b `sublist_of` lists0 b;
  di_removed : forall b i, i ∈ lists0 b -> i ∉ lists b ->
    exists d, inst f0 i = Some d /\ is_removable d = true /\ ~ used f bs lists (result d) }.

Lemma used_sublist f f' lists lists' v : skeleton f' = skeleton f -> (forall b, lists' b `sublist_of` lists b) ->
  used f' bs lists' v -> used f bs lists v.
Proof using.
  intros Hsk Hsub (b & i & us & Hb & Hi & Hu & Hv). exists b, i, us. rewrite <- (skeleton_uses f f' i Hsk).
  split_and!; try done. by eapply elem_of_sublist.
Qed.

(** The uses counted at the start of a round. *)
Record counted (uses : list ValueId) (f : Function) (lists : BlockId -> list InstId) : Prop := {
  ct_inv : dce_inv f lists;
  ct_small : size uses < 2 ^ 32;
  ct_uses : forall v, used f bs lists v -> v ∈ uses }.

Lemma dce_count f lists : dce_inv f lists ->
  exists uses, collect_uses f = Some uses /\ counted uses f lists /\ forall v, v ∈ uses <-> used f bs lists v.
Proof using Hchain Hplaced Hread Hsmall.
  intros [Hpl Hsk Hsub Hrem]. destruct (collect_uses_spec f0 bs lists0 Hplaced Hchain Hread) as (u0 & Hu0 & _).
  destruct (uses_shrink f0 f bs lists0 lists u0 Hplaced Hchain Hpl Hsk Hsub Hu0) as (uses & Hu & Hsz).
  destruct (collect_uses_spec f bs lists Hpl) as (uses' & Hu' & Hspec).
  - by apply (chained_skeleton f0).
  - intros b i Hb Hi. rewrite (skeleton_uses f0 f i Hsk). apply (Hread b); [done|]. by eapply elem_of_sublist.
  - assert (uses' = uses) as -> by congruence. exists uses. split; [done|]. split; [|done].
    split; [done|specialize (Hsmall _ Hu0); lia|apply Hspec].
Qed.

Lemma dce_visits uses f lists i data : counted uses f lists -> inst f i = Some data -> inst_block data <> 0 ->
  visits (counted uses) (dce_at uses) f lists i data.
Proof using.
  intros [[Hpl Hsk Hsub Hrem] Hsz Huses] Hi Hb. unfold visits, dce_at. rewrite Hi. cbn [mbind option_bind].
  rewrite use_count_zero by done. destruct (is_removable data) eqn:Hr; cbn [andb]; [|by exists false, f].
  destruct (bool_decide_reflect (result data ∈ uses)) as [Hin|Hout]; cbn [negb]; [by exists false, f|].
  destruct (remove_inst_spec f lists i data Hpl Hi Hb) as (f' & l1 & l2 & -> & Hl & Hpl' & Hsk' & Hhome).
  exists true, f'. split; [done|]. exists l1, l2. split; [done|].
  split; [pose proof (live_removed f f' i data Hi Hb Hhome); lia|].
  set (lists' := <[inst_block data := l1 ++ l2]> lists) in *.
  assert (Hsub' : forall b, lists' b `sublist_of` lists b).
  { intros b. unfold lists'. destruct (decide (b = inst_block data)) as [->|Hne]; [|by rewrite fn_lookup_insert_ne].
    rewrite fn_lookup_insert, Hl. apply sublist_app; [done|by constructor]. }
  assert (Hused : forall v, used f' bs lists' v -> used f bs lists v) by (intros v; by apply used_sublist).
  split; [split|done|intros v Hv; by apply Huses, Hused]; [done|congruence|intros b; etrans; [apply Hsub'|apply Hsub]|].
  intros b j Hj0 Hj. assert (Hcase : j = i \/ j ∉ lists b).
  { unfold lists' in Hj. destruct (decide (b = inst_block data)) as [->|Hne]; [|right; by rewrite fn_lookup_insert_ne in Hj].
    rewrite fn_lookup_insert in Hj. destruct (decide (j = i)) as [->|Hji]; [by left|right]. rewrite Hl.
    rewrite elem_of_app in *. rewrite elem_of_cons. tauto. }
  destruct Hcase as [->|Hj'].
  - pose proof (skeleton_inst f0 f i Hsk) as Hc. rewrite Hi in Hc. destruct (inst f0 i) as [d|]; [|done].
    exists d. split; [done|]. unfold is_removable in *.
    assert (op data = op d /\ flags data = flags d /\ result data = result d) as (<- & <- & <-) by by injection Hc.
    split; [done|]. intros Hu. by apply Hout, Huses, Hused.
  - destruct (Hrem b j Hj0 Hj') as (d & Hd & Hrd & Hnu). exists d. split_and!; try done. intros Hu. by apply Hnu, Hused.
Qed.

Lemma dce_inv_shape f lists : dce_inv f lists -> shape f = shape f0.
Proof using. intros [_ Hsk _ _]. by apply skeleton_shape. Qed.

Lemma dce_round_spec f lists : dce_inv f lists ->
  exists c f' lists', dce_round f = Some (c, f') /\ dce_inv f' lists' /\
    if (c : bool) then live f' < live f
    else f' = f /\ forall b i d, b ∈ bs -> i ∈ lists b -> inst f i = Some d -> is_removable d = true -> used f bs lists (result d).
Proof using Hchain Hplaced Hread Hsmall.
  intros Hinv. destruct (dce_count f lists Hinv) as (uses & Hu & Hct & Hspec). unfold dce_round. rewrite Hu.
  cbn [mbind option_bind].
  destruct (sweep_spec f0 bs (counted uses) Hchain (fun f l H => di_placed _ _ (ct_inv _ _ _ H))
    (fun f l H => dce_inv_shape _ _ (ct_inv _ _ _ H)) (dce_at uses)) with (f := f) (lists := lists)
    as (c & f' & lists' & E & [Hinv' _ _] & Hc); [intros; by apply dce_visits|done|].
  exists c, f', lists'. split; [done|]. split; [done|]. destruct c; [done|]. destruct Hc as [-> Hv]. split; [done|].
  intros b i d Hb Hi Hd Hr. specialize (Hv b i Hb Hi). unfold dce_at in Hv. rewrite Hd in Hv. cbn [mbind option_bind] in Hv.
  rewrite Hr, use_count_zero in Hv by apply Hct. cbn [andb] in Hv.
  destruct (bool_decide_reflect (result d ∈ uses)) as [Hin|Hout]; [by apply Hspec|]. cbn [negb] in Hv.
  by destruct (remove_inst i f).
Qed.
End Dce.

(** Claim C18: Dead-code elimination finishes and is exact: it only unlinks; what it
    unlinks has no effects, is not volatile and is used by no instruction that stays;
    what stays and could be unlinked is used by one; run again, it changes nothing. *)
Theorem dce_exact (f : Function) (bs : list BlockId) (lists : BlockId -> list InstId)
    (Hplaced : placed f lists) (Hchain : chained f bs) (Hread : readable f bs lists)
    (Hsmall : forall uses, collect_uses f = Some uses -> size uses < 2 ^ 32) :
  exists changed f' lists', run_dce f = Some (changed, f') /\ placed f' lists' /\ skeleton f' = skeleton f /\
    (changed = false -> f' = f) /\ run_dce f' = Some (false, f') /\
    (forall b, lists' b `sublist_of` lists b) /\
    (forall b i, i ∈ lists b -> i ∉ lists' b ->
       exists d, inst f i = Some d /\ is_removable d = true /\ ~ used f' bs lists' (result d)) /\
    (forall b i d, b ∈ bs -> i ∈ lists' b -> inst f' i = Some d -> is_removable d = true -> used f' bs lists' (result d)).
Proof.
  assert (Hinv : dce_inv f bs lists f lists) by (split; [done|done|done|by intros]).
  assert (Hround : forall g l, dce_inv f bs lists g l -> round_ok (dce_inv f bs lists) dce_round g).
  { intros g l Hi. destruct (dce_round_spec f bs lists Hchain Hread Hplaced Hsmall g l Hi) as (c & g' & l' & E & Hi' & Hc).
    exists c, g', l'. split; [done|]. split; [done|]. destruct c; [done|by destruct Hc]. }
  destruct (until_stable_spec _ _ f lists Hround Hinv) as (c & f' & lists' & E & Hinv' & Hc & Hlast & Hfix).
  destruct (dce_round_spec f bs lists Hchain Hread Hplaced Hsmall f' lists' Hinv') as (c2 & g & l2 & E2 & _ & Hc2).
  rewrite Hlast in E2. injection E2 as <- <-. destruct Hc2 as [_ Hused]. destruct Hinv' as [P S Sb R].
  exists c, f', lists'. split_and!; done.
Qed.

(** Two additions only the second of which uses the first, and a trap. *)
Definition dead_chain : option Function :=
  '(b, f) ← create_block [] new_function; '(c, f) ← const_int I32 1 0 f;
  '(i, f) ← make_inst Op_Iadd I32 [c; c] 0 0 0 f; f ← append_inst b i f;
  '(i, f) ← make_inst Op_Iadd I32 [2; c] 0 0 0 f; f ← append_inst b i f;
  '(i, f) ← make_inst Op_Trap 0 [] 0 0 0 f; append_inst b i f.
Definition dead_function : Function := match dead_chain with Some f => f | None => new_function end.
Definition dead_lists (b : BlockId) : list InstId := if b =? 1 then [1; 2; 3] else [].

Lemma dce_exact_witness : exists f', run_dce dead_function = Some (true, f') /\ inst_ids f' 1 = Some [3] /\
  skeleton f' = skeleton dead_function /\ run_dce f' = Some (false, f').
Proof.
  assert (Hp : placed dead_function dead_lists) by (apply placed_check_ok; vm_compute; reflexivity).
  assert (Hc : chained dead_function [1]) by (apply chained_check_ok; vm_compute; reflexivity).
  assert (Hr : readable dead_function [1] dead_lists).
  { intros b i ->%list_elem_of_singleton Hi. change (dead_lists 1) with [1; 2; 3] in Hi.
    rewrite !elem_of_cons in Hi. destruct Hi as [->|[->|[->|Hi]]]; [vm_compute; by eexists..|by apply elem_of_nil in Hi]. }
  assert (Hs : forall uses, collect_uses dead_function = Some uses -> size uses < 2 ^ 32).
  { intros uses Hu. vm_compute in Hu. injection Hu as <-. reflexivity. }
  destruct (dce_exact dead_function [1] dead_lists Hp Hc Hr Hs) as (c & f' & lists' & E & _ & Hsk & _ & Hfix & _).
  assert (Hg : exists g, run_dce dead_function = Some (true, g) /\ inst_ids g 1 = Some [3]).
  { eexists. split; vm_compute; reflexivity. }
  destruct Hg as (g & Eg & Hl). rewrite Eg in E. injection E as <- <-. exists g.
  split; [exact Eg|]. split; [exact Hl|]. split; [exact Hsk|exact Hfix].
Defined.
