(* ===== verification/Dominators.v ===== *)
(** * Dominator trees (src/air/dominators.h, src/air/dominators.cpp)

    [compute] numbers the reachable blocks by a depth-first search with an
    explicit stack, then iterates over them in reverse postorder, intersecting
    the dominators of the predecessors, until nothing changes. The loops of the
    code carry fuel here; [DominatorsProps] shows that it is never used up. *)
From S2P Require Import Prelude Vectors AirInsts AirTypes AirFunction.
Open Scope Z_scope.

Definition UINT32_MAX : Z := 2 ^ 32 - 1.

Record DominatorTree := mkTree {
  rpo_ : list BlockId; rpo_index_ : list Z; idom_ : list BlockId; entry_ : BlockId }.

Definition collect_successor_blocks (func : Function) (b : BlockId) : option (list BlockId) :=
  data ← block func b;
  let last := last_inst data in
  if negb (id_ok last) then Some []
  else
    last_data ← inst func last;
    if negb (opcode_is_terminator (op last_data)) then Some []
    else calls ← successors func last; mapM (fun call => c ← block_call func call; Some (target c)) calls.

(** ** Depth-first search

    The stack holds blocks with the number of their next successor, its top
    first. [visited] is [state[b] != 0]; whether a block is finished is only
    recorded, never read. *)
Record DfsState := mkDfs {
  visited : list bool; stack : list (BlockId * Z); postorder : list BlockId; succ_cache : list (list BlockId) }.

Definition dfs_visit (func : Function) (b : BlockId) (st : DfsState) : option DfsState :=
  succs ← collect_successor_blocks func b;
  Some (mkDfs (put (visited st) b true) ((b, 0) :: stack st) (postorder st) (put (succ_cache st) b succs)).

Definition dfs_step (func : Function) (st : DfsState) (b : BlockId) (next_succ : Z) (rest : list (BlockId * Z))
    : option DfsState :=
  block_succs ← at_ (succ_cache st) b;
  if next_succ <? size block_succs then
    succ ← at_ block_succs next_succ;
    seen ← at_ (visited st) succ;
    let st := mkDfs (visited st) ((b, next_succ + 1) :: rest) (postorder st) (succ_cache st) in
    if (seen : bool) then Some st else dfs_visit func succ st
  else Some (mkDfs (visited st) rest (postorder st ++ [b]) (succ_cache st)).

Fixpoint dfs (fuel : nat) (func : Function) (st : DfsState) : option DfsState :=
  match stack st with
  | [] => Some st
  | (b, next_succ) :: rest =>
      match fuel with
      | O => None
      | S fuel => st ← dfs_step func st b next_succ rest; dfs fuel func st
      end
  end.

(** Every block is pushed once, and each of its successors is looked at once. *)
Definition succ_count (func : Function) (b : BlockId) : nat :=
  match collect_successor_blocks func b with Some l => length l | None => 0 end.
Definition all_ids (func : Function) : list BlockId := map Z.of_nat (seq 0 (length (blocks_ func))).
Definition dfs_fuel (func : Function) : nat := list_sum (map (fun b => S (succ_count func b)) (all_ids func)).

(** ** The iteration *)

(** [while (rpo_index_[a] > rpo_index_[b]) a = idom_[a];] *)
Fixpoint climb (fuel : nat) (rpo_index : list Z) (idom : list BlockId) (a b : BlockId) : option BlockId :=
  ia ← at_ rpo_index a;
  ib ← at_ rpo_index b;
  if ib <? ia then
    match fuel with
    | O => None
    | S fuel => a ← at_ idom a; climb fuel rpo_index idom a b
    end
  else Some a.

Fixpoint intersect (fuel : nat) (rpo_index : list Z) (idom : list BlockId) (a b : BlockId) : option BlockId :=
  if a =? b then Some a
  else match fuel with
  | O => None
  | S fuel =>
      a ← climb (length rpo_index) rpo_index idom a b;
      b ← climb (length rpo_index) rpo_index idom b a;
      intersect fuel rpo_index idom a b
  end.

(** The loop over the predecessors. *)
Fixpoint new_idom_loop (rpo_index : list Z) (idom : list BlockId) (preds : list BlockId) (new_idom : BlockId)
    : option BlockId :=
  match preds with
  | [] => Some new_idom
  | pred :: preds =>
      d ← at_ idom pred;
      if negb (id_ok d) then new_idom_loop rpo_index idom preds new_idom
      else
        new_idom ← (if id_ok new_idom then intersect (length rpo_index) rpo_index idom new_idom pred else Some pred);
        new_idom_loop rpo_index idom preds new_idom
  end.

(** One pass over the blocks in reverse postorder; also whether it changed something. *)
Fixpoint idom_pass (entry : BlockId) (rpo_index : list Z) (preds : list (list BlockId)) (blocks : list BlockId)
    (idom : list BlockId) (changed : bool) : option (list BlockId * bool) :=
  match blocks with
  | [] => Some (idom, changed)
  | b :: blocks =>
      if b =? entry then idom_pass entry rpo_index preds blocks idom changed
      else
        ps ← at_ preds b;
        new_idom ← new_idom_loop rpo_index idom ps 0;
        if negb (id_ok new_idom) then None
        else
          old ← at_ idom b;
          if old =? new_idom then idom_pass entry rpo_index preds blocks idom changed
          else idom_pass entry rpo_index preds blocks (put idom b new_idom) true
  end.

Fixpoint idom_loop (fuel : nat) (entry : BlockId) (rpo_index : list Z) (preds : list (list BlockId))
    (rpo idom : list BlockId) : option (list BlockId) :=
  match fuel with
  | O => None
  | S fuel =>
      '(idom, changed) ← idom_pass entry rpo_index preds rpo idom false;
      if (changed : bool) then idom_loop fuel entry rpo_index preds rpo idom else Some idom
  end.

(** [rpo_index_[rpo_[i].index] = i] *)
Fixpoint number_blocks (rpo : list BlockId) (i : Z) (rpo_index : list Z) : option (list Z) :=
  match rpo with
  | [] => Some rpo_index
  | b :: rpo => v ← modify rpo_index b (fun _ => i); number_blocks rpo (i + 1) v
  end.

Definition add_pred (b : BlockId) (preds : option (list (list BlockId))) (succ : BlockId)
    : option (list (list BlockId)) :=
  preds ← preds; modify preds succ (fun l => l ++ [b]).
Definition add_preds (succ_cache : list (list BlockId)) (preds : option (list (list BlockId))) (b : BlockId)
    : option (list (list BlockId)) :=
  succs ← at_ succ_cache b; fold_left (add_pred b) succs preds.

Definition compute (func : Function) : option DominatorTree :=
  let block_slots := length (blocks_ func) in
  let entry := entry_block_ func in
  let rpo_index := replicate block_slots UINT32_MAX in
  let idom := replicate block_slots 0 in
  if negb (id_ok entry) then Some (mkTree [] rpo_index idom entry)
  else
    st ← dfs_visit func entry (mkDfs (replicate block_slots false) [] [] (replicate block_slots []));
    st ← dfs (dfs_fuel func) func st;
    let rpo := reverse (postorder st) in
    rpo_index ← number_blocks rpo 0 rpo_index;
    preds ← fold_left (add_preds (succ_cache st)) rpo (Some (replicate block_slots []));
    idom ← modify idom entry (fun _ => entry);
    idom ← idom_loop (S (block_slots * block_slots)) entry rpo_index preds rpo idom;
    Some (mkTree rpo rpo_index idom entry).

(** ** Queries *)

Definition reachable (t : DominatorTree) (b : BlockId) : bool :=
  match at_ (rpo_index_ t) b with Some i => negb (i =? UINT32_MAX) | None => false end.

Definition idom (t : DominatorTree) (b : BlockId) : option BlockId :=
  if negb (reachable t b) || (b =? entry_ t) then Some 0 else at_ (idom_ t) b.

Definition dominates (t : DominatorTree) (a b : BlockId) : option bool :=
  if negb (reachable t a) || negb (reachable t b) then Some false
  else b ← climb (length (rpo_index_ t)) (rpo_index_ t) (idom_ t) b a; Some (a =? b).
