(* ===== verification/DominatorsIter.v ===== *)
(** * The iteration of the dominator computation (src/air/dominators.cpp)

    For any numbering of the blocks in which every block but the entry has a
    predecessor with a smaller number, the iteration over the predecessors ends,
    and the chain of [idom_] from a block holds exactly its dominators. *)
From stdpp Require Import relations.
From S2P Require Import Prelude Vectors AirInsts AirTypes AirFunction Dominators.
Open Scope Z_scope.

(** ** Paths and dominance in a graph *)

Section Graph.
Context (E : Z -> Z -> Prop) (entry : Z).

(** [path l b]: the blocks [l] lead from the entry to [b]. *)
Inductive path : list Z -> Z -> Prop :=
  | path_entry : path [entry] entry
  | path_snoc l y z : path l y -> E y z -> path (l ++ [z]) z.

(** Every path from the entry to [b] goes through [d]. *)
Definition dominated_by (b d : Z) : Prop := forall l, path l b -> d ∈ l.

Lemma path_end l b : path l b -> b ∈ l.
Proof using. intros []; [left|]. apply elem_of_app. right. left. Qed.
Lemma dominated_by_refl b : dominated_by b b.
Proof using. intros l. apply path_end. Qed.
Lemma dominated_by_pred b d p : dominated_by b d -> d <> b -> E p b -> dominated_by p d.
Proof using.
  intros Hd Hne He l Hl. pose proof (Hd _ (path_snoc _ _ _ Hl He)) as Hin.
  by apply elem_of_app in Hin as [Hin|Hin%list_elem_of_singleton].
Qed.
End Graph.

(** ** Numberings *)

Section Iteration.
Context (E : Z -> Z -> Prop) (entry : Z) (slots : nat) (rpo rpo_index : list Z) (preds : list (list Z)).

Definition pos (b : Z) : Z := match at_ rpo_index b with Some i => i | None => 0 end.

Record numbering_ok : Prop := {
  no_size : length rpo_index = slots /\ length preds = slots /\ (length rpo <= slots)%nat;
  no_entry : rpo !! 0%nat = Some entry;
  no_index : forall b i, rpo !! i = Some b -> at_ rpo_index b = Some (Z.of_nat i);
  no_ids : forall b, b ∈ rpo -> b <> 0;
  no_preds : forall b, b ∈ rpo -> exists l, at_ preds b = Some l /\ forall p, p ∈ l <-> p ∈ rpo /\ E p b;
  no_fwd : forall b, b ∈ rpo -> b <> entry -> exists p, p ∈ rpo /\ E p b /\ pos p < pos b }.

Hypothesis Hno : numbering_ok.
Abbreviation path := (path E entry).
Abbreviation dom d b := (dominated_by E entry b d).

Lemma rpo_index_at b : b ∈ rpo -> at_ rpo_index b = Some (pos b) /\ 0 <= pos b < Z.of_nat (length rpo).
Proof using Hno.
  intros [i Hi]%list_elem_of_lookup. pose proof (no_index Hno _ _ Hi) as Ha. unfold pos. rewrite Ha.
  apply lookup_lt_Some in Hi. split; [done|lia].
Qed.
Lemma pos_bound b : b ∈ rpo -> 0 <= pos b < Z.of_nat (length rpo).
Proof using Hno. intros H. by apply rpo_index_at. Qed.
Lemma pos_inj a b : a ∈ rpo -> b ∈ rpo -> pos a = pos b -> a = b.
Proof using Hno.
  intros [i Hi]%list_elem_of_lookup [j Hj]%list_elem_of_lookup. unfold pos.
  rewrite (no_index Hno _ _ Hi), (no_index Hno _ _ Hj). intros Heq. apply Nat2Z.inj in Heq. subst. congruence.
Qed.
Lemma entry_rpo : entry ∈ rpo.
Proof using Hno. eapply list_elem_of_lookup_2, no_entry, Hno. Qed.
Lemma pos_entry : pos entry = 0.
Proof using Hno. unfold pos. by rewrite (no_index Hno _ _ (no_entry Hno)). Qed.
Lemma pos_not_entry b : b ∈ rpo -> b <> entry -> 0 < pos b.
Proof using Hno.
  intros Hb Hne. pose proof (pos_bound _ Hb). destruct (decide (pos b = 0)) as [Hz|]; [|lia].
  destruct Hne. apply pos_inj; [done|apply entry_rpo|]. by rewrite pos_entry.
Qed.

Lemma fwd_path b : b ∈ rpo -> exists l, path l b /\ forall x, x ∈ l -> x ∈ rpo /\ pos x <= pos b.
Proof using Hno.
  intros Hb. remember (Z.to_nat (pos b)) as n eqn:Hn. revert b Hb Hn.
  induction (lt_wf n) as [n _ IH]. intros b Hb ->.
  destruct (decide (b = entry)) as [->|Hne].
  - exists [entry]. split; [constructor|]. intros x ->%list_elem_of_singleton. split; [apply entry_rpo|lia].
  - destruct (no_fwd Hno b Hb Hne) as (p & Hp & He & Hlt).
    pose proof (pos_bound _ Hp). pose proof (pos_bound _ Hb).
    destruct (IH (Z.to_nat (pos p)) ltac:(lia) p Hp eq_refl) as (l & Hl & Hall).
    exists (l ++ [b]). split; [by econstructor|]. intros x Hx.
    apply elem_of_app in Hx as [Hx| ->%list_elem_of_singleton]; [|split; [done|lia]].
    destruct (Hall x Hx). split; [done|lia].
Qed.
Lemma dom_pos d b : b ∈ rpo -> dom d b -> d ∈ rpo /\ pos d <= pos b.
Proof using Hno. intros Hb Hd. destruct (fwd_path b Hb) as (l & Hl & Hall). apply Hall, Hd, Hl. Qed.

(** ** The forest of [idom_] *)

Definition up (D : list Z) (b v : Z) : Prop := b <> entry /\ at_ D b = Some v /\ v <> 0.
Abbreviation anc D := (rtc (up D)).
Definition processed (D : list Z) (b : Z) : Prop := exists v, at_ D b = Some v /\ v <> 0.

Record forest (D : list Z) : Prop := {
  fo_size : length D = slots;
  fo_entry : at_ D entry = Some entry;
  fo_up : forall b v, b ∈ rpo -> up D b v -> v ∈ rpo /\ pos v < pos b /\ processed D v;
  fo_dom : forall b v d, b ∈ rpo -> up D b v -> dom d b -> d <> b -> dom d v }.

Lemma up_functional D b v w : up D b v -> up D b w -> v = w.
Proof using. intros (_ & H1 & _) (_ & H2 & _). congruence. Qed.
Lemma processed_up D b : processed D b -> b <> entry -> exists v, up D b v.
Proof using. intros (v & Hv & H0) Hne. by exists v. Qed.
Lemma up_processed D b v : up D b v -> processed D b.
Proof using. intros (_ & Hv & H0). by exists v. Qed.
Lemma entry_processed D : forest D -> processed D entry.
Proof using Hno. intros HD. exists entry. split; [apply HD|]. apply (no_ids Hno), entry_rpo. Qed.

Lemma anc_pos D b x : forest D -> b ∈ rpo -> anc D b x -> x ∈ rpo /\ (x = b \/ pos x < pos b).
Proof using.
  intros HD Hb Hx. revert Hb. induction Hx as [b|b v x Hup _ IH]; intros Hb; [by auto|].
  destruct (fo_up _ HD _ _ Hb Hup) as (Hv & Hlt & _). destruct (IH Hv) as [Hx [->|Hx']]; split; auto; right; lia.
Qed.
Lemma anc_processed D b x : forest D -> b ∈ rpo -> processed D b -> anc D b x -> processed D x.
Proof using.
  intros HD Hb Hp Hx. revert Hb Hp. induction Hx as [b|b v x Hup _ IH]; intros Hb Hp; [done|].
  destruct (fo_up _ HD _ _ Hb Hup) as (Hv & _ & Hpv). by apply IH.
Qed.
Lemma anc_le D b x : forest D -> b ∈ rpo -> anc D b x -> x ∈ rpo /\ pos x <= pos b.
Proof using. intros HD Hb Hx. destruct (anc_pos _ _ _ HD Hb Hx) as [Hr [->|Hlt]]; split; auto; lia. Qed.

(** The ancestors of a block are linearly ordered. *)
Lemma anc_total D b x y : anc D b x -> anc D b y -> anc D x y \/ anc D y x.
Proof using.
  intros Hx. revert y. induction Hx as [b|b v x Hup Hvx IH]; intros y Hy; [by left|].
  inversion Hy as [|? w ? Hup' Hy']; subst; [right; by econstructor|].
  rewrite (up_functional _ _ _ _ Hup Hup') in *. by apply IH.
Qed.
Lemma anc_linear D b x y : forest D -> b ∈ rpo -> anc D b x -> anc D b y -> pos x <= pos y -> anc D y x.
Proof using.
  intros HD Hb Hx Hy Hle. destruct (anc_total _ _ _ _ Hx Hy) as [H|H]; [|done].
  destruct (anc_pos _ _ _ HD (proj1 (anc_le _ _ _ HD Hb Hx)) H) as [_ [->|Hlt]]; [done|lia].
Qed.
Lemma anc_step D b v x : up D b v -> anc D b x -> x <> b -> anc D v x.
Proof using.
  intros Hup Hx Hne. inversion Hx as [|? w ? Hup' Hx']; subst; [done|].
  by rewrite (up_functional _ _ _ _ Hup Hup').
Qed.

(** Dominators are on the chain. *)
Lemma dom_anc D b d :
  forest D -> (forall x, x ∈ rpo -> processed D x) -> b ∈ rpo -> dom d b -> anc D b d.
Proof using Hno.
  intros HD Hall Hb. remember (Z.to_nat (pos b)) as n eqn:Hn. revert b Hb Hn.
  induction (lt_wf n) as [n _ IH]. intros b Hb -> Hd.
  destruct (decide (d = b)) as [->|Hne]; [done|]. destruct (decide (b = entry)) as [->|Hent].
  - destruct Hne. pose proof (Hd [entry] (path_entry _ _)) as Hin. by apply list_elem_of_singleton in Hin.
  - destruct (processed_up D b (Hall b Hb) Hent) as [v Hup].
    destruct (fo_up _ HD _ _ Hb Hup) as (Hv & Hlt & _). pose proof (pos_bound _ Hv).
    econstructor; [exact Hup|]. apply (IH (Z.to_nat (pos v))); [lia|done|done|].
    exact (fo_dom _ HD b v d Hb Hup Hd Hne).
Qed.

(** ** The loops *)

Lemma climb_spec D fuel a b :
  forest D -> a ∈ rpo -> b ∈ rpo -> processed D a -> pos a <= Z.of_nat fuel ->
  exists a', climb fuel rpo_index D a b = Some a' /\ anc D a a' /\ processed D a' /\
    pos a' <= pos b /\ (pos a <= pos b -> a' = a) /\
    (forall x, anc D a x -> pos x <= pos b -> anc D a' x) /\
    (forall d, dom d a -> pos d <= pos b -> dom d a').
Proof using Hno.
  intros HD Ha Hb. revert a Ha. induction fuel as [|fuel IH]; intros a Ha Hp Hf; cbn;
    destruct (rpo_index_at a Ha) as [-> Hra], (rpo_index_at b Hb) as [-> Hrb]; cbn;
    destruct (Z.ltb_spec (pos b) (pos a)) as [Hlt|Hle]; try lia.
  - exists a. by split_and!.
  - assert (Hent : a <> entry) by (intros ->; rewrite pos_entry in *; lia).
    destruct (processed_up D a Hp Hent) as [v Hup]. destruct (fo_up _ HD _ _ Ha Hup) as (Hv & Hlt' & Hpv).
    destruct Hup as (_ & Hat & H0). rewrite Hat. cbn.
    assert (Hup : up D a v) by done.
    destruct (IH v Hv Hpv ltac:(lia)) as (a' & -> & Hanc & Hp' & Hle & _ & Hx & Hdom).
    exists a'. split; [done|]. split; [by econstructor|]. split; [done|]. split; [done|].
    split; [lia|]. split.
    + intros x Hax Hpx. apply Hx; [|done]. eapply anc_step; [done|done|]. intros ->. lia.
    + intros d Hd Hpd. apply Hdom; [|done]. eapply (fo_dom _ HD); [exact Ha|done|done|]. intros ->. lia.
  - exists a. by split_and!.
Qed.

Lemma intersect_spec D fuel a b :
  forest D -> a ∈ rpo -> b ∈ rpo -> processed D a -> processed D b ->
  Z.max (pos a) (pos b) < Z.of_nat fuel ->
  exists r, intersect fuel rpo_index D a b = Some r /\ anc D a r /\ anc D b r /\
    (forall x, anc D a x -> anc D b x -> anc D r x) /\ (forall d, dom d a -> dom d b -> dom d r).
Proof using Hno.
  intros HD. revert a b. induction fuel as [|fuel IH]; intros a b Ha Hb Hpa Hpb Hf.
  { pose proof (pos_bound _ Ha). lia. }
  cbn. destruct (Z.eqb_spec a b) as [->|Hne].
  { exists b. by split_and!. }
  destruct (no_size Hno) as (Hlen & _ & Hrpo). pose proof (pos_bound _ Ha). pose proof (pos_bound _ Hb).
  destruct (climb_spec D (length rpo_index) a b HD Ha Hb Hpa ltac:(lia))
    as (a' & -> & Haa & Hpa' & Hle & Hsame & Hax & Had). cbn.
  destruct (anc_pos _ _ _ HD Ha Haa) as [Ha' Hca].
  destruct (climb_spec D (length rpo_index) b a' HD Hb Ha' Hpb ltac:(lia))
    as (b' & -> & Hbb & Hpb' & Hle' & Hsame' & Hbx & Hbd). cbn.
  destruct (anc_pos _ _ _ HD Hb Hbb) as [Hb' Hcb].
  assert (Hpne : pos a <> pos b) by (intros Heq; by apply Hne, pos_inj).
  assert (Hmax : Z.max (pos a') (pos b') < Z.of_nat fuel).
  { destruct Hca as [->|Hca], Hcb as [->|Hcb]; lia. }
  destruct (IH a' b' Ha' Hb' Hpa' Hpb' Hmax) as (r & -> & Har & Hbr & Hx & Hd).
  exists r. split; [done|]. split; [by etrans|]. split; [by etrans|]. split.
  - intros x Hxa Hxb. destruct (anc_le _ _ _ HD Hb Hxb) as [_ Hxp].
    assert (Hxa' : anc D a' x) by by apply Hax. apply Hx; [done|].
    apply Hbx; [done|]. by destruct (anc_le _ _ _ HD Ha' Hxa').
  - intros d Hda Hdb. destruct (dom_pos _ _ Hb Hdb) as [_ Hdp].
    assert (Hda' : dom d a') by by apply Had. apply Hd; [done|].
    apply Hbd; [done|]. by destruct (dom_pos _ _ Ha' Hda').
Qed.

(** [r] is the nearest common ancestor of the processed blocks among [ps], and of
    [cur] if there is one. *)
Record common (D : list Z) (ps : list Z) (cur r : Z) : Prop := {
  co_r : r ∈ rpo /\ processed D r;
  co_cur : cur <> 0 -> anc D cur r;
  co_ps : forall p, p ∈ ps -> processed D p -> anc D p r;
  co_least : forall x, (cur <> 0 -> anc D cur x) -> (forall p, p ∈ ps -> processed D p -> anc D p x) -> anc D r x;
  co_dom : forall d, (cur <> 0 -> dom d cur) -> (forall p, p ∈ ps -> processed D p -> dom d p) -> dom d r }.

Lemma new_idom_loop_spec D ps cur :
  forest D -> (forall p, p ∈ ps -> p ∈ rpo) -> (cur = 0 \/ (cur ∈ rpo /\ processed D cur)) ->
  (cur <> 0 \/ exists p, p ∈ ps /\ processed D p) ->
  exists r, new_idom_loop rpo_index D ps cur = Some r /\ common D ps cur r.
Proof using Hno.
  intros HD. revert cur. induction ps as [|p ps IH]; intros cur Hps Hcur Hsome.
  - destruct Hsome as [H0|[p [Hp _]]]; [|by apply elem_of_nil in Hp].
    destruct Hcur as [->|[Hcr Hcp]]; [done|]. exists cur. split; [done|].
    split; [done|by intros _|by intros p ?%elem_of_nil|by auto|by auto].
  - assert (Hp : p ∈ rpo) by (apply Hps; left). assert (Hps' : forall q, q ∈ ps -> q ∈ rpo) by (intros; apply Hps; by right).
    cbn. assert (exists d, at_ D p = Some d) as [d Hd].
    { apply at_is_Some. destruct (rpo_index_at p Hp) as [Hat _]. apply at_lt in Hat.
      destruct (no_size Hno) as (Hl & _). unfold size in *. by rewrite (fo_size _ HD), <- Hl. }
    rewrite Hd. cbn. unfold id_ok. rewrite negb_involutive. destruct (Z.eqb_spec d 0) as [->|H0].
    + assert (Hnp : ~ processed D p) by (intros (v & Hv & Hv0); congruence).
      destruct (IH cur Hps' Hcur) as (r & Hr & [H1 H2 H3 H4 H5]).
      { destruct Hsome as [|(q & Hq & Hpq)]; [by left|right]. exists q. split; [|done].
        apply elem_of_cons in Hq as [->|]; done. }
      exists r. split; [done|]. split; auto.
      * intros q [->|Hq]%elem_of_cons Hpq; [done|auto].
      * intros x Hx Hy. apply H4; [done|]. intros q Hq. apply Hy. by right.
      * intros x Hx Hy. apply H5; [done|]. intros q Hq. apply Hy. by right.
    + assert (Hpp : processed D p) by by exists d.
      assert (Hstep : exists n, (if negb (cur =? 0) then intersect (length rpo_index) rpo_index D cur p else Some p) = Some n
                /\ common D [p] cur n).
      { destruct (Z.eqb_spec cur 0) as [->|Hc0]; cbn.
        - exists p. split; [done|]. split; auto; try done.
          + intros q ->%list_elem_of_singleton _. done.
          + intros x _ Hx. apply Hx; [left|done].
          + intros x _ Hx. apply Hx; [left|done].
        - destruct Hcur as [->|[Hcr Hcp]]; [done|]. destruct (no_size Hno) as (Hl & _ & Hr).
          pose proof (pos_bound _ Hcr). pose proof (pos_bound _ Hp).
          destruct (intersect_spec D (length rpo_index) cur p HD Hcr Hp Hcp Hpp ltac:(lia))
            as (r & Hri & K1 & K2 & K3 & K4).
          exists r. split; [done|]. split; auto.
          + split; [by apply (anc_le _ _ _ HD Hp K2)|by eapply (anc_processed _ p)].
          + intros q ->%list_elem_of_singleton _. done.
          + intros x Hx Hy. apply K3; [auto|apply Hy; [left|done]].
          + intros x Hx Hy. apply K4; [auto|apply Hy; [left|done]]. }
      destruct Hstep as (n & -> & Hn). cbn. destruct Hn as [[Hnr Hnp] N1 N2 N3 N4].
      assert (Hn0 : n <> 0) by by apply (no_ids Hno).
      destruct (IH n Hps' (or_intror (conj Hnr Hnp)) (or_introl Hn0)) as (r & Hr & [H1 H2 H3 H4 H5]).
      exists r. split; [done|]. split; auto.
      * intros Hc. etrans; [by apply N1|by apply H2].
      * intros q [->|Hq]%elem_of_cons Hpq; [|by apply H3]. etrans; [apply N2; [left|done]|by apply H2].
      * intros x Hx Hy. apply H4; [|intros q Hq; apply Hy; by right].
        intros _. apply N3; [done|]. intros q ->%list_elem_of_singleton. apply Hy. left.
      * intros x Hx Hy. apply H5; [|intros q Hq; apply Hy; by right].
        intros _. apply N4; [done|]. intros q ->%list_elem_of_singleton. apply Hy. left.
Qed.

(** ** One assignment *)

(** Chains that stay below [b0], or end at or above it, do not see [idom_[b0]]. *)
Lemma anc_agree D D' b0 b x :
  forest D -> (forall y, y <> b0 -> at_ D y = at_ D' y) -> b ∈ rpo ->
  pos b < pos b0 \/ pos b0 <= pos x -> anc D b x -> anc D' b x.
Proof using.
  intros HD Hag Hb Hpos Hx. revert Hb Hpos. induction Hx as [b|b v x Hup Hvx IH]; intros Hb Hpos; [done|].
  destruct (fo_up _ HD _ _ Hb Hup) as (Hv & Hlt & _). destruct (anc_le _ _ _ HD Hv Hvx) as [_ Hle].
  destruct Hup as (Hne & Hat & H0). econstructor; [|apply IH; [done|lia]].
  split; [done|]. split; [|done]. rewrite <- Hag; [done|]. intros ->. lia.
Qed.

(** The state after the first [j] blocks of a pass. *)
Record pass_inv (j : Z) (D : list Z) : Prop := {
  pi_forest : forest D;
  pi_done : forall b, b ∈ rpo -> pos b < j -> processed D b;
  (* what the chain of a block has, apart from numbers still to come, a forward predecessor has *)
  pi_fwd : forall b p v c, b ∈ rpo -> p ∈ rpo -> up D b v -> E p b -> pos p < pos b -> anc D v c ->
    j <= pos c \/ pos b < j -> anc D p c;
  (* recomputing gives an ancestor of what is recorded *)
  pi_shrinks : forall b v x, b ∈ rpo -> up D b v ->
    (forall p, p ∈ rpo -> E p b -> processed D p -> anc D p x) -> anc D v x }.

Section Assign.
Context (D : list Z) (j : Z) (b0 n : Z) (ps : list Z).
Hypothesis HP : pass_inv j D.
Hypothesis Hb0 : b0 ∈ rpo.
Hypothesis Hj : pos b0 = j.
Hypothesis Hent : b0 <> entry.
Hypothesis Hps : forall p, p ∈ ps <-> p ∈ rpo /\ E p b0.
Hypothesis Hn : common D ps 0 n.
Let D' := put D b0 n.

Lemma assign_forward : exists p, p ∈ rpo /\ E p b0 /\ pos p < pos b0 /\ processed D p /\ anc D p n.
Proof using HP Hb0 Hent Hj Hn Hno Hps.
  destruct (no_fwd Hno _ Hb0 Hent) as (p & Hp & He & Hlt). exists p.
  assert (processed D p) by (apply (pi_done _ _ HP); [done|lia]). split_and!; try done.
  apply (co_ps _ _ _ _ Hn); [by apply Hps|done].
Qed.
Lemma assign_n : n ∈ rpo /\ pos n < pos b0 /\ processed D n /\ n <> 0.
Proof using HP Hb0 Hent Hj Hn Hno Hps.
  destruct (co_r _ _ _ _ Hn) as [Hr Hp]. destruct assign_forward as (p & Hpr & _ & Hlt & _ & Hanc).
  destruct (anc_le _ _ _ (pi_forest _ _ HP) Hpr Hanc) as [_ Hle].
  split_and!; [done|lia|done|by apply (no_ids Hno)].
Qed.
Lemma assign_agree y : y <> b0 -> at_ D y = at_ D' y.
Proof using. intros Hne. unfold D'. by rewrite at_put_ne. Qed.
Lemma assign_at : at_ D' b0 = Some n.
Proof using HP Hb0 Hno.
  unfold D'. apply at_put_eq. destruct (rpo_index_at _ Hb0) as [Hat _]. apply at_lt in Hat.
  destruct (no_size Hno) as (Hl & _). unfold size in *. by rewrite (fo_size _ (pi_forest _ _ HP)), <- Hl.
Qed.
Lemma assign_up b v : up D' b v -> (b = b0 /\ v = n) \/ (b <> b0 /\ up D b v).
Proof using HP Hb0 Hno.
  intros (Hne & Hat & H0). destruct (decide (b = b0)) as [->|Hb].
  - left. split; [done|]. rewrite assign_at in Hat. congruence.
  - right. split; [done|]. split; [done|]. split; [by rewrite assign_agree|done].
Qed.
Lemma assign_processed b : processed D b -> processed D' b.
Proof using HP Hb0 Hent Hj Hn Hno Hps.
  intros (v & Hv & H0). destruct (decide (b = b0)) as [->|Hne].
  - exists n. split; [apply assign_at|apply assign_n].
  - exists v. split; [by rewrite <- assign_agree|done].
Qed.
Lemma assign_processed_inv b : processed D' b -> b = b0 \/ processed D b.
Proof using.
  intros (v & Hv & H0). destruct (decide (b = b0)) as [->|Hne]; [by left|right].
  exists v. split; [by rewrite assign_agree|done].
Qed.

Lemma assign_forest : forest D'.
Proof using HP Hb0 Hent Hj Hn Hno Hps.
  pose proof (pi_forest _ _ HP) as HD. destruct assign_n as (Hnr & Hnlt & Hnp & Hn0). split.
  - unfold D'. pose proof (size_put D b0 n) as Hs. pose proof (fo_size _ HD) as Hd. unfold size in Hs. lia.
  - rewrite <- assign_agree by congruence. apply HD.
  - intros b v Hb [[-> ->]|[Hne Hup]]%assign_up.
    + split_and!; [done|done|by apply assign_processed].
    + destruct (fo_up _ HD _ _ Hb Hup) as (H1 & H2 & H3). split_and!; [done|done|by apply assign_processed].
  - intros b v d Hb [[-> ->]|[Hne Hup]]%assign_up Hd Hdb.
    + apply (co_dom _ _ _ _ Hn); [done|]. intros p [Hp He]%Hps _.
      by apply (dominated_by_pred _ _ _ _ _ Hd).
    + by apply (fo_dom _ HD b v d).
Qed.

(** Chains below and above [b0], before and after. *)
Lemma assign_anc b x : b ∈ rpo -> pos b < pos b0 \/ pos b0 <= pos x -> anc D b x <-> anc D' b x.
Proof using HP Hb0 Hent Hj Hn Hno Hps.
  intros Hb Hpos. split; intros Hx.
  - apply (anc_agree D D' b0); [apply HP|apply assign_agree|done|done|done].
  - apply (anc_agree D' D b0); [apply assign_forest|by intros; rewrite assign_agree|done|done|done].
Qed.

(** A new value that replaces an old one is an ancestor of it. *)
Lemma assign_ancestor i : at_ D b0 = Some i -> i <> 0 -> anc D i n.
Proof using HP Hb0 Hent Hn Hps.
  intros Hi H0. apply (pi_shrinks _ _ HP b0); [done|by split_and!|].
  intros p Hp He Hpp. apply (co_ps _ _ _ _ Hn); [by apply Hps|done].
Qed.

(** The ancestors of a processed block only become fewer. *)
Lemma assign_shrinks b x : b ∈ rpo -> processed D b -> anc D' b x -> anc D b x.
Proof using HP Hb0 Hent Hj Hn Hno Hps.
  intros Hb Hp Hx. revert Hb Hp. induction Hx as [b|b v x Hup Hvx IH]; intros Hb Hp; [done|].
  apply assign_up in Hup as [[-> ->]|[Hne Hup]].
  - destruct Hp as (i & Hi & H0). pose proof (assign_ancestor i Hi H0) as Hin.
    assert (Hup : up D b0 i) by (by split_and!). econstructor; [exact Hup|]. etrans; [exact Hin|].
    apply IH; apply assign_n.
  - destruct (fo_up _ (pi_forest _ _ HP) _ _ Hb Hup) as (Hv & _ & Hpv). econstructor; [exact Hup|by apply IH].
Qed.

Lemma assign_common_at_b0 x :
  (forall p, p ∈ rpo -> E p b0 -> processed D' p -> anc D' p x) -> anc D' n x.
Proof using HP Hb0 Hent Hj Hn Hno Hps.
  intros Hall. destruct assign_n as (Hnr & Hnlt & _). apply assign_anc; [done|by left|].
  apply (co_least _ _ _ _ Hn); [done|]. intros p [Hp He]%Hps Hpp.
  apply assign_shrinks; [done|done|]. apply Hall; [done|done|by apply assign_processed].
Qed.

(** A chain goes through [b0] or is not affected. *)
Lemma assign_through v x : anc D v x -> anc D v b0 \/ anc D' v x.
Proof using.
  induction 1 as [v|v w x Hup Hwx IH]; [by right|]. destruct (decide (v = b0)) as [->|Hne]; [by left|].
  destruct IH as [Hw|Hw]; [left; by econstructor|right]. econstructor; [|exact Hw].
  destruct Hup as (H1 & H2 & H3). split; [done|]. split; [by rewrite <- assign_agree|done].
Qed.

Lemma assign_common_elsewhere b v x :
  b ∈ rpo -> b <> b0 -> up D b v ->
  (forall p, p ∈ rpo -> E p b -> processed D' p -> anc D' p x) -> anc D' v x.
Proof using HP Hb0 Hent Hj Hn Hno Hps.
  intros Hb Hne Hup Hall. pose proof (pi_forest _ _ HP) as HD.
  destruct (fo_up _ HD _ _ Hb Hup) as (Hv & Hvlt & Hvp).
  assert (Hvx : anc D v x).
  { apply (pi_shrinks _ _ HP b v x Hb Hup). intros p Hp He Hpp. apply assign_shrinks; [done|done|].
    apply Hall; [done|done|by apply assign_processed]. }
  destruct (decide (pos b0 <= pos x)) as [Hle|Hgt]; [apply assign_anc; auto|].
  destruct (decide (pos v < pos b0)) as [Hvb|Hvb]; [apply assign_anc; auto|].
  (* the recorded value is at or below b0, and x is above b0 *)
  assert (Hent' : b <> entry) by by destruct Hup.
  destruct (no_fwd Hno _ Hb Hent') as (p & Hp & He & Hplt).
  destruct (assign_through v x Hvx) as [Hvb0|]; [|done].
  assert (Hpb0 : anc D p b0).
  { apply (pi_fwd _ _ HP b p v b0); auto. lia. }
  assert (Hpb0' : anc D' p b0) by (apply assign_anc; auto; lia).
  assert (Hvb0' : anc D' v b0) by (apply assign_anc; auto; lia).
  assert (Hpp : processed D p).
  { destruct (rtc_inv _ _ Hpb0) as [->|(w & Hpw & _)]; [|by eapply up_processed].
    exact (anc_processed D v b0 HD Hv Hvp Hvb0). }
  assert (Hpx : anc D' p x) by (apply Hall; [done|done|by apply assign_processed]).
  pose proof assign_forest as HD'.
  etrans; [exact Hvb0'|]. eapply anc_linear; [exact HD'|exact Hp|done|done|lia].
Qed.

Lemma assign_inv : pass_inv (j + 1) D'.
Proof using HP Hb0 Hent Hj Hn Hno Hps.
  pose proof (pi_forest _ _ HP) as HD. pose proof assign_forest as HD'. split; [done| | |].
  - intros b Hb Hlt. destruct (decide (b = b0)) as [->|Hne].
    + exists n. split; [apply assign_at|apply assign_n].
    + apply assign_processed, (pi_done _ _ HP); [done|].
      destruct (decide (pos b = j)) as [Heq|]; [|lia]. destruct Hne. apply pos_inj; [done|done|lia].
  - intros b p v c Hb Hp Hup He Hlt Hvc Hpos. apply assign_up in Hup as [[-> ->]|[Hne Hup]].
    + assert (Hpp : processed D p) by (apply (pi_done _ _ HP); [done|lia]).
      assert (Hpn : anc D p n) by (apply (co_ps _ _ _ _ Hn); [by apply Hps|done]).
      etrans; [|exact Hvc]. apply assign_anc; auto.
    + destruct (fo_up _ HD _ _ Hb Hup) as (Hv & Hvlt & _).
      assert (Hbj : pos b <> j).
      { intros Heq. apply Hne, pos_inj; [done|done|lia]. }
      destruct Hpos as [Hc|Hbl].
      * apply assign_anc; [done|lia|]. apply (pi_fwd _ _ HP b p v c); auto; [|lia].
        apply assign_anc; [done|lia|done].
      * apply assign_anc; [done|lia|]. apply (pi_fwd _ _ HP b p v c); auto; [|lia].
        apply assign_anc; [done|lia|done].
  - intros b v x Hb Hup Hall. apply assign_up in Hup as [[-> ->]|[Hne Hup]].
    + by apply assign_common_at_b0.
    + by eapply assign_common_elsewhere.
Qed.
End Assign.

(** ** Passes *)

Lemma entry_inv D : pass_inv 0 D -> pass_inv 1 D.
Proof using Hno.
  intros [H1 H2 H3 H4]. split; [done| | |done].
  - intros b Hb Hlt. destruct (decide (b = entry)) as [->|Hne]; [by apply entry_processed|].
    pose proof (pos_not_entry _ Hb Hne). lia.
  - intros b p v c Hb Hp Hup He Hlt Hvc Hpos. apply (H3 b p v c); auto. left.
    destruct (fo_up _ H1 _ _ Hb Hup) as (Hv & _). destruct (anc_le _ _ _ H1 Hv Hvc) as [Hc _].
    by apply pos_bound.
Qed.
(** At the end of a pass the next one begins. *)
Lemma restart_inv D : pass_inv (size rpo) D -> pass_inv 0 D.
Proof using Hno.
  intros [H1 H2 H3 H4]. split; [done| | |done].
  - intros b Hb Hlt. pose proof (pos_bound _ Hb). lia.
  - intros b p v c Hb Hp Hup He Hlt Hvc _. apply (H3 b p v c); auto. right. by apply pos_bound.
Qed.

(** How far the recorded values can still fall. *)
Definition height (D : list Z) (b : Z) : Z :=
  match at_ D b with Some v => if v =? 0 then size rpo else pos v | None => size rpo end.
Fixpoint total_height (D : list Z) (l : list Z) : Z :=
  match l with [] => 0 | b :: l => height D b + total_height D l end.

Lemma total_height_le D D' l :
  (forall b, b ∈ l -> height D' b <= height D b) -> total_height D' l <= total_height D l.
Proof using.
  induction l as [|b l IH]; intros Hle; cbn; [done|].
  pose proof (Hle b ltac:(left)). assert (total_height D' l <= total_height D l); [|lia].
  apply IH. intros c Hc. apply Hle. by right.
Qed.
Lemma total_height_lt D D' l b :
  (forall b, b ∈ l -> height D' b <= height D b) -> b ∈ l -> height D' b < height D b ->
  total_height D' l < total_height D l.
Proof using.
  induction l as [|c l IH]; intros Hle Hb Hlt; [by apply elem_of_nil in Hb|]. cbn.
  apply elem_of_cons in Hb as [->|Hb].
  - assert (total_height D' l <= total_height D l); [|lia]. apply total_height_le. intros d Hd. apply Hle. by right.
  - pose proof (Hle c ltac:(left)).
    assert (total_height D' l < total_height D l); [|lia]. apply IH; [|done|done]. intros d Hd. apply Hle. by right.
Qed.
Lemma height_bound D b : forest D -> b ∈ rpo -> 0 <= height D b <= size rpo.
Proof using Hno.
  intros HD Hb. unfold height. pose proof (size_nonneg rpo). destruct (at_ D b) as [v|] eqn:Hv; [|lia].
  destruct (Z.eqb_spec v 0); [lia|]. destruct (decide (b = entry)) as [->|Hne].
  - rewrite (fo_entry _ HD) in Hv. injection Hv as <-. rewrite pos_entry. lia.
  - destruct (fo_up _ HD b v Hb) as (Hr & _); [done|]. pose proof (pos_bound _ Hr). unfold size. lia.
Qed.
Lemma total_height_bound D l :
  forest D -> (forall b, b ∈ l -> b ∈ rpo) -> 0 <= total_height D l <= size l * size rpo.
Proof using Hno.
  intros HD. induction l as [|b l IH]; intros Hl; cbn; [unfold size; cbn; lia|].
  pose proof (height_bound D b HD (Hl b ltac:(left))). destruct IH as [I1 I2]; [intros; apply Hl; by right|].
  replace (size (b :: l)) with (size l + 1) by (unfold size; cbn; lia). lia.
Qed.

Lemma assign_height D j b0 n ps :
  pass_inv j D -> b0 ∈ rpo -> pos b0 = j -> b0 <> entry -> (forall p, p ∈ ps <-> p ∈ rpo /\ E p b0) ->
  common D ps 0 n -> at_ D b0 <> Some n -> total_height (put D b0 n) rpo < total_height D rpo.
Proof using Hno.
  intros HP Hb0 Hj Hent Hps Hn Hch. pose proof (pi_forest _ _ HP) as HD.
  destruct (assign_n _ _ _ _ _ HP Hb0 Hj Hent Hps Hn) as (Hnr & Hlt & Hnp & Hn0).
  assert (Hheight : height (put D b0 n) b0 < height D b0).
  { unfold height. rewrite (assign_at _ _ _ _ HP Hb0). destruct (Z.eqb_spec n 0); [done|].
    pose proof (pos_bound _ Hnr) as Hnb. destruct (at_ D b0) as [i|] eqn:Hi; [|unfold size; lia].
    destruct (Z.eqb_spec i 0) as [|Hi0]; [unfold size; lia|].
    pose proof (assign_ancestor _ _ _ _ _ HP Hb0 Hent Hps Hn i Hi Hi0) as Hanc.
    destruct (fo_up _ HD b0 i Hb0) as (Hir & _); [by split_and!|].
    destruct (anc_pos _ _ _ HD Hir Hanc) as [_ [->|]]; [done|lia]. }
  apply total_height_lt with b0; [|done|done]. intros b Hb. destruct (decide (b = b0)) as [->|Hne]; [lia|].
  unfold height. by rewrite at_put_ne by done.
Qed.

(** The block has the value its predecessors give it. *)
Definition settled (D : list Z) (b : Z) : Prop :=
  exists v, up D b v /\ forall p, p ∈ rpo -> E p b -> processed D p -> anc D p v.

Lemma idom_pass_spec blocks before D ch :
  rpo = before ++ blocks -> pass_inv (size before) D ->
  exists D' ch', idom_pass entry rpo_index preds blocks D ch = Some (D', ch || ch') /\
    pass_inv (size rpo) D' /\ total_height D' rpo <= total_height D rpo /\
    (ch' = true -> total_height D' rpo < total_height D rpo) /\
    (ch' = false -> D' = D /\ forall b, b ∈ blocks -> b <> entry -> settled D b).
Proof using Hno.
  revert before D ch. induction blocks as [|b blocks IH]; intros before D ch Hrpo HP.
  { exists D, false. rewrite orb_false_r. rewrite app_nil_r in Hrpo. subst before. split_and!; try done.
    intros _. split; [done|]. by intros b ?%elem_of_nil. }
  assert (Hb : b ∈ rpo) by (rewrite Hrpo; apply elem_of_app; right; left).
  assert (Hj : pos b = size before).
  { unfold pos. rewrite (no_index Hno b (length before)); [done|]. rewrite Hrpo.
    by rewrite lookup_app_r, Nat.sub_diag by done. }
  assert (Hnext : rpo = (before ++ [b]) ++ blocks) by by rewrite <- app_assoc.
  assert (Hsz : size (before ++ [b]) = size before + 1) by by rewrite size_app.
  cbn. destruct (Z.eqb_spec b entry) as [->|Hent].
  - destruct (IH (before ++ [entry]) D ch Hnext) as (D' & ch' & -> & H1 & H2 & H3 & H4).
    { rewrite Hsz. rewrite pos_entry in Hj. rewrite <- Hj in *. by apply entry_inv. }
    exists D', ch'. split_and!; try done. intros Hf. destruct (H4 Hf) as [-> Hall]. split; [done|].
    intros c [->|Hc]%elem_of_cons; [done|by apply Hall].
  - destruct (no_preds Hno b Hb) as (ps & -> & Hps). cbn. pose proof (pi_forest _ _ HP) as HD.
    destruct (new_idom_loop_spec D ps 0 HD) as (n & -> & Hn); [by intros p [Hp _]%Hps|by left| |].
    { right. destruct (no_fwd Hno b Hb Hent) as (p & Hp & He & Hlt). exists p. split; [by apply Hps|].
      apply (pi_done _ _ HP); [done|lia]. }
    cbn. destruct (assign_n _ _ _ _ _ HP Hb Hj Hent Hps Hn) as (Hnr & Hlt & Hnp & Hn0).
    unfold id_ok. replace (n =? 0) with false by (symmetry; by apply Z.eqb_neq). cbn.
    pose proof (assign_at D _ b n HP Hb) as Hat.
    assert (exists old, at_ D b = Some old) as [old Hold].
    { apply at_is_Some. apply at_lt in Hat. by rewrite size_put in Hat. }
    rewrite Hold. cbn. pose proof (assign_inv _ _ _ _ _ HP Hb Hj Hent Hps Hn) as HP'. rewrite <- Hsz in HP'.
    destruct (Z.eqb_spec old n) as [->|Hne].
    + assert (Hput : put D b n = D).
      { unfold put. unfold at_ in Hold. destruct (_ <? _); [done|]. by apply list_insert_id. }
      rewrite Hput in HP'. destruct (IH (before ++ [b]) D ch Hnext HP') as (D' & ch' & -> & H1 & H2 & H3 & H4).
      exists D', ch'. split_and!; try done. intros Hf. destruct (H4 Hf) as [-> Hall]. split; [done|].
      intros c [->|Hc]%elem_of_cons Hce; [|by apply Hall]. exists n. split; [by split_and!|].
      intros p Hp He Hpp. apply (co_ps _ _ _ _ Hn); [by apply Hps|done].
    + pose proof (assign_height _ _ _ _ _ HP Hb Hj Hent Hps Hn ltac:(congruence)) as Hh.
      destruct (IH (before ++ [b]) (put D b n) true Hnext HP') as (D' & ch' & -> & H1 & H2 & H3 & H4).
      exists D', true. rewrite orb_true_r. split_and!; try done; lia.
Qed.

Lemma idom_loop_spec fuel D :
  pass_inv 0 D -> total_height D rpo < Z.of_nat fuel ->
  exists D', idom_loop fuel entry rpo_index preds rpo D = Some D' /\ pass_inv 0 D' /\
    (forall b, b ∈ rpo -> processed D' b) /\ (forall b, b ∈ rpo -> b <> entry -> settled D' b).
Proof using Hno.
  revert D. induction fuel as [|fuel IH]; intros D HP Hf.
  { pose proof (total_height_bound D rpo (pi_forest _ _ HP) ltac:(done)). lia. }
  cbn. destruct (idom_pass_spec rpo [] D false eq_refl HP) as (D' & ch & -> & H1 & H2 & H3 & H4).
  cbn. destruct ch.
  - apply IH; [by apply restart_inv|]. specialize (H3 eq_refl). lia.
  - destruct (H4 eq_refl) as [-> Hset]. exists D. split_and!; [done|by apply restart_inv| |done].
    intros b Hb. apply (pi_done _ _ H1); [done|]. by apply pos_bound.
Qed.

(** ** The result *)

Lemma initial_inv D :
  length D = slots -> at_ D entry = Some entry -> (forall b, b <> entry -> at_ D b = Some 0 \/ at_ D b = None) ->
  pass_inv 0 D.
Proof using Hno.
  intros Hlen Hentry Hzero.
  assert (Hup : forall b v, ~ up D b v).
  { intros b v (Hne & Hat & H0). destruct (Hzero b Hne) as [Hz|Hz]; congruence. }
  split; [split|..]; try done.
  - intros b v _ H. by destruct (Hup b v).
  - intros b v d _ H. by destruct (Hup b v).
  - intros b Hb Hlt. pose proof (pos_bound _ Hb). lia.
  - intros b p v c _ _ H. by destruct (Hup b v).
  - intros b v x _ H. by destruct (Hup b v).
Qed.

Section Result.
Context (D : list Z).
Hypothesis HD : forest D.
Hypothesis Hall : forall b, b ∈ rpo -> processed D b.
Hypothesis Hset : forall b, b ∈ rpo -> b <> entry -> settled D b.
Hypothesis Hclosed : forall b s, b ∈ rpo -> E b s -> s ∈ rpo.

Lemma path_rpo l b : path l b -> b ∈ rpo.
Proof using Hclosed Hno. induction 1; [apply entry_rpo|eauto]. Qed.

(** The chain of a block is the set of its dominators. *)
Lemma anc_iff_dom b x : b ∈ rpo -> anc D b x <-> dom x b.
Proof using HD Hall Hclosed Hno Hset.
  intros Hb. split; [|by apply dom_anc].
  intros Hx l Hl. clear Hb. revert x Hx. induction Hl as [|l y z Hl IH He]; intros x Hx.
  - destruct (rtc_inv _ _ Hx) as [->|(w & [Hw _] & _)]; [left|done].
  - apply elem_of_app. destruct (rtc_inv _ _ Hx) as [->|(w & Hw & Hwx)]; [right; left|left].
    pose proof (path_rpo _ _ Hl) as Hy. assert (Hz : z ∈ rpo) by eauto.
    destruct (Hset z Hz (proj1 Hw)) as (v & Hv & Hpreds). rewrite (up_functional _ _ _ _ Hw Hv) in *.
    apply IH. etrans; [by apply Hpreds; auto|done].
Qed.

Lemma climb_dominates a b : a ∈ rpo -> b ∈ rpo ->
  exists b', climb (length rpo_index) rpo_index D b a = Some b' /\ (a = b' <-> dom a b).
Proof using HD Hall Hclosed Hno Hset.
  intros Ha Hb. destruct (no_size Hno) as (Hl & _ & Hr). pose proof (pos_bound _ Hb).
  destruct (climb_spec D (length rpo_index) b a HD Hb Ha (Hall b Hb) ltac:(lia))
    as (b' & -> & Hanc & _ & Hle & _ & Hx & _). exists b'. split; [done|]. rewrite <- anc_iff_dom by done.
  split; [by intros ->|]. intros Hba. specialize (Hx a Hba ltac:(lia)).
  destruct (anc_le _ _ _ HD Hb Hanc) as [Hb' _]. destruct (anc_pos _ _ _ HD Hb' Hx) as [_ [->|]]; [done|lia].
Qed.

(** [idom_] holds the immediate dominator. *)
Lemma idom_immediate b : b ∈ rpo -> b <> entry ->
  exists v, at_ D b = Some v /\ v <> b /\ v ∈ rpo /\ dom v b /\ forall d, dom d b -> d <> b -> dom d v.
Proof using HD Hall Hclosed Hno Hset.
  intros Hb Hne. destruct (processed_up D b (Hall b Hb) Hne) as [v Hup]. exists v.
  destruct (fo_up _ HD _ _ Hb Hup) as (Hv & Hlt & _). split_and!; [apply Hup|intros ->; lia|done| |].
  - apply anc_iff_dom; [done|]. by apply rtc_once.
  - intros d. by apply (fo_dom _ HD b v d Hb Hup).
Qed.
End Result.
End Iteration.
