(* ===== verification/DominatorsProps.v ===== *)
(** * The dominator tree is correct (src/air/dominators.cpp)

    The depth-first search finishes and lists exactly the reachable blocks, each
    but the entry after one of its predecessors in the reverse postorder; with
    the iteration of [DominatorsIter], the tree answers reachability, dominance
    and immediate dominators as defined on the paths of the graph. *)
From stdpp Require Import relations.
From S2P Require Import Prelude Vectors AirInsts AirTypes AirFunction Dominators DominatorsIter.
Open Scope Z_scope.

(** ** The graph of a function *)

(** [s] is a successor of [b]. *)
Definition succ_of (f : Function) (b s : BlockId) : Prop :=
  exists ss, collect_successor_blocks f b = Some ss /\ s ∈ ss.
Definition reaches (f : Function) (b : BlockId) : Prop := rtc (succ_of f) (entry_block_ f) b.

(** The function has an entry, and the successors of reachable blocks can be read
    and are blocks. *)
Record cfg_ok (f : Function) : Prop := {
  cf_small : size (blocks_ f) < 2 ^ 32;
  cf_entry : valid_id (blocks_ f) (entry_block_ f) = true;
  cf_succs : forall b, reaches f b -> exists ss, collect_successor_blocks f b = Some ss /\
    forall s, s ∈ ss -> valid_id (blocks_ f) s = true }.

Lemma valid_id_iff {A} (v : list A) id : valid_id v id = true <-> 0 < id < size v.
Proof. unfold valid_id. rewrite andb_true_iff. lia. Qed.

(** ** Depth-first search *)

(** The blocks of the stack, each a successor of the one below it. *)
Fixpoint chained (E : Z -> Z -> Prop) (entry : Z) (l : list Z) : Prop :=
  match l with
  | [] => True
  | x :: l => match l with [] => x = entry | y :: _ => E y x end /\ chained E entry l
  end.

Definition seen (st : DfsState) (b : Z) : Prop := b ∈ map fst (stack st) \/ b ∈ postorder st.

(** [p] comes after [b]. *)
Definition after (l : list Z) (b p : Z) : Prop := exists l1 l2, l = l1 ++ b :: l2 /\ p ∈ l2.
Lemma after_snoc l b p x : after l b p -> after (l ++ [x]) b p.
Proof.
  intros (l1 & l2 & -> & Hp). exists l1, (l2 ++ [x]). split; [by rewrite <- app_assoc|].
  apply elem_of_app. by left.
Qed.

Lemma list_sum_cons x l : list_sum (x :: l) = (x + list_sum l)%nat.
Proof. done. Qed.
Lemma list_sum_change (g h : Z -> nat) l x :
  NoDup l -> x ∈ l -> h x = 0%nat -> (forall y, y <> x -> h y = g y) ->
  (list_sum (map h l) + g x = list_sum (map g l))%nat.
Proof.
  intros Hnd Hx H0 Heq. induction l as [|y l IH]; [by apply elem_of_nil in Hx|].
  apply list.NoDup_cons in Hnd as [Hy Hnd]. rewrite !map_cons, !list_sum_cons.
  apply elem_of_cons in Hx as [<-|Hx].
  - rewrite H0. assert (list_sum (map h l) = list_sum (map g l)); [|lia]. f_equal. apply map_ext_in.
    intros z Hz. apply Heq. intros ->. by apply Hy, list_elem_of_In.
  - rewrite (Heq y); [|by intros ->]. specialize (IH Hnd Hx). lia.
Qed.

Section Dfs.
Context (f : Function).
Hypothesis Hcfg : cfg_ok f.
Let entry := entry_block_ f.
Abbreviation E := (succ_of f).

Lemma succ_of_fun b ss s : collect_successor_blocks f b = Some ss -> E b s <-> s ∈ ss.
Proof using. intros Hss. split; [intros (ss' & Hss' & Hs); congruence|by exists ss]. Qed.

Lemma reaches_valid b : reaches f b -> valid_id (blocks_ f) b = true.
Proof using Hcfg.
  intros Hb. unfold reaches in Hb. apply rtc_inv_r in Hb as [<-|(y & Hy & (ss & Hss & Hin))]; [apply Hcfg|].
  destruct (cf_succs _ Hcfg y Hy) as (ss' & Hss' & Hval). apply Hval. congruence.
Qed.

Record dfs_inv (st : DfsState) : Prop := {
  di_size : length (visited st) = length (blocks_ f) /\ length (succ_cache st) = length (blocks_ f);
  di_flag : forall b, at_ (visited st) b = Some true <-> seen st b;
  di_nodup : NoDup (map fst (stack st) ++ postorder st);
  di_reach : forall b, seen st b -> reaches f b;
  di_cache : forall b, seen st b -> at_ (succ_cache st) b = collect_successor_blocks f b;
  di_stack : forall b k ss, (b, k) ∈ stack st -> collect_successor_blocks f b = Some ss ->
    0 <= k <= size ss /\ forall s, s ∈ take (Z.to_nat k) ss -> seen st s;
  di_post : forall b s, b ∈ postorder st -> E b s -> seen st s;
  di_chain : chained E entry (map fst (stack st));
  di_parent : forall b, b ∈ postorder st -> b <> entry ->
    exists p, E p b /\ (p ∈ map fst (stack st) \/ after (postorder st) b p);
  di_entry : stack st = [] -> exists l, postorder st = l ++ [entry] }.

(** What is still to be done: the unvisited blocks and the rest of the stack. *)
Definition cost (b : Z) : nat := S (succ_count f b).
Definition unvisited_cost (vis : list bool) (b : Z) : nat :=
  match at_ vis b with Some true => 0 | _ => cost b end.
Definition remaining (st : DfsState) : nat :=
  list_sum (map (unvisited_cost (visited st)) (all_ids f)) +
  list_sum (map (fun '(b, k) => cost b - Z.to_nat k)%nat (stack st)).

Lemma all_ids_spec b : b ∈ all_ids f <-> 0 <= b < size (blocks_ f).
Proof using.
  unfold all_ids, size. rewrite list_elem_of_fmap. split.
  - intros (n & -> & Hn%elem_of_seq). lia.
  - intros Hb. exists (Z.to_nat b). split; [lia|]. apply elem_of_seq. lia.
Qed.
Lemma all_ids_nodup : NoDup (all_ids f).
Proof using. unfold all_ids. apply NoDup_fmap_2; [intros x y; lia|]. apply NoDup_seq. Qed.

Lemma succ_count_eq b ss : collect_successor_blocks f b = Some ss -> succ_count f b = length ss.
Proof using. intros Hss. unfold succ_count. by rewrite Hss. Qed.

Lemma seen_iff st b : seen st b <-> b ∈ map fst (stack st) ++ postorder st.
Proof using. unfold seen. by rewrite elem_of_app. Qed.

(** Pushing an unvisited successor [b] of the top. *)
Lemma push_inv st b top k rest ss :
  dfs_inv st -> stack st = (top, k) :: rest -> E top b -> ~ seen st b -> collect_successor_blocks f b = Some ss ->
  dfs_inv (mkDfs (put (visited st) b true) ((b, 0) :: stack st) (postorder st) (put (succ_cache st) b ss)).
Proof using Hcfg.
  intros HI Hst He Hnew Hss.
  assert (Hseen : forall x, seen (mkDfs (put (visited st) b true) ((b, 0) :: stack st) (postorder st)
            (put (succ_cache st) b ss)) x <-> x = b \/ seen st x).
  { intros x. unfold seen. cbn. rewrite elem_of_cons. tauto. }
  assert (Htop : seen st top) by (left; rewrite Hst; left).
  assert (Hr : reaches f b) by (unfold reaches; eapply rtc_r; [by apply (di_reach _ HI)|done]).
  pose proof (proj1 (valid_id_iff _ _) (reaches_valid b Hr)) as Hb.
  destruct (di_size _ HI) as [Hv Hc]. split.
  - cbn. by rewrite !length_put.
  - intros x. rewrite Hseen. cbn. destruct (decide (x = b)) as [->|Hne].
    + rewrite at_put_eq; [tauto|]. unfold size in *. lia.
    + rewrite at_put_ne by done. rewrite (di_flag _ HI). tauto.
  - cbn. apply list.NoDup_cons. split; [|apply HI]. intros Hin. apply Hnew. by apply seen_iff.
  - intros x [->|Hx]%Hseen; [done|by apply (di_reach _ HI)].
  - intros x Hx. cbn. destruct (decide (x = b)) as [->|Hne].
    + rewrite at_put_eq; [done|]. unfold size in *. lia.
    + rewrite at_put_ne by done. apply (di_cache _ HI). apply Hseen in Hx as [->|]; done.
  - cbn. intros x j xs Hin Hxs. apply elem_of_cons in Hin as [[= -> ->]|Hin].
    + split; [pose proof (size_nonneg xs); lia|]. by intros s ?%elem_of_nil.
    + destruct (di_stack _ HI _ _ _ Hin Hxs) as [Hj Hall]. split; [done|]. intros s Hs. apply Hseen. auto.
  - cbn. intros x s Hx Hs. apply Hseen. right. by apply (di_post _ HI x).
  - cbn. split; [|apply (di_chain _ HI)]. by rewrite Hst.
  - cbn. intros x Hx Hne. destruct (di_parent _ HI x Hx Hne) as (p & Hp & [Hps|Hpa]); exists p; split; auto.
    left. by apply elem_of_cons; right.
  - done.
Qed.

(** Moving on to the next successor. *)
Lemma advance_inv st top k rest ss s :
  dfs_inv st -> stack st = (top, k) :: rest -> collect_successor_blocks f top = Some ss ->
  at_ ss k = Some s -> seen st s ->
  dfs_inv (mkDfs (visited st) ((top, k + 1) :: rest) (postorder st) (succ_cache st)).
Proof using Hcfg.
  intros HI Hst Hss Hs Hseen_s.
  assert (Hseen : forall x, seen (mkDfs (visited st) ((top, k + 1) :: rest) (postorder st) (succ_cache st)) x
            <-> seen st x) by (intros x; unfold seen; cbn; by rewrite Hst).
  destruct HI as [H1 H2 H3 H4 H5 H6 H7 H8 H9 H10]. rewrite Hst in *. split; cbn in *; auto.
  - intros x. by rewrite H2, Hseen.
  - intros x Hx. by apply H4, Hseen.
  - intros x Hx. by apply H5, Hseen.
  - intros x j xs Hin Hxs. apply elem_of_cons in Hin as [[= -> ->]|Hin].
    + rewrite Hss in Hxs. injection Hxs as <-. pose proof (at_lt _ _ _ Hs) as Hk. split; [lia|].
      intros y. unfold at_ in Hs. destruct (Z.ltb_spec k 0); [done|].
      replace (Z.to_nat (k + 1)) with (S (Z.to_nat k)) by lia. rewrite (take_S_r _ _ _ Hs).
      intros [Hy| ->%list_elem_of_singleton]%elem_of_app; apply Hseen; [|done].
      destruct (H6 top k ss ltac:(left) Hss) as [_ Hall]. by apply Hall.
    + destruct (H6 x j xs ltac:(by right) Hxs) as [Hj Hall]. split; [done|]. intros y Hy. by apply Hseen, Hall.
  - intros x y Hx Hy. by apply Hseen, (H7 x).
  - done.
Qed.

(** Finishing the top. *)
Lemma pop_inv st top k rest ss :
  dfs_inv st -> stack st = (top, k) :: rest -> collect_successor_blocks f top = Some ss -> size ss <= k ->
  dfs_inv (mkDfs (visited st) rest (postorder st ++ [top]) (succ_cache st)).
Proof using Hcfg.
  intros HI Hst Hss Hk.
  assert (Hseen : forall x, seen (mkDfs (visited st) rest (postorder st ++ [top]) (succ_cache st)) x <-> seen st x).
  { intros x. unfold seen. rewrite Hst. cbn. rewrite elem_of_cons, elem_of_app, list_elem_of_singleton. tauto. }
  destruct HI as [H1 H2 H3 H4 H5 H6 H7 H8 H9 H10]. rewrite Hst in *. split; cbn in *.
  - done.
  - intros x. by rewrite H2, Hseen.
  - rewrite app_assoc. apply list.NoDup_cons in H3 as [Hn1 Hn2].
    apply list.NoDup_app. split; [done|]. split; [|apply NoDup_singleton].
    intros x Hx ->%list_elem_of_singleton. done.
  - intros x Hx. by apply H4, Hseen.
  - intros x Hx. by apply H5, Hseen.
  - intros x j xs Hin Hxs. destruct (H6 x j xs ltac:(by right) Hxs) as [Hj Hall].
    split; [done|]. intros y Hy. by apply Hseen, Hall.
  - intros x y Hx Hy. apply Hseen. apply elem_of_app in Hx as [Hx| ->%list_elem_of_singleton]; [by apply (H7 x)|].
    destruct (H6 top k ss ltac:(left) Hss) as [_ Hall]. apply Hall. apply (succ_of_fun _ _ _ Hss) in Hy.
    rewrite take_ge; [done|]. unfold size in Hk. lia.
  - by destruct H8.
  - intros x Hx Hne. apply elem_of_app in Hx as [Hx| ->%list_elem_of_singleton].
    + destruct (H9 x Hx Hne) as (p & Hp & [Hps|Hpa]); exists p; split; auto; [|right; by apply after_snoc].
      apply elem_of_cons in Hps as [->|Hps]; [right|by left].
      apply list_elem_of_split in Hx as (l1 & l2 & ->). exists l1, (l2 ++ [top]).
      split; [by rewrite <- app_assoc|]. apply elem_of_app. right. left.
    + destruct H8 as [Hlink _]. destruct rest as [|[y j] rest]; [done|]. cbn in Hlink.
      exists y. split; [done|]. left. left.
  - intros ->. destruct H8 as [-> _]. by exists (postorder st).
Qed.

Lemma unvisited_cost_put vis b x :
  unvisited_cost (put vis b true) x = if decide (x = b) then
    (if decide (0 <= b < size vis) then 0%nat else unvisited_cost vis x) else unvisited_cost vis x.
Proof using.
  unfold unvisited_cost. destruct (decide (x = b)) as [->|Hne]; [|by rewrite at_put_ne by done].
  destruct (decide _) as [Hb|Hb]; [by rewrite at_put_eq|].
  unfold put. destruct (Z.ltb_spec b 0); [done|]. unfold size in Hb. by rewrite list_insert_ge by lia.
Qed.

Lemma push_remaining st b k ss :
  0 <= b < size (visited st) -> 0 <= b < size (blocks_ f) -> at_ (visited st) b <> Some true ->
  remaining (mkDfs (put (visited st) b true) ((b, 0) :: k) (postorder st) ss) =
  (list_sum (map (unvisited_cost (visited st)) (all_ids f)) +
   list_sum (map (fun '(b, k) => cost b - Z.to_nat k)%nat k))%nat.
Proof using.
  intros Hv Hb Hnew. unfold remaining. cbn [visited stack]. rewrite map_cons, list_sum_cons.
  pose proof (list_sum_change (unvisited_cost (visited st)) (unvisited_cost (put (visited st) b true)) (all_ids f) b
    all_ids_nodup (proj2 (all_ids_spec b) Hb)) as Hsum.
  rewrite <- Hsum.
  - replace (unvisited_cost (visited st) b) with (cost b); [change (Z.to_nat 0) with 0%nat; lia|].
    unfold unvisited_cost. destruct (at_ (visited st) b) as [[]|]; done.
  - rewrite unvisited_cost_put. by rewrite !decide_True.
  - intros y Hy. rewrite unvisited_cost_put. by rewrite decide_False.
Qed.

Lemma dfs_spec fuel st :
  dfs_inv st -> (remaining st <= fuel)%nat ->
  exists st', dfs fuel f st = Some st' /\ dfs_inv st' /\ stack st' = [].
Proof using Hcfg.
  revert st. induction fuel as [|fuel IH]; intros st HI Hf; cbn;
    (destruct (stack st) as [|[top k] rest] eqn:Hst; [by exists st|]).
  all: assert (Htop : seen st top) by (left; rewrite Hst; left).
  all: destruct (cf_succs _ Hcfg top (di_reach _ HI _ Htop)) as (ss & Hss & Hval).
  all: destruct (di_stack _ HI top k ss ltac:(rewrite Hst; left) Hss) as [Hk Hdone].
  all: assert (Hrem : (remaining st = list_sum (map (unvisited_cost (visited st)) (all_ids f)) +
    (S (length ss) - Z.to_nat k) + list_sum (map (fun '(b, k) => cost b - Z.to_nat k) rest))%nat).
  1,3: unfold remaining; rewrite Hst, map_cons, list_sum_cons; cbn beta iota; unfold cost at 1; rewrite (succ_count_eq _ _ Hss); lia.
  { unfold size in Hk. lia. }
  unfold dfs_step. rewrite (di_cache _ HI _ Htop), Hss. cbn.
  destruct (Z.ltb_spec k (size ss)) as [Hlt|Hge].
  - destruct (proj2 (at_is_Some ss k) ltac:(lia)) as [s Hs]. rewrite Hs. cbn.
    assert (Hsin : s ∈ ss).
    { unfold at_ in Hs. destruct (_ <? _); [done|]. by eapply list_elem_of_lookup_2. }
    pose proof (proj1 (valid_id_iff _ _) (Hval s Hsin)) as Hsv. destruct (di_size _ HI) as [Hv Hc].
    destruct (proj2 (at_is_Some (visited st) s)) as [flag Hflag]; [unfold size in *; lia|]. rewrite Hflag. cbn.
    destruct flag.
    + apply IH.
      * apply (advance_inv st top k rest ss s HI Hst Hss Hs). by apply (di_flag _ HI).
      * unfold remaining. cbn [visited stack]. rewrite map_cons, list_sum_cons. cbn beta iota. unfold cost at 1.
        rewrite (succ_count_eq _ _ Hss). unfold size in Hlt. lia.
    + assert (Hnew : ~ seen st s) by (rewrite <- (di_flag _ HI); congruence).
      assert (He : E top s) by by exists ss.
      assert (Hr : reaches f s) by (unfold reaches; eapply rtc_r; [by apply (di_reach _ HI)|done]).
      destruct (cf_succs _ Hcfg s Hr) as (ss' & Hss' & _). unfold dfs_visit. rewrite Hss'. cbn.
      pose proof (push_inv st s top k rest ss' HI Hst He Hnew Hss') as HI1.
      destruct (di_size _ HI1) as [Hv1 Hc1].
      assert (HI2 : dfs_inv (mkDfs (put (visited st) s true) ((s, 0) :: (top, k + 1) :: rest) (postorder st)
                (put (succ_cache st) s ss'))).
      { rewrite Hst in HI1.
        assert (Hseen2 : forall x, seen (mkDfs (put (visited st) s true) ((s, 0) :: (top, k + 1) :: rest)
                  (postorder st) (put (succ_cache st) s ss')) x <->
                  seen (mkDfs (put (visited st) s true) ((s, 0) :: (top, k) :: rest) (postorder st)
                  (put (succ_cache st) s ss')) x) by done.
        destruct HI1 as [H1 H2 H3 H4 H5 H6 H7 H8 H9 H10]. split; auto.
        intros x j xs Hin Hxs. cbn in Hin. rewrite !elem_of_cons in Hin.
        destruct Hin as [[= -> ->]|[[= -> ->]|Hin]].
        - apply (H6 s 0 xs); [left|done].
        - assert (xs = ss) as -> by congruence. split; [lia|]. intros y.
          unfold at_ in Hs. destruct (Z.ltb_spec k 0); [done|].
          replace (Z.to_nat (k + 1)) with (S (Z.to_nat k)) by lia. rewrite (take_S_r _ _ _ Hs).
          intros [Hy| ->%list_elem_of_singleton]%elem_of_app; [|left; left].
          destruct (H6 top k ss ltac:(right; left) Hss) as [_ Hall]. by apply Hall.
        - apply (H6 x j xs); [by do 2 right|done].
        - done. }
      apply IH; [exact HI2|]. rewrite push_remaining; [|unfold size in *; lia|lia|congruence].
      rewrite map_cons, list_sum_cons. cbn beta iota. unfold cost at 1. rewrite (succ_count_eq _ _ Hss).
      unfold size in Hlt. lia.
  - apply IH; [by apply (pop_inv st top k rest ss)|]. unfold remaining. cbn [visited stack].
    unfold size in *. lia.
Qed.

(** The whole search, from the entry. *)
Lemma dfs_from_entry :
  exists st0 st, dfs_visit f entry (mkDfs (replicate (length (blocks_ f)) false) [] []
      (replicate (length (blocks_ f)) [])) = Some st0 /\
    dfs (dfs_fuel f) f st0 = Some st /\ dfs_inv st /\ stack st = [].
Proof using Hcfg.
  assert (Hr : reaches f entry) by constructor.
  destruct (cf_succs _ Hcfg entry Hr) as (ss & Hss & _). unfold dfs_visit. rewrite Hss. cbn.
  eexists. pose proof (proj1 (valid_id_iff _ _) (cf_entry _ Hcfg)) as He. fold entry in He.
  match goal with |- exists st, Some ?s = Some _ /\ _ => set (st0 := s) end.
  assert (Hseen : forall x, seen st0 x <-> x = entry).
  { intros x. unfold seen, st0. cbn. rewrite list_elem_of_singleton, elem_of_nil. tauto. }
  assert (HI : dfs_inv st0).
  { split; cbn.
    - by rewrite !length_put, !length_replicate.
    - intros b. rewrite Hseen. cbn. destruct (decide (b = entry)) as [->|Hne].
      + rewrite at_put_eq; [done|]. rewrite size_replicate. unfold size in He. lia.
      + rewrite at_put_ne by done. split; [intros H%at_replicate_inv; done|done].
    - apply NoDup_singleton.
    - intros b ->%Hseen. exact Hr.
    - intros b ->%Hseen. cbn. rewrite at_put_eq; [done|]. rewrite size_replicate. unfold size in He. lia.
    - intros b k xs [= -> ->]%list_elem_of_singleton Hxs. split; [pose proof (size_nonneg xs); lia|].
      by intros s ?%elem_of_nil.
    - by intros b s ?%elem_of_nil.
    - done.
    - by intros b ?%elem_of_nil.
    - done. }
  destruct (dfs_spec (dfs_fuel f) st0 HI) as (st & Hst & HI' & Hempty); [|by exists st].
  unfold st0.
  pose proof (push_remaining (mkDfs (replicate (length (blocks_ f)) false) [] [] []) entry []
    (put (replicate (length (blocks_ f)) []) entry ss)) as Hrem.
  cbn [visited stack postorder map] in Hrem. rewrite Hrem.
  - rewrite Nat.add_0_r. unfold dfs_fuel. apply Nat.eq_le_incl. f_equal.
    apply map_ext. intros b. unfold unvisited_cost. destruct (at_ _ b) as [[]|] eqn:Hb; [|done|done].
    by apply at_replicate_inv in Hb.
  - rewrite size_replicate. unfold size in He. lia.
  - lia.
  - intros H%at_replicate_inv. done.
Qed.
End Dfs.

(** ** Numbers and predecessors *)

Lemma number_blocks_spec rpo : forall i v,
  NoDup rpo -> (forall b, b ∈ rpo -> 0 <= b < size v) ->
  exists v', number_blocks rpo i v = Some v' /\ length v' = length v /\
    (forall k b, rpo !! k = Some b -> at_ v' b = Some (i + Z.of_nat k)) /\
    (forall b, b ∉ rpo -> at_ v' b = at_ v b).
Proof.
  induction rpo as [|b rpo IH]; intros i v Hnd Hr; cbn.
  { exists v. split_and!; done. }
  apply list.NoDup_cons in Hnd as [Hb Hnd]. unfold modify.
  destruct (proj2 (at_is_Some v b) (Hr b ltac:(left))) as [x Hx]. rewrite Hx. cbn.
  destruct (IH (i + 1) (put v b i) Hnd) as (v' & -> & Hlen & Hat & Hout).
  { intros c Hc. rewrite size_put. apply Hr. by right. }
  exists v'. split; [done|]. split; [by rewrite Hlen, length_put|]. split.
  - intros [|k] c Hc; cbn in Hc.
    + injection Hc as <-. rewrite Hout by done. rewrite at_put_eq by (apply Hr; left). f_equal. lia.
    + rewrite (Hat k c Hc). f_equal. lia.
  - intros c Hc. apply not_elem_of_cons in Hc as [Hcb Hc]. rewrite Hout by done. by apply at_put_ne.
Qed.

Lemma add_pred_fold b succs : forall preds,
  (forall s, s ∈ succs -> 0 <= s < size preds) ->
  exists preds', fold_left (add_pred b) succs (Some preds) = Some preds' /\ length preds' = length preds /\
    forall x l, at_ preds x = Some l -> exists l', at_ preds' x = Some l' /\
      forall p, p ∈ l' <-> p ∈ l \/ (p = b /\ x ∈ succs).
Proof.
  induction succs as [|s succs IH]; intros preds Hr; cbn.
  { exists preds. split_and!; try done. intros x l Hl. exists l. split; [done|]. intros p.
    rewrite elem_of_nil. tauto. }
  unfold modify. destruct (proj2 (at_is_Some preds s) (Hr s ltac:(left))) as [ls Hls]. rewrite Hls. cbn.
  destruct (IH (put preds s (ls ++ [b]))) as (preds' & -> & Hlen & Hat).
  { intros x Hx. rewrite size_put. apply Hr. by right. }
  exists preds'. split; [done|]. split; [by rewrite Hlen, length_put|]. intros x l Hl.
  destruct (decide (x = s)) as [->|Hne].
  - assert (l = ls) as -> by congruence.
    destruct (Hat s (ls ++ [b])) as (l' & Hl' & Hp); [apply at_put_eq; by eapply at_lt|].
    exists l'. split; [done|]. intros p. rewrite Hp, elem_of_app, list_elem_of_singleton, elem_of_cons. tauto.
  - destruct (Hat x l) as (l' & Hl' & Hp); [by rewrite at_put_ne|]. exists l'. split; [done|].
    intros p. rewrite Hp, elem_of_cons. intuition.
Qed.

Lemma add_preds_fold f cache order : forall preds,
  (forall b, b ∈ order -> exists ss, at_ cache b = Some ss /\ collect_successor_blocks f b = Some ss /\
     forall s, s ∈ ss -> 0 <= s < size preds) ->
  exists preds', fold_left (add_preds cache) order (Some preds) = Some preds' /\ length preds' = length preds /\
    forall x l, at_ preds x = Some l -> exists l', at_ preds' x = Some l' /\
      forall p, p ∈ l' <-> p ∈ l \/ (p ∈ order /\ succ_of f p x).
Proof.
  induction order as [|b order IH]; intros preds Hr; cbn.
  { exists preds. split_and!; try done. intros x l Hl. exists l. split; [done|]. intros p.
    rewrite elem_of_nil. tauto. }
  destruct (Hr b ltac:(left)) as (ss & Hc & Hss & Hin).
  unfold add_preds at 2. cbn [mbind option_bind]. rewrite Hc. cbn [mbind option_bind].
  destruct (add_pred_fold b ss preds Hin) as (preds1 & -> & Hlen1 & Hat1).
  destruct (IH preds1) as (preds' & -> & Hlen & Hat).
  { intros c Hcin. destruct (Hr c ltac:(by right)) as (cs & H1 & H2 & H3). exists cs. split_and!; try done.
    unfold size. rewrite Hlen1. done. }
  exists preds'. split; [done|]. split; [congruence|]. intros x l Hl.
  destruct (Hat1 x l Hl) as (l1 & Hl1 & Hp1). destruct (Hat x l1 Hl1) as (l' & Hl' & Hp). exists l'.
  split; [done|]. intros p. rewrite Hp, Hp1, elem_of_cons. split.
  - intros [[H|[-> H]]|[H1 H2]]; auto. right. split; [by left|]. by exists ss.
  - intros [H|[[->|H] H2]]; auto. left. right. split; [done|]. by apply (succ_of_fun f b ss x Hss).
Qed.

Lemma NoDup_ids_length (l : list Z) (n : nat) :
  NoDup l -> (forall x, x ∈ l -> 0 <= x < Z.of_nat n) -> (length l <= n)%nat.
Proof.
  intros Hnd Hr. replace n with (length (map Z.of_nat (seq 0 n))) by by rewrite length_map, length_seq.
  apply submseteq_length, NoDup_submseteq; [done|]. intros x Hx. apply list_elem_of_fmap.
  specialize (Hr x Hx). exists (Z.to_nat x). split; [lia|]. apply elem_of_seq. lia.
Qed.

(** ** The tree *)

Section Tree.
Context (f : Function).
Hypothesis Hcfg : cfg_ok f.
Let entry := entry_block_ f.
Let slots := length (blocks_ f).

(** The search and the numbering give what the iteration needs. *)
Lemma numbering_from_dfs :
  exists st0 st rpo_index preds,
    dfs_visit f entry (mkDfs (replicate slots false) [] [] (replicate slots [])) = Some st0 /\
    dfs (dfs_fuel f) f st0 = Some st /\
    number_blocks (reverse (postorder st)) 0 (replicate slots UINT32_MAX) = Some rpo_index /\
    fold_left (add_preds (succ_cache st)) (reverse (postorder st)) (Some (replicate slots [])) = Some preds /\
    numbering_ok (succ_of f) entry slots (reverse (postorder st)) rpo_index preds /\
    (forall b, b ∈ reverse (postorder st) <-> reaches f b) /\
    (forall b, b ∉ reverse (postorder st) -> at_ rpo_index b = Some UINT32_MAX \/ at_ rpo_index b = None).
Proof using Hcfg.
  destruct (dfs_from_entry f Hcfg) as (st0 & st & H0 & Hdfs & HI & Hempty).
  set (rpo := reverse (postorder st)).
  assert (Hpost : forall b, b ∈ rpo <-> b ∈ postorder st) by (intros b; apply elem_of_reverse).
  assert (Hseen : forall b, seen st b <-> b ∈ rpo).
  { intros b. unfold seen. rewrite Hempty, Hpost. cbn. rewrite elem_of_nil. tauto. }
  assert (Hreach : forall b, b ∈ rpo <-> reaches f b).
  { intros b. rewrite <- Hseen. split; [by apply (di_reach _ _ HI)|]. intros Hb. unfold reaches in Hb.
    revert b Hb. apply (rtc_ind_r (fun z => seen st z) entry).
    - right. destruct (di_entry _ _ HI Hempty) as [l ->]. apply elem_of_app. right. left.
    - intros y z _ Hyz Hy. apply (di_post _ _ HI y z); [|done]. by apply Hpost, Hseen. }
  assert (Hvalid : forall b, b ∈ rpo -> 0 < b < size (blocks_ f)).
  { intros b Hb. apply valid_id_iff, (reaches_valid f Hcfg), Hreach, Hb. }
  assert (Hnd : NoDup rpo).
  { pose proof (di_nodup _ _ HI) as Hnd. rewrite Hempty in Hnd. cbn in Hnd. unfold rpo. by rewrite reverse_Permutation. }
  destruct (number_blocks_spec rpo 0 (replicate slots UINT32_MAX) Hnd) as (v & Hv & Hvlen & Hvat & Hvout).
  { intros b Hb. rewrite size_replicate. specialize (Hvalid b Hb). unfold size in Hvalid. fold slots in Hvalid. lia. }
  destruct (add_preds_fold f (succ_cache st) rpo (replicate slots [])) as (preds & Hp & Hplen & Hpat).
  { intros b Hb. destruct (cf_succs _ Hcfg b) as (ss & Hss & Hsv); [by apply Hreach|]. exists ss.
    split; [rewrite <- Hss; by apply (di_cache _ _ HI), Hseen|]. split; [done|]. intros s Hs.
    specialize (Hsv s Hs). apply valid_id_iff in Hsv. rewrite size_replicate. unfold size in Hsv. fold slots in Hsv. lia. }
  rewrite length_replicate in Hvlen. rewrite length_replicate in Hplen.
  assert (Hat0 : forall b i, rpo !! i = Some b -> at_ v b = Some (Z.of_nat i)) by (intros b i Hb; by rewrite (Hvat i b Hb)).
  exists st0, st, v, preds. split; [done|]. split; [done|]. split; [done|]. split; [done|].
  split; [|split; [done|]].
  - split.
    + split_and!; [done|done|]. apply NoDup_ids_length; [done|]. intros b Hb. specialize (Hvalid b Hb).
      unfold size in Hvalid. fold slots in Hvalid. lia.
    + destruct (di_entry _ _ HI Hempty) as [l Hl]. unfold rpo. by rewrite Hl, reverse_snoc.
    + exact Hat0.
    + intros b Hb ->. specialize (Hvalid 0 Hb). lia.
    + intros b Hb. destruct (proj2 (at_is_Some (replicate slots (@nil BlockId)) b)) as [l0 Hl0].
      { rewrite size_replicate. specialize (Hvalid b Hb). unfold size in Hvalid. fold slots in Hvalid. lia. }
      destruct (Hpat b l0 Hl0) as (l & Hl & Hin). exists l. split; [done|]. intros p. rewrite Hin.
      apply at_replicate_inv in Hl0 as ->. rewrite elem_of_nil. tauto.
    + intros b Hb Hne. destruct (di_parent _ _ HI b (proj1 (Hpost b) Hb) Hne) as (p & Hpe & [Hin|Haft]).
      { rewrite Hempty in Hin. by apply elem_of_nil in Hin. }
      destruct Haft as (l1 & l2 & Hsplit & Hin). exists p. split; [apply Hpost; rewrite Hsplit, elem_of_app, elem_of_cons; tauto|].
      split; [done|].
      assert (Hrpo : rpo = reverse l2 ++ b :: reverse l1).
      { unfold rpo. rewrite Hsplit, reverse_app, reverse_cons, <- app_assoc. done. }
      apply elem_of_reverse, list_elem_of_lookup in Hin as [i Hi].
      pose proof (lookup_lt_Some _ _ _ Hi) as Hilt. unfold pos.
      rewrite (Hat0 p i) by (rewrite Hrpo; by apply lookup_app_l_Some).
      rewrite (Hat0 b (length (reverse l2))); [lia|]. rewrite Hrpo. by rewrite lookup_app_r, Nat.sub_diag.
  - intros b Hb. rewrite Hvout by done. destruct (at_ (replicate slots UINT32_MAX) b) eqn:E; [left|by right].
    by apply at_replicate_inv in E as ->.
Qed.

Lemma compute_spec :
  exists t, compute f = Some t /\
    (forall b, reachable t b = true <-> reaches f b) /\
    (forall a b, exists r, dominates t a b = Some r /\
       (r = true <-> reaches f a /\ reaches f b /\ dominated_by (succ_of f) entry b a)) /\
    (forall b, exists v, idom t b = Some v /\
       if decide (reachable t b = true /\ b <> entry)
       then v <> b /\ dominated_by (succ_of f) entry b v /\
            forall d, dominated_by (succ_of f) entry b d -> d <> b -> dominated_by (succ_of f) entry v d
       else v = 0).
Proof using Hcfg.
  destruct numbering_from_dfs as (st0 & st & v & preds & H0 & Hdfs & Hv & Hp & Hno & Hreach & Hout).
  set (rpo := reverse (postorder st)) in *.
  assert (Hentry : 0 < entry < size (blocks_ f)) by apply valid_id_iff, Hcfg.
  assert (Hslots : size (replicate slots 0) = size (blocks_ f)) by (rewrite size_replicate; done).
  set (D0 := put (replicate slots 0) entry entry).
  assert (Hinit : pass_inv (succ_of f) entry slots rpo v 0 D0).
  { apply (initial_inv _ _ _ _ _ _ Hno).
    - unfold D0. by rewrite length_put, length_replicate.
    - unfold D0. apply at_put_eq. lia.
    - intros b Hb. unfold D0. rewrite at_put_ne by done. destruct (at_ (replicate slots 0) b) eqn:E; [left|by right].
      by apply at_replicate_inv in E as ->. }
  assert (Hsz : size rpo <= Z.of_nat slots) by (unfold size; destruct (no_size _ _ _ _ _ _ Hno) as (_ & _ & ?); lia).
  destruct (idom_loop_spec _ _ _ _ _ _ Hno (S (slots * slots)) D0 Hinit) as (D & HD & Hinv & Hall & Hset).
  { pose proof (total_height_bound _ _ _ _ _ _ Hno D0 rpo (pi_forest _ _ _ _ _ _ _ Hinit) ltac:(done)) as Hb.
    pose proof (size_nonneg rpo). nia. }
  pose proof (pi_forest _ _ _ _ _ _ _ Hinv) as Hfo.
  assert (Hclosed : forall b s, b ∈ rpo -> succ_of f b s -> s ∈ rpo).
  { intros b s Hb Hs. apply Hreach. unfold reaches. eapply rtc_r; [by apply Hreach|done]. }
  exists (mkTree rpo v D entry). split.
  { unfold compute. fold entry slots. unfold id_ok. replace (entry =? 0) with false by (symmetry; apply Z.eqb_neq; lia).
    cbn [negb]. rewrite H0. cbn [mbind option_bind]. rewrite Hdfs. cbn [mbind option_bind]. fold rpo. rewrite Hv.
    cbn [mbind option_bind]. rewrite Hp. cbn [mbind option_bind]. unfold modify.
    destruct (proj2 (at_is_Some (replicate slots 0) entry)) as [x ->]; [lia|]. cbn [mbind option_bind].
    fold D0. rewrite HD. done. }
  assert (Hrb : forall b, reachable (mkTree rpo v D entry) b = true <-> b ∈ rpo).
  { intros b. unfold reachable. cbn. split.
    - intros Hb. destruct (decide (b ∈ rpo)) as [|Hn]; [done|]. destruct (Hout b Hn) as [Hx|Hx]; rewrite Hx in Hb; done.
    - intros Hb. destruct (rpo_index_at _ _ _ _ _ _ Hno b Hb) as [Hx Hpos]. rewrite Hx.
      apply negb_true_iff, Z.eqb_neq. unfold UINT32_MAX. pose proof (cf_small _ Hcfg). unfold size in *. fold slots in H.
      assert (length rpo < slots)%nat; [|lia].
      destruct (decide (length rpo = slots)) as [Heq|]; [|lia]. exfalso.
      (* all ids but 0 *)
      assert (Hle : (S (length rpo) <= slots)%nat); [|lia].
      change (S (length rpo)) with (length (0 :: rpo)). apply NoDup_ids_length.
      + apply list.NoDup_cons. split; [by intros Hz%(no_ids _ _ _ _ _ _ Hno)|].
        apply NoDup_alt. intros i j y Hi Hj. apply (no_index _ _ _ _ _ _ Hno) in Hi, Hj. assert (Z.of_nat i = Z.of_nat j) by congruence. lia.
      + intros y [->|Hy]%elem_of_cons; [lia|]. destruct (rpo_index_at _ _ _ _ _ _ Hno y Hy) as [Hy' _].
        apply at_lt in Hy'. destruct (no_size _ _ _ _ _ _ Hno) as (Hl & _). unfold size in Hy'. lia. }
  split; [intros b; by rewrite Hrb, Hreach|]. split.
  - intros a b. unfold dominates. destruct (reachable _ a) eqn:Ha; cycle 1.
    { exists false. split; [done|]. rewrite <- (Hreach a), <- Hrb, Ha. split; [done|by intros []]. }
    destruct (reachable _ b) eqn:Hb; cycle 1.
    { exists false. split; [done|]. rewrite <- (Hreach b), <- Hrb, Hb. split; [done|by intros (_ & [=] & _)]. }
    apply Hrb in Ha, Hb. cbn [negb orb].
    destruct (climb_dominates _ _ _ _ _ _ Hno D Hfo Hall Hset Hclosed a b Ha Hb) as (b' & Hc & Hiff).
    cbn [rpo_index_ idom_]. rewrite Hc. cbn [mbind option_bind]. exists (a =? b'). split; [done|].
    rewrite Z.eqb_eq, Hiff, <- !Hreach. tauto.
  - intros b. unfold idom. destruct (reachable _ b) eqn:Hb; cycle 1.
    { exists 0. split; [done|]. rewrite decide_False; [done|by intros []]. }
    cbn [negb orb entry_]. destruct (Z.eqb_spec b entry) as [->|Hne].
    { exists 0. split; [done|]. rewrite decide_False; [done|by intros []]. }
    apply Hrb in Hb. destruct (idom_immediate _ _ _ _ _ _ Hno D Hfo Hall Hset Hclosed b Hb Hne) as (x & Hx & H1 & _ & H2 & H3).
    exists x. split; [done|]. by rewrite decide_True.
Qed.
End Tree.

(** Claim C13: The dominator tree. For every function whose reachable blocks have readable
    successors, the computation ends (both the depth-first search and the
    iteration), and its queries are exact: [reachable] holds of the blocks some
    path leads to, [dominates a b] of the reachable blocks such that every path to
    [b] goes through [a], and [idom b] is the strict dominator of [b] that every
    other strict dominator of [b] dominates, or the null block for the entry and
    for unreachable blocks. For a declaration no block is reachable. *)
Theorem dominator_tree_correct (f : Function) :
  (cfg_ok f ->
    exists t, compute f = Some t /\
      (forall b, reachable t b = true <-> reaches f b) /\
      (forall a b, exists r, dominates t a b = Some r /\
         (r = true <-> reaches f a /\ reaches f b /\ dominated_by (succ_of f) (entry_block_ f) b a)) /\
      (forall b, exists v, idom t b = Some v /\
         if decide (reachable t b = true /\ b <> entry_block_ f)
         then v <> b /\ dominated_by (succ_of f) (entry_block_ f) b v /\
              forall d, dominated_by (succ_of f) (entry_block_ f) b d -> d <> b ->
                dominated_by (succ_of f) (entry_block_ f) v d
         else v = 0)) /\
  (entry_block_ f = 0 -> exists t, compute f = Some t /\ forall b, reachable t b = false).
Proof.
  split; [apply compute_spec|]. intros H0. unfold compute. rewrite H0. eexists. split; [done|]. intros b.
  unfold reachable. cbn. destruct (at_ _ b) as [x|] eqn:Hx; [|done]. by apply at_replicate_inv in Hx as ->.
Qed.

(** ** An example *)

(** Every block has readable successors that are blocks: a check that implies [cfg_ok]. *)
Definition block_ok (f : Function) (b : BlockId) : bool :=
  match collect_successor_blocks f b with Some ss => forallb (valid_id (blocks_ f)) ss | None => false end.
Definition cfg_check (f : Function) : bool :=
  (size (blocks_ f) <? 2 ^ 32) && valid_id (blocks_ f) (entry_block_ f) && forallb (block_ok f) (drop 1 (all_ids f)).

Lemma cfg_check_ok f : cfg_check f = true -> cfg_ok f.
Proof.
  unfold cfg_check. rewrite !andb_true_iff, forallb_forall. intros [[Hsz Hentry] Hall].
  assert (Hb : forall b, valid_id (blocks_ f) b = true -> exists ss, collect_successor_blocks f b = Some ss /\
    forall s, s ∈ ss -> valid_id (blocks_ f) s = true).
  { intros b Hb. apply valid_id_iff in Hb. specialize (Hall b). unfold block_ok in Hall.
    destruct (collect_successor_blocks f b) as [ss|]; cycle 1.
    - discriminate Hall. apply list_elem_of_In. unfold all_ids. rewrite <- fmap_drop. apply list_elem_of_fmap.
      exists (Z.to_nat b). split; [lia|]. rewrite drop_seq. apply elem_of_seq. unfold size in Hb. lia.
    - exists ss. split; [done|]. intros s Hs. apply list_elem_of_In in Hs. revert s Hs. apply forallb_forall, Hall.
      apply list_elem_of_In. unfold all_ids. rewrite <- fmap_drop. apply list_elem_of_fmap.
      exists (Z.to_nat b). split; [lia|]. rewrite drop_seq. apply elem_of_seq. unfold size in Hb. lia. }
  split; [by apply Z.ltb_lt|done|]. intros b Hr. apply Hb. unfold reaches in Hr. revert b Hr.
  apply (rtc_ind_r (fun z => valid_id (blocks_ f) z = true) (entry_block_ f)); [done|].
  intros y z _ (ss & Hss & Hz) Hy. destruct (Hb y Hy) as (ss' & Hss' & Hval). apply Hval. congruence.
Qed.

(** Two branches that meet in a loop, and a block nothing leads to. *)
Definition add_jump (b t : BlockId) (f : Function) : option Function :=
  '(c, f) ← make_block_call t [] f;
  '(i, f) ← make_inst Op_Jump 0 [] (pack_pair_aux c 0) 0 0 f;
  append_inst b i f.
Definition add_branch (b t e : BlockId) (f : Function) : option Function :=
  '(cond, f) ← const_int I8 1 0 f;
  '(c, f) ← make_block_call t [] f;
  '(d, f) ← make_block_call e [] f;
  '(i, f) ← make_inst Op_BrIf 0 [cond] (pack_pair_aux c d) 0 0 f;
  append_inst b i f.
Definition sample_graph : option Function :=
  '(_, f) ← create_block [] new_function; '(_, f) ← create_block [] f; '(_, f) ← create_block [] f;
  '(_, f) ← create_block [] f; '(_, f) ← create_block [] f;
  f ← add_branch 1 2 3 f; f ← add_jump 2 4 f; f ← add_jump 3 4 f; f ← add_branch 4 2 4 f; add_jump 5 4 f.
Definition sample_function : Function := match sample_graph with Some f => f | None => new_function end.

Lemma dominator_tree_correct_witness :
  exists t, compute sample_function = Some t /\ reachable t 5 = false /\ idom t 4 = Some 1 /\
    dominates t 1 4 = Some true /\ dominates t 2 4 = Some false /\
    (forall b, reachable t b = true <-> reaches sample_function b).
Proof.
  assert (H : cfg_check sample_function = true) by (vm_compute; reflexivity).
  destruct (proj1 (dominator_tree_correct sample_function) (cfg_check_ok _ H)) as (t & Ht & Hr & _).
  exists t. split; [exact Ht|].
  assert (Hc : compute sample_function = Some (mkTree [1; 3; 2; 4] [UINT32_MAX; 0; 2; 1; 3; UINT32_MAX]
    [0; 1; 1; 1; 1; 0] 1)) by (vm_compute; reflexivity).
  rewrite Hc in Ht. injection Ht as <-. split; [reflexivity|]. split; [reflexivity|]. split; [reflexivity|].
  split; [reflexivity|]. exact Hr.
Defined.
