(* ===== verification/AirSimplify.v ===== *)
(** * Instruction simplification (run_instsimplify of src/air/passes_opt.cpp)

    [simplify_inst] finds a value an instruction is always equal to: a folded
    constant, one of its operands, or an operand's operand; [run_instsimplify]
    replaces the uses of the result by it and removes the instruction, until a
    round changes nothing. Integers of up to 64 bits are folded in 64-bit words;
    floating-point conversions by the functions of [FloatConvert]. *)
From S2P Require Import Prelude Vectors BigUInt FloatValue FloatConvert AirInsts AirTypes AirFunction AirLists AirSweep.
Open Scope Z_scope.

(** ** Floating-point constants *)

Definition numeric_float_format (type : TypeId) : FloatFormat :=
  if type =? TF32 then IEEEBinary32
  else if type =? TF64 then IEEEBinary64
  else if type =? TF80 then X87Extended80
  else if type =? TF128 then IEEEBinary128
  else Format_Invalid.

Definition numeric_float_value (value : ValueData) : FloatValue :=
  mkFloat (numeric_float_format (value_ty value)) (payload value) (payload2 value).

Definition intern_float_result (type : TypeId) (result : FloatResult) (func : Function)
    : option (ValueId * Function) :=
  if negb (has_value result) then Some (0, func)
  else const_float_bits type (low_bits (FloatValue.value result)) (high_bits (FloatValue.value result)) func.

(** ** Integer constants *)

Record ConstBits := mkConst { bits : Z; width : Z }.

Definition width_mask (width : Z) : Z := if width >=? 64 then 2 ^ 64 - 1 else u64 (Z.shiftl 1 width) - 1.

Definition sign_extend (bits width : Z) : Z :=
  if width >=? 64 then s64 bits
  else
    let sign := u64 (Z.shiftl 1 (width - 1)) in
    s64 (u64 (Z.lxor bits sign - sign)).

(** The outer option is the failure of an assertion, the inner one [std::nullopt]. *)
Definition const_int_of (func : Function) (types : TypeTable) (value : ValueId) : option (option ConstBits) :=
  data ← AirFunction.value func value;
  if negb (bool_decide (value_kind data = ConstInt)) then Some None
  else
    int ← is_int types (value_ty data);
    if negb (int : bool) then Some None
    else
      width ← int_width types (value_ty data);
      if width >? 64 then Some None else Some (Some (mkConst (Z.land (payload data) (width_mask width)) width)).

(** Whether a value can only be 0 or 1; [levels] is 4 less the depth. *)
Fixpoint is_bool_valued_go (levels : nat) (func : Function) (value : ValueId) : option bool :=
  match levels with
  | O => Some false
  | S levels =>
      data ← AirFunction.value func value;
      if bool_decide (value_kind data = ConstInt)
      then Some ((value_ty data =? I8) && ((payload data =? 0) || (payload data =? 1)))
      else if negb (bool_decide (value_kind data = InstResult)) then Some false
      else
        def ← def_inst func value;
        i ← inst func def;
        match op i with
        | Op_Icmp | Op_Fcmp => Some true
        | Op_Select =>
            ops ← operands func def;
            a ← at_ ops 1;
            b ← at_ ops 2;
            first ← is_bool_valued_go levels func a;
            if (first : bool) then is_bool_valued_go levels func b else Some false
        | _ => Some false
        end
  end.
Definition is_bool_valued : Function -> ValueId -> option bool := is_bool_valued_go 4.

(** [lhs.bits op rhs.bits], [std::nullopt] where the operation is not defined. *)
Definition fold_int_binop (op : Opcode) (lhs rhs : ConstBits) : option Z :=
  let w := width lhs in
  let mask := width_mask w in
  let slhs := sign_extend (bits lhs) w in
  let srhs := sign_extend (bits rhs) w in
  let overflows := (slhs =? sign_extend (u64 (Z.shiftl 1 (w - 1))) w) && (srhs =? -1) in
  match op with
  | Op_Iadd => Some (Z.land (u64 (bits lhs + bits rhs)) mask)
  | Op_Isub => Some (Z.land (u64 (bits lhs - bits rhs)) mask)
  | Op_Imul => Some (Z.land (u64 (bits lhs * bits rhs)) mask)
  | Op_Iand => Some (Z.land (bits lhs) (bits rhs))
  | Op_Ior => Some (Z.lor (bits lhs) (bits rhs))
  | Op_Ixor => Some (Z.lxor (bits lhs) (bits rhs))
  | Op_Shl => if bits rhs >=? w then None else Some (Z.land (u64 (Z.shiftl (bits lhs) (bits rhs))) mask)
  | Op_Lshr => if bits rhs >=? w then None else Some (Z.shiftr (bits lhs) (bits rhs))
  | Op_Ashr => if bits rhs >=? w then None else Some (Z.land (u64 (Z.shiftr slhs (bits rhs))) mask)
  | Op_Udiv => if bits rhs =? 0 then None else Some (bits lhs / bits rhs)
  | Op_Urem => if bits rhs =? 0 then None else Some (bits lhs mod bits rhs)
  | Op_Sdiv => if (srhs =? 0) || overflows then None else Some (Z.land (u64 (Z.quot slhs srhs)) mask)
  | Op_Srem => if (srhs =? 0) || overflows then None else Some (Z.land (u64 (Z.rem slhs srhs)) mask)
  | _ => None
  end.

Definition fold_icmp (cond : IntCond) (lhs rhs : ConstBits) : bool :=
  let slhs := sign_extend (bits lhs) (width lhs) in
  let srhs := sign_extend (bits rhs) (width rhs) in
  match cond with
  | Eq => bits lhs =? bits rhs
  | Ne => negb (bits lhs =? bits rhs)
  | Slt => slhs <? srhs
  | Sle => slhs <=? srhs
  | Sgt => slhs >? srhs
  | Sge => slhs >=? srhs
  | Ult => bits lhs <? bits rhs
  | Ule => bits lhs <=? bits rhs
  | Ugt => bits lhs >? bits rhs
  | Uge => bits lhs >=? bits rhs
  end.

(** ** One instruction

    A value to replace the result by, or the null value. *)
Definition found (v : ValueId) (func : Function) : option (ValueId * Function) := Some (v, func).
Definition not_found (func : Function) : option (ValueId * Function) := Some (0, func).

Definition commutative (op : Opcode) : bool :=
  match op with Op_Iadd | Op_Imul | Op_Iand | Op_Ior | Op_Ixor => true | _ => false end.

(** The identities of an operation with one constant operand; [None] when none applies. *)
Definition identity_with (data : InstData) (konst : ConstBits) (konst_is_rhs : bool) (v : ValueId)
    : option (Function -> option (ValueId * Function)) :=
  match op data with
  | Op_Iadd | Op_Ixor | Op_Ior => if bits konst =? 0 then Some (found v) else None
  | Op_Isub | Op_Shl | Op_Lshr | Op_Ashr => if (bits konst =? 0) && konst_is_rhs then Some (found v) else None
  | Op_Imul =>
      if bits konst =? 1 then Some (found v)
      else if bits konst =? 0 then Some (const_int (inst_type data) 0 0) else None
  | Op_Iand =>
      if bits konst =? width_mask (width konst) then Some (found v)
      else if bits konst =? 0 then Some (const_int (inst_type data) 0 0) else None
  | Op_Udiv | Op_Sdiv => if (bits konst =? 1) && konst_is_rhs then Some (found v) else None
  | _ => None
  end.

Definition simplify_binop (func : Function) (types : TypeTable) (data : InstData) (ops : list ValueId)
    : option (ValueId * Function) :=
  x ← at_ ops 0;
  y ← at_ ops 1;
  lhs ← const_int_of func types x;
  rhs ← const_int_of func types y;
  let folded :=
    match lhs, rhs with Some l, Some r => fold_int_binop (op data) l r | _, _ => None end in
  match folded with
  | Some n => const_int (inst_type data) n 0 func
  | None =>
      let '(konst, konst_is_rhs, v) :=
        match (rhs : option ConstBits), (lhs : option ConstBits) with
        | Some r, _ => (Some r, true, x)
        | None, Some l => if commutative (op data) then (Some l, false, y) else (None, true, x)
        | None, None => (None, true, x)
        end in
      match match konst with Some k => identity_with data k konst_is_rhs v | None => None end with
      | Some found => found func
      | None =>
          match op data with
          | Op_Iand | Op_Ior => if x =? y then found x func else not_found func
          | _ => not_found func
          end
      end
  end.

Definition true_on_equal (cond : IntCond) : bool :=
  match cond with Eq | Sle | Sge | Ule | Uge => true | _ => false end.
Definition decided_on_equal (cond : IntCond) : bool :=
  true_on_equal cond || match cond with Ne | Slt | Sgt | Ult | Ugt => true | _ => false end.

Definition simplify_icmp (func : Function) (types : TypeTable) (data : InstData) (ops : list ValueId)
    : option (ValueId * Function) :=
  cond ← enum_at int_conds (aux data);
  x ← at_ ops 0;
  y ← at_ ops 1;
  lhs ← const_int_of func types x;
  rhs ← const_int_of func types y;
  match (lhs : option ConstBits), (rhs : option ConstBits) with
  | Some l, Some r => const_int I8 (Z.b2z (fold_icmp cond l r)) 0 func
  | _, _ =>
      same ← (if x =? y then type ← value_type func x; float ← is_float types type; Some (negb float) else Some false);
      if same && decided_on_equal cond then const_int I8 (Z.b2z (true_on_equal cond)) 0 func
      else if bool_decide (cond = Ne) && match rhs with Some r => bits r =? 0 | None => false end then
        b ← is_bool_valued func x;
        if (b : bool) then found x func
        else
          lhs_value ← AirFunction.value func x;
          if bool_decide (value_kind lhs_value = InstResult) then
            def ← def_inst func x;
            i ← inst func def;
            if bool_decide (op i = Op_Zext) then
              ops ← operands func def;
              z ← at_ ops 0;
              b ← is_bool_valued func z;
              if (b : bool) then found z func else not_found func
            else not_found func
          else not_found func
      else not_found func
  end.

Definition simplify_int_cast (func : Function) (types : TypeTable) (data : InstData) (ops : list ValueId)
    : option (ValueId * Function) :=
  x ← at_ ops 0;
  k ← const_int_of func types x;
  match (k : option ConstBits) with
  | Some k =>
      to_width ← int_width types (inst_type data);
      if to_width <=? 64 then
        let b := if bool_decide (op data = Op_Sext) then u64 (sign_extend (bits k) (width k)) else bits k in
        const_int (inst_type data) (Z.land b (width_mask to_width)) 0 func
      else not_found func
  | None =>
      if bool_decide (op data = Op_Trunc) then
        source ← AirFunction.value func x;
        if bool_decide (value_kind source = InstResult) then
          def ← def_inst func x;
          i ← inst func def;
          match op i with
          | Op_Zext | Op_Sext =>
              ops ← operands func def;
              z ← at_ ops 0;
              type ← value_type func z;
              if type =? inst_type data then found z func else not_found func
          | _ => not_found func
          end
        else not_found func
      else not_found func
  end.

Definition simplify_float_cast (func : Function) (data : InstData) (ops : list ValueId)
    : option (ValueId * Function) :=
  x ← at_ ops 0;
  source ← AirFunction.value func x;
  let destination := numeric_float_format (inst_type data) in
  if bool_decide (value_kind source = ConstFloat) && negb (bool_decide (destination = Format_Invalid))
  then intern_float_result (inst_type data) (convert (numeric_float_value source) destination default_control) func
  else not_found func.

Definition simplify_int_to_float (func : Function) (types : TypeTable) (data : InstData) (ops : list ValueId)
    : option (ValueId * Function) :=
  x ← at_ ops 0;
  let destination := numeric_float_format (inst_type data) in
  if bool_decide (destination = Format_Invalid) then not_found func
  else
    k ← const_int_of func types x;
    match (k : option ConstBits) with
    | None => not_found func
    | Some k =>
        intern_float_result (inst_type data)
          (from_integer (bits k) (width k) (bool_decide (op data = Op_Sitofp)) destination default_control) func
    end.

Definition simplify_select (func : Function) (types : TypeTable) (data : InstData) (ops : list ValueId)
    : option (ValueId * Function) :=
  c ← at_ ops 0;
  x ← at_ ops 1;
  y ← at_ ops 2;
  cond ← AirFunction.value func c;
  if bool_decide (value_kind cond = ConstInt) then found (if negb (payload cond =? 0) then x else y) func
  else if x =? y then found x func
  else
    then_value ← const_int_of func types x;
    else_value ← const_int_of func types y;
    match (then_value : option ConstBits), (else_value : option ConstBits) with
    | Some t, Some e =>
        if (inst_type data =? I8) && (bits t =? 1) && (bits e =? 0) then
          b ← is_bool_valued func c;
          if (b : bool) then found c func else not_found func
        else not_found func
    | _, _ => not_found func
    end.

Definition simplify_inst (func : Function) (types : TypeTable) (inst_id : InstId) : option (ValueId * Function) :=
  data ← inst func inst_id;
  ops ← operands func inst_id;
  match op data with
  | Op_Iadd | Op_Isub | Op_Imul | Op_Iand | Op_Ior | Op_Ixor | Op_Shl | Op_Sdiv | Op_Udiv | Op_Srem | Op_Urem
  | Op_Ashr | Op_Lshr => simplify_binop func types data ops
  | Op_Icmp => simplify_icmp func types data ops
  | Op_Trunc | Op_Zext | Op_Sext => simplify_int_cast func types data ops
  | Op_Fpext | Op_Fptrunc => simplify_float_cast func data ops
  | Op_Sitofp | Op_Uitofp => simplify_int_to_float func types data ops
  | Op_Bitcast =>
      x ← at_ ops 0;
      type ← value_type func x;
      if type =? inst_type data then found x func else not_found func
  | Op_PtrAdd =>
      x ← at_ ops 0;
      y ← at_ ops 1;
      offset ← const_int_of func types y;
      match (offset : option ConstBits) with
      | Some k => if bits k =? 0 then found x func else not_found func
      | None => not_found func
      end
  | Op_Select => simplify_select func types data ops
  | _ => not_found func
  end.

(** ** The pass *)

(** The replacement of one instruction, and whether it was replaced. *)
Definition simplify_at (types : TypeTable) (i : InstId) (func : Function) : option (bool * Function) :=
  data ← inst func i;
  if bool_decide (opcode_result_kind (op data) = Result_Value) && (Z.land (flags data) INST_FLAG_VOLATILE =? 0) then
    '(simplified, func) ← simplify_inst func types i;
    if id_ok simplified && negb (simplified =? result data) then
      func ← replace_all_uses (result data) simplified func;
      func ← remove_inst i func;
      Some (true, func)
    else Some (false, func)
  else Some (false, func).

Definition simplify_round (types : TypeTable) (func : Function) : option (bool * Function) :=
  sweep (simplify_at types) func.
Definition run_instsimplify (types : TypeTable) (func : Function) : option (bool * Function) :=
  until_stable (simplify_round types) func.
