(* ===== verification/AirVerify.v ===== *)
(** * The verifier's rules for values (src/air/verifier.cpp)

    What the verifier requires of an instruction that computes a value: the number
    of operands, canonical constants, allowed types, and the types its opcode
    relates. [check_inst] is true when the verifier reports no error for them; the
    instructions on memory, calls and control flow, whose rules need the module,
    are not covered, and none of the passes modelled reads them. *)
From S2P Require Import Prelude Vectors AirInsts AirTypes AirFunction.
Open Scope Z_scope.

Definition int_width_allowed (width : Z) : bool :=
  (width =? 8) || (width =? 16) || (width =? 32) || (width =? 64) || (width =? 128).

Definition float_bit_width (kind : FloatKind) : Z :=
  match kind with F32 => 32 | F64 => 64 | F128 => 128 | F80 => 80 end.

Definition check_value_type (types : TypeTable) (t : TypeId) : bool :=
  match type types t with
  | None => false
  | Some data =>
      match kind data with
      | Kind_Void => false
      | Kind_Int => int_width_allowed (type_int_width data)
      | Kind_Float | Kind_Ptr => true
      end
  end.

Definition canonical_int (width : Z) (value : ValueData) : bool :=
  if width <? 64 then (payload2 value =? 0) && (Z.shiftr (payload value) width =? 0)
  else if width =? 64 then payload2 value =? 0
  else if width <? 128 then Z.shiftr (payload2 value) (width - 64) =? 0
  else true.
Definition canonical_float (kind : FloatKind) (value : ValueData) : bool :=
  match kind with
  | F32 => (payload2 value =? 0) && (Z.shiftr (payload value) 32 =? 0)
  | F64 => payload2 value =? 0
  | F80 => Z.shiftr (payload2 value) 16 =? 0
  | F128 => true
  end.

(** The constants among the operands (labels aside). *)
Definition check_operand_value (types : TypeTable) (value : ValueData) : bool :=
  match value_kind value with
  | ConstInt =>
      match type types (value_ty value) with
      | Some data => bool_decide (kind data = Kind_Int) && canonical_int (type_int_width data) value
      | None => false
      end
  | ConstFloat =>
      match type types (value_ty value) with
      | Some data => bool_decide (kind data = Kind_Float) && canonical_float (float_kind data) value
      | None => false
      end
  | _ => true
  end.

Definition size_int_type (pointer_width : Z) : TypeId := if pointer_width =? 64 then I64 else I32.

Definition has_kind (types : TypeTable) (k : TypeKind) (t : TypeId) : bool :=
  match type types t with Some data => bool_decide (kind data = k) | None => false end.
Definition scalar_bits (types : TypeTable) (t : TypeId) : Z :=
  match type types t with
  | Some data => match kind data with Kind_Int => type_int_width data | _ => float_bit_width (float_kind data) end
  | None => 0
  end.

(** The switch over the opcodes: [ty] is the type of the result, [ops] those of
    the operands. *)
Definition check_types (types : TypeTable) (pointer_width : Z) (op : Opcode) (aux : Z) (ty : TypeId) (ops : list TypeId)
    : bool :=
  match op, ops with
  | (Op_Iadd | Op_Isub | Op_Imul | Op_Iand | Op_Ior | Op_Ixor | Op_Shl | Op_Sdiv | Op_Udiv | Op_Srem | Op_Urem
    | Op_Ashr | Op_Lshr), [a; b] => has_kind types Kind_Int a && (b =? a) && (ty =? a)
  | (Op_Bswap | Op_Clz | Op_Ctz | Op_Popcnt), [a] =>
      has_kind types Kind_Int a && (ty =? a) && (negb (bool_decide (op = Op_Bswap)) || (scalar_bits types a mod 16 =? 0))
  | (Op_Fadd | Op_Fsub | Op_Fmul | Op_Fdiv | Op_Frem), [a; b] => has_kind types Kind_Float a && (b =? a) && (ty =? a)
  | Op_Fneg, [a] => has_kind types Kind_Float a && (ty =? a)
  | Op_Icmp, [a; b] =>
      (has_kind types Kind_Int a || has_kind types Kind_Ptr a) && (b =? a) && (ty =? I8) &&
      (aux <=? enum_index int_conds Uge)
  | Op_Fcmp, [a; b] => has_kind types Kind_Float a && (b =? a) && (ty =? I8) && (aux <=? enum_index float_conds F_Uge)
  | Op_Trunc, [a] =>
      has_kind types Kind_Int a && has_kind types Kind_Int ty && (scalar_bits types ty <? scalar_bits types a)
  | (Op_Zext | Op_Sext), [a] =>
      has_kind types Kind_Int a && has_kind types Kind_Int ty && (scalar_bits types ty >? scalar_bits types a)
  | Op_Fptrunc, [a] =>
      has_kind types Kind_Float a && has_kind types Kind_Float ty && (scalar_bits types ty <? scalar_bits types a)
  | Op_Fpext, [a] =>
      has_kind types Kind_Float a && has_kind types Kind_Float ty && (scalar_bits types ty >? scalar_bits types a)
  | (Op_Fptosi | Op_Fptoui), [a] => has_kind types Kind_Float a && has_kind types Kind_Int ty
  | (Op_Sitofp | Op_Uitofp), [a] => has_kind types Kind_Int a && has_kind types Kind_Float ty
  | Op_Ptrtoint, [a] => has_kind types Kind_Ptr a && has_kind types Kind_Int ty
  | Op_Inttoptr, [a] => has_kind types Kind_Int a && has_kind types Kind_Ptr ty
  | Op_Bitcast, [a] =>
      negb (has_kind types Kind_Ptr a || has_kind types Kind_Ptr ty) &&
      negb (has_kind types Kind_Void a || has_kind types Kind_Void ty) &&
      (scalar_bits types a =? scalar_bits types ty)
  | Op_PtrAdd, [a; b] => has_kind types Kind_Ptr a && (b =? size_int_type pointer_width) && (ty =? a)
  | Op_Select, [c; a; b] => (c =? I8) && (b =? a) && (ty =? a)
  | _, _ => true
  end.

(** [check_inst], for an instruction that computes a value. *)
Definition check_inst (types : TypeTable) (pointer_width : Z) (f : Function) (i : InstId) : bool :=
  match inst f i, operands f i with
  | Some data, Some ops =>
      let expected := opcode_operand_count (op data) in
      ((expected <? 0) || (size ops =? expected)) &&
      match mapM (value f) ops with
      | Some values =>
          forallb (check_operand_value types) values &&
          (negb (id_ok (result data)) || check_value_type types (inst_type data)) &&
          forallb (check_value_type types) (map value_ty values) &&
          check_types types pointer_width (op data) (aux data) (inst_type data) (map value_ty values)
      | None => false
      end
  | _, _ => false
  end.
