(* ===== verification/AirSemantics.v ===== *)
(** * What the instructions of the AIR compute

    The specification the passes are proved against. A value is an integer, which
    is also the representation of a pointer, or a floating-point value; [eval_inst]
    gives the result of an instruction that only computes, where it has one. A
    valuation of the values of a function is consistent when every constant has
    its value and every such instruction's result is what its operands give. *)
From S2P Require Import Prelude Vectors BigUInt FloatValue FloatConvert AirInsts AirTypes AirFunction AirVerify.
Open Scope Z_scope.

(** ** Values *)

Inductive rvalue := RInt (n : Z) | RFloat (v : FloatValue).

Definition float_format (k : FloatKind) : FloatFormat :=
  match k with F32 => IEEEBinary32 | F64 => IEEEBinary64 | F80 => X87Extended80 | F128 => IEEEBinary128 end.

Section Semantics.
Context (types : TypeTable) (pointer_width : Z).

(** The width of integers and pointers. *)
Definition bits_of (data : TypeData) : Z :=
  match kind data with Kind_Int => type_int_width data | Kind_Ptr => pointer_width | _ => 0 end.

(** A value of a type. *)
Definition rvalue_ok (data : TypeData) (r : rvalue) : Prop :=
  match kind data, r with
  | (Kind_Int | Kind_Ptr), RInt n => word (bits_of data) n
  | Kind_Float, RFloat v => semantics v = float_format (float_kind data)
  | _, _ => False
  end.

(** Two's-complement arithmetic on [w] bits; no result for a division by zero, a
    quotient out of range, or a shift by the width or more. *)
Definition eval_binop (op : Opcode) (w a b : Z) : option Z :=
  let sa := swrap w a in
  let sb := swrap w b in
  let overflows := (sa =? - 2 ^ (w - 1)) && (sb =? -1) in
  match op with
  | Op_Iadd => Some (uwrap w (a + b))
  | Op_Isub => Some (uwrap w (a - b))
  | Op_Imul => Some (uwrap w (a * b))
  | Op_Iand => Some (Z.land a b)
  | Op_Ior => Some (Z.lor a b)
  | Op_Ixor => Some (Z.lxor a b)
  | Op_Shl => if w <=? b then None else Some (uwrap w (a * 2 ^ b))
  | Op_Lshr => if w <=? b then None else Some (a / 2 ^ b)
  | Op_Ashr => if w <=? b then None else Some (uwrap w (sa / 2 ^ b))
  | Op_Udiv => if b =? 0 then None else Some (a / b)
  | Op_Urem => if b =? 0 then None else Some (a mod b)
  | Op_Sdiv => if (sb =? 0) || overflows then None else Some (uwrap w (Z.quot sa sb))
  | Op_Srem => if (sb =? 0) || overflows then None else Some (uwrap w (Z.rem sa sb))
  | _ => None
  end.

Definition eval_icmp (cond : IntCond) (w a b : Z) : bool :=
  let sa := swrap w a in
  let sb := swrap w b in
  match cond with
  | Eq => a =? b
  | Ne => negb (a =? b)
  | Slt => sa <? sb
  | Sle => sa <=? sb
  | Sgt => sb <? sa
  | Sge => sb <=? sa
  | Ult => a <? b
  | Ule => a <=? b
  | Ugt => b <? a
  | Uge => b <=? a
  end.

Definition eval_fcmp (cond : FloatCond) (c : CompareResult) : bool :=
  match c, cond with
  | Unordered, (F_Uno | F_Ueq | F_Une | F_Ult | F_Ule | F_Ugt | F_Uge) => true
  | Unordered, _ => false
  | Equal, (F_Oeq | F_Ole | F_Oge | F_Ord | F_Ueq | F_Ule | F_Uge) => true
  | Less, (F_One | F_Olt | F_Ole | F_Ord | F_Une | F_Ult | F_Ule) => true
  | Greater, (F_One | F_Ogt | F_Oge | F_Ord | F_Une | F_Ugt | F_Uge) => true
  | _, _ => false
  end.

Definition float_result (r : FloatResult) : option rvalue :=
  if has_value r then Some (RFloat (FloatValue.value r)) else None.

(** [ty] is the type of the result, [tys] those of the operands. *)
Definition eval_inst (op : Opcode) (aux : Z) (ty : TypeData) (tys : list TypeData) (args : list rvalue)
    : option rvalue :=
  match op, tys, args with
  | (Op_Iadd | Op_Isub | Op_Imul | Op_Iand | Op_Ior | Op_Ixor | Op_Shl | Op_Sdiv | Op_Udiv | Op_Srem | Op_Urem
    | Op_Ashr | Op_Lshr), t :: _, [RInt a; RInt b] => RInt <$> eval_binop op (bits_of t) a b
  | Op_Icmp, t :: _, [RInt a; RInt b] =>
      cond ← enum_at int_conds aux; Some (RInt (Z.b2z (eval_icmp cond (bits_of t) a b)))
  | Op_Fcmp, _, [RFloat u; RFloat v] =>
      cond ← enum_at float_conds aux; Some (RInt (Z.b2z (eval_fcmp cond (compare_value (compare u v)))))
  | Op_Trunc, _, [RInt a] => Some (RInt (uwrap (bits_of ty) a))
  | Op_Zext, _, [RInt a] => Some (RInt a)
  | Op_Sext, t :: _, [RInt a] => Some (RInt (uwrap (bits_of ty) (swrap (bits_of t) a)))
  | (Op_Fpext | Op_Fptrunc), _, [RFloat v] =>
      float_result (convert v (float_format (float_kind ty)) default_control)
  | Op_Sitofp, t :: _, [RInt a] =>
      float_result (from_integer a (bits_of t) true (float_format (float_kind ty)) default_control)
  | Op_Uitofp, t :: _, [RInt a] =>
      float_result (from_integer a (bits_of t) false (float_format (float_kind ty)) default_control)
  | Op_Bitcast, t :: _, [r] => if bool_decide (t = ty) then Some r else None
  | Op_PtrAdd, _, [RInt p; RInt n] => Some (RInt (uwrap (bits_of ty) (p + n)))
  | Op_Select, _, [RInt c; x; y] => Some (if c =? 0 then y else x)
  | _, _, _ => None
  end.

(** ** Valuations *)

Definition const_value (data : TypeData) (v : ValueData) : option rvalue :=
  match value_kind v with
  | ConstInt => Some (RInt (payload v + 2 ^ 64 * payload2 v))
  | ConstFloat => Some (RFloat (mkFloat (float_format (float_kind data)) (payload v) (payload2 v)))
  | ConstNull => Some (RInt 0)
  | _ => None
  end.

(** The value computed by instruction [i] when the operands have the values [rho]. *)
Definition inst_value (f : Function) (rho : ValueId -> rvalue) (i : InstId) : option rvalue :=
  data ← inst f i;
  ops ← operands f i;
  values ← mapM (AirFunction.value f) ops;
  tys ← mapM (fun v => type types (value_ty v)) values;
  ty ← type types (inst_type data);
  eval_inst (op data) (aux data) ty tys (map rho ops).

Record consistent (f : Function) (rho : ValueId -> rvalue) : Prop := {
  cs_typed : forall v data ty, AirFunction.value f v = Some data -> type types (value_ty data) = Some ty ->
    kind ty <> Kind_Void -> rvalue_ok ty (rho v);
  cs_const : forall v data ty r, AirFunction.value f v = Some data -> type types (value_ty data) = Some ty ->
    const_value ty data = Some r -> rho v = r;
  cs_inst : forall v data r, AirFunction.value f v = Some data -> value_kind data = InstResult ->
    inst_value f rho (u32 (payload data)) = Some r -> rho v = r }.
End Semantics.
