(* ===== verification/AirFold.v ===== *)
(** * Constant folding is exact (fold_int_binop, fold_icmp of src/air/passes_opt.cpp)

    The folding works in 64-bit words whatever the width of the type; on the
    widths up to 64 it gives exactly the two's-complement arithmetic of the width,
    and refuses exactly where that has no result. *)
From S2P Require Import Prelude Vectors BigUInt FloatValue Rounding FloatConvert AirInsts AirTypes AirFunction AirSimplify AirVerify AirSemantics.
Open Scope Z_scope.

(** ** Words narrower than 64 bits *)

Lemma const_mask_ones w : 0 < w <= 64 -> width_mask w = Z.ones w.
Proof.
  intros Hw. unfold width_mask. rewrite Z.ones_equiv, Z.geb_leb. destruct (Z.leb_spec 64 w).
  - assert (w = 64) as -> by lia. done.
  - rewrite shiftl_mul, Z.mul_1_l, uwrap_small by (try split; try apply pow2_lt; lia). lia.
Qed.
Lemma mask_uwrap w x : 0 < w <= 64 -> Z.land (u64 x) (width_mask w) = uwrap w x.
Proof.
  intros Hw. rewrite const_mask_ones, Z.land_ones by lia. unfold uwrap.
  rewrite Z.mod_mod_divide; [done|]. exists (2 ^ (64 - w)). rewrite <- pow2_split by lia. f_equal. lia.
Qed.
Lemma mask_word w x : 0 < w <= 64 -> word w x -> Z.land x (width_mask w) = x.
Proof.
  intros Hw Hx. rewrite const_mask_ones, Z.land_ones by lia. by apply Z.mod_small.
Qed.

Lemma xor_sign w x : 0 < w -> word w x ->
  Z.lxor x (2 ^ (w - 1)) = if x <? 2 ^ (w - 1) then x + 2 ^ (w - 1) else x - 2 ^ (w - 1).
Proof.
  intros Hw Hx. pose proof (testbit_top w x Hw Hx) as Ht.
  assert (Hp : 2 ^ w = 2 * 2 ^ (w - 1)) by (rewrite <- Z.pow_succ_r by lia; f_equal; lia).
  pose proof (pow2_pos (w - 1) ltac:(lia)) as Hpos. unfold word in Hx. destruct (Z.ltb_spec x (2 ^ (w - 1))) as [Hlt|Hge].
  - rewrite Z.add_nocarry_lxor; [done|]. apply Z.bits_inj'. intros i Hi.
    rewrite Z.land_spec, Z.pow2_bits_eqb, Z.bits_0 by lia. destruct (Z.eqb_spec (w - 1) i) as [<-|]; [|by rewrite andb_false_r].
    rewrite Ht. rewrite andb_true_r. by apply Z.leb_gt.
  - symmetry. replace x with (Z.lxor (x - 2 ^ (w - 1)) (2 ^ (w - 1))) at 2.
    + by rewrite Z.lxor_assoc, Z.lxor_nilpotent, Z.lxor_0_r.
    + rewrite <- Z.add_nocarry_lxor; [lia|]. apply Z.bits_inj'. intros i Hi.
      rewrite Z.land_spec, Z.pow2_bits_eqb, Z.bits_0 by lia. destruct (Z.eqb_spec (w - 1) i) as [<-|]; [|by rewrite andb_false_r].
      rewrite andb_true_r. apply (word_testbit_high (w - 1)); [lia|split; lia|lia].
Qed.

Lemma sign_extend_swrap w x : 0 < w <= 64 -> word w x -> sign_extend x w = swrap w x.
Proof.
  intros Hw Hx. unfold sign_extend. rewrite Z.geb_leb. destruct (Z.leb_spec 64 w).
  - assert (w = 64) as -> by lia. done.
  - pose proof (pow2_pos (w - 1) ltac:(lia)) as Hpos. pose proof (pow2_lt (w - 1) 64 ltac:(lia)) as Hlt.
    rewrite shiftl_mul, Z.mul_1_l, (uwrap_small 64 (2 ^ (w - 1))) by (try split; lia). rewrite xor_sign by (done || lia).
    assert (Hp : 2 ^ w = 2 * 2 ^ (w - 1)) by (rewrite <- Z.pow_succ_r by lia; f_equal; lia).
    pose proof (pow2_le (w - 1) 63 ltac:(lia)) as Hle.
    assert (Hs : swrap w x = if x <? 2 ^ (w - 1) then x else x - 2 ^ w) by (unfold swrap; by rewrite uwrap_small).
    rewrite Hs. unfold word in Hx. pose proof (pow2_le w 63 ltac:(lia)).
    assert (Hswrap64 : forall z, - 2 ^ 63 <= z < 2 ^ 63 -> s64 (u64 z) = z).
    { intros z Hz. unfold swrap. rewrite uwrap_idem. fold (swrap 64 z). by apply swrap_small. }
    destruct (Z.ltb_spec x (2 ^ (w - 1))); rewrite Hswrap64; lia.
Qed.

(** ** Folding *)

Lemma fold_int_binop_exact op w a b :
  0 < w <= 64 -> word w a -> word w b -> fold_int_binop op (mkConst a w) (mkConst b w) = eval_binop op w a b.
Proof.
  intros Hw Ha Hb. unfold fold_int_binop, eval_binop. cbn [bits AirSimplify.width].
  rewrite !sign_extend_swrap by done.
  pose proof (pow2_pos (w - 1) ltac:(lia)) as Hpos. pose proof (pow2_lt (w - 1) 64 ltac:(lia)) as Hlt.
  rewrite (shiftl_mul 1 (w - 1)), (Z.mul_1_l (2 ^ (w - 1))), (uwrap_small 64 (2 ^ (w - 1))) by (try split; lia).
  assert (Hmin : sign_extend (2 ^ (w - 1)) w = - 2 ^ (w - 1)).
  { assert (Hp : 2 ^ w = 2 * 2 ^ (w - 1)) by (rewrite <- Z.pow_succ_r by lia; f_equal; lia).
    rewrite sign_extend_swrap by (try split; lia). unfold swrap. rewrite uwrap_small by (split; lia).
    rewrite (proj2 (Z.ltb_ge _ _)); lia. }
  rewrite Hmin. unfold word in Hb.
  destruct op; try reflexivity; rewrite ?mask_uwrap by done; try reflexivity.
  all: rewrite ?Z.geb_leb; destruct (Z.leb_spec w b); try reflexivity.
  - rewrite shiftl_mul by lia. reflexivity.
  - rewrite shiftr_div by lia. reflexivity.
  - rewrite shiftr_div by lia. reflexivity.
Qed.

Lemma fold_icmp_exact cond w a b :
  0 < w <= 64 -> word w a -> word w b -> fold_icmp cond (mkConst a w) (mkConst b w) = eval_icmp cond w a b.
Proof.
  intros Hw Ha Hb. unfold fold_icmp, eval_icmp. cbn [bits AirSimplify.width]. rewrite !sign_extend_swrap by done.
  destruct cond; rewrite ?Z.gtb_ltb, ?Z.geb_leb; reflexivity.
Qed.

(** The results are words of the width. *)
Lemma eval_binop_word op w a b n : 0 < w -> word w a -> word w b -> eval_binop op w a b = Some n -> word w n.
Proof.
  intros Hw Ha Hb. pose proof (pow2_pos w ltac:(lia)) as Hp. unfold eval_binop. unfold word in Ha, Hb.
  assert (Hlog : forall f : bool -> bool -> bool, f false false = false ->
     forall z, (forall i, 0 <= i -> Z.testbit z i = f (Z.testbit a i) (Z.testbit b i)) -> 0 <= z -> word w z).
  { intros f Hf z Hz H0. split; [done|]. destruct (decide (z = 0)) as [->|Hnz]; [done|]. apply Z.log2_lt_pow2; [lia|].
    destruct (Z.lt_ge_cases (Z.log2 z) w) as [|Hge]; [done|exfalso]. pose proof (Z.bit_log2 z ltac:(lia)) as Hbit.
    rewrite Hz in Hbit by apply Z.log2_nonneg.
    rewrite (word_testbit_high w a), (word_testbit_high w b) in Hbit by (done || lia). congruence. }
  destruct op; try discriminate; repeat case_match; intros [= <-]; try discriminate; try (apply uwrap_word; lia).
  - apply (Hlog andb eq_refl); [intros; apply Z.land_spec|apply Z.land_nonneg; lia].
  - apply (Hlog orb eq_refl); [intros; by apply Z.lor_spec|apply Z.lor_nonneg; lia].
  - apply (Hlog xorb eq_refl); [intros; by apply Z.lxor_spec|apply Z.lxor_nonneg; lia].
  - ztests. pose proof (Z.mul_div_le a b ltac:(lia)). pose proof (Z.div_pos a b ltac:(lia) ltac:(lia)). unfold word. nia.
  - ztests. pose proof (Z.mod_pos_bound a b ltac:(lia)). unfold word. lia.
  - ztests. pose proof (pow2_pos b ltac:(lia)). pose proof (Z.mul_div_le a (2 ^ b) ltac:(lia)).
    pose proof (Z.div_pos a (2 ^ b) ltac:(lia) ltac:(lia)). unfold word. nia.
Qed.

(** The constant [n] of [w] bits. *)
Definition constant (w n : Z) : ConstBits := mkConst n w.

(** Claim C37: Constant folding. On every width up to 64 bits, folding an operation or a
    comparison of two constants in 64-bit words gives the two's-complement result
    of the width, as a canonical constant, and gives none exactly where the
    operation has none: divisions by zero, quotients out of range, shifts by the
    width or more. *)
Theorem folding_exact (w a b : Z) :
  0 < w <= 64 -> word w a -> word w b ->
  (forall op, fold_int_binop op (constant w a) (constant w b) = eval_binop op w a b) /\
  (forall cond, fold_icmp cond (constant w a) (constant w b) = eval_icmp cond w a b) /\
  (forall op n, fold_int_binop op (constant w a) (constant w b) = Some n -> word w n).
Proof.
  intros Hw Ha Hb. unfold constant. split; [|split].
  - intros op. by apply fold_int_binop_exact.
  - intros cond. by apply fold_icmp_exact.
  - intros op n. rewrite fold_int_binop_exact by done. intros H.
    apply (eval_binop_word op w a b n); [lia|done|done|done].
Qed.

Lemma folding_exact_witness :
  fold_int_binop Op_Sdiv (constant 8 0x80) (constant 8 2) = Some 0xC0 /\
  fold_int_binop Op_Sdiv (constant 8 0x80) (constant 8 0xFF) = None /\
  fold_icmp Slt (constant 8 0x80) (constant 8 0xFF) = true.
Proof.
  destruct (folding_exact 8 0x80 2 ltac:(by split) ltac:(by split) ltac:(by split)) as (H1 & _ & _).
  destruct (folding_exact 8 0x80 0xFF ltac:(by split) ltac:(by split) ltac:(by split)) as (H2 & H3 & _).
  rewrite H1, H2, H3. split; [reflexivity|split; reflexivity].
Defined.
