(* ===== verification/AirSimplifyProps.v ===== *)
(** * Simplification keeps what instructions compute (src/air/passes_opt.cpp)

    Whenever [simplify_inst] finds a replacement in a function the verifier
    accepts, the replacement has the type of the result and, in every consistent
    valuation, the value the instruction computes. *)
From S2P Require Import Prelude Vectors BigUInt FloatValue Rounding FloatConvert AirInsts AirTypes AirFunction AirSimplify AirVerify AirSemantics AirFold.
Open Scope Z_scope.

(** ** Formats of results *)

Definition has_format (format : FloatFormat) (v : FloatValue) : Prop :=
  semantics v = format /\ FloatValue.canonical v = true.
Definition of_format (format : FloatFormat) (r : FloatResult) : Prop :=
  has_value r = true -> has_format format (FloatValue.value r).

Lemma error_of_format e format : of_format format (error_result e).
Proof. unfold of_format, has_value, error_result. cbn. rewrite andb_false_r. done. Qed.

Lemma from_raw_format format fmt raw : descriptor format = Some fmt -> has_format format (from_raw format raw).
Proof.
  intros E. pose proof (descriptor_ok _ _ E) as [_ _ _ _ _ Hs].
  assert (Hraw : from_raw format raw = from_raw format (u128 raw)).
  { unfold from_raw. rewrite E. destruct (Z.ltb_spec (storage_bits fmt) 128) as [Hlt|Hge].
    - rewrite !land_low_mask by lia. assert (Hm : u128 raw mod 2 ^ storage_bits fmt = raw mod 2 ^ storage_bits fmt).
      { apply Z.mod_mod_divide. exists (2 ^ (128 - storage_bits fmt)). rewrite <- pow2_split by lia. f_equal. lia. }
      by rewrite Hm.
    - f_equal; unfold uwrap.
      + symmetry. apply Z.mod_mod_divide. by exists (2 ^ 64).
      + rewrite !shiftr_div by lia. change (2 ^ 128) with (2 ^ 64 * 2 ^ 64). rewrite Z.rem_mul_r by lia.
        rewrite (Z.mul_comm (2 ^ 64)), Z.div_add by lia. rewrite (Z.div_small (raw mod 2 ^ 64)).
        * by rewrite Z.add_0_l, Z.mod_mod by lia.
        * by apply Z.mod_pos_bound. }
  destruct (from_raw_spec format fmt (u128 raw) E) as (H1 & _ & _ & H4); [apply uwrap_word; lia|].
  rewrite Hraw. done.
Qed.

Lemma constructors_format format fmt : descriptor format = Some fmt ->
  (forall neg, has_format format (zero format neg)) /\ (forall neg, has_format format (infinity format neg)) /\
  (forall neg, has_format format (maximum_finite format neg)) /\
  (forall neg, has_format format (minimum_subnormal format neg)) /\
  (forall neg sig p, has_format format (make_nan format neg sig p)).
Proof.
  intros E. unfold zero, infinity, maximum_finite, minimum_subnormal, make_nan. rewrite E.
  split_and!; intros; by apply (from_raw_format _ _ _ E).
Qed.

Lemma round_rational_format neg n d x format control : of_format format (round_rational neg n d x format control).
Proof.
  unfold round_rational. destruct (descriptor format) as [fmt|] eqn:E; [|apply error_of_format].
  destruct (constructors_format format fmt E) as (H1 & H2 & H3 & H4 & _).
  destruct (BigUInt.is_zero n); [by intros _; apply H1|]. destruct (BigUInt.is_zero d); [apply error_of_format|].
  assert (Hover : of_format format (overflow_result format neg control)).
  { intros _. unfold overflow_result. cbn. by case_match. }
  cbv zeta. case_match; [done|]. case_match.
  { intros _. unfold tiny_nonzero_result. cbn. by case_match. }
  destruct (scaled_division _ _ _) as [[q r] e]. unfold finish_rounding.
  destruct (if negb _ && _ then _ else _) as [[normal sig] ex]. case_match; [done|]. intros _.
  by apply (from_raw_format _ _ _ E).
Qed.
Lemma convert_format v format control : of_format format (convert v format control).
Proof.
  unfold convert. destruct (descriptor format) as [fmt|] eqn:E; [|apply error_of_format].
  destruct (constructors_format format fmt E) as (H1 & H2 & _ & _ & H5). cbv zeta.
  case_match; [apply error_of_format|]. case_match; [by intros _; apply H1|]. case_match; [by intros _; apply H2|].
  case_match; [by intros _; apply H5|]. apply round_rational_format.
Qed.
Lemma from_integer_format b w s format control : of_format format (from_integer b w s format control).
Proof.
  unfold from_integer. destruct (descriptor format) as [fmt|]; [|apply error_of_format].
  case_match; [apply error_of_format|apply round_rational_format].
Qed.

Lemma mapM_cons_inv {A B} (g : A -> option B) x l k :
  mapM g (x :: l) = Some k -> exists y k', g x = Some y /\ mapM g l = Some k' /\ k = y :: k'.
Proof.
  cbn. destruct (g x) as [y|]; [|done]. cbn. destruct (mapM g l) as [k'|]; [|done]. cbn.
  intros [= <-]. by exists y, k'.
Qed.
Lemma mapM_nil_inv {A B} (g : A -> option B) k : mapM g [] = Some k -> k = [].
Proof. by intros [= <-]. Qed.

(** ** Identities of the operations *)

Lemma uwrap_of_swrap w a : 0 < w -> word w a -> uwrap w (swrap w a) = a.
Proof.
  intros Hw Ha. unfold swrap. rewrite (uwrap_small w a) by done. destruct (a <? 2 ^ (w - 1)); [by apply uwrap_small|].
  unfold uwrap. replace (a - 2 ^ w) with (a + (-1) * 2 ^ w) by lia. rewrite Z_mod_plus_full. by apply Z.mod_small.
Qed.

Definition is_binop (op : Opcode) : bool :=
  match op with
  | Op_Iadd | Op_Isub | Op_Imul | Op_Iand | Op_Ior | Op_Ixor | Op_Shl | Op_Sdiv | Op_Udiv | Op_Srem | Op_Urem
  | Op_Ashr | Op_Lshr => true
  | _ => false
  end.

Lemma eval_binop_comm op w a b : commutative op = true -> eval_binop op w a b = eval_binop op w b a.
Proof.
  destruct op; try discriminate; intros _; unfold eval_binop; f_equal; [f_equal; lia|f_equal; lia|..].
  - apply Z.land_comm.
  - apply Z.lor_comm.
  - apply Z.lxor_comm.
Qed.

Lemma swrap_one w : 8 <= w -> swrap w 1 = 1.
Proof. intros Hw. apply swrap_small; [lia|]. pose proof (pow2_le 7 (w - 1) ltac:(lia)). lia. Qed.

(** A constant on the right. *)
Lemma identity_rhs_sound data k v g w a :
  8 <= w <= 64 -> word w a -> word w (bits k) -> width k = w -> identity_with data k true v = Some g ->
  (g = found v /\ eval_binop (op data) w a (bits k) = Some a) \/
  (g = const_int (inst_type data) 0 0 /\ eval_binop (op data) w a (bits k) = Some 0).
Proof.
  intros Hw Ha Hk Hwk. unfold identity_with. rewrite !andb_true_r.
  assert (Hshift : (w <=? 0) = false) by (apply Z.leb_gt; lia).
  destruct (op data); try discriminate; unfold eval_binop.
  all: repeat match goal with |- (if ?x =? ?y then _ else _) = _ -> _ => destruct (Z.eqb_spec x y) as [->|] end;
    try discriminate; intros Hg; apply (inj Some) in Hg; subst g.
  all: rewrite ?Hshift, ?Z.add_0_r, ?Z.sub_0_r, ?Z.mul_1_r, ?Z.div_1_r, ?Z.lor_0_r, ?Z.lxor_0_r.
  all: try (left; split; [reflexivity|]; f_equal; by apply uwrap_small).
  all: try (left; split; reflexivity).
  - (* imul by 0 *) right. rewrite Z.mul_0_r. split; [done|]. f_equal.
  - (* iand with ones *) left. split; [done|]. f_equal. rewrite Hwk. apply mask_word; [lia|done].
  - (* iand with 0 *) right. by rewrite Z.land_0_r.
  - (* sdiv by 1 *) left. rewrite swrap_one by lia. rewrite (proj2 (Z.eqb_neq 1 0)), (proj2 (Z.eqb_neq 1 (-1))) by lia.
    rewrite andb_false_r. cbn [orb]. rewrite Z.quot_1_r. split; [done|]. f_equal. apply uwrap_of_swrap; [lia|done].
  - (* ashr by 0 *) left. split; [done|]. f_equal. apply uwrap_of_swrap; [lia|done].
Qed.

(** ** Functions the verifier accepts *)

(** The types the constants of [types] name. *)
Definition has_predefined (types : TypeTable) : Prop :=
  forall entry, entry ∈ predefined_types -> type types entry.2 = Some entry.1.

(** The results are those of instructions the verifier accepts, and each instruction
    that computes a value has its own. *)
Record verified (types : TypeTable) (pointer_width : Z) (f : Function) : Prop := {
  vf_value : forall v d, value f v = Some d -> value_kind d = InstResult ->
    check_inst types pointer_width f (u32 (payload d)) = true /\
    exists di, inst f (u32 (payload d)) = Some di /\ inst_type di = value_ty d /\ result di = v;
  vf_inst : forall i data, inst f i = Some data -> opcode_result_kind (op data) = Result_Value ->
    exists d, value f (result data) = Some d /\ value_kind d = InstResult /\ u32 (payload d) = i }.

Section Sound.
Context (types : TypeTable) (pw : Z) (f : Function) (rho : ValueId -> rvalue).
Hypothesis Hpre : has_predefined types.
Hypothesis Hver : verified types pw f.
Hypothesis Hcons : consistent types pw f rho.
Abbreviation ty_ok v := (check_value_type types (value_ty v) = true).
Abbreviation val_ok v := (check_operand_value types v = true).

(** *** What the checks say of the operands *)

Record checked (data : InstData) (ops : list ValueId) (values : list ValueData) : Prop := {
  ck_values : mapM (value f) ops = Some values;
  ck_count : 0 <= opcode_operand_count (op data) -> size ops = opcode_operand_count (op data);
  ck_val_ok : Forall (fun v => val_ok v) values;
  ck_ty_ok : Forall (fun v => ty_ok v) values;
  ck_result : id_ok (result data) = true -> check_value_type types (inst_type data) = true;
  ck_types : check_types types pw (op data) (aux data) (inst_type data) (map value_ty values) = true }.

Lemma check_inst_view i data :
  inst f i = Some data -> check_inst types pw f i = true ->
  exists ops values, operands f i = Some ops /\ checked data ops values.
Proof using.
  intros Hi. unfold check_inst. rewrite Hi. destruct (operands f i) as [ops|]; [|done].
  intros [Hc H]%andb_true_iff. destruct (mapM (value f) ops) as [values|] eqn:Hv; [|done].
  rewrite !andb_true_iff, !forallb_forall in H. destruct H as [[[H1 Hr] H2] H3].
  exists ops, values. split; [done|]. split; [done| | | | |done].
  - intros H0. apply orb_true_iff in Hc as [Hc|Hc]; ztests; lia.
  - apply Forall_forall. intros v Hin. by apply H1.
  - apply Forall_forall. intros v Hin. by apply H2, in_map.
  - intros Hid. by rewrite Hid in Hr.
Qed.

(** One, two and three operands. *)
Lemma checked_1 data ops values : checked data ops values -> opcode_operand_count (op data) = 1 ->
  exists x vx, ops = [x] /\ values = [vx] /\ value f x = Some vx /\ val_ok vx /\ ty_ok vx.
Proof using.
  intros [H1 H2 H3 H4 _ _] Hc. specialize (H2 ltac:(lia)). rewrite Hc in H2.
  destruct ops as [|x [|]]; try (exfalso; unfold size in H2; cbn in H2; lia).
  apply mapM_cons_inv in H1 as (vx & l & Hx & Hl & ->). apply mapM_nil_inv in Hl as ->.
  apply list.Forall_cons in H3 as [H3 _], H4 as [H4 _].
  by exists x, vx.
Qed.
Lemma checked_2 data ops values : checked data ops values -> opcode_operand_count (op data) = 2 ->
  exists x y vx vy, ops = [x; y] /\ values = [vx; vy] /\ value f x = Some vx /\ val_ok vx /\ ty_ok vx /\
    value f y = Some vy /\ val_ok vy /\ ty_ok vy.
Proof using.
  intros [H1 H2 H3 H4 _ _] Hc. specialize (H2 ltac:(lia)). rewrite Hc in H2.
  destruct ops as [|x [|y [|]]]; try (exfalso; unfold size in H2; cbn in H2; lia).
  apply mapM_cons_inv in H1 as (vx & l & Hx & Hl & ->).
  apply mapM_cons_inv in Hl as (vy & l' & Hy & Hl & ->). apply mapM_nil_inv in Hl as ->.
  apply list.Forall_cons in H3 as [H3 [H3' _]%list.Forall_cons], H4 as [H4 [H4' _]%list.Forall_cons].
  exists x, y, vx, vy. by split_and!.
Qed.
Lemma checked_3 data ops values : checked data ops values -> opcode_operand_count (op data) = 3 ->
  exists x y z vx vy vz, ops = [x; y; z] /\ values = [vx; vy; vz] /\
    (value f x = Some vx /\ val_ok vx /\ ty_ok vx) /\ (value f y = Some vy /\ val_ok vy /\ ty_ok vy) /\
    (value f z = Some vz /\ val_ok vz /\ ty_ok vz).
Proof using.
  intros [H1 H2 H3 H4 _ _] Hc. specialize (H2 ltac:(lia)). rewrite Hc in H2.
  destruct ops as [|x [|y [|z [|]]]]; try (exfalso; unfold size in H2; cbn in H2; lia).
  apply mapM_cons_inv in H1 as (vx & l & Hx & Hl & ->).
  apply mapM_cons_inv in Hl as (vy & l' & Hy & Hl & ->).
  apply mapM_cons_inv in Hl as (vz & l'' & Hz & Hl & ->). apply mapM_nil_inv in Hl as ->.
  apply list.Forall_cons in H3 as [H3 [H3' [H3'' _]%list.Forall_cons]%list.Forall_cons].
  apply list.Forall_cons in H4 as [H4 [H4' [H4'' _]%list.Forall_cons]%list.Forall_cons].
  exists x, y, z, vx, vy, vz. by split_and!.
Qed.

Lemma has_kind_inv k t : has_kind types k t = true -> exists td, type types t = Some td /\ kind td = k.
Proof using.
  unfold has_kind. destruct (type types t) as [td|]; [|done]. intros H%bool_decide_eq_true. by exists td.
Qed.
Lemma width_allowed_bound w : int_width_allowed w = true -> 8 <= w <= 128.
Proof using. unfold int_width_allowed. rewrite !orb_true_iff. lia. Qed.

(** An operand of an allowed type has a value of it. *)
Lemma operand_typed x vx td :
  value f x = Some vx -> ty_ok vx -> type types (value_ty vx) = Some td ->
  kind td <> Kind_Void /\ rvalue_ok pw td (rho x) /\ (kind td = Kind_Int -> 8 <= type_int_width td <= 128).
Proof using Hcons.
  intros Hx Hty Htd. unfold check_value_type in Hty. rewrite Htd in Hty.
  assert (Hk : kind td <> Kind_Void) by (intros E; by rewrite E in Hty). split; [done|].
  split; [by apply (cs_typed _ _ _ _ Hcons x vx td)|]. intros E. rewrite E in Hty. by apply width_allowed_bound.
Qed.

(** An integer or pointer operand. *)
Lemma int_operand x vx td :
  value f x = Some vx -> ty_ok vx -> type types (value_ty vx) = Some td -> kind td = Kind_Int \/ kind td = Kind_Ptr ->
  exists n, rho x = RInt n /\ word (bits_of pw td) n.
Proof using Hcons.
  intros Hx Hty Htd Hk. destruct (operand_typed x vx td Hx Hty Htd) as (_ & Hr & _). unfold rvalue_ok in Hr.
  destruct Hk as [E|E]; rewrite E in Hr; destruct (rho x) as [n|]; try done; by exists n.
Qed.

Lemma float_operand x vx td :
  value f x = Some vx -> ty_ok vx -> type types (value_ty vx) = Some td -> kind td = Kind_Float ->
  exists v, rho x = RFloat v /\ semantics v = float_format (float_kind td).
Proof using Hcons.
  intros Hx Hty Htd E. destruct (operand_typed x vx td Hx Hty Htd) as (_ & Hr & _). unfold rvalue_ok in Hr.
  rewrite E in Hr. destruct (rho x) as [|v]; [done|]. by exists v.
Qed.

Lemma const_int_of_spec x vx : value f x = Some vx -> val_ok vx -> ty_ok vx ->
  exists k, const_int_of f types x = Some k /\
    forall c, k = Some c -> exists td, type types (value_ty vx) = Some td /\ kind td = Kind_Int /\
      width c = type_int_width td /\ 8 <= width c <= 64 /\ rho x = RInt (bits c) /\ word (width c) (bits c) /\
      value_kind vx = ConstInt.
Proof using Hcons.
  intros Hx Hval Hty. unfold const_int_of. rewrite Hx. cbn.
  destruct (bool_decide_reflect (value_kind vx = ConstInt)) as [Hk|]; [|by exists None]. cbn.
  unfold check_operand_value in Hval. rewrite Hk in Hval. unfold is_int, int_width.
  destruct (type types (value_ty vx)) as [td|] eqn:Htd; [|done]. cbn. apply andb_true_iff in Hval as [Hkd Hcan].
  apply bool_decide_eq_true in Hkd. rewrite bool_decide_eq_true_2 by done. cbn.
  rewrite Z.gtb_ltb. destruct (Z.ltb_spec 64 (type_int_width td)) as [|Hw]; [by exists None|].
  destruct (operand_typed x vx td Hx Hty Htd) as (Hv & Hr & Hwd). specialize (Hwd Hkd).
  eexists. split; [done|]. intros c [= <-]. exists td. cbn.
  assert (Hrho : rho x = RInt (payload vx + 2 ^ 64 * payload2 vx)).
  { apply (cs_const _ _ _ _ Hcons x vx td); [done|done|]. unfold const_value. by rewrite Hk. }
  rewrite Hrho in Hr. unfold rvalue_ok in Hr. rewrite Hkd in Hr. unfold bits_of in Hr. rewrite Hkd in Hr.
  assert (Hp2 : payload2 vx = 0).
  { unfold canonical_int in Hcan. destruct (Z.ltb_spec (type_int_width td) 64).
    - apply andb_true_iff in Hcan as [Hp _]. by apply Z.eqb_eq.
    - rewrite (proj2 (Z.eqb_eq _ _)) in Hcan by lia. by apply Z.eqb_eq. }
  rewrite Hp2, Z.mul_0_r, Z.add_0_r in *.
  assert (Hm : Z.land (payload vx) (width_mask (type_int_width td)) = payload vx) by (apply mask_word; [lia|done]).
  rewrite Hm. split_and!; done || lia.
Qed.

(** The value of an instruction from its checked operands. *)
Lemma inst_value_eq i data ops values tys ty :
  inst f i = Some data -> operands f i = Some ops -> mapM (value f) ops = Some values ->
  mapM (fun v => type types (value_ty v)) values = Some tys -> type types (inst_type data) = Some ty ->
  inst_value types pw f rho i = eval_inst pw (op data) (aux data) ty tys (map rho ops).
Proof using. intros H1 H2 H3 H4 H5. unfold inst_value. by rewrite H1; cbn; rewrite H2; cbn; rewrite H3; cbn; rewrite H4; cbn; rewrite H5. Qed.

Lemma predefined_i8 : type types I8 = Some (mkType Kind_Int F64 8 0).
Proof using Hpre. apply (Hpre (mkType Kind_Int F64 8 0, I8)). right. left. Qed.

Lemma enum_at_some {A} (l : list A) n : n < size l -> l <> [] -> exists x, enum_at l n = Some x.
Proof using.
  intros Hn Hl. unfold enum_at. apply lookup_lt_is_Some. unfold size in Hn. destruct l; [done|]. cbn in *. lia.
Qed.

(** *** What a replacement is *)

(** [res] is the value [r] of type [ty]: an existing value, or a constant to add. *)
Definition produces (ty : TypeId) (r : rvalue) (res : ValueId * Function) : Prop :=
  (res.2 = f /\ exists d, value f res.1 = Some d /\ val_ok d /\ value_ty d = ty /\ rho res.1 = r) \/
  (exists kind p p2 td, kind_is_constant kind = true /\ intern_constant kind ty p p2 f = Some res /\ type types ty = Some td /\
     rvalue_ok pw td r /\ const_value td (mkValue kind ty p p2) = Some r /\
     check_operand_value types (mkValue kind ty p p2) = true).

(** The result of simplifying instruction [i]: nothing, or its value. *)
Definition outcome (i : InstId) (data : InstData) (res : ValueId * Function) : Prop :=
  res = (0, f) \/ exists r, inst_value types pw f rho i = Some r /\ produces (inst_type data) r res.

Lemma produces_found x vx r ty : value f x = Some vx -> val_ok vx -> value_ty vx = ty -> rho x = r -> produces ty r (x, f).
Proof using. intros. left. split; [done|]. by exists vx. Qed.

(** A folded integer constant. *)
Lemma produces_int ty td n res :
  type types ty = Some td -> kind td = Kind_Int -> 8 <= type_int_width td <= 64 -> word (type_int_width td) n ->
  const_int ty n 0 f = Some res -> produces ty (RInt n) res.
Proof using.
  intros Htd Hk Hw Hn Hres. right. exists ConstInt, n, 0, td. split; [done|]. split; [done|]. split; [done|]. split; [|split].
  - unfold rvalue_ok, bits_of. by rewrite Hk.
  - unfold const_value. cbn [value_kind payload payload2]. do 2 f_equal. lia.
  - unfold check_operand_value. cbn [value_kind value_ty]. rewrite Htd. apply andb_true_iff.
    split; [by apply bool_decide_eq_true|]. unfold canonical_int. cbn [payload payload2].
    destruct (Z.ltb_spec (type_int_width td) 64).
    + apply andb_true_iff. split; [done|]. apply Z.eqb_eq. rewrite shiftr_div by lia. by apply Z.div_small.
    + assert (type_int_width td = 64) as -> by lia. done.
Qed.

Lemma bool_word w b : 8 <= w -> word w (Z.b2z b).
Proof using. intros Hw. pose proof (pow2_le 8 w ltac:(lia)). unfold word. destruct b; cbn; lia. Qed.

(** A comparison's result. *)
Lemma produces_bool b res : const_int I8 (Z.b2z b) 0 f = Some res -> produces I8 (RInt (Z.b2z b)) res.
Proof using Hpre.
  apply (produces_int I8 _ _ _ predefined_i8 eq_refl); [cbn; lia|]. apply bool_word. cbn. lia.
Qed.

(** *** Values that are 0 or 1 *)

Lemma is_bool_valued_sound levels v : is_bool_valued_go levels f v = Some true ->
  exists d, value f v = Some d /\ value_ty d = I8 /\ (rho v = RInt 0 \/ rho v = RInt 1).
Proof using Hcons Hpre Hver.
  revert v. induction levels as [|levels IH]; intros v; cbn; [done|].
  destruct (value f v) as [d|] eqn:Hd; [|done]. cbn. intros H. exists d. split; [done|].
  destruct (bool_decide_reflect (value_kind d = ConstInt)) as [Hk|Hk].
  { injection H as H. apply andb_true_iff in H as [Ht Hp]. apply Z.eqb_eq in Ht. split; [done|].
    assert (Htd : type types (value_ty d) = Some (mkType Kind_Int F64 8 0)) by (rewrite Ht; apply predefined_i8).
    pose proof (cs_const _ _ _ _ Hcons v d _ (RInt (payload d + 2 ^ 64 * payload2 d)) Hd Htd) as Hrho.
    unfold const_value in Hrho. rewrite Hk in Hrho. specialize (Hrho eq_refl).
    pose proof (cs_typed _ _ _ _ Hcons v d _ Hd Htd ltac:(done)) as Hok. rewrite Hrho in *.
    unfold rvalue_ok, bits_of, word in Hok. cbn [kind type_int_width] in Hok.
    change (2 ^ 8) with 256 in Hok. change (2 ^ 64) with 18446744073709551616 in *.
    apply orb_true_iff in Hp as [Hp|Hp]; apply Z.eqb_eq in Hp; rewrite Hp in *; [left|right]; f_equal; lia. }
  destruct (bool_decide_reflect (value_kind d = InstResult)) as [Hr|Hr]; [|done]. cbn in H.
  unfold def_inst in H. rewrite Hd in H. cbn in H. rewrite bool_decide_eq_true_2 in H by done. cbn in H.
  destruct (vf_value _ _ _ Hver v d Hd Hr) as (Hci & di & Hdi & Hty & _). rewrite Hdi in H. cbn in H.
  destruct (check_inst_view _ _ Hdi Hci) as (ops & values & Hops & Hck).
  assert (Hval : forall r, inst_value types pw f rho (u32 (payload d)) = Some r -> rho v = r).
  { intros r. by apply (cs_inst _ _ _ _ Hcons v d r). }
  destruct (op di) eqn:Hop; try discriminate H.
  - (* icmp *)
    destruct (checked_2 _ _ _ Hck) as (x & y & vx & vy & -> & -> & Hx & _ & Tx & Hy & _ & Ty); [by rewrite Hop|].
    destruct Hck as [Hm _ _ _ _ Ht]. rewrite Hop in Ht. cbn in Ht. rewrite !andb_true_iff, orb_true_iff in Ht.
    destruct Ht as [[[Hk2 Hsame] Hi8] Haux]. apply Z.eqb_eq in Hsame, Hi8.
    split; [congruence|].
    assert (exists td, type types (value_ty vx) = Some td /\ (kind td = Kind_Int \/ kind td = Kind_Ptr)) as (td & Htd & Hkd).
    { destruct Hk2 as [Hk2|Hk2]; apply has_kind_inv in Hk2 as (td & H1 & H2); exists td; auto. }
    destruct (int_operand x vx td Hx Tx Htd Hkd) as (a & Ha & _).
    destruct (int_operand y vy td Hy Ty ltac:(by rewrite Hsame) Hkd) as (b & Hb & _).
    assert (Haux' : aux di <= 9) by (apply Z.leb_le in Haux; exact Haux).
    destruct (enum_at_some int_conds (aux di)) as [c Hc]; [change (size int_conds) with 10; lia|done|].
    rewrite (Hval (RInt (Z.b2z (eval_icmp c (bits_of pw td) a b)))); [destruct (eval_icmp _ _ _ _); auto|].
    rewrite (inst_value_eq _ di _ _ [td; td] (mkType Kind_Int F64 8 0) Hdi Hops Hm); [| |by rewrite Hi8; apply predefined_i8].
    + cbn [map]. rewrite Hop, Ha, Hb. cbn. by rewrite Hc.
    + cbn. rewrite Htd. cbn. rewrite Hsame, Htd. done.
  - (* fcmp *)
    destruct (checked_2 _ _ _ Hck) as (x & y & vx & vy & -> & -> & Hx & _ & Tx & Hy & _ & Ty); [by rewrite Hop|].
    destruct Hck as [Hm _ _ _ _ Ht]. rewrite Hop in Ht. cbn in Ht. rewrite !andb_true_iff in Ht.
    destruct Ht as [[[Hk2 Hsame] Hi8] Haux]. apply Z.eqb_eq in Hsame, Hi8.
    split; [congruence|]. apply has_kind_inv in Hk2 as (td & Htd & Hkd).
    destruct (float_operand x vx td Hx Tx Htd Hkd) as (a & Ha & _).
    destruct (float_operand y vy td Hy Ty ltac:(by rewrite Hsame) Hkd) as (b & Hb & _).
    assert (Haux' : aux di <= 13) by (apply Z.leb_le in Haux; exact Haux).
    destruct (enum_at_some float_conds (aux di)) as [c Hc]; [change (size float_conds) with 14; lia|done|].
    rewrite (Hval (RInt (Z.b2z (eval_fcmp c (compare_value (compare a b)))))); [destruct (eval_fcmp _ _); auto|].
    rewrite (inst_value_eq _ di _ _ [td; td] (mkType Kind_Int F64 8 0) Hdi Hops Hm); [| |by rewrite Hi8; apply predefined_i8].
    + cbn [map]. rewrite Hop, Ha, Hb. cbn. by rewrite Hc.
    + cbn. rewrite Htd. cbn. rewrite Hsame, Htd. done.
  - (* select *)
    destruct (checked_3 _ _ _ Hck) as (c & x & y & vc & vx & vy & -> & -> & (Hc & _ & Tc) & (Hx & _ & Tx) & (Hy & _ & Ty));
      [by rewrite Hop|].
    rewrite Hops in H. cbn [mbind option_bind] in H.
    change ([c; x; y] !! Z.to_nat 1) with (Some x) in H. change ([c; x; y] !! Z.to_nat 2) with (Some y) in H.
    cbn [mbind option_bind] in H.
    destruct (is_bool_valued_go levels f x) as [[]|] eqn:Bx; try discriminate H. cbn in H.
    destruct (IH _ Bx) as (dx & Hdx & Hi8 & Hrx), (IH _ H) as (dy & Hdy & _ & Hry).
    assert (dx = vx) as -> by congruence. assert (dy = vy) as -> by congruence.
    destruct Hck as [Hm _ _ _ _ Ht]. rewrite Hop in Ht. cbn in Ht. rewrite !andb_true_iff in Ht.
    destruct Ht as [[Htc Hsame] Hres]. apply Z.eqb_eq in Htc, Hsame, Hres. split; [congruence|].
    assert (Htd : type types (value_ty vc) = Some (mkType Kind_Int F64 8 0)) by (rewrite Htc; apply predefined_i8).
    destruct (int_operand c vc _ Hc Tc Htd ltac:(by left)) as (n & Hn & _).
    rewrite (Hval (if n =? 0 then rho y else rho x)); [destruct (n =? 0); auto|].
    rewrite (inst_value_eq _ di _ _ [mkType Kind_Int F64 8 0; mkType Kind_Int F64 8 0; mkType Kind_Int F64 8 0]
      (mkType Kind_Int F64 8 0) Hdi Hops Hm); [| |by rewrite Hres, Hi8; apply predefined_i8].
    + cbn [map]. rewrite Hop, Hn. done.
    + cbn. rewrite Htd. cbn. rewrite Hsame, Hi8, predefined_i8. done.
Qed.

(** *** The operations *)

Section One.
Context (i : InstId) (data : InstData) (ops : list ValueId) (values : list ValueData).
Hypothesis Hi : inst f i = Some data.
Hypothesis Hops : operands f i = Some ops.
Hypothesis Hck : checked data ops values.

(** Two integer operands of one type, which is that of the result. *)
Lemma binop_view : is_binop (op data) = true ->
  exists x y vx vy td a b, ops = [x; y] /\ (value f x = Some vx /\ val_ok vx /\ ty_ok vx) /\
    (value f y = Some vy /\ val_ok vy /\ ty_ok vy) /\
    type types (inst_type data) = Some td /\ kind td = Kind_Int /\ 8 <= type_int_width td <= 128 /\
    value_ty vx = inst_type data /\ value_ty vy = inst_type data /\
    rho x = RInt a /\ rho y = RInt b /\ word (type_int_width td) a /\ word (type_int_width td) b /\
    inst_value types pw f rho i = RInt <$> eval_binop (op data) (type_int_width td) a b.
Proof using Hck Hcons Hi Hops.
  intros Hbin. assert (Hc2 : opcode_operand_count (op data) = 2) by (destruct (op data); done).
  destruct (checked_2 _ _ _ Hck Hc2) as (x & y & vx & vy & -> & -> & Hx & Vx & Tx & Hy & Vy & Ty).
  destruct Hck as [Hm _ _ _ _ Ht].
  assert (Ht' : has_kind types Kind_Int (value_ty vx) && (value_ty vy =? value_ty vx) &&
    (inst_type data =? value_ty vx) = true) by (destruct (op data); done).
  rewrite !andb_true_iff, !Z.eqb_eq in Ht'. destruct Ht' as [[(td & Htd & Hk)%has_kind_inv Hs] Hr].
  destruct (operand_typed x vx td Hx Tx Htd) as (_ & _ & Hw). specialize (Hw Hk).
  destruct (int_operand x vx td Hx Tx Htd (or_introl Hk)) as (a & Ha & Wa).
  destruct (int_operand y vy td Hy Ty ltac:(by rewrite Hs) (or_introl Hk)) as (b & Hb & Wb).
  unfold bits_of in Wa, Wb. rewrite Hk in Wa, Wb.
  exists x, y, vx, vy, td, a, b. rewrite Hr. split_and!; try done; try lia.
  rewrite (inst_value_eq i data _ _ [td; td] td Hi Hops Hm); [| |by rewrite Hr].
  - cbn [map]. rewrite Ha, Hb. unfold eval_inst, bits_of. rewrite Hk. destruct (op data); done.
  - cbn. rewrite Htd. cbn. rewrite Hs, Htd. done.
Qed.

Lemma simplify_binop_sound res :
  is_binop (op data) = true -> simplify_binop f types data ops = Some res -> outcome i data res.
Proof using Hck Hcons Hi Hops.
  intros Hbin. destruct (binop_view Hbin) as (x & y & vx & vy & td & a & b & -> & (Hx & Vx & Tx) & (Hy & Vy & Ty) &
    Htd & Hk & Hw & Tx' & Ty' & Ra & Rb & Wa & Wb & Hval).
  unfold simplify_binop. change (at_ [x; y] 0) with (Some x). change (at_ [x; y] 1) with (Some y).
  cbn [mbind option_bind].
  destruct (const_int_of_spec x vx Hx Vx Tx) as (lhs & -> & Hl), (const_int_of_spec y vy Hy Vy Ty) as (rhs & -> & Hr).
  cbn [mbind option_bind].
  assert (Hlb : forall c, lhs = Some c -> width c = type_int_width td /\ 8 <= width c <= 64 /\ bits c = a).
  { intros c Hc. destruct (Hl c Hc) as (td' & Htd' & _ & -> & Hcw & Hcr & _). rewrite Tx', Htd in Htd'.
    injection Htd' as <-. split; [done|]. split; [done|]. congruence. }
  assert (Hrb : forall c, rhs = Some c -> width c = type_int_width td /\ 8 <= width c <= 64 /\ bits c = b).
  { intros c Hc. destruct (Hr c Hc) as (td' & Htd' & _ & -> & Hcw & Hcr & _). rewrite Ty', Htd in Htd'.
    injection Htd' as <-. split; [done|]. split; [done|]. congruence. }
  assert (Hsome : forall n, eval_binop (op data) (type_int_width td) a b = Some n ->
            inst_value types pw f rho i = Some (RInt n)) by (intros n Hn; by rewrite Hval, Hn).
  assert (Hword : forall n, eval_binop (op data) (type_int_width td) a b = Some n -> word (type_int_width td) n).
  { intros n. apply eval_binop_word; [lia|done|done]. }
  assert (Hzero : word (type_int_width td) 0) by (split; [lia|apply pow2_pos; lia]).
  (* an identity with a constant operand *)
  assert (Hident : forall k is_rhs v g,
    (is_rhs = true /\ v = x /\ rhs = Some k) \/ (is_rhs = false /\ v = y /\ lhs = Some k /\ commutative (op data) = true) ->
    identity_with data k is_rhs v = Some g -> g f = Some res -> outcome i data res).
  { intros k is_rhs v g Hcase Hid Hg.
    assert (exists vv n, value f v = Some vv /\ val_ok vv /\ value_ty vv = inst_type data /\ rho v = RInt n /\ 8 <= width k <= 64 /\
      width k = type_int_width td /\
      ((g = found v /\ eval_binop (op data) (type_int_width td) a b = Some n) \/
       (g = const_int (inst_type data) 0 0 /\ eval_binop (op data) (type_int_width td) a b = Some 0)))
      as (vv & n & Hvv & Vv & Tv & Rv & Hwk & Hwk' & Hfin).
    { destruct Hcase as [(-> & -> & Hk')|(-> & -> & Hk' & Hcomm)].
      - destruct (Hrb _ Hk') as (H1 & H2 & H3). exists vx, a. split_and!; try done; try lia. rewrite <- H3.
        apply (identity_rhs_sound data k x g (type_int_width td) a); [lia|done|by rewrite H3|done|done].
      - destruct (Hlb _ Hk') as (H1 & H2 & H3). exists vy, b. split_and!; try done; try lia.
        rewrite eval_binop_comm by done. rewrite <- H3.
        apply (identity_rhs_sound data k y g (type_int_width td) b); [lia|done|by rewrite H3|done|].
        rewrite <- Hid. unfold identity_with. destruct (op data); done. }
    right. destruct Hfin as [[-> He]|[-> He]].
    - injection Hg as <-. exists (RInt n). split; [by apply Hsome|]. by apply (produces_found v vv).
    - exists (RInt 0). split; [by apply Hsome|]. apply (produces_int (inst_type data) td); [done|done|lia|done|done]. }
  (* the same operand twice *)
  assert (Hsame : (match op data with Op_Iand | Op_Ior => if x =? y then found x f else not_found f | _ => not_found f end)
    = Some res -> outcome i data res).
  { intros H. destruct (op data) eqn:Hop; try (injection H as <-; by left).
    all: destruct (Z.eqb_spec x y) as [->|]; [|injection H as <-; by left]; injection H as <-.
    all: assert (a = b) as -> by congruence; right; exists (RInt b); split; [apply Hsome; cbn; f_equal|by apply (produces_found y vy)].
    - apply Z.land_diag.
    - apply Z.lor_diag. }
  destruct (match lhs with Some l => match rhs with Some r => _ | None => _ end | None => None end) as [n|] eqn:Hfold.
  { intros Hres. destruct lhs as [l|]; [|done]. destruct rhs as [r|]; [|done].
    destruct (Hlb l eq_refl) as (L1 & L2 & L3), (Hrb r eq_refl) as (R1 & R2 & R3).
    assert (He : eval_binop (op data) (type_int_width td) a b = Some n).
    { rewrite <- (fold_int_binop_exact (op data) (type_int_width td) a b) by (done || lia). rewrite <- Hfold.
      destruct l, r; cbn in *; congruence. }
    right. exists (RInt n). split; [by apply Hsome|]. apply (produces_int (inst_type data) td); auto. lia. }
  destruct rhs as [r|].
  - destruct (identity_with data r true x) as [g|] eqn:Hid; [|exact Hsame]. apply (Hident r true x g); [|exact Hid]. left. by split_and!.
  - destruct lhs as [l|]; [|exact Hsame]. destruct (commutative (op data)) eqn:Hcm; [|exact Hsame].
    destruct (identity_with data l false y) as [g|] eqn:Hid; [|exact Hsame].
    apply (Hident l false y g); [|exact Hid]. right. by split_and!.
Qed.

(** The defining instruction of an operand. *)
Lemma def_view x vx : value f x = Some vx -> value_kind vx = InstResult ->
  exists di dops dvalues, def_inst f x = Some (u32 (payload vx)) /\ inst f (u32 (payload vx)) = Some di /\
    operands f (u32 (payload vx)) = Some dops /\ checked di dops dvalues /\ inst_type di = value_ty vx /\
    forall r, inst_value types pw f rho (u32 (payload vx)) = Some r -> rho x = r.
Proof using Hcons Hver.
  intros Hx Hk. destruct (vf_value _ _ _ Hver x vx Hx Hk) as (Hci & di & Hdi & Hty & Hres).
  destruct (check_inst_view _ _ Hdi Hci) as (dops & dvalues & Hdops & Hdck).
  exists di, dops, dvalues. split_and!; try done.
  - unfold def_inst. rewrite Hx. cbn. by rewrite bool_decide_eq_true_2.
  - intros r. by apply (cs_inst _ _ _ _ Hcons x vx r).
Qed.

(** An integer conversion and its operand. *)
Lemma int_cast_view di dops dvalues j : inst f j = Some di -> operands f j = Some dops -> checked di dops dvalues ->
  (op di = Op_Trunc \/ op di = Op_Zext \/ op di = Op_Sext) ->
  exists x vx td rd a, (id_ok (result di) = true -> 8 <= type_int_width rd <= 128) /\ dops = [x] /\ value f x = Some vx /\ val_ok vx /\ ty_ok vx /\
    type types (value_ty vx) = Some td /\ kind td = Kind_Int /\ type types (inst_type di) = Some rd /\ kind rd = Kind_Int /\
    8 <= type_int_width td <= 128 /\
    match op di with
    | Op_Trunc => type_int_width rd < type_int_width td
    | _ => type_int_width td < type_int_width rd
    end /\
    rho x = RInt a /\ word (type_int_width td) a /\
    inst_value types pw f rho j = Some (RInt
      match op di with
      | Op_Trunc => uwrap (type_int_width rd) a
      | Op_Sext => uwrap (type_int_width rd) (swrap (type_int_width td) a)
      | _ => a
      end).
Proof using Hcons.
  intros Hdi Hdops Hdck Hop. assert (Hc1 : opcode_operand_count (op di) = 1) by (destruct Hop as [E|[E|E]]; by rewrite E).
  destruct (checked_1 _ _ _ Hdck Hc1) as (x & vx & -> & -> & Hx & Vx & Tx). pose proof (ck_result _ _ _ Hdck) as Hcr. destruct Hdck as [Hm _ _ _ _ Ht].
  assert (Ht' : has_kind types Kind_Int (value_ty vx) = true /\ has_kind types Kind_Int (inst_type di) = true /\
    match op di with
    | Op_Trunc => scalar_bits types (inst_type di) < scalar_bits types (value_ty vx)
    | _ => scalar_bits types (value_ty vx) < scalar_bits types (inst_type di)
    end).
  { destruct Hop as [E|[E|E]]; rewrite E in Ht |- *; cbn in Ht; rewrite !andb_true_iff in Ht;
      destruct Ht as [[H1 H2] H3]; cbn; split_and!; try done; rewrite ?Z.gtb_ltb in H3; by apply Z.ltb_lt. }
  destruct Ht' as [(td & Htd & Hk)%has_kind_inv [(rd & Hrd & Hkr)%has_kind_inv Hlt]].
  destruct (operand_typed x vx td Hx Tx Htd) as (_ & _ & Hw). specialize (Hw Hk).
  destruct (int_operand x vx td Hx Tx Htd (or_introl Hk)) as (a & Ha & Wa).
  unfold bits_of in Wa. rewrite Hk in Wa. unfold scalar_bits in Hlt.
  rewrite Htd, Hrd, Hk, Hkr in Hlt.
  exists x, vx, td, rd, a. split.
  { intros Hid. specialize (Hcr Hid). unfold check_value_type in Hcr. rewrite Hrd, Hkr in Hcr. by apply width_allowed_bound. }
  split_and!; try done; try lia.
  rewrite (inst_value_eq j di _ _ [td] rd Hdi Hdops Hm); [|by cbn; rewrite Htd|done].
  cbn [map]. rewrite Ha. unfold eval_inst, bits_of. rewrite Hk, Hkr. destruct Hop as [E|[E|E]]; by rewrite E.
Qed.

Lemma simplify_icmp_sound res :
  op data = Op_Icmp -> simplify_icmp f types data ops = Some res -> outcome i data res.
Proof using Hck Hcons Hi Hops Hpre Hver.
  intros Hop. assert (Hc2 : opcode_operand_count (op data) = 2) by by rewrite Hop.
  destruct (checked_2 _ _ _ Hck Hc2) as (x & y & vx & vy & -> & -> & Hx & Vx & Tx & Hy & Vy & Ty).
  pose proof (ck_types _ _ _ Hck) as Ht. rewrite Hop in Ht. cbn in Ht. rewrite !andb_true_iff, orb_true_iff in Ht.
  destruct Ht as [[[Hk2 Hsame] Hi8] _]. apply Z.eqb_eq in Hsame, Hi8.
  assert (exists td, type types (value_ty vx) = Some td /\ (kind td = Kind_Int \/ kind td = Kind_Ptr)) as (td & Htd & Hkd).
  { destruct Hk2 as [Hk2|Hk2]; apply has_kind_inv in Hk2 as (td & H1 & H2); exists td; auto. }
  destruct (int_operand x vx td Hx Tx Htd Hkd) as (a & Ha & Wa).
  destruct (int_operand y vy td Hy Ty ltac:(by rewrite Hsame) Hkd) as (b & Hb & Wb).
  unfold simplify_icmp. destruct (enum_at int_conds (aux data)) as [c|] eqn:Hc; [|done].
  change (at_ [x; y] 0) with (Some x). change (at_ [x; y] 1) with (Some y). cbn [mbind option_bind].
  destruct (const_int_of_spec x vx Hx Vx Tx) as (lhs & -> & Hl), (const_int_of_spec y vy Hy Vy Ty) as (rhs & -> & Hr).
  cbn [mbind option_bind].
  assert (Hval : inst_value types pw f rho i = Some (RInt (Z.b2z (eval_icmp c (bits_of pw td) a b)))).
  { rewrite (inst_value_eq i data _ _ [td; td] (mkType Kind_Int F64 8 0) Hi Hops (ck_values _ _ _ Hck)).
    - cbn [map]. rewrite Hop, Ha, Hb. cbn. by rewrite Hc.
    - cbn. rewrite Htd. cbn. rewrite Hsame, Htd. done.
    - rewrite Hi8. apply predefined_i8. }
  assert (Hbool : forall bb, eval_icmp c (bits_of pw td) a b = bb -> const_int I8 (Z.b2z bb) 0 f = Some res ->
            outcome i data res).
  { intros bb <- Hres. right. eexists. split; [exact Hval|]. rewrite Hi8. by apply produces_bool. }
  assert (Hrest : (same ← (if x =? y then ty ← value_type f x; fl ← is_float types ty; Some (negb fl) else Some false);
    if same && decided_on_equal c then const_int I8 (Z.b2z (true_on_equal c)) 0 f
    else if bool_decide (c = Ne) && match rhs with Some r => bits r =? 0 | None => false end then
      bb ← is_bool_valued f x;
      if (bb : bool) then found x f
      else
        lhs_value ← AirFunction.value f x;
        if bool_decide (value_kind lhs_value = InstResult) then
          def ← def_inst f x;
          di ← inst f def;
          if bool_decide (op di = Op_Zext) then
            ops ← operands f def;
            z ← at_ ops 0;
            bb ← is_bool_valued f z;
            if (bb : bool) then found z f else not_found f
          else not_found f
        else not_found f
    else not_found f) = Some res -> outcome i data res).
  { intros H. match type of H with (?e ≫= _) = _ => destruct e as [same|] eqn:Hs; [|discriminate H] end.
    cbn [mbind option_bind] in H.
    destruct (same && decided_on_equal c) eqn:Hdec.
    { apply andb_true_iff in Hdec as [-> Hdec]. destruct (Z.eqb_spec x y) as [->|]; [|done].
      assert (a = b) as -> by congruence. apply (Hbool (true_on_equal c)); [|done].
      unfold eval_icmp. destruct c; cbn; rewrite ?Z.eqb_refl, ?Z.ltb_irrefl, ?Z.leb_refl; done. }
    destruct (bool_decide (c = Ne) && _) eqn:Hne; [|injection H as <-; by left].
    apply andb_true_iff in Hne as [Hne Hzero]. apply bool_decide_eq_true in Hne as ->.
    destruct rhs as [r|]; [|done]. apply Z.eqb_eq in Hzero.
    assert (b = 0) as ->.
    { destruct (Hr r eq_refl) as (_ & _ & _ & _ & _ & Hrr & _). congruence. }
    assert (Hbv : forall z, (rho z = RInt 0 \/ rho z = RInt 1) -> rho z = RInt a ->
              inst_value types pw f rho i = Some (rho z)).
    { intros z Hz Hza. rewrite Hval. do 2 f_equal. unfold eval_icmp. rewrite Hza in Hz |- *.
      destruct Hz as [[= ->]|[= ->]]; reflexivity. }
    destruct (is_bool_valued f x) as [[]|] eqn:Bx; [| |done]; cbn [mbind option_bind] in H.
    { injection H as <-. destruct (is_bool_valued_sound _ _ Bx) as (d & Hd & Hdt & Hdv).
      right. exists (rho x). split; [by apply Hbv|]. assert (d = vx) as -> by congruence.
      apply (produces_found x vx); [done|done|congruence|done]. }
    rewrite Hx in H. cbn [mbind option_bind] in H.
    destruct (bool_decide_reflect (value_kind vx = InstResult)) as [Hk|]; [|injection H as <-; by left].
    destruct (def_view x vx Hx Hk) as (di & dops & dvalues & Hdef & Hdi & Hdops & Hdck & Hdt & Hdv).
    rewrite Hdef in H. cbn [mbind option_bind] in H. rewrite Hdi in H. cbn [mbind option_bind] in H.
    destruct (bool_decide_reflect (op di = Op_Zext)) as [Hz|]; [|injection H as <-; by left].
    rewrite Hdops in H. cbn [mbind option_bind] in H.
    destruct (int_cast_view di dops dvalues _ Hdi Hdops Hdck) as
      (z & vz & ztd & rd & n & _ & -> & Hvz & Vz & _ & _ & _ & _ & _ & _ & _ & Hn & _ & Hzv); [by right; left|].
    rewrite Hz in Hzv. change (at_ [z] 0) with (Some z) in H. cbn [mbind option_bind] in H.
    destruct (is_bool_valued f z) as [[]|] eqn:Bz; [| |done]; cbn [mbind option_bind] in H; injection H as <-; [|by left].
    destruct (is_bool_valued_sound _ _ Bz) as (d & Hd & Hdt' & Hdv').
    right. exists (rho z). assert (d = vz) as -> by congruence.
    split; [|apply (produces_found z vz); [done|done|congruence|done]].
    apply Hbv; [done|]. specialize (Hdv _ Hzv). congruence. }
  destruct lhs as [l|], rhs as [r|]; try exact Hrest.
  apply Hbool. destruct (Hl l eq_refl) as (ltd & L0 & L1 & L2 & L3 & L4 & L5 & _).
  destruct (Hr r eq_refl) as (rtd & R0 & R1 & R2 & R3 & R4 & R5 & _).
  rewrite Htd in L0. injection L0 as <-. rewrite Hsame, Htd in R0. injection R0 as <-.
  unfold bits_of. rewrite L1. rewrite <- (fold_icmp_exact c) by (rewrite <- L2; congruence || lia).
  f_equal; [destruct l|destruct r]; cbn in *; congruence.
Qed.

Hypothesis Hres : id_ok (result data) = true.

Lemma simplify_int_cast_sound res :
  op data = Op_Trunc \/ op data = Op_Zext \/ op data = Op_Sext ->
  simplify_int_cast f types data ops = Some res -> outcome i data res.
Proof using Hck Hcons Hi Hops Hres Hver.
  intros Hop. destruct (int_cast_view data ops values i Hi Hops Hck Hop) as
    (x & vx & td & rd & a & Hrw & -> & Hx & Vx & Tx & Htd & Hk & Hrd & Hkr & Hw & Hlt & Ha & Wa & Hval).
  specialize (Hrw Hres). unfold simplify_int_cast. change (at_ [x] 0) with (Some x). cbn [mbind option_bind].
  destruct (const_int_of_spec x vx Hx Vx Tx) as (k & -> & Hkc). cbn [mbind option_bind]. destruct k as [k|].
  - destruct (Hkc k eq_refl) as (td' & Htd' & _ & Hkw & Hkb & Hkr' & _).
    rewrite Htd in Htd'. injection Htd' as <-. assert (bits k = a) as Hka by congruence.
    unfold int_width. rewrite Hrd. cbn [mbind option_bind].
    destruct (Z.leb_spec (type_int_width rd) 64) as [Hle|]; [|intros [= <-]; by left]. intros Hc.
    right. eexists. split; [exact Hval|]. apply (produces_int (inst_type data) rd); [done|done|lia| |].
    + destruct Hop as [E|[E|E]]; rewrite E in *; try (apply uwrap_word; lia).
      cbn in Hlt. apply (word_mono (type_int_width td)); [lia|done].
    + rewrite <- Hc. f_equal. destruct Hop as [E|[E|E]]; rewrite E in *; cbn in Hlt |- *.
      * rewrite Hka, const_mask_ones, Z.land_ones by lia. done.
      * symmetry. rewrite Hka. apply mask_word; [lia|]. apply (word_mono (type_int_width td)); [lia|done].
      * rewrite bool_decide_eq_true_2 by done. rewrite Hka, Hkw, sign_extend_swrap by (done || lia).
        by rewrite mask_uwrap by lia.
  - destruct (bool_decide_reflect (op data = Op_Trunc)) as [E|]; [|intros [= <-]; by left].
    rewrite Hx. cbn [mbind option_bind].
    destruct (bool_decide_reflect (value_kind vx = InstResult)) as [Hkv|]; [|intros [= <-]; by left].
    destruct (def_view x vx Hx Hkv) as (di & dops & dvalues & Hdef & Hdi & Hdops & Hdck & Hdt & Hdv).
    rewrite Hdef. cbn [mbind option_bind]. rewrite Hdi. cbn [mbind option_bind].
    assert (Hsound : op di = Op_Zext \/ op di = Op_Sext ->
      (ops ← operands f (u32 (payload vx)); z ← at_ ops 0; t ← value_type f z;
       if t =? inst_type data then found z f else not_found f) = Some res -> outcome i data res).
    { intros Hdop. rewrite Hdops. cbn [mbind option_bind].
      destruct (int_cast_view di dops dvalues _ Hdi Hdops Hdck) as
        (z & vz & ztd & zrd & n & _ & -> & Hvz & Vz & Tz & Hztd & Hzk & Hzrd & Hzkr & Hzw & Hzlt & Hn & Wn & Hzv);
        [by right|].
      change (at_ [z] 0) with (Some z). cbn [mbind option_bind]. unfold value_type. rewrite Hvz.
      cbn [mbind option_bind]. destruct (Z.eqb_spec (value_ty vz) (inst_type data)) as [Ht|]; [|intros [= <-]; by left].
      intros [= <-]. right. eexists. split; [exact Hval|]. apply (produces_found z vz); [done|done|done|].
      rewrite E. specialize (Hdv _ Hzv). rewrite Ht, Hrd in Hztd. injection Hztd as <-.
      rewrite Hdt, Htd in Hzrd. injection Hzrd as <-. rewrite Hn. f_equal.
      rewrite Ha in Hdv. injection Hdv as Hdv. rewrite Hdv.
      assert (Hzlt' : type_int_width rd < type_int_width td) by (by destruct Hdop as [E'|E']; rewrite E' in Hzlt).
      destruct Hdop as [E'|E']; rewrite E'; [symmetry; by apply uwrap_small|].
      unfold uwrap at 2. unfold uwrap. rewrite Z.mod_mod_divide.
      - symmetry. apply uwrap_of_swrap; [lia|done].
      - exists (2 ^ (type_int_width td - type_int_width rd)). rewrite <- pow2_split by lia. f_equal. lia. }
    destruct (op di) eqn:E'; try (intros [= <-]; by left); apply Hsound; auto.
Qed.

Lemma numeric_format t td : type types t = Some td -> numeric_float_format t <> Format_Invalid ->
  kind td = Kind_Float /\ numeric_float_format t = float_format (float_kind td).
Proof using Hpre.
  unfold numeric_float_format. intros Htd Hne.
  assert (Hcase : forall c k, (mkType Kind_Float k 0 0, c) ∈ predefined_types -> t = c -> td = mkType Kind_Float k 0 0).
  { intros c k Hin ->. specialize (Hpre _ Hin). cbn in Hpre. congruence. }
  destruct (Z.eqb_spec t TF32) as [E|_]; [rewrite (Hcase TF32 F32); [done| |done]; do 6 right; left|].
  destruct (Z.eqb_spec t TF64) as [E|_]; [rewrite (Hcase TF64 F64); [done| |done]; do 7 right; left|].
  destruct (Z.eqb_spec t TF80) as [E|_]; [rewrite (Hcase TF80 F80); [done| |done]; do 10 right; left|].
  destruct (Z.eqb_spec t TF128) as [E|_]; [rewrite (Hcase TF128 F128); [done| |done]; do 8 right; left|done].
Qed.

(** A folded floating-point constant. *)
Lemma produces_float td r res :
  type types (inst_type data) = Some td -> kind td = Kind_Float ->
  of_format (float_format (float_kind td)) r ->
  inst_value types pw f rho i = float_result r ->
  intern_float_result (inst_type data) r f = Some res -> outcome i data res.
Proof using.
  intros Htd Hk Hfmt Hval. unfold intern_float_result. destruct (has_value r) eqn:Hv; cbn [negb]; cycle 1.
  { intros [= <-]. by left. }
  intros Hc. right. exists (RFloat (FloatValue.value r)). split; [by rewrite Hval; unfold float_result; rewrite Hv|].
  right. exists ConstFloat, (low_bits (FloatValue.value r)), (high_bits (FloatValue.value r)), td.
  destruct (Hfmt Hv) as [Hsem Hcan]. split_and!; [done|done|done| | |].
  - unfold rvalue_ok. by rewrite Hk.
  - unfold const_value. cbn [value_kind payload payload2]. do 2 f_equal. destruct (FloatValue.value r). cbn in *.
    by rewrite Hsem.
  - unfold check_operand_value. cbn [value_kind value_ty]. rewrite Htd, bool_decide_eq_true_2 by done. cbn [andb].
    unfold FloatValue.canonical in Hcan. rewrite Hsem in Hcan. destruct (float_kind td); cbn in Hcan |- *; try done.
    by apply andb_true_iff in Hcan as [-> _].
Qed.

Lemma simplify_float_cast_sound res :
  op data = Op_Fpext \/ op data = Op_Fptrunc -> simplify_float_cast f data ops = Some res -> outcome i data res.
Proof using Hck Hcons Hi Hops Hpre.
  intros Hop. assert (Hc1 : opcode_operand_count (op data) = 1) by (destruct Hop as [E|E]; by rewrite E).
  destruct (checked_1 _ _ _ Hck Hc1) as (x & vx & -> & -> & Hx & Vx & Tx).
  assert (Ht' : has_kind types Kind_Float (value_ty vx) = true /\ has_kind types Kind_Float (inst_type data) = true).
  { pose proof (ck_types _ _ _ Hck) as Ht. destruct Hop as [E|E]; rewrite E in Ht; cbn in Ht;
      rewrite !andb_true_iff in Ht; destruct Ht as [[H1 H2] _]; done. }
  destruct Ht' as [(td & Htd & Hk)%has_kind_inv (rd & Hrd & Hkr)%has_kind_inv].
  unfold simplify_float_cast. change (at_ [x] 0) with (Some x). cbn [mbind option_bind]. rewrite Hx.
  cbn [mbind option_bind]. destruct (bool_decide (value_kind vx = ConstFloat) && _) eqn:Hb; [|intros [= <-]; by left].
  apply andb_true_iff in Hb as [Hkx Hfx]. apply bool_decide_eq_true in Hkx.
  apply negb_true_iff, bool_decide_eq_false in Hfx. destruct (numeric_format _ _ Hrd Hfx) as [_ Hfmt].
  rewrite Hfmt. unfold numeric_float_value.
  destruct (decide (numeric_float_format (value_ty vx) = Format_Invalid)) as [En|En].
  { rewrite En. unfold intern_float_result, convert. destruct (descriptor _); intros [= <-]; by left. }
  destruct (numeric_format _ _ Htd En) as [_ ->].
  apply (produces_float rd); [done|done|apply convert_format|].
  assert (Hv : rho x = RFloat (mkFloat (float_format (float_kind td)) (payload vx) (payload2 vx))).
  { apply (cs_const _ _ _ _ Hcons x vx td); [done|done|]. unfold const_value. by rewrite Hkx. }
  rewrite (inst_value_eq i data _ _ [td] rd Hi Hops (ck_values _ _ _ Hck)); [|by cbn; rewrite Htd|done].
  cbn [map]. rewrite Hv. unfold eval_inst. destruct Hop as [E|E]; by rewrite E.
Qed.

Lemma simplify_int_to_float_sound res :
  op data = Op_Sitofp \/ op data = Op_Uitofp -> simplify_int_to_float f types data ops = Some res ->
  outcome i data res.
Proof using Hck Hcons Hi Hops Hpre.
  intros Hop. assert (Hc1 : opcode_operand_count (op data) = 1) by (destruct Hop as [E|E]; by rewrite E).
  destruct (checked_1 _ _ _ Hck Hc1) as (x & vx & -> & -> & Hx & Vx & Tx).
  assert (Ht' : has_kind types Kind_Float (inst_type data) = true).
  { pose proof (ck_types _ _ _ Hck) as Ht. destruct Hop as [E|E]; rewrite E in Ht; cbn in Ht;
      by apply andb_true_iff in Ht as [_ Ht]. }
  apply has_kind_inv in Ht' as (rd & Hrd & Hkr). unfold simplify_int_to_float.
  change (at_ [x] 0) with (Some x). cbn [mbind option_bind].
  destruct (bool_decide_reflect (numeric_float_format (inst_type data) = Format_Invalid)) as [|Hne];
    [intros [= <-]; by left|].
  destruct (const_int_of_spec x vx Hx Vx Tx) as (k & -> & Hkc). cbn [mbind option_bind].
  destruct k as [k|]; [|intros [= <-]; by left]. destruct (Hkc k eq_refl) as (td & Htd & Hk & Hkw & _ & Hr & _).
  destruct (numeric_format _ _ Hrd Hne) as [_ ->].
  apply (produces_float rd); [done|done|apply from_integer_format|].
  rewrite (inst_value_eq i data _ _ [td] rd Hi Hops (ck_values _ _ _ Hck)); [|by cbn; rewrite Htd|done].
  cbn [map]. rewrite Hr. unfold eval_inst, bits_of. rewrite Hk, Hkw.
  destruct Hop as [E|E]; rewrite E; done.
Qed.

Lemma simplify_select_sound res :
  op data = Op_Select -> simplify_select f types data ops = Some res -> outcome i data res.
Proof using Hck Hcons Hi Hops Hpre Hver.
  intros Hop. assert (Hc3 : opcode_operand_count (op data) = 3) by by rewrite Hop.
  destruct (checked_3 _ _ _ Hck Hc3) as (c & x & y & vc & vx & vy & -> & -> & (Hc & Vc & Tc) & (Hx & Vx & Tx) & (Hy & Vy & Ty)).
  pose proof (ck_types _ _ _ Hck) as Ht. rewrite Hop in Ht. cbn in Ht. rewrite !andb_true_iff, !Z.eqb_eq in Ht.
  destruct Ht as [[Htc Hs] Hr].
  assert (Htcd : type types (value_ty vc) = Some (mkType Kind_Int F64 8 0)) by (rewrite Htc; apply predefined_i8).
  destruct (int_operand c vc _ Hc Tc Htcd ltac:(by left)) as (n & Hn & Wn).
  assert (exists td, type types (value_ty vx) = Some td) as [td Htd].
  { unfold check_value_type in Tx. destruct (type types (value_ty vx)) as [td|]; [by exists td|done]. }
  assert (Hval : inst_value types pw f rho i = Some (if n =? 0 then rho y else rho x)).
  { rewrite (inst_value_eq i data _ _ [mkType Kind_Int F64 8 0; td; td] td Hi Hops (ck_values _ _ _ Hck)).
    - cbn [map]. rewrite Hop, Hn. done.
    - cbn. rewrite Htcd. cbn. rewrite Htd. cbn. rewrite Hs, Htd. done.
    - by rewrite Hr. }
  unfold simplify_select. change (at_ [c; x; y] 0) with (Some c). change (at_ [c; x; y] 1) with (Some x).
  change (at_ [c; x; y] 2) with (Some y). cbn [mbind option_bind]. rewrite Hc. cbn [mbind option_bind].
  destruct (bool_decide_reflect (value_kind vc = ConstInt)) as [Hk|Hk].
  { intros [= <-]. right. eexists. split; [exact Hval|].
    assert (payload vc = n) as Hp.
    { pose proof (cs_const _ _ _ _ Hcons c vc _ (RInt (payload vc + 2 ^ 64 * payload2 vc)) Hc Htcd) as Hrho.
      unfold const_value in Hrho. rewrite Hk in Hrho. specialize (Hrho eq_refl). rewrite Hn in Hrho. injection Hrho as Hrho.
      unfold check_operand_value in Vc. rewrite Hk, Htcd in Vc. cbn [kind type_int_width] in Vc.
      apply andb_true_iff in Vc as [_ Vc]. unfold canonical_int in Vc. cbn in Vc. apply andb_true_iff in Vc as [Vc _].
      apply Z.eqb_eq in Vc. rewrite Vc in Hrho. lia. }
    rewrite Hp. destruct (n =? 0); cbn [negb].
    - by apply (produces_found y vy); [done|done|congruence|].
    - by apply (produces_found x vx). }
  destruct (Z.eqb_spec x y) as [->|Hxy].
  { intros [= <-]. right. eexists. split; [exact Hval|]. apply (produces_found y vy); [done|done|congruence|].
    by destruct (n =? 0). }
  destruct (const_int_of_spec x vx Hx Vx Tx) as (k1 & -> & Hk1), (const_int_of_spec y vy Hy Vy Ty) as (k2 & -> & Hk2).
  cbn [mbind option_bind]. destruct k1 as [t|]; [|intros [= <-]; by left].
  destruct k2 as [e|]; [|intros [= <-]; by left].
  destruct (_ && _ && _) eqn:Hb; [|intros [= <-]; by left]. rewrite !andb_true_iff, !Z.eqb_eq in Hb.
  destruct Hb as [[Hi8 Ht1] He0].
  destruct (is_bool_valued f c) as [[]|] eqn:Bc; cbn [mbind option_bind]; [|intros [= <-]; by left|done].
  intros [= <-]. right. eexists. split; [exact Hval|]. apply (produces_found c vc); [done|done|congruence|].
  destruct (is_bool_valued_sound _ _ Bc) as (d & _ & _ & Hcv).
  destruct (Hk1 t eq_refl) as (_ & _ & _ & _ & _ & Rx & _), (Hk2 e eq_refl) as (_ & _ & _ & _ & _ & Ry & _).
  rewrite Hn in Hcv |- *. rewrite Rx, Ry, Ht1, He0. destruct Hcv as [[= ->]|[= ->]]; reflexivity.
Qed.

(** One instruction. *)
Lemma simplify_inst_sound res : simplify_inst f types i = Some res -> outcome i data res.
Proof using Hck Hcons Hi Hops Hpre Hres Hver.
  unfold simplify_inst. rewrite Hi. cbn [mbind option_bind]. rewrite Hops. cbn [mbind option_bind].
  destruct (op data) eqn:Hop; try (intros [= <-]; by left); intros H.
  all: try (apply simplify_binop_sound; [by rewrite Hop|done]).
  all: try (apply simplify_float_cast_sound; [by auto|done]).
  all: try (apply simplify_int_to_float_sound; [by auto|done]).
  all: try (apply simplify_int_cast_sound; [by auto|done]).
  - by apply simplify_icmp_sound.
  - (* bitcast *)
    assert (Hc1 : opcode_operand_count (op data) = 1) by by rewrite Hop.
    destruct (checked_1 _ _ _ Hck Hc1) as (x & vx & -> & -> & Hx & Vx & Tx).
    change (at_ [x] 0) with (Some x) in H. cbn [mbind option_bind] in H. unfold value_type in H. rewrite Hx in H.
    cbn [mbind option_bind] in H. destruct (Z.eqb_spec (value_ty vx) (inst_type data)) as [Ht|]; injection H as <-; [|by left].
    right. exists (rho x). split; [|by apply (produces_found x vx)].
    assert (exists td, type types (value_ty vx) = Some td) as [td Htd].
    { unfold check_value_type in Tx. destruct (type types (value_ty vx)) as [td|]; [by exists td|done]. }
    rewrite (inst_value_eq i data _ _ [td] td Hi Hops (ck_values _ _ _ Hck)); [|by cbn; rewrite Htd|congruence].
    cbn [map]. rewrite Hop. cbn. by rewrite bool_decide_eq_true_2.
  - (* ptr_add *)
    assert (Hc2 : opcode_operand_count (op data) = 2) by by rewrite Hop.
    destruct (checked_2 _ _ _ Hck Hc2) as (x & y & vx & vy & -> & -> & Hx & Vx & Tx & Hy & Vy & Ty).
    pose proof (ck_types _ _ _ Hck) as Ht. rewrite Hop in Ht. cbn in Ht. rewrite !andb_true_iff, !Z.eqb_eq in Ht.
    destruct Ht as [[(td & Htd & Hk)%has_kind_inv _] Hr].
    change (at_ [x; y] 0) with (Some x) in H. change (at_ [x; y] 1) with (Some y) in H. cbn [mbind option_bind] in H.
    destruct (const_int_of_spec y vy Hy Vy Ty) as (k & Hkv & Hkc). rewrite Hkv in H. cbn [mbind option_bind] in H.
    destruct k as [k|]; [|injection H as <-; by left].
    destruct (Z.eqb_spec (bits k) 0) as [Hz|]; injection H as <-; [|by left].
    destruct (Hkc k eq_refl) as (yd & Hyd & _ & _ & _ & Ry & _). rewrite Hz in Ry.
    destruct (int_operand x vx td Hx Tx Htd (or_intror Hk)) as (a & Ha & Wa).
    right. exists (rho x). split; [|by apply (produces_found x vx)].
    rewrite (inst_value_eq i data _ _ [td; yd] td Hi Hops (ck_values _ _ _ Hck)); [| |by rewrite Hr].
    + cbn [map]. rewrite Hop, Ha, Ry. cbn. rewrite Z.add_0_r. do 2 f_equal. by apply uwrap_small.
    + cbn. rewrite Htd. cbn. by rewrite Hyd.
  - by apply simplify_select_sound.
Qed.
End One.
End Sound.
