(* ===== verification/AirSimplifyPass.v ===== *)
(** * The simplification pass is correct (run_instsimplify of src/air/passes_opt.cpp)

    Adding a constant, replacing the uses of a value by an equal one, and
    unlinking an instruction keep a function verified and its valuations
    consistent; so does the pass, which always finishes, removes only unused
    instructions without effects, and leaves nothing it could still replace. *)
From stdpp Require Import functions.
From S2P Require Import Prelude Vectors AirInsts AirTypes AirFunction AirLists AirSweep AirSimplify AirVerify AirSemantics AirSimplifyProps.
Open Scope Z_scope.

(** ** Reading a function with one part changed *)

Lemma value_lt f v d : value f v = Some d -> 0 < v < size (values_ f) /\ at_ (values_ f) v = Some d.
Proof. unfold value, valid_id. destruct (_ && _) eqn:E; [|done]. intros ->. ztests. split; [lia|done]. Qed.
Lemma value_is_Some f v : 0 < v < size (values_ f) -> is_Some (value f v).
Proof.
  intros Hv. unfold value, valid_id. replace (_ && _) with true by (symmetry; apply andb_true_iff; lia).
  apply at_is_Some. lia.
Qed.
Lemma value_prefix f f' v d : values_ f `prefix_of` values_ f' -> value f v = Some d -> value f' v = Some d.
Proof.
  intros [w Hw] [Hv Ha]%value_lt. unfold value, valid_id. rewrite Hw, size_app. pose proof (size_nonneg w).
  replace (_ && _) with true by (symmetry; apply andb_true_iff; lia). by apply at_app_l.
Qed.
Lemma values_prefix f f' ops vs : values_ f `prefix_of` values_ f' -> mapM (value f) ops = Some vs ->
  mapM (value f') ops = Some vs.
Proof.
  intros Hp. revert vs. induction ops as [|v ops IH]; intros vs; [done|].
  intros (d & ds & Hd & Hds & ->)%mapM_cons_inv. cbn.
  rewrite (value_prefix _ _ _ _ Hp Hd). cbn. by rewrite (IH _ Hds).
Qed.

(** ** Adding a constant *)

Lemma constant_equals_spec a b : constant_equals a b = true <-> a = b.
Proof.
  unfold constant_equals. rewrite !andb_true_iff, bool_decide_eq_true, !Z.eqb_eq. destruct a, b; cbn.
  split; [intros [[[-> ->] ->] ->]; done|intros [= -> -> -> ->]; done].
Qed.
Lemma intern_constant_cases kind ty p p2 f v f' : intern_constant kind ty p p2 f = Some (v, f') -> 0 < size (values_ f) ->
  0 <= v /\ (id_ok v = true -> value f' v = Some (mkValue kind ty p p2)) /\
  (f' = f \/ (exists lookup, f' = with_values (values_ f ++ [mkValue kind ty p p2]) lookup f /\ v = size (values_ f))).
Proof.
  unfold intern_constant. destruct (id_ok ty); [|done]. cbn [negb]. unfold intern_in.
  destruct (first_equal _ _ _) as [j|] eqn:E; cbn [mbind option_bind].
  - intros [= <- <-] H0. replace (with_values (values_ f) (constant_lookup_ f) f) with f by by destruct f.
    destruct (first_equal_some constant_equals constant_equals_spec _ _ _ _ E) as [_ Hj].
    pose proof (at_lt _ _ _ Hj). split; [lia|]. split; [|by left].
    intros Hid. unfold id_ok in Hid. unfold value, valid_id.
    replace (_ && _) with true by (symmetry; apply andb_true_iff; ztests; lia). done.
  - destruct (next_id (values_ f)) as [id|] eqn:Hid; [|done]. cbn [mbind option_bind]. apply next_id_some in Hid.
    intros [= <- <-] H0. split; [lia|]. split; [|right; by eexists]. intros _. unfold value, valid_id. cbn.
    rewrite size_app. change (size [mkValue kind ty p p2]) with 1.
    replace (_ && _) with true by (symmetry; apply andb_true_iff; lia). subst id. apply at_snoc.
Qed.
Lemma intern_constant_total kind ty p p2 f : id_ok ty = true -> size (values_ f) < 2 ^ 32 ->
  is_Some (intern_constant kind ty p p2 f).
Proof.
  intros Hty Hsz. unfold intern_constant. rewrite Hty. cbn [negb]. unfold intern_in.
  destruct (first_equal _ _ _); [by eexists|]. unfold next_id. rewrite (proj2 (Z.ltb_lt _ _) Hsz). by eexists.
Qed.

(** ** Renaming operands *)

Lemma span_map {A B} (g : A -> B) pool b n : span (map g pool) b n = map g <$> span pool b n.
Proof. unfold span. rewrite size_map. destruct (_ && _); [|done]. cbn. by rewrite fmap_take, fmap_drop. Qed.
Lemma span_elem {A} (pool : list A) b n l x : span pool b n = Some l -> x ∈ l -> x ∈ pool.
Proof.
  unfold span. destruct (_ && _); [|done]. intros [= <-] Hx. apply list_elem_of_In in Hx. apply list_elem_of_In.
  rewrite <- (firstn_skipn (Z.to_nat b) pool). apply in_or_app. right.
  rewrite <- (firstn_skipn (Z.to_nat n) (drop (Z.to_nat b) pool)). apply in_or_app. by left.
Qed.

Section Renaming.
Context (types : TypeTable) (pw : Z).

(** [f'] is [f] with operand [s a] in place of [a], of the same type, and more constants. *)
Record renames (s : ValueId -> ValueId) (f f' : Function) : Prop := {
  rn_shape : shape f' = shape f;
  rn_values : values_ f `prefix_of` values_ f';
  rn_consts : forall v d, value f' v = Some d -> value f v = Some d \/ kind_is_constant (value_kind d) = true;
  rn_pool : operand_pool_ f' = map s (operand_pool_ f);
  rn_types : forall a d, value f a = Some d -> exists d', value f' (s a) = Some d' /\ value_ty d' = value_ty d /\
    (check_operand_value types d = true -> check_operand_value types d' = true) }.

Lemma renames_id f f' : shape f' = shape f -> values_ f `prefix_of` values_ f' ->
  (forall v d, value f' v = Some d -> value f v = Some d \/ kind_is_constant (value_kind d) = true) ->
  operand_pool_ f' = operand_pool_ f -> renames id f f'.
Proof using.
  intros H1 H2 H3 H4. split; [done|done|done|by rewrite map_id|]. intros a d Hd. exists d.
  split; [by eapply value_prefix|done].
Qed.
Lemma renames_trans s s' f f1 f2 : renames s f f1 -> renames s' f1 f2 -> renames (s' ∘ s) f f2.
Proof using.
  intros [A1 A2 A3 A4 A5] [B1 B2 B3 B4 B5]. split; [congruence|by etrans| |by rewrite B4, A4, map_map|].
  - intros v d Hd. destruct (B3 _ _ Hd) as [H|H]; [by apply A3|by right].
  - intros a d Hd. destruct (A5 _ _ Hd) as (d1 & H1 & T1 & V1). destruct (B5 _ _ H1) as (d2 & H2 & T2 & V2).
    exists d2. split; [done|]. split; [congruence|auto].
Qed.

Lemma renames_operands s f f' i d d' : renames s f f' -> inst f i = Some d -> inst f' i = Some d' -> core d' = core d ->
  operands f' i = map s <$> operands f i.
Proof using.
  intros H Hd Hd' Hc. unfold operands. rewrite Hd, Hd'. cbn [mbind option_bind].
  assert (op_begin d' = op_begin d /\ op_count d' = op_count d) as [-> ->] by by injection Hc.
  by rewrite (rn_pool _ _ _ H), span_map.
Qed.
Lemma renames_values s f f' ops vs : renames s f f' -> mapM (value f) ops = Some vs ->
  exists vs', mapM (value f') (map s ops) = Some vs' /\ map value_ty vs' = map value_ty vs /\
    (forallb (check_operand_value types) vs = true -> forallb (check_operand_value types) vs' = true).
Proof using.
  intros H. revert vs. induction ops as [|a ops IH]; intros vs.
  - intros ->%mapM_nil_inv. by exists [].
  - intros (d & ds & Hd & Hds & ->)%mapM_cons_inv. destruct (IH _ Hds) as (ds' & H1 & H2 & H3).
    destruct (rn_types _ _ _ H _ _ Hd) as (d' & Hd' & Ht & Hv). exists (d' :: ds'). cbn. rewrite Hd'. cbn.
    rewrite H1. cbn. rewrite Ht, H2. split; [done|]. split; [done|]. rewrite !andb_true_iff. intuition.
Qed.

Lemma renames_check s f f' i : renames s f f' -> check_inst types pw f i = true -> check_inst types pw f' i = true.
Proof using.
  intros H. unfold check_inst. destruct (inst f i) as [d|] eqn:Hd; [|done].
  pose proof (shape_inst _ _ i (rn_shape _ _ _ H)) as Hc. rewrite Hd in Hc. destruct (inst f' i) as [d'|] eqn:Hd'; [|done].
  cbn in Hc. assert (core d' = core d) as Hcore by congruence. rewrite (renames_operands _ _ _ _ _ _ H Hd Hd' Hcore).
  destruct (operands f i) as [ops|]; [|done]. cbn [fmap option_fmap option_map].
  assert (op d' = op d /\ result d' = result d /\ inst_type d' = inst_type d /\ aux d' = aux d) as (-> & -> & -> & ->)
    by by injection Hcore.
  rewrite size_map, !andb_true_iff. intros [H1 H2]. split; [done|].
  destruct (mapM (value f) ops) as [vs|] eqn:Hvs; [|done].
  destruct (renames_values _ _ _ _ _ H Hvs) as (vs' & -> & Ht & Hv). rewrite Ht.
  rewrite !andb_true_iff in *. intuition.
Qed.

Lemma renames_verified s f f' : renames s f f' -> verified types pw f -> verified types pw f'.
Proof using.
  intros H [V1 V2]. split.
  - intros v d Hd Hk. destruct (rn_consts _ _ _ H _ _ Hd) as [Hd0|Hc]; [|by rewrite Hk in Hc].
    destruct (V1 _ _ Hd0 Hk) as (Hck & di & Hdi & Ht & Hr). split; [by eapply renames_check|].
    pose proof (shape_inst _ _ (u32 (payload d)) (rn_shape _ _ _ H)) as Hc. rewrite Hdi in Hc.
    destruct (inst f' _) as [di'|]; [|done]. exists di'. split; [done|]. injection Hc. intros. split; congruence.
  - intros i d' Hd' Hk. destruct (inst_core_inv _ _ _ _ (rn_shape _ _ _ H) Hd') as (d & Hd & Hc).
    assert (op d' = op d /\ result d' = result d) as [Ho Hr] by by injection Hc. rewrite Ho in Hk. rewrite Hr.
    destruct (V2 _ _ Hd Hk) as (v & Hv & Hkv & Hi). exists v. split; [|done]. eapply value_prefix; [apply H|done].
Qed.

(** The values of the operands stay. *)
Definition keeps (s : ValueId -> ValueId) (f : Function) (rho rho' : ValueId -> rvalue) : Prop :=
  forall a, is_Some (value f a) -> rho' a = rho a /\ rho' (s a) = rho a.

Lemma renames_inst_value s f f' rho rho' i : renames s f f' -> keeps s f rho rho' -> check_inst types pw f i = true ->
  inst_value types pw f' rho' i = inst_value types pw f rho i.
Proof using.
  intros H Hk. unfold check_inst, inst_value. destruct (inst f i) as [d|] eqn:Hd; [|done].
  pose proof (shape_inst _ _ i (rn_shape _ _ _ H)) as Hc. rewrite Hd in Hc. destruct (inst f' i) as [d'|] eqn:Hd'; [|done].
  cbn in Hc. assert (core d' = core d) as Hcore by congruence. cbn [mbind option_bind].
  rewrite (renames_operands _ _ _ _ _ _ H Hd Hd' Hcore). destruct (operands f i) as [ops|]; [|done].
  cbn [fmap option_fmap option_map mbind option_bind]. intros [_ Hck]%andb_true_iff.
  destruct (mapM (value f) ops) as [vs|] eqn:Hvs; [|done]. clear Hck. cbn [mbind option_bind].
  destruct (renames_values _ _ _ _ _ H Hvs) as (vs' & -> & Ht & _). cbn [mbind option_bind].
  assert (op d' = op d /\ inst_type d' = inst_type d /\ aux d' = aux d) as (-> & -> & ->) by by injection Hcore.
  assert (Hm : mapM (fun v => type types (value_ty v)) vs' = mapM (fun v => type types (value_ty v)) vs).
  { clear -Ht. revert vs Ht. induction vs' as [|x vs' IH]; intros [|y vs]; try done. cbn. intros [= H1 H2].
    by rewrite H1, (IH _ H2). }
  rewrite Hm. assert (Hr : map rho' (map s ops) = map rho ops); [|by rewrite Hr].
  rewrite map_map. clear -Hvs Hk. revert vs Hvs. induction ops as [|a ops IH]; intros vs; [done|].
  intros (d & ds & Hd & Hds & ->)%mapM_cons_inv. cbn. rewrite (IH _ Hds). f_equal. apply Hk. by eexists.
Qed.

Lemma renames_consistent s f f' rho rho' : renames s f f' -> verified types pw f -> consistent types pw f rho ->
  keeps s f rho rho' ->
  (forall v d ty, value f v = None -> value f' v = Some d -> type types (value_ty d) = Some ty ->
     rvalue_ok pw ty (rho' v) /\ forall r, const_value ty d = Some r -> rho' v = r) ->
  consistent types pw f' rho'.
Proof using.
  intros H Hver [C1 C2 C3] Hk Hnew.
  assert (Hold : forall v d, value f' v = Some d -> value f v = Some d \/ value f v = None).
  { intros v d Hd. destruct (value f v) as [d0|] eqn:E; [|by right]. left.
    by rewrite <- (value_prefix _ _ _ _ (rn_values _ _ _ H) E), Hd. }
  split.
  - intros v d ty Hd Hty Hv. destruct (Hold _ _ Hd) as [E|E]; [|by apply (Hnew v d ty)].
    destruct (Hk v) as [-> _]; [by eexists|]. by apply (C1 v d).
  - intros v d ty r Hd Hty Hr. destruct (Hold _ _ Hd) as [E|E]; [|by apply (Hnew v d ty)].
    destruct (Hk v) as [-> _]; [by eexists|]. by apply (C2 v d ty).
  - intros v d r Hd Hi. destruct (rn_consts _ _ _ H _ _ Hd) as [E|E]; [|by rewrite Hi in E].
    destruct (vf_value _ _ _ Hver _ _ E Hi) as [Hck _]. rewrite (renames_inst_value _ _ _ _ _ _ H Hk Hck). intros Hr.
    destruct (Hk v) as [-> _]; [by eexists|]. by apply (C3 v d).
Qed.
End Renaming.

(** ** Where replacements come from *)

(** A replacement is nothing, an operand in use, or an added constant. *)
Definition sourced (f : Function) (res : ValueId * Function) : Prop :=
  res = (0, f) \/ (res.2 = f /\ res.1 ∈ operand_pool_ f) \/
  exists kind ty p p2, kind_is_constant kind = true /\ intern_constant kind ty p p2 f = Some res.

Lemma sourced_nothing f res : not_found f = Some res -> sourced f res.
Proof. intros [= <-]. by left. Qed.
Lemma sourced_operand f i ops k v res : found v f = Some res -> at_ ops k = Some v -> operands f i = Some ops ->
  sourced f res.
Proof.
  intros [= <-] Ha Ho. right; left. split; [done|]. cbn. unfold operands in Ho. destruct (inst f i); [|done]. cbn in Ho.
  eapply span_elem; [exact Ho|]. unfold at_ in Ha. destruct (k <? 0); [done|]. by eapply list_elem_of_lookup_2.
Qed.
Lemma sourced_int ty b h f res : const_int ty b h f = Some res -> sourced f res.
Proof. intros H. right; right. by exists ConstInt, ty, b, h. Qed.
Lemma sourced_float ty r f res : intern_float_result ty r f = Some res -> sourced f res.
Proof.
  unfold intern_float_result. destruct (negb _); [by intros [= <-]; left|]. intros H. right; right. exists ConstFloat. do 3 eexists. split; [done|exact H].
Qed.

(** Split the conditions and steps of a simplification that has the result of [H]. *)
Ltac split_steps H :=
  repeat match type of H with
  | mbind _ _ = Some _ => let x := fresh "x" in let E := fresh "E" in apply bind_Some in H as (x & E & H)
  | (if ?c then _ else _) = Some _ => destruct c
  | context [match ?x with _ => _ end] => destruct x eqn:?; try discriminate H
  end.
Ltac source H := split_steps H; first [by apply sourced_nothing|by eapply sourced_int|by eapply sourced_float|by eapply sourced_operand].

Lemma identity_with_source data k b v g f res : identity_with data k b v = Some g -> g f = Some res ->
  found v f = Some res \/ const_int (inst_type data) 0 0 f = Some res.
Proof. unfold identity_with. intros Hg Hr. destruct (op data); repeat case_match; simplify_eq; auto. Qed.

Lemma simplify_binop_source f types data i ops res : operands f i = Some ops ->
  simplify_binop f types data ops = Some res -> sourced f res.
Proof.
  intros Hops. unfold simplify_binop. intros H. apply bind_Some in H as (x & Ex & H). apply bind_Some in H as (y & Ey & H).
  apply bind_Some in H as (lhs & _ & H). apply bind_Some in H as (rhs & _ & H). cbv zeta in H.
  destruct (match lhs with Some _ => _ | None => _ end); [by eapply sourced_int|].
  set (choice := match rhs with Some _ => _ | None => _ end) in H.
  assert (Hv : choice.2 = x \/ choice.2 = y) by (unfold choice; repeat case_match; auto).
  destruct choice as [[konst is_rhs] v]. cbn in Hv.
  destruct (match konst with Some _ => _ | None => _ end) as [g|] eqn:Hg.
  - destruct konst; [|done]. destruct (identity_with_source _ _ _ _ _ _ _ Hg H) as [Hf|Hc]; [|by eapply sourced_int].
    destruct Hv as [->| ->]; by eapply sourced_operand.
  - source H.
Qed.

Lemma simplify_inst_source f types i data res : inst f i = Some data -> simplify_inst f types i = Some res ->
  sourced f res /\ (res.1 <> 0 -> opcode_has_side_effects (op data) = false).
Proof.
  intros Hi. unfold simplify_inst. rewrite Hi. cbn [mbind option_bind]. intros H.
  apply bind_Some in H as (ops & Hops & H). split.
  - destruct (op data); try (by apply sourced_nothing).
    all: try (by eapply simplify_binop_source).
    + unfold simplify_icmp in H. source H.
    + unfold simplify_int_cast in H. source H.
    + unfold simplify_int_cast in H. source H.
    + unfold simplify_int_cast in H. source H.
    + unfold simplify_float_cast in H. source H.
    + unfold simplify_float_cast in H. source H.
    + unfold simplify_int_to_float in H. source H.
    + unfold simplify_int_to_float in H. source H.
    + source H.
    + source H.
    + unfold simplify_select in H. source H.
  - intros Hne. destruct (op data); try reflexivity; by injection H as <-.
Qed.

(** ** A result in every case *)

Section Total.
Context (types : TypeTable) (pw : Z) (f : Function).
Hypothesis Hpre : has_predefined types.
Hypothesis Hver : verified types pw f.
Hypothesis Hroom : size (values_ f) < 2 ^ 32.

Lemma type_id_ok t : check_value_type types t = true -> id_ok t = true /\ exists td, type types t = Some td.
Proof using.
  unfold check_value_type, type. destruct (type_valid types t) eqn:E; [|done].
  destruct (at_ (types_ types) t) as [td|] eqn:Ha; [|done]. intros _. split; [|by exists td].
  apply id_ok_pos. unfold type_valid in E. ztests. lia.
Qed.
Lemma const_int_of_total v d : value f v = Some d -> check_value_type types (value_ty d) = true ->
  is_Some (const_int_of f types v).
Proof using.
  intros Hd Ht. destruct (type_id_ok _ Ht) as (_ & td & Htd). unfold const_int_of, is_int, int_width.
  rewrite Hd. cbn [mbind option_bind]. rewrite Htd. cbn [mbind option_bind]. repeat case_match; by eexists.
Qed.
Lemma def_total v d : value f v = Some d -> value_kind d = InstResult ->
  def_inst f v = Some (u32 (payload d)) /\ exists di ops values, inst f (u32 (payload d)) = Some di /\
    operands f (u32 (payload d)) = Some ops /\ checked types pw f di ops values.
Proof using Hver.
  intros Hd Hk. destruct (vf_value _ _ _ Hver _ _ Hd Hk) as (Hck & di & Hdi & _).
  destruct (check_inst_view _ _ _ _ _ Hdi Hck) as (ops & values & Hops & Hc).
  split; [|by exists di, ops, values]. unfold def_inst. rewrite Hd. cbn. by rewrite bool_decide_eq_true_2.
Qed.
Lemma is_bool_total n v d : value f v = Some d -> is_Some (is_bool_valued_go n f v).
Proof using Hver.
  revert v d. induction n as [|n IH]; intros v d Hd; cbn [is_bool_valued_go]; [by eexists|].
  rewrite Hd. cbn [mbind option_bind]. case_match; [by eexists|].
  destruct (bool_decide_reflect (value_kind d = InstResult)) as [Hk|]; [|by eexists]. cbn [negb].
  destruct (def_total v d Hd Hk) as (-> & di & ops & values & Hdi & Hops & Hc). cbn [mbind option_bind]. rewrite Hdi.
  cbn [mbind option_bind]. destruct (op di) eqn:Hop; try (by eexists). rewrite Hops. cbn [mbind option_bind].
  destruct (checked_3 _ _ _ _ _ _ Hc) as (c & x & y & vc & vx & vy & -> & -> & _ & (Hx & _) & (Hy & _)); [by rewrite Hop|].
  change (at_ [c; x; y] 1) with (Some x). change (at_ [c; x; y] 2) with (Some y). cbn [mbind option_bind].
  destruct (IH x _ Hx) as [b ->]. cbn [mbind option_bind]. destruct b; [by eapply IH|by eexists].
Qed.

Context (i : InstId) (data : InstData) (ops : list ValueId) (values : list ValueData).
Hypothesis Hi : inst f i = Some data.
Hypothesis Hops : operands f i = Some ops.
Hypothesis Hck : checked types pw f data ops values.
Hypothesis Hres : id_ok (result data) = true.

Lemma const_total kind p p2 : is_Some (intern_constant kind (inst_type data) p p2 f).
Proof using Hck Hres Hroom. apply intern_constant_total; [|done]. by apply type_id_ok, (ck_result _ _ _ _ _ _ Hck). Qed.
Lemma i8_total p p2 : is_Some (const_int I8 p p2 f).
Proof using Hroom. by apply intern_constant_total. Qed.
Lemma float_total r : is_Some (intern_float_result (inst_type data) r f).
Proof using Hck Hres Hroom. unfold intern_float_result. case_match; [by eexists|]. apply const_total. Qed.

Lemma simplify_binop_total : opcode_operand_count (op data) = 2 -> is_Some (simplify_binop f types data ops).
Proof using Hck Hi Hops Hres Hroom Hver.
  intros H2. pose proof const_total as Hct. destruct (checked_2 _ _ _ _ _ _ Hck H2) as (x & y & vx & vy & -> & -> & Hx & _ & Tx & Hy & _ & Ty).
  unfold simplify_binop. change (at_ [x; y] 0) with (Some x). change (at_ [x; y] 1) with (Some y). cbn [mbind option_bind].
  destruct (const_int_of_total _ _ Hx Tx) as [l ->]. cbn [mbind option_bind].
  destruct (const_int_of_total _ _ Hy Ty) as [r ->]. cbn [mbind option_bind]. cbv zeta.
  destruct (match l with Some _ => _ | None => _ end); [apply Hct|].
  destruct (match r with Some _ => _ | None => _ end) as [[k b] v]. 
  destruct (match k with Some _ => _ | None => _ end) as [g|] eqn:Hg; [|repeat case_match; by eexists].
  destruct k as [k|]; [|done]. unfold identity_with in Hg.
  destruct (op data); repeat case_match; simplify_eq; first [by eexists|apply Hct].
Qed.
Lemma simplify_icmp_total : op data = Op_Icmp -> is_Some (simplify_icmp f types data ops).
Proof using Hck Hi Hops Hres Hroom Hver.
  intros Hop. destruct (checked_2 _ _ _ _ _ _ Hck) as (x & y & vx & vy & -> & -> & Hx & _ & Tx & Hy & _ & Ty);
    [by rewrite Hop|]. pose proof (ck_types _ _ _ _ _ _ Hck) as Ht. rewrite Hop in Ht. cbn in Ht.
  apply andb_true_iff in Ht as [_ Haux].
  unfold simplify_icmp. destruct (enum_at_some int_conds (aux data)) as [c ->]; [|done|].
  { change (size int_conds) with 10. apply Z.leb_le in Haux. change (enum_index int_conds Uge) with 9 in Haux. lia. }
  change (at_ [x; y] 0) with (Some x). change (at_ [x; y] 1) with (Some y). cbn [mbind option_bind].
  destruct (const_int_of_total _ _ Hx Tx) as [l ->]. cbn [mbind option_bind].
  destruct (const_int_of_total _ _ Hy Ty) as [r ->]. cbn [mbind option_bind].
  assert (Hrest : is_Some (
    same ← (if x =? y then type ← value_type f x; float ← is_float types type; Some (negb float) else Some false);
    if same && decided_on_equal c then const_int I8 (Z.b2z (true_on_equal c)) 0 f
    else if bool_decide (c = Ne) && match r with Some r => bits r =? 0 | None => false end then
      b ← is_bool_valued f x;
      if (b : bool) then found x f
      else
        lhs_value ← AirFunction.value f x;
        if bool_decide (value_kind lhs_value = InstResult) then
          def ← def_inst f x;
          i ← inst f def;
          if bool_decide (op i = Op_Zext) then
            ops ← operands f def;
            z ← at_ ops 0;
            b ← is_bool_valued f z;
            if (b : bool) then found z f else not_found f
          else not_found f
        else not_found f
    else not_found f)).
  { assert (exists same, (if x =? y then type ← value_type f x; float ← is_float types type; Some (negb float)
      else Some false) = Some same) as [same ->].
    { case_match; [|by eexists]. destruct (type_id_ok _ Tx) as (_ & td & Htd). unfold value_type, is_float. rewrite Hx.
      cbn [mbind option_bind]. rewrite Htd. by eexists. }
    cbn [mbind option_bind]. case_match; [apply i8_total|]. case_match; [|by eexists].
    unfold is_bool_valued. destruct (is_bool_total 4 x vx Hx) as [b ->]. cbn [mbind option_bind].
    destruct b; [by eexists|]. rewrite Hx. cbn [mbind option_bind].
    destruct (bool_decide_reflect (value_kind vx = InstResult)) as [Hk|]; [|by eexists].
    destruct (def_total x vx Hx Hk) as (-> & di & dops & dvs & Hdi & Hdops & Hc). cbn [mbind option_bind]. rewrite Hdi.
    cbn [mbind option_bind]. destruct (bool_decide_reflect (op di = Op_Zext)) as [E|]; [|by eexists]. rewrite Hdops.
    destruct (checked_1 _ _ _ _ _ _ Hc) as (z & vz & -> & -> & Hz & _); [by rewrite E|].
    cbn [mbind option_bind]. change (at_ [z] 0) with (Some z). cbn [mbind option_bind].
    destruct (is_bool_total 4 z vz Hz) as [b ->]. cbn [mbind option_bind]. destruct b; by eexists. }
  destruct l as [l|]; [|exact Hrest]. destruct r as [r|]; [apply i8_total|exact Hrest].
Qed.
Lemma simplify_int_cast_total : op data = Op_Trunc \/ op data = Op_Zext \/ op data = Op_Sext ->
  is_Some (simplify_int_cast f types data ops).
Proof using Hck Hi Hops Hres Hroom Hver.
  intros Hop. pose proof const_total as Hct. pose proof (ck_result _ _ _ _ _ _ Hck Hres) as Tr. assert (Hc1 : opcode_operand_count (op data) = 1) by (by destruct Hop as [E|[E|E]]; rewrite E).
  destruct (checked_1 _ _ _ _ _ _ Hck Hc1) as (x & vx & -> & -> & Hx & _ & Tx). unfold simplify_int_cast.
  change (at_ [x] 0) with (Some x). cbn [mbind option_bind]. destruct (const_int_of_total _ _ Hx Tx) as [k ->].
  cbn [mbind option_bind]. destruct k as [k|].
  - destruct (type_id_ok _ Tr) as (_ & td & Htd). unfold int_width. rewrite Htd.
    cbn [mbind option_bind]. case_match; [apply Hct|by eexists].
  - case_match; [|by eexists]. rewrite Hx. cbn [mbind option_bind].
    destruct (bool_decide_reflect (value_kind vx = InstResult)) as [Hk|]; [|by eexists].
    destruct (def_total x vx Hx Hk) as (-> & di & dops & dvs & Hdi & Hdops & Hc). cbn [mbind option_bind]. rewrite Hdi.
    cbn [mbind option_bind]. destruct (op di) eqn:E; try (by eexists).
    all: rewrite Hdops; destruct (checked_1 _ _ _ _ _ _ Hc) as (z & vz & -> & -> & Hz & _); [by rewrite E|].
    all: cbn [mbind option_bind]; change (at_ [z] 0) with (Some z); cbn [mbind option_bind]; unfold value_type; rewrite Hz; cbn [mbind option_bind].
    all: case_match; by eexists.
Qed.
Lemma simplify_select_total : op data = Op_Select -> is_Some (simplify_select f types data ops).
Proof using Hck Hi Hops Hres Hroom Hver.
  intros Hop. destruct (checked_3 _ _ _ _ _ _ Hck) as (c & x & y & vc & vx & vy & -> & -> & (Hc & _) & (Hx & _ & Tx) & (Hy & _ & Ty));
    [by rewrite Hop|]. unfold simplify_select. change (at_ [c; x; y] 0) with (Some c). change (at_ [c; x; y] 1) with (Some x).
  change (at_ [c; x; y] 2) with (Some y). cbn [mbind option_bind]. rewrite Hc. cbn [mbind option_bind].
  case_match; [by eexists|]. case_match; [by eexists|]. destruct (const_int_of_total _ _ Hx Tx) as [l ->].
  cbn [mbind option_bind]. destruct (const_int_of_total _ _ Hy Ty) as [r ->]. cbn [mbind option_bind].
  destruct l; [|by eexists]. destruct r; [|by eexists]. case_match; [|by eexists].
  destruct (is_bool_total 4 c vc Hc) as [b E]. unfold is_bool_valued. rewrite E. cbn [mbind option_bind]. destruct b; by eexists.
Qed.

Lemma simplify_inst_total : is_Some (simplify_inst f types i).
Proof using Hck Hi Hops Hres Hroom Hver.
  unfold simplify_inst. rewrite Hi. cbn [mbind option_bind]. rewrite Hops. cbn [mbind option_bind].
  destruct (op data) eqn:Hop; try (by eexists).
  all: try (by apply simplify_binop_total; rewrite Hop).
  all: try (by apply simplify_int_cast_total; auto).
  - by apply simplify_icmp_total.
  - pose proof float_total as Hft. destruct (checked_1 _ _ _ _ _ _ Hck) as (x & vx & -> & -> & Hx & _); [by rewrite Hop|].
    unfold simplify_float_cast. change (at_ [x] 0) with (Some x). cbn [mbind option_bind]. rewrite Hx.
    cbn [mbind option_bind]. case_match; [apply Hft|by eexists].
  - pose proof float_total as Hft. destruct (checked_1 _ _ _ _ _ _ Hck) as (x & vx & -> & -> & Hx & _); [by rewrite Hop|].
    unfold simplify_float_cast. change (at_ [x] 0) with (Some x). cbn [mbind option_bind]. rewrite Hx.
    cbn [mbind option_bind]. case_match; [apply Hft|by eexists].
  - pose proof float_total as Hft. destruct (checked_1 _ _ _ _ _ _ Hck) as (x & vx & -> & -> & Hx & _ & Tx); [by rewrite Hop|].
    unfold simplify_int_to_float. change (at_ [x] 0) with (Some x). cbn [mbind option_bind]. case_match; [by eexists|].
    destruct (const_int_of_total _ _ Hx Tx) as [k ->]. cbn [mbind option_bind]. destruct k; [apply Hft|by eexists].
  - pose proof float_total as Hft. destruct (checked_1 _ _ _ _ _ _ Hck) as (x & vx & -> & -> & Hx & _ & Tx); [by rewrite Hop|].
    unfold simplify_int_to_float. change (at_ [x] 0) with (Some x). cbn [mbind option_bind]. case_match; [by eexists|].
    destruct (const_int_of_total _ _ Hx Tx) as [k ->]. cbn [mbind option_bind]. destruct k; [apply Hft|by eexists].
  - pose proof float_total as Hft. destruct (checked_1 _ _ _ _ _ _ Hck) as (x & vx & -> & -> & Hx & _); [by rewrite Hop|].
    change (at_ [x] 0) with (Some x). cbn [mbind option_bind]. unfold value_type. rewrite Hx. cbn [mbind option_bind].
    case_match; by eexists.
  - destruct (checked_2 _ _ _ _ _ _ Hck) as (x & y & vx & vy & -> & -> & Hx & _ & Tx & Hy & _ & Ty); [by rewrite Hop|].
    change (at_ [x; y] 0) with (Some x). change (at_ [x; y] 1) with (Some y). cbn [mbind option_bind].
    destruct (const_int_of_total _ _ Hy Ty) as [k ->]. cbn [mbind option_bind]. destruct k; [case_match|]; by eexists.
  - by apply simplify_select_total.
Qed.
End Total.

(** ** One replacement *)

Definition with_new (old new : ValueId) (a : ValueId) : ValueId := if a =? old then new else a.

Section Step.
Context (types : TypeTable) (pw : Z).
Hypothesis Hpre : has_predefined types.

(** [f1], with valuation [rho1], has a value [v] of the type and value of [old]. *)
Record supplies (f : Function) (rho : ValueId -> rvalue) (f1 : Function) (rho1 : ValueId -> rvalue) (ty : TypeId)
    (r : rvalue) (v : ValueId) : Prop := {
  su_renames : renames types id f f1;
  su_same : insts_ f1 = insts_ f /\ blocks_ f1 = blocks_ f /\ operand_pool_ f1 = operand_pool_ f;
  su_size : size (values_ f1) <= size (values_ f) + 1;
  su_consistent : consistent types pw f1 rho1;
  su_keeps : keeps id f rho rho1;
  su_value : exists d, value f1 v = Some d /\ value_ty d = ty /\ check_operand_value types d = true;
  su_rho : rho1 v = r }.

Lemma supplies_here f rho d v : consistent types pw f rho -> value f v = Some d -> check_operand_value types d = true ->
  supplies f rho f rho (value_ty d) (rho v) v.
Proof using. intros Hc Hd Hv. split; try done; [by apply renames_id; auto|lia|by exists d]. Qed.

Lemma supplies_constant f rho kind ty p p2 v f1 td r : verified types pw f -> consistent types pw f rho ->
  0 < size (values_ f) -> id_ok v = true ->
  kind_is_constant kind = true -> intern_constant kind ty p p2 f = Some (v, f1) -> type types ty = Some td ->
  rvalue_ok pw td r -> const_value td (mkValue kind ty p p2) = Some r ->
  check_operand_value types (mkValue kind ty p p2) = true -> exists rho1, supplies f rho f1 rho1 ty r v.
Proof using.
  intros Hver Hc H0 Hid Hk Hi Htd Hr Hcv Hok.
  destruct (intern_constant_cases _ _ _ _ _ _ _ Hi H0) as (_ & Hval & Hcases). specialize (Hval Hid).
  destruct Hcases as [->|(lookup & -> & Hv)].
  - exists rho. assert (rho v = r) as <- by exact (cs_const _ _ _ _ Hc v _ td r Hval Htd Hcv).
    exact (supplies_here f rho (mkValue kind ty p p2) v Hc Hval Hok).
  - set (x := mkValue kind ty p p2) in *. set (f1 := with_values _ _ _) in *.
    exists (fun a => if a =? v then r else rho a).
    assert (Hp : values_ f `prefix_of` values_ f1) by by apply prefix_app_r.
    assert (Hnew : forall a d, value f1 a = Some d -> value f a = Some d \/ (a = v /\ d = x)).
    { intros a d Hd. destruct (Z.eqb_spec a v) as [->|Hne]; [right; split; [done|congruence]|]. left.
      apply value_lt in Hd as [Hlt Ha]. cbn in Ha, Hlt. rewrite size_app in Hlt. change (size [x]) with 1 in Hlt.
      apply at_snoc_inv in Ha as [Ha|[-> _]]; [|done]. unfold value, valid_id.
      by replace (_ && _) with true by (symmetry; apply andb_true_iff; lia). }
    assert (Hkeeps : keeps id f rho (fun a => if a =? v then r else rho a)).
    { intros a [d Hd]. apply value_lt in Hd. cbn. by rewrite (proj2 (Z.eqb_neq a v)) by lia. }
    assert (Hren : renames types id f f1).
    { apply renames_id; [done|done| |done]. intros a d Hd. destruct (Hnew a d Hd) as [?|[_ ->]]; [by left|by right]. }
    split; [exact Hren|done| |  |exact Hkeeps| |].
    + cbn. rewrite size_app. change (size [x]) with 1. lia.
    + apply (renames_consistent types pw id f f1 rho _ Hren Hver Hc Hkeeps). intros a d ty' Hnone Hd Hty.
      destruct (Hnew a d Hd) as [?|[-> ->]]; [congruence|]. rewrite Z.eqb_refl. cbn in Hty.
      assert (ty' = td) as -> by congruence. split; [done|congruence].
    + by exists x.
    + cbn. by rewrite Z.eqb_refl.
Qed.

(** Replacing the uses of a value by an equal one. *)
Lemma replace_renames f rho old new d d' : verified types pw f -> consistent types pw f rho ->
  value f old = Some d -> value f new = Some d' -> value_ty d' = value_ty d -> check_operand_value types d' = true ->
  rho new = rho old ->
  exists f', replace_all_uses old new f = Some f' /\ f' = with_pool (map (with_new old new) (operand_pool_ f)) f /\
    renames types (with_new old new) f f' /\ keeps (with_new old new) f rho rho /\ consistent types pw f' rho.
Proof using.
  intros Hver Hc Hd Hd' Hty Hok Hrho. eexists. split.
  { unfold replace_all_uses. apply value_lt in Hd as [Hd _], Hd' as [Hd' _]. unfold valid_id.
    by replace (_ && _) with true by (symmetry; rewrite !andb_true_iff; lia). }
  split; [done|]. assert (Hren : renames types (with_new old new) f (with_pool (map (with_new old new) (operand_pool_ f)) f)).
  { split; [done|done|by left|done|]. intros a da Ha. unfold with_new. destruct (Z.eqb_spec a old) as [->|]; [|by exists da].
    exists d'. split; [done|]. split; [congruence|done]. }
  assert (Hk : keeps (with_new old new) f rho rho).
  { intros a _. split; [done|]. unfold with_new. by destruct (Z.eqb_spec a old) as [->|]. }
  split; [exact Hren|]. split; [exact Hk|]. apply (renames_consistent types pw _ f _ rho rho Hren Hver Hc Hk).
  intros v dv ty Hn Hv. change (value f v = Some dv) in Hv. congruence.
Qed.

(** What [simplify_at] does at instruction [i] of the list of its block. *)
Record step (f : Function) (lists : BlockId -> list InstId) (rho : ValueId -> rvalue) (i : InstId) (data : InstData)
    (f' : Function) : Prop := {
  st_renames : exists s rho', renames types s f f' /\ keeps s f rho rho' /\ consistent types pw f' rho';
  st_pure : opcode_has_side_effects (op data) = false /\ opcode_result_kind (op data) = Result_Value /\
    Z.land (flags data) INST_FLAG_VOLATILE = 0;
  st_lists : exists l1 l2, lists (inst_block data) = l1 ++ i :: l2 /\
    placed f' (<[inst_block data := l1 ++ l2]> lists);
  st_home : map inst_block (insts_ f') = put (map inst_block (insts_ f)) i 0;
  st_size : size (values_ f') <= size (values_ f) + 1;
  st_unused : result data ∉ operand_pool_ f';
  st_pool : forall v, v ∈ operand_pool_ f' -> v ∈ operand_pool_ f \/
    exists d, value f' v = Some d /\ kind_is_constant (value_kind d) = true }.

(** The value found for instruction [i], and where it is. *)
Lemma found_supplies f rho i data v f1 : verified types pw f -> consistent types pw f rho ->
  0 < size (values_ f) -> inst f i = Some data -> opcode_result_kind (op data) = Result_Value ->
  simplify_inst f types i = Some (v, f1) ->
  ((id_ok v = false \/ v = result data) -> f1 = f) /\
  (id_ok v = true -> v <> result data -> exists rho1, supplies f rho f1 rho1 (inst_type data) (rho (result data)) v /\
     (v ∈ operand_pool_ f \/ exists d, value f1 v = Some d /\ kind_is_constant (value_kind d) = true)).
Proof using Hpre.
  intros Hver Hc H0 Hi Hk Hs. destruct (vf_inst _ _ _ Hver _ _ Hi Hk) as (d & Hd & Hkd & Hpi).
  destruct (vf_value _ _ _ Hver _ _ Hd Hkd) as (Hck & di & Hdi & Hty & Hr). rewrite Hpi in Hck, Hdi.
  assert (di = data) as -> by congruence. pose proof (value_lt _ _ _ Hd) as [Hlt _].
  destruct (check_inst_view _ _ _ _ _ Hi Hck) as (ops & values & Hops & Hchk).
  assert (Hres : id_ok (result data) = true) by (apply id_ok_pos; lia).
  destruct (simplify_inst_source _ _ _ _ _ Hi Hs) as [Hsrc _]. unfold sourced in Hsrc. cbn [fst snd] in Hsrc. split.
  - intros Hv. destruct Hsrc as [[= -> ->]|[[-> _]|(kind & ty & p & p2 & _ & Hint)]]; [done|done|].
    destruct (intern_constant_cases _ _ _ _ _ _ _ Hint H0) as (_ & _ & [->|(lk & -> & ->)]); [done|].
    destruct Hv as [Hv|Hv]; [|lia]. unfold id_ok in Hv. apply negb_false_iff, Z.eqb_eq in Hv. lia.
  - intros Hid Hne.
    destruct (simplify_inst_sound types pw f rho Hpre Hver Hc i data ops values Hi Hops Hchk Hres _ Hs)
      as [[= -> ->]|(r & Hr' & Hp)]; [done|].
    assert (rho (result data) = r) as ->.
    { apply (cs_inst _ _ _ _ Hc _ d); [done|done|by rewrite Hpi]. }
    destruct Hp as [[Hf (dv & Hdv & Hok & Htv & Hrv)]|(kind & p & p2 & td & Hkc & Hint & Htd & Hrok & Hcv & Hok)].
    + cbn in Hf, Hdv, Hrv. subst f1 r. exists rho. split; [rewrite <- Htv; by apply supplies_here|].
      destruct Hsrc as [[= ->]|[[_ Hin]|(kind & ty & p & p2 & Hkc & Hint)]]; [done|by left|right].
      destruct (intern_constant_cases _ _ _ _ _ _ _ Hint H0) as (_ & Hval & _). specialize (Hval Hid). by eexists.
    + destruct (supplies_constant f rho kind (inst_type data) p p2 v f1 td r) as [rho1 Hsu]; try done.
      exists rho1. split; [done|]. right.
      destruct (intern_constant_cases _ _ _ _ _ _ _ Hint H0) as (_ & Hval & _). specialize (Hval Hid). by eexists.
Qed.

Lemma skeleton_renames f f' : skeleton f' = skeleton f -> renames types id f f' /\ values_ f' = values_ f /\
  operand_pool_ f' = operand_pool_ f.
Proof using.
  intros H. assert (Hv : values_ f' = values_ f) by (change (values_ (skeleton f') = values_ (skeleton f)); by rewrite H).
  assert (Hp : operand_pool_ f' = operand_pool_ f)
    by (change (operand_pool_ (skeleton f') = operand_pool_ (skeleton f)); by rewrite H).
  split; [|done]. apply renames_id; [by apply skeleton_shape|by rewrite Hv| |done].
  intros v d. unfold value. rewrite Hv. by left.
Qed.

Lemma simplify_at_spec f lists rho i data : verified types pw f -> placed f lists -> consistent types pw f rho ->
  size (values_ f) < 2 ^ 32 -> inst f i = Some data -> inst_block data <> 0 ->
  exists c f', simplify_at types i f = Some (c, f') /\
    if (c : bool) then step f lists rho i data f' else f' = f.
Proof using Hpre.
  intros Hver Hpl Hc Hroom Hi Hb. unfold simplify_at. rewrite Hi. cbn [mbind option_bind].
  destruct (bool_decide_reflect (opcode_result_kind (op data) = Result_Value)) as [Hk|]; [|by exists false, f].
  cbn [andb]. destruct (Z.eqb_spec (Z.land (flags data) INST_FLAG_VOLATILE) 0) as [Hvol|]; [|by exists false, f].
  destruct (vf_inst _ _ _ Hver _ _ Hi Hk) as (d & Hd & Hkd & Hpi).
  destruct (vf_value _ _ _ Hver _ _ Hd Hkd) as (Hck & di & Hdi & Hty & _). rewrite Hpi in Hck, Hdi.
  assert (di = data) as -> by congruence. pose proof (value_lt _ _ _ Hd) as [Hlt _].
  destruct (check_inst_view _ _ _ _ _ Hi Hck) as (ops & values & Hops & Hchk).
  assert (Hres : id_ok (result data) = true) by (apply id_ok_pos; lia).
  destruct (simplify_inst_total types pw f Hver Hroom i data ops values Hi Hops Hchk Hres) as [[v f1] Hs].
  rewrite Hs. cbn [mbind option_bind].
  destruct (found_supplies f rho i data v f1 Hver Hc ltac:(lia) Hi Hk Hs) as [Hnone Hsome].
  destruct (id_ok v) eqn:Hid; [|exists false, f1; split; [done|by apply Hnone; left]].
  destruct (Z.eqb_spec v (result data)) as [Hv|Hne]; [exists false, f1; split; [done|by apply Hnone; right]|].
  cbn [andb negb]. destruct (Hsome eq_refl Hne) as (rho1 & [Hren (Si & Sb & Sp) Hsize Hc1 Hk1 (dv & Hdv & Htv & Hok) Hrv] & Hsrc).
  pose proof (renames_verified _ _ _ _ _ Hren Hver) as Hver1.
  destruct (replace_renames f1 rho1 (result data) v d dv Hver1 Hc1) as (f2 & -> & Hf2 & Hren2 & Hk2 & Hc2); try done.
  { eapply value_prefix; [apply Hren|done]. }
  { congruence. }
  { rewrite Hrv. destruct (Hk1 (result data)) as [-> _]; [by eexists|done]. }
  cbn [mbind option_bind].
  assert (Hi2 : inst f2 i = Some data) by (rewrite Hf2; unfold inst in *; cbn; by rewrite Si).
  destruct (remove_inst_spec f2 lists i data) as (f3 & l1 & l2 & -> & Hl & Hpl3 & Hsk & Hhome); [|done|done|].
  { apply (placed_same f); [by rewrite Hf2|by rewrite Hf2|done]. }
  cbn [mbind option_bind]. exists true, f3. split; [done|]. destruct (skeleton_renames _ _ Hsk) as (Hren3 & Hv3 & Hp3).
  assert (Hpool : operand_pool_ f3 = map (with_new (result data) v) (operand_pool_ f)) by (by rewrite Hp3, Hf2, <- Sp).
  split; [| |by exists l1, l2| | | |].
  - exists (id ∘ (with_new (result data) v ∘ id)), rho1.
    split; [eapply renames_trans; [eapply renames_trans; done|done]|]. split.
    + intros a Ha. destruct (Hk1 a Ha) as [E1 _]. split; [done|]. cbn. rewrite <- E1. apply Hk2.
      destruct Ha as [da Ha]. eexists. eapply value_prefix; [apply Hren|done].
    + apply (renames_consistent types pw id f2 f3 rho1 rho1 Hren3); [by eapply renames_verified|done|done|].
      intros a da ty Hn Ha. unfold value in Hn, Ha. rewrite Hv3 in Ha. congruence.
  - destruct (simplify_inst_source _ _ _ _ _ Hi Hs) as [_ Hpure]. split; [|done]. apply Hpure. cbn. intros ->. done.
  - rewrite Hhome. by rewrite Hf2, <- Si.
  - by rewrite Hv3, Hf2.
  - rewrite Hpool. intros (a & Ha & _)%list_elem_of_fmap. unfold with_new in Ha. destruct (Z.eqb_spec a (result data)); congruence.
  - intros x. rewrite Hpool. intros (a & -> & Ha)%list_elem_of_fmap. unfold with_new.
    destruct (Z.eqb_spec a (result data)); [|by left]. destruct Hsrc as [Hin|(dx & Hdx & Hkx)]; [by left|right].
    exists dx. split; [|done]. unfold value. rewrite Hv3, Hf2. exact Hdx.
Qed.
End Step.

(** ** The pass *)

Section Pass.
Context (types : TypeTable) (pw : Z) (f0 : Function) (bs : list BlockId) (lists0 : BlockId -> list InstId)
  (rho0 : ValueId -> rvalue).
Hypothesis Hpre : has_predefined types.
Hypothesis Hchain : chained f0 bs.

(** The function after some replacements. *)
Record inv (f : Function) (lists : BlockId -> list InstId) : Prop := {
  iv_verified : verified types pw f;
  iv_placed : placed f lists;
  iv_keeps : exists s rho, renames types s f0 f /\ keeps s f0 rho0 rho /\ consistent types pw f rho;
  iv_room : size (values_ f) + live f <= 2 ^ 32;
  iv_sublist : forall b, lists b `sublist_of` lists0 b;
  iv_removed : forall b i, i ∈ lists0 b -> i ∉ lists b ->
    exists d, inst f0 i = Some d /\ opcode_has_side_effects (op d) = false /\ opcode_result_kind (op d) = Result_Value /\
      Z.land (flags d) INST_FLAG_VOLATILE = 0 /\ result d ∉ operand_pool_ f }.

Lemma keeps_trans s s' f rho rho' : renames types s f0 f -> keeps s f0 rho0 rho -> keeps s' f rho rho' ->
  keeps (s' ∘ s) f0 rho0 rho'.
Proof using.
  intros Hr H1 H2 a Ha. destruct (H1 a Ha) as [E1 E2]. destruct Ha as [d Hd].
  destruct (H2 a) as [E3 _]; [eexists; by eapply value_prefix; [apply Hr|]|].
  destruct (rn_types _ _ _ _ Hr a d Hd) as (d' & Hd' & _). destruct (H2 (s a)) as [_ E4]; [by eexists|].
  cbn. split; congruence.
Qed.

Lemma inv_shape f lists : inv f lists -> shape f = shape f0.
Proof using. intros [_ _ (s & rho & Hr & _) _ _ _]. apply Hr. Qed.

Lemma inv_step f lists rho i data f' l1 l2 : inv f lists -> consistent types pw f rho ->
  (exists s, renames types s f0 f /\ keeps s f0 rho0 rho) -> inst f i = Some data -> inst_block data <> 0 ->
  lists (inst_block data) = l1 ++ i :: l2 -> NoDup (l1 ++ i :: l2) -> step types pw f lists rho i data f' ->
  inv f' (<[inst_block data := l1 ++ l2]> lists) /\ live f' < live f.
Proof using.
  intros [Hver Hpl _ Hroom Hsub Hrem] Hc (s & Hr & Hk) Hi Hb Hl Hnd
    [(s' & rho' & Hr' & Hk' & Hc') (Hp1 & Hp2 & Hp3) (k1 & k2 & Hlk & Hpl') Hhome Hsz Hun Hpool].
  assert (E : l1 ++ i :: l2 = k1 ++ i :: k2) by congruence.
  destruct (split_unique l1 l2 k1 k2 i Hnd E) as [E1 E2]. subst k1 k2. clear E.
  pose proof (renames_verified _ _ _ _ _ Hr' Hver) as Hver'.
  assert (Hlive : live f = live f' + 1).
  { unfold live. rewrite Hhome. apply (filter_put _ i (inst_block data)); [|done].
    apply inst_lt in Hi as [_ Hi]. by rewrite at_map, Hi. }
  split; [split|lia]; [done|done| |lia| |].
  - exists (s' ∘ s), rho'. split; [by eapply renames_trans|]. split; [by eapply keeps_trans|done].
  - intros b. destruct (decide (b = inst_block data)) as [->|Hne].
    + rewrite fn_lookup_insert. etrans; [|apply Hsub]. rewrite Hl. apply sublist_app; [done|]. by constructor.
    + by rewrite fn_lookup_insert_ne.
  - intros b j Hj0 Hj.
    assert (Hcase : (j = i /\ b = inst_block data) \/ j ∉ lists b).
    { destruct (decide (b = inst_block data)) as [->|Hne]; [|right; by rewrite fn_lookup_insert_ne in Hj].
      rewrite fn_lookup_insert in Hj. destruct (decide (j = i)) as [->|Hne]; [by left|right]. rewrite Hl.
      rewrite elem_of_app in *. rewrite elem_of_cons. tauto. }
    destruct Hcase as [[-> _]|Hj'].
    + destruct (inst_core_inv f0 f i data (rn_shape _ _ _ _ Hr) Hi) as (d & Hd & Hcore). exists d. split; [done|].
      assert (op d = op data /\ flags d = flags data /\ result d = result data) as (-> & -> & ->)
        by (by injection Hcore).
      done.
    + destruct (Hrem b j Hj0 Hj') as (d & Hd & H1 & H2 & H3 & H4). exists d. split_and!; try done. intros Hin.
      destruct (Hpool _ Hin) as [?|(dv & Hdv & Hkv)]; [done|].
      pose proof (renames_trans _ _ _ _ _ _ Hr Hr') as Hr0.
      pose proof (shape_inst _ _ j (rn_shape _ _ _ _ Hr0)) as Hs. rewrite Hd in Hs.
      destruct (inst f' j) as [d'|] eqn:Hd'; [|done].
      assert (op d' = op d /\ result d' = result d) as [Ho Hres] by (by injection Hs).
      destruct (vf_inst _ _ _ Hver' _ _ Hd') as (dv' & Hdv' & Hkv' & _); [by rewrite Ho|].
      rewrite Hres in Hdv'. assert (dv' = dv) as -> by congruence. by rewrite Hkv' in Hkv.
Qed.

Lemma simplify_visits f lists i data : inv f lists -> inst f i = Some data -> inst_block data <> 0 ->
  visits inv (simplify_at types) f lists i data.
Proof using Hpre.
  intros Hinv Hi Hb. pose proof (iv_keeps _ _ Hinv) as (s & rho & Hr & Hk & Hc).
  assert (Hroom : size (values_ f) < 2 ^ 32).
  { pose proof (iv_room _ _ Hinv). pose proof (live_pos _ _ _ Hi Hb). lia. }
  destruct (simplify_at_spec types pw Hpre f lists rho i data (iv_verified _ _ Hinv) (iv_placed _ _ Hinv) Hc Hroom Hi Hb)
    as (c & f1 & Hv & Hcase). exists c, f1. split; [done|]. destruct c; [|done].
  pose proof (st_lists _ _ _ _ _ _ _ _ Hcase) as (l1 & l2 & Hl & _). exists l1, l2. split; [done|].
  destruct (pl_inst _ _ (iv_placed _ _ Hinv) _ _ Hi Hb) as [[db Hdb] _].
  destruct (pl_block _ _ (iv_placed _ _ Hinv) _ _ Hdb) as (_ & _ & _ & Hnd). rewrite Hl in Hnd.
  destruct (inv_step f lists rho i data f1 l1 l2 Hinv Hc ltac:(by exists s) Hi Hb Hl Hnd Hcase) as [Hinv1 Hlive]. done.
Qed.

Lemma run_spec : inv f0 lists0 ->
  exists c f' lists', run_instsimplify types f0 = Some (c, f') /\ inv f' lists' /\
    (c = false -> f' = f0) /\ run_instsimplify types f' = Some (false, f').
Proof using Hchain Hpre.
  intros Hinv. assert (Hround : forall f lists, inv f lists -> round_ok inv (simplify_round types) f).
  { intros f lists Hi. destruct (sweep_spec f0 bs inv Hchain iv_placed inv_shape (simplify_at types)) with (f := f) (lists := lists)
      as (c & f' & lists' & E & Hinv' & Hc); [intros; by apply simplify_visits|done|].
    exists c, f', lists'. split; [done|]. split; [done|]. destruct c; [done|by destruct Hc]. }
  destruct (until_stable_spec inv _ f0 lists0 Hround Hinv) as (c & f' & lists' & E & Hinv' & Hc & _ & Hfix).
  by exists c, f', lists'.
Qed.
End Pass.

(** The room the pass needs: 32-bit ids for the values and one constant per instruction. *)
Record ready (types : TypeTable) (pw : Z) (f : Function) (bs : list BlockId) (lists : BlockId -> list InstId) : Prop := {
  rd_types : has_predefined types;
  rd_verified : verified types pw f;
  rd_placed : placed f lists;
  rd_chained : chained f bs;
  rd_room : size (values_ f) + size (insts_ f) <= 2 ^ 32 }.

Lemma ready_inv types pw f bs lists rho : ready types pw f bs lists -> consistent types pw f rho ->
  inv types pw f lists rho f lists.
Proof.
  intros [H1 H2 H3 H4 H5] Hc. pose proof (live_bound f). split; [done|done| |lia|done|].
  - exists id, rho. split; [by apply renames_id; auto|]. split; [by intros a _|done].
  - intros b i Hin Hout. done.
Qed.

(** Claim C9: Simplification keeps what the function computes: from a function
    the verifier accepts, the pass gives one it accepts, with the same instructions
    in the same blocks but for the removed ones, and with each operand renamed to one
    of the same type; and every valuation consistent with the instructions before
    extends to one consistent with the instructions after, in which every operand
    has the value of the operand it stands for. *)
Theorem instsimplify_keeps_values (types : TypeTable) (pw : Z) (f : Function) (bs : list BlockId)
    (lists : BlockId -> list InstId) (rho : ValueId -> rvalue)
    (Hready : ready types pw f bs lists) (Hrho : consistent types pw f rho) :
  exists changed f' lists', run_instsimplify types f = Some (changed, f') /\
    verified types pw f' /\ placed f' lists' /\ chained f' bs /\
    (forall b, lists' b `sublist_of` lists b) /\
    (exists renamed rho', renames types renamed f f' /\ consistent types pw f' rho' /\
       forall v, is_Some (value f v) -> rho' v = rho v /\ rho' (renamed v) = rho v).
Proof.
  pose proof (ready_inv _ _ _ _ _ _ Hready Hrho) as Hinv. destruct Hready as [H1 H2 H3 H4 H5].
  destruct (run_spec types pw f bs lists rho H1 H4 Hinv) as (c & f' & lists' & E & [V P (s & rho' & R & K & C) _ S _] & _).
  exists c, f', lists'. split_and!; try done.
  - apply (shape_chained f); [apply R|done].
  - by exists s, rho'.
Qed.

(** Claim C38: The pass finishes, within a round per instruction, and with nothing left
    to do: run again, it changes nothing. What it removes has no effects, is not
    volatile, and is used by nothing; when it reports no change, there is none. *)
Theorem instsimplify_finishes (types : TypeTable) (pw : Z) (f : Function) (bs : list BlockId)
    (lists : BlockId -> list InstId) (rho : ValueId -> rvalue)
    (Hready : ready types pw f bs lists) (Hrho : consistent types pw f rho) :
  exists changed f' lists', run_instsimplify types f = Some (changed, f') /\ placed f' lists' /\
    (changed = false -> f' = f) /\
    run_instsimplify types f' = Some (false, f') /\
    (forall b i, i ∈ lists b -> i ∉ lists' b -> exists d, inst f i = Some d /\
       opcode_has_side_effects (op d) = false /\ Z.land (flags d) INST_FLAG_VOLATILE = 0 /\
       result d ∉ operand_pool_ f').
Proof.
  pose proof (ready_inv _ _ _ _ _ _ Hready Hrho) as Hinv. destruct Hready as [H1 H2 H3 H4 H5].
  destruct (run_spec types pw f bs lists rho H1 H4 Hinv) as (c & f' & lists' & E & [_ P _ _ _ R] & Hc & Hfix).
  exists c, f', lists'. split_and!; try done. intros b i Hin Hout.
  destruct (R b i Hin Hout) as (d & Hd & A & _ & B & D). by exists d.
Qed.

(** ** An example *)

Definition add_value (b : BlockId) (op : Opcode) (type : TypeId) (ops : list ValueId) (f : Function)
    : option (ValueId * Function) :=
  '(i, f) ← make_inst op type ops 0 0 0 f; f ← append_inst b i f; d ← inst f i; Some (result d, f).

(** [return (x + 0) + 2 * 3]. *)
Definition sample_sum : option Function :=
  '(b, f) ← create_block [I32] new_function; ps ← block_params f b; x ← at_ ps 0;
  '(zero, f) ← const_int I32 0 0 f; '(two, f) ← const_int I32 2 0 f; '(three, f) ← const_int I32 3 0 f;
  '(v, f) ← add_value b Op_Iadd I32 [x; zero] f; '(w, f) ← add_value b Op_Imul I32 [two; three] f;
  '(r, f) ← add_value b Op_Iadd I32 [v; w] f; '(_, f) ← make_inst Op_Ret 0 [r] 0 0 0 f; append_inst b 4 f.
Definition sum_function : Function := match sample_sum with Some f => f | None => new_function end.
Definition sum_values (v : ValueId) : rvalue :=
  RInt (nth (Z.to_nat v) [0; 7; 0; 2; 3; 7; 6; 13] 0).
Definition sum_lists (b : BlockId) : list InstId := if b =? 1 then [1; 2; 3; 4] else [].

(** A property of the ids of an arena, one by one. *)
Lemma each_id {A} (v : list A) (P : Z -> Prop) : Forall P (seqZ 0 (size v)) -> forall i, 0 <= i < size v -> P i.
Proof. intros H i Hi. rewrite Forall_forall in H. apply H, list_elem_of_In, elem_of_seqZ. lia. Qed.
Ltac by_id :=
  refine (each_id _ _ _);
  match goal with |- Forall ?P ?l => let l' := eval vm_compute in l in change (Forall P l') end;
  repeat (apply Forall_cons; [cbv beta|]); [..|apply Forall_nil].

Lemma sum_function_ready : ready initial_table 64 sum_function [1] sum_lists.
Proof.
  split.
  - destruct new_table_ok as (t & E & _ & H). unfold initial_table. intros entry Hin. rewrite E. by apply H.
  - split.
    + intros v d Hd. pose proof (value_lt _ _ _ Hd) as [Hv _]. revert d Hd. assert (Hr : 0 <= v < size (values_ sum_function)) by lia.
      clear Hv. revert v Hr. by_id; intros d Hd; vm_compute in Hd; try discriminate Hd; injection Hd as <-;
        cbn [value_kind]; try discriminate; intros _; (split; [vm_compute; reflexivity|]); eexists; (split; [vm_compute; reflexivity|]);
        split; reflexivity.
    + intros i d Hd. pose proof (inst_lt _ _ _ Hd) as [Hv _]. revert d Hd. assert (Hr : 0 <= i < size (insts_ sum_function)) by lia.
      clear Hv. revert i Hr. by_id; intros d Hd; vm_compute in Hd; try discriminate Hd; injection Hd as <-;
        cbn [op]; try discriminate; intros _; eexists; (split; [vm_compute; reflexivity|split; reflexivity]).
  - apply placed_check_ok. vm_compute. reflexivity.
  - apply chained_check_ok. vm_compute. reflexivity.
  - vm_compute. discriminate.
Qed.

Lemma sum_values_consistent : consistent initial_table 64 sum_function sum_values.
Proof.
  split; intros v d; intros *; intros Hd; pose proof (value_lt _ _ _ Hd) as [Hv _]; revert d Hd;
    assert (Hr : 0 <= v < size (values_ sum_function)) by lia; clear Hv; revert v Hr;
    by_id; intros d Hd; vm_compute in Hd; try discriminate Hd; injection Hd as <-; intros Hty; vm_compute in Hty;
    try discriminate Hty.
  1-7: injection Hty as <-; intros _; vm_compute; split; [discriminate|reflexivity].
  1-7: injection Hty as <-; intros Hr; vm_compute in Hr; try discriminate Hr; injection Hr as <-; reflexivity.
  all: intros Hr; vm_compute in Hr; injection Hr as <-; reflexivity.
Qed.

Lemma instsimplify_keeps_values_witness : exists f' renamed rho',
  run_instsimplify initial_table sum_function = Some (true, f') /\ operand_pool_ f' = [1; 2; 3; 4; 1; 8; 7] /\
  renames initial_table renamed sum_function f' /\ consistent initial_table 64 f' rho' /\ rho' 8 = RInt 6 /\ rho' 7 = RInt 13.
Proof.
  destruct (instsimplify_keeps_values initial_table 64 sum_function [1] sum_lists sum_values sum_function_ready sum_values_consistent)
    as (c & f' & lists' & E & Hver & Hpl & Hch & Hsub & renamed & rho' & Hren & Hcons & Hkeep).
  assert (Hf : exists g, run_instsimplify initial_table sum_function = Some (true, g) /\
    operand_pool_ g = [1; 2; 3; 4; 1; 8; 7] /\ value g 8 = Some (mkValue ConstInt I32 6 0)).
  { eexists. split; [vm_compute; reflexivity|]. split; reflexivity. }
  destruct Hf as (g & Eg & Hp & H8). rewrite Eg in E. injection E as <- <-. exists g, renamed, rho'.
  split; [exact Eg|]. split; [exact Hp|]. split; [exact Hren|]. split; [exact Hcons|]. split.
  - destruct new_table_ok as (t & Et & _ & Ht). eapply (cs_const _ _ _ _ Hcons 8 _ (mkType Kind_Int F64 32 0)); [exact H8| |reflexivity].
    unfold initial_table. rewrite Et. apply (Ht (mkType Kind_Int F64 32 0, I32)). right; right; right; left.
  - apply (Hkeep 7). vm_compute. by eexists.
Defined.

Lemma instsimplify_finishes_witness : exists f',
  run_instsimplify initial_table sum_function = Some (true, f') /\ inst_ids f' 1 = Some [3; 4] /\
  run_instsimplify initial_table f' = Some (false, f').
Proof.
  destruct (instsimplify_finishes initial_table 64 sum_function [1] sum_lists sum_values sum_function_ready sum_values_consistent)
    as (c & f' & lists' & E & Hpl & Hc & Hagain & Hremoved).
  assert (Hf : exists g, run_instsimplify initial_table sum_function = Some (true, g) /\ inst_ids g 1 = Some [3; 4]).
  { eexists. split; vm_compute; reflexivity. }
  destruct Hf as (g & Eg & Hl). rewrite Eg in E. injection E as <- <-. exists g.
  split; [exact Eg|]. split; [exact Hl|exact Hagain].
Defined.
