(* ===== verification/Mir.v ===== *)
(** * The machine code of the backends (src/backend/common/mir.h, src/backend/common/regalloc.h)

    A function is a list of blocks of target instructions whose operands are
    registers, immediates, frame objects, symbols and labels. Registers are virtual
    until a register allocator replaces them; what an allocator knows of a target
    is a [TargetRegInfo] and the facts [RegAllocOpcodeInfo] of each opcode. Of an
    [MFunction], the fields the allocators do not read are left out: names, linkage,
    call frame data and exception tables. *)
From S2P Require Import Prelude Vectors.
Open Scope Z_scope.

(** ** Registers *)

(** A register is the word [MReg::value], whose top bit marks a virtual one. *)
Definition MReg := Z.
Definition kVirtualBit : Z := 0x80000000.
Definition phys (index : Z) : MReg := index.
Definition vreg (index : Z) : MReg := Z.lor index kVirtualBit.
Definition is_virtual (r : MReg) : bool := negb (Z.land r kVirtualBit =? 0).
Definition index (r : MReg) : Z := Z.land r (unot 32 kVirtualBit).

Inductive RegClass := Gpr | Fpr | Fpr128.
#[export] Instance reg_class_eq_dec : EqDecision RegClass.
Proof. solve_decision. Defined.

(** ** Operands, instructions, functions *)

Inductive MOperandKind := Reg | Imm | FrameIndex | Symbol | Label.
#[export] Instance operand_kind_eq_dec : EqDecision MOperandKind.
Proof. solve_decision. Defined.
Inductive SymFlavor := Plain | Page | PageOff | GotPage | GotPageOff | GotPcRel | TlvPage | TlvPageOff | TlvPcRel.
#[export] Instance sym_flavor_eq_dec : EqDecision SymFlavor.
Proof. solve_decision. Defined.

Record MOperand := mkOperand {
  kind : MOperandKind; reg : MReg; imm : Z; frame_index : Z; symbol : chars; flavor : SymFlavor; addend : Z; label : Z }.
#[export] Instance operand_eq_dec : EqDecision MOperand.
Proof. solve_decision. Defined.
Definition default_operand : MOperand := mkOperand Imm 0 0 0 [] Plain 0 0.
Definition make_reg (r : MReg) : MOperand := mkOperand Reg r 0 0 [] Plain 0 0.
Definition make_imm (value : Z) : MOperand := mkOperand Imm 0 value 0 [] Plain 0 0.
Definition make_frame (i : Z) (displacement : Z) : MOperand := mkOperand FrameIndex 0 displacement i [] Plain 0 0.
Definition make_symbol (name : chars) (f : SymFlavor) (a : Z) : MOperand := mkOperand Symbol 0 0 0 name f a 0.
Definition make_label (block_index : Z) : MOperand := mkOperand Label 0 0 0 [] Plain 0 block_index.
(** [operand.reg = r] *)
Definition set_reg (r : MReg) (o : MOperand) : MOperand :=
  mkOperand (kind o) r (imm o) (frame_index o) (symbol o) (flavor o) (addend o) (label o).

Record MInst := mkMInst { opcode : Z; maux : Z; operands : list MOperand }.
#[export] Instance inst_eq_dec : EqDecision MInst.
Proof. solve_decision. Defined.
Record MBlock := mkMBlock { insts : list MInst; address_taken : bool; succs : list Z }.
Record FrameObject := mkObject { object_size : Z; align : Z }.

Record MFunction := mkMFunction {
  blocks : list MBlock; frame_objects : list FrameObject; vreg_classes : list RegClass; used_csrs : list Z;
  word_bytes : Z }.

Definition new_vreg (cls : RegClass) (f : MFunction) : Z * MFunction :=
  (u32 (u32 (size (vreg_classes f) + 1) - 1),
   mkMFunction (blocks f) (frame_objects f) (vreg_classes f ++ [cls]) (used_csrs f) (word_bytes f)).
Definition new_frame_object (bytes alignment : Z) (objects : list FrameObject) : Z * list FrameObject :=
  (u32 (u32 (size objects + 1) - 1), objects ++ [mkObject bytes alignment]).

(** ** What an allocator knows of the target *)

Record TargetRegInfo := mkRegInfo {
  gpr_order : list Z; fpr_order : list Z; is_callee_saved : Z -> bool; reg_class : Z -> RegClass;
  linear_gpr_caller : list Z; linear_gpr_callee : list Z; linear_fpr_caller : list Z; linear_fpr_callee : list Z;
  linear_gpr_scratch : list Z; linear_fpr_scratch : list Z }.

Record RegAllocOpcodeInfo := mkOpcodeInfo { defines_operand0 : bool; reads_operand0 : bool; is_call : bool }.

(** The opcodes of spills and reloads, which each target registers. *)
Record SpillHooks := mkHooks {
  store_gpr : Z; load_gpr : Z; store_fpr : Z; load_fpr : Z; store_fpr128 : Z; load_fpr128 : Z }.
Definition regalloc_spill_opcode (hooks : SpillHooks) (cls : RegClass) : Z :=
  match cls with Gpr => store_gpr hooks | Fpr => store_fpr hooks | Fpr128 => store_fpr128 hooks end.
Definition regalloc_reload_opcode (hooks : SpillHooks) (cls : RegClass) : Z :=
  match cls with Gpr => load_gpr hooks | Fpr => load_fpr hooks | Fpr128 => load_fpr128 hooks end.

(** ** Registers: lemmas *)

Lemma index_vreg i : 0 <= i < 2 ^ 31 -> index (vreg i) = i.
Proof.
  intros Hi. unfold index, vreg. apply Z.bits_inj'. intros n Hn. rewrite Z.land_spec, Z.lor_spec.
  change (unot 32 kVirtualBit) with (Z.ones 31). rewrite Z.testbit_ones by lia.
  change kVirtualBit with (2 ^ 31). rewrite Z.pow2_bits_eqb by lia.
  destruct (Z.ltb_spec n 31).
  - destruct (Z.eqb_spec 31 n); [lia|]. destruct (Z.leb_spec 0 n); [|lia]. by rewrite orb_false_r, andb_true_r.
  - rewrite (word_testbit_high 31 i) by (unfold word; lia). by rewrite andb_false_r, andb_false_r.
Qed.
Lemma is_virtual_bit r : is_virtual r = Z.testbit r 31.
Proof. unfold is_virtual. change kVirtualBit with (2 ^ 31). apply land_pow2_testbit. lia. Qed.
Lemma is_virtual_phys i : 0 <= i < 2 ^ 31 -> is_virtual (phys i) = false.
Proof. intros Hi. rewrite is_virtual_bit. apply (word_testbit_high 31); [lia| |lia]. done. Qed.
Lemma index_phys i : 0 <= i < 2 ^ 31 -> index (phys i) = i.
Proof.
  intros Hi. unfold index, phys. change (unot 32 kVirtualBit) with (Z.ones 31). rewrite Z.land_ones by lia.
  by apply Z.mod_small.
Qed.
Lemma index_range r : 0 <= index r < 2 ^ 31.
Proof. unfold index. change (unot 32 kVirtualBit) with (Z.ones 31). rewrite Z.land_ones by lia. apply Z.mod_pos_bound. lia. Qed.
