(* ===== verification/Liveness.v ===== *)
(** * Liveness of virtual registers (src/backend/common/regalloc_linear.cpp)

    The first half of the linear-scan allocator: what each instruction reads and
    defines, the registers used before a definition and those defined in each
    block, and the iteration of the dataflow equations over sets of registers
    stored as rows of 64-bit words. The iteration is proved to end, and with the
    least sets that satisfy the equations. *)
From S2P Require Import Prelude Vectors Mir.
Open Scope Z_scope.

Definition kNoReg : Z := unot 32 0.

(** ** What an instruction reads and defines *)

Record InstRegs := mkInstRegs { def_vreg : Z; def_also_read : bool; use_vregs : list Z }.

Definition classify_operand (info : RegAllocOpcodeInfo) (i : Z) (operand : MOperand) (regs : InstRegs) : InstRegs :=
  if negb (bool_decide (kind operand = Reg)) || negb (is_virtual (reg operand)) then regs
  else
    let v := index (reg operand) in
    if (i =? 0) && defines_operand0 info then mkInstRegs v (reads_operand0 info) (use_vregs regs)
    else mkInstRegs (def_vreg regs) (def_also_read regs) (use_vregs regs ++ [v]).
Fixpoint classify_from (info : RegAllocOpcodeInfo) (i : Z) (ops : list MOperand) (regs : InstRegs) : InstRegs :=
  match ops with
  | [] => regs
  | operand :: ops => classify_from info (i + 1) ops (classify_operand info i operand regs)
  end.
Definition classify_inst (inst : MInst) (info : RegAllocOpcodeInfo) : InstRegs :=
  classify_from info 0 (operands inst) (mkInstRegs kNoReg false []).

(** ** Sets of registers as rows of words *)

Definition row_words (vreg_count : Z) : Z := (vreg_count + 63) / 64.
Definition set_bit (words : Z) (set : list Z) (block v : Z) : option (list Z) :=
  modify set (block * words + v / 64) (fun w => Z.lor w (u64 (Z.shiftl 1 (v mod 64)))).
Definition test_bit (words : Z) (set : list Z) (block v : Z) : option bool :=
  w ← at_ set (block * words + v / 64); Some (negb (Z.land (Z.shiftr w (v mod 64)) 1 =? 0)).

(** ** The uses and definitions of a block *)

Definition gather_use (words b v : Z) (sets : list Z * list Z) : option (list Z * list Z) :=
  let '(use, def) := sets in
  d ← test_bit words def b v;
  if (d : bool) then Some (use, def) else use ← set_bit words use b v; Some (use, def).
Definition gather_inst (opcode_info : Z -> RegAllocOpcodeInfo) (words b : Z) (inst : MInst) (sets : list Z * list Z)
    : option (list Z * list Z) :=
  let iregs := classify_inst inst (opcode_info (opcode inst)) in
  sets ← for_each (gather_use words b) (use_vregs iregs) sets;
  if def_vreg iregs =? kNoReg then Some sets
  else
    '(use, def) ← (if def_also_read iregs then gather_use words b (def_vreg iregs) sets else Some sets);
    def ← set_bit words def b (def_vreg iregs);
    Some (use, def).
Definition gather_block (opcode_info : Z -> RegAllocOpcodeInfo) (words : Z) (blocks : list MBlock) (b : Z)
    (sets : list Z * list Z) : option (list Z * list Z) :=
  block ← at_ blocks b; for_each (gather_inst opcode_info words b) (insts block) sets.
Definition gather (opcode_info : Z -> RegAllocOpcodeInfo) (words : Z) (blocks : list MBlock) : option (list Z * list Z) :=
  let none := replicate (Z.to_nat (size blocks * words)) 0 in
  for_each (gather_block opcode_info words blocks) (seqZ 0 (size blocks)) (none, none).

(** ** The dataflow iteration *)

Record Flow := mkFlow { changed : bool; live_in : list Z; live_out : list Z }.

Definition merge_word (words bi succ w : Z) (s : Flow) : option Flow :=
  out ← at_ (live_out s) (bi * words + w);
  succ_in ← at_ (live_in s) (succ * words + w);
  let merged := Z.lor out succ_in in
  if merged =? out then Some s else Some (mkFlow true (live_in s) (put (live_out s) (bi * words + w) merged)).
Definition compute_word (words : Z) (use def : list Z) (bi w : Z) (s : Flow) : option Flow :=
  u ← at_ use (bi * words + w);
  d ← at_ def (bi * words + w);
  out ← at_ (live_out s) (bi * words + w);
  current ← at_ (live_in s) (bi * words + w);
  let computed := Z.lor u (Z.land out (unot 64 d)) in
  if computed =? current then Some s else Some (mkFlow true (put (live_in s) (bi * words + w) computed) (live_out s)).
Definition flow_block (words : Z) (use def : list Z) (blocks : list MBlock) (bi : Z) (s : Flow) : option Flow :=
  block ← at_ blocks bi;
  s ← for_each (fun succ => for_each (merge_word words bi succ) (seqZ 0 words)) (succs block) s;
  for_each (compute_word words use def bi) (seqZ 0 words) s.
Definition flow_round (words : Z) (use def : list Z) (blocks : list MBlock) (s : Flow) : option Flow :=
  for_each (flow_block words use def blocks) (rev (seqZ 0 (size blocks))) (mkFlow false (live_in s) (live_out s)).
Fixpoint flow_rounds (words : Z) (use def : list Z) (blocks : list MBlock) (fuel : nat) (s : Flow) : option Flow :=
  match fuel with
  | O => None
  | S fuel =>
      s ← flow_round words use def blocks s;
      if changed s then flow_rounds words use def blocks fuel s else Some s
  end.
(** A round that changes something sets one of the bits of the two sets. *)
Definition liveness (opcode_info : Z -> RegAllocOpcodeInfo) (blocks : list MBlock) (vreg_count : Z) : option Flow :=
  let words := row_words vreg_count in
  '(use, def) ← gather opcode_info words blocks;
  let none := replicate (Z.to_nat (size blocks * words)) 0 in
  flow_rounds words use def blocks (S (Z.to_nat (128 * (size blocks * words)))) (mkFlow true none none).

(** ** Sets of registers: lemmas *)

(** [v] is in the set of block [b]. *)
Definition has (words : Z) (set : list Z) (b v : Z) : bool :=
  match at_ set (b * words + v / 64) with Some w => Z.testbit w (v mod 64) | None => false end.
Definition matrix (n words : Z) (set : list Z) : Prop := size set = n * words /\ Forall (word 64) set.

Lemma cell_range n words b w : 0 <= b < n -> 0 <= w < words -> 0 <= b * words + w < n * words.
Proof. nia. Qed.
Lemma cell_inj words b w b' w' : 0 <= w < words -> 0 <= w' < words -> b * words + w = b' * words + w' -> b = b' /\ w = w'.
Proof. intros H H' E. assert (b = b') by nia. split; [done|]. subst. lia. Qed.
Lemma word_index words v : 0 <= v < 64 * words -> 0 <= v / 64 < words.
Proof. intros Hv. split; [apply Z.div_pos; lia|apply Z.div_lt_upper_bound; lia]. Qed.

Lemma matrix_at n words set b w : matrix n words set -> 0 <= b < n -> 0 <= w < words ->
  exists x, at_ set (b * words + w) = Some x /\ word 64 x.
Proof.
  intros [Hs Hw] Hb Hi. destruct (proj2 (at_is_Some set (b * words + w))) as [x Hx].
  { rewrite Hs. by apply cell_range. }
  exists x. split; [done|]. rewrite Forall_forall in Hw. apply Hw, list_elem_of_In. by eapply at_elem.
Qed.
Lemma matrix_put n words set i x : matrix n words set -> word 64 x -> matrix n words (put set i x).
Proof.
  intros [Hs Hw] Hx. split; [by rewrite size_put|]. unfold put. destruct (_ <? _); [done|]. by apply Forall_insert.
Qed.
Lemma matrix_none n words : 0 <= n * words -> matrix n words (replicate (Z.to_nat (n * words)) 0).
Proof. intros H. split; [rewrite size_replicate; lia|]. by apply Forall_replicate. Qed.
Lemma has_none n words b v : has words (replicate n 0) b v = false.
Proof. unfold has. rewrite at_replicate. destruct (decide _); [apply Z.testbit_0_l|done]. Qed.

Lemma test_bit_spec n words set b v : matrix n words set -> 0 <= b < n -> 0 <= v < 64 * words ->
  test_bit words set b v = Some (has words set b v).
Proof.
  intros Hm Hb Hv. destruct (matrix_at n words set b (v / 64) Hm Hb (word_index _ _ Hv)) as (x & Hx & _).
  unfold test_bit, has. rewrite Hx. cbn. f_equal.
  change 1 with (2 ^ 0). rewrite land_pow2_testbit by lia. rewrite Z.shiftr_spec by lia. f_equal.
Qed.
Lemma has_put n words set b w x b' v : matrix n words set -> 0 <= b < n -> 0 <= w < words -> 0 <= b' < n ->
  0 <= v < 64 * words ->
  has words (put set (b * words + w) x) b' v =
  if decide (b = b' /\ w = v / 64) then Z.testbit x (v mod 64) else has words set b' v.
Proof.
  intros [Hs Hw] Hb Hi Hb' Hv. unfold has. rewrite at_put by (rewrite Hs; by apply cell_range).
  destruct (decide (b * words + w = b' * words + v / 64)) as [E|E].
  - apply cell_inj in E; [|done|by apply word_index]. by rewrite decide_True.
  - rewrite decide_False; [done|]. by intros [-> ->].
Qed.
Lemma matrix_set_bit n words set b v : matrix n words set -> 0 <= b < n -> 0 <= v < 64 * words ->
  exists set', set_bit words set b v = Some set' /\ matrix n words set' /\
    forall b' v', 0 <= b' < n -> 0 <= v' < 64 * words ->
      has words set' b' v' = has words set b' v' || bool_decide (b' = b /\ v' = v).
Proof.
  intros Hm Hb Hv. destruct (matrix_at n words set b (v / 64) Hm Hb (word_index _ _ Hv)) as (x & Hx & Hword).
  pose proof (Z.mod_pos_bound v 64 ltac:(lia)) as Hmod.
  assert (Hsh : u64 (Z.shiftl 1 (v mod 64)) = 2 ^ (v mod 64)).
  { rewrite Z.shiftl_1_l. apply uwrap_small. split; [apply Z.pow_nonneg; lia|apply pow2_lt; lia]. }
  unfold set_bit. rewrite (modify_some _ _ _ _ Hx), Hsh. eexists. split; [done|]. split.
  - apply matrix_put; [done|]. apply word_lor; [done|done|].
    split; [apply Z.pow_nonneg; lia|apply pow2_lt; lia].
  - intros b' v' Hb' Hv'. rewrite (has_put n) by (first [done|by apply word_index]).
    pose proof (Z.div_mod v 64 ltac:(lia)). pose proof (Z.div_mod v' 64 ltac:(lia)).
    destruct (decide (b = b' /\ v / 64 = v' / 64)) as [[<- E]|Hne].
    + unfold has. rewrite <- E, Hx, Z.lor_spec, Z.pow2_bits_eqb by lia. f_equal.
      destruct (Z.eqb_spec (v mod 64) (v' mod 64)) as [E'|E'].
      * rewrite bool_decide_eq_true_2; [done|]. split; [done|]. lia.
      * rewrite bool_decide_eq_false_2; [done|]. intros [_ ->]. done.
    + rewrite (bool_decide_eq_false_2 (b' = b /\ v' = v)); [by rewrite orb_false_r|]. intros [-> ->]. by apply Hne.
Qed.

(** *** The number of registers in a set *)

Definition pop (w : Z) : Z := size (filter (fun k => Z.testbit w k = true) (seqZ 0 64)).
Fixpoint total (set : list Z) : Z := match set with [] => 0 | w :: set => pop w + total set end.

Lemma filter_count {A} (P Q : A -> Prop) `{!forall x, Decision (P x), !forall x, Decision (Q x)} (l : list A) :
  (forall x, x ∈ l -> P x -> Q x) ->
  size (filter P l) <= size (filter Q l) /\ (size (filter P l) = size (filter Q l) -> forall x, x ∈ l -> Q x -> P x).
Proof.
  induction l as [|x l IH]; intros Hsub; [split; [done|]; by intros _ y ?%elem_of_nil|].
  destruct (IH ltac:(intros y Hy; apply Hsub; by right)) as [Hle Heq]. rewrite !filter_cons.
  assert (Hx : P x -> Q x) by (apply Hsub; left).
  unfold size in *. destruct (decide (P x)), (decide (Q x)); cbn [length]; try tauto.
  - split; [lia|]. intros E y [->|Hy]%elem_of_cons; [done|]. apply Heq; [lia|done].
  - split; [lia|]. intros E. lia.
  - split; [lia|]. intros E y [->|Hy]%elem_of_cons; [done|]. apply Heq; [lia|done].
Qed.
Lemma pop_lt w w' : word 64 w -> word 64 w' -> w <> w' ->
  (forall k, 0 <= k < 64 -> Z.testbit w k = true -> Z.testbit w' k = true) -> pop w < pop w'.
Proof.
  intros Hw Hw' Hne Hsub. unfold pop.
  destruct (filter_count (fun k => Z.testbit w k = true) (fun k => Z.testbit w' k = true) (seqZ 0 64)) as [Hle Heq].
  { intros k Hk%elem_of_seqZ. apply Hsub. lia. }
  destruct (Z.eq_dec (size (filter (fun k => Z.testbit w k = true) (seqZ 0 64)))
    (size (filter (fun k => Z.testbit w' k = true) (seqZ 0 64)))) as [E|]; [|lia].
  destruct Hne. apply Z.bits_inj'. intros k Hk. destruct (Z.lt_ge_cases k 64).
  - pose proof (Heq E k ltac:(apply elem_of_seqZ; lia)) as Hb. pose proof (Hsub k ltac:(lia)) as Ha. cbv beta in Hb.
    destruct (Z.testbit w k), (Z.testbit w' k); intuition congruence.
  - by rewrite !(word_testbit_high 64).
Qed.
Lemma pop_range w : 0 <= pop w <= 64.
Proof.
  unfold pop, size. pose proof (length_filter (fun k => Z.testbit w k = true) (seqZ 0 64)). rewrite length_seqZ in *. lia.
Qed.
Lemma total_put set i w w' : at_ set i = Some w -> total (put set i w') = total set - pop w + pop w'.
Proof.
  unfold at_, put. destruct (i <? 0); [done|]. generalize (Z.to_nat i). clear i.
  induction set as [|x set IH]; intros [|i]; cbn [lookup list_lookup]; try done.
  - intros [= ->]. cbn. lia.
  - intros Hi. change (<[S i:=w']> (x :: set)) with (x :: <[i:=w']> set). cbn [total]. rewrite (IH _ Hi). lia.
Qed.
Lemma total_range set : 0 <= total set <= 64 * size set.
Proof.
  unfold size. induction set as [|w set IH]; cbn [total length]; [lia|]. pose proof (pop_range w). lia.
Qed.

(** ** What is live *)

Definition reads (info : RegAllocOpcodeInfo) (inst : MInst) (v : Z) : Prop :=
  v ∈ use_vregs (classify_inst inst info) \/
  def_also_read (classify_inst inst info) = true /\ def_vreg (classify_inst inst info) = v.
Definition defines (info : RegAllocOpcodeInfo) (inst : MInst) (v : Z) : Prop := def_vreg (classify_inst inst info) = v.
#[export] Instance defines_dec info inst v : Decision (defines info inst v).
Proof. unfold defines. apply _. Defined.

(** The virtual registers among some operands, and those of an instruction. *)
Definition virtual_operand (o : MOperand) : bool := bool_decide (kind o = Reg) && is_virtual (reg o).
Definition virtuals (ops : list MOperand) : list Z := map (fun o => index (reg o)) (filter virtual_operand ops).

Lemma classify_operand_virtual info i o regs : classify_operand info i o regs =
  if virtual_operand o then
    if (i =? 0) && defines_operand0 info then mkInstRegs (index (reg o)) (reads_operand0 info) (use_vregs regs)
    else mkInstRegs (def_vreg regs) (def_also_read regs) (use_vregs regs ++ [index (reg o)])
  else regs.
Proof. unfold classify_operand, virtual_operand. by destruct (bool_decide _), (is_virtual _). Qed.
Lemma virtuals_cons o ops : virtuals (o :: ops) = if virtual_operand o then index (reg o) :: virtuals ops else virtuals ops.
Proof. unfold virtuals. rewrite filter_cons. destruct (virtual_operand o); by destruct (decide _). Qed.
Lemma classify_rest info i ops regs : 0 < i ->
  classify_from info i ops regs = mkInstRegs (def_vreg regs) (def_also_read regs) (use_vregs regs ++ virtuals ops).
Proof.
  revert i regs. induction ops as [|o ops IH]; intros i regs Hi; cbn [classify_from].
  { cbn. rewrite app_nil_r. by destruct regs. }
  rewrite IH, classify_operand_virtual, virtuals_cons by lia. rewrite (proj2 (Z.eqb_neq i 0)) by lia. cbn [andb].
  destruct (virtual_operand o); [|done]. cbn. by rewrite <- app_assoc.
Qed.

(** The definition comes from the first operand, the uses from the others or all. *)
Definition defines_first (info : RegAllocOpcodeInfo) (inst : MInst) : bool :=
  match operands inst with
  | o :: _ => virtual_operand o && defines_operand0 info
  | [] => false
  end.
Lemma classify_spec info inst :
  classify_inst inst info =
    match operands inst with
    | o :: ops =>
        if virtual_operand o && defines_operand0 info
        then mkInstRegs (index (reg o)) (reads_operand0 info) (virtuals ops)
        else mkInstRegs kNoReg false (virtuals (o :: ops))
    | [] => mkInstRegs kNoReg false []
    end.
Proof.
  unfold classify_inst. destruct (operands inst) as [|o ops]; [done|]. cbn [classify_from].
  rewrite classify_rest, classify_operand_virtual, virtuals_cons by lia. cbn [Z.eqb andb].
  destruct (virtual_operand o); cbn; [|done]. by destruct (defines_operand0 info).
Qed.
Lemma use_virtual info inst v : v ∈ use_vregs (classify_inst inst info) -> v ∈ virtuals (operands inst).
Proof.
  rewrite classify_spec. destruct (operands inst) as [|o ops]; [done|]. rewrite virtuals_cons.
  destruct (virtual_operand o) eqn:Ho; cbn [andb].
  - destruct (defines_operand0 info); cbn [use_vregs]; [by right|done].
  - done.
Qed.
Lemma def_virtual info inst : def_vreg (classify_inst inst info) = kNoReg \/
  def_vreg (classify_inst inst info) ∈ virtuals (operands inst).
Proof.
  rewrite classify_spec. destruct (operands inst) as [|o ops]; [by left|]. rewrite virtuals_cons.
  destruct (virtual_operand o); [|by left]. destruct (defines_operand0 info); [|by left]. right. left.
Qed.

(** *** Blocks *)

Section Live.
Context (opcode_info : Z -> RegAllocOpcodeInfo) (blocks : list MBlock) (vreg_count : Z).
Abbreviation info_of inst := (opcode_info (opcode inst)).

Definition defined (l : list MInst) (v : Z) : Prop := exists inst, inst ∈ l /\ defines (info_of inst) inst v.
(** [v] is read before any definition. *)
Definition exposed (l : list MInst) (v : Z) : Prop :=
  exists pre inst post, l = pre ++ inst :: post /\ reads (info_of inst) inst v /\ ~ defined pre v.

(** A value is live at the entry of a block when a path leads from there to a read
    before any definition. *)
Inductive live_at_entry : Z -> Z -> Prop :=
  | live_use b block v : at_ blocks b = Some block -> exposed (insts block) v -> live_at_entry b v
  | live_through b block succ v : at_ blocks b = Some block -> ~ defined (insts block) v -> succ ∈ succs block ->
      live_at_entry succ v -> live_at_entry b v.
Definition live_at_exit (b v : Z) : Prop :=
  exists block succ, at_ blocks b = Some block /\ succ ∈ succs block /\ live_at_entry succ v.

Lemma defined_snoc l inst v : defined (l ++ [inst]) v <-> defined l v \/ defines (info_of inst) inst v.
Proof using.
  unfold defined. split.
  - intros (i & [Hi| ->%list_elem_of_singleton]%elem_of_app & Hd); [left; by exists i|by right].
  - intros [(i & Hi & Hd)|Hd]; [exists i|exists inst]; (split; [|done]); apply elem_of_app; [by left|right; left].
Qed.
Lemma defined_nil v : ~ defined [] v.
Proof using. by intros (i & ?%elem_of_nil & _). Qed.
Lemma exposed_nil v : ~ exposed [] v.
Proof using. intros (pre & i & post & E & _). by destruct pre. Qed.
Lemma exposed_snoc l inst v :
  exposed (l ++ [inst]) v <-> exposed l v \/ reads (info_of inst) inst v /\ ~ defined l v.
Proof using.
  split.
  - intros (pre & i & post & E & Hr & Hd). destruct post as [|x post' _] using rev_ind.
    + apply app_inj_tail in E as [-> ->]. by right.
    + left. exists pre, i, post'. split; [|done].
      change (pre ++ i :: post' ++ [x]) with (pre ++ (i :: post') ++ [x]) in E. rewrite app_assoc in E.
      by apply app_inj_tail in E as [-> _].
  - intros [(pre & i & post & -> & Hr & Hd)|[Hr Hd]].
    + exists pre, i, (post ++ [inst]). split_and!; try done. by rewrite <- app_assoc.
    + by exists l, inst, [].
Qed.

(** What the liveness computation needs of a function. *)
Record wf_blocks : Prop := {
  wf_count : 0 <= vreg_count <= 2 ^ 31;
  wf_vregs : forall block inst v, block ∈ blocks -> inst ∈ insts block -> v ∈ virtuals (operands inst) -> 0 <= v < vreg_count;
  wf_succs : forall block s, block ∈ blocks -> s ∈ succs block -> 0 <= s < size blocks }.
Hypothesis Hwf : wf_blocks.
Abbreviation n := (size blocks).
Abbreviation words := (row_words vreg_count).

Lemma words_enough v : 0 <= v < vreg_count -> 0 <= v < 64 * words.
Proof using. unfold row_words. intros Hv. split; [lia|].
  pose proof (Z.div_mod (vreg_count + 63) 64 ltac:(lia)). pose proof (Z.mod_pos_bound (vreg_count + 63) 64 ltac:(lia)). lia.
Qed.
Lemma words_nonneg : 0 <= words.
Proof using Hwf opcode_info. pose proof (wf_count Hwf). unfold row_words. apply Z.div_pos; lia. Qed.
Lemma cells_nonneg : 0 <= n * words.
Proof using Hwf opcode_info. pose proof words_nonneg. pose proof (size_nonneg blocks). lia. Qed.

(** *** The uses and definitions of a block *)

Definition gathered (use def : list Z) (b : Z) (l : list MInst) : Prop :=
  forall v, 0 <= v < vreg_count -> (has words use b v = true <-> exposed l v) /\ (has words def b v = true <-> defined l v).
Definition rows_ok (use def : list Z) : Prop := matrix n words use /\ matrix n words def.
(** The rows of other blocks are as they were. *)
Definition others (b : Z) (sets sets' : list Z * list Z) : Prop :=
  forall b' v, 0 <= b' < n -> b' <> b -> 0 <= v < vreg_count ->
    has words sets'.1 b' v = has words sets.1 b' v /\ has words sets'.2 b' v = has words sets.2 b' v.

Lemma others_trans b s1 s2 s3 : others b s1 s2 -> others b s2 s3 -> others b s1 s3.
Proof using.
  intros H1 H2 b' v Hb Hne Hv. destruct (H1 b' v Hb Hne Hv) as [<- <-], (H2 b' v Hb Hne Hv) as [<- <-]. done.
Qed.
Lemma gather_use_spec b v use def : 0 <= b < n -> 0 <= v < vreg_count -> rows_ok use def ->
  exists use', gather_use words b v (use, def) = Some (use', def) /\ rows_ok use' def /\ others b (use, def) (use', def) /\
    forall v', 0 <= v' < vreg_count ->
      has words use' b v' = has words use b v' || (bool_decide (v' = v) && negb (has words def b v)).
Proof using Hwf opcode_info.
  intros Hb Hv [Hu Hd]. pose proof (words_enough v Hv) as Hvw. unfold gather_use.
  rewrite (test_bit_spec n) by done. cbn [mbind option_bind]. destruct (has words def b v) eqn:E.
  - exists use. split; [done|]. split; [done|]. split; [done|]. intros v' _. by rewrite andb_false_r, orb_false_r.
  - destruct (matrix_set_bit n words use b v Hu Hb Hvw) as (use' & -> & Hu' & Hh). cbn [mbind option_bind].
    exists use'. split; [done|]. split; [done|]. split.
    + intros b' v' Hb' Hne Hv'. cbn. rewrite Hh by (first [done|by apply words_enough]).
      rewrite bool_decide_eq_false_2 by (intros [? _]; done). by rewrite orb_false_r.
    + intros v' Hv'. rewrite Hh by (first [done|by apply words_enough]). rewrite andb_true_r. f_equal.
      apply bool_decide_ext. tauto.
Qed.

Lemma kNoReg_large v : 0 <= v < vreg_count -> v <> kNoReg.
Proof using Hwf opcode_info. pose proof (wf_count Hwf). change kNoReg with (2 ^ 32 - 1). intros Hv. assert (2 ^ 31 < 2 ^ 32 - 1) by done. lia. Qed.

Lemma gather_inst_spec b block inst l use def : 0 <= b < n -> block ∈ blocks -> inst ∈ insts block ->
  rows_ok use def -> gathered use def b l ->
  exists use' def', gather_inst opcode_info words b inst (use, def) = Some (use', def') /\ rows_ok use' def' /\
    others b (use, def) (use', def') /\ gathered use' def' b (l ++ [inst]).
Proof using Hwf opcode_info.
  intros Hb Hblock Hinst Hok Hg. unfold gather_inst. set (iregs := classify_inst inst (info_of inst)).
  assert (Huses : forall v, v ∈ use_vregs iregs -> 0 <= v < vreg_count).
  { intros v Hv. apply (wf_vregs Hwf block inst); [done|done|]. by eapply use_virtual. }
  destruct (for_each_spec (gather_use words b) (fun done sets =>
      sets.2 = def /\ rows_ok sets.1 def /\ others b (use, def) sets /\
      forall v, 0 <= v < vreg_count -> has words sets.1 b v = true <-> exposed l v \/ v ∈ done /\ ~ defined l v)
    (use_vregs iregs) (use, def)) as ([use1 def1] & -> & <- & Hok1 & Ho1 & H1).
  { cbn. split; [done|]. split; [done|]. split; [done|]. intros v Hv. rewrite (proj1 (Hg v Hv)). split; [tauto|].
    intros [?|[?%elem_of_nil _]]; done. }
  { intros l1 v l2 [u d] El (Ed & Hok' & Ho' & Hh'). cbn in Ed, Hok', Hh'. subst d.
    assert (Hv : 0 <= v < vreg_count) by (apply Huses; rewrite El; apply elem_of_app; right; left).
    destruct (gather_use_spec b v u def Hb Hv Hok') as (u' & E & Hok2 & Ho2 & Hh2). exists (u', def). split; [done|].
    split; [done|]. split; [done|]. split; [by eapply others_trans|]. intros v' Hv'. cbn.
    rewrite Hh2, orb_true_iff, Hh', andb_true_iff, bool_decide_eq_true, negb_true_iff by done.
    rewrite elem_of_app, list_elem_of_singleton.
    assert (has words def b v = false <-> ~ defined l v) as ->; [|destruct (decide (v' = v)) as [->|]; tauto].
    rewrite <- (proj2 (Hg v Hv)). symmetry. apply not_true_iff_false. }
  cbn [mbind option_bind].
  assert (Hdef : def_vreg iregs = kNoReg \/ 0 <= def_vreg iregs < vreg_count).
  { destruct (def_virtual (info_of inst) inst) as [E|E]; [by left|right]. by apply (wf_vregs Hwf block inst). }
  destruct (Z.eqb_spec (def_vreg iregs) kNoReg) as [Enone|Edef].
  { exists use1, def1. split; [done|]. split; [done|]. split; [done|]. intros v Hv.
    split.
    - rewrite H1, exposed_snoc by done. cbn. unfold reads. fold iregs. rewrite Enone.
      pose proof (kNoReg_large v Hv). intuition congruence.
    - rewrite (proj2 (Hg v Hv)), defined_snoc. unfold defines. fold iregs. rewrite Enone.
      pose proof (kNoReg_large v Hv). intuition congruence. }
  destruct Hdef as [|Hdv]; [done|]. set (d := def_vreg iregs) in *. cbn in Hok1, H1.
  assert (H2 : exists use2, (if def_also_read iregs then gather_use words b d (use1, def1) else Some (use1, def1)) = Some (use2, def1) /\
    rows_ok use2 def1 /\ others b (use1, def1) (use2, def1) /\ forall v, 0 <= v < vreg_count ->
      has words use2 b v = true <-> exposed (l ++ [inst]) v).
  { destruct (def_also_read iregs) eqn:Er.
    - destruct (gather_use_spec b d use1 def1 Hb Hdv Hok1) as (u' & E & Hok2 & Ho2 & Hh2). exists u'.
      split_and!; try done. intros v Hv. rewrite Hh2, orb_true_iff, H1, exposed_snoc by done. unfold reads. fold iregs d.
      rewrite Er, andb_true_iff, bool_decide_eq_true, negb_true_iff.
      assert (has words def1 b d = false <-> ~ defined l d) as ->; [|destruct (decide (v = d)) as [->|]; intuition congruence].
      rewrite <- (proj2 (Hg d Hdv)). symmetry. apply not_true_iff_false.
    - exists use1. split_and!; try done. intros v Hv. rewrite H1, exposed_snoc by done. unfold reads. fold iregs d.
      rewrite Er. intuition congruence. }
  destruct H2 as (use2 & -> & Hok2 & Ho2 & Hh2). cbn [mbind option_bind].
  destruct (matrix_set_bit n words def1 b d (proj2 Hok2) Hb (words_enough d Hdv)) as (def2 & -> & Hd2 & Hh).
  cbn [mbind option_bind]. exists use2, def2. split; [done|]. split; [split; [apply Hok2|done]|]. split.
  - eapply others_trans; [done|]. eapply others_trans; [done|]. intros b' v Hb' Hne Hv. cbn. split; [done|].
    rewrite Hh by (first [done|by apply words_enough]). rewrite bool_decide_eq_false_2 by (intros [? _]; done).
    by rewrite orb_false_r.
  - intros v Hv. split; [by apply Hh2|]. rewrite Hh by (first [done|by apply words_enough]).
    rewrite orb_true_iff, (proj2 (Hg v Hv)), defined_snoc, bool_decide_eq_true. unfold defines. fold iregs d. intuition congruence.
Qed.

Lemma gather_spec : exists use def, gather opcode_info words blocks = Some (use, def) /\ rows_ok use def /\
  forall b block, at_ blocks b = Some block -> gathered use def b (insts block).
Proof using Hwf opcode_info.
  pose proof cells_nonneg as Hcells. unfold gather. set (none := replicate _ 0).
  destruct (for_each_spec (gather_block opcode_info words blocks) (fun done sets => rows_ok sets.1 sets.2 /\
      forall b block, at_ blocks b = Some block -> gathered sets.1 sets.2 b (if decide (b ∈ done) then insts block else []))
    (seqZ 0 n) (none, none)) as ([use def] & -> & Hok & Hg).
  - split; [split; by apply matrix_none|]. intros b block _. destruct (decide _) as [?%elem_of_nil|_]; [done|].
    intros v _. unfold none. cbn. rewrite !has_none. pose proof (exposed_nil v). pose proof (defined_nil v). intuition discriminate.
  - intros l1 b l2 [use def] El [Hok Hg]. cbn in Hok, Hg.
    assert (Hb : 0 <= b < n) by (assert (b ∈ seqZ 0 n) as ?%elem_of_seqZ by (rewrite El; apply elem_of_app; right; left); lia).
    assert (Hnew : b ∉ l1).
    { intros Hin. pose proof (NoDup_seqZ 0 n) as Hnd. rewrite El in Hnd. apply list.NoDup_app in Hnd as (_ & Hnd & _).
      apply (Hnd b Hin). left. }
    destruct (proj2 (at_is_Some blocks b) Hb) as [block Hblock]. unfold gather_block. rewrite Hblock. cbn [mbind option_bind].
    pose proof (Hg b block Hblock) as Hgb. rewrite decide_False in Hgb by done.
    destruct (for_each_spec (gather_inst opcode_info words b) (fun done sets => rows_ok sets.1 sets.2 /\
        others b (use, def) sets /\ gathered sets.1 sets.2 b done) (insts block) (use, def)) as ([use' def'] & E & Hok' & Ho & Hg').
    + done.
    + intros i1 inst i2 [u d] Ei (Hok1 & Ho1 & Hg1).
      destruct (gather_inst_spec b block inst i1 u d Hb) as (u' & d' & E & Hok2 & Ho2 & Hg2); try done.
      * by eapply at_elem.
      * rewrite Ei. apply elem_of_app. right. left.
      * exists (u', d'). split; [done|]. split; [done|]. split; [by eapply others_trans|done].
    + exists (use', def'). split; [done|]. split; [done|]. intros b' block' Hb'. destruct (decide (b' = b)) as [->|Hne].
      * rewrite decide_True by (apply elem_of_app; right; left). rewrite Hblock in Hb'. by injection Hb' as <-.
      * specialize (Hg b' block' Hb'). intros v Hv. specialize (Hg v Hv).
        destruct (Ho b' v ltac:(by eapply at_lt) Hne Hv) as [E1 E2]. cbn in E1, E2 |- *. rewrite E1, E2.
        assert (Hd : b' ∈ l1 ++ [b] <-> b' ∈ l1) by (rewrite elem_of_app, list_elem_of_singleton; tauto).
        destruct (decide (b' ∈ l1)), (decide (b' ∈ l1 ++ [b])); tauto.
  - exists use, def. split; [done|]. split; [done|]. intros b block Hb. specialize (Hg b block Hb).
    rewrite decide_True in Hg; [done|]. apply elem_of_seqZ. pose proof (at_lt _ _ _ Hb). lia.
Qed.

(** *** The iteration *)

Definition tot (s : Flow) : Z := total (live_in s) + total (live_out s).
Definition step (s s' : Flow) : Prop := s' = s \/ (changed s' = true /\ tot s < tot s').

(** A loop whose body keeps [P], and either changes nothing or adds a bit. When it
    reports no change, each of its iterations has changed nothing. *)
Lemma for_each_step {A} (f : A -> Flow -> option Flow) (P : Flow -> Prop) (Q : A -> Flow -> Prop) l :
  (forall a s, a ∈ l -> P s -> exists s', f a s = Some s' /\ P s' /\ step s s' /\ (changed s' = false -> s' = s /\ Q a s)) ->
  forall s, P s -> exists s', for_each f l s = Some s' /\ P s' /\ step s s' /\
    (changed s' = false -> s' = s /\ forall a, a ∈ l -> Q a s).
Proof using.
  induction l as [|a l IH]; intros Hf s HP.
  { exists s. split; [done|]. split; [done|]. split; [by left|]. split; [done|]. by intros a ?%elem_of_nil. }
  destruct (Hf a s ltac:(left) HP) as (s1 & E1 & HP1 & Hs1 & Hc1). cbn [for_each]. rewrite E1. cbn [mbind option_bind].
  destruct (IH ltac:(intros b t Hb; apply Hf; by right) s1 HP1) as (s2 & E2 & HP2 & Hs2 & Hc2).
  exists s2. split; [done|]. split; [done|]. split.
  - destruct Hs2 as [->|[Hch Hlt]]; [done|]. right. split; [done|]. destruct Hs1 as [->|[_ Hlt1]]; lia.
  - intros Hno. destruct (Hc2 Hno) as [-> Hq]. destruct (Hc1 Hno) as [-> Hqa]. split; [done|].
    intros b [->|Hb]%elem_of_cons; [done|by apply Hq].
Qed.

Section Flow.
Context (use def : list Z).
Hypothesis Hrows : rows_ok use def.
Hypothesis Hgathered : forall b block, at_ blocks b = Some block -> gathered use def b (insts block).

(** The sets found so far are live, and each entry set is within its equation. *)
Record flow_ok (s : Flow) : Prop := {
  fo_in : matrix n words (live_in s);
  fo_out : matrix n words (live_out s);
  fo_live_in : forall b v, 0 <= b < n -> 0 <= v < vreg_count -> has words (live_in s) b v = true -> live_at_entry b v;
  fo_live_out : forall b v, 0 <= b < n -> 0 <= v < vreg_count -> has words (live_out s) b v = true -> live_at_exit b v;
  fo_grow : forall b v, 0 <= b < n -> 0 <= v < 64 * words -> has words (live_in s) b v = true ->
    has words use b v || (has words (live_out s) b v && negb (has words def b v)) = true }.

Lemma has_word set b w x v : at_ set (b * words + w) = Some x -> v / 64 = w -> has words set b v = Z.testbit x (v mod 64).
Proof using. intros Hx <-. unfold has. by rewrite Hx. Qed.

Lemma merge_word_spec bi block succ w s : at_ blocks bi = Some block -> succ ∈ succs block -> 0 <= w < words -> flow_ok s ->
  exists s', merge_word words bi succ w s = Some s' /\ flow_ok s' /\ step s s' /\
    (changed s' = false -> s' = s /\
      forall v, v / 64 = w -> has words (live_in s) succ v = true -> has words (live_out s) bi v = true).
Proof using Hwf opcode_info.
  intros Hblock Hsucc Hw Hok. pose proof (at_lt _ _ _ Hblock) as Hbi.
  assert (Hs : 0 <= succ < n) by (apply (wf_succs Hwf block); [by eapply at_elem|done]).
  destruct (matrix_at n words (live_out s) bi w (fo_out s Hok) Hbi Hw) as (out & Hout & Hwout).
  destruct (matrix_at n words (live_in s) succ w (fo_in s Hok) Hs Hw) as (inn & Hin & Hwin).
  unfold merge_word. rewrite Hout, Hin. cbn [mbind option_bind].
  destruct (Z.eqb_spec (Z.lor out inn) out) as [E|E].
  - exists s. split; [done|]. split; [done|]. split; [by left|]. intros _. split; [done|]. intros v Hv.
    rewrite (has_word _ _ _ _ v Hout Hv), (has_word _ _ _ _ v Hin Hv). intros Hb. rewrite <- E, Z.lor_spec, Hb.
    apply orb_true_r.
  - eexists. split; [done|].
    assert (Hp : forall b v, 0 <= b < n -> 0 <= v < 64 * words ->
        has words (put (live_out s) (bi * words + w) (Z.lor out inn)) b v =
        if decide (bi = b /\ w = v / 64) then Z.testbit (Z.lor out inn) (v mod 64) else has words (live_out s) b v).
    { intros b v Hb Hv. by apply (has_put n); [apply fo_out|..]. }
    split; [|split; [right; split; [done|]|done]].
    + split; cbn.
      * apply Hok.
      * apply matrix_put; [apply Hok|]. by apply word_lor.
      * apply Hok.
      * intros b v Hb Hv. rewrite Hp by (first [done|by apply words_enough]).
        destruct (decide _) as [[<- Hwv]|_]; [|by apply Hok].
        rewrite Z.lor_spec, <- (has_word _ _ _ _ v Hout), <- (has_word _ _ _ _ v Hin) by done.
        intros [Hb'|Hb']%orb_true_iff; [by apply Hok|]. exists block, succ. split_and!; try done. by apply Hok.
      * intros b v Hb Hv Hi. rewrite Hp by done. pose proof (fo_grow s Hok b v Hb Hv Hi) as Hg.
        destruct (decide _) as [[<- Hwv]|_]; [|done].
        rewrite (has_word _ _ _ _ v Hout) in Hg by done. rewrite Z.lor_spec.
        destruct (has words use bi v); [done|]. cbn in *. apply andb_true_iff in Hg as [-> ->]. done.
    + unfold tot. cbn. rewrite (total_put _ _ out) by done.
      enough (pop out < pop (Z.lor out inn)) by lia. apply pop_lt; [done|by apply word_lor|congruence|].
      intros k _ Hk. by rewrite Z.lor_spec, Hk.
Qed.

Lemma compute_word_spec bi block w s : at_ blocks bi = Some block -> 0 <= w < words -> flow_ok s ->
  exists s', compute_word words use def bi w s = Some s' /\ flow_ok s' /\ step s s' /\
    (changed s' = false -> s' = s /\ forall v, v / 64 = w -> has words (live_in s) bi v =
      has words use bi v || (has words (live_out s) bi v && negb (has words def bi v))).
Proof using Hgathered Hrows Hwf opcode_info.
  intros Hblock Hw Hok. pose proof (at_lt _ _ _ Hblock) as Hbi. pose proof (Hgathered _ _ Hblock) as Hg.
  destruct Hrows as [Hmu Hmd].
  destruct (matrix_at n words use bi w Hmu Hbi Hw) as (u & Hu & Hwu).
  destruct (matrix_at n words def bi w Hmd Hbi Hw) as (d & Hd & Hwd).
  destruct (matrix_at n words (live_out s) bi w (fo_out s Hok) Hbi Hw) as (out & Hout & Hwout).
  destruct (matrix_at n words (live_in s) bi w (fo_in s Hok) Hbi Hw) as (inn & Hin & Hwin).
  unfold compute_word. rewrite Hu, Hd, Hout, Hin. cbn [mbind option_bind].
  set (computed := Z.lor u (Z.land out (unot 64 d))).
  assert (Hwc : word 64 computed).
  { apply word_lor; [done|done|]. apply word_land; [done|done|]. apply uwrap_range. lia. }
  assert (Hbit : forall v, v / 64 = w -> Z.testbit computed (v mod 64) =
      has words use bi v || (has words (live_out s) bi v && negb (has words def bi v))).
  { intros v Hv. unfold computed. rewrite Z.lor_spec, Z.land_spec, unot_testbit by (apply Z.mod_pos_bound; lia).
    by rewrite (has_word _ _ _ _ v Hu), (has_word _ _ _ _ v Hd), (has_word _ _ _ _ v Hout) by done. }
  destruct (Z.eqb_spec computed inn) as [E|E].
  - exists s. split; [done|]. split; [done|]. split; [by left|]. intros _. split; [done|]. intros v Hv.
    by rewrite (has_word _ _ _ _ v Hin Hv), <- E, Hbit.
  - eexists. split; [done|].
    assert (Hp : forall b v, 0 <= b < n -> 0 <= v < 64 * words ->
        has words (put (live_in s) (bi * words + w) computed) b v =
        if decide (bi = b /\ w = v / 64) then Z.testbit computed (v mod 64) else has words (live_in s) b v).
    { intros b v Hb Hv. by apply (has_put n); [apply fo_in|..]. }
    split; [|split; [right; split; [done|]|done]].
    + split; cbn.
      * apply matrix_put; [apply Hok|done].
      * apply Hok.
      * intros b v Hb Hv. rewrite Hp by (first [done|by apply words_enough]).
        destruct (decide _) as [[<- Hwv]|_]; [|by apply Hok]. rewrite Hbit by done.
        destruct (Hg v Hv) as [Hgu Hgd]. intros [Hb'%Hgu|[Ho Hnd]%andb_true_iff]%orb_true_iff; [by eapply live_use|].
        destruct (fo_live_out s Hok bi v Hbi Hv Ho) as (block' & succ & Hblock' & Hsucc & Hlive).
        eapply live_through; [done| |done|done]. rewrite Hblock in Hblock'. injection Hblock' as <-.
        rewrite <- Hgd. by destruct (has words def bi v).
      * apply Hok.
      * intros b v Hb Hv. rewrite Hp by done. destruct (decide _) as [[<- Hwv]|_]; [by rewrite Hbit|by apply Hok].
    + unfold tot. cbn. rewrite (total_put _ _ inn) by done.
      enough (pop inn < pop computed) by lia. apply pop_lt; [done|done|congruence|]. intros k Hk Hb.
      assert (E1 : (w * 64 + k) / 64 = w) by (rewrite Z.div_add_l, Z.div_small; lia).
      assert (E2 : (w * 64 + k) mod 64 = k) by (rewrite Z.add_comm, Z_mod_plus_full, Z.mod_small; lia).
      rewrite <- E2, Hbit by done. apply (fo_grow s Hok bi (w * 64 + k) Hbi); [lia|].
      by rewrite (has_word _ _ _ _ (w * 64 + k) Hin), E2.
Qed.

(** The two equations of a block hold. *)
Definition equations (bi : Z) (s : Flow) : Prop := forall block v, at_ blocks bi = Some block -> 0 <= v < 64 * words ->
  (forall succ, succ ∈ succs block -> has words (live_in s) succ v = true -> has words (live_out s) bi v = true) /\
  has words (live_in s) bi v = has words use bi v || (has words (live_out s) bi v && negb (has words def bi v)).

Lemma flow_block_spec bi s : 0 <= bi < n -> flow_ok s ->
  exists s', flow_block words use def blocks bi s = Some s' /\ flow_ok s' /\ step s s' /\
    (changed s' = false -> s' = s /\ equations bi s).
Proof using Hgathered Hrows Hwf opcode_info.
  intros Hbi Hok. destruct (proj2 (at_is_Some blocks bi) Hbi) as [block Hblock]. unfold flow_block. rewrite Hblock.
  cbn [mbind option_bind].
  destruct (for_each_step (fun succ => for_each (merge_word words bi succ) (seqZ 0 words)) flow_ok
      (fun succ s => forall v, 0 <= v < 64 * words -> has words (live_in s) succ v = true -> has words (live_out s) bi v = true)
      (succs block)) with (s := s) as (s1 & E1 & Hok1 & Hs1 & Hc1); [|done|].
  { intros succ t Hsucc Hokt.
    destruct (for_each_step (merge_word words bi succ) flow_ok
        (fun w s => forall v, v / 64 = w -> has words (live_in s) succ v = true -> has words (live_out s) bi v = true)
        (seqZ 0 words)) with (s := t) as (t' & E & Hok' & Hst & Hc); [|done|].
    - intros w t' Hw%elem_of_seqZ Hokt'. apply (merge_word_spec bi block); [done|done|lia|done].
    - exists t'. split; [done|]. split; [done|]. split; [done|]. intros Hno. destruct (Hc Hno) as [-> Hq]. split; [done|].
      intros v Hv. apply (Hq (v / 64)); [|done]. apply elem_of_seqZ. pose proof (word_index words v Hv). lia. }
  rewrite E1. cbn [mbind option_bind].
  destruct (for_each_step (compute_word words use def bi) flow_ok (fun w s => forall v, v / 64 = w ->
      has words (live_in s) bi v = has words use bi v || (has words (live_out s) bi v && negb (has words def bi v)))
      (seqZ 0 words)) with (s := s1) as (s2 & E2 & Hok2 & Hs2 & Hc2); [|done|].
  { intros w t Hw%elem_of_seqZ Hokt. apply (compute_word_spec bi block); [done|lia|done]. }
  exists s2. split; [done|]. split; [done|]. split.
  - destruct Hs2 as [->|[Hch Hlt]]; [done|]. right. split; [done|]. destruct Hs1 as [->|[_ Hlt1]]; lia.
  - intros Hno. destruct (Hc2 Hno) as [-> Hq2]. destruct (Hc1 Hno) as [-> Hq1]. split; [done|].
    intros block' v Hblock' Hv. rewrite Hblock in Hblock'. injection Hblock' as <-. split.
    + intros succ Hsucc. by apply Hq1.
    + apply (Hq2 (v / 64)); [|done]. apply elem_of_seqZ. pose proof (word_index words v Hv). lia.
Qed.

Lemma flow_round_spec s : flow_ok s ->
  exists s', flow_round words use def blocks s = Some s' /\ flow_ok s' /\
    if changed s' then tot s < tot s' else forall b, 0 <= b < n -> equations b s'.
Proof using Hgathered Hrows Hwf opcode_info.
  intros Hok. unfold flow_round. set (s0 := mkFlow false (live_in s) (live_out s)).
  assert (Hok0 : flow_ok s0) by by destruct Hok.
  destruct (for_each_step (flow_block words use def blocks) flow_ok equations (rev (seqZ 0 n))) with (s := s0)
    as (s' & E & Hok' & Hst & Hc); [|done|].
  { intros b t Hb Ht. apply flow_block_spec; [|done]. rewrite list_elem_of_In, <- in_rev, <- list_elem_of_In, elem_of_seqZ in Hb. lia. }
  exists s'. split; [done|]. split; [done|]. destruct (changed s') eqn:Hch.
  - destruct Hst as [->|[_ Hlt]]; [done|exact Hlt].
  - destruct (Hc eq_refl) as [-> Hq]. intros b Hb. apply Hq. rewrite list_elem_of_In, <- in_rev, <- list_elem_of_In, elem_of_seqZ. lia.
Qed.

Lemma flow_rounds_spec fuel : forall s, flow_ok s -> 128 * (n * words) - tot s < Z.of_nat fuel ->
  exists s', flow_rounds words use def blocks fuel s = Some s' /\ flow_ok s' /\ forall b, 0 <= b < n -> equations b s'.
Proof using Hgathered Hrows Hwf opcode_info.
  assert (Hbound : forall s, flow_ok s -> tot s <= 128 * (n * words)).
  { intros s [[Hi _] [Ho _] _ _ _]. unfold tot. pose proof (total_range (live_in s)). pose proof (total_range (live_out s)). lia. }
  induction fuel as [|fuel IH]; intros s Hok Hfuel; [pose proof (Hbound s Hok); lia|].
  destruct (flow_round_spec s Hok) as (s' & E & Hok' & Hc). cbn [flow_rounds]. rewrite E. cbn [mbind option_bind].
  destruct (changed s'); [|by exists s']. apply IH; [done|lia].
Qed.

(** A solution of the equations has every live value. *)
Lemma equations_complete s : (forall b, 0 <= b < n -> equations b s) ->
  forall b v, live_at_entry b v -> 0 <= v < vreg_count -> has words (live_in s) b v = true.
Proof using Hgathered Hrows Hwf opcode_info.
  intros Heq b v Hlive Hv. induction Hlive as [b block v Hb Hex|b block succ v Hb Hnd Hs Hl IH].
  - pose proof (at_lt _ _ _ Hb) as Hbi. destruct (Heq b Hbi block v Hb (words_enough v Hv)) as [_ ->].
    by rewrite (proj2 (proj1 (Hgathered b block Hb v Hv)) Hex).
  - pose proof (at_lt _ _ _ Hb) as Hbi. destruct (Heq b Hbi block v Hb (words_enough v Hv)) as [Ho ->].
    rewrite (Ho succ Hs (IH Hv)). destruct (has words def b v) eqn:E; [|apply orb_true_r].
    destruct Hnd. by apply (Hgathered b block Hb v Hv).
Qed.
End Flow.

Lemma liveness_spec : exists s, liveness opcode_info blocks vreg_count = Some s /\
  matrix n words (live_in s) /\ matrix n words (live_out s) /\
  (forall b v, 0 <= b < n -> 0 <= v < vreg_count -> has words (live_in s) b v = true <-> live_at_entry b v) /\
  (forall b v, 0 <= b < n -> 0 <= v < vreg_count -> has words (live_out s) b v = true <-> live_at_exit b v).
Proof using Hwf opcode_info.
  destruct gather_spec as (use & def & E & Hrows & Hg). unfold liveness. rewrite E. cbn [mbind option_bind].
  pose proof cells_nonneg as Hcells. set (none := replicate _ 0). set (s0 := mkFlow true none none).
  assert (Hok0 : flow_ok use def s0).
  { assert (Hnone : forall b v, has words none b v = false) by (intros; apply has_none).
    split; cbn; [by apply matrix_none|by apply matrix_none|..]; intros b v; by rewrite Hnone. }
  destruct (flow_rounds_spec use def Hrows Hg (S (Z.to_nat (128 * (n * words)))) s0 Hok0) as (s & Es & Hok & Heq).
  { unfold tot. pose proof (total_range (live_in s0)). pose proof (total_range (live_out s0)). lia. }
  pose proof (equations_complete use def Hrows Hg s Heq) as Hcomplete.
  exists s. split; [done|]. split; [apply Hok|]. split; [apply Hok|]. split; intros b v Hb Hv.
  - split; [by eapply fo_live_in|]. intros Hl. by apply Hcomplete.
  - split; [by eapply fo_live_out|]. intros (block & succ & Hblock & Hs & Hl).
    destruct (Heq b Hb block v Hblock (words_enough v Hv)) as [Ho _]. apply (Ho succ Hs). by apply Hcomplete.
Qed.
End Live.

(** Claim C14: The liveness analysis of the linear-scan allocator finishes, and finds a
    register live at the entry of a block exactly when a path of the control-flow
    graph leads from there to a read of it before any definition, and live at the
    exit exactly when it is live at the entry of a successor. *)
Theorem liveness_correct (opcode_info : Z -> RegAllocOpcodeInfo) (blocks : list MBlock) (vreg_count : Z)
    (Hwf : wf_blocks blocks vreg_count) :
  exists s, liveness opcode_info blocks vreg_count = Some s /\
  forall b v, 0 <= b < size blocks -> 0 <= v < vreg_count ->
    (test_bit (row_words vreg_count) (live_in s) b v = Some true <-> live_at_entry opcode_info blocks b v) /\
    (test_bit (row_words vreg_count) (live_out s) b v = Some true <-> live_at_exit opcode_info blocks b v).
Proof.
  destruct (liveness_spec opcode_info blocks vreg_count Hwf) as (s & E & Hin & Hout & Hi & Ho). exists s. split; [done|].
  intros b v Hb Hv. pose proof (words_enough vreg_count v Hv).
  rewrite !(test_bit_spec (size blocks)) by done. rewrite <- Hi, <- Ho by done. split; split; congruence.
Qed.

(** A register that is live somewhere occurs in the code. *)
Lemma live_range opcode_info blocks vreg_count b v : wf_blocks blocks vreg_count ->
  live_at_entry opcode_info blocks b v -> 0 <= v < vreg_count.
Proof.
  intros Hwf Hl. induction Hl as [b block v Hb (pre & inst & post & E & Hr & _)|]; [|done].
  assert (Hi : inst ∈ insts block) by (rewrite E; apply elem_of_app; right; left). apply at_elem in Hb.
  destruct Hr as [Hu|[Hread Hd]]; [apply (wf_vregs _ _ Hwf block inst); [done..|by eapply use_virtual]|].
  destruct (def_virtual (opcode_info (opcode inst)) inst) as [E'|E']; rewrite Hd in E'; [|by apply (wf_vregs _ _ Hwf block inst)].
  rewrite classify_spec in Hread, Hd. destruct (operands inst) as [|o ops]; [done|].
  destruct (virtual_operand o && _); [|done]. cbn in Hd. pose proof (index_range (reg o)) as Hir. rewrite Hd, E' in Hir.
  by vm_compute in Hir; destruct Hir.
Qed.

(** *** Deciding what the analysis needs *)

Definition wf_check (blocks : list MBlock) (vreg_count : Z) : bool :=
  (0 <=? vreg_count) && (vreg_count <=? 2 ^ 31) &&
  forallb (fun block => forallb (fun inst => forallb (fun v => (0 <=? v) && (v <? vreg_count)) (virtuals (operands inst))) (insts block) &&
    forallb (fun s => (0 <=? s) && (s <? size blocks)) (succs block)) blocks.
Lemma wf_check_ok blocks vreg_count : wf_check blocks vreg_count = true -> wf_blocks blocks vreg_count.
Proof.
  unfold wf_check. rewrite !andb_true_iff, forallb_forall. intros [[H1%Z.leb_le H2%Z.leb_le] H].
  split; [lia|..].
  - intros block inst v Hb Hi Hv. apply list_elem_of_In, H, andb_true_iff in Hb as [Hb _].
    rewrite forallb_forall in Hb. apply list_elem_of_In, Hb in Hi. rewrite forallb_forall in Hi.
    apply list_elem_of_In, Hi, andb_true_iff in Hv as [?%Z.leb_le ?%Z.ltb_lt]. done.
  - intros block s Hb Hs. apply list_elem_of_In, H, andb_true_iff in Hb as [_ Hb].
    rewrite forallb_forall in Hb. apply list_elem_of_In, Hb, andb_true_iff in Hs as [?%Z.leb_le ?%Z.ltb_lt]. done.
Qed.

(** A loop that adds the second register to the first, with a call before it. *)
Definition sample_info (o : Z) : RegAllocOpcodeInfo :=
  if o =? 1 then mkOpcodeInfo true false false else if o =? 2 then mkOpcodeInfo true true false
  else if o =? 9 then mkOpcodeInfo false false true else mkOpcodeInfo false false false.
Definition sample_blocks : list MBlock :=
  let v i := make_reg (vreg i) in
  [mkMBlock [mkMInst 1 0 [v 0; make_imm 5]; mkMInst 1 0 [v 1; make_imm 7]; mkMInst 9 0 []; mkMInst 3 0 [make_label 1]] false [1];
   mkMBlock [mkMInst 2 0 [v 0; v 1]; mkMInst 1 0 [v 2; v 0]; mkMInst 2 0 [v 2; v 1]; mkMInst 4 0 [v 2];
             mkMInst 3 0 [make_label 1]] false [1]].
Lemma sample_wf : wf_blocks sample_blocks 3.
Proof. apply wf_check_ok. vm_compute. reflexivity. Qed.

Lemma liveness_correct_witness : live_at_entry sample_info sample_blocks 1 0 /\ ~ live_at_entry sample_info sample_blocks 1 2.
Proof.
  destruct (liveness_correct sample_info sample_blocks 3 sample_wf) as (s & E & H). vm_compute in E. injection E as <-.
  split.
  - apply (H 1 0); [vm_compute; by split|vm_compute; by split|]. vm_compute. reflexivity.
  - intros Hl. apply (H 1 2) in Hl; [|vm_compute; by split|vm_compute; by split]. vm_compute in Hl. discriminate.
Defined.
