(* ===== verification/LinearScan.v ===== *)
(** * The linear-scan register allocator (src/backend/common/regalloc_linear.cpp)

    [linear_scan] is LinearScanAllocator::run: positions are given to instructions,
    each virtual register gets one interval that covers what liveness finds, the
    intervals take registers in the order of their starts, those that get none are
    spilled to the frame, and the instructions are rewritten, with reloads and
    stores around those whose operands are spilled. *)
From stdpp Require Import gmap sorting.
From S2P Require Import Prelude Vectors Mir Liveness.
Open Scope Z_scope.

Definition kNoPos : Z := unot 32 0.

(** ** Intervals *)

Record Interval := mkInterval {
  ivreg : Z; start : Z; end_ : Z; crosses_call : bool; assigned : Z; spilled : bool }.
Definition new_interval (v : Z) : Interval := mkInterval v kNoPos 0 false kNoReg false.
Definition set_crosses (c : bool) (i : Interval) : Interval :=
  mkInterval (ivreg i) (start i) (end_ i) c (assigned i) (spilled i).
Definition set_assigned (p : Z) (i : Interval) : Interval :=
  mkInterval (ivreg i) (start i) (end_ i) (crosses_call i) p (spilled i).
Definition set_spilled (i : Interval) : Interval :=
  mkInterval (ivreg i) (start i) (end_ i) (crosses_call i) (assigned i) true.

(** The first and the past-the-end position of each block. *)
Fixpoint block_positions (blocks : list MBlock) (position : Z) : list (Z * Z) :=
  match blocks with
  | [] => []
  | block :: blocks =>
      let next := u32 (position + u32 (size (insts block))) in
      (position, next) :: block_positions blocks next
  end.

Definition extend (v from to : Z) (intervals : list Interval) : option (list Interval) :=
  modify intervals v (fun i =>
    mkInterval (ivreg i) (Z.min (start i) from) (Z.max (end_ i) to) (crosses_call i) (assigned i) (spilled i)).

(** The intervals so far and the positions of calls. *)
Record Building := mkBuilding { intervals_ : list Interval; call_positions : list Z }.
Definition with_intervals (f : list Interval -> option (list Interval)) (s : Building) : option Building :=
  intervals ← f (intervals_ s); Some (mkBuilding intervals (call_positions s)).

Definition extend_live (words : Z) (flow : Flow) (b first last v : Z) (s : Building) : option Building :=
  live ← test_bit words (live_in flow) b v;
  s ← (if (live : bool) then with_intervals (extend v first (u32 (first + 1))) s else Some s);
  live ← test_bit words (live_out flow) b v;
  if (live : bool) then with_intervals (extend v (if 0 <? last then last - 1 else 0) last) s else Some s.
Definition extend_inst (opcode_info : Z -> RegAllocOpcodeInfo) (inst : MInst) (s : Building * Z) : option (Building * Z) :=
  let '(s, position) := s in
  let info := opcode_info (opcode inst) in
  let iregs := classify_inst inst info in
  s ← for_each (fun v => with_intervals (extend v position (u32 (position + 1)))) (use_vregs iregs) s;
  s ← (if def_vreg iregs =? kNoReg then Some s
       else with_intervals (extend (def_vreg iregs) position (u32 (position + 1))) s);
  let s := if is_call info then mkBuilding (intervals_ s) (call_positions s ++ [position]) else s in
  Some (s, u32 (position + 1)).
Definition build_block (opcode_info : Z -> RegAllocOpcodeInfo) (vreg_count : Z) (flow : Flow) (blocks : list MBlock)
    (positions : list (Z * Z)) (b : Z) (s : Building) : option Building :=
  '(first, last) ← at_ positions b;
  block ← at_ blocks b;
  s ← for_each (extend_live (row_words vreg_count) flow b first last) (seqZ 0 vreg_count) s;
  '(s, _) ← for_each (extend_inst opcode_info) (insts block) (s, first);
  Some s.

(** [std::sort] of the positions of calls, and [std::lower_bound] in them. *)
Definition sorted_calls (calls : list Z) : list Z := merge_sort Z.le calls.
Definition lower_bound (calls : list Z) (position : Z) : option Z := find (fun p => position <=? p) calls.
Definition mark_crossing (calls : list Z) (i : Interval) : Interval :=
  if start i =? kNoPos then i
  else set_crosses (match lower_bound calls (start i) with Some p => u32 (p + 1) <? end_ i | None => false end) i.

Definition build_intervals (opcode_info : Z -> RegAllocOpcodeInfo) (vreg_count : Z) (blocks : list MBlock)
    : option (list Interval) :=
  flow ← liveness opcode_info blocks vreg_count;
  let positions := block_positions blocks 0 in
  let intervals := map new_interval (seqZ 0 vreg_count) in
  s ← for_each (build_block opcode_info vreg_count flow blocks positions) (seqZ 0 (size blocks)) (mkBuilding intervals []);
  Some (map (mark_crossing (sorted_calls (call_positions s))) (intervals_ s)).

(** ** Assignment *)

(** The intervals by their start. *)
Definition before (a b : Interval) : Prop := start a < start b \/ (start a = start b /\ ivreg a <= ivreg b).
#[export] Instance before_dec : RelDecision before.
Proof. intros a b. unfold before. apply _. Defined.
Definition allocation_order (intervals : list Interval) : list Z :=
  map ivreg (merge_sort before (filter (fun i => start i <> kNoPos) intervals)).

Record Scan := mkScan {
  scan_intervals : list Interval; active : list Z; reg_holder : gmap Z Z; scan_csrs : list Z }.

(** [for (i = active.size(); i-- > 0;)] *)
Fixpoint expire (intervals : list Interval) (position : Z) (active : list Z) (holder : gmap Z Z)
    : option (list Z * gmap Z Z) :=
  match active with
  | [] => Some ([], holder)
  | a :: active =>
      '(active, holder) ← expire intervals position active holder;
      i ← at_ intervals a;
      if end_ i <=? position then Some (active, delete (assigned i) holder) else Some (a :: active, holder)
  end.

Definition caller_pool (regs : TargetRegInfo) (cls : RegClass) : list Z :=
  if bool_decide (cls = Gpr) then linear_gpr_caller regs else linear_fpr_caller regs.
Definition callee_pool (regs : TargetRegInfo) (cls : RegClass) : list Z :=
  if bool_decide (cls = Gpr) then linear_gpr_callee regs
  else if bool_decide (cls = Fpr128) then [] else linear_fpr_callee regs.
Definition scratch_pool (regs : TargetRegInfo) (cls : RegClass) : list Z :=
  if bool_decide (cls = Gpr) then linear_gpr_scratch regs else linear_fpr_scratch regs.
Definition try_pool (holder : gmap Z Z) (pool : list Z) : Z :=
  default kNoReg (find (fun p => bool_decide (holder !! p = None)) pool).
Definition note_used_csr (regs : TargetRegInfo) (p : Z) (csrs : list Z) : list Z :=
  if negb (is_callee_saved regs p) then csrs else if bool_decide (p ∈ csrs) then csrs else csrs ++ [p].

Definition choose (regs : TargetRegInfo) (cls : RegClass) (crosses : bool) (holder : gmap Z Z) : Z :=
  if crosses then try_pool holder (callee_pool regs cls)
  else
    let p := try_pool holder (caller_pool regs cls) in
    if p =? kNoReg then try_pool holder (callee_pool regs cls) else p.

Definition assign_interval (regs : TargetRegInfo) (classes : list RegClass) (v : Z) (s : Scan) : option Scan :=
  i ← at_ (scan_intervals s) v;
  '(active, holder) ← expire (scan_intervals s) (start i) (active s) (reg_holder s);
  cls ← at_ classes v;
  let p := choose regs cls (crosses_call i) holder in
  if p =? kNoReg then
    Some (mkScan (put (scan_intervals s) v (set_spilled i)) active holder (scan_csrs s))
  else
    Some (mkScan (put (scan_intervals s) v (set_assigned p i)) (active ++ [v]) (<[p := v]> holder)
      (note_used_csr regs p (scan_csrs s))).

Definition assign_registers (regs : TargetRegInfo) (classes : list RegClass) (intervals : list Interval) (csrs : list Z)
    : option (list Interval * list Z) :=
  s ← for_each (assign_interval regs classes) (allocation_order intervals) (mkScan intervals [] ∅ csrs);
  Some (scan_intervals s, scan_csrs s).

(** ** Rewriting *)

Record Slots := mkSlots { spill_slots : gmap Z Z; objects : list FrameObject }.

Definition slot_bytes (word_bytes : Z) (cls : RegClass) : Z :=
  if bool_decide (cls = Fpr128) then 16 else if bool_decide (cls = Fpr) then 8 else word_bytes.
Definition slot_for (classes : list RegClass) (word_bytes v : Z) (s : Slots) : option (Z * Slots) :=
  match spill_slots s !! v with
  | Some slot => Some (slot, s)
  | None =>
      cls ← at_ classes v;
      let bytes := slot_bytes word_bytes cls in
      let '(slot, objects) := new_frame_object bytes bytes (objects s) in
      Some (slot, mkSlots (<[v := slot]> (spill_slots s)) objects)
  end.
Definition make_mem (op p slot : Z) : MInst := mkMInst op 0 [make_reg (phys p); make_frame slot 0; make_imm 0].

(** The scratch registers an instruction has taken. *)
Record Scratch := mkScratch { inst_scratch : gmap Z Z; next_gpr_scratch : Z; next_fpr_scratch : Z }.
Definition scratch_for (regs : TargetRegInfo) (classes : list RegClass) (v : Z) (s : Scratch) : option (Z * Scratch) :=
  match inst_scratch s !! v with
  | Some p => Some (p, s)
  | None =>
      cls ← at_ classes v;
      let gpr := bool_decide (cls = Gpr) in
      let pool := scratch_pool regs cls in
      let next := if gpr then next_gpr_scratch s else next_fpr_scratch s in
      p ← at_ pool (if next <? size pool then next else size pool - 1);
      Some (p, mkScratch (<[v := p]> (inst_scratch s))
        (if gpr then next + 1 else next_gpr_scratch s) (if gpr then next_fpr_scratch s else next + 1))
  end.

(** What rewriting an instruction has produced. *)
Record Rewriting := mkRewriting {
  rw_slots : Slots; rw_scratch : Scratch; reloads : list MInst; stores : list MInst; rw_operands : list MOperand }.

Definition reloads_into (p : Z) (reload : MInst) : bool :=
  match operands reload with o :: _ => index (reg o) =? p | [] => false end.

Section Rewrite.
Context (regs : TargetRegInfo) (hooks : SpillHooks) (classes : list RegClass) (word_bytes : Z)
  (intervals : list Interval).

Definition rewrite_operand (info : RegAllocOpcodeInfo) (entry : Z * MOperand) (s : Rewriting) : option Rewriting :=
  let '(i, operand) := entry in
  if negb (bool_decide (kind operand = Reg)) || negb (is_virtual (reg operand)) then
    Some (mkRewriting (rw_slots s) (rw_scratch s) (reloads s) (stores s) (rw_operands s ++ [operand]))
  else
    let v := index (reg operand) in
    interval ← at_ intervals v;
    let is_def := (i =? 0) && defines_operand0 info in
    if negb (spilled interval) then
      Some (mkRewriting (rw_slots s) (rw_scratch s) (reloads s) (stores s)
        (rw_operands s ++ [set_reg (phys (assigned interval)) operand]))
    else
      '(p, scratch) ← scratch_for regs classes v (rw_scratch s);
      '(slot, slots) ← slot_for classes word_bytes v (rw_slots s);
      cls ← at_ classes v;
      let needs_reload := negb is_def || reads_operand0 info in
      let already := existsb (reloads_into p) (reloads s) in
      let reloads := if needs_reload && negb already
                     then reloads s ++ [make_mem (regalloc_reload_opcode hooks cls) p slot] else reloads s in
      let stores := if is_def then stores s ++ [make_mem (regalloc_spill_opcode hooks cls) p slot] else stores s in
      Some (mkRewriting slots scratch reloads stores (rw_operands s ++ [set_reg (phys p) operand])).

(** One instruction becomes its reloads, itself and its stores. *)
Definition rewrite_inst (opcode_info : Z -> RegAllocOpcodeInfo) (inst : MInst) (s : Slots * list MInst)
    : option (Slots * list MInst) :=
  let '(slots, out) := s in
  r ← for_each (rewrite_operand (opcode_info (opcode inst))) (zip (seqZ 0 (size (operands inst))) (operands inst))
        (mkRewriting slots (mkScratch ∅ 0 0) [] [] []);
  Some (rw_slots r, out ++ reloads r ++ [mkMInst (opcode inst) (maux inst) (rw_operands r)] ++ stores r).
Definition rewrite_block (opcode_info : Z -> RegAllocOpcodeInfo) (block : MBlock) (s : Slots * list MBlock)
    : option (Slots * list MBlock) :=
  let '(slots, done) := s in
  '(slots, out) ← for_each (rewrite_inst opcode_info) (insts block) (slots, []);
  Some (slots, done ++ [mkMBlock out (address_taken block) (succs block)]).
End Rewrite.

(** [LinearScanAllocator::run] *)
Definition linear_scan (regs : TargetRegInfo) (hooks : SpillHooks) (opcode_info : Z -> RegAllocOpcodeInfo)
    (f : MFunction) : option MFunction :=
  let vreg_count := size (vreg_classes f) in
  if vreg_count =? 0 then Some f
  else
    intervals ← build_intervals opcode_info vreg_count (blocks f);
    '(intervals, csrs) ← assign_registers regs (vreg_classes f) intervals (used_csrs f);
    '(slots, blocks) ← for_each (rewrite_block regs hooks (vreg_classes f) (word_bytes f) intervals opcode_info) (blocks f)
      (mkSlots ∅ (frame_objects f), []);
    Some (mkMFunction blocks (objects slots) (vreg_classes f) csrs (word_bytes f)).
