(* ===== verification/LinearScanProps.v ===== *)
(** * Intervals cover what is live, and share no register (src/backend/common/regalloc_linear.cpp)

    Every position at which a register is live lies in its interval, intervals that
    meet a call are marked as crossing it, and two intervals that share a position
    are never assigned the same physical register. *)
From stdpp Require Import gmap sorting.
From S2P Require Import Prelude Vectors Mir Liveness LinearScan.
Open Scope Z_scope.

Lemma for_each_map {A B S} (g : A -> B) (f : B -> S -> option S) l s :
  for_each f (map g l) s = for_each (fun a => f (g a)) l s.
Proof. revert s. induction l as [|a l IH]; intros s; cbn; [done|]. destruct (f (g a) s); cbn; [apply IH|done]. Qed.

(** ** Positions *)

Definition inst_count (blocks : list MBlock) : Z := foldr (fun block n => size (insts block) + n) 0 blocks.
Definition first_position (blocks : list MBlock) (b : Z) : Z := inst_count (take (Z.to_nat b) blocks).

Lemma inst_count_cons block blocks : inst_count (block :: blocks) = size (insts block) + inst_count blocks.
Proof. done. Qed.
Lemma inst_count_nonneg blocks : 0 <= inst_count blocks.
Proof.
  induction blocks as [|block blocks IH]; [done|]. rewrite inst_count_cons. pose proof (size_nonneg (insts block)). lia.
Qed.
Lemma inst_count_app l k : inst_count (l ++ k) = inst_count l + inst_count k.
Proof. induction l as [|block l IH]; [done|]. cbn [app]. rewrite !inst_count_cons. lia. Qed.
Lemma first_position_le blocks b block : at_ blocks b = Some block ->
  0 <= first_position blocks b /\ first_position blocks b + size (insts block) <= inst_count blocks.
Proof.
  intros Hb. pose proof (at_lt _ _ _ Hb) as Hlt. unfold at_ in Hb. destruct (Z.ltb_spec b 0); [done|].
  unfold first_position. split; [apply inst_count_nonneg|].
  rewrite <- (take_drop_middle blocks (Z.to_nat b) block Hb) at 2. rewrite inst_count_app, inst_count_cons.
  pose proof (inst_count_nonneg (drop (S (Z.to_nat b)) blocks)). lia.
Qed.

Lemma block_positions_spec blocks : forall position b block, 0 <= position -> position + inst_count blocks < 2 ^ 32 ->
  at_ blocks b = Some block ->
  at_ (block_positions blocks position) b =
    Some (position + first_position blocks b, position + first_position blocks b + size (insts block)).
Proof.
  induction blocks as [|block0 blocks IH]; intros position b block Hpos Hsum Hb; [by rewrite at_none in Hb by (unfold size; cbn; lia)|].
  pose proof (at_lt _ _ _ Hb) as Hlt. rewrite inst_count_cons in Hsum.
  pose proof (inst_count_nonneg blocks). pose proof (size_nonneg (insts block0)). cbn [block_positions].
  rewrite (uwrap_small 32 (size (insts block0))), (uwrap_small 32) by (split; lia).
  destruct (Z.eq_dec b 0) as [->|Hne].
  - rewrite at_cons_0 in *. injection Hb as ->.
    change (first_position (block :: blocks) 0) with 0. f_equal. f_equal; lia.
  - destruct (Z.eq_dec b (b - 1 + 1)) as [Eb|]; [|lia]. set (c := b - 1) in *. clearbody c. subst b.
    rewrite at_cons_S in Hb by lia. rewrite at_cons_S by lia. rewrite (IH _ _ block) by (first [done|lia]).
    unfold first_position. replace (Z.to_nat (c + 1)) with (S (Z.to_nat c)) by lia. cbn [take].
    rewrite inst_count_cons. f_equal. f_equal; lia.
Qed.

(** ** Intervals *)

(** [i'] has the range of [i] or a larger one. *)
Definition wider (i i' : Interval) : Prop :=
  ivreg i' = ivreg i /\ start i' <= start i /\ end_ i <= end_ i' /\ assigned i' = assigned i /\ spilled i' = spilled i.
Definition all_wider (l l' : list Interval) : Prop :=
  size l' = size l /\ forall v i, at_ l v = Some i -> exists i', at_ l' v = Some i' /\ wider i i'.
(** The interval of [v] contains [from, to). *)
Definition contains (l : list Interval) (v from to : Z) : Prop :=
  exists i, at_ l v = Some i /\ start i <= from /\ to <= end_ i.
(** It contains a position. *)
Definition covers (i : Interval) (q : Z) : Prop := start i <= q < end_ i.

Lemma wider_refl i : wider i i.
Proof. unfold wider. split_and!; (done || lia). Qed.
Lemma wider_trans i j k : wider i j -> wider j k -> wider i k.
Proof. unfold wider. intros (? & ? & ? & ? & ?) (? & ? & ? & ? & ?). split_and!; try congruence; lia. Qed.
Lemma all_wider_refl l : all_wider l l.
Proof. split; [done|]. intros v i Hi. exists i. split; [done|apply wider_refl]. Qed.
Lemma all_wider_trans l1 l2 l3 : all_wider l1 l2 -> all_wider l2 l3 -> all_wider l1 l3.
Proof.
  intros [S1 W1] [S2 W2]. split; [congruence|]. intros v i Hi. destruct (W1 v i Hi) as (j & Hj & Hij).
  destruct (W2 v j Hj) as (k & Hk & Hjk). exists k. split; [done|]. by eapply wider_trans.
Qed.
Lemma contains_wider l l' v from to : all_wider l l' -> contains l v from to -> contains l' v from to.
Proof.
  intros [_ W] (i & Hi & Hs & He). destruct (W v i Hi) as (j & Hj & _ & ? & ? & _). exists j. split; [done|lia].
Qed.

Lemma extend_spec v from to l : 0 <= v < size l ->
  exists l', extend v from to l = Some l' /\ all_wider l l' /\ contains l' v from to.
Proof.
  intros Hv. destruct (proj2 (at_is_Some l v) Hv) as [i Hi]. unfold extend. rewrite (modify_some _ _ _ _ Hi).
  eexists. split; [done|]. split.
  - split; [apply size_put|]. intros u j Hj. destruct (decide (v = u)) as [<-|Hne].
    + rewrite at_put_eq by done. eexists. split; [done|]. rewrite Hi in Hj. injection Hj as <-. unfold wider. cbn.
      split_and!; (done || lia).
    + rewrite at_put_ne by done. exists j. split; [done|apply wider_refl].
  - eexists. split; [by apply at_put_eq|]. cbn. lia.
Qed.

Section Build.
Context (opcode_info : Z -> RegAllocOpcodeInfo) (blocks : list MBlock) (vreg_count : Z).
Hypothesis Hwf : wf_blocks blocks vreg_count.
(** Positions fit in 32 bits. *)
Hypothesis Hsmall : inst_count blocks < 2 ^ 32 - 1.
Abbreviation info_of inst := (opcode_info (opcode inst)).
Abbreviation words := (row_words vreg_count).

(** What building keeps, and what it adds. *)
Record building_ok (s : Building) : Prop := {
  bo_size : size (intervals_ s) = vreg_count;
  bo_calls : forall p, p ∈ call_positions s -> 0 <= p < inst_count blocks }.
Definition grows (s s' : Building) : Prop :=
  all_wider (intervals_ s) (intervals_ s') /\ (forall p, p ∈ call_positions s -> p ∈ call_positions s').

Lemma grows_refl s : grows s s.
Proof using. split; [apply all_wider_refl|done]. Qed.
Lemma grows_trans s1 s2 s3 : grows s1 s2 -> grows s2 s3 -> grows s1 s3.
Proof using. intros [W1 C1] [W2 C2]. split; [by eapply all_wider_trans|]. intros p Hp. by apply C2, C1. Qed.

Lemma with_intervals_spec v from to s : 0 <= v < vreg_count -> building_ok s ->
  exists s', with_intervals (extend v from to) s = Some s' /\ building_ok s' /\ grows s s' /\
    contains (intervals_ s') v from to.
Proof using.
  intros Hv [Hsz Hc]. destruct (extend_spec v from to (intervals_ s)) as (l' & E & W & C); [lia|].
  unfold with_intervals. rewrite E. cbn [mbind option_bind]. eexists. split; [done|]. split; [|by split].
  split; [|done]. cbn. destruct W as [-> _]. done.
Qed.

(** A loop over registers or instructions that only grows, with something that
    growing keeps established for each element. *)
Lemma for_each_grows {A} (f : A -> Building -> option Building) (P : A -> Building -> Prop) l s :
  (forall a s s', P a s -> grows s s' -> P a s') -> building_ok s ->
  (forall a s, a ∈ l -> building_ok s -> exists s', f a s = Some s' /\ building_ok s' /\ grows s s' /\ P a s') ->
  exists s', for_each f l s = Some s' /\ building_ok s' /\ grows s s' /\ forall a, a ∈ l -> P a s'.
Proof using.
  intros Hstable Hok Hf.
  destruct (for_each_spec f (fun done s' => building_ok s' /\ grows s s' /\ forall a, a ∈ done -> P a s') l s)
    as (s' & E & H).
  - split; [done|]. split; [apply grows_refl|]. by intros a ?%elem_of_nil.
  - intros l1 a l2 t El (Hokt & Hg & HP).
    destruct (Hf a t) as (t' & E & Hok' & Hg' & Ha); [rewrite El; apply elem_of_app; right; left|done|].
    exists t'. split; [done|]. split; [done|]. split; [by eapply grows_trans|].
    intros b [Hb| ->%list_elem_of_singleton]%elem_of_app; [|done]. by eapply Hstable; [apply HP|].
  - by exists s'.
Qed.
Lemma contains_grows v from to s s' : contains (intervals_ s) v from to -> grows s s' -> contains (intervals_ s') v from to.
Proof using. intros C [W _]. by eapply contains_wider. Qed.

Definition inst_covered (position : Z) (inst : MInst) (s : Building) : Prop :=
  (forall v, reads (info_of inst) inst v \/ defines (info_of inst) inst v -> v <> kNoReg ->
     contains (intervals_ s) v position (position + 1)) /\
  (is_call (info_of inst) = true -> position ∈ call_positions s).

Lemma inst_covered_grows position inst s s' : inst_covered position inst s -> grows s s' -> inst_covered position inst s'.
Proof using.
  intros [Hv Hc] Hg. split.
  - intros v Hr Hn. by eapply contains_grows; [apply Hv|].
  - intros Hcall. by apply Hg, Hc.
Qed.

Lemma extend_inst_spec block inst s position : block ∈ blocks -> inst ∈ insts block ->
  0 <= position < inst_count blocks -> building_ok s ->
  exists s', extend_inst opcode_info inst (s, position) = Some (s', position + 1) /\ building_ok s' /\ grows s s' /\
    inst_covered position inst s'.
Proof using Hsmall Hwf.
  intros Hblock Hinst Hpos Hok. unfold extend_inst. rewrite (uwrap_small 32 (position + 1)) by (split; lia).
  set (iregs := classify_inst inst (info_of inst)).
  destruct (for_each_grows (fun v => with_intervals (extend v position (position + 1)))
    (fun v s => contains (intervals_ s) v position (position + 1)) (use_vregs iregs) s) as (s1 & -> & Hok1 & Hg1 & H1).
  { intros v t t' Hc Hg. by eapply contains_grows. }
  { done. }
  { intros v t Hv Hokt. apply with_intervals_spec; [|done]. apply (wf_vregs _ _ Hwf block inst); [done|done|].
    by eapply use_virtual. }
  cbn [mbind option_bind].
  assert (H2 : exists s2, (if def_vreg iregs =? kNoReg then Some s1
      else with_intervals (extend (def_vreg iregs) position (position + 1)) s1) = Some s2 /\ building_ok s2 /\ grows s1 s2 /\
      (def_vreg iregs <> kNoReg -> contains (intervals_ s2) (def_vreg iregs) position (position + 1))).
  { destruct (Z.eqb_spec (def_vreg iregs) kNoReg) as [E|E].
    - exists s1. split; [done|]. split; [done|]. split; [apply grows_refl|done].
    - destruct (def_virtual (info_of inst) inst) as [|Hd]; [done|].
      destruct (with_intervals_spec (def_vreg iregs) position (position + 1) s1) as (s2 & ? & ? & ? & ?); [|done|by exists s2].
      by apply (wf_vregs _ _ Hwf block inst). }
  destruct H2 as (s2 & -> & Hok2 & Hg2 & Hd2). cbn [mbind option_bind]. eexists. split; [done|].
  assert (Hlive : forall v, reads (info_of inst) inst v \/ defines (info_of inst) inst v -> v <> kNoReg ->
      contains (intervals_ s2) v position (position + 1)).
  { intros v [[Hv|[_ Hv]]|Hv] Hn; fold iregs in Hv.
    - eapply contains_grows; [by apply H1|done].
    - rewrite <- Hv. apply Hd2. congruence.
    - unfold defines in Hv. fold iregs in Hv. rewrite <- Hv. apply Hd2. congruence. }
  destruct (is_call (info_of inst)) eqn:Hcall.
  - split; [|split].
    + destruct Hok2. split; [done|]. cbn. intros p [Hp| ->%list_elem_of_singleton]%elem_of_app; [by apply bo_calls0|done].
    + eapply grows_trans; [done|]. eapply grows_trans; [done|]. split; [apply all_wider_refl|]. cbn. intros p Hp.
      apply elem_of_app. by left.
    + split; [done|]. intros _. cbn. apply elem_of_app. right. left.
  - split; [done|]. split; [by eapply grows_trans|]. split; [done|]. by rewrite Hcall.
Qed.

Section Flow.
Context (flow : Flow).
Hypothesis Hin : matrix (size blocks) words (live_in flow).
Hypothesis Hout : matrix (size blocks) words (live_out flow).

Definition live_covered (b first last v : Z) (s : Building) : Prop :=
  (has words (live_in flow) b v = true -> contains (intervals_ s) v first (first + 1)) /\
  (has words (live_out flow) b v = true -> contains (intervals_ s) v (if 0 <? last then last - 1 else 0) last).
Definition block_covered (b : Z) (s : Building) : Prop := forall block, at_ blocks b = Some block ->
  let first := first_position blocks b in
  (forall v, 0 <= v < vreg_count -> live_covered b first (first + size (insts block)) v s) /\
  (forall k inst, insts block !! k = Some inst -> inst_covered (first + Z.of_nat k) inst s).

Lemma extend_live_spec b first last v s : 0 <= b < size blocks -> 0 <= first < 2 ^ 32 - 1 -> 0 <= v < vreg_count ->
  building_ok s ->
  exists s', extend_live words flow b first last v s = Some s' /\ building_ok s' /\ grows s s' /\ live_covered b first last v s'.
Proof using Hin Hout Hwf.
  intros Hb Hf Hv Hok. pose proof (words_enough vreg_count v Hv) as Hvw. unfold extend_live, live_covered.
  rewrite (test_bit_spec (size blocks) words (live_in flow)), (uwrap_small 32) by (first [done|split; lia]).
  cbn [mbind option_bind].
  assert (H1 : exists s1, (if has words (live_in flow) b v then with_intervals (extend v first (first + 1)) s else Some s) = Some s1 /\
    building_ok s1 /\ grows s s1 /\ (has words (live_in flow) b v = true -> contains (intervals_ s1) v first (first + 1))).
  { destruct (has _ _ _ _).
    - destruct (with_intervals_spec v first (first + 1) s Hv Hok) as (s1 & ? & ? & ? & ?). by exists s1.
    - exists s. split; [done|]. split; [done|]. split; [apply grows_refl|done]. }
  destruct H1 as (s1 & -> & Hok1 & Hg1 & H1). cbn [mbind option_bind].
  rewrite (test_bit_spec (size blocks) words (live_out flow)) by done. cbn [mbind option_bind].
  destruct (has words (live_out flow) b v).
  - destruct (with_intervals_spec v (if 0 <? last then last - 1 else 0) last s1 Hv Hok1) as (s2 & -> & Hok2 & Hg2 & H2).
    exists s2. split; [done|]. split; [done|]. split; [by eapply grows_trans|]. split; [|done].
    intros Hl. eapply contains_grows; [by apply H1|done].
  - exists s1. by split.
Qed.

Lemma build_block_spec b s : 0 <= b < size blocks -> building_ok s ->
  exists s', build_block opcode_info vreg_count flow blocks (block_positions blocks 0) b s = Some s' /\
    building_ok s' /\ grows s s' /\ block_covered b s'.
Proof using Hin Hout Hsmall Hwf.
  intros Hb Hok. destruct (proj2 (at_is_Some blocks b) Hb) as [block Hblock].
  destruct (first_position_le blocks b block Hblock) as [Hfirst Hlast]. pose proof (size_nonneg (insts block)).
  set (first := first_position blocks b) in *. set (last := first + size (insts block)).
  unfold build_block. rewrite (block_positions_spec blocks 0 b block), Z.add_0_l, Hblock by (first [done|lia]).
  cbn [mbind option_bind]. fold first last.
  destruct (for_each_grows (extend_live words flow b first last) (live_covered b first last) (seqZ 0 vreg_count) s)
    as (s1 & E1 & Hok1 & Hg1 & H1); [|done|..].
  { intros v t t' [Hi Ho] Hg. split; intros Hl; (eapply contains_grows; [by auto|done]). }
  { intros v t Hv%elem_of_seqZ Hokt. apply extend_live_spec; [done|lia|lia|done]. }
  rewrite E1. cbn [mbind option_bind].
  destruct (for_each_spec (extend_inst opcode_info) (fun done st => st.2 = first + size done /\ building_ok st.1 /\
      grows s1 st.1 /\ forall k inst, done !! k = Some inst -> inst_covered (first + Z.of_nat k) inst st.1)
    (insts block) (s1, first)) as ([s2 position] & E2 & _ & Hok2 & Hg2 & H2).
  { cbn. split; [unfold size; cbn; lia|]. split; [done|]. split; [apply grows_refl|done]. }
  { intros l1 inst l2 [t position] El (Epos & Hokt & Hgt & Ht). cbn in Epos, Hokt, Hgt, Ht. subst position.
    assert (Hlen : size (insts block) = size l1 + 1 + size l2).
    { rewrite El. unfold size. rewrite length_app. cbn [length]. lia. }
    pose proof (size_nonneg l1). pose proof (size_nonneg l2).
    destruct (extend_inst_spec block inst t (first + size l1)) as (t' & E & Hok' & Hg' & Hi); [by eapply at_elem| |lia|done|].
    { rewrite El. apply elem_of_app. right. left. }
    exists (t', first + size l1 + 1). split; [done|]. cbn. split; [rewrite size_app; unfold size; cbn; lia|].
    split; [done|]. split; [by eapply grows_trans|]. intros k j [Hj|[Hk Hj]]%lookup_app_Some.
    - by eapply inst_covered_grows; [apply Ht|].
    - apply list_lookup_singleton_Some in Hj as [Hk' <-].
      replace (Z.of_nat k) with (size l1) by (unfold size; lia). done. }
  rewrite E2. cbn [mbind option_bind]. exists s2. split; [done|]. split; [done|]. split; [by eapply grows_trans|].
  intros block' Hblock'. rewrite Hblock in Hblock'. injection Hblock' as <-. cbn zeta. fold first last. split; [|done].
  intros v Hv. destruct (H1 v ltac:(apply elem_of_seqZ; lia)) as [Hi Ho].
  split; intros Hl; (eapply contains_grows; [by auto|done]).
Qed.
End Flow.

Lemma block_covered_grows flow b s s' : block_covered flow b s -> grows s s' -> block_covered flow b s'.
Proof using.
  intros Hc Hg block Hblock. destruct (Hc block Hblock) as [Hv Hi]. split.
  - intros v Hrange. destruct (Hv v Hrange) as [H1 H2]. split; intros Hl; (eapply contains_grows; [by auto|done]).
  - intros k inst Hk. eapply inst_covered_grows; [by apply Hi|done].
Qed.

(** The intervals: their registers in order, unassigned, around what liveness finds. *)
Record intervals_ok (l : list Interval) : Prop := {
  io_size : size l = vreg_count;
  io_fresh : forall v i, at_ l v = Some i -> ivreg i = v /\ assigned i = kNoReg /\ spilled i = false;
  io_entry : forall b block v i, at_ blocks b = Some block -> at_ l v = Some i -> live_at_entry opcode_info blocks b v ->
    covers i (first_position blocks b);
  io_exit : forall b block v i, at_ blocks b = Some block -> at_ l v = Some i -> live_at_exit opcode_info blocks b v ->
    first_position blocks b + size (insts block) <= end_ i;
  io_inst : forall b block v i k inst, at_ blocks b = Some block -> insts block !! k = Some inst -> at_ l v = Some i ->
    reads (info_of inst) inst v \/ defines (info_of inst) inst v -> covers i (first_position blocks b + Z.of_nat k);
  io_call : forall b block v i k inst, at_ blocks b = Some block -> insts block !! k = Some inst -> at_ l v = Some i ->
    is_call (info_of inst) = true -> let q := first_position blocks b + Z.of_nat k in
    start i <= q -> q + 1 < end_ i -> crosses_call i = true }.

Lemma lower_bound_spec calls p q : StronglySorted Z.le calls -> p ∈ calls -> q <= p ->
  exists c, lower_bound calls q = Some c /\ c ∈ calls /\ q <= c <= p.
Proof using.
  intros Hs Hp Hq. unfold lower_bound. induction Hs as [|c calls Hs IH Hall]; [by apply elem_of_nil in Hp|]. cbn.
  destruct (Z.leb_spec q c) as [Hc|Hc].
  - exists c. split; [done|]. split; [left|]. split; [done|]. apply elem_of_cons in Hp as [->|Hp]; [done|].
    rewrite Forall_forall in Hall. by apply Hall, list_elem_of_In.
  - apply elem_of_cons in Hp as [->|Hp]; [lia|]. destruct (IH Hp) as (c' & ? & ? & ?). exists c'. split; [done|].
    split; [by right|done].
Qed.

Lemma build_intervals_spec : exists l, build_intervals opcode_info vreg_count blocks = Some l /\ intervals_ok l.
Proof using Hsmall Hwf.
  destruct (liveness_spec opcode_info blocks vreg_count Hwf) as (flow & E & Hin & Hout & Hi & Ho).
  unfold build_intervals. rewrite E. cbn [mbind option_bind]. set (l0 := map new_interval (seqZ 0 vreg_count)).
  pose proof (wf_count _ _ Hwf) as Hcount. set (s0 := mkBuilding l0 []).
  assert (Hok0 : building_ok s0).
  { split; [|by intros p ?%elem_of_nil]. cbn. unfold l0. rewrite size_map. unfold size. rewrite length_seqZ. lia. }
  destruct (for_each_grows (build_block opcode_info vreg_count flow blocks (block_positions blocks 0)) (block_covered flow)
    (seqZ 0 (size blocks)) s0) as (s & -> & Hok & Hg & Hcov); [|done|..].
  { intros b t t'. apply block_covered_grows. }
  { intros b t Hb%elem_of_seqZ Ht. apply build_block_spec; [done|done|lia|done]. }
  cbn [mbind option_bind]. eexists. split; [done|].
  set (calls := sorted_calls (call_positions s)).
  assert (Hat : forall v i, at_ (map (mark_crossing calls) (intervals_ s)) v = Some i ->
      exists j, at_ (intervals_ s) v = Some j /\ i = mark_crossing calls j).
  { intros v i. rewrite at_map. destruct (at_ (intervals_ s) v) as [j|]; [|done]. intros [= <-]. by exists j. }
  assert (Hmark : forall j, start (mark_crossing calls j) = start j /\ end_ (mark_crossing calls j) = end_ j).
  { intros j. unfold mark_crossing. by destruct (_ =? _). }
  assert (Hcont : forall v i from to, at_ (map (mark_crossing calls) (intervals_ s)) v = Some i ->
      contains (intervals_ s) v from to -> start i <= from /\ to <= end_ i).
  { intros v i from to (j & Hj & ->)%Hat (j' & Hj' & ?). rewrite Hj in Hj'. injection Hj' as <-.
    by destruct (Hmark j) as [-> ->]. }
  assert (Hrange : forall v i, at_ (map (mark_crossing calls) (intervals_ s)) v = Some i -> 0 <= v < vreg_count).
  { intros v i Hv%at_lt. rewrite size_map, (bo_size s Hok) in Hv. done. }
  assert (Hblock : forall b block, at_ blocks b = Some block -> block_covered flow b s).
  { intros b block Hb%at_lt. apply Hcov, elem_of_seqZ. lia. }
  split.
  - rewrite size_map. apply Hok.
  - intros v i (j & Hj & ->)%Hat. destruct Hg as [[Hsz Hwide] _].
    assert (H0 : at_ l0 v = Some (new_interval v)).
    { pose proof (at_lt _ _ _ Hj) as Hv. rewrite (bo_size s Hok) in Hv. unfold l0. rewrite at_map. unfold at_.
      destruct (Z.ltb_spec v 0); [lia|]. rewrite lookup_seqZ_lt by lia. cbn. do 2 f_equal. lia. }
    destruct (Hwide v _ H0) as (j' & Hj' & Hw). cbn in Hj'. rewrite Hj in Hj'. injection Hj' as <-.
    unfold wider in Hw. cbn in Hw. unfold mark_crossing. destruct (_ =? _); cbn; tauto.
  - intros b block v i Hb Hv Hl. pose proof (Hrange v i Hv) as Hvr. pose proof (at_lt _ _ _ Hb) as Hbr.
    destruct (proj1 (Hblock b block Hb block Hb) v Hvr) as [Hc _]. apply Hi in Hl; [|done|done].
    destruct (Hcont v i _ _ Hv (Hc Hl)). unfold covers. lia.
  - intros b block v i Hb Hv Hl. pose proof (Hrange v i Hv) as Hvr. pose proof (at_lt _ _ _ Hb) as Hbr.
    destruct (proj1 (Hblock b block Hb block Hb) v Hvr) as [_ Hc]. apply Ho in Hl; [|done|done].
    by destruct (Hcont v i _ _ Hv (Hc Hl)).
  - intros b block v i k inst Hb Hk Hv Hr. destruct (proj2 (Hblock b block Hb block Hb) k inst Hk) as [Hc _].
    pose proof (Hrange v i Hv) as Hvr. pose proof (kNoReg_large opcode_info _ _ Hwf v Hvr) as Hn.
    destruct (Hcont v i _ _ Hv (Hc v Hr Hn)). unfold covers. lia.
  - intros b block v i k inst Hb Hk Hv Hcall q Hs He. destruct (proj2 (Hblock b block Hb block Hb) k inst Hk) as [_ Hc].
    specialize (Hc Hcall). destruct (Hat v i Hv) as (j & Hj & ->). destruct (Hmark j) as [E1 E2]. rewrite E1 in Hs.
    rewrite E2 in He. pose proof (bo_calls s Hok _ Hc) as Hq. fold q in Hc, Hq.
    unfold mark_crossing. change kNoPos with (2 ^ 32 - 1). destruct (Z.eqb_spec (start j) (2 ^ 32 - 1)); [lia|]. cbn.
    destruct (lower_bound_spec calls q (start j)) as (c & -> & Hcc & Hcr).
    + apply StronglySorted_merge_sort; [intros x y z; lia|intros x y; lia].
    + unfold calls, sorted_calls. by rewrite merge_sort_Permutation.
    + done.
    + unfold calls, sorted_calls in Hcc. rewrite merge_sort_Permutation in Hcc. pose proof (bo_calls s Hok c Hcc).
      rewrite (uwrap_small 32) by (split; lia). apply Z.ltb_lt. lia.
Qed.
End Build.

(** ** Pointwise liveness *)

Section Pointwise.
Context (opcode_info : Z -> RegAllocOpcodeInfo) (blocks : list MBlock) (vreg_count : Z) (l : list Interval).
Hypothesis Hok : intervals_ok opcode_info blocks vreg_count l.
Abbreviation info_of inst := (opcode_info (opcode inst)).

(** [v] is live before the [k]-th instruction of a block. *)
Definition live_before (b : Z) (block : MBlock) (k : nat) (v : Z) : Prop :=
  exposed opcode_info (drop k (insts block)) v \/
  ~ defined opcode_info (drop k (insts block)) v /\ live_at_exit opcode_info blocks b v.

Lemma live_before_0 b block v : at_ blocks b = Some block ->
  live_before b block 0 v -> live_at_entry opcode_info blocks b v.
Proof using.
  intros Hb [He|[Hd (block' & succ & Hb' & Hs & Hl)]]; [by eapply live_use|].
  rewrite Hb in Hb'. injection Hb' as <-. by eapply live_through.
Qed.
Lemma exposed_cons inst k v : ~ defines (info_of inst) inst v -> exposed opcode_info k v -> exposed opcode_info (inst :: k) v.
Proof using.
  intros Hn (pre & i & post & -> & Hr & Hd). exists (inst :: pre), i, post. split; [done|]. split; [done|].
  intros (j & [->|Hj]%elem_of_cons & Hdj); [done|]. apply Hd. by exists j.
Qed.
(** What is live after an instruction that does not define it is live before it. *)
Lemma live_before_step b block k inst v : insts block !! k = Some inst -> ~ defines (info_of inst) inst v ->
  live_before b block (S k) v -> live_before b block k v.
Proof using.
  intros Hk Hn Hl. unfold live_before. rewrite (drop_S _ _ _ Hk). destruct Hl as [He|[Hd Hx]].
  - left. by apply exposed_cons.
  - right. split; [|done]. intros (j & [->|Hj]%elem_of_cons & Hdj); [done|]. apply Hd. by exists j.
Qed.
Lemma live_before_read b block k inst v : insts block !! k = Some inst -> reads (info_of inst) inst v -> live_before b block k v.
Proof using.
  intros Hk Hr. left. rewrite (drop_S _ _ _ Hk). exists [], inst, (drop (S k) (insts block)). split; [done|].
  split; [done|]. apply defined_nil.
Qed.

Lemma live_start b block v i : at_ blocks b = Some block -> at_ l v = Some i -> forall k, (k <= length (insts block))%nat ->
  live_before b block k v -> start i <= first_position blocks b + Z.of_nat k.
Proof using Hok.
  intros Hb Hi. induction k as [|k IH]; intros Hk Hl.
  - apply live_before_0 in Hl; [|done]. destruct (io_entry _ _ _ _ Hok b block v i Hb Hi Hl). lia.
  - destruct (lookup_lt_is_Some_2 (insts block) k ltac:(lia)) as [inst Hinst].
    destruct (decide (defines (info_of inst) inst v)) as [Hd|Hn].
    + destruct (io_inst _ _ _ _ Hok b block v i k inst Hb Hinst Hi (or_intror Hd)). lia.
    + specialize (IH ltac:(lia) (live_before_step b block k inst v Hinst Hn Hl)). lia.
Qed.
Lemma live_end b block v i k : at_ blocks b = Some block -> at_ l v = Some i -> (k < length (insts block))%nat ->
  live_before b block k v -> first_position blocks b + Z.of_nat k < end_ i.
Proof using Hok.
  intros Hb Hi Hk [(pre & inst & post & E & Hr & _)|[_ Hx]].
  - assert (Hinst : insts block !! (k + length pre)%nat = Some inst).
    { rewrite <- lookup_drop, E. by rewrite lookup_app_r, Nat.sub_diag by lia. }
    destruct (io_inst _ _ _ _ Hok b block v i _ inst Hb Hinst Hi (or_introl Hr)). lia.
  - pose proof (io_exit _ _ _ _ Hok b block v i Hb Hi Hx). unfold size in *. lia.
Qed.

(** A live register's interval covers the position. *)
Lemma live_covers b block v i k : at_ blocks b = Some block -> at_ l v = Some i -> (k < length (insts block))%nat ->
  live_before b block k v -> covers i (first_position blocks b + Z.of_nat k).
Proof using Hok.
  intros Hb Hi Hk Hl. split; [apply (live_start b block v i Hb Hi k); [lia|done]|by eapply live_end].
Qed.
(** So does that of a register live after the instruction at it, or defined by it. *)
Lemma live_after_covers b block v i k inst : at_ blocks b = Some block -> at_ l v = Some i -> insts block !! k = Some inst ->
  defines (info_of inst) inst v \/ live_before b block (S k) v -> covers i (first_position blocks b + Z.of_nat k).
Proof using Hok.
  intros Hb Hi Hk Hl. destruct (decide (defines (info_of inst) inst v)) as [Hd|Hn].
  - by eapply (io_inst _ _ _ _ Hok); [..|right].
  - destruct Hl as [|Hl]; [done|]. apply (live_covers b block v i k Hb Hi); [by eapply lookup_lt_Some|].
    by eapply live_before_step.
Qed.
(** A register live across a call, which never is the last instruction, crosses it. *)
Lemma live_across_call b block v i k inst : at_ blocks b = Some block -> at_ l v = Some i -> insts block !! k = Some inst ->
  is_call (info_of inst) = true -> (S k < length (insts block))%nat -> ~ defines (info_of inst) inst v ->
  live_before b block (S k) v -> crosses_call i = true.
Proof using Hok.
  intros Hb Hi Hk Hc Hlen Hn Hl. apply (io_call _ _ _ _ Hok b block v i k inst Hb Hk Hi Hc).
  - destruct (live_after_covers b block v i k inst Hb Hi Hk (or_intror Hl)). done.
  - pose proof (live_end b block v i (S k) Hb Hi Hlen Hl). lia.
Qed.
End Pointwise.

(** ** Assignment *)

(** The range of an interval, which assignment leaves. *)
Definition range (i : Interval) : Z * Z * Z * bool := (ivreg i, start i, end_ i, crosses_call i).
(** A register an interval may get. *)
Definition allowed (regs : TargetRegInfo) (cls : RegClass) (crosses : bool) (p : Z) : Prop :=
  p ∈ callee_pool regs cls \/ (crosses = false /\ p ∈ caller_pool regs cls).
Definition pools (regs : TargetRegInfo) : list Z :=
  linear_gpr_caller regs ++ linear_gpr_callee regs ++ linear_fpr_caller regs ++ linear_fpr_callee regs.

Lemma allowed_pool regs cls crosses p : allowed regs cls crosses p -> p ∈ pools regs.
Proof.
  unfold allowed, pools, callee_pool, caller_pool. rewrite !elem_of_app.
  destruct cls; cbn; rewrite ?elem_of_nil; tauto.
Qed.
Lemma try_pool_spec holder pool p : try_pool holder pool = p -> p <> kNoReg -> p ∈ pool /\ holder !! p = None.
Proof.
  unfold try_pool. destruct (find _ pool) as [q|] eqn:E; cbn; [|congruence]. intros -> _.
  apply find_some in E as [Hin Hb]. apply bool_decide_eq_true in Hb. split; [by apply list_elem_of_In|done].
Qed.
Lemma choose_spec regs cls crosses holder p : choose regs cls crosses holder = p -> p <> kNoReg ->
  allowed regs cls crosses p /\ holder !! p = None.
Proof.
  unfold choose, allowed. destruct crosses; [intros E Hn; destruct (try_pool_spec _ _ _ E Hn); tauto|].
  destruct (Z.eqb_spec (try_pool holder (caller_pool regs cls)) kNoReg) as [_|E0]; intros E Hn;
    destruct (try_pool_spec _ _ _ E Hn); tauto.
Qed.

Lemma expire_spec l position act : forall holder, (forall a, a ∈ act -> is_Some (at_ l a)) ->
  exists act' holder', expire l position act holder = Some (act', holder') /\
    act' `sublist_of` act /\
    (forall a, a ∈ act' <-> a ∈ act /\ exists i, at_ l a = Some i /\ position < end_ i) /\
    (forall p u, holder' !! p = Some u <-> holder !! p = Some u /\
       ~ exists a i, a ∈ act /\ at_ l a = Some i /\ end_ i <= position /\ assigned i = p).
Proof.
  induction act as [|a act IH]; intros holder Hact; cbn [expire].
  { exists [], holder. split; [done|]. split; [done|]. split.
    - intros a. rewrite elem_of_nil. split; [done|]. by intros [? _].
    - intros p u. split; [|tauto]. intros H. split; [done|]. by intros (a & i & ?%elem_of_nil & _). }
  destruct (IH holder ltac:(intros b Hb; apply Hact; by right)) as (act1 & holder1 & -> & Hsub & H1 & H2).
  cbn [mbind option_bind]. destruct (Hact a ltac:(left)) as [i Hi]. rewrite Hi. cbn [mbind option_bind].
  destruct (Z.leb_spec (end_ i) position) as [Hle|Hgt].
  - exists act1, (delete (assigned i) holder1). split; [done|]. split; [by apply sublist_cons|]. split.
    + intros b. rewrite H1, elem_of_cons. split; [tauto|]. intros [[->|Hb] (j & Hj & Hlt)]; [|eauto].
      rewrite Hi in Hj. injection Hj as <-. lia.
    + intros p u. rewrite lookup_delete_Some, H2. split.
      * intros [Hne [Hp Hno]]. split; [done|]. intros (b & j & [->|Hb]%elem_of_cons & Hj & Hle' & Hp').
        -- rewrite Hi in Hj. injection Hj as <-. done.
        -- apply Hno. by exists b, j.
      * intros [Hp Hno]. split; [|split; [done|]].
        -- intros E. apply Hno. exists a, i. split; [left|done].
        -- intros (b & j & Hb & Hj & ?). apply Hno. exists b, j. split; [by right|done].
  - exists (a :: act1), holder1. split; [done|]. split; [by constructor|]. split.
    + intros b. rewrite !elem_of_cons, H1. split.
      * intros [->|[Hb Hj]]; [|split; [by right|done]]. split; [by left|by exists i].
      * intros [[->|Hb] Hj]; [by left|right; by split].
    + intros p u. rewrite H2. split.
      * intros [Hp Hno]. split; [done|]. intros (b & j & [->|Hb]%elem_of_cons & Hj & Hle & Hp').
        -- rewrite Hi in Hj. injection Hj as <-. lia.
        -- apply Hno. by exists b, j.
      * intros [Hp Hno]. split; [done|]. intros (b & j & Hb & ?). apply Hno. exists b, j. split; [by right|done].
Qed.

Lemma note_used_csr_spec regs p csrs : forall q, q ∈ csrs \/ (q = p /\ is_callee_saved regs p = true) <->
  q ∈ note_used_csr regs p csrs.
Proof.
  intros q. unfold note_used_csr. destruct (is_callee_saved regs p); cbn; [|intuition congruence].
  destruct (bool_decide_reflect (p ∈ csrs)); [intuition congruence|]. rewrite elem_of_app, list_elem_of_singleton. tauto.
Qed.

Section Assign.
Context (regs : TargetRegInfo) (classes : list RegClass) (l : list Interval) (csrs : list Z).
Hypothesis Hsize : size l = size classes.
Hypothesis Hfresh : forall v i, at_ l v = Some i -> ivreg i = v /\ assigned i = kNoReg /\ spilled i = false.

(** An interval that has its register or its slot. *)
Definition settled (v : Z) (i : Interval) : Prop :=
  exists cls, at_ classes v = Some cls /\
    if spilled i then True else allowed regs cls (crosses_call i) (assigned i).
Definition disjoint_ranges (i j : Interval) : Prop := end_ i <= start j \/ end_ j <= start i.

(** After the intervals [done], the next of which starts no earlier than [position]. *)
Record scan_ok (done : list Z) (position : Z) (s : Scan) : Prop := {
  so_size : size (scan_intervals s) = size l;
  so_range : forall v i, at_ (scan_intervals s) v = Some i -> exists i0, at_ l v = Some i0 /\ range i = range i0;
  so_rest : forall v i, at_ (scan_intervals s) v = Some i -> v ∉ done -> at_ l v = Some i;
  so_done : forall v i, at_ (scan_intervals s) v = Some i -> v ∈ done -> settled v i;
  so_active : forall a, a ∈ active s -> a ∈ done /\ exists i, at_ (scan_intervals s) a = Some i /\ spilled i = false;
  so_holder : forall p u, reg_holder s !! p = Some u <->
    u ∈ active s /\ exists i, at_ (scan_intervals s) u = Some i /\ assigned i = p;
  so_over : forall v i, at_ (scan_intervals s) v = Some i -> v ∈ done -> spilled i = false -> v ∉ active s -> end_ i <= position;
  so_apart : forall u v i j, u <> v -> u ∈ done -> v ∈ done -> at_ (scan_intervals s) u = Some i ->
    at_ (scan_intervals s) v = Some j -> spilled i = false -> spilled j = false -> assigned i = assigned j ->
    disjoint_ranges i j;
  so_csrs : forall p, p ∈ scan_csrs s <-> p ∈ csrs \/ is_callee_saved regs p = true /\
    exists v i, v ∈ done /\ at_ (scan_intervals s) v = Some i /\ spilled i = false /\ assigned i = p }.

(** What [expire] leaves. *)
Record expired (s : Scan) (position : Z) (act : list Z) (holder : gmap Z Z) : Prop := {
  ex_active : forall a, a ∈ act <-> a ∈ active s /\ exists i, at_ (scan_intervals s) a = Some i /\ position < end_ i;
  ex_holder : forall p u, holder !! p = Some u <-> u ∈ act /\ exists i, at_ (scan_intervals s) u = Some i /\ assigned i = p }.

Lemma expire_ok done position s position' : scan_ok done position s ->
  exists act holder, expire (scan_intervals s) position' (active s) (reg_holder s) = Some (act, holder) /\
    expired s position' act holder.
Proof using.
  intros Hok. destruct (expire_spec (scan_intervals s) position' (active s) (reg_holder s)) as (act & holder & E & _ & Hact & Hh).
  { intros a Ha. destruct (so_active _ _ _ Hok a Ha) as (_ & i & -> & _). by eexists. }
  exists act, holder. split; [done|]. split; [done|]. intros p u. rewrite Hh, (so_holder _ _ _ Hok), Hact. split.
  - intros [[Ha (i & Hi & Hp)] Hno]. split; [|by exists i]. split; [done|]. exists i. split; [done|].
    destruct (Z.lt_ge_cases position' (end_ i)); [done|]. destruct Hno. by exists u, i.
  - intros [[Ha (i & Hi & Hlt)] (j & Hj & Hp)]. rewrite Hi in Hj. injection Hj as <-. split; [split; [done|by exists i]|].
    intros (a & k & Ha' & Hk & Hle & Hkp).
    assert (Hu1 : reg_holder s !! p = Some u) by (apply (so_holder _ _ _ Hok); split; [done|by exists i]).
    assert (Ha1 : reg_holder s !! p = Some a) by (apply (so_holder _ _ _ Hok); split; [done|by exists k]).
    assert (a = u) as -> by congruence. rewrite Hi in Hk. injection Hk as <-. lia.
Qed.
Lemma expired_over done position s position' act holder u j : scan_ok done position s -> position <= position' ->
  expired s position' act holder -> u ∈ done -> at_ (scan_intervals s) u = Some j -> spilled j = false -> u ∉ act ->
  end_ j <= position'.
Proof using.
  intros Hok Hle [Hact _] Hu Hj Hs Hna. destruct (decide (u ∈ active s)) as [Ha|Ha].
  - destruct (Z.le_gt_cases (end_ j) position'); [done|]. destruct Hna. apply Hact. split; [done|]. exists j. split; [done|lia].
  - pose proof (so_over _ _ _ Hok u j Hj Hu Hs Ha). lia.
Qed.
(** The holders of a register that is free are over. *)
Lemma expired_free done position s position' act holder p u j : scan_ok done position s -> position <= position' ->
  expired s position' act holder -> holder !! p = None -> u ∈ done -> at_ (scan_intervals s) u = Some j ->
  spilled j = false -> assigned j = p -> end_ j <= position'.
Proof using.
  intros Hok Hle Hex Hfree Hu Hj Hs Ha. apply (expired_over done position s position' act holder u j); try done.
  intros Hin. assert (Hh : holder !! p = Some u); [|congruence]. apply (ex_holder _ _ _ _ Hex). split; [done|by exists j].
Qed.

(** Settling the interval of [v]. *)
Lemma scan_ok_put done position s v i0 i act holder act' holder' csrs' : scan_ok done position s -> position <= start i0 ->
  expired s (start i0) act holder -> at_ l v = Some i0 -> v ∉ done -> range i = range i0 -> settled v i ->
  (forall a, a ∈ act' <-> a ∈ act \/ a = v /\ spilled i = false) ->
  (forall q u, holder' !! q = Some u <-> holder !! q = Some u \/ q = assigned i /\ u = v /\ spilled i = false) ->
  (spilled i = false -> holder !! assigned i = None) ->
  (forall q, q ∈ csrs' <-> q ∈ scan_csrs s \/ q = assigned i /\ is_callee_saved regs q = true /\ spilled i = false) ->
  scan_ok (done ++ [v]) (start i0) (mkScan (put (scan_intervals s) v i) act' holder' csrs').
Proof using.
  intros Hok Hpos Hex Hv Hnew Hr Hset Hact' Hholder' Hfree Hcs. pose proof (at_lt _ _ _ Hv) as Hvl.
  assert (Hat : forall u j, at_ (put (scan_intervals s) v i) u = Some j <->
      u = v /\ j = i \/ u <> v /\ at_ (scan_intervals s) u = Some j).
  { intros u j. rewrite at_put by by rewrite (so_size _ _ _ Hok). destruct (decide (v = u)) as [<-|Hu];
      intuition congruence. }
  assert (Hd : forall u, u ∈ done ++ [v] <-> u ∈ done \/ u = v) by (intros u; rewrite elem_of_app, list_elem_of_singleton; done).
  assert (Hactdone : forall a, a ∈ act -> a ∈ done).
  { intros a [Ha _]%(ex_active _ _ _ _ Hex). by apply (so_active _ _ _ Hok). }
  assert (Hclash : forall u j, u ∈ done -> at_ (scan_intervals s) u = Some j -> spilled j = false -> spilled i = false ->
      assigned j = assigned i -> end_ j <= start i).
  { intros u j Hu Hj Hs Hsi Ea. injection Hr as _ -> _ _. apply (expired_free done position s (start i0) act holder (assigned i) u j); try done. by apply Hfree. }
  split; cbn.
  - rewrite size_put. apply Hok.
  - intros u j [[-> ->]|[_ Hj]]%Hat; [by exists i0|by apply (so_range _ _ _ Hok)].
  - intros u j [[-> ->]|[_ Hj]]%Hat Hnd; rewrite Hd in Hnd; [tauto|]. apply (so_rest _ _ _ Hok); tauto.
  - intros u j [[-> ->]|[Hu Hj]]%Hat Hdu; [done|]. apply (so_done _ _ _ Hok); [done|]. apply Hd in Hdu. tauto.
  - intros a Ha. rewrite Hd. apply Hact' in Ha as [Ha|[-> Hs]].
    + pose proof (Hactdone a Ha) as Had. split; [by left|]. apply (ex_active _ _ _ _ Hex) in Ha as [Ha _].
      destruct (so_active _ _ _ Hok a Ha) as (_ & j & Hj & Hs). exists j. split; [|done]. apply Hat. right. split; [by intros ->|done].
    + split; [by right|]. exists i. split; [|done]. apply Hat. by left.
  - intros q u. rewrite Hholder', (ex_holder _ _ _ _ Hex), Hact'. split.
    + intros [[Ha (j & Hj & Hq)]|(-> & -> & Hs)].
      * split; [by left|]. exists j. split; [|done]. apply Hat. right. split; [|done]. intros ->. by apply Hnew, Hactdone.
      * split; [by right|]. exists i. split; [|done]. apply Hat. by left.
    + intros [Ha (j & Hj & <-)]. apply Hat in Hj as [[-> ->]|[Hu Hj]].
      * right. destruct Ha as [Ha|[_ Hs]]; [|done]. by apply Hactdone in Ha.
      * left. destruct Ha as [Ha|[-> _]]; [|done]. split; [done|]. by exists j.
  - intros u j [[-> ->]|[Hu Hj]]%Hat Hdu Hs Hna; [destruct Hna; apply Hact'; by right|]. apply Hd in Hdu as [Hdu|]; [|done].
    eapply expired_over; [done|done|done|done|done|done|]. intros Ha. apply Hna, Hact'. by left.
  - intros u w j k Hne' Hu Hw [[-> ->]|[Hu' Hj]]%Hat [[-> ->]|[Hw' Hk]]%Hat Hsj Hsk Ea; [done|..].
    + right. apply Hd in Hw as [Hw|]; [|done]. by apply (Hclash w k).
    + left. apply Hd in Hu as [Hu|]; [|done]. by apply (Hclash u j).
    + apply Hd in Hu as [Hu|], Hw as [Hw|]; try done. by apply (so_apart _ _ _ Hok u w).
  - intros q. rewrite Hcs, (so_csrs _ _ _ Hok). split.
    + intros [[Hq|[Hcq (u & j & Hu & Hj & Hs & Ha)]]|(-> & Hc & Hs)]; [by left|right..].
      * split; [done|]. exists u, j. rewrite Hd, Hat. split; [by left|]. split; [|done]. right. split; [by intros ->|done].
      * split; [done|]. exists v, i. rewrite Hd, Hat. split; [by right|]. split; [by left|done].
    + intros [Hq|[Hcq (u & j & Hu & [[-> ->]|[Hu' Hj]]%Hat & Hs & Ha)]]; [by left; left|by right|].
      left. right. split; [done|]. exists u, j. apply Hd in Hu as [Hu|]; done.
Qed.

Lemma assign_interval_spec done position s v i0 : scan_ok done position s -> at_ l v = Some i0 -> v ∉ done ->
  position <= start i0 ->
  exists s', assign_interval regs classes v s = Some s' /\ scan_ok (done ++ [v]) (start i0) s'.
Proof using Hfresh Hsize.
  intros Hok Hv Hnew Hpos. pose proof (at_lt _ _ _ Hv) as Hvl.
  assert (Hi : at_ (scan_intervals s) v = Some i0).
  { destruct (proj2 (at_is_Some (scan_intervals s) v)) as [i Hi]; [by rewrite (so_size _ _ _ Hok)|].
    rewrite Hi, <- Hv. symmetry. by apply (so_rest _ _ _ Hok). }
  destruct (proj2 (at_is_Some classes v)) as [cls Hcls]; [by rewrite <- Hsize|].
  destruct (expire_ok done position s (start i0) Hok) as (act & holder & E & Hex).
  unfold assign_interval. rewrite Hi. cbn [mbind option_bind]. rewrite E. cbn [mbind option_bind]. rewrite Hcls.
  cbn [mbind option_bind]. destruct (Hfresh v i0 Hv) as (Hiv & Has & Hsp).
  set (p := choose regs cls (crosses_call i0) holder).
  destruct (Z.eqb_spec p kNoReg) as [Ep|Ep]; (eexists; split; [done|]); eapply scan_ok_put; try done; cbn.
  - by exists cls.
  - intros a. intuition discriminate.
  - intros q u. intuition discriminate.
  - intros q. intuition discriminate.
  - exists cls. split; [done|]. cbn. rewrite Hsp. by apply (choose_spec regs cls _ holder).
  - intros a. rewrite elem_of_app, list_elem_of_singleton. tauto.
  - assert (Hfree : holder !! p = None) by by apply (choose_spec regs cls (crosses_call i0)).
    intros q u. rewrite lookup_insert_Some. destruct (decide (p = q)) as [<-|]; [|intuition congruence].
    rewrite Hfree. intuition congruence.
  - intros _. by apply (choose_spec regs cls (crosses_call i0)).
  - intros q. rewrite <- note_used_csr_spec. intuition congruence.
Qed.

#[local] Instance before_total : Total before.
Proof using. intros a b. unfold before. lia. Qed.
#[local] Instance before_trans : Transitive before.
Proof using. intros a b c. unfold before. lia. Qed.

(** The intervals that occur, each with its register or its slot. *)
Record allocation_ok (l' : list Interval) (csrs' : list Z) : Prop := {
  ao_size : size l' = size l;
  ao_range : forall v i, at_ l' v = Some i -> exists i0, at_ l v = Some i0 /\ range i = range i0;
  ao_settled : forall v i, at_ l' v = Some i -> start i <> kNoPos -> settled v i;
  ao_apart : forall u v i j, u <> v -> at_ l' u = Some i -> at_ l' v = Some j -> start i <> kNoPos -> start j <> kNoPos ->
    spilled i = false -> spilled j = false -> assigned i = assigned j -> disjoint_ranges i j;
  ao_csrs : forall p, p ∈ csrs' <-> p ∈ csrs \/ is_callee_saved regs p = true /\
    exists v i, at_ l' v = Some i /\ start i <> kNoPos /\ spilled i = false /\ assigned i = p }.

Lemma assign_registers_spec : exists l' csrs', assign_registers regs classes l csrs = Some (l', csrs') /\ allocation_ok l' csrs'.
Proof using Hfresh Hsize.
  unfold assign_registers, allocation_order. rewrite for_each_map.
  set (order := merge_sort before (filter (fun i => start i <> kNoPos) l)).
  assert (Hperm : Permutation order (filter (fun i => start i <> kNoPos) l)) by apply merge_sort_Permutation.
  assert (Hin : forall i, i ∈ order <-> start i <> kNoPos /\ at_ l (ivreg i) = Some i).
  { intros i. rewrite Hperm, list_elem_of_filter. split; intros [Hs Hi]; (split; [done|]).
    - apply elem_at in Hi as [v Hi]. by destruct (Hfresh v i Hi) as [-> _].
    - by eapply at_elem. }
  assert (Hsorted : StronglySorted before order) by apply (StronglySorted_merge_sort before).
  assert (Hnd : NoDup (map ivreg order)).
  { rewrite Hperm. assert (Hl : NoDup (map ivreg l)).
    { apply NoDup_alt. intros i j x. rewrite !list_lookup_fmap. intros Hi Hj.
      destruct (l !! i) as [a|] eqn:Ea, (l !! j) as [b|] eqn:Eb; try done. cbn in Hi, Hj.
      assert (Ha : at_ l (Z.of_nat i) = Some a) by (unfold at_; destruct (Z.ltb_spec (Z.of_nat i) 0); [lia|by rewrite Nat2Z.id]).
      assert (Hb : at_ l (Z.of_nat j) = Some b) by (unfold at_; destruct (Z.ltb_spec (Z.of_nat j) 0); [lia|by rewrite Nat2Z.id]).
      destruct (Hfresh _ _ Ha) as [E1 _], (Hfresh _ _ Hb) as [E2 _]. injection Hi as <-. injection Hj as E. lia. }
    clear -Hl. induction l as [|i k IH]; [done|]. cbn [map] in Hl. apply list.NoDup_cons in Hl as [Hi Hk].
    rewrite filter_cons. destruct (decide _); [|by apply IH]. cbn [map]. apply list.NoDup_cons. split; [|by apply IH].
    intros Hx. apply Hi. apply list_elem_of_fmap in Hx as (j & -> & Hj%list_elem_of_filter). apply list_elem_of_fmap.
    exists j. split; [done|apply Hj]. }
  destruct (for_each_spec (fun i => assign_interval regs classes (ivreg i)) (fun done s => exists position,
      scan_ok (map ivreg done) position s /\ forall rest, order = done ++ rest -> forall i, i ∈ rest -> position <= start i)
    order (mkScan l [] ∅ csrs)) as (s & -> & position & Hok & _).
  - exists (match order with i :: _ => start i | [] => 0 end). split.
    + split; cbn; try done.
      * intros v i Hi. by exists i.
      * by intros v i _ ?%elem_of_nil.
      * by intros a ?%elem_of_nil.
      * intros p u. rewrite lookup_empty. split; [done|]. by intros [?%elem_of_nil _].
      * by intros u v i j _ ?%elem_of_nil.
      * intros p. split; [by left|]. intros [?|(_ & v & i & ?%elem_of_nil & _)]; done.
    + intros rest E i Hi. change ([] ++ rest) with rest in E. rewrite <- E in Hi. clear E. destruct Hsorted as [|j k _ Hall]; [by apply elem_of_nil in Hi|].
      apply elem_of_cons in Hi as [->|Hi]; [done|]. rewrite Forall_forall in Hall.
      apply list_elem_of_In, Hall in Hi. unfold before in Hi. lia.
  - intros done i rest s Eo (position & Hok & Hpos).
    assert (Hi : i ∈ order) by (rewrite Eo; apply elem_of_app; right; left). pose proof (proj1 (Hin i) Hi) as [_ Hat].
    rewrite Eo, map_app in Hnd. cbn [map] in Hnd. apply list.NoDup_app in Hnd as (_ & Hnd & _).
    destruct (assign_interval_spec (map ivreg done) position s (ivreg i) i Hok Hat) as (s' & E & Hok').
    + intros Hx. apply (Hnd (ivreg i) Hx). left.
    + apply (Hpos (i :: rest) Eo). left.
    + exists s'. split; [done|]. exists (start i). split; [by rewrite map_app|].
      intros rest' E' j Hj. rewrite Eo in E'. rewrite <- app_assoc in E'. apply app_inv_head in E'. injection E' as <-.
      rewrite Eo in Hsorted. apply StronglySorted_app_1_r in Hsorted. inversion Hsorted as [|? ? _ Hall]; subst.
      rewrite Forall_forall in Hall. apply list_elem_of_In, Hall in Hj. unfold before in Hj. lia.
  - cbn [mbind option_bind]. eexists _, _. split; [done|].
    assert (Hdone : forall v i, at_ (scan_intervals s) v = Some i -> start i <> kNoPos <-> v ∈ map ivreg order).
    { intros v i Hi. destruct (so_range _ _ _ Hok v i Hi) as (i0 & Hi0 & Er). injection Er as _ -> _ _.
      destruct (Hfresh v i0 Hi0) as [Hv _]. rewrite list_elem_of_fmap. split.
      - intros Hs. exists i0. split; [done|]. apply Hin. rewrite Hv. done.
      - intros (j & -> & [Hs Hj]%Hin). rewrite Hi0 in Hj. by injection Hj as ->. }
    split; [apply Hok|apply Hok|..].
    + intros v i Hi Hs. apply (so_done _ _ _ Hok v i Hi). by eapply Hdone.
    + intros u v i j Hne Hi Hj Hsi Hsj. apply (so_apart _ _ _ Hok u v i j Hne); [by eapply Hdone|by eapply Hdone|done|done].
    + intros p. rewrite (so_csrs _ _ _ Hok). split; (intros [?|(Hc & v & i & H1 & H2 & H3 & H4)]; [by left|right]);
        (split; [done|]; exists v, i).
      * split; [done|]. split; [|done]. by apply (Hdone v i H2).
      * split; [by apply (Hdone v i H1)|done].
Qed.
End Assign.
