(* ===== verification/MirSemantics.v ===== *)
(** * Executing machine code

    The specification register allocation is proved against. What the instructions
    of a target do is a parameter: [sem] takes an instruction with its tracked
    registers blanked out, the values it reads from them, and the rest of the
    machine, the world (memory, flags, and the registers code names itself), and
    gives the value for the first operand, the new world and where control goes.
    Virtual registers, the physical registers an allocator may hand out, and the
    frame objects an allocator adds are kept apart from the world. Calls may leave
    anything in the registers a callee need not save. *)
From stdpp Require Import functions.
From S2P Require Import Prelude Vectors Mir.
Open Scope Z_scope.

(** The registers a linear-scan allocator may hand out. *)
Definition scratches (regs : TargetRegInfo) : list Z := linear_gpr_scratch regs ++ linear_fpr_scratch regs.
Definition handed_out (regs : TargetRegInfo) : list Z :=
  (linear_gpr_caller regs ++ linear_gpr_callee regs ++ linear_fpr_caller regs ++ linear_fpr_callee regs) ++ scratches regs.

Inductive Exit := Next | Goto (block : Z) | Halt.

Section Machine.
Context {val world : Type} (sem : MInst -> list val -> world -> option (val * world * Exit)) (junk : world -> Z -> val)
  (regs : TargetRegInfo) (hooks : SpillHooks) (opcode_info : Z -> RegAllocOpcodeInfo).

Record Machine := mkMachine { vregs : Z -> val; pregs : Z -> val; slots : Z -> val; the_world : world }.

Definition tracked (o : MOperand) : bool :=
  bool_decide (kind o = Reg) && (is_virtual (reg o) || bool_decide (index (reg o) ∈ handed_out regs)).
Definition blank_operand (o : MOperand) : MOperand := if tracked o then set_reg (vreg 0) o else o.
Definition blank (inst : MInst) : MInst := mkMInst (opcode inst) (maux inst) (map blank_operand (operands inst)).

Definition get (r : MReg) (m : Machine) : val := if is_virtual r then vregs m (index r) else pregs m (index r).
Definition set (r : MReg) (x : val) (m : Machine) : Machine :=
  if is_virtual r then mkMachine (<[index r := x]> (vregs m)) (pregs m) (slots m) (the_world m)
  else mkMachine (vregs m) (<[index r := x]> (pregs m)) (slots m) (the_world m).

(** The values read: of every tracked operand, but the first when it is only defined. *)
Definition read_operand (m : Machine) (o : MOperand) : list val := if tracked o then [get (reg o) m] else [].
Definition only_defines (info : RegAllocOpcodeInfo) : bool := defines_operand0 info && negb (reads_operand0 info).
Definition inputs (inst : MInst) (m : Machine) : list val :=
  concat (map (read_operand m) (if only_defines (opcode_info (opcode inst)) then tail (operands inst) else operands inst)).

Definition after_call (w : world) (m : Machine) : Machine :=
  mkMachine (vregs m) (fun p => if is_callee_saved regs p then pregs m p else junk w p) (slots m) w.
Definition with_world (w : world) (m : Machine) : Machine := mkMachine (vregs m) (pregs m) (slots m) w.

Definition exec_plain (inst : MInst) (m : Machine) : option (Machine * Exit) :=
  let info := opcode_info (opcode inst) in
  '(x, w, e) ← sem (blank inst) (inputs inst m) (the_world m);
  let m := if is_call info then after_call w m else with_world w m in
  Some (match operands inst with
        | o :: _ => if defines_operand0 info && tracked o then set (reg o) x m else m
        | [] => m
        end, e).

(** A load or store of a frame object added by the allocator. *)
Definition reload_opcodes : list Z := [load_gpr hooks; load_fpr hooks; load_fpr128 hooks].
Definition spill_opcodes : list Z := [store_gpr hooks; store_fpr hooks; store_fpr128 hooks].
Definition spill_access (own_objects : Z) (inst : MInst) : option (bool * Z * Z) :=
  match operands inst with
  | [r; o; _] =>
      if bool_decide (kind r = Reg) && bool_decide (kind o = FrameIndex) && (own_objects <=? frame_index o) then
        if bool_decide (opcode inst ∈ reload_opcodes) then Some (true, index (reg r), frame_index o)
        else if bool_decide (opcode inst ∈ spill_opcodes) then Some (false, index (reg r), frame_index o) else None
      else None
  | _ => None
  end.
Definition exec_inst (own_objects : Z) (inst : MInst) (m : Machine) : option (Machine * Exit) :=
  match spill_access own_objects inst with
  | Some (true, p, slot) =>
      Some (mkMachine (vregs m) (<[p := slots m slot]> (pregs m)) (slots m) (the_world m), Next)
  | Some (false, p, slot) =>
      Some (mkMachine (vregs m) (pregs m) (<[slot := pregs m p]> (slots m)) (the_world m), Next)
  | None => exec_plain inst m
  end.
Fixpoint exec_insts (own_objects : Z) (l : list MInst) (m : Machine) : option (Machine * Exit) :=
  match l with
  | [] => Some (m, Next)
  | inst :: l =>
      '(m, e) ← exec_inst own_objects inst m;
      match e with Next => exec_insts own_objects l m | _ => Some (m, e) end
  end.

(** Execution of a number of blocks: the world when it halts, or where it has come
    to. Running off the end of a block, and leaving to a block that is not a
    successor, have no result. *)
Inductive Outcome := Halted (w : world) | Running (block : Z) (w : world).
Fixpoint run (own_objects : Z) (blocks : list MBlock) (steps : nat) (b : Z) (m : Machine) : option Outcome :=
  match steps with
  | O => Some (Running b (the_world m))
  | S steps =>
      block ← at_ blocks b;
      '(m, e) ← exec_insts own_objects (insts block) m;
      match e with
      | Next => None
      | Halt => Some (Halted (the_world m))
      | Goto s => if bool_decide (s ∈ succs block) then run own_objects blocks steps s m else None
      end
  end.

Lemma exec_insts_app own l1 l2 m : exec_insts own (l1 ++ l2) m =
  '(m, e) ← exec_insts own l1 m; match e with Next => exec_insts own l2 m | _ => Some (m, e) end.
Proof using.
  revert m. induction l1 as [|inst l1 IH]; intros m; cbn [exec_insts app]; [done|].
  destruct (exec_inst own inst m) as [[m' e]|]; cbn [mbind option_bind]; [|done]. destruct e; [apply IH|done..].
Qed.
End Machine.
