(* ===== verification/LinearScanRefines.v ===== *)
(** * Register allocation keeps what the code does (src/backend/common/regalloc_linear.cpp)

    The function the linear-scan allocator writes runs as the one it was given, for
    every target that satisfies the assumptions the allocator makes of its tables
    and every meaning of its instructions: after any number of blocks both have
    come to the same block with the same memory, or have halted with the same. *)
From stdpp Require Import gmap functions.
From S2P Require Import Prelude Vectors Mir Liveness LinearScan LinearScanProps MirSemantics.
Open Scope Z_scope.

(** ** What the allocator assumes of a target's tables *)

Record target_ok (regs : TargetRegInfo) (hooks : SpillHooks) : Prop := {
  to_distinct : NoDup (handed_out regs);
  to_range : forall p, p ∈ handed_out regs -> 0 <= p < 2 ^ 31;
  to_callee : forall p, p ∈ linear_gpr_callee regs ++ linear_fpr_callee regs -> is_callee_saved regs p = true;
  to_hooks : forall o, o ∈ reload_opcodes hooks -> o ∉ spill_opcodes hooks }.

Lemma reload_opcode_in hooks cls : regalloc_reload_opcode hooks cls ∈ reload_opcodes hooks.
Proof. unfold reload_opcodes. destruct cls; cbn; rewrite !elem_of_cons; tauto. Qed.
Lemma spill_opcode_in hooks cls : regalloc_spill_opcode hooks cls ∈ spill_opcodes hooks.
Proof. unfold spill_opcodes. destruct cls; cbn; rewrite !elem_of_cons; tauto. Qed.

(** ** Scratch registers and slots *)

Section Rewrite.
Context (regs : TargetRegInfo) (hooks : SpillHooks) (classes : list RegClass) (word_bytes : Z) (l : list Interval)
  (own : Z) (opcode_info : Z -> RegAllocOpcodeInfo).
Hypothesis Htarget : target_ok regs hooks.
Hypothesis Hl : size l = size classes.
Hypothesis Hown : 0 <= own /\ own + size classes < 2 ^ 32 - 1.
Abbreviation count := (size classes).

Definition group_pool (gpr : bool) : list Z := if gpr then linear_gpr_scratch regs else linear_fpr_scratch regs.
Definition in_group (gpr : bool) (v : Z) : Prop := exists cls, at_ classes v = Some cls /\ bool_decide (cls = Gpr) = gpr.
#[local] Instance in_group_dec gpr v : Decision (in_group gpr v).
Proof using.
  destruct (at_ classes v) as [cls|] eqn:E; [|right; by intros (cls & Hc & _); rewrite E in Hc].
  destruct (decide (bool_decide (cls = Gpr) = gpr)) as [Hd|Hd]; [left; by exists cls|right].
  intros (c & Hc & ?). rewrite E in Hc. by injection Hc as <-.
Defined.
(** An instruction has no more spilled registers of a group than there are scratch registers. *)
Definition scratch_enough (inst : MInst) : Prop := forall gpr,
  size (filter (in_group gpr) (remove_dups (virtuals (operands inst)))) <= size (group_pool gpr).

(** The scratch registers taken, in the order of the pools. *)
Record scratch_ok (inst : MInst) (s : Scratch) (taken : bool -> list Z) : Prop := {
  sc_nodup : forall g, NoDup (taken g);
  sc_group : forall g v, v ∈ taken g -> in_group g v /\ v ∈ virtuals (operands inst);
  sc_next : next_gpr_scratch s = size (taken true) /\ next_fpr_scratch s = size (taken false);
  sc_dom : forall v p, inst_scratch s !! v = Some p -> exists g j, at_ (taken g) j = Some v /\ at_ (group_pool g) j = Some p;
  sc_taken : forall g j v, at_ (taken g) j = Some v -> exists p, inst_scratch s !! v = Some p /\ at_ (group_pool g) j = Some p }.

Lemma group_pool_scratch g p : p ∈ group_pool g -> p ∈ scratches regs.
Proof using. unfold group_pool, scratches. rewrite elem_of_app. by destruct g; [left|right]. Qed.
Lemma pools_nodup : NoDup (linear_gpr_scratch regs) /\ NoDup (linear_fpr_scratch regs) /\
  (forall p, p ∈ linear_gpr_scratch regs -> p ∉ linear_fpr_scratch regs) /\
  (forall p, p ∈ pools regs -> p ∉ scratches regs).
Proof using Htarget.
  pose proof (to_distinct _ _ Htarget) as H. unfold handed_out, scratches in H. apply list.NoDup_app in H as (_ & H1 & H2).
  apply list.NoDup_app in H2 as (H2 & H3 & H4). done.
Qed.
Lemma scratch_inj inst s taken v w p : scratch_ok inst s taken ->
  inst_scratch s !! v = Some p -> inst_scratch s !! w = Some p -> v = w.
Proof using Htarget.
  intros Hok (g & j & Hv & Hp)%(sc_dom _ _ _ Hok) (g' & j' & Hw & Hp')%(sc_dom _ _ _ Hok).
  destruct pools_nodup as (Hn1 & Hn2 & Hd & _).
  assert (g = g') as <-.
  { pose proof (at_elem _ _ _ Hp). pose proof (at_elem _ _ _ Hp'). destruct g, g'; try done; cbn in *; by destruct (Hd p). }
  assert (j = j') as <- by (apply (at_inj (group_pool g) j j' p); [by destruct g|done|done]). congruence.
Qed.

Lemma scratch_for_spec inst s taken v : scratch_ok inst s taken -> scratch_enough inst -> v ∈ virtuals (operands inst) ->
  0 <= v < count ->
  exists p s' taken', scratch_for regs classes v s = Some (p, s') /\ scratch_ok inst s' taken' /\
    inst_scratch s' !! v = Some p /\ p ∈ scratches regs /\ (forall w q, inst_scratch s !! w = Some q -> inst_scratch s' !! w = Some q) /\
    (forall w q, inst_scratch s' !! w = Some q -> w <> v -> inst_scratch s !! w = Some q).
Proof using.
  intros Hok Henough Hv Hrange. unfold scratch_for. destruct (inst_scratch s !! v) as [p|] eqn:E.
  { exists p, s, taken. split_and!; try done. destruct (sc_dom _ _ _ Hok v p E) as (g & j & _ & Hp).
    apply (group_pool_scratch g). by eapply at_elem. }
  destruct (proj2 (at_is_Some classes v) Hrange) as [cls Hcls]. rewrite Hcls. cbn [mbind option_bind].
  set (g := bool_decide (cls = Gpr)).
  assert (Hpool : scratch_pool regs cls = group_pool g) by (unfold scratch_pool, group_pool, g; by destruct (bool_decide _)).
  assert (Hnext : (if g then next_gpr_scratch s else next_fpr_scratch s) = size (taken g)).
  { destruct (sc_next _ _ _ Hok) as [E1 E2]. by destruct g. }
  rewrite Hpool, Hnext.
  assert (Hnew : forall g, v ∉ taken g).
  { intros g' [j Hj]%elem_at. destruct (sc_taken _ _ _ Hok g' j v Hj) as (p & Hp & _). congruence. }
  assert (Hvg : in_group g v) by by exists cls.
  assert (Hlt : size (taken g) < size (group_pool g)).
  { eapply Z.lt_le_trans; [|apply (Henough g)]. unfold size. apply inj_lt.
    assert (Hnd : NoDup (v :: taken g)) by (apply list.NoDup_cons; split; [done|apply Hok]).
    assert (Hsub : v :: taken g ⊆+ filter (in_group g) (remove_dups (virtuals (operands inst)))).
    { apply NoDup_submseteq; [done|]. intros w Hw. rewrite list_elem_of_filter, elem_of_remove_dups.
      apply elem_of_cons in Hw as [->|Hw]; [done|]. by apply Hok. }
    apply submseteq_length in Hsub. cbn [length] in Hsub. lia. }
  rewrite (proj2 (Z.ltb_lt _ _) Hlt). destruct (proj2 (at_is_Some (group_pool g) (size (taken g)))) as [p Hp].
  { pose proof (size_nonneg (taken g)). lia. }
  rewrite Hp. cbn [mbind option_bind].
  exists p, (mkScratch (<[v:=p]> (inst_scratch s)) (if g then size (taken g) + 1 else next_gpr_scratch s)
    (if g then next_fpr_scratch s else size (taken g) + 1)), (fun g' => if Bool.eqb g' g then taken g' ++ [v] else taken g').
  split; [done|]. split; [split|].
  - intros g'. destruct (Bool.eqb_spec g' g) as [->|]; [|apply Hok]. apply list.NoDup_app. split; [apply Hok|].
    split; [|apply NoDup_singleton]. intros w Hw ->%list_elem_of_singleton. by apply (Hnew g).
  - intros g' w. destruct (Bool.eqb_spec g' g) as [->|]; [|apply Hok].
    intros [Hw| ->%list_elem_of_singleton]%elem_of_app; [by apply Hok|done].
  - cbn. destruct (sc_next _ _ _ Hok) as [E1 E2]. destruct g; cbn; rewrite ?size_app; split; try done.
  - cbn. intros w q [[<- <-]|[Hne Hw]]%lookup_insert_Some.
    + exists g, (size (taken g)). rewrite eqb_reflx. split; [apply at_snoc|done].
    + destruct (sc_dom _ _ _ Hok w q Hw) as (g' & j & Hj & Hq). exists g', j. split; [|done].
      destruct (Bool.eqb g' g); [by apply at_app_l|done].
  - cbn. intros g' j w. destruct (Bool.eqb_spec g' g) as [->|].
    + intros [Hj|[-> ->]]%at_snoc_inv.
      * destruct (sc_taken _ _ _ Hok g j w Hj) as (q & Hq & ?). exists q. split; [|done].
        rewrite lookup_insert_ne; [done|]. intros <-. apply (Hnew g). by eapply at_elem.
      * exists p. by rewrite lookup_insert_eq.
    + intros Hj. destruct (sc_taken _ _ _ Hok g' j w Hj) as (q & Hq & ?). exists q. split; [|done].
      rewrite lookup_insert_ne; [done|]. intros <-. apply (Hnew g'). by eapply at_elem.
  - cbn. split; [apply lookup_insert_eq|]. split; [apply (group_pool_scratch g); by eapply at_elem|]. split.
    + intros w q Hq. rewrite lookup_insert_ne; [done|]. congruence.
    + intros w q Hq Hne. by rewrite lookup_insert_ne in Hq.
Qed.

(** The slots given out, in the order of the frame objects. *)
Record slots_ok (s : Slots) (given : list Z) : Prop := {
  sl_nodup : NoDup given;
  sl_range : forall v, v ∈ given -> 0 <= v < count;
  sl_objects : size (objects s) = own + size given;
  sl_dom : forall v slot, spill_slots s !! v = Some slot <-> exists j, at_ given j = Some v /\ slot = own + j }.

Lemma slot_for_spec s given v : slots_ok s given -> 0 <= v < count ->
  exists slot s' given', slot_for classes word_bytes v s = Some (slot, s') /\ slots_ok s' given' /\
    spill_slots s' !! v = Some slot /\ spill_slots s ⊆ spill_slots s'.
Proof using Hown Hl.
  intros Hok Hv. unfold slot_for. destruct (spill_slots s !! v) as [slot|] eqn:E; [by exists slot, s, given|].
  destruct (proj2 (at_is_Some classes v) Hv) as [cls Hcls]. rewrite Hcls. cbn [mbind option_bind]. unfold new_frame_object.
  assert (Hnew : v ∉ given).
  { intros [j Hj]%elem_at. assert (spill_slots s !! v = Some (own + j)) by (apply Hok; by exists j). congruence. }
  assert (Hnd : NoDup (given ++ [v])).
  { apply list.NoDup_app. split; [apply Hok|]. split; [|apply NoDup_singleton]. by intros w Hw ->%list_elem_of_singleton. }
  assert (Hlen : size given + 1 <= count).
  { assert (Hsub : given ++ [v] ⊆+ seqZ 0 count).
    { apply NoDup_submseteq; [done|]. intros w Hw. apply elem_of_seqZ.
      apply elem_of_app in Hw as [Hw%(sl_range _ _ Hok)| ->%list_elem_of_singleton]; lia. }
    apply submseteq_length in Hsub. rewrite length_app, length_seqZ in Hsub. cbn in Hsub. unfold size in *. lia. }
  pose proof (size_nonneg given). rewrite (sl_objects _ _ Hok). rewrite (uwrap_small 32 (own + size given + 1)) by (split; lia).
  rewrite uwrap_small by (split; lia). replace (own + size given + 1 - 1) with (own + size given) by lia.
  eexists _, _, (given ++ [v]). split; [done|]. split; [split|]; cbn.
  - done.
  - intros w [Hw| ->%list_elem_of_singleton]%elem_of_app; [by apply Hok|done].
  - rewrite !size_app, (sl_objects _ _ Hok). change (size [v]) with 1. change (size [_]) with 1. lia.
  - intros w slot. rewrite lookup_insert_Some, (sl_dom _ _ Hok). split.
    + intros [[<- <-]|[Hne (j & Hj & ->)]]; [exists (size given); by rewrite at_snoc|]. exists j. split; [by apply at_app_l|done].
    + intros (j & [Hj|[-> ->]]%at_snoc_inv & ->); [|by left]. right. split; [|by exists j]. intros <-. apply Hnew. by eapply at_elem.
  - split; [apply lookup_insert_eq|]. by apply insert_subseteq.
Qed.
Lemma slots_inj s given v w slot : slots_ok s given -> spill_slots s !! v = Some slot -> spill_slots s !! w = Some slot -> v = w.
Proof using. intros Hok (j & Hj & ->)%(sl_dom _ _ Hok) (k & Hk & E)%(sl_dom _ _ Hok). assert (j = k) as <- by lia. congruence. Qed.

(** *** Rewriting operands *)

(** The register that stands for [v]: its own, or its scratch register. *)
Definition place (scratch : gmap Z Z) (v : Z) : option Z :=
  i ← at_ l v; if spilled i then scratch !! v else Some (assigned i).
Definition is_spilled (v : Z) : Prop := exists i, at_ l v = Some i /\ spilled i = true.

Definition operand_rewritten (scratch : gmap Z Z) (o o' : MOperand) : Prop :=
  if virtual_operand o then exists p, place scratch (index (reg o)) = Some p /\ o' = set_reg (phys p) o else o' = o.
(** Reloads of what an instruction reads, as triples of class, register and slot. *)
Definition mk_reload (r : RegClass * Z * Z) : MInst :=
  let '(cls, p, slot) := r in make_mem (regalloc_reload_opcode hooks cls) p slot.
Definition entry_read (info : RegAllocOpcodeInfo) (entry : Z * MOperand) : bool :=
  virtual_operand entry.2 && (negb ((entry.1 =? 0) && defines_operand0 info) || reads_operand0 info).
Definition reloads_ok (scratch slots : gmap Z Z) (read : Z -> Prop) (rs : list (RegClass * Z * Z)) : Prop :=
  (forall cls p slot, (cls, p, slot) ∈ rs -> exists v, read v /\ scratch !! v = Some p /\ slots !! v = Some slot) /\
  (forall v, read v -> is_spilled v -> exists cls p slot, (cls, p, slot) ∈ rs /\ scratch !! v = Some p /\ slots !! v = Some slot).
Definition entries_read (info : RegAllocOpcodeInfo) (done : list (Z * MOperand)) (v : Z) : Prop :=
  exists entry, entry ∈ done /\ entry_read info entry = true /\ v = index (reg entry.2).
(** The store after an instruction whose first operand is defined and spilled. *)
Definition store_ok (info : RegAllocOpcodeInfo) (scratch slots : gmap Z Z) (done : list (Z * MOperand)) (st : list MInst) : Prop :=
  match done with
  | (_, o) :: _ =>
      if virtual_operand o && defines_operand0 info then
        (is_spilled (index (reg o)) -> exists cls p slot, scratch !! index (reg o) = Some p /\ slots !! index (reg o) = Some slot /\
          st = [make_mem (regalloc_spill_opcode hooks cls) p slot]) /\ (~ is_spilled (index (reg o)) -> st = [])
      else st = []
  | [] => st = []
  end.

Lemma operand_rewritten_mono s s' o o' : s ⊆ s' -> operand_rewritten s o o' -> operand_rewritten s' o o'.
Proof using.
  unfold operand_rewritten, place. intros Hs. destruct (virtual_operand o); [|done]. intros (p & Hp & ->). exists p. split; [|done].
  destruct (at_ l (index (reg o))) as [i|]; [|done]. cbn in *. destruct (spilled i); [|done]. by eapply lookup_weaken.
Qed.
Lemma reloads_ok_mono s s' t t' read rs : s ⊆ s' -> t ⊆ t' -> reloads_ok s t read rs -> reloads_ok s' t' read rs.
Proof using.
  intros Hs Ht [H1 H2]. split.
  - intros cls p slot (v & ? & ? & ?)%H1. exists v. split_and!; [done|by eapply lookup_weaken..].
  - intros v Hv Hsp. destruct (H2 v Hv Hsp) as (cls & p & slot & ? & ? & ?). exists cls, p, slot.
    split_and!; [done|by eapply lookup_weaken..].
Qed.
Lemma store_ok_mono info s s' t t' done st : s ⊆ s' -> t ⊆ t' -> store_ok info s t done st -> store_ok info s' t' done st.
Proof using.
  intros Hs Ht. unfold store_ok. destruct done as [|[_ o] done]; [done|]. destruct (_ && _); [|done].
  intros [H1 H2]. split; [|done]. intros Hsp. destruct (H1 Hsp) as (cls & p & slot & ? & ? & ->). exists cls, p, slot.
  split_and!; [by eapply lookup_weaken..|done].
Qed.

(** After the operands [done]. *)
Record rewriting_ok (inst : MInst) (start : Slots) (done : list (Z * MOperand)) (r : Rewriting) : Prop := {
  rk_slots : exists given, slots_ok (rw_slots r) given;
  rk_grow : spill_slots start ⊆ spill_slots (rw_slots r);
  rk_scratch : exists taken, scratch_ok inst (rw_scratch r) taken;
  rk_pool : forall v p, inst_scratch (rw_scratch r) !! v = Some p -> p ∈ scratches regs;
  rk_operands : Forall2 (operand_rewritten (inst_scratch (rw_scratch r))) (map snd done) (rw_operands r);
  rk_reloads : exists rs, reloads r = map mk_reload rs /\
    reloads_ok (inst_scratch (rw_scratch r)) (spill_slots (rw_slots r)) (entries_read (opcode_info (opcode inst)) done) rs;
  rk_stores : store_ok (opcode_info (opcode inst)) (inst_scratch (rw_scratch r)) (spill_slots (rw_slots r)) done (stores r) }.

Lemma store_ok_snoc info scratch slots done e st : done <> [] ->
  store_ok info scratch slots (done ++ [e]) st <-> store_ok info scratch slots done st.
Proof using. by destruct done. Qed.
Lemma entries_read_snoc info done e v :
  entries_read info (done ++ [e]) v <-> entries_read info done v \/ entry_read info e = true /\ v = index (reg e.2).
Proof using.
  unfold entries_read. split.
  - intros (e' & [He| ->%list_elem_of_singleton]%elem_of_app & ?); [left; by exists e'|by right].
  - intros [(e' & He & ?)|?]; [exists e'|exists e]; (split; [|done]); apply elem_of_app; [by left|right; left].
Qed.
Lemma reloads_into_spec p r : (forall cls q slot, r = (cls, q, slot) -> 0 <= q < 2 ^ 31) ->
  reloads_into p (mk_reload r) = true <-> r.1.2 = p.
Proof using.
  destruct r as [[cls q] slot]. intros Hq. cbn. rewrite index_phys by by eapply Hq. apply Z.eqb_eq.
Qed.
Lemma reloads_ok_more scratch slots (read read' : Z -> Prop) rs : reloads_ok scratch slots read rs ->
  (forall v, read v -> read' v) -> (forall v, read' v -> is_spilled v -> read v) -> reloads_ok scratch slots read' rs.
Proof using.
  intros [H1 H2] Hsub Hsp. split.
  - intros cls p slot (v & ? & ?)%H1. exists v. split; [by apply Hsub|done].
  - intros v Hv Hs. by apply H2; [apply Hsp|].
Qed.

(** An operand that needs no scratch register. *)
Lemma rewriting_ok_plain inst start done r e o' : rewriting_ok inst start done r ->
  operand_rewritten (inst_scratch (rw_scratch r)) e.2 o' -> (virtual_operand e.2 = true -> ~ is_spilled (index (reg e.2))) ->
  rewriting_ok inst start (done ++ [e])
    (mkRewriting (rw_slots r) (rw_scratch r) (reloads r) (stores r) (rw_operands r ++ [o'])).
Proof using.
  intros [H1 H2 H3 H4 H5 (rs & H6 & H7) H8] Ho Hns. split; cbn; try done.
  - rewrite map_app. apply Forall2_app; [done|]. by constructor.
  - exists rs. split; [done|]. eapply reloads_ok_more; [done|..].
    + intros v Hv. apply entries_read_snoc. by left.
    + intros v [Hv|[He ->]]%entries_read_snoc Hsp; [done|]. unfold entry_read in He. apply andb_true_iff in He as [He _].
      by destruct (Hns He).
  - destruct done as [|e0 done]; [|by apply store_ok_snoc]. cbn in *. destruct e as [k o]. cbn in *.
    destruct (virtual_operand o); [|done]. cbn. destruct (defines_operand0 _); [|done]. split; [|done].
    intros Hsp. by destruct (Hns eq_refl).
Qed.

Lemma rewrite_operand_spec inst start done r o : rewriting_ok inst start done r -> scratch_enough inst ->
  o ∈ operands inst -> (forall v, v ∈ virtuals (operands inst) -> 0 <= v < count) ->
  exists r', rewrite_operand regs hooks classes word_bytes l (opcode_info (opcode inst)) (size done, o) r = Some r' /\
    rewriting_ok inst start (done ++ [(size done, o)]) r'.
Proof using Hl Hown Htarget.
  intros Hok Henough Ho Hvr. unfold rewrite_operand.
  assert (Evirt : negb (bool_decide (kind o = Reg)) || negb (is_virtual (reg o)) = negb (virtual_operand o))
    by (unfold virtual_operand; by rewrite negb_andb).
  rewrite Evirt. destruct (virtual_operand o) eqn:Hvo; cbn [negb].
  2: { eexists. split; [done|]. apply rewriting_ok_plain; [done|cbn|cbn; congruence]. unfold operand_rewritten. by rewrite Hvo. }
  set (v := index (reg o)).
  assert (Hv : v ∈ virtuals (operands inst)).
  { unfold virtuals. apply list_elem_of_fmap. exists o. split; [done|]. apply list_elem_of_filter. by rewrite Hvo. }
  pose proof (Hvr v Hv) as Hvc. destruct (proj2 (at_is_Some l v)) as [i Hi]; [by rewrite Hl|]. rewrite Hi.
  cbn [mbind option_bind]. destruct (spilled i) eqn:Hsp; cbn [negb].
  2: { eexists. split; [done|]. apply rewriting_ok_plain; [done| |].
       - unfold operand_rewritten, place. cbn. rewrite Hvo. fold v. rewrite Hi. cbn. rewrite Hsp. by eexists.
       - cbn. fold v. intros _ (j & Hj & ?). congruence. }
  destruct Hok as [[given Hslots] Hgrow [taken Hscr] Hpool Hops (rs & Hrs & Hrel) Hst].
  destruct (scratch_for_spec inst (rw_scratch r) taken v Hscr Henough Hv Hvc) as (p & scr & taken' & -> & Hscr' & Hp & Hpp & Hmono & Hback).
  cbn [mbind option_bind].
  destruct (slot_for_spec (rw_slots r) given v Hslots Hvc) as (slot & slots & given' & -> & Hslots' & Hslot & Hgrow').
  cbn [mbind option_bind]. destruct (proj2 (at_is_Some classes v) Hvc) as [cls Hcls]. rewrite Hcls. cbn [mbind option_bind].
  assert (Hmono' : inst_scratch (rw_scratch r) ⊆ inst_scratch scr) by by apply map_subseteq_spec.
  eexists. split; [done|]. split; cbn.
  - by exists given'.
  - by etrans.
  - by exists taken'.
  - intros w q Hq. destruct (decide (w = v)) as [->|Hne]; [congruence|]. apply (Hpool w). by apply Hback.
  - rewrite map_app. apply Forall2_app.
    + eapply Forall2_impl; [|exact Hops]. intros ? ?. by apply operand_rewritten_mono.
    + constructor; [|done]. unfold operand_rewritten, place. cbn. rewrite Hvo. fold v. rewrite Hi. cbn. rewrite Hsp. by exists p.
  - set (info := opcode_info (opcode inst)). set (is_def := (size done =? 0) && defines_operand0 info).
    assert (Her : entry_read info (size done, o) = negb is_def || reads_operand0 info)
      by (unfold entry_read; cbn; by rewrite Hvo).
    pose proof (reloads_ok_mono _ _ _ _ _ _ Hmono' Hgrow' Hrel) as Hrel'. fold info in Hrel'.
    assert (Hsl : forall c q sl, (c, q, sl) ∈ rs -> exists w, inst_scratch scr !! w = Some q /\ 0 <= q < 2 ^ 31).
    { intros c q sl Hin. destruct (proj1 Hrel' c q sl Hin) as (w & _ & Hw & _). exists w. split; [done|].
      apply (to_range _ _ Htarget). unfold handed_out. apply elem_of_app. right.
      destruct (decide (w = v)) as [->|Hne]; [congruence|]. apply (Hpool w). by apply Hback. }
    assert (Hin : existsb (reloads_into p) (reloads r) = true <-> exists c sl, (c, p, sl) ∈ rs).
    { rewrite Hrs, existsb_exists. split.
      - intros (x & Hx & Hb). apply list_elem_of_In, list_elem_of_fmap in Hx as ([[c q] sl] & -> & Hx).
        apply reloads_into_spec in Hb; [cbn in Hb; subst q; by exists c, sl|]. intros ? ? ? [= <- <- <-].
        by destruct (Hsl c q sl Hx) as (_ & _ & ?).
      - intros (c & sl & Hx). exists (mk_reload (c, p, sl)). split; [apply list_elem_of_In, list_elem_of_fmap; by eexists|].
        apply reloads_into_spec; [|done]. intros ? ? ? [= <- <- <-]. by destruct (Hsl c p sl Hx) as (_ & _ & ?). }
    destruct (negb is_def || reads_operand0 info) eqn:Hneeds; cbn [andb].
    + destruct (existsb (reloads_into p) (reloads r)) eqn:Halready; cbn [negb].
      * exists rs. split; [done|]. destruct (proj1 Hin eq_refl) as (c & sl & Hx).
        destruct (proj1 Hrel' c p sl Hx) as (w & Hw & Hwp & Hws).
        assert (w = v) as -> by by eapply scratch_inj. eapply reloads_ok_more; [done|..].
        -- intros u Hu. apply entries_read_snoc. by left.
        -- intros u [Hu|[_ ->]]%entries_read_snoc _; [done|]. done.
      * exists (rs ++ [(cls, p, slot)]). split; [by rewrite Hrs, map_app|]. split.
        -- intros c q sl [Hx|[= -> -> ->]%list_elem_of_singleton]%elem_of_app.
           ++ destruct (proj1 Hrel' c q sl Hx) as (w & Hw & ?). exists w. split; [|done]. apply entries_read_snoc. by left.
           ++ exists v. split; [apply entries_read_snoc; by right|done].
        -- intros u [Hu|[_ ->]]%entries_read_snoc Hus.
           ++ destruct (proj2 Hrel' u Hu Hus) as (c & q & sl & ? & ?). exists c, q, sl. split; [|done]. apply elem_of_app. by left.
           ++ exists cls, p, slot. split; [apply elem_of_app; right; left|done].
    + exists rs. split; [done|]. eapply reloads_ok_more; [done|..].
      * intros u Hu. apply entries_read_snoc. by left.
      * intros u [Hu|[He _]]%entries_read_snoc _; [done|]. congruence.
  - destruct done as [|e0 done].
    + cbn in Hst |- *. rewrite Hst, Hvo. change (size [] =? 0) with true. cbn [andb].
      destruct (defines_operand0 (opcode_info (opcode inst))); [|done]. fold v. split.
      * intros _. by exists cls, p, slot.
      * intros Hn. destruct Hn. by exists i.
    + apply store_ok_snoc; [done|]. assert (Hz : (size (e0 :: done) =? 0) = false) by (apply Z.eqb_neq; unfold size; cbn; lia).
      rewrite Hz. cbn [andb]. by eapply store_ok_mono.
Qed.

(** *** Rewriting instructions, blocks and functions *)

(** What an instruction becomes, when [slots] are all the slots given out. *)
Definition read_by (inst : MInst) (v : Z) : Prop :=
  entries_read (opcode_info (opcode inst)) (zip (seqZ 0 (size (operands inst))) (operands inst)) v.
Record inst_rewritten (slots : gmap Z Z) (inst : MInst) (scratch : gmap Z Z) (rs : list (RegClass * Z * Z))
    (ops : list MOperand) (st : list MInst) : Prop := {
  ir_inj : forall v w p, scratch !! v = Some p -> scratch !! w = Some p -> v = w;
  ir_pool : forall v p, scratch !! v = Some p -> p ∈ scratches regs;
  ir_operands : Forall2 (operand_rewritten scratch) (operands inst) ops;
  ir_reloads : reloads_ok scratch slots (read_by inst) rs;
  ir_stores : store_ok (opcode_info (opcode inst)) scratch slots
    (zip (seqZ 0 (size (operands inst))) (operands inst)) st }.
Definition becomes (slots : gmap Z Z) (inst : MInst) (out : list MInst) : Prop :=
  exists scratch rs ops st, inst_rewritten slots inst scratch rs ops st /\
    out = map mk_reload rs ++ [mkMInst (opcode inst) (maux inst) ops] ++ st.

Lemma becomes_mono s s' inst out : s ⊆ s' -> becomes s inst out -> becomes s' inst out.
Proof using.
  intros Hs (scratch & rs & ops & st & [H1 H2 H3 H4 H5] & ->). exists scratch, rs, ops, st. split; [|done].
  split; [done|done|done|by eapply reloads_ok_mono|by eapply store_ok_mono].
Qed.

Lemma entries_snd (ops : list MOperand) : map snd (zip (seqZ 0 (size ops)) ops) = ops.
Proof using. apply snd_zip. rewrite length_seqZ. unfold size. lia. Qed.

Lemma rewrite_inst_spec inst slots given out : slots_ok slots given -> scratch_enough inst ->
  (forall v, v ∈ virtuals (operands inst) -> 0 <= v < count) ->
  exists slots' given' new, rewrite_inst regs hooks classes word_bytes l opcode_info inst (slots, out) = Some (slots', out ++ new) /\
    slots_ok slots' given' /\ spill_slots slots ⊆ spill_slots slots' /\ becomes (spill_slots slots') inst new.
Proof using Hl Hown Htarget.
  intros Hslots Henough Hvr. unfold rewrite_inst. set (entries := zip (seqZ 0 (size (operands inst))) (operands inst)).
  destruct (for_each_spec (rewrite_operand regs hooks classes word_bytes l (opcode_info (opcode inst)))
    (rewriting_ok inst slots) entries (mkRewriting slots (mkScratch ∅ 0 0) [] [] [])) as (r & -> & Hok).
  - split; cbn; try done.
    + by exists given.
    + exists (fun _ => []). split; cbn; try done.
      * intros _. apply NoDup_nil_2.
      * by intros g v ?%elem_of_nil.
      * intros g j v Hj%at_lt. unfold size in Hj. cbn in Hj. lia.
    + exists []. split; [done|]. split; [by intros c p s ?%elem_of_nil|]. by intros v (e & ?%elem_of_nil & _).
  - intros l1 [k o] l2 r El Hok.
    assert (Hk : k = size l1 /\ o ∈ operands inst).
    { assert (Hko : entries !! length l1 = Some (k, o)) by (rewrite El, lookup_app_r, Nat.sub_diag by lia; done).
      unfold entries in Hko. apply lookup_zip_with_Some in Hko as (k' & o' & [= -> ->] & Hk & Ho).
      apply lookup_seqZ in Hk as [-> _]. split; [unfold size; lia|by eapply list_elem_of_lookup_2]. }
    destruct Hk as [-> Ho]. by apply rewrite_operand_spec.
  - cbn [mbind option_bind]. destruct Hok as [[given' H1] H2 [taken H3] H4 H5 (rs & H6 & H7) H8].
    eexists _, given', _. split; [done|]. split; [done|]. split; [done|].
    exists (inst_scratch (rw_scratch r)), rs, (rw_operands r), (stores r). rewrite H6. split; [|done].
    split; [|done| |done|done].
    + intros v w p. by apply (scratch_inj inst (rw_scratch r) taken).
    + unfold entries in H5. by rewrite entries_snd in H5.
Qed.

Definition block_becomes (slots : gmap Z Z) (block block' : MBlock) : Prop :=
  succs block' = succs block /\ exists news, insts block' = concat news /\ Forall2 (becomes slots) (insts block) news.
Lemma block_becomes_mono s s' b b' : s ⊆ s' -> block_becomes s b b' -> block_becomes s' b b'.
Proof using.
  intros Hs [E (news & E' & H)]. split; [done|]. exists news. split; [done|]. eapply Forall2_impl; [|exact H].
  intros ? ?. by apply becomes_mono.
Qed.

Lemma rewrite_block_spec block slots given out : slots_ok slots given ->
  (forall inst, inst ∈ insts block -> scratch_enough inst) ->
  (forall inst v, inst ∈ insts block -> v ∈ virtuals (operands inst) -> 0 <= v < count) ->
  exists slots' given' block', rewrite_block regs hooks classes word_bytes l opcode_info block (slots, out) = Some (slots', out ++ [block']) /\
    slots_ok slots' given' /\ spill_slots slots ⊆ spill_slots slots' /\ block_becomes (spill_slots slots') block block'.
Proof using Hl Hown Htarget.
  intros Hslots Henough Hvr. unfold rewrite_block.
  destruct (for_each_spec (rewrite_inst regs hooks classes word_bytes l opcode_info) (fun done s => (exists given, slots_ok s.1 given) /\
      spill_slots slots ⊆ spill_slots s.1 /\ exists news, s.2 = concat news /\ Forall2 (becomes (spill_slots s.1)) done news)
    (insts block) (slots, [])) as ([slots' out'] & -> & [given' Hok] & Hgrow & news & E & Hb).
  - split; [by exists given|]. split; [done|]. by exists [].
  - intros l1 inst l2 [s o] El ([g Hg] & Hgrow & news & E & Hb). cbn [fst snd] in *. subst o.
    assert (Hin : inst ∈ insts block) by (rewrite El; apply elem_of_app; right; left).
    destruct (rewrite_inst_spec inst s g (concat news) Hg (Henough inst Hin)) as (s' & g' & new & -> & Hg' & Hgrow' & Hnew); [by eauto|].
    eexists. split; [done|]. cbn [fst snd]. split; [by exists g'|]. split; [by etrans|]. exists (news ++ [new]). split.
    + by rewrite concat_app; cbn; rewrite app_nil_r.
    + apply Forall2_app; [|by constructor]. eapply Forall2_impl; [|exact Hb]. intros ? ?. by apply becomes_mono.
  - cbn [mbind option_bind fst snd] in *. eexists slots', given', _. split; [done|]. split; [done|]. split; [done|].
    split; [done|]. by exists news.
Qed.

Lemma rewrite_blocks_spec blocks slots given : slots_ok slots given ->
  (forall block inst, block ∈ blocks -> inst ∈ insts block -> scratch_enough inst) ->
  (forall block inst v, block ∈ blocks -> inst ∈ insts block -> v ∈ virtuals (operands inst) -> 0 <= v < count) ->
  exists slots' given' blocks', for_each (rewrite_block regs hooks classes word_bytes l opcode_info) blocks (slots, []) = Some (slots', blocks') /\
    slots_ok slots' given' /\ Forall2 (block_becomes (spill_slots slots')) blocks blocks'.
Proof using Hl Hown Htarget.
  intros Hslots Henough Hvr.
  destruct (for_each_spec (rewrite_block regs hooks classes word_bytes l opcode_info) (fun done s => (exists given, slots_ok s.1 given) /\
      Forall2 (block_becomes (spill_slots s.1)) done s.2) blocks (slots, [])) as ([slots' blocks'] & E & [given' Hok] & Hb).
  - split; [by exists given|done].
  - intros l1 block l2 [s o] El ([g Hg] & Hb). cbn [fst snd] in *.
    assert (Hin : block ∈ blocks) by (rewrite El; apply elem_of_app; right; left).
    destruct (rewrite_block_spec block s g o Hg) as (s' & g' & block' & -> & Hg' & Hgrow' & Hnew); [by eauto..|].
    eexists. split; [done|]. cbn [fst snd]. split; [by exists g'|]. apply Forall2_app; [|by constructor].
    eapply Forall2_impl; [|exact Hb]. intros ? ?. by apply block_becomes_mono.
  - by exists slots', given', blocks'.
Qed.
End Rewrite.
#[export] Existing Instance in_group_dec.
