(* ===== verification/MirTargets.v ===== *)
(** * The registers of the targets (reg_info of src/backend/x86/insts.cpp,
    src/backend/aarch64/insts.cpp and src/backend/or1k/insts.cpp)

    The tables the register allocators read, with the opcodes of spills and reloads
    that src/backend/backend.cpp registers. Opcodes are the positions of the
    instructions in the targets' inst.def. *)
From S2P Require Import Prelude Vectors Mir Liveness LinearScan LinearScanProps MirSemantics LinearScanRefines.
Open Scope Z_scope.

(** [for (r = first; r <= last; r += step)] *)
Definition registers (first last step : Z) : list Z :=
  map (fun k => first + step * k) (seqZ 0 ((last - first) / step + 1)).

Module X86.
Definition RAX : Z := 0.
Definition RCX : Z := 1.
Definition RDX : Z := 2.
Definition RBX : Z := 3.
Definition RBP : Z := 5.
Definition RSI : Z := 6.
Definition RDI : Z := 7.
Definition XMM0 : Z := 16.
Definition XMM15 : Z := 31.
Definition xmm (n : Z) : Z := XMM0 + n.
Definition is_fpr_index (p : Z) : bool := (XMM0 <=? p) && (p <=? XMM15).
Definition phys_reg_class (p : Z) : RegClass := if is_fpr_index p then Fpr else Gpr.
Definition is_callee_saved_reg (p : Z) : bool := (p =? RBX) || (p =? RBP) || ((12 <=? p) && (p <=? 15)).
Definition is_callee_saved_reg_32 (p : Z) : bool := (p =? RBX) || (p =? RSI) || (p =? RDI).
Definition reg_info_32 : TargetRegInfo :=
  mkRegInfo [RAX; RCX; RDX; RBX] (registers XMM0 23 1) is_callee_saved_reg_32 phys_reg_class
    [] [RBX] (registers XMM0 (xmm 5 - 1) 1) [] [RAX; RCX; RDX] [xmm 5; xmm 6; xmm 7].
Definition reg_info : TargetRegInfo :=
  mkRegInfo [10; 11; RBX; 12; 13; 14; 15; RAX; RCX; RDX; RSI; RDI; 8; 9] (registers 24 XMM15 1 ++ registers XMM0 23 1)
    is_callee_saved_reg phys_reg_class
    [] [RBX; 12; 13; 14; 15] (registers 24 (29 - 1) 1) [] [10; 11] [xmm 13; xmm 14; xmm 15].
(** Store64, Load64, StoreSD, LoadSD, StoreX128, LoadX128; in 32-bit mode Store32, Load32. *)
Definition hooks : SpillHooks := mkHooks 20 13 22 15 23 16.
Definition hooks_32 : SpillHooks := mkHooks 19 12 22 15 23 16.
End X86.

Module A64.
Definition X16 : Z := 16.
Definition X17 : Z := 17.
Definition X19 : Z := 19.
Definition X28 : Z := 28.
Definition V0 : Z := 33.
Definition v (n : Z) : Z := V0 + n.
Definition is_fpr_index (p : Z) : bool := (V0 <=? p) && (p <=? v 31).
Definition phys_reg_class (p : Z) : RegClass := if is_fpr_index p then Fpr else Gpr.
Definition is_callee_saved_reg (p : Z) : bool :=
  if (X19 <=? p) && (p <=? X28) then true else (v 8 <=? p) && (p <=? v 15).
Definition reg_info : TargetRegInfo :=
  mkRegInfo (registers 9 15 1 ++ registers 0 8 1 ++ registers X19 X28 1)
    (registers (v 16) (v 31) 1 ++ registers V0 (v 7) 1 ++ registers (v 8) (v 15) 1) is_callee_saved_reg phys_reg_class
    (registers 9 13 1) (registers X19 X28 1) (registers (v 16) (v 28) 1) (registers (v 8) (v 15) 1)
    [14; 15; X16; X17] [v 29; v 30; v 31].
(** StrX, LdrX, StrD, LdrD, StrQ, LdrQ. *)
Definition hooks : SpillHooks := mkHooks 100 90 105 98 106 99.
End A64.

Module Or1k.
Definition R3 : Z := 3.
Definition R8 : Z := 8.
Definition RV : Z := 11.
Definition R12 : Z := 12.
Definition R13 : Z := 13.
Definition R15 : Z := 15.
Definition is_callee_saved_reg (p : Z) : bool := (14 <=? p) && (p <=? 30) && (Z.land p 1 =? 0).
Definition reg_info : TargetRegInfo :=
  mkRegInfo (registers 17 31 2 ++ registers R3 R8 1 ++ [RV; R12] ++ registers 14 30 2) [] is_callee_saved_reg (fun _ => Gpr)
    (registers 19 29 2 ++ [31]) (registers 14 30 2) [] [] [R13; R15; 17] [].
(** Sw, Lwz for every class. *)
Definition hooks : SpillHooks := mkHooks 29 24 29 24 29 24.
End Or1k.

(** ** The tables are as the linear-scan allocator assumes *)

Definition target_check (regs : TargetRegInfo) (hooks : SpillHooks) : bool :=
  bool_decide (NoDup (handed_out regs)) && forallb (fun p => (0 <=? p) && (p <? 2 ^ 31)) (handed_out regs) &&
  forallb (is_callee_saved regs) (linear_gpr_callee regs ++ linear_fpr_callee regs) &&
  forallb (fun o => negb (bool_decide (o ∈ spill_opcodes hooks))) (reload_opcodes hooks).
Lemma target_check_ok regs hooks : target_check regs hooks = true -> target_ok regs hooks.
Proof.
  unfold target_check. rewrite !andb_true_iff, !forallb_forall, bool_decide_eq_true. intros [[[H1 H2] H3] H4].
  split; [done|..].
  - intros p Hp%list_elem_of_In%H2. apply andb_true_iff in Hp as [?%Z.leb_le ?%Z.ltb_lt]. done.
  - intros p Hp%list_elem_of_In%H3. done.
  - intros o Ho%list_elem_of_In%H4 Hs. by rewrite bool_decide_eq_true_2 in Ho.
Qed.

