(* ===== verification/LinearScanCorrect.v ===== *)
(** * The linear-scan allocator is correct (src/backend/common/regalloc_linear.cpp)

    The simulation between a function and its allocation: at every point, each live
    virtual register has its value in its register or its slot. *)
From stdpp Require Import gmap functions.
From S2P Require Import Prelude Vectors Mir Liveness LinearScan LinearScanProps MirSemantics LinearScanRefines MirTargets.
Open Scope Z_scope.

(** ** Operands that are read *)

Lemma virtuals_elem ops v : v ∈ virtuals ops <-> exists o, o ∈ ops /\ virtual_operand o = true /\ v = index (reg o).
Proof.
  unfold virtuals. rewrite list_elem_of_fmap. split.
  - intros (o & -> & [Ho Hin]%list_elem_of_filter). exists o. by destruct (virtual_operand o).
  - intros (o & Hin & Ho & ->). exists o. split; [done|]. apply list_elem_of_filter. by rewrite Ho.
Qed.
Lemma virtual_read_or_defined info inst v : v ∈ virtuals (operands inst) -> reads info inst v \/ defines info inst v.
Proof.
  unfold reads, defines. rewrite classify_spec. destruct (operands inst) as [|o ops]; [by intros ?%elem_of_nil|].
  rewrite virtuals_cons. destruct (virtual_operand o) eqn:Ho; cbn [andb].
  - destruct (defines_operand0 info); cbn; [|by intros ?; left; left]. intros [->|Hv]%elem_of_cons; [by right|by left; left].
  - intros ?. cbn. by left; left.
Qed.
Lemma entries_lookup (ops : list MOperand) k o : ops !! k = Some o <-> zip (seqZ 0 (size ops)) ops !! k = Some (Z.of_nat k, o).
Proof.
  rewrite lookup_zip_with_Some. split.
  - intros Hk. exists (Z.of_nat k), o. split; [done|]. split; [|done]. apply lookup_seqZ. apply lookup_lt_Some in Hk.
    unfold size. lia.
  - by intros (k' & o' & [= _ ->] & _ & ?).
Qed.
Lemma read_by_reads opcode_info inst v : read_by opcode_info inst v -> reads (opcode_info (opcode inst)) inst v.
Proof.
  intros ([k o] & Hin & Hr & ->). apply list_elem_of_lookup_1 in Hin as [n Hn]. cbn [snd] in *.
  assert (k = Z.of_nat n) as ->.
  { apply lookup_zip_with_Some in Hn as (k' & o' & [= -> ->] & [-> _]%lookup_seqZ & _). lia. }
  apply entries_lookup in Hn. unfold entry_read in Hr. cbn [fst snd] in Hr. apply andb_true_iff in Hr as [Ho Hr].
  unfold reads. rewrite classify_spec. destruct (operands inst) as [|o0 ops]; [done|]. destruct n as [|n].
  - injection Hn as <-. change (Z.of_nat 0 =? 0) with true in Hr. cbn [andb] in Hr. rewrite Ho. cbn [andb].
    destruct (defines_operand0 _); cbn [use_vregs def_also_read def_vreg negb orb] in *; [by right|]. left. rewrite virtuals_cons, Ho. left.
  - assert (Hv : index (reg o) ∈ virtuals ops) by (apply virtuals_elem; exists o; split; [by eapply list_elem_of_lookup_2|done]).
    left. destruct (virtual_operand o0 && _); cbn [use_vregs]; [done|]. rewrite virtuals_cons.
    destruct (virtual_operand o0); [by right|done].
Qed.

(** ** Executing reloads and stores *)

Section Correct.
Context {val world : Type} (sem : MInst -> list val -> world -> option (val * world * Exit)) (junk : world -> Z -> val)
  (regs : TargetRegInfo) (hooks : SpillHooks) (opcode_info : Z -> RegAllocOpcodeInfo).
Hypothesis Htarget : target_ok regs hooks.
Abbreviation info_of inst := (opcode_info (opcode inst)).
Abbreviation exec := (exec_inst sem junk regs hooks opcode_info).
Abbreviation execs := (exec_insts sem junk regs hooks opcode_info).
Abbreviation Machine := (@Machine val world).

Lemma exec_reload own cls p slot m : 0 <= p < 2 ^ 31 -> own <= slot ->
  exec own (make_mem (regalloc_reload_opcode hooks cls) p slot) m =
    Some (mkMachine (vregs m) (<[p := slots m slot]> (pregs m)) (slots m) (the_world m), Next).
Proof using.
  intros Hp Hs. unfold exec_inst, spill_access, make_mem. cbn. rewrite (proj2 (Z.leb_le own slot) Hs).
  rewrite !bool_decide_eq_true_2 by (first [done|apply reload_opcode_in]). cbn. by rewrite index_phys.
Qed.
Lemma exec_store own cls p slot m : 0 <= p < 2 ^ 31 -> own <= slot ->
  exec own (make_mem (regalloc_spill_opcode hooks cls) p slot) m =
    Some (mkMachine (vregs m) (pregs m) (<[slot := pregs m p]> (slots m)) (the_world m), Next).
Proof using Htarget.
  intros Hp Hs. unfold exec_inst, spill_access, make_mem. cbn. rewrite (proj2 (Z.leb_le own slot) Hs).
  rewrite (bool_decide_eq_true_2 (Reg = Reg)), (bool_decide_eq_true_2 (FrameIndex = FrameIndex)) by done.
  rewrite bool_decide_eq_false_2 by (intros Hin; destruct (to_hooks _ _ Htarget _ Hin); apply spill_opcode_in).
  rewrite bool_decide_eq_true_2 by apply spill_opcode_in. cbn. by rewrite index_phys.
Qed.
Lemma exec_reloads own rs : forall m,
  (forall cls p slot, (cls, p, slot) ∈ rs -> 0 <= p < 2 ^ 31 /\ own <= slot) ->
  (forall c c' p slot slot', (c, p, slot) ∈ rs -> (c', p, slot') ∈ rs -> slot = slot') ->
  exists pr, execs own (map (mk_reload hooks) rs) m = Some (mkMachine (vregs m) pr (slots m) (the_world m), Next) /\
    (forall cls p slot, (cls, p, slot) ∈ rs -> pr p = slots m slot) /\
    (forall p, (forall cls slot, (cls, p, slot) ∉ rs) -> pr p = pregs m p).
Proof using.
  induction rs as [|[[cls p] slot] rs IH]; intros m Hr Hf.
  { exists (pregs m). split; [by destruct m|]. split; [by intros ? ? ? ?%elem_of_nil|done]. }
  destruct (Hr cls p slot ltac:(left)) as [Hp Hs].
  cbn [map exec_insts]. change (mk_reload hooks (cls, p, slot)) with (make_mem (regalloc_reload_opcode hooks cls) p slot).
  rewrite exec_reload by done. cbn [mbind option_bind].
  destruct (IH (mkMachine (vregs m) (<[p:=slots m slot]> (pregs m)) (slots m) (the_world m))) as (pr & E & H1 & H2).
  { intros c q s Hin. apply (Hr c). by right. }
  { intros c c' q s s' Hin Hin'. by eapply (Hf c c' q); right. }
  exists pr. split; [exact E|]. cbn in H1, H2.
  assert (Hhere : pr p = slots m slot).
  { destruct (decide (Exists (fun r => r.1.2 = p) rs)) as [([[c q] s] & Hin & Eq)%Exists_exists|Hno].
    - cbn in Eq. subst q. apply list_elem_of_In in Hin. rewrite (H1 c p s Hin).
      by rewrite (Hf c cls p s slot ltac:(by right) ltac:(left)).
    - rewrite H2; [by rewrite fn_lookup_insert|]. intros c s Hin. apply Hno, Exists_exists. exists (c, p, s).
      split; [by apply list_elem_of_In|done]. }
  split.
  - intros c q s [[= -> -> ->]|Hin]%elem_of_cons; [done|by eapply H1].
  - intros q Hno. rewrite H2; [|intros c s Hin; apply (Hno c s); by right]. apply fn_lookup_insert_ne.
    intros ->. apply (Hno cls slot). left.
Qed.

(** ** What the allocator assumes of a function *)

Context (f : MFunction).
Abbreviation count := (size (vreg_classes f)).
Abbreviation own := (size (frame_objects f)).

Record function_ok : Prop := {
  fk_wf : wf_blocks (blocks f) count;
  fk_some : 0 < count;
  fk_small : inst_count (blocks f) < 2 ^ 32 - 1;
  fk_frame : own + count < 2 ^ 32 - 1;
  (* the registers the allocator hands out are not named by the code *)
  fk_fixed : forall block inst o, block ∈ blocks f -> inst ∈ insts block -> o ∈ operands inst -> kind o = Reg ->
    is_virtual (reg o) = false -> index (reg o) ∉ handed_out regs;
  fk_own : forall block inst o, block ∈ blocks f -> inst ∈ insts block -> o ∈ operands inst -> kind o = FrameIndex ->
    frame_index o < own;
  fk_scratch : forall block inst, block ∈ blocks f -> inst ∈ insts block -> scratch_enough regs (vreg_classes f) inst;
  (* registers are defined before they are read *)
  fk_entry : forall v, ~ live_at_entry opcode_info (blocks f) 0 v;
  (* an instruction that leaves a block defines no virtual register, is no call, and
     comes after the definitions its target relies on *)
  fk_leave : forall b block k inst xs w x w' s, at_ (blocks f) b = Some block -> insts block !! k = Some inst ->
    sem (blank regs inst) xs w = Some (x, w', Goto s) -> is_call (info_of inst) = false /\
    forall v, 0 <= v < count -> defines (info_of inst) inst v \/ live_at_entry opcode_info (blocks f) s v ->
      ~ defined opcode_info (drop k (insts block)) v }.
Hypothesis Hf : function_ok.

Context (l0 l : list Interval) (csrs : list Z) (slot_of : gmap Z Z) (given : list Z) (final : Slots).
Hypothesis Hl0 : intervals_ok opcode_info (blocks f) count l0.
Hypothesis Hl : allocation_ok regs (vreg_classes f) l0 (used_csrs f) l csrs.
Hypothesis Hfinal : slots_ok (vreg_classes f) own final given.
Hypothesis Hslot_of : slot_of = spill_slots final.

Abbreviation live := (live_before opcode_info (blocks f)).
Abbreviation at_inst b block k inst := (at_ (blocks f) b = Some block /\ insts block !! k = Some inst).
Abbreviation rewritten := (inst_rewritten regs hooks l opcode_info slot_of).

(** *** Intervals *)

Lemma same_range v i : at_ l v = Some i -> exists i0, at_ l0 v = Some i0 /\ start i = start i0 /\ end_ i = end_ i0 /\
  crosses_call i = crosses_call i0.
Proof using Hl.
  intros Hi. destruct (ao_range _ _ _ _ _ _ Hl v i Hi) as (i0 & Hi0 & E). injection E as _ E1 E2 E3. by exists i0.
Qed.
Lemma covered_settled b block k i v : at_ (blocks f) b = Some block -> (k < length (insts block))%nat -> at_ l v = Some i ->
  covers i (first_position (blocks f) b + Z.of_nat k) -> settled regs (vreg_classes f) v i.
Proof using Hf Hl.
  intros Hb Hk Hi Hc. apply (ao_settled _ _ _ _ _ _ Hl v i Hi). destruct (first_position_le _ _ _ Hb) as [? Hle].
  pose proof (fk_small Hf). unfold covers, size in *. change kNoPos with (2 ^ 32 - 1). lia.
Qed.
Lemma after_covers b block k inst v i : at_inst b block k inst -> at_ l v = Some i ->
  defines (info_of inst) inst v \/ live b block (S k) v -> covers i (first_position (blocks f) b + Z.of_nat k).
Proof using Hl Hl0.
  intros [Hb Hk] Hi Hlv. destruct (same_range v i Hi) as (i0 & Hi0 & E1 & E2 & _). unfold covers. rewrite E1, E2.
  by apply (live_after_covers opcode_info (blocks f) count l0 Hl0 b block v i0 k inst).
Qed.
Lemma here_covers b block k inst v i : at_inst b block k inst -> at_ l v = Some i -> v ∈ virtuals (operands inst) ->
  covers i (first_position (blocks f) b + Z.of_nat k).
Proof using Hl Hl0.
  intros [Hb Hk] Hi Hv. destruct (same_range v i Hi) as (i0 & Hi0 & E1 & E2 & _). unfold covers. rewrite E1, E2.
  apply (io_inst _ _ _ _ Hl0 b block v i0 k inst Hb Hk Hi0). by apply virtual_read_or_defined.
Qed.
Lemma no_interference b block k inst u v i j : at_inst b block k inst -> u <> v -> at_ l u = Some i -> at_ l v = Some j ->
  defines (info_of inst) inst u -> live b block (S k) v -> spilled i = false -> spilled j = false ->
  assigned i <> assigned j.
Proof using Hf Hl Hl0.
  intros Hat Hne Hi Hj Hu Hv Hsi Hsj E.
  pose proof (after_covers b block k inst u i Hat Hi (or_introl Hu)) as [Hc1 Hc2].
  pose proof (after_covers b block k inst v j Hat Hj (or_intror Hv)) as [Hc3 Hc4].
  destruct Hat as [Hb Hk]. destruct (first_position_le _ _ _ Hb) as [? Hle]. pose proof (fk_small Hf).
  apply lookup_lt_Some in Hk.
  assert (Hlate : forall i, start i <= first_position (blocks f) b + Z.of_nat k -> start i <> kNoPos)
    by (intros x Hx; change kNoPos with (2 ^ 32 - 1); unfold size in Hle; lia).
  destruct (ao_apart _ _ _ _ _ _ Hl u v i j Hne Hi Hj (Hlate i Hc1) (Hlate j Hc3) Hsi Hsj E); lia.
Qed.
Lemma survives_call b block k inst v i : at_inst b block k inst -> at_ l v = Some i -> is_call (info_of inst) = true ->
  (S k < length (insts block))%nat -> ~ defines (info_of inst) inst v -> live b block (S k) v ->
  spilled i = false -> is_callee_saved regs (assigned i) = true.
Proof using Hf Hl Hl0 Htarget.
  intros Hat Hi Hcall Hlen Hn Hlv Hs.
  pose proof (after_covers b block k inst v i Hat Hi (or_intror Hlv)) as Hc. destruct Hat as [Hb Hk].
  destruct (covered_settled b block k i v Hb (lookup_lt_Some _ _ _ Hk) Hi Hc) as (cls & _ & Hall). rewrite Hs in Hall.
  destruct (same_range v i Hi) as (i0 & Hi0 & _ & _ & E).
  pose proof (live_across_call opcode_info (blocks f) count l0 Hl0 b block v i0 k inst Hb Hi0 Hk Hcall Hlen Hn Hlv) as Hx.
  rewrite E, Hx in Hall. destruct Hall as [Hp|[? _]]; [|done]. apply (to_callee _ _ Htarget).
  unfold callee_pool in Hp. apply elem_of_app. destruct (bool_decide (cls = Gpr)); [by left|].
  destruct (bool_decide (cls = Fpr128)); [by apply elem_of_nil in Hp|by right].
Qed.
Lemma assigned_pool b block k i v : at_ (blocks f) b = Some block -> (k < length (insts block))%nat -> at_ l v = Some i ->
  covers i (first_position (blocks f) b + Z.of_nat k) -> spilled i = false -> assigned i ∈ pools regs.
Proof using Hf Hl.
  intros Hb Hk Hi Hc Hs. destruct (covered_settled b block k i v Hb Hk Hi Hc) as (cls & _ & Hall). rewrite Hs in Hall.
  by eapply allowed_pool.
Qed.

(** *** Operands *)

Lemma operand_tracked b block k inst o : at_inst b block k inst -> o ∈ operands inst ->
  tracked regs o = virtual_operand o.
Proof using Hf.
  intros [Hb Hk] Ho. unfold tracked, virtual_operand. destruct (bool_decide_reflect (kind o = Reg)) as [Hr|]; [|done].
  cbn. destruct (is_virtual (reg o)) eqn:Hv; [done|]. cbn. apply bool_decide_eq_false_2.
  apply (fk_fixed Hf block inst o); [by eapply at_elem|by eapply list_elem_of_lookup_2|done..].
Qed.
Lemma handed_out_pool p : p ∈ pools regs -> p ∈ handed_out regs.
Proof using. intros H. apply elem_of_app. by left. Qed.
Lemma handed_out_scratch p : p ∈ scratches regs -> p ∈ handed_out regs.
Proof using. intros H. apply elem_of_app. by right. Qed.

Lemma placed_register b block k inst scratch rs ops st v p : at_inst b block k inst -> rewritten inst scratch rs ops st ->
  v ∈ virtuals (operands inst) -> place l scratch v = Some p ->
  exists i, at_ l v = Some i /\ (if spilled i then scratch !! v = Some p /\ p ∈ scratches regs
                                 else p = assigned i /\ p ∈ pools regs).
Proof using Hf Hl Hl0.
  intros Hat Hr Hv Hp. unfold place in Hp. destruct (at_ l v) as [i|] eqn:Hi; [|done]. cbn [mbind option_bind] in Hp.
  exists i. split; [done|]. destruct (spilled i) eqn:Hs; [split; [done|by eapply (ir_pool _ _ _ _ _ _ _ _ _ _ Hr)]|].
  injection Hp as <-. split; [done|]. pose proof (here_covers b block k inst v i Hat Hi Hv) as Hc. destruct Hat as [Hb Hk].
  apply (assigned_pool b block k i v Hb); [by eapply lookup_lt_Some|done..].
Qed.
Lemma placed_handed_out b block k inst scratch rs ops st v p : at_inst b block k inst -> rewritten inst scratch rs ops st ->
  v ∈ virtuals (operands inst) -> place l scratch v = Some p -> p ∈ handed_out regs /\ 0 <= p < 2 ^ 31.
Proof using Hf Hl Hl0 Htarget.
  intros Hat Hr Hv Hp. assert (Hin : p ∈ handed_out regs).
  { destruct (placed_register b block k inst scratch rs ops st v p Hat Hr Hv Hp) as (i & _ & Hc).
    destruct (spilled i); destruct Hc as [_ Hc]; [by apply handed_out_scratch|by apply handed_out_pool]. }
  split; [done|]. by apply (to_range _ _ Htarget).
Qed.
Lemma operand_becomes b block k inst scratch rs ops st o o' : at_inst b block k inst -> rewritten inst scratch rs ops st ->
  o ∈ operands inst -> operand_rewritten l scratch o o' ->
  tracked regs o' = virtual_operand o /\ blank_operand regs o' = blank_operand regs o /\
  (virtual_operand o = true -> exists p, place l scratch (index (reg o)) = Some p /\ is_virtual (reg o') = false /\ index (reg o') = p).
Proof using Hf Hl Hl0 Htarget.
  intros Hat Hr Ho Hor. pose proof (operand_tracked b block k inst o Hat Ho) as Ht. unfold operand_rewritten in Hor.
  destruct (virtual_operand o) eqn:Hv; [|by subst o'].
  destruct Hor as (p & Hp & ->).
  assert (Hin : index (reg o) ∈ virtuals (operands inst)) by (apply virtuals_elem; by exists o).
  destruct (placed_handed_out b block k inst scratch rs ops st _ p Hat Hr Hin Hp) as [Hpo Hrange].
  unfold virtual_operand in Hv. apply andb_true_iff in Hv as [Hk Hvirt].
  assert (Ht' : tracked regs (set_reg (phys p) o) = true).
  { unfold tracked. cbn [kind set_reg reg]. rewrite Hk, index_phys, (bool_decide_eq_true_2 (p ∈ _)) by done.
    by rewrite orb_true_r. }
  split; [done|]. split; [unfold blank_operand; by rewrite Ht, Ht'|]. intros _. exists p. split; [done|].
  cbn [reg set_reg]. by rewrite is_virtual_phys, index_phys.
Qed.

(** Code does not touch the slots. *)
Lemma no_spill_access (inst : MInst) ops op : (forall o, o ∈ ops -> kind o = FrameIndex -> frame_index o < own) ->
  operands inst = ops -> opcode inst = op -> spill_access hooks own inst = None.
Proof using.
  intros Ho <- _. unfold spill_access. destruct (operands inst) as [|r [|o [|x [|]]]]; try done.
  destruct (bool_decide_reflect (kind o = FrameIndex)) as [Hk|]; [|by rewrite andb_false_r].
  specialize (Ho o ltac:(right; left) Hk). rewrite (proj2 (Z.leb_gt own (frame_index o)) Ho). by rewrite andb_false_r.
Qed.

(** *** Matching states *)

Definition holds (i : Interval) (v : Z) (m m' : Machine) : Prop :=
  if spilled i then exists slot, slot_of !! v = Some slot /\ slots m' slot = vregs m v
  else pregs m' (assigned i) = vregs m v.
Record match_states (live_set : Z -> Prop) (m m' : Machine) : Prop := {
  ms_world : the_world m' = the_world m;
  ms_value : forall v i, live_set v -> at_ l v = Some i -> holds i v m m' }.

(** After the reloads, the place of each register that is read has its value. *)
Definition reads_match (inst : MInst) (scratch : gmap Z Z) (m m' : Machine) : Prop :=
  forall v p, read_by opcode_info inst v -> place l scratch v = Some p -> pregs m' p = vregs m v.

Lemma read_virtual inst v : read_by opcode_info inst v -> v ∈ virtuals (operands inst).
Proof using.
  intros (e & He & Hr & ->). apply virtuals_elem. exists e.2. unfold entry_read in Hr. apply andb_true_iff in Hr as [Hv _].
  split; [|done]. apply (list_elem_of_fmap_2 snd) in He. by rewrite entries_snd in He.
Qed.
Lemma slot_range v slot : slot_of !! v = Some slot -> own <= slot.
Proof using Hfinal Hslot_of.
  subst slot_of. intros (j & Hj & ->)%(sl_dom _ _ _ _ Hfinal). apply at_lt in Hj. lia.
Qed.
Lemma reloads_run b block k inst scratch rs ops st m m' : at_inst b block k inst -> rewritten inst scratch rs ops st ->
  match_states (live b block k) m m' ->
  exists m2, execs own (map (mk_reload hooks) rs) m' = Some (m2, Next) /\ the_world m2 = the_world m' /\
    slots m2 = slots m' /\ reads_match inst scratch m m2 /\ (forall p, p ∉ scratches regs -> pregs m2 p = pregs m' p).
Proof using Hf Hfinal Hl Hl0 Hslot_of Htarget.
  intros Hat Hr Hm. pose proof Hr as [Hinj Hpool Hops [Hrs1 Hrs2] Hst].
  destruct (exec_reloads own rs m') as (pr & E & Hin & Hout).
  - intros c p slot (v & _ & Hp & Hslot)%Hrs1. split; [|by eapply slot_range].
    apply (to_range _ _ Htarget), handed_out_scratch. by eapply Hpool.
  - intros c c' p s s' (v & _ & Hp & Hs)%Hrs1 (w & _ & Hp' & Hs')%Hrs1. assert (v = w) as -> by by eapply Hinj. congruence.
  - eexists. split; [exact E|]. split; [done|]. split; [done|]. split; cbn.
    + intros v p Hv Hp. cbn. pose proof (read_virtual _ _ Hv) as Hvv.
      destruct (placed_register b block k inst scratch rs ops st v p Hat Hr Hvv Hp) as (i & Hi & Hc).
      pose proof (ms_value _ _ _ Hm v i) as Hh. unfold holds in Hh.
      assert (Hlv : live b block k v).
      { destruct Hat as [Hb Hk]. eapply live_before_read; [done|]. by apply read_by_reads. }
      specialize (Hh Hlv Hi). destruct (spilled i) eqn:Hs.
      * destruct Hc as [Hsc Hpp]. destruct (Hrs2 v Hv) as (c & q & slot & Hq & Hqs & Hslot); [by exists i|].
        rewrite Hsc in Hqs. injection Hqs as <-. rewrite (Hin c p slot Hq). destruct Hh as (slot' & Hs' & <-). congruence.
      * destruct Hc as [-> Hpp]. rewrite Hout; [done|]. intros c slot (w & _ & Hw & _)%Hrs1.
        destruct (pools_nodup regs hooks Htarget) as (_ & _ & _ & Hd). apply (Hd _ Hpp). by eapply Hpool.
    + intros p Hp. apply Hout. intros c slot (w & _ & Hw & _)%Hrs1. apply Hp. by eapply Hpool.
Qed.

(** *** Executing one instruction *)

Lemma map_pointwise {A B C} (g : A -> C) (h : B -> C) (k : list A) (k' : list B) : length k = length k' ->
  (forall n a b, k !! n = Some a -> k' !! n = Some b -> h b = g a) -> map h k' = map g k.
Proof using.
  revert k'. induction k as [|a k IH]; intros [|b k'] Hlen H; try done. cbn. f_equal; [by apply (H 0%nat)|].
  apply IH; [by injection Hlen|]. intros n x y Hx Hy. by apply (H (S n)).
Qed.

Section Instruction.
Context (b : Z) (block : MBlock) (k : nat) (inst : MInst) (scratch : gmap Z Z) (rs : list (RegClass * Z * Z))
  (ops : list MOperand) (st : list MInst).
Hypothesis Hat : at_inst b block k inst.
Hypothesis Hr : rewritten inst scratch rs ops st.
Abbreviation inst' := (mkMInst (opcode inst) (maux inst) ops).

Lemma operand_pair n o o' : operands inst !! n = Some o -> ops !! n = Some o' ->
  o ∈ operands inst /\ operand_rewritten l scratch o o'.
Proof using Hr.
  intros Ho Ho'. split; [by eapply list_elem_of_lookup_2|].
  pose proof (ir_operands _ _ _ _ _ _ _ _ _ _ Hr) as H2. eapply Forall2_lookup_lr; [exact H2|done..].
Qed.
Lemma blank_same : blank regs inst' = blank regs inst.
Proof using Hat Hf Hl Hl0 Hr Htarget.
  unfold blank. cbn [opcode maux operands]. f_equal. apply map_pointwise.
  - eapply Forall2_length, Hr.
  - intros n o o' Ho Ho'. destruct (operand_pair n o o' Ho Ho') as [Hin Hor].
    by destruct (operand_becomes b block k inst scratch rs ops st o o' Hat Hr Hin Hor) as (_ & -> & _).
Qed.
Lemma read_same m m2 n o o' : reads_match inst scratch m m2 -> operands inst !! n = Some o -> ops !! n = Some o' ->
  n <> 0%nat \/ only_defines (info_of inst) = false -> read_operand regs m2 o' = read_operand regs m o.
Proof using Hat Hf Hl Hl0 Hr Htarget.
  intros Hm Ho Ho' Hn. destruct (operand_pair n o o' Ho Ho') as [Hin Hor].
  pose proof (operand_tracked b block k inst o Hat Hin) as Ht.
  destruct (operand_becomes b block k inst scratch rs ops st o o' Hat Hr Hin Hor) as (Ht' & _ & Hreg).
  unfold read_operand. rewrite Ht, Ht'. destruct (virtual_operand o) eqn:Hv; [|done].
  destruct (Hreg eq_refl) as (p & Hp & Hvirt & Hidx). unfold get. rewrite Hvirt, Hidx.
  assert (is_virtual (reg o) = true) as ->.
  { unfold virtual_operand in Hv. by apply andb_true_iff in Hv as [_ ->]. }
  f_equal. apply (Hm (index (reg o)) p); [|done]. exists (Z.of_nat n, o). split.
  - apply entries_lookup in Ho. by eapply list_elem_of_lookup_2.
  - split; [|done]. unfold entry_read. cbn. rewrite Hv. cbn. unfold only_defines in Hn. destruct Hn as [Hn|Hn].
    + rewrite (proj2 (Z.eqb_neq (Z.of_nat n) 0)) by lia. done.
    + destruct (defines_operand0 _), (reads_operand0 _); try done; by rewrite ?andb_false_r, ?orb_true_r.
Qed.
Lemma inputs_same m m2 : reads_match inst scratch m m2 -> inputs regs opcode_info inst' m2 = inputs regs opcode_info inst m.
Proof using Hat Hf Hl Hl0 Hr Htarget.
  intros Hm. unfold inputs. cbn [opcode operands]. f_equal.
  assert (Hlen : length (operands inst) = length ops) by (eapply Forall2_length, Hr).
  destruct (only_defines (info_of inst)) eqn:Hod.
  - apply map_pointwise; [destruct (operands inst), ops; cbn in *; lia|]. intros n o o' Ho Ho'.
    apply (read_same m m2 (S n)); [done| | |by left]; destruct (operands inst), ops; done.
  - apply map_pointwise; [done|]. intros n o o' Ho Ho'. apply (read_same m m2 n); [done..|by right].
Qed.

(** The register an instruction defines. *)
Lemma defines_head d : d <> kNoReg -> defines (info_of inst) inst d <->
  exists o rest, operands inst = o :: rest /\ virtual_operand o && defines_operand0 (info_of inst) = true /\ d = index (reg o).
Proof using.
  intros Hd. unfold defines. rewrite classify_spec. destruct (operands inst) as [|o rest].
  - cbn. split; [congruence|]. by intros (? & ? & ? & _).
  - destruct (virtual_operand o && defines_operand0 (info_of inst)) eqn:E; cbn.
    + split; [intros <-; by exists o, rest|]. by intros (? & ? & [= <- <-] & _ & ->).
    + split; [congruence|]. intros (? & ? & [= <- <-] & ? & _). congruence.
Qed.

Lemma plain_run m m2 : the_world m2 = the_world m -> reads_match inst scratch m m2 ->
  match sem (blank regs inst) (inputs regs opcode_info inst m) (the_world m) with
  | None => exec_plain sem junk regs opcode_info inst m = None /\ exec_plain sem junk regs opcode_info inst' m2 = None
  | Some (x, w, e) => exists m1 m1', exec_plain sem junk regs opcode_info inst m = Some (m1, e) /\
      exec_plain sem junk regs opcode_info inst' m2 = Some (m1', e) /\
      the_world m1 = w /\ the_world m1' = w /\ slots m1' = slots m2 /\
      (forall v, v <> kNoReg -> vregs m1 v = if decide (defines (info_of inst) inst v) then x else vregs m v) /\
      (forall d p, d <> kNoReg -> defines (info_of inst) inst d -> place l scratch d = Some p -> pregs m1' p = x) /\
      (forall p, (forall d, d <> kNoReg -> defines (info_of inst) inst d -> place l scratch d <> Some p) ->
         (is_call (info_of inst) = true -> is_callee_saved regs p = true) -> pregs m1' p = pregs m2 p)
  end.
Proof using Hat Hf Hl Hl0 Hr Htarget.
  intros Hw Hm. unfold exec_plain. rewrite blank_same, (inputs_same m m2 Hm), Hw. cbn [opcode operands].
  destruct (sem _ _ _) as [[[x w] e]|]; cbn [mbind option_bind]; [|done].
  eexists _, _. split; [done|]. split; [done|].
  set (mb := if is_call (info_of inst) then after_call junk regs w m else with_world w m).
  set (mc := if is_call (info_of inst) then after_call junk regs w m2 else with_world w m2).
  assert (Hb : the_world mb = w /\ vregs mb = vregs m) by (unfold mb; by destruct (is_call _)).
  assert (Hc : the_world mc = w /\ slots mc = slots m2) by (unfold mc; by destruct (is_call _)).
  assert (Hp : forall p, (is_call (info_of inst) = true -> is_callee_saved regs p = true) -> pregs mc p = pregs m2 p).
  { intros p Hcs. unfold mc. destruct (is_call _); [|done]. cbn. by rewrite Hcs. }
  destruct Hb as [Hb1 Hb2], Hc as [Hc1 Hc2].
  assert (Hops := ir_operands _ _ _ _ _ _ _ _ _ _ Hr). destruct (operands inst) as [|o rest] eqn:Eops.
  { apply Forall2_nil_inv_l in Hops as Eo. rewrite Eo. split_and!; try done.
    - intros v Hv. rewrite Hb2. rewrite decide_False; [done|]. intros (? & ? & E & _)%defines_head; [|done]. by rewrite Eops in E.
    - intros d p Hd (? & ? & E & _)%defines_head; [|done]. by rewrite Eops in E.
    - intros p _. apply Hp. }
  apply Forall2_cons_inv_l in Hops as (o' & rest' & Hor & Hrest & Eo). rewrite Eo.
  assert (Hin : o ∈ operands inst) by (rewrite Eops; left).
  pose proof (operand_tracked b block k inst o Hat Hin) as Ht.
  destruct (operand_becomes b block k inst scratch rs ops st o o' Hat Hr Hin Hor) as (Ht' & _ & Hreg).
  rewrite Ht, Ht'. destruct (defines_operand0 (info_of inst) && virtual_operand o) eqn:Hdef.
  - apply andb_true_iff in Hdef as [Hd0 Hvo]. destruct (Hreg Hvo) as (p0 & Hp0 & Hvirt & Hidx).
    assert (is_virtual (reg o) = true) as Hov by (unfold virtual_operand in Hvo; by apply andb_true_iff in Hvo as [_ ->]).
    assert (Hd : forall d, d <> kNoReg -> defines (info_of inst) inst d <-> d = index (reg o)).
    { intros d Hn. rewrite defines_head, Eops by done. split; [by intros (? & ? & [= <- <-] & _ & ->)|].
      intros ->. exists o, rest. by rewrite Hvo, Hd0. }
    unfold set. rewrite Hov, Hvirt, Hidx. cbn. split_and!; try done.
    + intros v Hn. rewrite Hb2. destruct (decide (defines _ _ _)) as [Hv|Hv]; rewrite Hd in Hv by done.
      * subst v. by rewrite fn_lookup_insert.
      * by rewrite fn_lookup_insert_ne.
    + intros d p Hn Hdd. rewrite Hd in Hdd by done. subst d. rewrite Hp0. intros [= <-]. by rewrite fn_lookup_insert.
    + intros p Hno Hcs. rewrite fn_lookup_insert_ne; [by apply Hp|]. intros ->.
      apply (Hno (index (reg o))); [|apply Hd; [|done]|done].
      * intros E. pose proof (index_range (reg o)) as Hir. rewrite E in Hir. by vm_compute in Hir; destruct Hir.
      * intros E. pose proof (index_range (reg o)) as Hir. rewrite E in Hir. by vm_compute in Hir; destruct Hir.
  - assert (Hd : forall d, d <> kNoReg -> ~ defines (info_of inst) inst d).
    { intros d Hn. rewrite defines_head, Eops by done. intros (? & ? & [= <- <-] & E & _). rewrite andb_comm in E. congruence. }
    split_and!; try done.
    + intros v Hn. rewrite Hb2. rewrite decide_False; [done|by apply Hd].
    + intros d p Hn Hdd. by destruct (Hd d Hn).
    + intros p _. apply Hp.
Qed.

(** The store after the instruction. *)
Lemma store_head d i : d <> kNoReg -> defines (info_of inst) inst d -> at_ l d = Some i ->
  if spilled i then exists cls p slot, scratch !! d = Some p /\ slot_of !! d = Some slot /\
                      st = [make_mem (regalloc_spill_opcode hooks cls) p slot]
  else st = [].
Proof using Hr.
  intros Hd Hdef Hi. apply defines_head in Hdef as (o & rest & Eops & Hvd & ->); [|done].
  pose proof (ir_stores _ _ _ _ _ _ _ _ _ _ Hr) as Hst. rewrite Eops in Hst. unfold size in Hst. cbn [length] in Hst.
  rewrite seqZ_cons in Hst by lia. cbn [zip zip_with store_ok] in Hst. rewrite Hvd in Hst. destruct Hst as [H1 H2].
  destruct (spilled i) eqn:Hs; [apply H1; by exists i|]. apply H2. intros (j & Hj & ?). congruence.
Qed.
Lemma store_none : (forall d, d <> kNoReg -> ~ defines (info_of inst) inst d) -> st = [].
Proof using Hr.
  intros Hno. pose proof (ir_stores _ _ _ _ _ _ _ _ _ _ Hr) as Hst. destruct (operands inst) as [|o rest] eqn:Eops; [done|].
  unfold size in Hst. cbn [length] in Hst. rewrite seqZ_cons in Hst by lia. cbn [zip zip_with store_ok] in Hst.
  destruct (virtual_operand o && _) eqn:E; [|done]. destruct (Hno (index (reg o))).
  - intros E'. pose proof (index_range (reg o)) as Hir. rewrite E' in Hir. by vm_compute in Hir; destruct Hir.
  - apply defines_head; [|by exists o, rest]. intros E'. pose proof (index_range (reg o)) as Hir. rewrite E' in Hir.
    by vm_compute in Hir; destruct Hir.
Qed.

Lemma spills_run (m1 m1' : Machine) x : (forall d p, d <> kNoReg -> defines (info_of inst) inst d -> place l scratch d = Some p -> pregs m1' p = x) ->
  exists m3, execs own st m1' = Some (m3, Next) /\ the_world m3 = the_world m1' /\ pregs m3 = pregs m1' /\
    (forall d i, d <> kNoReg -> defines (info_of inst) inst d -> at_ l d = Some i -> vregs m1 d = x -> holds i d m1 m3) /\
    (forall v slot, slot_of !! v = Some slot -> ~ defines (info_of inst) inst v -> slots m3 slot = slots m1' slot).
Proof using Hat Hf Hfinal Hl Hl0 Hr Hslot_of Htarget.
  intros Hx. destruct Hat as [Hb Hk].
  assert (Hd : (forall d, d <> kNoReg -> ~ defines (info_of inst) inst d) \/ exists d, d <> kNoReg /\ defines (info_of inst) inst d).
  { destruct (decide (def_vreg (classify_inst inst (info_of inst)) = kNoReg)) as [E|E].
    - left. intros d Hn Hdef. unfold defines in Hdef. congruence.
    - right. eexists. by split. }
  destruct Hd as [Hno|(d & Hn & Hdef)].
  { rewrite (store_none Hno). exists m1'. split_and!; try done. intros d i Hd Hdef. by destruct (Hno d Hd). }
  assert (Huniq : forall e, defines (info_of inst) inst e -> e = d) by (intros e; unfold defines in *; congruence).
  assert (Hdv : d ∈ virtuals (operands inst)) by (destruct (def_virtual (info_of inst) inst) as [E|E]; unfold defines in Hdef; congruence).
  assert (Hdr : 0 <= d < count) by (apply (wf_vregs _ _ (fk_wf Hf) block inst); [by eapply at_elem|by eapply list_elem_of_lookup_2|done]).
  destruct (proj2 (at_is_Some l d)) as [i Hi].
  { rewrite (ao_size _ _ _ _ _ _ Hl), (io_size _ _ _ _ Hl0). done. }
  pose proof (store_head d i Hn Hdef Hi) as Hst. destruct (spilled i) eqn:Hs.
  - destruct Hst as (cls & p & slot & Hp & Hslot & ->).
    assert (Hpr : 0 <= p < 2 ^ 31).
    { apply (to_range _ _ Htarget), handed_out_scratch. by eapply (ir_pool _ _ _ _ _ _ _ _ _ _ Hr). }
    cbn [exec_insts]. rewrite exec_store; [|done|by eapply slot_range]. cbn [mbind option_bind].
    eexists. split; [done|]. split; [done|]. split; [done|]. split.
    + intros e j He Hde Hj Hv. rewrite (Huniq e Hde) in *. rewrite Hi in Hj. injection Hj as <-. unfold holds. rewrite Hs.
      exists slot. split; [done|]. cbn. rewrite fn_lookup_insert, Hv. apply (Hx d); [done|done|].
      unfold place. rewrite Hi. cbn. by rewrite Hs.
    + intros v sl Hv Hnv. cbn. apply fn_lookup_insert_ne. intros <-. apply Hnv.
      assert (v = d) as ->; [|done]. subst slot_of. by apply (slots_inj _ _ _ _ v d slot Hfinal).
  - rewrite Hst. exists m1'. split_and!; try done. intros e j He Hde Hj Hv. rewrite (Huniq e Hde) in *.
    rewrite Hi in Hj. injection Hj as <-. unfold holds. rewrite Hs, Hv. apply (Hx d); [done|done|].
    unfold place. rewrite Hi. cbn. by rewrite Hs.
Qed.

Lemma not_kNoReg v : 0 <= v < count -> v <> kNoReg.
Proof using Hf. apply (kNoReg_large opcode_info _ _ (fk_wf Hf)). Qed.
Lemma interval_index v i : at_ l v = Some i -> 0 <= v < count.
Proof using Hl Hl0. intros Hi%at_lt. by rewrite (ao_size _ _ _ _ _ _ Hl), (io_size _ _ _ _ Hl0) in Hi. Qed.

(** What the instruction leaves alone. *)
Lemma holds_after (m m' m1 m1' m2 m3 : Machine) x v i :
  match_states (live b block k) m m' -> at_ l v = Some i -> live b block k v -> ~ defines (info_of inst) inst v ->
  (spilled i = false -> (is_call (info_of inst) = true -> is_callee_saved regs (assigned i) = true) /\
     forall d j, defines (info_of inst) inst d -> at_ l d = Some j -> spilled j = false -> assigned j <> assigned i) ->
  slots m2 = slots m' -> (forall p, p ∉ scratches regs -> pregs m2 p = pregs m' p) ->
  slots m1' = slots m2 ->
  (forall v, v <> kNoReg -> vregs m1 v = if decide (defines (info_of inst) inst v) then x else vregs m v) ->
  (forall p, (forall d, d <> kNoReg -> defines (info_of inst) inst d -> place l scratch d <> Some p) ->
     (is_call (info_of inst) = true -> is_callee_saved regs p = true) -> pregs m1' p = pregs m2 p) ->
  pregs m3 = pregs m1' ->
  (forall v slot, slot_of !! v = Some slot -> ~ defines (info_of inst) inst v -> slots m3 slot = slots m1' slot) ->
  holds i v m1 m3.
Proof using Hat Hf Hl Hl0 Hr Htarget.
  intros Hm Hi Hlv Hnd Hsafe Hs2 Hp2 Hs1 Hv1 Hp1 Hp3 Hs3. pose proof (ms_value _ _ _ Hm v i Hlv Hi) as Hh.
  unfold holds in *. rewrite Hv1 by by eapply not_kNoReg, interval_index. rewrite decide_False by done.
  destruct (spilled i) eqn:Hs.
  - destruct Hh as (slot & Hslot & <-). exists slot. split; [done|]. rewrite (Hs3 v slot Hslot Hnd), Hs1, Hs2. done.
  - destruct (Hsafe eq_refl) as [Hcall Hapart].
    assert (Hpool : assigned i ∈ pools regs).
    { destruct (same_range v i Hi) as (i0 & Hi0 & E1 & E2 & _). destruct Hat as [Hb Hk].
      apply (assigned_pool b block k i v Hb); [by eapply lookup_lt_Some|done| |done]. unfold covers. rewrite E1, E2.
      apply (live_covers opcode_info (blocks f) count l0 Hl0 b block v i0 k Hb Hi0); [by eapply lookup_lt_Some|done]. }
    destruct (pools_nodup regs hooks Htarget) as (_ & _ & _ & Hdisj).
    rewrite Hp3, Hp1; [rewrite Hp2; [done|by apply Hdisj]| |done].
    intros d Hd Hdef Hpl. assert (Hdv : d ∈ virtuals (operands inst)).
    { destruct (def_virtual (info_of inst) inst) as [E|E]; unfold defines in Hdef; congruence. }
    destruct (placed_register b block k inst scratch rs ops st d (assigned i) Hat Hr Hdv Hpl) as (j & Hj & Hc).
    destruct (spilled j) eqn:Hsj; destruct Hc as [Hc1 Hc2]; [by apply (Hdisj (assigned i))|].
    by apply (Hapart d j Hdef Hj Hsj).
Qed.

Lemma inst_no_spill : spill_access hooks own inst = None /\ spill_access hooks own inst' = None.
Proof using Hat Hf Hr.
  destruct Hat as [Hb Hk].
  assert (Hown : forall o, o ∈ operands inst -> kind o = FrameIndex -> frame_index o < own).
  { intros o. apply (fk_own Hf block inst); [by eapply at_elem|by eapply list_elem_of_lookup_2]. }
  split; [by eapply no_spill_access|]. eapply (no_spill_access inst' ops (opcode inst)); [|done|done].
  intros o' [n Hn]%list_elem_of_lookup_1 Hkind.
  destruct (Forall2_lookup_r _ _ _ _ _ (ir_operands _ _ _ _ _ _ _ _ _ _ Hr) Hn) as (o & Ho & Hor).
  unfold operand_rewritten in Hor. destruct (virtual_operand o) eqn:Hv.
  - destruct Hor as (p & _ & ->). cbn in Hkind. unfold virtual_operand in Hv. rewrite Hkind in Hv.
    by rewrite bool_decide_eq_false_2 in Hv.
  - subst o'. apply Hown; [by eapply list_elem_of_lookup_2|done].
Qed.

Abbreviation out := (map (mk_reload hooks) rs ++ [inst'] ++ st).

Lemma step_simulates m m' : match_states (live b block k) m m' ->
  match exec own inst m with
  | None => execs own out m' = None
  | Some (m1, e) => exists m3, execs own out m' = Some (m3, e) /\ the_world m3 = the_world m1 /\
      match e with
      | Next => (is_call (info_of inst) = true -> (S k < length (insts block))%nat) -> match_states (live b block (S k)) m1 m3
      | Goto s => s ∈ succs block -> match_states (live_at_entry opcode_info (blocks f) s) m1 m3
      | Halt => True
      end
  end.
Proof using Hat Hf Hfinal Hl Hl0 Hr Hslot_of Htarget.
  intros Hm. destruct inst_no_spill as [Hns Hns'].
  destruct (reloads_run b block k inst scratch rs ops st m m' Hat Hr Hm) as (m2 & Er & Hw2 & Hs2 & Hreads & Hp2).
  assert (Hw : the_world m2 = the_world m) by (rewrite Hw2; apply Hm).
  pose proof (plain_run m m2 Hw Hreads) as Hplain.
  assert (Ei : exec own inst m = exec_plain sem junk regs opcode_info inst m) by (unfold exec_inst; by rewrite Hns).
  assert (Ei' : exec own inst' m2 = exec_plain sem junk regs opcode_info inst' m2) by (unfold exec_inst; by rewrite Hns').
  rewrite Ei, exec_insts_app, Er. cbn [mbind option_bind app exec_insts]. rewrite Ei'.
  destruct (sem (blank regs inst) (inputs regs opcode_info inst m) (the_world m)) as [[[x w] e]|] eqn:Esem; cycle 1.
  { destruct Hplain as [-> ->]. done. }
  destruct Hplain as (m1 & m1' & -> & -> & Hw1 & Hw1' & Hs1' & Hv1 & Hdef & Hp1). cbn [mbind option_bind].
  destruct (spills_run m1 m1' x Hdef) as (m3 & Est & Hw3 & Hp3 & Hd3 & Hs3).
  destruct e as [|s|].
  - rewrite Est. exists m3. split; [done|]. split; [congruence|]. intros Hlast. split; [congruence|]. intros v i Hlv Hi.
    pose proof (interval_index v i Hi) as Hvr. pose proof (not_kNoReg v Hvr) as Hvn.
    destruct (decide (defines (info_of inst) inst v)) as [Hdv|Hdv].
    { apply (Hd3 v i Hvn Hdv Hi). rewrite Hv1 by done. by rewrite decide_True. }
    assert (Hlk : live b block k v) by (destruct Hat; by eapply live_before_step).
    apply (holds_after m m' m1 m1' m2 m3 x v i Hm Hi Hlk Hdv); try done. intros Hsi. split.
    + intros Hc. by apply (survives_call b block k inst v i Hat Hi Hc (Hlast Hc) Hdv Hlv).
    + intros d j Hd Hj Hsj. apply (no_interference b block k inst d v j i Hat); try done. by intros ->.
  - exists m1'. split; [done|]. split; [congruence|]. intros Hsucc. destruct Hat as [Hb Hk].
    destruct (fk_leave Hf b block k inst _ _ _ _ s Hb Hk Esem) as [Hnc Hlv].
    assert (Hnd : forall d, 0 <= d < count -> ~ defines (info_of inst) inst d).
    { intros d Hdr Hd. apply (Hlv d Hdr (or_introl Hd)). exists inst. split; [|done]. rewrite (drop_S _ _ _ Hk). left. }
    split; [congruence|]. intros v i Hv Hi. pose proof (interval_index v i Hi) as Hvr.
    assert (Hlk : live b block k v) by (right; split; [by apply Hlv; [|right]|by exists block, s]).
    apply (holds_after m m' m1 m1' m2 m1' x v i Hm Hi Hlk (Hnd v Hvr)); try done. intros _. split; [congruence|].
    intros d j Hd Hj. by destruct (Hnd d (interval_index d j Hj)).
  - exists m1'. split; [done|]. split; [congruence|done].
Qed.
End Instruction.

(** *** Executing blocks *)

Lemma block_simulates b block out : at_ (blocks f) b = Some block -> forall r k news m m',
  drop k (insts block) = r -> Forall2 (becomes regs hooks l opcode_info slot_of) r news -> match_states (live b block k) m m' ->
  match execs own r m with
  | None => execs own (concat news ++ out) m' = None
  | Some (m1, Next) => exists m3, execs own (concat news ++ out) m' = execs own out m3
  | Some (m1, e) => exists m3, execs own (concat news ++ out) m' = Some (m3, e) /\ the_world m3 = the_world m1 /\
      match e with
      | Goto s => s ∈ succs block -> match_states (live_at_entry opcode_info (blocks f) s) m1 m3
      | _ => True
      end
  end.
Proof using Hf Hfinal Hl Hl0 Hslot_of Htarget.
  intros Hb. induction r as [|inst r IH]; intros k news m m' Hdrop Hnews Hm.
  { apply Forall2_nil_inv_l in Hnews as ->. cbn. by exists m'. }
  apply Forall2_cons_inv_l in Hnews as (new & news' & (scratch & rs & ops & st & Hr & ->) & Hnews & ->).
  assert (Hk : insts block !! k = Some inst).
  { rewrite <- (Nat.add_0_r k), <- lookup_drop, Hdrop. done. }
  assert (Hrest : drop (S k) (insts block) = r).
  { rewrite <- Nat.add_1_r, <- drop_drop, Hdrop. done. }
  pose proof (step_simulates b block k inst scratch rs ops st (conj Hb Hk) Hr m m' Hm) as Hstep.
  cbn [concat exec_insts]. rewrite <- (assoc_L app), exec_insts_app.
  destruct (exec own inst m) as [[m1 e]|]; cbn [mbind option_bind]; [|by rewrite Hstep].
  destruct Hstep as (m3 & -> & Hw & Hstep). cbn [mbind option_bind]. destruct e as [|s|].
  - destruct r as [|inst2 r].
    + apply Forall2_nil_inv_l in Hnews as ->. cbn. by exists m3.
    + apply (IH (S k)); [done|done|]. apply Hstep. intros _. assert (Hlen : length (drop (S k) (insts block)) <> 0%nat) by by rewrite Hrest.
      rewrite length_drop in Hlen. lia.
  - by exists m3.
  - by exists m3.
Qed.

Lemma run_simulates blocks' : Forall2 (block_becomes regs hooks l opcode_info slot_of) (blocks f) blocks' ->
  forall n b m m', match_states (live_at_entry opcode_info (blocks f) b) m m' ->
  run sem junk regs hooks opcode_info own blocks' n b m' = run sem junk regs hooks opcode_info own (blocks f) n b m.
Proof using Hf Hfinal Hl Hl0 Hslot_of Htarget.
  intros Hblocks. induction n as [|n IH]; intros b m m' Hm; cbn [run]; [by rewrite (ms_world _ _ _ Hm)|].
  destruct (at_ (blocks f) b) as [block|] eqn:Hb; cycle 1.
  { rewrite at_none; [done|]. intros Hlt. assert (Hs : size blocks' = size (blocks f)).
    { unfold size. f_equal. symmetry. by eapply Forall2_length. }
    rewrite Hs in Hlt. apply at_is_Some in Hlt as [? ?]. congruence. }
  assert (Hb' : exists block', at_ blocks' b = Some block' /\ block_becomes regs hooks l opcode_info slot_of block block').
  { unfold at_ in *. destruct (b <? 0); [done|]. by eapply Forall2_lookup_l. }
  destruct Hb' as (block' & -> & Hsuccs & news & Einsts & Hnews). cbn [mbind option_bind]. rewrite Hsuccs.
  assert (Hm0 : match_states (live b block 0) m m').
  { split; [apply Hm|]. intros v i Hlv Hi. apply (ms_value _ _ _ Hm v i); [|done]. by eapply live_before_0. }
  pose proof (block_simulates b block [] Hb (insts block) 0 news m m' eq_refl Hnews Hm0) as Hsim.
  rewrite app_nil_r in Hsim. rewrite Einsts.
  destruct (execs own (insts block) m) as [[m1 e]|]; cbn [mbind option_bind]; [|by rewrite Hsim].
  destruct e as [|s|].
  - destruct Hsim as (m3 & ->). done.
  - destruct Hsim as (m3 & -> & Hw & Hs). cbn [mbind option_bind]. destruct (bool_decide_reflect (s ∈ succs block)); [|done].
    apply IH. by apply Hs.
  - destruct Hsim as (m3 & -> & Hw & _). cbn [mbind option_bind]. by rewrite Hw.
Qed.
End Correct.

(** Claim C2: The function the linear-scan allocator writes runs as the one it was given:
    started with the same memory, whatever the registers hold, after any number of
    blocks both have come to the same block with the same memory, have halted with
    the same memory, or have gone wrong. This holds of every target whose tables are
    as the allocator assumes, every meaning of the instructions, and every behaviour
    of calls on the registers they may change. *)
Theorem linear_scan_correct {val world : Type} (sem : MInst -> list val -> world -> option (val * world * Exit))
    (junk : world -> Z -> val) (regs : TargetRegInfo) (hooks : SpillHooks) (opcode_info : Z -> RegAllocOpcodeInfo)
    (f : MFunction) (Htarget : target_ok regs hooks) (Hf : function_ok sem regs opcode_info f) :
  exists f', linear_scan regs hooks opcode_info f = Some f' /\ vreg_classes f' = vreg_classes f /\
  forall n m m', the_world m' = the_world m ->
    run sem junk regs hooks opcode_info (size (frame_objects f)) (blocks f') n 0 m' =
    run sem junk regs hooks opcode_info (size (frame_objects f)) (blocks f) n 0 m.
Proof.
  pose proof (fk_wf _ _ _ _ Hf) as Hwf. pose proof (fk_some _ _ _ _ Hf) as Hsome.
  destruct (build_intervals_spec opcode_info (blocks f) (size (vreg_classes f)) Hwf (fk_small _ _ _ _ Hf)) as (l0 & E0 & Hl0).
  destruct (assign_registers_spec regs (vreg_classes f) l0 (used_csrs f) (io_size _ _ _ _ Hl0) (io_fresh _ _ _ _ Hl0))
    as (l & csrs & E1 & Hl).
  assert (Hsize : size l = size (vreg_classes f)) by (rewrite (ao_size _ _ _ _ _ _ Hl); apply Hl0).
  destruct (rewrite_blocks_spec regs hooks (vreg_classes f) (word_bytes f) l (size (frame_objects f)) opcode_info Htarget Hsize)
    with (blocks := blocks f) (slots := mkSlots ∅ (frame_objects f)) (given := @nil Z) as (final & given & blocks' & E2 & Hfinal & Hblocks).
  - split; [apply size_nonneg|apply (fk_frame _ _ _ _ Hf)].
  - split; cbn; try done.
    + apply NoDup_nil_2.
    + by intros v ?%elem_of_nil.
    + unfold size. cbn. lia.
    + intros v slot. rewrite lookup_empty. split; [done|]. intros (j & Hj%at_lt & _). unfold size in Hj. cbn in Hj. lia.
  - apply (fk_scratch _ _ _ _ Hf).
  - intros block inst v. apply (wf_vregs _ _ Hwf).
  - unfold linear_scan. rewrite (proj2 (Z.eqb_neq _ 0)) by lia. rewrite E0. cbn [mbind option_bind]. rewrite E1.
    cbn [mbind option_bind]. rewrite E2. cbn [mbind option_bind]. eexists. split; [done|]. split; [done|].
    intros n m m' Hw. cbn [blocks].
    eapply (run_simulates sem junk regs hooks opcode_info Htarget f Hf l0 l csrs _ given final Hl0 Hl Hfinal eq_refl blocks' Hblocks).
    split; [done|]. intros v i Hv. by destruct (fk_entry _ _ _ _ Hf v).
Qed.

(** Deciding what the allocator assumes of a function, but for what its instructions do. *)
Definition function_check (regs : TargetRegInfo) (opcode_info : Z -> RegAllocOpcodeInfo) (f : MFunction) : bool :=
  let count := size (vreg_classes f) in
  wf_check (blocks f) count && (0 <? count) && (inst_count (blocks f) <? 2 ^ 32 - 1) &&
  (size (frame_objects f) + count <? 2 ^ 32 - 1) &&
  forallb (fun block => forallb (fun inst =>
    forallb (fun o =>
      (negb (bool_decide (kind o = Reg)) || is_virtual (reg o) || negb (bool_decide (index (reg o) ∈ handed_out regs))) &&
      (negb (bool_decide (kind o = FrameIndex)) || (frame_index o <? size (frame_objects f)))) (operands inst) &&
    (length (remove_dups (virtuals (operands inst))) <=? length (linear_gpr_scratch regs))%nat &&
    (length (remove_dups (virtuals (operands inst))) <=? length (linear_fpr_scratch regs))%nat) (insts block)) (blocks f) &&
  match liveness opcode_info (blocks f) count with
  | Some flow => forallb (fun v => negb (has (row_words count) (live_in flow) 0 v)) (seqZ 0 count)
  | None => false
  end.
Lemma function_check_ok {val world : Type} (sem : MInst -> list val -> world -> option (val * world * Exit)) regs opcode_info f :
  function_check regs opcode_info f = true ->
  (forall b block k inst xs w x w' s, at_ (blocks f) b = Some block -> insts block !! k = Some inst ->
    sem (blank regs inst) xs w = Some (x, w', Goto s) -> is_call (opcode_info (opcode inst)) = false /\
    forall v, 0 <= v < size (vreg_classes f) -> defines (opcode_info (opcode inst)) inst v \/ live_at_entry opcode_info (blocks f) s v ->
      ~ defined opcode_info (drop k (insts block)) v) ->
  function_ok sem regs opcode_info f.
Proof.
  unfold function_check. rewrite !andb_true_iff. intros [[[[[Hwf%wf_check_ok H1%Z.ltb_lt] H2%Z.ltb_lt] H3%Z.ltb_lt] H4] H5] Hleave.
  rewrite forallb_forall in H4.
  assert (Hinst : forall block inst, block ∈ blocks f -> inst ∈ insts block -> forall o, o ∈ operands inst ->
    (negb (bool_decide (kind o = Reg)) || is_virtual (reg o) || negb (bool_decide (index (reg o) ∈ handed_out regs)) = true) /\
    (negb (bool_decide (kind o = FrameIndex)) || (frame_index o <? size (frame_objects f)) = true)).
  { intros block inst Hb%list_elem_of_In%H4 Hi o Ho. rewrite forallb_forall in Hb. apply list_elem_of_In, Hb in Hi.
    rewrite !andb_true_iff, forallb_forall in Hi. destruct Hi as [[Hi _] _]. apply list_elem_of_In, Hi in Ho.
    by apply andb_true_iff in Ho. }
  split; try done.
  - intros block inst o Hb Hi Ho Hk Hv. destruct (Hinst block inst Hb Hi o Ho) as [Hf _].
    rewrite bool_decide_eq_true_2, Hv in Hf by done. cbn in Hf. by apply negb_true_iff, bool_decide_eq_false in Hf.
  - intros block inst o Hb Hi Ho Hk. destruct (Hinst block inst Hb Hi o Ho) as [_ Hf].
    rewrite bool_decide_eq_true_2 in Hf by done. cbn in Hf. by apply Z.ltb_lt.
  - intros block inst Hb%list_elem_of_In%H4 Hi g. rewrite forallb_forall in Hb. apply list_elem_of_In, Hb in Hi.
    rewrite !andb_true_iff in Hi. destruct Hi as [[_ Hg%Nat.leb_le] Hf%Nat.leb_le]. unfold size, group_pool.
    pose proof (length_filter (in_group (vreg_classes f) g) (remove_dups (virtuals (operands inst)))). destruct g; lia.
  - intros v Hl. destruct (liveness_spec opcode_info (blocks f) (size (vreg_classes f)) Hwf) as (flow & E & _ & _ & Hin & _).
    pose proof (live_range opcode_info _ _ 0 v Hwf Hl) as Hv. rewrite E, forallb_forall in H5.
    specialize (H5 v ltac:(apply list_elem_of_In, elem_of_seqZ; lia)).
    assert (Hb : 0 <= 0 < size (blocks f)) by (inversion Hl; by eapply at_lt).
    by rewrite (proj2 (Hin 0 v Hb Hv) Hl) in H5.
Qed.

(** The loop of [sample_blocks] on 32-bit x86, where one register survives calls: the
    second and the third virtual register are spilled. *)
Definition sample_function : MFunction := mkMFunction sample_blocks [] [Gpr; Gpr; Gpr] [] 4.
Definition sample_sem (inst : MInst) (xs : list Z) (w : Z) : option (Z * Z * Exit) :=
  match opcode inst, operands inst with
  | 1, [_; o] => Some (match xs with x :: _ => x | [] => imm o end, w, Next)
  | 2, _ => Some (foldr Z.add 0 xs, w, Next)
  | 3, [o] => Some (0, w, Goto (label o))
  | 4, _ => Some (0, w + hd 0 xs, Next)
  | 9, _ => Some (0, w, Next)
  | _, _ => None
  end.
Lemma sample_ok : function_ok sample_sem X86.reg_info_32 sample_info sample_function.
Proof.
  apply function_check_ok; [vm_compute; reflexivity|].
  intros b block k inst xs w x w' s Hb Hk Hsem.
  assert (Hop : opcode inst = 3).
  { unfold sample_sem in Hsem. cbn [opcode operands blank] in Hsem. repeat (case_match; try done). }
  assert (Hlast : drop k (insts block) = [mkMInst 3 0 [make_label 1]]).
  { apply at_elem in Hb. change (blocks sample_function) with sample_blocks in Hb. unfold sample_blocks in Hb.
    rewrite !elem_of_cons, elem_of_nil in Hb. destruct Hb as [->|[->|[]]]; cbn [insts] in *.
    - do 4 (destruct k as [|k]; [injection Hk as <-; first [discriminate Hop|reflexivity]|]). by destruct k.
    - do 5 (destruct k as [|k]; [injection Hk as <-; first [discriminate Hop|reflexivity]|]). by destruct k. }
  rewrite Hop. split; [done|]. intros v Hv _ (i & Hi & Hd). rewrite Hlast in Hi.
  apply list_elem_of_singleton in Hi. subst i. vm_compute in Hd, Hv. rewrite <- Hd in Hv. by destruct Hv.
Qed.

Lemma linear_scan_correct_witness : exists f', linear_scan X86.reg_info_32 X86.hooks_32 sample_info sample_function = Some f' /\
  size (frame_objects f') = 2 /\
  forall m' : @Machine Z Z, the_world m' = 0 ->
    run sample_sem (fun _ _ => 99) X86.reg_info_32 X86.hooks_32 sample_info 0 (blocks f') 4 0 m' = Some (Running 1 78).
Proof.
  assert (Htarget : target_ok X86.reg_info_32 X86.hooks_32) by (apply target_check_ok; vm_compute; reflexivity).
  destruct (linear_scan_correct sample_sem (fun _ _ => 99) X86.reg_info_32 X86.hooks_32 sample_info sample_function Htarget sample_ok)
    as (f' & E & _ & H).
  exists f'. split; [exact E|]. split.
  - vm_compute in E. injection E as <-. reflexivity.
  - intros m' Hm. etransitivity; [exact (H 4%nat (mkMachine (fun _ => 0) (fun _ => 0) (fun _ => 0) 0) m' Hm)|].
    vm_compute. reflexivity.
Defined.
