(* ===== verification/Outcome.v ===== *)
(** * Code that may be undefined, or may not end

    A run of a piece of code has a result; or it leaves a vector's bounds; or a signed
    integer overflows, or a vector would outgrow [max_size] and throws; or it has used
    up the fuel its model gives to the loops of the code. The failures are kept apart,
    since the theorems say that the first and the last never happen. [M S] is the
    monad of code over a state [S] that may fail so. *)
From S2P Require Import Prelude.
Open Scope Z_scope.

Inductive outcome (A : Type) := Done (a : A) | Undefined_behaviour | Overflow | Out_of_fuel.
Arguments Done {A} a.
Arguments Undefined_behaviour {A}.
Arguments Overflow {A}.
Arguments Out_of_fuel {A}.

#[export] Instance outcome_ret : MRet outcome := fun _ a => Done a.
#[export] Instance outcome_bind : MBind outcome := fun _ _ k m =>
  match m with Done a => k a | Undefined_behaviour => Undefined_behaviour | Overflow => Overflow | Out_of_fuel => Out_of_fuel end.

(** The loops of the code have fuel enough. *)
Definition ends {A} (m : outcome A) : Prop := m <> Out_of_fuel.

(** ** Code over a state *)

Definition M (S A : Type) : Type := S -> outcome (A * S).

#[export] Instance state_ret S : MRet (M S) := fun _ a s => Done (a, s).
#[export] Instance state_bind S : MBind (M S) := fun _ _ k m s =>
  match m s with Done (a, s) => k a s | Undefined_behaviour => Undefined_behaviour | Overflow => Overflow | Out_of_fuel => Out_of_fuel end.

Definition get {S} : M S S := fun s => Done (s, s).
Definition modify_state {S} (g : S -> S) : M S unit := fun s => Done (tt, g s).
Definition undefined {S A} : M S A := fun _ => Undefined_behaviour.
Definition overflow {S A} : M S A := fun _ => Overflow.
Definition out_of_fuel {S A} : M S A := fun _ => Out_of_fuel.
(** Code whose result may be missing. *)
Definition must {S A} (o : option A) : M S A := fun s => match o with Some a => Done (a, s) | None => Undefined_behaviour end.
(** Code that leaves the state alone. *)
Definition lift {S A} (o : outcome A) : M S A := fun s =>
  match o with
  | Done a => Done (a, s)
  | Undefined_behaviour => Undefined_behaviour
  | Overflow => Overflow
  | Out_of_fuel => Out_of_fuel
  end.
(** Code over a part of the state. *)
Definition zoom {S T A} (part : S -> T) (back : T -> S -> S) (m : M T A) : M S A := fun s =>
  match m (part s) with
  | Done (a, t) => Done (a, back t s)
  | Undefined_behaviour => Undefined_behaviour
  | Overflow => Overflow
  | Out_of_fuel => Out_of_fuel
  end.

Lemma bind_done {S A B} (m : M S A) (k : A -> M S B) s a s' : m s = Done (a, s') -> (m ≫= k) s = k a s'.
Proof. intros H. unfold mbind, state_bind. by rewrite H. Qed.
Lemma bind_inv {S A B} (m : M S A) (k : A -> M S B) s b s' : (m ≫= k) s = Done (b, s') ->
  exists a s1, m s = Done (a, s1) /\ k a s1 = Done (b, s').
Proof. unfold mbind, state_bind. destruct (m s) as [[a s1]| | |]; [|done..]. intros H. by exists a, s1. Qed.

(** ** What code establishes

    [run m s Q]: from [s] the code [m] ends and stays within bounds, and if no number
    overflows it has a result and a state for which [Q] holds. *)
Definition run {S A} (m : M S A) (s : S) (Q : A -> S -> Prop) : Prop :=
  match m s with Done (a, s') => Q a s' | Overflow => True | Undefined_behaviour | Out_of_fuel => False end.

Lemma run_ret {S A} (a : A) (s : S) (Q : A -> S -> Prop) : Q a s -> run (mret a) s Q.
Proof. done. Qed.
Lemma run_bind {S A B} (m : M S A) (k : A -> M S B) s Q : run m s (fun a s' => run (k a) s' Q) -> run (m ≫= k) s Q.
Proof. unfold run, mbind, state_bind. by destruct (m s) as [[a s1]| | |]. Qed.
Lemma run_unbind {S A B} (m : M S A) (k : A -> M S B) s Q : run (m ≫= k) s Q -> run m s (fun a s' => run (k a) s' Q).
Proof. unfold run, mbind, state_bind. by destruct (m s) as [[a s1]| | |]. Qed.
Lemma run_mono {S A} (m : M S A) s (Q Q' : A -> S -> Prop) : run m s Q -> (forall a s', Q a s' -> Q' a s') -> run m s Q'.
Proof. unfold run. destruct (m s) as [[a s1]| | |]; [|done..]. intros H HQ. by apply HQ. Qed.
Lemma run_zoom {S T A} part back (m : M T A) (s : S) Q :
  run m (part s) (fun a t => Q a (back t s)) -> run (zoom part back m) s Q.
Proof. unfold run, zoom. by destruct (m (part s)) as [[a t]| | |]. Qed.
Lemma run_must {S A} (o : option A) a (s : S) (Q : A -> S -> Prop) : o = Some a -> Q a s -> run (must o) s Q.
Proof. unfold run, must. by intros ->. Qed.
Lemma run_lift {S A} (o : outcome A) a (s : S) (Q : A -> S -> Prop) : o = Done a -> Q a s -> run (lift o) s Q.
Proof. unfold run, lift. by intros ->. Qed.
Lemma run_get {S} (s : S) (Q : S -> S -> Prop) : Q s s -> run get s Q.
Proof. done. Qed.
Lemma run_modify {S} (g : S -> S) s (Q : unit -> S -> Prop) : Q tt (g s) -> run (modify_state g) s Q.
Proof. done. Qed.
Lemma run_overflow {S A} (s : S) (Q : A -> S -> Prop) : run overflow s Q.
Proof. done. Qed.
Lemma run_ends {S A} (m : M S A) s Q : run m s Q -> ends (m s).
Proof. unfold run, ends. by destruct (m s) as [[a t]| | |]. Qed.
Lemma run_done {S A} (m : M S A) s a s' Q : m s = Done (a, s') -> run m s Q <-> Q a s'.
Proof. unfold run. by intros ->. Qed.

Create HintDb run discriminated.
#[export] Hint Resolve run_ret run_get run_modify run_overflow : run.

(** One step of a weakest-precondition argument. *)
Ltac run_step :=
  match goal with
  | |- run (_ ≫= _) _ _ => apply run_bind
  | |- run (mret _) _ _ => apply run_ret
  | |- run get _ _ => apply run_get
  | |- run (modify_state _) _ _ => apply run_modify
  | |- run overflow _ _ => apply run_overflow
  | |- run (if ?b then _ else _) _ _ => destruct b eqn:?
  | |- run (match ?x with _ => _ end) _ _ => destruct x eqn:?
  end.
