(* ===== verification/AsmLexer.v ===== *)
(** * The lexer of the assembler (src/assembler/lexer.h, src/assembler/lexer.cpp)

    A [Cursor] is a position in the source, kept as the characters from [pos_] on;
    the end of the source and a zero character in it read alike. The lexer scans a
    token at a time and buffers up to two of them for [peek] and [peek_second]. The
    strings it decodes are in the tokens, so the deque that keeps them alive is left
    out. *)
From S2P Require Import Prelude Vectors Outcome.
Open Scope Z_scope.

(** ** Tokens *)

Inductive TokKind :=
  Tok_End | Tok_Newline | Tok_Ident | Tok_Integer | Tok_LocalRef | Tok_String | Tok_LShift | Tok_RShift | Tok_Punct.
#[export] Instance tok_kind_eq_dec : EqDecision TokKind.
Proof. solve_decision. Defined.

Record Token := mkToken {
  tok_kind : TokKind; text : chars; tok_value : Z; backward : bool; punct : ascii; tok_line : Z; tok_col : Z }.
Definition NUL : ascii := "000".
Definition token (k : TokKind) (line col : Z) : Token := mkToken k [] 0 false NUL line col.
Definition with_text (s : chars) (t : Token) : Token :=
  mkToken (tok_kind t) s (tok_value t) (backward t) (punct t) (tok_line t) (tok_col t).
Definition with_value (v : Z) (t : Token) : Token :=
  mkToken (tok_kind t) (text t) v (backward t) (punct t) (tok_line t) (tok_col t).
Definition with_punct (c : ascii) (t : Token) : Token :=
  mkToken (tok_kind t) (text t) (tok_value t) (backward t) c (tok_line t) (tok_col t).
Definition as_local_ref (b : bool) (t : Token) : Token :=
  mkToken Tok_LocalRef (text t) (tok_value t) b (punct t) (tok_line t) (tok_col t).
Definition is_kind (k : TokKind) (t : Token) : bool := bool_decide (tok_kind t = k).
Definition is_punct (c : ascii) (t : Token) : bool := is_kind Tok_Punct t && ceqb (punct t) c.

(** ** Characters *)

Definition between (a b c : ascii) : bool := (code a <=? code c) && (code c <=? code b).
Definition is_ident_start (c : ascii) : bool := between "a" "z" c || between "A" "Z" c || ceqb c "_" || ceqb c ".".
Definition is_digit (c : ascii) : bool := between "0" "9" c.
Definition is_ident_char (c : ascii) : bool := is_ident_start c || between "0" "9" c || ceqb c "$".
Definition is_hex_digit (c : ascii) : bool := is_digit c || between "a" "f" c || between "A" "F" c.
Definition hex_value (c : ascii) : Z :=
  if is_digit c then code c - code "0"
  else if between "a" "f" c then code c - code "a" + 10
  else code c - code "A" + 10.

Definition newline : ascii := "010".
Definition tab : ascii := "009".
Definition carriage_return : ascii := "013".
Definition backslash : ascii := "092".
Definition single_quote : ascii := "039".
Definition double_quote : ascii := "034".

(** ** Positions *)

Record Cursor := mkCursor { rest : chars; line : Z; col : Z }.

Definition current (c : Cursor) : ascii := match rest c with [] => NUL | x :: _ => x end.
Definition lookahead (distance : nat) (c : Cursor) : ascii := default NUL (rest c !! distance).
Definition advance (c : Cursor) : Cursor :=
  match rest c with
  | [] => c
  | x :: l => if ceqb x newline then mkCursor l (u32 (line c + 1)) 1 else mkCursor l (line c) (u32 (col c + 1))
  end.

(** [while (p(current())) advance();] and the characters passed, for a [p] that is
    false of the end. *)
Fixpoint pass_go (p : ascii -> bool) (l : chars) (c : Cursor) : chars * Cursor :=
  match l with
  | [] => ([], c)
  | x :: l => if p x then let '(passed, c) := pass_go p l (advance c) in (x :: passed, c) else ([], c)
  end.
Definition pass (p : ascii -> bool) (c : Cursor) : chars * Cursor := pass_go p (rest c) c.

Definition in_line (c : ascii) : bool := negb (ceqb c newline) && negb (ceqb c NUL).

(** [while (current() != 0 && !(current() == '*' && lookahead() == '/')) advance();] *)
Fixpoint pass_comment_go (l : chars) (c : Cursor) : Cursor :=
  match l with
  | [] => c
  | x :: l =>
      if ceqb x NUL || (ceqb x "*" && ceqb (lookahead 1 c) "/") then c else pass_comment_go l (advance c)
  end.
Definition pass_comment (c : Cursor) : Cursor := pass_comment_go (rest c) c.

(** [skip_trivia], with whether a number sign starts a comment; it says whether there
    is more. *)
Fixpoint skip_trivia_go (fuel : nat) (hash : bool) (c : Cursor) : outcome (bool * Cursor) :=
  match fuel with
  | O => Out_of_fuel
  | S fuel =>
      let x := current c in
      if ceqb x " " || ceqb x tab || ceqb x carriage_return then skip_trivia_go fuel hash (advance c)
      else if ceqb x backslash && (ceqb (lookahead 1 c) newline ||
                (ceqb (lookahead 1 c) carriage_return && ceqb (lookahead 2 c) newline)) then
        let c := advance c in
        let c := if ceqb (current c) carriage_return then advance c else c in
        skip_trivia_go fuel hash (advance c)
      else if ceqb x "/" && ceqb (lookahead 1 c) "/" then skip_trivia_go fuel hash (snd (pass in_line c))
      else if ceqb x "/" && ceqb (lookahead 1 c) "*" then
        let c := pass_comment (advance (advance c)) in
        skip_trivia_go fuel hash (if ceqb (current c) NUL then c else advance (advance c))
      else if ceqb x "#" && hash then skip_trivia_go fuel hash (snd (pass in_line c))
      else Done (negb (ceqb x NUL), c)
  end.
Definition skip_trivia (hash : bool) (c : Cursor) : outcome (bool * Cursor) := skip_trivia_go (S (length (rest c))) hash c.

(** ** The tokens *)

Definition start_token (k : TokKind) (c : Cursor) : Token := token k (line c) (col c).

Definition scan_ident (c : Cursor) : Token * Cursor :=
  let t := start_token Tok_Ident c in
  let '(name, c) := pass is_ident_char c in (with_text name t, c).

(** [value = value * base + digit] over the digits, in a word of [w] bits. *)
Definition accumulate (w base : Z) (digit : ascii -> Z) (digits : chars) : Z :=
  fold_left (fun value c => uwrap w (value * base + digit c)) digits 0.
Definition decimal_digit (c : ascii) : Z := code c - code "0".
Definition is_binary_digit (c : ascii) : bool := between "0" "1" c.
Definition is_octal_digit (c : ascii) : bool := between "0" "7" c.

Definition scan_number (c : Cursor) : Token * Cursor :=
  let t := start_token Tok_Integer c in
  if ceqb (current c) "0" && (ceqb (lookahead 1 c) "x" || ceqb (lookahead 1 c) "X") && is_hex_digit (lookahead 2 c) then
    let '(digits, c) := pass is_hex_digit (advance (advance c)) in
    (with_value (s64 (accumulate 64 16 hex_value digits)) t, c)
  else if ceqb (current c) "0" && (ceqb (lookahead 1 c) "b" || ceqb (lookahead 1 c) "B") && is_binary_digit (lookahead 2 c) then
    let '(digits, c) := pass is_binary_digit (advance (advance c)) in
    (with_value (s64 (accumulate 64 2 decimal_digit digits)) t, c)
  else
    let octal := ceqb (current c) "0" in
    let '(digits, c) := pass is_digit c in
    let decimal := accumulate 64 10 decimal_digit digits in
    if (ceqb (current c) "b" || ceqb (current c) "f") && negb (is_ident_char (lookahead 1 c)) then
      (as_local_ref (ceqb (current c) "b") (with_value (s64 decimal) t), advance c)
    else
      let value := if octal then accumulate 64 8 decimal_digit digits else decimal in
      (with_value (s64 value) t, c).

(** Up to [n] octal digits. *)
Fixpoint pass_octal (n : nat) (c : Cursor) : chars * Cursor :=
  match n with
  | O => ([], c)
  | S n =>
      if is_octal_digit (current c)
      then let '(digits, c') := pass_octal n (advance c) in (current c :: digits, c')
      else ([], c)
  end.

(** The single-character escapes a string and a character share. *)
Definition simple_escape (c : ascii) : option ascii :=
  if ceqb c "b" then Some "008"%char
  else if ceqb c "f" then Some "012"%char
  else if ceqb c "n" then Some newline
  else if ceqb c "r" then Some carriage_return
  else if ceqb c "t" then Some tab
  else if ceqb c backslash then Some backslash
  else if ceqb c double_quote then Some double_quote
  else if ceqb c single_quote then Some single_quote
  else None.

(** What follows a backslash in a string. *)
Definition scan_escape (c : Cursor) : ascii * Cursor :=
  let escape := current c in
  match simple_escape escape with
  | Some x => (x, advance c)
  | None =>
      if ceqb escape "x" then
        let '(digits, c) := pass is_hex_digit (advance c) in
        (chr (Z.land (accumulate 32 16 hex_value digits) 255), c)
      else if is_octal_digit escape then
        let '(digits, c) := pass_octal 3 c in (chr (Z.land (accumulate 32 8 decimal_digit digits) 255), c)
      else (escape, advance c)
  end.

Definition in_string (c : ascii) : bool := negb (ceqb c double_quote) && in_line c.
Fixpoint scan_string_go (fuel : nat) (c : Cursor) : outcome (chars * Cursor) :=
  match fuel with
  | O => Out_of_fuel
  | S fuel =>
      if in_string (current c) then
        let '(x, c) := if ceqb (current c) backslash then scan_escape (advance c) else (current c, advance c) in
        '(decoded, c) ← scan_string_go fuel c;
        Done (x :: decoded, c)
      else Done ([], c)
  end.
Definition scan_string (c : Cursor) : outcome (Token * Cursor) :=
  let t := start_token Tok_String c in
  let c := advance c in
  '(decoded, c) ← scan_string_go (S (length (rest c))) c;
  Done (with_text decoded t, if ceqb (current c) double_quote then advance c else c).

Definition scan_char_literal (c : Cursor) : Token * Cursor :=
  let t := start_token Tok_Integer c in
  let c := advance c in
  let x := current c in
  let '(x, c) :=
    if ceqb x backslash then
      let c := advance c in
      (match simple_escape (current c) with
       | Some x => x
       | None => if ceqb (current c) "0" then NUL else current c
       end, advance c)
    else (x, if negb (ceqb x NUL) && negb (ceqb x newline) then advance c else c) in
  (with_value (code x) t, if ceqb (current c) single_quote then advance c else c).

(** ** The lexer *)

Record Lexer := mkLexer { cursor : Cursor; statement_start : bool; hash_comments : bool; buffer : list Token }.
Definition new_lexer (source : chars) : Lexer := mkLexer (mkCursor source 1 1) true false [].
Definition set_hash_comments (enabled : bool) (lx : Lexer) : Lexer :=
  mkLexer (cursor lx) (statement_start lx) enabled (buffer lx).
Definition moved (c : Cursor) (start : bool) (lx : Lexer) : Lexer := mkLexer c start (hash_comments lx) (buffer lx).

Definition scan : M Lexer Token := fun lx =>
  '(more, c) ← skip_trivia (statement_start lx || hash_comments lx) (cursor lx);
  if negb (more : bool) then Done (start_token Tok_End c, moved c (statement_start lx) lx)
  else
    let x := current c in
    if ceqb x newline || ceqb x ";" then Done (start_token Tok_Newline c, moved (advance c) true lx)
    else
      '(t, c) ← (
        if is_ident_start x then Done (scan_ident c)
        else if is_digit x then Done (scan_number c)
        else if ceqb x double_quote then scan_string c
        else if ceqb x single_quote then Done (scan_char_literal c)
        else if ceqb x "<" && ceqb (lookahead 1 c) "<" then Done (start_token Tok_LShift c, advance (advance c))
        else if ceqb x ">" && ceqb (lookahead 1 c) ">" then Done (start_token Tok_RShift c, advance (advance c))
        else Done (with_punct x (start_token Tok_Punct c), advance c));
      Done (t, moved c false lx).

Definition push_token (t : Token) (lx : Lexer) : Lexer :=
  mkLexer (cursor lx) (statement_start lx) (hash_comments lx) (buffer lx ++ [t]).
Definition pop_token (lx : Lexer) : Lexer :=
  mkLexer (cursor lx) (statement_start lx) (hash_comments lx) (tail (buffer lx)).

(** [while (buffered_ < count)], at most [n] times. *)
Fixpoint fill_go (n : nat) (count : nat) : M Lexer unit :=
  match n with
  | O => mret tt
  | S n =>
      lx ← get;
      if (length (buffer lx) <? count)%nat then t ← scan; _ ← modify_state (push_token t); fill_go n count else mret tt
  end.
Definition fill (count : nat) : M Lexer unit := fill_go count count.

Definition peek : M Lexer Token := _ ← fill 1; lx ← get; must (buffer lx !! 0%nat).
Definition peek_second : M Lexer Token := _ ← fill 2; lx ← get; must (buffer lx !! 1%nat).
Definition take_token : M Lexer Token :=
  _ ← fill 1; lx ← get; t ← must (buffer lx !! 0%nat); _ ← modify_state pop_token; mret t.

Fixpoint skip_to_statement_end_go (fuel : nat) : M Lexer unit :=
  match fuel with
  | O => out_of_fuel
  | S fuel => t ← take_token; if is_kind Tok_Newline t || is_kind Tok_End t then mret tt else skip_to_statement_end_go fuel
  end.
(** Each token but the last takes a character or is in the buffer. *)
Definition skip_to_statement_end : M Lexer unit :=
  lx ← get; skip_to_statement_end_go (S (length (buffer lx) + length (rest (cursor lx)))).

(** ** Scanning ends *)

Definition left (c : Cursor) : nat := length (rest c).

Lemma advance_rest c : rest (advance c) = tail (rest c).
Proof. unfold advance. destruct (rest c) as [|x l] eqn:E; [by rewrite E|]. by destruct (ceqb x newline). Qed.
Lemma left_advance c : left (advance c) = pred (left c).
Proof. unfold left. rewrite advance_rest. by destruct (rest c). Qed.
Lemma current_nul c : current c <> NUL -> (0 < left c)%nat.
Proof. unfold current, left. destruct (rest c); [done|cbn; lia]. Qed.
Lemma ceqb_spec a b : ceqb a b = true <-> a = b.
Proof. apply Ascii.eqb_eq. Qed.
Lemma ceqb_refl a : ceqb a a = true.
Proof. by apply ceqb_spec. Qed.
Lemma ceqb_ne a b : a <> b -> ceqb a b = false.
Proof. intros H. apply not_true_iff_false. by rewrite ceqb_spec. Qed.

(** What a pass leaves. *)
Lemma pass_go_spec p l : forall c, rest c = l ->
  rest c = fst (pass_go p l c) ++ rest (snd (pass_go p l c)) /\ Forall (fun x => p x = true) (fst (pass_go p l c)) /\
  (rest (snd (pass_go p l c)) = [] \/ p (current (snd (pass_go p l c))) = false).
Proof.
  induction l as [|x l IH]; intros c Hc; cbn; [rewrite Hc; by split_and!; [|constructor|left]|].
  destruct (p x) eqn:Hp.
  - destruct (IH (advance c)) as (H1 & H2 & H3); [by rewrite advance_rest, Hc|].
    destruct (pass_go p l (advance c)) as [passed c']. cbn in *. rewrite Hc. rewrite advance_rest, Hc in H1. cbn in H1.
    split_and!; [by rewrite H1|by constructor|done].
  - cbn. split_and!; [done|constructor|right]. unfold current. by rewrite Hc.
Qed.
Lemma pass_spec p c : rest c = fst (pass p c) ++ rest (snd (pass p c)) /\ Forall (fun x => p x = true) (fst (pass p c)) /\
  (rest (snd (pass p c)) = [] \/ p (current (snd (pass p c))) = false).
Proof. by apply pass_go_spec. Qed.
Lemma left_pass p c : (left (snd (pass p c)) <= left c)%nat.
Proof. unfold left. destruct (pass_spec p c) as (-> & _). rewrite length_app. lia. Qed.
Lemma left_pass_lt p c : p (current c) = true -> p NUL = false -> (left (snd (pass p c)) < left c)%nat.
Proof.
  intros Hp H0. unfold pass. destruct (rest c) as [|x l] eqn:E; [unfold current in Hp; rewrite E in Hp; congruence|].
  cbn. unfold current in Hp. rewrite E in Hp. rewrite Hp. destruct (pass_go_spec p l (advance c)) as (H1 & _); [by rewrite advance_rest, E|].
  destruct (pass_go p l (advance c)) as [passed c']. cbn in *. unfold left. rewrite E. rewrite advance_rest, E in H1. cbn in H1.
  rewrite H1. cbn. rewrite length_app. lia.
Qed.
Lemma left_pass_comment c : (left (pass_comment c) <= left c)%nat.
Proof.
  unfold pass_comment. cut (forall l c, (left (pass_comment_go l c) <= left c)%nat); [done|]. clear c.
  induction l as [|x l IH]; intros c; cbn; [lia|]. destruct (_ || _); [lia|]. pose proof (IH (advance c)) as H.
  rewrite left_advance in H. lia.
Qed.

Ltac cursor_lia :=
  repeat match goal with
  | H : ceqb ?a ?b = true |- _ => apply ceqb_spec in H
  | H : _ || _ = true |- _ => apply orb_true_iff in H
  | H : _ && _ = true |- _ => apply andb_true_iff in H as [? ?]
  | H : _ \/ _ |- _ => destruct H
  end;
  repeat match goal with
  | H : context [left (advance _)] |- _ => rewrite left_advance in H
  | |- context [left (advance _)] => rewrite left_advance
  end; lia.

Lemma skip_trivia_go_ends hash fuel : forall c, (left c < fuel)%nat ->
  exists more c', skip_trivia_go fuel hash c = Done (more, c') /\ (left c' <= left c)%nat /\ more = negb (ceqb (current c') NUL).
Proof.
  induction fuel as [|fuel IH]; intros c Hf; [lia|]. cbn [skip_trivia_go].
  assert (Hrec : forall c', (left c' < left c)%nat -> exists more c'', skip_trivia_go fuel hash c' = Done (more, c'') /\
    (left c'' <= left c)%nat /\ more = negb (ceqb (current c'') NUL)).
  { intros c' Hlt. destruct (IH c' ltac:(lia)) as (more & c'' & E & Hle & Hm). exists more, c''. split_and!; [done|lia|done]. }
  assert (Hpos : forall x, current c = x -> x <> NUL -> (0 < left c)%nat) by (intros x <-; apply current_nul).
  destruct (ceqb (current c) " " || _ || _) eqn:E1.
  { apply Hrec. assert (0 < left c)%nat; [|cursor_lia].
    rewrite !orb_true_iff, !ceqb_spec in E1. destruct E1 as [[E|E]|E]; by apply (Hpos _ E). }
  destruct (ceqb (current c) backslash && _) eqn:E2.
  { apply andb_true_iff in E2 as [E2%ceqb_spec _]. apply Hrec. pose proof (Hpos _ E2 ltac:(done)).
    destruct (ceqb (current (advance c)) carriage_return); cursor_lia. }
  destruct (ceqb (current c) "/" && ceqb (lookahead 1 c) "/") eqn:E3.
  { apply andb_true_iff in E3 as [E3%ceqb_spec _]. apply Hrec, left_pass_lt; [by rewrite E3|done]. }
  destruct (ceqb (current c) "/" && ceqb (lookahead 1 c) "*") eqn:E4.
  { apply andb_true_iff in E4 as [E4%ceqb_spec _]. apply Hrec. pose proof (Hpos _ E4 ltac:(done)).
    pose proof (left_pass_comment (advance (advance c))). rewrite !left_advance in *.
    destruct (ceqb (current (pass_comment _)) NUL); cursor_lia. }
  destruct (ceqb (current c) "#" && hash) eqn:E5.
  { apply andb_true_iff in E5 as [E5%ceqb_spec _]. apply Hrec, left_pass_lt; [by rewrite E5|done]. }
  by exists (negb (ceqb (current c) NUL)), c.
Qed.

Lemma left_pass_octal n c : (left (snd (pass_octal n c)) <= left c)%nat.
Proof.
  revert c. induction n as [|n IH]; intros c; cbn; [lia|]. destruct (is_octal_digit _); [|cbn; lia].
  pose proof (IH (advance c)) as H. destruct (pass_octal n (advance c)) as [d c']. cbn in *. rewrite left_advance in H. lia.
Qed.
Lemma left_scan_escape c : (left (snd (scan_escape c)) <= left c)%nat.
Proof.
  unfold scan_escape. destruct (simple_escape _); [cbn; cursor_lia|]. destruct (ceqb _ "x").
  - pose proof (left_pass is_hex_digit (advance c)) as H. destruct (pass _ _) as [d c']. cbn in *. cursor_lia.
  - destruct (is_octal_digit _); [|cbn; cursor_lia].
    pose proof (left_pass_octal 3 c) as H. by destruct (pass_octal 3 c) as [d c'].
Qed.
Lemma scan_string_go_ends fuel : forall c, (left c < fuel)%nat ->
  exists s c', scan_string_go fuel c = Done (s, c') /\ (left c' <= left c)%nat.
Proof.
  induction fuel as [|fuel IH]; intros c Hf; [lia|]. cbn [scan_string_go].
  destruct (in_string (current c)) eqn:Hin; [|by exists [], c].
  assert (Hpos : (0 < left c)%nat).
  { apply current_nul. intros H0. by rewrite H0 in Hin. }
  assert (Hle : (left (snd (if ceqb (current c) backslash then scan_escape (advance c) else (current c, advance c))) < left c)%nat).
  { destruct (ceqb _ _); [pose proof (left_scan_escape (advance c)); cursor_lia|cbn; cursor_lia]. }
  destruct (if ceqb (current c) backslash then _ else _) as [x c1]. cbn [snd] in Hle.
  destruct (IH c1 ltac:(lia)) as (s & c' & -> & Hc'). exists (x :: s), c'. split; [done|lia].
Qed.

(** A token that starts at a character takes it, at least. *)
Lemma left_scan_ident c : is_ident_start (current c) = true -> (left (snd (scan_ident c)) < left c)%nat.
Proof.
  intros H. unfold scan_ident. pose proof (left_pass_lt is_ident_char c ltac:(unfold is_ident_char; by rewrite H) eq_refl).
  by destruct (pass _ c).
Qed.
Lemma left_scan_number c : is_digit (current c) = true -> (left (snd (scan_number c)) < left c)%nat.
Proof.
  intros Hd. assert (Hpos : (0 < left c)%nat) by (apply current_nul; intros E; by rewrite E in Hd).
  unfold scan_number. destruct (_ && is_hex_digit _).
  { pose proof (left_pass is_hex_digit (advance (advance c))) as H. destruct (pass _ _) as [d c']. cbn in *. cursor_lia. }
  destruct (_ && is_binary_digit _).
  { pose proof (left_pass is_binary_digit (advance (advance c))) as H. destruct (pass _ _) as [d c']. cbn in *. cursor_lia. }
  pose proof (left_pass_lt is_digit c Hd eq_refl) as H. destruct (pass is_digit c) as [d c']. cbn in *.
  destruct (_ && negb _); cbn; cursor_lia.
Qed.
Lemma left_scan_char c : (0 < left c)%nat -> (left (snd (scan_char_literal c)) < left c)%nat.
Proof.
  intros Hpos. unfold scan_char_literal. destruct (ceqb _ backslash); cbn.
  - destruct (ceqb _ single_quote); cursor_lia.
  - destruct (negb _ && negb _); destruct (ceqb _ single_quote); cursor_lia.
Qed.

Lemma scan_ends lx : exists t lx', scan lx = Done (t, lx') /\ buffer lx' = buffer lx /\ hash_comments lx' = hash_comments lx /\
  (left (cursor lx') <= left (cursor lx))%nat /\ (tok_kind t <> Tok_End -> (left (cursor lx') < left (cursor lx))%nat).
Proof.
  unfold scan. destruct (skip_trivia_go_ends (statement_start lx || hash_comments lx) (S (left (cursor lx))) (cursor lx) ltac:(lia))
    as (more & c & E & Hle & Hm). unfold skip_trivia. fold (left (cursor lx)). rewrite E. cbn [mbind outcome_bind].
  destruct more; cbn [negb].
  2:{ do 2 eexists. split; [done|]. split_and!; [done|done|done|by intros []]. }
  assert (Hpos : (0 < left c)%nat).
  { apply current_nul. intros H0. by rewrite H0 in Hm. }
  destruct (ceqb (current c) newline || ceqb (current c) ";").
  { do 2 eexists. split; [done|]. cbn. split_and!; try done; intros; cursor_lia. }
  assert (Hfin : forall m : outcome (Token * Cursor), (exists t c', m = Done (t, c') /\ (left c' < left c)%nat) ->
    exists t lx', ('(t, c) ← m; Done (t, moved c false lx)) = Done (t, lx') /\ buffer lx' = buffer lx /\
      hash_comments lx' = hash_comments lx /\ (left (cursor lx') <= left (cursor lx))%nat /\
      (tok_kind t <> Tok_End -> (left (cursor lx') < left (cursor lx))%nat)).
  { intros m (t & c' & -> & Hlt). do 2 eexists. split; [done|]. cbn. split_and!; try done; intros; lia. }
  apply Hfin. clear Hfin.
  destruct (is_ident_start _) eqn:E1; [by pose proof (left_scan_ident c E1); destruct (scan_ident c); do 2 eexists|].
  destruct (is_digit _) eqn:E2; [by pose proof (left_scan_number c E2); destruct (scan_number c); do 2 eexists|].
  destruct (ceqb _ double_quote).
  { unfold scan_string. destruct (scan_string_go_ends (S (left (advance c))) (advance c) ltac:(lia)) as (s & c' & Es & Hs).
    fold (left (advance c)). rewrite Es. cbn [mbind outcome_bind]. do 2 eexists. split; [done|].
    destruct (ceqb _ double_quote); cursor_lia. }
  destruct (ceqb _ single_quote); [by pose proof (left_scan_char c Hpos); destruct (scan_char_literal c); do 2 eexists|].
  destruct (_ && _); [do 2 eexists; split; [done|cursor_lia]|].
  destruct (_ && _); do 2 eexists; (split; [done|cursor_lia]).
Qed.

(** ** The stream of tokens

    What is left to take: the tokens that are buffered, and at most one for each
    character; the end can be taken again and again. *)
Definition not_end (t : Token) : Prop := tok_kind t <> Tok_End.
#[export] Instance not_end_dec t : Decision (not_end t) := ltac:(unfold not_end; apply _).
Definition pending (lx : Lexer) : nat := length (filter not_end (buffer lx)) + left (cursor lx).

Lemma pending_push t lx lx' : buffer lx' = buffer lx -> (left (cursor lx') <= left (cursor lx))%nat ->
  (not_end t -> (left (cursor lx') < left (cursor lx))%nat) -> (pending (push_token t lx') <= pending lx)%nat.
Proof.
  intros Hb Hle Hlt. unfold pending. cbn. rewrite Hb, list.filter_app, length_app, filter_cons, filter_nil.
  case_decide as H; cbn; [specialize (Hlt H)|]; lia.
Qed.

(** Filling the buffer adds tokens at its end. *)
Lemma fill_go_run n count : forall lx, (count <= length (buffer lx) + n)%nat ->
  exists lx', fill_go n count lx = Done (tt, lx') /\ buffer lx `prefix_of` buffer lx' /\ (count <= length (buffer lx'))%nat /\
    (length (buffer lx') <= Nat.max count (length (buffer lx)))%nat /\ (pending lx' <= pending lx)%nat /\
    hash_comments lx' = hash_comments lx /\ ((count <= length (buffer lx))%nat -> lx' = lx).
Proof.
  induction n as [|n IH]; intros lx Hn; cbn [fill_go].
  { exists lx. split; [done|]. split_and!; [done|lia..|done|done]. }
  erewrite bind_done by done. destruct (Nat.ltb_spec (length (buffer lx)) count) as [Hlt|Hge].
  2:{ exists lx. split; [done|]. split_and!; [done|lia..|done|done]. }
  destruct (scan_ends lx) as (t & lx1 & E & Hb & Hh & Hle & Hl). erewrite bind_done by exact E.
  erewrite bind_done by done.
  destruct (IH (push_token t lx1)) as (lx' & -> & Hp & H1 & H2 & H3 & H4 & _); [cbn; rewrite Hb, length_app; cbn; lia|].
  cbn in Hp, H2, H4. rewrite Hb in Hp, H2. rewrite length_app in H2. cbn in H2.
  exists lx'. split; [done|]. split_and!; [by etrans; [apply prefix_app_r|]|done|lia| |congruence|lia].
  etrans; [done|]. by apply pending_push.
Qed.

Lemma peek_run lx : exists t lx', peek lx = Done (t, lx') /\ head (buffer lx') = Some t /\ (pending lx' <= pending lx)%nat /\
  hash_comments lx' = hash_comments lx /\ (buffer lx <> [] -> lx' = lx) /\ take_token lx = take_token lx'.
Proof.
  destruct (fill_go_run 1 1 lx ltac:(lia)) as (lx' & E & Hp & H1 & H2 & H3 & Hh & H4).
  destruct (buffer lx') as [|t l] eqn:Hb; [cbn in H1; lia|].
  exists t, lx'. unfold peek, take_token, fill. rewrite !(bind_done _ _ _ _ _ E).
  assert (E' : fill_go 1 1 lx' = Done (tt, lx')).
  { cbn. unfold mbind, state_bind, get. rewrite Hb. done. }
  rewrite (bind_done _ _ _ _ _ E'). erewrite bind_done by done. unfold must. rewrite Hb. split_and!; try done.
  intros Hne. apply H4. destruct (buffer lx); [done|cbn; lia].
Qed.

Lemma take_run lx : exists t lx', take_token lx = Done (t, lx') /\ (pending lx' <= pending lx)%nat /\
  hash_comments lx' = hash_comments lx /\ (not_end t -> (pending lx' < pending lx)%nat).
Proof.
  destruct (fill_go_run 1 1 lx ltac:(lia)) as (lx' & E & Hp & H1 & H2 & H3 & Hh & H4).
  destruct (buffer lx') as [|t l] eqn:Hb; [cbn in H1; lia|].
  exists t, (pop_token lx'). unfold take_token, fill. rewrite (bind_done _ _ _ _ _ E).
  erewrite bind_done by done. unfold must. rewrite Hb. split; [done|].
  assert (Hpop : (pending (pop_token lx') + (if decide (not_end t) then 1 else 0) = pending lx')%nat).
  { unfold pending, pop_token. cbn [buffer cursor]. rewrite Hb. cbn [tail]. rewrite filter_cons. case_decide; cbn; lia. }
  split_and!; [destruct (decide _); lia|done|]. intros Hne. rewrite decide_True in Hpop by done. lia.
Qed.

Lemma peek_second_run lx : exists t lx', peek_second lx = Done (t, lx') /\ buffer lx' !! 1%nat = Some t /\
  (pending lx' <= pending lx)%nat /\ hash_comments lx' = hash_comments lx /\
  ((2 <= length (buffer lx))%nat -> lx' = lx) /\ buffer lx `prefix_of` buffer lx'.
Proof.
  destruct (fill_go_run 2 2 lx ltac:(lia)) as (lx' & E & Hp & H1 & H2 & H3 & Hh & H4).
  destruct (buffer lx') as [|t0 [|t l]] eqn:Hb; [cbn in H1; lia..|].
  exists t, lx'. unfold peek_second, fill. rewrite (bind_done _ _ _ _ _ E).
  erewrite bind_done by done. unfold must. rewrite Hb. by split_and!.
Qed.

Lemma skip_go_ends fuel : forall lx, (pending lx < fuel)%nat ->
  exists lx', skip_to_statement_end_go fuel lx = Done (tt, lx') /\ (pending lx' <= pending lx)%nat /\
    hash_comments lx' = hash_comments lx.
Proof.
  induction fuel as [|fuel IH]; intros lx Hf; [lia|]. cbn [skip_to_statement_end_go].
  destruct (take_run lx) as (t & lx1 & E & Hle & Hh & Hlt). rewrite (bind_done _ _ _ _ _ E).
  destruct (is_kind Tok_Newline t || is_kind Tok_End t) eqn:Hk; [by exists lx1|].
  apply orb_false_iff in Hk as [_ Hk]. unfold is_kind in Hk. apply bool_decide_eq_false in Hk.
  destruct (IH lx1) as (lx' & -> & Hl & Hh'); [specialize (Hlt Hk); lia|]. exists lx'. split_and!; [done|lia|congruence].
Qed.
Lemma pending_bound lx : (pending lx <= length (buffer lx) + left (cursor lx))%nat.
Proof. unfold pending. pose proof (length_filter not_end (buffer lx)). lia. Qed.
Lemma skip_ends lx : exists lx', skip_to_statement_end lx = Done (tt, lx') /\ (pending lx' <= pending lx)%nat /\
  hash_comments lx' = hash_comments lx.
Proof.
  unfold skip_to_statement_end. erewrite bind_done by done. apply skip_go_ends.
  pose proof (pending_bound lx). fold (left (cursor lx)). lia.
Qed.

(** [yields lx ts]: taking tokens from [lx] gives [ts], and then the end. *)
Inductive yields : Lexer -> list Token -> Prop :=
| yields_end lx t lx' : take_token lx = Done (t, lx') -> tok_kind t = Tok_End -> yields lx []
| yields_take lx t lx' ts : take_token lx = Done (t, lx') -> not_end t -> yields lx' ts -> yields lx (t :: ts).

Lemma yields_inv lx ts : yields lx ts -> exists t lx', take_token lx = Done (t, lx') /\
  match ts with [] => tok_kind t = Tok_End | t' :: ts => t' = t /\ not_end t /\ yields lx' ts end.
Proof. intros [lx0 t lx' E H|lx0 t lx' ts0 E H Hy]; by exists t, lx'. Qed.
Lemma yields_peek lx ts : yields lx ts -> exists t lx', peek lx = Done (t, lx') /\ yields lx' ts /\
  match ts with [] => tok_kind t = Tok_End | t' :: _ => t' = t end /\
  exists lx'', take_token lx' = Done (t, lx'') /\ match ts with [] => True | _ :: ts => yields lx'' ts end.
Proof.
  intros Hy. destruct (yields_inv _ _ Hy) as (t & lx'' & Et & Hts).
  destruct (peek_run lx) as (t' & lx' & Ep & Hh & _ & _ & _ & Htake). rewrite Htake in Et. exists t, lx'.
  assert (t' = t) as ->.
  { revert Et. unfold take_token, fill. cbn. unfold mbind, state_bind, get, must, modify_state, mret, state_ret.
    destruct (buffer lx') as [|x l] eqn:Hb; [done|]. cbn in Hh |- *. rewrite Hb. cbn. congruence. }
  split; [done|]. destruct ts as [|t1 ts].
  - split_and!; [by econstructor|done|by exists lx''].
  - destruct Hts as (-> & Hne & Hy'). split_and!; [by econstructor|done|by exists lx''].
Qed.

(** ** Spellings read back *)

Inductive Lexeme :=
| Lx_ident (name : chars) | Lx_integer (n : Z) | Lx_local (n : Z) (back : bool) | Lx_string (s : chars)
| Lx_shift_left | Lx_shift_right | Lx_punct (c : ascii) | Lx_newline.

Definition printable (c : ascii) : bool := between " " "~" c && negb (ceqb c double_quote) && negb (ceqb c backslash).
Definition octal_escape (c : ascii) : chars :=
  [backslash; digit_char (code c / 64); digit_char (code c / 8 mod 8); digit_char (code c mod 8)].
Definition escaped (c : ascii) : chars := if printable c then [c] else octal_escape c.
Definition spell (l : Lexeme) : chars :=
  match l with
  | Lx_ident name => name
  | Lx_integer n => to_digits 10 n
  | Lx_local n back => to_digits 10 n ++ [if back then "b" else "f"]%char
  | Lx_string s => double_quote :: concat (map escaped s) ++ [double_quote]
  | Lx_shift_left => str "<<"
  | Lx_shift_right => str ">>"
  | Lx_punct c => [c]
  | Lx_newline => [newline]
  end.
Definition spell_all (ls : list Lexeme) : chars := concat (map (fun l => spell l ++ [" "%char]) ls).

(** A punctuation character that starts no other token and no comment. *)
Definition plain_punct (c : ascii) : bool :=
  printable c && negb (is_ident_start c) && negb (is_digit c) && negb (ceqb c " ") && negb (ceqb c "#") &&
  negb (ceqb c ";") && negb (ceqb c single_quote).
Definition lexeme_ok (l : Lexeme) : bool :=
  match l with
  | Lx_ident name => match name with [] => false | c :: _ => is_ident_start c && forallb is_ident_char name end
  | Lx_integer n | Lx_local n _ => (0 <=? n) && (n <? 2 ^ 64)
  | Lx_punct c => plain_punct c
  | _ => true
  end.
Definition token_of (l : Lexeme) : Token :=
  match l with
  | Lx_ident name => with_text name (token Tok_Ident 0 0)
  | Lx_integer n => with_value (s64 n) (token Tok_Integer 0 0)
  | Lx_local n back => as_local_ref back (with_value (s64 n) (token Tok_LocalRef 0 0))
  | Lx_string s => with_text s (token Tok_String 0 0)
  | Lx_shift_left => token Tok_LShift 0 0
  | Lx_shift_right => token Tok_RShift 0 0
  | Lx_punct c => with_punct c (token Tok_Punct 0 0)
  | Lx_newline => token Tok_Newline 0 0
  end.
(** A token but for its place. *)
Definition placeless (t : Token) : Token := mkToken (tok_kind t) (text t) (tok_value t) (backward t) (punct t) 0 0.

Lemma pass_exact p s x r : forall c, rest c = s ++ x :: r -> forallb p s = true -> p x = false ->
  exists c', pass p c = (s, c') /\ rest c' = x :: r.
Proof.
  unfold pass. cut (forall c, rest c = s ++ x :: r -> forallb p s = true -> p x = false ->
    exists c', pass_go p (s ++ x :: r) c = (s, c') /\ rest c' = x :: r).
  { intros H c Hc. rewrite Hc. by apply H. }
  induction s as [|y s IH]; intros c Hc; cbn [app pass_go forallb].
  - intros _ ->. by exists c.
  - intros [-> Hs]%andb_true_iff Hx. destruct (IH (advance c)) as (c' & -> & Hr); [by rewrite advance_rest, Hc|done..|].
    by exists c'.
Qed.

Lemma accumulate_value (base a : Z) s : forall v, digits_value base a s = Some v ->
  (forall c, c ∈ s -> is_digit c = true) ->
  fold_left (fun value c => uwrap 64 (value * base + decimal_digit c)) s (uwrap 64 a) = uwrap 64 v.
Proof.
  revert a. induction s as [|c s IH]; intros a v; cbn; [by intros [= ->]|].
  intros H Hd. destruct (char_digit c) as [d|] eqn:Hc; [|done]. destruct (d <? base); [|done].
  assert (decimal_digit c = d) as ->.
  { specialize (Hd c ltac:(left)). unfold is_digit, between in Hd. unfold char_digit in Hc.
    change (code "0") with 48 in Hd. change (code "9") with 57 in Hd. rewrite Hd in Hc.
    unfold decimal_digit. change (code "0") with 48. congruence. }
  rewrite <- (IH _ _ H) by (intros; apply Hd; by right). f_equal. unfold uwrap. by rewrite Zplus_mod, Zmult_mod, Zmod_mod, <- Zmult_mod, <- Zplus_mod.
Qed.
Lemma decimal_is_digit c : is_digit_of 10 c -> is_digit c = true.
Proof.
  intros (d & Hd & ->). unfold digit_char, is_digit, between. change (code "0") with 48. change (code "9") with 57.
  destruct (Z.ltb_spec d 10); [|lia]. rewrite code_chr by lia. apply andb_true_iff. lia.
Qed.
Lemma decimal_digits n : forall c, c ∈ to_digits 10 n -> is_digit c = true.
Proof. intros c Hc. apply decimal_is_digit. by apply (proj1 (Forall_forall _ _) (to_digits_digits 10 n ltac:(lia))), list_elem_of_In. Qed.
Lemma accumulate_decimal n : 0 <= n < 2 ^ 64 -> accumulate 64 10 decimal_digit (to_digits 10 n) = n.
Proof.
  intros Hn. unfold accumulate. rewrite <- (uwrap_small 64 0) at 1 by (split; [lia|done]).
  rewrite (accumulate_value 10 0 _ n); [by apply uwrap_small|apply to_digits_value; lia|apply decimal_digits].
Qed.
Lemma to_digits_head n c s : 0 <= n -> to_digits 10 n = c :: s -> c = "0"%char -> n = 0.
Proof.
  intros Hn E ->. assert (H : forall f k acc, (f > 0)%nat -> 0 <= k < 2 ^ Z.of_nat f -> head (digits_go 10 f k acc) = Some "0"%char -> k = 0).
  { clear. induction f as [|f IH]; intros k acc Hf Hk; [lia|]. cbn [digits_go].
    destruct (Z.eqb_spec (k / 10) 0) as [H0|H0].
    - cbn. intros [= E]. assert (k mod 10 = k) as Hm by (apply Z.mod_small; zdiv).
      rewrite Hm in E. unfold digit_char in E. destruct (Z.ltb_spec k 10); [|zdiv].
      apply (f_equal code) in E. rewrite code_chr in E by lia. change (code "0") with 48 in E. lia.
    - destruct f as [|f]; [change (Z.of_nat 1) with 1 in Hk; zdiv|]. intros E. apply IH in E; [zdiv|lia|].
      rewrite Nat2Z.inj_succ, Z.pow_succ_r in Hk by lia. zdiv. }
  apply (H (S (Z.to_nat (Z.log2 n))) n []); [lia| |unfold to_digits in E; by rewrite E].
  destruct (Z.eq_dec n 0) as [->|]; [cbn; lia|]. pose proof (Z.log2_spec n ltac:(lia)). pose proof (Z.log2_nonneg n).
  replace (Z.of_nat (S (Z.to_nat (Z.log2 n)))) with (Z.succ (Z.log2 n)) by lia. lia.
Qed.

(** What may follow the digits of a decimal number for it to be read as one. *)
Definition ends_number (r : chars) : Prop :=
  (exists r', r = " "%char :: r') \/ exists x r', (x = "b"%char \/ x = "f"%char) /\ r = x :: " "%char :: r'.

Lemma not_prefixed n r c : 0 <= n -> rest c = to_digits 10 n ++ r -> ends_number r ->
  ceqb (current c) "0" && (ceqb (lookahead 1 c) "x" || ceqb (lookahead 1 c) "X") && is_hex_digit (lookahead 2 c) = false /\
  ceqb (current c) "0" && (ceqb (lookahead 1 c) "b" || ceqb (lookahead 1 c) "B") && is_binary_digit (lookahead 2 c) = false.
Proof.
  intros Hn Hc Hr. destruct (to_digits 10 n) as [|d s] eqn:E; [by apply to_digits_nonempty in E|].
  unfold current, lookahead. rewrite Hc. cbn [app]. destruct (ceqb d "0") eqn:H0; [|done]. apply ceqb_spec in H0.
  pose proof (to_digits_head n d s Hn E H0) as ->. change (to_digits 10 0) with ["0"%char] in E. injection E as <- <-.
  destruct Hr as [[r' ->]|(x & r' & [-> | ->] & ->)]; done.
Qed.

Lemma scan_integer n r c : 0 <= n < 2 ^ 64 -> rest c = to_digits 10 n ++ " "%char :: r ->
  exists c', scan_number c = (with_value (s64 n) (start_token Tok_Integer c), c') /\ rest c' = " "%char :: r.
Proof.
  intros Hn Hc. unfold scan_number.
  destruct (not_prefixed n _ c (proj1 Hn) Hc) as [-> ->]; [left; by eexists|].
  destruct (pass_exact is_digit (to_digits 10 n) " " r c Hc) as (c' & -> & Hr);
    [by apply forallb_forall; intros x Hx; apply (decimal_digits n), list_elem_of_In|done|].
  exists c'. split; [|done]. assert (Hcur : current c' = " "%char) by (unfold current; by rewrite Hr).
  rewrite Hcur. cbn [ceqb Ascii.eqb andb orb negb]. rewrite accumulate_decimal by done.
  destruct (ceqb (current c) "0") eqn:H0; [|done]. apply ceqb_spec in H0.
  destruct (to_digits 10 n) as [|d s] eqn:E; [by apply to_digits_nonempty in E|].
  unfold current in H0. rewrite Hc in H0. cbn in H0. pose proof (to_digits_head n d s (proj1 Hn) E H0) as ->.
  change (to_digits 10 0) with ["0"%char] in E. by injection E as <- <-.
Qed.
Lemma scan_local n (back : bool) r c : 0 <= n < 2 ^ 64 -> rest c = to_digits 10 n ++ (if back then "b" else "f")%char :: " "%char :: r ->
  exists c', scan_number c = (as_local_ref back (with_value (s64 n) (start_token Tok_Integer c)), c') /\ rest c' = " "%char :: r.
Proof.
  intros Hn Hc. unfold scan_number.
  destruct (not_prefixed n _ c (proj1 Hn) Hc) as [-> ->]; [right; do 2 eexists; split; [|done]; destruct back; tauto|].
  destruct (pass_exact is_digit (to_digits 10 n) _ (" "%char :: r) c Hc) as (c' & -> & Hr);
    [by apply forallb_forall; intros x Hx; apply (decimal_digits n), list_elem_of_In|by destruct back|].
  exists (advance c'). rewrite advance_rest, Hr. split; [|done].
  assert (Hcur : current c' = (if back then "b" else "f")%char) by (unfold current; by rewrite Hr).
  assert (Hla : lookahead 1 c' = " "%char) by (unfold lookahead; by rewrite Hr).
  rewrite Hcur, Hla, accumulate_decimal by done. by destruct back.
Qed.

Definition octal_digits (c : ascii) : chars := tail (octal_escape c).
Lemma octal_digits_ok c :
  match octal_digits c with
  | [o1; o2; o3] => simple_escape o1 = None /\ ceqb o1 "x" = false /\ is_octal_digit o1 = true /\ is_octal_digit o2 = true /\
      is_octal_digit o3 = true /\ chr (Z.land (accumulate 32 8 decimal_digit [o1; o2; o3]) 255) = c
  | _ => False
  end.
Proof. destruct c as [[] [] [] [] [] [] [] []]; vm_compute; repeat split. Qed.
Lemma scan_octal c r cu : rest cu = octal_digits c ++ r -> exists c', scan_escape cu = (c, c') /\ rest c' = r.
Proof.
  pose proof (octal_digits_ok c) as H. destruct (octal_digits c) as [|o1 [|o2 [|o3 [|]]]]; try done.
  destruct H as (H1 & H2 & H3 & H4 & H5 & H6). cbn [app]. intros Hc. unfold scan_escape.
  assert (E1 : current cu = o1) by (unfold current; by rewrite Hc).
  assert (E2 : current (advance cu) = o2) by (unfold current; by rewrite advance_rest, Hc).
  assert (E3 : current (advance (advance cu)) = o3) by (unfold current; by rewrite !advance_rest, Hc).
  rewrite E1, H1, H2, H3. cbn [pass_octal]. rewrite E1, H3, E2, H4, E3, H5.
  exists (advance (advance (advance cu))). split; [by rewrite H6|]. by rewrite !advance_rest, Hc.
Qed.

Lemma printable_in_string c : printable c = true -> in_string c = true /\ ceqb c backslash = false.
Proof. destruct c as [[] [] [] [] [] [] [] []]; vm_compute; by intros H. Qed.

Lemma scan_string_go_spec s r : forall fuel c, rest c = concat (map escaped s) ++ double_quote :: r -> (length s < fuel)%nat ->
  exists c', scan_string_go fuel c = Done (s, c') /\ rest c' = double_quote :: r.
Proof.
  induction s as [|x s IH]; intros [|fuel] c Hc Hf; cbn [length] in Hf; try lia.
  - exists c. cbn [scan_string_go]. unfold current. by rewrite Hc.
  - cbn [concat map] in Hc. rewrite <- app_assoc in Hc. cbn [scan_string_go]. unfold escaped in Hc at 1.
    destruct (printable x) eqn:Hp.
    + assert (Hx : current c = x) by (unfold current; by rewrite Hc).
      destruct (printable_in_string x Hp) as [H1 H2]. rewrite Hx, H1, H2.
      destruct (IH fuel (advance c)) as (c' & -> & Hr); [by rewrite advance_rest, Hc|lia|]. by exists c'.
    + assert (Hx : current c = backslash) by (unfold current; by rewrite Hc).
      rewrite Hx. cbn [in_string]. destruct (scan_octal x (concat (map escaped s) ++ double_quote :: r) (advance c)) as (c1 & E1 & Hc1).
      { by rewrite advance_rest, Hc. }
      change (in_string backslash) with true. rewrite ceqb_refl, E1.
      destruct (IH fuel c1 Hc1 ltac:(lia)) as (c' & -> & Hr). by exists c'.
Qed.
Lemma escaped_nonempty s : (length s <= length (concat (map escaped s)))%nat.
Proof. induction s as [|x s IH]; [done|]. cbn [map concat]. rewrite length_app. unfold escaped at 1. destruct (printable x); cbn; lia. Qed.

(** *** One lexeme *)

Definition starts_trivia (hash : bool) (c : Cursor) : bool :=
  let x := current c in
  ceqb x " " || ceqb x tab || ceqb x carriage_return || ceqb x backslash ||
  (ceqb x "/" && (ceqb (lookahead 1 c) "/" || ceqb (lookahead 1 c) "*")) || ceqb x "#".
Lemma skip_nothing hash c : starts_trivia hash c = false -> skip_trivia hash c = Done (negb (ceqb (current c) NUL), c).
Proof.
  unfold starts_trivia. rewrite !orb_false_iff. intros [[[[[H1 H2] H3] H4] H5] H6]. unfold skip_trivia. cbn [skip_trivia_go].
  rewrite H1, H2, H3, H4, H6. cbn [orb andb]. destruct (ceqb (current c) "/"); [|done]. cbn in H5 |- *.
  apply orb_false_iff in H5 as [-> ->]. done.
Qed.
Lemma skip_blank hash c r : rest c = " "%char :: r -> skip_trivia hash c = skip_trivia hash (advance c).
Proof.
  intros Hc. unfold skip_trivia. rewrite advance_rest, Hc. cbn [tail length]. cbn [skip_trivia_go].
  replace (current c) with " "%char by (unfold current; by rewrite Hc). done.
Qed.
(** What the scanner does at a character that starts neither trivia nor a statement end. *)
Lemma scan_at x l lx : rest (cursor lx) = x :: l -> starts_trivia (statement_start lx || hash_comments lx) (cursor lx) = false ->
  ceqb x NUL = false -> ceqb x newline || ceqb x ";" = false ->
  let c := cursor lx in
  scan lx = '(t, c) ← (
      if is_ident_start x then Done (scan_ident c)
      else if is_digit x then Done (scan_number c)
      else if ceqb x double_quote then scan_string c
      else if ceqb x single_quote then Done (scan_char_literal c)
      else if ceqb x "<" && ceqb (lookahead 1 c) "<" then Done (start_token Tok_LShift c, advance (advance c))
      else if ceqb x ">" && ceqb (lookahead 1 c) ">" then Done (start_token Tok_RShift c, advance (advance c))
      else Done (with_punct x (start_token Tok_Punct c), advance c));
    Done (t, moved c false lx).
Proof.
  intros Hc Ht H0 Hn. unfold scan. rewrite (skip_nothing _ _ Ht). cbn [mbind outcome_bind].
  assert (Hx : current (cursor lx) = x) by (unfold current; by rewrite Hc). by rewrite Hx, H0, Hn.
Qed.

Lemma ident_start_plain x : is_ident_start x = true -> (forall hash c, current c = x -> starts_trivia hash c = false) /\
  ceqb x NUL = false /\ ceqb x newline || ceqb x ";" = false.
Proof.
  intros H. split; [intros hash c Hx; unfold starts_trivia; rewrite Hx; clear Hx|];
    destruct x as [[] [] [] [] [] [] [] []]; vm_compute in H; done.
Qed.
Lemma digit_plain x : is_digit x = true -> is_ident_start x = false /\ (forall hash c, current c = x -> starts_trivia hash c = false) /\
  ceqb x NUL = false /\ ceqb x newline || ceqb x ";" = false.
Proof.
  intros H. split_and!; [| intros hash c Hx; unfold starts_trivia; rewrite Hx; clear Hx | |];
    destruct x as [[] [] [] [] [] [] [] []]; vm_compute in H; done.
Qed.
Lemma punct_plain x : plain_punct x = true -> is_ident_start x = false /\ is_digit x = false /\ ceqb x double_quote = false /\
  ceqb x single_quote = false /\ (forall hash c, current c = x -> lookahead 1 c = " "%char -> starts_trivia hash c = false) /\
  ceqb x NUL = false /\ ceqb x newline || ceqb x ";" = false.
Proof.
  intros H. split_and!; [| | | | intros hash c Hx Hl; unfold starts_trivia; rewrite Hx, Hl; clear Hx Hl | |];
    destruct x as [[] [] [] [] [] [] [] []]; vm_compute in H; done.
Qed.

Lemma scan_lexeme l r lx : lexeme_ok l = true -> rest (cursor lx) = spell l ++ " "%char :: r ->
  exists t lx', scan lx = Done (t, lx') /\ placeless t = token_of l /\ rest (cursor lx') = " "%char :: r /\ buffer lx' = buffer lx.
Proof.
  assert (Hfin : forall (m : outcome (Token * Cursor)) t c', m = Done (t, c') -> placeless t = token_of l -> rest c' = " "%char :: r ->
    exists t lx', ('(t, c) ← m; Done (t, moved c false lx)) = Done (t, lx') /\ placeless t = token_of l /\
      rest (cursor lx') = " "%char :: r /\ buffer lx' = buffer lx).
  { intros m t c' -> Ht Hr. by do 2 eexists. }
  intros Hok Hc. destruct l as [name|n|n back|s| | |x|]; cbn [lexeme_ok spell] in Hok, Hc.
  - destruct name as [|x name]; [done|]. apply andb_true_iff in Hok as [Hx Hall].
    destruct (ident_start_plain x Hx) as (H1 & H2 & H3). rewrite (scan_at x _ lx Hc) by (done || (apply H1; unfold current; by rewrite Hc)).
    cbn zeta. rewrite Hx. unfold scan_ident.
    destruct (pass_exact is_ident_char (x :: name) " " r (cursor lx) Hc Hall eq_refl) as (c' & Hp & Hr). rewrite Hp.
    by eapply Hfin.
  - apply andb_true_iff in Hok as [Hn1%Z.leb_le Hn2%Z.ltb_lt].
    pose proof (decimal_digits n) as Hd. destruct (to_digits 10 n) as [|x ds] eqn:E; [by apply to_digits_nonempty in E|].
    destruct (digit_plain x (Hd x ltac:(left))) as (H0 & H1 & H2 & H3).
    rewrite (scan_at x _ lx Hc) by (done || (apply H1; unfold current; by rewrite Hc)). cbn zeta. rewrite H0, (Hd x ltac:(left)).
    rewrite <- E in Hc. destruct (scan_integer n r (cursor lx) ltac:(lia) Hc) as (c' & Es & Hr). rewrite Es. by eapply Hfin.
  - apply andb_true_iff in Hok as [Hn1%Z.leb_le Hn2%Z.ltb_lt].
    pose proof (decimal_digits n) as Hd. rewrite <- app_assoc in Hc. cbn [app] in Hc.
    destruct (scan_local n back r (cursor lx) ltac:(lia) Hc) as (c' & Es & Hr).
    destruct (to_digits 10 n) as [|x ds] eqn:E; [by apply to_digits_nonempty in E|].
    destruct (digit_plain x (Hd x ltac:(left))) as (H0 & H1 & H2 & H3).
    rewrite (scan_at x _ lx Hc) by (done || (apply H1; unfold current; by rewrite Hc)). cbn zeta. rewrite H0, (Hd x ltac:(left)), Es.
    by eapply Hfin.
  - rewrite <- app_comm_cons, <- app_assoc in Hc. cbn [app] in Hc.
    rewrite (scan_at double_quote _ lx Hc); [|unfold starts_trivia, current; by rewrite Hc|done|done]. cbn zeta.
    change (is_ident_start double_quote) with false. change (is_digit double_quote) with false. rewrite ceqb_refl. cbn iota.
    destruct (scan_string_go_spec s (" "%char :: r) (S (left (advance (cursor lx)))) (advance (cursor lx))) as (c' & Es & Hr).
    { by rewrite advance_rest, Hc. }
    { unfold left. rewrite advance_rest, Hc. cbn [tail]. rewrite length_app. pose proof (escaped_nonempty s). lia. }
    eapply Hfin; [unfold scan_string; fold (left (advance (cursor lx))); rewrite Es; cbn [mbind outcome_bind]; reflexivity|done|].
    unfold current. rewrite Hr, ceqb_refl, advance_rest, Hr. done.
  - rewrite (scan_at "<" _ lx Hc); [|unfold starts_trivia, current; by rewrite Hc|done|done]. cbn zeta.
    replace (lookahead 1 (cursor lx)) with "<"%char by (unfold lookahead; by rewrite Hc).
    eapply Hfin; [reflexivity|done|]. by rewrite !advance_rest, Hc.
  - rewrite (scan_at ">" _ lx Hc); [|unfold starts_trivia, current; by rewrite Hc|done|done]. cbn zeta.
    replace (lookahead 1 (cursor lx)) with ">"%char by (unfold lookahead; by rewrite Hc).
    eapply Hfin; [reflexivity|done|]. by rewrite !advance_rest, Hc.
  - destruct (punct_plain x Hok) as (H1 & H2 & H3 & H4 & H5 & H6 & H7).
    assert (Hla : lookahead 1 (cursor lx) = " "%char) by (unfold lookahead; by rewrite Hc).
    rewrite (scan_at x _ lx Hc) by (done || (apply H5; [unfold current; by rewrite Hc|done])). cbn zeta.
    rewrite H1, H2, H3, H4, Hla. cbn [ceqb Ascii.eqb]. rewrite !andb_false_r. eapply Hfin; [reflexivity|done|].
    by rewrite advance_rest, Hc.
  - unfold scan. rewrite skip_nothing by (unfold starts_trivia, current; by rewrite Hc). cbn [mbind outcome_bind].
    replace (current (cursor lx)) with newline by (unfold current; by rewrite Hc).
    do 2 eexists. split; [done|]. split; [done|]. split; [|done]. cbn. by rewrite advance_rest, Hc.
Qed.

(** A blank before it changes nothing. *)
Definition blanks_off (lx : Lexer) : Lexer := moved (advance (cursor lx)) (statement_start lx) lx.
Lemma scan_blank lx r : rest (cursor lx) = " "%char :: r -> scan lx = scan (blanks_off lx).
Proof. intros Hc. unfold scan. rewrite (skip_blank _ _ r Hc). done. Qed.

Lemma take_scan lx t lx' : buffer lx = [] -> scan lx = Done (t, lx') -> buffer lx' = [] -> exists lx'', take_token lx = Done (t, lx'') /\
  cursor lx'' = cursor lx' /\ buffer lx'' = [] /\ statement_start lx'' = statement_start lx'.
Proof.
  intros Hb E Hb'. exists (pop_token (push_token t lx')). unfold take_token, fill. cbn [fill_go].
  unfold mbind, state_bind, get, must, modify_state, mret, state_ret. rewrite Hb. cbn [length Nat.ltb Nat.leb].
  rewrite E. cbn. rewrite Hb'. done.
Qed.

(** The lexemes, from a lexer at the first or at the blank before it. *)
Lemma lexemes_yield ls : forall lx, forallb lexeme_ok ls = true -> buffer lx = [] ->
  rest (cursor lx) = spell_all ls \/ rest (cursor lx) = " "%char :: spell_all ls ->
  exists ts, yields lx ts /\ map placeless ts = map token_of ls.
Proof.
  assert (Hblank : forall ls lx, buffer lx = [] -> rest (cursor lx) = " "%char :: spell_all ls ->
    scan lx = scan (blanks_off lx) /\ rest (cursor (blanks_off lx)) = spell_all ls /\ buffer (blanks_off lx) = []).
  { intros ks lx Hb Hc. split; [by eapply scan_blank|]. split; [|done]. cbn. by rewrite advance_rest, Hc. }
  assert (Hone : forall l ks lx, lexeme_ok l = true -> buffer lx = [] -> rest (cursor lx) = spell_all (l :: ks) \/ rest (cursor lx) = " "%char :: spell_all (l :: ks) ->
    exists t lx', scan lx = Done (t, lx') /\ placeless t = token_of l /\ rest (cursor lx') = " "%char :: spell_all ks /\ buffer lx' = []).
  { intros l ks lx Hl Hb Hc. assert (Hs : spell_all (l :: ks) = spell l ++ " "%char :: spell_all ks).
    { unfold spell_all. cbn [map concat]. by rewrite <- app_assoc. }
    destruct Hc as [Hc|Hc].
    - rewrite Hs in Hc. destruct (scan_lexeme l _ lx Hl Hc) as (t & lx' & E & Ht & Hr & Hb'). exists t, lx'. by rewrite Hb', Hb.
    - destruct (Hblank _ _ Hb Hc) as (-> & Hc' & Hb'). rewrite Hs in Hc'.
      destruct (scan_lexeme l _ _ Hl Hc') as (t & lx' & E & Ht & Hr & Hb''). exists t, lx'. by rewrite Hb'', Hb'. }
  induction ls as [|l ls IH]; intros lx Hok Hb Hc.
  - exists []. split; [|done].
    assert (Hend : exists t lx', scan lx = Done (t, lx') /\ tok_kind t = Tok_End /\ buffer lx' = []).
    { assert (H : forall lx, rest (cursor lx) = [] -> buffer lx = [] -> exists t lx', scan lx = Done (t, lx') /\ tok_kind t = Tok_End /\ buffer lx' = []).
      { intros ly Hr Hby. unfold scan. rewrite skip_nothing by (unfold starts_trivia, current; by rewrite Hr).
        cbn [mbind outcome_bind]. replace (current (cursor ly)) with NUL by (unfold current; by rewrite Hr). by do 2 eexists. }
      destruct Hc as [Hc|Hc]; [by apply H|]. destruct (Hblank [] lx Hb Hc) as (-> & Hr & Hb'). by apply H. }
    destruct Hend as (t & lx' & E & Ht & Hb'). destruct (take_scan _ _ _ Hb E Hb') as (lx'' & Et & _). by econstructor.
  - cbn [forallb] in Hok. apply andb_true_iff in Hok as [Hl Hok]. destruct (Hone l ls lx Hl Hb Hc) as (t & lx' & E & Ht & Hr & Hb').
    destruct (take_scan _ _ _ Hb E Hb') as (lx'' & Et & Hcu & Hb'' & _).
    destruct (IH lx'' Hok Hb'') as (ts & Hy & Hts); [right; by rewrite Hcu|]. exists (t :: ts). split; [|cbn; by rewrite Ht, Hts].
    eapply yields_take; [done| |done]. intros Hk. apply (f_equal tok_kind) in Ht. cbn in Ht. rewrite Hk in Ht. by destruct l.
Qed.

(** Claim C27: Spellings read back. The lexer reads a sequence of identifiers, numbers, local
    references, strings (whose other characters are written as octal escapes),
    punctuation and line ends, written with blanks between them, as the same sequence,
    and then is at the end. *)
Theorem lexemes_read_back (ls : list Lexeme) (hash : bool) (Hok : forallb lexeme_ok ls = true) :
  exists ts, yields (set_hash_comments hash (new_lexer (spell_all ls))) ts /\ map placeless ts = map token_of ls.
Proof. apply lexemes_yield; [done|done|by left]. Qed.

Definition sample_lexemes : list Lexeme :=
  [Lx_ident (str ".byte"); Lx_integer 255; Lx_punct ","; Lx_string (str "a" ++ [double_quote; "000"%char]); Lx_shift_left; Lx_local 1 true;
   Lx_newline].
Lemma lexemes_read_back_witness : forallb lexeme_ok sample_lexemes = true /\
  exists ts, yields (set_hash_comments true (new_lexer (spell_all sample_lexemes))) ts /\
    map placeless ts = map token_of sample_lexemes.
Proof.
  assert (H : forallb lexeme_ok sample_lexemes = true) by (vm_compute; reflexivity).
  split; [exact H|]. exact (lexemes_read_back sample_lexemes true H).
Defined.
