(* ===== verification/AsmExpr.v ===== *)
(** * Symbols and expressions of the assembler (src/assembler/symbols.h, symbols.cpp,
    expr.h and expr.cpp)

    The value of an expression is a constant, plus the address of a symbol, less the
    address of another. The parser climbs the levels of the binary operators; it
    reads the tokens of a lexer and asks an [ExprContext] for its symbols, which is
    a class here as it is there. A constant that leaves 64 bits is an overflow of a
    signed integer, and undefined. *)
From stdpp Require Import gmap strings.
From S2P Require Import Prelude Vectors Outcome AsmLexer.
Open Scope Z_scope.

(** ** Symbols *)

Abbreviation SymId := Z.
Definition no_sym : SymId := 2 ^ 32 - 1.

Inductive SymState := Sym_Undefined | Sym_Label | Sym_Constant.
#[export] Instance sym_state_eq_dec : EqDecision SymState.
Proof. solve_decision. Defined.

Record AsmSymbol := mkSymbol {
  sym_name : chars; sym_state : SymState; sym_section : Z; sym_offset : Z; sym_seq : Z; sym_value : Z;
  global : bool; weak : bool; hidden : bool; from_set : bool; referenced : bool; internal : bool }.
Definition new_symbol (name : chars) (is_internal : bool) : AsmSymbol :=
  mkSymbol name Sym_Undefined (-1) 0 0 0 false false false false false is_internal.

Record SymbolTable := mkSymbols { index_ : gmap chars SymId; symbols_ : list AsmSymbol }.
Definition empty_symbols : SymbolTable := mkSymbols ∅ [].
Definition sym (t : SymbolTable) (id : SymId) : option AsmSymbol := at_ (symbols_ t) id.
Definition update_sym (id : SymId) (g : AsmSymbol -> AsmSymbol) (t : SymbolTable) : option SymbolTable :=
  v ← modify (symbols_ t) id g; Some (mkSymbols (index_ t) v).
Definition table_size (t : SymbolTable) : SymId := u32 (size (symbols_ t)).

Definition intern (name : chars) (t : SymbolTable) : SymId * SymbolTable :=
  match index_ t !! name with
  | Some id => (id, t)
  | None =>
      let id := table_size t in
      (id, mkSymbols (<[name := id]> (index_ t)) (symbols_ t ++ [new_symbol name false]))
  end.
Definition make_internal (display_name : chars) (t : SymbolTable) : SymId * SymbolTable :=
  (table_size t, mkSymbols (index_ t) (symbols_ t ++ [new_symbol display_name true])).

(** ** Values *)

Record ExprValue := mkExpr { ok : bool; constant : Z; pos_sym : SymId; neg_sym : SymId }.
Definition is_sym (id : SymId) : bool := negb (id =? no_sym).
Definition is_absolute (v : ExprValue) : bool := ok v && (pos_sym v =? no_sym) && (neg_sym v =? no_sym).
Definition absolute (value : Z) : ExprValue := mkExpr true value no_sym no_sym.
Definition failed : ExprValue := mkExpr false 0 no_sym no_sym.
Definition of_symbol (id : SymId) : ExprValue := mkExpr true 0 id no_sym.

(** A result of signed 64-bit arithmetic. *)
Definition fits64 (x : Z) : bool := (- 2 ^ 63 <=? x) && (x <? 2 ^ 63).
Definition checked {S} (x : Z) : M S Z := if fits64 x then mret x else overflow.

Class ExprContext (C : Type) := {
  expr_symbol : chars -> M C SymId;
  expr_here : M C SymId;
  expr_local_ref : Z -> bool -> Z -> Z -> M C SymId;
  expr_constant_value : SymId -> M C (option Z);
  expr_error : Z -> Z -> chars -> C -> C }.

(** ** Operators *)

Definition binary_level (t : Token) : Z :=
  if is_kind Tok_LShift t || is_kind Tok_RShift t then 3
  else if negb (is_kind Tok_Punct t) then 0
  else if ceqb (punct t) "*" || ceqb (punct t) "/" || ceqb (punct t) "%" then 3
  else if ceqb (punct t) "&" || ceqb (punct t) "|" || ceqb (punct t) "^" then 2
  else if ceqb (punct t) "+" || ceqb (punct t) "-" then 1
  else 0.

Definition op_spelling (t : Token) : chars :=
  if is_kind Tok_LShift t then str "<<" else if is_kind Tok_RShift t then str ">>" else [punct t].

Section Operators.
Context {C : Type} `{!ExprContext C}.

Definition report {A} (line col : Z) (message : chars) (result : A) : M C A :=
  _ ← modify_state (expr_error line col message); mret result.

Definition negate (value : ExprValue) : M C ExprValue :=
  k ← checked (- constant value);
  mret (mkExpr (ok value) k (neg_sym value) (pos_sym value)).

Definition add (line col : Z) (lhs rhs : ExprValue) : M C ExprValue :=
  let cancel1 := is_sym (pos_sym rhs) && (pos_sym rhs =? neg_sym lhs) in
  let lhs := if cancel1 then mkExpr (ok lhs) (constant lhs) (pos_sym lhs) no_sym else lhs in
  let rhs := if cancel1 then mkExpr (ok rhs) (constant rhs) no_sym (neg_sym rhs) else rhs in
  let cancel2 := is_sym (neg_sym rhs) && (neg_sym rhs =? pos_sym lhs) in
  let lhs := if cancel2 then mkExpr (ok lhs) (constant lhs) no_sym (neg_sym lhs) else lhs in
  let rhs := if cancel2 then mkExpr (ok rhs) (constant rhs) (pos_sym rhs) no_sym else rhs in
  if (is_sym (pos_sym lhs) && is_sym (pos_sym rhs)) || (is_sym (neg_sym lhs) && is_sym (neg_sym rhs)) then
    report line col (str "expression combines too many symbols to be representable") failed
  else
    k ← checked (constant lhs + constant rhs);
    mret (mkExpr (ok lhs) k (if is_sym (pos_sym rhs) then pos_sym rhs else pos_sym lhs)
            (if is_sym (neg_sym rhs) then neg_sym rhs else neg_sym lhs)).

Definition apply_binary (op : Token) (lhs rhs : ExprValue) : M C ExprValue :=
  let error message := report (tok_line op) (tok_col op) message failed in
  if is_punct "+" op then add (tok_line op) (tok_col op) lhs rhs
  else if is_punct "-" op then rhs ← negate rhs; add (tok_line op) (tok_col op) lhs rhs
  else if negb (is_absolute lhs) || negb (is_absolute rhs) then
    error (str "operator '" ++ op_spelling op ++ str "' requires absolute operands")
  else
    let a := constant lhs in
    let b := constant rhs in
    if is_kind Tok_LShift op || is_kind Tok_RShift op then
      if (b <? 0) || (63 <? b) then error (str "shift amount is out of range")
      else
        let bits := u64 a in
        mret (absolute (if is_kind Tok_LShift op then s64 (u64 (Z.shiftl bits b)) else s64 (Z.shiftr bits b)))
    else if ceqb (punct op) "*" then k ← checked (a * b); mret (absolute k)
    else if ceqb (punct op) "/" || ceqb (punct op) "%" then
      if b =? 0 then error (str "division by zero")
      else
        q ← checked (Z.quot a b);
        mret (absolute (if ceqb (punct op) "/" then q else Z.rem a b))
    else if ceqb (punct op) "&" then mret (absolute (Z.land a b))
    else if ceqb (punct op) "|" then mret (absolute (Z.lor a b))
    else if ceqb (punct op) "^" then mret (absolute (Z.lxor a b))
    else error (str "unsupported operator").
End Operators.

(** ** The parser *)

Section Parser.
Context {C : Type} `{!ExprContext C}.

(** The lexer and the context, which know nothing of each other. *)
Definition Parsing : Type := Lexer * C.
Definition lexing {A} (m : M Lexer A) : M Parsing A := zoom fst (fun lx s => (lx, snd s)) m.
Definition asking {A} (m : M C A) : M Parsing A := zoom snd (fun c s => (fst s, c)) m.

Definition is_unary_operator (t : Token) : bool := is_punct "-" t || is_punct "+" t || is_punct "~" t.

Fixpoint parse_binary (fuel : nat) (min_level : Z) : M Parsing ExprValue :=
  match fuel with
  | O => out_of_fuel
  | S fuel => lhs ← parse_unary fuel; if negb (ok lhs) then mret lhs else binary_loop fuel min_level lhs
  end
with binary_loop (fuel : nat) (min_level : Z) (lhs : ExprValue) : M Parsing ExprValue :=
  match fuel with
  | O => out_of_fuel
  | S fuel =>
      next ← lexing peek;
      let level := binary_level next in
      if (level =? 0) || (level <? min_level) then mret lhs
      else
        op ← lexing take_token;
        rhs ← parse_binary fuel (level + 1);
        if negb (ok rhs) then mret rhs
        else
          lhs ← asking (apply_binary op lhs rhs);
          if negb (ok lhs) then mret lhs else binary_loop fuel min_level lhs
  end
with parse_unary (fuel : nat) : M Parsing ExprValue :=
  match fuel with
  | O => out_of_fuel
  | S fuel =>
      token ← lexing peek;
      if is_unary_operator token then
        op ← lexing take_token;
        operand ← parse_unary fuel;
        if negb (ok operand) then mret operand
        else if ceqb (punct op) "+" then mret operand
        else if ceqb (punct op) "-" then asking (negate operand)
        else if negb (is_absolute operand) then
          asking (report (tok_line op) (tok_col op) (str "operator '~' requires an absolute operand") failed)
        else mret (absolute (Z.lnot (constant operand)))
      else parse_primary fuel
  end
with parse_primary (fuel : nat) : M Parsing ExprValue :=
  match fuel with
  | O => out_of_fuel
  | S fuel =>
      token ← lexing peek;
      let unexpected :=
        asking (report (tok_line token) (tok_col token) (str "expected an expression operand") failed) in
      match tok_kind token with
      | Tok_Integer => literal ← lexing take_token; mret (absolute (tok_value literal))
      | Tok_LocalRef =>
          ref ← lexing take_token;
          id ← asking (expr_local_ref (u32 (tok_value ref)) (backward ref) (tok_line ref) (tok_col ref));
          if id =? no_sym then mret failed else mret (of_symbol id)
      | Tok_Ident =>
          name ← lexing take_token;
          if bool_decide (text name = str ".") then id ← asking expr_here; mret (of_symbol id)
          else
            id ← asking (expr_symbol (text name));
            known ← asking (expr_constant_value id);
            mret (match known with Some k => absolute k | None => of_symbol id end)
      | Tok_Punct =>
          if ceqb (punct token) "(" then
            _ ← lexing take_token;
            inner ← parse_binary fuel 1;
            if negb (ok inner) then mret inner
            else
              close ← lexing peek;
              if negb (is_punct ")" close) then
                asking (report (tok_line close) (tok_col close) (str "expected ')'") failed)
              else _ ← lexing take_token; mret inner
          else unexpected
      | _ => unexpected
      end
  end.

(** Three calls at most are made before a token is taken. *)
Definition expression_fuel (lx : Lexer) : nat := 3 * (length (buffer lx) + length (rest (cursor lx))) + 3.
Definition parse_expression : M Parsing ExprValue := s ← get; parse_binary (expression_fuel (fst s)) 1.
End Parser.
Arguments Parsing C : clear implicits.

(** ** The parser ends *)

(** What the parser needs of a context: an invariant, the symbols the context knows,
    and a weight that an operation raises by one at most, so that a bound on the
    number of tokens is a bound on the weight. *)
Class ExprContextSafe (C : Type) `{!ExprContext C} (I : C -> Prop) (known : C -> SymId -> Prop) (weight : C -> nat) (limit : nat) :
  Prop := {
  symbol_safe : forall name (c : C), I c -> (weight c < limit)%nat ->
    run (expr_symbol name) c (fun id c' =>
      I c' /\ known c' id /\ (weight c' <= S (weight c))%nat /\ forall id, known c id -> known c' id);
  here_safe : forall c : C, I c -> (weight c < limit)%nat ->
    run expr_here c (fun id c' => I c' /\ known c' id /\ (weight c' <= S (weight c))%nat /\ forall id, known c id -> known c' id);
  local_ref_safe : forall n b l k (c : C), I c -> (weight c < limit)%nat ->
    run (expr_local_ref n b l k) c (fun id c' =>
      I c' /\ (is_sym id -> known c' id) /\ (weight c' <= S (weight c))%nat /\ forall id, known c id -> known c' id);
  constant_safe : forall id (c : C), I c -> known c id -> run (expr_constant_value id) c (fun _ c' => c' = c);
  error_safe : forall l k m (c : C), I c -> I (expr_error l k m c) /\ weight (expr_error l k m c) = weight c /\
    forall id, known c id -> known (expr_error l k m c) id }.

Section Ends.
Context {C : Type} `{!ExprContext C} (I : C -> Prop) (known : C -> SymId -> Prop) (weight : C -> nat) (limit : nat).
Context `{!ExprContextSafe C I known weight limit}.

Definition grows (c c' : C) : Prop := forall id, known c id -> known c' id.
(** The symbols of a value are known. *)
Definition value_known (c : C) (v : ExprValue) : Prop :=
  (is_sym (pos_sym v) -> known c (pos_sym v)) /\ (is_sym (neg_sym v) -> known c (neg_sym v)).
(** The context keeps its invariant and forgets nothing; its weight stays. *)
Definition steady (c c' : C) : Prop := I c' /\ weight c' = weight c /\ grows c c'.

Lemma steady_refl c : I c -> steady c c.
Proof. intros H. repeat split; [done|intros id Hi; done]. Qed.
Lemma value_grows c c' v : grows c c' -> value_known c v -> value_known c' v.
Proof. intros Hg [H1 H2]. split; auto. Qed.
Lemma failed_known c : value_known c failed.
Proof. by split. Qed.
Lemma absolute_known c k : value_known c (absolute k).
Proof. by split. Qed.

Lemma run_report {A} l k message (v : A) (c : C) Q : I c -> (forall c', steady c c' -> Q v c') -> run (report l k message v) c Q.
Proof. intros Hc H. unfold report. apply run_bind, run_modify, run_ret, H. apply (error_safe (known := known) (limit := limit)), Hc. Qed.
Lemma run_checked {S} x (s : S) (Q : Z -> S -> Prop) : (fits64 x = true -> Q x s) -> run (checked x) s Q.
Proof. unfold checked, run. destruct (fits64 x); [intros H; by apply H|done]. Qed.

Lemma negate_safe v (c : C) : I c -> value_known c v -> run (negate v) c (fun w c' => c' = c /\ value_known c w).
Proof. intros Hc [H1 H2]. unfold negate. apply run_bind, run_checked. intros _. apply run_ret. done. Qed.
Lemma add_safe l k a b (c : C) : I c -> value_known c a -> value_known c b ->
  run (add l k a b) c (fun v c' => steady c c' /\ value_known c' v).
Proof.
  intros Hc [A1 A2] [B1 B2]. unfold add. cbn zeta. destruct (_ || _).
  { apply run_report; [done|]. intros c' Hs. split; [done|apply failed_known]. }
  apply run_bind, run_checked. intros _. apply run_ret. split; [by apply steady_refl|].
  split; cbn; repeat case_match; cbn in *; try done; auto.
Qed.
Lemma apply_binary_safe op a b (c : C) : I c -> value_known c a -> value_known c b ->
  run (apply_binary op a b) c (fun v c' => steady c c' /\ value_known c' v).
Proof.
  intros Hc Ha Hb. unfold apply_binary. destruct (is_punct "+" op); [by apply add_safe|].
  destruct (is_punct "-" op).
  { apply run_bind. eapply run_mono; [by apply negate_safe|]. intros v c' [-> Hv]. by apply add_safe. }
  assert (Herr : forall l k m, run (report l k m failed) c (fun v c' => steady c c' /\ value_known c' v)).
  { intros l k m. apply run_report; [done|]. intros c' Hs. split; [done|apply failed_known]. }
  assert (Hret : forall k, run (mret (absolute k)) c (fun v c' => steady c c' /\ value_known c' v)).
  { intros k. apply run_ret. split; [by apply steady_refl|apply absolute_known]. }
  cbn zeta. repeat case_match; try apply Herr; try apply Hret; apply run_bind, run_checked; intros _; apply Hret.
Qed.

Lemma run_lexing {A} (m : M Lexer A) (s : Parsing C) Q :
  run m (fst s) (fun a lx => Q a (lx, snd s)) -> run (lexing m) s Q.
Proof. apply (run_zoom fst (fun lx s => (lx, snd s))). Qed.
Lemma run_asking {A} (m : M C A) (s : Parsing C) Q :
  run m (snd s) (fun a c => Q a (fst s, c)) -> run (asking m) s Q.
Proof. apply (run_zoom snd (fun c s => (fst s, c))). Qed.

(** From a sound state the code goes to one that follows it. *)
Definition sound (s : Parsing C) : Prop := I (snd s) /\ (weight (snd s) + pending (fst s) <= limit)%nat.
Definition follows (s s' : Parsing C) : Prop :=
  I (snd s') /\ grows (snd s) (snd s') /\ (pending (fst s') <= pending (fst s))%nat /\
  (weight (snd s') + pending (fst s') <= weight (snd s) + pending (fst s))%nat.
Definition parsed (s : Parsing C) (v : ExprValue) (s' : Parsing C) : Prop :=
  follows s s' /\ value_known (snd s') v /\ (ok v = true -> (pending (fst s') < pending (fst s))%nat).

Lemma follows_refl s : I (snd s) -> follows s s.
Proof. intros H. repeat split; [done|intros id Hi; done|done..]. Qed.
Lemma follows_trans s1 s2 s3 : follows s1 s2 -> follows s2 s3 -> follows s1 s3.
Proof. intros (A1 & A2 & A3 & A4) (B1 & B2 & B3 & B4). repeat split; [done|intros id Hi; by apply B2, A2|lia|lia]. Qed.
Lemma follows_sound s s' : sound s -> follows s s' -> sound s'.
Proof. intros (A1 & A2) (B1 & B2 & B3 & B4). split; [done|lia]. Qed.
Lemma sound_I s : sound s -> I (snd s).
Proof. by intros []. Qed.
Lemma follows_lexer s lx : I (snd s) -> (pending lx <= pending (fst s))%nat -> follows s (lx, snd s).
Proof. intros HI Hp. repeat split; cbn; [done|intros id Hi; done|done|lia]. Qed.
Lemma follows_steady s c : steady (snd s) c -> follows s (fst s, c).
Proof. intros (A1 & A2 & A3). repeat split; cbn; [done|done|lia|lia]. Qed.
(** What one token pays for. *)
Lemma follows_paid s lx c : (pending lx < pending (fst s))%nat -> I c -> grows (snd s) c -> (weight c <= S (weight (snd s)))%nat ->
  follows s (lx, c).
Proof. intros Hp Hc Hg Hw. repeat split; cbn; [done|done|lia|lia]. Qed.
Lemma parsed_known s v s' : parsed s v s' -> value_known (snd s') v.
Proof. by intros (_ & H & _). Qed.

(** Peeking, and taking what was peeked. *)
Lemma run_peek (s : Parsing C) Q : sound s ->
  (forall t s', follows s s' -> snd s' = snd s -> head (buffer (fst s')) = Some t -> Q t s') -> run (lexing peek) s Q.
Proof.
  intros Hs H. apply run_lexing. destruct (peek_run (fst s)) as (t & lx & E & Hh & Hp & _). apply (run_done _ _ _ _ _ E).
  apply H; [|done..]. apply follows_lexer; [apply Hs|done].
Qed.
Lemma take_head lx t : head (buffer lx) = Some t -> take_token lx = Done (t, pop_token lx).
Proof.
  intros H. unfold take_token, fill. cbn. unfold mbind, state_bind, get, must, modify_state, mret, state_ret.
  destruct (buffer lx) as [|x l] eqn:Hb; [done|]. cbn in H |- *. rewrite Hb. cbn. congruence.
Qed.
Lemma run_take_head t (s : Parsing C) Q : sound s -> head (buffer (fst s)) = Some t ->
  (forall s', follows s s' -> snd s' = snd s -> (not_end t -> (pending (fst s') < pending (fst s))%nat) -> Q t s') ->
  run (lexing take_token) s Q.
Proof.
  intros Hs Hh H. apply run_lexing. destruct (take_run (fst s)) as (t' & lx & E & Hp & _ & Hlt).
  pose proof E as E'. rewrite (take_head _ _ Hh) in E'. injection E' as <- <-. apply (run_done _ _ _ _ _ E).
  apply H; [|done|done]. apply follows_lexer; [apply Hs|done].
Qed.

Lemma operator_not_end t : binary_level t <> 0 -> not_end t.
Proof.
  unfold binary_level, not_end, is_kind. intros H E. rewrite E in H. by cbn in H.
Qed.
Lemma punct_not_end c t : is_punct c t = true -> not_end t.
Proof. unfold is_punct, is_kind, not_end. intros [H%bool_decide_eq_true _]%andb_true_iff. congruence. Qed.

(** Code over the context that keeps it steady. *)
Lemma run_steady {A} (m : M C A) s (Q : A -> Parsing C -> Prop) : run m (snd s) (fun v c' => steady (snd s) c' /\ Q v (fst s, c')) ->
  run (asking m) s (fun v s' => follows s s' /\ fst s' = fst s /\ Q v s').
Proof.
  intros H. apply run_asking. eapply run_mono; [exact H|]. intros v c' [Hs HQ]. split; [|split; [done|exact HQ]].
  by apply follows_steady.
Qed.
Lemma run_failure s s0 l k m : sound s -> follows s0 s -> run (asking (report l k m failed)) s (parsed s0).
Proof.
  intros Hs Hf. eapply run_mono; [apply (run_steady _ s (fun v s' => v = failed))|].
  - apply run_report; [apply Hs|]. done.
  - intros v s' (H1 & _ & ->). split; [by eapply follows_trans|split; [apply failed_known|done]].
Qed.
(** An operation the context makes for a token that was taken. *)
Lemma run_paid {A} (m : M C A) (good : C -> A -> Prop) s0 s :
  sound s0 -> follows s0 s -> snd s = snd s0 -> (pending (fst s) < pending (fst s0))%nat ->
  (I (snd s) -> (weight (snd s) < limit)%nat ->
    run m (snd s) (fun a c' => I c' /\ good c' a /\ (weight c' <= S (weight (snd s)))%nat /\ forall id, known (snd s) id -> known c' id)) ->
  run (asking m) s (fun a s' => follows s0 s' /\ good (snd s') a /\ (pending (fst s') < pending (fst s0))%nat).
Proof.
  intros [HI Hw] Hf Hc Hp Hm. apply run_asking. eapply run_mono; [apply Hm; [apply Hf|rewrite Hc; lia]|].
  intros a c' (A1 & A2 & A3 & A4). split; [|by split]. apply follows_paid; rewrite <- ?Hc; done.
Qed.

(** Three calls for each token that is left. *)
Definition loop_runs (fuel : nat) : Prop := forall s min lhs, sound s -> value_known (snd s) lhs -> (3 * pending (fst s) + 1 <= fuel)%nat ->
  run (binary_loop fuel min lhs) s (fun v s' => follows s s' /\ value_known (snd s') v).
Definition binary_runs (fuel : nat) : Prop := forall s min, sound s -> (3 * pending (fst s) + 3 <= fuel)%nat ->
  run (parse_binary fuel min) s (parsed s).
Definition unary_runs (fuel : nat) : Prop := forall s, sound s -> (3 * pending (fst s) + 2 <= fuel)%nat ->
  run (parse_unary fuel) s (parsed s).
Definition primary_runs (fuel : nat) : Prop := forall s, sound s -> (3 * pending (fst s) + 1 <= fuel)%nat ->
  run (parse_primary fuel) s (parsed s).

Lemma binary_step fuel : unary_runs fuel -> loop_runs fuel -> binary_runs (S fuel).
Proof.
  intros IHu IHl s min Hs Hf. cbn [parse_binary]. apply run_bind. eapply run_mono; [apply IHu; [done|lia]|].
  intros lhs s1 (H1 & H2 & H3). destruct (ok lhs) eqn:Hok; cbn [negb]; [|apply run_ret; split; [done|split; [done|by rewrite Hok]]].
  specialize (H3 eq_refl). eapply run_mono; [apply IHl; [by apply (follows_sound s)|done|lia]|].
  intros v s2 [H4 H5]. split; [by eapply follows_trans|]. split; [done|]. intros _. destruct H4 as (_ & _ & H4 & _). lia.
Qed.
Lemma loop_step fuel : binary_runs fuel -> loop_runs fuel -> loop_runs (S fuel).
Proof.
  intros IHb IHl s min lhs Hs Hlhs Hf. cbn [binary_loop]. apply run_bind, run_peek; [done|]. intros t s1 Hs1 Hc1 Hh.
  pose proof (follows_sound _ _ Hs Hs1) as Hsound1.
  destruct ((binary_level t =? 0) || (binary_level t <? min)) eqn:Hlev; [apply run_ret; split; [done|by rewrite Hc1]|].
  apply orb_false_iff in Hlev as [Hl0%Z.eqb_neq _]. apply run_bind, (run_take_head t); [done..|].
  intros s2 Hs2 Hc2 Hlt. specialize (Hlt (operator_not_end _ Hl0)). pose proof (follows_sound _ _ Hsound1 Hs2) as Hsound2.
  pose proof (proj1 (proj2 (proj2 Hs1))) as Hp1. apply run_bind. eapply run_mono; [apply IHb; [done|lia]|].
  intros rhs s3 (H1 & H2 & H3). assert (Hs3 : follows s s3) by (do 2 (eapply follows_trans; [done|]); done).
  destruct (ok rhs) eqn:Hok; cbn [negb]; [|apply run_ret; done]. specialize (H3 eq_refl).
  apply run_bind. eapply run_mono; [apply (run_steady _ s3 (fun v s' => value_known (snd s') v)), apply_binary_safe; [apply H1| |done]|].
  { apply (value_grows (snd s2)); [apply H1|]. by rewrite Hc2, Hc1. }
  intros v s4 (H4 & H5 & H6). pose proof (follows_trans _ _ _ Hs3 H4) as Hs4.
  destruct (ok v); cbn [negb]; [|apply run_ret; done].
  eapply run_mono; [apply IHl; [by apply (follows_sound s)|done|rewrite H5; lia]|]. intros w s5 [H7 H8]. split; [by apply (follows_trans s s4)|done].
Qed.
Lemma unary_step fuel : unary_runs fuel -> primary_runs fuel -> unary_runs (S fuel).
Proof.
  intros IHu IHp s Hs Hf. cbn [parse_unary]. apply run_bind, run_peek; [done|]. intros t s1 Hs1 Hc1 Hh.
  pose proof (follows_sound _ _ Hs Hs1) as Hsound1. pose proof (proj1 (proj2 (proj2 Hs1))) as Hp1.
  destruct (is_unary_operator t) eqn:Hun.
  2: { eapply run_mono; [apply IHp; [done|lia]|]. intros v s2 (H1 & H2 & H3). split; [by eapply follows_trans|]. split; [done|].
       intros Hok. specialize (H3 Hok). lia. }
  assert (Hne : not_end t).
  { unfold is_unary_operator in Hun. rewrite !orb_true_iff in Hun. destruct Hun as [[H|H]|H]; by eapply punct_not_end. }
  apply run_bind, (run_take_head t); [done..|]. intros s2 Hs2 Hc2 Hlt. specialize (Hlt Hne).
  pose proof (follows_sound _ _ Hsound1 Hs2) as Hsound2. apply run_bind.
  eapply run_mono; [apply IHu; [done|lia]|]. intros v s3 (H1 & H2 & H3).
  assert (Hs3 : follows s s3) by (do 2 (eapply follows_trans; [done|]); done).
  destruct (ok v) eqn:Hok; cbn [negb]; [|apply run_ret; split; [done|split; [done|by rewrite Hok]]]. specialize (H3 eq_refl).
  destruct (ceqb _ "+"); [apply run_ret; split; [done|split; [done|lia]]|]. destruct (ceqb _ "-").
  - apply run_asking. eapply run_mono; [apply negate_safe; [apply H1|done]|]. intros w c [-> Hw].
    replace (fst s3, snd s3) with s3 by (by destruct s3). split; [done|split; [done|lia]].
  - destruct (negb _); [by apply run_failure; [apply (follows_sound s)|]|].
    apply run_ret. split; [done|]. split; [apply absolute_known|lia].
Qed.
Lemma primary_step fuel : binary_runs fuel -> primary_runs (S fuel).
Proof.
  intros IHb s Hs Hf. cbn [parse_primary]. apply run_bind, run_peek; [done|]. intros t s1 Hs1 Hc1 Hh.
  pose proof (follows_sound _ _ Hs Hs1) as Hsound1. pose proof (proj1 (proj2 (proj2 Hs1))) as Hp1.
  assert (Hfail : run (asking (report (tok_line t) (tok_col t) (str "expected an expression operand") failed)) s1 (parsed s))
    by (by apply run_failure).
  assert (Htake : forall Q, not_end t -> (forall s', follows s s' -> snd s' = snd s -> (pending (fst s') < pending (fst s))%nat -> Q t s') ->
    run (lexing take_token) s1 Q).
  { intros Q Hne HQ. apply (run_take_head t); [done..|]. intros s2 Hs2 Hc2 Hlt. specialize (Hlt Hne).
    apply HQ; [by eapply follows_trans|congruence|lia]. }
  destruct (tok_kind t) eqn:Hk; try done; cbn zeta.
  - apply run_bind, Htake; [unfold not_end; by rewrite Hk|]. intros s2 H1 H2 H3. destruct (bool_decide _).
    { apply run_bind. eapply run_mono; [apply (run_paid _ known s s2); [done..|apply here_safe]|].
      intros id s3 (H4 & H5 & H6). apply run_ret. split; [done|]. by repeat split. }
    apply run_bind. eapply run_mono; [apply (run_paid _ known s s2); [done..|apply symbol_safe]|].
    intros id s3 (H4 & H5 & H6). apply run_bind, run_asking. eapply run_mono; [apply (constant_safe (weight := weight) (limit := limit)); [apply H4|done]|].
    intros v c ->. replace (fst s3, snd s3) with s3 by (by destruct s3). apply run_ret. split; [done|]. destruct v; by repeat split.
  - apply run_bind, Htake; [unfold not_end; by rewrite Hk|]. intros s2 H1 H2 H3. apply run_ret. split; [done|]. by repeat split.
  - apply run_bind, Htake; [unfold not_end; by rewrite Hk|]. intros s2 H1 H2 H3. apply run_bind.
    eapply run_mono; [apply (run_paid _ (fun c id => is_sym id -> known c id) s s2); [done..|apply local_ref_safe]|].
    intros id s3 (H4 & H5 & H6). destruct (Z.eqb_spec id no_sym); apply run_ret; (split; [done|]); by repeat split.
  - destruct (ceqb (punct t) "("); [|done]. apply run_bind, Htake; [unfold not_end; by rewrite Hk|]. intros s2 H1 H2 H3.
    pose proof (follows_sound _ _ Hs H1) as Hsound2. apply run_bind. eapply run_mono; [apply IHb; [done|lia]|]. intros v s3 (H4 & H5 & H6).
    pose proof (follows_trans _ _ _ H1 H4) as Hs3. pose proof (follows_sound _ _ Hs Hs3) as Hsound3.
    destruct (ok v) eqn:Hok; cbn [negb]; [|apply run_ret; split; [done|split; [done|by rewrite Hok]]]. specialize (H6 eq_refl).
    apply run_bind, run_peek; [done|]. intros t2 s4 Hs4 Hc4 Hh4. pose proof (follows_sound _ _ Hsound3 Hs4) as Hsound4.
    pose proof (follows_trans _ _ _ Hs3 Hs4) as Hs04.
    destruct (is_punct ")" t2); cbn [negb]; [|by apply run_failure].
    apply run_bind, (run_take_head t2); [done..|]. intros s5 Hs5 Hc5 _. apply run_ret.
    split; [by eapply follows_trans|]. split; [by rewrite Hc5, Hc4|]. intros _. pose proof (proj1 (proj2 (proj2 Hs5))).
    pose proof (proj1 (proj2 (proj2 Hs4))). lia.
Qed.
Lemma parse_runs fuel : binary_runs fuel /\ loop_runs fuel /\ unary_runs fuel /\ primary_runs fuel.
Proof.
  induction fuel as [|fuel (IHb & IHl & IHu & IHp)].
  - split_and!; [intros ????|intros ??????|intros ???|intros ???]; lia.
  - split_and!; [by apply binary_step|by apply loop_step|by apply unary_step|by apply primary_step].
Qed.

(** Parsing an expression ends, stays within bounds, and takes a token for a value. *)
Lemma parse_expression_run (s : Parsing C) : sound s -> run parse_expression s (parsed s).
Proof.
  intros Hs. unfold parse_expression. apply run_bind, run_get. apply (proj1 (parse_runs _)); [done|]. unfold expression_fuel.
  pose proof (pending_bound (fst s)) as H. unfold left in H. lia.
Qed.
End Ends.

(** ** Expressions as trees *)

Inductive BinOp := B_mul | B_div | B_mod | B_shl | B_shr | B_and | B_or | B_xor | B_add | B_sub.
#[export] Instance bin_op_eq_dec : EqDecision BinOp.
Proof. solve_decision. Defined.
Inductive Expr :=
| E_int (n : Z) | E_name (name : chars) | E_here | E_local (n : Z) (back : bool)
| E_plus (e : Expr) | E_neg (e : Expr) | E_not (e : Expr) | E_bin (op : BinOp) (l r : Expr).

(** Multiplication binds tighter than the bitwise operators, and these tighter than
    addition. *)
Definition level (op : BinOp) : Z :=
  match op with B_mul | B_div | B_mod | B_shl | B_shr => 3 | B_and | B_or | B_xor => 2 | B_add | B_sub => 1 end.
Definition op_lexeme (op : BinOp) : Lexeme :=
  match op with
  | B_mul => Lx_punct "*" | B_div => Lx_punct "/" | B_mod => Lx_punct "%" | B_shl => Lx_shift_left | B_shr => Lx_shift_right
  | B_and => Lx_punct "&" | B_or => Lx_punct "|" | B_xor => Lx_punct "^" | B_add => Lx_punct "+" | B_sub => Lx_punct "-"
  end.

(** An expression with the fewest parentheses, as an operand of an operator of a level
    below [min]. *)
Fixpoint render (min : Z) (e : Expr) : list Lexeme :=
  match e with
  | E_int n => [Lx_integer n]
  | E_name name => [Lx_ident name]
  | E_here => [Lx_ident (str ".")]
  | E_local n back => [Lx_local n back]
  | E_plus e => Lx_punct "+" :: render 4 e
  | E_neg e => Lx_punct "-" :: render 4 e
  | E_not e => Lx_punct "~" :: render 4 e
  | E_bin op l r =>
      let body := render (level op) l ++ op_lexeme op :: render (level op + 1) r in
      if level op <? min then Lx_punct "(" :: body ++ [Lx_punct ")"] else body
  end.
Fixpoint expr_ok (e : Expr) : bool :=
  match e with
  | E_int n | E_local n _ => (0 <=? n) && (n <? 2 ^ 64)
  | E_name name => lexeme_ok (Lx_ident name) && negb (bool_decide (name = str "."))
  | E_here => true
  | E_plus e | E_neg e | E_not e => expr_ok e
  | E_bin _ l r => expr_ok l && expr_ok r
  end.

(** The place of a reference to a local label is for messages only. *)
Class ExprContextPlaces (C : Type) `{!ExprContext C} : Prop :=
  local_ref_place : forall n b l k l' k' (c : C) id c',
    expr_local_ref n b l k c = Done (id, c') -> id <> no_sym -> expr_local_ref n b l' k' c = Done (id, c').

Section Eval.
Context {C : Type} `{!ExprContext C, !ExprContextPlaces C}.

(** What a tree means, operands from left to right. *)
Fixpoint eval (e : Expr) : M C ExprValue :=
  match e with
  | E_int n => mret (absolute (s64 n))
  | E_name name =>
      id ← expr_symbol name;
      known ← expr_constant_value id;
      mret (match known with Some k => absolute k | None => of_symbol id end)
  | E_here => id ← expr_here; mret (of_symbol id)
  | E_local n back => id ← expr_local_ref (u32 (s64 n)) back 0 0; if id =? no_sym then mret failed else mret (of_symbol id)
  | E_plus e => eval e
  | E_neg e => v ← eval e; if ok v then negate v else mret v
  | E_not e => v ← eval e; mret (if is_absolute v then absolute (Z.lnot (constant v)) else failed)
  | E_bin op l r =>
      a ← eval l;
      if negb (ok a) then mret a
      else b ← eval r; if negb (ok b) then mret b else apply_binary (token_of (op_lexeme op)) a b
  end.

Lemma add_place l k l' k' a b (c : C) v c' : add l k a b c = Done (v, c') -> ok v = true -> add l' k' a b c = Done (v, c').
Proof.
  unfold add. cbn zeta. destruct (_ || _); [|done]. unfold report, mbind, state_bind, modify_state, mret, state_ret.
  by intros [= <- _].
Qed.
Lemma apply_binary_place t t' a b (c : C) v c' : placeless t = placeless t' -> apply_binary t a b c = Done (v, c') -> ok v = true ->
  apply_binary t' a b c = Done (v, c').
Proof.
  intros Hp. assert (Hk : tok_kind t = tok_kind t') by apply (f_equal tok_kind Hp).
  assert (Hc : punct t = punct t') by apply (f_equal punct Hp).
  unfold apply_binary, is_punct, is_kind. rewrite <- Hk, <- Hc.
  destruct (_ && ceqb (punct t) "+"); [apply add_place|].
  destruct (_ && ceqb (punct t) "-").
  { unfold mbind, state_bind. destruct (negate b c) as [[w c1]| | |]; [apply add_place|done..]. }
  assert (Herr : forall l k l' k' m m', report l k m failed c = Done (v, c') -> ok v = true ->
    report l' k' m' failed c = Done (v, c')).
  { unfold report, mbind, state_bind, modify_state, mret, state_ret. by intros ? ? ? ? ? ? [= <- _]. }
  destruct (_ || _); [apply Herr|]. destruct (_ || _); [destruct (_ || _); [apply Herr|done]|].
  repeat (destruct (ceqb _ _); cbn [orb]; [first [done|destruct (_ =? 0); [apply Herr|done]]|]). apply Herr.
Qed.
Lemma binary_level_place t t' : placeless t = placeless t' -> binary_level t = binary_level t'.
Proof.
  intros Hp. assert (Hk : tok_kind t = tok_kind t') by apply (f_equal tok_kind Hp).
  assert (Hc : punct t = punct t') by apply (f_equal punct Hp). unfold binary_level, is_kind. by rewrite Hk, Hc.
Qed.
Lemma level_lexeme op : binary_level (token_of (op_lexeme op)) = level op.
Proof. by destruct op. Qed.
Lemma level_range op : 1 <= level op <= 3.
Proof. destruct op; cbn; lia. Qed.

(** ** The parser gives the tree's value *)

Lemma lexing_done {A} (m : M Lexer A) lx (c : C) a lx' : m lx = Done (a, lx') -> lexing m (lx, c) = Done (a, (lx', c)).
Proof. intros H. unfold lexing, zoom. cbn. by rewrite H. Qed.
Lemma asking_done {A} (m : M C A) (lx : Lexer) c a c' : m c = Done (a, c') -> asking m (lx, c) = Done (a, (lx, c')).
Proof. intros H. unfold asking, zoom. cbn. by rewrite H. Qed.

Definition next_level (ts : list Token) : Z := match ts with [] => 0 | t :: _ => binary_level t end.

(** Looking at the next token, and taking it. *)
Lemma lexing_peek lx (c : C) ts : yields lx ts -> exists t lx', lexing peek (lx, c) = Done (t, (lx', c)) /\ yields lx' ts /\
  binary_level t = next_level ts /\
  match ts with [] => tok_kind t = Tok_End | t' :: _ => t' = t end /\
  match ts with [] => True | _ :: ts => exists lx'', lexing take_token (lx', c) = Done (t, (lx'', c)) /\ yields lx'' ts end.
Proof.
  intros Hy. destruct (yields_peek _ _ Hy) as (t & lx' & Ep & Hy' & Ht & lx'' & Et & Hy''). exists t, lx'.
  split_and!; [by apply lexing_done|done| |done|].
  - destruct ts; [|by subst]. cbn. unfold binary_level, is_kind. by rewrite Ht.
  - destruct ts; [done|]. exists lx''. split; [by apply lexing_done|done].
Qed.

Lemma loop_stops fuel min v lx (c : C) ts : yields lx ts -> (next_level ts = 0 \/ next_level ts < min) ->
  exists lx', binary_loop (S fuel) min v (lx, c) = Done (v, (lx', c)) /\ yields lx' ts.
Proof.
  intros Hy Hl. destruct (lexing_peek lx c ts Hy) as (t & lx' & Ep & Hy' & Hlev & _). exists lx'. split; [|done].
  cbn [binary_loop]. rewrite (bind_done _ _ _ _ _ Ep), Hlev. cbn zeta.
  replace ((next_level ts =? 0) || (next_level ts <? min)) with true; [done|].
  symmetry. apply orb_true_iff. rewrite Z.eqb_eq, Z.ltb_lt. done.
Qed.

Definition reads (e : Expr) (lv : Z) (ts : list Token) : Prop := map placeless ts = map token_of (render lv e).

(** [parse_unary] on an operand, and [parse_binary] on an expression of level [lv] before
    tokens that bind no tighter. *)
Definition unary_reads (e : Expr) : Prop :=
  forall fuel lx c ts more v c', eval e c = Done (v, c') -> ok v = true -> reads e 4 ts -> yields lx (ts ++ more) ->
  (3 * length (ts ++ more) + 2 <= fuel)%nat ->
  exists lx', parse_unary fuel (lx, c) = Done (v, (lx', c')) /\ yields lx' more.
Definition binary_reads (e : Expr) : Prop :=
  forall fuel min lv lx c ts more v c', eval e c = Done (v, c') -> ok v = true -> min <= lv -> reads e lv ts ->
  yields lx (ts ++ more) -> next_level more <= lv -> (3 * length (ts ++ more) + 3 <= fuel)%nat ->
  exists lx' fuel', parse_binary fuel min (lx, c) = binary_loop fuel' min v (lx', c') /\ yields lx' more /\
    (3 * length more + 1 <= fuel')%nat.

Lemma reads_nonempty e lv ts : reads e lv ts -> (0 < length ts)%nat.
Proof.
  intros H. apply (f_equal length) in H. rewrite !length_map in H. rewrite H.
  destruct e; cbn; try lia. destruct (_ <? _); cbn; rewrite ?length_app; cbn; lia.
Qed.

(** An operand is an expression. *)
Lemma unary_binary e lv : unary_reads e -> render lv e = render 4 e -> forall fuel min lx c ts more v c',
  eval e c = Done (v, c') -> ok v = true -> reads e lv ts -> yields lx (ts ++ more) -> (3 * length (ts ++ more) + 3 <= fuel)%nat ->
  exists lx' fuel', parse_binary fuel min (lx, c) = binary_loop fuel' min v (lx', c') /\ yields lx' more /\
    (3 * length more + 1 <= fuel')%nat.
Proof.
  intros HU Hr fuel min lx c ts more v c' Hv Hok Hts Hy Hf. destruct fuel as [|fuel]; [lia|].
  pose proof (reads_nonempty _ _ _ Hts). unfold reads in Hts. rewrite Hr in Hts.
  destruct (HU fuel lx c ts more v c' Hv Hok Hts Hy ltac:(lia)) as (lx' & E & Hy').
  exists lx', fuel. rewrite length_app in Hf. split_and!; [|done|lia].
  cbn [parse_binary]. rewrite (bind_done _ _ _ _ _ E), Hok. done.
Qed.
Lemma placeless_fields t l : placeless t = token_of l ->
  tok_kind t = tok_kind (token_of l) /\ text t = text (token_of l) /\ tok_value t = tok_value (token_of l) /\
  backward t = backward (token_of l) /\ punct t = punct (token_of l).
Proof.
  intros H. split_and!; [apply (f_equal tok_kind) in H|apply (f_equal text) in H|apply (f_equal tok_value) in H|
    apply (f_equal backward) in H|apply (f_equal punct) in H]; cbn in H; rewrite H; by destruct l.
Qed.

(** Operands begin with [parse_primary], but for unary operators. *)
Lemma unary_primary fuel lx (c : C) t ts : yields lx (t :: ts) -> is_unary_operator t = false ->
  exists lx', parse_unary (S fuel) (lx, c) = parse_primary fuel (lx', c) /\ yields lx' (t :: ts).
Proof.
  intros Hy Hu. destruct (lexing_peek lx c _ Hy) as (t' & lx' & Ep & Hy' & _ & <- & _). exists lx'. split; [|done].
  cbn [parse_unary]. rewrite (bind_done _ _ _ _ _ Ep). cbn zeta. by rewrite Hu.
Qed.
Lemma unary_operator fuel lx (c : C) t ts : yields lx (t :: ts) -> is_unary_operator t = true ->
  exists lx', parse_unary (S fuel) (lx, c) =
    (operand ← parse_unary fuel;
     if negb (ok operand) then mret operand
     else if ceqb (punct t) "+" then mret operand
     else if ceqb (punct t) "-" then asking (negate operand)
     else if negb (is_absolute operand) then
       asking (report (tok_line t) (tok_col t) (str "operator '~' requires an absolute operand") failed)
     else mret (absolute (Z.lnot (constant operand)))) (lx', c) /\ yields lx' ts.
Proof.
  intros Hy Hu. destruct (lexing_peek lx c _ Hy) as (t' & lx' & Ep & Hy' & _ & <- & lx'' & Et & Hy''). exists lx''. split; [|done].
  cbn [parse_unary]. rewrite (bind_done _ _ _ _ _ Ep). cbn zeta. rewrite Hu. by rewrite (bind_done _ _ _ _ _ Et).
Qed.
Lemma primary_reads fuel lx (c : C) t ts l v c' : yields lx (t :: ts) -> placeless t = token_of l ->
  match l with
  | Lx_integer n => v = absolute (s64 n) /\ c' = c
  | Lx_local n back => exists id, expr_local_ref (u32 (s64 n)) back 0 0 c = Done (id, c') /\ id <> no_sym /\ v = of_symbol id
  | Lx_ident name => if bool_decide (name = str ".") then exists id, expr_here c = Done (id, c') /\ v = of_symbol id
      else exists id c1 known, expr_symbol name c = Done (id, c1) /\ expr_constant_value id c1 = Done (known, c') /\
        v = match known with Some k => absolute k | None => of_symbol id end
  | _ => False
  end ->
  exists lx', parse_primary (S fuel) (lx, c) = Done (v, (lx', c')) /\ yields lx' ts.
Proof.
  intros Hy Hp Hv. destruct (placeless_fields _ _ Hp) as (Hk & Ht & Hval & Hb & Hpu).
  destruct (lexing_peek lx c _ Hy) as (t' & lx' & Ep & Hy' & _ & <- & lx'' & Et & Hy''). exists lx''. split; [|done].
  cbn [parse_primary]. rewrite (bind_done _ _ _ _ _ Ep). cbn zeta. rewrite Hk.
  destruct l; try done; cbn [token_of tok_kind with_text with_value as_local_ref token];
    rewrite (bind_done _ _ _ _ _ Et).
  - rewrite Ht. cbn [token_of text with_text]. destruct (bool_decide _).
    + destruct Hv as (id & E & ->). by rewrite (bind_done _ _ _ _ _ (asking_done _ lx'' _ _ _ E)).
    + destruct Hv as (id & c1 & known & E1 & E2 & ->). rewrite (bind_done _ _ _ _ _ (asking_done _ lx'' _ _ _ E1)).
      by rewrite (bind_done _ _ _ _ _ (asking_done _ lx'' _ _ _ E2)).
  - destruct Hv as [-> ->]. by rewrite Hval.
  - destruct Hv as (id & E & Hne & ->). rewrite Hval, Hb. cbn [token_of tok_value backward with_value as_local_ref].
    apply (local_ref_place _ _ _ _ (tok_line t) (tok_col t)) in E; [|done].
    rewrite (bind_done _ _ _ _ _ (asking_done _ lx'' _ _ _ E)). destruct (Z.eqb_spec id no_sym); done.
Qed.

(** A leaf is one token. *)
Lemma leaf_unary e l : render 4 e = [l] ->
  (forall c v c', eval e c = Done (v, c') -> ok v = true ->
    match l with
    | Lx_integer n => v = absolute (s64 n) /\ c' = c
    | Lx_local n back => exists id, expr_local_ref (u32 (s64 n)) back 0 0 c = Done (id, c') /\ id <> no_sym /\ v = of_symbol id
    | Lx_ident name => if bool_decide (name = str ".") then exists id, expr_here c = Done (id, c') /\ v = of_symbol id
        else exists id c1 known, expr_symbol name c = Done (id, c1) /\ expr_constant_value id c1 = Done (known, c') /\
          v = match known with Some k => absolute k | None => of_symbol id end
    | _ => False
    end) -> unary_reads e.
Proof.
  intros Hr Hv fuel lx c ts more v c' He Hok Hts Hy Hf. unfold reads in Hts. rewrite Hr in Hts.
  destruct ts as [|t [|]]; try done. injection Hts as Hp. cbn [app] in Hy. rewrite length_app in Hf. cbn in Hf.
  destruct fuel as [|[|fuel]]; [lia..|].
  assert (Hu : is_unary_operator t = false).
  { unfold is_unary_operator, is_punct, is_kind. destruct (placeless_fields _ _ Hp) as (-> & _).
    pose proof (Hv c v c' He Hok). by destruct l. }
  destruct (unary_primary (S fuel) lx c t more Hy Hu) as (lx1 & -> & Hy1). by eapply primary_reads; [|exact Hp|apply Hv].
Qed.
Lemma bin_open op l r lv : lv <= level op -> render lv (E_bin op l r) = render (level op) l ++ op_lexeme op :: render (level op + 1) r.
Proof. intros H. cbn [render]. cbn zeta. by rewrite (proj2 (Z.ltb_ge _ _) H). Qed.
Lemma bin_closed op l r lv : level op < lv -> render lv (E_bin op l r) = Lx_punct "(" :: render 1 (E_bin op l r) ++ [Lx_punct ")"].
Proof.
  intros H. cbn [render]. cbn zeta. rewrite (proj2 (Z.ltb_lt _ _) H). pose proof (level_range op).
  by rewrite (proj2 (Z.ltb_ge (level op) 1)) by lia.
Qed.

(** An operator that needs no parentheses here. *)
Lemma bin_reads op l r : binary_reads l -> binary_reads r -> forall fuel min lv lx c ts more v c',
  eval (E_bin op l r) c = Done (v, c') -> ok v = true -> min <= lv -> lv <= level op -> reads (E_bin op l r) lv ts ->
  yields lx (ts ++ more) -> next_level more <= lv -> (3 * length (ts ++ more) + 3 <= fuel)%nat ->
  exists lx' fuel', parse_binary fuel min (lx, c) = binary_loop fuel' min v (lx', c') /\ yields lx' more /\
    (3 * length more + 1 <= fuel')%nat.
Proof.
  intros Hl Hr fuel min lv lx c ts more v c' He Hok Hmin Hlv Hts Hy Hmore Hf. pose proof (level_range op).
  unfold reads in Hts. rewrite bin_open, map_app in Hts by done.
  apply map_eq_app in Hts as (t1 & ts2 & -> & Ht1 & Ht2). apply map_eq_cons in Ht2 as (t & t2 & -> & Ht & Ht2).
  cbn [eval] in He. apply bind_inv in He as (a & c1 & Ha & He). destruct (ok a) eqn:Hoka; cbn [negb] in He.
  2:{ injection He as <- <-. congruence. }
  apply bind_inv in He as (b & c2 & Hb & He). destruct (ok b) eqn:Hokb; cbn [negb] in He.
  2:{ injection He as <- <-. congruence. }
  rewrite <- app_assoc in Hy. cbn [app] in Hy. rewrite <- app_assoc in Hf. cbn [app] in Hf.
  assert (Hlev : binary_level t = level op) by (rewrite <- level_lexeme; by apply binary_level_place; rewrite Ht; destruct op).
  destruct (Hl fuel min (level op) lx c t1 (t :: t2 ++ more) a c1 Ha Hoka ltac:(lia) Ht1 Hy) as (lx1 & f1 & E1 & Hy1 & Hf1);
    [cbn; lia|lia|].
  rewrite E1. destruct f1 as [|f]; [lia|]. destruct (lexing_peek lx1 c1 _ Hy1) as (t' & lx2 & Ep & Hy2 & _ & <- & lx3 & Et & Hy3).
  cbn [binary_loop]. rewrite (bind_done _ _ _ _ _ Ep). cbn zeta. rewrite Hlev.
  replace ((level op =? 0) || (level op <? min)) with false by (symmetry; apply orb_false_iff; lia).
  rewrite (bind_done _ _ _ _ _ Et). cbn [length] in Hf1. rewrite length_app in Hf1.
  destruct (Hr f (level op + 1) (level op + 1) lx3 c1 t2 more b c2 Hb Hokb ltac:(lia) Ht2 Hy3) as (lx4 & f2 & E2 & Hy4 & Hf2);
    [lia|rewrite length_app; lia|]. destruct f2 as [|f2]; [lia|].
  destruct (loop_stops f2 (level op + 1) b lx4 c2 more Hy4) as (lx5 & E3 & Hy5); [right; lia|].
  rewrite E3 in E2. rewrite (bind_done _ _ _ _ _ E2), Hokb. cbn [negb].
  apply (apply_binary_place _ t) in He; [|by rewrite Ht; destruct op|done].
  rewrite (bind_done _ _ _ _ _ (asking_done _ lx5 _ _ _ He)), Hok. cbn [negb]. exists lx5, f. split_and!; [done|done|lia].
Qed.

(** An operator in parentheses. *)
Lemma bin_unary op l r : binary_reads l -> binary_reads r -> unary_reads (E_bin op l r).
Proof.
  intros Hl Hr fuel lx c ts more v c' He Hok Hts Hy Hf. pose proof (level_range op) as Hlev. unfold reads in Hts.
  rewrite bin_closed in Hts by lia. cbn [map] in Hts. apply map_eq_cons in Hts as (t & ts1 & -> & Ht & Hts).
  rewrite map_app in Hts. apply map_eq_app in Hts as (tb & te & -> & Htb & Hte).
  cbn [map] in Hte. apply map_eq_cons in Hte as (t2 & [|] & -> & Ht2 & Hte); [|done]. clear Hte.
  rewrite <- app_comm_cons, <- app_assoc in Hy. rewrite <- app_comm_cons, <- app_assoc in Hf. cbn [app] in Hy, Hf.
  destruct (placeless_fields t _ Ht) as (Hk & _ & _ & _ & Hp). destruct (placeless_fields t2 _ Ht2) as (Hk2 & _ & _ & _ & Hp2).
  cbn in Hk, Hp, Hk2, Hp2. cbn [length] in Hf. rewrite length_app in Hf. cbn [length] in Hf.
  destruct fuel as [|[|fuel]]; [lia..|].
  destruct (unary_primary (S fuel) lx c t _ Hy) as (lx1 & -> & Hy1).
  { unfold is_unary_operator, is_punct. by rewrite Hp, !andb_false_r. }
  destruct (lexing_peek lx1 c _ Hy1) as (t' & lx2 & Ep & Hy2 & _ & <- & lx3 & Et & Hy3).
  cbn [parse_primary]. rewrite (bind_done _ _ _ _ _ Ep). cbn zeta. rewrite Hk, Hp. cbn [ceqb Ascii.eqb Bool.eqb].
  rewrite (bind_done _ _ _ _ _ Et).
  assert (Hl0 : next_level (t2 :: more) = 0) by (cbn; unfold binary_level, is_kind; by rewrite Hk2, Hp2).
  destruct (bin_reads op l r Hl Hr fuel 1 1 lx3 c tb (t2 :: more) v c' He Hok) as (lx4 & f & E & Hy4 & Hf4);
    [lia|lia|done|done|lia|rewrite length_app; cbn [length]; lia|]. destruct f as [|f]; [lia|].
  destruct (loop_stops f 1 v lx4 c' _ Hy4 ltac:(by left)) as (lx5 & E5 & Hy5). rewrite E5 in E.
  rewrite (bind_done _ _ _ _ _ E), Hok. cbn [negb].
  destruct (lexing_peek lx5 c' _ Hy5) as (t3 & lx6 & Ep6 & Hy6 & _ & <- & lx7 & Et7 & Hy7).
  rewrite (bind_done _ _ _ _ _ Ep6). unfold is_punct at 1, is_kind. rewrite Hk2, Hp2. cbn [bool_decide andb negb].
  change (negb (bool_decide (Tok_Punct = Tok_Punct) && ceqb ")" ")")) with false. cbn iota.
  rewrite (bind_done _ _ _ _ _ Et7). by exists lx7.
Qed.

Lemma operator_unary e e' (x : ascii) : unary_reads e' -> render 4 e = Lx_punct x :: render 4 e' -> x ∈ ["+"; "-"; "~"]%char ->
  (forall c v c', eval e c = Done (v, c') -> ok v = true -> exists a c1, eval e' c = Done (a, c1) /\ ok a = true /\
    (if ceqb x "+" then mret a else if ceqb x "-" then negate a
     else if negb (is_absolute a) then undefined else mret (absolute (Z.lnot (constant a)))) c1 = Done (v, c')) ->
  unary_reads e.
Proof.
  intros Hu Hr Hx Hv fuel lx c ts more v c' He Hok Hts Hy Hf. unfold reads in Hts. rewrite Hr in Hts.
  apply map_eq_cons in Hts as (t & ts' & -> & Ht & Hts). cbn [app] in Hy. cbn [app length] in Hf. destruct fuel as [|fuel]; [lia|].
  destruct (placeless_fields t _ Ht) as (Hk & _ & _ & _ & Hp). cbn in Hk, Hp.
  destruct (unary_operator fuel lx c t _ Hy) as (lx1 & -> & Hy1).
  { unfold is_unary_operator, is_punct, is_kind. rewrite Hk, Hp. rewrite !elem_of_cons in Hx.
    destruct Hx as [->|[->|[->|Hx]]]; [done..|by apply elem_of_nil in Hx]. }
  destruct (Hv c v c' He Hok) as (a & c1 & Ha & Hoka & Hrest).
  destruct (Hu fuel lx1 c ts' more a c1 Ha Hoka Hts Hy1 ltac:(lia)) as (lx2 & E2 & Hy2).
  rewrite (bind_done _ _ _ _ _ E2), Hoka, Hp. cbn [negb].
  destruct (ceqb x "+"); [injection Hrest as -> ->; by exists lx2|].
  destruct (ceqb x "-"); [exists lx2; split; [by apply asking_done|done]|].
  destruct (negb (is_absolute a)); [done|]. injection Hrest as <- <-. by exists lx2.
Qed.

Lemma ok_absolute (a : ExprValue) : is_absolute a = true -> ok a = true.
Proof. unfold is_absolute. by intros [[? _]%andb_true_iff _]%andb_true_iff. Qed.

Lemma tree_reads e : expr_ok e = true -> binary_reads e /\ unary_reads e.
Proof.
  assert (Hone : forall e, unary_reads e -> (forall lv, render lv e = render 4 e) -> binary_reads e /\ unary_reads e).
  { intros x Hu Hr. split; [|done]. intros fuel min lv lx c ts more v c' He Hok _ Hts Hy _ Hf.
    by apply (unary_binary x lv Hu (Hr lv) fuel min lx c ts more v c'). }
  induction e as [n|name| |n back|e IH|e IH|e IH|op l IHl r IHr]; intros Hwf; cbn [expr_ok] in Hwf.
  - apply Hone; [|done]. eapply leaf_unary; [done|]. by intros c v c' [= <- <-].
  - apply Hone; [|done]. eapply leaf_unary; [done|]. cbn [eval]. intros c v c' He Hok.
    apply bind_inv in He as (id & c1 & E1 & (known & c2 & E2 & E3)%bind_inv). injection E3 as <- <-.
    apply andb_true_iff in Hwf as [_ Hn]. apply negb_true_iff in Hn. rewrite Hn. by exists id, c1, known.
  - apply Hone; [|done]. eapply leaf_unary; [done|]. cbn [eval]. intros c v c' He Hok.
    apply bind_inv in He as (id & c1 & E1 & E3). injection E3 as <- <-. rewrite bool_decide_true by done. by exists id.
  - apply Hone; [|done]. eapply leaf_unary; [done|]. cbn [eval]. intros c v c' He Hok.
    apply bind_inv in He as (id & c1 & E1 & E3). destruct (Z.eqb_spec id no_sym); injection E3 as <- <-; [done|]. by exists id.
  - apply Hone; [|done]. apply (operator_unary _ e "+"); [by apply IH|done|left|].
    intros c v c' He Hok. exists v, c'. by split_and!.
  - apply Hone; [|done]. apply (operator_unary _ e "-"); [by apply IH|done|right; left|].
    intros c v c' He Hok. cbn [eval] in He. apply bind_inv in He as (a & c1 & E1 & E2). exists a, c1. split; [done|].
    destruct (ok a) eqn:Ha; [done|]. injection E2 as <- <-. congruence.
  - apply Hone; [|done]. apply (operator_unary _ e "~"); [by apply IH|done|right; right; left|].
    intros c v c' He Hok. cbn [eval] in He. apply bind_inv in He as (a & c1 & E1 & E2). exists a, c1. split; [done|].
    injection E2 as <- <-. destruct (is_absolute a) eqn:Ha; [|done]. split; [by apply ok_absolute|done].
  - apply andb_true_iff in Hwf as [Hl Hr]. destruct (IHl Hl) as [Bl _], (IHr Hr) as [Br _].
    assert (Hu : unary_reads (E_bin op l r)) by by apply bin_unary. split; [|done].
    intros fuel min lv lx c ts more v c' He Hok Hmin Hts Hy Hmore Hf. destruct (Z.leb_spec lv (level op)).
    + by apply (bin_reads op l r Bl Br) with (lv := lv) (c := c) (ts := ts).
    + pose proof (level_range op).
      assert (Hr4 : render lv (E_bin op l r) = render 4 (E_bin op l r)) by by rewrite (bin_closed op l r lv), (bin_closed op l r 4) by lia.
      apply (unary_binary _ lv Hu Hr4 fuel min lx c ts more v c'); done.
Qed.
End Eval.

(** ** What a tree denotes *)

Definition arith (op : BinOp) (a b : Z) : option Z :=
  match op with
  | B_mul => Some (a * b)
  | B_div => if b =? 0 then None else Some (Z.quot a b)
  | B_mod => if b =? 0 then None else Some (Z.rem a b)
  | B_shl => if (0 <=? b) && (b <=? 63) then Some (s64 (u64 a * 2 ^ b)) else None
  | B_shr => if (0 <=? b) && (b <=? 63) then Some (s64 (u64 a / 2 ^ b)) else None
  | B_and => Some (Z.land a b) | B_or => Some (Z.lor a b) | B_xor => Some (Z.lxor a b)
  | B_add => Some (a + b) | B_sub => Some (a - b)
  end.

(** The values of names, of the place of the expression, and of local labels. *)
Record Names := mkNames { name_value : chars -> Z; here_value : Z; local_value : Z -> bool -> Z }.
Fixpoint den (names : Names) (e : Expr) : option Z :=
  match e with
  | E_int n => Some (s64 n)
  | E_name name => Some (name_value names name)
  | E_here => Some (here_value names)
  | E_local n back => Some (local_value names (u32 n) back)
  | E_plus e => den names e
  | E_neg e => x ← den names e; Some (- x)
  | E_not e => x ← den names e; Some (Z.lnot x)
  | E_bin op l r => a ← den names l; b ← den names r; arith op a b
  end.

(** The number a value stands for when the symbols have addresses. *)
Definition address (addr : SymId -> Z) (id : SymId) : Z := if is_sym id then addr id else 0.
Definition denotes (addr : SymId -> Z) (v : ExprValue) (x : Z) : Prop :=
  x = constant v + address addr (pos_sym v) - address addr (neg_sym v).

(** A context that knows the names, as long as its invariant [I] holds. *)
Class ExprContextMeans (C : Type) `{!ExprContext C} (I : C -> Prop) (addr : SymId -> Z) (names : Names) : Prop := {
  symbol_means : forall name (c : C) id c1 known c2, I c -> expr_symbol name c = Done (id, c1) ->
    expr_constant_value id c1 = Done (known, c2) -> I c2 /\
    match known with Some k => k = name_value names name | None => id <> no_sym /\ addr id = name_value names name end;
  here_means : forall (c : C) id c', I c -> expr_here c = Done (id, c') -> I c' /\ id <> no_sym /\ addr id = here_value names;
  local_means : forall n b l k (c : C) id c', I c -> expr_local_ref n b l k c = Done (id, c') -> id <> no_sym ->
    I c' /\ addr id = local_value names n b }.

Lemma uwrap_swrap_wider w w' x : 0 <= w <= w' -> uwrap w (swrap w' x) = uwrap w x.
Proof.
  intros Hw. assert (Hd : (2 ^ w | 2 ^ w')) by (exists (2 ^ (w' - w)); rewrite <- Z.pow_add_r by lia; f_equal; lia).
  assert (Hm : uwrap w (uwrap w' x) = uwrap w x) by by apply Z.mod_mod_divide.
  unfold swrap. cbn zeta. destruct (_ <? _); [done|]. rewrite <- Hm. unfold uwrap at 1 3. destruct Hd as [k Hk]. rewrite Hk.
  replace (uwrap w' x - k * 2 ^ w) with (uwrap w' x + - k * 2 ^ w) by lia. apply Z_mod_plus_full.
Qed.
Lemma s64_u64 x : s64 (u64 x) = s64 x.
Proof. unfold swrap. cbn zeta. by rewrite uwrap_idem. Qed.

Section Means.
Context {C : Type} `{!ExprContext C} (I : C -> Prop) (addr : SymId -> Z) (names : Names) `{!ExprContextMeans C I addr names}.

Lemma address_none : address addr no_sym = 0.
Proof. done. Qed.
Lemma denotes_absolute k : denotes addr (absolute k) k.
Proof. unfold denotes. cbn [constant pos_sym neg_sym absolute]. rewrite address_none. lia. Qed.
Lemma denotes_symbol id : id <> no_sym -> denotes addr (of_symbol id) (addr id).
Proof. intros Hne. unfold denotes. cbn [constant pos_sym neg_sym of_symbol]. rewrite address_none. unfold address, is_sym.
  destruct (Z.eqb_spec id no_sym); [done|cbn [negb]; lia].
Qed.
Lemma absolute_denotes v x : is_absolute v = true -> denotes addr v x -> x = constant v.
Proof.
  unfold is_absolute, denotes. rewrite !andb_true_iff, !Z.eqb_eq. intros [[_ ->] ->]. rewrite address_none. lia.
Qed.
Lemma checked_done {S} x (s : S) k s' : checked x s = Done (k, s') -> k = x /\ s' = s /\ fits64 x = true.
Proof. unfold checked. destruct (fits64 x); [|done]. by intros [= <- <-]. Qed.

Lemma negate_means v x (c : C) w c' : denotes addr v x -> negate v c = Done (w, c') -> c' = c /\ ok w = ok v /\ denotes addr w (- x).
Proof.
  intros Hx H. unfold negate in H. apply bind_inv in H as (k & c1 & (-> & -> & _)%checked_done & H). injection H as <- <-.
  unfold denotes in *. cbn. split_and!; [done..|lia].
Qed.
Lemma address_either a b : is_sym a && is_sym b = false -> address addr (if is_sym b then b else a) = address addr a + address addr b.
Proof. unfold address. destruct (is_sym a) eqn:Ha, (is_sym b) eqn:Hb; cbn; rewrite ?Ha, ?Hb; intros; (done || lia). Qed.
Lemma add_means l k a b x y (c : C) v c' : denotes addr a x -> denotes addr b y -> add l k a b c = Done (v, c') -> ok v = true ->
  c' = c /\ denotes addr v (x + y).
Proof.
  destruct a as [oka ka pa na], b as [okb kb pb nb]. unfold add, denotes. cbn [ok constant pos_sym neg_sym].
  assert (Hfin : forall p1 n1 p2 n2, x + y = ka + kb + address addr p1 - address addr n1 + address addr p2 - address addr n2 ->
    (if is_sym p1 && is_sym p2 || is_sym n1 && is_sym n2 then
       report l k (str "expression combines too many symbols to be representable") failed
     else m ← checked (ka + kb); mret (mkExpr oka m (if is_sym p2 then p2 else p1) (if is_sym n2 then n2 else n1))) c = Done (v, c') ->
    ok v = true -> c' = c /\ x + y = constant v + address addr (pos_sym v) - address addr (neg_sym v)).
  { intros p1 n1 p2 n2 Hxy H Hok. destruct (_ || _) eqn:Hmany in H; [by injection H as <- _|].
    apply orb_false_iff in Hmany as [H1 H2]. apply bind_inv in H as (m & c1 & (-> & -> & _)%checked_done & H). injection H as <- <-.
    split; [done|]. cbn [constant pos_sym neg_sym]. rewrite !address_either by done. lia. }
  intros Hx Hy. cbn zeta. destruct (is_sym pb && (pb =? na)) eqn:E1; cbn [ok constant pos_sym neg_sym].
  - apply andb_true_iff in E1 as [_ E1%Z.eqb_eq]. destruct (is_sym nb && (nb =? pa)) eqn:E2; cbn [ok constant pos_sym neg_sym].
    + apply andb_true_iff in E2 as [_ E2%Z.eqb_eq]. apply Hfin. rewrite address_none. subst. lia.
    + apply Hfin. rewrite address_none. subst. lia.
  - destruct (is_sym nb && (nb =? pa)) eqn:E2; cbn [ok constant pos_sym neg_sym].
    + apply andb_true_iff in E2 as [_ E2%Z.eqb_eq]. apply Hfin. rewrite address_none. subst. lia.
    + apply Hfin. lia.
Qed.

Lemma report_failed {A} l k m (v : A) (c : C) w c' : report l k m v c = Done (w, c') -> w = v.
Proof. unfold report, mbind, state_bind, modify_state, mret, state_ret. by intros [= <- _]. Qed.

Lemma apply_means op a b x y (c : C) v c' : denotes addr a x -> denotes addr b y ->
  apply_binary (token_of (op_lexeme op)) a b c = Done (v, c') -> ok v = true -> c' = c /\ exists z, arith op x y = Some z /\ denotes addr v z.
Proof.
  intros Ha Hb H Hok. unfold apply_binary in H.
  destruct (is_punct "+" _) eqn:Hp.
  { destruct op; try done. destruct (add_means _ _ _ _ _ _ _ _ _ Ha Hb H Hok) as [-> Hv]. split; [done|]. by exists (x + y). }
  destruct (is_punct "-" _) eqn:Hm.
  { destruct op; try done. apply bind_inv in H as (nb & c1 & Hn & H). destruct (negate_means _ _ _ _ _ Hb Hn) as (-> & _ & Hb').
    destruct (add_means _ _ _ _ _ _ _ _ _ Ha Hb' H Hok) as [-> Hv]. split; [done|]. exists (x - y). split; [done|]. by rewrite <- Z.add_opp_r. }
  destruct (negb (is_absolute a) || negb (is_absolute b)) eqn:Habs; [by apply report_failed in H as ->|].
  apply orb_false_iff in Habs as [Ha1%negb_false_iff Hb1%negb_false_iff].
  pose proof (absolute_denotes _ _ Ha1 Ha) as ->. pose proof (absolute_denotes _ _ Hb1 Hb) as ->. clear Ha Hb Ha1 Hb1.
  assert (Hdone : forall k, (mret (absolute k) : M C ExprValue) c = Done (v, c') -> c' = c /\ denotes addr v k).
  { intros k [= <- <-]. split; [done|apply denotes_absolute]. }
  assert (Hdiv : forall k, (if constant b =? 0 then report 0 0 (str "division by zero") failed
      else q ← checked (Z.quot (constant a) (constant b)); mret (absolute (k q))) c = Done (v, c') ->
    c' = c /\ (constant b =? 0) = false /\ denotes addr v (k (Z.quot (constant a) (constant b)))).
  { intros k H'. destruct (constant b =? 0); [by apply report_failed in H' as ->|].
    apply bind_inv in H' as (q & c1 & (-> & -> & _)%checked_done & H'). by apply Hdone in H' as [-> ?]. }
  destruct op; cbn -[Z.mul Z.quot Z.rem absolute] in H; try discriminate.
  - apply bind_inv in H as (q & c1 & (-> & -> & _)%checked_done & H). apply Hdone in H as [-> ?]. split; [done|]. by eexists.
  - apply (Hdiv (fun q => q)) in H as (-> & Hz & ?). split; [done|]. cbn. rewrite Hz. by eexists.
  - apply (Hdiv (fun _ => Z.rem (constant a) (constant b))) in H as (-> & Hz & ?). split; [done|]. cbn. rewrite Hz. by eexists.
  - destruct ((constant b <? 0) || (63 <? constant b)) eqn:Hs; [by apply report_failed in H as ->|]. apply orb_false_iff in Hs.
    apply Hdone in H as [-> Hv]. split; [done|]. cbn [arith]. replace ((0 <=? constant b) && (constant b <=? 63)) with true
      by (symmetry; apply andb_true_iff; lia). eexists. split; [done|]. rewrite s64_u64, Z.shiftl_mul_pow2 in Hv by lia. done.
  - destruct ((constant b <? 0) || (63 <? constant b)) eqn:Hs; [by apply report_failed in H as ->|]. apply orb_false_iff in Hs.
    apply Hdone in H as [-> Hv]. split; [done|]. cbn [arith]. replace ((0 <=? constant b) && (constant b <=? 63)) with true
      by (symmetry; apply andb_true_iff; lia). eexists. split; [done|]. rewrite Z.shiftr_div_pow2 in Hv by lia. done.
  - apply Hdone in H as [-> Hv]. split; [done|]. by eexists.
  - apply Hdone in H as [-> Hv]. split; [done|]. by eexists.
  - apply Hdone in H as [-> Hv]. split; [done|]. by eexists.
Qed.

Lemma eval_means e : forall (c : C) v c', I c -> eval e c = Done (v, c') -> ok v = true ->
  I c' /\ exists x, den names e = Some x /\ denotes addr v x.
Proof.
  induction e as [n|name| |n back|e IH|e IH|e IH|op l IHl r IHr]; intros c v c' Hi He Hok; cbn [eval den] in *.
  - injection He as <- <-. split; [done|]. eexists. split; [done|apply denotes_absolute].
  - apply bind_inv in He as (id & c1 & E1 & (known & c2 & E2 & E3)%bind_inv). injection E3 as <- <-.
    destruct (symbol_means (names := names) _ _ _ _ _ _ Hi E1 E2) as [Hi' Hk]. split; [done|]. eexists. split; [done|].
    destruct known; [rewrite <- Hk; apply denotes_absolute|]. destruct Hk as [Hne <-]. by apply denotes_symbol.
  - apply bind_inv in He as (id & c1 & E1 & E3). injection E3 as <- <-. destruct (here_means _ _ _ Hi E1) as (Hi' & Hne & <-).
    split; [done|]. eexists. split; [done|]. by apply denotes_symbol.
  - apply bind_inv in He as (id & c1 & E1 & E3). destruct (Z.eqb_spec id no_sym) as [|Hne]; injection E3 as <- <-; [done|].
    destruct (local_means _ _ _ _ _ _ _ Hi E1 Hne) as (Hi' & Ha). rewrite uwrap_swrap_wider in Ha by lia. rewrite <- Ha.
    split; [done|]. eexists. split; [done|]. by apply denotes_symbol.
  - by eapply IH.
  - apply bind_inv in He as (a & c1 & E1 & E2). destruct (ok a) eqn:Ha; [|injection E2 as <- <-; congruence].
    destruct (IH _ _ _ Hi E1 Ha) as (Hi' & x & -> & Hx). destruct (negate_means _ _ _ _ _ Hx E2) as (-> & _ & Hv).
    split; [done|]. cbn. by eexists.
  - apply bind_inv in He as (a & c1 & E1 & E2). injection E2 as <- <-. destruct (is_absolute a) eqn:Ha; [|done].
    destruct (IH _ _ _ Hi E1 (ok_absolute _ Ha)) as (Hi' & x & -> & Hx). rewrite <- (absolute_denotes _ _ Ha Hx).
    split; [done|]. eexists. split; [done|]. apply denotes_absolute.
  - apply bind_inv in He as (a & c1 & Ea & He). destruct (ok a) eqn:Hoka; cbn [negb] in He; [|injection He as <- <-; congruence].
    apply bind_inv in He as (b & c2 & Eb & He). destruct (ok b) eqn:Hokb; cbn [negb] in He; [|injection He as <- <-; congruence].
    destruct (IHl _ _ _ Hi Ea Hoka) as (Hi1 & x & -> & Hx). destruct (IHr _ _ _ Hi1 Eb Hokb) as (Hi2 & y & -> & Hy).
    destruct (apply_means _ _ _ _ _ _ _ _ Hx Hy He Hok) as (-> & z & Hz & Hv). split; [done|]. cbn. by exists z.
Qed.
End Means.

(** ** Constant expressions *)

(** What else an operator computes must fit 64 bits. *)
Definition op_defined (op : BinOp) (a b : Z) : bool :=
  match op with B_mod => (b =? 0) || fits64 (Z.quot a b) | B_sub => fits64 (- b) | _ => true end.
(** No symbols, and every value on the way fits 64 bits. *)
Fixpoint constant_value (e : Expr) : option Z :=
  x ← match e with
      | E_int n => Some (s64 n)
      | E_name _ | E_here | E_local _ _ => None
      | E_plus e => constant_value e
      | E_neg e => x ← constant_value e; Some (- x)
      | E_not e => x ← constant_value e; Some (Z.lnot x)
      | E_bin op l r =>
          a ← constant_value l; b ← constant_value r;
          if op_defined op a b then arith op a b else None
      end;
  if fits64 x then Some x else None.

Lemma checked_fits {S} x (s : S) : fits64 x = true -> checked x s = Done (x, s).
Proof. unfold checked. by intros ->. Qed.

(** [apply_binary] operator by operator, on absolute operands. *)
Lemma apply_absolute {C : Type} `{!ExprContext C} op a b (c : C) : apply_binary (token_of (op_lexeme op)) (absolute a) (absolute b) c =
  match op with
  | B_mul => (k ← checked (a * b); mret (absolute k)) c
  | B_div => if b =? 0 then report 0 0 (str "division by zero") failed c
      else (q ← checked (Z.quot a b); mret (absolute q)) c
  | B_mod => if b =? 0 then report 0 0 (str "division by zero") failed c
      else (q ← checked (Z.quot a b); mret (absolute (Z.rem a b))) c
  | B_shl => if (b <? 0) || (63 <? b) then report 0 0 (str "shift amount is out of range") failed c
      else Done (absolute (s64 (u64 (Z.shiftl (u64 a) b))), c)
  | B_shr => if (b <? 0) || (63 <? b) then report 0 0 (str "shift amount is out of range") failed c
      else Done (absolute (s64 (Z.shiftr (u64 a) b)), c)
  | B_and => Done (absolute (Z.land a b), c)
  | B_or => Done (absolute (Z.lor a b), c)
  | B_xor => Done (absolute (Z.lxor a b), c)
  | B_add => (k ← checked (a + b); mret (absolute k)) c
  | B_sub => (m ← checked (- b); k ← checked (a + m); mret (absolute k)) c
  end.
Proof.
  destruct op; try reflexivity; unfold apply_binary; change (is_punct "+" _) with false.
  1-4: change (is_punct "-" _) with false; change (is_absolute (absolute a)) with true;
    change (is_absolute (absolute b)) with true; cbn [negb orb constant absolute].
  - by destruct (b =? 0).
  - by destruct (b =? 0).
  - by destruct ((b <? 0) || (63 <? b)).
  - by destruct ((b <? 0) || (63 <? b)).
  - unfold negate. cbn [constant absolute]. unfold mbind, state_bind. change (is_punct "-" _) with true. cbn iota.
    unfold checked. by destruct (fits64 (- b)).
Qed.

Lemma constant_evaluates {C : Type} `{!ExprContext C} e : forall x (c : C), constant_value e = Some x ->
  eval e c = Done (absolute x, c) /\ fits64 x = true.
Proof.
  assert (Hfit : forall (o : option Z) x, (y ← o; if fits64 y then Some y else None) = Some x -> o = Some x /\ fits64 x = true).
  { intros [y|] x; [|done]. cbn. destruct (fits64 y) eqn:Hy; [|done]. by intros [= ->]. }
  induction e as [n|name| |n back|e IH|e IH|e IH|op l IHl r IHr]; intros x c Hx; cbn [constant_value] in Hx;
    apply Hfit in Hx as [Hx Hfx]; try done; cbn [eval].
  - by injection Hx as <-.
  - by apply IH.
  - destruct (constant_value e) as [a|] eqn:Ha; [|done]. cbn in Hx. injection Hx as <-. destruct (IH a c eq_refl) as [E _].
    rewrite (bind_done _ _ _ _ _ E). cbn [ok absolute]. unfold negate. cbn [constant absolute].
    by rewrite (bind_done _ _ _ _ _ (checked_fits _ c Hfx)).
  - destruct (constant_value e) as [a|] eqn:Ha; [|done]. cbn in Hx. injection Hx as <-. destruct (IH a c eq_refl) as [E _].
    by rewrite (bind_done _ _ _ _ _ E).
  - destruct (constant_value l) as [a|] eqn:Ha; [|done]. destruct (constant_value r) as [b|] eqn:Hb; [|done]. cbn [mbind option_bind] in Hx.
    destruct (IHl a c eq_refl) as [E1 Hfa], (IHr b c eq_refl) as [E2 Hfb].
    rewrite (bind_done _ _ _ _ _ E1). cbn [ok absolute negb]. rewrite (bind_done _ _ _ _ _ E2). cbn [ok absolute negb]. split; [|done].
    destruct (op_defined op a b) eqn:Hm; [|done].
    rewrite apply_absolute. destruct op; cbn [arith op_defined] in Hx, Hm.
    + injection Hx as <-. by rewrite (bind_done _ _ _ _ _ (checked_fits _ c Hfx)).
    + destruct (Z.eqb_spec b 0); [done|]. injection Hx as <-. by rewrite (bind_done _ _ _ _ _ (checked_fits _ c Hfx)).
    + destruct (Z.eqb_spec b 0); [done|]. injection Hx as <-. cbn [orb] in Hm.
      by rewrite (bind_done _ _ _ _ _ (checked_fits _ c Hm)).
    + destruct ((0 <=? b) && (b <=? 63)) eqn:Hs; [|done]. apply andb_true_iff in Hs. injection Hx as <-.
      rewrite (proj2 (Z.ltb_ge b 0)), (proj2 (Z.ltb_ge 63 b)) by lia. cbn [orb]. rewrite s64_u64, Z.shiftl_mul_pow2 by lia. done.
    + destruct ((0 <=? b) && (b <=? 63)) eqn:Hs; [|done]. apply andb_true_iff in Hs. injection Hx as <-.
      rewrite (proj2 (Z.ltb_ge b 0)), (proj2 (Z.ltb_ge 63 b)) by lia. cbn [orb]. rewrite Z.shiftr_div_pow2 by lia. done.
    + by injection Hx as <-.
    + by injection Hx as <-.
    + by injection Hx as <-.
    + injection Hx as <-. by rewrite (bind_done _ _ _ _ _ (checked_fits _ c Hfx)).
    + injection Hx as <-. rewrite <- Z.add_opp_r in Hfx |- *.
      by rewrite (bind_done _ _ _ _ _ (checked_fits _ c Hm)), (bind_done _ _ _ _ _ (checked_fits _ c Hfx)).
Qed.

Lemma constant_den names e : forall x, constant_value e = Some x -> den names e = Some x.
Proof.
  assert (Hfit : forall (o : option Z) x, (y ← o; if fits64 y then Some y else None) = Some x -> o = Some x).
  { intros [y|] x; [|done]. cbn. destruct (fits64 y); [|done]. by intros [= ->]. }
  induction e as [n|name| |n back|e IH|e IH|e IH|op l IHl r IHr]; intros x Hx; cbn [constant_value] in Hx;
    apply Hfit in Hx; try done; cbn [den].
  - by apply IH.
  - destruct (constant_value e) as [a|]; [|done]. by rewrite (IH a eq_refl).
  - destruct (constant_value e) as [a|]; [|done]. by rewrite (IH a eq_refl).
  - destruct (constant_value l) as [a|]; [|done]. destruct (constant_value r) as [b|]; [|done]. cbn [mbind option_bind] in Hx.
    rewrite (IHl a eq_refl), (IHr b eq_refl). cbn. by destruct (op_defined op a b).
Qed.

(** ** From the source text *)

Lemma render_ok e : forall lv, expr_ok e = true -> forallb lexeme_ok (render lv e) = true.
Proof.
  induction e as [n|name| |n back|e IH|e IH|e IH|op l IHl r IHr]; intros lv Hok; cbn [expr_ok] in Hok; cbn [render forallb];
    rewrite ?andb_true_r; try done; try (by apply IH).
  - by apply andb_true_iff in Hok as [H _].
  - cbn zeta. apply andb_true_iff in Hok as [Hl Hr].
    assert (Hbody : forallb lexeme_ok (render (level op) l ++ op_lexeme op :: render (level op + 1) r) = true).
    { rewrite forallb_app. cbn [forallb]. rewrite IHl, IHr by done. by destruct op. }
    destruct (_ <? _); [|done]. cbn [forallb]. rewrite forallb_app, Hbody. done.
Qed.

(** Claim C26: Expressions are read as they are written. The text of an expression with the
    fewest parentheses is parsed to the value of its tree, and the parser stops at its
    end; that value stands for the number the expression denotes, with the addresses
    of its symbols; and an expression of constants whose values fit 64 bits has its
    value whatever the context. *)
Theorem expressions_read {C : Type} `{!ExprContext C, !ExprContextPlaces C} (I : C -> Prop) (addr : SymId -> Z) (names : Names)
    `{!ExprContextMeans C I addr names} (e : Expr) (c : C) (hash : bool) (Hok : expr_ok e = true) (Hinv : I c) :
  let lx := set_hash_comments hash (new_lexer (spell_all (render 1 e))) in
  (forall v c', eval e c = Done (v, c') -> ok v = true ->
     (exists lx', parse_expression (lx, c) = Done (v, (lx', c')) /\ yields lx' []) /\
     exists x, den names e = Some x /\ denotes addr v x) /\
  (forall x, constant_value e = Some x ->
     (exists lx', parse_expression (lx, c) = Done (absolute x, (lx', c)) /\ yields lx' []) /\ den names e = Some x).
Proof.
  intros lx. assert (Hparse : forall v c', eval e c = Done (v, c') -> ok v = true ->
    exists lx', parse_expression (lx, c) = Done (v, (lx', c')) /\ yields lx' []).
  { intros v c' He Hv. destruct (lexemes_yield (render 1 e) lx (render_ok e 1 Hok) eq_refl ltac:(by left)) as (ts & Hy & Hts).
    destruct (tree_reads e Hok) as [Hb _]. rewrite <- (app_nil_r ts) in Hy.
    destruct (Hb (expression_fuel lx) 1 1 lx c ts [] v c' He Hv ltac:(lia) Hts Hy ltac:(cbn; lia)) as (lx1 & f & E & Hy1 & Hf).
    { rewrite app_nil_r. assert (Hl : length ts = length (render 1 e)) by (apply (f_equal length) in Hts; by rewrite !length_map in Hts).
      unfold expression_fuel. change (buffer lx) with ([] : list Token). change (rest (cursor lx)) with (spell_all (render 1 e)).
      assert (Hlen : forall ls, (length ls <= length (spell_all ls))%nat).
      { induction ls as [|l ls IH]; [done|]. unfold spell_all in *. cbn [map concat]. rewrite !length_app. cbn [length]. lia. }
      specialize (Hlen (render 1 e)). cbn [length]. lia. }
    destruct f as [|f]; [lia|]. destruct (loop_stops f 1 v lx1 c' [] Hy1 ltac:(by left)) as (lx2 & E2 & Hy2).
    exists lx2. split; [|done]. unfold parse_expression. erewrite bind_done by done. cbn [fst]. by rewrite E. }
  split.
  - intros v c' He Hv. split; [by apply Hparse|]. eapply eval_means; by eauto.
  - intros x Hx. destruct (constant_evaluates e x c Hx) as [He _]. split; [by apply Hparse|by apply constant_den].
Qed.

(** A context that numbers the symbols by the length of their names, up to 500, and knows that the
    symbol [kk] is 10. *)
#[export] Instance sample_context : ExprContext unit := {
  expr_symbol name := mret (Z.min (size name) 500);
  expr_here := mret 1000;
  expr_local_ref n _ _ _ := mret (2000 + n);
  expr_constant_value id := mret (if id =? 2 then Some 10 else None);
  expr_error _ _ _ c := c }.
Definition sample_address (id : SymId) : Z := 16 * id.
Definition sample_names : Names :=
  mkNames (fun name => if size name =? 2 then 10 else 16 * Z.min (size name) 500) 16000 (fun n _ => 16 * (2000 + n)).
#[export] Instance sample_places : ExprContextPlaces unit.
Proof. by intros n b l k l' k' c id c'. Qed.
#[export] Instance sample_means : ExprContextMeans unit (fun _ => True) sample_address sample_names.
Proof.
  assert (Hmax : no_sym = 4294967295) by done. split.
  - intros name c id c1 known c2 _ [= <- <-] [= <- <-]. split; [done|]. unfold sample_names, sample_address. cbn [name_value].
    replace (Z.min (size name) 500 =? 2) with (size name =? 2) by (apply eq_true_iff_eq; rewrite !Z.eqb_eq; lia).
    destruct (size name =? 2); [done|]. split; [lia|done].
  - intros c id c' _ [= <- <-]. rewrite Hmax. by split.
  - intros n b l k c id c' _ [= <- <-] _. by split.
Qed.

(** ending - begin + 2 * kk, in a context that knows kk, and (1 - 8) / 2. *)
Definition sample_difference : Expr :=
  E_bin B_add (E_bin B_sub (E_name (str "ending")) (E_name (str "begin"))) (E_bin B_mul (E_int 2) (E_name (str "kk"))).
Definition sample_constant : Expr := E_bin B_div (E_bin B_sub (E_int 1) (E_int 8)) (E_int 2).
Lemma expressions_read_witness :
  (expr_ok sample_difference = true /\ expr_ok sample_constant = true) /\
  (exists lx', parse_expression (set_hash_comments false (new_lexer (spell_all (render 1 sample_difference))), tt) =
     Done (mkExpr true 20 6 5, (lx', tt))) /\
  den sample_names sample_difference = Some 36 /\
  (exists lx', parse_expression (set_hash_comments false (new_lexer (spell_all (render 1 sample_constant))), tt) =
     Done (absolute (-3), (lx', tt))).
Proof.
  assert (H1 : expr_ok sample_difference = true) by (vm_compute; reflexivity).
  assert (H2 : expr_ok sample_constant = true) by (vm_compute; reflexivity).
  split; [split; [exact H1|exact H2]|].
  destruct (expressions_read (fun _ => True) sample_address sample_names sample_difference tt false H1 I) as [Hd _].
  destruct (expressions_read (fun _ => True) sample_address sample_names sample_constant tt false H2 I) as [_ Hc].
  destruct (Hd (mkExpr true 20 6 5) tt) as [(lx' & E & _) _]; [vm_compute; reflexivity|reflexivity|].
  destruct (Hc (-3)) as [(lx2 & E2 & _) _]; [vm_compute; reflexivity|].
  split; [exists lx'; exact E|]. split; [vm_compute; reflexivity|]. exists lx2. exact E2.
Defined.
