(* ===== verification/AsmUnit.v ===== *)
(** * What the assembler builds (src/assembler/unit.h), and how numbers are written

    A unit has sections of bytes with the places in them still to be filled: fixups,
    whose size is known, and deferred fields, whose size is not. With them, numbers in
    little-endian bytes, in LEB128, and the padding of code. *)
From S2P Require Import Prelude Vectors Outcome AsmLexer AsmExpr Mir.
Open Scope Z_scope.

(** ** Data *)

Inductive FixupKind :=
  Abs8 | Abs16 | Abs32 | Abs64 | Branch26 | Branch19 | Page21 | PageOff12 | Branch32 | PcRel32 | GotDelta32.
#[export] Instance fixup_kind_eq_dec : EqDecision FixupKind.
Proof. solve_decision. Defined.
Definition fixup_is_data (k : FixupKind) : bool := match k with Abs8 | Abs16 | Abs32 | Abs64 => true | _ => false end.
Definition fixup_width_bytes (k : FixupKind) : Z := match k with Abs8 => 1 | Abs16 => 2 | Abs32 => 4 | Abs64 => 8 | _ => 4 end.

Record PendingFixup := mkFixup {
  fx_offset : Z; fx_kind : FixupKind; fx_constant : Z; fx_pos : SymId; fx_neg : SymId; fx_flavor : SymFlavor;
  fx_access : Z; fx_extra : Z; fx_seq : Z; fx_line : Z; fx_col : Z }.

Inductive DeferredKind := Def_Uleb | Def_Sleb | Def_Align | Def_Branch.
#[export] Instance deferred_kind_eq_dec : EqDecision DeferredKind.
Proof. solve_decision. Defined.
Record DeferredBranch := mkBranch { short_opcode : Z; near_bytes : list Z; near_size : Z; rel_offset : Z; patchable : bool }.
Definition no_branch : DeferredBranch := mkBranch 0 [] 0 0 false.
Record DeferredField := mkDeferred {
  df_kind : DeferredKind; raw_offset : Z; df_constant : Z; df_pos : SymId; df_neg : SymId; df_align : Z; df_fill : Z;
  df_nop : bool; df_branch : DeferredBranch; df_line : Z; df_col : Z; df_size : Z }.

Inductive RelocKind :=
  Rel_Absolute | Rel_Subtractor | Rel_Branch26 | Rel_Page21 | Rel_PageOff12 | Rel_PointerToGot | Rel_Branch32 | Rel_PcRel32.
#[export] Instance reloc_kind_eq_dec : EqDecision RelocKind.
Proof. solve_decision. Defined.
Record RelocRecord := mkReloc {
  rl_offset : Z; rl_kind : FixupKind; rl_reloc : RelocKind; rl_flavor : SymFlavor; rl_access : Z; rl_extra : Z;
  rl_symbol : SymId; rl_section : Z }.
Record UnresolvedFixup := mkUnresolved {
  un_offset : Z; un_kind : FixupKind; un_symbol : SymId; un_addend : Z; un_flavor : SymFlavor; un_access : Z; un_extra : Z;
  un_line : Z; un_col : Z }.

Record AsmSection := mkSection {
  segname : chars; sectname : chars; sec_flags : Z; sec_align : Z; zerofill : bool; zerofill_size : Z; bytes : list Z;
  fixups : list PendingFixup; relocs : list RelocRecord; unresolved : list UnresolvedFixup; deferred : list DeferredField }.
Definition section_size (s : AsmSection) : Z := if zerofill s then zerofill_size s else size (bytes s).

Record CommonSymbol := mkCommon { cm_name : chars; cm_size : Z; cm_align : Z }.
Record AsmUnit := mkUnit { sections : list AsmSection; symbols : SymbolTable; commons : list CommonSymbol }.

(** *** Assignments of one field *)

Definition with_bytes (b : list Z) (s : AsmSection) : AsmSection :=
  mkSection (segname s) (sectname s) (sec_flags s) (sec_align s) (zerofill s) (zerofill_size s) b (fixups s) (relocs s) (unresolved s)
    (deferred s).
Definition with_zerofill_size (n : Z) (s : AsmSection) : AsmSection :=
  mkSection (segname s) (sectname s) (sec_flags s) (sec_align s) (zerofill s) n (bytes s) (fixups s) (relocs s) (unresolved s)
    (deferred s).
Definition with_align (n : Z) (s : AsmSection) : AsmSection :=
  mkSection (segname s) (sectname s) (sec_flags s) n (zerofill s) (zerofill_size s) (bytes s) (fixups s) (relocs s) (unresolved s)
    (deferred s).
Definition with_fixups (l : list PendingFixup) (s : AsmSection) : AsmSection :=
  mkSection (segname s) (sectname s) (sec_flags s) (sec_align s) (zerofill s) (zerofill_size s) (bytes s) l (relocs s) (unresolved s)
    (deferred s).
Definition with_relocs (l : list RelocRecord) (s : AsmSection) : AsmSection :=
  mkSection (segname s) (sectname s) (sec_flags s) (sec_align s) (zerofill s) (zerofill_size s) (bytes s) (fixups s) l (unresolved s)
    (deferred s).
Definition with_unresolved (l : list UnresolvedFixup) (s : AsmSection) : AsmSection :=
  mkSection (segname s) (sectname s) (sec_flags s) (sec_align s) (zerofill s) (zerofill_size s) (bytes s) (fixups s) (relocs s) l
    (deferred s).
Definition with_deferred (l : list DeferredField) (s : AsmSection) : AsmSection :=
  mkSection (segname s) (sectname s) (sec_flags s) (sec_align s) (zerofill s) (zerofill_size s) (bytes s) (fixups s) (relocs s)
    (unresolved s) l.
Definition add_bytes (b : list Z) (s : AsmSection) : AsmSection := with_bytes (bytes s ++ b) s.
Definition add_fixup (f : PendingFixup) (s : AsmSection) : AsmSection := with_fixups (fixups s ++ [f]) s.
Definition add_reloc (r : RelocRecord) (s : AsmSection) : AsmSection := with_relocs (relocs s ++ [r]) s.
Definition add_unresolved (u : UnresolvedFixup) (s : AsmSection) : AsmSection := with_unresolved (unresolved s ++ [u]) s.
Definition add_deferred (f : DeferredField) (s : AsmSection) : AsmSection := with_deferred (deferred s ++ [f]) s.

(** ** Numbers in bytes *)

(** [static_cast<uint8_t>(bits >> (8 * i))] for the bytes of a field. *)
Definition little_endian (n : nat) (bits : Z) : list Z := map (fun i => u8 (Z.shiftr bits (8 * Z.of_nat i))) (seq 0 n).
(** Writing over bytes that are there. *)
Fixpoint write_bytes (offset : Z) (new : list Z) (b : list Z) : option (list Z) :=
  match new with
  | [] => Some b
  | x :: new => b ← modify b offset (fun _ => x); write_bytes (offset + 1) new b
  end.

(** [fits_width] *)
Definition fits_width (value width_bytes : Z) : bool :=
  if 8 <=? width_bytes then true
  else (- Z.shiftl 1 (width_bytes * 8 - 1) <=? value) && (value <=? Z.shiftl 1 (width_bytes * 8) - 1).

(** The bytes of [.uleb128] and [.sleb128]. *)
Fixpoint uleb_go (fuel : nat) (bits : Z) : outcome (list Z) :=
  match fuel with
  | O => Out_of_fuel
  | S fuel =>
      let byte := u8 (Z.land bits 127) in
      let bits := Z.shiftr bits 7 in
      if bits =? 0 then Done [byte] else rest ← uleb_go fuel bits; Done (Z.lor byte 128 :: rest)
  end.
Definition uleb_bytes (value : Z) : outcome (list Z) := uleb_go 10 (u64 value).
Fixpoint sleb_go (fuel : nat) (value : Z) : outcome (list Z) :=
  match fuel with
  | O => Out_of_fuel
  | S fuel =>
      let byte := u8 (Z.land value 127) in
      let sign := negb (Z.land byte 64 =? 0) in
      let value := Z.shiftr value 7 in
      if ((value =? 0) && negb sign) || ((value =? -1) && sign) then Done [byte]
      else rest ← sleb_go fuel value; Done (Z.lor byte 128 :: rest)
  end.
(** A group for each seven bits: ten for 64 bits. *)
Definition leb_fuel (value : Z) : nat := 10 + Z.to_nat (Z.log2 (Z.abs value)).
Definition sleb_bytes (value : Z) : outcome (list Z) := sleb_go (leb_fuel value) value.

(** [leb_size], the same loops that only count. *)
Fixpoint uleb_size_go (fuel : nat) (bits : Z) : outcome Z :=
  match fuel with
  | O => Out_of_fuel
  | S fuel => let bits := Z.shiftr bits 7 in if bits =? 0 then Done 1 else n ← uleb_size_go fuel bits; Done (n + 1)
  end.
Fixpoint sleb_size_go (fuel : nat) (value : Z) : outcome Z :=
  match fuel with
  | O => Out_of_fuel
  | S fuel =>
      let byte := u8 (Z.land value 127) in
      let sign := negb (Z.land byte 64 =? 0) in
      let value := Z.shiftr value 7 in
      if ((value =? 0) && negb sign) || ((value =? -1) && sign) then Done 1 else n ← sleb_size_go fuel value; Done (n + 1)
  end.
Definition leb_size (value : Z) (is_signed : bool) : outcome Z :=
  if is_signed then sleb_size_go (leb_fuel value) value else uleb_size_go 10 (u64 value).

(** [x86_append_nop_padding] *)
Definition nops : list (list Z) :=
  [[0x90]; [0x66; 0x90]; [0x0F; 0x1F; 0x00]; [0x0F; 0x1F; 0x40; 0x00]; [0x0F; 0x1F; 0x44; 0x00; 0x00];
   [0x66; 0x0F; 0x1F; 0x44; 0x00; 0x00]; [0x0F; 0x1F; 0x80; 0x00; 0x00; 0x00; 0x00];
   [0x0F; 0x1F; 0x84; 0x00; 0x00; 0x00; 0x00; 0x00]; [0x66; 0x0F; 0x1F; 0x84; 0x00; 0x00; 0x00; 0x00; 0x00];
   [0x66; 0x2E; 0x0F; 0x1F; 0x84; 0x00; 0x00; 0x00; 0x00; 0x00]].
Fixpoint nop_padding_go (fuel : nat) (count : Z) : outcome (list Z) :=
  if count <=? 0 then Done []
  else match fuel with
  | O => Out_of_fuel
  | S fuel =>
      let length := if 10 <? count then 10 else count in
      match at_ nops (length - 1) with
      | None => Undefined_behaviour
      | Some nop => rest ← nop_padding_go fuel (count - length); Done (take (Z.to_nat length) nop ++ rest)
      end
  end.
Definition nop_padding (count : Z) : outcome (list Z) := nop_padding_go (Z.to_nat count) count.

(** ** Reading the numbers back *)

(** LEB128 as its readers have it. *)
Fixpoint uleb_decode (b : list Z) : option (Z * list Z) :=
  match b with
  | [] => None
  | x :: b => if x <? 128 then Some (x, b) else '(v, rest) ← uleb_decode b; Some (x - 128 + 128 * v, rest)
  end.
Fixpoint sleb_decode (b : list Z) : option (Z * list Z) :=
  match b with
  | [] => None
  | x :: b =>
      if x <? 128 then Some (if x <? 64 then x else x - 128, b)
      else '(v, rest) ← sleb_decode b; Some (x - 128 + 128 * v, rest)
  end.
Fixpoint little_endian_value (b : list Z) : Z := match b with [] => 0 | x :: b => x + 256 * little_endian_value b end.

Lemma low_bits v : u8 (Z.land v 127) = v mod 128.
Proof.
  change 127 with (Z.ones 7). rewrite Z.land_ones by lia. unfold uwrap. change (2 ^ 7) with 128.
  apply Z.mod_small. pose proof (Z.mod_pos_bound v 128). lia.
Qed.
(** The bits of a group of seven, by cases. *)
Definition group_ok (b : Z) : bool := (Z.lor b 128 =? b + 128) && Bool.eqb (Z.land b 64 =? 0) (b <? 64).
Lemma groups_ok : forallb (fun n => group_ok (Z.of_nat n)) (seq 0 128) = true.
Proof. by vm_compute. Qed.
Lemma group b : 0 <= b < 128 -> Z.lor b 128 = b + 128 /\ (Z.land b 64 =? 0) = (b <? 64).
Proof.
  intros Hb. pose proof groups_ok as H. rewrite forallb_forall in H. specialize (H (Z.to_nat b)).
  rewrite Z2Nat.id in H by lia. unfold group_ok in H.
  destruct (andb_true_iff (Z.lor b 128 =? b + 128) (Bool.eqb (Z.land b 64 =? 0) (b <? 64))) as [H' _].
  destruct H' as [H1 H2]; [apply H, in_seq; lia|]. apply Z.eqb_eq in H1. apply eqb_prop in H2. done.
Qed.
Lemma shift_group v : Z.shiftr v 7 = v / 128 /\ v = v mod 128 + 128 * (v / 128) /\ 0 <= v mod 128 < 128.
Proof.
  rewrite Z.shiftr_div_pow2 by lia. change (2 ^ 7) with 128. pose proof (Z.div_mod v 128). pose proof (Z.mod_pos_bound v 128).
  lia.
Qed.

Lemma uleb_go_S n v : uleb_go (S n) v =
  if v / 128 =? 0 then Done [v mod 128] else rest ← uleb_go n (v / 128); Done (v mod 128 + 128 :: rest).
Proof.
  destruct (shift_group v) as (Hs & _ & Hb). destruct (group _ Hb) as [Hor _].
  change (uleb_go (S n) v) with
    (let byte := u8 (Z.land v 127) in
     if Z.shiftr v 7 =? 0 then Done [byte] else rest ← uleb_go n (Z.shiftr v 7); Done (Z.lor byte 128 :: rest)).
  cbv zeta. by rewrite low_bits, Hs, Hor.
Qed.
Lemma uleb_size_go_S n v : uleb_size_go (S n) v = if v / 128 =? 0 then Done 1 else k ← uleb_size_go n (v / 128); Done (k + 1).
Proof.
  destruct (shift_group v) as (Hs & _ & _). rewrite <- Hs. done.
Qed.
(** The last group of a signed number. *)
Definition last_group (v : Z) : bool := ((v / 128 =? 0) && (v mod 128 <? 64)) || ((v / 128 =? -1) && negb (v mod 128 <? 64)).
Lemma sleb_go_S n v : sleb_go (S n) v =
  if last_group v then Done [v mod 128] else rest ← sleb_go n (v / 128); Done (v mod 128 + 128 :: rest).
Proof.
  destruct (shift_group v) as (Hs & _ & Hb). destruct (group _ Hb) as [Hor Hsign].
  change (sleb_go (S n) v) with
    (let byte := u8 (Z.land v 127) in
     let sign := negb (Z.land byte 64 =? 0) in
     let value := Z.shiftr v 7 in
     if ((value =? 0) && negb sign) || ((value =? -1) && sign) then Done [byte]
     else rest ← sleb_go n value; Done (Z.lor byte 128 :: rest)).
  cbv zeta. by rewrite low_bits, Hs, Hor, Hsign, negb_involutive.
Qed.
Lemma sleb_size_go_S n v : sleb_size_go (S n) v =
  if last_group v then Done 1 else k ← sleb_size_go n (v / 128); Done (k + 1).
Proof.
  destruct (shift_group v) as (Hs & _ & Hb). destruct (group _ Hb) as [_ Hsign].
  change (sleb_size_go (S n) v) with
    (let byte := u8 (Z.land v 127) in
     let sign := negb (Z.land byte 64 =? 0) in
     let value := Z.shiftr v 7 in
     if ((value =? 0) && negb sign) || ((value =? -1) && sign) then Done 1 else k ← sleb_size_go n value; Done (k + 1)).
  cbv zeta. by rewrite low_bits, Hs, Hsign, negb_involutive.
Qed.
Lemma pow_seven n : 2 ^ (7 * Z.of_nat (S n)) = 128 * 2 ^ (7 * Z.of_nat n).
Proof. replace (7 * Z.of_nat (S n)) with (7 + 7 * Z.of_nat n) by lia. by rewrite Z.pow_add_r by lia. Qed.

Lemma uleb_go_read n : forall v rest, 0 <= v < 2 ^ (7 * Z.of_nat n) -> (0 < n)%nat -> exists b,
  uleb_go n v = Done b /\ uleb_decode (b ++ rest) = Some (v, rest) /\ uleb_size_go n v = Done (size b) /\
  Forall (word 8) b /\ (length b <= n)%nat.
Proof.
  induction n as [|n IH]; intros v rest Hv Hn; [lia|]. rewrite pow_seven in Hv.
  destruct (shift_group v) as (_ & Hm & Hb). rewrite uleb_go_S, uleb_size_go_S. destruct (Z.eqb_spec (v / 128) 0) as [H0|H0].
  - exists [v mod 128]. rewrite H0 in Hm. cbn -[Z.modulo]. rewrite (proj2 (Z.ltb_lt _ _)) by lia.
    repeat split; [do 2 f_equal; lia|apply Forall_singleton; unfold word; lia|lia].
  - destruct n as [|n]; [change (2 ^ (7 * Z.of_nat 0)) with 1 in Hv; rewrite Z.div_small in H0 by lia; done|].
    destruct (IH (v / 128) rest) as (b & E1 & E2 & E3 & E4 & E5); [|lia|].
    { split; [apply Z.div_pos; lia|]. apply Z.div_lt_upper_bound; lia. }
    unfold mbind, outcome_bind. rewrite E1, E3. exists (v mod 128 + 128 :: b). cbn -[Z.modulo Z.div].
    rewrite (proj2 (Z.ltb_ge _ _)) by lia. rewrite E2. cbn -[Z.modulo Z.div].
    repeat split; [do 2 f_equal; lia|f_equal; unfold size; cbn; lia|constructor; [unfold word; lia|done]|lia].
Qed.
Lemma sleb_go_read n : forall v rest, - 2 ^ (7 * Z.of_nat n) <= 2 * v < 2 ^ (7 * Z.of_nat n) -> (0 < n)%nat -> exists b,
  sleb_go n v = Done b /\ sleb_decode (b ++ rest) = Some (v, rest) /\ sleb_size_go n v = Done (size b) /\
  Forall (word 8) b /\ (length b <= n)%nat.
Proof.
  induction n as [|n IH]; intros v rest Hv Hn; [lia|]. rewrite pow_seven in Hv.
  destruct (shift_group v) as (_ & Hm & Hb). rewrite sleb_go_S, sleb_size_go_S. destruct (last_group v) eqn:Hl.
  - exists [v mod 128]. unfold last_group in Hl. cbn -[Z.modulo]. rewrite (proj2 (Z.ltb_lt _ _)) by lia.
    repeat split; [|apply Forall_singleton; unfold word; lia|lia].
    do 2 f_equal. destruct (Z.ltb_spec (v mod 128) 64); lia.
  - destruct n as [|n].
    { exfalso. change (2 ^ (7 * Z.of_nat 0)) with 1 in Hv. unfold last_group in Hl.
      assert (v / 128 = 0 \/ v / 128 = -1) as [H|H] by lia; rewrite H in Hl, Hm; cbn -[Z.modulo Z.ltb] in Hl;
        destruct (Z.ltb_spec (v mod 128) 64); cbn in Hl; lia || done. }
    destruct (IH (v / 128) rest) as (b & E1 & E2 & E3 & E4 & E5); [|lia|].
    { rewrite pow_seven in *. lia. }
    unfold mbind, outcome_bind. rewrite E1, E3. exists (v mod 128 + 128 :: b). cbn -[Z.modulo Z.div].
    rewrite (proj2 (Z.ltb_ge _ _)) by lia. rewrite E2. cbn -[Z.modulo Z.div].
    repeat split; [do 2 f_equal; lia|f_equal; unfold size; cbn; lia|constructor; [unfold word; lia|done]|lia].
Qed.

Lemma uleb_bytes_read v rest : exists b,
  uleb_bytes v = Done b /\ uleb_decode (b ++ rest) = Some (u64 v, rest) /\ leb_size v false = Done (size b) /\
  Forall (word 8) b /\ (length b <= 10)%nat.
Proof.
  apply uleb_go_read; [|lia]. unfold uwrap. pose proof (Z.mod_pos_bound v (2 ^ 64)).
  assert (2 ^ 64 <= 2 ^ (7 * Z.of_nat 10)) by (apply Z.pow_le_mono_r; lia). lia.
Qed.
(** More fuel gives the same. *)
Lemma sleb_go_more k n : forall v b, sleb_go n v = Done b -> sleb_go (n + k) v = Done b.
Proof.
  induction n as [|n IH]; intros v b H; [done|]. cbn [Nat.add]. rewrite sleb_go_S in *. destruct (last_group v); [done|].
  unfold mbind, outcome_bind in *. destruct (sleb_go n (v / 128)) as [r| | |] eqn:E; try done. by rewrite (IH _ _ E).
Qed.
Lemma sleb_size_go_more k n : forall v b, sleb_size_go n v = Done b -> sleb_size_go (n + k) v = Done b.
Proof.
  induction n as [|n IH]; intros v b H; [done|]. cbn [Nat.add]. rewrite sleb_size_go_S in *. destruct (last_group v); [done|].
  unfold mbind, outcome_bind in *. destruct (sleb_size_go n (v / 128)) as [r| | |] eqn:E; try done. by rewrite (IH _ _ E).
Qed.
Lemma sleb_bytes_read v rest : fits64 v = true -> exists b,
  sleb_bytes v = Done b /\ sleb_decode (b ++ rest) = Some (v, rest) /\ leb_size v true = Done (size b) /\
  Forall (word 8) b /\ (length b <= 10)%nat.
Proof.
  intros Hv. unfold fits64 in Hv. ztests. assert (2 * 2 ^ 63 <= 2 ^ (7 * Z.of_nat 10)) by (by vm_compute).
  destruct (sleb_go_read 10 v rest) as (b & E1 & E2 & E3 & E4); [lia|lia|]. exists b. unfold sleb_bytes, leb_size, leb_fuel.
  by rewrite (sleb_go_more _ _ _ _ E1), (sleb_size_go_more _ _ _ _ E3).
Qed.
(** The loops end on any number. *)
Lemma sleb_bytes_any v : exists b, sleb_bytes v = Done b /\ sleb_decode b = Some (v, []) /\ leb_size v true = Done (size b).
Proof.
  destruct (sleb_go_read (leb_fuel v) v []) as (b & E1 & E2 & E3 & _); [|unfold leb_fuel; lia|exists b; by rewrite app_nil_r in E2].
  assert (2 * Z.abs v < 2 ^ (7 * Z.of_nat (leb_fuel v))); [|lia]. unfold leb_fuel. pose proof (Z.log2_nonneg (Z.abs v)).
  destruct (Z.eq_dec (Z.abs v) 0) as [->|Hz]; [by apply Z.pow_pos_nonneg; lia|].
  pose proof (Z.log2_spec (Z.abs v)) as [_ H1]; [lia|].
  apply Z.lt_le_trans with (2 ^ Z.succ (Z.succ (Z.log2 (Z.abs v)))); [rewrite Z.pow_succ_r by lia; lia|]. apply Z.pow_le_mono_r; lia.
Qed.
(** The bytes of a number, in the form that is asked for. *)
Definition leb_bytes (value : Z) (is_signed : bool) : outcome (list Z) := if is_signed then sleb_bytes value else uleb_bytes value.
Lemma leb_bytes_size v s : exists b, leb_bytes v s = Done b /\ leb_size v s = Done (size b).
Proof.
  destruct s; [destruct (sleb_bytes_any v) as (b & H1 & _ & H2)|destruct (uleb_bytes_read v []) as (b & H1 & _ & H2 & _)]; by exists b.
Qed.

(** ** Fields of a fixed width *)

Lemma length_little_endian n v : length (little_endian n v) = n.
Proof. unfold little_endian. by rewrite length_map, length_seq. Qed.
Lemma little_endian_S n v : little_endian (S n) v = v mod 256 :: little_endian n (v / 256).
Proof.
  unfold little_endian. cbn [seq map]. f_equal.
  rewrite <- seq_shift, map_map. apply map_ext. intros i. f_equal. rewrite !Z.shiftr_div_pow2 by lia.
  rewrite Zdiv_Zdiv by lia. f_equal. change 256 with (2 ^ 8). rewrite <- Z.pow_add_r by lia. f_equal. lia.
Qed.
Lemma little_endian_read n : forall v, little_endian_value (little_endian n v) = v mod 2 ^ (8 * Z.of_nat n).
Proof.
  induction n as [|n IH]; intros v; [by rewrite Z.mod_1_r|]. rewrite little_endian_S. cbn [little_endian_value]. rewrite IH.
  replace (8 * Z.of_nat (S n)) with (8 + 8 * Z.of_nat n) by lia. rewrite Z.pow_add_r by lia. change (2 ^ 8) with 256.
  rewrite Z.rem_mul_r by lia. lia.
Qed.

(** What is written takes the place of as many bytes. *)
Lemma write_bytes_spec new : forall o b, (o + length new <= length b)%nat ->
  write_bytes (Z.of_nat o) new b = Some (take o b ++ new ++ drop (o + length new) b).
Proof.
  induction new as [|x new IH]; intros o b Ho; cbn [write_bytes length] in *.
  - by rewrite Nat.add_0_r, app_nil_l, take_drop.
  - destruct (proj2 (at_is_Some b (Z.of_nat o))) as [y Hy]; [unfold size; lia|]. rewrite (modify_some _ _ _ _ Hy). cbn [mbind option_bind].
    replace (Z.of_nat o + 1) with (Z.of_nat (S o)) by lia.
    assert (put b (Z.of_nat o) x = <[o := x]> b) as ->.
    { unfold put. destruct (Z.ltb_spec (Z.of_nat o) 0); [lia|]. by rewrite Nat2Z.id. }
    rewrite IH by (rewrite length_insert; lia). f_equal.
    rewrite (take_S_r _ _ x) by (apply list_lookup_insert_eq; lia). rewrite take_insert_ge by lia.
    rewrite drop_insert_lt by lia. rewrite <- app_assoc. by replace (S o + length new)%nat with (o + S (length new))%nat by lia.
Qed.
Lemma write_bytes_run new o b : 0 <= o -> o + size new <= size b -> exists b',
  write_bytes o new b = Some b' /\ size b' = size b /\ take (length new) (drop (Z.to_nat o) b') = new /\
  forall j, j < o \/ o + size new <= j -> at_ b' j = at_ b j.
Proof.
  unfold size. intros Ho Hb. exists (take (Z.to_nat o) b ++ new ++ drop (Z.to_nat o + length new) b).
  rewrite <- (Z2Nat.id o) at 1 by lia. rewrite write_bytes_spec by lia. split; [done|].
  assert (length (take (Z.to_nat o) b) = Z.to_nat o) as Ht by (rewrite length_take; lia).
  split; [rewrite !length_app, Ht, length_drop; lia|]. split.
  - rewrite <- Ht at 1. rewrite drop_app_length. apply take_app_length.
  - intros j Hj. unfold at_. destruct (Z.ltb_spec j 0); [done|]. destruct Hj as [Hj|Hj].
    + rewrite lookup_app_l by lia. apply lookup_take_lt. lia.
    + rewrite lookup_app_r by lia. rewrite lookup_app_r by lia. rewrite Ht, lookup_drop. f_equal. lia.
Qed.

(** ** Padding *)

Lemma nop_of k : 1 <= k <= 10 -> exists nop, at_ nops (k - 1) = Some nop /\ length nop = Z.to_nat k.
Proof.
  intros Hk. destruct (proj2 (at_is_Some nops (k - 1))) as [nop Hn]; [unfold size; cbn; lia|]. exists nop. split; [done|].
  assert (forallb (fun n => match at_ nops (Z.of_nat n) with Some l => Nat.eqb (length l) (S n) | None => false end) (seq 0 10) = true)
    as H by (by vm_compute).
  rewrite forallb_forall in H. specialize (H (Z.to_nat (k - 1))). rewrite Z2Nat.id, Hn in H by lia.
  apply Nat.eqb_eq in H; [lia|]. apply in_seq. lia.
Qed.
Lemma nop_padding_go_length n : forall count, count <= Z.of_nat n -> exists b,
  nop_padding_go n count = Done b /\ length b = Z.to_nat count.
Proof.
  induction n as [|n IH]; intros count Hc; cbn [nop_padding_go]; destruct (Z.leb_spec count 0) as [H0|H0].
  1, 3: exists []; cbn; split; [done|lia]. { lia. }
  set (k := if 10 <? count then 10 else count). assert (1 <= k <= 10 /\ k <= count) as [Hk Hkc] by (subst k; zcase; lia).
  destruct (IH (count - k)) as (b & E & Hb); [lia|].
  assert (exists nop, at_ nops (k - 1) = Some nop /\ length nop = Z.to_nat k) as (nop & E1 & Hn).
  { apply nop_of. lia. }
  rewrite E1. unfold mbind, outcome_bind. rewrite E. eexists. split; [done|]. rewrite length_app, length_take, Hn, Hb. lia.
Qed.
(** The padding of code is as long as it has to be. *)
Lemma nop_padding_length count : exists b, nop_padding count = Done b /\ length b = Z.to_nat count.
Proof. apply nop_padding_go_length. lia. Qed.

(** ** The round trip *)

(** Claim C28: LEB128 loses nothing. For every 64-bit number, the loops of .uleb128 and .sleb128 end within
    ten bytes; a LEB128 reader gets the number back (.uleb128 its unsigned pattern) and stops exactly at
    the bytes that follow; the size the layout reserves is the number of bytes that are written. *)
Theorem leb_round_trip v rest : fits64 v = true ->
  (exists b, uleb_bytes v = Done b /\ uleb_decode (b ++ rest) = Some (u64 v, rest) /\ leb_size v false = Done (size b) /\
    Forall (word 8) b /\ (length b <= 10)%nat) /\
  (exists b, sleb_bytes v = Done b /\ sleb_decode (b ++ rest) = Some (v, rest) /\ leb_size v true = Done (size b) /\
    Forall (word 8) b /\ (length b <= 10)%nat).
Proof. intros Hv. split; [apply uleb_bytes_read|by apply sleb_bytes_read]. Qed.
Lemma leb_round_trip_witness :
  fits64 (-129) = true /\
  (exists b, uleb_bytes (-129) = Done b /\ uleb_decode (b ++ [7]) = Some (u64 (-129), [7]) /\ leb_size (-129) false = Done (size b) /\
    Forall (word 8) b /\ (length b <= 10)%nat) /\
  (exists b, sleb_bytes (-129) = Done b /\ sleb_decode (b ++ [7]) = Some (-129, [7]) /\ leb_size (-129) true = Done (size b) /\
    Forall (word 8) b /\ (length b <= 10)%nat).
Proof. split; [by vm_compute|]. apply (leb_round_trip (-129) [7]). by vm_compute. Defined.
