(* ===== verification/Assembler.v ===== *)
(** * The assembler (src/assembler/assembler.h, assembler.cpp, asm_options.h)

    The state of an [Assembler] next to its lexer: the unit it builds, the section it
    is in, the local labels, and the messages, which are all errors. With it, the
    operations the directives and the instruction parsers share. *)
From stdpp Require Import gmap strings.
From S2P Require Import Prelude Vectors Target Outcome AsmLexer AsmExpr Mir AsmUnit.
Open Scope Z_scope.

(** ** State *)

Record AsmOptions := mkOptions { target : TargetInfo; filename : chars; fragment_mode : bool }.
Definition asm_target_is_elf (t : TargetInfo) : bool := negb (bool_decide (os t = MACOS)).
Definition is_x86_64 (t : TargetInfo) : bool := bool_decide (arch t = X86_64).

Record LocalLabelState := mkLocal { last_def : SymId; pending_forward : list SymId }.
Definition new_local : LocalLabelState := mkLocal no_sym [].

Record Asm := mkAsm {
  options_ : AsmOptions; unit_ : AsmUnit; diagnostics_ : list chars; error_count_ : Z; current_section_ : Z;
  local_labels_ : gmap Z LocalLabelState }.
Definition with_unit (u : AsmUnit) (a : Asm) : Asm :=
  mkAsm (options_ a) u (diagnostics_ a) (error_count_ a) (current_section_ a) (local_labels_ a).
Definition with_symbols (t : SymbolTable) (a : Asm) : Asm := with_unit (mkUnit (sections (unit_ a)) t (commons (unit_ a))) a.
Definition with_sections (v : list AsmSection) (a : Asm) : Asm := with_unit (mkUnit v (symbols (unit_ a)) (commons (unit_ a))) a.
Definition add_common (c : CommonSymbol) (a : Asm) : Asm :=
  with_unit (mkUnit (sections (unit_ a)) (symbols (unit_ a)) (commons (unit_ a) ++ [c])) a.
Definition with_local (number : Z) (l : LocalLabelState) (a : Asm) : Asm :=
  mkAsm (options_ a) (unit_ a) (diagnostics_ a) (error_count_ a) (current_section_ a) (<[number := l]> (local_labels_ a)).
Definition set_current_section (id : Z) (a : Asm) : Asm :=
  mkAsm (options_ a) (unit_ a) (diagnostics_ a) (error_count_ a) id (local_labels_ a).
Definition table (a : Asm) : SymbolTable := symbols (unit_ a).

(** *** Errors *)

Definition to_string (n : Z) : chars := if n <? 0 then "-"%char :: to_digits 10 (- n) else to_digits 10 n.
Definition add_message (message : chars) (a : Asm) : Asm :=
  mkAsm (options_ a) (unit_ a) (diagnostics_ a ++ [message]) (error_count_ a + 1) (current_section_ a) (local_labels_ a).
Definition error_at (line col : Z) (message : chars) (a : Asm) : Asm :=
  add_message (filename (options_ a) ++ str ":" ++ to_string line ++ str ":" ++ to_string col ++ str ": " ++ message) a.
Definition error (t : Token) (message : chars) : M Asm unit := modify_state (error_at (tok_line t) (tok_col t) message).

(** ** Symbols *)

Definition intern_symbol (name : chars) : M Asm SymId :=
  a ← get; let '(id, t) := intern name (table a) in _ ← modify_state (with_symbols t); mret id.
Definition internal_symbol (name : chars) : M Asm SymId :=
  a ← get; let '(id, t) := make_internal name (table a) in _ ← modify_state (with_symbols t); mret id.
Definition symbol_at (id : SymId) : M Asm AsmSymbol := a ← get; must (sym (table a) id).
Definition update_symbol (id : SymId) (g : AsmSymbol -> AsmSymbol) : M Asm unit :=
  a ← get; t ← must (update_sym id g (table a)); modify_state (with_symbols t).

Definition place (state : SymState) (set : bool) (section offset seq : Z) (s : AsmSymbol) : AsmSymbol :=
  mkSymbol (sym_name s) state section offset seq (sym_value s) (global s) (weak s) (hidden s) set (referenced s) (internal s).
Definition set_constant (value : Z) (s : AsmSymbol) : AsmSymbol :=
  mkSymbol (sym_name s) Sym_Constant (sym_section s) (sym_offset s) (sym_seq s) value (global s) (weak s) (hidden s) true
    (referenced s) (internal s).
Definition set_referenced (s : AsmSymbol) : AsmSymbol :=
  mkSymbol (sym_name s) (sym_state s) (sym_section s) (sym_offset s) (sym_seq s) (sym_value s) (global s) (weak s) (hidden s)
    (from_set s) true (internal s).
Definition set_binding (g w h : bool) (s : AsmSymbol) : AsmSymbol :=
  mkSymbol (sym_name s) (sym_state s) (sym_section s) (sym_offset s) (sym_seq s) (sym_value s) (global s || g) (weak s || w)
    (hidden s || h) (from_set s) (referenced s) (internal s).

(** ** Sections *)

Definition S_ATTR_PURE_INSTRUCTIONS : Z := 0x80000000.
Definition S_ATTR_SOME_INSTRUCTIONS : Z := 0x00000400.
Definition S_CSTRING_LITERALS : Z := 0x2.
Definition has_prefix (p s : chars) : bool := bool_decide (take (length p) s = p).
Definition section_is_code (s : AsmSection) : bool :=
  if negb (bool_decide (segname s = [])) then
    negb (Z.land (sec_flags s) (Z.lor S_ATTR_PURE_INSTRUCTIONS S_ATTR_SOME_INSTRUCTIONS) =? 0)
  else has_prefix (str ".text") (sectname s).

Definition cur : M Asm AsmSection := a ← get; must (at_ (sections (unit_ a)) (current_section_ a)).
Definition update_cur (g : AsmSection -> AsmSection) : M Asm unit :=
  a ← get; v ← must (modify (sections (unit_ a)) (current_section_ a) g); modify_state (with_sections v).
Definition find_or_add_section (seg sect : chars) (flags : Z) (zero : bool) : M Asm Z :=
  a ← get;
  match list_find (fun s => segname s = seg /\ sectname s = sect) (sections (unit_ a)) with
  | Some (i, _) => mret (Z.of_nat i)
  | None =>
      _ ← modify_state (with_sections (sections (unit_ a) ++ [mkSection seg sect flags 0 zero 0 [] [] [] [] []]));
      mret (size (sections (unit_ a)))
  end.
Definition enter_section (seg sect : chars) (flags : Z) (zero : bool) : M Asm unit :=
  id ← find_or_add_section seg sect flags zero; modify_state (set_current_section id).

(** Bytes at the end of the current section; a vector of them holds less than 2^63. *)
Definition max_bytes : Z := 2 ^ 63.
Definition append_bytes (b : list Z) : M Asm unit :=
  section ← cur; if size (bytes section) + size b <? max_bytes then update_cur (add_bytes b) else overflow.
Definition check_not_zerofill (at_token : Token) : M Asm bool :=
  section ← cur;
  if zerofill section then _ ← error at_token (str "cannot emit data into a zerofill section"); mret false else mret true.
Definition unless_zerofill (at_token : Token) (m : M Asm unit) : M Asm unit :=
  good ← check_not_zerofill at_token; if (good : bool) then m else mret tt.

(** The fixup of a place in the current section, [delta] bytes on. *)
Definition push_fixup (delta : Z) (kind : FixupKind) (constant : Z) (pos neg : SymId) (flavor : SymFlavor) (access extra : Z)
    (at_token : Token) : M Asm unit :=
  section ← cur;
  update_cur (add_fixup (mkFixup (u64 (size (bytes section) + delta)) kind constant pos neg flavor access extra
    (u32 (size (deferred section))) (tok_line at_token) (tok_col at_token))).

(** ** Instructions and data *)

Definition append_inst_word (word : Z) (at_token : Token) : M Asm unit :=
  unless_zerofill at_token (append_bytes (little_endian 4 word)).
Definition append_inst_fixup (word : Z) (kind : FixupKind) (s : SymId) (addend : Z) (flavor : SymFlavor) (access_bytes : Z)
    (at_token : Token) : M Asm unit :=
  unless_zerofill at_token (_ ← push_fixup 0 kind addend s no_sym flavor access_bytes 0 at_token; append_inst_word word at_token).
Definition append_inst_bytes (b : list Z) (at_token : Token) : M Asm unit := unless_zerofill at_token (append_bytes b).
Definition append_inst_bytes_fixup (b : list Z) (kind : FixupKind) (field_offset : Z) (s : SymId) (addend : Z) (flavor : SymFlavor)
    (pcrel_extra : Z) (at_token : Token) : M Asm unit :=
  unless_zerofill at_token
    (_ ← push_fixup field_offset kind addend s no_sym flavor 0 pcrel_extra at_token; append_inst_bytes b at_token).
Definition append_branch (near : list Z) (rel : Z) (short : Z) (to : SymId) (addend : Z) (at_token : Token) : M Asm unit :=
  unless_zerofill at_token
    (if 8 <? size near then error at_token (str "branch encoding is too long")
     else
       section ← cur;
       update_cur (add_deferred (mkDeferred Def_Branch (size (bytes section)) addend to no_sym 0 0 false
         (mkBranch short near (u8 (size near)) (u8 rel) false) (tok_line at_token) (tok_col at_token) (u8 (size near))))).

Definition out_of_range (value width : Z) : chars :=
  str "value " ++ to_string value ++ str " is out of range for a " ++ to_string width ++ str "-byte field".
Definition append_data_value (kind : FixupKind) (value : ExprValue) (at_token : Token) : M Asm unit :=
  unless_zerofill at_token
    (let width := fixup_width_bytes kind in
     if is_absolute value then
       if negb (fits_width (constant value) width) then error at_token (out_of_range (constant value) width)
       else append_bytes (little_endian (Z.to_nat width) (u64 (constant value)))
     else
       _ ← push_fixup 0 kind (constant value) (pos_sym value) (neg_sym value) Plain 0 0 at_token;
       append_bytes (replicate (Z.to_nat width) 0)).
Definition append_space (count fill : Z) (at_token : Token) : M Asm unit :=
  section ← cur;
  if zerofill section then
    if negb (fill =? 0) then error at_token (str "cannot fill a zerofill section with a nonzero byte")
    else update_cur (fun s => with_zerofill_size (u64 (zerofill_size s + count)) s)
  else append_bytes (replicate (Z.to_nat count) fill).

(** The next multiple of a power of two. *)
Definition align_up (size alignment : Z) : Z := Z.land (u64 (size + alignment - 1)) (unot 64 (alignment - 1)).
Definition align_current (align_log2 fill : Z) (fill_given : bool) (limit : Z) (at_token : Token) : M Asm unit :=
  if 30 <? align_log2 then error at_token (str "alignment is out of range")
  else
    _ ← update_cur (fun s => if sec_align s <? align_log2 then with_align align_log2 s else s);
    section ← cur;
    a ← get;
    let nop_fill := negb fill_given && section_is_code section && is_x86_64 (target (options_ a)) in
    if negb (zerofill section) && negb (bool_decide (deferred section = [])) then
      if 0 <=? limit then error at_token (str "alignment limits after variable-size data are not supported")
      else
        update_cur (add_deferred (mkDeferred Def_Align (size (bytes section)) 0 no_sym no_sym align_log2 fill nop_fill no_branch
          (tok_line at_token) (tok_col at_token) 0))
    else
      let alignment := Z.shiftl 1 align_log2 in
      let filled := section_size section in
      let aligned := align_up filled alignment in
      if (0 <=? limit) && (limit <? u64 (aligned - filled)) then mret tt
      else if zerofill section then update_cur (with_zerofill_size aligned)
      else if nop_fill then b ← lift (nop_padding (u64 (aligned - size (bytes section)))); append_bytes b
      else append_bytes (replicate (Z.to_nat (aligned - size (bytes section))) fill).

(** ** Labels *)

Definition already_defined (s : AsmSymbol) : bool := negb (bool_decide (sym_state s = Sym_Undefined)) && negb (from_set s).
Definition defined_message (s : AsmSymbol) : chars := str "symbol '" ++ sym_name s ++ str "' is already defined".
Definition bind_symbol_to_location (id : SymId) (at_token : Token) : M Asm unit :=
  s ← symbol_at id;
  if already_defined s then error at_token (defined_message s)
  else
    section ← cur;
    a ← get;
    update_symbol id (place Sym_Label false (current_section_ a) (section_size section) (u32 (size (deferred section)))).

Definition define_label (name : Token) : M Asm unit := id ← intern_symbol (text name); bind_symbol_to_location id name.

Definition local_label (number : Z) : M Asm LocalLabelState := a ← get; mret (default new_local (local_labels_ a !! number)).
Fixpoint bind_all (ids : list SymId) (at_token : Token) : M Asm unit :=
  match ids with [] => mret tt | id :: ids => _ ← bind_symbol_to_location id at_token; bind_all ids at_token end.
Definition define_local_label (number : Token) : M Asm unit :=
  let value := u32 (tok_value number) in
  state ← local_label value;
  id ← internal_symbol (to_string value ++ str ":");
  _ ← bind_symbol_to_location id number;
  _ ← bind_all (pending_forward state) number;
  modify_state (with_local value (mkLocal id [])).

Definition apply_set (id : SymId) (value : ExprValue) (at_token : Token) : M Asm unit :=
  s ← symbol_at id;
  if already_defined s then error at_token (defined_message s)
  else if is_sym (neg_sym value) then
    neg ← symbol_at (neg_sym value);
    pos ← (if is_sym (pos_sym value) then symbol_at (pos_sym value) else mret neg);
    if negb (is_sym (pos_sym value)) || negb (bool_decide (sym_state pos = Sym_Label)) ||
       negb (bool_decide (sym_state neg = Sym_Label)) || negb (sym_section pos =? sym_section neg)
    then error at_token (str "'.set' value is not representable")
    else
      k ← checked (constant value + s64 (sym_offset pos));
      k ← checked (k - s64 (sym_offset neg));
      update_symbol id (set_constant k)
  else if is_sym (pos_sym value) then
    to ← symbol_at (pos_sym value);
    if negb (bool_decide (sym_state to = Sym_Label)) then
      error at_token (str "'.set' target '" ++ sym_name to ++ str "' is not defined yet")
    else
      update_symbol id (fun s =>
        place Sym_Label true (sym_section to) (u64 (sym_offset to + u64 (constant value))) (sym_seq s) s)
  else update_symbol id (set_constant (constant value)).

(** ** What expressions ask *)

Definition expr_symbol_ (name : chars) : M Asm SymId := id ← intern_symbol name; _ ← update_symbol id set_referenced; mret id.
Definition expr_here_ : M Asm SymId :=
  id ← internal_symbol (str ".");
  section ← cur;
  a ← get;
  _ ← update_symbol id (fun s => place Sym_Label (from_set s) (current_section_ a) (section_size section) (sym_seq s) s);
  mret id.
Definition expr_local_ref_ (number : Z) (back : bool) (line col : Z) : M Asm SymId :=
  state ← local_label number;
  _ ← modify_state (with_local number state);
  if back then
    if last_def state =? no_sym then
      _ ← modify_state (error_at line col (str "no preceding definition for local label '" ++ to_string number ++ str "b'"));
      mret no_sym
    else mret (last_def state)
  else
    id ← internal_symbol (to_string number ++ str "f");
    _ ← modify_state (with_local number (mkLocal (last_def state) (pending_forward state ++ [id])));
    mret id.
Definition expr_constant_value_ (id : SymId) : M Asm (option Z) :=
  s ← symbol_at id; mret (if bool_decide (sym_state s = Sym_Constant) then Some (sym_value s) else None).

#[export] Instance assembler_context : ExprContext Asm := {
  expr_symbol := expr_symbol_; expr_here := expr_here_; expr_local_ref := expr_local_ref_;
  expr_constant_value := expr_constant_value_; expr_error := error_at }.

(** ** Statements *)

Abbreviation Statement A := (M (Parsing Asm) A).

Definition skip : Statement unit := lexing skip_to_statement_end.
Definition reject {A} (t : Token) (message : chars) (result : A) : Statement A :=
  _ ← asking (error t message); _ ← skip; mret result.
Definition ends_statement (t : Token) : bool := is_kind Tok_Newline t || is_kind Tok_End t.
Definition expect_statement_end : Statement unit :=
  t ← lexing peek;
  if ends_statement t then if is_kind Tok_Newline t then _ ← lexing take_token; mret tt else mret tt
  else reject t (str "unexpected token at end of statement") tt.
Definition take_comma : Statement bool :=
  t ← lexing peek; if is_punct "," t then _ ← lexing take_token; mret true else mret false.
(** The value, if there is one, is absolute. *)
Definition parse_absolute (at_token : Token) (what_for : chars) : Statement (option Z) :=
  value ← parse_expression;
  if negb (ok value) then mret None
  else if negb (is_absolute value) then
    _ ← asking (error at_token (what_for ++ str " must be an absolute expression")); mret None
  else mret (Some (constant value)).
(** The statement is left where no value was read. *)
Definition with_absolute (at_token : Token) (what_for : chars) (k : Z -> Statement unit) : Statement unit :=
  value ← parse_absolute at_token what_for; match value with Some x => k x | None => skip end.

Definition handle_assignment (name : Token) : Statement unit :=
  value ← parse_expression;
  if negb (ok value) then skip
  else
    id ← asking (intern_symbol (text name));
    _ ← asking (apply_set id value name);
    expect_statement_end.

(** [for (;;) { item; if (!take_comma()) break; }]: an item that leaves the statement
    says so. Each round takes a comma. *)
Fixpoint comma_list_go (fuel : nat) (item : Statement bool) : Statement bool :=
  match fuel with
  | O => out_of_fuel
  | S fuel =>
      good ← item;
      if negb (good : bool) then mret false
      else more ← take_comma; if (more : bool) then comma_list_go fuel item else mret true
  end.
Definition tokens_left (s : Parsing Asm) : nat := S (length (buffer (fst s)) + length (rest (cursor (fst s)))).
Definition comma_list (item : Statement bool) : Statement unit :=
  s ← get; good ← comma_list_go (tokens_left s) item; if (good : bool) then expect_statement_end else mret tt.
