(* ===== verification/SortedTable.v ===== *)
(** * Tables sorted by name

    [std::stable_sort], [std::lower_bound] and the walk over the entries of one name, as
    the assembler's directives (directives.cpp) and the instruction tables (isa.cpp of
    the x86 and AArch64 back ends) use them. *)
From stdpp Require Import list sets strings.
From S2P Require Import Prelude Vectors Outcome.
Open Scope Z_scope.

(** The order of [std::string_view]. *)
Fixpoint string_less (s t : chars) : bool :=
  match s, t with
  | _, [] => false
  | [], _ :: _ => true
  | x :: s, y :: t => (code x <? code y) || (ceqb x y && string_less s t)
  end.

Lemma ceqb_reflects a b : reflect (a = b) (ceqb a b).
Proof. apply Ascii.eqb_spec. Qed.
Lemma string_less_irrefl s : string_less s s = false.
Proof. induction s as [|x s IH]; cbn; [done|]. rewrite IH, andb_false_r, orb_false_r. lia. Qed.
Lemma string_less_trans s : forall t u, string_less s t = true -> string_less t u = true -> string_less s u = true.
Proof.
  induction s as [|x s IH]; intros [|y t] [|z u]; cbn; try done.
  intros [H1|[H1%Is_true_true H2]%andb_true_iff]%orb_true_iff [H3|[H3 H4]%andb_true_iff]%orb_true_iff; ztests; apply orb_true_iff.
  - left. lia.
  - destruct (ceqb_reflects y z) as [->|]; [|done]. left. lia.
  - apply Is_true_true in H1. destruct (ceqb_reflects x y) as [->|]; [|done]. left. lia.
  - apply Is_true_true in H1. destruct (ceqb_reflects x y) as [->|]; [|done]. right. rewrite H3. by apply (IH t).
Qed.
Lemma string_less_total s : forall t, string_less s t = false -> string_less t s = false -> s = t.
Proof.
  induction s as [|x s IH]; intros [|y t]; cbn; try done.
  intros [H1 H2]%orb_false_iff [H3 H4]%orb_false_iff. ztests. assert (x = y) as -> by (apply code_inj; lia).
  destruct (ceqb_reflects y y); [|done]. f_equal. by apply IH.
Qed.
Lemma string_less_asym s t : string_less s t = true -> string_less t s = false.
Proof.
  intros H. destruct (string_less t s) eqn:E; [|done]. pose proof (string_less_trans _ _ _ H E) as H0. by rewrite string_less_irrefl in H0.
Qed.
(** What is not greater is not greater than more. *)
Lemma string_less_mono s t u : string_less t s = false -> string_less s u = false -> string_less t u = false.
Proof.
  intros H1 H2. destruct (string_less t u) eqn:E; [|done]. destruct (string_less u s) eqn:E'.
  - by rewrite (string_less_trans _ _ _ E E') in H1.
  - assert (s = u) as -> by (by apply string_less_total). congruence.
Qed.

Section Table.
Context {Entry : Type} (name_of : Entry -> chars).

(** [std::stable_sort]: entries of one name keep their order. *)
Fixpoint insert_sorted (e : Entry) (l : list Entry) : list Entry :=
  match l with
  | [] => [e]
  | x :: l' => if string_less (name_of e) (name_of x) then e :: l else x :: insert_sorted e l'
  end.
Definition sorted_table (l : list Entry) : list Entry := foldl (fun sorted e => insert_sorted e sorted) [] l.

Section Search.
Variable table : list Entry.
(** [std::lower_bound]: halves of the range, until it is empty. *)
Fixpoint lower_bound_go (fuel : nat) (first count : nat) (name : chars) : outcome nat :=
  match count with
  | O => Done first
  | _ =>
      match fuel with
      | O => Out_of_fuel
      | S fuel =>
          let step := Nat.div2 count in
          match table !! (first + step)%nat with
          | None => Undefined_behaviour
          | Some entry =>
              if string_less (name_of entry) name then lower_bound_go fuel (first + step + 1) (count - (step + 1)) name
              else lower_bound_go fuel first step name
          end
      end
  end.
Definition table_lower_bound (name : chars) : outcome nat := lower_bound_go (length table) 0 (length table) name.

Definition names_sorted : Prop := forall i j x y, (i <= j)%nat -> table !! i = Some x -> table !! j = Some y ->
  string_less (name_of y) (name_of x) = false.
Definition is_lower_bound (name : chars) (i : nat) : Prop := (i <= length table)%nat /\
  forall j x, table !! j = Some x -> string_less (name_of x) name = bool_decide (j < i)%nat.

Lemma lower_bound_go_exact name : names_sorted -> forall fuel first count, (count <= fuel)%nat -> (first + count <= length table)%nat ->
  (forall j x, (j < first)%nat -> table !! j = Some x -> string_less (name_of x) name = true) ->
  (forall j x, (first + count <= j)%nat -> table !! j = Some x -> string_less (name_of x) name = false) ->
  exists i, lower_bound_go fuel first count name = Done i /\ is_lower_bound name i.
Proof.
  intros Hsort. induction fuel as [|fuel IH]; intros first count Hf Hc Hlo Hhi.
  1, 2: destruct count as [|count]; [exists first; split; [done|]; split; [lia|]; intros j x Hj;
    case_bool_decide; [by eapply Hlo|eapply Hhi; [|exact Hj]; lia]|]. { lia. }
  cbn [lower_bound_go]. set (step := Nat.div2 (S count)). assert (step <= count)%nat by (subst step; apply Nat.div2_decr; lia).
  destruct (table !! (first + step)%nat) as [entry|] eqn:E; [|apply lookup_ge_None in E; lia].
  destruct (string_less (name_of entry) name) eqn:El; apply IH; try lia; try done.
  - intros j x Hj Hx. destruct (string_less (name_of x) name) eqn:Ex; [done|].
    assert (Hm : string_less (name_of entry) (name_of x) = false) by (eapply Hsort; [|exact Hx|exact E]; lia).
    by rewrite (string_less_mono _ _ _ Hm Ex) in El.
  - intros j x Hj Hx. eapply Hhi; [|exact Hx]. lia.
  - intros j x Hj Hx. eapply (string_less_mono (name_of entry)); [|done]. eapply Hsort; [|exact E|exact Hx]. lia.
Qed.
Lemma lower_bound_exact name : names_sorted -> exists i, table_lower_bound name = Done i /\ is_lower_bound name i.
Proof.
  intros H. apply lower_bound_go_exact; [done|lia|lia|lia|]. intros j x Hj Hx. apply lookup_lt_Some in Hx. lia.
Qed.
End Search.

(** The entries of a name, from the lower bound on. *)
Fixpoint take_named (name : chars) (l : list Entry) : list Entry :=
  match l with [] => [] | x :: l => if bool_decide (name_of x = name) then x :: take_named name l else [] end.
Definition named (table : list Entry) (name : chars) : outcome (list Entry) :=
  i ← table_lower_bound table name; Done (take_named name (drop i table)).
Definition has_name (name : chars) (x : Entry) : Prop := name_of x = name.
#[export] Instance has_name_dec name x : Decision (has_name name x) := ltac:(unfold has_name; apply _).

Lemma names_sorted_tail x l : names_sorted (x :: l) -> names_sorted l.
Proof. intros H i j y z Hij Hi Hj. by apply (H (S i) (S j)); [lia| |]. Qed.
Lemma names_sorted_head x l : names_sorted (x :: l) -> forall y, y ∈ l -> string_less (name_of y) (name_of x) = false.
Proof. intros H y [j Hj]%list_elem_of_lookup. by apply (H 0%nat (S j)); [lia| |]. Qed.
Lemma names_sorted_cons x l : (forall y, y ∈ l -> string_less (name_of y) (name_of x) = false) -> names_sorted l -> names_sorted (x :: l).
Proof.
  intros Hx Hl [|i] [|j] y z Hij Hi Hj; cbn in *; try lia.
  - injection Hi as ->. injection Hj as ->. apply string_less_irrefl.
  - injection Hi as ->. apply Hx. by eapply list_elem_of_lookup_2.
  - by apply (Hl i j); [lia| |].
Qed.

Lemma filter_none name l : (forall x, x ∈ l -> name_of x <> name) -> filter (has_name name) l = [].
Proof.
  induction l as [|x l IH]; intros H; [done|]. rewrite filter_cons, decide_False by (apply H; left). apply IH. intros y Hy. apply H. by right.
Qed.
Lemma take_named_none name l : (forall x, x ∈ l -> name_of x <> name) -> take_named name l = [] /\ filter (has_name name) l = [].
Proof.
  intros H. destruct l as [|x l]; [done|]. split.
  - cbn. rewrite bool_decide_false; [done|]. apply H. left.
  - by apply filter_none.
Qed.
(** In a sorted table the entries of a name are one run, from the lower bound on. *)
Lemma take_named_filter name l : names_sorted l -> (forall x, x ∈ l -> string_less (name_of x) name = false) ->
  take_named name l = filter (has_name name) l.
Proof.
  induction l as [|x l IH]; intros Hs Hl; [done|]. cbn [take_named]. rewrite filter_cons. unfold has_name at 1.
  case_bool_decide as Hx.
  - rewrite decide_True by done. f_equal. apply IH; [by eapply names_sorted_tail|]. intros y Hy. apply Hl. by right.
  - rewrite decide_False by done. symmetry. apply take_named_none. intros y Hy <-. apply Hx. apply string_less_total.
    + apply Hl. left.
    + by eapply names_sorted_head.
Qed.
Lemma named_exact table name : names_sorted table -> named table name = Done (filter (has_name name) table).
Proof.
  intros Hs. destruct (lower_bound_exact table name Hs) as (i & Hi & Hlen & Hb). unfold named. rewrite Hi. cbn. f_equal.
  rewrite <- (take_drop i table) at 2. rewrite list.filter_app.
  assert (Hpre : filter (has_name name) (take i table) = []).
  { apply filter_none. intros x [j Hj]%list_elem_of_lookup Hx. apply lookup_take_Some in Hj as [Hj Hlt].
    specialize (Hb j x Hj). rewrite bool_decide_true, Hx, string_less_irrefl in Hb by done. done. }
  rewrite Hpre. apply take_named_filter.
  - intros j k x y Hjk Hj Hk. rewrite lookup_drop in Hj, Hk. by apply (Hs (i + j) (i + k))%nat; [lia| |].
  - intros x [j Hj]%list_elem_of_lookup. rewrite lookup_drop in Hj. specialize (Hb _ _ Hj). rewrite bool_decide_false in Hb by lia. done.
Qed.

Lemma insert_sorted_elem e l x : x ∈ insert_sorted e l <-> x = e \/ x ∈ l.
Proof. induction l as [|y l IH]; cbn; [by rewrite list_elem_of_singleton, elem_of_nil; tauto|]. destruct (string_less _ _); rewrite !elem_of_cons, ?IH; tauto. Qed.
Lemma insert_sorted_sorted e l : names_sorted l -> names_sorted (insert_sorted e l).
Proof.
  induction l as [|x l IH]; intros Hs; cbn.
  - apply names_sorted_cons; [|done]. intros y Hy. by apply elem_of_nil in Hy.
  - destruct (string_less (name_of e) (name_of x)) eqn:E.
    + apply names_sorted_cons; [|done]. intros y [->|Hy]%elem_of_cons; [by apply string_less_asym|].
      apply (string_less_mono (name_of x)); [by eapply names_sorted_head|by apply string_less_asym].
    + apply names_sorted_cons; [|apply IH; by eapply names_sorted_tail]. intros y [->|Hy]%insert_sorted_elem; [done|].
      by eapply names_sorted_head.
Qed.
Lemma insert_sorted_filter name e l : names_sorted l ->
  filter (has_name name) (insert_sorted e l) = filter (has_name name) l ++ filter (has_name name) [e].
Proof.
  induction l as [|x l IH]; intros Hs; [done|]. cbn [insert_sorted]. destruct (string_less (name_of e) (name_of x)) eqn:E.
  - rewrite !filter_cons, filter_nil. destruct (decide (has_name name e)) as [He|]; [|by rewrite app_nil_r].
    assert (H0 : filter (has_name name) (x :: l) = []).
    { apply filter_none. intros y Hin Hy. unfold has_name in *. subst name. apply elem_of_cons in Hin as [->|Hin].
      - by rewrite Hy, string_less_irrefl in E.
      - pose proof (names_sorted_head _ _ Hs y Hin) as H. congruence. }
    rewrite filter_cons in H0. by rewrite H0.
  - rewrite !filter_cons, IH by (by eapply names_sorted_tail). by destruct (decide (has_name name x)).
Qed.
Lemma sorted_table_go l : forall acc, names_sorted acc -> names_sorted (foldl (fun sorted e => insert_sorted e sorted) acc l) /\
  forall name, filter (has_name name) (foldl (fun sorted e => insert_sorted e sorted) acc l) =
    filter (has_name name) acc ++ filter (has_name name) l.
Proof.
  induction l as [|e l IH]; intros acc Ha; cbn; [split; [done|]; intros; by rewrite app_nil_r|].
  destruct (IH (insert_sorted e acc)) as [H1 H2]; [by apply insert_sorted_sorted|]. split; [done|].
  intros name. rewrite H2, insert_sorted_filter, <- app_assoc by done. f_equal. rewrite filter_cons, filter_nil. by destruct (decide _).
Qed.
Lemma sorted_table_sorted l : names_sorted (sorted_table l).
Proof. apply sorted_table_go. intros i j x y _ H. by rewrite lookup_nil in H. Qed.
Lemma sorted_table_filter name l : filter (has_name name) (sorted_table l) = filter (has_name name) l.
Proof. unfold sorted_table. destruct (sorted_table_go l []) as [_ H]; [intros i j x y _ Hx; by rewrite lookup_nil in Hx|]. by rewrite H. Qed.
(** The search of a sorted copy of a table finds the entries of a name in the order of
    the table. *)
Lemma named_sorted_table l name : named (sorted_table l) name = Done (filter (has_name name) l).
Proof. rewrite named_exact by apply sorted_table_sorted. by rewrite sorted_table_filter. Qed.
End Table.
