(* ===== verification/AsmDirectives.v ===== *)
(** * Directives and statements (src/assembler/directives.cpp, the statements of
    assembler.cpp, and apply_macho_section_attribute of src/backend/common/macho.cpp)

    A statement is labels and then nothing, an assignment, a directive or an
    instruction. A directive reads its operands and changes the unit; one that finds
    an error reports it and skips the statement. The instruction parsers of the two
    targets are behind [InstructionParser], as they are behind [parse_instruction]. *)
From stdpp Require Import gmap strings.
From S2P Require Import Prelude Vectors Target Outcome AsmLexer AsmExpr Mir AsmUnit Assembler SortedTable.
Open Scope Z_scope.

(** ** Attributes of sections *)

Definition section_types : list (chars * Z) :=
  [(str "regular", 0); (str "cstring_literals", 2); (str "literal_pointers", 5); (str "coalesced", 0xB); (str "mod_init_funcs", 9);
   (str "thread_local_regular", 0x11); (str "thread_local_zerofill", 0x12); (str "thread_local_variables", 0x13)].
Definition apply_macho_section_attribute (name : chars) (flags : Z) : option Z :=
  match list_find (fun e => e.1 = name) section_types with
  | Some (_, (_, type)) => Some (Z.lor (Z.land flags (unot 32 0xFF)) type)
  | None =>
      if bool_decide (name = str "no_dead_strip") then Some (Z.lor flags 0x10000000)
      else if bool_decide (name = str "pure_instructions") then Some (Z.lor flags 0x80000000)
      else None
  end.

(** ** The directives *)

Definition is_text (t : Token) (s : chars) : bool := bool_decide (text t = s).
Definition quoted (s : chars) : chars := str "'" ++ s ++ str "'".

(** The flags, or nothing when the statement was left. *)
Fixpoint section_attributes (fuel : nat) (directive : Token) (flags : Z) : Statement (option Z) :=
  match fuel with
  | O => out_of_fuel
  | S fuel =>
      more ← take_comma;
      if negb (more : bool) then mret (Some flags)
      else
        t ← lexing peek;
        if is_kind Tok_Ident t || is_kind Tok_String t then
          attribute ← lexing take_token;
          match apply_macho_section_attribute (text attribute) flags with
          | Some flags => section_attributes fuel directive flags
          | None => reject directive (str "unknown section type or attribute " ++ quoted (text attribute)) None
          end
        else reject directive (str "expected a section type or attribute") None
  end.

(** [take_name_operand] *)
Definition take_name_operand : Statement (option chars) :=
  t ← lexing peek;
  if is_kind Tok_Ident t || is_kind Tok_String t then _ ← lexing take_token; mret (Some (text t)) else mret None.
Definition dir_section (directive : Token) : Statement unit :=
  segment ← take_name_operand;
  match segment with
  | None => reject directive (str "expected a section name after '.section'") tt
  | Some seg =>
      s ← get;
      if asm_target_is_elf (target (options_ (snd s))) then _ ← asking (enter_section [] seg 0 false); skip
      else if has_prefix (str ".") seg then reject directive (str "expected the Mach-O 'segment,section' form") tt
      else
        comma ← take_comma;
        if negb (comma : bool) then reject directive (str "expected ',' after the segment name") tt
        else
          section ← take_name_operand;
          match section with
          | None => reject directive (str "expected a section name") tt
          | Some sect =>
              s ← get;
              flags ← section_attributes (tokens_left s) directive 0;
              match flags with
              | None => mret tt
              | Some flags => _ ← asking (enter_section seg sect flags false); expect_statement_end
              end
          end
  end.

Definition code_flags : Z := Z.lor S_ATTR_PURE_INSTRUCTIONS S_ATTR_SOME_INSTRUCTIONS.
Definition enter_builtin (directive : Token) : M Asm unit :=
  a ← get;
  if asm_target_is_elf (target (options_ a)) then enter_section [] (text directive) 0 (is_text directive (str ".bss"))
  else if is_text directive (str ".text") then enter_section (str "__TEXT") (str "__text") code_flags false
  else if is_text directive (str ".data") then enter_section (str "__DATA") (str "__data") 0 false
  else if is_text directive (str ".bss") then enter_section (str "__DATA") (str "__bss") 0 true
  else if is_text directive (str ".const") then enter_section (str "__TEXT") (str "__const") 0 false
  else enter_section (str "__TEXT") (str "__cstring") S_CSTRING_LITERALS false.
Definition dir_builtin_section (directive : Token) : Statement unit := _ ← asking (enter_builtin directive); expect_statement_end.

Definition bind_as (directive : Token) (id : SymId) : M Asm unit :=
  if is_text directive (str ".weak_definition") then update_symbol id (set_binding false true false)
  else if is_text directive (str ".private_extern") then update_symbol id (set_binding true false true)
  else update_symbol id (set_binding true false false).
Definition dir_symbol_binding (directive : Token) : Statement unit :=
  comma_list (
    name ← lexing peek;
    if negb (is_kind Tok_Ident name) then
      reject name (str "expected a symbol name after " ++ quoted (text directive)) false
    else
      id ← asking (intern_symbol (text name));
      _ ← asking (bind_as directive id);
      _ ← lexing take_token;
      mret true).

(** [while ((1ll << align_log2) < amount) ++align_log2;] *)
Fixpoint log2_from (fuel : nat) (amount align_log2 : Z) : outcome Z :=
  match fuel with
  | O => Out_of_fuel
  | S fuel => if Z.shiftl 1 align_log2 <? amount then log2_from fuel amount (align_log2 + 1) else Done align_log2
  end.
Definition is_power_of_two (amount : Z) : bool := (0 <? amount) && (Z.land amount (amount - 1) =? 0).
(** The fill byte and the limit; nothing when the statement was left. *)
Definition align_limit (directive : Token) (fill : Z) (given : bool) : Statement (option (Z * bool * Z)) :=
  comma ← take_comma;
  if negb (comma : bool) then mret (Some (fill, given, -1))
  else
    limit ← parse_absolute directive (str "the alignment limit");
    match limit with Some limit => mret (Some (fill, given, limit)) | None => _ ← skip; mret None end.
Definition align_operands (directive : Token) : Statement (option (Z * bool * Z)) :=
  comma ← take_comma;
  if negb (comma : bool) then mret (Some (0, false, -1))
  else
    next ← lexing peek;
    if is_punct "," next then align_limit directive 0 false
    else
      fill ← parse_absolute directive (str "the fill byte");
      match fill with Some fill => align_limit directive (u8 fill) true | None => _ ← skip; mret None end.
Definition dir_align (directive : Token) : Statement unit :=
  with_absolute directive (str "the alignment") (fun amount =>
    operands ← align_operands directive;
    match operands with
    | None => mret tt
    | Some (fill, given, limit) =>
        if is_text directive (str ".balign") then
          if negb (is_power_of_two amount) then reject directive (str "'.balign' requires a power-of-two byte count") tt
          else
            align_log2 ← lift (log2_from (Z.to_nat (Z.log2 amount) + 2) amount 0);
            _ ← asking (align_current align_log2 fill given limit directive);
            expect_statement_end
        else if (amount <? 0) || (30 <? amount) then reject directive (str "alignment exponent is out of range") tt
        else _ ← asking (align_current amount fill given limit directive); expect_statement_end
    end).

Definition data_width_for (name : chars) : FixupKind :=
  let named s := bool_decide (name = s) in
  if named (str ".byte") then Abs8
  else if named (str ".short") || named (str ".hword") || named (str ".2byte") then Abs16
  else if named (str ".quad") || named (str ".xword") || named (str ".8byte") then Abs64
  else Abs32.
(** Four bytes for the linker to fill. *)
Definition append_got (directive : Token) (fixup : Asm -> M Asm unit) : Statement bool :=
  good ← asking (check_not_zerofill directive);
  if negb (good : bool) then _ ← skip; mret false
  else _ ← asking (a ← get; _ ← fixup a; append_bytes [0; 0; 0; 0]); mret true.
(** The addend of [name@GOTPCREL+...]. *)
Definition got_addend (directive : Token) : Statement (option Z) :=
  sign ← lexing peek;
  if is_punct "+" sign || is_punct "-" sign then
    _ ← lexing take_token;
    addend ← parse_absolute directive (str "the addend");
    match addend with
    | None => _ ← skip; mret None
    | Some k => if is_punct "-" sign then k ← checked (- k); mret (Some k) else mret (Some k)
    end
  else mret (Some 0).
Definition got_item (directive name : Token) : Statement bool :=
  suffix ← lexing peek;
  if negb (is_kind Tok_Ident suffix) || (negb (is_text suffix (str "GOT")) && negb (is_text suffix (str "GOTPCREL"))) then
    reject suffix (str "unsupported relocation suffix in a data directive") false
  else
    _ ← lexing take_token;
    if is_text suffix (str "GOTPCREL") then
      addend ← got_addend directive;
      match addend with
      | None => mret false
      | Some k =>
          append_got directive (fun _ =>
            id ← expr_symbol_ (text name); push_fixup 0 PcRel32 k id no_sym GotPcRel 0 0 directive)
      end
    else
      minus ← lexing peek;
      label ← lexing peek_second;
      if negb (is_punct "-" minus) || negb (is_kind Tok_Ident label) then
        reject minus (str "expected '- label' after '@GOT'") false
      else
        _ ← lexing take_token;
        label ← lexing take_token;
        append_got directive (fun _ =>
          pos ← expr_symbol_ (text name);
          neg ← expr_symbol_ (text label);
          push_fixup 0 GotDelta32 0 pos neg Plain 0 0 directive).
Definition data_item (directive : Token) : Statement bool :=
  let kind := data_width_for (text directive) in
  name ← lexing peek;
  at_sign ← lexing peek_second;
  if bool_decide (kind = Abs32) && (is_kind Tok_Ident name || is_kind Tok_String name) && is_punct "@" at_sign then
    name ← lexing take_token;
    _ ← lexing take_token;
    got_item directive name
  else
    value ← parse_expression;
    if negb (ok value) then _ ← skip; mret false
    else _ ← asking (append_data_value kind value directive); mret true.
Definition dir_data_value (directive : Token) : Statement unit := comma_list (data_item directive).

Definition dir_ascii (directive : Token) : Statement unit :=
  let terminate := negb (is_text directive (str ".ascii")) in
  good ← asking (check_not_zerofill directive);
  if negb (good : bool) then skip
  else
    comma_list (
      t ← lexing peek;
      if negb (is_kind Tok_String t) then reject t (str "expected a string literal") false
      else
        literal ← lexing take_token;
        _ ← asking (append_bytes (map code (text literal)));
        _ ← asking (if terminate then append_bytes [0] else mret tt);
        mret true).

(** An operand after a comma, with its default. *)
Definition optional_absolute (directive : Token) (what_for : chars) (default : Z) (k : Z -> Statement unit) : Statement unit :=
  comma ← take_comma; if (comma : bool) then with_absolute directive what_for k else k default.
Definition dir_space (directive : Token) : Statement unit :=
  with_absolute directive (str "the size") (fun count =>
    if count <? 0 then reject directive (str "the size must not be negative") tt
    else
      optional_absolute directive (str "the fill byte") 0 (fun fill =>
        _ ← asking (append_space (u64 count) (u8 fill) directive); expect_statement_end)).

(** A name and a comma. *)
Definition with_name (directive : Token) (what : chars) (k : Token -> Statement unit) : Statement unit :=
  name ← lexing peek;
  if negb (is_kind Tok_Ident name) then reject name what tt
  else
    name ← lexing take_token;
    comma ← take_comma;
    if negb (comma : bool) then reject directive (str "expected ',' after the symbol name") tt else k name.
Definition dir_comm (directive : Token) : Statement unit :=
  with_name directive (str "expected a symbol name after '.comm'") (fun name =>
    with_absolute directive (str "the common size") (fun count =>
      optional_absolute directive (str "the alignment") 0 (fun align_log2 =>
        if (count <? 0) || (align_log2 <? 0) || (15 <? align_log2) then
          reject directive (str "'.comm' size or alignment is out of range") tt
        else
          _ ← asking (modify_state (add_common (mkCommon (text name) (u64 count) (u32 align_log2)))); expect_statement_end))).

(** The symbol of [.zerofill], in the section. *)
Definition reserve (section : Z) (name : Token) (count align_log2 : Z) (directive : Token) : M Asm unit :=
  a ← get;
  _ ← modify_state (set_current_section section);
  _ ← align_current (u32 align_log2) 0 true (-1) directive;
  id ← intern_symbol (text name);
  _ ← bind_symbol_to_location id name;
  _ ← update_cur (fun s => with_zerofill_size (u64 (zerofill_size s + u64 count)) s);
  modify_state (set_current_section (current_section_ a)).
Definition zerofill_section (directive : Token) (seg sect : chars) : Statement unit :=
  id ← asking (find_or_add_section seg sect 0 true);
  section ← asking (a ← get; must (at_ (sections (unit_ a)) id));
  if negb (zerofill section) then
    reject directive (str "section " ++ quoted sect ++ str " already holds initialized data") tt
  else
    comma ← take_comma;
    if negb (comma : bool) then expect_statement_end
    else
      with_name directive (str "expected a symbol name") (fun name =>
        with_absolute directive (str "the zerofill size") (fun count =>
          optional_absolute directive (str "the alignment") 0 (fun align_log2 =>
            if (count <? 0) || (align_log2 <? 0) || (30 <? align_log2) then
              reject directive (str "'.zerofill' size or alignment is out of range") tt
            else _ ← asking (reserve id name count align_log2 directive); expect_statement_end))).
Definition dir_zerofill (directive : Token) : Statement unit :=
  let expected := reject directive (str "expected '.zerofill segment,section[,symbol,size[,align]]'") tt in
  segment ← take_name_operand;
  match segment with
  | None => expected
  | Some seg =>
      comma ← take_comma;
      if negb (comma : bool) then expected
      else
        section ← take_name_operand;
        match section with None => expected | Some sect => zerofill_section directive seg sect end
  end.

Definition dir_set (directive : Token) : Statement unit :=
  with_name directive (str "expected a symbol name after " ++ quoted (text directive)) (fun name =>
    value ← parse_expression;
    if negb (ok value) then skip
    else
      id ← asking (intern_symbol (text name));
      s ← asking (symbol_at id);
      if is_text directive (str ".equiv") && negb (bool_decide (sym_state s = Sym_Undefined)) then
        reject name (str "'.equiv' symbol " ++ quoted (text name) ++ str " is already defined") tt
      else _ ← asking (apply_set id value name); expect_statement_end).

Definition dir_org (directive : Token) : Statement unit :=
  with_absolute directive (str "the '.org' offset") (fun to =>
    optional_absolute directive (str "the fill byte") 0 (fun fill =>
      section ← asking cur;
      if (to <? 0) || (to <? section_size section) then
        reject directive (str "'.org' cannot move the location counter backwards") tt
      else _ ← asking (append_space (to - section_size section) (u8 fill) directive); expect_statement_end)).

Definition push_leb (is_signed : bool) (value : ExprValue) (directive : Token) : M Asm unit :=
  if is_absolute value then
    b ← lift (leb_bytes (constant value) is_signed); append_bytes b
  else
    section ← cur;
    update_cur (add_deferred (mkDeferred (if is_signed then Def_Sleb else Def_Uleb) (size (bytes section)) (constant value)
      (pos_sym value) (neg_sym value) 0 0 false no_branch (tok_line directive) (tok_col directive) 0)).
Definition dir_leb (directive : Token) : Statement unit :=
  good ← asking (check_not_zerofill directive);
  if negb (good : bool) then skip
  else
    let is_signed := is_text directive (str ".sleb128") in
    comma_list (
      value ← parse_expression;
      if negb (ok value) then _ ← skip; mret false
      else _ ← asking (push_leb is_signed value directive); mret true).

Definition dir_ignore_line (directive : Token) : Statement unit := skip.
Definition dir_unsupported_yet (directive : Token) : Statement unit :=
  reject directive (str "directive " ++ quoted (text directive) ++ str " is not supported yet by the integrated assembler") tt.

(** ** The table of directives *)

Inductive Directive :=
  D_Section | D_BuiltinSection | D_SymbolBinding | D_Align | D_DataValue | D_Ascii | D_Space | D_Comm | D_Zerofill | D_Set | D_Org
  | D_Leb | D_IgnoreLine | D_UnsupportedYet.
#[export] Instance directive_eq_dec : EqDecision Directive.
Proof. solve_decision. Defined.
Definition handler (d : Directive) : Token -> Statement unit :=
  match d with
  | D_Section => dir_section
  | D_BuiltinSection => dir_builtin_section
  | D_SymbolBinding => dir_symbol_binding
  | D_Align => dir_align
  | D_DataValue => dir_data_value
  | D_Ascii => dir_ascii
  | D_Space => dir_space
  | D_Comm => dir_comm
  | D_Zerofill => dir_zerofill
  | D_Set => dir_set
  | D_Org => dir_org
  | D_Leb => dir_leb
  | D_IgnoreLine => dir_ignore_line
  | D_UnsupportedYet => dir_unsupported_yet
  end.
Definition directive_table : list (chars * Directive) :=
  [(str ".2byte", D_DataValue); (str ".4byte", D_DataValue); (str ".8byte", D_DataValue); (str ".align", D_Align);
   (str ".altmacro", D_UnsupportedYet); (str ".ascii", D_Ascii); (str ".asciz", D_Ascii); (str ".balign", D_Align);
   (str ".bss", D_BuiltinSection); (str ".build_version", D_IgnoreLine); (str ".byte", D_DataValue); (str ".comm", D_Comm);
   (str ".const", D_BuiltinSection); (str ".cstring", D_BuiltinSection); (str ".data", D_BuiltinSection);
   (str ".else", D_UnsupportedYet); (str ".elseif", D_UnsupportedYet); (str ".endif", D_UnsupportedYet);
   (str ".endm", D_UnsupportedYet); (str ".endr", D_UnsupportedYet); (str ".equ", D_Set); (str ".equiv", D_Set);
   (str ".file", D_IgnoreLine); (str ".global", D_SymbolBinding); (str ".globl", D_SymbolBinding); (str ".hword", D_DataValue);
   (str ".if", D_UnsupportedYet); (str ".ifb", D_UnsupportedYet); (str ".ifc", D_UnsupportedYet);
   (str ".ifdef", D_UnsupportedYet); (str ".ifndef", D_UnsupportedYet); (str ".incbin", D_UnsupportedYet);
   (str ".include", D_UnsupportedYet); (str ".int", D_DataValue); (str ".irp", D_UnsupportedYet);
   (str ".irpc", D_UnsupportedYet); (str ".loc", D_IgnoreLine); (str ".long", D_DataValue); (str ".macro", D_UnsupportedYet);
   (str ".noaltmacro", D_UnsupportedYet); (str ".org", D_Org); (str ".p2align", D_Align);
   (str ".private_extern", D_SymbolBinding); (str ".quad", D_DataValue); (str ".rept", D_UnsupportedYet);
   (str ".section", D_Section); (str ".set", D_Set); (str ".short", D_DataValue); (str ".skip", D_Space);
   (str ".sleb128", D_Leb); (str ".space", D_Space); (str ".string", D_Ascii); (str ".subsections_via_symbols", D_IgnoreLine);
   (str ".text", D_BuiltinSection); (str ".uleb128", D_Leb); (str ".weak_definition", D_SymbolBinding);
   (str ".word", D_DataValue); (str ".xword", D_DataValue); (str ".zero", D_Space); (str ".zerofill", D_Zerofill)].

(** The name is looked up by [std::lower_bound], in a table sorted by hand. *)
Definition find_directive (name : chars) : outcome (option Directive) :=
  if (5 <? size name) && has_prefix (str ".cfi_") name then Done (Some D_IgnoreLine)
  else
    i ← table_lower_bound fst directive_table name;
    Done (match directive_table !! i with Some (n, d) => if bool_decide (n = name) then Some d else None | None => None end).

(** ** Statements *)

(** The instruction parser of the target. *)
Class InstructionParser := parse_instruction : Token -> Statement unit.

Section Statements.
Context `{!InstructionParser}.

(** Labels at the start of a statement; a round takes a name and a colon. *)
Fixpoint parse_labels (fuel : nat) : Statement unit :=
  match fuel with
  | O => out_of_fuel
  | S fuel =>
      first ← lexing peek;
      second ← lexing peek_second;
      if is_kind Tok_Ident first && negb (is_text first (str ".")) && is_punct ":" second then
        name ← lexing take_token;
        _ ← lexing take_token;
        _ ← asking (define_label name);
        parse_labels fuel
      else if is_kind Tok_Integer first && is_punct ":" second then
        number ← lexing take_token;
        _ ← lexing take_token;
        _ ← asking (define_local_label number);
        parse_labels fuel
      else mret tt
  end.

Definition parse_directive : Statement unit :=
  directive ← lexing take_token;
  found ← lift (find_directive (text directive));
  match found with
  | Some d => handler d directive
  | None => reject directive (str "unknown directive " ++ quoted (text directive)) tt
  end.

Definition parse_statement : Statement unit :=
  s ← get;
  _ ← parse_labels (tokens_left s);
  t ← lexing peek;
  if ends_statement t then if is_kind Tok_Newline t then _ ← lexing take_token; mret tt else mret tt
  else if negb (is_kind Tok_Ident t) then reject t (str "expected a directive, label, or instruction") tt
  else
    second ← lexing peek_second;
    if is_punct "=" second then
      name ← lexing take_token;
      _ ← lexing take_token;
      handle_assignment name
    else if has_prefix (str ".") (text t) then parse_directive
    else mnemonic ← lexing take_token; parse_instruction mnemonic.

Definition error_limit : Z := 20.
Fixpoint statements (fuel : nat) : Statement unit :=
  match fuel with
  | O => out_of_fuel
  | S fuel =>
      s ← get;
      if error_limit <=? error_count_ (snd s) then mret tt
      else
        t ← lexing peek;
        if is_kind Tok_End t then mret tt
        else if is_kind Tok_Newline t then _ ← lexing take_token; statements fuel
        else _ ← parse_statement; statements fuel
  end.
End Statements.

(** ** The search of the table *)

(** A search from the front. *)
Fixpoint table_lookup (t : list (chars * Directive)) (name : chars) : option Directive :=
  match t with [] => None | (n, d) :: t => if bool_decide (n = name) then Some d else table_lookup t name end.

Lemma directive_table_sorted : names_sorted fst directive_table.
Proof. replace directive_table with (sorted_table fst directive_table) by (by vm_compute). apply sorted_table_sorted. Qed.
Lemma table_lookup_some t name d : table_lookup t name = Some d -> In (name, d) t.
Proof.
  induction t as [|[n e] t IH]; cbn; [done|]. destruct (bool_decide_reflect (n = name)) as [->|]; [intros [= ->]; by left|].
  intros H. right. by apply IH.
Qed.
Lemma table_lookup_none t name i d : table_lookup t name = None -> t !! i = Some (name, d) -> False.
Proof.
  revert i. induction t as [|[n e] t IH]; intros [|i] H Hi; cbn in *; try done.
  - injection Hi as -> ->. by rewrite bool_decide_true in H by done.
  - destruct (bool_decide _); [done|]. by eapply IH.
Qed.
(** Every name of the table is found. *)
Lemma table_names_found :
  forallb (fun e => match find_directive e.1 with
                    | Done r => bool_decide (r = table_lookup directive_table e.1)
                    | _ => false
                    end) directive_table = true.
Proof. by vm_compute. Qed.
Lemma find_directive_run name : find_directive name =
  Done (if (5 <? size name) && has_prefix (str ".cfi_") name then Some D_IgnoreLine else table_lookup directive_table name).
Proof.
  destruct (table_lookup directive_table name) as [d|] eqn:E.
  - pose proof (table_lookup_some _ _ _ E) as Hin. pose proof table_names_found as H. rewrite forallb_forall in H.
    specialize (H _ Hin). cbn [fst] in H. revert H. unfold find_directive. destruct (_ && _); [done|].
    rewrite E. destruct (table_lower_bound _ _ _) as [i| | |]; unfold mbind, outcome_bind; try done. by intros ->%bool_decide_eq_true.
  - unfold find_directive. destruct (_ && _); [done|].
    destruct (lower_bound_exact fst directive_table name directive_table_sorted) as (i & Hi & _).
    rewrite Hi. unfold mbind, outcome_bind. destruct (directive_table !! i) as [[n d]|] eqn:Ei; [|done].
    destruct (bool_decide_reflect (n = name)) as [->|]; [|done]. by destruct (table_lookup_none _ _ _ _ E Ei).
Qed.
