(* ===== verification/AsmRelax.v ===== *)
(** * Fields without a size of their own (Assembler::expand_deferred_fields, assembler.cpp)

    Branches with a short form, LEB128 numbers and padding after them are left out of
    the bytes of a section until all labels are known. Then rounds over the fields of
    a section give each the size it needs for the sizes of the round before, until
    nothing changes; a branch that was lengthened stays long. The fields are then
    written where they belong, and labels and fixups behind them move. *)
From stdpp Require Import gmap strings sorting.
From S2P Require Import Prelude Vectors Target Outcome AsmLexer AsmExpr Mir AsmUnit Assembler.
Open Scope Z_scope.

(** ** Atoms

    An atom is what the linker may move on its own: the bytes from a symbol it keeps
    to the next one. *)
Definition starts_with_char (c : ascii) (s : chars) : bool := match s with [] => false | x :: _ => ceqb x c end.
Definition starts_atom (s : AsmSymbol) (elf x86 : bool) : bool :=
  if elf then false
  else if internal s || bool_decide (sym_name s = []) || starts_with_char "L" (sym_name s) then false
  else x86 || negb (starts_with_char "l" (sym_name s)).
Definition can_be_reloc_target (s : AsmSymbol) (elf : bool) : bool :=
  if internal s || bool_decide (sym_name s = []) then false
  else if elf then negb (has_prefix (str ".L") (sym_name s)) else negb (starts_with_char "L" (sym_name s)).
Definition resolves_in_place (target : AsmSymbol) (target_id target_atom fixup_atom : SymId) (elf x86 : bool) : bool :=
  if elf || (target_id =? fixup_atom) then true
  else if x86 then negb (can_be_reloc_target target elf) && (target_atom =? fixup_atom)
  else negb (starts_atom target elf x86).

Definition is_elf (a : Asm) : bool := asm_target_is_elf (target (options_ a)).
Definition is_x86 (a : Asm) : bool := is_x86_64 (target (options_ a)).
Definition is_label (s : AsmSymbol) : bool := bool_decide (sym_state s = Sym_Label).

(** A place among the bytes without their fields: an offset, and the fields before it. *)
Definition Key : Type := Z * Z.
Definition key_less (k l : Key) : bool := (k.1 <? l.1) || ((k.1 =? l.1) && (k.2 <? l.2)).
Definition RawAtom : Type := Key * SymId.
Definition atom_le (x y : RawAtom) : Prop := key_less y.1 x.1 = false /\ (x.1 = y.1 -> x.2 <= y.2).
#[export] Instance atom_le_dec x y : Decision (atom_le x y) := ltac:(unfold atom_le; apply _).
Definition raw_atoms (a : Asm) (section : Z) : list RawAtom :=
  merge_sort atom_le (omap (fun '(i, s) =>
    if is_label s && (sym_section s =? section) && starts_atom s (is_elf a) (is_x86 a) then
      Some ((sym_offset s, sym_seq s), Z.of_nat i)
    else None) (imap pair (symbols_ (table a)))).
Fixpoint atom_before (atoms : list RawAtom) (k : Key) (atom : SymId) : SymId :=
  match atoms with
  | [] => atom
  | (key, id) :: atoms => if key_less k key then atom else atom_before atoms k id
  end.
Definition enclosing_atom (atoms : list RawAtom) (offset seq : Z) : SymId := atom_before atoms (offset, seq) no_sym.

(** ** Branches *)

Definition with_size (n : Z) (f : DeferredField) : DeferredField :=
  mkDeferred (df_kind f) (raw_offset f) (df_constant f) (df_pos f) (df_neg f) (df_align f) (df_fill f) (df_nop f) (df_branch f)
    (df_line f) (df_col f) n.
Definition with_patchable (b : bool) (f : DeferredField) : DeferredField :=
  let br := df_branch f in
  mkDeferred (df_kind f) (raw_offset f) (df_constant f) (df_pos f) (df_neg f) (df_align f) (df_fill f) (df_nop f)
    (mkBranch (short_opcode br) (near_bytes br) (near_size br) (rel_offset br) b) (df_line f) (df_col f) (df_size f).
(** The first size of a branch, and whether its target can be filled in here. *)
Definition start_branch (section : Z) (atoms : list RawAtom) (i : nat) (f : DeferredField) : M Asm DeferredField :=
  if negb (bool_decide (df_kind f = Def_Branch)) then mret f
  else
    a ← get;
    to ← symbol_at (df_pos f);
    let same_section := is_label to && (sym_section to =? section) in
    let patch := same_section &&
      resolves_in_place to (df_pos f) (enclosing_atom atoms (sym_offset to) (sym_seq to))
        (enclosing_atom atoms (raw_offset f) (u32 (Z.of_nat i))) (is_elf a) (is_x86 a) in
    let near := near_size (df_branch f) in
    mret (with_size (if patch && negb (short_opcode (df_branch f) =? 0) then 2 else near) (with_patchable patch f)).

(** A loop over a vector that replaces its elements. *)
Fixpoint each_go {S A B} (i : nat) (g : nat -> A -> M S B) (l : list A) : M S (list B) :=
  match l with [] => mret [] | x :: l => y ← g i x; r ← each_go (Datatypes.S i) g l; mret (y :: r) end.
Definition each {S A B} (g : nat -> A -> M S B) (l : list A) : M S (list B) := each_go 0 g l.

(** ** Places *)

Fixpoint prefix_from (total : Z) (fields : list DeferredField) : list Z :=
  match fields with [] => [total] | f :: fields => total :: prefix_from (u64 (total + df_size f)) fields end.
(** [recompute_prefix]: the bytes of the fields before each. *)
Definition prefixes (fields : list DeferredField) : list Z := prefix_from 0 fields.

(** [symbol_final]: where a symbol will be, and its section. *)
Definition symbol_final (section : Z) (prefix : list Z) (id : SymId) : M Asm (option (Z * Z)) :=
  a ← get;
  s ← symbol_at id;
  match sym_state s with
  | Sym_Constant => mret (Some (sym_value s, -1))
  | Sym_Undefined => mret None
  | Sym_Label =>
      if sym_section s =? section then
        before ← must (at_ prefix (Z.min (sym_seq s) (size prefix - 1)));
        mret (Some (s64 (sym_offset s + before), sym_section s))
      else
        other ← must (at_ (sections (unit_ a)) (sym_section s));
        if bool_decide (deferred other = []) then mret (Some (s64 (sym_offset s), sym_section s)) else mret None
  end.
(** A symbol of a value, if it has one. *)
Definition term_final (section : Z) (prefix : list Z) (id : SymId) : M Asm (option (Z * Z)) :=
  if is_sym id then symbol_final section prefix id else mret (Some (0, -1)).
Definition leb_value (section : Z) (prefix : list Z) (f : DeferredField) : M Asm (option Z) :=
  pos ← term_final section prefix (df_pos f);
  match pos with
  | None => mret None
  | Some (p, pos_section) =>
      value ← checked (df_constant f + p);
      neg ← term_final section prefix (df_neg f);
      match neg with
      | None => mret None
      | Some (n, neg_section) =>
          value ← checked (value - n);
          mret (if pos_section =? neg_section then Some value else None)
      end
  end.
(** The distance from the end of a branch of a size to its target. *)
Definition displacement (to constant here size : Z) : M Asm Z :=
  t ← checked (to + constant); h ← checked (here + size); checked (t - h).

(** ** Sizes *)

Definition is_leb (f : DeferredField) : bool := bool_decide (df_kind f = Def_Uleb) || bool_decide (df_kind f = Def_Sleb).
Definition is_sleb (f : DeferredField) : bool := bool_decide (df_kind f = Def_Sleb).
(** The bytes to the next multiple. *)
Definition align_gap (align_log2 position : Z) : Z :=
  let alignment := Z.shiftl 1 align_log2 in
  u32 (Z.land (u64 (alignment - Z.land position (alignment - 1))) (alignment - 1)).

(** The size a field needs, if it can be known. *)
Definition needed_size (section : Z) (prefix : list Z) (i : nat) (f : DeferredField) : M Asm (option Z) :=
  before ← must (at_ prefix (Z.of_nat i));
  match df_kind f with
  | Def_Align => mret (Some (align_gap (df_align f) (u64 (raw_offset f + before))))
  | Def_Branch =>
      let near := near_size (df_branch f) in
      if near <=? df_size f then mret (Some near)
      else
        to ← symbol_final section prefix (df_pos f);
        match to with
        | None => mret (Some near)
        | Some (to, _) =>
            delta ← displacement to (df_constant f) (s64 (u64 (raw_offset f + before))) 2;
            mret (Some (if (-128 <=? delta) && (delta <=? 127) then 2 else near))
        end
  | _ =>
      value ← leb_value section prefix f;
      match value with
      | None => mret None
      | Some v => n ← lift (leb_size v (is_sleb f)); mret (Some n)
      end
  end.
Definition resize (section : Z) (prefix : list Z) (i : nat) (f : DeferredField) : M Asm (DeferredField * bool) :=
  n ← needed_size section prefix i f;
  match n with
  | Some n => mret (with_size n f, true)
  | None =>
      _ ← modify_state (error_at (df_line f) (df_col f) (str "leb128 value does not resolve within its section"));
      mret (with_size 1 f, false)
  end.

(** The rounds; what they leave, whether every value was known, and whether nothing
    changed in the last. *)
Fixpoint settle (rounds : nat) (section : Z) (fields : list DeferredField) : M Asm (list DeferredField * bool * bool) :=
  match rounds with
  | O => mret (fields, true, false)
  | S rounds =>
      resized ← each (resize section (prefixes fields)) fields;
      let next := map fst resized in
      let resolved := forallb snd resized in
      if negb resolved || bool_decide (map df_size next = map df_size fields) then mret (next, resolved, true)
      else settle rounds section next
  end.
Definition iteration_limit (fields : list DeferredField) : nat := length fields * 2 + 8.

(** ** Writing the fields *)

Record Expansion := mkExpansion {
  expanded : list Z; raw_cursor : Z; branch_relocs : list RelocRecord; branch_unresolved : list UnresolvedFixup }.
Definition append_expanded (b : list Z) (e : Expansion) : M Asm Expansion :=
  if size (expanded e) + size b <? max_bytes then
    mret (mkExpansion (expanded e ++ b) (raw_cursor e) (branch_relocs e) (branch_unresolved e))
  else overflow.
Definition append_reloc (r : RelocRecord) (e : Expansion) : Expansion :=
  mkExpansion (expanded e) (raw_cursor e) (branch_relocs e ++ [r]) (branch_unresolved e).
Definition append_unresolved (u : UnresolvedFixup) (e : Expansion) : Expansion :=
  mkExpansion (expanded e) (raw_cursor e) (branch_relocs e) (branch_unresolved e ++ [u]).
(** The bytes between two positions. *)
Definition between_bytes (b : list Z) (from to : Z) : option (list Z) :=
  if (0 <=? from) && (from <=? to) && (to <=? size b) then
    Some (take (Z.to_nat (to - from)) (drop (Z.to_nat from) b))
  else None.
(** The long form of a branch with its displacement. *)
Definition near_branch (f : DeferredField) (value : Z) (e : Expansion) : M Asm Expansion :=
  let br := df_branch f in
  e ← append_expanded (near_bytes br) e;
  b ← must (write_bytes (size (expanded e) - near_size br + rel_offset br) (little_endian 4 (u64 value)) (expanded e));
  mret (mkExpansion b (raw_cursor e) (branch_relocs e) (branch_unresolved e)).

Definition branch_reloc (offset : Z) (s : SymId) : RelocRecord := mkReloc offset Branch32 Rel_Branch32 Plain 0 0 s (-1).
(** A branch that the linker fills in. *)
Definition expand_far (section : Z) (prefix : list Z) (atoms : list RawAtom) (here : Z) (f : DeferredField) (e : Expansion) :
    M Asm Expansion :=
  a ← get;
  let fail message (e : Expansion) := _ ← modify_state (error_at (df_line f) (df_col f) message); mret e in
  let field_offset := u64 (here + rel_offset (df_branch f)) in
  let e0 := e in
  e ← near_branch f (df_constant f) e0;
  to ← symbol_at (df_pos f);
  let undefined_target := bool_decide (sym_state to = Sym_Undefined) in
  if fragment_mode (options_ a) && undefined_target then
    mret (append_unresolved (mkUnresolved field_offset Branch32 (df_pos f) (df_constant f) Plain 0 0 (df_line f) (df_col f)) e)
  else if undefined_target && internal to then fail (str "undefined local label '" ++ sym_name to ++ str "'") e
  else if bool_decide (sym_state to = Sym_Constant) then
    fail (str "branch target '" ++ sym_name to ++ str "' is not addressable by a relocation") e
  else if is_label to && negb (can_be_reloc_target to (is_elf a)) then
    let atom := enclosing_atom atoms (sym_offset to) (sym_seq to) in
    let no_atom := fail (str "branch target '" ++ sym_name to ++ str "' has no addressable atom symbol") e in
    if atom =? no_sym then no_atom
    else
      label ← symbol_final section prefix (df_pos f);
      match label with
      | None => no_atom
      | Some (label_position, _) =>
          start ← symbol_final section prefix atom;
          match start with
          | None => no_atom
          | Some (atom_position, _) =>
              k ← checked (df_constant f + label_position);
              addend ← checked (k - atom_position);
              e ← near_branch f addend e0;
              mret (append_reloc (branch_reloc field_offset atom) e)
          end
      end
  else mret (append_reloc (branch_reloc field_offset (df_pos f)) e).

Definition expand_branch (section : Z) (prefix : list Z) (atoms : list RawAtom) (here : Z) (f : DeferredField) (e : Expansion) :
    M Asm Expansion :=
  if patchable (df_branch f) then
    to ← symbol_final section prefix (df_pos f);
    t ← checked (default 0 (fst <$> to) + df_constant f);
    delta ← checked (t - s64 (here + df_size f));
    if df_size f =? 2 then append_expanded [short_opcode (df_branch f); u8 delta] e
    else near_branch f delta e
  else expand_far section prefix atoms here f e.

Definition expand_field (section : Z) (raw : list Z) (prefix : list Z) (atoms : list RawAtom) (i : nat) (f : DeferredField)
    (e : Expansion) : M Asm Expansion :=
  gap ← must (between_bytes raw (raw_cursor e) (raw_offset f));
  e ← append_expanded gap e;
  let e := mkExpansion (expanded e) (raw_offset f) (branch_relocs e) (branch_unresolved e) in
  before ← must (at_ prefix (Z.of_nat i));
  match df_kind f with
  | Def_Align =>
      b ← (if df_nop f then lift (nop_padding (df_size f)) else mret (replicate (Z.to_nat (df_size f)) (df_fill f)));
      append_expanded b e
  | Def_Branch => expand_branch section prefix atoms (u64 (raw_offset f + before)) f e
  | _ =>
      value ← leb_value section prefix f;
      b ← lift (leb_bytes (default 0 value) (is_sleb f));
      append_expanded b e
  end.
Fixpoint expand_fields (section : Z) (raw prefix : list Z) (atoms : list RawAtom) (i : nat) (fields : list DeferredField)
    (e : Expansion) : M Asm Expansion :=
  match fields with
  | [] => gap ← must (between_bytes raw (raw_cursor e) (size raw)); append_expanded gap e
  | f :: fields =>
      e ← expand_field section raw prefix atoms i f e; expand_fields section raw prefix atoms (S i) fields e
  end.

(** ** Moving what is behind the fields *)

Definition shift (prefix : list Z) (seq : Z) : option Z := at_ prefix (Z.min seq (size prefix - 1)).
Definition move_symbol (section : Z) (prefix : list Z) (s : AsmSymbol) : option AsmSymbol :=
  if is_label s && (sym_section s =? section) then
    d ← shift prefix (sym_seq s);
    Some (place Sym_Label (from_set s) (sym_section s) (u64 (sym_offset s + d)) (sym_seq s) s)
  else Some s.
Definition move_fixup (prefix : list Z) (f : PendingFixup) : option PendingFixup :=
  d ← shift prefix (fx_seq f);
  Some (mkFixup (u64 (fx_offset f + d)) (fx_kind f) (fx_constant f) (fx_pos f) (fx_neg f) (fx_flavor f) (fx_access f) (fx_extra f)
    (fx_seq f) (fx_line f) (fx_col f)).
Definition update_section (section : Z) (g : AsmSection -> AsmSection) : M Asm unit :=
  a ← get; v ← must (modify (sections (unit_ a)) section g); modify_state (with_sections v).
Definition finish_expansion (section : Z) (prefix : list Z) (e : Expansion) : M Asm unit :=
  a ← get;
  moved ← must (mapM (move_symbol section prefix) (symbols_ (table a)));
  _ ← modify_state (with_symbols (mkSymbols (index_ (table a)) moved));
  s ← must (at_ (sections (unit_ a)) section);
  fixed ← must (mapM (move_fixup prefix) (fixups s));
  update_section section (fun s =>
    mkSection (segname s) (sectname s) (sec_flags s) (sec_align s) (zerofill s) (zerofill_size s) (expanded e) fixed
      (relocs s ++ branch_relocs e) (unresolved s ++ branch_unresolved e) []).

Definition expand_section (section : Z) : M Asm unit :=
  a ← get;
  s ← must (at_ (sections (unit_ a)) section);
  if bool_decide (deferred s = []) then mret tt
  else
    let atoms := raw_atoms a section in
    fields ← each (start_branch section atoms) (deferred s);
    settled ← settle (iteration_limit fields) section fields;
    let '(fields, resolved, converged) := settled in
    _ ← update_section section (with_deferred fields);
    if negb resolved then mret tt
    else if negb converged then
      match fields with
      | f :: _ =>
          modify_state (error_at (df_line f) (df_col f)
            (str "variable-size data in this section did not converge to a stable layout"))
      | [] => mret tt
      end
    else
      let prefix := prefixes fields in
      e ← expand_fields section (bytes s) prefix atoms 0 fields (mkExpansion [] 0 [] []);
      finish_expansion section prefix e.

Fixpoint expand_from (section : Z) (count : nat) : M Asm unit :=
  match count with O => mret tt | S count => _ ← expand_section section; expand_from (section + 1) count end.
Definition expand_deferred_fields : M Asm unit := a ← get; expand_from 0 (length (sections (unit_ a))).
