(* ===== verification/AsmFinish.v ===== *)
(** * Fixups and the whole run (the rest of assembler.cpp, fragment.cpp, and the
    branches of src/backend/aarch64/encode.cpp)

    When the bytes of the sections are in place, each fixup is filled in, or becomes
    a relocation, or, in a fragment, is left to the caller. *)
From stdpp Require Import gmap strings sorting.
From S2P Require Import Prelude Vectors Target Outcome AsmLexer AsmExpr Mir AsmUnit Assembler AsmDirectives AsmRelax.
Open Scope Z_scope.

(** ** Symbols, resolved *)

Inductive ResolvedSym := R_Absolute (value : Z) | R_InSection (section offset : Z) | R_External | R_Failed.
Definition resolve (id : SymId) (f : PendingFixup) : M Asm ResolvedSym :=
  s ← symbol_at id;
  match sym_state s with
  | Sym_Constant => mret (R_Absolute (sym_value s))
  | Sym_Label => mret (R_InSection (sym_section s) (sym_offset s))
  | Sym_Undefined =>
      if internal s then
        _ ← modify_state (error_at (fx_line f) (fx_col f) (str "undefined local label '" ++ sym_name s ++ str "'"));
        mret R_Failed
      else mret R_External
  end.

(** [AtomMap]: the starts of the atoms of each section, in order. *)
Definition AtomMap : Type := list (list (Z * SymId)).
Definition start_le (x y : Z * SymId) : Prop := x.1 < y.1 \/ (x.1 = y.1 /\ x.2 <= y.2).
#[export] Instance start_le_dec x y : Decision (start_le x y) := ltac:(unfold start_le; apply _).
Fixpoint add_atoms (elf x86 : bool) (id : SymId) (l : list AsmSymbol) (starts : AtomMap) : option AtomMap :=
  match l with
  | [] => Some starts
  | s :: l =>
      if is_label s && starts_atom s elf x86 then
        starts ← modify starts (sym_section s) (fun v => v ++ [(sym_offset s, id)]); add_atoms elf x86 (id + 1) l starts
      else add_atoms elf x86 (id + 1) l starts
  end.
Definition atom_map (a : Asm) : option AtomMap :=
  starts ← add_atoms (is_elf a) (is_x86 a) 0 (symbols_ (table a)) (replicate (length (sections (unit_ a))) []);
  Some (map (merge_sort start_le) starts).
Fixpoint atom_from (atoms : list (Z * SymId)) (offset : Z) (found : SymId * Z) : SymId * Z :=
  match atoms with
  | [] => found
  | (start, id) :: atoms => if offset <? start then found else atom_from atoms offset (id, start)
  end.
(** The atom of a place and the distance from its start. *)
Definition atom_at (atoms : AtomMap) (section offset : Z) : option (SymId * Z) :=
  v ← at_ atoms section; let '(id, start) := atom_from v offset (no_sym, 0) in Some (id, s64 (offset - start)).

(** ** Filling in *)

Definition patch_branch26 (word byte_displacement : Z) : Z :=
  Z.lor (Z.land word 0xFC000000) (Z.land (u32 (Z.quot byte_displacement 4)) 0x03FFFFFF).
Definition patch_branch19 (word byte_displacement : Z) : Z :=
  Z.lor (Z.land word (unot 32 (Z.shiftl 0x0007FFFF 5))) (u32 (Z.shiftl (Z.land (u32 (Z.quot byte_displacement 4)) 0x0007FFFF) 5)).

(** The bytes of the field of a fixup, in its section. *)
Definition patch_bytes (section offset : Z) (b : list Z) : M Asm unit :=
  a ← get;
  s ← must (at_ (sections (unit_ a)) section);
  b ← must (write_bytes offset b (bytes s));
  update_section section (with_bytes b).
Definition read_inst_word (section offset : Z) : M Asm Z :=
  a ← get;
  s ← must (at_ (sections (unit_ a)) section);
  b0 ← must (at_ (bytes s) offset);
  b1 ← must (at_ (bytes s) (offset + 1));
  b2 ← must (at_ (bytes s) (offset + 2));
  b3 ← must (at_ (bytes s) (offset + 3));
  mret (u32 (Z.lor (Z.lor (Z.lor b0 (Z.shiftl b1 8)) (Z.shiftl b2 16)) (Z.shiftl b3 24))).
Definition fixup_error (f : PendingFixup) (message : chars) : M Asm unit :=
  modify_state (error_at (fx_line f) (fx_col f) message).
Definition patch_absolute (section : Z) (f : PendingFixup) (value : Z) : M Asm bool :=
  let width := fixup_width_bytes (fx_kind f) in
  if negb (fits_width value width) then _ ← fixup_error f (out_of_range value width); mret false
  else _ ← patch_bytes section (fx_offset f) (little_endian (Z.to_nat width) (u64 value)); mret true.

Definition push_reloc (section : Z) (r : RelocRecord) : M Asm unit := update_section section (add_reloc r).
Definition leave_unresolved (section : Z) (f : PendingFixup) (access extra : Z) : M Asm unit :=
  update_section section (add_unresolved
    (mkUnresolved (fx_offset f) (fx_kind f) (fx_pos f) (fx_constant f) (fx_flavor f) access extra (fx_line f) (fx_col f))).
(** A fragment leaves a symbol it does not define to its caller. *)
Definition left_open (f : PendingFixup) : M Asm bool :=
  a ← get;
  if fragment_mode (options_ a) && is_sym (fx_pos f) then
    s ← symbol_at (fx_pos f); mret (bool_decide (sym_state s = Sym_Undefined))
  else mret false.

Section Fixups.
Variable atoms : AtomMap.
Variable section : Z.

Definition in_place (f : PendingFixup) (pos_section pos_offset : Z) : M Asm bool :=
  a ← get;
  to ← symbol_at (fx_pos f);
  target_atom ← must (atom_at atoms pos_section pos_offset);
  fixup_atom ← must (atom_at atoms section (fx_offset f));
  mret (resolves_in_place to (fx_pos f) target_atom.1 fixup_atom.1 (is_elf a) (is_x86 a)).
(** [name@GOT - label] *)
Definition finalize_got (f : PendingFixup) : M Asm unit :=
  neg ← resolve (fx_neg f) f;
  match neg with
  | R_Failed => mret tt
  | R_InSection neg_section neg_offset =>
      if negb (neg_section =? section) then fixup_error f (str "'@GOT - label' requires a label in the same section")
      else
        _ ← patch_bytes section (fx_offset f) (little_endian 4 (u32 (0 - neg_offset)));
        push_reloc section (mkReloc (fx_offset f) (fx_kind f) Rel_PointerToGot Plain 0 0 (fx_pos f) (-1))
  | _ => fixup_error f (str "'@GOT - label' requires a label in the same section")
  end.

(** The symbol or section a relocation names, and what is added to it; nothing
    after an error. *)
Definition pcrel_target (f : PendingFixup) (pos : ResolvedSym) (hole : Z) : M Asm (SymId * Z * Z) :=
  a ← get;
  match pos with
  | R_InSection pos_section pos_offset =>
      to ← symbol_at (fx_pos f);
      if can_be_reloc_target to (is_elf a) then mret (fx_pos f, -1, hole)
      else
        atom ← must (atom_at atoms pos_section pos_offset);
        let '(id, delta) := atom in
        if is_sym id then hole ← checked (hole + delta); mret (id, -1, hole)
        else
          d ← checked (s64 pos_offset - s64 (fx_offset f + 4 + fx_extra f));
          hole ← checked (hole + d);
          mret (no_sym, pos_section, hole)
  | _ => mret (fx_pos f, -1, hole)
  end.
(** A 32-bit displacement. *)
Definition finalize_pcrel (f : PendingFixup) : M Asm unit :=
  open ← left_open f;
  if open : bool then leave_unresolved section f 0 (fx_extra f)
  else
    pos ← resolve (fx_pos f) f;
    match pos with
    | R_Failed => mret tt
    | R_Absolute _ => fixup_error f (str "instruction target must be a label or symbol")
    | _ =>
        let indirect := bool_decide (fx_flavor f = GotPcRel) || bool_decide (fx_flavor f = TlvPcRel) in
        done ← match pos with
               | R_InSection pos_section pos_offset =>
                   if negb indirect && (pos_section =? section) then
                     patchable ← in_place f pos_section pos_offset;
                     if patchable : bool then
                       t ← checked (s64 pos_offset + fx_constant f);
                       delta ← checked (t - s64 (fx_offset f + 4 + fx_extra f));
                       _ ← patch_bytes section (fx_offset f) (little_endian 4 (u64 delta));
                       mret true
                     else mret false
                   else mret false
               | _ => mret false
               end;
        if done : bool then mret tt
        else
          hole ← checked (fx_constant f - fx_extra f);
          target ← pcrel_target f pos hole;
          let '(id, in_section, hole) := target in
          _ ← patch_bytes section (fx_offset f) (little_endian 4 (u64 hole));
          push_reloc section
            (mkReloc (fx_offset f) (fx_kind f) (if bool_decide (fx_kind f = Branch32) then Rel_Branch32 else Rel_PcRel32)
               (fx_flavor f) 0 (fx_extra f) id in_section)
    end.

(** A field of an instruction of AArch64. *)
Definition inst_reloc_kind (k : FixupKind) : RelocKind :=
  match k with Branch26 => Rel_Branch26 | Page21 => Rel_Page21 | _ => Rel_PageOff12 end.
Definition inst_reloc (f : PendingFixup) (pos : ResolvedSym) : M Asm unit :=
  let push id := push_reloc section
    (mkReloc (fx_offset f) (fx_kind f) (inst_reloc_kind (fx_kind f)) (fx_flavor f) (fx_access f) 0 id (-1)) in
  if bool_decide (fx_kind f = Branch19) then
    fixup_error f (str "conditional branch target is outside the instruction's atom")
  else
    match pos with
    | R_InSection pos_section pos_offset =>
        a ← get;
        to ← symbol_at (fx_pos f);
        if can_be_reloc_target to (is_elf a) then push (fx_pos f)
        else
          atom ← must (atom_at atoms pos_section pos_offset);
          let '(id, delta) := atom in
          if negb (is_sym id) || negb (delta =? 0) then fixup_error f (str "instruction target has no addressable atom symbol")
          else push id
    | _ => push (fx_pos f)
    end.
Definition finalize_inst (f : PendingFixup) : M Asm unit :=
  open ← left_open f;
  if open : bool then leave_unresolved section f (fx_access f) 0
  else
    pos ← resolve (fx_pos f) f;
    match pos with
    | R_Failed => mret tt
    | R_Absolute _ => fixup_error f (str "instruction target must be a label or symbol")
    | _ =>
        if negb (fx_constant f =? 0) then fixup_error f (str "addends on instruction relocations are not supported yet")
        else
          done ← match pos with
                 | R_InSection pos_section pos_offset =>
                     if (bool_decide (fx_kind f = Branch26) || bool_decide (fx_kind f = Branch19)) && (pos_section =? section) then
                       patchable ← in_place f pos_section pos_offset;
                       if patchable : bool then
                         delta ← checked (s64 pos_offset - s64 (fx_offset f));
                         word ← read_inst_word section (fx_offset f);
                         let word := if bool_decide (fx_kind f = Branch26) then patch_branch26 word delta
                                     else patch_branch19 word delta in
                         _ ← patch_bytes section (fx_offset f) (little_endian 4 word);
                         mret true
                       else mret false
                     else mret false
                 | _ => mret false
                 end;
          if done : bool then mret tt else inst_reloc f pos
    end.

(** What [neg_sym] subtracts: the value so far and whether the result is absolute,
    with the atom to subtract; nothing after an error. *)
Definition subtract (f : PendingFixup) (pos : ResolvedSym) (constant : Z) : M Asm (option (ResolvedSym * Z * SymId)) :=
  if negb (is_sym (fx_neg f)) then mret (Some (pos, constant, no_sym))
  else
    neg ← resolve (fx_neg f) f;
    let not_here := str "expression subtracts a symbol that is not defined in this unit" in
    let no_atom := _ ← fixup_error f (str "cannot subtract a symbol that has no enclosing atom symbol"); mret None in
    match neg, pos with
    | R_Failed, _ => mret None
    | R_Absolute value, _ => k ← checked (constant - value); mret (Some (pos, k, no_sym))
    | R_External, _ | R_InSection _ _, R_Absolute _ => _ ← fixup_error f not_here; mret None
    | R_InSection neg_section neg_offset, _ =>
        neg_atom ← must (atom_at atoms neg_section neg_offset);
        let atom_only :=
          if negb (is_sym neg_atom.1) then no_atom
          else k ← checked (constant - neg_atom.2); mret (Some (pos, k, neg_atom.1)) in
        match pos with
        | R_InSection pos_section pos_offset =>
            pos_atom ← must (atom_at atoms pos_section pos_offset);
            if (pos_section =? neg_section) && (pos_atom.1 =? neg_atom.1) then
              d ← checked (s64 pos_offset - s64 neg_offset);
              k ← checked (constant + d);
              mret (Some (R_Absolute 0, k, no_sym))
            else atom_only
        | _ => atom_only
        end
    end.
(** The relocation of a data field, its addend, after which it is filled. *)
Definition data_target (f : PendingFixup) (pos : ResolvedSym) (constant : Z) (subtractor : SymId) : M Asm (option (SymId * Z * Z)) :=
  match pos with
  | R_InSection pos_section pos_offset =>
      a ← get;
      to ← symbol_at (fx_pos f);
      if can_be_reloc_target to (is_elf a) then mret (Some (fx_pos f, -1, constant))
      else
        atom ← must (atom_at atoms pos_section pos_offset);
        if is_sym atom.1 then k ← checked (constant + atom.2); mret (Some (atom.1, -1, k))
        else if is_sym subtractor then
          _ ← fixup_error f (str "difference target has no enclosing atom symbol"); mret None
        else k ← checked (constant + s64 pos_offset); mret (Some (no_sym, pos_section, k))
  | _ => mret (Some (fx_pos f, -1, constant))
  end.
Definition data_reloc (f : PendingFixup) (pos : ResolvedSym) (constant : Z) (subtractor : SymId) : M Asm unit :=
  let width := fixup_width_bytes (fx_kind f) in
  if width <? 4 then fixup_error f (str "cannot emit a " ++ to_string width ++ str "-byte relocation")
  else
    target ← data_target f pos constant subtractor;
    match target with
    | None => mret tt
    | Some (id, in_section, constant) =>
        good ← patch_absolute section f constant;
        if negb (good : bool) then mret tt
        else
          _ ← (if is_sym subtractor then
                 push_reloc section (mkReloc (fx_offset f) (fx_kind f) Rel_Subtractor Plain 0 0 subtractor (-1))
               else mret tt);
          push_reloc section (mkReloc (fx_offset f) (fx_kind f) Rel_Absolute Plain 0 0 id in_section)
    end.
Definition finalize_data (f : PendingFixup) : M Asm unit :=
  open ← (if is_sym (fx_neg f) then mret false else left_open f);
  if open : bool then leave_unresolved section f 0 0
  else
    pos ← (if is_sym (fx_pos f) then resolve (fx_pos f) f else mret (R_Absolute 0));
    constant ← (match pos with R_Absolute value => checked (fx_constant f + value) | _ => mret (fx_constant f) end);
    match pos with
    | R_Failed => mret tt
    | _ =>
        difference ← subtract f pos constant;
        match difference with
        | None => mret tt
        | Some (R_Absolute _, constant, _) => _ ← patch_absolute section f constant; mret tt
        | Some (pos, constant, subtractor) => data_reloc f pos constant subtractor
        end
    end.

Definition finalize_fixup (f : PendingFixup) : M Asm unit :=
  match fx_kind f with
  | GotDelta32 => finalize_got f
  | PcRel32 | Branch32 => finalize_pcrel f
  | k => if fixup_is_data k then finalize_data f else finalize_inst f
  end.
Fixpoint finalize_all (l : list PendingFixup) : M Asm unit :=
  match l with [] => mret tt | f :: l => _ ← finalize_fixup f; finalize_all l end.
Definition finalize_section : M Asm unit :=
  a ← get;
  s ← must (at_ (sections (unit_ a)) section);
  _ ← finalize_all (fixups s);
  update_section section (with_fixups []).
End Fixups.

(** ** The end of a unit *)

(** The local labels that were used and never came; [visit] is the order in which
    the map is walked. *)
Definition any_undefined : list SymId -> M Asm bool :=
  fix go l := match l with
  | [] => mret false
  | id :: l => s ← symbol_at id; if bool_decide (sym_state s = Sym_Undefined) then mret true else go l
  end.
Fixpoint check_local_labels (l : list (Z * LocalLabelState)) : M Asm unit :=
  match l with
  | [] => mret tt
  | (number, state) :: l =>
      missing ← any_undefined (pending_forward state);
      a ← get;
      _ ← (if missing : bool then
             modify_state (add_message
               (filename (options_ a) ++ str ": undefined local label '" ++ to_string number ++ str "f'"))
           else mret tt);
      check_local_labels l
  end.

Fixpoint finalize_from (atoms : AtomMap) (section : Z) (count : nat) : M Asm unit :=
  match count with O => mret tt | S count => _ ← finalize_section atoms section; finalize_from atoms (section + 1) count end.

Section Run.
Variable visit : gmap Z LocalLabelState -> list (Z * LocalLabelState).

Definition finalize_fixups : M Asm unit :=
  _ ← expand_deferred_fields;
  a ← get;
  atoms ← must (atom_map a);
  _ ← finalize_from atoms 0 (length (sections (unit_ a)));
  a ← get;
  check_local_labels (visit (local_labels_ a)).

Context `{!InstructionParser}.

Definition too_many_errors (a : Asm) : Asm :=
  mkAsm (options_ a) (unit_ a) (diagnostics_ a ++ [filename (options_ a) ++ str ": too many errors, giving up"]) (error_count_ a)
    (current_section_ a) (local_labels_ a).
(** [Assembler::run] *)
Definition assemble : Statement bool :=
  s ← get;
  _ ← statements (tokens_left s);
  s ← get;
  if error_limit <=? error_count_ (snd s) then _ ← asking (modify_state too_many_errors); mret false
  else
    _ ← asking finalize_fixups;
    s ← get;
    mret (error_count_ (snd s) =? 0).

(** ** Fragments (fragment.h, fragment.cpp) *)

Record FragmentSymbol := mkFSymbol { fs_name : chars; fs_offset : Z; fs_global : bool; fs_weak : bool; fs_hidden : bool }.
Record FragmentReloc := mkFReloc {
  fr_offset : Z; fr_kind : FixupKind; fr_reloc : RelocKind; fr_flavor : SymFlavor; fr_access : Z; fr_symbol : chars; fr_section : Z }.
Record FragmentFixup := mkFFixup {
  ff_offset : Z; ff_kind : FixupKind; ff_symbol : chars; ff_addend : Z; ff_flavor : SymFlavor; ff_access : Z }.
Record FragmentSection := mkFSection {
  fsec_segname : chars; fsec_sectname : chars; fsec_flags : Z; fsec_align : Z; fsec_zerofill : bool; fsec_zerofill_size : Z;
  fsec_bytes : list Z; fsec_symbols : list FragmentSymbol; fsec_relocs : list FragmentReloc; fsec_unresolved : list FragmentFixup }.
Record FragmentResult := mkFResult {
  fr_ok : bool; fr_diagnostics : list chars; fr_sections : list FragmentSection; fr_commons : list CommonSymbol }.

Definition fragment_reloc (t : SymbolTable) (r : RelocRecord) : option FragmentReloc :=
  name ← (if is_sym (rl_symbol r) then sym_name <$> sym t (rl_symbol r) else Some []);
  Some (mkFReloc (rl_offset r) (rl_kind r) (rl_reloc r) (rl_flavor r) (rl_access r) name (rl_section r)).
Definition fragment_fixup (t : SymbolTable) (u : UnresolvedFixup) : option FragmentFixup :=
  s ← sym t (un_symbol u); Some (mkFFixup (un_offset u) (un_kind u) (sym_name s) (un_addend u) (un_flavor u) (un_access u)).
Definition private_label (elf : bool) (name : chars) : bool :=
  if elf then has_prefix (str ".L") name else starts_with_char "L" name.
(** The labels of a section that others may see. *)
Definition exported (elf : bool) (section : Z) (s : AsmSymbol) : option FragmentSymbol :=
  if internal s || negb (is_label s) || negb (sym_section s =? section) || private_label elf (sym_name s) then None
  else Some (mkFSymbol (sym_name s) (sym_offset s) (global s) (weak s) (hidden s)).
Definition fragment_section (elf : bool) (t : SymbolTable) (i : nat) (s : AsmSection) : option FragmentSection :=
  relocs ← mapM (fragment_reloc t) (relocs s);
  unresolved ← mapM (fragment_fixup t) (unresolved s);
  Some (mkFSection (segname s) (sectname s) (sec_flags s) (sec_align s) (zerofill s) (zerofill_size s) (bytes s)
    (omap (exported elf (Z.of_nat i)) (symbols_ t)) relocs unresolved).
Definition fragment_of (ok : bool) (a : Asm) : option FragmentResult :=
  if negb ok then Some (mkFResult false (diagnostics_ a) [] [])
  else
    v ← mapM (fun '(i, s) => fragment_section (is_elf a) (table a) i s) (imap pair (sections (unit_ a)));
    Some (mkFResult true (diagnostics_ a) v (commons (unit_ a))).

(** The constructor. *)
Definition hash_starts_comment (t : TargetInfo) : bool := bool_decide (arch t = X86_64) || bool_decide (arch t = X86).
Definition first_section (t : TargetInfo) : AsmSection :=
  if asm_target_is_elf t then mkSection [] (str ".text") 0 0 false 0 [] [] [] [] []
  else mkSection (str "__TEXT") (str "__text") code_flags 0 false 0 [] [] [] [] [].
Definition new_assembler (source : chars) (o : AsmOptions) : Parsing Asm :=
  (set_hash_comments (hash_starts_comment (target o)) (new_lexer source),
   mkAsm o (mkUnit [first_section (target o)] empty_symbols []) [] 0 0 ∅).

Definition assemble_fragment (source : chars) (o : AsmOptions) : outcome FragmentResult :=
  '(assembled, s) ← assemble (new_assembler source (mkOptions (target o) (filename o) true));
  '(result, _) ← must (fragment_of assembled (snd s)) tt;
  Done result.
End Run.
