(* ===== verification/AsmSafe.v ===== *)
(** * The invariant of the assembler, and that its operations keep it

    Every id names a symbol and every place a section, every fixup and deferred field
    is within the bytes of its section. Each operation of Assembler.v, and what
    expressions ask, stays within bounds and keeps this. The number of symbols is
    bounded by [limit], the tokens that may be read. *)
From stdpp Require Import gmap strings.
From S2P Require Import Prelude Vectors Target Outcome AsmLexer AsmExpr Mir AsmUnit Assembler.
Open Scope Z_scope.

(** ** The invariant *)

Definition known_in (n : nat) (id : SymId) : Prop := 0 <= id < Z.of_nat n.
Definition maybe_in (n : nat) (id : SymId) : Prop := is_sym id -> known_in n id.

(** What fixups name, by what is done with them. *)
Definition fixup_names (n : nat) (f : PendingFixup) : Prop :=
  match fx_kind f with
  | GotDelta32 => known_in n (fx_pos f) /\ known_in n (fx_neg f)
  | Abs8 | Abs16 | Abs32 | Abs64 => maybe_in n (fx_pos f) /\ maybe_in n (fx_neg f)
  | _ => known_in n (fx_pos f)
  end.
Definition fixup_ok (n : nat) (len : Z) (f : PendingFixup) : Prop :=
  0 <= fx_offset f /\ fx_offset f + fixup_width_bytes (fx_kind f) <= len /\ 0 <= fx_seq f /\ fixup_names n f.

Definition branch_ok (b : DeferredBranch) : Prop :=
  size (near_bytes b) = near_size b /\ near_size b <= 8 /\ 0 <= rel_offset b /\ rel_offset b + 4 <= near_size b.
Definition field_names (n : nat) (f : DeferredField) : Prop :=
  match df_kind f with
  | Def_Branch => known_in n (df_pos f) /\ branch_ok (df_branch f)
  | Def_Align => 0 <= df_align f <= 30
  | _ => maybe_in n (df_pos f) /\ maybe_in n (df_neg f)
  end.
Definition field_ok (n : nat) (f : DeferredField) : Prop := field_names n f /\ 0 <= df_size f < 2 ^ 30.
(** The fields are in order among the bytes. *)
Fixpoint in_order (from : Z) (fields : list DeferredField) (len : Z) : Prop :=
  match fields with [] => from <= len | f :: fields => from <= raw_offset f /\ in_order (raw_offset f) fields len end.

Record section_ok (n : nat) (s : AsmSection) : Prop := {
  bytes_bounded : size (bytes s) < max_bytes;
  fixups_ok : Forall (fixup_ok n (size (bytes s))) (fixups s);
  fields_ok : Forall (field_ok n) (deferred s);
  fields_in_order : in_order 0 (deferred s) (size (bytes s));
  relocs_ok : Forall (fun r => maybe_in n (rl_symbol r)) (relocs s);
  unresolved_ok : Forall (fun u => known_in n (un_symbol u)) (unresolved s) }.

Definition symbol_ok (m : nat) (s : AsmSymbol) : Prop :=
  (sym_state s = Sym_Label -> 0 <= sym_section s < Z.of_nat m) /\ 0 <= sym_seq s.
Definition local_ok (n : nat) (l : LocalLabelState) : Prop := maybe_in n (last_def l) /\ Forall (known_in n) (pending_forward l).

Definition weight (a : Asm) : nat := length (symbols_ (table a)).
Definition section_count (a : Asm) : nat := length (sections (unit_ a)).
Definition known (a : Asm) (id : SymId) : Prop := known_in (weight a) id.

Section Invariant.
(** The most symbols there may be. *)
Variable limit : nat.
(** The fewest sections there may be: sections are never removed. *)
Variable least : nat.
Hypothesis Hlimit : Z.of_nat limit < no_sym.

Record asm_ok (a : Asm) : Prop := {
  ok_current : 0 <= current_section_ a < Z.of_nat (section_count a);
  ok_weight : (weight a <= limit)%nat;
  ok_least : (least <= section_count a)%nat;
  ok_index : map_Forall (fun _ id => known a id) (index_ (table a));
  ok_symbols : Forall (symbol_ok (section_count a)) (symbols_ (table a));
  ok_sections : Forall (section_ok (weight a)) (sections (unit_ a));
  ok_locals : map_Forall (fun _ l => local_ok (weight a) l) (local_labels_ a);
  ok_errors : Z.of_nat (length (diagnostics_ a)) = error_count_ a }.

(** Nothing that is known is forgotten. *)
Lemma known_mono n n' id : (n <= n')%nat -> known_in n id -> known_in n' id.
Proof. unfold known_in. lia. Qed.
Lemma maybe_mono n n' id : (n <= n')%nat -> maybe_in n id -> maybe_in n' id.
Proof. intros Hn H Hs. eapply known_mono; [done|by apply H]. Qed.
Hint Resolve known_mono maybe_mono : core.
Lemma fixup_mono n n' len len' f : (n <= n')%nat -> len <= len' -> fixup_ok n len f -> fixup_ok n' len' f.
Proof.
  intros Hn Hl (H1 & H2 & H3 & H4). split; [done|]. split; [lia|]. split; [done|]. unfold fixup_names in *.
  destruct (fx_kind f); intuition eauto.
Qed.
Lemma field_mono n n' f : (n <= n')%nat -> field_ok n f -> field_ok n' f.
Proof. intros Hn [H1 H2]. split; [|done]. unfold field_names in *. destruct (df_kind f); intuition eauto. Qed.
Lemma in_order_mono fields : forall from from' len len', from' <= from -> len <= len' -> in_order from fields len -> in_order from' fields len'.
Proof. induction fields as [|f fields IH]; intros from from' len len' H1 H2; cbn; [lia|]. intros [H3 H4]. split; [lia|]. by eapply IH. Qed.
Lemma section_mono n n' s : (n <= n')%nat -> section_ok n s -> section_ok n' s.
Proof.
  intros Hn []. split; try done; eapply list.Forall_impl; try eassumption; intros x Hx; cbn in Hx; eauto using fixup_mono, field_mono, Z.le_refl.
Qed.
Lemma local_mono n n' l : (n <= n')%nat -> local_ok n l -> local_ok n' l.
Proof. intros Hn [H1 H2]. split; [eauto|]. eapply list.Forall_impl; [done|]. intros id Hid. by apply (known_mono n). Qed.
Lemma symbol_mono m m' s : (m <= m')%nat -> symbol_ok m s -> symbol_ok m' s.
Proof. intros Hm [H1 H2]. split; [|done]. intros H. specialize (H1 H). lia. Qed.
Lemma known_not_none a id : asm_ok a -> known a id -> is_sym id = true.
Proof. intros [] H. unfold known, known_in, is_sym in *. destruct (Z.eqb_spec id no_sym); [lia|done]. Qed.
Lemma known_maybe n id : known_in n id -> maybe_in n id.
Proof. by intros H _. Qed.
Lemma maybe_none n : maybe_in n no_sym.
Proof. done. Qed.

(** ** States that differ in one place *)

Abbreviation steady := (AsmExpr.steady asm_ok known weight).
Lemma steady_mk a a' : asm_ok a' -> weight a' = weight a -> steady a a'.
Proof. intros H1 H2. split; [done|]. split; [done|]. intros id. unfold known. by rewrite H2. Qed.
Lemma steady_trans a b c : steady a b -> steady b c -> steady a c.
Proof. intros (A1 & A2 & A3) (B1 & B2 & B3). apply steady_mk; [done|congruence]. Qed.
Lemma steady_refl' a : asm_ok a -> steady a a.
Proof. intros H. by apply steady_mk. Qed.

(** The current section, replaced. *)
Definition put_cur (s : AsmSection) (a : Asm) : Asm := with_sections (put (sections (unit_ a)) (current_section_ a) s) a.
Definition cur_is (a : Asm) (s : AsmSection) : Prop := at_ (sections (unit_ a)) (current_section_ a) = Some s.

Lemma cur_exists a : asm_ok a -> exists s, cur_is a s /\ section_ok (weight a) s.
Proof.
  intros []. destruct (proj2 (at_is_Some (sections (unit_ a)) (current_section_ a))) as [s Hs]; [done|].
  exists s. split; [done|]. unfold at_ in Hs. destruct (_ <? _); [done|]. by eapply Forall_lookup_1 in ok_sections0.
Qed.
Lemma run_cur a s Q : cur_is a s -> Q s a -> run cur a Q.
Proof. intros Hs HQ. unfold cur. apply run_bind, run_get. by eapply run_must. Qed.
Lemma run_update_cur g a s (Q : unit -> Asm -> Prop) : cur_is a s -> Q tt (put_cur (g s) a) -> run (update_cur g) a Q.
Proof.
  intros Hs HQ. unfold update_cur. apply run_bind, run_get, run_bind. eapply run_must; [by apply modify_some|]. by apply run_modify.
Qed.
Lemma put_cur_is a s s' : cur_is a s -> cur_is (put_cur s' a) s'.
Proof. intros Hs. unfold cur_is, put_cur. cbn. apply at_put_eq. by eapply at_lt. Qed.
Lemma put_cur_ok a s : asm_ok a -> section_ok (weight a) s -> asm_ok (put_cur s a).
Proof.
  intros [] Hs. unfold put_cur. split; cbn; try done.
  - unfold section_count in *. cbn. by rewrite length_put.
  - unfold section_count in *. cbn. by rewrite length_put.
  - unfold section_count in *. cbn. by rewrite length_put.
  - unfold put. destruct (_ <? _); [done|]. by apply Forall_insert.
Qed.
Lemma put_cur_steady a s : asm_ok a -> section_ok (weight a) s -> steady a (put_cur s a).
Proof. intros Ha Hs. apply steady_mk; [by apply put_cur_ok|done]. Qed.
Lemma put_put a s s' : put_cur s' (put_cur s a) = put_cur s' a.
Proof.
  unfold put_cur, with_sections, with_unit. cbn. f_equal. f_equal. unfold put. destruct (_ <? _); [done|]. apply list_insert_insert_eq.
Qed.

(** ** Errors *)

Lemma message_ok m a : asm_ok a -> asm_ok (add_message m a).
Proof. intros []. split; try done. cbn. rewrite length_app. cbn. lia. Qed.
Lemma error_ok l k m a : asm_ok a -> asm_ok (error_at l k m a).
Proof. apply message_ok. Qed.
Lemma run_error t m a Q : asm_ok a -> (forall a', steady a a' -> Q tt a') -> run (error t m) a Q.
Proof. intros Ha HQ. apply run_modify, HQ, steady_mk; [by apply error_ok|done]. Qed.

(** ** Bytes and fixups *)

Lemma add_bytes_ok n s b : section_ok n s -> size (bytes s) + size b < max_bytes -> section_ok n (add_bytes b s).
Proof.
  intros [] Hb. pose proof (size_nonneg b). split; cbn; rewrite ?size_app; try done.
  - eapply list.Forall_impl; [done|]. intros f. apply fixup_mono; [done|lia].
  - eapply in_order_mono; [| |done]; lia.
Qed.
Lemma run_append_bytes b a s Q : cur_is a s ->
  (size (bytes s) + size b < max_bytes -> Q tt (put_cur (add_bytes b s) a)) -> run (append_bytes b) a Q.
Proof.
  intros Hs HQ. unfold append_bytes. apply run_bind, (run_cur _ s); [done|]. destruct (Z.ltb_spec (size (bytes s) + size b) max_bytes) as [Hlt|]; [|done].
  eapply run_update_cur; [done|]. by apply HQ.
Qed.
Lemma append_bytes_safe b a : asm_ok a -> run (append_bytes b) a (fun _ a' => steady a a').
Proof.
  intros Ha. destruct (cur_exists a Ha) as (s & Hs & Hok). eapply run_append_bytes; [done|]. intros Hlt.
  apply put_cur_steady; [done|]. by apply add_bytes_ok.
Qed.
Lemma run_unless t m a Q : asm_ok a -> (forall s, cur_is a s -> zerofill s = false -> section_ok (weight a) s -> run m a Q) ->
  (forall a', steady a a' -> Q tt a') -> run (unless_zerofill t m) a Q.
Proof.
  intros Ha Hm HQ. destruct (cur_exists a Ha) as (s & Hs & Hok). unfold unless_zerofill, check_not_zerofill.
  apply run_bind, run_bind, (run_cur _ s); [done|]. destruct (zerofill s) eqn:Hz.
  - apply run_bind, run_error; [done|]. intros a' Hst. apply run_ret, run_ret. by apply HQ.
  - apply run_ret. by apply (Hm s).
Qed.
Lemma check_not_zerofill_safe t a : asm_ok a -> run (check_not_zerofill t) a (fun _ a' => steady a a').
Proof.
  intros Ha. destruct (cur_exists a Ha) as (s & Hs & Hok). unfold check_not_zerofill. apply run_bind, (run_cur _ s); [done|].
  destruct (zerofill s); [|apply run_ret; by apply steady_refl']. apply run_bind, run_error; [done|]. intros a' Hst. by apply run_ret.
Qed.

(** A fixup and the bytes it is in. *)
Definition fixup_fits (n : nat) (delta : Z) (kind : FixupKind) (pos neg : SymId) (len : Z) : Prop :=
  0 <= delta /\ delta + fixup_width_bytes kind <= len /\ fixup_names n (mkFixup 0 kind 0 pos neg Plain 0 0 0 0 0).
Definition fixed_section (delta : Z) (kind : FixupKind) (k : Z) (pos neg : SymId) (fl : SymFlavor) (acc ex : Z) (t : Token)
    (s : AsmSection) : AsmSection :=
  add_fixup (mkFixup (u64 (size (bytes s) + delta)) kind k pos neg fl acc ex (u32 (size (deferred s))) (tok_line t) (tok_col t)) s.
Lemma run_push_fixup delta kind k pos neg fl acc ex t a s Q : cur_is a s ->
  Q tt (put_cur (fixed_section delta kind k pos neg fl acc ex t s) a) -> run (push_fixup delta kind k pos neg fl acc ex t) a Q.
Proof. intros Hs HQ. unfold push_fixup. apply run_bind, (run_cur _ s); [done|]. by eapply run_update_cur. Qed.
Lemma fixed_section_ok n delta kind k pos neg fl acc ex t s b : section_ok n s -> fixup_fits n delta kind pos neg (size b) ->
  size (bytes s) + size b < max_bytes -> section_ok n (add_bytes b (fixed_section delta kind k pos neg fl acc ex t s)).
Proof.
  intros Hs (H1 & H2 & H3) Hb. pose proof (size_nonneg (bytes s)). pose proof (add_bytes_ok _ _ _ Hs Hb) as Hb'.
  destruct Hb' as [B1 B2 B3 B4]. split; cbn in *; try done. apply Forall_app. split; [done|]. apply list.Forall_singleton.
  assert (0 <= fixup_width_bytes kind) by (by destruct kind). unfold max_bytes in Hb.
  unfold fixup_ok. cbn. rewrite size_app. rewrite uwrap_small by (unfold word; lia).
  split; [lia|]. split; [lia|]. split; [by apply Z.mod_pos_bound|done].
Qed.
Lemma fixup_and_bytes delta kind k pos neg fl acc ex t b a : asm_ok a -> fixup_fits (weight a) delta kind pos neg (size b) ->
  run (_ ← push_fixup delta kind k pos neg fl acc ex t; append_bytes b) a (fun _ a' => steady a a').
Proof.
  intros Ha Hf. destruct (cur_exists a Ha) as (s & Hs & Hok). apply run_bind. eapply run_push_fixup; [done|].
  eapply run_append_bytes; [by eapply put_cur_is|]. intros Hlt. rewrite put_put. apply put_cur_steady; [done|]. by apply fixed_section_ok.
Qed.
(** As the instruction parsers do it: the section is looked at again. *)
Lemma fixup_and_inst delta kind k pos neg fl acc ex t b a : asm_ok a -> fixup_fits (weight a) delta kind pos neg (size b) ->
  run (unless_zerofill t (_ ← push_fixup delta kind k pos neg fl acc ex t; unless_zerofill t (append_bytes b))) a
    (fun _ a' => steady a a').
Proof.
  intros Ha Hf. apply run_unless; [done| |done]. intros s Hs Hz Hok. apply run_bind. eapply run_push_fixup; [done|].
  unfold unless_zerofill, check_not_zerofill. apply run_bind, run_bind. eapply run_cur; [by eapply put_cur_is|].
  cbn [fixed_section add_fixup with_fixups zerofill]. rewrite Hz. apply run_ret. eapply run_append_bytes; [by eapply put_cur_is|].
  intros Hlt. rewrite put_put. apply put_cur_steady; [done|]. by apply fixed_section_ok.
Qed.

Lemma append_inst_word_safe w t a : asm_ok a -> run (append_inst_word w t) a (fun _ a' => steady a a').
Proof. intros Ha. apply run_unless; [done| |done]. intros s _ _ _. by apply append_bytes_safe. Qed.
Lemma append_inst_bytes_safe b t a : asm_ok a -> run (append_inst_bytes b t) a (fun _ a' => steady a a').
Proof. intros Ha. apply run_unless; [done| |done]. intros s _ _ _. by apply append_bytes_safe. Qed.
Lemma append_inst_fixup_safe w kind id k fl acc t a : asm_ok a -> fixup_fits (weight a) 0 kind id no_sym 4 ->
  run (append_inst_fixup w kind id k fl acc t) a (fun _ a' => steady a a').
Proof. intros Ha Hf. by apply fixup_and_inst. Qed.
Lemma append_inst_bytes_fixup_safe b kind off id k fl ex t a : asm_ok a -> fixup_fits (weight a) off kind id no_sym (size b) ->
  run (append_inst_bytes_fixup b kind off id k fl ex t) a (fun _ a' => steady a a').
Proof. intros Ha Hf. by apply fixup_and_inst. Qed.
Lemma in_order_snoc f fields len : forall from, in_order from fields len -> raw_offset f = len -> in_order from (fields ++ [f]) len.
Proof. induction fields as [|g fields IH]; intros from; cbn; [lia|]. intros [H1 H2] Hf. split; [done|by apply IH]. Qed.
Lemma add_deferred_ok n f s : section_ok n s -> field_ok n f -> raw_offset f = size (bytes s) -> section_ok n (add_deferred f s).
Proof.
  intros [] Hf Hr. split; cbn; try done; [|by apply in_order_snoc]. apply Forall_app. split; [done|]. by apply list.Forall_singleton.
Qed.
Lemma append_branch_safe near rel short id k t a : asm_ok a -> known a id -> 0 <= rel < 256 -> rel + 4 <= size near ->
  run (append_branch near rel short id k t) a (fun _ a' => steady a a').
Proof.
  intros Ha Hid Hrel Hnear. apply run_unless; [done| |done]. intros s Hs _ Hok.
  destruct (Z.ltb_spec 8 (size near)) as [Hbig|Hsmall]; [by apply run_error|].
  apply run_bind, (run_cur _ s); [done|]. eapply run_update_cur; [done|]. apply put_cur_steady; [done|].
  assert (u8 (size near) = size near /\ u8 rel = rel) as [E1 E2] by (split; apply uwrap_small; unfold word; lia).
  apply add_deferred_ok; [done| |done]. split; cbn; rewrite E1, ?E2; [|lia]. split; [done|]. split; cbn; lia.
Qed.
Lemma append_data_value_safe kind v t a : asm_ok a -> fixup_is_data kind = true -> value_known known a v ->
  run (append_data_value kind v t) a (fun _ a' => steady a a').
Proof.
  intros Ha Hk [H1 H2]. apply run_unless; [done| |done]. intros s Hs _ Hok. cbn zeta. destruct (is_absolute v).
  { destruct (negb (fits_width _ _)); [by apply run_error|]. by apply append_bytes_safe. }
  apply fixup_and_bytes; [done|]. rewrite size_replicate. unfold fixup_fits, fixup_names, maybe_in, known in *. by destruct kind.
Qed.
Lemma append_space_safe n fill t a : asm_ok a -> run (append_space n fill t) a (fun _ a' => steady a a').
Proof.
  intros Ha. destruct (cur_exists a Ha) as (s & Hs & Hok). unfold append_space. apply run_bind, (run_cur _ s); [done|].
  destruct (zerofill s); [|by apply append_bytes_safe]. destruct (negb _); [by apply run_error|].
  eapply run_update_cur; [done|]. apply put_cur_steady; [done|]. destruct Hok. by split.
Qed.
(** Sections that differ in what the invariant does not speak of. *)
Lemma same_section_ok n s s' : section_ok n s -> bytes s' = bytes s -> fixups s' = fixups s -> deferred s' = deferred s ->
  relocs s' = relocs s -> unresolved s' = unresolved s -> section_ok n s'.
Proof. intros [] E1 E2 E3 E4 E5. split; rewrite ?E1, ?E2, ?E3, ?E4, ?E5; done. Qed.

Lemma align_current_safe l fill given lim t a : asm_ok a -> 0 <= l -> run (align_current l fill given lim t) a (fun _ a' => steady a a').
Proof.
  intros Ha Hl. destruct (cur_exists a Ha) as (s & Hs & Hok). unfold align_current.
  destruct (Z.ltb_spec 30 l) as [Hbig|Hsmall]; [by apply run_error|].
  apply run_bind. eapply run_update_cur; [done|]. set (s1 := if sec_align s <? l then with_align l s else s).
  assert (Hok1 : section_ok (weight a) s1) by (subst s1; destruct (_ <? _); [by apply (same_section_ok _ s)|done]).
  pose proof (put_cur_ok _ _ Ha Hok1) as Ha1. pose proof (put_cur_is a s s1 Hs) as Hs1.
  assert (Hst : forall s2, section_ok (weight a) s2 -> steady a (put_cur s2 (put_cur s1 a))).
  { intros s2 Hs2. rewrite put_put. by apply put_cur_steady. }
  assert (Hst1 : steady a (put_cur s1 a)) by (by apply put_cur_steady).
  apply run_bind, (run_cur _ s1); [done|]. apply run_bind, run_get. destruct (negb (zerofill s1) && _).
  - destruct (_ <=? lim); [apply run_error; [done|]; intros a' H; by apply (steady_trans _ _ _ Hst1)|].
    eapply run_update_cur; [done|]. apply Hst, add_deferred_ok; [done| |done]. split; cbn; [done|lia].
  - assert (Happ : forall b, run (append_bytes b) (put_cur s1 a) (fun _ a' => steady a a')).
    { intros b. eapply run_mono; [by apply append_bytes_safe|]. intros ? a' H. by apply (steady_trans _ _ _ Hst1). }
    destruct (_ && _); [by apply run_ret|]. destruct (zerofill s1).
    + eapply run_update_cur; [done|]. apply Hst. by apply (same_section_ok _ s1).
    + destruct (_ && _); [|apply Happ]. apply run_bind.
      destruct (nop_padding_length (u64 (align_up (section_size s1) (Z.shiftl 1 l) - size (bytes s1)))) as (b & Hb & _).
      eapply run_lift; [done|]. apply Happ.
Qed.

(** ** Symbols *)

Lemma symbol_exists a id : asm_ok a -> known a id -> exists s, sym (table a) id = Some s /\ symbol_ok (section_count a) s.
Proof.
  intros [] Hk. unfold known, known_in, weight in Hk. destruct (proj2 (at_is_Some (symbols_ (table a)) id)) as [s Hs]; [unfold size; lia|].
  exists s. split; [done|]. unfold at_ in Hs. destruct (_ <? _); [done|]. by eapply Forall_lookup_1 in ok_symbols0.
Qed.
Lemma run_symbol_at id a Q : asm_ok a -> known a id ->
  (forall s, sym (table a) id = Some s -> symbol_ok (section_count a) s -> Q s a) -> run (symbol_at id) a Q.
Proof.
  intros Ha Hk HQ. destruct (symbol_exists a id Ha Hk) as (s & Hs & Hok). unfold symbol_at. apply run_bind, run_get.
  eapply run_must; [done|]. by apply HQ.
Qed.
Lemma update_symbol_safe id g a : asm_ok a -> known a id -> (forall s, symbol_ok (section_count a) s -> symbol_ok (section_count a) (g s)) ->
  run (update_symbol id g) a (fun _ a' => steady a a').
Proof.
  intros Ha Hk Hg. destruct (symbol_exists a id Ha Hk) as (s & Hs & Hok). unfold update_symbol. apply run_bind, run_get, run_bind.
  unfold update_sym. rewrite (modify_some _ _ _ _ Hs). cbn [mbind option_bind]. eapply run_must; [done|]. apply run_modify.
  destruct Ha. apply steady_mk; [|unfold weight; cbn; by rewrite length_put].
  split; unfold known, weight, section_count in *; cbn; rewrite ?length_put; try done.
  unfold put. destruct (_ <? _); [done|]. apply Forall_insert; [done|]. by apply Hg.
Qed.
(** What an operation that may add a symbol does. *)
Definition names (a : Asm) (id : SymId) (a' : Asm) : Prop :=
  asm_ok a' /\ known a' id /\ (weight a' <= S (weight a))%nat /\ grows known a a'.
Lemma grows_mk a a' : (weight a <= weight a')%nat -> grows known a a'.
Proof. intros H id. by apply known_mono. Qed.
Lemma names_steady a id a1 a2 : names a id a1 -> steady a1 a2 -> names a id a2.
Proof. intros (A1 & A2 & A3 & A4) (B1 & B2 & B3). split; [done|]. split; [by apply B3|]. split; [lia|]. intros i H. by apply B3, A4. Qed.

(** A table with one more symbol. *)
Lemma add_symbol_ok a t' s : asm_ok a -> (weight a < limit)%nat -> symbols_ t' = symbols_ (table a) ++ [s] -> symbol_ok (section_count a) s ->
  map_Forall (fun _ id => known_in (S (weight a)) id) (index_ t') -> asm_ok (with_symbols t' a) /\ weight (with_symbols t' a) = S (weight a).
Proof.
  intros [] Hw Ht Hs Hi. assert (weight (with_symbols t' a) = S (weight a)) as Hw'.
  { unfold weight. cbn. rewrite Ht, length_app. cbn. lia. }
  split; [|done]. split; rewrite ?Hw'; cbn; try done.
  - unfold known. by rewrite Hw'.
  - rewrite Ht. apply Forall_app. split; [done|]. by apply list.Forall_singleton.
  - eapply list.Forall_impl; [done|]. intros x. apply section_mono. lia.
  - intros n l Hl. specialize (ok_locals0 n l Hl). cbn in *. eapply local_mono; [|done]. lia.
Qed.
Lemma table_size_exact a : asm_ok a -> (weight a < limit)%nat -> table_size (table a) = Z.of_nat (weight a).
Proof. intros [] Hw. unfold table_size, size. fold (weight a). apply uwrap_small. unfold word, no_sym in *. lia. Qed.
Lemma new_symbol_ok m name b : symbol_ok m (new_symbol name b).
Proof. by split. Qed.
Lemma same_table a : with_symbols (table a) a = a.
Proof. by destruct a as [? [? ? ?] ? ? ? ?]. Qed.
Lemma intern_safe name a : asm_ok a -> (weight a < limit)%nat -> run (intern_symbol name) a (fun id a' => names a id a').
Proof.
  intros Ha Hw. unfold intern_symbol. apply run_bind, run_get. unfold intern. destruct (index_ (table a) !! name) as [id|] eqn:E.
  - apply run_bind, run_modify, run_ret. rewrite same_table. pose proof (ok_index _ Ha _ _ E) as Hid.
    split; [done|]. split; [done|]. split; [lia|]. by apply grows_mk.
  - rewrite table_size_exact by done. apply run_bind, run_modify, run_ret.
    destruct (add_symbol_ok a (mkSymbols (<[name := Z.of_nat (weight a)]> (index_ (table a)))
      (symbols_ (table a) ++ [new_symbol name false])) (new_symbol name false)) as [Hok Hw']; [done|done|done|apply new_symbol_ok| |].
    { cbn. apply map_Forall_insert_2; [unfold known_in; lia|]. intros n id Hn. pose proof (ok_index _ Ha _ _ Hn) as H.
      eapply known_mono; [|exact H]. lia. }
    split; [done|]. unfold known. rewrite Hw'. split; [unfold known_in; lia|]. split; [done|]. apply grows_mk. lia.
Qed.
Lemma internal_safe name a : asm_ok a -> (weight a < limit)%nat -> run (internal_symbol name) a (fun id a' => names a id a').
Proof.
  intros Ha Hw. unfold internal_symbol. apply run_bind, run_get. unfold make_internal. rewrite table_size_exact by done.
  apply run_bind, run_modify, run_ret.
  destruct (add_symbol_ok a (mkSymbols (index_ (table a)) (symbols_ (table a) ++ [new_symbol name true])) (new_symbol name true))
    as [Hok Hw']; [done|done|done|apply new_symbol_ok| |].
  { intros n id Hn. pose proof (ok_index _ Ha _ _ Hn) as H. eapply known_mono; [|exact H]. lia. }
  split; [done|]. unfold known. rewrite Hw'. split; [unfold known_in; lia|]. split; [done|]. apply grows_mk. lia.
Qed.

(** ** Labels and values *)

Lemma place_ok a st b sec off seq s : 0 <= sec < Z.of_nat (section_count a) -> 0 <= seq -> symbol_ok (section_count a) (place st b sec off seq s).
Proof. intros H1 H2. by split. Qed.
Lemma bind_safe id t a : asm_ok a -> known a id -> run (bind_symbol_to_location id t) a (fun _ a' => steady a a').
Proof.
  intros Ha Hk. unfold bind_symbol_to_location. apply run_bind, run_symbol_at; [done..|]. intros s _ _.
  destruct (already_defined s); [by apply run_error|]. destruct (cur_exists a Ha) as (c & Hc & _).
  apply run_bind, (run_cur _ c); [done|]. apply run_bind, run_get. apply update_symbol_safe; [done..|]. intros s' _.
  apply place_ok; [apply Ha|]. by apply Z.mod_pos_bound.
Qed.
Lemma define_label_safe t a : asm_ok a -> (weight a < limit)%nat ->
  run (define_label t) a (fun _ a' => asm_ok a' /\ (weight a' <= S (weight a))%nat /\ grows known a a').
Proof.
  intros Ha Hw. unfold define_label. apply run_bind. eapply run_mono; [by apply intern_safe|]. intros id a1 Hn.
  pose proof Hn as (Ha1 & Hid & _). eapply run_mono; [by apply bind_safe|]. intros ? a2 Hs. destruct (names_steady _ _ _ _ Hn Hs) as (H1 & _ & H2 & H3). done.
Qed.
Lemma local_known a n : asm_ok a -> local_ok (weight a) (default new_local (local_labels_ a !! n)).
Proof.
  intros []. destruct (local_labels_ a !! n) as [l|] eqn:E; cbn; [by apply (ok_locals0 _ _ E)|]. by split.
Qed.
Lemma with_local_ok n l a : asm_ok a -> local_ok (weight a) l -> asm_ok (with_local n l a).
Proof. intros [] Hl. split; try done. cbn. by apply map_Forall_insert_2. Qed.
Lemma bind_all_safe ids t : forall a, asm_ok a -> Forall (known_in (weight a)) ids -> run (bind_all ids t) a (fun _ a' => steady a a').
Proof.
  induction ids as [|id ids IH]; intros a Ha Hids; cbn [bind_all]; [apply run_ret; by apply steady_refl'|].
  apply list.Forall_cons in Hids as [H1 H2]. apply run_bind. eapply run_mono; [by apply bind_safe|]. intros ? a1 Hs.
  pose proof Hs as (Ha1 & Hw1 & _). eapply run_mono; [apply IH; [done|by rewrite Hw1]|]. intros ? a2 H. by apply (steady_trans _ _ _ Hs).
Qed.
Lemma define_local_label_safe t a : asm_ok a -> (weight a < limit)%nat ->
  run (define_local_label t) a (fun _ a' => asm_ok a' /\ (weight a' <= S (weight a))%nat /\ grows known a a').
Proof.
  intros Ha Hw. unfold define_local_label, local_label. apply run_bind, run_bind, run_get, run_ret, run_bind.
  pose proof (local_known a (u32 (tok_value t)) Ha) as [_ Hl]. set (l := default new_local _) in *.
  eapply run_mono; [by apply internal_safe|]. intros id a1 Hn. pose proof Hn as (Ha1 & Hid & Hw1 & Hg).
  apply run_bind. eapply run_mono; [by apply bind_safe|]. intros ? a2 Hs2. apply run_bind.
  pose proof (names_steady _ _ _ _ Hn Hs2) as (Ha2 & Hid2 & Hw2 & Hg2).
  eapply run_mono; [apply bind_all_safe; [done|]|].
  { eapply list.Forall_impl; [exact Hl|]. intros i Hi. by apply Hg2. }
  intros ? a3 Hs3. pose proof (names_steady _ _ _ _ (conj Ha2 (conj Hid2 (conj Hw2 Hg2))) Hs3) as (Ha3 & Hid3 & Hw3 & Hg3).
  apply run_modify. split; [|done]. apply with_local_ok; [done|]. split; [by apply known_maybe|done].
Qed.
Lemma set_constant_ok m v s : symbol_ok m s -> symbol_ok m (set_constant v s).
Proof. intros [_ H]. by split. Qed.
Lemma apply_set_safe id v t a : asm_ok a -> known a id -> value_known known a v -> run (apply_set id v t) a (fun _ a' => steady a a').
Proof.
  intros Ha Hk [Hp Hn]. unfold apply_set. apply run_bind, run_symbol_at; [done..|]. intros s _ Hs.
  destruct (already_defined s); [by apply run_error|].
  assert (Hset : forall k, run (update_symbol id (set_constant k)) a (fun _ a' => steady a a')).
  { intros k. apply update_symbol_safe; [done..|]. intros s'. apply set_constant_ok. }
  destruct (is_sym (neg_sym v)) eqn:En.
  - apply run_bind, run_symbol_at; [done|by apply Hn|]. intros neg _ _. apply run_bind.
    assert (Hpos : forall Q, (forall pos, Q pos a) -> run (if is_sym (pos_sym v) then symbol_at (pos_sym v) else mret neg) a Q).
    { intros Q HQ. destruct (is_sym (pos_sym v)); [|by apply run_ret]. apply run_symbol_at; [done|by apply Hp|]. intros; apply HQ. }
    apply Hpos. intros pos. destruct (_ || _); [by apply run_error|].
    apply run_bind, run_checked. intros _. apply run_bind, run_checked. intros _. apply Hset.
  - destruct (is_sym (pos_sym v)) eqn:Ep; [|apply Hset]. apply run_bind, run_symbol_at; [done|by apply Hp|]. intros to _ Hto.
    destruct (bool_decide_reflect (sym_state to = Sym_Label)) as [Hl|Hl]; cbn [negb]; [|by apply run_error].
    apply update_symbol_safe; [done..|]. intros s' [_ Hseq]. apply place_ok; [by apply Hto|done].
Qed.

(** ** Sections *)

Lemma find_section_safe seg sect fl z a : asm_ok a ->
  run (find_or_add_section seg sect fl z) a (fun i a' => steady a a' /\ 0 <= i < Z.of_nat (section_count a') /\
    current_section_ a' = current_section_ a).
Proof.
  intros Ha. unfold find_or_add_section. apply run_bind, run_get. destruct (list_find _ _) as [[i s]|] eqn:E.
  - apply list_find_Some in E as (E & _). apply lookup_lt_Some in E. apply run_ret. split; [by apply steady_refl'|].
    split; [unfold section_count; lia|done].
  - apply run_bind, run_modify, run_ret. unfold size. split; [|unfold section_count; cbn; rewrite length_app; cbn; split; [lia|done]].
    assert (section_count (with_sections (sections (unit_ a) ++ [mkSection seg sect fl 0 z 0 [] [] [] [] []]) a) = S (section_count a)) as E1.
    { unfold section_count. cbn. rewrite length_app. cbn. lia. }
    apply steady_mk; [|done]. destruct Ha. split; rewrite ?E1; cbn; try done; [lia|lia| |].
    + eapply list.Forall_impl; [done|]. intros s. apply symbol_mono. lia.
    + apply Forall_app. split; [done|]. apply list.Forall_singleton. by split; cbn.
Qed.
Lemma enter_ok i a : asm_ok a -> 0 <= i < Z.of_nat (section_count a) -> asm_ok (set_current_section i a).
Proof. intros [] Hi. by split. Qed.
Lemma enter_section_safe seg sect fl z a : asm_ok a -> run (enter_section seg sect fl z) a (fun _ a' => steady a a').
Proof.
  intros Ha. unfold enter_section. apply run_bind. eapply run_mono; [by apply find_section_safe|]. intros i a1 ((Ha1 & Hw1 & Hg1) & Hi & _).
  apply run_modify. apply steady_mk; [by apply enter_ok|done].
Qed.
Lemma add_common_ok c a : asm_ok a -> asm_ok (add_common c a).
Proof. intros []. by split. Qed.

(** ** What expressions ask *)

Lemma with_local_steady n l a : asm_ok a -> local_ok (weight a) l -> steady a (with_local n l a).
Proof. intros Ha Hl. apply steady_mk; [by apply with_local_ok|done]. Qed.
Lemma expr_symbol_safe name a : asm_ok a -> (weight a < limit)%nat -> run (expr_symbol_ name) a (fun id a' => names a id a').
Proof.
  intros Ha Hw. unfold expr_symbol_. apply run_bind. eapply run_mono; [by apply intern_safe|]. intros id a1 Hn.
  pose proof Hn as (Ha1 & Hid & _). apply run_bind. eapply run_mono; [apply update_symbol_safe; [done..|]|].
  { intros s [H1 H2]. by split. }
  intros ? a2 Hs. apply run_ret. by eapply names_steady.
Qed.
Lemma expr_here_safe a : asm_ok a -> (weight a < limit)%nat -> run expr_here_ a (fun id a' => names a id a').
Proof.
  intros Ha Hw. unfold expr_here_. apply run_bind. eapply run_mono; [by apply internal_safe|]. intros id a1 Hn.
  pose proof Hn as (Ha1 & Hid & _). destruct (cur_exists a1 Ha1) as (c & Hc & _). apply run_bind, (run_cur _ c); [done|].
  apply run_bind, run_get, run_bind. eapply run_mono; [apply update_symbol_safe; [done..|]|].
  { intros s [_ H]. apply place_ok; [apply Ha1|done]. }
  intros ? a2 Hs. apply run_ret. by eapply names_steady.
Qed.
Lemma expr_local_ref_safe n back l k a : asm_ok a -> (weight a < limit)%nat ->
  run (expr_local_ref_ n back l k) a (fun id a' =>
    asm_ok a' /\ (is_sym id -> known a' id) /\ (weight a' <= S (weight a))%nat /\ grows known a a').
Proof.
  intros Ha Hw. unfold expr_local_ref_, local_label. apply run_bind, run_bind, run_get, run_ret.
  pose proof (local_known a n Ha) as [H1 H2]. set (st := default new_local _) in *. apply run_bind, run_modify.
  assert (Hst : steady a (with_local n st a)) by (by apply with_local_steady). pose proof Hst as (Ha1 & Hw1 & Hg1).
  destruct back.
  - destruct (_ =? _).
    + apply run_bind, run_modify, run_ret. split; [by apply error_ok|]. split; [done|]. split; [apply (Nat.le_succ_diag_r (weight a))|done].
    + apply run_ret. split; [done|]. split; [done|]. split; [lia|done].
  - apply run_bind. eapply run_mono; [apply internal_safe; [done|by rewrite Hw1]|]. intros id a2 (Ha2 & Hid & Hw2 & Hg2).
    apply run_bind, run_modify, run_ret. rewrite Hw1 in Hw2. split; [|split; [done|]; split; [exact Hw2|intros i Hi; by apply Hg2]].
    apply with_local_ok; [done|]. split; cbn.
    + intros Hs. apply Hg2. by apply H1.
    + apply Forall_app. split; [|by apply list.Forall_singleton]. eapply list.Forall_impl; [exact H2|]. intros i Hi. by apply Hg2.
Qed.
Lemma expr_constant_safe id a : asm_ok a -> known a id -> run (expr_constant_value_ id) a (fun _ a' => a' = a).
Proof. intros Ha Hk. unfold expr_constant_value_. by apply run_bind, run_symbol_at. Qed.

#[local] Instance assembler_context_safe : ExprContextSafe Asm asm_ok known weight limit.
Proof.
  split.
  - intros name a Ha Hw. by apply expr_symbol_safe.
  - intros a Ha Hw. by apply expr_here_safe.
  - intros n b l k a Ha Hw. by apply expr_local_ref_safe.
  - intros id a Ha Hk. by apply expr_constant_safe.
  - intros l k m a Ha. split; [by apply error_ok|]. by split.
Qed.
End Invariant.
