(* ===== verification/AsmStatements.v ===== *)
(** * Directives and statements keep the invariant and end

    [W n p s]: the state [s] of the assembler and its lexer is sound, its symbols and
    tokens together are at most [n], its tokens at most [p]. A token that is taken
    pays for a symbol, so no statement raises either. Each handler stays within
    bounds; the loops over commas, labels and statements end because each round
    takes a token. *)
From stdpp Require Import gmap strings.
From S2P Require Import Prelude Vectors Target Outcome AsmLexer AsmExpr Mir AsmUnit Assembler AsmSafe AsmDirectives.
Open Scope Z_scope.

Section Statements.
Variables limit least : nat.
Hypothesis Hlimit : Z.of_nat limit < no_sym.
Abbreviation asm_ok := (AsmSafe.asm_ok limit least).
Abbreviation steady := (AsmExpr.steady asm_ok known weight).
#[local] Instance context_safe : ExprContextSafe Asm asm_ok known weight limit := assembler_context_safe limit least Hlimit.

Definition W (n p : nat) (s : Parsing Asm) : Prop :=
  asm_ok (snd s) /\ (weight (snd s) + pending (fst s) <= n)%nat /\ (pending (fst s) <= p)%nat /\ (n <= limit)%nat.
(** The states a handler may leave. *)
Definition after (n p : nat) (s s' : Parsing Asm) : Prop := W n p s' /\ grows known (snd s) (snd s').

Lemma W_mono n p n' p' s : W n p s -> (n <= n')%nat -> (p <= p')%nat -> (n' <= limit)%nat -> W n' p' s.
Proof. intros (H1 & H2 & H3 & H4) Hn Hp Hl. split; [done|lia]. Qed.
Lemma W_sound n p s : W n p s -> sound asm_ok weight limit s.
Proof. intros (H1 & H2 & H3 & H4). split; [done|lia]. Qed.
Lemma W_ok n p s : W n p s -> asm_ok (snd s).
Proof. by intros []. Qed.
Lemma W_limit n p s : W n p s -> (n <= limit)%nat.
Proof. by intros (_ & _ & _ & H). Qed.
Lemma W_same n p s s' : W n p s -> snd s' = snd s -> (pending (fst s') <= pending (fst s))%nat -> W n p s'.
Proof. intros (H1 & H2 & H3 & H4) E Hp. unfold W. rewrite E. split; [done|lia]. Qed.
Lemma W_follows n p s s' : W n p s -> follows asm_ok known weight s s' -> after n p s s'.
Proof. intros (H1 & H2 & H3 & H4) (B1 & B2 & B3 & B4). split; [|done]. split; [done|lia]. Qed.
Lemma names_refl a : grows known a a.
Proof. by intros id. Qed.
Lemma names_trans a b c : grows known a b -> grows known b c -> grows known a c.
Proof. intros H1 H2 id H. by apply H2, H1. Qed.
Lemma after_refl n p s : W n p s -> after n p s s.
Proof. intros H. split; [done|apply names_refl]. Qed.
Lemma after_mono n p n' p' s1 s2 s3 : after n p s2 s3 -> grows known (snd s1) (snd s2) -> (n <= n')%nat -> (p <= p')%nat -> (n' <= limit)%nat ->
  after n' p' s1 s3.
Proof. intros [H1 H2] Hg Hn Hp Hl. split; [by eapply W_mono|by eapply names_trans]. Qed.

(** ** Steps *)

Lemma W_peek n p s Q : W n p s ->
  (forall t s', W n p s' -> snd s' = snd s -> head (buffer (fst s')) = Some t -> Q t s') -> run (lexing peek) s Q.
Proof.
  intros Hs HQ. apply (run_peek asm_ok known weight limit); [by eapply W_sound|]. intros t s' Hf Hc Hh. apply HQ; [|done..].
  eapply W_same; [done..|]. apply Hf.
Qed.
Lemma W_take n p t s Q : W n p s -> head (buffer (fst s)) = Some t -> not_end t ->
  (forall s', W (pred n) (pred p) s' -> snd s' = snd s -> buffer (fst s') = tail (buffer (fst s)) -> (0 < n)%nat -> (0 < p)%nat -> Q t s') ->
  run (lexing take_token) s Q.
Proof.
  intros Hs Hh Hne HQ. apply run_lexing. destruct (take_run (fst s)) as (t' & lx & E & _ & _ & Hlt). pose proof E as E'.
  rewrite (take_head _ _ Hh) in E'. injection E' as <- <-. apply (run_done _ _ _ _ _ E). specialize (Hlt Hne).
  destruct Hs as (H1 & H2 & H3 & H4). apply HQ; cbn in *; [|done|done|lia|lia]. split; [done|cbn; lia].
Qed.
(** A token that nothing is known about. *)
Lemma W_take_any n p s Q : W n p s ->
  (forall t s', W n p s' -> snd s' = snd s -> (pending (fst s') <= pending (fst s))%nat ->
    (not_end t -> W (pred n) (pred p) s' /\ (0 < n)%nat /\ (0 < p)%nat /\ (pending (fst s') < pending (fst s))%nat) -> Q t s') ->
  run (lexing take_token) s Q.
Proof.
  intros Hs HQ. apply run_lexing. destruct (take_run (fst s)) as (t & lx & E & Hp & _ & Hlt). apply (run_done _ _ _ _ _ E).
  destruct Hs as (H1 & H2 & H3 & H4). apply HQ; cbn; [split; [done|cbn; lia]|done|done|]. intros Hne. specialize (Hlt Hne).
  split; [split; [done|cbn; lia]|lia].
Qed.
Lemma W_peek_second n p t1 s Q : W n p s -> head (buffer (fst s)) = Some t1 ->
  (forall t s', W n p s' -> snd s' = snd s -> head (buffer (fst s')) = Some t1 -> buffer (fst s') !! 1%nat = Some t -> Q t s') ->
  run (lexing peek_second) s Q.
Proof.
  intros Hs Hh HQ. apply run_lexing. destruct (peek_second_run (fst s)) as (t & lx & E & Ht & Hp & _ & _ & [l Hl]).
  apply (run_done _ _ _ _ _ E). apply HQ; [by eapply W_same|done| |done]. cbn. rewrite Hl. destruct (buffer (fst s)); [done|exact Hh].
Qed.
Lemma head_tail {A} (l : list A) x y : head l = Some x -> l !! 1%nat = Some y -> head (tail l) = Some y.
Proof. destruct l as [|a [|b l]]; [done..|]. by intros _ [= ->]. Qed.
Lemma W_skip n p s (Q : unit -> Parsing Asm -> Prop) : W n p s -> (forall s', W n p s' -> snd s' = snd s -> Q tt s') -> run skip s Q.
Proof.
  intros Hs HQ. apply run_lexing. destruct (skip_ends (fst s)) as (lx & E & Hp & _). apply (run_done _ _ _ _ _ E).
  apply HQ; [|done]. by eapply W_same.
Qed.
(** Code over the assembler alone. *)
Lemma W_steady {A} (m : M Asm A) n p s Q : W n p s -> run m (snd s) (fun _ a' => steady (snd s) a') ->
  (forall v s', W n p s' -> grows known (snd s) (snd s') -> fst s' = fst s -> Q v s') -> run (asking m) s Q.
Proof.
  intros (H1 & H2 & H3 & H4) Hm HQ. apply run_asking. eapply run_mono; [exact Hm|]. intros v a' (B1 & B2 & B3).
  apply HQ; [|done|done]. split; [done|]. cbn. lia.
Qed.
(** Code that may add a symbol, for a token that was taken. *)
Lemma W_paid {A} (m : M Asm A) (good : A -> Asm -> Prop) n p s Q : W n p s -> (n < limit)%nat ->
  (asm_ok (snd s) -> (weight (snd s) < limit)%nat ->
    run m (snd s) (fun v a' => asm_ok a' /\ good v a' /\ (weight a' <= S (weight (snd s)))%nat /\ grows known (snd s) a')) ->
  (forall v s', W (S n) p s' -> grows known (snd s) (snd s') -> fst s' = fst s -> good v (snd s') -> Q v s') -> run (asking m) s Q.
Proof.
  intros (H1 & H2 & H3 & H4) Hn Hm HQ. apply run_asking. eapply run_mono; [apply Hm; [done|lia]|]. intros v a' (B1 & B2 & B3 & B4).
  apply HQ; [|done|done|done]. split; [done|]. cbn. lia.
Qed.
Lemma W_intern name n p s Q : W n p s -> (n < limit)%nat ->
  (forall id s', W (S n) p s' -> grows known (snd s) (snd s') -> fst s' = fst s -> known (snd s') id -> Q id s') ->
  run (asking (intern_symbol name)) s Q.
Proof.
  intros Hs Hn HQ. apply (W_paid _ (fun id a' => known a' id) n p); [done|done| |done]. intros Ha Hw.
  eapply run_mono; [by apply (intern_safe limit least Hlimit)|]. by intros id a' (A1 & A2 & A3 & A4).
Qed.
Lemma W_expression n p s Q : W n p s ->
  (forall v s', after n p s s' -> value_known known (snd s') v -> (ok v = true -> W n (pred p) s' /\ (0 < p)%nat) -> Q v s') ->
  run parse_expression s Q.
Proof.
  intros Hs HQ. eapply run_mono; [apply (parse_expression_run asm_ok known weight limit); by eapply W_sound|].
  intros v s' (H1 & H2 & H3). pose proof (W_follows _ _ _ _ Hs H1) as Haft. apply HQ; [done|done|]. intros Hok. specialize (H3 Hok).
  destruct Haft as [(A1 & A2 & A3 & A4) _]. destruct Hs as (B1 & B2 & B3 & B4). split; [split; [done|lia]|lia].
Qed.

(** ** What statements share *)

Definition leaves {A} (m : Statement A) (n p : nat) (s : Parsing Asm) : Prop := run m s (fun _ s' => W n p s').
Lemma leaves_mono {A} (m : Statement A) n' p' n p s : leaves m n' p' s -> (n' <= n)%nat -> (p' <= p)%nat -> (n <= limit)%nat -> leaves m n p s.
Proof. intros H Hn Hp Hl. eapply run_mono; [exact H|]. intros v s' Hs. by apply (W_mono n' p'). Qed.
Lemma leaves_ret {A} (v : A) n p s : W n p s -> leaves (mret v) n p s.
Proof. done. Qed.
Lemma leaves_steady {A B} (m : M Asm A) (k : A -> Statement B) n p s : W n p s -> run m (snd s) (fun _ a' => steady (snd s) a') ->
  (forall v s', W n p s' -> leaves (k v) n p s') -> leaves (v ← asking m; k v) n p s.
Proof. intros Hs Hm HQ. apply run_bind, (W_steady _ n p); [done|done|]. intros v s' H _ _. by apply HQ. Qed.

Lemma run_reject {A} t m (v : A) n p s (Q : A -> Parsing Asm -> Prop) : W n p s -> (forall s', W n p s' -> Q v s') -> run (reject t m v) s Q.
Proof.
  intros Hs HQ. unfold reject. apply run_bind. apply (W_steady _ n p); [done|apply (run_error limit least); [by eapply W_ok|done]|].
  intros [] s1 H1 Hg _. apply run_bind, (W_skip n p); [done|]. intros s2 H2 E2. apply run_ret. by apply HQ.
Qed.
Lemma leaves_reject {A} t m (v : A) n p s : W n p s -> leaves (reject t m v) n p s.
Proof. intros Hs. by apply (run_reject _ _ _ n p). Qed.
Lemma leaves_skip n p s : W n p s -> leaves skip n p s.
Proof. intros Hs. by apply (W_skip n p). Qed.
Lemma newline_not_end t : is_kind Tok_Newline t = true -> not_end t.
Proof. unfold is_kind, not_end. intros H%bool_decide_eq_true. congruence. Qed.
Lemma kind_not_end k t : is_kind k t = true -> k <> Tok_End -> not_end t.
Proof. unfold is_kind, not_end. intros H%bool_decide_eq_true. congruence. Qed.

Lemma leaves_end n p s : W n p s -> leaves expect_statement_end n p s.
Proof.
  intros Hs. unfold expect_statement_end. apply run_bind, (W_peek n p); [done|]. intros t s1 H1 _ Hh.
  destruct (ends_statement t); [|by apply leaves_reject]. destruct (is_kind Tok_Newline t) eqn:Hk; [|done].
  apply run_bind, (W_take n p t); [done|done|by apply newline_not_end|]. intros s2 H2 _ _ _ _. apply leaves_ret.
  eapply W_mono; [done|lia|lia|by eapply W_limit].
Qed.
Lemma run_comma n p s Q : W n p s ->
  (forall s', W (pred n) (pred p) s' -> snd s' = snd s -> (0 < n)%nat -> (0 < p)%nat -> Q true s') ->
  (forall s', W n p s' -> snd s' = snd s -> Q false s') -> run take_comma s Q.
Proof.
  intros Hs Ht Hf. unfold take_comma. apply run_bind, (W_peek n p); [done|]. intros t s1 H1 E1 Hh.
  destruct (is_punct "," t) eqn:Hk; [|apply run_ret; by apply Hf].
  apply run_bind, (W_take n p t); [done|done|by eapply punct_not_end|]. intros s2 H2 E2 _ Hn Hp. apply run_ret, Ht; [done|congruence|done|done].
Qed.
Lemma run_absolute t w n p s Q : W n p s ->
  (forall o s', W n p s' -> (o <> None -> W n (pred p) s' /\ (0 < p)%nat) -> Q o s') -> run (parse_absolute t w) s Q.
Proof.
  intros Hs HQ. unfold parse_absolute. apply run_bind, (W_expression n p); [done|]. intros v s1 [H1 _] _ Hok.
  destruct (ok v) eqn:Ev; cbn [negb]; [|apply run_ret; by apply HQ]. specialize (Hok eq_refl). destruct (negb _).
  - apply run_bind, (W_steady _ n p); [done|apply (run_error limit least); [by eapply W_ok|done]|]. intros _ s2 H2 _ _. apply run_ret. by apply HQ.
  - apply run_ret. by apply HQ.
Qed.
Lemma leaves_absolute_up t w k n N p s : (n <= N <= limit)%nat -> W n p s -> (forall x s', W n p s' -> leaves (k x) N p s') ->
  leaves (with_absolute t w k) N p s.
Proof.
  intros HN Hs Hk. unfold with_absolute. apply run_bind, (run_absolute _ _ n p); [done|].
  intros [x|] s1 H1 _; [by apply Hk|]. eapply leaves_mono; [by apply leaves_skip|lia..].
Qed.
Lemma leaves_optional_up t w d k n N p s : (n <= N <= limit)%nat -> W n p s -> (forall x s', W n p s' -> leaves (k x) N p s') ->
  leaves (optional_absolute t w d k) N p s.
Proof.
  intros HN Hs Hk. unfold optional_absolute. apply run_bind, (run_comma n p); [done| |].
  - intros s1 H1 _ Hn Hp. assert (W n p s1) by (eapply W_mono; [done|lia..]). by apply (leaves_absolute_up _ _ _ n).
  - intros s1 H1 _. by apply Hk.
Qed.
Lemma leaves_absolute t w k n p s : W n p s -> (forall x s', W n p s' -> leaves (k x) n p s') -> leaves (with_absolute t w k) n p s.
Proof. intros Hs. apply leaves_absolute_up; [|done]. pose proof (W_limit _ _ _ Hs). lia. Qed.
Lemma leaves_optional t w d k n p s : W n p s -> (forall x s', W n p s' -> leaves (k x) n p s') -> leaves (optional_absolute t w d k) n p s.
Proof. intros Hs. apply leaves_optional_up; [|done]. pose proof (W_limit _ _ _ Hs). lia. Qed.
(** After a name and a comma two symbols are paid for. *)
Lemma leaves_name t w k n p s : W n p s -> (forall name s' n', W n' p s' -> (S (S n') <= n)%nat -> leaves (k name) n p s') ->
  leaves (with_name t w k) n p s.
Proof.
  intros Hs Hk. pose proof (W_limit _ _ _ Hs) as Hl. unfold with_name. apply run_bind, (W_peek n p); [done|]. intros name s1 H1 _ Hh.
  destruct (is_kind Tok_Ident name) eqn:Hi; cbn [negb]; [|by apply leaves_reject].
  apply run_bind, (W_take n p name); [done|done|by eapply kind_not_end|]. intros s2 H2 _ _ Hn Hp.
  apply run_bind, (run_comma (pred n) (pred p)); [done| |].
  - intros s3 H3 _ Hn' Hp'. apply (Hk _ _ (pred (pred n))); [eapply W_mono; [done|lia..]|lia].
  - intros s3 H3 _. eapply leaves_mono; [by apply leaves_reject|lia..].
Qed.

(** ** Lists with commas

    The item may use a credit of one, for the comma or the directive before it. *)
Lemma comma_list_go_run item n :
  (forall p s, W n p s -> run item s (fun good s' => W (S n) p s')) -> (S n <= limit)%nat ->
  forall fuel p s, W n p s -> (p < fuel)%nat -> run (comma_list_go fuel item) s (fun _ s' => W (S n) p s').
Proof.
  intros Hitem Hl. induction fuel as [|fuel IH]; intros p s Hs Hf; [lia|]. cbn [comma_list_go].
  apply run_bind. eapply run_mono; [by apply Hitem|]. intros good s1 H1. destruct good; cbn [negb]; [|done].
  apply run_bind, (run_comma (S n) p); [done| |done]. intros s2 H2 _ Hn Hp.
  eapply run_mono; [apply (IH (pred p)); [done|lia]|]. intros v s3 H3. apply (W_mono (S n) (pred p)); [exact H3|lia..].
Qed.
Lemma tokens_left_bound s n p : W n p s -> (pending (fst s) < tokens_left s)%nat.
Proof. intros _. unfold tokens_left. pose proof (pending_bound (fst s)) as H. unfold left in H. lia. Qed.
Lemma W_exact n p s : W n p s -> W n (pending (fst s)) s.
Proof. intros (H1 & H2 & H3 & H4). by split. Qed.
Lemma leaves_comma_list item n p s :
  (forall p s, W n p s -> run item s (fun good s' => W (S n) p s')) -> (S n <= limit)%nat -> W n p s ->
  leaves (comma_list item) (S n) p s.
Proof.
  intros Hitem Hl Hs. unfold comma_list. apply run_bind, run_get, run_bind. pose proof (proj1 (proj2 (proj2 Hs))) as Hp.
  eapply run_mono; [apply (comma_list_go_run item n Hitem Hl _ (pending (fst s))); [by eapply W_exact|by eapply tokens_left_bound]|].
  intros good s1 H1. assert (W (S n) p s1) by (apply (W_mono (S n) (pending (fst s))); [exact H1|lia..]). destruct good; [by apply leaves_end|done].
Qed.

(** ** The directives

    The token of the directive was taken, which pays for one symbol. *)
Definition handles (h : Token -> Statement unit) : Prop := forall t n p s, W n p s -> (S n <= limit)%nat -> leaves (h t) (S n) p s.

Lemma W_S n p s : W n p s -> (S n <= limit)%nat -> W (S n) p s.
Proof. intros H Hl. eapply W_mono; [done|lia..]. Qed.
Lemma W_pred n p s : W (pred n) (pred p) s -> (n <= limit)%nat -> W n p s.
Proof. intros H Hl. eapply W_mono; [done|lia..]. Qed.
Lemma leaves_S {A} (m : Statement A) n p s : (W n p s -> leaves m n p s) -> W n p s -> (S n <= limit)%nat -> leaves m (S n) p s.
Proof. intros Hm Hs Hl. eapply leaves_mono; [by apply Hm|lia..]. Qed.

Lemma run_name n p s Q : W n p s -> (forall o s', W n p s' -> snd s' = snd s -> (o <> None -> W (pred n) (pred p) s') -> Q o s') ->
  run take_name_operand s Q.
Proof.
  intros Hs HQ. unfold take_name_operand. apply run_bind, (W_peek n p); [done|]. intros t s1 H1 E1 Hh.
  destruct (is_kind Tok_Ident t || is_kind Tok_String t) eqn:Hk; [|apply run_ret; by apply HQ].
  apply run_bind, (W_take n p t); [done|done|apply orb_true_iff in Hk as [Hk|Hk]; by eapply kind_not_end|].
  intros s2 H2 E2 _ _ _. apply run_ret, HQ; [apply W_pred; [done|by eapply W_limit]|congruence|done].
Qed.
Lemma section_attributes_run d n : forall fuel p s fl, W n p s -> (pending (fst s) < fuel)%nat ->
  run (section_attributes fuel d fl) s (fun _ s' => W n p s').
Proof.
  induction fuel as [|fuel IH]; intros p s fl Hs Hf; [lia|]. cbn [section_attributes]. pose proof (W_limit _ _ _ Hs) as Hl.
  apply run_bind, (run_comma n (pending (fst s))); [by eapply W_exact| |].
  2: { intros s1 H1 _. apply run_ret. eapply W_mono; [done|lia|by apply Hs|done]. }
  intros s1 H1 _ Hn Hp. cbn [negb]. pose proof (proj1 (proj2 (proj2 Hs))) as Hle.
  assert (H1' : W n p s1) by (eapply W_mono; [done|lia..]). apply run_bind, (W_peek (pred n) (pred (pending (fst s)))); [done|].
  intros t s2 H2 E2 Hh. assert (H2' : W n p s2) by (eapply W_mono; [exact H2|lia..]).
  destruct (is_kind Tok_Ident t || is_kind Tok_String t) eqn:Hk; [|by apply (run_reject _ _ _ n p)].
  apply run_bind, (W_take (pred n) (pred (pending (fst s))) t); [done|done|apply orb_true_iff in Hk as [Hk|Hk]; by eapply kind_not_end|].
  intros s3 H3 E3 _ _ _. assert (H3' : W n p s3) by (eapply W_mono; [exact H3|lia..]).
  destruct (apply_macho_section_attribute _ _) as [fl'|]; [|by apply (run_reject _ _ _ n p)].
  apply IH; [done|]. pose proof (proj1 (proj2 (proj2 H3))). lia.
Qed.
Lemma enter_steady seg sect fl z s n p : W n p s -> run (enter_section seg sect fl z) (snd s) (fun _ a' => steady (snd s) a').
Proof. intros Hs. apply (enter_section_safe limit least); [by eapply W_ok]. Qed.
Lemma dir_section_leaves t n p s : W n p s -> leaves (dir_section t) n p s.
Proof.
  intros Hs. unfold dir_section. apply run_bind, (run_name n p); [done|]. intros [seg|] s1 H1 _ _; [|by apply leaves_reject].
  apply run_bind, run_get. destruct (asm_target_is_elf _).
  { apply leaves_steady; [done|by eapply enter_steady|]. intros _ s2 H2. by apply leaves_skip. }
  destruct (has_prefix _ _); [by apply leaves_reject|]. pose proof (W_limit _ _ _ Hs) as Hl.
  apply run_bind, (run_comma n p); [done| |intros s2 H2 _; by apply leaves_reject]. intros s2 H2 _ _ _. apply W_pred in H2; [|done]. cbn [negb].
  apply run_bind, (run_name n p); [done|]. intros [sect|] s3 H3 _ _; [|by apply leaves_reject]. apply run_bind, run_get, run_bind.
  eapply run_mono; [apply (section_attributes_run t n _ p); [done|by eapply tokens_left_bound]|]. intros [fl|] s4 H4; [|done].
  apply leaves_steady; [done|by eapply enter_steady|]. intros _ s5 H5. by apply leaves_end.
Qed.
Lemma dir_builtin_leaves t n p s : W n p s -> leaves (dir_builtin_section t) n p s.
Proof.
  intros Hs. unfold dir_builtin_section. apply leaves_steady; [done| |intros _ s1 H1; by apply leaves_end].
  unfold enter_builtin. apply run_bind, run_get. repeat case_match; by eapply enter_steady.
Qed.
Lemma bind_as_steady t id a : asm_ok a -> known a id -> run (bind_as t id) a (fun _ a' => steady a a').
Proof.
  intros Ha Hk. unfold bind_as. repeat case_match; (apply (update_symbol_safe limit least); [done..|]); intros s [H1 H2]; by split.
Qed.
Lemma dir_symbol_binding_handles : handles dir_symbol_binding.
Proof.
  intros t n p s Hs Hl. apply leaves_comma_list; [|done..]. clear s p Hs. intros p s Hs. apply run_bind, (W_peek n p); [done|].
  intros name s1 H1 _ Hh. destruct (is_kind Tok_Ident name) eqn:Hi; cbn [negb].
  2: { apply (run_reject _ _ _ n p); [done|]. intros s2 H2. by apply W_S. }
  apply run_bind, (W_intern _ n p); [done|lia|]. intros id s2 H2 _ E2 Hk.
  apply run_bind, (W_steady _ (S n) p); [done|apply bind_as_steady; [by eapply W_ok|done]|]. intros _ s3 H3 _ E3.
  apply run_bind, (W_take (S n) p name); [done|by rewrite E3, E2|by eapply kind_not_end|]. intros s4 H4 _ _ _ _. apply run_ret. by apply W_pred in H4.
Qed.
Lemma run_align_limit d fl g n p s Q : W n p s -> (forall o s', W n p s' -> Q o s') -> run (align_limit d fl g) s Q.
Proof.
  intros Hs HQ. unfold align_limit. apply run_bind, (run_comma n p); [done| |intros s1 H1 _; apply run_ret; by apply HQ].
  intros s1 H1 _ _ _. apply W_pred in H1; [|by eapply W_limit]. cbn [negb]. apply run_bind, (run_absolute _ _ n p); [done|].
  intros [x|] s2 H2 _; [apply run_ret; by apply HQ|]. apply run_bind, (W_skip n p); [done|]. intros s3 H3 _. apply run_ret. by apply HQ.
Qed.
Lemma run_align_operands d n p s Q : W n p s -> (forall o s', W n p s' -> Q o s') -> run (align_operands d) s Q.
Proof.
  intros Hs HQ. unfold align_operands. apply run_bind, (run_comma n p); [done| |intros s1 H1 _; apply run_ret; by apply HQ].
  intros s1 H1 _ _ _. apply W_pred in H1; [|by eapply W_limit]. cbn [negb]. apply run_bind, (W_peek n p); [done|]. intros t s2 H2 _ _.
  destruct (is_punct _ _); [by apply (run_align_limit _ _ _ n p)|]. apply run_bind, (run_absolute _ _ n p); [done|].
  intros [x|] s3 H3 _; [by apply (run_align_limit _ _ _ n p)|]. apply run_bind, (W_skip n p); [done|]. intros s4 H4 _. apply run_ret. by apply HQ.
Qed.
(** The exponent is found within 63 rounds. *)
Lemma log2_from_ends fuel : forall amount l, 0 <= l -> amount <= 2 ^ (l + Z.of_nat fuel) ->
  exists k, log2_from (S fuel) amount l = Done k /\ 0 <= k.
Proof.
  induction fuel as [|fuel IH]; intros amount l Hl Ha; cbn [log2_from]; rewrite Z.shiftl_mul_pow2 by done.
  - destruct (Z.ltb_spec (1 * 2 ^ l) amount) as [H|H]; [rewrite Z.add_0_r in Ha; lia|by exists l].
  - destruct (Z.ltb_spec (1 * 2 ^ l) amount) as [H|H]; [|by exists l]. apply IH; [lia|].
    replace (l + 1 + Z.of_nat fuel) with (l + Z.of_nat (S fuel)) by lia. done.
Qed.
Lemma dir_align_leaves t n p s : W n p s -> leaves (dir_align t) n p s.
Proof.
  intros Hs. unfold dir_align. apply leaves_absolute; [done|]. intros amount s1 H1.
  apply run_bind, (run_align_operands _ n p); [done|]. intros [[[fl g] lim]|] s2 H2; [|done].
  assert (Halign : forall l, 0 <= l -> leaves (_ ← asking (align_current l fl g lim t); expect_statement_end) n p s2).
  { intros l Hl. apply leaves_steady; [done|apply (align_current_safe limit least); [by eapply W_ok|done]|]. intros _ s3 H3. by apply leaves_end. }
  destruct (is_text t _).
  - destruct (is_power_of_two amount) eqn:Hp; cbn [negb]; [|by apply leaves_reject].
    apply andb_true_iff in Hp as [Hp%Z.ltb_lt _].
    destruct (log2_from_ends (Z.to_nat (Z.log2 amount) + 1) amount 0) as (k & E & Hk); [lia| |].
    { pose proof (Z.log2_spec amount Hp) as [_ H]. pose proof (Z.log2_nonneg amount).
      replace (0 + Z.of_nat (Z.to_nat (Z.log2 amount) + 1)) with (Z.succ (Z.log2 amount)) by lia. lia. }
    replace (Z.to_nat (Z.log2 amount) + 2)%nat with (S (Z.to_nat (Z.log2 amount) + 1)) by lia.
    apply run_bind. eapply run_lift; [done|]. by apply Halign.
  - destruct (Z.ltb_spec amount 0) as [Hlt|Hge]; [by apply leaves_reject|]. destruct (30 <? amount); [by apply leaves_reject|].
    by apply Halign.
Qed.

(** *** Data *)

Lemma run_not_zerofill t n p s Q : W n p s -> (forall b s', W n p s' -> grows known (snd s) (snd s') -> fst s' = fst s -> Q b s') ->
  run (asking (check_not_zerofill t)) s Q.
Proof. intros Hs HQ. apply (W_steady _ n p); [done|apply (check_not_zerofill_safe limit least); by eapply W_ok|]. intros b s1 H1 H2 H3. by apply HQ. Qed.
Lemma kind_data name : fixup_is_data (data_width_for name) = true.
Proof. unfold data_width_for. by repeat case_match. Qed.
(** A list of symbols that is paid for. *)
Lemma run_expr_symbol name n p a : asm_ok a -> (weight a + p <= n)%nat -> (S n <= limit)%nat ->
  run (expr_symbol_ name) a (fun id a' => asm_ok a' /\ known a' id /\ (weight a' + p <= S n)%nat /\ grows known a a').
Proof.
  intros Ha Hw Hl. eapply run_mono; [apply (expr_symbol_safe limit least Hlimit); [done|lia]|]. intros id a' (H1 & H2 & H3 & H4).
  split; [done|]. split; [done|]. split; [lia|done].
Qed.
Lemma append_got_run t g n p s : W n p s -> (S (S n) <= limit)%nat ->
  (forall a, asm_ok a -> (weight a + pending (fst s) <= n)%nat ->
    run (_ ← g a; append_bytes [0; 0; 0; 0]) a (fun _ a' => asm_ok a' /\ (weight a' + pending (fst s) <= S (S n))%nat)) ->
  run (append_got t g) s (fun _ s' => W (S (S n)) p s').
Proof.
  intros Hs Hl Hg. unfold append_got. apply run_bind, (run_not_zerofill _ n p); [done|]. intros b s1 H1 _ E1.
  assert (H1' : W (S (S n)) p s1) by (eapply W_mono; [done|lia..]). destruct b; cbn [negb].
  - apply run_bind, run_asking, run_bind, run_get. eapply run_mono; [apply Hg; [by eapply W_ok|]|].
    { destruct H1 as (A1 & A2 & A3 & A4). by rewrite <- E1. }
    intros _ a' [A1 A2]. apply run_ret. split; [done|]. cbn. rewrite E1. split; [done|]. split; [|done]. by apply Hs.
  - apply run_bind, (W_skip (S (S n)) p); [done|]. intros s2 H2 _. by apply run_ret.
Qed.
Lemma run_got_addend d n p s Q : W n p s -> (forall o s', W n p s' -> Q o s') -> run (got_addend d) s Q.
Proof.
  intros Hs HQ. unfold got_addend. apply run_bind, (W_peek n p); [done|]. intros t s1 H1 _ Hh.
  destruct (is_punct "+" t || is_punct "-" t) eqn:Hk; [|apply run_ret; by apply HQ].
  apply run_bind, (W_take n p t); [done|done|apply orb_true_iff in Hk as [Hk|Hk]; by eapply punct_not_end|].
  intros s2 H2 _ _ _ _. apply W_pred in H2; [|by eapply W_limit]. apply run_bind, (run_absolute _ _ n p); [done|]. intros [x|] s3 H3 _.
  - destruct (is_punct "-" t); [|apply run_ret; by apply HQ]. apply run_bind, run_checked. intros _. apply run_ret. by apply HQ.
  - apply run_bind, (W_skip n p); [done|]. intros s4 H4 _. apply run_ret. by apply HQ.
Qed.
Lemma fits_names n kind pos neg len : fixup_width_bytes kind <= len -> fixup_names n (mkFixup 0 kind 0 pos neg Plain 0 0 0 0 0) ->
  fixup_fits n 0 kind pos neg len.
Proof. by repeat split. Qed.
(** A fixup of symbols that are known, with its bytes. *)
Lemma run_got_fixup kind k pos neg fl t a n p : asm_ok a -> (weight a + p <= n)%nat -> fixup_width_bytes kind = 4 ->
  fixup_names (weight a) (mkFixup 0 kind 0 pos neg Plain 0 0 0 0 0) ->
  run (push_fixup 0 kind k pos neg fl 0 0 t) a (fun _ a1 =>
    run (append_bytes [0; 0; 0; 0]) a1 (fun _ a' => asm_ok a' /\ (weight a' + p <= n)%nat)).
Proof.
  intros Ha Hw Hwidth Hn. apply (run_unbind _ (fun _ => append_bytes [0; 0; 0; 0])).
  eapply run_mono; [apply (fixup_and_bytes limit); [done|apply fits_names; [by rewrite Hwidth|done]]|]. intros ? a2 (B1 & B2 & B3).
  split; [done|lia].
Qed.
Lemma got_item_run t name n p s : W n p s -> (S (S n) <= limit)%nat -> run (got_item t name) s (fun _ s' => W (S (S n)) p s').
Proof.
  intros Hs Hl. assert (HS : forall s', W n p s' -> W (S (S n)) p s') by (intros; eapply W_mono; [done|lia..]).
  unfold got_item. apply run_bind, (W_peek n p); [done|]. intros suffix s1 H1 _ Hh.
  destruct (is_kind Tok_Ident suffix) eqn:Hk; cbn [negb orb]; [|by apply (run_reject _ _ _ n p)].
  destruct (negb _ && _); [by apply (run_reject _ _ _ n p)|].
  apply run_bind, (W_take n p suffix); [done|done|by eapply kind_not_end|]. intros s2 H2 _ _ _ _. apply W_pred in H2; [|lia].
  destruct (is_text suffix _).
  - apply run_bind, (run_got_addend _ n p); [done|]. intros [k|] s3 H3; [|by apply HS]. apply append_got_run; [done|done|].
    intros a Ha Hw. apply run_bind, run_bind. eapply run_mono; [apply (run_expr_symbol _ n (pending (fst s3))); [done|done|lia]|].
    intros id a1 (A1 & A2 & A3 & A4). apply run_got_fixup; [done|lia|done|done].
  - apply run_bind, (W_peek n p); [done|]. intros minus s3 H3 _ Hh3. apply run_bind, (W_peek_second n p minus); [done|done|].
    intros label s4 H4 _ Hh4 Hl4. destruct (is_punct "-" minus) eqn:Hm; cbn [negb orb]; [|by apply (run_reject _ _ _ n p)].
    destruct (is_kind Tok_Ident label) eqn:Hlab; cbn [negb orb]; [|by apply (run_reject _ _ _ n p)].
    apply run_bind, (W_take n p minus); [done|done|by eapply punct_not_end|]. intros s5 H5 _ E5 _ _. apply W_pred in H5; [|lia].
    apply run_bind, (W_take n p label); [done|rewrite E5; by apply (head_tail _ minus)|by eapply kind_not_end|].
    intros s6 H6 _ _ _ _. apply W_pred in H6; [|lia]. apply append_got_run; [done|done|].
    intros a Ha Hw. apply run_bind, run_bind. eapply run_mono; [apply (run_expr_symbol _ n (pending (fst s6))); [done|done|lia]|].
    intros pos a1 (A1 & A2 & A3 & A4). apply run_bind.
    eapply run_mono; [apply (run_expr_symbol _ (S n) (pending (fst s6))); [done|done|lia]|].
    intros neg a2 (B1 & B2 & B3 & B4). apply run_got_fixup; [done|lia|done|]. split; [by apply B4|done].
Qed.
Lemma data_item_run t n p s : W n p s -> (S n <= limit)%nat -> run (data_item t) s (fun _ s' => W (S n) p s').
Proof.
  intros Hs Hl. unfold data_item. apply run_bind, (W_peek n p); [done|]. intros name s1 H1 _ Hh1.
  apply run_bind, (W_peek_second n p name); [done|done|]. intros at_sign s2 H2 _ Hh2 Hl2.
  destruct (bool_decide _ && _ && _) eqn:Hat.
  - apply andb_true_iff in Hat as [Hat Hp]. apply andb_true_iff in Hat as [_ Hat].
    apply run_bind, (W_take n p name); [done|done|apply orb_true_iff in Hat as [Hk|Hk]; by eapply kind_not_end|].
    intros s3 H3 _ E3 Hn Hp0. apply run_bind, (W_take (pred n) (pred p) at_sign); [done|rewrite E3; by apply (head_tail _ name)|by eapply punct_not_end|].
    intros s4 H4 _ _ Hn' _. eapply run_mono; [apply (got_item_run _ _ (pred (pred n)) (pred (pred p))); [done|lia]|].
    intros ? s5 H5. eapply W_mono; [exact H5|lia..].
  - apply run_bind, (W_expression n p); [done|]. intros v s3 [H3 _] Hv _. destruct (ok v); cbn [negb].
    + apply run_bind, (W_steady _ n p); [done|apply (append_data_value_safe limit least); [by eapply W_ok|apply kind_data|done]|].
      intros _ s4 H4 _ _. apply run_ret. by apply W_S.
    + apply run_bind, (W_skip n p); [done|]. intros s4 H4 _. apply run_ret. by apply W_S.
Qed.
Lemma dir_data_value_handles : handles dir_data_value.
Proof. intros t n p s Hs Hl. apply leaves_comma_list; [|done..]. intros p' s' Hs'. by apply data_item_run. Qed.
Lemma dir_ascii_handles : handles dir_ascii.
Proof.
  intros t n p s Hs Hl. unfold dir_ascii. cbn zeta. apply run_bind, (run_not_zerofill _ n p); [done|]. intros b s1 H1 _ _.
  destruct b; cbn [negb]; [|apply leaves_skip; by apply W_S]. apply leaves_comma_list; [|done..].
  clear s s1 Hs H1 p. intros p s Hs. apply run_bind, (W_peek n p); [done|]. intros lit s1 H1 _ Hh.
  destruct (is_kind Tok_String lit) eqn:Hk; cbn [negb].
  2: { apply (run_reject _ _ _ n p); [done|]. intros s2 H2. by apply W_S. }
  apply run_bind, (W_take n p lit); [done|done|by eapply kind_not_end|]. intros s2 H2 _ _ _ _. apply W_pred in H2; [|lia].
  apply run_bind, (W_steady _ n p); [done|apply (append_bytes_safe limit least); by eapply W_ok|]. intros _ s3 H3 _ _.
  apply run_bind, (W_steady _ n p); [done| |].
  - destruct (negb _); [apply (append_bytes_safe limit least); by eapply W_ok|apply run_ret, (steady_refl' limit least); by eapply W_ok].
  - intros _ s4 H4 _ _. apply run_ret. by apply W_S.
Qed.
Lemma dir_space_leaves t n p s : W n p s -> leaves (dir_space t) n p s.
Proof.
  intros Hs. unfold dir_space. apply leaves_absolute; [done|]. intros count s1 H1. destruct (_ <? _); [by apply leaves_reject|].
  apply leaves_optional; [done|]. intros fl s2 H2. apply leaves_steady; [done|apply (append_space_safe limit least); by eapply W_ok|].
  intros _ s3 H3. by apply leaves_end.
Qed.
Lemma dir_org_leaves t n p s : W n p s -> leaves (dir_org t) n p s.
Proof.
  intros Hs. unfold dir_org. apply leaves_absolute; [done|]. intros to s1 H1. apply leaves_optional; [done|]. intros fl s2 H2.
  apply run_bind, run_asking. destruct (cur_exists limit least (snd s2) (W_ok _ _ _ H2)) as (c & Hc & _). apply (run_cur _ c); [done|].
  replace (fst s2, snd s2) with s2 by (by destruct s2). destruct (_ || _); [by apply leaves_reject|].
  apply leaves_steady; [done|apply (append_space_safe limit least); by eapply W_ok|]. intros _ s3 H3. by apply leaves_end.
Qed.

(** *** Symbols *)

Lemma dir_comm_leaves t n p s : W n p s -> leaves (dir_comm t) n p s.
Proof.
  intros Hs. pose proof (W_limit _ _ _ Hs) as Hl. unfold dir_comm. apply leaves_name; [done|]. intros name s1 n' H1 Hn.
  assert (H1' : W n p s1) by (eapply W_mono; [done|lia..]). apply leaves_absolute; [done|]. intros count s2 H2.
  apply leaves_optional; [done|]. intros al s3 H3. destruct (_ || _); [by apply leaves_reject|].
  apply leaves_steady; [done| |intros _ s4 H4; by apply leaves_end]. apply run_modify, steady_mk; [|done].
  apply add_common_ok. by eapply W_ok.
Qed.
Lemma apply_set_leaves id v name n p s : W n p s -> known (snd s) id -> value_known known (snd s) v ->
  leaves (_ ← asking (apply_set id v name); expect_statement_end) n p s.
Proof.
  intros Hs Hid Hv. apply leaves_steady; [done|apply (apply_set_safe limit least); [by eapply W_ok|done..]|]. intros _ s1 H1. by apply leaves_end.
Qed.
Lemma dir_set_leaves t n p s : W n p s -> leaves (dir_set t) n p s.
Proof.
  intros Hs. pose proof (W_limit _ _ _ Hs) as Hl. unfold dir_set. apply leaves_name; [done|]. intros name s1 n' H1 Hn.
  apply run_bind, (W_expression n' p); [done|]. intros v s2 [H2 _] Hv _. assert (H2' : W n p s2) by (eapply W_mono; [done|lia..]).
  destruct (ok v); cbn [negb]; [|by apply leaves_skip].
  apply run_bind, (W_intern _ n' p); [done|lia|]. intros id s3 H3 Hg3 _ Hid.
  apply run_bind, run_asking, (run_symbol_at limit least); [by eapply W_ok|done|]. intros sy _ _.
  replace (fst s3, snd s3) with s3 by (by destruct s3). assert (H3' : W n p s3) by (eapply W_mono; [done|lia..]).
  destruct (_ && _); [by apply leaves_reject|]. apply apply_set_leaves; [done|done|]. by apply (value_grows known (snd s2)).
Qed.
Lemma handle_assignment_handles : handles handle_assignment.
Proof.
  intros t n p s Hs Hl. unfold handle_assignment. apply run_bind, (W_expression n p); [done|]. intros v s1 [H1 _] Hv _.
  destruct (ok v); cbn [negb]; [|apply leaves_skip; by apply W_S].
  apply run_bind, (W_intern _ n p); [done|lia|]. intros id s2 H2 Hg2 _ Hid. apply apply_set_leaves; [done|done|].
  by apply (value_grows known (snd s1)).
Qed.
Lemma push_leb_safe sg v t a : asm_ok a -> value_known known a v -> run (push_leb sg v t) a (fun _ a' => steady a a').
Proof.
  intros Ha [Hp Hn]. unfold push_leb. destruct (is_absolute v).
  - destruct (leb_bytes_size (constant v) sg) as (b & E & _). apply run_bind. eapply run_lift; [done|].
    by apply (append_bytes_safe limit least).
  - destruct (cur_exists limit least a Ha) as (c & Hc & Hok). apply run_bind, (run_cur _ c); [done|]. eapply run_update_cur; [done|].
    apply put_cur_steady; [done|]. apply (add_deferred_ok limit); [done| |done]. split; [|cbn; lia].
    destruct sg; exact (conj Hp Hn).
Qed.
Lemma dir_leb_handles : handles dir_leb.
Proof.
  intros t n p s Hs Hl. unfold dir_leb. apply run_bind, (run_not_zerofill _ n p); [done|]. intros b s1 H1 _ _.
  destruct b; cbn [negb]; [|apply leaves_skip; by apply W_S]. cbn zeta. apply leaves_comma_list; [|done..].
  clear s s1 Hs H1 p. intros p s Hs. apply run_bind, (W_expression n p); [done|]. intros v s1 [H1 _] Hv _.
  destruct (ok v); cbn [negb].
  - apply run_bind, (W_steady _ n p); [done|apply push_leb_safe; [by eapply W_ok|done]|]. intros _ s2 H2 _ _. apply run_ret. by apply W_S.
  - apply run_bind, (W_skip n p); [done|]. intros s2 H2 _. apply run_ret. by apply W_S.
Qed.

(** *** Zerofill *)

Lemma reserve_safe i name count al t a : asm_ok a -> (weight a < limit)%nat -> 0 <= i < Z.of_nat least ->
  current_section_ a < Z.of_nat least -> run (reserve i name count al t) a (fun _ a' => asm_ok a' /\ (weight a' <= S (weight a))%nat /\ grows known a a').
Proof.
  intros Ha Hw Hi Hcur. unfold reserve. apply run_bind, run_get, run_bind, run_modify, run_bind.
  assert (Hat : forall a', asm_ok a' -> asm_ok (set_current_section i a')).
  { intros a' Ha'. apply enter_ok; [done|]. pose proof (ok_least _ _ _ Ha'). lia. }
  assert (Ha0 : asm_ok (set_current_section i a)) by (by apply Hat).
  eapply run_mono; [apply (align_current_safe limit least); [done|]|]. { unfold uwrap. by apply Z.mod_pos_bound. }
  intros ? a1 (A1 & A2 & A3). apply run_bind. eapply run_mono; [apply (intern_safe limit least Hlimit); [done|by rewrite A2]|].
  intros id a2 Hn. pose proof Hn as (B1 & B2 & B3 & B4). apply run_bind. eapply run_mono; [by apply (bind_safe limit least)|].
  intros ? a3 Hst. destruct (names_steady _ _ _ _ _ _ Hn Hst) as (C1 & _ & C3 & C4).
  destruct (cur_exists limit least a3 C1) as (c & Hc & Hok). apply run_bind. eapply run_update_cur; [done|]. apply run_modify.
  set (c' := with_zerofill_size _ c). assert (Hc' : asm_ok (put_cur c' a3)).
  { apply put_cur_ok; [done|]. by apply (same_section_ok _ c). }
  split; [|split; [rewrite A2 in C3; exact C3|intros j Hj; by apply C4, A3]]. apply enter_ok; [done|].
  pose proof (ok_current _ _ _ Ha) as H1. pose proof (ok_least _ _ _ Hc'). lia.
Qed.
Lemma zerofill_rest i name count al t n p s : W n p s -> (n < limit)%nat -> 0 <= i < Z.of_nat least ->
  current_section_ (snd s) < Z.of_nat least -> leaves (_ ← asking (reserve i name count al t); expect_statement_end) (S n) p s.
Proof.
  intros Hs Hn Hi Hcur. apply run_bind, (W_paid _ (fun _ _ => True) n p); [done|done| |].
  - intros Ha Hw. eapply run_mono; [by apply reserve_safe|]. by intros v a' (H1 & H2 & H3).
  - intros _ s1 H1 _ _ _. by apply leaves_end.
Qed.
End Statements.

(** The sections that are there stay there. *)
Lemma asm_ok_count limit least a : asm_ok limit least a -> asm_ok limit (section_count a) a.
Proof. intros []. by split. Qed.
Lemma asm_ok_fewer limit m least a : asm_ok limit m a -> (least <= m)%nat -> asm_ok limit least a.
Proof. intros [] H. split; try done. lia. Qed.
Lemma W_count limit least n p s : W limit least n p s -> W limit (section_count (snd s)) n p s.
Proof. intros (H1 & H2). split; [by eapply asm_ok_count|done]. Qed.
Lemma W_fewer limit m least n p s : W limit m n p s -> (least <= m)%nat -> W limit least n p s.
Proof. intros (H1 & H2) H. split; [by eapply asm_ok_fewer|done]. Qed.
Lemma leaves_fewer {A} (m : Statement A) limit k least n p s : leaves limit k m n p s -> (least <= k)%nat -> leaves limit least m n p s.
Proof. intros H Hl. eapply run_mono; [exact H|]. intros v s' Hs. by apply (W_fewer _ k). Qed.

Section Handlers.
Variable limit : nat.
Hypothesis Hlimit : Z.of_nat limit < no_sym.

Lemma zerofill_leaves least t seg sect n p s : W limit least n p s -> leaves limit least (zerofill_section t seg sect) n p s.
Proof.
  intros Hs. pose proof (W_limit _ _ _ _ _ Hs) as Hl. unfold zerofill_section.
  apply run_bind, run_asking. eapply run_mono; [apply (find_section_safe limit least); by eapply W_ok|].
  intros i a1 ((A1 & A2 & A3) & Hi & _). assert (H1 : W limit least n p (fst s, a1)).
  { destruct Hs as (B1 & B2 & B3 & B4). split; [done|]. cbn. lia. }
  apply W_count in H1. apply (leaves_fewer _ limit (section_count a1)); [|apply A1]. cbn [snd] in H1. set (m := section_count a1) in *.
  destruct (proj2 (at_is_Some (sections (unit_ a1)) i)) as [c Hc]; [done|].
  apply run_bind, run_asking, run_bind, run_get. eapply run_must; [done|]. cbn [fst snd].
  destruct (negb (zerofill c)); [by eapply leaves_reject|].
  apply run_bind, (run_comma limit m n p); [done| |intros s2 H2 _; by eapply leaves_end].
  intros s2 H2 _ _ _. apply W_pred in H2; [|done]. cbn [negb]. apply (leaves_name limit m); [done|]. intros name s3 n' H3 Hn.
  apply (leaves_mono limit m _ (S n') p n p); [|lia..].
  assert (Hup : forall s, W limit m n' p s -> W limit m (S n') p s) by (intros s4 H4; eapply W_S; [done|lia]).
  apply (leaves_absolute_up limit m Hlimit _ _ _ n'); [lia|done|]. intros count s4 H4.
  apply (leaves_optional_up limit m Hlimit _ _ _ _ n'); [lia|done|]. intros al s5 H5.
  destruct (_ || _); [eapply leaves_reject; by apply Hup|].
  pose proof (ok_least _ _ _ (W_ok _ _ _ _ _ H5)) as Hm. apply W_count in H5.
  apply (leaves_fewer _ limit (section_count (snd s5))); [|done]. pose proof (ok_current _ _ _ (W_ok _ _ _ _ _ H5)).
  apply (zerofill_rest limit _ Hlimit); [done|lia|lia|lia].
Qed.
Lemma dir_zerofill_leaves least t n p s : W limit least n p s -> leaves limit least (dir_zerofill t) n p s.
Proof.
  intros Hs. pose proof (W_limit _ _ _ _ _ Hs) as Hl. unfold dir_zerofill.
  apply run_bind, (run_name limit least n p); [done|]. intros [seg|] s1 H1 _ _; [|by eapply leaves_reject].
  apply run_bind, (run_comma limit least n p); [done| |intros s2 H2 _; by eapply leaves_reject].
  intros s2 H2 _ _ _. apply W_pred in H2; [|done]. cbn [negb].
  apply run_bind, (run_name limit least n p); [done|]. intros [sect|] s3 H3 _ _; [|by eapply leaves_reject].
  by apply zerofill_leaves.
Qed.

(** Every handler of the table. *)
Lemma handler_handles least d : handles limit least (handler d).
Proof.
  assert (Hup : forall h, (forall t n p s, W limit least n p s -> leaves limit least (h t) n p s) -> handles limit least h).
  { intros h Hh t n p s Hs Hl. eapply leaves_mono; [by apply Hh|lia..]. }
  destruct d; cbn [handler].
  - apply Hup. intros t n p s. by eapply dir_section_leaves.
  - apply Hup. intros t n p s. by eapply dir_builtin_leaves.
  - by eapply dir_symbol_binding_handles.
  - apply Hup. intros t n p s. by eapply dir_align_leaves.
  - by eapply dir_data_value_handles.
  - by eapply dir_ascii_handles.
  - apply Hup. intros t n p s. by eapply dir_space_leaves.
  - apply Hup. intros t n p s. by eapply dir_comm_leaves.
  - apply Hup. intros t n p s. apply dir_zerofill_leaves.
  - apply Hup. intros t n p s. by eapply dir_set_leaves.
  - apply Hup. intros t n p s. by eapply dir_org_leaves.
  - by eapply dir_leb_handles.
  - apply Hup. intros t n p s. apply leaves_skip.
  - apply Hup. intros t n p s. by eapply leaves_reject.
Qed.
End Handlers.

(** ** Statements *)

(** What the parser of instructions promises: it is given the mnemonic, which was
    taken, stays within bounds, ends, and keeps the invariant. *)
Class InstructionParserSafe `{!InstructionParser} : Prop :=
  parse_instruction_safe : forall limit least, Z.of_nat limit < no_sym -> handles limit least parse_instruction.

Section Run.
Context {parser : InstructionParser} {parser_safe : InstructionParserSafe}.
Variables limit least : nat.
Hypothesis Hlimit : Z.of_nat limit < no_sym.
Abbreviation W := (W limit least).

Lemma W_peek_head n p s Q : W n p s ->
  (forall t s', W n p s' -> snd s' = snd s -> head (buffer (fst s')) = Some t ->
    (forall t0, head (buffer (fst s)) = Some t0 -> t0 = t) -> Q t s') -> run (lexing peek) s Q.
Proof.
  intros Hs HQ. apply run_lexing. destruct (peek_run (fst s)) as (t & lx & E & Hh & Hp & _ & Hne & _). apply (run_done _ _ _ _ _ E).
  apply HQ; [by eapply W_same|done|done|]. intros t0 Ht0. cbn in Hh. rewrite Hne in Hh by (by destruct (buffer (fst s))). congruence.
Qed.
(** Skipping takes a token that is there. *)
Lemma W_skip_token n p t s Q : W n p s -> head (buffer (fst s)) = Some t -> not_end t ->
  (forall s', W n (pred p) s' -> snd s' = snd s -> Q tt s') -> run skip s Q.
Proof.
  intros Hs Hh Hne HQ. unfold skip. apply run_lexing. unfold skip_to_statement_end. apply run_bind, run_get.
  pose proof (pending_bound (fst s)) as Hb. unfold left in Hb. cbn [skip_to_statement_end_go]. apply run_bind.
  destruct (take_run (fst s)) as (t' & lx & E & Hp & Hhash & Hlt). pose proof E as E'. rewrite (take_head _ _ Hh) in E'.
  injection E' as <- <-. apply (run_done _ _ _ _ _ E). specialize (Hlt Hne). destruct Hs as (H1 & H2 & H3 & H4).
  assert (HW : forall lx', (pending lx' <= pending (pop_token (fst s)))%nat -> W n (pred p) (lx', snd s)).
  { intros lx' Hle. split; [done|]. cbn. lia. }
  destruct (_ || _); [apply run_ret; apply HQ; [by apply HW|done]|].
  destruct (skip_go_ends (length (buffer (fst s)) + length (rest (cursor (fst s)))) (pop_token (fst s))) as (lx' & E2 & Hp2 & _).
  { assert (pending (pop_token (fst s)) < pending (fst s))%nat by done. lia. }
  apply (run_done _ _ _ _ _ E2). apply HQ; [by apply HW|done].
Qed.
Lemma run_reject_token {A} t m (v : A) n p s Q : W n p s -> head (buffer (fst s)) = Some t -> not_end t ->
  (forall s', W n (pred p) s' -> Q v s') -> run (reject t m v) s Q.
Proof.
  intros Hs Hh Hne HQ. unfold reject. apply run_bind. eapply W_steady; [done|apply (run_error limit least); [by eapply W_ok|done]|].
  intros _ s1 H1 _ E1. apply run_bind, (W_skip_token n p t); [done|by rewrite E1|done|]. intros s2 H2 _. apply run_ret. by apply HQ.
Qed.

(** A label or a statement that is there takes a token. *)
Definition progress (n p : nat) (s s' : Parsing Asm) : Prop :=
  W n p s' /\ forall t, head (buffer (fst s)) = Some t -> not_end t -> W n (pred p) s'.
Lemma progress_of n p s s' : W n (pred p) s' -> (n <= limit)%nat -> progress n p s s'.
Proof. intros H Hl. split; [eapply W_mono; [done|lia..]|done]. Qed.

Lemma parse_labels_run n : forall fuel p s, W n p s -> (pending (fst s) < fuel)%nat ->
  run (parse_labels fuel) s (fun _ s' => W n (pred p) s' \/
    (W n p s' /\ forall t, head (buffer (fst s)) = Some t -> head (buffer (fst s')) = Some t)).
Proof.
  induction fuel as [|fuel IH]; intros p s Hs Hf; [lia|]. cbn [parse_labels]. pose proof (W_limit _ _ _ _ _ Hs) as Hl.
  apply run_bind, (W_peek_head n (pending (fst s))); [by eapply W_exact|]. intros first s1 H1 _ Hh1 Heq.
  apply run_bind, (W_peek_second limit least n (pending (fst s)) first); [done|done|]. intros second s2 H2 _ Hh2 Hs2.
  pose proof (proj1 (proj2 (proj2 Hs))) as Hp.
  assert (Hlab : forall (m : Token -> M Asm unit),
    (forall a, asm_ok limit least a -> (weight a < limit)%nat ->
      run (m first) a (fun _ a' => asm_ok limit least a' /\ (weight a' <= S (weight a))%nat /\ grows known a a')) ->
    is_punct ":" second = true -> not_end first ->
    run (x ← lexing take_token; _ ← lexing take_token; _ ← asking (m x); parse_labels fuel) s2
      (fun _ s' => W n (pred p) s' \/ (W n p s' /\ forall t, head (buffer (fst s)) = Some t -> head (buffer (fst s')) = Some t))).
  { intros m Hm Hc Hne. apply run_bind, (W_take limit least n (pending (fst s)) first); [done..|]. intros s3 H3 _ E3 Hn Hp0.
    apply run_bind, (W_take limit least (pred n) (pred (pending (fst s))) second);
      [done|rewrite E3; by apply (head_tail _ first)|by eapply punct_not_end|].
    intros s4 H4 _ _ Hn' Hp1. apply run_bind.
    apply (W_paid limit least _ (fun _ _ => True) (pred (pred n)) (pred (pred (pending (fst s))))); [done|lia| |].
    { intros Ha Hw. eapply run_mono; [by apply Hm|]. by intros v a' (A1 & A2 & A3). }
    intros _ s5 H5 _ _ _. pose proof (proj1 (proj2 (proj2 H5))) as Hp5.
    eapply run_mono; [apply (IH (pred p)); [eapply W_mono; [exact H5|lia..]|lia]|].
    intros v s6 [H6|[H6 _]]; left; [eapply W_mono; [exact H6|lia..]|exact H6]. }
  destruct (is_kind Tok_Ident first && _ && _) eqn:E1.
  { apply andb_true_iff in E1 as [E1 Hc]. apply andb_true_iff in E1 as [E1 _].
    apply Hlab; [|done|by eapply kind_not_end]. intros a Ha Hw. by apply (define_label_safe limit least Hlimit). }
  destruct (is_kind Tok_Integer first && _) eqn:E2.
  { apply andb_true_iff in E2 as [E2 Hc].
    apply Hlab; [|done|by eapply kind_not_end]. intros a Ha Hw. by apply (define_local_label_safe limit least Hlimit). }
  apply run_ret. right. split; [eapply W_mono; [exact H2|lia..]|]. intros t Ht. by rewrite (Heq _ Ht).
Qed.
(** What follows the labels. *)
Lemma progress_handles h t n p s0 s : handles limit least h -> W (pred n) (pred p) s -> (0 < n)%nat -> (n <= limit)%nat ->
  run (h t) s (fun _ s' => progress n p s0 s').
Proof.
  intros Hh Hs Hn Hl. eapply run_mono; [apply (Hh t (pred n) (pred p)); [done|lia]|]. intros v s' H.
  apply progress_of; [|done]. by replace n with (S (pred n)) by lia.
Qed.
Lemma parse_directive_run n p t s0 s : W n p s -> head (buffer (fst s)) = Some t -> not_end t ->
  run parse_directive s (fun _ s' => progress n p s0 s').
Proof.
  intros Hs Hh Hne. pose proof (W_limit _ _ _ _ _ Hs) as Hl. unfold parse_directive.
  apply run_bind, (W_take limit least n p t); [done..|]. intros s1 H1 _ _ Hn _. apply run_bind. rewrite find_directive_run.
  eapply run_lift; [done|]. destruct (if _ && _ then _ else _) as [d|].
  - apply progress_handles; [by apply handler_handles|done..].
  - apply (run_reject limit least _ _ _ n (pred p)); [eapply W_mono; [exact H1|lia..]|]. intros s2 H2. by apply progress_of.
Qed.
Definition statement_body : Statement unit :=
  t ← lexing peek;
  if ends_statement t then if is_kind Tok_Newline t then _ ← lexing take_token; mret tt else mret tt
  else if negb (is_kind Tok_Ident t) then reject t (str "expected a directive, label, or instruction") tt
  else
    second ← lexing peek_second;
    if is_punct "=" second then
      name ← lexing take_token;
      _ ← lexing take_token;
      handle_assignment name
    else if has_prefix (str ".") (text t) then parse_directive
    else mnemonic ← lexing take_token; parse_instruction mnemonic.
Lemma statement_body_run n p s : W n p s -> run statement_body s (fun _ s' => progress n p s s').
Proof.
  intros Hs. pose proof (W_limit _ _ _ _ _ Hs) as Hl. unfold statement_body. apply run_bind, (W_peek_head n p); [done|].
  intros t s1 H1 _ Hh1 Heq. destruct (ends_statement t) eqn:Hend.
  { destruct (is_kind Tok_Newline t) eqn:Hnl.
    - apply run_bind, (W_take limit least n p t); [done|done|by apply newline_not_end|]. intros s2 H2 _ _ _ _. apply run_ret.
      apply progress_of; [eapply W_mono; [done|lia..]|done].
    - apply run_ret. split; [done|]. intros t0 Ht0 Hne. rewrite (Heq _ Ht0) in Hne. exfalso. unfold ends_statement in Hend.
      rewrite Hnl in Hend. by apply bool_decide_eq_true in Hend. }
  assert (Hne : not_end t).
  { unfold ends_statement in Hend. apply orb_false_iff in Hend as [_ Hend]. by apply bool_decide_eq_false in Hend. }
  destruct (is_kind Tok_Ident t) eqn:Hi; cbn [negb].
  2: { apply (run_reject_token _ _ _ n p); [done..|]. intros s2 H2. by apply progress_of. }
  apply run_bind, (W_peek_second limit least n p t); [done|done|]. intros second s2 H2 _ Hh2 Hs2.
  destruct (is_punct "=" second) eqn:Heqs.
  { apply run_bind, (W_take limit least n p t); [done..|]. intros s3 H3 _ E3 Hn _.
    apply run_bind, (W_take limit least (pred n) (pred p) second); [done|rewrite E3; by apply (head_tail _ t)|by eapply punct_not_end|].
    intros s4 H4 _ _ Hn' _. apply progress_handles; [by apply handle_assignment_handles|eapply W_mono; [exact H4|lia..]|done|done]. }
  destruct (has_prefix _ _); [by apply (parse_directive_run n p t)|].
  apply run_bind, (W_take limit least n p t); [done..|]. intros s3 H3 _ _ Hn _. apply progress_handles; [by apply parser_safe|done..].
Qed.
Lemma parse_statement_run n p s : W n p s -> run parse_statement s (fun _ s' => progress n p s s').
Proof.
  intros Hs. pose proof (W_limit _ _ _ _ _ Hs) as Hl. unfold parse_statement. apply run_bind, run_get, run_bind.
  eapply run_mono; [apply (parse_labels_run n _ p); [done|by eapply tokens_left_bound]|]. intros _ s1 [H1|[H1 Hh]]; fold statement_body.
  - eapply run_mono; [by apply (statement_body_run n (pred p))|]. intros _ s2 [H2 _]. by apply progress_of.
  - eapply run_mono; [by apply (statement_body_run n p)|]. intros _ s2 [H2 H3]. split; [done|]. intros t Ht. apply H3. by apply Hh.
Qed.
Lemma pending_head lx t : head (buffer lx) = Some t -> not_end t -> (0 < pending lx)%nat.
Proof.
  unfold pending. destruct (buffer lx) as [|x l]; [done|]. cbn [head]. intros [= ->] Hne. rewrite filter_cons, decide_True by done.
  cbn. lia.
Qed.
Lemma statements_run n : forall fuel p s, W n p s -> (pending (fst s) < fuel)%nat -> run (statements fuel) s (fun _ s' => W n p s').
Proof.
  induction fuel as [|fuel IH]; intros p s Hs Hf; [lia|]. pose proof (W_limit _ _ _ _ _ Hs) as Hl. cbn [statements].
  apply run_bind, run_get. destruct (error_limit <=? _); [done|]. pose proof (proj1 (proj2 (proj2 Hs))) as Hp.
  apply run_bind, (W_peek_head n (pending (fst s))); [by eapply W_exact|]. intros t s1 H1 _ Hh1 _.
  assert (H1' : W n p s1) by (eapply W_mono; [done|lia..]). destruct (is_kind Tok_End t) eqn:He; [done|].
  assert (Hne : not_end t) by (by apply bool_decide_eq_false in He).
  assert (Hrec : forall s2, W n (pred (pending (fst s))) s2 -> (0 < pending (fst s))%nat -> run (statements fuel) s2 (fun _ s' => W n p s')).
  { intros s2 H2 Hp0. pose proof (proj1 (proj2 (proj2 H2))). apply IH; [eapply W_mono; [done|lia..]|lia]. }
  destruct (is_kind Tok_Newline t).
  - apply run_bind, (W_take limit least n (pending (fst s)) t); [done..|]. intros s2 H2 _ _ _ Hp0. apply Hrec; [|done]. eapply W_mono; [done|lia..].
  - apply run_bind. eapply run_mono; [apply (parse_statement_run n (pending (fst s1))); by eapply W_exact|].
    intros _ s2 [_ H2]. specialize (H2 t Hh1 Hne). pose proof (proj1 (proj2 (proj2 H1))).
    pose proof (pending_head _ _ Hh1 Hne).
    apply Hrec; [eapply W_mono; [done|lia..]|lia].
Qed.
End Run.
