(* ===== verification/AsmRelaxProps.v ===== *)
(** * The layout is consistent

    What expand_deferred_fields leaves when it reports no error: the bytes of the
    section with each field where it belongs, every field of the size it needs for
    the places all labels have in the end. A short branch reaches its target, an
    aligned position is aligned, and a LEB128 number reads back as the difference of
    the final places. *)
From stdpp Require Import gmap strings sorting.
From S2P Require Import Prelude Vectors Target Outcome AsmLexer AsmExpr Mir AsmUnit Assembler AsmSafe AsmRelax.
Open Scope Z_scope.

(** ** Code that only asks

    It reads the symbols, and of the sections not the one it is about. *)
Definition agrees (section : Z) (a c : Asm) : Prop :=
  table c = table a /\ forall j, j <> section -> at_ (sections (unit_ c)) j = at_ (sections (unit_ a)) j.
Lemma agrees_unit section a c : unit_ c = unit_ a -> agrees section a c.
Proof. intros E. unfold agrees, table. by rewrite E. Qed.
Definition asks {A} (section : Z) (m : M Asm A) : Prop := forall a c, agrees section a c ->
  match m a with
  | Done (o, a') => a' = a /\ m c = Done (o, c)
  | Undefined_behaviour => m c = Undefined_behaviour
  | Overflow => m c = Overflow
  | Out_of_fuel => m c = Out_of_fuel
  end.

Section Asks.
Variable section : Z.
Lemma asks_ret {A} (v : A) : asks section (mret v).
Proof. by intros a c _. Qed.
Lemma asks_bind {A B} (m : M Asm A) (k : A -> M Asm B) : asks section m -> (forall v, asks section (k v)) -> asks section (m ≫= k).
Proof.
  intros Hm Hk a c E. specialize (Hm a c E). unfold mbind, state_bind. destruct (m a) as [[v a']| | |]; [|by rewrite Hm..].
  destruct Hm as [-> ->]. apply (Hk v a c E).
Qed.
Lemma asks_must {A} (o : option A) : asks section (must o).
Proof. intros a c _. unfold must. by destruct o. Qed.
Lemma asks_lift {A} (o : outcome A) : asks section (lift o).
Proof. intros a c _. unfold lift. by destruct o. Qed.
Lemma asks_checked x : asks section (checked x).
Proof. intros a c _. unfold checked. by destruct (fits64 x). Qed.
Lemma asks_symbol id : asks section (symbol_at id).
Proof.
  intros a c [E _]. unfold symbol_at, mbind, state_bind, get, must. rewrite E. by destruct (sym (table a) id).
Qed.
Create HintDb asks discriminated.
Hint Resolve asks_ret asks_must asks_lift asks_checked asks_symbol : asks.
Lemma asks_section j : j <> section -> asks section (a ← get; must (at_ (sections (unit_ a)) j)).
Proof.
  intros Hj a c [_ E]. unfold mbind, state_bind, get, must. rewrite E by done. by destruct (at_ (sections (unit_ a)) j).
Qed.
Lemma asks_eq {A} (m m' : M Asm A) : (forall a, m a = m' a) -> asks section m' -> asks section m.
Proof. intros E H a c Hc. rewrite !E. by apply H. Qed.
Lemma asks_symbol_final prefix id : asks section (symbol_final section prefix id).
Proof.
  apply (asks_eq _ (s ← symbol_at id;
    match sym_state s with
    | Sym_Constant => mret (Some (sym_value s, -1))
    | Sym_Undefined => mret None
    | Sym_Label =>
        if sym_section s =? section then
          before ← must (at_ prefix (Z.min (sym_seq s) (size prefix - 1)));
          mret (Some (s64 (sym_offset s + before), sym_section s))
        else
          other ← (a ← get; must (at_ (sections (unit_ a)) (sym_section s)));
          if bool_decide (deferred other = []) then mret (Some (s64 (sym_offset s), sym_section s)) else mret None
    end)).
  { intros a. unfold symbol_final, symbol_at, mbind, state_bind, get, must. destruct (sym (table a) id) as [s|]; [|done].
    destruct (sym_state s); try done. by destruct (sym_section s =? section). }
  apply asks_bind; [auto with asks|]. intros s. destruct (sym_state s); [auto with asks| |auto with asks].
  destruct (Z.eqb_spec (sym_section s) section); apply asks_bind; auto using asks_section with asks. intros o. case_match; auto with asks.
Qed.
Lemma asks_term prefix id : asks section (term_final section prefix id).
Proof. unfold term_final. destruct (is_sym id); [apply asks_symbol_final|apply asks_ret]. Qed.
Lemma asks_leb prefix f : asks section (leb_value section prefix f).
Proof.
  apply asks_bind; [apply asks_term|]. intros [[p ps]|]; [|auto with asks]. apply asks_bind; [auto with asks|]. intros v.
  apply asks_bind; [apply asks_term|]. intros [[q qs]|]; [|auto with asks]. apply asks_bind; auto with asks.
Qed.
Lemma asks_displacement to k here n : asks section (displacement to k here n).
Proof. apply asks_bind; [auto with asks|]. intros t. apply asks_bind; auto with asks. Qed.
Lemma asks_needed prefix i f : asks section (needed_size section prefix i f).
Proof.
  apply asks_bind; [auto with asks|]. intros before.
  assert (Hleb : asks section (value ← leb_value section prefix f;
      match value with None => mret None | Some v => n ← lift (leb_size v (is_sleb f)); mret (Some n) end)).
  { apply asks_bind; [apply asks_leb|]. intros [v|]; [|auto with asks]. apply asks_bind; auto with asks. }
  destruct (df_kind f); [exact Hleb|exact Hleb|auto with asks|]. cbn zeta. destruct (_ <=? _); [auto with asks|].
  apply asks_bind; [apply asks_symbol_final|]. intros [[to ts]|]; [|auto with asks]. apply asks_bind; [apply asks_displacement|]. auto with asks.
Qed.
End Asks.
(** What is asked does not change the state. *)
Lemma asks_same {A} section (m : M Asm A) a v a' : asks section m -> m a = Done (v, a') -> a' = a.
Proof. intros Hm E. specialize (Hm a a (agrees_unit _ _ _ eq_refl)). rewrite E in Hm. by destruct Hm. Qed.
Lemma asks_agree {A} section (m : M Asm A) a c v a' : asks section m -> agrees section a c -> m a = Done (v, a') -> m c = Done (v, c).
Proof. intros Hm Hc E. specialize (Hm a c Hc). rewrite E in Hm. by destruct Hm. Qed.
Lemma asks_other {A} section (m : M Asm A) a c v a' : asks section m -> unit_ c = unit_ a -> m a = Done (v, a') -> m c = Done (v, c).
Proof. intros Hm Hc. apply (asks_agree section); [done|by apply agrees_unit]. Qed.
Lemma run_asks {A} section (m : M Asm A) a (Q : A -> Asm -> Prop) : asks section m -> run m a (fun _ _ => True) ->
  (forall v, m a = Done (v, a) -> Q v a) -> run m a Q.
Proof.
  intros Hm Hr HQ. unfold run in *. specialize (Hm a a (agrees_unit _ _ _ eq_refl)). destruct (m a) as [[v a']| | |]; [|done..].
  destruct Hm as [-> _]. by apply HQ.
Qed.

(** ** Prefixes *)

Definition total (fields : list DeferredField) : Z := foldr (fun f n => df_size f + n) 0 fields.
Lemma total_app f g : total (f ++ g) = total f + total g.
Proof.
  induction f as [|x f IH]; [done|]. change (df_size x + total (f ++ g) = df_size x + total f + total g). lia.
Qed.
Lemma length_prefix_from t fields : length (prefix_from t fields) = S (length fields).
Proof. revert t. induction fields as [|f fields IH]; intros t; cbn; [done|]. by rewrite IH. Qed.
Lemma prefix_from_at fields : forall t i, word 64 t -> (i <= length fields)%nat ->
  prefix_from t fields !! i = Some (u64 (t + total (take i fields))).
Proof.
  induction fields as [|f fields IH]; intros t i Ht Hi.
  - destruct i; [|cbn in Hi; lia]. cbn. by rewrite Z.add_0_r, uwrap_small.
  - destruct i as [|i]; cbn; [by rewrite Z.add_0_r, uwrap_small|].
    rewrite IH; [|apply uwrap_word; lia|cbn in Hi; lia]. unfold uwrap. rewrite Zplus_mod_idemp_l. do 2 f_equal. change (t + df_size f + total (take i fields) = t + (df_size f + total (take i fields))). lia.
Qed.
Lemma prefixes_at fields i : (i <= length fields)%nat -> at_ (prefixes fields) (Z.of_nat i) = Some (u64 (total (take i fields))).
Proof.
  intros Hi. unfold at_, prefixes. destruct (Z.ltb_spec (Z.of_nat i) 0); [lia|]. rewrite Nat2Z.id.
  by rewrite prefix_from_at by (done || (unfold word; lia)).
Qed.
Lemma size_prefixes fields : size (prefixes fields) = Z.of_nat (length fields) + 1.
Proof. unfold size, prefixes. rewrite length_prefix_from. lia. Qed.
Lemma shift_some fields seq : 0 <= seq -> exists d, shift (prefixes fields) seq = Some d.
Proof.
  intros Hs. unfold shift. rewrite size_prefixes. replace (Z.of_nat (length fields) + 1 - 1) with (Z.of_nat (length fields)) by lia.
  destruct (proj2 (at_is_Some (prefixes fields) (Z.min seq (Z.of_nat (length fields))))) as [d Hd]; [rewrite size_prefixes; lia|].
  by exists d.
Qed.
(** The sizes alone matter. *)
Lemma prefix_from_sizes f g : forall t, map df_size f = map df_size g -> prefix_from t f = prefix_from t g.
Proof.
  revert g. induction f as [|x f IH]; intros [|y g] t; cbn; try done. intros [= E1 E2]. by rewrite E1, (IH g).
Qed.

Section Layout.
Variables limit least : nat.
Hypothesis Hlimit : Z.of_nat limit < no_sym.
Abbreviation asm_ok := (AsmSafe.asm_ok limit least).
Abbreviation steady := (AsmExpr.steady asm_ok known weight).

(** ** Places stay within bounds *)

Lemma run_symbol_final a section fields id Q : asm_ok a -> known a id ->
  (forall o, symbol_final section (prefixes fields) id a = Done (o, a) -> Q o a) -> run (symbol_final section (prefixes fields) id) a Q.
Proof.
  intros Ha Hk HQ. apply (run_asks section); [apply asks_symbol_final| |exact HQ]. unfold symbol_final. apply run_bind, run_get, run_bind.
  apply (run_symbol_at limit least); [done..|]. intros s _ [Hsec Hseq]. destruct (sym_state s) eqn:E; [done| |done].
  specialize (Hsec eq_refl). destruct (_ =? _).
  - destruct (shift_some fields (sym_seq s) Hseq) as [d Hd]. apply run_bind. by eapply run_must.
  - destruct (proj2 (at_is_Some (sections (unit_ a)) (sym_section s))) as [o Ho]; [done|]. apply run_bind. eapply run_must; [done|].
    by destruct (bool_decide _).
Qed.
Lemma run_term a section fields id Q : asm_ok a -> (is_sym id -> known a id) ->
  (forall o, term_final section (prefixes fields) id a = Done (o, a) -> Q o a) -> run (term_final section (prefixes fields) id) a Q.
Proof.
  intros Ha Hk HQ. unfold term_final in *. destruct (is_sym id) eqn:E; [apply run_symbol_final; [done|by apply Hk|done]|].
  apply run_ret. by apply HQ.
Qed.
Lemma run_leb a section fields f Q : asm_ok a -> maybe_in (weight a) (df_pos f) -> maybe_in (weight a) (df_neg f) ->
  (forall o, leb_value section (prefixes fields) f a = Done (o, a) -> Q o a) -> run (leb_value section (prefixes fields) f) a Q.
Proof.
  intros Ha Hp Hn HQ. apply (run_asks section); [apply asks_leb| |exact HQ]. unfold leb_value. apply run_bind, run_term; [done..|].
  intros [[p ps]|] _; [|done]. apply run_bind, run_checked. intros _. apply run_bind, run_term; [done..|].
  intros [[q qs]|] _; [|done]. by apply run_bind, run_checked.
Qed.
Lemma run_displacement to k here n a Q : (forall d, displacement to k here n a = Done (d, a) -> d = to + k - (here + n) -> Q d a) ->
  run (displacement to k here n) a Q.
Proof.
  intros HQ. apply (run_asks 0); [apply asks_displacement|by repeat (apply run_bind, run_checked; intros _); apply run_checked|].
  intros d Hd. apply HQ; [done|]. unfold displacement in Hd. apply bind_inv in Hd as (t & a1 & H1 & Hd). apply checked_done in H1 as (-> & -> & _).
  apply bind_inv in Hd as (h & a2 & H2 & Hd). apply checked_done in H2 as (-> & -> & _). by apply checked_done in Hd as (-> & _).
Qed.

(** ** Sizes *)

(** What is known of a field once the branches were looked at: its section is the
    one of the target if it can be filled in. *)
Definition branch_started (f : DeferredField) : Prop :=
  df_kind f = Def_Branch -> df_size f = near_size (df_branch f) \/ (df_size f = 2 /\ patchable (df_branch f) = true).
Definition target_here (a : Asm) (section : Z) (f : DeferredField) : Prop :=
  df_kind f = Def_Branch -> patchable (df_branch f) = true ->
  exists s, sym (table a) (df_pos f) = Some s /\ sym_state s = Sym_Label /\ sym_section s = section.
Definition started (a : Asm) (section : Z) (f : DeferredField) : Prop :=
  field_ok (weight a) f /\ branch_started f /\ target_here a section f.

Lemma align_gap_range l p : 0 <= l <= 30 -> 0 <= p -> 0 <= align_gap l p < 2 ^ l /\ (p + align_gap l p) mod 2 ^ l = 0.
Proof.
  intros Hl Hp. unfold align_gap. rewrite Z.shiftl_mul_pow2, Z.mul_1_l by lia.
  replace (2 ^ l - 1) with (Z.ones l) by (rewrite Z.ones_equiv; lia). rewrite !Z.land_ones by lia.
  assert (Hpow : 0 < 2 ^ l) by (apply Z.pow_pos_nonneg; lia). assert (Hpow2 : 2 ^ l <= 2 ^ 30) by (apply Z.pow_le_mono_r; lia).
  pose proof (Z.mod_pos_bound p (2 ^ l) Hpow) as Hm. rewrite (uwrap_small 64) by (unfold word; lia).
  pose proof (Z.mod_pos_bound (2 ^ l - p mod 2 ^ l) (2 ^ l) Hpow) as Hm2. rewrite (uwrap_small 32) by (unfold word; lia).
  split; [done|]. rewrite Z.add_mod_idemp_r by lia. replace (p + (2 ^ l - p mod 2 ^ l)) with (p - p mod 2 ^ l + 1 * 2 ^ l) by lia.
  rewrite Z.mod_add by lia. rewrite Zminus_mod_idemp_r. by rewrite Z.sub_diag.
Qed.
Lemma leb_size_range v s n : leb_size v s = Done n -> fits64 v = true -> 0 <= n <= 10.
Proof.
  intros H Hv. destruct s.
  - destruct (sleb_bytes_read v [] Hv) as (b & _ & _ & E & _ & Hl). rewrite E in H. injection H as <-. unfold size. lia.
  - destruct (uleb_bytes_read v []) as (b & _ & _ & E & _ & Hl). rewrite E in H. injection H as <-. unfold size. lia.
Qed.
Lemma leb_fits section prefix f a v a' : leb_value section prefix f a = Done (Some v, a') -> fits64 v = true.
Proof.
  unfold leb_value. intros H. apply bind_inv in H as ([[p ps]|] & a1 & _ & H); [|done].
  apply bind_inv in H as (w & a2 & _ & H). apply bind_inv in H as ([[q qs]|] & a3 & _ & H); [|done].
  apply bind_inv in H as (u & a4 & H4 & H). apply checked_done in H4 as (-> & _ & Hf). cbn in H.
  destruct (_ =? _); injection H as H _; congruence.
Qed.
(** The size a field needs is one it may have. *)
Lemma run_needed a section fields i f Q : asm_ok a -> started a section f -> (i <= length fields)%nat -> 0 <= raw_offset f ->
  (forall o, needed_size section (prefixes fields) i f a = Done (o, a) ->
    (forall n, o = Some n -> started a section (with_size n f)) -> Q o a) ->
  run (needed_size section (prefixes fields) i f) a Q.
Proof.
  intros Ha ([Hn Hsize] & Hb & Ht) Hi Hraw HQ.
  assert (Hpost : run (needed_size section (prefixes fields) i f) a (fun o a' => a' = a /\ forall n, o = Some n ->
    0 <= n < 2 ^ 30 /\ (df_kind f = Def_Branch -> n = near_size (df_branch f) \/ (n = 2 /\ patchable (df_branch f) = true)))).
  { unfold needed_size. apply run_bind. eapply run_must; [by apply prefixes_at|].
    assert (Hleb : maybe_in (weight a) (df_pos f) /\ maybe_in (weight a) (df_neg f) -> df_kind f <> Def_Branch ->
      run (value ← leb_value section (prefixes fields) f;
        match value with None => mret None | Some v => n ← lift (leb_size v (is_sleb f)); mret (Some n) end) a
      (fun o a' => a' = a /\ forall n, o = Some n ->
        0 <= n < 2 ^ 30 /\ (df_kind f = Def_Branch -> n = near_size (df_branch f) \/ (n = 2 /\ patchable (df_branch f) = true)))).
    { intros [Hp Hq] Hk. apply run_bind, run_leb; [done..|]. intros [v|] Hv; [|done]. apply leb_fits in Hv.
      destruct (leb_bytes_size v (is_sleb f)) as (b & _ & E). apply run_bind. eapply run_lift; [done|]. apply run_ret. split; [done|].
      intros n [= <-]. pose proof (leb_size_range _ _ _ E Hv). split; [lia|done]. }
    unfold field_names in Hn. unfold branch_started in Hb. destruct (df_kind f) eqn:Ek.
    - apply Hleb; [done|done].
    - apply Hleb; [done|done].
    - apply run_ret. split; [done|]. intros n [= <-]. pose proof (uwrap_range 64 (raw_offset f + u64 (total (take i fields))) ltac:(lia)).
      destruct (align_gap_range (df_align f) (u64 (raw_offset f + u64 (total (take i fields))))) as [H1 _]; [done|lia|].
      assert (2 ^ df_align f <= 2 ^ 30) by (apply Z.pow_le_mono_r; lia). split; [lia|done].
    - destruct Hn as [Hk (B1 & B2 & B3 & B4)]. cbn zeta. pose proof (size_nonneg (near_bytes (df_branch f))).
      assert (Hnear : 0 <= near_size (df_branch f) < 2 ^ 30) by lia.
      destruct (Z.leb_spec (near_size (df_branch f)) (df_size f)); [apply run_ret; split; [done|]; intros n [= <-]; split; [done|by left]|].
      apply run_bind, run_symbol_final; [done|done|]. intros [[to ts]|] _.
      2: { apply run_ret. split; [done|]. intros n [= <-]. split; [done|by left]. }
      apply run_bind, run_displacement. intros d _ _. apply run_ret. split; [done|]. intros n [= <-].
      destruct (_ && _); [|split; [done|by left]]. split; [lia|]. intros _. right. split; [done|]. destruct (Hb eq_refl) as [Hb'|[_ Hb']]; [lia|done]. }
  apply (run_asks section); [apply asks_needed|by eapply run_mono|]. intros o Ho. apply HQ; [done|]. intros n En. rewrite En in Ho.
  pose proof (proj1 (run_done _ _ _ _ _ Ho) Hpost) as [_ Hpost']. destruct (Hpost' n eq_refl) as [H1 H2]. split; [|by split]. split; [exact Hn|exact H1].
Qed.

(** ** Looking at the branches *)

Lemma in_order_offsets l : forall l' from len, map raw_offset l' = map raw_offset l -> in_order from l len -> in_order from l' len.
Proof.
  induction l as [|f l IH]; intros [|g l'] from len E; try done; cbn in *. injection E as E1 E2. intros [H1 H2]. rewrite E1.
  split; [done|by apply IH].
Qed.
(** A field without its size, and without what was found out about its target. *)
Definition erase (f : DeferredField) : DeferredField := with_size 0 (with_patchable false f).
Lemma erase_offsets l l' : map erase l' = map erase l -> map raw_offset l' = map raw_offset l.
Proof.
  revert l'. induction l as [|f l IH]; intros [|g l'] E; try done. cbn in E. injection E as E1 E2 E3 E4 E5 E6 E7 E8 E9 E10 E11 E12 E13 E14 E15.
  cbn. f_equal; [done|by apply IH].
Qed.
Lemma start_branch_run a section atoms i f Q : asm_ok a -> field_ok (weight a) f ->
  (forall g, started a section g -> erase g = erase f -> Q g a) -> run (start_branch section atoms i f) a Q.
Proof.
  intros Ha [Hn Hs] HQ. unfold start_branch. destruct (bool_decide_reflect (df_kind f = Def_Branch)) as [Ek|Ek]; cbn [negb].
  2: { apply run_ret, HQ; [|done]. split; [done|]. split; intros H; congruence. }
  unfold field_names in Hn. rewrite Ek in Hn. destruct Hn as [Hk (B1 & B2 & B3 & B4)]. pose proof (size_nonneg (near_bytes (df_branch f))).
  apply run_bind, run_get, run_bind, (run_symbol_at limit least); [done..|]. intros s Hsym _. apply run_ret, HQ; [|done].
  set (patch := is_label s && _ && _). split; [split|split].
  - unfold field_names. cbn. rewrite Ek. split; [done|]. by repeat split.
  - change (0 <= (if patch && negb (short_opcode (df_branch f) =? 0) then 2 else near_size (df_branch f)) < 2 ^ 30).
    destruct (patch && _); lia.
  - intros _. cbn. destruct patch; cbn; [|by left]. destruct (negb _); [right; done|by left].
  - intros _ Hp. cbn in *. exists s. split; [done|]. subst patch. unfold is_label in Hp.
    apply andb_true_iff in Hp as [Hp _]. apply andb_true_iff in Hp as [H1%bool_decide_eq_true H2%Z.eqb_eq]. done.
Qed.
Lemma each_start a section atoms : forall l i, asm_ok a -> Forall (field_ok (weight a)) l ->
  run (each_go i (start_branch section atoms) l) a (fun l' a' =>
    a' = a /\ Forall (started a section) l' /\ map erase l' = map erase l).
Proof.
  induction l as [|f l IH]; intros i Ha Hl; cbn [each_go]; [by repeat split|]. apply list.Forall_cons in Hl as [Hf Hl].
  apply run_bind, start_branch_run; [done..|]. intros g Hg Hr. apply run_bind. eapply run_mono; [by apply IH|].
  intros l' a' (-> & H1 & H2). apply run_ret. split; [done|]. split; [by constructor|]. cbn. by rewrite Hr, H2.
Qed.

(** ** The rounds *)

Lemma started_unit a c section f : unit_ c = unit_ a -> started a section f -> started c section f.
Proof. intros E. unfold started, target_here, weight, table. by rewrite E. Qed.
Lemma unit_steady a c : asm_ok c -> unit_ c = unit_ a -> steady a c.
Proof. intros Hc E. apply steady_mk; [done|]. unfold weight, table. by rewrite E. Qed.
Definition needs (a : Asm) (section : Z) (prefix : list Z) (i : nat) (f : DeferredField) (n : Z) : Prop :=
  needed_size section prefix i f a = Done (Some n, a).

(** An error was reported, if the code says so. *)
Definition reported (good : bool) (a c : Asm) : Prop :=
  error_count_ a <= error_count_ c /\ (good = false -> error_count_ a < error_count_ c).
Lemma each_resize section fields : forall l i a, asm_ok a -> Forall (started a section) l -> Forall (fun f => 0 <= raw_offset f) l ->
  (i + length l <= length fields)%nat ->
  run (each_go i (resize section (prefixes fields)) l) a (fun l' a' =>
    asm_ok a' /\ unit_ a' = unit_ a /\ Forall2 (fun f r => started a section r.1 /\ r.1 = with_size (df_size r.1) f) l l' /\
    (forallb snd l' = true -> a' = a /\ forall j f r, l !! j = Some f -> l' !! j = Some r ->
      needs a section (prefixes fields) (i + j) f (df_size r.1)) /\ reported (forallb snd l') a a').
Proof.
  induction l as [|f l IH]; intros i a Ha Hl Hr Hi; cbn [each_go].
  { apply run_ret. split; [done|]. split; [done|]. split; [done|]. split; [done|]. by split. }
  apply list.Forall_cons in Hl as [Hf Hl]. apply list.Forall_cons in Hr as [Hrf Hr]. cbn in Hi.
  assert (Hrest : forall x c, asm_ok c -> unit_ c = unit_ a -> started a section x.1 -> x.1 = with_size (df_size x.1) f ->
    (x.2 = true -> c = a /\ needs a section (prefixes fields) i f (df_size x.1)) -> reported x.2 a c ->
    run (r ← each_go (S i) (resize section (prefixes fields)) l; mret (x :: r)) c (fun l' a' =>
      asm_ok a' /\ unit_ a' = unit_ a /\ Forall2 (fun f r => started a section r.1 /\ r.1 = with_size (df_size r.1) f) (f :: l) l' /\
      (forallb snd l' = true -> a' = a /\ forall j g r, (f :: l) !! j = Some g -> l' !! j = Some r ->
        needs a section (prefixes fields) (i + j) g (df_size r.1)) /\ reported (forallb snd l') a a')).
  { intros x c Hc Ec Hx Ex Hgood [Hrep1 Hrep2]. apply run_bind. eapply run_mono; [apply (IH (S i) c); [done| |done|lia]|].
    { eapply list.Forall_impl; [exact Hl|]. intros g. by apply started_unit. }
    intros l' a' (H1 & H2 & H3 & H4 & H5 & H6). apply run_ret. split; [done|]. split; [congruence|]. split; [|split].
    3: { cbn. split; [lia|]. intros [Hx2|Hx2]%andb_false_iff; [specialize (Hrep2 Hx2)|specialize (H6 Hx2)]; lia. }
    - constructor; [done|]. eapply list.Forall2_impl; [exact H3|]. intros g r [G1 G2]. split; [|done]. by apply (started_unit c a).
    - cbn. intros [Hx2 Hl']%andb_true_iff. destruct (Hgood Hx2) as [-> Hn]. destruct (H4 Hl') as [-> Hall]. split; [done|].
      intros [|j] g r Hg Hgr; cbn in Hg, Hgr; [injection Hg as <-; injection Hgr as <-; by rewrite Nat.add_0_r|].
      replace (i + S j)%nat with (S i + j)%nat by lia. by apply Hall. }
  unfold resize at 1. apply run_bind, run_bind, run_needed; [done|done|lia|done|]. intros [n|] Ho Hn.
  - apply run_ret, Hrest; [done|done|by apply Hn|done|done|]. by split.
  - apply run_bind, run_modify, run_ret, Hrest; [by apply error_ok|done| |done|done|split; cbn; lia].
    destruct Hf as ([Hn1 Hn2] & Hb & Ht). cbn. split; [split; [exact Hn1|cbn; lia]|]. split; [|exact Ht]. intros Hk. exfalso.
    revert Ho. unfold needed_size. change (df_kind f = Def_Branch) in Hk. rewrite Hk. intros Ho. apply bind_inv in Ho as (b & a1 & _ & Ho). cbn zeta in Ho.
    destruct (_ <=? _); [done|]. apply bind_inv in Ho as ([[to ts]|] & a2 & _ & Ho); [|done]. by apply bind_inv in Ho as (d & a3 & _ & Ho).
Qed.
Lemma with_size_same f : with_size (df_size f) f = f.
Proof. by destruct f. Qed.
Lemma with_size_offsets l : forall l' : list (DeferredField * bool), Forall2 (fun f r => r.1 = with_size (df_size r.1) f) l l' ->
  map erase (map fst l') = map erase l.
Proof. intros l' H. induction H as [|f r l l' E _ IH]; [done|]. cbn. rewrite IH. f_equal. by rewrite E. Qed.
(** Fields whose sizes are the ones they need. *)
Definition settled (a : Asm) (section : Z) (fields : list DeferredField) : Prop :=
  forall i f, fields !! i = Some f -> needs a section (prefixes fields) i f (df_size f).

Lemma settle_run section : forall rounds fields a, asm_ok a -> Forall (started a section) fields -> Forall (fun f => 0 <= raw_offset f) fields ->
  run (settle rounds section fields) a (fun r a' =>
    asm_ok a' /\ unit_ a' = unit_ a /\ Forall (started a section) r.1.1 /\ map erase r.1.1 = map erase fields /\
    (r.1.2 = true -> r.2 = true -> a' = a /\ settled a section r.1.1) /\ reported r.1.2 a a').
Proof.
  induction rounds as [|rounds IH]; intros fields a Ha Hst Hraw; cbn [settle].
  { apply run_ret. split; [done|]. split; [done|]. split; [done|]. split; [done|]. by split. }
  apply run_bind. eapply run_mono; [apply (each_resize section fields fields 0); done|]. intros l' a1 (H1 & H2 & H3 & H4 & H5).
  assert (Hnext : Forall (started a section) (map fst l')).
  { apply list.Forall_forall. intros g Hg. apply list_elem_of_fmap in Hg as (r & -> & Hr).
    apply list_elem_of_lookup in Hr as [j Hj]. destruct (Forall2_lookup_r _ _ _ _ _ H3 Hj) as (f & _ & Hf & _). exact Hf. }
  assert (Her : map erase (map fst l') = map erase fields).
  { apply with_size_offsets. eapply list.Forall2_impl; [exact H3|]. by intros f r [_ E]. }
  pose proof (erase_offsets _ _ Her) as Hoff.
  destruct (negb (forallb snd l') || _) eqn:Hstop.
  - apply run_ret. cbn. split; [done|]. split; [done|]. split; [done|]. split; [done|]. split; [|done]. intros Hres _. rewrite Hres in Hstop.
    cbn in Hstop. apply bool_decide_eq_true in Hstop. destruct (H4 Hres) as [-> Hall]. split; [done|].
    intros i g Hg. unfold prefixes at 1. rewrite (prefix_from_sizes _ fields 0 Hstop). fold (prefixes fields).
    rewrite list_lookup_fmap in Hg. destruct (l' !! i) as [r|] eqn:Er; [|done]. cbn in Hg. injection Hg as <-.
    destruct (Forall2_lookup_r _ _ _ _ _ H3 Er) as (f & Hf & _ & E). specialize (Hall i f r Hf Er). cbn in Hall.
    assert (df_size r.1 = df_size f) as Esz.
    { assert (map df_size (map fst l') !! i = map df_size fields !! i) as Hi by (by rewrite Hstop).
      rewrite !list_lookup_fmap, Er, Hf in Hi. cbn in Hi. congruence. }
    rewrite E, Esz, with_size_same. cbn. by rewrite <- Esz.
  - eapply run_mono; [apply (IH (map fst l') a1); [done| |]|].
    + eapply list.Forall_impl; [exact Hnext|]. intros g. by apply started_unit.
    + apply list.Forall_forall. intros g Hg. apply list_elem_of_lookup in Hg as [j Hj].
      assert (map raw_offset (map fst l') !! j = Some (raw_offset g)) as Hj' by (by rewrite list_lookup_fmap, Hj).
      rewrite Hoff, list_lookup_fmap in Hj'. destruct (fields !! j) as [f|] eqn:Ef; [|done]. injection Hj' as <-.
      by apply (Forall_lookup_1 _ _ _ _ Hraw Ef).
    + intros [[fs res] conv] a2 (G1 & G2 & G3 & G4 & G5 & G6). cbn in *. split; [done|]. split; [congruence|]. split.
      { eapply list.Forall_impl; [exact G3|]. intros g. by apply (started_unit a1 a). }
      split; [congruence|]. apply orb_false_iff in Hstop as [Hall%negb_false_iff _]. destruct (H4 Hall) as [E1 _]. subst a1.
      split; [|done]. intros Hres Hconv. by destruct (G5 Hres Hconv) as [-> Hset].
Qed.

(** ** What a field that has its size says *)

(** Where a field begins among the final bytes, as the code computes it. *)
Definition field_place (fields : list DeferredField) (i : nat) (f : DeferredField) : Z :=
  u64 (raw_offset f + u64 (total (take i fields))).
Lemma needs_place a section fields i f n (Q : Prop) : (i <= length fields)%nat -> needs a section (prefixes fields) i f n ->
  ((before ← must (Some (u64 (total (take i fields)))); match df_kind f with
    | Def_Align => mret (Some (align_gap (df_align f) (u64 (raw_offset f + before))))
    | Def_Branch =>
        if near_size (df_branch f) <=? df_size f then mret (Some (near_size (df_branch f)))
        else
          to ← symbol_final section (prefixes fields) (df_pos f);
          match to with
          | None => mret (Some (near_size (df_branch f)))
          | Some (to, _) =>
              delta ← displacement to (df_constant f) (s64 (u64 (raw_offset f + before))) 2;
              mret (Some (if (-128 <=? delta) && (delta <=? 127) then 2 else near_size (df_branch f)))
          end
    | _ =>
        value ← leb_value section (prefixes fields) f;
        match value with None => mret None | Some v => n ← lift (leb_size v (is_sleb f)); mret (Some n) end
    end) a = Done (Some n, a) -> Q) -> Q.
Proof. intros Hi H HQ. apply HQ. unfold needs, needed_size in H. rewrite prefixes_at in H by done. exact H. Qed.
Lemma needs_align a section fields i f n : (i <= length fields)%nat -> needs a section (prefixes fields) i f n -> df_kind f = Def_Align ->
  n = align_gap (df_align f) (field_place fields i f).
Proof. intros Hi H Hk. apply (needs_place _ _ _ _ _ _ _ Hi H). rewrite Hk. by intros [= <-]. Qed.
Lemma needs_leb a section fields i f n : (i <= length fields)%nat -> needs a section (prefixes fields) i f n -> is_leb f = true ->
  exists v, leb_value section (prefixes fields) f a = Done (Some v, a) /\ leb_size v (is_sleb f) = Done n.
Proof.
  intros Hi H Hk. apply (needs_place _ _ _ _ _ _ _ Hi H). clear H.
  assert (Hl : (value ← leb_value section (prefixes fields) f;
    match value with None => mret None | Some v => n ← lift (leb_size v (is_sleb f)); mret (Some n) end) a = Done (Some n, a) ->
    exists v, leb_value section (prefixes fields) f a = Done (Some v, a) /\ leb_size v (is_sleb f) = Done n).
  { intros H. apply bind_inv in H as ([v|] & a1 & H1 & H); [|done]. pose proof (asks_same _ _ _ _ _ (asks_leb _ _ _) H1) as ->.
    exists v. split; [done|]. apply bind_inv in H as (m & a2 & H2 & H). unfold lift in H2. destruct (leb_size _ _) as [k| | |]; try done.
    injection H2 as <- <-. unfold mret, state_ret in H. congruence. }
  unfold is_leb in Hk. destruct (df_kind f); try done; exact Hl.
Qed.
(** A short branch that could be long reaches its target. *)
Lemma needs_short a section fields i f n : (i <= length fields)%nat -> needs a section (prefixes fields) i f n -> df_kind f = Def_Branch ->
  df_size f = n -> n < near_size (df_branch f) ->
  exists to ts d, symbol_final section (prefixes fields) (df_pos f) a = Done (Some (to, ts), a) /\
    displacement to (df_constant f) (s64 (field_place fields i f)) 2 a = Done (d, a) /\ -128 <= d <= 127 /\ n = 2.
Proof.
  intros Hi H Hk Hn Hlt. apply (needs_place _ _ _ _ _ _ _ Hi H). rewrite Hk. clear H.
  intros H. apply bind_inv in H as (b & a0 & [= <- <-] & H).
  destruct (Z.leb_spec (near_size (df_branch f)) (df_size f)); [lia|].
  apply bind_inv in H as ([[to ts]|] & a1 & H1 & H).
  2: { injection H as <- _. lia. }
  pose proof (asks_same _ _ _ _ _ (asks_symbol_final _ _ _) H1) as ->. apply bind_inv in H as (d & a2 & H2 & H).
  pose proof (asks_same _ _ _ _ _ (asks_displacement 0 _ _ _ _) H2) as ->. exists to, ts, d. split; [done|]. split; [done|].
  destruct ((-128 <=? d) && (d <=? 127)) eqn:E; injection H as <-; [ztests; lia|lia].
Qed.

(** ** Writing a field *)

(** The long form, filled in. *)
Definition near_with (f : DeferredField) (value : Z) : list Z :=
  let br := df_branch f in
  let at_rel := Z.to_nat (rel_offset br) in
  take at_rel (near_bytes br) ++ little_endian 4 (u64 value) ++ drop (at_rel + 4) (near_bytes br).
Lemma near_with_size f value : branch_ok (df_branch f) -> size (near_with f value) = near_size (df_branch f).
Proof.
  intros (B1 & B2 & B3 & B4). unfold near_with, size in *. rewrite !length_app, length_little_endian, length_take, length_drop. lia.
Qed.
Definition expansion_ok (n : nat) (e : Expansion) : Prop :=
  size (expanded e) < max_bytes /\ Forall (fun r => maybe_in n (rl_symbol r)) (branch_relocs e) /\
  Forall (fun u => known_in n (un_symbol u)) (branch_unresolved e).
(** Bytes are appended, and nothing else but relocations. *)
Definition extends (n : nat) (e : Expansion) (b : list Z) (e' : Expansion) : Prop :=
  expanded e' = expanded e ++ b /\ raw_cursor e' = raw_cursor e /\ expansion_ok n e'.

Lemma run_append_expanded b e c n Q : expansion_ok n e -> (forall e', extends n e b e' -> Q e' c) -> run (append_expanded b e) c Q.
Proof.
  intros (H1 & H2 & H3) HQ. unfold append_expanded. destruct (Z.ltb_spec (size (expanded e) + size b) max_bytes); [|done].
  apply run_ret, HQ. split; [done|]. split; [done|]. split; [cbn; rewrite size_app; lia|done].
Qed.
Lemma run_near_branch f value e c n Q : expansion_ok n e -> branch_ok (df_branch f) ->
  (forall e', extends n e (near_with f value) e' -> Q e' c) -> run (near_branch f value e) c Q.
Proof.
  intros He Hb HQ. pose proof Hb as (B1 & B2 & B3 & B4). unfold near_branch. apply run_bind, (run_append_expanded _ _ _ n); [done|].
  intros e1 (E1 & E2 & E3 & E4 & E5). apply run_bind. rewrite E1.
  assert (Hlen : (Z.to_nat (rel_offset (df_branch f)) + 4 <= length (near_bytes (df_branch f)))%nat) by (unfold size in *; lia).
  eapply (run_must _ (expanded e ++ near_with f value)).
  - replace (size (expanded e ++ near_bytes (df_branch f)) - near_size (df_branch f) + rel_offset (df_branch f))
      with (Z.of_nat (length (expanded e) + Z.to_nat (rel_offset (df_branch f)))) by (rewrite size_app; unfold size in *; lia).
    rewrite write_bytes_spec by (rewrite length_little_endian, length_app; lia). rewrite length_little_endian.
    rewrite take_app_add, <- app_assoc. replace (length (expanded e) + Z.to_nat (rel_offset (df_branch f)) + 4)%nat
      with (length (expanded e) + (Z.to_nat (rel_offset (df_branch f)) + 4))%nat by lia. rewrite drop_app_add. done.
  - apply run_ret, HQ. split; [done|]. split; [done|]. split; [|done]. rewrite E1 in E3. cbn. rewrite size_app in *.
    rewrite near_with_size by done. lia.
Qed.

(** The atoms are symbols. *)
Lemma atoms_known a section x : In x (raw_atoms a section) -> known a x.2.
Proof.
  intros Hin. apply list_elem_of_In in Hin. unfold raw_atoms in Hin. rewrite merge_sort_Permutation in Hin.
  apply list_elem_of_omap in Hin as ([i s] & Hi & Hx). apply list_elem_of_lookup in Hi as [j Hj].
  rewrite list_lookup_imap in Hj. destruct (symbols_ (table a) !! j) as [s'|] eqn:E; [|done]. injection Hj as <- <-.
  apply lookup_lt_Some in E. destruct (_ && _); [|done]. injection Hx as <-. unfold known, known_in, weight. cbn. lia.
Qed.
Lemma atom_before_in k : forall atoms atom, atom_before atoms k atom = atom \/ exists x, In x atoms /\ x.2 = atom_before atoms k atom.
Proof.
  induction atoms as [|[key id] atoms IH]; intros atom; cbn; [by left|]. destruct (key_less k key); [by left|]. right.
  destruct (IH id) as [->|(x & Hx & <-)]; [exists (key, id); split; [by left|done]|exists x; split; [by right|done]].
Qed.
Lemma enclosing_known a section offset seq : maybe_in (weight a) (enclosing_atom (raw_atoms a section) offset seq).
Proof.
  unfold enclosing_atom. destruct (atom_before_in (offset, seq) (raw_atoms a section) no_sym) as [->|(x & Hx & <-)]; [done|].
  intros _. by apply (atoms_known a section).
Qed.

Lemma steady_unit a c c' : unit_ c = unit_ a -> unit_ c' = unit_ c -> unit_ c' = unit_ a.
Proof. congruence. Qed.
Lemma extends_reloc n e b e' r : extends n e b e' -> maybe_in n (rl_symbol r) -> extends n e b (append_reloc r e').
Proof.
  intros (E1 & E2 & E3 & E4 & E5) Hr. split; [done|]. split; [done|]. split; [done|]. split; [|done]. cbn.
  apply Forall_app. split; [done|]. by apply list.Forall_singleton.
Qed.
Lemma extends_unresolved n e b e' u : extends n e b e' -> known_in n (un_symbol u) -> extends n e b (append_unresolved u e').
Proof.
  intros (E1 & E2 & E3 & E4 & E5) Hr. split; [done|]. split; [done|]. split; [done|]. split; [done|]. cbn.
  apply Forall_app. split; [done|]. by apply list.Forall_singleton.
Qed.
(** A branch the linker fills in takes its long form. *)
Lemma run_far section fields atoms here f e c : asm_ok c -> expansion_ok (weight c) e -> known c (df_pos f) -> branch_ok (df_branch f) ->
  (forall o s, maybe_in (weight c) (enclosing_atom atoms o s)) ->
  run (expand_far section (prefixes fields) atoms here f e) c (fun e' c' =>
    asm_ok c' /\ unit_ c' = unit_ c /\ exists b, extends (weight c) e b e' /\ size b = near_size (df_branch f)).
Proof.
  intros Hc He Hk Hb Hat. unfold expand_far. apply run_bind, run_get. cbn zeta.
  assert (Hsize : forall v, size (near_with f v) = near_size (df_branch f)) by (intros v; by apply near_with_size).
  apply run_bind, (run_near_branch _ _ _ _ (weight c)); [done..|]. intros e1 H1.
  assert (Hfail : forall m, run (_ ← modify_state (error_at (df_line f) (df_col f) m); mret e1) c (fun e' c' =>
    asm_ok c' /\ unit_ c' = unit_ c /\ exists b, extends (weight c) e b e' /\ size b = near_size (df_branch f))).
  { intros m. apply run_bind, run_modify, run_ret. split; [by apply error_ok|]. split; [done|]. by exists (near_with f (df_constant f)). }
  apply run_bind, (run_symbol_at limit least); [done..|]. intros to _ _.
  destruct (fragment_mode _ && _).
  { apply run_ret. split; [done|]. split; [done|]. exists (near_with f (df_constant f)). split; [|done]. by apply extends_unresolved. }
  destruct (_ && internal to); [apply Hfail|]. destruct (bool_decide (sym_state to = Sym_Constant)); [apply Hfail|].
  destruct (is_label to && _).
  2: { apply run_ret. split; [done|]. split; [done|]. exists (near_with f (df_constant f)). split; [|done]. apply extends_reloc; [done|].
       by apply known_maybe. }
  set (atom := enclosing_atom atoms _ _). destruct (Z.eqb_spec atom no_sym) as [Ea|Ea]; [apply Hfail|].
  assert (Hatom : known c atom) by (apply Hat; unfold is_sym; fold atom; by rewrite (proj2 (Z.eqb_neq _ _) Ea)).
  apply run_bind, run_symbol_final; [done|done|]. intros [[lp ls]|] _; [|apply Hfail].
  apply run_bind, run_symbol_final; [done|done|]. intros [[ap as_]|] _; [|apply Hfail].
  apply run_bind, run_checked. intros _. apply run_bind, run_checked. intros _.
  apply run_bind, (run_near_branch _ _ _ _ (weight c)); [done..|]. intros e2 H2. apply run_ret. split; [done|]. split; [done|].
  eexists. split; [apply extends_reloc; [done|by apply known_maybe]|done].
Qed.

(** ** What the bytes of a field say *)

Definition encodes (a : Asm) (section : Z) (fields : list DeferredField) (i : nat) (f : DeferredField) (b : list Z) : Prop :=
  size b = df_size f /\
  (df_kind f = Def_Branch -> patchable (df_branch f) = true -> exists to,
    symbol_final section (prefixes fields) (df_pos f) a = Done (Some (to, section), a) /\
    let delta := to + df_constant f - s64 (field_place fields i f + df_size f) in
    b = if df_size f =? 2 then [short_opcode (df_branch f); u8 delta] else near_with f delta) /\
  (is_leb f = true -> exists v,
    leb_value section (prefixes fields) f a = Done (Some v, a) /\ leb_bytes v (is_sleb f) = Done b).

Lemma symbol_final_here a section fields s id o : sym (table a) id = Some s -> sym_state s = Sym_Label -> sym_section s = section ->
  symbol_final section (prefixes fields) id a = Done (o, a) -> exists d, shift (prefixes fields) (sym_seq s) = Some d /\
    o = Some (s64 (sym_offset s + d), section).
Proof.
  intros Hs Hst Hsec H. unfold symbol_final in H. apply bind_inv in H as (x & a1 & [= <- <-] & H).
  apply bind_inv in H as (s' & a2 & H1 & H). unfold symbol_at, mbind, state_bind, get, must in H1. rewrite Hs in H1.
  injection H1 as <- <-. rewrite Hst, Hsec, Z.eqb_refl in H. apply bind_inv in H as (d & a3 & H2 & H). unfold must in H2.
  exists d. unfold shift. destruct (at_ _ _) as [d'|]; [|done]. injection H2 as <- <-. split; [done|]. unfold mret, state_ret in H. congruence.
Qed.
Lemma run_expand_branch a section fields atoms i f e c : asm_ok c -> unit_ c = unit_ a -> expansion_ok (weight c) e ->
  started a section f -> df_kind f = Def_Branch -> (forall o s, maybe_in (weight c) (enclosing_atom atoms o s)) ->
  run (expand_branch section (prefixes fields) atoms (field_place fields i f) f e) c (fun e' c' =>
    asm_ok c' /\ unit_ c' = unit_ a /\ exists b, extends (weight c) e b e' /\ encodes a section fields i f b).
Proof.
  intros Hc Ec He ([Hn Hsz] & Hb & Ht) Hk Hat. unfold field_names in Hn. rewrite Hk in Hn. destruct Hn as [Hid Hbr].
  assert (Hid' : known c (df_pos f)) by (unfold known, weight, table in *; by rewrite Ec). pose proof Hbr as (B1 & B2 & B3 & B4).
  assert (Hnl : is_leb f = true -> False) by (unfold is_leb; by rewrite Hk).
  unfold expand_branch. destruct (patchable (df_branch f)) eqn:Hp.
  - apply run_bind, run_symbol_final; [done|done|]. intros o Ho. destruct (Ht Hk Hp) as (s & Hs & Hst & Hsec).
    assert (Hs' : sym (table c) (df_pos f) = Some s) by (unfold table in *; by rewrite Ec).
    destruct (symbol_final_here _ _ _ _ _ _ Hs' Hst Hsec Ho) as (d & Hd & ->). cbn [fmap option_fmap option_map fst default].
    apply run_bind, run_checked. intros _. apply run_bind, run_checked. intros _.
    set (to := s64 (sym_offset s + d)) in *. set (delta := to + df_constant f - s64 (field_place fields i f + df_size f)).
    assert (Hfin : symbol_final section (prefixes fields) (df_pos f) a = Done (Some (to, section), a)).
    { by apply (asks_other _ _ c a _ _ (asks_symbol_final _ _ _) (eq_sym Ec)) in Ho. }
    assert (Henc : forall b, size b = df_size f -> (b = if df_size f =? 2 then [short_opcode (df_branch f); u8 delta] else near_with f delta) ->
      encodes a section fields i f b).
    { intros b H1 H2. split; [done|]. split; [|by intros []%Hnl]. intros _ _. by exists to. }
    destruct (Z.eqb_spec (df_size f) 2) as [E2|E2].
    + eapply run_append_expanded; [done|]. intros e' He'. split; [done|]. split; [done|]. eexists. split; [done|]. by apply Henc.
    + eapply run_near_branch; [done|done|]. intros e' He'. split; [done|]. split; [done|]. eexists. split; [done|]. apply Henc; [|done].
      rewrite near_with_size by done. by destruct (Hb Hk) as [|[]].
  - eapply run_mono; [by apply run_far|]. intros e' c' (H1 & H2 & b & H3 & H4). split; [done|]. split; [congruence|]. exists b.
    split; [done|]. split; [|split; [congruence|by intros []%Hnl]]. destruct (Hb Hk) as [|[_ Hp']]; congruence.
Qed.

(** ** The section, written out *)

Definition slice (raw : list Z) (from to : Z) : list Z := take (Z.to_nat (to - from)) (drop (Z.to_nat from) raw).
(** The bytes with a piece where each field belongs. *)
Fixpoint laid_out (raw : list Z) (from : Z) (fields : list DeferredField) (pieces : list (list Z)) : list Z :=
  match fields, pieces with
  | f :: fields, b :: pieces => slice raw from (raw_offset f) ++ b ++ laid_out raw (raw_offset f) fields pieces
  | _, _ => drop (Z.to_nat from) raw
  end.
Lemma in_order_bound fields : forall from len, in_order from fields len -> from <= len.
Proof. induction fields as [|f fields IH]; intros from len; cbn; [done|]. intros [H1 H2%IH]. lia. Qed.
Lemma between_slice raw from to : 0 <= from -> from <= to -> to <= size raw -> between_bytes raw from to = Some (slice raw from to).
Proof.
  intros H1 H2 H3. unfold between_bytes. by rewrite (proj2 (Z.leb_le _ _) H1), (proj2 (Z.leb_le _ _) H2), (proj2 (Z.leb_le _ _) H3).
Qed.
Lemma slice_end raw from : 0 <= from -> slice raw from (size raw) = drop (Z.to_nat from) raw.
Proof. intros H. unfold slice. apply take_ge. rewrite length_drop. unfold size. lia. Qed.

Definition written (a : Asm) (section : Z) (all : list DeferredField) (raw : list Z) (i : nat) (from : Z) (fields : list DeferredField)
    (e e' : Expansion) (c : Asm) : Prop :=
  asm_ok c /\ unit_ c = unit_ a /\ expansion_ok (weight a) e' /\ exists pieces,
    length pieces = length fields /\ expanded e' = expanded e ++ laid_out raw from fields pieces /\
    forall j f b, fields !! j = Some f -> pieces !! j = Some b -> encodes a section all (i + j) f b.

Lemma run_expand_field a section all raw atoms i f e c :
  asm_ok c -> unit_ c = unit_ a -> expansion_ok (weight a) e -> started a section f -> all !! i = Some f ->
  needs a section (prefixes all) i f (df_size f) -> 0 <= raw_cursor e -> raw_cursor e <= raw_offset f -> raw_offset f <= size raw ->
  (forall o s, maybe_in (weight a) (enclosing_atom atoms o s)) ->
  run (expand_field section raw (prefixes all) atoms i f e) c (fun e' c' =>
    asm_ok c' /\ unit_ c' = unit_ a /\ expansion_ok (weight a) e' /\ raw_cursor e' = raw_offset f /\
    exists b, expanded e' = expanded e ++ slice raw (raw_cursor e) (raw_offset f) ++ b /\ encodes a section all i f b).
Proof.
  intros Hc Ec He Hst Hi Hneed H0 H1 H2 Hat. pose proof (lookup_lt_Some _ _ _ Hi) as Hlt.
  assert (Ew : weight c = weight a) by (unfold weight, table; by rewrite Ec).
  unfold expand_field. apply run_bind. eapply run_must; [by apply between_slice|].
  eapply run_bind, run_append_expanded; [done|]. intros e1 (E1 & E2 & E3). apply run_bind. eapply run_must; [apply prefixes_at; lia|].
  set (e2 := mkExpansion (expanded e1) (raw_offset f) (branch_relocs e1) (branch_unresolved e1)).
  assert (He2 : expansion_ok (weight a) e2) by exact E3. fold (field_place all i f).
  assert (Hpost : forall b e' c', asm_ok c' -> unit_ c' = unit_ a -> extends (weight a) e2 b e' -> encodes a section all i f b ->
    asm_ok c' /\ unit_ c' = unit_ a /\ expansion_ok (weight a) e' /\ raw_cursor e' = raw_offset f /\
    exists b, expanded e' = expanded e ++ slice raw (raw_cursor e) (raw_offset f) ++ b /\ encodes a section all i f b).
  { intros b e' c' Hc' Ec' (F1 & F2 & F3) Hb. split; [done|]. split; [done|]. split; [done|]. split; [by rewrite F2|].
    exists b. split; [|done]. rewrite F1. cbn. by rewrite E1, <- app_assoc. }
  assert (Hleb : is_leb f = true -> run (value ← leb_value section (prefixes all) f;
      b ← lift (leb_bytes (default 0 value) (is_sleb f)); append_expanded b e2) c (fun e' c' =>
      asm_ok c' /\ unit_ c' = unit_ a /\ expansion_ok (weight a) e' /\ raw_cursor e' = raw_offset f /\
      exists b, expanded e' = expanded e ++ slice raw (raw_cursor e) (raw_offset f) ++ b /\ encodes a section all i f b)).
  { intros Hl. destruct (needs_leb a section all i f _ ltac:(lia) Hneed Hl) as (v & Hv & Hsz).
    apply run_bind. apply (run_done _ _ _ _ _ (asks_other _ _ _ c _ _ (asks_leb _ _ _) Ec Hv)). cbn [default].
    destruct (leb_bytes_size v (is_sleb f)) as (b & Hb & Hb2). apply run_bind. eapply run_lift; [done|].
    eapply run_append_expanded; [done|]. intros e' He'. apply (Hpost b); [done..|]. split; [congruence|]. split; [|by exists v].
    intros Hk. unfold is_leb in Hl. by rewrite Hk in Hl. }
  destruct (df_kind f) eqn:Hk; [apply Hleb; unfold is_leb; by rewrite Hk..| |].
  - assert (Hend : forall b, size b = df_size f -> run (append_expanded b e2) c (fun e' c' =>
      asm_ok c' /\ unit_ c' = unit_ a /\ expansion_ok (weight a) e' /\ raw_cursor e' = raw_offset f /\
      exists b, expanded e' = expanded e ++ slice raw (raw_cursor e) (raw_offset f) ++ b /\ encodes a section all i f b)).
    { intros b Hb. eapply run_append_expanded; [done|]. intros e' He'. apply (Hpost b); [done..|]. split; [done|].
      split; [congruence|]. unfold is_leb. by rewrite Hk. }
    destruct Hst as ([_ Hsz] & _). apply run_bind. destruct (df_nop f).
    + destruct (nop_padding_length (df_size f)) as (b & Hb & Hl). eapply run_lift; [done|]. apply Hend. unfold size. lia.
    + apply run_ret, Hend. rewrite size_replicate. lia.
  - eapply run_mono; [apply (run_expand_branch a); [done|done|by rewrite Ew|done|done|by rewrite Ew]|].
    intros e' c' (G1 & G2 & b & G3 & G4). rewrite Ew in G3. by apply (Hpost b).
Qed.
Lemma run_expand_fields a section all raw atoms : asm_ok a -> settled a section all ->
  (forall o s, maybe_in (weight a) (enclosing_atom atoms o s)) -> forall fields i e c,
  asm_ok c -> unit_ c = unit_ a -> expansion_ok (weight a) e -> Forall (started a section) fields -> drop i all = fields ->
  0 <= raw_cursor e -> in_order (raw_cursor e) fields (size raw) ->
  run (expand_fields section raw (prefixes all) atoms i fields e) c (fun e' c' => written a section all raw i (raw_cursor e) fields e e' c').
Proof.
  intros Ha Hset Hat. induction fields as [|f fields IH]; intros i e c Hc Ec He Hst Hdrop H0 Hord; cbn [expand_fields].
  - apply run_bind. eapply run_must; [apply between_slice; [done|exact Hord|done]|]. eapply run_append_expanded; [done|].
    intros e' (E1 & E2 & E3). split; [done|]. split; [done|]. split; [done|]. exists []. split; [done|]. split; [|done].
    cbn [laid_out]. by rewrite E1, slice_end.
  - apply list.Forall_cons in Hst as [Hf Hst]. destruct Hord as [Ho1 Ho2]. pose proof (in_order_bound _ _ _ Ho2).
    assert (Hi : all !! i = Some f) by (by rewrite <- (Nat.add_0_r i), <- lookup_drop, Hdrop).
    apply run_bind. eapply run_mono; [apply (run_expand_field a); [done|done|done|done|done|by apply Hset|done|done|done|done]|].
    intros e1 c1 (G1 & G2 & G3 & G4 & b & G5 & G6). eapply run_mono; [apply (IH (S i)); [done|done|done|done| |lia|by rewrite G4]|].
    { replace (S i) with (i + 1)%nat by lia. by rewrite <- drop_drop, Hdrop. }
    intros e2 c2 (K1 & K2 & K3 & pieces & K4 & K5 & K6). split; [done|]. split; [done|]. split; [done|]. exists (b :: pieces).
    split; [cbn; by rewrite K4|]. split; [cbn; by rewrite K5, G5, G4, <- !app_assoc|].
    intros [|j] g x Hg Hx; cbn in Hg, Hx; [injection Hg as <-; injection Hx as <-; by rewrite Nat.add_0_r|].
    replace (i + S j)%nat with (S i + j)%nat by lia. by apply K6.
Qed.

(** ** Moving labels and fixups *)

(** The address a symbol has within its section, or its value. *)
Definition final_value (a : Asm) (id : SymId) : option Z :=
  if is_sym id then
    s ← sym (table a) id;
    match sym_state s with
    | Sym_Constant => Some (sym_value s)
    | Sym_Label => Some (s64 (sym_offset s))
    | Sym_Undefined => None
    end
  else Some 0.

Lemma total_nonneg a section l : Forall (started a section) l -> 0 <= total l.
Proof.
  induction 1 as [|f l ([_ Hf] & _) _ IH]; [done|]. change (0 <= df_size f + total l). lia.
Qed.
Lemma total_take l i : (forall f, In f l -> 0 <= df_size f) -> 0 <= total (take i l) <= total l.
Proof.
  revert i. induction l as [|f l IH]; intros [|i] Hl; cbn [take]; try done.
  - change (0 <= 0 <= df_size f + total l). pose proof (Hl f ltac:(by left)). destruct (IH 0%nat) as [H1 H2]; [intros g Hg; apply Hl; by right|].
    rewrite take_0 in H2. change (total []) with 0 in H2. lia.
  - change (0 <= df_size f + total (take i l) <= df_size f + total l). pose proof (Hl f ltac:(by left)).
    destruct (IH i) as [H1 H2]; [intros g Hg; apply Hl; by right|]. lia.
Qed.
Lemma started_sizes a section l : Forall (started a section) l -> forall f, In f l -> 0 <= df_size f.
Proof. intros H f Hf. pose proof (proj1 (Forall_forall _ _) H f Hf) as ([_ Hs] & _). lia. Qed.
Lemma size_laid_out raw fields : forall from pieces, 0 <= from -> in_order from fields (size raw) -> length pieces = length fields ->
  (forall j f b, fields !! j = Some f -> pieces !! j = Some b -> size b = df_size f) ->
  size (laid_out raw from fields pieces) = size raw - from + total fields.
Proof.
  induction fields as [|f fields IH]; intros from [|b pieces] H0 Hord Hl Hs; try done; cbn [laid_out].
  - unfold size. rewrite length_drop. cbn in Hord. change (total []) with 0. unfold size in *. lia.
  - destruct Hord as [H1 H2]. pose proof (in_order_bound _ _ _ H2). rewrite !size_app.
    rewrite (IH (raw_offset f)); [|lia|done|cbn in Hl; lia|intros j g x Hg Hx; by apply (Hs (S j))].
    rewrite (Hs 0%nat f b) by done. change (total (f :: fields)) with (df_size f + total fields).
    unfold slice, size in *. rewrite length_take, length_drop. lia.
Qed.
(** The place of each piece among the final bytes. *)
Lemma laid_out_at raw fields : forall from pieces j f b, 0 <= from -> in_order from fields (size raw) -> length pieces = length fields ->
  (forall j f b, fields !! j = Some f -> pieces !! j = Some b -> size b = df_size f) ->
  fields !! j = Some f -> pieces !! j = Some b -> 0 <= total (take j fields) ->
  (forall k g, fields !! k = Some g -> 0 <= df_size g) ->
  take (length b) (drop (Z.to_nat (raw_offset f - from + total (take j fields))) (laid_out raw from fields pieces)) = b.
Proof.
  induction fields as [|g fields IH]; intros from [|x pieces] [|j] f b H0 Hord Hl Hs Hf Hb Ht Hnn; try done; cbn [laid_out].
  - cbn in Hf, Hb. injection Hf as ->. injection Hb as ->. destruct Hord as [H1 H2]. pose proof (in_order_bound _ _ _ H2).
    assert (length (slice raw from (raw_offset f)) = Z.to_nat (raw_offset f - from)) as Hsl.
    { unfold slice, size in *. rewrite length_take, length_drop. lia. }
    cbn [take]. change (total []) with 0. rewrite Z.add_0_r, <- Hsl, drop_app_length. apply take_app_length.
  - cbn in Hf, Hb. destruct Hord as [H1 H2]. pose proof (in_order_bound _ _ _ H2).
    assert (Hx : size x = df_size g) by (by apply (Hs 0%nat)). pose proof (Hnn 0%nat g eq_refl) as Hg0.
    assert (length (slice raw from (raw_offset g)) = Z.to_nat (raw_offset g - from)) as Hsl.
    { unfold slice, size in *. rewrite length_take, length_drop. lia. }
    cbn [take] in *. change (total (g :: take j fields)) with (df_size g + total (take j fields)) in *.
    assert (Ht' : 0 <= total (take j fields)) by (apply total_take; intros h Hh; apply list_elem_of_In, list_elem_of_lookup in Hh as [k Hk]; by apply (Hnn (S k))).
    assert (Hord' : raw_offset g <= raw_offset f).
    { clear -Hf H2. revert j Hf H2. generalize (raw_offset g) as lo. induction fields as [|h fields IHf]; intros lo [|j]; cbn; try done.
      - intros [= ->] [H _]. done.
      - intros Hf [H3 H4]. specialize (IHf _ _ Hf H4). lia. }
    replace (Z.to_nat (raw_offset f - from + (df_size g + total (take j fields)))) with
      (length (slice raw from (raw_offset g) ++ x) + Z.to_nat (raw_offset f - raw_offset g + total (take j fields)))%nat
      by (rewrite length_app, Hsl; unfold size in Hx; lia).
    rewrite app_assoc, drop_app_add. apply IH; [lia|done|cbn in Hl; lia| |done|done|done|].
    + intros k h y Hh Hy. by apply (Hs (S k)).
    + intros k h Hh. by apply (Hnn (S k)).
Qed.

Lemma mapM_all {A B} (g : A -> option B) l : (forall x, In x l -> is_Some (g x)) -> exists l', mapM g l = Some l' /\ Forall2 (fun x y => g x = Some y) l l'.
Proof.
  intros H. destruct (mapM_is_Some_2 g l) as [l' Hl']; [by apply Forall_forall|]. exists l'. split; [done|]. by apply mapM_Some_1.
Qed.
Lemma move_symbol_some section all m s : symbol_ok m s -> exists s', move_symbol section (prefixes all) s = Some s' /\ symbol_ok m s'.
Proof.
  intros [H1 H2]. unfold move_symbol. destruct (is_label s && (sym_section s =? section)) eqn:E; [|exists s; by split].
  destruct (shift_some all (sym_seq s) H2) as [d ->]. cbn. eexists. split; [done|]. split; [|done]. cbn. intros _. apply H1.
  apply andb_true_iff in E as [E _]. by apply bool_decide_eq_true in E.
Qed.
Lemma shift_exact all seq d : (forall f, In f all -> 0 <= df_size f) -> total all < 2 ^ 64 -> 0 <= seq -> shift (prefixes all) seq = Some d ->
  0 <= d <= total all.
Proof.
  intros Hsz Ht Hseq H. unfold shift in H. rewrite size_prefixes in H. replace (Z.of_nat (length all) + 1 - 1) with (Z.of_nat (length all)) in H by lia.
  set (k := Z.to_nat (Z.min seq (Z.of_nat (length all)))) in *.
  replace (Z.min seq (Z.of_nat (length all))) with (Z.of_nat k) in H by lia. rewrite prefixes_at in H by lia. injection H as <-.
  pose proof (total_take all k Hsz). rewrite uwrap_small by (unfold word; lia). done.
Qed.
Lemma move_fixup_some all n len f : (forall f, In f all -> 0 <= df_size f) -> len + total all < max_bytes -> fixup_ok n len f ->
  exists f', move_fixup (prefixes all) f = Some f' /\ fixup_ok n (len + total all) f'.
Proof.
  intros Hsz Hlen (H1 & H2 & H3 & H4). unfold move_fixup. destruct (shift_some all (fx_seq f) H3) as [d Hd]. rewrite Hd. cbn. eexists. split; [done|].
  assert (0 <= fixup_width_bytes (fx_kind f)) by (by destruct (fx_kind f)). unfold max_bytes in *.
  pose proof (shift_exact _ _ _ Hsz ltac:(lia) H3 Hd). unfold fixup_ok. cbn. rewrite uwrap_small by (unfold word; lia).
  split; [lia|]. split; [lia|]. by split.
Qed.

(** The state when a section was expanded. *)
Record expanded_to (c : Asm) (section : Z) (all : list DeferredField) (e : Expansion) (s s' : AsmSection) (a : Asm) : Prop := {
  exp_section : at_ (sections (unit_ a)) section = Some s';
  exp_bytes : bytes s' = expanded e;
  exp_deferred : deferred s' = [];
  exp_fixups : Forall2 (fun f f' => move_fixup (prefixes all) f = Some f') (fixups s) (fixups s');
  exp_symbols : Forall2 (fun y y' => move_symbol section (prefixes all) y = Some y') (symbols_ (table c)) (symbols_ (table a));
  exp_errors : error_count_ a = error_count_ c;
  exp_count : section_count a = section_count c }.
Lemma finish_run section all e c s : asm_ok c -> at_ (sections (unit_ c)) section = Some s -> section_ok (weight c) s ->
  expansion_ok (weight c) e -> (forall f, In f all -> 0 <= df_size f) -> size (expanded e) = size (bytes s) + total all ->
  run (finish_expansion section (prefixes all) e) c (fun _ a => asm_ok a /\ exists s', expanded_to c section all e s s' a).
Proof.
  intros Hc Hs [] (X1 & X2 & X3) Hsz Hlen. pose proof Hc as []. unfold finish_expansion. apply run_bind, run_get, run_bind.
  destruct (mapM_all (move_symbol section (prefixes all)) (symbols_ (table c))) as (moved & Em & Fm).
  { intros y Hy. destruct (move_symbol_some section all (section_count c) y) as (y' & E & _); [by apply (proj1 (Forall_forall _ _) ok_symbols)|by exists y']. }
  eapply run_must; [exact Em|]. apply run_bind, run_modify. set (c1 := with_symbols _ c).
  assert (Hmlen : length moved = weight c) by (symmetry; by apply Forall2_length in Fm).
  assert (Hw : weight c1 = weight c) by exact Hmlen.
  assert (Hmok : Forall (symbol_ok (section_count c)) moved).
  { apply Forall_lookup_2. intros i y' Hy'. destruct (Forall2_lookup_r _ _ _ _ _ Fm Hy') as (y & Hy & E).
    destruct (move_symbol_some section all (section_count c) y) as (y2 & E2 & Hok2); [by apply (Forall_lookup_1 _ _ _ _ ok_symbols Hy)|]. congruence. }
  apply run_bind. eapply run_must; [exact Hs|]. apply run_bind. unfold max_bytes in *.
  destruct (mapM_all (move_fixup (prefixes all)) (fixups s)) as (fixed & Ef & Ff).
  { intros f Hf. destruct (move_fixup_some all (weight c) (size (bytes s)) f Hsz) as (f' & E & _); [unfold max_bytes; lia|
      by apply (proj1 (Forall_forall _ _) fixups_ok)|by exists f']. }
  assert (Hfok : Forall (fixup_ok (weight c) (size (expanded e))) fixed).
  { apply Forall_lookup_2. intros i f' Hf'. destruct (Forall2_lookup_r _ _ _ _ _ Ff Hf') as (f & Hf & E).
    destruct (move_fixup_some all (weight c) (size (bytes s)) f Hsz) as (f2 & E2 & Hok2); [unfold max_bytes; lia|
      by apply (Forall_lookup_1 _ _ _ _ fixups_ok Hf)|]. rewrite Hlen. congruence. }
  eapply run_must; [exact Ef|]. unfold update_section. apply run_bind, run_get, run_bind.
  set (upd := fun s0 => mkSection _ _ _ _ _ _ _ _ _ _ _). eapply run_must; [apply (modify_some (sections (unit_ c)) section upd s Hs)|].
  apply run_modify.
  assert (Hs' : section_ok (weight c) (upd s)).
  { split; cbn; [unfold max_bytes; lia|done|done|apply size_nonneg|apply Forall_app; by split|apply Forall_app; by split]. }
  split.
  - split; unfold known, weight, section_count in *; cbn; rewrite ?length_put, ?Hmlen; try done.
    unfold put. destruct (_ <? _); [done|]. by apply Forall_insert.
  - exists (upd s). split; try done; cbn.
    + apply at_put_eq. by eapply at_lt.
    + unfold section_count. cbn. by rewrite length_put.
Qed.

(** ** What the final bytes say *)

Definition says (a : Asm) (pos : Z) (f : DeferredField) (b : list Z) : Prop :=
  size b = df_size f /\
  match df_kind f with
  | Def_Align => size b < 2 ^ df_align f /\ (pos + size b) mod 2 ^ df_align f = 0
  | Def_Branch =>
      patchable (df_branch f) = true -> exists to, final_value a (df_pos f) = Some to /\
        let delta := to + df_constant f - (pos + size b) in
        if df_size f =? 2 then
          b = [short_opcode (df_branch f); u8 delta] /\ (2 < near_size (df_branch f) -> -128 <= delta <= 127)
        else b = near_with f delta /\ little_endian_value (take 4 (drop (Z.to_nat (rel_offset (df_branch f))) b)) = delta mod 2 ^ 32
  | _ => exists x y, final_value a (df_pos f) = Some x /\ final_value a (df_neg f) = Some y /\
      let v := df_constant f + x - y in
      if is_sleb f then sleb_decode b = Some (v, []) else uleb_decode b = Some (u64 v, [])
  end.

(** A symbol is where the layout took it to be. *)
Lemma final_value_of c section all e s s' a id v sec : expanded_to c section all e s s' a -> is_sym id = true ->
  symbol_final section (prefixes all) id c = Done (Some (v, sec), c) -> final_value a id = Some v.
Proof.
  intros [_ _ _ _ Hsym _ _] Hid H. unfold final_value. rewrite Hid. unfold symbol_final in H.
  apply bind_inv in H as (x & a1 & [= <- <-] & H). apply bind_inv in H as (y & a2 & H1 & H).
  unfold symbol_at, mbind, state_bind, get, must in H1. destruct (sym (table c) id) as [y0|] eqn:Ey; [|done]. injection H1 as <- <-.
  assert (exists y', sym (table a) id = Some y' /\ move_symbol section (prefixes all) y0 = Some y') as (y' & -> & Hm).
  { unfold sym, at_ in *. destruct (id <? 0); [done|]. destruct (Forall2_lookup_l _ _ _ _ _ Hsym Ey) as (y' & H1 & H2). by exists y'. }
  unfold move_symbol, is_label in Hm. destruct (sym_state y0) eqn:Est; cbn in Hm.
  - done.
  - destruct (sym_section y0 =? section).
    + unfold shift in Hm. apply bind_inv in H as (d & a3 & H2 & H). unfold must in H2. destruct (at_ _ _) as [d'|]; [|done].
      injection H2 as <- <-. cbn in Hm. injection Hm as <-. cbn. unfold mret, state_ret in H. injection H as <- _. by rewrite s64_u64.
    + rewrite andb_false_r in Hm. assert (y' = y0) as -> by congruence. cbn. rewrite Est. apply bind_inv in H as (o & a3 & _ & H). destruct (bool_decide _); [|done].
      unfold mret, state_ret in H. congruence.
  - assert (y' = y0) as -> by (rewrite bool_decide_false in Hm by done; cbn in Hm; congruence). cbn. rewrite Est. unfold mret, state_ret in H. congruence.
Qed.
Lemma final_term c section all e s s' a id v sec : expanded_to c section all e s s' a ->
  term_final section (prefixes all) id c = Done (Some (v, sec), c) -> final_value a id = Some v.
Proof.
  intros Hexp H. unfold term_final in H. destruct (is_sym id) eqn:Hid; [by eapply final_value_of|].
  injection H as <- _. unfold final_value. by rewrite Hid.
Qed.
Lemma leb_value_terms section prefix f c v : leb_value section prefix f c = Done (Some v, c) -> exists x xs y ys,
  term_final section prefix (df_pos f) c = Done (Some (x, xs), c) /\ term_final section prefix (df_neg f) c = Done (Some (y, ys), c) /\
  v = df_constant f + x - y.
Proof.
  intros H. unfold leb_value in H. apply bind_inv in H as ([[x xs]|] & a1 & H1 & H); [|done].
  pose proof (asks_same _ _ _ _ _ (asks_term _ _ _) H1) as ->. apply bind_inv in H as (w & a2 & H2 & H). apply checked_done in H2 as (-> & -> & _).
  apply bind_inv in H as ([[y ys]|] & a3 & H3 & H); [|done]. pose proof (asks_same _ _ _ _ _ (asks_term _ _ _) H3) as ->.
  apply bind_inv in H as (u & a4 & H4 & H). apply checked_done in H4 as (-> & -> & _). exists x, xs, y, ys.
  split; [done|]. split; [done|]. unfold mret, state_ret in H. destruct (_ =? _); congruence.
Qed.
Lemma near_with_read f v : branch_ok (df_branch f) ->
  little_endian_value (take 4 (drop (Z.to_nat (rel_offset (df_branch f))) (near_with f v))) = v mod 2 ^ 32.
Proof.
  intros (B1 & B2 & B3 & B4). unfold near_with. set (r := Z.to_nat _).
  assert (length (take r (near_bytes (df_branch f))) = r) as Hr by (rewrite length_take; unfold size in *; lia).
  rewrite <- Hr at 1. rewrite drop_app_length. rewrite take_app_le by (rewrite length_little_endian; lia).
  rewrite take_ge by (rewrite length_little_endian; lia). rewrite little_endian_read. unfold uwrap. change (8 * Z.of_nat 4) with 32.
  apply Z.mod_mod_divide. exists (2 ^ 32). lia.
Qed.

Lemma encodes_says c section all e s s' a i f b : asm_ok c -> started c section f -> (i <= length all)%nat -> all !! i = Some f ->
  expanded_to c section all e s s' a -> settled c section all -> encodes c section all i f b ->
  0 <= raw_offset f -> 0 <= total (take i all) -> raw_offset f + total (take i all) + df_size f < max_bytes ->
  says a (raw_offset f + total (take i all)) f b.
Proof.
  intros Hc ([Hn Hsz] & Hb & Ht) Hi Hf Hexp Hset (E1 & E2 & E3) H0 Htot Hmax. unfold max_bytes in *.
  assert (Hplace : field_place all i f = raw_offset f + total (take i all)).
  { unfold field_place. rewrite (uwrap_small 64 (total _)), uwrap_small by (unfold word; lia). done. }
  assert (Hs64 : forall x, 0 <= x < 2 ^ 63 -> s64 x = x).
  { intros x Hx. unfold swrap. rewrite uwrap_small by (unfold word; lia). by rewrite (proj2 (Z.ltb_lt x (2 ^ (64 - 1)))) by lia. }
  specialize (Hset i f Hf). split; [done|]. rewrite E1.
  assert (Hleb : is_leb f = true -> exists x y, final_value a (df_pos f) = Some x /\ final_value a (df_neg f) = Some y /\
    let v := df_constant f + x - y in if is_sleb f then sleb_decode b = Some (v, []) else uleb_decode b = Some (u64 v, [])).
  { intros Hl. destruct (E3 Hl) as (v & Hv & Hbytes). destruct (leb_value_terms _ _ _ _ _ Hv) as (x & xs & y & ys & Hx & Hy & Ev).
    exists x, y. split; [by eapply final_term|]. split; [by eapply final_term|]. cbn zeta. rewrite <- Ev. unfold leb_bytes in Hbytes.
    destruct (is_sleb f).
    - destruct (sleb_bytes_any v) as (b' & G1 & G2 & _). congruence.
    - destruct (uleb_bytes_read v []) as (b' & G1 & G2 & _). rewrite app_nil_r in G2. congruence. }
  unfold is_leb in Hleb. unfold field_names in Hn. destruct (df_kind f) eqn:Hk; [by apply Hleb|by apply Hleb| |].
  - rewrite (needs_align c section all i f (df_size f) Hi Hset Hk), Hplace.
    destruct (align_gap_range (df_align f) (raw_offset f + total (take i all))) as [G1 G2]; [done|lia|]. split; [lia|done].
  - intros Hp. destruct (E2 eq_refl Hp) as (to & Hto & Eb). destruct Hn as [Hid Hbr].
    rewrite Hplace, Hs64 in Eb by lia. cbn zeta in *. exists to.
    assert (Hisym : is_sym (df_pos f) = true) by (by apply (known_not_none limit least Hlimit c)).
    split; [by eapply final_value_of|]. destruct (Z.eqb_spec (df_size f) 2) as [H2|H2].
    + split; [done|]. intros Hlt. destruct (needs_short c section all i f (df_size f) Hi Hset Hk eq_refl ltac:(lia)) as (to' & ts & d & G1 & G2 & G3 & _).
      rewrite Hto in G1. injection G1 as <- <-. unfold displacement in G2. apply bind_inv in G2 as (t & a1 & K1 & G2).
      apply checked_done in K1 as (-> & -> & _). apply bind_inv in G2 as (h & a2 & K2 & G2). apply checked_done in K2 as (-> & -> & _).
      apply checked_done in G2 as (-> & _). rewrite Hplace, Hs64 in G3 by lia. lia.
    + split; [done|]. subst b. by apply near_with_read.
Qed.

(** ** A section, expanded *)

(** Every byte of a section has its place: the old bytes with a piece for each field,
    and each piece says what its field means. *)
Definition consistent (a : Asm) (section : Z) (old : AsmSection) : Prop := exists new fields pieces,
  at_ (sections (unit_ a)) section = Some new /\ deferred new = [] /\
  map erase fields = map erase (deferred old) /\ length pieces = length fields /\
  bytes new = laid_out (bytes old) 0 fields pieces /\
  forall i f b, fields !! i = Some f -> pieces !! i = Some b ->
    let pos := raw_offset f + total (take i fields) in
    take (length b) (drop (Z.to_nat pos) (bytes new)) = b /\ says a pos f b.

Lemma put_deferred c section s fields : asm_ok c -> at_ (sections (unit_ c)) section = Some s -> section_ok (weight c) s ->
  Forall (field_ok (weight c)) fields -> in_order 0 fields (size (bytes s)) ->
  let c' := with_sections (put (sections (unit_ c)) section (with_deferred fields s)) c in asm_ok c' /\ section_count c' = section_count c.
Proof.
  intros Hc Hs Hok Hf Ho. assert (Hok' : section_ok (weight c) (with_deferred fields s)) by (destruct Hok; by split).
  cbn zeta. unfold section_count. cbn. rewrite length_put. split; [|done]. destruct Hc. split; unfold section_count in *; cbn; rewrite ?length_put; try done.
  unfold put. destruct (_ <? _); [done|]. by apply Forall_insert.
Qed.
Lemma run_update_section section g c s (Q : unit -> Asm -> Prop) : at_ (sections (unit_ c)) section = Some s ->
  Q tt (with_sections (put (sections (unit_ c)) section (g s)) c) -> run (update_section section g) c Q.
Proof.
  intros Hs HQ. unfold update_section. apply run_bind, run_get, run_bind. eapply run_must; [by apply modify_some|]. by apply run_modify.
Qed.
Lemma started_table a c section f : table c = table a -> started a section f -> started c section f.
Proof. intros E. unfold started, target_here, weight. by rewrite E. Qed.
Lemma same_in_order a b len l l' : map erase l' = map erase l -> in_order a l len -> len <= b -> in_order a l' b.
Proof. intros E%erase_offsets Ho Hb. apply (in_order_mono limit l' a a len b); [lia|done|]. by apply (in_order_offsets l). Qed.
Lemma in_order_nonneg l : forall from len, 0 <= from -> in_order from l len -> forall f, In f l -> 0 <= raw_offset f <= len.
Proof.
  induction l as [|g l IH]; intros from len H0 H f Hf; [done|]. destruct H as [H1 H2]. destruct Hf as [->|Hf].
  - pose proof (in_order_bound _ _ _ H2). lia.
  - apply (IH (raw_offset g)); [lia|done|done].
Qed.

Lemma expand_section_run a section s : asm_ok a -> at_ (sections (unit_ a)) section = Some s ->
  run (expand_section section) a (fun _ a' => asm_ok a' /\ section_count a' = section_count a /\
    (deferred s = [] \/ error_count_ a < error_count_ a' \/ consistent a' section s)).
Proof.
  intros Ha Hs. unfold expand_section. apply run_bind, run_get, run_bind. eapply run_must; [exact Hs|].
  destruct (bool_decide_reflect (deferred s = [])) as [Hd|Hd].
  { apply run_ret. split; [done|]. split; [done|by left]. }
  assert (Hok : section_ok (weight a) s).
  { destruct Ha. unfold at_ in Hs. destruct (_ <? _); [done|]. by eapply Forall_lookup_1 in ok_sections. }
  pose proof Hok as []. cbn zeta. set (atoms := raw_atoms a section).
  apply run_bind. eapply run_mono; [by apply each_start|]. intros fields0 a0 (-> & Hst0 & Her0).
  assert (Hraw : forall fs, map erase fs = map erase (deferred s) -> Forall (fun f => 0 <= raw_offset f) fs).
  { intros fs E. apply Forall_forall. intros f Hf. eapply (in_order_nonneg fs 0 (size (bytes s))); [done| |done].
    by apply (same_in_order _ _ _ _ _ E fields_in_order). }
  apply run_bind. eapply run_mono; [apply settle_run; [done|done|by apply Hraw]|].
  intros [[fields resolved] converged] a1 (H1 & H2 & H3 & H4 & H5 & [H6 H7]). cbn [fst snd] in *. rewrite Her0 in H4.
  assert (Hs1 : at_ (sections (unit_ a1)) section = Some s) by (by rewrite H2).
  assert (Hw1 : weight a1 = weight a) by (unfold weight, table; by rewrite H2).
  assert (Hc1 : section_count a1 = section_count a) by (unfold section_count; by rewrite H2).
  destruct (put_deferred a1 section s fields) as [Hok2 Hc2]; [done|done|by rewrite Hw1| |by apply (same_in_order _ _ _ _ _ H4 fields_in_order)|].
  { rewrite Hw1. eapply list.Forall_impl; [exact H3|]. by intros f (Hf & _). }
  apply run_bind. eapply run_update_section; [exact Hs1|]. set (c := with_sections _ a1) in *.
  destruct resolved; cbn [negb]; [|apply run_ret; specialize (H7 eq_refl); split; [done|]; split; [congruence|by right; left]].
  destruct converged; cbn [negb].
  2: { destruct fields as [|f fields]; [destruct (deferred s); done|]. apply run_modify. split; [by apply error_ok|]. cbn. split; [exact (eq_trans Hc2 Hc1)|right; left; lia]. }
  destruct (H5 eq_refl eq_refl) as [-> Hset]. clear H5 H6 H7.
  assert (Hag : agrees section a c) by (split; [done|]; intros j Hj; cbn; by rewrite at_put_ne).
  assert (Hsetc : settled c section fields).
  { intros i f Hi. eapply asks_agree; [apply asks_needed|exact Hag|by apply Hset]. }
  assert (Hstc : Forall (started c section) fields) by (eapply list.Forall_impl; [exact H3|]; intros f; by apply started_table).
  apply run_bind. eapply run_mono; [apply (run_expand_fields c section fields (bytes s) atoms); try done|].
  - intros o k. change (weight c) with (weight a). apply enclosing_known.
  - by apply (same_in_order _ _ _ _ _ H4 fields_in_order).
  - intros e c2 (K1 & K2 & K3 & pieces & K4 & K5 & K6). cbn [expanded raw_cursor app] in *.
    assert (Hsizes : forall j f b, fields !! j = Some f -> pieces !! j = Some b -> size b = df_size f).
    { intros j f b Hf Hb. by destruct (K6 j f b Hf Hb). }
    assert (Hord : in_order 0 fields (size (bytes s))) by (by apply (same_in_order _ _ _ _ _ H4 fields_in_order)).
    assert (Hlen : size (expanded e) = size (bytes s) + total fields) by (rewrite K5, size_laid_out; [lia|done|done|done|done]).
    assert (Hnn : forall f, In f fields -> 0 <= df_size f) by (by eapply started_sizes).
    assert (Hmax : size (expanded e) < max_bytes) by apply K3.
    set (s1 := with_deferred fields s).
    assert (Hs2 : at_ (sections (unit_ c2)) section = Some s1) by (rewrite K2; cbn; apply at_put_eq; by eapply at_lt).
    assert (Hw2 : weight c2 = weight c) by (unfold weight, table; by rewrite K2).
    eapply run_mono; [apply (finish_run section fields e c2 s1); [done|done| |by rewrite Hw2|done|done]|].
    { rewrite Hw2. unfold c. change (section_ok (weight a) s1). split; try done; cbn.
      - eapply list.Forall_impl; [exact H3|]. by intros f (Hf & _). }
    intros ? a' [Ha' (s' & Hexp)]. split; [done|]. pose proof Hexp as [X1 X2 X3 X4 X5 X6 X7].
    split; [rewrite X7; unfold section_count; rewrite K2; exact Hc2|right; right].
    exists s', fields, pieces. split; [done|]. split; [done|]. split; [exact H4|]. split; [done|]. split; [by rewrite X2|].
    intros i f b Hf Hb. cbn zeta. pose proof (lookup_lt_Some _ _ _ Hf) as Hi.
    assert (Hfr : 0 <= raw_offset f <= size (bytes s)).
    { eapply (in_order_nonneg fields 0); [done|done|]. apply list_elem_of_In. by eapply list_elem_of_lookup_2. }
    assert (Ht1 : 0 <= total (take (S i) fields) <= total fields) by (by apply total_take).
    assert (Ht0 : 0 <= total (take i fields) <= total fields) by (by apply total_take).
    rewrite (take_S_r _ _ _ Hf), total_app in Ht1. change (total [f]) with (df_size f + 0) in Ht1.
    split.
    + rewrite X2, K5. rewrite <- (Z.sub_0_r (raw_offset f)) at 1. apply laid_out_at; try done; [lia|].
      intros k g Hg. apply Hnn. apply list_elem_of_In. by eapply list_elem_of_lookup_2.
    + assert (Hstf : started c2 section f).
      { apply (started_unit c); [done|]. by apply (Forall_lookup_1 _ _ _ _ Hstc Hf). }
      eapply (encodes_says c2 section fields e s1 s' a' i f b); [done|done|lia|done|done| | |lia|lia|lia].
      * intros j g Hg. eapply asks_agree; [apply asks_needed|by apply agrees_unit|by apply Hsetc].
      * destruct (K6 i f b Hf Hb) as (E1 & E2 & E3). split; [done|]. split.
        -- intros Hk Hp. destruct (E2 Hk Hp) as (to & Hto & Eb). exists to. split; [|done].
           eapply asks_other; [apply asks_symbol_final|done|done].
        -- intros Hl. destruct (E3 Hl) as (v & Hv & Eb). exists v. split; [|done]. eapply asks_other; [apply asks_leb|done|done].
Qed.
End Layout.


(** A backward branch over two bytes, in its short form. *)
Definition looping_field : DeferredField :=
  mkDeferred Def_Branch 2 0 0 no_sym 0 0 false (mkBranch 0xEB [0xE9; 0; 0; 0; 0] 5 1 false) 1 1 0.
Definition looping_section : AsmSection :=
  mkSection (str "__TEXT") (str "__text") 0 0 false 0 [0x90; 0x90] [] [] [] [looping_field].
Definition looping_symbol : AsmSymbol := mkSymbol (str "Lx") Sym_Label 0 0 0 0 false false false false true false.
Definition looping : Asm :=
  mkAsm (mkOptions (make_x86_64_darwin (str "x")) (str "f") false)
    (mkUnit [looping_section] (mkSymbols {[str "Lx" := 0]} [looping_symbol]) []) [] 0 0 ∅.
Lemma looping_ok : asm_ok 10 1 looping.
Proof.
  split; cbn; try done; try (unfold weight, section_count; cbn; lia).
  - intros k id H. apply lookup_singleton_Some in H as [_ <-]. unfold known, known_in, weight. cbn. lia.
  - apply list.Forall_singleton. unfold symbol_ok, section_count. cbn. done.
  - apply list.Forall_singleton. split; cbn; try done.
    + apply list.Forall_singleton. unfold field_ok, field_names, branch_ok, known_in, weight, size. cbn. lia.
Qed.
(** The branch takes its short form and jumps back over itself and two bytes. *)
Example looping_laid_out :
  match expand_section 0 looping with
  | Done (_, a') => map bytes (sections (unit_ a')) = [[0x90; 0x90; 0xEB; 0xFC]]
  | _ => False
  end.
Proof. vm_compute. reflexivity. Qed.
