(* ===== verification/AsmFinishSafe.v ===== *)
(** * The assembler stays within bounds and ends

    Filling in a fixup keeps the invariant, whatever it finds; so a whole run, from
    any source text of fewer than 2^32 - 1 characters, reads and writes nothing out of
    bounds and ends, with a result or by an overflow. *)
From stdpp Require Import gmap strings sorting.
From S2P Require Import Prelude Vectors Target Outcome AsmLexer AsmExpr Mir AsmUnit Assembler AsmSafe AsmDirectives AsmStatements AsmRelax AsmRelaxProps AsmFinish.
Open Scope Z_scope.

Section Finish.
Variables limit least : nat.
Hypothesis Hlimit : Z.of_nat limit < no_sym.
Abbreviation asm_ok := (AsmSafe.asm_ok limit least).

(** ** Fields before fixups *)

Lemma section_at a i : asm_ok a -> 0 <= i < Z.of_nat (section_count a) -> exists s, at_ (sections (unit_ a)) i = Some s /\ section_ok (weight a) s.
Proof.
  intros Ha Hi. destruct (proj2 (at_is_Some (sections (unit_ a)) i)) as [s Hs]; [done|]. exists s. split; [done|].
  pose proof (ok_sections _ _ _ Ha) as H. unfold at_ in Hs. destruct (_ <? _); [done|]. by eapply Forall_lookup_1 in H.
Qed.
Lemma expand_from_run count : forall i a, asm_ok a -> 0 <= i -> i + Z.of_nat count <= Z.of_nat (section_count a) ->
  run (expand_from i count) a (fun _ a' => asm_ok a' /\ section_count a' = section_count a).
Proof.
  induction count as [|count IH]; intros i a Ha H0 Hi; cbn [expand_from]; [by apply run_ret|].
  destruct (section_at a i Ha ltac:(lia)) as (s & Hs & _). apply run_bind.
  eapply run_mono; [by apply (expand_section_run limit least Hlimit a i s)|]. intros _ a1 (H1 & H2 & _).
  eapply run_mono; [apply (IH (i + 1)); [done|lia|rewrite H2; lia]|]. intros _ a2 [H3 H4]. split; [done|congruence].
Qed.
Lemma expand_all_run a : asm_ok a -> run expand_deferred_fields a (fun _ a' => asm_ok a' /\ section_count a' = section_count a).
Proof.
  intros Ha. unfold expand_deferred_fields. apply run_bind, run_get. apply expand_from_run; [done|lia|unfold section_count; lia].
Qed.

(** ** Atoms *)

Definition atoms_ok (n m : nat) (atoms : AtomMap) : Prop := length atoms = m /\ Forall (Forall (fun x => known_in n x.2)) atoms.
Lemma add_atoms_ok elf x86 n m : forall l id starts, Forall (symbol_ok m) l -> 0 <= id -> id + Z.of_nat (length l) <= Z.of_nat n ->
  atoms_ok n m starts -> exists starts', add_atoms elf x86 id l starts = Some starts' /\ atoms_ok n m starts'.
Proof.
  induction l as [|s l IH]; intros id starts Hl H0 Hid [H1 H2]; cbn [add_atoms]; [by exists starts|].
  apply list.Forall_cons in Hl as [[Hs _] Hl]. cbn in Hid. destruct (is_label s && _) eqn:E; [|apply IH; [done|lia|lia|done]].
  apply andb_true_iff in E as [E%bool_decide_eq_true _]. specialize (Hs E).
  destruct (proj2 (at_is_Some starts (sym_section s))) as [v Hv]; [unfold size; lia|]. rewrite (modify_some _ _ _ _ Hv). cbn.
  apply IH; [done|lia|lia|]. split; [by rewrite length_put|]. unfold put, at_ in *. destruct (_ <? _); [done|].
  apply Forall_insert; [done|]. apply Forall_app. split; [by apply (Forall_lookup_1 _ _ _ _ H2 Hv)|].
  apply list.Forall_singleton. unfold known_in. cbn. lia.
Qed.
Lemma atom_map_ok a : asm_ok a -> exists atoms, atom_map a = Some atoms /\ atoms_ok (weight a) (section_count a) atoms.
Proof.
  intros Ha. unfold atom_map.
  destruct (add_atoms_ok (is_elf a) (is_x86 a) (weight a) (section_count a) (symbols_ (table a)) 0
    (replicate (length (sections (unit_ a))) [])) as (starts & E & H1 & H2); [apply Ha|lia|unfold weight; lia| |].
  { split; [by rewrite length_replicate|]. apply Forall_replicate. constructor. }
  rewrite E. cbn. eexists. split; [done|]. split; [by rewrite length_map|]. apply Forall_map. eapply list.Forall_impl; [exact H2|].
  intros v Hv. cbn. by rewrite merge_sort_Permutation.
Qed.
Lemma atom_from_ok n atoms off : Forall (fun x => known_in n x.2) atoms -> forall found, maybe_in n found.1 -> maybe_in n (atom_from atoms off found).1.
Proof.
  induction 1 as [|[start id] atoms Hx _ IH]; intros found Hf; cbn; [done|]. destruct (off <? start); [done|]. apply IH. by apply known_maybe.
Qed.
Lemma atom_at_ok n m atoms sec off : atoms_ok n m atoms -> 0 <= sec < Z.of_nat m -> exists x, atom_at atoms sec off = Some x /\ maybe_in n x.1.
Proof.
  intros [H1 H2] Hs. unfold atom_at. destruct (proj2 (at_is_Some atoms sec)) as [v Hv]; [unfold size; lia|]. rewrite Hv. cbn.
  assert (Hv' : Forall (fun x => known_in n x.2) v).
  { unfold at_ in Hv. destruct (_ <? _); [done|]. by apply (Forall_lookup_1 _ _ _ _ H2 Hv). }
  pose proof (atom_from_ok n v off Hv' (no_sym, 0) (maybe_none n)) as H. destruct (atom_from v off (no_sym, 0)) as [id start].
  eexists. split; [done|exact H].
Qed.

(** ** One fixup *)

Section Fixup.
Variable atoms : AtomMap.
Variable section : Z.
Variables n m : nat.
Variable len : Z.
Hypothesis Hatoms : atoms_ok n m atoms.
Hypothesis Hsection : 0 <= section < Z.of_nat m.

(** The bytes of the section keep their number. *)
Definition J (a : Asm) : Prop :=
  asm_ok a /\ weight a = n /\ section_count a = m /\ exists s, at_ (sections (unit_ a)) section = Some s /\ size (bytes s) = len.

Lemma J_error l k msg a : J a -> J (error_at l k msg a).
Proof. intros (H1 & H2 & H3 & H4). split; [by apply error_ok|done]. Qed.
Lemma run_fixup_error f msg a Q : J a -> (forall a', J a' -> Q tt a') -> run (fixup_error f msg) a Q.
Proof. intros Ha HQ. apply run_modify, HQ. by apply J_error. Qed.
Lemma J_update g a (Q : unit -> Asm -> Prop) : J a -> (forall s, section_ok n s -> size (bytes s) = len -> section_ok n (g s) /\ size (bytes (g s)) = len) ->
  (forall a', J a' -> Q tt a') -> run (update_section section g) a Q.
Proof.
  intros (H1 & H2 & H3 & s & Hs & Hl) Hg HQ. eapply run_update_section; [exact Hs|]. apply HQ.
  destruct (section_at a section H1 ltac:(lia)) as (s' & Hs' & Hok). assert (s' = s) as -> by congruence. rewrite H2 in Hok.
  destruct (Hg s Hok Hl) as [G1 G2]. split; [|split; [done|split]].
  - rewrite <- H2 in G1. destruct H1. split; unfold known, weight, section_count in *; cbn; rewrite ?length_put; try done.
    unfold put. destruct (_ <? _); [done|]. by apply Forall_insert.
  - unfold section_count in *. cbn. by rewrite length_put.
  - exists (g s). split; [|done]. cbn. apply at_put_eq. by eapply at_lt.
Qed.
Lemma run_patch off b a (Q : unit -> Asm -> Prop) : J a -> 0 <= off -> off + size b <= len -> (forall a', J a' -> Q tt a') -> run (patch_bytes section off b) a Q.
Proof.
  intros Ha H0 Hb HQ. pose proof Ha as (H1 & H2 & H3 & s & Hs & Hl). unfold patch_bytes. apply run_bind, run_get, run_bind.
  eapply run_must; [exact Hs|]. destruct (write_bytes_run b off (bytes s)) as (b' & E & Hsz & _); [done|lia|].
  apply run_bind. eapply run_must; [exact E|]. apply J_update; [done| |done]. intros s' Hok Hl'. cbn. split; [|lia].
  assert (size b' = size (bytes s')) as Es by lia. destruct Hok. split; cbn; rewrite ?Es; done.
Qed.
Lemma run_push_reloc r a (Q : unit -> Asm -> Prop) : J a -> maybe_in n (rl_symbol r) -> (forall a', J a' -> Q tt a') -> run (push_reloc section r) a Q.
Proof.
  intros Ha Hr HQ. apply J_update; [done| |done]. intros s Hok Hl. split; [|done]. destruct Hok. split; cbn; try done.
  apply Forall_app. split; [done|]. by apply list.Forall_singleton.
Qed.
Lemma run_leave f acc ex a (Q : unit -> Asm -> Prop) : J a -> known_in n (fx_pos f) -> (forall a', J a' -> Q tt a') -> run (leave_unresolved section f acc ex) a Q.
Proof.
  intros Ha Hr HQ. apply J_update; [done| |done]. intros s Hok Hl. split; [|done]. destruct Hok. split; cbn; try done.
  apply Forall_app. split; [done|]. by apply list.Forall_singleton.
Qed.
Lemma run_symbol id a Q : J a -> known_in n id -> (forall s, symbol_ok m s -> Q s a) -> run (symbol_at id) a Q.
Proof.
  intros (H1 & H2 & H3 & H4) Hk HQ. apply (run_symbol_at limit least); [done|unfold known; by rewrite H2|]. intros s _ Hs. apply HQ. by rewrite <- H3.
Qed.
Definition resolved_ok (r : ResolvedSym) : Prop := match r with R_InSection sec _ => 0 <= sec < Z.of_nat m | _ => True end.
Lemma run_resolve id f a Q : J a -> known_in n id -> (forall r a', J a' -> resolved_ok r -> Q r a') -> run (resolve id f) a Q.
Proof.
  intros Ha Hk HQ. unfold resolve. apply run_bind, run_symbol; [done|done|]. intros s [Hs _]. destruct (sym_state s) eqn:E.
  - destruct (internal s); [|apply run_ret; by apply HQ]. apply run_bind, run_modify, run_ret, HQ; [by apply J_error|done].
  - apply run_ret, HQ; [done|]. by apply Hs.
  - apply run_ret. by apply HQ.
Qed.
Lemma run_atom sec off a Q : J a -> 0 <= sec < Z.of_nat m -> (forall x, maybe_in n x.1 -> Q x a) -> run (must (atom_at atoms sec off)) a Q.
Proof. intros Ha Hs HQ. destruct (atom_at_ok n m atoms sec off Hatoms Hs) as (x & E & Hx). eapply run_must; [exact E|]. by apply HQ. Qed.
Lemma run_left_open f a Q : J a -> maybe_in n (fx_pos f) -> (forall b, (b = true -> is_sym (fx_pos f) = true) -> Q b a) -> run (left_open f) a Q.
Proof.
  intros Ha Hk HQ. unfold left_open. apply run_bind, run_get. destruct (fragment_mode _ && is_sym (fx_pos f)) eqn:E; [|by apply run_ret, HQ].
  apply andb_true_iff in E as [_ E]. apply run_bind, run_symbol; [done|apply Hk; by rewrite E|]. intros s _. by apply run_ret, HQ.
Qed.
Lemma run_in_place f sec off a Q : J a -> known_in n (fx_pos f) -> 0 <= sec < Z.of_nat m -> (forall b, Q b a) -> run (in_place atoms section f sec off) a Q.
Proof.
  intros Ha Hk Hs HQ. unfold in_place. apply run_bind, run_get, run_bind, run_symbol; [done|done|]. intros s _.
  apply run_bind, run_atom; [done|done|]. intros x _. apply run_bind, run_atom; [done|done|]. intros y _. by apply run_ret.
Qed.
Lemma run_patch_absolute f v a Q : J a -> 0 <= fx_offset f -> fx_offset f + fixup_width_bytes (fx_kind f) <= len ->
  (forall b a', J a' -> Q b a') -> run (patch_absolute section f v) a Q.
Proof.
  intros Ha H0 Hl HQ. unfold patch_absolute. cbn zeta. destruct (negb _).
  - apply run_bind, run_fixup_error; [done|]. intros a' Ha'. apply run_ret. by apply HQ.
  - apply run_bind, run_patch; [done|done| |].
    + assert (0 <= fixup_width_bytes (fx_kind f)) by (by destruct (fx_kind f)). unfold size. rewrite length_little_endian. lia.
    + intros a' Ha'. apply run_ret. by apply HQ.
Qed.
Lemma size_four v : size (little_endian 4 v) = 4.
Proof. unfold size. by rewrite length_little_endian. Qed.

Abbreviation goes_on := (fun _ : () => J).

Lemma finalize_got_run f a : J a -> fixup_ok n len f -> fx_kind f = GotDelta32 -> run (finalize_got section f) a goes_on.
Proof.
  intros Ha (H1 & H2 & H3 & H4) Hk. unfold fixup_names in H4. rewrite Hk in H2, H4. cbn in H2. destruct H4 as [Hp Hn].
  unfold finalize_got. apply run_bind, run_resolve; [done|done|]. intros r a1 Ha1 Hr. destruct r; [by apply run_fixup_error| | |done].
  - destruct (negb _); [by apply run_fixup_error|]. apply run_bind, run_patch; [done|done|rewrite size_four; lia|].
    intros a2 Ha2. apply run_push_reloc; [done|by apply known_maybe|done].
  - by apply run_fixup_error.
Qed.
Lemma pcrel_target_run f pos hole a Q : J a -> known_in n (fx_pos f) -> resolved_ok pos ->
  (forall x, maybe_in n x.1.1 -> Q x a) -> run (pcrel_target atoms f pos hole) a Q.
Proof.
  intros Ha Hk Hr HQ. unfold pcrel_target. apply run_bind, run_get.
  destruct pos; try (apply run_ret; apply HQ; by apply known_maybe).
  apply run_bind, run_symbol; [done|done|]. intros s _. destruct (can_be_reloc_target _ _); [apply run_ret, HQ; by apply known_maybe|].
  apply run_bind, run_atom; [done|done|]. intros [id delta] Hid. destruct (is_sym id).
  - apply run_bind, run_checked. intros _. by apply run_ret, HQ.
  - apply run_bind, run_checked. intros _. apply run_bind, run_checked. intros _. by apply run_ret, HQ.
Qed.
Lemma finalize_pcrel_run f a : J a -> fixup_ok n len f -> known_in n (fx_pos f) -> fixup_width_bytes (fx_kind f) = 4 ->
  run (finalize_pcrel atoms section f) a goes_on.
Proof.
  intros Ha (H1 & H2 & H3 & H4) Hk Hw. rewrite Hw in H2. unfold finalize_pcrel.
  apply run_bind, run_left_open; [done|by apply known_maybe|]. intros [] _; [by apply run_leave|].
  apply run_bind, run_resolve; [done|done|]. intros r a1 Ha1 Hr.
  assert (Hrest : forall a, J a -> run (hole ← checked (fx_constant f - fx_extra f);
      target ← pcrel_target atoms f r hole;
      let '(id, in_section, hole) := target in
      _ ← patch_bytes section (fx_offset f) (little_endian 4 (u64 hole));
      push_reloc section (mkReloc (fx_offset f) (fx_kind f) (if bool_decide (fx_kind f = Branch32) then Rel_Branch32 else Rel_PcRel32)
        (fx_flavor f) 0 (fx_extra f) id in_section)) a goes_on).
  { intros a2 Ha2. apply run_bind, run_checked. intros _. apply run_bind, pcrel_target_run; [done|done|done|]. intros [[id sec] hole] Hid.
    apply run_bind, run_patch; [done|done|rewrite size_four; lia|]. intros a3 Ha3. by apply run_push_reloc. }
  destruct r as [v|sec off| |]; [by apply run_fixup_error| | |done]; cbn zeta.
  - apply run_bind. destruct (negb _ && _); [|apply run_ret; by apply Hrest].
    apply run_bind, run_in_place; [done|done|done|]. intros []; [|apply run_ret; by apply Hrest].
    apply run_bind, run_checked. intros _. apply run_bind, run_checked. intros _.
    apply run_bind, run_patch; [done|done|rewrite size_four; lia|]. intros a2 Ha2. apply run_ret. by apply run_ret.
  - apply run_bind, run_ret. by apply Hrest.
Qed.

Lemma run_read_word off a Q : J a -> 0 <= off -> off + 4 <= len -> (forall w, Q w a) -> run (read_inst_word section off) a Q.
Proof.
  intros (H1 & H2 & H3 & s & Hs & Hl) H0 Hoff HQ. unfold read_inst_word. apply run_bind, run_get, run_bind. eapply run_must; [exact Hs|].
  assert (Hat : forall i, 0 <= i < 4 -> exists x, at_ (bytes s) (off + i) = Some x) by (intros i Hi; apply at_is_Some; lia).
  destruct (Hat 0) as [x0 E0]; [lia|]. rewrite Z.add_0_r in E0. destruct (Hat 1) as [x1 E1]; [lia|]. destruct (Hat 2) as [x2 E2]; [lia|].
  destruct (Hat 3) as [x3 E3]; [lia|]. do 4 (apply run_bind; eapply run_must; [eassumption|]). apply run_ret, HQ.
Qed.
Lemma inst_reloc_run f pos a : J a -> known_in n (fx_pos f) -> resolved_ok pos -> run (inst_reloc atoms section f pos) a goes_on.
Proof.
  intros Ha Hk Hr. unfold inst_reloc. cbn zeta. destruct (bool_decide _); [by apply run_fixup_error|].
  destruct pos; try (apply run_push_reloc; [done|by apply known_maybe|done]).
  apply run_bind, run_get, run_bind, run_symbol; [done|done|]. intros s _.
  destruct (can_be_reloc_target _ _); [apply run_push_reloc; [done|by apply known_maybe|done]|].
  apply run_bind, run_atom; [done|done|]. intros [id delta] Hid. destruct (_ || _); [by apply run_fixup_error|by apply run_push_reloc].
Qed.
Lemma finalize_inst_run f a : J a -> fixup_ok n len f -> known_in n (fx_pos f) -> fixup_width_bytes (fx_kind f) = 4 ->
  run (finalize_inst atoms section f) a goes_on.
Proof.
  intros Ha (H1 & H2 & H3 & H4) Hk Hw. rewrite Hw in H2. unfold finalize_inst.
  apply run_bind, run_left_open; [done|by apply known_maybe|]. intros [] _; [by apply run_leave|].
  apply run_bind, run_resolve; [done|done|]. intros r a1 Ha1 Hr.
  destruct r as [v|sec off| |]; [by apply run_fixup_error| | |done]; cbn zeta; (destruct (negb (fx_constant f =? 0)); [by apply run_fixup_error|]).
  - apply run_bind. destruct (_ && _); [|apply run_ret; by apply inst_reloc_run].
    apply run_bind, run_in_place; [done|done|done|]. intros []; [|apply run_ret; by apply inst_reloc_run].
    apply run_bind, run_checked. intros _. apply run_bind, run_read_word; [done|done|lia|]. intros w.
    apply run_bind, run_patch; [done|done|rewrite size_four; lia|]. intros a2 Ha2. apply run_ret. by apply run_ret.
  - apply run_bind, run_ret. by apply inst_reloc_run.
Qed.

(** *** Data *)

Definition difference_ok (r : option (ResolvedSym * Z * SymId)) : Prop :=
  match r with Some (pos, _, id) => resolved_ok pos /\ maybe_in n id | None => True end.
Lemma subtract_run f pos k a Q : J a -> maybe_in n (fx_neg f) -> resolved_ok pos ->
  (forall r a', J a' -> difference_ok r -> (forall p c id, r = Some (p, c, id) -> (exists v, p = R_Absolute v) \/ p = pos) -> Q r a') ->
  run (subtract atoms f pos k) a Q.
Proof.
  intros Ha Hn Hr HQ. unfold subtract.
  assert (Hsame : forall c id a', J a' -> maybe_in n id -> Q (Some (pos, c, id)) a').
  { intros c id a' Ha' Hid. apply HQ; [done|done|]. intros p c' id' [= -> _ _]. by right. }
  assert (Hnone : forall msg a', J a' -> run (_ ← fixup_error f msg; mret None) a' Q).
  { intros msg a' Ha'. apply run_bind, run_fixup_error; [done|]. intros a2 Ha2. by apply run_ret, HQ. }
  destruct (is_sym (fx_neg f)) eqn:En; cbn [negb]; [|apply run_ret; by apply Hsame].
  apply run_bind, run_resolve; [done|apply Hn; by rewrite En|]. intros neg a1 Ha1 Hneg. cbn zeta.
  assert (Hatom : forall x, maybe_in n x.1 -> run (if negb (is_sym x.1) then
      _ ← fixup_error f (str "cannot subtract a symbol that has no enclosing atom symbol"); mret None
    else k ← checked (k - x.2); mret (Some (pos, k, x.1))) a1 Q).
  { intros x Hx. destruct (negb _); [by apply Hnone|]. apply run_bind, run_checked. intros _. apply run_ret. by apply Hsame. }
  destruct neg as [v|nsec noff| |].
  - apply run_bind, run_checked. intros _. apply run_ret. by apply Hsame.
  - destruct pos as [pv|psec poff| |]; [by apply Hnone| |
      apply run_bind, run_atom; [done|done|]; exact Hatom|apply run_bind, run_atom; [done|done|]; exact Hatom].
    apply run_bind, run_atom; [done|done|]. intros x Hx. apply run_bind, run_atom; [done|done|]. intros y Hy.
    destruct (_ && _); [|by apply Hatom]. apply run_bind, run_checked. intros _. apply run_bind, run_checked. intros _.
    apply run_ret, HQ; [done|done|]. intros p c id [= <- _ _]. left. by exists 0.
  - by apply Hnone.
  - by apply run_ret, HQ.
Qed.
Lemma data_target_run f pos k sub a Q : J a -> known_in n (fx_pos f) -> resolved_ok pos ->
  (forall r a', J a' -> (forall x, r = Some x -> maybe_in n x.1.1) -> Q r a') -> run (data_target atoms f pos k sub) a Q.
Proof.
  intros Ha Hk Hr HQ. unfold data_target.
  assert (Hpos : forall sec c a', J a' -> Q (Some (fx_pos f, sec, c)) a').
  { intros sec c a' Ha'. apply HQ; [done|]. intros x [= <-]. by apply known_maybe. }
  destruct pos; try (apply run_ret; by apply Hpos).
  apply run_bind, run_get, run_bind, run_symbol; [done|done|]. intros s _. destruct (can_be_reloc_target _ _); [apply run_ret; by apply Hpos|].
  apply run_bind, run_atom; [done|done|]. intros x Hx. destruct (is_sym x.1).
  - apply run_bind, run_checked. intros _. apply run_ret, HQ; [done|]. by intros y [= <-].
  - destruct (is_sym sub).
    + apply run_bind, run_fixup_error; [done|]. intros a1 Ha1. by apply run_ret, HQ.
    + apply run_bind, run_checked. intros _. apply run_ret, HQ; [done|]. by intros y [= <-].
Qed.
Lemma data_reloc_run f pos k sub a : J a -> fixup_ok n len f -> known_in n (fx_pos f) -> resolved_ok pos -> maybe_in n sub ->
  run (data_reloc atoms section f pos k sub) a goes_on.
Proof.
  intros Ha (H1 & H2 & H3 & H4) Hk Hr Hsub. unfold data_reloc. cbn zeta. destruct (_ <? 4); [by apply run_fixup_error|].
  apply run_bind, data_target_run; [done|done|done|]. intros [[[id sec] c]|] a1 Ha1 Hid; [|done]. specialize (Hid _ eq_refl).
  apply run_bind, run_patch_absolute; [done|done|done|]. intros [] a2 Ha2; cbn [negb]; [|done].
  assert (Hlast : forall a', J a' -> run (push_reloc section (mkReloc (fx_offset f) (fx_kind f) Rel_Absolute Plain 0 0 id sec)) a' goes_on)
    by (intros a' Ha'; by apply run_push_reloc).
  apply run_bind. destruct (is_sym sub); [|apply run_ret; by apply Hlast]. by apply run_push_reloc.
Qed.
Lemma finalize_data_run f a : J a -> fixup_ok n len f -> maybe_in n (fx_pos f) -> maybe_in n (fx_neg f) ->
  run (finalize_data atoms section f) a goes_on.
Proof.
  intros Ha Hf Hp Hn. pose proof Hf as (H1 & H2 & H3 & H4). unfold finalize_data. apply run_bind.
  assert (Hopen : forall Q, (forall b, (b = true -> is_sym (fx_pos f) = true) -> Q b a) ->
    run (if is_sym (fx_neg f) then mret false else left_open f) a Q).
  { intros Q HQ. destruct (is_sym (fx_neg f)); [by apply run_ret, HQ|by apply run_left_open]. }
  apply Hopen. intros [] Hb; [apply run_leave; [done|apply Hp; by rewrite (Hb eq_refl)|done]|]. clear Hopen Hb.
  apply run_bind. assert (Hpos : forall Q, (forall r a', J a' -> resolved_ok r -> ((exists v, r = R_Absolute v) \/ is_sym (fx_pos f) = true) -> Q r a') ->
    run (if is_sym (fx_pos f) then resolve (fx_pos f) f else mret (R_Absolute 0)) a Q).
  { intros Q HQ. destruct (is_sym (fx_pos f)) eqn:E; [|apply run_ret, HQ; [done|done|left; by exists 0]].
    apply run_resolve; [done|apply Hp; by rewrite E|]. intros r a' Ha' Hr. apply HQ; [done|done|by right]. }
  apply Hpos. clear Hpos. intros pos a1 Ha1 Hr Hsym. apply run_bind.
  assert (Hk : forall Q, (forall k, Q k a1) -> run (match pos with R_Absolute v => checked (fx_constant f + v) | _ => mret (fx_constant f) end) a1 Q).
  { intros Q HQ. destruct pos; try (apply run_ret; apply HQ). apply run_checked. intros _. apply HQ. }
  apply Hk. clear Hk. intros k.
  assert (Hrest : run (difference ← subtract atoms f pos k;
      match difference with
      | None => mret tt
      | Some (R_Absolute _, constant, _) => _ ← patch_absolute section f constant; mret tt
      | Some (pos, constant, subtractor) => data_reloc atoms section f pos constant subtractor
      end) a1 goes_on).
  { apply run_bind, subtract_run; [done|done|done|]. intros [[[p c] sub]|] a2 Ha2 Hd Hwhich; [|done]. destruct Hd as [Hd1 Hd2].
    assert (Hpk : (exists v, p = R_Absolute v) \/ known_in n (fx_pos f)).
    { destruct (Hwhich _ _ _ eq_refl) as [Hv| ->]; [by left|]. destruct Hsym as [Hv|Hsy]; [by left|right; apply Hp; by rewrite Hsy]. }
    assert (Habs : run (_ ← patch_absolute section f c; mret tt) a2 goes_on).
    { apply run_bind, run_patch_absolute; [done|done|done|]. intros b a3 Ha3. by apply run_ret. }
    destruct p; [exact Habs|destruct Hpk as [[v [=]]|Hpk]; by apply data_reloc_run..]. }
  destruct pos; [exact Hrest|exact Hrest|exact Hrest|done].
Qed.
Lemma finalize_fixup_run f a : J a -> fixup_ok n len f -> run (finalize_fixup atoms section f) a goes_on.
Proof.
  intros Ha Hf. pose proof Hf as (H1 & H2 & H3 & H4). unfold fixup_names in H4. unfold finalize_fixup. destruct (fx_kind f) eqn:Hk; cbn [fixup_is_data].
  1-4: destruct H4; by apply finalize_data_run.
  1-4: apply finalize_inst_run; [done|done|done|by rewrite Hk].
  1-2: apply finalize_pcrel_run; [done|done|done|by rewrite Hk].
  by apply finalize_got_run.
Qed.
Lemma finalize_all_run l : forall a, J a -> Forall (fixup_ok n len) l -> run (finalize_all atoms section l) a goes_on.
Proof.
  induction l as [|f l IH]; intros a Ha Hl; cbn [finalize_all]; [done|]. apply list.Forall_cons in Hl as [Hf Hl].
  apply run_bind. eapply run_mono; [by apply finalize_fixup_run|]. intros ? a1 Ha1. by apply IH.
Qed.
End Fixup.

(** ** The whole unit *)

Lemma finalize_section_run atoms section a : asm_ok a -> atoms_ok (weight a) (section_count a) atoms -> 0 <= section < Z.of_nat (section_count a) ->
  run (finalize_section atoms section) a (fun _ a' => asm_ok a' /\ weight a' = weight a /\ section_count a' = section_count a).
Proof.
  intros Ha Hat Hs. destruct (section_at a section Ha Hs) as (s & Es & Hok). unfold finalize_section.
  apply run_bind, run_get, run_bind. eapply run_must; [exact Es|].
  assert (HJ : J section (weight a) (section_count a) (size (bytes s)) a) by (split; [done|]; split; [done|]; split; [done|by exists s]).
  apply run_bind. eapply run_mono; [apply (finalize_all_run atoms section (weight a) (section_count a) (size (bytes s))); [done|done|done|apply Hok]|].
  intros ? a1 Ha1. eapply J_update; [exact Hs|exact Ha1| |]; [|by intros a2 (K1 & K2 & K3 & _)].
  intros s1 Hok1 Hl. split; [|done]. destruct Hok1. by split; cbn.
Qed.
Lemma finalize_from_run atoms count : forall i a, asm_ok a -> atoms_ok (weight a) (section_count a) atoms -> 0 <= i ->
  i + Z.of_nat count <= Z.of_nat (section_count a) -> run (finalize_from atoms i count) a (fun _ a' => asm_ok a').
Proof.
  induction count as [|count IH]; intros i a Ha Hat H0 Hi; cbn [finalize_from]; [done|].
  apply run_bind. eapply run_mono; [apply finalize_section_run; [done|done|lia]|]. intros ? a1 (H1 & H2 & H3).
  apply IH; [done|by rewrite H2, H3|lia|rewrite H3; lia].
Qed.
Lemma any_undefined_run l a Q : asm_ok a -> Forall (known a) l -> (forall b, Q b a) -> run (any_undefined l) a Q.
Proof.
  intros Ha Hl HQ. induction l as [|id l IH]; cbn; [by apply run_ret|]. apply list.Forall_cons in Hl as [H1 H2].
  apply run_bind, (run_symbol_at limit least); [done|done|]. intros s _ _. destruct (bool_decide _); [by apply run_ret|by apply IH].
Qed.
Lemma check_labels_run l : forall a, asm_ok a -> Forall (fun e => local_ok (weight a) e.2) l -> run (check_local_labels l) a (fun _ a' => asm_ok a').
Proof.
  induction l as [|[number state] l IH]; intros a Ha Hl; cbn [check_local_labels]; [done|]. apply list.Forall_cons in Hl as [[_ H1] H2].
  apply run_bind, any_undefined_run; [done|exact H1|]. intros missing. apply run_bind, run_get, run_bind.
  destruct missing; [apply run_modify, IH; [by apply message_ok|done]|apply run_ret; by apply IH].
Qed.

(** The order in which the map of the local labels is walked is the library's own. *)
Context (visit : gmap Z LocalLabelState -> list (Z * LocalLabelState)).
Hypothesis visits_entries : forall m, visit m ⊆ map_to_list m.

Lemma finalize_fixups_run a : asm_ok a -> run (finalize_fixups visit) a (fun _ a' => asm_ok a').
Proof.
  intros Ha. unfold finalize_fixups. apply run_bind. eapply run_mono; [by apply expand_all_run|]. intros ? a1 [H1 _].
  apply run_bind, run_get, run_bind. destruct (atom_map_ok a1 H1) as (atoms & E & Hat). eapply run_must; [exact E|].
  apply run_bind. eapply run_mono; [apply (finalize_from_run atoms); [done|done|done|unfold section_count; lia]|]. intros ? a2 H2.
  apply run_bind, run_get. apply check_labels_run; [done|]. apply list.Forall_forall. intros [k l] Hin.
  apply visits_entries, elem_of_map_to_list in Hin. by apply (map_Forall_lookup_1 _ _ _ _ (ok_locals _ _ _ H2) Hin).
Qed.

Context {parser : InstructionParser} {parser_safe : InstructionParserSafe}.

Lemma assemble_run n p s : W limit least n p s -> run (assemble visit) s (fun assembled s' => assembled = true -> asm_ok (snd s') /\ diagnostics_ (snd s') = []).
Proof.
  intros Hs. unfold assemble. apply run_bind, run_get, run_bind.
  eapply run_mono; [apply (statements_run limit least Hlimit n _ p s Hs); by eapply tokens_left_bound|]. intros ? s1 H1.
  pose proof (W_ok _ _ _ _ _ H1) as Ha. apply run_bind, run_get. destruct (_ <=? _).
  - by apply run_bind, run_zoom, run_modify, run_ret.
  - apply run_bind, run_zoom. eapply run_mono; [by apply finalize_fixups_run|]. intros ? a2 Ha2.
    apply run_bind, run_get, run_ret. intros He%Z.eqb_eq. split; [done|]. apply nil_length_inv. pose proof (ok_errors _ _ _ Ha2). cbn in *. lia.
Qed.

(** ** Fragments *)

Lemma fragment_section_total elf i a s : asm_ok a -> section_ok (weight a) s -> exists f, fragment_section elf (table a) i s = Some f.
Proof.
  intros Ha Hs. unfold fragment_section.
  destruct (proj2 (mapM_is_Some (fragment_reloc (table a)) (relocs s))) as [rs ->].
  { eapply list.Forall_impl; [apply Hs|]. intros r Hr. cbn in *. unfold fragment_reloc. destruct (is_sym (rl_symbol r)) eqn:E; [|by eexists].
    unfold sym. destruct (proj2 (at_is_Some (symbols_ (table a)) (rl_symbol r))) as [y ->]; [|by eexists].
    apply Hr. by rewrite E. }
  destruct (proj2 (mapM_is_Some (fragment_fixup (table a)) (unresolved s))) as [us ->]; [|by eexists].
  eapply list.Forall_impl; [apply Hs|]. intros u Hu. cbn in *. unfold fragment_fixup, sym.
  destruct (proj2 (at_is_Some (symbols_ (table a)) (un_symbol u))) as [y ->]; [|by eexists]. exact Hu.
Qed.
Lemma fragment_total ok a : asm_ok a -> exists f, fragment_of ok a = Some f.
Proof.
  intros Ha. unfold fragment_of. destruct ok; cbn [negb]; [|by eexists].
  destruct (proj2 (mapM_is_Some (fun '(i, s) => fragment_section (is_elf a) (table a) i s) (imap pair (sections (unit_ a))))) as [v ->]; [|by eexists].
  apply list.Forall_forall. intros [i s] Hin. apply elem_of_lookup_imap in Hin as (j & y & [= -> ->] & Hj).
  apply (fragment_section_total (is_elf a) j a y Ha).
  by apply (Forall_lookup_1 _ _ _ _ (ok_sections _ _ _ Ha) Hj).
Qed.
End Finish.

(** ** A whole run *)

Lemma new_assembler_ok source o : W (length source) 1 (length source) (length source) (new_assembler source o).
Proof.
  split; [|cbn; unfold pending, left; cbn; lia]. unfold new_assembler, new_lexer. cbn [snd]. split; cbn.
  - unfold section_count. cbn. lia.
  - unfold weight. cbn. lia.
  - unfold section_count. cbn. lia.
  - apply map_Forall_empty.
  - constructor.
  - apply list.Forall_singleton. unfold first_section. destruct (asm_target_is_elf _); split; cbn; try done; unfold size; cbn; lia.
  - apply map_Forall_empty.
  - done.
Qed.

(** The result of an assembly: the one thing it is not is a failure of the assembler. *)
Definition assembled_within_bounds (r : outcome FragmentResult) : Prop :=
  match r with
  | Done f => (fr_ok f = true -> fr_diagnostics f = []) /\ (fr_ok f = false -> fr_sections f = [] /\ fr_commons f = [])
  | Overflow => True
  | Undefined_behaviour | Out_of_fuel => False
  end.

(** Whatever the text and the parser of instructions, if that keeps the invariant. *)
Lemma assembler_within_bounds {parser : InstructionParser} {parser_safe : InstructionParserSafe}
    (visit : gmap Z LocalLabelState -> list (Z * LocalLabelState)) source o :
  (forall m, visit m ⊆ map_to_list m) -> size source < no_sym ->
  assembled_within_bounds (assemble_fragment visit source o).
Proof.
  intros Hv Hn. unfold assemble_fragment.
  set (o' := mkOptions (target o) (filename o) true).
  pose proof (assemble_run (length source) 1 Hn visit Hv _ _ _ (new_assembler_ok source o')) as H.
  unfold run in H. change (mbind (M := outcome) ?k ?m) with (outcome_bind _ _ k m). unfold outcome_bind at 1.
  destruct (assemble visit (new_assembler source o')) as [[ok s]| | |]; [|done..]. destruct ok.
  - destruct (H eq_refl) as [Ha Hd]. destruct (fragment_total (length source) 1 true _ Ha) as [f Hf]. cbn [must].
    unfold must. rewrite Hf. cbn. unfold fragment_of in Hf. cbn [negb] in Hf. destruct (mapM _ _); [|done].
    injection Hf as <-. cbn. done.
  - done.
Qed.
