(* ===== verification/A64Isa.v ===== *)
(** * The AArch64 instruction table and encoder (src/backend/aarch64/isa.def, isa.h, isa.cpp)

    Every instruction form is a row: a mnemonic, patterns for the operands, the word with
    its operand fields clear, and the class that says where the operands go. *)
From stdpp Require Import list strings.
From S2P Require Import Prelude Vectors Outcome AsmExpr Mir Assembler SortedTable.
Open Scope Z_scope.

Inductive OpndPat :=
  | Pat_None | Pat_GprW | Pat_GprX | Pat_GprWsp | Pat_GprXsp | Pat_FprS | Pat_FprD | Pat_FprQ | Pat_FprB | Pat_VecB8 | Pat_VecB16
  | Pat_Imm | Pat_MovImm16 | Pat_SymPage | Pat_SymPageOff | Pat_SymCall | Pat_Target | Pat_MemBase | Pat_MemBaseOff | Pat_MemPre
  | Pat_MemPost | Pat_Cond | Pat_BarrierOpt.
#[export] Instance opnd_pat_eq_dec : EqDecision OpndPat.
Proof. solve_decision. Defined.
Inductive EncClass :=
  | Enc_Fixed | Enc_RdRnRm | Enc_RdRn | Enc_RdRm16 | Enc_RnOnly | Enc_RdRnRmRa | Enc_MovWide | Enc_MovSpAlias | Enc_MovRegAlias
  | Enc_MovImmAlias | Enc_AddSubImm | Enc_AddSymLo12 | Enc_LogicalImm | Enc_LdSt | Enc_LdStPair | Enc_Adr | Enc_BranchImm26
  | Enc_BranchCond19 | Enc_CompareBranch19 | Enc_Brk | Enc_CmpReg | Enc_CmpImm | Enc_Cset | Enc_Csel | Enc_LdapStl | Enc_LseRmw
  | Enc_Cas | Enc_VecMov16.
#[export] Instance enc_class_eq_dec : EqDecision EncClass.
Proof. solve_decision. Defined.
Definition RF_NEEDS_SP : Z := 1.

Inductive IsaFixup := Fix_None | Fix_Branch26 | Fix_Branch19 | Fix_Page21 | Fix_PageOff12.
#[export] Instance isa_fixup_eq_dec : EqDecision IsaFixup.
Proof. solve_decision. Defined.

Inductive OperandKind := K_Reg | K_Vec | K_Imm | K_Sym | K_Cond | K_Mem | K_Barrier.
#[export] Instance operand_kind_eq_dec : EqDecision OperandKind.
Proof. solve_decision. Defined.
Inductive MemMode := BaseOnly | Offset | Pre | Post.
#[export] Instance mem_mode_eq_dec : EqDecision MemMode.
Proof. solve_decision. Defined.
Record AsmOperand := mkOpnd {
  o_kind : OperandKind; o_reg : Z; o_class : ascii; o_is_sp : bool; o_is_zr : bool; o_lanes : Z; o_imm : Z; o_shift_hw : Z;
  o_sym : SymId; o_addend : Z; o_flavor : SymFlavor; o_cond : Z; o_mode : MemMode; o_base : Z; o_base_is_sp : bool;
  o_offset_is_sym : bool }.
Definition no_class : ascii := "000"%char.
Definition default_opnd : AsmOperand := mkOpnd K_Imm 0 no_class false false 0 0 0 no_sym 0 Plain 0 BaseOnly 0 false false.

Record A64IsaRow := mkRow { r_mnemonic : chars; r_enc : EncClass; r_base : Z; r_pats : list OpndPat; r_flags : Z; r_aux : Z }.
Definition row (mnemonic : String.string) (enc : EncClass) (base : Z) (pats : list OpndPat) (flags aux : Z) : A64IsaRow :=
  mkRow (str mnemonic) enc base pats flags aux.

(** isa.def *)
Definition kRows : list A64IsaRow :=
  [row "movz" Enc_MovWide 0x52800000 [Pat_GprW; Pat_MovImm16] 0 0;
   row "movz" Enc_MovWide 0xD2800000 [Pat_GprX; Pat_MovImm16] 0 0;
   row "movn" Enc_MovWide 0x12800000 [Pat_GprW; Pat_MovImm16] 0 0;
   row "movn" Enc_MovWide 0x92800000 [Pat_GprX; Pat_MovImm16] 0 0;
   row "movk" Enc_MovWide 0x72800000 [Pat_GprW; Pat_MovImm16] 0 0;
   row "movk" Enc_MovWide 0xF2800000 [Pat_GprX; Pat_MovImm16] 0 0;
   row "mov" Enc_MovSpAlias 0x11000000 [Pat_GprWsp; Pat_GprWsp] RF_NEEDS_SP 0;
   row "mov" Enc_MovSpAlias 0x91000000 [Pat_GprXsp; Pat_GprXsp] RF_NEEDS_SP 0;
   row "mov" Enc_MovRegAlias 0x2A0003E0 [Pat_GprW; Pat_GprW] 0 0;
   row "mov" Enc_MovRegAlias 0xAA0003E0 [Pat_GprX; Pat_GprX] 0 0;
   row "mov" Enc_MovImmAlias 0x00000000 [Pat_GprW; Pat_Imm] 0 0;
   row "mov" Enc_MovImmAlias 0x80000000 [Pat_GprX; Pat_Imm] 0 0;
   row "mov" Enc_VecMov16 0x4EA01C00 [Pat_VecB16; Pat_VecB16] 0 0;
   row "fmov" Enc_RdRn 0x1E270000 [Pat_FprS; Pat_GprW] 0 0;
   row "fmov" Enc_RdRn 0x9E670000 [Pat_FprD; Pat_GprX] 0 0;
   row "fmov" Enc_RdRn 0x1E260000 [Pat_GprW; Pat_FprS] 0 0;
   row "fmov" Enc_RdRn 0x9E660000 [Pat_GprX; Pat_FprD] 0 0;
   row "fmov" Enc_RdRn 0x1E204000 [Pat_FprS; Pat_FprS] 0 0;
   row "fmov" Enc_RdRn 0x1E604000 [Pat_FprD; Pat_FprD] 0 0;
   row "add" Enc_RdRnRm 0x0B000000 [Pat_GprW; Pat_GprW; Pat_GprW] 0 0;
   row "add" Enc_RdRnRm 0x8B000000 [Pat_GprX; Pat_GprX; Pat_GprX] 0 0;
   row "add" Enc_RdRnRm 0x0B206000 [Pat_GprWsp; Pat_GprWsp; Pat_GprW] 0 0;
   row "add" Enc_RdRnRm 0x8B206000 [Pat_GprXsp; Pat_GprXsp; Pat_GprX] 0 0;
   row "add" Enc_AddSubImm 0x11000000 [Pat_GprWsp; Pat_GprWsp; Pat_Imm] 0 0;
   row "add" Enc_AddSubImm 0x91000000 [Pat_GprXsp; Pat_GprXsp; Pat_Imm] 0 0;
   row "add" Enc_AddSymLo12 0x91000000 [Pat_GprXsp; Pat_GprXsp; Pat_SymPageOff] 0 0;
   row "sub" Enc_RdRnRm 0x4B000000 [Pat_GprW; Pat_GprW; Pat_GprW] 0 0;
   row "sub" Enc_RdRnRm 0xCB000000 [Pat_GprX; Pat_GprX; Pat_GprX] 0 0;
   row "sub" Enc_RdRnRm 0x4B206000 [Pat_GprWsp; Pat_GprWsp; Pat_GprW] 0 0;
   row "sub" Enc_RdRnRm 0xCB206000 [Pat_GprXsp; Pat_GprXsp; Pat_GprX] 0 0;
   row "sub" Enc_AddSubImm 0x51000000 [Pat_GprWsp; Pat_GprWsp; Pat_Imm] 0 0;
   row "sub" Enc_AddSubImm 0xD1000000 [Pat_GprXsp; Pat_GprXsp; Pat_Imm] 0 0;
   row "mul" Enc_RdRnRm 0x1B007C00 [Pat_GprW; Pat_GprW; Pat_GprW] 0 0;
   row "mul" Enc_RdRnRm 0x9B007C00 [Pat_GprX; Pat_GprX; Pat_GprX] 0 0;
   row "msub" Enc_RdRnRmRa 0x1B008000 [Pat_GprW; Pat_GprW; Pat_GprW; Pat_GprW] 0 0;
   row "msub" Enc_RdRnRmRa 0x9B008000 [Pat_GprX; Pat_GprX; Pat_GprX; Pat_GprX] 0 0;
   row "sdiv" Enc_RdRnRm 0x1AC00C00 [Pat_GprW; Pat_GprW; Pat_GprW] 0 0;
   row "sdiv" Enc_RdRnRm 0x9AC00C00 [Pat_GprX; Pat_GprX; Pat_GprX] 0 0;
   row "udiv" Enc_RdRnRm 0x1AC00800 [Pat_GprW; Pat_GprW; Pat_GprW] 0 0;
   row "udiv" Enc_RdRnRm 0x9AC00800 [Pat_GprX; Pat_GprX; Pat_GprX] 0 0;
   row "and" Enc_RdRnRm 0x0A000000 [Pat_GprW; Pat_GprW; Pat_GprW] 0 0;
   row "and" Enc_RdRnRm 0x8A000000 [Pat_GprX; Pat_GprX; Pat_GprX] 0 0;
   row "and" Enc_LogicalImm 0x12000000 [Pat_GprW; Pat_GprW; Pat_Imm] 0 0;
   row "orr" Enc_RdRnRm 0x2A000000 [Pat_GprW; Pat_GprW; Pat_GprW] 0 0;
   row "orr" Enc_RdRnRm 0xAA000000 [Pat_GprX; Pat_GprX; Pat_GprX] 0 0;
   row "eor" Enc_RdRnRm 0x4A000000 [Pat_GprW; Pat_GprW; Pat_GprW] 0 0;
   row "eor" Enc_RdRnRm 0xCA000000 [Pat_GprX; Pat_GprX; Pat_GprX] 0 0;
   row "lsl" Enc_RdRnRm 0x1AC02000 [Pat_GprW; Pat_GprW; Pat_GprW] 0 0;
   row "lsl" Enc_RdRnRm 0x9AC02000 [Pat_GprX; Pat_GprX; Pat_GprX] 0 0;
   row "lsr" Enc_RdRnRm 0x1AC02400 [Pat_GprW; Pat_GprW; Pat_GprW] 0 0;
   row "lsr" Enc_RdRnRm 0x9AC02400 [Pat_GprX; Pat_GprX; Pat_GprX] 0 0;
   row "asr" Enc_RdRnRm 0x1AC02800 [Pat_GprW; Pat_GprW; Pat_GprW] 0 0;
   row "asr" Enc_RdRnRm 0x9AC02800 [Pat_GprX; Pat_GprX; Pat_GprX] 0 0;
   row "neg" Enc_RdRm16 0x4B0003E0 [Pat_GprW; Pat_GprW] 0 0;
   row "neg" Enc_RdRm16 0xCB0003E0 [Pat_GprX; Pat_GprX] 0 0;
   row "mvn" Enc_RdRm16 0x2A2003E0 [Pat_GprW; Pat_GprW] 0 0;
   row "mvn" Enc_RdRm16 0xAA2003E0 [Pat_GprX; Pat_GprX] 0 0;
   row "fadd" Enc_RdRnRm 0x1E202800 [Pat_FprS; Pat_FprS; Pat_FprS] 0 0;
   row "fadd" Enc_RdRnRm 0x1E602800 [Pat_FprD; Pat_FprD; Pat_FprD] 0 0;
   row "fsub" Enc_RdRnRm 0x1E203800 [Pat_FprS; Pat_FprS; Pat_FprS] 0 0;
   row "fsub" Enc_RdRnRm 0x1E603800 [Pat_FprD; Pat_FprD; Pat_FprD] 0 0;
   row "fmul" Enc_RdRnRm 0x1E200800 [Pat_FprS; Pat_FprS; Pat_FprS] 0 0;
   row "fmul" Enc_RdRnRm 0x1E600800 [Pat_FprD; Pat_FprD; Pat_FprD] 0 0;
   row "fdiv" Enc_RdRnRm 0x1E201800 [Pat_FprS; Pat_FprS; Pat_FprS] 0 0;
   row "fdiv" Enc_RdRnRm 0x1E601800 [Pat_FprD; Pat_FprD; Pat_FprD] 0 0;
   row "fneg" Enc_RdRn 0x1E214000 [Pat_FprS; Pat_FprS] 0 0;
   row "fneg" Enc_RdRn 0x1E614000 [Pat_FprD; Pat_FprD] 0 0;
   row "cmp" Enc_CmpReg 0x6B00001F [Pat_GprW; Pat_GprW] 0 0;
   row "cmp" Enc_CmpReg 0xEB00001F [Pat_GprX; Pat_GprX] 0 0;
   row "cmp" Enc_CmpImm 0x7100001F [Pat_GprW; Pat_Imm] 0 0;
   row "cmp" Enc_CmpImm 0xF100001F [Pat_GprX; Pat_Imm] 0 0;
   row "fcmp" Enc_CmpReg 0x1E202000 [Pat_FprS; Pat_FprS] 0 0;
   row "fcmp" Enc_CmpReg 0x1E602000 [Pat_FprD; Pat_FprD] 0 0;
   row "cset" Enc_Cset 0x1A9F07E0 [Pat_GprW; Pat_Cond] 0 0;
   row "cset" Enc_Cset 0x9A9F07E0 [Pat_GprX; Pat_Cond] 0 0;
   row "csel" Enc_Csel 0x1A800000 [Pat_GprW; Pat_GprW; Pat_GprW; Pat_Cond] 0 0;
   row "csel" Enc_Csel 0x9A800000 [Pat_GprX; Pat_GprX; Pat_GprX; Pat_Cond] 0 0;
   row "fcsel" Enc_Csel 0x1E200C00 [Pat_FprS; Pat_FprS; Pat_FprS; Pat_Cond] 0 0;
   row "fcsel" Enc_Csel 0x1E600C00 [Pat_FprD; Pat_FprD; Pat_FprD; Pat_Cond] 0 0;
   row "sxtb" Enc_RdRn 0x13001C00 [Pat_GprW; Pat_GprW] 0 0;
   row "sxtb" Enc_RdRn 0x93401C00 [Pat_GprX; Pat_GprW] 0 0;
   row "sxth" Enc_RdRn 0x13003C00 [Pat_GprW; Pat_GprW] 0 0;
   row "sxth" Enc_RdRn 0x93403C00 [Pat_GprX; Pat_GprW] 0 0;
   row "sxtw" Enc_RdRn 0x93407C00 [Pat_GprX; Pat_GprW] 0 0;
   row "uxtb" Enc_RdRn 0x53001C00 [Pat_GprW; Pat_GprW] 0 0;
   row "uxth" Enc_RdRn 0x53003C00 [Pat_GprW; Pat_GprW] 0 0;
   row "fcvt" Enc_RdRn 0x1E624000 [Pat_FprS; Pat_FprD] 0 0;
   row "fcvt" Enc_RdRn 0x1E22C000 [Pat_FprD; Pat_FprS] 0 0;
   row "scvtf" Enc_RdRn 0x1E220000 [Pat_FprS; Pat_GprW] 0 0;
   row "scvtf" Enc_RdRn 0x9E220000 [Pat_FprS; Pat_GprX] 0 0;
   row "scvtf" Enc_RdRn 0x1E620000 [Pat_FprD; Pat_GprW] 0 0;
   row "scvtf" Enc_RdRn 0x9E620000 [Pat_FprD; Pat_GprX] 0 0;
   row "ucvtf" Enc_RdRn 0x1E230000 [Pat_FprS; Pat_GprW] 0 0;
   row "ucvtf" Enc_RdRn 0x9E230000 [Pat_FprS; Pat_GprX] 0 0;
   row "ucvtf" Enc_RdRn 0x1E630000 [Pat_FprD; Pat_GprW] 0 0;
   row "ucvtf" Enc_RdRn 0x9E630000 [Pat_FprD; Pat_GprX] 0 0;
   row "fcvtzs" Enc_RdRn 0x1E380000 [Pat_GprW; Pat_FprS] 0 0;
   row "fcvtzs" Enc_RdRn 0x1E780000 [Pat_GprW; Pat_FprD] 0 0;
   row "fcvtzs" Enc_RdRn 0x9E380000 [Pat_GprX; Pat_FprS] 0 0;
   row "fcvtzs" Enc_RdRn 0x9E780000 [Pat_GprX; Pat_FprD] 0 0;
   row "fcvtzu" Enc_RdRn 0x1E390000 [Pat_GprW; Pat_FprS] 0 0;
   row "fcvtzu" Enc_RdRn 0x1E790000 [Pat_GprW; Pat_FprD] 0 0;
   row "fcvtzu" Enc_RdRn 0x9E390000 [Pat_GprX; Pat_FprS] 0 0;
   row "fcvtzu" Enc_RdRn 0x9E790000 [Pat_GprX; Pat_FprD] 0 0;
   row "ldr" Enc_LdSt 0xF9400000 [Pat_GprX; Pat_MemBaseOff] 0 8;
   row "ldr" Enc_LdSt 0xB9400000 [Pat_GprW; Pat_MemBaseOff] 0 4;
   row "ldr" Enc_LdSt 0xBD400000 [Pat_FprS; Pat_MemBaseOff] 0 4;
   row "ldr" Enc_LdSt 0xFD400000 [Pat_FprD; Pat_MemBaseOff] 0 8;
   row "ldr" Enc_LdSt 0x3DC00000 [Pat_FprQ; Pat_MemBaseOff] 0 16;
   row "ldrh" Enc_LdSt 0x79400000 [Pat_GprW; Pat_MemBaseOff] 0 2;
   row "ldrb" Enc_LdSt 0x39400000 [Pat_GprW; Pat_MemBaseOff] 0 1;
   row "ldrsb" Enc_LdSt 0x39C00000 [Pat_GprW; Pat_MemBaseOff] 0 1;
   row "ldrsh" Enc_LdSt 0x79C00000 [Pat_GprW; Pat_MemBaseOff] 0 2;
   row "ldrsw" Enc_LdSt 0xB9800000 [Pat_GprX; Pat_MemBaseOff] 0 4;
   row "str" Enc_LdSt 0xF9000000 [Pat_GprX; Pat_MemBaseOff] 0 8;
   row "str" Enc_LdSt 0xB9000000 [Pat_GprW; Pat_MemBaseOff] 0 4;
   row "str" Enc_LdSt 0xBD000000 [Pat_FprS; Pat_MemBaseOff] 0 4;
   row "str" Enc_LdSt 0xFD000000 [Pat_FprD; Pat_MemBaseOff] 0 8;
   row "str" Enc_LdSt 0x3D800000 [Pat_FprQ; Pat_MemBaseOff] 0 16;
   row "strh" Enc_LdSt 0x79000000 [Pat_GprW; Pat_MemBaseOff] 0 2;
   row "strb" Enc_LdSt 0x39000000 [Pat_GprW; Pat_MemBaseOff] 0 1;
   row "stp" Enc_LdStPair 0xA9800000 [Pat_GprX; Pat_GprX; Pat_MemPre] 0 8;
   row "stp" Enc_LdStPair 0xA9000000 [Pat_GprX; Pat_GprX; Pat_MemBaseOff] 0 8;
   row "stp" Enc_LdStPair 0x6D000000 [Pat_FprD; Pat_FprD; Pat_MemBaseOff] 0 8;
   row "ldp" Enc_LdStPair 0xA8C00000 [Pat_GprX; Pat_GprX; Pat_MemPost] 0 8;
   row "ldp" Enc_LdStPair 0xA9400000 [Pat_GprX; Pat_GprX; Pat_MemBaseOff] 0 8;
   row "ldp" Enc_LdStPair 0x6D400000 [Pat_FprD; Pat_FprD; Pat_MemBaseOff] 0 8;
   row "adrp" Enc_Adr 0x90000000 [Pat_GprX; Pat_SymPage] 0 0;
   row "b" Enc_BranchImm26 0x14000000 [Pat_Target] 0 0;
   row "b" Enc_BranchCond19 0x54000000 [Pat_Cond; Pat_Target] 0 0;
   row "cbz" Enc_CompareBranch19 0x34000000 [Pat_GprW; Pat_Target] 0 0;
   row "cbz" Enc_CompareBranch19 0xB4000000 [Pat_GprX; Pat_Target] 0 0;
   row "cbnz" Enc_CompareBranch19 0x35000000 [Pat_GprW; Pat_Target] 0 0;
   row "cbnz" Enc_CompareBranch19 0xB5000000 [Pat_GprX; Pat_Target] 0 0;
   row "bl" Enc_BranchImm26 0x94000000 [Pat_SymCall] 0 0;
   row "blr" Enc_RnOnly 0xD63F0000 [Pat_GprX] 0 0;
   row "br" Enc_RnOnly 0xD61F0000 [Pat_GprX] 0 0;
   row "ret" Enc_Fixed 0xD65F03C0 [Pat_None] 0 0;
   row "brk" Enc_Brk 0xD4200000 [Pat_Imm] 0 0;
   row "rev" Enc_RdRn 0x5AC00800 [Pat_GprW; Pat_GprW] 0 0;
   row "rev" Enc_RdRn 0xDAC00C00 [Pat_GprX; Pat_GprX] 0 0;
   row "rev16" Enc_RdRn 0x5AC00400 [Pat_GprW; Pat_GprW] 0 0;
   row "clz" Enc_RdRn 0x5AC01000 [Pat_GprW; Pat_GprW] 0 0;
   row "clz" Enc_RdRn 0xDAC01000 [Pat_GprX; Pat_GprX] 0 0;
   row "rbit" Enc_RdRn 0x5AC00000 [Pat_GprW; Pat_GprW] 0 0;
   row "rbit" Enc_RdRn 0xDAC00000 [Pat_GprX; Pat_GprX] 0 0;
   row "cnt" Enc_RdRn 0x0E205800 [Pat_VecB8; Pat_VecB8] 0 0;
   row "addv" Enc_RdRn 0x0E31B800 [Pat_FprB; Pat_VecB8] 0 0;
   row "ldarb" Enc_LdapStl 0x08DFFC00 [Pat_GprW; Pat_MemBase] 0 0;
   row "ldarh" Enc_LdapStl 0x48DFFC00 [Pat_GprW; Pat_MemBase] 0 0;
   row "ldar" Enc_LdapStl 0x88DFFC00 [Pat_GprW; Pat_MemBase] 0 0;
   row "ldar" Enc_LdapStl 0xC8DFFC00 [Pat_GprX; Pat_MemBase] 0 0;
   row "stlrb" Enc_LdapStl 0x089FFC00 [Pat_GprW; Pat_MemBase] 0 0;
   row "stlrh" Enc_LdapStl 0x489FFC00 [Pat_GprW; Pat_MemBase] 0 0;
   row "stlr" Enc_LdapStl 0x889FFC00 [Pat_GprW; Pat_MemBase] 0 0;
   row "stlr" Enc_LdapStl 0xC89FFC00 [Pat_GprX; Pat_MemBase] 0 0;
   row "ldaddalb" Enc_LseRmw 0x38E00000 [Pat_GprW; Pat_GprW; Pat_MemBase] 0 0;
   row "ldaddalh" Enc_LseRmw 0x78E00000 [Pat_GprW; Pat_GprW; Pat_MemBase] 0 0;
   row "ldaddal" Enc_LseRmw 0xB8E00000 [Pat_GprW; Pat_GprW; Pat_MemBase] 0 0;
   row "ldaddal" Enc_LseRmw 0xF8E00000 [Pat_GprX; Pat_GprX; Pat_MemBase] 0 0;
   row "ldclralb" Enc_LseRmw 0x38E01000 [Pat_GprW; Pat_GprW; Pat_MemBase] 0 0;
   row "ldclralh" Enc_LseRmw 0x78E01000 [Pat_GprW; Pat_GprW; Pat_MemBase] 0 0;
   row "ldclral" Enc_LseRmw 0xB8E01000 [Pat_GprW; Pat_GprW; Pat_MemBase] 0 0;
   row "ldclral" Enc_LseRmw 0xF8E01000 [Pat_GprX; Pat_GprX; Pat_MemBase] 0 0;
   row "ldsetalb" Enc_LseRmw 0x38E03000 [Pat_GprW; Pat_GprW; Pat_MemBase] 0 0;
   row "ldsetalh" Enc_LseRmw 0x78E03000 [Pat_GprW; Pat_GprW; Pat_MemBase] 0 0;
   row "ldsetal" Enc_LseRmw 0xB8E03000 [Pat_GprW; Pat_GprW; Pat_MemBase] 0 0;
   row "ldsetal" Enc_LseRmw 0xF8E03000 [Pat_GprX; Pat_GprX; Pat_MemBase] 0 0;
   row "ldeoralb" Enc_LseRmw 0x38E02000 [Pat_GprW; Pat_GprW; Pat_MemBase] 0 0;
   row "ldeoralh" Enc_LseRmw 0x78E02000 [Pat_GprW; Pat_GprW; Pat_MemBase] 0 0;
   row "ldeoral" Enc_LseRmw 0xB8E02000 [Pat_GprW; Pat_GprW; Pat_MemBase] 0 0;
   row "ldeoral" Enc_LseRmw 0xF8E02000 [Pat_GprX; Pat_GprX; Pat_MemBase] 0 0;
   row "swpalb" Enc_LseRmw 0x38E08000 [Pat_GprW; Pat_GprW; Pat_MemBase] 0 0;
   row "swpalh" Enc_LseRmw 0x78E08000 [Pat_GprW; Pat_GprW; Pat_MemBase] 0 0;
   row "swpal" Enc_LseRmw 0xB8E08000 [Pat_GprW; Pat_GprW; Pat_MemBase] 0 0;
   row "swpal" Enc_LseRmw 0xF8E08000 [Pat_GprX; Pat_GprX; Pat_MemBase] 0 0;
   row "casalb" Enc_Cas 0x08E0FC00 [Pat_GprW; Pat_GprW; Pat_MemBase] 0 0;
   row "casalh" Enc_Cas 0x48E0FC00 [Pat_GprW; Pat_GprW; Pat_MemBase] 0 0;
   row "casal" Enc_Cas 0x88E0FC00 [Pat_GprW; Pat_GprW; Pat_MemBase] 0 0;
   row "casal" Enc_Cas 0xC8E0FC00 [Pat_GprX; Pat_GprX; Pat_MemBase] 0 0;
   row "dmb" Enc_Fixed 0xD5033BBF [Pat_BarrierOpt] 0 0].

Record IsaEncoded := mkEncoded {
  e_ok : bool; e_error : chars; e_word : Z; e_fixup : IsaFixup; e_sym : SymId; e_addend : Z; e_flavor : SymFlavor; e_access : Z }.
Definition not_encoded (message : chars) : IsaEncoded := mkEncoded false message 0 Fix_None no_sym 0 Plain 0.
Definition encoded_word (word : Z) : IsaEncoded := mkEncoded true [] word Fix_None no_sym 0 Plain 0.

(** ** Matching *)

(** The operands a row takes: its patterns up to the first empty one. *)
Fixpoint arity_go (pats : list OpndPat) : nat :=
  match pats with [] => 0 | p :: pats => if bool_decide (p = Pat_None) then 0 else S (arity_go pats) end.
Definition pattern_arity (r : A64IsaRow) : nat := arity_go (r_pats r).

Definition is_kind_of (k : OperandKind) (o : AsmOperand) : bool := bool_decide (o_kind o = k).
Definition match_reg (o : AsmOperand) (reg_class : ascii) (allow_sp : bool) : bool :=
  if negb (is_kind_of K_Reg o) || negb (ceqb (o_class o) reg_class) then false
  else if allow_sp then negb (o_is_zr o) else negb (o_is_sp o).
Definition match_fpr (o : AsmOperand) (reg_class : ascii) : bool := is_kind_of K_Reg o && ceqb (o_class o) reg_class.
Definition has_flavor (fs : list SymFlavor) (o : AsmOperand) : bool := bool_decide (o_flavor o ∈ fs).
Definition has_mode (ms : list MemMode) (o : AsmOperand) : bool := bool_decide (o_mode o ∈ ms).
Definition match_operand (p : OpndPat) (o : AsmOperand) : bool :=
  match p with
  | Pat_None => false
  | Pat_GprW => match_reg o "w" false
  | Pat_GprX => match_reg o "x" false
  | Pat_GprWsp => match_reg o "w" true
  | Pat_GprXsp => match_reg o "x" true
  | Pat_FprS => match_fpr o "s"
  | Pat_FprD => match_fpr o "d"
  | Pat_FprQ => match_fpr o "q"
  | Pat_FprB => match_fpr o "b"
  | Pat_VecB8 => is_kind_of K_Vec o && (o_lanes o =? 8)
  | Pat_VecB16 => is_kind_of K_Vec o && (o_lanes o =? 16)
  | Pat_Imm => is_kind_of K_Imm o && (o_shift_hw o =? 0)
  | Pat_MovImm16 => is_kind_of K_Imm o
  | Pat_SymPage => is_kind_of K_Sym o && has_flavor [Plain; Page; GotPage; TlvPage] o
  | Pat_SymPageOff => is_kind_of K_Sym o && has_flavor [PageOff; GotPageOff; TlvPageOff] o
  | Pat_SymCall | Pat_Target => is_kind_of K_Sym o && has_flavor [Plain] o
  | Pat_MemBase => is_kind_of K_Mem o && has_mode [BaseOnly] o
  | Pat_MemBaseOff => is_kind_of K_Mem o && has_mode [BaseOnly; Offset] o
  | Pat_MemPre => is_kind_of K_Mem o && has_mode [Pre] o
  | Pat_MemPost => is_kind_of K_Mem o && has_mode [Post] o
  | Pat_Cond => is_kind_of K_Cond o
  | Pat_BarrierOpt => is_kind_of K_Barrier o
  end.
Fixpoint match_operands (pats : list OpndPat) (ops : list AsmOperand) : bool :=
  match pats, ops with
  | _, [] => true
  | [], _ :: _ => false
  | p :: pats, o :: ops => match_operand p o && match_operands pats ops
  end.
Definition match_row (r : A64IsaRow) (ops : list AsmOperand) : bool :=
  if negb (Nat.eqb (pattern_arity r) (length ops)) then false
  else if negb (match_operands (r_pats r) ops) then false
  else if negb (Z.land (r_flags r) RF_NEEDS_SP =? 0) then existsb (fun o => is_kind_of K_Reg o && o_is_sp o) ops
  else true.

(** ** Bitmask immediates *)

(** The loop that halves the element while its halves agree. *)
Fixpoint element_size_go (fuel : nat) (value size : Z) : outcome Z :=
  if 2 <? size then
    match fuel with
    | O => Out_of_fuel
    | S fuel =>
        let half := size / 2 in
        let mask := u64 (Z.shiftl 1 half) - 1 in
        if Z.land value mask =? Z.land (Z.shiftr value half) mask then element_size_go fuel value half else Done size
    end
  else Done size.
Definition element_size (value : Z) : outcome Z := element_size_go 6 value 64.
(** The first [bits] bits that are set. *)
Fixpoint count_ones (bits : nat) (element : Z) : Z :=
  match bits with O => 0 | S bits => count_ones bits element + Z.land (Z.shiftr element (Z.of_nat bits)) 1 end.
Definition rotate_right (size rotation run : Z) : Z :=
  if rotation =? 0 then run
  else Z.land (Z.lor (Z.shiftr run rotation) (u64 (Z.shiftl run (size - rotation)))) (if size =? 64 then 2 ^ 64 - 1 else u64 (Z.shiftl 1 size) - 1).
Fixpoint find_rotation (fuel : nat) (rotation size run element : Z) : option Z :=
  match fuel with
  | O => None
  | S fuel => if rotate_right size rotation run =? element then Some rotation else find_rotation fuel (rotation + 1) size run element
  end.
(** The fields n, immr and imms of a logical immediate. *)
Definition a64_logical_imm (value : Z) (is_64 : bool) : outcome (option (Z * Z * Z)) :=
  if negb is_64 && negb (Z.shiftr value 32 =? 0) then Done None
  else
    let value := if is_64 then value else Z.lor value (u64 (Z.shiftl value 32)) in
    if (value =? 0) || (unot 64 value =? 0) then Done None
    else
      size ← element_size value;
      let element_mask := if size =? 64 then 2 ^ 64 - 1 else u64 (Z.shiftl 1 size) - 1 in
      let element := Z.land value element_mask in
      let ones := count_ones (Z.to_nat size) element in
      if (ones =? 0) || (ones =? size) then Done None
      else
        let run := if ones =? 64 then 2 ^ 64 - 1 else u64 (Z.shiftl 1 ones) - 1 in
        match find_rotation (Z.to_nat size) 0 size run element with
        | None => Done None
        | Some rotation =>
            Done (Some (if size =? 64 then (1, rotation, ones - 1)
                        else (0, rotation, Z.land (Z.lor (Z.land 0x3F (unot 32 (2 * size - 1))) (ones - 1)) 0x3F)))
        end.

(** ** Encoding *)

Section Encode.
Variable r : A64IsaRow.
Variable ops : list AsmOperand.
Abbreviation base := (r_base r).

Definition fail (message : chars) : outcome IsaEncoded := Done (not_encoded (r_mnemonic r ++ str ": " ++ message)).
Definition word_of (w : Z) : outcome IsaEncoded := Done (encoded_word w).
Definition opnd (i : nat) : outcome AsmOperand := match ops !! i with Some o => Done o | None => Undefined_behaviour end.
Definition reg (i : nat) : outcome Z := o ← opnd i; Done (o_reg o).
Definition with_sym (k : IsaFixup) (o : AsmOperand) (e : IsaEncoded) : IsaEncoded :=
  mkEncoded (e_ok e) (e_error e) (e_word e) k (o_sym o) (o_addend o) (o_flavor o) (e_access e).
Definition with_access (n : Z) (e : IsaEncoded) : IsaEncoded :=
  mkEncoded (e_ok e) (e_error e) (e_word e) (e_fixup e) (e_sym e) (e_addend e) (e_flavor e) n.
Definition lors (l : list Z) : Z := foldl Z.lor base l.
Definition is_64_row : bool := negb (Z.land base 0x80000000 =? 0).

(** The first sixteen-bit field that holds all of a value. *)
Fixpoint find_half (count : nat) (shift value : Z) : option Z :=
  match count with
  | O => None
  | S count =>
      if Z.land value (unot 64 (Z.shiftl 0xFFFF (16 * shift))) =? 0 then Some shift else find_half count (shift + 1) value
  end.
Definition move_word (opcode shift value rd : Z) : Z :=
  Z.lor (Z.lor (Z.lor opcode (Z.shiftl shift 21)) (u32 (Z.shiftl (u32 (Z.shiftr value (16 * shift))) 5))) rd.
Definition encode_mov_imm : outcome IsaEncoded :=
  o ← opnd 1;
  let is_64 := is_64_row in
  let value := u64 (o_imm o) in
  let value := if is_64 then value else Z.land value 0xFFFFFFFF in
  rd ← reg 0;
  let shifts := if is_64 then 4%nat else 2%nat in
  match find_half shifts 0 value with
  | Some shift => word_of (move_word (if is_64 then 0xD2800000 else 0x52800000) shift value rd)
  | None =>
      let inverted := if is_64 then unot 64 value else Z.land (unot 64 value) 0xFFFFFFFF in
      match find_half shifts 0 inverted with
      | Some shift => word_of (move_word (if is_64 then 0x92800000 else 0x12800000) shift inverted rd)
      | None =>
          fields ← a64_logical_imm value is_64;
          match fields with
          | Some (n, immr, imms) =>
              word_of (foldl Z.lor (if is_64 then 0xB2000000 else 0x32000000)
                [Z.shiftl n 22; Z.shiftl immr 16; Z.shiftl imms 10; Z.shiftl 31 5; rd])
          | None => fail (str "immediate " ++ to_string (o_imm o) ++ str " needs a multi-instruction move sequence")
          end
      end
  end.
Definition ldst_unscaled : Z := u32 (base - 0x01000000).
Definition encode_ldst : outcome IsaEncoded :=
  mem ← opnd 1;
  rt ← reg 0;
  let rn := o_base mem in
  if o_offset_is_sym mem then
    Done (with_access (r_aux r) (with_sym Fix_PageOff12 mem (encoded_word (lors [Z.shiftl rn 5; rt]))))
  else
    let offset := o_imm mem in
    let scale := r_aux r in
    if (0 <=? offset) && (Z.rem offset scale =? 0) && (Z.quot offset scale <=? 4095) then
      word_of (lors [Z.shiftl (u32 (Z.quot offset scale)) 10; Z.shiftl rn 5; rt])
    else if (-256 <=? offset) && (offset <=? 255) then
      word_of (foldl Z.lor ldst_unscaled [Z.shiftl (Z.land (u32 offset) 0x1FF) 12; Z.shiftl rn 5; rt])
    else fail (str "memory offset out of range: " ++ to_string offset).
Definition encode_pair : outcome IsaEncoded :=
  mem ← opnd 2;
  let offset := if o_offset_is_sym mem then -1 else o_imm mem in
  let scale := r_aux r in
  if o_offset_is_sym mem || negb (Z.rem offset scale =? 0) || (Z.quot offset scale <? -64) || (63 <? Z.quot offset scale) then
    fail (str "pair offset out of range")
  else
    rt ← reg 0;
    rt2 ← reg 1;
    word_of (lors [Z.shiftl (Z.land (u32 (Z.quot offset scale)) 0x7F) 15; Z.shiftl rt2 10; Z.shiftl (o_base mem) 5; rt]).
(** A field of an immediate in a range. *)
Definition with_immediate (i : nat) (least most : Z) (message : chars) (k : Z -> outcome IsaEncoded) : outcome IsaEncoded :=
  o ← opnd i;
  if (o_imm o <? least) || (most <? o_imm o) then fail (message ++ to_string (o_imm o)) else k (u32 (o_imm o)).
Definition out_of_range_message : chars := str "immediate out of range: ".

Definition encode_row : outcome IsaEncoded :=
  match r_enc r with
  | Enc_Fixed => word_of base
  | Enc_BranchImm26 => o ← opnd 0; Done (with_sym Fix_Branch26 o (encoded_word base))
  | Enc_RdRnRm => rm ← reg 2; rn ← reg 1; rd ← reg 0; word_of (lors [Z.shiftl rm 16; Z.shiftl rn 5; rd])
  | Enc_RdRn | Enc_MovSpAlias => rn ← reg 1; rd ← reg 0; word_of (lors [Z.shiftl rn 5; rd])
  | Enc_RdRm16 | Enc_MovRegAlias => rm ← reg 1; rd ← reg 0; word_of (lors [Z.shiftl rm 16; rd])
  | Enc_RnOnly => rn ← reg 0; word_of (lors [Z.shiftl rn 5])
  | Enc_RdRnRmRa =>
      rm ← reg 2; ra ← reg 3; rn ← reg 1; rd ← reg 0;
      word_of (lors [Z.shiftl rm 16; Z.shiftl ra 10; Z.shiftl rn 5; rd])
  | Enc_MovWide =>
      with_immediate 1 0 0xFFFF (str "move immediate out of range: ") (fun value =>
        o ← opnd 1; rd ← reg 0; word_of (lors [Z.shiftl (o_shift_hw o) 21; Z.shiftl value 5; rd]))
  | Enc_MovImmAlias => encode_mov_imm
  | Enc_AddSubImm =>
      with_immediate 2 0 4095 out_of_range_message (fun value =>
        rn ← reg 1; rd ← reg 0; word_of (lors [Z.shiftl value 10; Z.shiftl rn 5; rd]))
  | Enc_AddSymLo12 =>
      rn ← reg 1; rd ← reg 0; o ← opnd 2; Done (with_sym Fix_PageOff12 o (encoded_word (lors [Z.shiftl rn 5; rd])))
  | Enc_LogicalImm =>
      o ← opnd 2;
      fields ← a64_logical_imm (u64 (o_imm o)) is_64_row;
      match fields with
      | None => fail (str "immediate is not a bitmask immediate: " ++ to_string (o_imm o))
      | Some (n, immr, imms) =>
          rn ← reg 1; rd ← reg 0; word_of (lors [Z.shiftl n 22; Z.shiftl immr 16; Z.shiftl imms 10; Z.shiftl rn 5; rd])
      end
  | Enc_LdSt => encode_ldst
  | Enc_LdStPair => encode_pair
  | Enc_Adr => rd ← reg 0; o ← opnd 1; Done (with_sym Fix_Page21 o (encoded_word (lors [rd])))
  | Enc_BranchCond19 => c ← opnd 0; o ← opnd 1; Done (with_sym Fix_Branch19 o (encoded_word (lors [o_cond c])))
  | Enc_CompareBranch19 => rt ← reg 0; o ← opnd 1; Done (with_sym Fix_Branch19 o (encoded_word (lors [rt])))
  | Enc_Brk => with_immediate 0 0 0xFFFF out_of_range_message (fun value => word_of (lors [Z.shiftl value 5]))
  | Enc_CmpReg => rm ← reg 1; rn ← reg 0; word_of (lors [Z.shiftl rm 16; Z.shiftl rn 5])
  | Enc_CmpImm =>
      with_immediate 1 0 4095 out_of_range_message (fun value => rn ← reg 0; word_of (lors [Z.shiftl value 10; Z.shiftl rn 5]))
  | Enc_Cset => c ← opnd 1; rd ← reg 0; word_of (lors [Z.shiftl (Z.lxor (o_cond c) 1) 12; rd])
  | Enc_Csel =>
      rm ← reg 2; c ← opnd 3; rn ← reg 1; rd ← reg 0;
      word_of (lors [Z.shiftl rm 16; Z.shiftl (o_cond c) 12; Z.shiftl rn 5; rd])
  | Enc_LdapStl => mem ← opnd 1; rt ← reg 0; word_of (lors [Z.shiftl (o_base mem) 5; rt])
  | Enc_LseRmw | Enc_Cas =>
      rs ← reg 0; mem ← opnd 2; rt ← reg 1; word_of (lors [Z.shiftl rs 16; Z.shiftl (o_base mem) 5; rt])
  | Enc_VecMov16 => rn ← reg 1; rd ← reg 0; word_of (lors [Z.shiftl rn 16; Z.shiftl rn 5; rd])
  end.
End Encode.

(** ** The table *)

Definition mnemonic_index : list A64IsaRow := sorted_table r_mnemonic kRows.
Definition a64_known_mnemonic (mnemonic : chars) : outcome bool :=
  i ← table_lower_bound r_mnemonic mnemonic_index mnemonic;
  Done (match mnemonic_index !! i with Some r => bool_decide (r_mnemonic r = mnemonic) | None => false end).

(** The rows of a mnemonic are tried in order; the first that matches and encodes gives
    the word, and the last that matches gives the error. *)
Fixpoint try_rows (rows : list A64IsaRow) (ops : list AsmOperand) (failure : option IsaEncoded) : outcome (option IsaEncoded) :=
  match rows with
  | [] => Done failure
  | r :: rows =>
      if match_row r ops then
        e ← encode_row r ops;
        if e_ok e then Done (Some e) else try_rows rows ops (Some e)
      else try_rows rows ops failure
  end.
Definition a64_match_and_encode (mnemonic : chars) (ops : list AsmOperand) : outcome IsaEncoded :=
  rows ← named r_mnemonic mnemonic_index mnemonic;
  if bool_decide (rows = []) then Done (not_encoded (str "unknown mnemonic '" ++ mnemonic ++ str "'"))
  else
    result ← try_rows rows ops None;
    Done (match result with
          | Some e => e
          | None => not_encoded (str "no matching operand form for '" ++ mnemonic ++ str "'")
          end).
