(* ===== verification/A64Bitmask.v ===== *)
(** * Bitmask immediates of AArch64

    The architecture's own reading of the fields n, immr and imms (DecodeBitMasks of the
    Arm manual), and that [a64_logical_imm] finds fields for a value exactly when there
    are some, and then such fields as read back as the value. *)
From stdpp Require Import list.
From S2P Require Import Prelude Vectors Outcome A64Isa.
Open Scope Z_scope.

(** ** The architecture *)

(** The number of the highest bit that is set, of seven. *)
Definition highest_set_bit (x : Z) : Z := if x =? 0 then -1 else Z.log2 x.
(** An element of some bits, in all of 64 bits. *)
Definition replicated (size element : Z) : Z := element * ((2 ^ 64 - 1) / (2 ^ size - 1)).
Definition ror (size x rotation : Z) : Z :=
  Z.lor (Z.shiftr x rotation) (Z.land (Z.shiftl x (size - rotation)) (2 ^ size - 1)).
(** What the fields of an instruction mean, or nothing if they are reserved. *)
Definition decode_bit_masks (is_64 : bool) (n immr imms : Z) : option Z :=
  let len := highest_set_bit (Z.lor (Z.shiftl n 6) (Z.land (unot 6 imms) 63)) in
  if (len <? 1) || (negb is_64 && negb (n =? 0)) then None
  else
    let levels := 2 ^ len - 1 in
    if Z.land imms levels =? levels then None
    else
      let s := Z.land imms levels in
      let r := Z.land immr levels in
      let mask := replicated (2 ^ len) (ror (2 ^ len) (2 ^ (s + 1) - 1) r) in
      Some (if is_64 then mask else mask mod 2 ^ 32).

(** ** The tables of all fields

    There are few enough sizes, runs and rotations to look at them all. *)

Definition sizes : list Z := [2; 4; 8; 16; 32; 64].
Definition upto (n : Z) : list Z := seqZ 0 n.
Definition fields_for (size ones rotation : Z) : Z * Z * Z :=
  if size =? 64 then (1, rotation, ones - 1)
  else (0, rotation, Z.land (Z.lor (Z.land 0x3F (unot 32 (2 * size - 1))) (ones - 1)) 0x3F).
Definition field_ok (size ones rotation : Z) : bool :=
  let '(n, immr, imms) := fields_for size ones rotation in
  let mask := replicated size (rotate_right size rotation (2 ^ ones - 1)) in
  (0 <=? n) && (n <=? 1) && (0 <=? immr) && (immr <? 64) && (0 <=? imms) && (imms <? 64) &&
  bool_decide (decode_bit_masks true n immr imms = Some mask) &&
  ((size =? 64) || (n =? 0) && bool_decide (decode_bit_masks false n immr imms = Some (mask mod 2 ^ 32))).
Lemma fields_ok :
  forallb (fun size => forallb (fun ones => forallb (fun rotation => field_ok size (ones + 1) rotation) (upto size)) (upto (size - 1))) sizes = true.
Proof. vm_compute. reflexivity. Qed.
Lemma field_ok_all size ones rotation : In size sizes -> 0 < ones < size -> 0 <= rotation < size -> field_ok size ones rotation = true.
Proof.
  intros Hs Ho Hr. pose proof fields_ok as H. rewrite forallb_forall in H. specialize (H _ Hs).
  rewrite forallb_forall in H. assert (Ho' : In (ones - 1) (upto (size - 1))) by (apply list_elem_of_In, elem_of_seqZ; lia).
  specialize (H _ Ho'). rewrite forallb_forall in H.
  assert (Hr' : In rotation (upto size)) by (apply list_elem_of_In, elem_of_seqZ; lia).
  specialize (H _ Hr'). by replace (ones - 1 + 1) with ones in H by lia.
Qed.

(** What the code finds out about a mask. *)
Definition mask_ok (size ones rotation : Z) : bool :=
  let element := rotate_right size rotation (2 ^ ones - 1) in
  let mask := replicated size element in
  negb (mask =? 0) && negb (unot 64 mask =? 0) && match element_size mask with Done n => n =? size | _ => false end &&
  (mask mod 2 ^ size =? element) && (count_ones (Z.to_nat size) element =? ones) &&
  ((size =? 64) || (Z.lor (mask mod 2 ^ 32) (u64 (Z.shiftl (mask mod 2 ^ 32) 32)) =? mask)).
Lemma masks_ok :
  forallb (fun size => forallb (fun ones => forallb (fun rotation => mask_ok size (ones + 1) rotation) (upto size)) (upto (size - 1))) sizes = true.
Proof. vm_compute. reflexivity. Qed.

(** Fields that mean something mean a run of ones, rotated, in an element of one of the
    sizes. *)
Definition means_run (is_64 : bool) (n immr imms : Z) : bool :=
  match decode_bit_masks is_64 n immr imms with
  | None => true
  | Some v =>
      let size := 2 ^ highest_set_bit (Z.lor (Z.shiftl n 6) (Z.land (unot 6 imms) 63)) in
      let ones := Z.land imms (size - 1) + 1 in
      let rotation := Z.land immr (size - 1) in
      let mask := replicated size (rotate_right size rotation (2 ^ ones - 1)) in
      bool_decide (In size sizes) && (1 <=? ones) && (ones <? size) && (0 <=? rotation) && (rotation <? size) &&
      (v =? if is_64 then mask else mask mod 2 ^ 32) && (is_64 || (size <? 64))
  end.
Lemma all_runs : forallb (fun is_64 => forallb (fun n => forallb (fun immr => forallb (fun imms => means_run is_64 n immr imms)
  (upto 64)) (upto 64)) (upto 2)) [true; false] = true.
Proof. vm_compute. reflexivity. Qed.
Lemma run_of_fields is_64 n immr imms v : 0 <= n <= 1 -> 0 <= immr < 64 -> 0 <= imms < 64 -> decode_bit_masks is_64 n immr imms = Some v ->
  exists size ones rotation, In size sizes /\ 0 < ones < size /\ 0 <= rotation < size /\ (is_64 = false -> size < 64) /\
    let mask := replicated size (rotate_right size rotation (2 ^ ones - 1)) in v = if is_64 then mask else mask mod 2 ^ 32.
Proof.
  intros Hn Hr Hs Hd. pose proof all_runs as H. rewrite forallb_forall in H.
  assert (Hi : forall m x, 0 <= x < m -> In x (upto m)) by (intros m x Hx; apply list_elem_of_In, elem_of_seqZ; lia).
  specialize (H is_64 ltac:(destruct is_64; cbn; tauto)). rewrite forallb_forall in H. specialize (H n (Hi 2 n ltac:(lia))).
  rewrite forallb_forall in H. specialize (H immr (Hi 64 immr Hr)). rewrite forallb_forall in H. specialize (H imms (Hi 64 imms Hs)).
  unfold means_run in H. rewrite Hd in H. set (size := 2 ^ highest_set_bit _) in H. apply andb_true_iff in H as [H H7].
  apply andb_true_iff in H as [H H6]. apply andb_true_iff in H as [H H5]. apply andb_true_iff in H as [H H4].
  apply andb_true_iff in H as [H H3]. apply andb_true_iff in H as [H1%bool_decide_eq_true H2]. ztests.
  exists size, (Z.land imms (size - 1) + 1), (Z.land immr (size - 1)). split; [done|]. split; [lia|]. split; [lia|]. split; [|done].
  intros ->. cbn in H7. lia.
Qed.
Lemma mask_ok_all size ones rotation : In size sizes -> 0 < ones < size -> 0 <= rotation < size -> mask_ok size ones rotation = true.
Proof.
  intros Hs Ho Hr. pose proof masks_ok as H. rewrite forallb_forall in H. specialize (H _ Hs).
  assert (Hi : forall m x, 0 <= x < m -> In x (upto m)) by (intros m x Hx; apply list_elem_of_In, elem_of_seqZ; lia).
  rewrite forallb_forall in H. specialize (H _ (Hi (size - 1) (ones - 1) ltac:(lia))). rewrite forallb_forall in H.
  specialize (H _ (Hi size rotation Hr)). by replace (ones - 1 + 1) with ones in H by lia.
Qed.

(** ** The search *)

Lemma halves size half k e : size = 2 * half -> 0 < half -> 0 <= e < 2 ^ size ->
  (e + 2 ^ size * (k * e)) mod 2 ^ half = e mod 2 ^ half /\ (e + 2 ^ size * (k * e)) / 2 ^ half mod 2 ^ half = e / 2 ^ half.
Proof.
  intros -> Hh He. assert (E : 2 ^ (2 * half) = 2 ^ half * 2 ^ half) by (rewrite <- Z.pow_add_r by lia; f_equal; lia). rewrite E in *.
  pose proof (pow2_pos half ltac:(lia)) as Hp. split.
  - replace (e + 2 ^ half * 2 ^ half * (k * e)) with (e + (2 ^ half * (k * e)) * 2 ^ half) by ring. apply Z_mod_plus_full.
  - replace (e + 2 ^ half * 2 ^ half * (k * e)) with (e + (2 ^ half * (k * e)) * 2 ^ half) by ring. rewrite Z.div_add by lia.
    replace (e / 2 ^ half + 2 ^ half * (k * e)) with (e / 2 ^ half + (k * e) * 2 ^ half) by ring. rewrite Z_mod_plus_full.
    apply Z.mod_small. split; [by apply Z.div_pos; lia|]. apply Z.div_lt_upper_bound; lia.
Qed.
(** One turn of the loop. *)
Lemma half_turn size half e : In (size, half) [(64, 32); (32, 16); (16, 8); (8, 4); (4, 2)] -> 0 <= e < 2 ^ size ->
  let v := replicated size e in
  (Z.land v (u64 (Z.shiftl 1 half) - 1) =? Z.land (Z.shiftr v half) (u64 (Z.shiftl 1 half) - 1)) = (e mod 2 ^ half =? e / 2 ^ half) /\
  (e mod 2 ^ half = e / 2 ^ half -> v = replicated half (e mod 2 ^ half) /\ 0 <= e mod 2 ^ half < 2 ^ half).
Proof.
  intros Hin He v. assert (Hs : size = 2 * half /\ 0 < half <= 32) by (cbn in Hin; intuition congruence || (intuition simplify_eq; lia)).
  destruct Hs as [Hs Hh]. assert (Hm : u64 (Z.shiftl 1 half) - 1 = 2 ^ half - 1).
  { rewrite Z.shiftl_1_l, uwrap_small; [done|]. split; [lia|]. apply pow2_lt. lia. }
  rewrite Hm, !land_pow2_minus_1, shiftr_div by lia.
  assert (Hv : exists k, v = e + 2 ^ size * (k * e)).
  { unfold v, replicated. exists (((2 ^ 64 - 1) / (2 ^ size - 1) - 1) / 2 ^ size).
    cbn in Hin; intuition simplify_eq;
      match goal with |- ?e * ?c = ?e + ?s * (?k * ?e) =>
        let c' := eval vm_compute in c in let k' := eval vm_compute in k in let s' := eval vm_compute in s in
        change (e * c' = e + s' * (k' * e)) end; ring. }
  destruct Hv as [k Hv]. destruct (halves size half k e Hs ltac:(lia) He) as [E1 E2]. rewrite Hv, E1, E2. split; [done|].
  intros Heq. split; [|apply Z.mod_pos_bound; by apply pow2_pos; lia]. rewrite <- Hv. unfold v, replicated.
  assert (Hd : e = 2 ^ half * (e mod 2 ^ half) + e mod 2 ^ half) by (rewrite Heq at 1; apply Z.div_mod, pow2_nz; lia).
  rewrite Hd at 1. generalize (e mod 2 ^ half). intros lo.
  cbn in Hin; intuition simplify_eq;
    match goal with |- (?h * ?e + ?e) * ?c = ?e * ?d =>
      let h' := eval vm_compute in h in let c' := eval vm_compute in c in let d' := eval vm_compute in d in
      change ((h' * e + e) * c' = e * d') end; ring.
Qed.
Definition power (k : nat) : Z := 2 ^ Z.of_nat k.
Lemma element_size_go_run v : forall k fuel e, (1 <= k <= 6)%nat -> (k <= fuel)%nat -> 0 <= e < 2 ^ power k -> v = replicated (power k) e ->
  exists size e', element_size_go fuel v (power k) = Done size /\ In size sizes /\ 0 <= e' < 2 ^ size /\ v = replicated size e' /\
    (size = power k -> (2 <= k)%nat -> e mod 2 ^ (power k / 2) <> e / 2 ^ (power k / 2)).
Proof.
  induction k as [|k IH]; intros fuel e Hk Hf He Hv; [lia|].
  assert (Hin : In (power (S k)) sizes) by (do 6 (destruct k as [|k]; [cbn; tauto|]); lia).
  destruct k as [|k]; [exists 2, e; destruct fuel; (split; [done|]; split; [done|]; split; [done|]; split; [done|]; lia)|].
  assert (Hp : In (power (S (S k)), power (S k)) [(64, 32); (32, 16); (16, 8); (8, 4); (4, 2)]) by (do 5 (destruct k as [|k]; [cbn; tauto|]); lia).
  assert (Hh : power (S (S k)) / 2 = power (S k)) by (do 5 (destruct k as [|k]; [done|]); lia).
  assert (H2 : (2 <? power (S (S k))) = true) by (do 5 (destruct k as [|k]; [done|]); lia).
  destruct fuel as [|fuel]; [lia|]. cbn [element_size_go]. rewrite H2, Hh. destruct (half_turn _ _ e Hp He) as [E1 E2].
  rewrite <- Hv in E1, E2. cbn zeta. rewrite E1. destruct (Z.eqb_spec (e mod 2 ^ power (S k)) (e / 2 ^ power (S k))) as [Heq|Hne].
  - destruct (E2 Heq) as [E3 E4]. destruct (IH fuel (e mod 2 ^ power (S k))) as (size & e' & H3 & H4 & H5 & H6 & H7); [lia|lia|done|done|].
    exists size, e'. split; [done|]. split; [done|]. split; [done|]. split; [done|]. intros -> _. exfalso.
    clear -H3 Hk. assert (Hle : forall fuel v size s, element_size_go fuel v size = Done s -> 0 <= size -> s <= size).
    { clear. induction fuel as [|fuel IH]; intros v size s; cbn; destruct (2 <? size) eqn:E; [done|intros [= ->]; lia| |intros [= ->]; lia].
      destruct (_ =? _); [|intros [= ->]; lia]. intros H H0. apply IH in H; [|by apply Z.div_pos]. ztests. zdiv. }
    apply Hle in H3; [|unfold power; lia]. do 5 (destruct k as [|k]; [by cbn in H3|]). lia.
  - exists (power (S (S k))), e. split; [done|]. split; [done|]. split; [done|]. split; [done|]. done.
Qed.
Lemma element_size_run v : word 64 v -> exists size e, element_size v = Done size /\ In size sizes /\ 0 <= e < 2 ^ size /\
  v = replicated size e /\ (size = 64 -> v mod 2 ^ 32 <> v / 2 ^ 32).
Proof.
  intros Hv. destruct (element_size_go_run v 6 6 v) as (size & e & H1 & H2 & H3 & H4 & H5); [lia|lia|done| |].
  { unfold replicated. change ((2 ^ 64 - 1) / (2 ^ power 6 - 1)) with 1. lia. }
  exists size, e. split; [done|]. split; [done|]. split; [done|]. split; [done|]. intros ->. by apply H5; [done|lia].
Qed.

Lemma count_ones_range n x : 0 <= count_ones n x <= Z.of_nat n.
Proof.
  induction n as [|n IH]; [cbn; lia|]. cbn [count_ones]. change 1 with (2 ^ 1 - 1). rewrite land_pow2_minus_1 by lia.
  pose proof (Z.mod_pos_bound (Z.shiftr x (Z.of_nat n)) (2 ^ 1) ltac:(lia)). lia.
Qed.
Lemma find_rotation_some size run e n : forall from, match find_rotation n from size run e with
  | Some rotation => from <= rotation < from + Z.of_nat n /\ rotate_right size rotation run = e
  | None => forall rotation, from <= rotation < from + Z.of_nat n -> rotate_right size rotation run <> e
  end.
Proof.
  induction n as [|n IH]; intros from; cbn [find_rotation]; [lia|]. destruct (Z.eqb_spec (rotate_right size from run) e) as [E|E]; [split; [lia|done]|].
  specialize (IH (from + 1)). destruct (find_rotation _ _ _ _ _) as [rotation|].
  - destruct IH. split; [lia|done].
  - intros rotation H. destruct (decide (rotation = from)) as [->|]; [done|]. apply IH. lia.
Qed.

(** ** The search is exact *)

Definition element_mask (size : Z) : Z := if size =? 64 then 2 ^ 64 - 1 else u64 (Z.shiftl 1 size) - 1.
Lemma element_mask_eq size : 0 < size <= 64 -> element_mask size = 2 ^ size - 1.
Proof.
  intros H. unfold element_mask. destruct (Z.eqb_spec size 64) as [->|]; [done|]. rewrite Z.shiftl_1_l, uwrap_small; [done|].
  split; [lia|]. apply pow2_lt. lia.
Qed.
Lemma sizes_range size : In size sizes -> 2 <= size <= 64.
Proof. cbn. intuition lia. Qed.
Lemma replicated_low size e : In size sizes -> 0 <= e < 2 ^ size -> replicated size e mod 2 ^ size = e.
Proof.
  intros Hs He. assert (exists k, replicated size e = e + (k * e) * 2 ^ size) as [k ->].
  { exists (((2 ^ 64 - 1) / (2 ^ size - 1) - 1) / 2 ^ size). unfold replicated. cbn in Hs.
    intuition subst; match goal with |- ?e * ?c = ?e + (?k * ?e) * ?s =>
        let c' := eval vm_compute in c in let k' := eval vm_compute in k in let s' := eval vm_compute in s in
        change (e * c' = e + (k' * e) * s') end; ring. }
  rewrite Z_mod_plus_full. by apply Z.mod_small.
Qed.
(** What the code does for a value of 64 bits. *)
Definition search (value : Z) : outcome (option (Z * Z * Z)) :=
  if (value =? 0) || (unot 64 value =? 0) then Done None
  else
    size ← element_size value;
    let element := Z.land value (element_mask size) in
    let ones := count_ones (Z.to_nat size) element in
    if (ones =? 0) || (ones =? size) then Done None
    else
      match find_rotation (Z.to_nat size) 0 size (element_mask ones) element with
      | None => Done None
      | Some rotation => Done (Some (fields_for size ones rotation))
      end.
Lemma logical_imm_search value is_64 : a64_logical_imm value is_64 =
  if negb is_64 && negb (Z.shiftr value 32 =? 0) then Done None
  else search (if is_64 then value else Z.lor value (u64 (Z.shiftl value 32))).
Proof. reflexivity. Qed.
Lemma run_mask ones : 0 < ones <= 64 -> element_mask ones = 2 ^ ones - 1.
Proof. apply element_mask_eq. Qed.

Lemma search_exact value : word 64 value -> exists r, search value = Done r /\
  match r with
  | Some (n, immr, imms) => exists size ones rotation, In size sizes /\ 0 < ones < size /\ 0 <= rotation < size /\
      (n, immr, imms) = fields_for size ones rotation /\ value = replicated size (rotate_right size rotation (2 ^ ones - 1)) /\
      (size = 64 -> value mod 2 ^ 32 <> value / 2 ^ 32)
  | None => forall size ones rotation, In size sizes -> 0 < ones < size -> 0 <= rotation < size ->
      value <> replicated size (rotate_right size rotation (2 ^ ones - 1))
  end.
Proof.
  intros Hv. unfold search. destruct ((value =? 0) || (unot 64 value =? 0)) eqn:E0.
  { exists None. split; [done|]. intros size ones rotation Hs Ho Hr ->. pose proof (mask_ok_all _ _ _ Hs Ho Hr) as H. unfold mask_ok in H.
    rewrite !andb_true_iff in H. destruct H as [[[[[H1 H2] _] _] _] _]. apply negb_true_iff in H1, H2. by rewrite H1, H2 in E0. }
  destruct (element_size_run value Hv) as (size & e & Es & Hs & He & Hval & Hhalf). rewrite Es. cbn [mbind outcome_bind].
  pose proof (sizes_range _ Hs) as Hr. rewrite element_mask_eq, land_pow2_minus_1 by lia.
  assert (Ee : value mod 2 ^ size = e) by (rewrite Hval; by apply replicated_low). rewrite Ee.
  set (ones := count_ones _ e). pose proof (count_ones_range (Z.to_nat size) e) as Ho. fold ones in Ho.
  assert (Hnone : forall s o r, In s sizes -> 0 < o < s -> 0 <= r < s -> value = replicated s (rotate_right s r (2 ^ o - 1)) ->
    s = size /\ o = ones /\ rotate_right s r (2 ^ o - 1) = e).
  { intros s o r H1 H2 H3 H4. pose proof (mask_ok_all _ _ _ H1 H2 H3) as H. unfold mask_ok in H. rewrite <- H4, Es in H.
    rewrite !andb_true_iff in H. destruct H as [[[[[_ _] H5] H6] H7] _]. apply Z.eqb_eq in H5. subst s. rewrite Ee in H6. ztests.
    split; [done|]. split; [|done]. unfold ones. rewrite H6. done. }
  destruct ((ones =? 0) || (ones =? size)) eqn:E1.
  { exists None. split; [done|]. intros s o r H1 H2 H3 H4. destruct (Hnone s o r H1 H2 H3 H4) as (-> & -> & _).
    apply orb_true_iff in E1. destruct E1; ztests; lia. }
  apply orb_false_iff in E1 as [E1 E2]. ztests. rewrite run_mask by lia.
  pose proof (find_rotation_some size (2 ^ ones - 1) e (Z.to_nat size) 0) as Hf. destruct (find_rotation _ _ _ _ _) as [rotation|].
  - destruct Hf as [Hrot Hrun]. eexists. split; [done|]. destruct (fields_for size ones rotation) as [[n immr] imms] eqn:Ef.
    exists size, ones, rotation. split; [done|]. split; [lia|]. split; [lia|]. split; [done|]. split; [by rewrite Hrun|done].
  - exists None. split; [done|]. intros s o r H1 H2 H3 H4. destruct (Hnone s o r H1 H2 H3 H4) as (-> & -> & H5).
    apply (Hf r); [lia|done].
Qed.

Lemma doubled value : word 32 value -> Z.lor value (u64 (Z.shiftl value 32)) = value * (2 ^ 32 + 1).
Proof.
  intros [H0 H1]. rewrite shiftl_mul by lia. rewrite uwrap_small by (split; [lia|]; change (2 ^ 64) with (2 ^ 32 * 2 ^ 32); nia).
  rewrite lor_fields by (lia || done). ring.
Qed.
(** The fields of a run read back as its mask. *)
Lemma fields_read_back size ones rotation n immr imms : In size sizes -> 0 < ones < size -> 0 <= rotation < size ->
  (n, immr, imms) = fields_for size ones rotation ->
  let mask := replicated size (rotate_right size rotation (2 ^ ones - 1)) in
  0 <= n <= 1 /\ 0 <= immr < 64 /\ 0 <= imms < 64 /\ decode_bit_masks true n immr imms = Some mask /\
  (size <> 64 -> n = 0 /\ decode_bit_masks false n immr imms = Some (mask mod 2 ^ 32)).
Proof.
  intros Hs Ho Hr Hf. pose proof (field_ok_all _ _ _ Hs Ho Hr) as H. unfold field_ok in H. rewrite <- Hf in H.
  rewrite !andb_true_iff in H. destruct H as [[[[[[[H1 H2] H3] H4] H5] H6] H7%bool_decide_eq_true] H8]. ztests.
  split; [lia|]. split; [lia|]. split; [lia|]. split; [done|]. intros Hne. apply orb_true_iff in H8 as [H8|[H8 H9%bool_decide_eq_true]%andb_true_iff]; ztests; [lia|done].
Qed.

(** The search against the architecture's reading, at both widths. *)
Lemma logical_imm_fields is_64 value : word 64 value -> exists r, a64_logical_imm value is_64 = Done r /\
  match r with
  | Some (n, immr, imms) => 0 <= n <= (if is_64 then 1 else 0) /\ 0 <= immr < 64 /\ 0 <= imms < 64 /\
      decode_bit_masks is_64 n immr imms = Some value
  | None => forall n immr imms, 0 <= n <= 1 -> 0 <= immr < 64 -> 0 <= imms < 64 -> decode_bit_masks is_64 n immr imms <> Some value
  end.
Proof.
  intros Hv. rewrite logical_imm_search. destruct is_64; cbn [negb andb].
  - destruct (search_exact value Hv) as (r & -> & H). exists r. split; [done|]. destruct r as [[[n immr] imms]|].
    + destruct H as (size & ones & rotation & Hs & Ho & Hr & Hf & -> & _).
      destruct (fields_read_back _ _ _ _ _ _ Hs Ho Hr Hf) as (H1 & H2 & H3 & H4 & _). done.
    + intros n immr imms Hn Hr Hs Hd. destruct (run_of_fields _ _ _ _ _ Hn Hr Hs Hd) as (size & ones & rotation & K1 & K2 & K3 & _ & K4).
      by apply (H size ones rotation).
  - rewrite shiftr_div by lia. destruct (Z.eqb_spec (value / 2 ^ 32) 0) as [Hsmall|Hbig]; cbn [negb].
    + assert (Hw : word 32 value) by (split; [apply Hv|]; apply Z.div_small_iff in Hsmall; lia).
      rewrite doubled by done. assert (Hfull : word 64 (value * (2 ^ 32 + 1))) by (destruct Hw; split; nia).
      assert (Hlow : value * (2 ^ 32 + 1) mod 2 ^ 32 = value).
      { replace (value * (2 ^ 32 + 1)) with (value + value * 2 ^ 32) by ring. rewrite Z_mod_plus_full. by apply Z.mod_small. }
      assert (Hhigh : value * (2 ^ 32 + 1) / 2 ^ 32 = value).
      { replace (value * (2 ^ 32 + 1)) with (value + value * 2 ^ 32) by ring. rewrite Z.div_add by lia. rewrite Z.div_small by done. lia. }
      destruct (search_exact _ Hfull) as (r & -> & H). exists r. split; [done|]. destruct r as [[[n immr] imms]|].
      * destruct H as (size & ones & rotation & Hs & Ho & Hr & Hf & Hm & Hne).
        destruct (fields_read_back _ _ _ _ _ _ Hs Ho Hr Hf) as (H1 & H2 & H3 & _ & H5).
        destruct H5 as [-> H5]; [intros ->; by destruct (Hne eq_refl); rewrite Hlow, Hhigh|]. rewrite <- Hm, Hlow in H5. split; [lia|done].
      * intros n immr imms Hn Hr Hs Hd. destruct (run_of_fields _ _ _ _ _ Hn Hr Hs Hd) as (size & ones & rotation & K1 & K2 & K3 & K4 & K5).
        specialize (K4 eq_refl). apply (H size ones rotation K1 K2 K3). pose proof (mask_ok_all _ _ _ K1 K2 K3) as Hm. unfold mask_ok in Hm.
        rewrite !andb_true_iff in Hm. destruct Hm as [_ Hm]. cbn zeta in K5. rewrite <- K5, doubled in Hm by done.
        apply orb_true_iff in Hm as [Hm|Hm]; ztests; [lia|done].
    + exists None. split; [done|]. intros n immr imms Hn Hr Hs Hd.
      destruct (run_of_fields _ _ _ _ _ Hn Hr Hs Hd) as (size & ones & rotation & _ & _ & _ & _ & K5). cbn zeta in K5. subst value.
      apply Hbig. apply Z.div_small, Z.mod_pos_bound. lia.
Qed.
(** Claim C17: a value is a bitmask immediate of an AArch64 instruction exactly when the
    assembler finds fields for it: the fields found are in range and the architecture
    reads them back as the value, and when none are found no fields mean the value, at
    both widths of an instruction. *)
Theorem a64_logical_imm_exact is_64 value : word 64 value -> exists r, a64_logical_imm value is_64 = Done r /\
  match r with
  | Some (n, immr, imms) => 0 <= n <= (if is_64 then 1 else 0) /\ 0 <= immr < 64 /\ 0 <= imms < 64 /\
      decode_bit_masks is_64 n immr imms = Some value
  | None => forall n immr imms, 0 <= n <= 1 -> 0 <= immr < 64 -> 0 <= imms < 64 -> decode_bit_masks is_64 n immr imms <> Some value
  end.
Proof. exact (logical_imm_fields is_64 value). Qed.
Lemma a64_logical_imm_exact_witness : word 64 0xF0F0F0F0F0F0F0F0 /\ exists r, a64_logical_imm 0xF0F0F0F0F0F0F0F0 true = Done r /\
  match r with
  | Some (n, immr, imms) => 0 <= n <= 1 /\ 0 <= immr < 64 /\ 0 <= imms < 64 /\ decode_bit_masks true n immr imms = Some 0xF0F0F0F0F0F0F0F0
  | None => forall n immr imms, 0 <= n <= 1 -> 0 <= immr < 64 -> 0 <= imms < 64 -> decode_bit_masks true n immr imms <> Some 0xF0F0F0F0F0F0F0F0
  end.
Proof. assert (H : word 64 0xF0F0F0F0F0F0F0F0) by done. split; [exact H|]. apply (a64_logical_imm_exact true 0xF0F0F0F0F0F0F0F0 H). Defined.
Example bitmask_sample : a64_logical_imm 0xF0F0F0F0F0F0F0F0 true = Done (Some (0, 4, 0x33)).
Proof. vm_compute. reflexivity. Qed.
