(* ===== verification/A64IsaProps.v ===== *)
(** * AArch64 words read back

    The architecture's reading of an encoded word: where each class of instructions has
    its operand fields. A row that matches and encodes gives a word of which every field
    reads back as its operand, and whose other bits are the row's. *)
From stdpp Require Import list sets strings.
From S2P Require Import Prelude Vectors Outcome AsmExpr Mir Assembler SortedTable A64Isa A64Bitmask.
Open Scope Z_scope.

(** ** Fields of a word *)

Definition field (word lo n : Z) : Z := Z.land (Z.shiftr word lo) (2 ^ n - 1).
Definition signed_field (word lo n : Z) : Z := swrap n (field word lo n).
Definition Fields : Type := list (Z * Z).
Definition in_fields (fs : Fields) (i : Z) : bool := existsb (fun f => (f.1 <=? i) && (i <? f.1 + f.2)) fs.
(** The bits of a word that are in no field. *)
Definition cleared (fs : Fields) (word : Z) : Z := foldr (fun f w => Z.ldiff w (Z.shiftl (Z.ones f.2) f.1)) word fs.

Lemma field_testbit w lo n i : 0 <= lo -> 0 <= n -> 0 <= i -> Z.testbit (field w lo n) i = (i <? n) && Z.testbit w (i + lo).
Proof.
  intros Hlo Hn Hi. unfold field. rewrite land_pow2_minus_1 by done. rewrite Z.testbit_mod_pow2 by done. by rewrite Z.shiftr_spec by done.
Qed.
Lemma field_lor a b lo n : field (Z.lor a b) lo n = Z.lor (field a lo n) (field b lo n).
Proof. unfold field. by rewrite Z.shiftr_lor, Z.land_lor_distr_l. Qed.
Lemma field_same v lo n : 0 <= lo -> word n v -> field (Z.shiftl v lo) lo n = v.
Proof.
  intros Hlo Hv. destruct (Z.lt_ge_cases n 0) as [Hn|Hn]; [destruct Hv; rewrite Z.pow_neg_r in * by done; lia|].
  unfold field. rewrite Z.shiftr_shiftl_l, Z.sub_diag, Z.shiftl_0_r, land_pow2_minus_1 by done. by apply Z.mod_small.
Qed.
Lemma field_other v lo' lo n m : 0 <= lo -> 0 <= lo' -> 0 <= n -> 0 <= m -> word m v -> lo + n <= lo' \/ lo' + m <= lo ->
  field (Z.shiftl v lo') lo n = 0.
Proof.
  intros Hlo Hlo' Hn Hm Hv Hd. apply Z.bits_inj'. intros i Hi. rewrite field_testbit, Z.bits_0 by done.
  destruct (Z.ltb_spec i n); [|done]. cbn. rewrite Z.shiftl_spec by lia. destruct Hd as [Hd|Hd].
  - by rewrite Z.testbit_neg_r by lia.
  - apply (word_testbit_high m); [done|done|lia].
Qed.
Lemma field_base b fs lo n : (lo, n) ∈ fs -> 0 <= lo -> 0 <= n -> cleared fs b = b -> field b lo n = 0.
Proof.
  intros Hin Hlo Hn Hb. apply Z.bits_inj'. intros i Hi. rewrite field_testbit, Z.bits_0 by done.
  destruct (Z.ltb_spec i n) as [Hin'|]; [|done]. cbn. rewrite <- Hb. clear Hb. induction fs as [|f fs IH]; [by apply elem_of_nil in Hin|].
  cbn [cleared foldr]. rewrite Z.ldiff_spec. apply elem_of_cons in Hin as [<-|Hin].
  - cbn. rewrite Z.shiftl_spec by lia. rewrite Z.ones_spec_low by lia. by rewrite andb_false_r.
  - fold (cleared fs b). by rewrite IH.
Qed.
Lemma cleared_lor fs a b : cleared fs (Z.lor a b) = Z.lor (cleared fs a) (cleared fs b).
Proof. induction fs as [|f fs IH]; cbn; [done|]. fold (cleared fs (Z.lor a b)) (cleared fs a) (cleared fs b). by rewrite IH, !Z.ldiff_land, Z.land_lor_distr_l. Qed.
Lemma cleared_0 fs : cleared fs 0 = 0.
Proof. induction fs as [|f fs IH]; cbn; [done|]. fold (cleared fs 0). by rewrite IH, Z.ldiff_0_l. Qed.
Lemma cleared_field fs v lo n : (lo, n) ∈ fs -> 0 <= lo -> 0 <= n -> word n v -> cleared fs (Z.shiftl v lo) = 0.
Proof.
  intros Hin Hlo Hn Hv. apply Z.bits_inj'. intros i Hi. rewrite Z.bits_0. destruct (Z.testbit (cleared _ _) i) eqn:E; [|done]. exfalso.
  induction fs as [|f fs IH]; [by apply elem_of_nil in Hin|]. cbn [cleared foldr] in E. fold (cleared fs (Z.shiftl v lo)) in E.
  rewrite Z.ldiff_spec in E. apply andb_true_iff in E as [E1 E2]. apply elem_of_cons in Hin as [<-|Hin]; [|by apply IH].
  cbn in E2. rewrite Z.shiftl_spec in E2 by done.
  assert (Hb : Z.testbit (Z.shiftl v lo) i = true).
  { clear -E1. revert E1. induction fs as [|f fs IH]; [done|]. cbn. rewrite Z.ldiff_spec. intros [H _]%andb_true_iff. by apply IH. }
  rewrite Z.shiftl_spec in Hb by done. destruct (Z.lt_ge_cases i lo); [by rewrite Z.testbit_neg_r in Hb by lia|].
  destruct (Z.lt_ge_cases (i - lo) n); [by rewrite Z.ones_spec_low in E2 by lia|].
  rewrite (word_testbit_high n) in Hb; [done|done|done|lia].
Qed.

(** ** Where the operands are *)

Definition RD : Z * Z := (0, 5).
Definition RN : Z * Z := (5, 5).
Definition RM : Z * Z := (16, 5).
Definition RA : Z * Z := (10, 5).
Definition CC : Z * Z := (12, 4).
Definition IMM12 : Z * Z := (10, 12).
(** The fields of a class; a load or store of one register has either form. *)
Definition class_fields (c : EncClass) : Fields :=
  match c with
  | Enc_Fixed => []
  | Enc_BranchImm26 => [(0, 26)]
  | Enc_RdRnRm => [RD; RN; RM]
  | Enc_RdRn | Enc_MovSpAlias => [RD; RN]
  | Enc_RdRm16 | Enc_MovRegAlias => [RD; RM]
  | Enc_RnOnly => [RN]
  | Enc_RdRnRmRa => [RD; RN; RM; RA]
  | Enc_MovWide => [RD; (5, 16); (21, 2)]
  | Enc_MovImmAlias => []
  | Enc_AddSubImm | Enc_AddSymLo12 => [RD; RN; IMM12]
  | Enc_LogicalImm => [RD; RN; (10, 6); (16, 6); (22, 1)]
  | Enc_LdSt => [RD; RN; IMM12]
  | Enc_LdStPair => [RD; RN; RA; (15, 7)]
  | Enc_Adr => [RD; (5, 19); (29, 2)]
  | Enc_BranchCond19 => [(0, 4); (5, 19)]
  | Enc_CompareBranch19 => [RD; (5, 19)]
  | Enc_Brk => [(5, 16)]
  | Enc_CmpReg => [RN; RM]
  | Enc_CmpImm => [RN; IMM12]
  | Enc_Cset => [RD; CC]
  | Enc_Csel => [RD; RN; RM; CC]
  | Enc_LdapStl => [RD; RN]
  | Enc_LseRmw | Enc_Cas => [RD; RN; RM]
  | Enc_VecMov16 => [RD; RN; RM]
  end.

Inductive Reading :=
  | Reads_reg (n : Z) | Reads_imm (v : Z) | Reads_sym | Reads_cond (c : Z) | Reads_mem (base offset : Z) | Reads_barrier.

Section Reads.
Variable word : Z.
Abbreviation rd := (Reads_reg (field word 0 5)).
Abbreviation rn := (Reads_reg (field word 5 5)).
Abbreviation rm := (Reads_reg (field word 16 5)).
Definition logical_value (is_64 : bool) : Z :=
  default 0 (decode_bit_masks is_64 (field word 22 1) (field word 16 6) (field word 10 6)).
(** What a move of an immediate leaves in its register: MOVN, MOVZ and ORR with an
    immediate and the zero register. *)
Definition moved_value : option Z :=
  let is_64 := field word 31 1 =? 1 in
  let opc := field word 29 2 in
  let shifted := Z.shiftl (field word 5 16) (16 * field word 21 2) in
  let width := if is_64 then 64 else 32 in
  if field word 23 6 =? 0x25 then
    if opc =? 2 then Some shifted else if opc =? 0 then Some (uwrap width (Z.lnot shifted)) else None
  else if (field word 23 6 =? 0x24) && (opc =? 1) && (field word 5 5 =? 31) then
    decode_bit_masks is_64 (field word 22 1) (field word 16 6) (field word 10 6)
  else None.
Definition reads (r : A64IsaRow) : list Reading :=
  match r_enc r with
  | Enc_Fixed => replicate (pattern_arity r) Reads_barrier
  | Enc_BranchImm26 => [Reads_sym]
  | Enc_RdRnRm => [rd; rn; rm]
  | Enc_RdRn | Enc_MovSpAlias => [rd; rn]
  | Enc_RdRm16 | Enc_MovRegAlias => [rd; rm]
  | Enc_RnOnly => [rn]
  | Enc_RdRnRmRa => [rd; rn; rm; Reads_reg (field word 10 5)]
  | Enc_MovWide => [rd; Reads_imm (Z.shiftl (field word 5 16) (16 * field word 21 2))]
  | Enc_MovImmAlias => [rd; Reads_imm (default (-1) moved_value)]
  | Enc_AddSubImm => [rd; rn; Reads_imm (field word 10 12)]
  | Enc_AddSymLo12 => [rd; rn; Reads_sym]
  | Enc_LogicalImm => [rd; rn; Reads_imm (logical_value (is_64_row r))]
  | Enc_LdSt =>
      [rd; Reads_mem (field word 5 5)
             (if field word 24 1 =? 1 then r_aux r * field word 10 12 else signed_field word 12 9)]
  | Enc_LdStPair => [rd; Reads_reg (field word 10 5); Reads_mem (field word 5 5) (r_aux r * signed_field word 15 7)]
  | Enc_Adr => [rd; Reads_sym]
  | Enc_BranchCond19 => [Reads_cond (field word 0 4); Reads_sym]
  | Enc_CompareBranch19 => [rd; Reads_sym]
  | Enc_Brk => [Reads_imm (field word 5 16)]
  | Enc_CmpReg => [rn; rm]
  | Enc_CmpImm => [rn; Reads_imm (field word 10 12)]
  | Enc_Cset => [rd; Reads_cond (Z.lxor (field word 12 4) 1)]
  | Enc_Csel => [rd; rn; rm; Reads_cond (field word 12 4)]
  | Enc_LdapStl => [rd; Reads_mem (field word 5 5) 0]
  | Enc_LseRmw | Enc_Cas => [rm; rd; Reads_mem (field word 5 5) 0]
  | Enc_VecMov16 => [rd; if field word 5 5 =? field word 16 5 then rn else Reads_barrier]
  end.
(** The bits of the word that say what the instruction is. *)
Definition opcode_bits (c : EncClass) : Z :=
  cleared (if bool_decide (c = Enc_LdSt) && (field word 24 1 =? 0) then [RD; RN; (12, 9)] else class_fields c) word.
End Reads.

(** What an operand means. *)
Definition immediate_width (r : A64IsaRow) : Z := if bool_decide (r_enc r = Enc_MovImmAlias) && negb (is_64_row r) then 32 else 64.
Definition meant (r : A64IsaRow) (o : AsmOperand) : Reading :=
  match o_kind o with
  | K_Reg | K_Vec => Reads_reg (o_reg o)
  | K_Imm => Reads_imm (uwrap (immediate_width r) (Z.shiftl (o_imm o) (16 * o_shift_hw o)))
  | K_Sym => Reads_sym
  | K_Cond => Reads_cond (o_cond o)
  | K_Mem => Reads_mem (o_base o) (o_imm o)
  | K_Barrier => Reads_barrier
  end.
(** The operands the parser makes. *)
Definition opnd_ok (o : AsmOperand) : Prop :=
  word 5 (o_reg o) /\ word 5 (o_base o) /\ word 4 (o_cond o) /\ word 2 (o_shift_hw o) /\ fits64 (o_imm o) = true /\
  (o_mode o = BaseOnly -> o_imm o = 0) /\ (o_offset_is_sym o = true -> o_mode o = Offset -> o_imm o = 0).

(** ** The table *)

Inductive Slot := Slot_reg | Slot_imm | Slot_plain_imm | Slot_sym | Slot_cond | Slot_base | Slot_offset | Slot_stepped | Slot_barrier.
#[export] Instance slot_eq_dec : EqDecision Slot.
Proof. solve_decision. Defined.
Definition slot_of (p : OpndPat) : option Slot :=
  match p with
  | Pat_None => None
  | Pat_GprW | Pat_GprX | Pat_GprWsp | Pat_GprXsp | Pat_FprS | Pat_FprD | Pat_FprQ | Pat_FprB | Pat_VecB8 | Pat_VecB16 => Some Slot_reg
  | Pat_Imm => Some Slot_plain_imm
  | Pat_MovImm16 => Some Slot_imm
  | Pat_SymPage | Pat_SymPageOff | Pat_SymCall | Pat_Target => Some Slot_sym
  | Pat_MemBase => Some Slot_base
  | Pat_MemBaseOff => Some Slot_offset
  | Pat_MemPre | Pat_MemPost => Some Slot_stepped
  | Pat_Cond => Some Slot_cond
  | Pat_BarrierOpt => Some Slot_barrier
  end.
Definition slot_holds (s : Slot) (o : AsmOperand) : Prop :=
  match s with
  | Slot_reg => o_kind o = K_Reg \/ o_kind o = K_Vec
  | Slot_imm => o_kind o = K_Imm
  | Slot_plain_imm => o_kind o = K_Imm /\ o_shift_hw o = 0
  | Slot_sym => o_kind o = K_Sym
  | Slot_cond => o_kind o = K_Cond
  | Slot_base => o_kind o = K_Mem /\ o_mode o = BaseOnly
  | Slot_offset => o_kind o = K_Mem /\ (o_mode o = BaseOnly \/ o_mode o = Offset)
  | Slot_stepped => o_kind o = K_Mem
  | Slot_barrier => o_kind o = K_Barrier
  end.
(** The operands of a class. *)
Definition class_slots (c : EncClass) : list (list Slot) :=
  match c with
  | Enc_Fixed => [[]; [Slot_barrier]]
  | Enc_BranchImm26 => [[Slot_sym]]
  | Enc_RdRnRm => [[Slot_reg; Slot_reg; Slot_reg]]
  | Enc_RdRn | Enc_MovSpAlias | Enc_RdRm16 | Enc_MovRegAlias | Enc_CmpReg | Enc_VecMov16 => [[Slot_reg; Slot_reg]]
  | Enc_RnOnly => [[Slot_reg]]
  | Enc_RdRnRmRa => [[Slot_reg; Slot_reg; Slot_reg; Slot_reg]]
  | Enc_MovWide => [[Slot_reg; Slot_imm]]
  | Enc_MovImmAlias | Enc_CmpImm => [[Slot_reg; Slot_plain_imm]]
  | Enc_AddSubImm | Enc_LogicalImm => [[Slot_reg; Slot_reg; Slot_plain_imm]]
  | Enc_AddSymLo12 => [[Slot_reg; Slot_reg; Slot_sym]]
  | Enc_LdSt => [[Slot_reg; Slot_offset]]
  | Enc_LdStPair => [[Slot_reg; Slot_reg; Slot_offset]; [Slot_reg; Slot_reg; Slot_stepped]]
  | Enc_Adr | Enc_CompareBranch19 => [[Slot_reg; Slot_sym]]
  | Enc_BranchCond19 => [[Slot_cond; Slot_sym]]
  | Enc_Brk => [[Slot_plain_imm]]
  | Enc_Cset => [[Slot_reg; Slot_cond]]
  | Enc_Csel => [[Slot_reg; Slot_reg; Slot_reg; Slot_cond]]
  | Enc_LdapStl => [[Slot_reg; Slot_base]]
  | Enc_LseRmw | Enc_Cas => [[Slot_reg; Slot_reg; Slot_base]]
  end.
Definition row_slots (r : A64IsaRow) : list Slot := omap slot_of (r_pats r).
Definition class_ok (r : A64IsaRow) : bool :=
  (0 <=? r_base r) && (r_base r <? 2 ^ 32) && (cleared (class_fields (r_enc r)) (r_base r) =? r_base r) &&
  bool_decide (row_slots r ∈ class_slots (r_enc r)) && Nat.eqb (pattern_arity r) (length (row_slots r)) &&
  match r_enc r with
  | Enc_LdSt =>
      bool_decide (r_aux r ∈ [1; 2; 4; 8; 16]) && (field (r_base r) 24 1 =? 1) && (field (ldst_unscaled r) 24 1 =? 0) &&
      (cleared [RD; RN; (12, 9)] (ldst_unscaled r) =? ldst_unscaled r)
  | Enc_LdStPair => r_aux r =? 8
  | Enc_MovImmAlias => (r_base r =? 0) || (r_base r =? 0x80000000)
  | _ => true
  end.
Lemma table_ok : forallb class_ok kRows = true.
Proof. vm_compute. reflexivity. Qed.

Lemma match_slots pats : forall ops, match_operands pats ops = true -> arity_go pats = length ops -> length (omap slot_of pats) = length ops ->
  Forall2 slot_holds (omap slot_of pats) ops.
Proof.
  induction pats as [|p pats IH]; intros [|o ops] Hm Ha Hl; cbn in *; try done; [destruct (bool_decide _); [|done]|].
  - destruct (slot_of p); [done|]. destruct (omap slot_of pats) eqn:E; [constructor|done].
  - apply andb_true_iff in Hm as [Hp Hm]. case_bool_decide as Hn; [done|].
    destruct (slot_of p) as [s|] eqn:Es; [|by destruct p].
    constructor; [|apply IH; [done|lia|cbn in Hl; lia]]. destruct p; cbn in *; simplify_eq; cbn;
      unfold match_reg, match_fpr, has_flavor, has_mode, is_kind_of in *; revert Hp;
      repeat case_bool_decide; cbn; try done; rewrite ?andb_true_r; intros; ztests; first [tauto|set_solver].
Qed.

(** ** Words packed of fields *)

Definition Piece : Type := Z * Z * Z.
Definition place_of (p : Piece) : Z * Z := (p.1.1, p.1.2).
Definition packed (base : Z) (l : list Piece) : Z := foldl (fun w p => Z.lor w (Z.shiftl p.2 p.1.1)) base l.
Definition piece_ok (fs : Fields) (p : Piece) : Prop :=
  place_of p ∈ fs /\ 0 <= p.1.1 /\ 0 <= p.1.2 /\ p.1.1 + p.1.2 <= 32 /\ word p.1.2 p.2.
Definition apart (f g : Z * Z) : bool := (f.1 + f.2 <=? g.1) || (g.1 + g.2 <=? f.1).
Fixpoint disjoint_places (fs : Fields) : bool :=
  match fs with [] => true | f :: fs => forallb (apart f) fs && disjoint_places fs end.

Lemma packed_lor base l w : packed (Z.lor base w) l = Z.lor (packed base l) w.
Proof.
  revert base. induction l as [|p l IH]; intros base; cbn; [done|]. fold (packed (Z.lor (Z.lor base w) (Z.shiftl p.2 p.1.1)) l).
  rewrite <- Z.lor_assoc, (Z.lor_comm w), Z.lor_assoc. by rewrite IH.
Qed.
Lemma packed_cons base p l : packed base (p :: l) = Z.lor (packed base l) (Z.shiftl p.2 p.1.1).
Proof. apply packed_lor. Qed.
Lemma packed_other base fs l lo n : Forall (piece_ok fs) l -> 0 <= lo -> 0 <= n -> forallb (apart (lo, n)) (map place_of l) = true ->
  field (packed base l) lo n = field base lo n.
Proof.
  intros Hl Hlo Hn. induction Hl as [|p l (_ & H1 & H2 & _ & H3) Hl IH]; intros Hd; [done|]. cbn in Hd. apply andb_true_iff in Hd as [Hp Hd].
  rewrite packed_cons, field_lor, IH by done. rewrite (field_other _ _ _ _ p.1.2); try done; [apply Z.lor_0_r|].
  unfold apart in Hp. cbn in Hp. apply orb_true_iff in Hp. destruct Hp; ztests; lia.
Qed.
Lemma packed_field base fs l p : Forall (piece_ok fs) l -> disjoint_places (map place_of l) = true -> p ∈ l -> cleared fs base = base ->
  field (packed base l) p.1.1 p.1.2 = p.2.
Proof.
  intros Hl. induction Hl as [|q l (Hq & H1 & H2 & H3 & H4) Hl IH]; intros Hd Hp Hb; [by apply elem_of_nil in Hp|].
  cbn in Hd. apply andb_true_iff in Hd as [Hd1 Hd2]. rewrite packed_cons, field_lor. apply elem_of_cons in Hp as [->|Hp].
  - rewrite (packed_other base fs) by done. rewrite (field_base base fs) by done. by rewrite field_same.
  - rewrite IH by done. assert (Hok : piece_ok fs p) by (by eapply list.Forall_forall in Hl). destruct Hok as (_ & K1 & K2 & _).
    rewrite (field_other _ _ _ _ q.1.2); try done; [apply Z.lor_0_r|].
    rewrite forallb_forall in Hd1. specialize (Hd1 (place_of p)). rewrite in_map_iff in Hd1.
    specialize (Hd1 ltac:(exists p; split; [done|by apply list_elem_of_In])). unfold apart in Hd1. cbn in Hd1.
    apply orb_true_iff in Hd1. destruct Hd1; ztests; lia.
Qed.
Lemma packed_cleared base fs l : Forall (piece_ok fs) l -> cleared fs base = base -> cleared fs (packed base l) = base.
Proof.
  intros Hl Hb. induction Hl as [|p l (H0 & H1 & H2 & _ & H3) Hl IH]; [done|]. rewrite packed_cons, cleared_lor, IH.
  rewrite (cleared_field fs _ _ p.1.2) by done. apply Z.lor_0_r.
Qed.
Lemma packed_word base fs l : Forall (piece_ok fs) l -> word 32 base -> word 32 (packed base l).
Proof.
  intros Hl Hb. induction Hl as [|p l (_ & H1 & H2 & H3 & H4 & H5) Hl IH]; [done|]. rewrite packed_cons. apply word_lor; [done|done|].
  rewrite shiftl_mul by done. split; [by apply Z.mul_nonneg_nonneg; [|apply Z.pow_nonneg]|].
  apply Z.lt_le_trans with (2 ^ p.1.2 * 2 ^ p.1.1); [apply Z.mul_lt_mono_pos_r; [by apply pow2_pos|done]|].
  rewrite <- Z.pow_add_r by done. apply Z.pow_le_mono_r; lia.
Qed.

(** ** Every class *)

Lemma packed_at base fs l lo n v : Forall (piece_ok fs) l -> disjoint_places (map place_of l) = true -> cleared fs base = base ->
  (lo, n, v) ∈ l -> field (packed base l) lo n = v.
Proof. intros Hl Hd Hb Hp. by apply (packed_field base fs l (lo, n, v)). Qed.

Section Row.
Variable r : A64IsaRow.
Variable ops : list AsmOperand.
Hypothesis Hrow : class_ok r = true.
Hypothesis Hops : Forall opnd_ok ops.

(** The bits an encoded word shares with its row. *)
Definition row_opcode (w : Z) : Z := if bool_decide (r_enc r = Enc_LdSt) && (field w 24 1 =? 0) then ldst_unscaled r else r_base r.
Definition reads_back (w : Z) : Prop :=
  word 32 w /\ reads w r = map (meant r) ops /\ (r_enc r <> Enc_MovImmAlias -> opcode_bits w (r_enc r) = row_opcode w).

Lemma row_base : word 32 (r_base r) /\ cleared (class_fields (r_enc r)) (r_base r) = r_base r.
Proof. unfold class_ok in Hrow. rewrite !andb_true_iff in Hrow. destruct Hrow as [[[[[H1 H2] H3] _] _] _]. ztests. done. Qed.
Lemma reads_packed l : r_enc r <> Enc_LdSt -> Forall (piece_ok (class_fields (r_enc r))) l ->
  reads (packed (r_base r) l) r = map (meant r) ops -> reads_back (packed (r_base r) l).
Proof.
  intros Hc Hl Hr. destruct row_base as [Hb Hcl]. split; [by eapply packed_word|]. split; [done|]. intros _.
  unfold opcode_bits, row_opcode. rewrite bool_decide_false by done. cbn [andb]. by apply packed_cleared.
Qed.
Lemma opnd_at i o : opnd ops i = Done o -> ops !! i = Some o.
Proof. unfold opnd. destruct (ops !! i); [by intros [= ->]|done]. Qed.

(** The operands of a shape. *)
Definition shaped (shape : list Slot) : Prop := Forall2 slot_holds shape ops.
End Row.
Ltac operands :=
  repeat match goal with
  | H : shaped _ _ |- _ => unfold shaped in H
  | H : Forall2 slot_holds (_ :: _) ?ops |- _ => apply Forall2_cons_inv_l in H as (? & ? & ? & H & ->); cbn [slot_holds] in *
  | H : Forall2 slot_holds [] ?ops |- _ => apply Forall2_nil_inv_l in H as ->
  | H : Forall opnd_ok (_ :: _) |- _ => apply list.Forall_cons in H as [(? & ? & ? & ? & ? & ? & ?) H]
  end.
Ltac piece_here := solve [repeat first [apply list_elem_of_here | apply list_elem_of_further]].
(** The pieces are in the fields of the class. *)
Ltac pieces :=
  repeat (apply list.Forall_cons; split; [split; [unfold place_of; cbn; piece_here|cbn; split; [lia|split; [lia|split; [lia|try done]]]]|]);
  try apply Forall_nil.
Ltac read_pieces :=
  repeat match goal with
  | Hl : Forall (piece_ok ?fs) ?l, Hb : cleared ?fs ?b = ?b |- context [field (packed ?b ?l) ?lo ?n] =>
      rewrite (packed_at b fs l lo n _ Hl eq_refl Hb) by piece_here
  end.
(** The pieces of a word, from the last to the first, with their widths. *)
Ltac pieces_of w ns acc :=
  match w with
  | Z.lor ?w' (Z.shiftl ?v ?lo) => match ns with ?n :: ?ns' => pieces_of w' ns' constr:((lo, n, v) :: acc) end
  | Z.lor ?w' ?v => match ns with ?n :: ?ns' => pieces_of w' ns' constr:((0, n, v) :: acc) end
  | _ => acc
  end.
Ltac pack Hl ns :=
  match goal with |- reads_back ?r ?ops ?w =>
    let l := pieces_of w ns constr:(@nil Piece) in
    change (reads_back r ops (packed (r_base r) l));
    assert (Hl : Forall (piece_ok (class_fields (r_enc r))) l)
  end.

Section Classes.
Variable r : A64IsaRow.
Hypothesis Hrow : class_ok r = true.
Variable ops : list AsmOperand.
Hypothesis Hops : Forall opnd_ok ops.
Variable e : IsaEncoded.
Hypothesis Hencoded : encode_row r ops = Done e.
Hypothesis Hok : e_ok e = true.

Lemma meant_reg o : o_kind o = K_Reg \/ o_kind o = K_Vec -> meant r o = Reads_reg (o_reg o).
Proof. unfold meant. by intros [-> | ->]. Qed.
End Classes.

(** The common part of the classes. *)
Ltac start_class Hc :=
  match goal with
  | Hrow : class_ok ?r = true, Hencoded : encode_row ?r _ = Done ?e |- _ =>
      pose proof (proj1 (row_base r Hrow)) as Hb; pose proof (proj2 (row_base r Hrow)) as Hcl; rewrite Hc in Hcl; operands;
      unfold encode_row in Hencoded; rewrite Hc in Hencoded; cbn in Hencoded
  end.
Ltac finish_class Hc ns :=
  let Hl := fresh in
  cbn [e_word encoded_word with_sym with_access]; pack Hl ns;
  [rewrite Hc; cbn [class_fields]; pieces|
   apply reads_packed; [done|congruence|done|rewrite Hc in Hl; unfold reads; rewrite Hc; cbn [class_fields] in *; read_pieces;
     cbn [map]; rewrite ?meant_reg by done]].

Section Registers.
Variable r : A64IsaRow.
Hypothesis Hrow : class_ok r = true.
Variable ops : list AsmOperand.
Hypothesis Hops : Forall opnd_ok ops.
Variable e : IsaEncoded.
Hypothesis Hencoded : encode_row r ops = Done e.
Hypothesis Hok : e_ok e = true.

Lemma three_back : r_enc r = Enc_RdRnRm -> shaped ops [Slot_reg; Slot_reg; Slot_reg] -> reads_back r ops (e_word e).
Proof. intros Hc Hs. start_class Hc. injection Hencoded as <-. by finish_class Hc [5; 5; 5]. Qed.
Lemma four_back : r_enc r = Enc_RdRnRmRa -> shaped ops [Slot_reg; Slot_reg; Slot_reg; Slot_reg] -> reads_back r ops (e_word e).
Proof. intros Hc Hs. start_class Hc. injection Hencoded as <-. by finish_class Hc [5; 5; 5; 5]. Qed.
Lemma two_back : r_enc r = Enc_RdRn \/ r_enc r = Enc_MovSpAlias \/ r_enc r = Enc_RdRm16 \/ r_enc r = Enc_MovRegAlias ->
  shaped ops [Slot_reg; Slot_reg] -> reads_back r ops (e_word e).
Proof. intros [Hc|[Hc|[Hc|Hc]]] Hs; start_class Hc; injection Hencoded as <-; by finish_class Hc [5; 5]. Qed.
Lemma compare_back : r_enc r = Enc_CmpReg -> shaped ops [Slot_reg; Slot_reg] -> reads_back r ops (e_word e).
Proof. intros Hc Hs. start_class Hc. injection Hencoded as <-. by finish_class Hc [5; 5]. Qed.
Lemma vector_back : r_enc r = Enc_VecMov16 -> shaped ops [Slot_reg; Slot_reg] -> reads_back r ops (e_word e).
Proof. intros Hc Hs. start_class Hc. injection Hencoded as <-. finish_class Hc [5; 5; 5]. by rewrite Z.eqb_refl. Qed.
Lemma one_back : r_enc r = Enc_RnOnly -> shaped ops [Slot_reg] -> reads_back r ops (e_word e).
Proof. intros Hc Hs. start_class Hc. injection Hencoded as <-. by finish_class Hc [5]. Qed.
Lemma meant_sym o : o_kind o = K_Sym -> meant r o = Reads_sym.
Proof. unfold meant. by intros ->. Qed.
Lemma meant_cond o : o_kind o = K_Cond -> meant r o = Reads_cond (o_cond o).
Proof. unfold meant. by intros ->. Qed.
Lemma symbol_back : r_enc r = Enc_BranchImm26 -> shaped ops [Slot_sym] -> reads_back r ops (e_word e).
Proof. intros Hc Hs. start_class Hc. injection Hencoded as <-. finish_class Hc (@nil Z). by rewrite meant_sym. Qed.
Lemma address_back : r_enc r = Enc_Adr \/ r_enc r = Enc_CompareBranch19 -> shaped ops [Slot_reg; Slot_sym] -> reads_back r ops (e_word e).
Proof. intros [Hc|Hc] Hs; start_class Hc; injection Hencoded as <-; finish_class Hc [5]; by rewrite meant_sym. Qed.
Lemma low_back : r_enc r = Enc_AddSymLo12 -> shaped ops [Slot_reg; Slot_reg; Slot_sym] -> reads_back r ops (e_word e).
Proof. intros Hc Hs. start_class Hc. injection Hencoded as <-. finish_class Hc [5; 5]. by rewrite meant_sym. Qed.
Lemma condition_back : r_enc r = Enc_BranchCond19 -> shaped ops [Slot_cond; Slot_sym] -> reads_back r ops (e_word e).
Proof. intros Hc Hs. start_class Hc. injection Hencoded as <-. finish_class Hc [4]. by rewrite meant_cond, meant_sym. Qed.
Lemma select_back : r_enc r = Enc_Csel -> shaped ops [Slot_reg; Slot_reg; Slot_reg; Slot_cond] -> reads_back r ops (e_word e).
Proof. intros Hc Hs. start_class Hc. injection Hencoded as <-. finish_class Hc [5; 5; 4; 5]. by rewrite meant_cond. Qed.
Lemma word_lxor n a b : 0 <= n -> word n a -> word n b -> word n (Z.lxor a b).
Proof.
  intros Hn Ha Hb. apply word_bits; [done|apply Z.lxor_nonneg; destruct Ha, Hb; lia|]. intros i Hi.
  by rewrite Z.lxor_spec, (word_testbit_high n a), (word_testbit_high n b).
Qed.
Lemma set_back : r_enc r = Enc_Cset -> shaped ops [Slot_reg; Slot_cond] -> reads_back r ops (e_word e).
Proof.
  intros Hc Hs. start_class Hc. injection Hencoded as <-. assert (Hx : word 4 (Z.lxor (o_cond x1) 1)).
  { apply word_lxor; [done|done|by split]. }
  finish_class Hc [5; 4]. rewrite meant_cond by done. by rewrite Z.lxor_assoc, Z.lxor_nilpotent, Z.lxor_0_r.
Qed.
Lemma fixed_back : r_enc r = Enc_Fixed -> pattern_arity r = length ops -> shaped ops [] \/ shaped ops [Slot_barrier] -> reads_back r ops (e_word e).
Proof.
  intros Hc Ha [Hs|Hs]; start_class Hc; injection Hencoded as <-; finish_class Hc (@nil Z); rewrite Ha; [done|].
  unfold meant. by rewrite H.
Qed.
End Registers.

(** ** Immediates and memory *)

#[local] Arguments with_immediate : simpl never.
#[local] Arguments encode_ldst : simpl never.
#[local] Arguments encode_pair : simpl never.
#[local] Arguments encode_mov_imm : simpl never.
#[local] Arguments a64_logical_imm : simpl never.

Lemma in_range (least most : Z) o : (o_imm o <? least) || (most <? o_imm o) = false -> least <= o_imm o <= most.
Proof. intros H. apply orb_false_iff in H as [H1 H2]. ztests. lia. Qed.
Lemma imm_word n o : 0 <= n <= 32 -> 0 <= o_imm o <= 2 ^ n - 1 -> u32 (o_imm o) = o_imm o /\ word n (o_imm o).
Proof.
  intros Hn H. assert (Hw : word n (o_imm o)) by (split; lia). split; [|done]. apply uwrap_small. by apply (word_mono n).
Qed.
Lemma with_immediate_ok r ops e i least most message k : e_ok e = true -> with_immediate r ops i least most message k = Done e ->
  exists o, ops !! i = Some o /\ least <= o_imm o <= most /\ k (u32 (o_imm o)) = Done e.
Proof.
  intros Hok. unfold with_immediate. destruct (opnd ops i) as [o| | |] eqn:Ho; cbn; [|done..]. apply opnd_at in Ho.
  destruct (_ || _) eqn:Hrange; [intros [= <-]; done|]. intros H. exists o. split; [done|]. split; [by apply in_range|done].
Qed.
Section Memory.
Variable r : A64IsaRow.
Hypothesis Hrow : class_ok r = true.

Lemma pair_scale : r_enc r = Enc_LdStPair -> r_aux r = 8.
Proof. intros Hc. pose proof Hrow as H. unfold class_ok in H. rewrite Hc in H. apply andb_true_iff in H as [_ H]. by apply Z.eqb_eq. Qed.
Lemma signed_low n v : 0 < n <= 32 -> - 2 ^ (n - 1) <= v < 2 ^ (n - 1) -> word n (Z.land (u32 v) (2 ^ n - 1)) /\
  swrap n (Z.land (u32 v) (2 ^ n - 1)) = v.
Proof.
  intros Hn Hv. rewrite land_pow2_minus_1 by lia. split; [apply Z.mod_pos_bound, pow2_pos; lia|].
  transitivity (swrap n v); [|by apply swrap_small; lia]. unfold swrap. replace (uwrap n (u32 v mod 2 ^ n)) with (uwrap n v); [done|].
  unfold uwrap. rewrite Z.mod_mod by (pose proof (pow2_pos n); lia). rewrite Z.mod_mod_divide; [done|]. exists (2 ^ (32 - n)).
  rewrite <- Z.pow_add_r by lia. f_equal. lia.
Qed.
Lemma load_scale : r_enc r = Enc_LdSt -> (r_aux r = 1 \/ r_aux r = 2 \/ r_aux r = 4 \/ r_aux r = 8 \/ r_aux r = 16) /\
  field (r_base r) 24 1 = 1 /\ field (ldst_unscaled r) 24 1 = 0 /\ cleared [RD; RN; (12, 9)] (ldst_unscaled r) = ldst_unscaled r.
Proof.
  intros Hc. pose proof Hrow as H. unfold class_ok in H. rewrite Hc in H. apply andb_true_iff in H as [_ H].
  rewrite !andb_true_iff in H. destruct H as [[[H1 H2] H3] H4]. ztests. split; [|done]. apply bool_decide_eq_true in H1. set_solver.
Qed.
(** The scaled form and the unscaled one. *)
Definition load_word (base lo value : Z) (rt mem : AsmOperand) : Z :=
  Z.lor (Z.lor (Z.lor base (Z.shiftl value lo)) (Z.shiftl (o_base mem) 5)) (o_reg rt).
Lemma scaled_back v rt mem : r_enc r = Enc_LdSt -> o_kind rt = K_Reg \/ o_kind rt = K_Vec -> o_kind mem = K_Mem -> word 5 (o_reg rt) ->
  word 5 (o_base mem) -> word 12 v -> r_aux r * v = o_imm mem -> reads_back r [rt; mem] (load_word (r_base r) 10 v rt mem).
Proof.
  intros Hc Hrt Hmem H1 H2 Hv Hm. destruct (load_scale Hc) as (_ & H24 & _). destruct (row_base r Hrow) as [Hb Hcl].
  unfold load_word. pack Hl [5; 5; 12]; [rewrite Hc; pieces|]. rewrite Hc in Hl, Hcl.
  split; [by eapply packed_word|]. unfold reads, opcode_bits, row_opcode. rewrite Hc, (packed_other _ (class_fields Enc_LdSt) _ 24 1), H24 by done.
  cbn [class_fields] in *. split; [|intros _; rewrite bool_decide_true by done; by apply packed_cleared]. cbn [Z.eqb Pos.eqb]. read_pieces. rewrite Hm. cbn [map]. unfold meant.
  rewrite Hmem. by destruct Hrt as [-> | ->].
Qed.
Lemma unscaled_back v rt mem : r_enc r = Enc_LdSt -> o_kind rt = K_Reg \/ o_kind rt = K_Vec -> o_kind mem = K_Mem -> word 5 (o_reg rt) ->
  word 5 (o_base mem) -> word 9 v -> swrap 9 v = o_imm mem -> reads_back r [rt; mem] (load_word (ldst_unscaled r) 12 v rt mem).
Proof.
  intros Hc Hrt Hmem H1 H2 Hv Hm. destruct (load_scale Hc) as (_ & _ & H24 & Hcl).
  assert (Hb : word 32 (ldst_unscaled r)) by (apply uwrap_word; lia). set (fs := [RD; RN; (12, 9)]) in *.
  assert (Hl : Forall (piece_ok fs) [(12, 9, v); (5, 5, o_base mem); (0, 5, o_reg rt)]) by (unfold fs; pieces).
  change (load_word _ _ _ _ _) with (packed (ldst_unscaled r) [(12, 9, v); (5, 5, o_base mem); (0, 5, o_reg rt)]).
  split; [by eapply packed_word|]. unfold reads, opcode_bits, row_opcode. rewrite Hc, (packed_other _ fs _ 24 1), H24 by done.
  split; [|intros _; rewrite bool_decide_true by done; by apply packed_cleared]. cbn [Z.eqb]. unfold signed_field. read_pieces. rewrite Hm. cbn [map]. unfold meant.
  rewrite Hmem. by destruct Hrt as [-> | ->].
Qed.
End Memory.

Section Immediates.
Variable r : A64IsaRow.
Hypothesis Hrow : class_ok r = true.
Variable ops : list AsmOperand.
Hypothesis Hops : Forall opnd_ok ops.
Variable e : IsaEncoded.
Hypothesis Hencoded : encode_row r ops = Done e.
Hypothesis Hok : e_ok e = true.

Lemma meant_imm o n : r_enc r <> Enc_MovImmAlias -> o_kind o = K_Imm -> 0 <= n <= 48 -> o_shift_hw o = 0 -> word n (o_imm o) ->
  meant r o = Reads_imm (o_imm o).
Proof.
  intros Hc Hk Hn Hs Hw. unfold meant. rewrite Hk, Hs. cbn [Z.mul]. rewrite Z.shiftl_0_r. f_equal. apply uwrap_small.
  apply (word_mono n); [|done]. unfold immediate_width. rewrite bool_decide_false by done. cbn. lia.
Qed.
(** The range test of an immediate field. *)
Ltac ranged n :=
  match goal with H : with_immediate _ _ _ _ _ _ _ = Done _ |- _ =>
    apply with_immediate_ok in H as (o & [= <-] & Hrange & H); [|done]; destruct (imm_word n _ ltac:(lia) Hrange) as [Heq Hw];
    rewrite Heq in H; cbn in H; injection H as <-
  end.
Ltac plain_imm n := match goal with H : _ /\ o_shift_hw _ = 0 |- _ => destruct H end; rewrite (meant_imm _ n) by (congruence || done); done.
Lemma add_back : r_enc r = Enc_AddSubImm -> shaped ops [Slot_reg; Slot_reg; Slot_plain_imm] -> reads_back r ops (e_word e).
Proof. intros Hc Hs. start_class Hc. ranged 12. finish_class Hc [5; 5; 12]. plain_imm 12. Qed.
Lemma compare_imm_back : r_enc r = Enc_CmpImm -> shaped ops [Slot_reg; Slot_plain_imm] -> reads_back r ops (e_word e).
Proof. intros Hc Hs. start_class Hc. ranged 12. finish_class Hc [5; 12]. plain_imm 12. Qed.
Lemma break_back : r_enc r = Enc_Brk -> shaped ops [Slot_plain_imm] -> reads_back r ops (e_word e).
Proof. intros Hc Hs. start_class Hc. ranged 16. finish_class Hc [16]. plain_imm 16. Qed.
Lemma shifted_half v hw : word 16 v -> word 2 hw -> word 64 (Z.shiftl v (16 * hw)).
Proof.
  intros [H1 H2] [H3 H4]. rewrite shiftl_mul by lia. change (2 ^ 2) with 4 in H4.
  assert (K : 0 < 2 ^ (16 * hw) <= 2 ^ 48) by (split; [apply pow2_pos|apply Z.pow_le_mono_r]; lia).
  split; [nia|]. change (2 ^ 64) with (2 ^ 16 * 2 ^ 48). nia.
Qed.
Lemma wide_back : r_enc r = Enc_MovWide -> shaped ops [Slot_reg; Slot_imm] -> reads_back r ops (e_word e).
Proof.
  intros Hc Hs. start_class Hc. ranged 16. finish_class Hc [5; 16; 2]. unfold meant.
  match goal with H : o_kind _ = K_Imm |- _ => rewrite H end. do 3 f_equal. symmetry. apply uwrap_small.
  apply (word_mono 64); [|by apply shifted_half]. unfold immediate_width. rewrite Hc. done.
Qed.
Ltac base_only :=
  unfold meant; match goal with H : _ /\ o_mode ?o = BaseOnly, K : o_mode ?o = BaseOnly -> _ |- _ => rewrite (proj1 H), (K (proj2 H)) end.
Lemma exchange_back : r_enc r = Enc_LseRmw \/ r_enc r = Enc_Cas -> shaped ops [Slot_reg; Slot_reg; Slot_base] -> reads_back r ops (e_word e).
Proof.
  intros [Hc|Hc] Hs; start_class Hc; injection Hencoded as <-; finish_class Hc [5; 5; 5]; by base_only.
Qed.
Lemma acquire_back : r_enc r = Enc_LdapStl -> shaped ops [Slot_reg; Slot_base] -> reads_back r ops (e_word e).
Proof.
  intros Hc Hs; start_class Hc; injection Hencoded as <-; finish_class Hc [5; 5]; by base_only.
Qed.
Lemma logical_back : r_enc r = Enc_LogicalImm -> shaped ops [Slot_reg; Slot_reg; Slot_plain_imm] -> reads_back r ops (e_word e).
Proof.
  intros Hc Hs. start_class Hc. match goal with H : _ /\ o_shift_hw _ = 0 |- _ => destruct H as [Hk Hsh] end.
  destruct (logical_imm_fields (is_64_row r) (u64 (o_imm x0))) as (f & Hf & Hfields); [apply uwrap_range; lia|].
  rewrite Hf in Hencoded. cbn in Hencoded. destruct f as [[[n immr] imms]|]; [|injection Hencoded as <-; done].
  destruct Hfields as (Hn & Hr & Hi & Hd). injection Hencoded as <-.
  assert (word 1 n) by (destruct (is_64_row r); split; lia).
  finish_class Hc [5; 5; 6; 6; 1].
  unfold logical_value. read_pieces. rewrite Hd. unfold meant, immediate_width. rewrite Hk, Hsh, Hc. cbn. by rewrite Z.shiftl_0_r.
Qed.
Lemma offset_stepped l : shaped l [Slot_reg; Slot_reg; Slot_offset] -> shaped l [Slot_reg; Slot_reg; Slot_stepped].
Proof.
  unfold shaped. intros (x & ? & H1 & (y & ? & H2 & (z & ? & H3 & ->%Forall2_nil_inv_l & ->)%Forall2_cons_inv_l & ->)%Forall2_cons_inv_l & ->)%Forall2_cons_inv_l.
  constructor; [done|]. constructor; [done|]. constructor; [apply H3|constructor].
Qed.
Lemma pair_back : r_enc r = Enc_LdStPair -> shaped ops [Slot_reg; Slot_reg; Slot_stepped] -> reads_back r ops (e_word e).
Proof.
  intros Hc Hs. pose proof (pair_scale r Hrow Hc) as Ha. start_class Hc. unfold encode_pair in Hencoded. cbn in Hencoded. rewrite Ha in Hencoded.
  destruct (_ || _) eqn:Hrange in Hencoded; [injection Hencoded as <-; done|]. injection Hencoded as <-.
  rewrite !orb_false_iff in Hrange. destruct Hrange as [[[Hsym Hrem] Hlo] Hhi]. rewrite Hsym in Hrem, Hlo, Hhi |- *. ztests.
  pose proof (Z.quot_rem' (o_imm x0) 8) as Hq. destruct (signed_low 7 (Z.quot (o_imm x0) 8)) as [Hw Hsw]; [lia|lia|].
  change (2 ^ 7 - 1) with 0x7F in *. finish_class Hc [5; 5; 5; 7].
  unfold meant, signed_field. read_pieces. rewrite Hsw, Ha. match goal with H : o_kind _ = K_Mem |- _ => rewrite H end.
  do 4 f_equal. lia.
Qed.
Lemma load_back : r_enc r = Enc_LdSt -> shaped ops [Slot_reg; Slot_offset] -> reads_back r ops (e_word e).
Proof.
  intros Hc Hs. destruct (load_scale r Hrow Hc) as (Ha & _). start_class Hc. unfold encode_ldst in Hencoded. cbn in Hencoded.
  destruct H0 as [Hk Hm]. destruct (o_offset_is_sym x1) eqn:Hsym.
  - injection Hencoded as <-. cbn [e_word encoded_word with_sym with_access]. rewrite <- (Z.lor_0_r (r_base r)).
    apply (scaled_back r Hrow 0); try done. assert (o_imm x1 = 0) by (destruct Hm; auto). lia.
  - destruct (_ && _) eqn:Hscaled in Hencoded.
    + injection Hencoded as <-. rewrite !andb_true_iff in Hscaled. destruct Hscaled as [[H0 Hrem] Hhi]. ztests.
      pose proof (Z.quot_rem' (o_imm x1) (r_aux r)) as Hq. assert (Hv : word 12 (Z.quot (o_imm x1) (r_aux r))).
      { split; [apply Z.quot_pos; lia|]. change (2 ^ 12) with 4096. lia. }
      cbn [e_word encoded_word]. rewrite uwrap_small by (by apply (word_mono 12)). apply scaled_back; try done. lia.
    + destruct (_ && _) eqn:Hsmall in Hencoded; [|injection Hencoded as <-; done]. injection Hencoded as <-.
      apply andb_true_iff in Hsmall as [Hlo Hhi]. ztests. destruct (signed_low 9 (o_imm x1)) as [Hw Hsw]; [lia|lia|].
      by apply unscaled_back.
Qed.
End Immediates.

(** ** Moves of an immediate *)

Section Moves.
Lemma half_alone value s : word 64 value -> 0 <= s < 4 -> Z.land value (unot 64 (Z.shiftl 0xFFFF (16 * s))) = 0 ->
  word 16 (Z.shiftr value (16 * s)) /\ Z.shiftl (Z.shiftr value (16 * s)) (16 * s) = value.
Proof.
  intros Hv Hs H0. assert (Hout : forall i, 0 <= i -> i < 16 * s \/ 16 * s + 16 <= i -> Z.testbit value i = false).
  { intros i Hi Ho. destruct (Z.lt_ge_cases i 64) as [Hi'|Hi']; [|by apply (word_testbit_high 64); [lia|..]].
    assert (Hb : Z.testbit (Z.land value (unot 64 (Z.shiftl 0xFFFF (16 * s)))) i = false) by (rewrite H0; apply Z.bits_0).
    rewrite Z.land_spec, unot_testbit, Z.shiftl_spec in Hb by lia. destruct (Z.testbit value i); [|done]. cbn in Hb.
    apply negb_false_iff in Hb. destruct Ho; [by rewrite Z.testbit_neg_r in Hb by lia|].
    by rewrite (word_testbit_high 16) in Hb by (done || lia). }
  split.
  - apply word_bits; [lia|apply Z.shiftr_nonneg, Hv|]. intros i Hi. rewrite Z.shiftr_spec by lia. apply Hout; lia.
  - apply Z.bits_inj'. intros i Hi. rewrite Z.shiftl_spec by done. destruct (Z.lt_ge_cases i (16 * s)).
    + rewrite Z.testbit_neg_r by lia. by rewrite Hout by lia.
    + rewrite Z.shiftr_spec by lia. f_equal. lia.
Qed.
Lemma find_half_sound count value : word 64 value -> forall shift s, find_half count shift value = Some s -> 0 <= shift ->
  shift + Z.of_nat count <= 4 -> shift <= s < shift + Z.of_nat count /\ word 16 (Z.shiftr value (16 * s)) /\
    Z.shiftl (Z.shiftr value (16 * s)) (16 * s) = value.
Proof.
  intros Hv. induction count as [|count IH]; intros shift s; cbn [find_half]; [done|]. destruct (Z.eqb_spec (Z.land value (unot 64 (Z.shiftl 0xFFFF (16 * shift)))) 0) as [E|E].
  - intros [= ->] H0 H4. split; [lia|]. apply half_alone; [done|lia|done].
  - intros H H0 H4. destruct (IH _ _ H) as [H1 H2]; [lia..|]. split; [lia|done].
Qed.

Definition move_opcodes : list Z := [0xD2800000; 0x52800000; 0x92800000; 0x12800000].
Lemma move_word_fields opcode s half rd : opcode ∈ move_opcodes -> word 2 s -> word 16 half -> word 5 rd ->
  let w := Z.lor (Z.lor (Z.lor opcode (Z.shiftl s 21)) (Z.shiftl half 5)) rd in
  word 32 w /\ field w 0 5 = rd /\ field w 5 16 = half /\ field w 21 2 = s /\ field w 31 1 = field opcode 31 1 /\
  field w 29 2 = field opcode 29 2 /\ field w 23 6 = 0x25.
Proof.
  intros Ho Hs Hh Hr w. set (fs := [RD; (5, 16); (21, 2)]). assert (Hb : word 32 opcode /\ cleared fs opcode = opcode /\ field opcode 23 6 = 0x25).
  { unfold move_opcodes in Ho. repeat (apply elem_of_cons in Ho as [->|Ho]; [by vm_compute|]). by apply elem_of_nil in Ho. }
  destruct Hb as (Hb & Hcl & H23). assert (Hl : Forall (piece_ok fs) [(21, 2, s); (5, 16, half); (0, 5, rd)]) by (unfold fs; pieces).
  change w with (packed opcode [(21, 2, s); (5, 16, half); (0, 5, rd)]). split; [by eapply packed_word|]. read_pieces.
  rewrite !(packed_other _ fs) by done. done.
Qed.
Lemma move_word_half opcode s value rd : 0 <= s -> word 16 (Z.shiftr value (16 * s)) ->
  move_word opcode s value rd = Z.lor (Z.lor (Z.lor opcode (Z.shiftl s 21)) (Z.shiftl (Z.shiftr value (16 * s)) 5)) rd.
Proof.
  intros Hs Hh. unfold move_word. rewrite (uwrap_small 32 (Z.shiftr value _)) by (by apply (word_mono 16)). rewrite uwrap_small; [done|].
  destruct Hh as [H1 H2]. rewrite shiftl_mul by lia. change (2 ^ 16) with 65536 in H2. split; [lia|]. change (2 ^ 32) with (65536 * 65536). lia.
Qed.
(** What the three moves leave in the register. *)
Definition moves (w rd value : Z) : Prop := word 32 w /\ field w 0 5 = rd /\ moved_value w = Some value.
Lemma wide_move (is_64 : bool) s value rd count : word 64 value -> word 5 rd -> Z.of_nat count <= 4 -> find_half count 0 value = Some s ->
  moves (move_word (if is_64 then 0xD2800000 else 0x52800000) s value rd) rd value.
Proof.
  intros Hv Hr Hc Hf. destruct (find_half_sound count value Hv 0 s Hf) as (Hs & Hw & Heq); [lia..|]. rewrite move_word_half by (done || lia).
  destruct (move_word_fields (if is_64 then 0xD2800000 else 0x52800000) s (Z.shiftr value (16 * s)) rd) as (H0 & H1 & H2 & H3 & H4 & H5 & H6);
    [unfold move_opcodes; destruct is_64; set_solver|split; lia|done..|]. split; [done|]. split; [done|].
  unfold moved_value. rewrite H2, H3, H4, H5, H6, Heq. by destruct is_64.
Qed.
Lemma inverted_move (is_64 : bool) s value rd count : word 64 value -> word 5 rd -> Z.of_nat count <= 4 -> find_half count 0 value = Some s ->
  moves (move_word (if is_64 then 0x92800000 else 0x12800000) s value rd) rd (uwrap (if is_64 then 64 else 32) (Z.lnot value)).
Proof.
  intros Hv Hr Hc Hf. destruct (find_half_sound count value Hv 0 s Hf) as (Hs & Hw & Heq); [lia..|]. rewrite move_word_half by (done || lia).
  destruct (move_word_fields (if is_64 then 0x92800000 else 0x12800000) s (Z.shiftr value (16 * s)) rd) as (H0 & H1 & H2 & H3 & H4 & H5 & H6);
    [unfold move_opcodes; destruct is_64; set_solver|split; lia|done..|]. split; [done|]. split; [done|].
  unfold moved_value. rewrite H2, H3, H4, H5, H6, Heq. by destruct is_64.
Qed.
Lemma masked_move (is_64 : bool) n immr imms value rd : word 5 rd -> word 1 n -> word 6 immr -> word 6 imms ->
  decode_bit_masks is_64 n immr imms = Some value ->
  moves (foldl Z.lor (if is_64 then 0xB2000000 else 0x32000000)
    [Z.shiftl n 22; Z.shiftl immr 16; Z.shiftl imms 10; Z.shiftl 31 5; rd]) rd value.
Proof.
  intros Hr Hn Him His Hd. set (base := if is_64 then _ else _). set (fs := [RD; RN; (10, 6); (16, 6); (22, 1)]).
  assert (Hb : word 32 base /\ cleared fs base = base) by (destruct is_64; by vm_compute). destruct Hb as [Hb Hcl].
  set (l := [(22, 1, n); (16, 6, immr); (10, 6, imms); (5, 5, 31); (0, 5, rd)]).
  assert (Hl : Forall (piece_ok fs) l) by (unfold fs, l; pieces).
  change (foldl _ _ _) with (packed base l). split; [by eapply packed_word|]. split; [by apply (packed_at base fs l 0 5 rd); try done; piece_here|].
  assert (Hat : forall lo k v, (lo, k, v) ∈ l -> field (packed base l) lo k = v) by (intros; by apply (packed_at base fs l)).
  unfold moved_value. rewrite !(packed_other base fs l 23 6), !(packed_other base fs l 29 2), (packed_other base fs l 31 1) by done.
  rewrite (Hat 5 5 31), (Hat 22 1 n), (Hat 16 6 immr), (Hat 10 6 imms) by piece_here. by destruct is_64.
Qed.
End Moves.

Section Move.
Variable r : A64IsaRow.
Hypothesis Hrow : class_ok r = true.
Variable ops : list AsmOperand.
Hypothesis Hops : Forall opnd_ok ops.
Variable e : IsaEncoded.
Hypothesis Hencoded : encode_row r ops = Done e.
Hypothesis Hok : e_ok e = true.

Lemma moves_back w o imm : r_enc r = Enc_MovImmAlias -> o_kind o = K_Reg \/ o_kind o = K_Vec -> o_kind imm = K_Imm -> o_shift_hw imm = 0 ->
  moves w (o_reg o) (uwrap (if is_64_row r then 64 else 32) (o_imm imm)) -> reads_back r [o; imm] w.
Proof.
  intros Hc Ho Hk Hs (H0 & H1 & H2). split; [done|]. split; [|by rewrite Hc]. unfold reads. rewrite Hc, H1, H2. cbn [map default].
  rewrite meant_reg by done. unfold meant, immediate_width. rewrite Hk, Hs, bool_decide_true by done. rewrite Z.shiftl_0_r. by destruct (is_64_row r).
Qed.
Lemma low_word x : Z.land (u64 x) 0xFFFFFFFF = uwrap 32 x.
Proof.
  change 0xFFFFFFFF with (2 ^ 32 - 1). rewrite land_pow2_minus_1 by lia. unfold uwrap. rewrite Z.mod_mod_divide; [done|]. by exists (2 ^ 32).
Qed.
Lemma inverted_value (is_64 : bool) x : let width := if is_64 then 64 else 32 in let value := uwrap width x in
  let inverted := if is_64 then unot 64 value else Z.land (unot 64 value) 0xFFFFFFFF in
  word 64 inverted /\ uwrap width (Z.lnot inverted) = value.
Proof.
  intros width value inverted. assert (Hv : word width value) by (apply uwrap_word; unfold width; by destruct is_64).
  assert (Hi : inverted = 2 ^ width - 1 - value).
  { unfold inverted, width in *. destruct is_64; [by apply unot_eq|]. unfold unot. rewrite low_word. change (uwrap 32 (Z.lnot value)) with (unot 32 value).
    by apply unot_eq. }
  assert (Hw : word width inverted) by (rewrite Hi; destruct Hv; split; lia).
  split; [apply (word_mono width); [unfold width; by destruct is_64|done]|]. change (unot width inverted = value).
  rewrite unot_eq by (done || unfold width; by destruct is_64). lia.
Qed.
Lemma mov_back : r_enc r = Enc_MovImmAlias -> shaped ops [Slot_reg; Slot_plain_imm] -> reads_back r ops (e_word e).
Proof.
  intros Hc Hs. start_class Hc. unfold encode_mov_imm in Hencoded. cbn in Hencoded. destruct H0 as [Hk Hsh].
  set (width := if is_64_row r then 64 else 32). set (value := uwrap width (o_imm x1)).
  assert (Hvalue : (if is_64_row r then u64 (o_imm x1) else Z.land (u64 (o_imm x1)) 0xFFFFFFFF) = value).
  { unfold value, width. destruct (is_64_row r); [done|apply low_word]. }
  assert (Hv : word 64 value) by (apply (word_mono width); [unfold width; by destruct (is_64_row r)|apply uwrap_word; unfold width; by destruct (is_64_row r)]).
  rewrite Hvalue in Hencoded. clear Hvalue. destruct (find_half (if is_64_row r then 4 else 2) 0 value) as [s|] eqn:Hwide.
  { injection Hencoded as <-. apply moves_back; try done. eapply wide_move; [done|done| |done]. by destruct (is_64_row r). }
  set (inverted := if is_64_row r then unot 64 value else Z.land (unot 64 value) 0xFFFFFFFF) in *.
  assert (Hi : word 64 inverted /\ uwrap width (Z.lnot inverted) = value) by (by apply inverted_value).
  destruct Hi as [Hi Hinv]. destruct (find_half (if is_64_row r then 4 else 2) 0 inverted) as [s|] eqn:Hnot.
  { injection Hencoded as <-. apply moves_back; try done. fold width. fold value. rewrite <- Hinv. eapply inverted_move; [done|done| |done]. by destruct (is_64_row r). }
  destruct (logical_imm_fields (is_64_row r) value Hv) as (f & Hf & Hfields). rewrite Hf in Hencoded. cbn in Hencoded.
  destruct f as [[[n immr] imms]|]; [|injection Hencoded as <-; done]. destruct Hfields as (Hn & Hr & His & Hd). injection Hencoded as <-.
  apply moves_back; try done. fold width. fold value. apply (masked_move (is_64_row r) n immr imms value); try done. destruct (is_64_row r); split; lia.
Qed.
End Move.

(** ** Every row of the table *)

Lemma with_immediate_total r ops i least most message k o : ops !! i = Some o -> (forall v, exists e, k v = Done e) ->
  exists e, with_immediate r ops i least most message k = Done e.
Proof. intros Ho Hk. unfold with_immediate, opnd. rewrite Ho. cbn. destruct (_ || _); [by eexists|apply Hk]. Qed.
Lemma logical_imm_total value is_64 : word 64 value -> exists f, a64_logical_imm value is_64 = Done f.
Proof. intros Hv. destruct (logical_imm_fields is_64 value Hv) as (f & Hf & _). by exists f. Qed.
Lemma encode_mov_imm_total r o imm : exists e, encode_mov_imm r [o; imm] = Done e.
Proof.
  unfold encode_mov_imm. cbn [opnd lookup list_lookup mbind]. cbn -[find_half a64_logical_imm word_of fail unot uwrap].
  set (value := if is_64_row r then u64 (o_imm imm) else Z.land (u64 (o_imm imm)) 0xFFFFFFFF).
  destruct (find_half _ 0 value); [by eexists|]. destruct (find_half _ 0 _); [by eexists|].
  destruct (logical_imm_total value (is_64_row r)) as [f ->].
  { unfold value. destruct (is_64_row r); [by apply uwrap_word|]. rewrite low_word. apply (word_mono 32); [done|by apply uwrap_word]. }
  cbn -[fail]. destruct f as [[[n immr] imms]|]; by eexists.
Qed.

Section Rows.
Variable r : A64IsaRow.
Hypothesis Hrow : class_ok r = true.
Variable ops : list AsmOperand.
Hypothesis Hmatch : match_row r ops = true.

Lemma row_shape : pattern_arity r = length ops /\ exists shape, shape ∈ class_slots (r_enc r) /\ shaped ops shape.
Proof.
  unfold match_row in Hmatch. destruct (Nat.eqb_spec (pattern_arity r) (length ops)) as [Ha|]; [|done]. cbn [negb] in Hmatch.
  destruct (match_operands (r_pats r) ops) eqn:Hm; [|done]. split; [done|]. exists (row_slots r).
  pose proof Hrow as H. unfold class_ok in H. rewrite !andb_true_iff in H. destruct H as [[[_ Hin%bool_decide_eq_true] Hl] _]. split; [done|].
  apply Nat.eqb_eq in Hl. apply match_slots; [done|done|unfold row_slots in Hl; lia].
Qed.
Ltac every_class shape Hin :=
  destruct (r_enc r) eqn:Hc; cbn [class_slots] in Hin;
    repeat (apply elem_of_cons in Hin as [->|Hin]); try (by apply elem_of_nil in Hin).

(** Every matching row encodes or refuses. *)
Lemma row_total : exists e, encode_row r ops = Done e.
Proof.
  destruct row_shape as (_ & shape & Hin & Hs). every_class shape Hin; operands; unfold encode_row; rewrite Hc; cbn -[fail]; try by eexists.
  all: try (eapply with_immediate_total; [reflexivity|intros v; by eexists]).
  - apply encode_mov_imm_total.
  - destruct (logical_imm_total (u64 (o_imm x0)) (is_64_row r)) as [f ->]; [by apply uwrap_word|]. cbn -[fail]. destruct f as [[[n immr] imms]|]; by eexists.
  - unfold encode_ldst. cbn -[fail]. repeat case_match; by eexists.
  - unfold encode_pair. cbn -[fail]. repeat case_match; by eexists.
  - unfold encode_pair. cbn -[fail]. repeat case_match; by eexists.
Qed.

Lemma row_reads_back e : Forall opnd_ok ops -> encode_row r ops = Done e -> e_ok e = true -> reads_back r ops (e_word e).
Proof.
  intros Hops Henc Hok. destruct row_shape as (Ha & shape & Hin & Hs). every_class shape Hin;
    first [
      solve [eapply fixed_back; eauto 6] |
      solve [eapply symbol_back; eauto 6] |
      solve [eapply three_back; eauto 6] |
      solve [eapply two_back; eauto 6] |
      solve [eapply one_back; eauto 6] |
      solve [eapply four_back; eauto 6] |
      solve [eapply wide_back; eauto 6] |
      solve [eapply mov_back; eauto 6] |
      solve [eapply add_back; eauto 6] |
      solve [eapply low_back; eauto 6] |
      solve [eapply logical_back; eauto 6] |
      solve [eapply load_back; eauto 6] |
      solve [eapply pair_back; eauto 6] |
      solve [eapply address_back; eauto 6] |
      solve [eapply condition_back; eauto 6] |
      solve [eapply break_back; eauto 6] |
      solve [eapply compare_back; eauto 6] |
      solve [eapply compare_imm_back; eauto 6] |
      solve [eapply set_back; eauto 6] |
      solve [eapply select_back; eauto 6] |
      solve [eapply acquire_back; eauto 6] |
      solve [eapply exchange_back; eauto 6] |
      solve [eapply vector_back; eauto 6] |
      solve [eapply pair_back; eauto using offset_stepped]].
Qed.
End Rows.

(** ** Instructions *)

Definition rows_of (mnemonic : chars) : list A64IsaRow := filter (has_name r_mnemonic mnemonic) kRows.
(** A row that takes the operands and finds one out of range. *)
Definition refuses (ops : list AsmOperand) (r : A64IsaRow) : Prop :=
  match_row r ops = true -> exists e, encode_row r ops = Done e /\ e_ok e = false.
Lemma table_row r : r ∈ kRows -> class_ok r = true.
Proof. intros H%list_elem_of_In. pose proof table_ok as Ht. rewrite forallb_forall in Ht. by apply Ht. Qed.
Lemma try_rows_outcome ops rows : Forall opnd_ok ops -> Forall (fun r => class_ok r = true) rows -> forall failure,
  (forall e, failure = Some e -> e_ok e = false) -> exists result, try_rows rows ops failure = Done result /\
  ((exists e before r after, result = Some e /\ e_ok e = true /\ rows = before ++ r :: after /\ Forall (refuses ops) before /\
      match_row r ops = true /\ reads_back r ops (e_word e)) \/
   ((forall e, result = Some e -> e_ok e = false) /\ Forall (refuses ops) rows)).
Proof.
  intros Hops Hrows. induction Hrows as [|r rows Hr Hrows IH]; intros failure Hf; cbn [try_rows].
  { exists failure. split; [done|]. right. split; [done|apply Forall_nil]. }
  assert (Hlater : forall f, (forall e, f = Some e -> e_ok e = false) -> refuses ops r -> exists result, try_rows rows ops f = Done result /\
    ((exists e before q after, result = Some e /\ e_ok e = true /\ r :: rows = before ++ q :: after /\ Forall (refuses ops) before /\
        match_row q ops = true /\ reads_back q ops (e_word e)) \/
     ((forall e, result = Some e -> e_ok e = false) /\ Forall (refuses ops) (r :: rows)))).
  { intros f Hf' Hrefuse. destruct (IH f Hf') as (result & H & Hcase). exists result. split; [done|]. destruct Hcase as [Hcase|[H1 H2]].
    - left. destruct Hcase as (e & before & q & after & H1 & H2 & -> & H3 & H4). exists e, (r :: before), q, after.
      do 3 (split; [done|]). split; [by apply Forall_cons|done].
    - right. split; [done|by apply Forall_cons]. }
  destruct (match_row r ops) eqn:Hm; [|apply Hlater; [done|by intros H; rewrite Hm in H]].
  destruct (row_total r Hr ops Hm) as [e He]. rewrite He. cbn. destruct (e_ok e) eqn:Hok.
  - exists (Some e). split; [done|]. left. exists e, [], r, rows. split; [done|]. split; [done|]. split; [done|]. split; [apply Forall_nil|].
    split; [done|by apply row_reads_back].
  - apply Hlater; [by intros ? [= <-]|]. intros _. by exists e.
Qed.

(** Claim C6: every instruction line gets an answer from the AArch64 encoder, without an
    access out of bounds: either the first row of the table with the mnemonic that takes
    the operands and has room for them, and then a word of 32 bits in which the
    architecture's fields read back as each operand, and whose other bits are the row's; or
    a diagnostic, and then every row of the mnemonic refuses the operands. *)
Theorem a64_instruction_reads_back mnemonic ops : Forall opnd_ok ops -> exists e, a64_match_and_encode mnemonic ops = Done e /\
  if e_ok e then
    exists before r after, rows_of mnemonic = before ++ r :: after /\ Forall (refuses ops) before /\ match_row r ops = true /\
      reads_back r ops (e_word e)
  else Forall (refuses ops) (rows_of mnemonic).
Proof.
  intros Hops. unfold a64_match_and_encode, mnemonic_index. rewrite named_sorted_table. fold (rows_of mnemonic).
  assert (Hrows : Forall (fun r => class_ok r = true) (rows_of mnemonic)).
  { apply list.Forall_forall. intros r [_ H]%list_elem_of_filter. by apply table_row. }
  generalize dependent (rows_of mnemonic). intros rows Hrows. unfold mbind, outcome_bind.
  case_bool_decide as H0; [eexists; split; [done|]; rewrite H0; apply Forall_nil|].
  destruct (try_rows_outcome ops rows Hops Hrows None) as (result & Hr & Hcase); [done|]. rewrite Hr.
  eexists. split; [done|]. destruct Hcase as [(e & before & r & after & -> & -> & Hsplit & H1 & H2 & H3)|[H1 H2]].
  - by exists before, r, after.
  - destruct result as [e|]; [by rewrite (H1 e)|done].
Qed.
Definition sample_operands : list AsmOperand :=
  [mkOpnd K_Reg 3 "x" false false 0 0 0 no_sym 0 Plain 0 BaseOnly 0 false false;
   mkOpnd K_Mem 0 no_class false false 0 (-24) 0 no_sym 0 Plain 0 Offset 29 false false].
Lemma a64_instruction_reads_back_witness : Forall opnd_ok sample_operands /\ exists e, a64_match_and_encode (str "ldr") sample_operands = Done e /\
  if e_ok e then
    exists before r after, rows_of (str "ldr") = before ++ r :: after /\ Forall (refuses sample_operands) before /\
      match_row r sample_operands = true /\ reads_back r sample_operands (e_word e)
  else Forall (refuses sample_operands) (rows_of (str "ldr")).
Proof.
  assert (H : Forall opnd_ok sample_operands) by (repeat constructor; done). split; [exact H|].
  apply (a64_instruction_reads_back (str "ldr") sample_operands H).
Defined.
Example load_sample : match a64_match_and_encode (str "ldr") sample_operands with Done e => e_ok e && (e_word e =? 0xF85E83A3) | _ => false end = true.
Proof. vm_compute. reflexivity. Qed.

(** ** Register 31 *)

(** Where the architecture reads the register 31 of a row's operands as the stack
    pointer: the immediate forms of addition and subtraction, the extended-register
    forms, a conjunction with a bitmask, and a bitmask moved through ORR. *)
Definition reads_sp (r : A64IsaRow) : list (list bool) :=
  match r_enc r with
  | Enc_AddSubImm | Enc_MovSpAlias | Enc_AddSymLo12 => [[true; true; false]]
  | Enc_CmpImm => [[true; false]]
  | Enc_LogicalImm => [[true; false; false]]
  | Enc_MovImmAlias => [[false; false]; [true; false]]
  | Enc_RdRnRm => if Z.land (r_base r) 0x3FE00000 =? 0x0B200000 then [[true; true; false]] else [[false; false; false]]
  | _ => [[]]
  end.
Definition takes_sp (p : OpndPat) : bool := bool_decide (p ∈ [Pat_GprWsp; Pat_GprXsp]).
Definition takes_zr (p : OpndPat) : bool := bool_decide (p ∈ [Pat_GprW; Pat_GprX]).
(** A row that takes the zero register where the stack pointer is read, or the other way
    round. *)
Definition confuses (r : A64IsaRow) : bool :=
  existsb (fun sp => existsb (fun '(i, p) => let s := nth i sp false in (takes_zr p && s) || (takes_sp p && negb s))
    (imap (fun i p => (i, p)) (r_pats r))) (reads_sp r).
Definition zero_register (c : ascii) : AsmOperand := mkOpnd K_Reg 31 c false true 0 0 0 no_sym 0 Plain 0 BaseOnly 0 false false.
Definition immediate (n : Z) : AsmOperand := mkOpnd K_Imm 0 no_class false false 0 n 0 no_sym 0 Plain 0 BaseOnly 0 false false.
Definition encoded_as (mnemonic : String.string) (ops : list AsmOperand) (word : Z) : bool :=
  match a64_match_and_encode (str mnemonic) ops with Done e => e_ok e && (e_word e =? word) | _ => false end.

