(* ===== verification/AsmOperands.v ===== *)
(** * What the instruction parsers share

    The parser of an instruction set reads an operand, or reports and reads nothing. With
    [gives good m n p s], from the state [s] the parse [m] stays within bounds and ends,
    keeps the invariant with the credits [n] and [p], and what it gives is [good]. *)
From stdpp Require Import list gmap strings.
From S2P Require Import Prelude Vectors Outcome AsmLexer AsmExpr Mir AsmUnit Assembler AsmSafe AsmDirectives AsmStatements.
Open Scope Z_scope.

(** What a reference to a token that was peeked sees: the first slot of the buffer as it
    is now. When no token is buffered the slot holds one taken earlier, which the lexer's
    model does not keep. *)
Class EmptySlot := empty_slot : Parsing Asm -> Token.
Definition first_slot `{!EmptySlot} : Statement Token :=
  s ← get; mret (match buffer (fst s) with t :: _ => t | [] => empty_slot s end).
Definition wrong {A} (t : Token) (message : chars) : Statement (option A) := _ ← asking (error t message); mret None.
(** The rest of a parse, of what was parsed. *)
Definition parsed_then {A B} (m : Statement (option A)) (k : A -> Statement (option B)) : Statement (option B) :=
  r ← m; match r with Some a => k a | None => mret None end.

(** The value of a name in a table of names. *)
Definition spelled {A} (name : chars) (table : list (chars * A)) : option A :=
  (fun e => snd (snd e)) <$> list_find (fun e => fst e = name) table.
(** What may follow the operands of an instruction. *)
Definition operands_end : Statement unit :=
  tail ← lexing peek;
  if is_kind Tok_Newline tail then _ ← lexing take_token; mret tt
  else if negb (is_kind Tok_End tail) then reject tail (str "unexpected token after the operands") tt
  else mret tt.

(** ** Parses within bounds *)

Section Gives.
Variables limit least : nat.
Hypothesis Hlimit : Z.of_nat limit < no_sym.
Abbreviation W := (AsmStatements.W limit least).
Abbreviation leaves := (AsmStatements.leaves limit least).
Abbreviation after := (AsmStatements.after limit least).
Abbreviation asm_ok := (AsmSafe.asm_ok limit least).
Abbreviation steady := (AsmExpr.steady asm_ok known weight).

Definition gives {A} (good : Asm -> A -> Prop) (m : Statement (option A)) (n p : nat) (s : Parsing Asm) : Prop :=
  run m s (fun r s' => after n p s s' /\ forall a, r = Some a -> good (snd s') a).

Section Steps.
Context {A : Type} (good : Asm -> A -> Prop).

Lemma gives_mono m n' p' n p s0 s : gives good m n' p' s -> grows known (snd s0) (snd s) -> (n' <= n)%nat -> (p' <= p)%nat ->
  (n <= limit)%nat -> run m s (fun r s' => after n p s0 s' /\ forall a, r = Some a -> good (snd s') a).
Proof.
  intros H Hg Hn Hp Hl. eapply run_mono; [exact H|]. intros r s' [Ha Hgood]. split; [|done]. by eapply (after_mono limit least).
Qed.
Lemma gives_same m n p s s' : gives good m n p s' -> snd s' = snd s -> run m s' (fun r t => after n p s t /\ forall a, r = Some a -> good (snd t) a).
Proof. intros H E. eapply run_mono; [exact H|]. intros r t [[H1 H2] H3]. split; [split; [done|by rewrite <- E]|done]. Qed.
Lemma gives_weaken m n' p' n p s : gives good m n' p' s -> (n' <= n)%nat -> (p' <= p)%nat -> (n <= limit)%nat -> gives good m n p s.
Proof. intros H Hn Hp Hl. by eapply gives_mono; [|apply names_refl|..]. Qed.
Lemma gives_ret a n p s : W n p s -> good (snd s) a -> gives good (mret (Some a)) n p s.
Proof. intros Hs Ha. apply run_ret. split; [by apply (after_refl limit least)|]. by intros ? [= <-]. Qed.
Lemma gives_none n p s : W n p s -> gives good (mret None) n p s.
Proof. intros Hs. apply run_ret. split; [by apply (after_refl limit least)|done]. Qed.
Lemma gives_wrong t m n p s : W n p s -> gives good (wrong t m) n p s.
Proof.
  intros Hs. apply run_bind, (W_steady limit least _ n p); [done|apply (run_error limit least); [by eapply (W_ok limit least)|done]|]. intros _ s' H Hg _.
  apply run_ret. split; [by split|done].
Qed.
Lemma gives_peek k n p s : W n p s ->
  (forall t s', W n p s' -> snd s' = snd s -> head (buffer (fst s')) = Some t -> gives good (k t) n p s') ->
  gives good (t ← lexing peek; k t) n p s.
Proof. intros Hs Hk. apply run_bind, (W_peek limit least n p); [done|]. intros t s' H E Hh. apply gives_same; [by apply Hk|done]. Qed.
Lemma gives_peek_second t1 k n p s : W n p s -> head (buffer (fst s)) = Some t1 ->
  (forall t s', W n p s' -> snd s' = snd s -> head (buffer (fst s')) = Some t1 -> buffer (fst s') !! 1%nat = Some t -> gives good (k t) n p s') ->
  gives good (t ← lexing peek_second; k t) n p s.
Proof. intros Hs H1 Hk. apply run_bind, (W_peek_second limit least n p t1); [done|done|]. intros t s' H E Hh Hl. apply gives_same; [by apply Hk|done]. Qed.
Lemma gives_take t k n p s : W n p s -> head (buffer (fst s)) = Some t -> not_end t ->
  (forall s', W (pred n) (pred p) s' -> snd s' = snd s -> buffer (fst s') = tail (buffer (fst s)) -> (0 < n)%nat -> (0 < p)%nat ->
    gives good (k t) n p s') ->
  gives good (t ← lexing take_token; k t) n p s.
Proof. intros Hs Hh Ht Hk. apply run_bind, (W_take limit least n p t); [done..|]. intros s' H E Hb Hn Hp. apply gives_same; [by apply Hk|done]. Qed.
(** A token that nothing is known about. *)
Lemma gives_take_any k n p s : W n p s -> (forall t s', W n p s' -> snd s' = snd s -> gives good (k t) n p s') ->
  gives good (t ← lexing take_token; k t) n p s.
Proof. intros Hs Hk. apply run_bind, (W_take_any limit least n p); [done|]. intros t s' H E _ _. apply gives_same; [by apply Hk|done]. Qed.
Lemma gives_slot `{!EmptySlot} k n p s : W n p s -> (forall t, gives good (k t) n p s) -> gives good (t ← first_slot; k t) n p s.
Proof. intros Hs Hk. apply run_bind, run_bind, run_get, run_ret, Hk. Qed.
Lemma gives_expression k n p s : W n p s ->
  (forall v s', W n p s' -> value_known known (snd s') v -> gives good (k v) n p s') -> gives good (v ← parse_expression; k v) n p s.
Proof.
  intros Hs Hk. apply run_bind, (W_expression limit least Hlimit n p); [done|]. intros v s' [H Hg] Hv _.
  by apply (gives_mono _ n p); [apply Hk| |lia|lia|eapply (W_limit limit least)].
Qed.
Lemma gives_after m n p s s' : gives good m n p s' -> after n p s s' -> run m s' (fun r t => after n p s t /\ forall a, r = Some a -> good (snd t) a).
Proof. intros H [Hw Hg]. eapply gives_mono; [done|done|lia|lia|by eapply (W_limit limit least)]. Qed.
(** The symbol of a name that was taken. *)
Lemma gives_symbol name k n p s : W (pred n) (pred p) s -> (0 < n)%nat -> (n <= limit)%nat ->
  (forall id s', W n p s' -> known (snd s') id -> gives good (k id) n p s') -> gives good (id ← asking (expr_symbol_ name); k id) n p s.
Proof.
  intros Hs Hn Hl Hk. apply run_bind. apply (W_paid limit least _ (fun id a' => known a' id) (pred n) (pred p)); [done|lia| |].
  - intros Ha Hw. eapply run_mono; [by apply (expr_symbol_safe limit least)|]. by intros id a' (A1 & A2 & A3 & A4).
  - intros id s' H Hg _ Hid. assert (Hw : W n p s') by (eapply (W_mono limit least); [exact H|lia..]). apply gives_after; [by apply Hk|by split].
Qed.
Lemma gives_local number back l c k n p s : W (pred n) (pred p) s -> (0 < n)%nat -> (n <= limit)%nat ->
  (forall id s', W n p s' -> (is_sym id -> known (snd s') id) -> gives good (k id) n p s') ->
  gives good (id ← asking (expr_local_ref_ number back l c); k id) n p s.
Proof.
  intros Hs Hn Hl Hk. apply run_bind. apply (W_paid limit least _ (fun id a' => is_sym id -> known a' id) (pred n) (pred p)); [done|lia| |].
  - intros Ha Hw. eapply run_mono; [by apply (expr_local_ref_safe limit least)|]. by intros id a' (A1 & A2 & A3 & A4).
  - intros id s' H Hg _ Hid. assert (Hw : W n p s') by (eapply (W_mono limit least); [exact H|lia..]). apply gives_after; [by apply Hk|by split].
Qed.
End Steps.
Lemma gives_then {A B} (g : Asm -> A -> Prop) (h : Asm -> B -> Prop) m k n p s : gives g m n p s ->
  (forall a s', W n p s' -> grows known (snd s) (snd s') -> g (snd s') a -> gives h (k a) n p s') -> gives h (parsed_then m k) n p s.
Proof.
  intros Hm Hk. apply run_bind. eapply run_mono; [exact Hm|]. intros [a|] s' [Ha Hg]; [|apply run_ret; by split].
  destruct Ha as [Hw Hgr]. apply gives_after; [apply Hk; auto|by split].
Qed.
Lemma operands_end_leaves n p s : W n p s -> leaves operands_end n p s.
Proof.
  intros Hs. apply run_bind, (W_peek limit least n p); [done|]. intros t s1 H1 E1 Hh1. destruct (is_kind _ _).
  - apply run_bind, (W_take_any limit least n p); [done|]. intros t2 s2 H2 _ _ _. by apply run_ret.
  - destruct (negb _); [by apply leaves_reject|by apply run_ret].
Qed.
End Gives.
