(* ===== verification/AsmA64.v ===== *)
(** * The AArch64 instruction parser (src/assembler/aarch64/asm_aarch64.cpp)

    An instruction is a mnemonic, which may carry a condition, and operands separated by
    commas. A parse of an operand gives it, or reports and gives nothing. *)
From stdpp Require Import list strings.
From S2P Require Import Prelude Vectors Outcome AsmLexer AsmExpr Mir AsmUnit Assembler AsmDirectives AsmOperands A64Isa.
Open Scope Z_scope.

(** ** Names *)

Definition cond_spellings : list (chars * Z) :=
  [(str "eq", 0x0); (str "ne", 0x1); (str "cs", 0x2); (str "hs", 0x2); (str "cc", 0x3); (str "lo", 0x3); (str "mi", 0x4);
   (str "pl", 0x5); (str "vs", 0x6); (str "vc", 0x7); (str "hi", 0x8); (str "ls", 0x9); (str "ge", 0xA); (str "lt", 0xB);
   (str "gt", 0xC); (str "le", 0xD); (str "al", 0xE)].
Definition parse_cond_name (name : chars) : option Z := spelled name cond_spellings.

(** [text.find('.')], as what is before and after the point. *)
Fixpoint at_point (s : chars) : option (chars * chars) :=
  match s with
  | [] => None
  | c :: s => if ceqb c "." then Some ([], s) else match at_point s with Some (a, b) => Some (c :: a, b) | None => None end
  end.
Definition parse_reg_number (digits : chars) (most : Z) : option Z :=
  if bool_decide (digits = []) || (2 <? size digits) then None
  else if negb (forallb is_digit digits) then None
  else
    let value := fold_left (fun value c => value * 10 + decimal_digit c) digits 0 in
    if (size digits =? 2) && has_prefix (str "0") digits then None
    else if most <? value then None
    else Some value.

Definition register_operand (number : Z) (reg_class : ascii) (is_sp is_zr : bool) : AsmOperand :=
  mkOpnd K_Reg number reg_class is_sp is_zr 0 0 0 no_sym 0 Plain 0 BaseOnly 0 false false.
Definition vector_operand (number lanes : Z) : AsmOperand :=
  mkOpnd K_Vec number "v" false false lanes 0 0 no_sym 0 Plain 0 BaseOnly 0 false false.
(** An identifier has a first character (see [identifier_has_text]). *)
Definition parse_register (name : chars) : option AsmOperand :=
  if bool_decide (name = str "sp") || bool_decide (name = str "wsp") then
    Some (register_operand 31 (if has_prefix (str "w") name then "w" else "x") true false)
  else if bool_decide (name = str "xzr") then Some (register_operand 31 "x" false true)
  else if bool_decide (name = str "wzr") then Some (register_operand 31 "w" false true)
  else
    match name with
    | [] => None
    | kind :: digits =>
        if ceqb kind "v" && negb (bool_decide (digits = [])) then
          match at_point digits with
          | None => None
          | Some (digits, lanes) =>
              match parse_reg_number digits 31 with
              | None => None
              | Some number =>
                  if bool_decide (lanes = str "8b") then Some (vector_operand number 8)
                  else if bool_decide (lanes = str "16b") then Some (vector_operand number 16)
                  else None
              end
          end
        else if negb (bool_decide (kind ∈ str "xwsdqb")) then None
        else
          match parse_reg_number digits (if ceqb kind "x" || ceqb kind "w" then 30 else 31) with
          | None => None
          | Some number => Some (register_operand number kind false false)
          end
    end.

(** ** Operands *)

Section Operands.
Context {slot : EmptySlot}.

Definition with_imm (n : Z) (o : AsmOperand) : AsmOperand :=
  mkOpnd (o_kind o) (o_reg o) (o_class o) (o_is_sp o) (o_is_zr o) (o_lanes o) n (o_shift_hw o) (o_sym o) (o_addend o) (o_flavor o)
    (o_cond o) (o_mode o) (o_base o) (o_base_is_sp o) (o_offset_is_sym o).
Definition with_shift (hw : Z) (o : AsmOperand) : AsmOperand :=
  mkOpnd (o_kind o) (o_reg o) (o_class o) (o_is_sp o) (o_is_zr o) (o_lanes o) (o_imm o) hw (o_sym o) (o_addend o) (o_flavor o)
    (o_cond o) (o_mode o) (o_base o) (o_base_is_sp o) (o_offset_is_sym o).
Definition with_mode (m : MemMode) (o : AsmOperand) : AsmOperand :=
  mkOpnd (o_kind o) (o_reg o) (o_class o) (o_is_sp o) (o_is_zr o) (o_lanes o) (o_imm o) (o_shift_hw o) (o_sym o) (o_addend o)
    (o_flavor o) (o_cond o) m (o_base o) (o_base_is_sp o) (o_offset_is_sym o).
Definition symbol_operand (id : SymId) (addend : Z) (f : SymFlavor) : AsmOperand :=
  mkOpnd K_Sym 0 no_class false false 0 0 0 id addend f 0 BaseOnly 0 false false.
Definition condition_operand (bits : Z) : AsmOperand :=
  mkOpnd K_Cond 0 no_class false false 0 0 0 no_sym 0 Plain bits BaseOnly 0 false false.
Definition barrier_operand : AsmOperand :=
  mkOpnd K_Barrier 0 no_class false false 0 0 0 no_sym 0 Plain 0 BaseOnly 0 false false.
Definition memory_operand (base : AsmOperand) : AsmOperand :=
  mkOpnd K_Mem 0 no_class false false 0 0 0 no_sym 0 Plain 0 BaseOnly (o_reg base) (o_is_sp base) false.
Definition symbol_offset (s o : AsmOperand) : AsmOperand :=
  mkOpnd (o_kind o) (o_reg o) (o_class o) (o_is_sp o) (o_is_zr o) (o_lanes o) (o_imm o) (o_shift_hw o) (o_sym s) (o_addend s)
    (o_flavor s) (o_cond o) Offset (o_base o) (o_base_is_sp o) true.

(** An expression that must be absolute; the report is where the reference [at] sees. *)
Definition absolute_value (message : chars) : Statement (option Z) :=
  value ← parse_expression;
  if negb (ok value) then mret None
  else if negb (is_absolute value) then at_token ← first_slot; wrong at_token message
  else mret (Some (constant value)).

Definition parse_shift (operand : AsmOperand) : Statement (option AsmOperand) :=
  comma ← lexing peek;
  shift ← lexing peek_second;
  if is_punct "," comma && is_kind Tok_Ident shift && is_text shift (str "lsl") then
    _ ← lexing take_token;
    _ ← lexing take_token;
    hash ← lexing peek;
    if negb (is_punct "#" hash) then wrong hash (str "expected '#' after 'lsl'")
    else
      _ ← lexing take_token;
      amount ← parse_expression;
      if negb (ok amount) then mret None
      else if negb (is_absolute amount) || negb (bool_decide (constant amount ∈ [16; 32; 48])) then
        hash ← first_slot; wrong hash (str "unsupported shift amount")
      else mret (Some (with_shift (u8 (Z.quot (constant amount) 16)) operand))
  else mret (Some operand).
Definition parse_immediate : Statement (option AsmOperand) :=
  _ ← lexing take_token;
  _ ← lexing peek;
  parsed_then (absolute_value (str "instruction immediates must be absolute")) (fun n => parse_shift (with_imm n default_opnd)).

Definition relocation_names : list (chars * SymFlavor) := [(str "lo12", PageOff); (str "got", GotPage); (str "got_lo12", GotPageOff)].
Definition relocation_suffixes : list (chars * SymFlavor) :=
  [(str "PAGE", Page); (str "PAGEOFF", PageOff); (str "GOTPAGE", GotPage); (str "GOTPAGEOFF", GotPageOff); (str "TLVPPAGE", TlvPage);
   (str "TLVPPAGEOFF", TlvPageOff)].
(** [:name:symbol] *)
Definition parse_relocation : Statement (option AsmOperand) :=
  _ ← lexing take_token;
  name ← lexing peek;
  if negb (is_kind Tok_Ident name) then wrong name (str "expected a relocation name after ':'")
  else
    kind ← lexing take_token;
    close ← lexing peek;
    if negb (is_punct ":" close) then wrong close (str "expected ':' after the relocation name")
    else
      _ ← lexing take_token;
      match spelled (text kind) relocation_names with
      | None => wrong kind (str "unknown relocation ':" ++ text kind ++ str ":'")
      | Some flavor =>
          target ← lexing peek;
          if negb (is_kind Tok_Ident target) && negb (is_kind Tok_String target) then
            wrong target (str "expected a symbol after the relocation")
          else
            name_token ← lexing take_token;
            id ← asking (expr_symbol_ (text name_token));
            mret (Some (symbol_operand id 0 flavor))
      end.
(** [+ n] or [- n] after a symbol *)
Definition parse_addend : Statement Z :=
  sign ← lexing peek;
  if is_punct "+" sign || is_punct "-" sign then
    let negative := is_punct "-" sign in
    magnitude ← lexing peek_second;
    if is_kind Tok_Integer magnitude then
      _ ← lexing take_token;
      value ← lexing take_token;
      if negative then checked (- tok_value value) else mret (tok_value value)
    else mret 0
  else mret 0.
Definition parse_suffix (id : SymId) (addend : Z) : Statement (option AsmOperand) :=
  at_sign ← lexing peek;
  if is_punct "@" at_sign then
    _ ← lexing take_token;
    suffix ← lexing peek;
    if negb (is_kind Tok_Ident suffix) then wrong suffix (str "expected a relocation suffix")
    else
      suffix_token ← lexing take_token;
      match spelled (text suffix_token) relocation_suffixes with
      | None => wrong suffix_token (str "unknown relocation suffix '@" ++ text suffix_token ++ str "'")
      | Some flavor => mret (Some (symbol_operand id addend flavor))
      end
  else mret (Some (symbol_operand id addend Plain)).
Definition parse_symbol_operand : Statement (option AsmOperand) :=
  first ← lexing peek;
  if is_punct ":" first then parse_relocation
  else if is_kind Tok_LocalRef first then
    ref ← lexing take_token;
    id ← asking (expr_local_ref_ (u32 (tok_value ref)) (backward ref) (tok_line ref) (tok_col ref));
    mret (if id =? no_sym then None else Some (symbol_operand id 0 Plain))
  else if negb (is_kind Tok_Ident first) && negb (is_kind Tok_String first) then wrong first (str "expected an operand")
  else
    name ← lexing take_token;
    id ← asking (expr_symbol_ (text name));
    addend ← parse_addend;
    parse_suffix id addend.

(** [\[base\]], [\[base, offset\]], [\[base, offset\]!] and [\[base\], offset] *)
Definition is_base (o : AsmOperand) : bool := is_kind_of K_Reg o && ceqb (o_class o) "x" && negb (o_is_zr o).
Definition parse_offset (operand : AsmOperand) : Statement (option AsmOperand) :=
  after_base ← lexing peek;
  if is_punct "," after_base then
    _ ← lexing take_token;
    offset ← lexing peek;
    if is_punct "#" offset then
      _ ← lexing take_token;
      parsed_then (absolute_value (str "memory offsets must be absolute")) (fun n =>
        mret (Some (with_mode Offset (with_imm n operand))))
    else parsed_then parse_symbol_operand (fun s => mret (Some (symbol_offset s operand)))
  else mret (Some operand).
Definition parse_index (operand : AsmOperand) : Statement (option AsmOperand) :=
  suffix ← lexing peek;
  if is_punct "!" suffix then _ ← lexing take_token; mret (Some (with_mode Pre operand))
  else
    post_comma ← lexing peek;
    post_hash ← lexing peek_second;
    if is_punct "," post_comma && is_punct "#" post_hash then
      _ ← lexing take_token;
      _ ← lexing take_token;
      parsed_then (absolute_value (str "post-index offsets must be absolute")) (fun n =>
        mret (Some (with_mode Post (with_imm n operand))))
    else mret (Some operand).
Definition parse_memory : Statement (option AsmOperand) :=
  _ ← lexing take_token;
  base_token ← lexing peek;
  match (if is_kind Tok_Ident base_token then parse_register (text base_token) else None) with
  | Some base =>
      if negb (is_base base) then wrong base_token (str "expected an x-register base")
      else
        _ ← lexing take_token;
        parsed_then (parse_offset (memory_operand base)) (fun operand =>
          close ← lexing peek;
          if negb (is_punct "]" close) then wrong close (str "expected ']'")
          else _ ← lexing take_token; parse_index operand)
  | None => wrong base_token (str "expected an x-register base")
  end.

Definition parse_operand (barrier_mnemonic : bool) : Statement (option AsmOperand) :=
  t ← lexing peek;
  if is_punct "#" t then parse_immediate
  else if is_punct "[" t then parse_memory
  else if is_kind Tok_Ident t then
    if barrier_mnemonic then
      option ← lexing take_token;
      if negb (is_text option (str "ish")) then wrong option (str "unsupported barrier option " ++ quoted (text option))
      else mret (Some barrier_operand)
    else
      match parse_register (text t) with
      | Some r => _ ← lexing take_token; mret (Some r)
      | None =>
          match parse_cond_name (text t) with
          | Some bits => _ ← lexing take_token; mret (Some (condition_operand bits))
          | None => parse_symbol_operand
          end
      end
  else parse_symbol_operand.

(** ** Instructions *)

(** The operands, each followed by a comma or not; a round takes a comma. *)
Fixpoint parse_operands (fuel : nat) (barrier_mnemonic : bool) (operands : list AsmOperand) : Statement (option (list AsmOperand)) :=
  match fuel with
  | O => out_of_fuel
  | S fuel =>
      parsed_then (parse_operand barrier_mnemonic) (fun operand =>
        more ← take_comma;
        if (more : bool) then parse_operands fuel barrier_mnemonic (operands ++ [operand]) else mret (Some (operands ++ [operand])))
  end.
Definition fixup_kind (f : IsaFixup) : FixupKind :=
  match f with Fix_None | Fix_Branch26 => Branch26 | Fix_Branch19 => Branch19 | Fix_Page21 => Page21 | Fix_PageOff12 => PageOff12 end.
Definition emit (e : IsaEncoded) (at_token : Token) : M Asm unit :=
  if bool_decide (e_fixup e = Fix_None) then append_inst_word (e_word e) at_token
  else append_inst_fixup (e_word e) (fixup_kind (e_fixup e)) (e_sym e) (e_addend e) (e_flavor e) (e_access e) at_token.
(** The mnemonic and the operands that its condition gives. *)
Definition split_mnemonic (mnemonic : chars) : option (chars * list AsmOperand) :=
  match at_point mnemonic with
  | None => Some (mnemonic, [])
  | Some (mnemonic, suffix) =>
      match parse_cond_name suffix with Some bits => Some (mnemonic, [condition_operand bits]) | None => None end
  end.
Definition parse_aarch64 (mnemonic_token : Token) : Statement unit :=
  match split_mnemonic (text mnemonic_token) with
  | None => reject mnemonic_token (str "unknown condition suffix on " ++ quoted (text mnemonic_token)) tt
  | Some (mnemonic, operands) =>
      let barrier_mnemonic := bool_decide (mnemonic ∈ [str "dmb"; str "dsb"; str "isb"]) in
      first ← lexing peek;
      s ← get;
      parsed ← (if ends_statement first then mret (Some operands) else parse_operands (tokens_left s) barrier_mnemonic operands);
      match parsed with
      | None => skip
      | Some operands =>
          e ← lift (a64_match_and_encode mnemonic operands);
          if negb (e_ok e) then reject mnemonic_token (e_error e) tt
          else _ ← asking (emit e mnemonic_token); operands_end
      end
  end.
End Operands.

(** The lexer gives identifiers at least one character. *)
Lemma identifier_has_text c : is_ident_start (current c) = true -> text (fst (scan_ident c)) <> [].
Proof.
  intros H. unfold scan_ident, pass. destruct c as [[|x l] line col]; [done|]. cbn in *.
  assert (Hx : is_ident_char x = true) by (unfold is_ident_char; by rewrite H). rewrite Hx. by destruct (pass_go _ _ _).
Qed.
