(* ===== verification/AsmA64Safe.v ===== *)
(** * The AArch64 instruction parser stays within bounds

    Every parse of an operand keeps the invariant of the assembler and names symbols it
    knows; so does what the encoder makes of the operands. *)
From stdpp Require Import list sets gmap strings.
From S2P Require Import Prelude Vectors Outcome AsmLexer AsmExpr Mir AsmUnit Assembler AsmSafe AsmDirectives AsmStatements AsmOperands SortedTable A64Isa A64Bitmask A64IsaProps AsmA64.
Open Scope Z_scope.

(** ** What the encoder names *)

Definition names_symbol (o : AsmOperand) : Prop := o_kind o = K_Sym \/ o_offset_is_sym o = true.
Definition named_by (ops : list AsmOperand) (e : IsaEncoded) : Prop :=
  e_fixup e <> Fix_None -> exists o, o ∈ ops /\ e_sym e = o_sym o /\ names_symbol o.

#[local] Arguments with_immediate : simpl never.
#[local] Arguments encode_ldst : simpl never.
#[local] Arguments encode_pair : simpl never.
#[local] Arguments encode_mov_imm : simpl never.
#[local] Arguments a64_logical_imm : simpl never.
#[local] Arguments fail : simpl never.

Lemma refused_named ops m : named_by ops (not_encoded m).
Proof. intros H. by destruct H. Qed.
Lemma fail_named r ops m e : fail r m = Done e -> named_by ops e.
Proof. intros [= <-] H. by destruct H. Qed.
Lemma word_named ops w e : word_of w = Done e -> named_by ops e.
Proof. intros [= <-] H. by destruct H. Qed.
Lemma with_immediate_named r ops i least most m k e : (forall v e, k v = Done e -> named_by ops e) ->
  with_immediate r ops i least most m k = Done e -> named_by ops e.
Proof.
  intros Hk. unfold with_immediate. destruct (opnd ops i); [|done..]. cbn. destruct (_ || _); [apply fail_named|apply Hk].
Qed.
Lemma mov_named r o imm e : encode_mov_imm r [o; imm] = Done e -> named_by [o; imm] e.
Proof.
  unfold encode_mov_imm. cbn -[find_half uwrap unot]. destruct (find_half _ 0 _); [apply word_named|].
  destruct (find_half _ 0 _); [apply word_named|]. destruct (a64_logical_imm _ _) as [f| | |]; [|done..]. cbn.
  destruct f as [[[n immr] imms]|]; [apply word_named|apply fail_named].
Qed.
Ltac symbol_of o := intros [= <-] _; exists o; split; [set_solver|]; split; [done|by left].
Lemma row_named r ops e : class_ok r = true -> match_row r ops = true -> encode_row r ops = Done e -> named_by ops e.
Proof.
  intros Hrow Hm He. destruct (row_shape r Hrow ops Hm) as (_ & shape & Hin & Hs). revert He. unfold encode_row.
  destruct (r_enc r) eqn:Hc; cbn [class_slots] in Hin; repeat (apply elem_of_cons in Hin as [->|Hin]); try (by apply elem_of_nil in Hin);
    operands; cbn; try (apply word_named).
  all: try (apply with_immediate_named; intros v e' ; apply word_named).
  all: try match goal with H : o_kind ?o = K_Sym |- _ => symbol_of o end.
  - apply mov_named.
  - destruct (a64_logical_imm _ _) as [f| | |]; [|done..]. cbn. destruct f as [[[n immr] imms]|]; [apply word_named|apply fail_named].
  - unfold encode_ldst. cbn. destruct (o_offset_is_sym x1) eqn:Hs; [|repeat case_match; apply word_named || apply fail_named].
    intros [= <-] _. exists x1. split; [set_solver|]. split; [done|by right].
  - unfold encode_pair. cbn. destruct (_ || _); [apply fail_named|apply word_named].
  - unfold encode_pair. cbn. destruct (_ || _); [apply fail_named|apply word_named].
Qed.
Lemma try_rows_named ops rows : Forall (fun r => class_ok r = true) rows -> forall failure, (forall e, failure = Some e -> named_by ops e) ->
  exists result, try_rows rows ops failure = Done result /\ forall e, result = Some e -> named_by ops e.
Proof.
  induction 1 as [|r rows Hr Hrows IH]; intros failure Hf; cbn [try_rows]; [by exists failure|].
  destruct (match_row r ops) eqn:Hm; [|by apply IH]. destruct (row_total r Hr ops Hm) as [e He]. rewrite He. cbn.
  assert (He' : forall e', Some e = Some e' -> named_by ops e') by (intros e' [= <-]; by eapply row_named).
  destruct (e_ok e); [by exists (Some e)|by apply IH].
Qed.
Lemma encoder_named mnemonic ops : exists e, a64_match_and_encode mnemonic ops = Done e /\ named_by ops e.
Proof.
  unfold a64_match_and_encode, mnemonic_index. rewrite named_sorted_table. fold (rows_of mnemonic).
  assert (Hrows : Forall (fun r => class_ok r = true) (rows_of mnemonic)).
  { apply list.Forall_forall. intros r [_ H]%list_elem_of_filter. by apply table_row. }
  generalize dependent (rows_of mnemonic). intros rows Hrows. unfold mbind, outcome_bind.
  case_bool_decide; [eexists; split; [done|apply refused_named]|]. destruct (try_rows_named ops rows Hrows None) as (result & -> & Hn); [done|].
  eexists. split; [done|]. destruct result as [e|]; [by apply Hn|apply refused_named].
Qed.

(** ** Operands *)

Section Parser.
Context {slot : EmptySlot}.
Variables limit least : nat.
Hypothesis Hlimit : Z.of_nat limit < no_sym.
Abbreviation W := (AsmStatements.W limit least).
Abbreviation gives := (AsmOperands.gives limit least).
Abbreviation leaves := (AsmStatements.leaves limit least).

(** The symbol of an operand is known. *)
Definition opnd_known (a : Asm) (o : AsmOperand) : Prop := names_symbol o -> known a (o_sym o).
Lemma opnd_grows a a' o : grows known a a' -> opnd_known a o -> opnd_known a' o.
Proof. intros Hg Ho H. apply Hg. by apply Ho. Qed.
(** The operand names no symbol. *)
Definition plain (a : Asm) (o : AsmOperand) : Prop := o_kind o <> K_Sym /\ o_offset_is_sym o = false.
Lemma plain_known a o : plain a o -> opnd_known a o.
Proof. intros [H1 H2] [H|H]; congruence. Qed.
Definition any {A} (a : Asm) (x : A) : Prop := True.

Lemma W_back n p s : W (pred n) (pred p) s -> (n <= limit)%nat -> W n p s.
Proof. apply (W_pred limit least). Qed.
Lemma absolute_value_gives m n p s : W n p s -> gives (@any Z) (absolute_value m) n p s.
Proof.
  intros Hs. apply gives_expression; [done|done|]. intros v s1 H1 _. destruct (negb (ok v)); [by apply gives_none|].
  destruct (negb _); [apply gives_slot; [done|]; intros t; by apply gives_wrong|by apply gives_ret].
Qed.
Ltac peeked t s H E Hh := apply gives_peek; [done|]; intros t s H E Hh.
Ltac taken t s H E := apply gives_take_any; [done|]; intros t s H E.
Lemma parse_shift_gives o n p s : W n p s -> plain (snd s) o -> gives opnd_known (parse_shift o) n p s.
Proof.
  intros Hs Ho. peeked comma s1 H1 E1 Hh. apply (gives_peek_second limit least _ comma); [done|done|].
  intros shift s2 H2 E2 Hh2 Hl. destruct (is_punct "," comma && _ && _).
  2: { apply gives_ret; [done|]. by apply plain_known. }
  taken t3 s3 H3 E3. taken t4 s4 H4 E4. peeked hash s5 H5 E5 Hh5. destruct (negb _); [by apply gives_wrong|].
  taken t6 s6 H6 E6. apply gives_expression; [done|done|]. intros v s7 H7 _. destruct (negb _); [by apply gives_none|].
  destruct (_ || _); [apply gives_slot; [done|]; intros t; by apply gives_wrong|]. apply gives_ret; [done|]. by apply plain_known.
Qed.
Lemma parse_immediate_gives n p s : W n p s -> gives opnd_known parse_immediate n p s.
Proof.
  intros Hs. taken t1 s1 H1 E1. peeked t2 s2 H2 E2 Hh. eapply (gives_then limit least); [by apply absolute_value_gives|].
  intros v s3 H3 _ _. by apply parse_shift_gives.
Qed.
(** The operand names a symbol that is known. *)
Definition sym_known (a : Asm) (o : AsmOperand) : Prop := known a (o_sym o).
Lemma gives_imp {A} (good good' : Asm -> A -> Prop) m n p s : (forall a x, good a x -> good' a x) -> gives good m n p s -> gives good' m n p s.
Proof. intros H Hm. eapply run_mono; [exact Hm|]. intros r s' [Ha Hr]. split; [done|]. intros x Hx. by apply H, Hr. Qed.
(** A name is taken, which pays for its symbol. *)
Lemma gives_name {A} (good : Asm -> A -> Prop) t k n p s : W n p s -> head (buffer (fst s)) = Some t -> not_end t ->
  (forall id s', W n p s' -> known (snd s') id -> gives good (k id) n p s') ->
  gives good (name ← lexing take_token; id ← asking (expr_symbol_ (text name)); k id) n p s.
Proof.
  intros Hs Hh Ht Hk. pose proof (W_limit limit least _ _ _ Hs) as Hl. apply gives_take with t; [done..|]. intros s1 H1 _ _ Hn _.
  by apply gives_symbol.
Qed.
Lemma name_not_end t : negb (is_kind Tok_Ident t) && negb (is_kind Tok_String t) = false -> not_end t.
Proof. intros [H|H]%andb_false_iff; apply negb_false_iff in H; by eapply kind_not_end. Qed.
Lemma parse_relocation_gives n p s : W n p s -> gives sym_known parse_relocation n p s.
Proof.
  intros Hs. taken t1 s1 H1 E1. peeked tn s2 H2 E2 Hh2. destruct (negb _); [by apply gives_wrong|]. taken tk s3 H3 E3.
  peeked closing s4 H4 E4 Hh4. destruct (negb _); [by apply gives_wrong|]. taken t5 s5 H5 E5.
  destruct (spelled _ _) as [flavor|]; [|by apply gives_wrong]. peeked goal_token s6 H6 E6 Hh6. destruct (_ && _) eqn:Ht; [by apply gives_wrong|].
  eapply gives_name; [done|done|by apply name_not_end|]. intros id s7 H7 Hid. apply gives_ret; done.
Qed.
Lemma parse_suffix_gives id k n p s : W n p s -> known (snd s) id -> gives sym_known (parse_suffix id k) n p s.
Proof.
  intros Hs Hid. peeked t1 s1 H1 E1 Hh1. destruct (is_punct _ _).
  2: { apply gives_ret; [done|]. unfold sym_known; cbn. by rewrite E1. }
  taken t2 s2 H2 E2. peeked t3 s3 H3 E3 Hh3. destruct (negb _); [by apply gives_wrong|]. taken t4 s4 H4 E4.
  destruct (spelled _ _) as [flavor|]; [|by apply gives_wrong]. apply gives_ret; [done|]. unfold sym_known; cbn. congruence.
Qed.
Lemma run_addend n p s Q : W n p s -> (forall k s', W n p s' -> snd s' = snd s -> Q k s') -> run parse_addend s Q.
Proof.
  intros Hs HQ. apply run_bind, (W_peek limit least n p); [done|]. intros sign s1 H1 E1 Hh1.
  destruct (_ || _); [|apply run_ret; by apply HQ]. apply run_bind, (W_peek_second limit least n p sign); [done|done|].
  intros m s2 H2 E2 _ _. destruct (is_kind _ _); [|apply run_ret; apply HQ; [done|congruence]].
  apply run_bind, (W_take_any limit least n p); [done|]. intros t3 s3 H3 E3 _ _. apply run_bind, (W_take_any limit least n p); [done|].
  intros t4 s4 H4 E4 _ _. assert (snd s4 = snd s) by congruence. destruct (is_punct _ _); [|apply run_ret; by apply HQ].
  apply run_checked. intros _. by apply HQ.
Qed.
Lemma parse_symbol_operand_gives n p s : W n p s -> gives sym_known parse_symbol_operand n p s.
Proof.
  intros Hs. pose proof (W_limit limit least _ _ _ Hs) as Hl. peeked first_token s1 H1 E1 Hh1. destruct (is_punct ":" first_token); [by apply parse_relocation_gives|].
  destruct (is_kind Tok_LocalRef first_token) eqn:Hk.
  - apply gives_take with first_token; [done|done|by eapply kind_not_end|]. intros s2 H2 _ _ Hn _. apply gives_local; [done|done|done|done|].
    intros id s3 H3 Hid. destruct (Z.eqb_spec id no_sym) as [|Hne]; [by apply gives_none|]. apply gives_ret; [done|]. apply Hid.
    unfold is_sym. by rewrite (proj2 (Z.eqb_neq _ _) Hne).
  - destruct (_ && _) eqn:Hn; [by apply gives_wrong|]. eapply gives_name; [done|done|by apply name_not_end|]. intros id s2 H2 Hid.
    apply run_bind, (run_addend n p); [done|]. intros k s3 H3 E3. apply gives_same; [|done]. apply parse_suffix_gives; [done|by rewrite E3].
Qed.
Lemma with_imm_plain a x o : plain a o -> plain a (with_imm x o).
Proof. done. Qed.
Lemma with_mode_plain a m o : plain a o -> plain a (with_mode m o).
Proof. done. Qed.
Lemma with_imm_known a x o : opnd_known a o -> opnd_known a (with_imm x o).
Proof. done. Qed.
Lemma with_mode_known a m o : opnd_known a o -> opnd_known a (with_mode m o).
Proof. done. Qed.
Lemma parse_offset_gives o n p s : W n p s -> plain (snd s) o -> gives opnd_known (parse_offset o) n p s.
Proof.
  intros Hs Ho. peeked t1 s1 H1 E1 Hh1. destruct (is_punct "," t1); [|apply gives_ret; [done|by apply plain_known]].
  taken t2 s2 H2 E2. peeked t3 s3 H3 E3 Hh3. destruct (is_punct "#" t3).
  - taken t4 s4 H4 E4. eapply (gives_then limit least); [by apply absolute_value_gives|]. intros v s5 H5 _ _. apply gives_ret; [done|].
    apply plain_known. done.
  - eapply (gives_then limit least); [by apply parse_symbol_operand_gives|]. intros x s4 H4 _ Hx. apply gives_ret; [done|]. by intros _.
Qed.
Lemma parse_index_gives o n p s : W n p s -> opnd_known (snd s) o -> gives opnd_known (parse_index o) n p s.
Proof.
  intros Hs Ho. peeked t1 s1 H1 E1 Hh1. destruct (is_punct "!" t1).
  { taken t2 s2 H2 E2. apply gives_ret; [done|]. apply with_mode_known. by rewrite E2, E1. }
  peeked t2 s2 H2 E2 Hh2. apply (gives_peek_second limit least _ t2); [done|done|]. intros t3 s3 H3 E3 _ _.
  destruct (_ && _); [|apply gives_ret; [done|by rewrite E3, E2, E1]]. taken t4 s4 H4 E4. taken t5 s5 H5 E5.
  eapply (gives_then limit least); [by apply absolute_value_gives|]. intros v s6 H6 Hg _. apply gives_ret; [done|].
  apply with_mode_known, with_imm_known. eapply opnd_grows; [exact Hg|]. by rewrite E5, E4, E3, E2, E1.
Qed.
Lemma parse_memory_gives n p s : W n p s -> gives opnd_known parse_memory n p s.
Proof.
  intros Hs. taken t1 s1 H1 E1. peeked t2 s2 H2 E2 Hh2. destruct (if is_kind Tok_Ident t2 then _ else _) as [b|]; [|by apply gives_wrong].
  destruct (negb _); [by apply gives_wrong|]. taken t3 s3 H3 E3. eapply (gives_then limit least); [by apply parse_offset_gives|].
  intros o s4 H4 _ Ho. peeked t5 s5 H5 E5 Hh5. destruct (negb _); [by apply gives_wrong|]. taken t6 s6 H6 E6.
  apply parse_index_gives; [done|by rewrite E6, E5].
Qed.
Lemma register_plain name o a : parse_register name = Some o -> plain a o.
Proof. unfold parse_register. intros H. repeat case_match; simplify_eq; done. Qed.
Lemma parse_operand_gives b n p s : W n p s -> gives opnd_known (parse_operand b) n p s.
Proof.
  intros Hs. assert (Hsym : forall s', W n p s' -> gives opnd_known parse_symbol_operand n p s').
  { intros s' H. apply (gives_imp sym_known); [by intros a x Hx _|by apply parse_symbol_operand_gives]. }
  peeked t s1 H1 E1 Hh1. destruct (is_punct "#" t); [by apply parse_immediate_gives|]. destruct (is_punct "[" t); [by apply parse_memory_gives|].
  destruct (is_kind Tok_Ident t); [|by apply Hsym]. destruct b.
  - taken t2 s2 H2 E2. destruct (negb _); [by apply gives_wrong|]. apply gives_ret; [done|by apply plain_known].
  - destruct (parse_register _) as [r|] eqn:Hr.
    + taken t2 s2 H2 E2. apply gives_ret; [done|]. apply plain_known. by eapply register_plain.
    + destruct (parse_cond_name _); [|by apply Hsym]. taken t2 s2 H2 E2. apply gives_ret; [done|by apply plain_known].
Qed.

(** ** Instructions *)

Definition opnds_known (a : Asm) (l : list AsmOperand) : Prop := Forall (opnd_known a) l.
Lemma opnds_grow a a' l : grows known a a' -> opnds_known a l -> opnds_known a' l.
Proof. intros Hg Hl. eapply list.Forall_impl; [exact Hl|]. intros o. by apply opnd_grows. Qed.
Lemma parse_operands_gives b n : forall fuel p l s, W n p s -> opnds_known (snd s) l -> (pending (fst s) < fuel)%nat ->
  gives opnds_known (parse_operands fuel b l) n p s.
Proof.
  induction fuel as [|fuel IH]; intros p l s Hs Hl Hf; [lia|]. cbn [parse_operands]. pose proof (W_limit limit least _ _ _ Hs) as Hn.
  apply (gives_weaken limit least _ _ n (pending (fst s))); [|lia|by apply Hs|done]. 
  eapply (gives_then limit least); [apply parse_operand_gives; by eapply W_exact|]. intros o s1 H1 Hg Ho.
  assert (Hl1 : opnds_known (snd s1) (l ++ [o])) by (apply Forall_app; split; [by eapply opnds_grow|by apply list.Forall_singleton]).
  apply run_bind, (run_comma limit least n (pending (fst s))); [done| |].
  - intros s2 H2 E2 Hn2 Hp2. rewrite <- E2 in Hl1. apply gives_same; [|done].
    apply (gives_weaken limit least _ _ n (pred (pending (fst s)))); [|lia..].
    apply IH; [eapply (W_mono limit least); [exact H2|lia..]|done|]. pose proof (proj1 (proj2 (proj2 H2))). lia.
  - intros s2 H2 E2. apply gives_same; [|done]. apply gives_ret; [done|by rewrite E2].
Qed.
Lemma emit_safe e ops t a : asm_ok limit least a -> named_by ops e -> opnds_known a ops ->
  run (emit e t) a (fun _ a' => steady (asm_ok limit least) known weight a a').
Proof.
  intros Ha Hn Hops. unfold emit. case_bool_decide as Hf; [by apply append_inst_word_safe|].
  destruct (Hn Hf) as (o & Hin & Hid & Ho). assert (Hk : known a (e_sym e)).
  { rewrite Hid. unfold opnds_known in Hops. rewrite list.Forall_forall in Hops. by apply Hops. }
  apply append_inst_fixup_safe; [done|]. split; [done|]. destruct (e_fixup e); by split.
Qed.
Lemma split_mnemonic_known name m l a : split_mnemonic name = Some (m, l) -> opnds_known a l.
Proof.
  unfold split_mnemonic. destruct (at_point name) as [[b c]|]; [|intros [= <- <-]; by apply Forall_nil].
  destruct (parse_cond_name c); [|done]. intros [= <- <-]. apply list.Forall_singleton. by apply plain_known.
Qed.
(** The parser stays within bounds, ends, and keeps the invariant. *)
Lemma parse_aarch64_handles : handles limit least parse_aarch64.
Proof.
  intros t n p s Hs Hl. apply leaves_S; [clear Hs; intros Hs|done|done]. unfold parse_aarch64.
  destruct (split_mnemonic _) as [[mnemonic l]|] eqn:Hm; [|by apply leaves_reject]. cbn zeta. set (b := bool_decide _).
  apply run_bind, (W_peek limit least n p); [done|]. intros t1 s1 H1 E1 Hh1. apply run_bind, run_get, run_bind.
  assert (Hops : gives opnds_known (if ends_statement t1 then mret (Some l) else parse_operands (tokens_left s1) b l) n p s1).
  { destruct (ends_statement t1); [apply gives_ret; [done|by eapply split_mnemonic_known]|].
    apply parse_operands_gives; [done|by eapply split_mnemonic_known|by eapply tokens_left_bound]. }
  eapply run_mono; [exact Hops|]. intros [ops|] s2 [[H2 _] Hk]; [|by apply leaves_skip]. specialize (Hk ops eq_refl).
  destruct (encoder_named mnemonic ops) as (e & He & Hn). apply run_bind, (run_lift _ e); [done|].
  destruct (negb (e_ok e)); [by apply leaves_reject|]. apply leaves_steady; [done| |].
  - eapply emit_safe; [by eapply W_ok|done..].
  - intros _ s3 H3. by apply (operands_end_leaves limit least).
Qed.
End Parser.
