(* ===== verification/X86Isa.v ===== *)
(** * The x86-64 instruction table and encoder (src/backend/x86/isa.def, isa.h, isa.cpp)

    A row is a mnemonic, patterns for the operands, and the parts of the encoding: a
    prefix, an opcode, whether it has a register field, and flags. The bytes are in an
    array of sixteen; writing past it is undefined. *)
From stdpp Require Import list strings.
From S2P Require Import Prelude Vectors Outcome AsmExpr Mir AsmUnit Assembler SortedTable.
Open Scope Z_scope.

Inductive OpndPat :=
  | Pat_None | Pat_Gpr8 | Pat_Gpr16 | Pat_Gpr32 | Pat_Gpr64 | Pat_Rm8 | Pat_Rm16 | Pat_Rm32 | Pat_Rm64 | Pat_Mem | Pat_Xmm | Pat_RmX
  | Pat_Imm8s | Pat_Imm8u | Pat_Imm16 | Pat_Imm32 | Pat_Imm64 | Pat_ImmSym | Pat_ImmSym64 | Pat_ImmOne | Pat_Acc8 | Pat_Acc16
  | Pat_Acc32 | Pat_Acc64 | Pat_Cl | Pat_Rel | Pat_IndirRm | Pat_St0 | Pat_StN | Pat_Cond.
#[export] Instance x86_pat_eq_dec : EqDecision OpndPat.
Proof. solve_decision. Defined.
Inductive EncClass := Enc_Plain | Enc_Modrm | Enc_OpReg | Enc_Rel | Enc_FpuSt.
#[export] Instance x86_class_eq_dec : EqDecision EncClass.
Proof. solve_decision. Defined.
Definition RF_W : Z := 1.
Definition RF_RELAX : Z := 2.
Definition RF_COND : Z := 4.
Inductive IsaFixup := Fix_None | Fix_PcRel32 | Fix_Abs32 | Fix_Abs64.
#[export] Instance x86_fixup_eq_dec : EqDecision IsaFixup.
Proof. solve_decision. Defined.
Inductive OperandKind := K_Reg | K_Imm | K_Mem | K_Sym.
#[export] Instance x86_kind_eq_dec : EqDecision OperandKind.
Proof. solve_decision. Defined.

Record AsmOperand := mkOpnd {
  o_kind : OperandKind; o_reg : Z; o_class : ascii; o_high_byte : bool; o_imm : Z; o_has_base : bool; o_has_index : bool; o_rip : bool;
  o_base : Z; o_index : Z; o_scale : Z; o_segment : Z; o_disp : Z; o_sym : SymId; o_addend : Z; o_flavor : SymFlavor;
  o_indirect : bool }.
Definition no_class : ascii := "000"%char.
Definition default_opnd : AsmOperand :=
  mkOpnd K_Imm 0 no_class false 0 false false false 0 0 1 0 0 no_sym 0 Plain false.
Definition is_cond (o : AsmOperand) : bool := ceqb (o_class o) "c".

Record X86IsaRow := mkRow {
  r_mnemonic : chars; r_enc : EncClass; r_prefix : Z; r_opcode : Z; r_pats : list OpndPat; r_flags : Z; r_aux : Z }.

Definition grp1 (stem : chars) (base ext : Z) : list X86IsaRow :=
  [mkRow (stem ++ str "b") Enc_Plain 0 (base + 0x04) [Pat_Imm8u; Pat_Acc8] 0 0;
   mkRow (stem ++ str "b") Enc_Modrm 0 0x80 [Pat_Imm8u; Pat_Rm8] 0 ext;
   mkRow (stem ++ str "b") Enc_Modrm 0 (base + 0x00) [Pat_Gpr8; Pat_Rm8] 0 0;
   mkRow (stem ++ str "b") Enc_Modrm 0 (base + 0x02) [Pat_Mem; Pat_Gpr8] 0 0;
   mkRow (stem ++ str "w") Enc_Modrm 0x66 0x83 [Pat_Imm8s; Pat_Rm16] 0 ext;
   mkRow (stem ++ str "w") Enc_Plain 0x66 (base + 0x05) [Pat_Imm16; Pat_Acc16] 0 0;
   mkRow (stem ++ str "w") Enc_Modrm 0x66 0x81 [Pat_Imm16; Pat_Rm16] 0 ext;
   mkRow (stem ++ str "w") Enc_Modrm 0x66 (base + 0x01) [Pat_Gpr16; Pat_Rm16] 0 0;
   mkRow (stem ++ str "w") Enc_Modrm 0x66 (base + 0x03) [Pat_Mem; Pat_Gpr16] 0 0;
   mkRow (stem ++ str "l") Enc_Modrm 0 0x83 [Pat_Imm8s; Pat_Rm32] 0 ext;
   mkRow (stem ++ str "l") Enc_Plain 0 (base + 0x05) [Pat_Imm32; Pat_Acc32] 0 0;
   mkRow (stem ++ str "l") Enc_Modrm 0 0x81 [Pat_Imm32; Pat_Rm32] 0 ext;
   mkRow (stem ++ str "l") Enc_Modrm 0 (base + 0x01) [Pat_Gpr32; Pat_Rm32] 0 0;
   mkRow (stem ++ str "l") Enc_Modrm 0 (base + 0x03) [Pat_Mem; Pat_Gpr32] 0 0;
   mkRow (stem ++ str "q") Enc_Modrm 0 0x83 [Pat_Imm8s; Pat_Rm64] RF_W ext;
   mkRow (stem ++ str "q") Enc_Plain 0 (base + 0x05) [Pat_Imm32; Pat_Acc64] RF_W 0;
   mkRow (stem ++ str "q") Enc_Modrm 0 0x81 [Pat_Imm32; Pat_Rm64] RF_W ext;
   mkRow (stem ++ str "q") Enc_Modrm 0 (base + 0x01) [Pat_Gpr64; Pat_Rm64] RF_W 0;
   mkRow (stem ++ str "q") Enc_Modrm 0 (base + 0x03) [Pat_Mem; Pat_Gpr64] RF_W 0].
Definition shift_rows (stem : chars) (ext : Z) : list X86IsaRow :=
  [mkRow (stem ++ str "b") Enc_Modrm 0 0xD0 [Pat_ImmOne; Pat_Rm8] 0 ext;
   mkRow (stem ++ str "b") Enc_Modrm 0 0xC0 [Pat_Imm8u; Pat_Rm8] 0 ext;
   mkRow (stem ++ str "b") Enc_Modrm 0 0xD2 [Pat_Cl; Pat_Rm8] 0 ext;
   mkRow (stem ++ str "w") Enc_Modrm 0x66 0xD1 [Pat_ImmOne; Pat_Rm16] 0 ext;
   mkRow (stem ++ str "w") Enc_Modrm 0x66 0xC1 [Pat_Imm8u; Pat_Rm16] 0 ext;
   mkRow (stem ++ str "w") Enc_Modrm 0x66 0xD3 [Pat_Cl; Pat_Rm16] 0 ext;
   mkRow (stem ++ str "l") Enc_Modrm 0 0xD1 [Pat_ImmOne; Pat_Rm32] 0 ext;
   mkRow (stem ++ str "l") Enc_Modrm 0 0xC1 [Pat_Imm8u; Pat_Rm32] 0 ext;
   mkRow (stem ++ str "l") Enc_Modrm 0 0xD3 [Pat_Cl; Pat_Rm32] 0 ext;
   mkRow (stem ++ str "q") Enc_Modrm 0 0xD1 [Pat_ImmOne; Pat_Rm64] RF_W ext;
   mkRow (stem ++ str "q") Enc_Modrm 0 0xC1 [Pat_Imm8u; Pat_Rm64] RF_W ext;
   mkRow (stem ++ str "q") Enc_Modrm 0 0xD3 [Pat_Cl; Pat_Rm64] RF_W ext].
Definition unary_rows (stem : chars) (ext : Z) : list X86IsaRow :=
  [mkRow (stem ++ str "b") Enc_Modrm 0 0xF6 [Pat_Rm8] 0 ext;
   mkRow (stem ++ str "w") Enc_Modrm 0x66 0xF7 [Pat_Rm16] 0 ext;
   mkRow (stem ++ str "l") Enc_Modrm 0 0xF7 [Pat_Rm32] 0 ext;
   mkRow (stem ++ str "q") Enc_Modrm 0 0xF7 [Pat_Rm64] RF_W ext].
Definition sse_arith (stem : chars) (opcode : Z) : list X86IsaRow :=
  [mkRow (stem ++ str "ss") Enc_Modrm 0xF3 opcode [Pat_RmX; Pat_Xmm] 0 0;
   mkRow (stem ++ str "sd") Enc_Modrm 0xF2 opcode [Pat_RmX; Pat_Xmm] 0 0;
   mkRow (stem ++ str "ps") Enc_Modrm 0 opcode [Pat_RmX; Pat_Xmm] 0 0;
   mkRow (stem ++ str "pd") Enc_Modrm 0x66 opcode [Pat_RmX; Pat_Xmm] 0 0].
Definition move_rows : list X86IsaRow :=
  [mkRow (str "movb") Enc_Modrm 0 0x88 [Pat_Gpr8; Pat_Rm8] 0 0;
   mkRow (str "movb") Enc_Modrm 0 0x8A [Pat_Mem; Pat_Gpr8] 0 0;
   mkRow (str "movb") Enc_OpReg 0 0xB0 [Pat_Imm8u; Pat_Gpr8] 0 0;
   mkRow (str "movb") Enc_Modrm 0 0xC6 [Pat_Imm8u; Pat_Rm8] 0 0;
   mkRow (str "movw") Enc_Modrm 0x66 0x89 [Pat_Gpr16; Pat_Rm16] 0 0;
   mkRow (str "movw") Enc_Modrm 0x66 0x8B [Pat_Mem; Pat_Gpr16] 0 0;
   mkRow (str "movw") Enc_OpReg 0x66 0xB8 [Pat_Imm16; Pat_Gpr16] 0 0;
   mkRow (str "movw") Enc_Modrm 0x66 0xC7 [Pat_Imm16; Pat_Rm16] 0 0;
   mkRow (str "movl") Enc_Modrm 0 0x89 [Pat_Gpr32; Pat_Rm32] 0 0;
   mkRow (str "movl") Enc_Modrm 0 0x8B [Pat_Mem; Pat_Gpr32] 0 0;
   mkRow (str "movl") Enc_OpReg 0 0xB8 [Pat_Imm32; Pat_Gpr32] 0 0;
   mkRow (str "movl") Enc_OpReg 0 0xB8 [Pat_ImmSym; Pat_Gpr32] 0 0;
   mkRow (str "movl") Enc_Modrm 0 0xC7 [Pat_Imm32; Pat_Rm32] 0 0;
   mkRow (str "movl") Enc_Modrm 0 0xC7 [Pat_ImmSym; Pat_Rm32] 0 0;
   mkRow (str "movq") Enc_Modrm 0 0x89 [Pat_Gpr64; Pat_Rm64] RF_W 0;
   mkRow (str "movq") Enc_Modrm 0 0x8B [Pat_Mem; Pat_Gpr64] RF_W 0;
   mkRow (str "movq") Enc_Modrm 0 0xC7 [Pat_Imm32; Pat_Rm64] RF_W 0;
   mkRow (str "movq") Enc_Modrm 0 0xC7 [Pat_ImmSym; Pat_Rm64] RF_W 0;
   mkRow (str "movq") Enc_Modrm 0xF3 0x0F7E [Pat_Mem; Pat_Xmm] 0 0;
   mkRow (str "movq") Enc_Modrm 0x66 0x0FD6 [Pat_Xmm; Pat_Mem] 0 0;
   mkRow (str "movd") Enc_Modrm 0x66 0x0F6E [Pat_Rm32; Pat_Xmm] 0 0;
   mkRow (str "movd") Enc_Modrm 0x66 0x0F7E [Pat_Xmm; Pat_Rm32] 0 0;
   mkRow (str "movq") Enc_Modrm 0x66 0x0F6E [Pat_Rm64; Pat_Xmm] RF_W 0;
   mkRow (str "movq") Enc_Modrm 0x66 0x0F7E [Pat_Xmm; Pat_Rm64] RF_W 0;
   mkRow (str "movabsq") Enc_OpReg 0 0xB8 [Pat_Imm64; Pat_Gpr64] RF_W 0;
   mkRow (str "movabsq") Enc_OpReg 0 0xB8 [Pat_ImmSym64; Pat_Gpr64] RF_W 0;
   mkRow (str "movabsl") Enc_OpReg 0 0xB8 [Pat_Imm32; Pat_Gpr32] 0 0;
   mkRow (str "movzbl") Enc_Modrm 0 0x0FB6 [Pat_Rm8; Pat_Gpr32] 0 0;
   mkRow (str "movzbw") Enc_Modrm 0x66 0x0FB6 [Pat_Rm8; Pat_Gpr16] 0 0;
   mkRow (str "movzbq") Enc_Modrm 0 0x0FB6 [Pat_Rm8; Pat_Gpr64] RF_W 0;
   mkRow (str "movzwl") Enc_Modrm 0 0x0FB7 [Pat_Rm16; Pat_Gpr32] 0 0;
   mkRow (str "movzwq") Enc_Modrm 0 0x0FB7 [Pat_Rm16; Pat_Gpr64] RF_W 0;
   mkRow (str "movsbl") Enc_Modrm 0 0x0FBE [Pat_Rm8; Pat_Gpr32] 0 0;
   mkRow (str "movsbw") Enc_Modrm 0x66 0x0FBE [Pat_Rm8; Pat_Gpr16] 0 0;
   mkRow (str "movsbq") Enc_Modrm 0 0x0FBE [Pat_Rm8; Pat_Gpr64] RF_W 0;
   mkRow (str "movswl") Enc_Modrm 0 0x0FBF [Pat_Rm16; Pat_Gpr32] 0 0;
   mkRow (str "movswq") Enc_Modrm 0 0x0FBF [Pat_Rm16; Pat_Gpr64] RF_W 0;
   mkRow (str "movslq") Enc_Modrm 0 0x63 [Pat_Rm32; Pat_Gpr64] RF_W 0;
   mkRow (str "leal") Enc_Modrm 0 0x8D [Pat_Mem; Pat_Gpr32] 0 0;
   mkRow (str "leaq") Enc_Modrm 0 0x8D [Pat_Mem; Pat_Gpr64] RF_W 0].
Definition arithmetic_rows : list X86IsaRow :=
  grp1 (str "add") 0x00 0 ++
  grp1 (str "or") 0x08 1 ++
  grp1 (str "adc") 0x10 2 ++
  grp1 (str "sbb") 0x18 3 ++
  grp1 (str "and") 0x20 4 ++
  grp1 (str "sub") 0x28 5 ++
  grp1 (str "xor") 0x30 6 ++
  grp1 (str "cmp") 0x38 7 ++
  unary_rows (str "neg") 3 ++
  unary_rows (str "not") 2 ++
  unary_rows (str "mul") 4 ++
  unary_rows (str "div") 6 ++
  unary_rows (str "idiv") 7 ++
  shift_rows (str "shl") 4 ++
  shift_rows (str "sal") 4 ++
  shift_rows (str "shr") 5 ++
  shift_rows (str "sar") 7 ++
  shift_rows (str "rol") 0 ++
  shift_rows (str "ror") 1 ++
  [mkRow (str "imulb") Enc_Modrm 0 0xF6 [Pat_Rm8] 0 5;
   mkRow (str "imull") Enc_Modrm 0 0x6B [Pat_Imm8s; Pat_Rm32; Pat_Gpr32] 0 0;
   mkRow (str "imull") Enc_Modrm 0 0x69 [Pat_Imm32; Pat_Rm32; Pat_Gpr32] 0 0;
   mkRow (str "imull") Enc_Modrm 0 0x0FAF [Pat_Rm32; Pat_Gpr32] 0 0;
   mkRow (str "imull") Enc_Modrm 0 0xF7 [Pat_Rm32] 0 5;
   mkRow (str "imulq") Enc_Modrm 0 0x6B [Pat_Imm8s; Pat_Rm64; Pat_Gpr64] RF_W 0;
   mkRow (str "imulq") Enc_Modrm 0 0x69 [Pat_Imm32; Pat_Rm64; Pat_Gpr64] RF_W 0;
   mkRow (str "imulq") Enc_Modrm 0 0x0FAF [Pat_Rm64; Pat_Gpr64] RF_W 0;
   mkRow (str "imulq") Enc_Modrm 0 0xF7 [Pat_Rm64] RF_W 5;
   mkRow (str "imulw") Enc_Modrm 0x66 0x0FAF [Pat_Rm16; Pat_Gpr16] 0 0;
   mkRow (str "incb") Enc_Modrm 0 0xFE [Pat_Rm8] 0 0;
   mkRow (str "incw") Enc_Modrm 0x66 0xFF [Pat_Rm16] 0 0;
   mkRow (str "incl") Enc_Modrm 0 0xFF [Pat_Rm32] 0 0;
   mkRow (str "incq") Enc_Modrm 0 0xFF [Pat_Rm64] RF_W 0;
   mkRow (str "decb") Enc_Modrm 0 0xFE [Pat_Rm8] 0 1;
   mkRow (str "decw") Enc_Modrm 0x66 0xFF [Pat_Rm16] 0 1;
   mkRow (str "decl") Enc_Modrm 0 0xFF [Pat_Rm32] 0 1;
   mkRow (str "decq") Enc_Modrm 0 0xFF [Pat_Rm64] RF_W 1;
   mkRow (str "testb") Enc_Plain 0 0xA8 [Pat_Imm8u; Pat_Acc8] 0 0;
   mkRow (str "testb") Enc_Modrm 0 0xF6 [Pat_Imm8u; Pat_Rm8] 0 0;
   mkRow (str "testb") Enc_Modrm 0 0x84 [Pat_Gpr8; Pat_Rm8] 0 0;
   mkRow (str "testw") Enc_Plain 0x66 0xA9 [Pat_Imm16; Pat_Acc16] 0 0;
   mkRow (str "testw") Enc_Modrm 0x66 0xF7 [Pat_Imm16; Pat_Rm16] 0 0;
   mkRow (str "testw") Enc_Modrm 0x66 0x85 [Pat_Gpr16; Pat_Rm16] 0 0;
   mkRow (str "testl") Enc_Plain 0 0xA9 [Pat_Imm32; Pat_Acc32] 0 0;
   mkRow (str "testl") Enc_Modrm 0 0xF7 [Pat_Imm32; Pat_Rm32] 0 0;
   mkRow (str "testl") Enc_Modrm 0 0x85 [Pat_Gpr32; Pat_Rm32] 0 0;
   mkRow (str "testq") Enc_Plain 0 0xA9 [Pat_Imm32; Pat_Acc64] RF_W 0;
   mkRow (str "testq") Enc_Modrm 0 0xF7 [Pat_Imm32; Pat_Rm64] RF_W 0;
   mkRow (str "testq") Enc_Modrm 0 0x85 [Pat_Gpr64; Pat_Rm64] RF_W 0].
Definition convert_rows : list X86IsaRow :=
  [mkRow (str "cbtw") Enc_Plain 0x66 0x98 [] 0 0;
   mkRow (str "cwtl") Enc_Plain 0 0x98 [] 0 0;
   mkRow (str "cltq") Enc_Plain 0 0x98 [] RF_W 0;
   mkRow (str "cwtd") Enc_Plain 0x66 0x99 [] 0 0;
   mkRow (str "cltd") Enc_Plain 0 0x99 [] 0 0;
   mkRow (str "cqto") Enc_Plain 0 0x99 [] RF_W 0;
   mkRow (str "cdqe") Enc_Plain 0 0x98 [] RF_W 0;
   mkRow (str "cdq") Enc_Plain 0 0x99 [] 0 0;
   mkRow (str "cqo") Enc_Plain 0 0x99 [] RF_W 0;
   mkRow (str "pushq") Enc_OpReg 0 0x50 [Pat_Gpr64] 0 0;
   mkRow (str "pushq") Enc_Plain 0 0x6A [Pat_Imm8s] 0 0;
   mkRow (str "pushq") Enc_Plain 0 0x68 [Pat_Imm32] 0 0;
   mkRow (str "pushq") Enc_Modrm 0 0xFF [Pat_Mem] 0 6;
   mkRow (str "popq") Enc_OpReg 0 0x58 [Pat_Gpr64] 0 0;
   mkRow (str "popq") Enc_Modrm 0 0x8F [Pat_Mem] 0 0;
   mkRow (str "leave") Enc_Plain 0 0xC9 [] 0 0].
Definition control_rows : list X86IsaRow :=
  [mkRow (str "jmp") Enc_Rel 0 0xE9 [Pat_Rel] RF_RELAX 0xEB;
   mkRow (str "jmp") Enc_Modrm 0 0xFF [Pat_IndirRm] 0 4;
   mkRow (str "jmpq") Enc_Modrm 0 0xFF [Pat_IndirRm] 0 4;
   mkRow (str "j") Enc_Rel 0 0x0F80 [Pat_Cond; Pat_Rel] (Z.lor RF_RELAX RF_COND) 0x70;
   mkRow (str "call") Enc_Rel 0 0xE8 [Pat_Rel] 0 0;
   mkRow (str "callq") Enc_Rel 0 0xE8 [Pat_Rel] 0 0;
   mkRow (str "call") Enc_Modrm 0 0xFF [Pat_IndirRm] 0 2;
   mkRow (str "callq") Enc_Modrm 0 0xFF [Pat_IndirRm] 0 2;
   mkRow (str "ret") Enc_Plain 0 0xC3 [] 0 0;
   mkRow (str "ret") Enc_Plain 0 0xC2 [Pat_Imm16] 0 0;
   mkRow (str "retq") Enc_Plain 0 0xC3 [] 0 0;
   mkRow (str "retq") Enc_Plain 0 0xC2 [Pat_Imm16] 0 0;
   mkRow (str "set") Enc_Modrm 0 0x0F90 [Pat_Cond; Pat_Rm8] RF_COND 0;
   mkRow (str "cmov") Enc_Modrm 0x66 0x0F40 [Pat_Cond; Pat_Rm16; Pat_Gpr16] RF_COND 0;
   mkRow (str "cmov") Enc_Modrm 0 0x0F40 [Pat_Cond; Pat_Rm32; Pat_Gpr32] RF_COND 0;
   mkRow (str "cmov") Enc_Modrm 0 0x0F40 [Pat_Cond; Pat_Rm64; Pat_Gpr64] (Z.lor RF_W RF_COND) 0].
Definition bit_rows : list X86IsaRow :=
  [mkRow (str "bswapl") Enc_OpReg 0 0x0FC8 [Pat_Gpr32] 0 0;
   mkRow (str "bswapq") Enc_OpReg 0 0x0FC8 [Pat_Gpr64] RF_W 0;
   mkRow (str "bsrl") Enc_Modrm 0 0x0FBD [Pat_Rm32; Pat_Gpr32] 0 0;
   mkRow (str "bsrq") Enc_Modrm 0 0x0FBD [Pat_Rm64; Pat_Gpr64] RF_W 0;
   mkRow (str "bsfl") Enc_Modrm 0 0x0FBC [Pat_Rm32; Pat_Gpr32] 0 0;
   mkRow (str "bsfq") Enc_Modrm 0 0x0FBC [Pat_Rm64; Pat_Gpr64] RF_W 0;
   mkRow (str "popcntl") Enc_Modrm 0xF3 0x0FB8 [Pat_Rm32; Pat_Gpr32] 0 0;
   mkRow (str "popcntq") Enc_Modrm 0xF3 0x0FB8 [Pat_Rm64; Pat_Gpr64] RF_W 0;
   mkRow (str "lzcntl") Enc_Modrm 0xF3 0x0FBD [Pat_Rm32; Pat_Gpr32] 0 0;
   mkRow (str "lzcntq") Enc_Modrm 0xF3 0x0FBD [Pat_Rm64; Pat_Gpr64] RF_W 0;
   mkRow (str "tzcntl") Enc_Modrm 0xF3 0x0FBC [Pat_Rm32; Pat_Gpr32] 0 0;
   mkRow (str "tzcntq") Enc_Modrm 0xF3 0x0FBC [Pat_Rm64; Pat_Gpr64] RF_W 0;
   mkRow (str "xchgb") Enc_Modrm 0 0x86 [Pat_Gpr8; Pat_Rm8] 0 0;
   mkRow (str "xchgw") Enc_Modrm 0x66 0x87 [Pat_Gpr16; Pat_Rm16] 0 0;
   mkRow (str "xchgl") Enc_Modrm 0 0x87 [Pat_Gpr32; Pat_Rm32] 0 0;
   mkRow (str "xchgq") Enc_Modrm 0 0x87 [Pat_Gpr64; Pat_Rm64] RF_W 0;
   mkRow (str "xaddb") Enc_Modrm 0 0x0FC0 [Pat_Gpr8; Pat_Rm8] 0 0;
   mkRow (str "xaddw") Enc_Modrm 0x66 0x0FC1 [Pat_Gpr16; Pat_Rm16] 0 0;
   mkRow (str "xaddl") Enc_Modrm 0 0x0FC1 [Pat_Gpr32; Pat_Rm32] 0 0;
   mkRow (str "xaddq") Enc_Modrm 0 0x0FC1 [Pat_Gpr64; Pat_Rm64] RF_W 0;
   mkRow (str "cmpxchgb") Enc_Modrm 0 0x0FB0 [Pat_Gpr8; Pat_Rm8] 0 0;
   mkRow (str "cmpxchgw") Enc_Modrm 0x66 0x0FB1 [Pat_Gpr16; Pat_Rm16] 0 0;
   mkRow (str "cmpxchgl") Enc_Modrm 0 0x0FB1 [Pat_Gpr32; Pat_Rm32] 0 0;
   mkRow (str "cmpxchgq") Enc_Modrm 0 0x0FB1 [Pat_Gpr64; Pat_Rm64] RF_W 0;
   mkRow (str "mfence") Enc_Plain 0 0x0FAEF0 [] 0 0;
   mkRow (str "lfence") Enc_Plain 0 0x0FAEE8 [] 0 0;
   mkRow (str "sfence") Enc_Plain 0 0x0FAEF8 [] 0 0;
   mkRow (str "pause") Enc_Plain 0xF3 0x90 [] 0 0;
   mkRow (str "nop") Enc_Plain 0 0x90 [] 0 0;
   mkRow (str "nopl") Enc_Modrm 0 0x0F1F [Pat_Mem] 0 0;
   mkRow (str "nopw") Enc_Modrm 0x66 0x0F1F [Pat_Mem] 0 0;
   mkRow (str "ud2") Enc_Plain 0 0x0F0B [] 0 0;
   mkRow (str "int3") Enc_Plain 0 0xCC [] 0 0;
   mkRow (str "int") Enc_Plain 0 0xCD [Pat_Imm8u] 0 0;
   mkRow (str "hlt") Enc_Plain 0 0xF4 [] 0 0;
   mkRow (str "cpuid") Enc_Plain 0 0x0FA2 [] 0 0;
   mkRow (str "rdtsc") Enc_Plain 0 0x0F31 [] 0 0;
   mkRow (str "syscall") Enc_Plain 0 0x0F05 [] 0 0].
Definition sse_rows : list X86IsaRow :=
  [mkRow (str "movaps") Enc_Modrm 0 0x0F28 [Pat_RmX; Pat_Xmm] 0 0;
   mkRow (str "movaps") Enc_Modrm 0 0x0F29 [Pat_Xmm; Pat_Mem] 0 0;
   mkRow (str "movapd") Enc_Modrm 0x66 0x0F28 [Pat_RmX; Pat_Xmm] 0 0;
   mkRow (str "movapd") Enc_Modrm 0x66 0x0F29 [Pat_Xmm; Pat_Mem] 0 0;
   mkRow (str "movups") Enc_Modrm 0 0x0F10 [Pat_RmX; Pat_Xmm] 0 0;
   mkRow (str "movups") Enc_Modrm 0 0x0F11 [Pat_Xmm; Pat_Mem] 0 0;
   mkRow (str "movupd") Enc_Modrm 0x66 0x0F10 [Pat_RmX; Pat_Xmm] 0 0;
   mkRow (str "movupd") Enc_Modrm 0x66 0x0F11 [Pat_Xmm; Pat_Mem] 0 0;
   mkRow (str "movss") Enc_Modrm 0xF3 0x0F10 [Pat_RmX; Pat_Xmm] 0 0;
   mkRow (str "movss") Enc_Modrm 0xF3 0x0F11 [Pat_Xmm; Pat_Mem] 0 0;
   mkRow (str "movsd") Enc_Modrm 0xF2 0x0F10 [Pat_RmX; Pat_Xmm] 0 0;
   mkRow (str "movsd") Enc_Modrm 0xF2 0x0F11 [Pat_Xmm; Pat_Mem] 0 0;
   mkRow (str "pxor") Enc_Modrm 0x66 0x0FEF [Pat_RmX; Pat_Xmm] 0 0] ++
  sse_arith (str "add") 0x0F58 ++
  sse_arith (str "sub") 0x0F5C ++
  sse_arith (str "mul") 0x0F59 ++
  sse_arith (str "div") 0x0F5E ++
  sse_arith (str "min") 0x0F5D ++
  sse_arith (str "max") 0x0F5F ++
  sse_arith (str "sqrt") 0x0F51 ++
  [mkRow (str "xorps") Enc_Modrm 0 0x0F57 [Pat_RmX; Pat_Xmm] 0 0;
   mkRow (str "xorpd") Enc_Modrm 0x66 0x0F57 [Pat_RmX; Pat_Xmm] 0 0;
   mkRow (str "andps") Enc_Modrm 0 0x0F54 [Pat_RmX; Pat_Xmm] 0 0;
   mkRow (str "andpd") Enc_Modrm 0x66 0x0F54 [Pat_RmX; Pat_Xmm] 0 0;
   mkRow (str "andnps") Enc_Modrm 0 0x0F55 [Pat_RmX; Pat_Xmm] 0 0;
   mkRow (str "orps") Enc_Modrm 0 0x0F56 [Pat_RmX; Pat_Xmm] 0 0;
   mkRow (str "orpd") Enc_Modrm 0x66 0x0F56 [Pat_RmX; Pat_Xmm] 0 0;
   mkRow (str "cvtss2sd") Enc_Modrm 0xF3 0x0F5A [Pat_RmX; Pat_Xmm] 0 0;
   mkRow (str "cvtsd2ss") Enc_Modrm 0xF2 0x0F5A [Pat_RmX; Pat_Xmm] 0 0;
   mkRow (str "cvtsi2ss") Enc_Modrm 0xF3 0x0F2A [Pat_Rm32; Pat_Xmm] 0 0;
   mkRow (str "cvtsi2ss") Enc_Modrm 0xF3 0x0F2A [Pat_Rm64; Pat_Xmm] RF_W 0;
   mkRow (str "cvtsi2ssl") Enc_Modrm 0xF3 0x0F2A [Pat_Rm32; Pat_Xmm] 0 0;
   mkRow (str "cvtsi2ssq") Enc_Modrm 0xF3 0x0F2A [Pat_Rm64; Pat_Xmm] RF_W 0;
   mkRow (str "cvtsi2sd") Enc_Modrm 0xF2 0x0F2A [Pat_Rm32; Pat_Xmm] 0 0;
   mkRow (str "cvtsi2sd") Enc_Modrm 0xF2 0x0F2A [Pat_Rm64; Pat_Xmm] RF_W 0;
   mkRow (str "cvtsi2sdl") Enc_Modrm 0xF2 0x0F2A [Pat_Rm32; Pat_Xmm] 0 0;
   mkRow (str "cvtsi2sdq") Enc_Modrm 0xF2 0x0F2A [Pat_Rm64; Pat_Xmm] RF_W 0;
   mkRow (str "cvttss2si") Enc_Modrm 0xF3 0x0F2C [Pat_RmX; Pat_Gpr32] 0 0;
   mkRow (str "cvttss2si") Enc_Modrm 0xF3 0x0F2C [Pat_RmX; Pat_Gpr64] RF_W 0;
   mkRow (str "cvttsd2si") Enc_Modrm 0xF2 0x0F2C [Pat_RmX; Pat_Gpr32] 0 0;
   mkRow (str "cvttsd2si") Enc_Modrm 0xF2 0x0F2C [Pat_RmX; Pat_Gpr64] RF_W 0;
   mkRow (str "cvtss2si") Enc_Modrm 0xF3 0x0F2D [Pat_RmX; Pat_Gpr32] 0 0;
   mkRow (str "cvtss2si") Enc_Modrm 0xF3 0x0F2D [Pat_RmX; Pat_Gpr64] RF_W 0;
   mkRow (str "cvtsd2si") Enc_Modrm 0xF2 0x0F2D [Pat_RmX; Pat_Gpr32] 0 0;
   mkRow (str "cvtsd2si") Enc_Modrm 0xF2 0x0F2D [Pat_RmX; Pat_Gpr64] RF_W 0;
   mkRow (str "ucomiss") Enc_Modrm 0 0x0F2E [Pat_RmX; Pat_Xmm] 0 0;
   mkRow (str "ucomisd") Enc_Modrm 0x66 0x0F2E [Pat_RmX; Pat_Xmm] 0 0;
   mkRow (str "comiss") Enc_Modrm 0 0x0F2F [Pat_RmX; Pat_Xmm] 0 0;
   mkRow (str "comisd") Enc_Modrm 0x66 0x0F2F [Pat_RmX; Pat_Xmm] 0 0].
Definition x87_rows : list X86IsaRow :=
  [mkRow (str "flds") Enc_Modrm 0 0xD9 [Pat_Mem] 0 0;
   mkRow (str "fldl") Enc_Modrm 0 0xDD [Pat_Mem] 0 0;
   mkRow (str "fldt") Enc_Modrm 0 0xDB [Pat_Mem] 0 5;
   mkRow (str "fld") Enc_FpuSt 0 0xD9C0 [Pat_StN] 0 0;
   mkRow (str "fstps") Enc_Modrm 0 0xD9 [Pat_Mem] 0 3;
   mkRow (str "fstpl") Enc_Modrm 0 0xDD [Pat_Mem] 0 3;
   mkRow (str "fstpt") Enc_Modrm 0 0xDB [Pat_Mem] 0 7;
   mkRow (str "fstp") Enc_FpuSt 0 0xDDD8 [Pat_StN] 0 0;
   mkRow (str "fildl") Enc_Modrm 0 0xDB [Pat_Mem] 0 0;
   mkRow (str "fildll") Enc_Modrm 0 0xDF [Pat_Mem] 0 5;
   mkRow (str "fistpll") Enc_Modrm 0 0xDF [Pat_Mem] 0 7;
   mkRow (str "fisttpll") Enc_Modrm 0 0xDD [Pat_Mem] 0 1;
   mkRow (str "fadds") Enc_Modrm 0 0xD8 [Pat_Mem] 0 0;
   mkRow (str "faddl") Enc_Modrm 0 0xDC [Pat_Mem] 0 0;
   mkRow (str "faddp") Enc_Plain 0 0xDEC1 [] 0 0;
   mkRow (str "fmulp") Enc_Plain 0 0xDEC9 [] 0 0;
   mkRow (str "fsubp") Enc_Plain 0 0xDEE1 [] 0 0;
   mkRow (str "fsubrp") Enc_Plain 0 0xDEE9 [] 0 0;
   mkRow (str "fdivp") Enc_Plain 0 0xDEF1 [] 0 0;
   mkRow (str "fdivrp") Enc_Plain 0 0xDEF9 [] 0 0;
   mkRow (str "fchs") Enc_Plain 0 0xD9E0 [] 0 0;
   mkRow (str "fabs") Enc_Plain 0 0xD9E1 [] 0 0;
   mkRow (str "fucomip") Enc_FpuSt 0 0xDFE8 [Pat_StN; Pat_St0] 0 0;
   mkRow (str "fucomi") Enc_FpuSt 0 0xDBE8 [Pat_StN; Pat_St0] 0 0;
   mkRow (str "fnstcw") Enc_Modrm 0 0xD9 [Pat_Mem] 0 7;
   mkRow (str "fldcw") Enc_Modrm 0 0xD9 [Pat_Mem] 0 5].
(** isa.def *)
Definition kRows : list X86IsaRow :=
  move_rows ++ arithmetic_rows ++ convert_rows ++ control_rows ++ bit_rows ++ sse_rows ++ x87_rows.

Record IsaEncoded := mkEncoded {
  e_ok : bool; e_error : chars; e_bytes : list Z; e_fixup : IsaFixup; e_fixup_offset : Z; e_pcrel_extra : Z; e_sym : SymId;
  e_addend : Z; e_flavor : SymFlavor; e_is_branch : bool; e_short_opcode : Z; e_near_size : Z }.
Definition empty_encoded : IsaEncoded := mkEncoded false [] [] Fix_None 0 0 no_sym 0 Plain false 0 0.
Definition not_encoded (message : chars) : IsaEncoded := mkEncoded false message [] Fix_None 0 0 no_sym 0 Plain false 0 0.
Definition max_encoded : Z := 16.

(** ** Conditions *)

Definition kConds : list (chars * Z) :=
  [(str "nbe", 0x7); (str "nae", 0x2); (str "nge", 0xC); (str "nle", 0xF); (str "ae", 0x3); (str "be", 0x6); (str "ge", 0xD);
   (str "le", 0xE); (str "na", 0x6); (str "nb", 0x3); (str "nc", 0x3); (str "ne", 0x5); (str "ng", 0xE); (str "nl", 0xD);
   (str "no", 0x1); (str "np", 0xB); (str "ns", 0x9); (str "nz", 0x5); (str "pe", 0xA); (str "po", 0xB); (str "a", 0x7);
   (str "b", 0x2); (str "c", 0x2); (str "e", 0x4); (str "g", 0xF); (str "l", 0xC); (str "o", 0x0); (str "p", 0xA); (str "s", 0x8);
   (str "z", 0x4)].
Definition x86_condition_value (name : chars) : option Z := (fun e => snd (snd e)) <$> list_find (fun e => fst e = name) kConds.
Definition kStems : list chars := [str "cmov"; str "set"; str "j"].
Definition width_suffix (c : ascii) : bool := bool_decide (c ∈ str "bwlq").
Definition stem_condition (mnemonic stem : chars) : option Z :=
  if (size mnemonic <=? size stem) || negb (has_prefix stem mnemonic) then None
  else
    let rest := drop (length stem) mnemonic in
    match x86_condition_value rest with
    | Some cond => Some cond
    | None =>
        match list.last rest with
        | Some c => if width_suffix c then x86_condition_value (take (length rest - 1) rest) else None
        | None => None
        end
    end.
Fixpoint split_condition (stems : list chars) (mnemonic : chars) : option (chars * Z) :=
  match stems with
  | [] => None
  | stem :: stems => match stem_condition mnemonic stem with Some cond => Some (stem, cond) | None => split_condition stems mnemonic end
  end.
Definition x86_split_condition (mnemonic : chars) : option (chars * Z) := split_condition kStems mnemonic.

(** ** Matching *)

Fixpoint arity_go (pats : list OpndPat) : nat :=
  match pats with [] => 0 | p :: pats => if bool_decide (p = Pat_None) then 0 else S (arity_go pats) end.
Definition pattern_arity (r : X86IsaRow) : nat := arity_go (r_pats r).
Definition fits_int8 (value : Z) : bool := (-128 <=? value) && (value <=? 127).
Definition fits_byte (value : Z) : bool := (-128 <=? value) && (value <=? 255).
Definition fits_int16 (value : Z) : bool := (-32768 <=? value) && (value <=? 65535).
Definition fits_int32 (value : Z) : bool := (- 2 ^ 31 <=? value) && (value <=? 2 ^ 32 - 1).
Definition is_kind_of (k : OperandKind) (o : AsmOperand) : bool := bool_decide (o_kind o = k).
Definition match_gpr (o : AsmOperand) (width : ascii) : bool := is_kind_of K_Reg o && ceqb (o_class o) width.
Definition pattern_width (p : OpndPat) : option Z :=
  match p with
  | Pat_Gpr8 | Pat_Rm8 | Pat_Acc8 | Pat_Cl => Some 8
  | Pat_Gpr16 | Pat_Rm16 | Pat_Acc16 => Some 16
  | Pat_Gpr32 | Pat_Rm32 | Pat_Acc32 => Some 32
  | Pat_Gpr64 | Pat_Rm64 | Pat_Acc64 | Pat_IndirRm => Some 64
  | _ => None
  end.
Fixpoint operand_width (pats : list OpndPat) : Z :=
  match pats with [] => 64 | p :: pats => match pattern_width p with Some w => w | None => operand_width pats end end.
Definition row_operand_width (r : X86IsaRow) : Z := operand_width (r_pats r).
Definition narrow_to_width (value width : Z) : Z :=
  if 64 <=? width then value
  else
    let mask := u64 (Z.shiftl 1 width) - 1 in
    let bits := Z.land (u64 value) mask in
    let sign := Z.shiftl 1 (width - 1) in
    s64 (u64 (Z.lxor bits sign - sign)).
Definition match_operand (p : OpndPat) (o : AsmOperand) (width : Z) : bool :=
  if o_indirect o && negb (bool_decide (p = Pat_IndirRm)) then false
  else
    let imm := if is_kind_of K_Imm o then narrow_to_width (o_imm o) width else 0 in
    match p with
    | Pat_None => false
    | Pat_Gpr8 => match_gpr o "b"
    | Pat_Gpr16 => match_gpr o "w"
    | Pat_Gpr32 => match_gpr o "l"
    | Pat_Gpr64 => match_gpr o "q"
    | Pat_Rm8 => match_gpr o "b" || is_kind_of K_Mem o
    | Pat_Rm16 => match_gpr o "w" || is_kind_of K_Mem o
    | Pat_Rm32 => match_gpr o "l" || is_kind_of K_Mem o
    | Pat_Rm64 => match_gpr o "q" || is_kind_of K_Mem o
    | Pat_Mem => is_kind_of K_Mem o
    | Pat_Xmm => match_gpr o "x"
    | Pat_RmX => match_gpr o "x" || is_kind_of K_Mem o
    | Pat_Imm8s => is_kind_of K_Imm o && fits_int8 imm
    | Pat_Imm8u => is_kind_of K_Imm o && fits_byte imm
    | Pat_Imm16 => is_kind_of K_Imm o && fits_int16 imm
    | Pat_Imm32 => is_kind_of K_Imm o && fits_int32 imm
    | Pat_Imm64 => is_kind_of K_Imm o
    | Pat_ImmSym | Pat_ImmSym64 => is_kind_of K_Sym o
    | Pat_ImmOne => is_kind_of K_Imm o && (imm =? 1)
    | Pat_Acc8 => match_gpr o "b" && (o_reg o =? 0) && negb (o_high_byte o)
    | Pat_Acc16 => match_gpr o "w" && (o_reg o =? 0)
    | Pat_Acc32 => match_gpr o "l" && (o_reg o =? 0)
    | Pat_Acc64 => match_gpr o "q" && (o_reg o =? 0)
    | Pat_Cl => match_gpr o "b" && (o_reg o =? 1) && negb (o_high_byte o)
    | Pat_Rel => is_kind_of K_Sym o
    | Pat_IndirRm => o_indirect o && (match_gpr o "q" || is_kind_of K_Mem o)
    | Pat_St0 => match_gpr o "t" && (o_reg o =? 0)
    | Pat_StN => match_gpr o "t"
    | Pat_Cond => is_cond o
    end.
Fixpoint match_operands (pats : list OpndPat) (ops : list AsmOperand) (width : Z) : bool :=
  match pats, ops with
  | _, [] => true
  | [], _ :: _ => false
  | p :: pats, o :: ops => match_operand p o width && match_operands pats ops width
  end.
Definition match_row (r : X86IsaRow) (ops : list AsmOperand) : bool :=
  Nat.eqb (pattern_arity r) (length ops) && match_operands (r_pats r) ops (row_operand_width r).

Definition pattern_is_rm (p : OpndPat) : bool :=
  match p with Pat_Rm8 | Pat_Rm16 | Pat_Rm32 | Pat_Rm64 | Pat_Mem | Pat_RmX | Pat_IndirRm => true | _ => false end.
Definition pattern_is_reg_field (p : OpndPat) : bool :=
  match p with Pat_Gpr8 | Pat_Gpr16 | Pat_Gpr32 | Pat_Gpr64 | Pat_Xmm => true | _ => false end.
Definition pattern_imm_bytes (p : OpndPat) : Z :=
  match p with
  | Pat_Imm8s | Pat_Imm8u => 1
  | Pat_Imm16 => 2
  | Pat_Imm32 | Pat_ImmSym => 4
  | Pat_Imm64 | Pat_ImmSym64 => 8
  | _ => 0
  end.
Definition pattern_is_imm (p : OpndPat) : bool := negb (pattern_imm_bytes p =? 0) || bool_decide (p = Pat_ImmOne).

(** ** Addressing *)

Record RmEncoding := mkRm {
  m_modrm : Z; m_has_sib : bool; m_sib : Z; m_disp_bytes : Z; m_disp : Z; m_rex_x : bool; m_rex_b : bool; m_rip : bool }.
Definition no_rm : RmEncoding := mkRm 0 false 0 0 0 false false false.
Definition scale_bits (scale : Z) : option Z :=
  if scale =? 1 then Some 0 else if scale =? 2 then Some 1 else if scale =? 4 then Some 2 else if scale =? 8 then Some 3 else None.
(** [mod] and the bytes of the displacement *)
Definition displacement_form (o : AsmOperand) : Z * Z :=
  if negb (o_has_base o) then (0, 4)
  else if (o_disp o =? 0) && negb (Z.land (o_base o) 7 =? 5) && negb (is_sym (o_sym o)) then (0, 0)
  else if fits_int8 (o_disp o) && negb (is_sym (o_sym o)) then (1, 1)
  else (2, 4).
Definition reg_bits (reg_field : Z) : Z := Z.shiftl (Z.land reg_field 7) 3.
Definition encode_rm (o : AsmOperand) (reg_field : Z) : RmEncoding + chars :=
  match o_kind o with
  | K_Reg => inl (mkRm (Z.lor (Z.lor 0xC0 (reg_bits reg_field)) (Z.land (o_reg o) 7)) false 0 0 0 false (8 <=? o_reg o) false)
  | K_Mem =>
      if o_rip o then inl (mkRm (Z.lor (reg_bits reg_field) 5) false 0 4 (o_disp o) false false true)
      else if o_has_index o && (o_index o =? 4) then inr (str "%rsp cannot be an index register")
      else
        let need_sib := o_has_index o || negb (o_has_base o) || (Z.land (o_base o) 7 =? 4) in
        let '(mod_, disp_bytes) := displacement_form o in
        if need_sib then
          match scale_bits (o_scale o) with
          | None => inr (str "index scale must be 1, 2, 4, or 8")
          | Some scale =>
              let index_field := if o_has_index o then Z.land (o_index o) 7 else 4 in
              let base_field := if o_has_base o then Z.land (o_base o) 7 else 5 in
              inl (mkRm (Z.lor (Z.lor (Z.shiftl mod_ 6) (reg_bits reg_field)) 4) true
                (Z.lor (Z.lor (Z.shiftl scale 6) (Z.shiftl index_field 3)) base_field) disp_bytes (o_disp o)
                (o_has_index o && (8 <=? o_index o)) (o_has_base o && (8 <=? o_base o)) false)
          end
        else
          inl (mkRm (Z.lor (Z.lor (Z.shiftl mod_ 6) (reg_bits reg_field)) (Z.land (o_base o) 7)) false 0 disp_bytes (o_disp o) false
            (8 <=? o_base o) false)
  | _ => inr (str "operand is not addressable")
  end.
Definition forces_rex (o : AsmOperand) : bool :=
  is_kind_of K_Reg o && ceqb (o_class o) "b" && negb (o_high_byte o) && (4 <=? o_reg o) && (o_reg o <=? 7).
Definition bars_rex (o : AsmOperand) : bool := is_kind_of K_Reg o && o_high_byte o.

(** ** Packing *)

Definition add_byte (v : Z) (e : IsaEncoded) : IsaEncoded :=
  mkEncoded (e_ok e) (e_error e) (e_bytes e ++ [v]) (e_fixup e) (e_fixup_offset e) (e_pcrel_extra e) (e_sym e) (e_addend e)
    (e_flavor e) (e_is_branch e) (e_short_opcode e) (e_near_size e).
Definition with_fixup (k : IsaFixup) (extra : Z) (o : AsmOperand) (e : IsaEncoded) : IsaEncoded :=
  mkEncoded (e_ok e) (e_error e) (e_bytes e) k (size (e_bytes e)) extra (o_sym o) (o_addend o) (o_flavor o) (e_is_branch e)
    (e_short_opcode e) (e_near_size e).
Definition with_branch (short : Z) (e : IsaEncoded) : IsaEncoded :=
  mkEncoded (e_ok e) (e_error e) (e_bytes e) (e_fixup e) (e_fixup_offset e) (e_pcrel_extra e) (e_sym e) (e_addend e) (e_flavor e)
    true short (e_near_size e).
Definition with_near_size (n : Z) (e : IsaEncoded) : IsaEncoded :=
  mkEncoded (e_ok e) (e_error e) (e_bytes e) (e_fixup e) (e_fixup_offset e) (e_pcrel_extra e) (e_sym e) (e_addend e) (e_flavor e)
    (e_is_branch e) (e_short_opcode e) n.
Definition with_ok (e : IsaEncoded) : IsaEncoded :=
  mkEncoded true (e_error e) (e_bytes e) (e_fixup e) (e_fixup_offset e) (e_pcrel_extra e) (e_sym e) (e_addend e) (e_flavor e)
    (e_is_branch e) (e_short_opcode e) (e_near_size e).

Abbreviation Packer := (M IsaEncoded).
Definition byte (v : Z) : Packer unit := e ← get; if size (e_bytes e) <? max_encoded then modify_state (add_byte v) else undefined.
Fixpoint put_bytes (l : list Z) : Packer unit := match l with [] => mret tt | v :: l => _ ← byte v; put_bytes l end.
Definition field (value width : Z) : Packer unit := put_bytes (little_endian (Z.to_nat width) (u64 value)).
Definition opcode_list (opcode cond_add : Z) : list Z :=
  (if 0xFFFF <? opcode then [u8 (Z.shiftr opcode 16)] else []) ++ (if 0xFF <? opcode then [u8 (Z.shiftr opcode 8)] else []) ++
  [u8 (Z.land opcode 0xFF + cond_add)].
Definition opcode_bytes (opcode cond_add : Z) : Packer unit := put_bytes (opcode_list opcode cond_add).
Definition when (b : bool) (m : Packer unit) : Packer unit := if b then m else mret tt.

(** ** Rows *)

(** The parts the operands play. *)
Record Roles := mkRoles { c_rm : option AsmOperand; c_reg : option AsmOperand; c_imm : option AsmOperand; c_imm_pattern : OpndPat; c_cond : Z }.
Definition take_role (c : Roles) (po : OpndPat * AsmOperand) : Roles :=
  let '(p, o) := po in
  if pattern_is_rm p then mkRoles (Some o) (c_reg c) (c_imm c) (c_imm_pattern c) (c_cond c)
  else if pattern_is_reg_field p then mkRoles (c_rm c) (Some o) (c_imm c) (c_imm_pattern c) (c_cond c)
  else if pattern_is_imm p then mkRoles (c_rm c) (c_reg c) (Some o) p (c_cond c)
  else if bool_decide (p = Pat_Cond) then mkRoles (c_rm c) (c_reg c) (c_imm c) (c_imm_pattern c) (o_reg o)
  else c.
Definition has_flag (r : X86IsaRow) (f : Z) : bool := negb (Z.land (r_flags r) f =? 0).
Definition roles (r : X86IsaRow) (ops : list AsmOperand) : Roles :=
  let c := foldl take_role (mkRoles None None None Pat_None 0) (zip (r_pats r) ops) in
  if has_flag r RF_COND then c else mkRoles (c_rm c) (c_reg c) (c_imm c) (c_imm_pattern c) 0.
(** What the class adds: the addressing with whether it is there, the bit R of the
    prefix and the register in the opcode. *)
Record Form := mkForm { f_addressing : option RmEncoding; f_rex_r : bool; f_rex_b : bool; f_opcode_reg : Z }.
Definition first_reg (ops : list AsmOperand) : option AsmOperand := snd <$> list_find (fun o => o_kind o = K_Reg) ops.
Definition first_stack (r : X86IsaRow) (ops : list AsmOperand) : option AsmOperand :=
  (fun e => snd (snd e)) <$> list_find (fun po => fst po = Pat_StN) (zip (r_pats r) ops).
Definition row_form (r : X86IsaRow) (ops : list AsmOperand) (c : Roles) : Form + chars :=
  match r_enc r with
  | Enc_Plain | Enc_Rel => inl (mkForm None false false 0)
  | Enc_Modrm =>
      match c_rm c with
      | None => inr (str "row has no addressable operand")
      | Some rm =>
          match encode_rm rm (match c_reg c with Some reg => o_reg reg | None => r_aux r end) with
          | inr message => inr message
          | inl a => inl (mkForm (Some a) (match c_reg c with Some reg => 8 <=? o_reg reg | None => false end) (m_rex_b a) 0)
          end
      end
  | Enc_OpReg =>
      match (match c_reg c with Some reg => Some reg | None => first_reg ops end) with
      | None => inr (str "row has no register operand")
      | Some t => inl (mkForm None false (8 <=? o_reg t) (Z.land (o_reg t) 7))
      end
  | Enc_FpuSt =>
      match first_stack r ops with
      | None => inr (str "row has no x87 stack operand")
      | Some t => if 7 <? o_reg t then inr (str "x87 stack index is out of range") else inl (mkForm None false false (o_reg t))
      end
  end.
Definition rex_byte (w r x b : bool) : Z :=
  Z.lor (Z.lor (Z.lor (Z.lor 0x40 (if w then 8 else 0)) (if r then 4 else 0)) (if x then 2 else 0)) (if b then 1 else 0).
Definition rm_segment (c : Roles) : Z := match c_rm c with Some rm => if is_kind_of K_Mem rm then o_segment rm else 0 | None => 0 end.

Definition pack_branch (r : X86IsaRow) (ops : list AsmOperand) (c : Roles) : Packer unit :=
  _ ← modify_state (with_branch (if has_flag r RF_RELAX then u8 (r_aux r + c_cond c) else 0));
  t ← must (ops !! pred (pattern_arity r));
  _ ← modify_state (with_fixup Fix_PcRel32 0 t);
  _ ← field 0 4;
  _ ← modify_state (fun e => with_near_size (size (e_bytes e)) e);
  modify_state with_ok.
Definition pack_rm (rm : AsmOperand) (a : RmEncoding) (imm_width : Z) : Packer unit :=
  _ ← byte (m_modrm a);
  _ ← when (m_has_sib a) (byte (m_sib a));
  when (negb (m_disp_bytes a =? 0))
    (if is_sym (o_sym rm) then
       _ ← modify_state (with_fixup (if m_rip a then Fix_PcRel32 else Fix_Abs32) imm_width rm);
       field (if m_rip a then - imm_width else m_disp a) (m_disp_bytes a)
     else field (m_disp a) (m_disp_bytes a)).
Definition pack_imm (imm : AsmOperand) (imm_width : Z) : Packer unit :=
  if is_kind_of K_Sym imm then
    e ← get;
    _ ← modify_state (with_fixup (if imm_width =? 8 then Fix_Abs64 else Fix_Abs32) (e_pcrel_extra e) imm);
    field 0 imm_width
  else field (o_imm imm) imm_width.
(** The prefixes and the opcode. *)
Definition pack_opcode (r : X86IsaRow) (c : Roles) (f : Form) (rex_needed rex_x : bool) : Packer unit :=
  _ ← when (negb (rm_segment c =? 0)) (byte (rm_segment c));
  _ ← when (negb (r_prefix r =? 0)) (byte (r_prefix r));
  _ ← when rex_needed (byte (rex_byte (has_flag r RF_W) (f_rex_r f) rex_x (f_rex_b f)));
  opcode_bytes (r_opcode r) (u8 (c_cond c + f_opcode_reg f)).
Definition pack_row (r : X86IsaRow) (ops : list AsmOperand) (c : Roles) (f : Form) (rex_needed rex_x : bool) : Packer unit :=
  _ ← pack_opcode r c f rex_needed rex_x;
  let imm_width := pattern_imm_bytes (c_imm_pattern c) in
  if bool_decide (r_enc r = Enc_Rel) then pack_branch r ops c
  else
    _ ← (match f_addressing f, c_rm c with Some a, Some rm => pack_rm rm a imm_width | _, _ => mret tt end);
    _ ← (match c_imm c with Some imm => when (negb (imm_width =? 0)) (pack_imm imm imm_width) | None => mret tt end);
    modify_state with_ok.
Definition x86_encode_row (r : X86IsaRow) (ops : list AsmOperand) : outcome IsaEncoded :=
  if negb (Nat.eqb (length ops) (pattern_arity r)) then Done (not_encoded (str "wrong number of operands"))
  else
    let c := roles r ops in
    match row_form r ops c with
    | inr message => Done (not_encoded message)
    | inl f =>
        let rex_x := match f_addressing f with Some a => m_rex_x a | None => false end in
        let rex_needed := has_flag r RF_W || f_rex_r f || rex_x || f_rex_b f || existsb forces_rex ops in
        if rex_needed && existsb bars_rex ops then Done (not_encoded (str "%ah/%ch/%dh/%bh cannot be used with a REX prefix"))
        else
          result ← pack_row r ops c f rex_needed rex_x empty_encoded;
          Done (snd result)
    end.

(** ** The table *)

Definition mnemonic_index : list X86IsaRow := sorted_table r_mnemonic kRows.
Definition x86_known_mnemonic (mnemonic : chars) : outcome bool :=
  i ← table_lower_bound r_mnemonic mnemonic_index mnemonic;
  Done (match mnemonic_index !! i with Some r => bool_decide (r_mnemonic r = mnemonic) | None => false end).

(** A prefix moves the bytes up by one. *)
Definition add_prefix (prefix : Z) (e : IsaEncoded) : outcome IsaEncoded :=
  if prefix =? 0 then Done e
  else if size (e_bytes e) <? max_encoded then
    Done (mkEncoded (e_ok e) (e_error e) (prefix :: e_bytes e) (e_fixup e)
      (if bool_decide (e_fixup e = Fix_None) then e_fixup_offset e else e_fixup_offset e + 1) (e_pcrel_extra e) (e_sym e) (e_addend e)
      (e_flavor e) (e_is_branch e) (e_short_opcode e) (if e_is_branch e then e_near_size e + 1 else e_near_size e))
  else Undefined_behaviour.
(** The rows of a mnemonic are tried in order; the last that matches gives the error. *)
Fixpoint try_rows (rows : list X86IsaRow) (ops : list AsmOperand) (prefix : Z) (last_error : IsaEncoded) : outcome IsaEncoded :=
  match rows with
  | [] => Done last_error
  | r :: rows =>
      if match_row r ops then
        e ← x86_encode_row r ops;
        if e_ok e then add_prefix prefix e else try_rows rows ops prefix e
      else try_rows rows ops prefix last_error
  end.
Definition x86_match_and_encode (mnemonic : chars) (ops : list AsmOperand) (lock_prefix : Z) : outcome IsaEncoded :=
  rows ← named r_mnemonic mnemonic_index mnemonic;
  if bool_decide (rows = []) then Done (not_encoded (str "unknown instruction '" ++ mnemonic ++ str "'"))
  else try_rows rows ops lock_prefix (not_encoded (str "no encoding matches the operands of '" ++ mnemonic ++ str "'")).
