(* ===== verification/X86IsaProps.v ===== *)
(** * x86-64 instructions read back

    The architecture's reading of an encoded instruction, relative to its row: prefixes,
    opcode, addressing and immediate. A row that matches and encodes gives bytes that
    read back as its operands, within the fifteen bytes of an instruction. *)
From stdpp Require Import list sets strings.
From S2P Require Import Prelude Vectors Outcome AsmExpr Mir AsmUnit Assembler SortedTable X86Isa.
Open Scope Z_scope.

(** ** The architecture's reading *)

Inductive Address := Addr_reg (n : Z) | Addr_mem (base : option Z) (index : option (Z * Z)) (displacement : Z) | Addr_rip (displacement : Z).
Definition high_bit (b : bool) : Z := if b then 8 else 0.
Definition take_bytes (n : nat) (l : list Z) : option (Z * list Z) :=
  if (length l <? n)%nat then None else Some (little_endian_value (take n l), drop n l).
Definition read_signed (n : nat) (l : list Z) : option (Z * list Z) :=
  match take_bytes n l with Some (d, l) => Some (swrap (8 * Z.of_nat n) d, l) | None => None end.
Definition read_displacement (mod_ : Z) (l : list Z) : option (Z * list Z) :=
  if mod_ =? 1 then read_signed 1 l else if mod_ =? 2 then read_signed 4 l else Some (0, l).
Definition read_address (x b : bool) (modrm : Z) (l : list Z) : option (Address * list Z) :=
  let mod_ := Z.shiftr modrm 6 in
  let rm := Z.land modrm 7 in
  if mod_ =? 3 then Some (Addr_reg (rm + high_bit b), l)
  else if rm =? 4 then
    match l with
    | [] => None
    | sib :: l =>
        let index := Z.land (Z.shiftr sib 3) 7 + high_bit x in
        let index := if index =? 4 then None else Some (index, Z.shiftl 1 (Z.shiftr sib 6)) in
        let base := Z.land sib 7 in
        if (base =? 5) && (mod_ =? 0) then
          match read_signed 4 l with Some (d, l) => Some (Addr_mem None index d, l) | None => None end
        else
          match read_displacement mod_ l with Some (d, l) => Some (Addr_mem (Some (base + high_bit b)) index d, l) | None => None end
    end
  else if (rm =? 5) && (mod_ =? 0) then
    match read_signed 4 l with Some (d, l) => Some (Addr_rip d, l) | None => None end
  else match read_displacement mod_ l with Some (d, l) => Some (Addr_mem (Some (rm + high_bit b)) None d, l) | None => None end.

(** What the operand of an addressing form means; a symbol's field waits for its fixup
    with what it holds. *)
Definition shown (o : AsmOperand) (imm_width : Z) : Z := if is_sym (o_sym o) && o_rip o then - imm_width else o_disp o.
Definition address (o : AsmOperand) (imm_width : Z) : Address :=
  match o_kind o with
  | K_Reg => Addr_reg (o_reg o)
  | _ =>
      if o_rip o then Addr_rip (swrap 32 (shown o imm_width))
      else
        Addr_mem (if o_has_base o then Some (o_base o) else None) (if o_has_index o then Some (o_index o, o_scale o) else None)
          (swrap 32 (o_disp o))
  end.
(** The operands the parser makes. *)
Definition opnd_ok (o : AsmOperand) : Prop :=
  word 4 (o_reg o) /\ word 4 (o_base o) /\ word 4 (o_index o) /\ (o_high_byte o = true -> ceqb (o_class o) "b" = true /\ 4 <= o_reg o <= 7) /\
  o_segment o ∈ [0; 0x64; 0x65] /\ fits64 (o_imm o) = true /\ fits64 (o_disp o) = true.

(** *** Small fields *)

Definition modrm_of (m r b : Z) : Z := Z.lor (Z.lor (Z.shiftl m 6) (reg_bits r)) b.
Definition sib_of (s i b : Z) : Z := Z.lor (Z.lor (Z.shiftl s 6) (Z.shiftl i 3)) b.
Definition modrm_ok (m r b : Z) : bool :=
  let v := modrm_of m r b in (Z.shiftr v 6 =? m) && (Z.land (Z.shiftr v 3) 7 =? Z.land r 7) && (Z.land v 7 =? b).
Definition sib_ok (s i b : Z) : bool :=
  let v := sib_of s i b in (Z.shiftr v 6 =? s) && (Z.land (Z.shiftr v 3) 7 =? i) && (Z.land v 7 =? b).
Lemma modrm_all : forallb (fun m => forallb (fun r => forallb (modrm_ok m r) (seqZ 0 8)) (seqZ 0 16)) (seqZ 0 4) = true.
Proof. vm_compute. reflexivity. Qed.
Lemma sib_all : forallb (fun s => forallb (fun i => forallb (sib_ok s i) (seqZ 0 8)) (seqZ 0 8)) (seqZ 0 4) = true.
Proof. vm_compute. reflexivity. Qed.
Lemma forallb_seqZ f n x : forallb f (seqZ 0 n) = true -> 0 <= x < n -> f x = true.
Proof. rewrite forallb_forall. intros H Hx. apply H, list_elem_of_In, elem_of_seqZ. lia. Qed.
Lemma modrm_fields m r b : 0 <= m < 4 -> 0 <= r < 16 -> 0 <= b < 8 ->
  Z.shiftr (modrm_of m r b) 6 = m /\ Z.land (Z.shiftr (modrm_of m r b) 3) 7 = Z.land r 7 /\ Z.land (modrm_of m r b) 7 = b.
Proof.
  intros Hm Hr Hb. pose proof (forallb_seqZ _ _ _ (forallb_seqZ _ _ _ (forallb_seqZ _ _ _ modrm_all Hm) Hr) Hb) as H. unfold modrm_ok in H.
  rewrite !andb_true_iff in H. destruct H as [[H1 H2] H3]. ztests. done.
Qed.
Lemma sib_fields s i b : 0 <= s < 4 -> 0 <= i < 8 -> 0 <= b < 8 ->
  Z.shiftr (sib_of s i b) 6 = s /\ Z.land (Z.shiftr (sib_of s i b) 3) 7 = i /\ Z.land (sib_of s i b) 7 = b.
Proof.
  intros Hm Hr Hb. pose proof (forallb_seqZ _ _ _ (forallb_seqZ _ _ _ (forallb_seqZ _ _ _ sib_all Hm) Hr) Hb) as H. unfold sib_ok in H.
  rewrite !andb_true_iff in H. destruct H as [[H1 H2] H3]. ztests. done.
Qed.
Lemma low_high_all : forallb (fun n => (Z.land n 7 + high_bit (8 <=? n) =? n) && (0 <=? Z.land n 7) && (Z.land n 7 <? 8)) (seqZ 0 16) = true.
Proof. vm_compute. reflexivity. Qed.
Lemma low_high n : 0 <= n < 16 -> Z.land n 7 + high_bit (8 <=? n) = n /\ 0 <= Z.land n 7 < 8.
Proof. intros Hn. pose proof (forallb_seqZ _ _ _ low_high_all Hn) as H. rewrite !andb_true_iff in H. destruct H as [[H1 H2] H3]. ztests. lia. Qed.

Lemma take_bytes_field n v l : take_bytes n (little_endian n v ++ l) = Some (v mod 2 ^ (8 * Z.of_nat n), l).
Proof.
  unfold take_bytes. pose proof (length_little_endian n v) as Hl. rewrite length_app, Hl.
  destruct (Nat.ltb_spec (n + length l) n); [lia|]. rewrite take_app_length', drop_app_length' by done. by rewrite little_endian_read.
Qed.
Lemma read_signed_field n v l : (0 < n <= 8)%nat -> read_signed n (little_endian n (u64 v) ++ l) = Some (swrap (8 * Z.of_nat n) v, l).
Proof.
  intros Hn. unfold read_signed. rewrite take_bytes_field. do 2 f_equal. unfold swrap.
  replace (uwrap (8 * Z.of_nat n) (u64 v mod 2 ^ (8 * Z.of_nat n))) with (uwrap (8 * Z.of_nat n) v); [done|].
  unfold uwrap. pose proof (pow2_pos (8 * Z.of_nat n)). rewrite Z.mod_mod by lia. rewrite Z.mod_mod_divide; [done|].
  exists (2 ^ (64 - 8 * Z.of_nat n)). rewrite <- Z.pow_add_r by lia. f_equal. lia.
Qed.

(** ** Addressing *)

Definition disp_field (a : RmEncoding) (o : AsmOperand) (imm_width : Z) : list Z :=
  little_endian (Z.to_nat (m_disp_bytes a)) (u64 (shown o imm_width)).
Definition rm_tail (a : RmEncoding) (o : AsmOperand) (imm_width : Z) : list Z :=
  (if m_has_sib a then [m_sib a] else []) ++ disp_field a o imm_width.

Lemma displacement_read o l w : let '(m, n) := displacement_form o in
  o_has_base o = true -> o_rip o = false ->
  (m = 0 -> Z.land (o_base o) 7 <> 5) /\ 0 <= m < 3 /\ 0 <= n <= 4 /\
  read_displacement m (little_endian (Z.to_nat n) (u64 (shown o w)) ++ l) = Some (swrap 32 (o_disp o), l).
Proof.
  unfold displacement_form. destruct (o_has_base o); [|by cbn]. cbn [negb].
  assert (Hs : o_rip o = false -> shown o w = o_disp o) by (unfold shown; intros ->; by rewrite andb_false_r).
  destruct (_ && _ && _) eqn:E1.
  - intros _ Hr. rewrite !andb_true_iff in E1. destruct E1 as [[H1 H2] _]. ztests. split; [done|]. split; [lia|]. split; [lia|].
    unfold read_displacement. cbn. by rewrite H1.
  - destruct (fits_int8 (o_disp o) && negb (is_sym (o_sym o))) eqn:E2; cbn beta iota; intros _ Hr; (split; [done|]; split; [lia|]; split; [lia|]); rewrite Hs by done; unfold read_displacement; cbn [Z.eqb Pos.eqb].
    + change (Z.to_nat 1) with 1%nat. rewrite read_signed_field by lia. do 2 f_equal. apply andb_true_iff in E2 as [E2 _]. unfold fits_int8 in E2.
      apply andb_true_iff in E2 as [E2 E3]. ztests. rewrite !swrap_small; lia.
    + change (Z.to_nat 4) with 4%nat. by rewrite read_signed_field by lia.
Qed.
Lemma scale_read s b : scale_bits s = Some b -> 0 <= b < 4 /\ Z.shiftl 1 b = s.
Proof. unfold scale_bits. intros H. repeat case_match; simplify_eq; ztests; subst; split; done || lia. Qed.
(** An addressing form reads back, whatever follows it. *)
Lemma rm_read o reg a w l : encode_rm o reg = inl a -> opnd_ok o -> 0 <= reg < 16 ->
  read_address (m_rex_x a) (m_rex_b a) (m_modrm a) (rm_tail a o w ++ l) = Some (address o w, l) /\
  Z.land (Z.shiftr (m_modrm a) 3) 7 = Z.land reg 7 /\ 0 <= m_disp_bytes a <= 4.
Proof.
  intros He (Hr & Hb & Hi & _) Hreg. unfold word in *. change (2 ^ 4) with 16 in *. unfold encode_rm in He. unfold address.
  destruct (o_kind o) eqn:Hk; [|done| |done].
  - injection He as <-. cbn [m_modrm m_rex_x m_rex_b m_disp_bytes m_has_sib m_sib rm_tail]. change (Z.lor 0xC0 (reg_bits reg)) with (Z.lor (Z.shiftl 3 6) (reg_bits reg)).
    destruct (low_high (o_reg o) Hr) as [H1 H2]. destruct (modrm_fields 3 reg (Z.land (o_reg o) 7)) as (M1 & M2 & M3); [lia|lia|lia|].
    fold (modrm_of 3 reg (Z.land (o_reg o) 7)). split; [|split; [done|lia]]. unfold read_address. rewrite M1, M3. cbn. by rewrite H1.
  - destruct (o_rip o) eqn:Hrip.
    { injection He as <-. cbn [m_modrm m_rex_x m_rex_b m_disp_bytes m_has_sib m_sib].
      destruct (modrm_fields 0 reg 5) as (M1 & M2 & M3); [lia|lia|lia|]. change (Z.lor (reg_bits reg) 5) with (modrm_of 0 reg 5).
      split; [|split; [done|lia]]. unfold read_address. rewrite M1, M3. cbn [Z.eqb Pos.eqb andb]. unfold rm_tail, disp_field. cbn [m_has_sib m_disp_bytes app].
      change (Z.to_nat 4) with 4%nat. by rewrite read_signed_field by lia. }
    destruct (o_has_index o && (o_index o =? 4)) eqn:H4; [done|]. pose proof (displacement_read o l w) as Hd.
    destruct (displacement_form o) as [m n] eqn:Hform. 
    destruct (o_has_index o || _ || _) eqn:Hneed.
    + destruct (scale_bits (o_scale o)) as [sc|] eqn:Hsc; [|done]. injection He as <-. destruct (scale_read _ _ Hsc) as [Hsc1 Hsc2].
      cbn [m_modrm m_rex_x m_rex_b m_disp_bytes m_has_sib m_sib]. unfold rm_tail, disp_field. cbn [m_has_sib m_sib m_disp_bytes app].
      set (index_field := if o_has_index o then Z.land (o_index o) 7 else 4). set (base_field := if o_has_base o then Z.land (o_base o) 7 else 5).
      destruct (low_high _ Hb) as [Hb1 Hb2]. destruct (low_high _ Hi) as [Hi1 Hi2].
      assert (Hif : 0 <= index_field < 8) by (unfold index_field; destruct (o_has_index o); lia).
      assert (Hbf : 0 <= base_field < 8) by (unfold base_field; destruct (o_has_base o); lia).
      destruct (sib_fields sc index_field base_field Hsc1 Hif Hbf) as (S1 & S2 & S3). fold (sib_of sc index_field base_field).
      assert (Hm : 0 <= m < 3 /\ 0 <= n <= 4).
      { destruct (o_has_base o) eqn:Hbase; [by destruct (Hd eq_refl Hrip) as (_ & ? & ? & _)|]. unfold displacement_form in Hform. rewrite Hbase in Hform.
        cbn in Hform. injection Hform as <- <-. lia. }
      destruct (modrm_fields m reg 4) as (M1 & M2 & M3); [lia|lia|lia|]. fold (modrm_of m reg 4). split; [|split; [done|lia]].
      unfold read_address. rewrite M1, M3, S1, S2, S3. rewrite (proj2 (Z.eqb_neq m 3)) by lia. cbn [Z.eqb Pos.eqb].
      assert (Hindex : (if index_field + high_bit (o_has_index o && (8 <=? o_index o)) =? 4 then None
                        else Some (index_field + high_bit (o_has_index o && (8 <=? o_index o)), Z.shiftl 1 sc)) =
                       if o_has_index o then Some (o_index o, o_scale o) else None).
      { unfold index_field. destruct (o_has_index o) eqn:Hix; cbn [andb] in *; [|done]. rewrite Hi1, H4. by rewrite Hsc2. }
      rewrite Hindex. unfold base_field. destruct (o_has_base o) eqn:Hbase; cbn [andb].
      * destruct (Hd eq_refl Hrip) as (Hne & _ & _ & Hread). destruct ((_ =? 5) && (m =? 0)) eqn:E5.
        { apply andb_true_iff in E5 as [E5 E0]. ztests. by destruct (Hne E0). }
        rewrite Hread. by rewrite Hb1.
      * unfold displacement_form in Hform. rewrite Hbase in Hform. cbn in Hform. injection Hform as <- <-. cbn [Z.eqb Pos.eqb andb].
        change (Z.to_nat 4) with 4%nat. rewrite read_signed_field by lia. unfold shown. by rewrite Hrip, andb_false_r.
    + injection He as <-. apply orb_false_iff in Hneed as [[Hix Hbase%negb_false_iff]%orb_false_iff H44]. ztests.
      destruct (Hd Hbase Hrip) as (Hne & Hm & Hn & Hread). destruct (low_high _ Hb) as [Hb1 Hb2].
      cbn [m_modrm m_rex_x m_rex_b m_disp_bytes m_has_sib m_sib]. unfold rm_tail, disp_field. cbn [m_has_sib m_sib m_disp_bytes app].
      destruct (modrm_fields m reg (Z.land (o_base o) 7)) as (M1 & M2 & M3); [lia|lia|lia|]. fold (modrm_of m reg (Z.land (o_base o) 7)).
      split; [|split; [done|lia]]. unfold read_address. rewrite M1, M3. rewrite (proj2 (Z.eqb_neq m 3)) by lia. rewrite (proj2 (Z.eqb_neq _ 4)) by done.
      destruct ((_ =? 5) && (m =? 0)) eqn:E5.
      { apply andb_true_iff in E5 as [E5 E0]. ztests. by destruct (Hne E0). }
      rewrite Hread, Hb1, Hbase, Hix. done.
Qed.
