(* ===== verification/X86Pack.v ===== *)
(** * The x86-64 encoder stays within the bytes of an instruction

    What a row packs, byte by byte. No row writes past the sixteen bytes the encoder has,
    nor does the prefix that is put before them; the field of a fixup lies within them, and
    its symbol is that of an operand. *)
From stdpp Require Import list sets strings.
From S2P Require Import Prelude Vectors Outcome AsmExpr Mir AsmUnit Assembler SortedTable X86Isa X86IsaProps.
Open Scope Z_scope.

(** ** What a packer does *)

Definition does (m : Packer unit) (e : IsaEncoded) (Q : IsaEncoded -> Prop) : Prop := exists e', m e = Done (tt, e') /\ Q e'.
Lemma does_bind m k e Q : does m e (fun e' => does k e' Q) -> does (m ≫= fun _ => k) e Q.
Proof. intros (e1 & H1 & e2 & H2 & HQ). exists e2. split; [|done]. unfold mbind, state_bind. by rewrite H1. Qed.
Lemma does_ret e (Q : IsaEncoded -> Prop) : Q e -> does (mret tt) e Q.
Proof. intros H. by exists e. Qed.
Lemma does_modify g e (Q : IsaEncoded -> Prop) : Q (g e) -> does (modify_state g) e Q.
Proof. intros H. by exists (g e). Qed.
Lemma does_get k e Q : does (k e) e Q -> does (get ≫= k) e Q.
Proof. done. Qed.
Lemma does_must {A} (o : option A) a k e Q : o = Some a -> does (k a) e Q -> does (must o ≫= k) e Q.
Proof. by intros ->. Qed.
Lemma does_mono m e (Q Q' : IsaEncoded -> Prop) : does m e Q -> (forall e', Q e' -> Q' e') -> does m e Q'.
Proof. intros (e' & H & HQ) Hi. exists e'. split; [done|by apply Hi]. Qed.
Definition add_bytes (l : list Z) (e : IsaEncoded) : IsaEncoded :=
  mkEncoded (e_ok e) (e_error e) (e_bytes e ++ l) (e_fixup e) (e_fixup_offset e) (e_pcrel_extra e) (e_sym e) (e_addend e)
    (e_flavor e) (e_is_branch e) (e_short_opcode e) (e_near_size e).
Lemma add_bytes_app l1 l2 e : add_bytes l2 (add_bytes l1 e) = add_bytes (l1 ++ l2) e.
Proof. unfold add_bytes. cbn. by rewrite app_assoc. Qed.
Lemma add_bytes_nil e : add_bytes [] e = e.
Proof. unfold add_bytes. rewrite app_nil_r. by destruct e. Qed.
Lemma does_byte v e (Q : IsaEncoded -> Prop) : size (e_bytes e) < max_encoded -> Q (add_bytes [v] e) -> does (byte v) e Q.
Proof. intros Hs HQ. exists (add_bytes [v] e). split; [|done]. unfold byte, mbind, state_bind, get. destruct (Z.ltb_spec (size (e_bytes e)) max_encoded); [done|lia]. Qed.
Lemma size_cons {A} (a : A) l : size (a :: l) = 1 + size l.
Proof. unfold size. cbn [length]. lia. Qed.
Lemma does_bytes l : forall e (Q : IsaEncoded -> Prop), size (e_bytes e) + size l <= max_encoded -> Q (add_bytes l e) -> does (put_bytes l) e Q.
Proof.
  induction l as [|v l IH]; intros e Q Hs HQ; cbn [put_bytes]; [apply does_ret; by rewrite add_bytes_nil in HQ|].
  rewrite size_cons in Hs. pose proof (size_nonneg l). apply does_bind, does_byte; [lia|]. apply IH.
  - cbn [e_bytes add_bytes]. rewrite size_app. change (size [v]) with 1. lia.
  - by rewrite add_bytes_app.
Qed.
Lemma does_when_bytes b l m e (Q : IsaEncoded -> Prop) : size (e_bytes e) + size (if b : bool then l else []) <= max_encoded ->
  (forall e', size (e_bytes e') + size l <= max_encoded -> Q (add_bytes l e') -> does m e' Q) -> Q (add_bytes (if b then l else []) e) ->
  does (when b m) e Q.
Proof. intros Hs Hm HQ. destruct b; cbn; [by apply Hm|]. apply does_ret. by rewrite add_bytes_nil in HQ. Qed.
Lemma does_when_byte (b : bool) v e (Q : IsaEncoded -> Prop) : size (e_bytes e) + size (if b then [v] else []) <= max_encoded ->
  Q (add_bytes (if b then [v] else []) e) -> does (when b (byte v)) e Q.
Proof. intros Hs HQ. apply does_when_bytes with [v]; [done| |done]. intros e' He HQ'. apply does_byte; [|done]. unfold size in *. cbn in He. lia. Qed.

(** ** The bytes of a row *)

Section Row.
Variables (r : X86IsaRow) (ops : list AsmOperand) (c : Roles) (f : Form) (rex_needed rex_x : bool).

Definition head_bytes : list Z :=
  (if negb (rm_segment c =? 0) then [rm_segment c] else []) ++ (if negb (r_prefix r =? 0) then [r_prefix r] else []) ++
  (if rex_needed then [rex_byte (has_flag r RF_W) (f_rex_r f) rex_x (f_rex_b f)] else []) ++
  opcode_list (r_opcode r) (u8 (c_cond c + f_opcode_reg f)).
Definition imm_width : Z := pattern_imm_bytes (c_imm_pattern c).
Definition rm_bytes : list Z :=
  match f_addressing f, c_rm c with Some a, Some rm => m_modrm a :: rm_tail a rm imm_width | _, _ => [] end.
Definition imm_bytes : list Z :=
  match c_imm c with Some imm => little_endian (Z.to_nat imm_width) (u64 (if is_kind_of K_Sym imm then 0 else o_imm imm)) | None => [] end.
Definition row_bytes : list Z :=
  head_bytes ++ (if bool_decide (r_enc r = Enc_Rel) then little_endian 4 0 else rm_bytes ++ imm_bytes).
End Row.

(** *** Fixups *)

Definition fix_width (k : IsaFixup) : Z := match k with Fix_None => 0 | Fix_PcRel32 | Fix_Abs32 => 4 | Fix_Abs64 => 8 end.
(** The field of a fixup is within the bytes, and its symbol is an operand's. *)
Definition fixup_within (ops : list AsmOperand) (e : IsaEncoded) : Prop := e_fixup e <> Fix_None ->
  0 <= e_fixup_offset e /\ e_fixup_offset e + fix_width (e_fixup e) <= size (e_bytes e) /\
  exists o, o ∈ ops /\ e_sym e = o_sym o /\ (o_kind o = K_Sym \/ is_sym (o_sym o) = true).
Lemma fixup_add l ops e : fixup_within ops e -> fixup_within ops (add_bytes l e).
Proof. intros H Hf. destruct (H Hf) as (H1 & H2 & H3). split; [done|]. split; [|done]. cbn. rewrite size_app. pose proof (size_nonneg l). lia. Qed.
(** A field that is put after the fixup is set. *)
Lemma fixup_new k extra o l ops e : o ∈ ops -> o_kind o = K_Sym \/ is_sym (o_sym o) = true -> size l = fix_width k ->
  fixup_within ops (add_bytes l (with_fixup k extra o e)).
Proof.
  intros Ho Hs Hl _. cbn. rewrite size_app. pose proof (size_nonneg (e_bytes e)). split; [lia|]. split; [lia|]. by exists o.
Qed.
Lemma encode_rm_shape o reg a : encode_rm o reg = inl a -> 0 <= m_disp_bytes a <= 4 /\
  (m_disp_bytes a <> 0 -> m_disp a = o_disp o /\ m_rip a = o_rip o /\ (is_sym (o_sym o) = true -> m_disp_bytes a = 4)).
Proof.
  assert (Hd : forall n d, displacement_form o = (n, d) -> 0 <= d <= 4 /\ (d <> 0 -> is_sym (o_sym o) = true -> d = 4)).
  { unfold displacement_form. intros n d. destruct (is_sym (o_sym o)); rewrite ?andb_false_r; repeat case_match; intros [= <- <-]; split; done || lia. }
  unfold encode_rm. destruct (o_kind o); [|done| |done]; [intros [= <-]; cbn; lia|]. destruct (o_rip o); [intros [= <-]; cbn; split; [lia|done]|].
  destruct (_ && _); [done|]. destruct (displacement_form o) as [n d]. specialize (Hd n d eq_refl) as [H1 H2].
  destruct (_ || _ || _); [destruct (scale_bits _); [|done]|]; intros [= <-]; cbn; split; try done; intros H; split; try done; split; try done; by apply H2.
Qed.

(** ** Packing a row *)

Lemma size_fields n v : size (little_endian n v) = Z.of_nat n.
Proof. unfold size. by rewrite length_little_endian. Qed.
Lemma does_field v w e (Q : IsaEncoded -> Prop) : 0 <= w -> size (e_bytes e) + w <= max_encoded ->
  Q (add_bytes (little_endian (Z.to_nat w) (u64 v)) e) -> does (field v w) e Q.
Proof. intros Hw Hs HQ. apply does_bytes; [rewrite size_fields; lia|done]. Qed.
Lemma pack_opcode_does r c f n x e (Q : IsaEncoded -> Prop) : size (e_bytes e) + size (head_bytes r c f n x) <= max_encoded ->
  Q (add_bytes (head_bytes r c f n x) e) -> does (pack_opcode r c f n x) e Q.
Proof.
  unfold head_bytes, pack_opcode, opcode_bytes. rewrite !size_app. intros Hs HQ.
  set (l1 := if negb (rm_segment c =? 0) then _ else _) in *. set (l2 := if negb (r_prefix r =? 0) then _ else _) in *.
  set (l3 := if n then _ else _) in *. set (l4 := opcode_list _ _) in *.
  pose proof (size_nonneg l1). pose proof (size_nonneg l2). pose proof (size_nonneg l3). pose proof (size_nonneg l4).
  apply does_bind, does_when_byte; [fold l1; lia|]. fold l1. apply does_bind, does_when_byte; fold l2; cbn [e_bytes add_bytes]; rewrite ?size_app; [lia|].
  apply does_bind, does_when_byte; fold l3; cbn [e_bytes add_bytes]; rewrite ?size_app; [lia|].
  apply does_bytes; cbn [e_bytes add_bytes]; rewrite ?size_app; [lia|]. rewrite !add_bytes_app. done.
Qed.
Lemma pack_branch_does r ops c t e (Q : IsaEncoded -> Prop) : ops !! pred (pattern_arity r) = Some t -> t ∈ ops -> o_kind t = K_Sym ->
  size (e_bytes e) + 4 <= max_encoded ->
  (forall e', e_bytes e' = e_bytes e ++ little_endian 4 0 -> e_ok e' = true -> fixup_within ops e' -> e_is_branch e' = true ->
     e_fixup e' = Fix_PcRel32 -> e_near_size e' = size (e_bytes e') -> Q e') -> does (pack_branch r ops c) e Q.
Proof.
  intros Ht Hin Hk Hs HQ. apply does_bind, does_modify. eapply does_must; [exact Ht|]. apply does_bind, does_modify. apply does_bind, does_field; [done|done|].
  apply does_bind, does_modify, does_modify. apply HQ; [done|done| |done|done|done]. intros _. cbn. rewrite size_app.
  pose proof (size_nonneg (e_bytes e)). split; [lia|]. split; [done|]. exists t. split; [done|]. split; [done|by left].
Qed.
Lemma pack_rm_does ops rm reg a w e (Q : IsaEncoded -> Prop) : encode_rm rm reg = inl a -> rm ∈ ops -> 0 <= w ->
  size (e_bytes e) + size (m_modrm a :: rm_tail a rm w) <= max_encoded -> fixup_within ops e -> e_is_branch e = false ->
  (forall e', e_bytes e' = e_bytes e ++ m_modrm a :: rm_tail a rm w -> fixup_within ops e' -> e_is_branch e' = false -> Q e') ->
  does (pack_rm rm a w) e Q.
Proof.
  intros He Hin Hw Hs Hf Hbr HQ. destruct (encode_rm_shape _ _ _ He) as [Hd Hdisp]. rewrite size_cons in Hs. unfold rm_tail in *. rewrite size_app in Hs.
  set (l1 := if m_has_sib a then _ else _) in *. pose proof (size_nonneg l1). unfold disp_field in *. rewrite size_fields in Hs.
  apply does_bind, does_byte; [lia|]. apply does_bind, does_when_byte; fold l1; cbn [e_bytes add_bytes]; rewrite ?size_app; [change (size [m_modrm a]) with 1; lia|].
  set (e1 := add_bytes l1 (add_bytes [m_modrm a] e)). assert (Hf1 : fixup_within ops e1) by (by apply fixup_add, fixup_add).
  assert (Hs1 : size (e_bytes e1) + m_disp_bytes a <= max_encoded) by (unfold e1; cbn [e_bytes add_bytes]; rewrite !size_app; change (size [m_modrm a]) with 1; lia).
  assert (Hb1 : e_bytes e1 = e_bytes e ++ m_modrm a :: l1) by (unfold e1; cbn; by rewrite <- app_assoc).
  destruct (Z.eqb_spec (m_disp_bytes a) 0) as [H0|H0]; cbn [negb when].
  { apply does_ret. apply HQ; [|done|done]. rewrite H0. cbn [Z.to_nat little_endian]. by rewrite app_nil_r. }
  destruct (Hdisp H0) as (E1 & E2 & E3). rewrite E1, E2. unfold shown in *.
  destruct (is_sym (o_sym rm)) eqn:Hsym; cbn [andb] in *.
  - apply does_bind, does_modify, does_field; [lia|done|]. apply HQ; [cbn [e_bytes add_bytes with_fixup]; rewrite Hb1, <- app_assoc; done| |done].
    apply fixup_new; [done|by right|]. rewrite size_fields, E3 by done. by destruct (o_rip rm).
  - apply does_field; [lia|done|]. apply HQ; [cbn [e_bytes add_bytes with_fixup]; rewrite Hb1, <- app_assoc; done|by apply fixup_add|done].
Qed.
Lemma pack_imm_does ops imm w e (Q : IsaEncoded -> Prop) : imm ∈ ops -> (o_kind imm = K_Sym -> w = 4 \/ w = 8) -> 0 <= w ->
  size (e_bytes e) + w <= max_encoded -> fixup_within ops e -> e_is_branch e = false ->
  (forall e', e_bytes e' = e_bytes e ++ little_endian (Z.to_nat w) (u64 (if is_kind_of K_Sym imm then 0 else o_imm imm)) ->
     fixup_within ops e' -> e_is_branch e' = false -> Q e') -> does (pack_imm imm w) e Q.
Proof.
  intros Hin Hk Hw Hs Hf Hbr HQ. unfold pack_imm, is_kind_of in *. case_bool_decide as Hs'.
  - apply does_get, does_bind, does_modify, does_field; [lia|done|]. apply HQ; [done| |done]. apply fixup_new; [done|by left|].
    rewrite size_fields. destruct (Hk Hs') as [->| ->]; done.
  - apply does_field; [lia|done|]. apply HQ; [done|by apply fixup_add|done].
Qed.

(** ** The parts the operands play *)

Lemma pick_none {B} (sel : OpndPat -> bool) (part : Roles -> B) (val : OpndPat * AsmOperand -> B) l :
  (forall c po, part (take_role c po) = if sel (fst po) then val po else part c) ->
  Forall (fun po => sel (fst po) = false) l -> forall c, part (foldl take_role c l) = part c.
Proof. intros Hstep. induction 1 as [|po l Hpo Hl IH]; intros c; [done|]. cbn [foldl]. by rewrite IH, Hstep, Hpo. Qed.
(** A part that one pattern alone gives is the operand of that pattern. *)
Lemma pick_in {B} (sel : OpndPat -> bool) (part : Roles -> B) (val : OpndPat * AsmOperand -> B) po l :
  (forall c po, part (take_role c po) = if sel (fst po) then val po else part c) ->
  (length (List.filter (fun po => sel (fst po)) l) <= 1)%nat -> po ∈ l -> sel (fst po) = true ->
  forall c, part (foldl take_role c l) = val po.
Proof.
  intros Hstep. induction l as [|po' l IH]; intros Hlen Hin Hsel c; [by apply elem_of_nil in Hin|]. cbn in Hlen; cbn [foldl].
  apply elem_of_cons in Hin as [<-|Hin].
  - rewrite Hsel in Hlen. cbn in Hlen. rewrite (pick_none sel part val); [by rewrite Hstep, Hsel|done|].
    apply list.Forall_forall. intros x Hx. destruct (sel (fst x)) eqn:E; [|done].
    assert (In x (List.filter (fun po => sel (fst po)) l)) as H by (apply filter_In; split; [by apply list_elem_of_In|done]).
    destruct (List.filter _ l); [done|cbn in Hlen; lia].
  - apply IH; [|done|done]. destruct (sel (fst po')); cbn in Hlen; lia.
Qed.
Lemma pick_some {B} (sel : OpndPat -> bool) (part : Roles -> B) (val : OpndPat * AsmOperand -> B) l :
  (forall c po, part (take_role c po) = if sel (fst po) then val po else part c) ->
  forall c, part (foldl take_role c l) = part c \/ exists po, po ∈ l /\ sel (fst po) = true /\ part (foldl take_role c l) = val po.
Proof.
  intros Hstep. induction l as [|po l IH]; intros c; [by left|]. cbn [foldl]. destruct (IH (take_role c po)) as [->|(x & H1 & H2 & H3)].
  - rewrite Hstep. destruct (sel (fst po)) eqn:E; [|by left]. right. exists po. split; [by left|]. done.
  - right. exists x. split; [by right|done].
Qed.

Definition role_imm (c : Roles) : option (OpndPat * AsmOperand) := match c_imm c with Some o => Some (c_imm_pattern c, o) | None => None end.
Definition pattern_is_cond (p : OpndPat) : bool := match p with Pat_Cond => true | _ => false end.
Lemma rm_step c po : c_rm (take_role c po) = if pattern_is_rm (fst po) then Some (snd po) else c_rm c.
Proof. destruct po as [p o]. by destruct p. Qed.
Lemma reg_step c po : c_reg (take_role c po) = if pattern_is_reg_field (fst po) then Some (snd po) else c_reg c.
Proof. destruct po as [p o]. by destruct p. Qed.
Lemma imm_step c po : role_imm (take_role c po) = if pattern_is_imm (fst po) then Some po else role_imm c.
Proof. destruct po as [p o]. by destruct p. Qed.
Lemma cond_step c po : c_cond (take_role c po) = if pattern_is_cond (fst po) then o_reg (snd po) else c_cond c.
Proof. destruct po as [p o]. by destruct p. Qed.

(** ** What the table is checked for *)

Definition some_pattern (sel : OpndPat -> bool) (r : X86IsaRow) : bool := existsb sel (r_pats r).
Definition at_most_one (sel : OpndPat -> bool) (r : X86IsaRow) : bool := Nat.leb (length (List.filter sel (r_pats r))) 1.
Definition pattern_is_stack (p : OpndPat) : bool := match p with Pat_StN => true | _ => false end.
Definition pattern_is_rel (p : OpndPat) : bool := match p with Pat_Rel => true | _ => false end.
Definition row_is (k : EncClass) (r : X86IsaRow) : bool := bool_decide (r_enc r = k).
Definition byte_of (v : Z) : bool := (0 <=? v) && (v <? 256).
(** How much the operands may add to the opcode *)
Definition opcode_room (r : X86IsaRow) : Z := if row_is Enc_OpReg r || row_is Enc_FpuSt r then 8 else if has_flag r RF_COND then 16 else 1.
Definition most_imm (r : X86IsaRow) : Z := foldr Z.max 0 (map pattern_imm_bytes (r_pats r)).
Definition most_bytes (r : X86IsaRow) : Z :=
  (if row_is Enc_Modrm r then 7 else 0) + (if r_prefix r =? 0 then 0 else 1) + 1 + size (opcode_list (r_opcode r) 0) +
  (if row_is Enc_Rel r then 4 else most_imm r).
(** The first byte of an opcode is not that of a prefix. *)
Definition is_rex (v : Z) : bool := Z.shiftr v 4 =? 4.
Definition is_segment (v : Z) : bool := (v =? 0x64) || (v =? 0x65).
Definition starts_opcode (r : X86IsaRow) (delta : Z) : bool :=
  match opcode_list (r_opcode r) delta with v :: _ => negb (is_rex v) && negb (is_segment v) | [] => false end.
Definition row_ok (r : X86IsaRow) : bool :=
  Nat.eqb (pattern_arity r) (length (r_pats r)) &&
  at_most_one pattern_is_rm r && at_most_one pattern_is_reg_field r && at_most_one pattern_is_imm r && at_most_one pattern_is_cond r &&
  at_most_one pattern_is_stack r &&
  Bool.eqb (some_pattern pattern_is_rm r) (row_is Enc_Modrm r) &&
  implb (some_pattern pattern_is_reg_field r) (row_is Enc_Modrm r || row_is Enc_OpReg r) &&
  implb (row_is Enc_OpReg r) (some_pattern pattern_is_reg_field r) &&
  Bool.eqb (some_pattern pattern_is_stack r) (row_is Enc_FpuSt r) && Bool.eqb (some_pattern pattern_is_cond r) (has_flag r RF_COND) &&
  implb (has_flag r RF_COND) (negb (row_is Enc_OpReg r || row_is Enc_FpuSt r)) &&
  Bool.eqb (some_pattern pattern_is_rel r) (row_is Enc_Rel r) &&
  implb (row_is Enc_Rel r) (negb (some_pattern pattern_is_imm r)) &&
  implb (row_is Enc_Rel r) (match r_pats r !! pred (length (r_pats r)) with Some p => pattern_is_rel p | None => false end) &&
  implb (row_is Enc_Modrm r) ((0 <=? r_aux r) && (r_aux r <? 8)) &&
  bool_decide (r_prefix r ∈ [0; 0x66; 0xF2; 0xF3]) && (0 <=? r_opcode r) && (r_opcode r <? 2 ^ 24) &&
  (Z.land (r_opcode r) 255 + opcode_room r <=? 256) && forallb (starts_opcode r) (seqZ 0 (opcode_room r)) && (most_bytes r <=? 15).
Lemma x86_table_ok : forallb row_ok kRows = true.
Proof. vm_compute. reflexivity. Qed.

Record row_facts (r : X86IsaRow) : Prop := mkFacts {
  fact_arity : pattern_arity r = length (r_pats r);
  fact_one_rm : at_most_one pattern_is_rm r = true; fact_one_reg : at_most_one pattern_is_reg_field r = true;
  fact_one_imm : at_most_one pattern_is_imm r = true; fact_one_cond : at_most_one pattern_is_cond r = true;
  fact_one_stack : at_most_one pattern_is_stack r = true;
  fact_rm : some_pattern pattern_is_rm r = row_is Enc_Modrm r;
  fact_reg : some_pattern pattern_is_reg_field r = true -> row_is Enc_Modrm r = true \/ row_is Enc_OpReg r = true;
  fact_opreg : row_is Enc_OpReg r = true -> some_pattern pattern_is_reg_field r = true;
  fact_stack : some_pattern pattern_is_stack r = row_is Enc_FpuSt r;
  fact_cond : some_pattern pattern_is_cond r = has_flag r RF_COND;
  fact_cond_class : has_flag r RF_COND = true -> row_is Enc_OpReg r = false /\ row_is Enc_FpuSt r = false;
  fact_rel : some_pattern pattern_is_rel r = row_is Enc_Rel r;
  fact_rel_imm : row_is Enc_Rel r = true -> some_pattern pattern_is_imm r = false;
  fact_target : row_is Enc_Rel r = true -> r_pats r !! pred (length (r_pats r)) = Some Pat_Rel;
  fact_aux : row_is Enc_Modrm r = true -> 0 <= r_aux r < 8;
  fact_prefix : r_prefix r ∈ [0; 0x66; 0xF2; 0xF3];
  fact_opcode : 0 <= r_opcode r < 2 ^ 24;
  fact_room : Z.land (r_opcode r) 255 + opcode_room r <= 256;
  fact_start : forall delta, 0 <= delta < opcode_room r -> starts_opcode r delta = true;
  fact_most : most_bytes r <= 15 }.
Lemma implb_true a b : implb a b = true -> a = true -> b = true.
Proof. by destruct a. Qed.
Lemma row_ok_facts r : row_ok r = true -> row_facts r.
Proof.
  unfold row_ok. rewrite !andb_true_iff. intros H. repeat match type of H with _ /\ _ => let H' := fresh in destruct H as [H H'] end.
  repeat match goal with
    | H : Bool.eqb _ _ = true |- _ => apply eqb_prop in H
    | H : bool_decide _ = true |- _ => apply bool_decide_eq_true in H
    | H : implb _ _ = true |- _ => pose proof (implb_true _ _ H); clear H
    end.
  split; try done.
  - by apply Nat.eqb_eq.
  - intros Hs. apply orb_true_iff. auto.
  - intros Hc. apply orb_false_iff, negb_true_iff. auto.
  - intros Hc. apply negb_true_iff. auto.
  - intros Hc. assert (match r_pats r !! pred (length (r_pats r)) with Some p => pattern_is_rel p | None => false end = true) as Hp by auto.
    destruct (r_pats r !! _) as [p|]; [|done]. by destruct p.
  - intros Hc. assert ((0 <=? r_aux r) && (r_aux r <? 8) = true) as Hp by auto. apply andb_true_iff in Hp. lia.
  - lia.
  - lia.
  - intros d Hd. match goal with H : forallb _ _ = true |- _ => by apply (forallb_seqZ _ _ _ H) end.
  - lia.
Qed.
Lemma x86_table_row r : r ∈ kRows -> row_facts r.
Proof. intros H. apply row_ok_facts. pose proof x86_table_ok as Ht. rewrite forallb_forall in Ht. by apply Ht, list_elem_of_In. Qed.

(** ** A row that matches is packed *)

Section Packed.
Variables (r : X86IsaRow) (ops : list AsmOperand).
Hypothesis Hr : row_facts r.
Hypothesis Hm : match_row r ops = true.

Lemma matched : length ops = length (r_pats r) /\ forall i p o, r_pats r !! i = Some p -> ops !! i = Some o ->
  match_operand p o (row_operand_width r) = true.
Proof.
  unfold match_row in Hm. apply andb_true_iff in Hm as [H1%Nat.eqb_eq H2]. rewrite (fact_arity r Hr) in H1. split; [done|].
  revert H2. generalize (row_operand_width r) as w. clear. intros w. generalize (r_pats r) as l, ops as os.
  induction l as [|p l IH]; intros [|o os] H [|i] p' o'; cbn in *; try done; apply andb_true_iff in H as [H1 H2].
  - by intros [= <-] [= <-].
  - by apply IH.
Qed.
Lemma zip_matched po : po ∈ zip (r_pats r) ops -> po.2 ∈ ops /\ po.1 ∈ r_pats r /\ match_operand po.1 po.2 (row_operand_width r) = true.
Proof.
  destruct po as [p o]. intros [i Hi]%list_elem_of_lookup. rewrite lookup_zip_Some in Hi. cbn [fst snd]. destruct Hi as [H1 H2]. split; [by eapply list_elem_of_lookup_2|].
  split; [by eapply list_elem_of_lookup_2|]. by eapply (proj2 matched).
Qed.
Lemma some_in sel p : p ∈ r_pats r -> sel p = true -> some_pattern sel r = true.
Proof. intros Hp Hs. apply existsb_exists. exists p. split; [by apply list_elem_of_In|done]. Qed.
Abbreviation c := (roles r ops).
Lemma roles_parts : c_rm c = c_rm (foldl take_role (mkRoles None None None Pat_None 0) (zip (r_pats r) ops)) /\
  c_reg c = c_reg (foldl take_role (mkRoles None None None Pat_None 0) (zip (r_pats r) ops)) /\
  role_imm c = role_imm (foldl take_role (mkRoles None None None Pat_None 0) (zip (r_pats r) ops)) /\
  c_cond c = (if has_flag r RF_COND then c_cond (foldl take_role (mkRoles None None None Pat_None 0) (zip (r_pats r) ops)) else 0).
Proof. unfold roles. by destruct (has_flag _ _). Qed.
Lemma rm_comes rm : c_rm c = Some rm -> rm ∈ ops /\ row_is Enc_Modrm r = true /\ exists p, pattern_is_rm p = true /\ match_operand p rm (row_operand_width r) = true.
Proof.
  rewrite (proj1 roles_parts). intros H. destruct (pick_some _ _ _ (zip (r_pats r) ops) rm_step (mkRoles None None None Pat_None 0)) as [E|(po & H1 & H2 & E)];
    rewrite H in E; [done|]. injection E as ->. destruct (zip_matched _ H1) as (H3 & H4 & H5). split; [done|]. split; [|by exists po.1].
  rewrite <- (fact_rm r Hr). by eapply some_in.
Qed.
Lemma reg_comes reg : c_reg c = Some reg -> reg ∈ ops /\ exists p, p ∈ r_pats r /\ pattern_is_reg_field p = true /\ match_operand p reg (row_operand_width r) = true.
Proof.
  rewrite (proj1 (proj2 roles_parts)). intros H. destruct (pick_some _ _ _ (zip (r_pats r) ops) reg_step (mkRoles None None None Pat_None 0)) as [E|(po & H1 & H2 & E)];
    rewrite H in E; [done|]. injection E as ->. destruct (zip_matched _ H1) as (H3 & H4 & H5). split; [done|]. by exists po.1.
Qed.
Lemma imm_comes imm : c_imm c = Some imm -> imm ∈ ops /\ c_imm_pattern c ∈ r_pats r /\ pattern_is_imm (c_imm_pattern c) = true /\
  match_operand (c_imm_pattern c) imm (row_operand_width r) = true.
Proof.
  intros H. pose proof (proj1 (proj2 (proj2 roles_parts))) as E0. unfold role_imm at 1 in E0. rewrite H in E0.
  destruct (pick_some _ _ _ (zip (r_pats r) ops) imm_step (mkRoles None None None Pat_None 0)) as [E|(po & H1 & H2 & E)]; rewrite E in E0; [done|].
  injection E0 as E0. destruct (zip_matched _ H1) as (H3 & H4 & H5). rewrite <- E0 in *. done.
Qed.

(** *** The form *)
Definition reg_number : Z := match c_reg c with Some reg => o_reg reg | None => r_aux r end.
Lemma form_modrm f : row_form r ops c = inl f -> row_is Enc_Modrm r = true -> exists rm a, c_rm c = Some rm /\
  encode_rm rm reg_number = inl a /\ f = mkForm (Some a) (match c_reg c with Some reg => 8 <=? o_reg reg | None => false end) (m_rex_b a) 0.
Proof.
  intros Hf He%bool_decide_eq_true. unfold row_form in Hf. rewrite He in Hf. destruct (c_rm c) as [rm|]; [|done].
  fold reg_number in Hf. destruct (encode_rm rm _) as [a|] eqn:Ea; [|done]. injection Hf as <-. by exists rm, a.
Qed.
Lemma form_other f : row_form r ops c = inl f -> row_is Enc_Modrm r = false -> f_addressing f = None /\ c_rm c = None.
Proof.
  intros Hf He. split.
  - apply bool_decide_eq_false in He. unfold row_form in Hf. destruct (r_enc r); [by simplify_eq|done| |by simplify_eq|]; repeat case_match; by simplify_eq.
  - destruct (c_rm c) as [rm|] eqn:Hc; [|done]. apply rm_comes in Hc as (_ & H & _). congruence.
Qed.
Lemma most_imm_bound p : p ∈ r_pats r -> pattern_imm_bytes p <= most_imm r.
Proof.
  unfold most_imm. induction 1 as [p l|p p' l H IH]; cbn; lia.
Qed.
Lemma imm_width_bound : 0 <= imm_width c <= most_imm r.
Proof.
  unfold imm_width. assert (0 <= most_imm r) by (unfold most_imm; induction (r_pats r) as [|p l IH]; cbn; lia).
  assert (H0 : 0 <= pattern_imm_bytes (c_imm_pattern c)) by (by destruct (c_imm_pattern c)). split; [done|].
  assert (E0 : c_imm_pattern c = c_imm_pattern (foldl take_role (mkRoles None None None Pat_None 0) (zip (r_pats r) ops))).
  { unfold roles. by destruct (has_flag _ _). }
  destruct (pick_some pattern_is_imm c_imm_pattern fst (zip (r_pats r) ops) ltac:(intros ? [[] ?]; done) (mkRoles None None None Pat_None 0))
    as [E|(po & H1 & H2 & E)].
  - rewrite E0, E. done.
  - apply zip_matched in H1 as (_ & H1 & _). rewrite E0, E. by apply most_imm_bound.
Qed.
Lemma size_opcode v d : size (opcode_list v d) = size (opcode_list v 0).
Proof. unfold opcode_list. rewrite !size_app. done. Qed.
Lemma size_rm_tail a rm w reg : encode_rm rm reg = inl a -> 0 <= size (rm_tail a rm w) <= 5.
Proof.
  intros H. apply encode_rm_shape in H as [H _]. unfold rm_tail, disp_field. rewrite size_app, size_fields. by destruct (m_has_sib a); unfold size; cbn; lia.
Qed.
Lemma row_bytes_size f n x : row_form r ops c = inl f -> size (row_bytes r c f n x) <= most_bytes r.
Proof.
  intros Hf. unfold row_bytes, most_bytes, head_bytes. rewrite !size_app, size_opcode. fold (row_is Enc_Rel r).
  set (o := size (opcode_list _ 0)). pose proof imm_width_bound as Hw.
  assert (Hp : size (if negb (r_prefix r =? 0) then [r_prefix r] else []) = if r_prefix r =? 0 then 0 else 1) by (by destruct (_ =? _)). rewrite Hp.
  assert (Hx : size (if n then [rex_byte (has_flag r RF_W) (f_rex_r f) x (f_rex_b f)] else []) <= 1) by (by destruct n).
  assert (Hi : size (imm_bytes c) <= most_imm r).
  { unfold imm_bytes. destruct (c_imm c); [rewrite size_fields; lia|]. unfold size. cbn. lia. }
  assert (Hs : size (if negb (rm_segment c =? 0) then [rm_segment c] else []) + size (rm_bytes c f) <= if row_is Enc_Modrm r then 7 else 0).
  { destruct (row_is Enc_Modrm r) eqn:He.
    - destruct (form_modrm f Hf He) as (rm & a & E1 & E2 & ->). unfold rm_bytes. cbn [f_addressing]. rewrite E1, size_cons.
      pose proof (size_rm_tail a rm (imm_width c) _ E2). assert (size (if negb (rm_segment c =? 0) then [rm_segment c] else []) <= 1) by (destruct (rm_segment c =? 0); unfold size; cbn [negb length]; lia). lia.
    - destruct (form_other f Hf He) as [E1 E2]. unfold rm_bytes, rm_segment. by rewrite E1, E2. }
  pose proof (size_nonneg (rm_bytes c f)). destruct (row_is Enc_Rel r); [|rewrite size_app; lia].
  assert (size (little_endian 4 0) = 4) by done. lia.
Qed.
Lemma sym_imm_width imm : c_imm c = Some imm -> o_kind imm = K_Sym -> imm_width c = 4 \/ imm_width c = 8.
Proof.
  intros H Hk. destruct (imm_comes imm H) as (_ & _ & Hp & Hm'). unfold imm_width. unfold match_operand in Hm'. destruct (_ && _); [done|].
  unfold is_kind_of in Hm'. rewrite Hk in Hm'. destruct (c_imm_pattern c); cbn in *; auto; try done.
Qed.
Lemma rel_target : row_is Enc_Rel r = true -> exists t, ops !! pred (pattern_arity r) = Some t /\ t ∈ ops /\ o_kind t = K_Sym.
Proof.
  intros He. pose proof (fact_target r Hr He) as Hp. destruct matched as [Hl Hall]. rewrite (fact_arity r Hr).
  destruct (lookup_lt_is_Some_2 ops (pred (length (r_pats r)))) as [t Ht]; [rewrite Hl; by apply lookup_lt_Some in Hp|].
  exists t. split; [done|]. split; [by eapply list_elem_of_lookup_2|]. specialize (Hall _ _ _ Hp Ht). unfold match_operand in Hall.
  destruct (_ && _); [done|]. by apply bool_decide_eq_true in Hall.
Qed.
End Packed.

(** ** The encoder *)

(** What an encoded instruction keeps to. *)
Record encoded_within (ops : list AsmOperand) (most : Z) (e : IsaEncoded) : Prop := mkWithin {
  within_size : size (e_bytes e) <= most;
  within_fixup : fixup_within ops e;
  within_branch : e_is_branch e = true -> e_fixup e = Fix_PcRel32 /\ e_near_size e = size (e_bytes e) }.

Definition form_rex_x (f : Form) : bool := match f_addressing f with Some a => m_rex_x a | None => false end.
Definition form_rex (r : X86IsaRow) (ops : list AsmOperand) (f : Form) : bool :=
  has_flag r RF_W || f_rex_r f || form_rex_x f || f_rex_b f || existsb forces_rex ops.

Lemma pack_row_does r ops f n x : row_facts r -> match_row r ops = true -> row_form r ops (roles r ops) = inl f ->
  does (pack_row r ops (roles r ops) f n x) empty_encoded (fun e => e_ok e = true /\ e_bytes e = row_bytes r (roles r ops) f n x /\
    fixup_within ops e /\ e_is_branch e = row_is Enc_Rel r /\
    (e_is_branch e = true -> e_fixup e = Fix_PcRel32 /\ e_near_size e = size (e_bytes e))).
Proof.
  intros Hr Hm Hf. pose proof (row_bytes_size r ops Hr Hm f n x Hf) as Hs. pose proof (fact_most r Hr) as Hmost. unfold row_bytes in *.
  rewrite size_app in Hs. fold (row_is Enc_Rel r) in *. set (hd := head_bytes _ _ _ _ _) in *. assert (H16 : max_encoded = 16) by done.
  apply does_bind, pack_opcode_does; fold hd; [cbn [e_bytes empty_encoded]; change (size (A := Z) []) with 0;
    match type of Hs with _ + size ?l <= _ => pose proof (size_nonneg l) end; lia|].
  set (e1 := add_bytes hd empty_encoded). assert (Hb1 : e_bytes e1 = hd) by done. fold (row_is Enc_Rel r).
  destruct (row_is Enc_Rel r) eqn:Hrel.
  - destruct (rel_target r ops Hr Hm Hrel) as (t & Ht & Hin & Hk). change (size (little_endian 4 0)) with 4 in Hs.
    eapply pack_branch_does; [exact Ht|done|done|rewrite Hb1; lia|]. intros e' Hb Hok Hfix Hbr Hkind Hnear.
    split; [done|]. split; [by rewrite Hb|]. split; [done|]. split; [done|]. done.
  - fold (imm_width (roles r ops)). pose proof (imm_width_bound r ops Hr Hm) as Hw. rewrite size_app in Hs.
    pose proof (size_nonneg hd). pose proof (size_nonneg (rm_bytes (roles r ops) f)). pose proof (size_nonneg (imm_bytes (roles r ops))).
    assert (Hf1 : fixup_within ops e1) by done.
    (* the addressing *)
    apply does_bind. assert (Hrm : does (match f_addressing f, c_rm (roles r ops) with Some a, Some rm => pack_rm rm a (imm_width (roles r ops)) | _, _ => mret tt end)
      e1 (fun e => e_bytes e = hd ++ rm_bytes (roles r ops) f /\ fixup_within ops e /\ e_is_branch e = false)).
    { destruct (row_is Enc_Modrm r) eqn:He.
      - destruct (form_modrm r ops f Hf He) as (rm & a & E1 & E2 & ->). cbn [f_addressing]. rewrite E1. unfold rm_bytes in *. cbn [f_addressing] in *. rewrite E1 in *.
        destruct (rm_comes r ops Hr Hm rm E1) as (Hin & _). apply (pack_rm_does ops rm _ _ _ _ _ E2); [done|lia|rewrite Hb1; lia|done|done|]. intros e' Hb Hfix Hbr. rewrite Hb, Hb1. done.
      - destruct (form_other r ops Hr Hm f Hf He) as [E1 E2]. unfold rm_bytes. rewrite E1. apply does_ret. by rewrite app_nil_r. }
    eapply does_mono; [exact Hrm|]. intros e2 (Hb2 & Hf2 & Hbr2).
    (* the immediate *)
    apply does_bind. assert (Himm : does (match c_imm (roles r ops) with Some imm => when (negb (imm_width (roles r ops) =? 0)) (pack_imm imm (imm_width (roles r ops))) | None => mret tt end)
      e2 (fun e => e_bytes e = hd ++ rm_bytes (roles r ops) f ++ imm_bytes (roles r ops) /\ fixup_within ops e /\ e_is_branch e = false)).
    { rewrite app_assoc, <- Hb2. unfold imm_bytes in *. destruct (c_imm (roles r ops)) as [imm|] eqn:Hi; [|apply does_ret; by rewrite app_nil_r].
      destruct (Z.eqb_spec (imm_width (roles r ops)) 0) as [Hz|Hz]; cbn [negb when].
      + apply does_ret. rewrite Hz. cbn [Z.to_nat little_endian]. by rewrite app_nil_r.
      + rewrite size_fields in Hs. apply (pack_imm_does ops); [by eapply imm_comes|by eapply sym_imm_width|lia|rewrite Hb2, size_app; lia|done|done|]. done. }
    eapply does_mono; [exact Himm|]. intros e3 (Hb3 & Hf3 & Hbr3). apply does_modify. cbn. rewrite Hbr3. done.
Qed.
Lemma encode_row_spec r ops : row_facts r -> match_row r ops = true -> exists e, x86_encode_row r ops = Done e /\
  (e_ok e = true -> exists f, row_form r ops (roles r ops) = inl f /\ form_rex r ops f && existsb bars_rex ops = false /\
    e_bytes e = row_bytes r (roles r ops) f (form_rex r ops f) (form_rex_x f) /\ encoded_within ops 15 e).
Proof.
  intros Hr Hm. unfold x86_encode_row. pose proof Hm as Hm'. unfold match_row in Hm'. apply andb_true_iff in Hm' as [Hl%Nat.eqb_eq _].
  rewrite (proj2 (Nat.eqb_eq _ _)) by done. cbn [negb]. cbn zeta. destruct (row_form r ops (roles r ops)) as [f|message] eqn:Hf; [|by eexists].
  fold (form_rex_x f) (form_rex r ops f). destruct (form_rex r ops f && existsb bars_rex ops) eqn:Hrex; [by eexists|].
  destruct (pack_row_does r ops f (form_rex r ops f) (form_rex_x f) Hr Hm Hf) as (e & He & Hok & Hb & Hfix & Hbr & Hnear).
  rewrite He. exists e. split; [done|]. intros _. exists f. split; [done|]. split; [done|]. split; [done|].
  split; [|done|done]. rewrite Hb. pose proof (row_bytes_size r ops Hr Hm f (form_rex r ops f) (form_rex_x f) Hf). pose proof (fact_most r Hr). lia.
Qed.
Lemma add_prefix_within ops prefix e : encoded_within ops 15 e -> e_ok e = true -> exists e', add_prefix prefix e = Done e' /\ e_ok e' = true /\
  encoded_within ops 16 e' /\ e_bytes e' = (if prefix =? 0 then [] else [prefix]) ++ e_bytes e.
Proof.
  intros [Hs Hf Hb] Hok. unfold add_prefix. destruct (prefix =? 0); [exists e; split; [done|]; split; [done|]; split; [split; [lia|done|done]|done]|].
  destruct (Z.ltb_spec (size (e_bytes e)) max_encoded) as [_|Hbig]; [|unfold max_encoded in Hbig; lia].
  eexists. split; [done|]. split; [done|]. split; [|done]. split; cbn [e_bytes e_fixup e_fixup_offset e_is_branch e_near_size e_sym]; rewrite ?size_cons; [lia| |].
  - intros Hne. cbn in Hne. destruct (Hf Hne) as (H1 & H2 & H3). cbn [e_bytes e_fixup e_fixup_offset e_sym]. rewrite bool_decide_false by done. rewrite size_cons. split; [lia|]. split; [lia|done].
  - intros H. rewrite H. destruct (Hb H) as [H1 H2]. split; [done|lia].
Qed.
Lemma try_rows_within ops prefix rows : Forall row_facts rows -> forall last, e_ok last = false ->
  exists e, try_rows rows ops prefix last = Done e /\ (e_ok e = true -> encoded_within ops 16 e).
Proof.
  induction 1 as [|r rows Hr Hrows IH]; intros last Hl; cbn [try_rows]; [exists last; split; [done|congruence]|].
  destruct (match_row r ops) eqn:Hm; [|by apply IH]. destruct (encode_row_spec r ops Hr Hm) as (e & He & Hok). rewrite He. cbn [mbind outcome_bind].
  destruct (e_ok e) eqn:Ho; [|by apply IH]. destruct (Hok eq_refl) as (f & _ & _ & _ & Hw). destruct (add_prefix_within ops prefix e Hw Ho) as (e' & H1 & H2 & H3 & _).
  by exists e'.
Qed.
Definition rows_of (mnemonic : chars) : list X86IsaRow := filter (has_name r_mnemonic mnemonic) kRows.
Lemma rows_of_facts mnemonic : Forall row_facts (rows_of mnemonic).
Proof. apply list.Forall_forall. intros r [_ H]%list_elem_of_filter. by apply x86_table_row. Qed.
Lemma encoder_within mnemonic ops prefix : exists e, x86_match_and_encode mnemonic ops prefix = Done e /\
  (e_ok e = true -> encoded_within ops 16 e).
Proof.
  unfold x86_match_and_encode, mnemonic_index. rewrite named_sorted_table. fold (rows_of mnemonic). pose proof (rows_of_facts mnemonic) as Hrows.
  generalize dependent (rows_of mnemonic). intros rows Hrows. cbn [mbind outcome_bind]. case_bool_decide; [by eexists|].
  by apply try_rows_within.
Qed.
