(* ===== verification/X86Reads.v ===== *)
(** * What an encoded x86-64 instruction says

    The architecture's reading of the bytes of a row (segment, mandatory prefix, REX,
    opcode, ModRM with its address, immediate), and that what the encoder makes of
    operands that match the row reads back as those operands. *)
From stdpp Require Import list sets strings.
From S2P Require Import Prelude Vectors Outcome AsmExpr Mir AsmUnit Assembler SortedTable X86Isa X86IsaProps X86Pack.
Open Scope Z_scope.

(** ** The reading *)

Record Reading := mkReading {
  d_segment : Z; d_rex : option Z; d_delta : Z; d_reg : Z; d_address : option Address; d_imm : Z }.
Definition rex_bit (rex : option Z) (k : Z) : bool := match rex with Some v => Z.testbit v k | None => false end.
Definition take_prefix (is_it : Z -> bool) (l : list Z) : option Z * list Z :=
  match l with v :: l' => if is_it v then (Some v, l') else (None, l) | [] => (None, []) end.
Fixpoint expect (vs l : list Z) : option (list Z) :=
  match vs, l with
  | [], _ => Some l
  | v :: vs, w :: l => if v =? w then expect vs l else None
  | _ :: _, [] => None
  end.
(** The segment, the REX prefix, what is added to the opcode, and the rest. *)
Definition read_head (r : X86IsaRow) (l : list Z) : option (Z * option Z * Z * list Z) :=
  let '(segment, l) := take_prefix is_segment l in
  l ← expect (if r_prefix r =? 0 then [] else [r_prefix r]) l;
  let '(rex, l) := take_prefix is_rex l in
  l ← expect (removelast (opcode_list (r_opcode r) 0)) l;
  match l with [] => None | low :: l => Some (default 0 segment, rex, low - Z.land (r_opcode r) 255, l) end.
Definition read_modrm (r : X86IsaRow) (rex : option Z) (l : list Z) : option (Z * option Address * list Z) :=
  if row_is Enc_Modrm r then
    match l with
    | [] => None
    | modrm :: l =>
        match read_address (rex_bit rex 1) (rex_bit rex 0) modrm l with
        | Some (a, l) => Some (Z.land (Z.shiftr modrm 3) 7 + high_bit (rex_bit rex 2), Some a, l)
        | None => None
        end
    end
  else Some (0, None, l).
Definition read_imm (r : X86IsaRow) (l : list Z) : option (Z * list Z) :=
  let width := if row_is Enc_Rel r then 4 else most_imm r in if width =? 0 then Some (0, l) else read_signed (Z.to_nat width) l.
Definition read_row (r : X86IsaRow) (l : list Z) : option Reading :=
  match read_head r l with
  | None => None
  | Some (segment, rex, delta, l) =>
      match read_modrm r rex l with
      | None => None
      | Some (reg, address, l) =>
          match read_imm r l with Some (imm, []) => Some (mkReading segment rex delta reg address imm) | _ => None end
      end
  end.

(** ** What the parts say of an operand *)

(** A byte register from 4 to 7 is a high one when there is no REX prefix. *)
Definition high_byte_read (i : Reading) (p : OpndPat) (n : Z) : bool :=
  match p with Pat_Gpr8 | Pat_Rm8 => match d_rex i with None => (4 <=? n) && (n <=? 7) | Some _ => false end | _ => false end.
Definition immediate_read (p : OpndPat) (width d imm : Z) : Prop :=
  match p with
  | Pat_Imm8s => uwrap width d = uwrap width imm
  | Pat_Imm8u => uwrap 8 d = uwrap 8 imm
  | Pat_Imm16 => uwrap 16 d = uwrap 16 imm
  | Pat_Imm32 => imm < 2 ^ 31 -> uwrap width d = uwrap width imm
  | Pat_Imm64 => uwrap 64 d = uwrap 64 imm
  | _ => True
  end.
Definition reads (r : X86IsaRow) (i : Reading) (p : OpndPat) (o : AsmOperand) : Prop :=
  if pattern_is_reg_field p then
    (if row_is Enc_Modrm r then d_reg i else d_delta i + high_bit (rex_bit (d_rex i) 0)) = o_reg o /\
    high_byte_read i p (o_reg o) = o_high_byte o
  else if pattern_is_rm p then
    d_address i = Some (address o (most_imm r)) /\
    (if is_kind_of K_Reg o then high_byte_read i p (o_reg o) = o_high_byte o else d_segment i = o_segment o)
  else
    match p with
    | Pat_StN | Pat_Cond => d_delta i = o_reg o
    | Pat_ImmSym | Pat_ImmSym64 | Pat_Rel => d_imm i = 0
    | _ => immediate_read p (row_operand_width r) (d_imm i) (o_imm o)
    end.

(** ** The head *)

Lemma take_prefix_some is_it v l : is_it v = true -> take_prefix is_it (v :: l) = (Some v, l).
Proof. intros H. cbn. by rewrite H. Qed.
Lemma take_prefix_none is_it v l : is_it v = false -> take_prefix is_it (v :: l) = (None, v :: l).
Proof. intros H. cbn. by rewrite H. Qed.
Lemma expect_app vs l : expect vs (vs ++ l) = Some l.
Proof. induction vs as [|v vs IH]; cbn; [done|]. by rewrite Z.eqb_refl. Qed.
Lemma rex_byte_is w r x b : is_rex (rex_byte w r x b) = true /\ is_segment (rex_byte w r x b) = false /\ Z.testbit (rex_byte w r x b) 3 = w /\
  Z.testbit (rex_byte w r x b) 2 = r /\ Z.testbit (rex_byte w r x b) 1 = x /\ Z.testbit (rex_byte w r x b) 0 = b.
Proof. by destruct w, r, x, b. Qed.
Lemma opcode_split r delta : row_facts r -> 0 <= delta < opcode_room r ->
  opcode_list (r_opcode r) delta = removelast (opcode_list (r_opcode r) 0) ++ [Z.land (r_opcode r) 255 + delta].
Proof.
  intros Hr Hd. pose proof (fact_room r Hr). unfold opcode_list. rewrite !app_assoc, removelast_last. do 2 f_equal. apply uwrap_small. assert (0 <= Z.land (r_opcode r) 255) by (apply Z.land_nonneg; lia). unfold word. change (2 ^ 8) with 256. lia.
Qed.
Lemma opcode_starts r delta : row_facts r -> 0 <= delta < opcode_room r -> exists v l, opcode_list (r_opcode r) delta = v :: l /\
  is_rex v = false /\ is_segment v = false.
Proof.
  intros Hr Hd. pose proof (fact_start r Hr delta Hd) as H. unfold starts_opcode in H. destruct (opcode_list _ _) as [|v l]; [done|]. exists v, l.
  apply andb_true_iff in H as [H1%negb_true_iff H2%negb_true_iff]. done.
Qed.
Section Head.
Variables (r : X86IsaRow) (c : Roles) (f : Form) (n x : bool) (rest : list Z).
Hypothesis Hr : row_facts r.
Hypothesis Hseg : rm_segment c ∈ [0; 0x64; 0x65].
Hypothesis Hdelta : 0 <= c_cond c + f_opcode_reg f < opcode_room r.
Abbreviation delta := (c_cond c + f_opcode_reg f).
Abbreviation rex := (rex_byte (has_flag r RF_W) (f_rex_r f) x (f_rex_b f)).

Lemma room_byte : u8 delta = delta.
Proof.
  pose proof (fact_room r Hr). assert (0 <= Z.land (r_opcode r) 255) by (apply Z.land_nonneg; lia). apply uwrap_small. unfold word. change (2 ^ 8) with 256. lia.
Qed.
(** After the segment: the mandatory prefix, the REX prefix and the opcode *)
Definition opcode_part : list Z := opcode_list (r_opcode r) delta ++ rest.
Definition rex_part : list Z := (if n then [rex] else []) ++ opcode_part.
Definition prefix_part : list Z := (if r_prefix r =? 0 then [] else [r_prefix r]) ++ rex_part.
Lemma rex_part_start : exists v l, rex_part = v :: l /\ is_segment v = false.
Proof.
  unfold rex_part, opcode_part. destruct (opcode_starts r _ Hr Hdelta) as (v & l & -> & _ & Hv). destruct n; [|by eexists _, _].
  eexists _, _. split; [done|]. apply (rex_byte_is (has_flag r RF_W) (f_rex_r f) x (f_rex_b f)).
Qed.
Lemma prefix_part_start : exists v l, prefix_part = v :: l /\ is_segment v = false.
Proof.
  unfold prefix_part. destruct (Z.eqb_spec (r_prefix r) 0) as [|Hne]; [apply rex_part_start|]. eexists _, _. split; [done|].
  pose proof (fact_prefix r Hr) as H. repeat (apply elem_of_cons in H as [->|H]); try done. by apply elem_of_nil in H.
Qed.
Lemma head_reads : read_head r (head_bytes r c f n x ++ rest) = Some (rm_segment c, if n then Some rex else None, delta, rest).
Proof.
  assert (Hb : head_bytes r c f n x ++ rest = (if negb (rm_segment c =? 0) then [rm_segment c] else []) ++ prefix_part).
  { unfold head_bytes, prefix_part, rex_part, opcode_part. rewrite room_byte, <- !app_assoc. by destruct (r_prefix r =? 0). }
  assert (Hs : take_prefix is_segment (head_bytes r c f n x ++ rest) = (if negb (rm_segment c =? 0) then Some (rm_segment c) else None, prefix_part)).
  { rewrite Hb. destruct prefix_part_start as (v & l & E & Hv). rewrite E.
    pose proof Hseg as H. repeat (apply elem_of_cons in H as [->|H]; [cbn; by rewrite ?Hv|]). by apply elem_of_nil in H. }
  unfold read_head. rewrite Hs. unfold prefix_part. rewrite expect_app. cbn [mbind option_bind].
  assert (Hx : take_prefix is_rex rex_part = (if n then Some rex else None, opcode_part)).
  { unfold rex_part, opcode_part. destruct (opcode_starts r _ Hr Hdelta) as (v & l & -> & Hv & _). destruct n; cbn [app].
    - apply take_prefix_some. apply (rex_byte_is (has_flag r RF_W) (f_rex_r f) x (f_rex_b f)).
    - by apply take_prefix_none. }
  rewrite Hx. unfold opcode_part. rewrite (opcode_split r _ Hr Hdelta). rewrite <- app_assoc, expect_app. cbn [mbind option_bind app].
  replace (Z.land (r_opcode r) 255 + delta - Z.land (r_opcode r) 255) with delta by lia. by destruct (Z.eqb_spec (rm_segment c) 0) as [->|].
Qed.
End Head.

(** ** Widths *)

Lemma lxor_sign w b : 0 < w -> 0 <= b < 2 ^ w ->
  Z.lxor b (2 ^ (w - 1)) = if b <? 2 ^ (w - 1) then b + 2 ^ (w - 1) else b - 2 ^ (w - 1).
Proof.
  intros Hw Hb. set (s := 2 ^ (w - 1)). assert (Hs : 0 < s) by (apply Z.pow_pos_nonneg; lia).
  assert (H2 : 2 ^ w = 2 * s) by (unfold s; rewrite <- Z.pow_succ_r by lia; f_equal; lia).
  assert (Hlow : forall x, 0 <= x < s -> Z.lxor x s = x + s).
  { intros x Hx. symmetry. apply Z.add_nocarry_lxor. apply Z.bits_inj'. intros k Hk. rewrite Z.land_spec, Z.bits_0. unfold s.
    rewrite Z.pow2_bits_eqb by lia. destruct (Z.eqb_spec (w - 1) k) as [<-|Hne]; [|by rewrite andb_false_r]. rewrite andb_true_r.
    destruct (Z.eq_dec x 0) as [->|]; [apply Z.bits_0|]. apply Z.bits_above_log2; [lia|]. apply Z.log2_lt_pow2; [lia|]. fold s. lia. }
  destruct (Z.ltb_spec b s) as [H|H]; [apply Hlow; lia|]. replace b with ((b - s) + s) at 1 by lia. rewrite <- (Hlow (b - s)) by lia.
  by rewrite Z.lxor_assoc, Z.lxor_nilpotent, Z.lxor_0_r.
Qed.
Lemma narrow_spec v w : w ∈ [8; 16; 32] -> narrow_to_width v w = swrap w v.
Proof.
  intros Hw. assert (Hw' : 0 < w <= 32) by (repeat (apply elem_of_cons in Hw as [->|Hw]; [lia|]); by apply elem_of_nil in Hw).
  unfold narrow_to_width. rewrite (proj2 (Z.leb_gt 64 w)) by lia. cbn zeta.
  assert (Hpow : 0 < 2 ^ w <= 2 ^ 32) by (split; [apply Z.pow_pos_nonneg; lia|apply Z.pow_le_mono_r; lia]).
  assert (Hm : u64 (Z.shiftl 1 w) - 1 = Z.ones w) by (rewrite Z.shiftl_1_l, Z.ones_equiv, uwrap_small by (unfold word; lia); lia).
  rewrite Hm, Z.land_ones by lia. rewrite Z.shiftl_1_l.
  assert (Hmod : u64 v mod 2 ^ w = uwrap w v).
  { unfold uwrap. rewrite Z.mod_mod_divide; [done|]. exists (2 ^ (64 - w)). rewrite <- Z.pow_add_r by lia. f_equal. lia. }
  rewrite Hmod. pose proof (Z.mod_pos_bound v (2 ^ w) ltac:(lia)) as Hb. fold (uwrap w v) in Hb. rewrite lxor_sign by lia. unfold swrap at 2.
  assert (H2 : 2 ^ w = 2 * 2 ^ (w - 1)) by (rewrite <- Z.pow_succ_r by lia; f_equal; lia).
  assert (Hx : forall y, - 2 ^ 63 <= y < 2 ^ 63 -> s64 (u64 y) = y) by (intros y Hy; rewrite s64_u64; by apply swrap_small).
  destruct (Z.ltb_spec (uwrap w v) (2 ^ (w - 1))); rewrite Hx by lia; lia.
Qed.

(** ** The parts of the operands *)

Lemma unique_in {A} (sel : A -> bool) l x y : (length (List.filter sel l) <= 1)%nat -> x ∈ l -> y ∈ l -> sel x = true -> sel y = true -> x = y.
Proof.
  intros Hlen Hx Hy Sx Sy. assert (In x (List.filter sel l)) as Fx by (apply filter_In; split; [by apply list_elem_of_In|done]).
  assert (In y (List.filter sel l)) as Fy by (apply filter_In; split; [by apply list_elem_of_In|done]).
  destruct (List.filter sel l) as [|a [|]]; cbn in *; [done| |lia]. destruct Fx as [<-|], Fy as [<-|]; done.
Qed.
Lemma zip_filter {A B} (sel : A -> bool) (l : list A) : forall k : list B,
  (length (List.filter (fun x => sel (fst x)) (zip l k)) <= length (List.filter sel l))%nat.
Proof.
  induction l as [|a l IH]; intros [|b k]; cbn; try lia. specialize (IH k). destruct (sel a); cbn; lia.
Qed.
Lemma most_imm_none r : some_pattern pattern_is_imm r = false -> most_imm r = 0.
Proof.
  unfold some_pattern, most_imm. induction (r_pats r) as [|p l IH]; [done|]. cbn. intros [Hp Hl]%orb_false_iff. rewrite IH by done.
  apply orb_false_iff in Hp as [Hp _]. apply negb_false_iff, Z.eqb_eq in Hp. lia.
Qed.
Lemma most_imm_one r p : at_most_one pattern_is_imm r = true -> p ∈ r_pats r -> pattern_is_imm p = true -> most_imm r = pattern_imm_bytes p.
Proof.
  intros H1%Nat.leb_le Hp Hs. unfold most_imm. assert (Hall : forall q, q ∈ r_pats r -> q = p \/ pattern_imm_bytes q = 0).
  { intros q Hq. destruct (pattern_is_imm q) eqn:Hq'; [left; by apply (unique_in _ _ _ _ H1)|right].
    apply orb_false_iff in Hq' as [Hq' _]. by apply negb_false_iff, Z.eqb_eq in Hq'. }
  assert (0 <= pattern_imm_bytes p) by (by destruct p). clear H1 Hs. induction (r_pats r) as [|q l IH]; [by apply elem_of_nil in Hp|]. cbn.
  assert (Hl : foldr Z.max 0 (map pattern_imm_bytes l) = pattern_imm_bytes p \/ foldr Z.max 0 (map pattern_imm_bytes l) = 0).
  { clear Hp IH. induction l as [|a l IH]; [by right|]. cbn. assert (Hq : forall q0, q0 ∈ q :: l -> q0 = p \/ pattern_imm_bytes q0 = 0).
    { intros q0 [->|Hq0]%elem_of_cons; apply Hall; [left|by right; right]. }
    destruct (Hall a ltac:(right; left)) as [->| ->], (IH Hq) as [->| ->]; lia. }
  apply elem_of_cons in Hp as [->|Hp]; [lia|]. rewrite IH by (try done; intros; apply Hall; by right).
  destruct (Hall q ltac:(left)) as [->| ->]; lia.
Qed.

Section Parts.
Variables (r : X86IsaRow) (ops : list AsmOperand).
Hypothesis Hr : row_facts r.
Hypothesis Hm : match_row r ops = true.
Hypothesis Hops : Forall opnd_ok ops.
Abbreviation c := (roles r ops).
Abbreviation pairs := (zip (r_pats r) ops).
Abbreviation none := (mkRoles None None None Pat_None 0).

Lemma one_pair sel : at_most_one sel r = true -> (length (List.filter (fun po => sel (fst po)) pairs) <= 1)%nat.
Proof. intros H%Nat.leb_le. pose proof (zip_filter (B := AsmOperand) sel (r_pats r) ops). lia. Qed.
Lemma part_rm po : po ∈ pairs -> pattern_is_rm po.1 = true -> c_rm c = Some po.2.
Proof.
  intros Hin Hs. rewrite (proj1 (roles_parts r ops)). apply (pick_in _ _ _ po pairs rm_step); [|done|done]. apply one_pair, Hr.
Qed.
Lemma part_reg po : po ∈ pairs -> pattern_is_reg_field po.1 = true -> c_reg c = Some po.2.
Proof.
  intros Hin Hs. rewrite (proj1 (proj2 (roles_parts r ops))). apply (pick_in _ _ _ po pairs reg_step); [|done|done]. apply one_pair, Hr.
Qed.
Lemma part_imm po : po ∈ pairs -> pattern_is_imm po.1 = true -> c_imm c = Some po.2 /\ c_imm_pattern c = po.1.
Proof.
  intros Hin Hs. pose proof (proj1 (proj2 (proj2 (roles_parts r ops)))) as E.
  rewrite (pick_in _ _ _ po pairs imm_step) in E; [|apply one_pair, Hr|done|done]. unfold role_imm in E. destruct (c_imm c); [|done].
  by injection E as <-.
Qed.
Lemma part_cond po : po ∈ pairs -> pattern_is_cond po.1 = true -> c_cond c = o_reg po.2.
Proof.
  intros Hin Hs. rewrite (proj2 (proj2 (proj2 (roles_parts r ops)))). destruct (zip_matched r ops Hr Hm po Hin) as (_ & Hp & _).
  rewrite <- (fact_cond r Hr), (some_in r _ po.1) by done. apply (pick_in _ _ _ po pairs cond_step); [|done|done]. apply one_pair, Hr.
Qed.
Lemma opnd_good o : o ∈ ops -> opnd_ok o.
Proof. rewrite list.Forall_forall in Hops. auto. Qed.
Lemma width_most : imm_width c = most_imm r.
Proof.
  destruct (some_pattern pattern_is_imm r) eqn:Hs.
  - apply existsb_exists in Hs as (p & Hp%list_elem_of_In & Hsel). apply list_elem_of_lookup in Hp as [i Hi].
    destruct (lookup_lt_is_Some_2 ops i) as [o Ho]; [rewrite (proj1 (matched r ops Hr Hm)); by eapply lookup_lt_Some|].
    assert (Hin : (p, o) ∈ pairs) by (apply (list_elem_of_lookup_2 _ i), lookup_zip_Some; done).
    destruct (part_imm _ Hin Hsel) as [_ E]. unfold imm_width. rewrite E. symmetry. apply most_imm_one; [apply Hr|by eapply list_elem_of_lookup_2|done].
  - rewrite most_imm_none by done. pose proof (imm_width_bound r ops Hr Hm) as H. rewrite most_imm_none in H by done. lia.
Qed.
Lemma imm_there : c_imm c = None -> most_imm r = 0.
Proof.
  intros Hc. destruct (some_pattern pattern_is_imm r) eqn:Hs; [|by apply most_imm_none].
  apply existsb_exists in Hs as (p & Hp%list_elem_of_In & Hsel). apply list_elem_of_lookup in Hp as [i Hi].
  destruct (lookup_lt_is_Some_2 ops i) as [o Ho]; [rewrite (proj1 (matched r ops Hr Hm)); by eapply lookup_lt_Some|].
  assert (Hin : (p, o) ∈ pairs) by (apply (list_elem_of_lookup_2 _ i), lookup_zip_Some; done). destruct (part_imm _ Hin Hsel) as [E _]. congruence.
Qed.
Lemma segment_good : rm_segment c ∈ [0; 0x64; 0x65].
Proof.
  unfold rm_segment. destruct (c_rm c) as [rm|] eqn:E; [|left]. destruct (is_kind_of _ _); [|left].
  apply (rm_comes r ops Hr Hm) in E as (Hin & _). by apply opnd_good.
Qed.
Lemma cond_range : 0 <= c_cond c < 16 /\ (has_flag r RF_COND = false -> c_cond c = 0).
Proof.
  rewrite (proj2 (proj2 (proj2 (roles_parts r ops)))). destruct (has_flag r RF_COND); [|done]. split; [|done].
  destruct (pick_some _ _ _ pairs cond_step none) as [->|(po & H1 & H2 & ->)]; [cbn; lia|].
  destruct (zip_matched r ops Hr Hm po H1) as (Hin & _). destruct (opnd_good _ Hin) as [H _]. exact H.
Qed.

(** ** The instruction *)

Section Form.
Variable f : Form.
Hypothesis Hf : row_form r ops c = inl f.
Hypothesis Hbars : form_rex r ops f && existsb bars_rex ops = false.
Abbreviation rex_there := (form_rex r ops f).
Abbreviation rex := (if rex_there then Some (rex_byte (has_flag r RF_W) (f_rex_r f) (form_rex_x f) (f_rex_b f)) else None).
Abbreviation delta := (c_cond c + f_opcode_reg f).

Lemma rex_bits : rex_bit rex 3 = has_flag r RF_W /\ rex_bit rex 2 = f_rex_r f /\ rex_bit rex 1 = form_rex_x f /\ rex_bit rex 0 = f_rex_b f.
Proof.
  destruct rex_there eqn:E.
  - cbn [rex_bit]. destruct (rex_byte_is (has_flag r RF_W) (f_rex_r f) (form_rex_x f) (f_rex_b f)) as (_ & _ & H). exact H.
  - unfold form_rex in E. rewrite !orb_false_iff in E. destruct E as [[[[-> ->] ->] ->] _]. done.
Qed.
Lemma reg_range o : o ∈ ops -> 0 <= o_reg o < 16.
Proof. intros H. destruct (opnd_good o H) as [H1 _]. exact H1. Qed.
(** What is added to the opcode, by the class *)
Lemma delta_class : (row_is Enc_OpReg r = true -> exists o, c_reg c = Some o /\ f_opcode_reg f = Z.land (o_reg o) 7 /\ f_rex_b f = (8 <=? o_reg o)) /\
  (row_is Enc_FpuSt r = true -> exists o, first_stack r ops = Some o /\ 0 <= o_reg o <= 7 /\ f_opcode_reg f = o_reg o) /\
  (row_is Enc_OpReg r = false -> row_is Enc_FpuSt r = false -> f_opcode_reg f = 0).
Proof.
  pose proof Hf as H. unfold row_form in H. split; [|split].
  - intros He. pose proof (fact_opreg r Hr He) as Hp. apply existsb_exists in Hp as (p & Hp%list_elem_of_In & Hsel). apply list_elem_of_lookup in Hp as [i Hi].
    destruct (lookup_lt_is_Some_2 ops i) as [o Ho]; [rewrite (proj1 (matched r ops Hr Hm)); by eapply lookup_lt_Some|].
    assert (Hin : (p, o) ∈ pairs) by (apply (list_elem_of_lookup_2 _ i), lookup_zip_Some; done). pose proof (part_reg _ Hin Hsel) as E. rewrite E in H.
    apply bool_decide_eq_true in He. rewrite He in H. injection H as <-. by exists o.
  - intros He%bool_decide_eq_true. rewrite He in H. destruct (first_stack r ops) as [o|] eqn:E; [|done]. destruct (Z.ltb_spec 7 (o_reg o)); [done|].
    injection H as <-. exists o. split; [done|]. split; [|done]. unfold first_stack in E. apply fmap_Some in E as ([i po] & E & ->).
    apply list_find_Some in E as (E & _). destruct (zip_matched r ops Hr Hm po) as (Hin & _); [by eapply list_elem_of_lookup_2|].
    pose proof (reg_range _ Hin). cbn in *. lia.
  - intros H1%bool_decide_eq_false H2%bool_decide_eq_false. destruct (r_enc r); try done; repeat case_match; by simplify_eq.
Qed.
Lemma delta_range : 0 <= delta < opcode_room r.
Proof.
  destruct delta_class as (D1 & D2 & D3). destruct (cond_range) as [C1 C2]. unfold opcode_room.
  assert (Hex : row_is Enc_OpReg r || row_is Enc_FpuSt r = true -> has_flag r RF_COND = false).
  { intros H. destruct (has_flag r RF_COND) eqn:E; [|done]. destruct (fact_cond_class r Hr E) as [E1 E2]. by rewrite E1, E2 in H. }
  destruct (row_is Enc_OpReg r) eqn:E1; cbn [orb] in *.
  - destruct (D1 eq_refl) as (o & Ho & -> & _). rewrite C2 by auto. apply (reg_comes r ops Hr Hm) in Ho as [Ho _]. pose proof (low_high _ (reg_range _ Ho)). lia.
  - destruct (row_is Enc_FpuSt r) eqn:E2; [destruct (D2 eq_refl) as (o & _ & Ho & ->); rewrite C2 by auto; lia|]. rewrite D3 by done.
    destruct (has_flag r RF_COND); [lia|]. rewrite C2 by done. lia.
Qed.

(** *** The bytes after the opcode *)
Definition reading_reg : Z := if row_is Enc_Modrm r then reg_number r ops else 0.
Definition reading_address : option Address := match f_addressing f, c_rm c with Some _, Some rm => Some (address rm (most_imm r)) | _, _ => None end.
Definition reading_imm : Z :=
  match c_imm c with
  | Some imm => if most_imm r =? 0 then 0 else if is_kind_of K_Sym imm then 0 else swrap (8 * most_imm r) (o_imm imm)
  | None => 0
  end.
Lemma reg_number_range : row_is Enc_Modrm r = true -> 0 <= reg_number r ops < 16 /\
  Z.land (reg_number r ops) 7 + high_bit (match c_reg c with Some reg => 8 <=? o_reg reg | None => false end) = reg_number r ops.
Proof.
  intros He. unfold reg_number. destruct (c_reg c) as [reg|] eqn:E.
  - apply (reg_comes r ops Hr Hm) in E as [Hin _]. pose proof (reg_range _ Hin) as H. split; [exact H|]. apply (low_high _ H).
  - pose proof (fact_aux r Hr He) as Ha. split; [lia|]. pose proof (low_high (r_aux r) ltac:(lia)) as [H _].
    rewrite (proj2 (Z.leb_gt 8 (r_aux r))) in H by lia. exact H.
Qed.
Lemma modrm_reads l : read_modrm r rex (rm_bytes c f ++ l) = Some (reading_reg, reading_address, l).
Proof.
  destruct rex_bits as (_ & B2 & B1 & B0). unfold read_modrm, reading_reg, reading_address. rewrite B2, B1, B0.
  destruct (row_is Enc_Modrm r) eqn:He.
  - destruct (form_modrm r ops f Hf He) as (rm & a & E1 & E2 & Ef). unfold rm_bytes, form_rex_x. rewrite Ef in *. cbn [f_addressing f_rex_r f_rex_b]. rewrite E1.
    destruct (reg_number_range He) as [Hn Hsum]. destruct (rm_comes r ops Hr Hm rm E1) as (Hin & _).
    destruct (rm_read rm _ a (imm_width c) l E2 (opnd_good rm Hin) Hn) as (Hread & Hreg & _). cbn [app]. rewrite Hread, Hreg, Hsum.
    by rewrite width_most.
  - destruct (form_other r ops Hr Hm f Hf He) as [E1 E2]. unfold rm_bytes. by rewrite E1.
Qed.
Lemma imm_reads : read_imm r (if row_is Enc_Rel r then little_endian 4 0 else imm_bytes c) = Some (reading_imm, []).
Proof.
  unfold read_imm, reading_imm. destruct (row_is Enc_Rel r) eqn:Hrel.
  - assert (c_imm c = None) as ->; [|done]. destruct (c_imm c) as [imm|] eqn:E; [|done]. apply (imm_comes r ops Hr Hm) in E as (_ & H1 & H2 & _).
    pose proof (fact_rel_imm r Hr Hrel) as H. rewrite (some_in r _ _ H1 H2) in H. done.
  - unfold imm_bytes. destruct (c_imm c) as [imm|] eqn:E; [|by rewrite imm_there]. rewrite width_most.
    destruct (Z.eqb_spec (most_imm r) 0) as [Hz|Hz]; [by rewrite Hz|]. pose proof (imm_width_bound r ops Hr Hm) as Hw. rewrite width_most in Hw.
    assert (Hle : most_imm r <= 8) by (rewrite <- width_most; unfold imm_width; by destruct (c_imm_pattern c)).
    rewrite <- (app_nil_r (little_endian _ _)), read_signed_field by lia. rewrite Z2Nat.id by lia. destruct (is_kind_of K_Sym imm); [|done].
    do 2 f_equal. apply swrap_small; [lia|]. pose proof (pow2_pos (8 * most_imm r - 1)). lia.
Qed.
(** The bytes read back as the parts. *)
Lemma row_reads : read_row r (row_bytes r c f rex_there (form_rex_x f)) =
  Some (mkReading (rm_segment c) rex delta reading_reg reading_address reading_imm).
Proof.
  unfold read_row, row_bytes. rewrite (head_reads r c f rex_there (form_rex_x f) _ Hr (segment_good) delta_range). fold (row_is Enc_Rel r).
  assert (Hsplit : (if row_is Enc_Rel r then little_endian 4 0 else rm_bytes c f ++ imm_bytes c) =
    rm_bytes c f ++ (if row_is Enc_Rel r then little_endian 4 0 else imm_bytes c)).
  { destruct (row_is Enc_Rel r) eqn:Hrel; [|done]. destruct (row_is Enc_Modrm r) eqn:He.
    - apply bool_decide_eq_true in Hrel, He. congruence.
    - destruct (form_other r ops Hr Hm f Hf He) as [E1 _]. unfold rm_bytes. by rewrite E1. }
  rewrite Hsplit, modrm_reads, imm_reads. done.
Qed.

(** *** The operands *)
Abbreviation the_reading := (mkReading (rm_segment c) rex delta reading_reg reading_address reading_imm).
Definition reg_class_of (p : OpndPat) : ascii :=
  match p with
  | Pat_Gpr8 | Pat_Rm8 => "b" | Pat_Gpr16 | Pat_Rm16 => "w" | Pat_Gpr32 | Pat_Rm32 => "l" | Pat_Gpr64 | Pat_Rm64 | Pat_IndirRm => "q" | _ => "x"
  end.
Lemma class_matched p o w : match_operand p o w = true -> pattern_is_reg_field p = true \/ (pattern_is_rm p = true /\ o_kind o = K_Reg) ->
  o_kind o = K_Reg /\ ceqb (o_class o) (reg_class_of p) = true.
Proof.
  unfold match_operand, match_gpr, is_kind_of. intros H Hp. destruct (o_indirect o && negb (bool_decide (p = Pat_IndirRm))); [done|]. destruct Hp as [Hp|[Hp Hk]].
  - destruct p; try done; cbn in H; by apply andb_true_iff in H as [H%bool_decide_eq_true H'].
  - split; [done|]. assert (bool_decide (o_kind o = K_Mem) = false) as E by (by rewrite Hk).
    destruct p; try done; cbn in H; rewrite E, ?orb_false_r, ?andb_true_iff in H; tauto || done.
Qed.
Lemma class_unique o a b : ceqb (o_class o) a = true -> ceqb (o_class o) b = true -> a = b.
Proof. destruct (ceqb_reflects (o_class o) a), (ceqb_reflects (o_class o) b); congruence. Qed.
Lemma high_byte_reads p o w : o ∈ ops -> match_operand p o w = true -> pattern_is_reg_field p = true \/ (pattern_is_rm p = true /\ o_kind o = K_Reg) ->
  high_byte_read the_reading p (o_reg o) = o_high_byte o.
Proof.
  intros Hin Hmo Hp. destruct (class_matched p o w Hmo Hp) as [Hk Hc]. destruct (opnd_good o Hin) as (_ & _ & _ & Hhigh & _).
  assert (Hother : reg_class_of p <> "b"%char -> o_high_byte o = false).
  { intros Hne. destruct (o_high_byte o); [|done]. destruct (Hhigh eq_refl) as [Hb _]. by destruct (Hne (class_unique _ _ _ Hc Hb)). }
  assert (Hcase : (high_byte_read the_reading p (o_reg o) = false /\ reg_class_of p <> "b"%char) \/ ((p = Pat_Gpr8 \/ p = Pat_Rm8) /\ ceqb (o_class o) "b" = true)).
  { destruct p; try (left; by split); right; (split; [auto|exact Hc]). }
  destruct Hcase as [[-> Hne]|[Hb Hcb]]; [symmetry; by apply Hother|].
  assert (E : high_byte_read the_reading p (o_reg o) = if rex_there then false else (4 <=? o_reg o) && (o_reg o <=? 7)) by (destruct Hb as [-> | ->]; cbn; by destruct rex_there).
  rewrite E. destruct rex_there eqn:Hrex.
  - cbn [andb] in Hbars. destruct (o_high_byte o) eqn:Hh; [|done]. assert (existsb bars_rex ops = true); [|congruence].
    apply existsb_exists. exists o. split; [by apply list_elem_of_In|]. unfold bars_rex, is_kind_of. by rewrite Hk, Hh.
  - destruct (o_high_byte o) eqn:Hh; [destruct (Hhigh eq_refl); lia|]. destruct ((4 <=? o_reg o) && (o_reg o <=? 7)) eqn:Hr47; [|done].
    assert (existsb forces_rex ops = true) as Hforce.
    { apply existsb_exists. exists o. split; [by apply list_elem_of_In|]. unfold forces_rex, is_kind_of. rewrite Hk, Hh, Hcb. cbn [negb andb].
      by rewrite bool_decide_true by done. }
    unfold form_rex in Hrex. by rewrite Hforce, orb_true_r in Hrex.
Qed.
Lemma immediate_reads p o : fits64 (o_imm o) = true -> o_kind o = K_Imm -> match_operand p o (row_operand_width r) = true -> pattern_is_imm p = true ->
  c_imm c = Some o -> most_imm r = pattern_imm_bytes p -> immediate_read p (row_operand_width r) reading_imm (o_imm o).
Proof.
  intros Hfit Hk Hmo Hp Hc Hw. unfold reading_imm, is_kind_of. rewrite Hc, Hk, Hw. unfold match_operand, is_kind_of in Hmo. rewrite Hk in Hmo.
  destruct (o_indirect o && negb (bool_decide (p = Pat_IndirRm))); [done|]. set (w := row_operand_width r) in *.
  assert (Hww : w ∈ [8; 16; 32; 64]).
  { unfold w, row_operand_width. induction (r_pats r) as [|q l IH]; cbn; [by right; right; right; left|].
    destruct q; cbn; try exact IH; solve [left|right; left|right; right; left|right; right; right; left]. }
  clearbody w.
  assert (Hnarrow : narrow_to_width (o_imm o) w = if w =? 64 then o_imm o else swrap w (o_imm o)).
  { repeat (apply elem_of_cons in Hww as [->|Hww]; [try (rewrite narrow_spec by (solve [left|right; left|right; right; left])); done|]). by apply elem_of_nil in Hww. }
  rewrite (bool_decide_true (K_Imm = K_Imm)) in Hmo by done. rewrite Hnarrow in Hmo. clear Hnarrow.
  assert (Hwb : 0 <= 8 <= w /\ (w <> 64 -> w <= 32)) by (repeat (apply elem_of_cons in Hww as [->|Hww]; [lia|]); by apply elem_of_nil in Hww).
  destruct p; try done; cbn [pattern_imm_bytes immediate_read Z.eqb Pos.eqb andb] in *; rewrite bool_decide_false by done; cbn [Z.mul Pos.mul].
  - unfold fits_int8 in Hmo. apply andb_true_iff in Hmo as [Hmo1 Hmo2]. change (8 * 1) with 8. destruct (Z.eqb_spec w 64) as [Hw64|Hne]; [by rewrite swrap_small by lia|].
    rewrite <- (uwrap_swrap_wider w w (o_imm o)) by lia. f_equal. transitivity (swrap 8 (swrap w (o_imm o))); [|by apply swrap_small; lia].
    unfold swrap at 1 2. by rewrite uwrap_swrap_wider by lia.
  - by rewrite uwrap_swrap_wider by lia.
  - by rewrite uwrap_swrap_wider by lia.
  - intros Hlt. unfold fits_int32 in Hmo. apply andb_true_iff in Hmo as [Hmo1 Hmo2]. destruct (Z.eqb_spec w 64) as [Hw64|Hne]; [by rewrite swrap_small by lia|by rewrite uwrap_swrap_wider by lia].
  - by rewrite uwrap_swrap_wider by lia.
Qed.
(** Each operand is what the reading says. *)
Lemma operand_reads po : po ∈ pairs -> reads r the_reading po.1 po.2.
Proof.
  intros Hin. destruct (zip_matched r ops Hr Hm po Hin) as (Ho & Hp & Hmo). pose proof (opnd_good _ Ho) as Hgood. destruct po as [p o]. cbn [fst snd] in *.
  unfold reads. destruct (pattern_is_reg_field p) eqn:Hreg.
  { split; [|eapply high_byte_reads; [done|exact Hmo|by left]]. pose proof (part_reg _ Hin Hreg) as E. cbn [fst snd] in E. cbn [d_reg d_delta d_rex].
    destruct (row_is Enc_Modrm r) eqn:He; [unfold reading_reg, reg_number; by rewrite He, E|].
    destruct (fact_reg r Hr (some_in r _ p Hp Hreg)) as [|He2]; [congruence|]. destruct delta_class as (D1 & _ & _). destruct (D1 He2) as (o' & E' & -> & Eb).
    rewrite E in E'. injection E' as <-. destruct rex_bits as (_ & _ & _ & ->). rewrite Eb. destruct (cond_range) as [_ C2]. rewrite C2.
    - apply (low_high _ (reg_range _ Ho)).
    - destruct (has_flag r RF_COND) eqn:Ec; [|done]. destruct (fact_cond_class r Hr Ec). congruence. }
  destruct (pattern_is_rm p) eqn:Hrm.
  { pose proof (part_rm _ Hin Hrm) as E. cbn [fst snd] in E. split.
    - cbn [d_address]. unfold reading_address. destruct (rm_comes r ops Hr Hm o E) as (_ & He & _).
      destruct (form_modrm r ops f Hf He) as (rm & a & E1 & _ & Ef). by rewrite Ef, E.
    - unfold is_kind_of. case_bool_decide as Hk; [eapply high_byte_reads; [done|exact Hmo|by right]|]. cbn [d_segment]. unfold rm_segment. rewrite E.
      assert (is_kind_of K_Mem o = true) as ->; [|done]. unfold match_operand in Hmo. destruct (o_indirect o && negb (bool_decide (p = Pat_IndirRm))); [done|].
      assert (Hg : forall w, match_gpr o w = false) by (intros w; unfold match_gpr, is_kind_of; by rewrite bool_decide_false by done).
      destruct p; try done; rewrite ?Hg in Hmo; cbn in Hmo; try done. by apply andb_true_iff in Hmo as [_ H]. }
  destruct (pattern_is_imm p) eqn:Himm.
  - destruct (part_imm _ Hin Himm) as [E1 E2]. cbn [fst snd] in E1, E2. pose proof (most_imm_one r p (fact_one_imm r Hr) Hp Himm) as Hw.
    assert (Hkind : if bool_decide (p = Pat_ImmSym \/ p = Pat_ImmSym64) then o_kind o = K_Sym else o_kind o = K_Imm).
    { unfold match_operand, is_kind_of in Hmo. destruct (o_indirect o && negb (bool_decide (p = Pat_IndirRm))); [done|].
      destruct p; try done; cbn in Hmo |- *; rewrite ?andb_true_iff, ?bool_decide_eq_true in Hmo; tauto. }
    case_bool_decide as Hsym.
    + assert (Hz : reading_imm = 0) by (unfold reading_imm, is_kind_of; rewrite E1, Hkind; by destruct (_ =? 0)).
      destruct Hsym as [-> | ->]; exact Hz.
    + destruct Hgood as (_ & _ & _ & _ & _ & Hfit & _). pose proof (immediate_reads p o Hfit Hkind Hmo Himm E1 Hw) as H.
      destruct p; try done; solve [exact H|destruct Hsym; auto].
  - destruct p; try done; cbn [d_imm d_delta].
    + assert (Hrel : row_is Enc_Rel r = true) by (rewrite <- (fact_rel r Hr); by apply (some_in r _ Pat_Rel)). unfold reading_imm.
      destruct (c_imm c) as [imm|] eqn:E; [|done]. apply (imm_comes r ops Hr Hm) in E as (_ & H1 & H2 & _).
      pose proof (fact_rel_imm r Hr Hrel) as H. rewrite (some_in r _ _ H1 H2) in H. done.
    + assert (Hst : row_is Enc_FpuSt r = true) by (rewrite <- (fact_stack r Hr); by apply (some_in r _ Pat_StN)).
      destruct delta_class as (_ & D2 & _). destruct (D2 Hst) as (o' & Ho' & _ & ->). unfold first_stack in Ho'. apply fmap_Some in Ho' as ([i po] & E & ->).
      apply list_find_Some in E as (E & Hpo & _). destruct (cond_range) as [_ C2]. rewrite C2.
      * assert (po = (Pat_StN, o)) as ->; [|done]. apply (unique_in (fun x => pattern_is_stack x.1) pairs); [apply one_pair, Hr|by eapply list_elem_of_lookup_2|done| |done]. by rewrite Hpo.
      * destruct (has_flag r RF_COND) eqn:Ec; [|done]. destruct (fact_cond_class r Hr Ec). congruence.
    + pose proof (part_cond _ Hin eq_refl) as E. cbn [fst snd] in E. rewrite E. destruct delta_class as (_ & _ & D3).
      assert (Hc : has_flag r RF_COND = true) by (rewrite <- (fact_cond r Hr); by apply (some_in r _ Pat_Cond)).
      destruct (fact_cond_class r Hr Hc) as [N1 N2]. rewrite (D3 N1 N2). lia.
Qed.
End Form.
End Parts.

(** Claim C5: an instruction of the x86-64 table reads back. For every row and operands
    that match it, the encoder gives a result; when it gives an encoding, that is at most
    fifteen bytes long, and the architecture's reading of the bytes (segment, mandatory
    prefix, REX, opcode, ModRM, SIB, displacement, immediate) is the row's, with W as the
    row has it, and names the operands: the registers, high bytes told from low ones by
    the REX prefix; the address with its base, index, scale, displacement and segment;
    the condition; and the immediate, as the width of the row's operand has it. The field
    of a symbol is in the bytes and waits for its fixup. *)
Theorem x86_instruction_reads_back r ops : r ∈ kRows -> match_row r ops = true -> Forall opnd_ok ops ->
  exists e, x86_encode_row r ops = Done e /\ (e_ok e = true -> size (e_bytes e) <= 15 /\ fixup_within ops e /\
    exists i, read_row r (e_bytes e) = Some i /\ rex_bit (d_rex i) 3 = has_flag r RF_W /\ Forall2 (reads r i) (r_pats r) ops).
Proof.
  intros Hrow Hm Hops. pose proof (x86_table_row r Hrow) as Hr. destruct (encode_row_spec r ops Hr Hm) as (e & He & Hok). exists e. split; [done|].
  intros Ho. destruct (Hok Ho) as (f & Hf & Hbars & Hb & [Hs Hfix _]). split; [done|]. split; [done|]. rewrite Hb, (row_reads r ops Hr Hm Hops f Hf Hbars).
  eexists. split; [done|]. split; [cbn [d_rex]; by apply rex_bits|]. apply list.Forall2_same_length_lookup. destruct (matched r ops Hr Hm) as [Hl _].
  split; [done|]. intros k p o Hp Hko. apply (operand_reads r ops Hr Hm Hops f Hf Hbars (p, o)). apply (list_elem_of_lookup_2 _ k), lookup_zip_Some. done.
Qed.
Definition incl_row : X86IsaRow := mkRow (str "incl") Enc_Modrm 0 0xFF [Pat_Rm32] 0 0.
Definition sample_operand : AsmOperand := mkOpnd K_Mem 0 no_class false 0 true true false 7 12 4 0x64 8 no_sym 0 Plain false.
Lemma x86_instruction_reads_back_witness : incl_row ∈ kRows /\ match_row incl_row [sample_operand] = true /\ Forall opnd_ok [sample_operand] /\
  exists e, x86_encode_row incl_row [sample_operand] = Done e /\ e_bytes e = [0x64; 0x42; 0xFF; 0x44; 0xA7; 0x08] /\
    exists i, read_row incl_row (e_bytes e) = Some i /\ d_address i = Some (Addr_mem (Some 7) (Some (12, 4)) 8).
Proof.
  assert (H1 : incl_row ∈ kRows) by (apply (list_elem_of_lookup_2 _ 296); vm_compute; reflexivity).
  assert (H2 : match_row incl_row [sample_operand] = true) by reflexivity.
  assert (H3 : Forall opnd_ok [sample_operand]).
  { apply list.Forall_singleton. unfold opnd_ok, word. cbn. split; [lia|]. split; [lia|]. split; [lia|]. split; [done|]. split; [right; left|done]. }
  split; [done|]. split; [done|]. split; [done|]. destruct (x86_instruction_reads_back _ _ H1 H2 H3) as (e & He & Hok). exists e. split; [done|].
  vm_compute in He. injection He as <-. split; [done|]. destruct (Hok eq_refl) as (_ & _ & i & Hi & _ & Hreads). exists i. split; [done|].
  apply list.Forall2_cons in Hreads as [[H _] _]. exact H.
Defined.
