(* ===== verification/AsmX86.v ===== *)
(** * The x86-64 instruction parser (src/assembler/x86/asm_x86.cpp)

    An instruction may follow a prefix that is written as a mnemonic. Its mnemonic may
    end in a condition, which becomes its first operand. The parser fills an operand in
    place: what a parse has set stays when a later part of it sets more. *)
From stdpp Require Import list strings.
From S2P Require Import Prelude Vectors Outcome AsmLexer AsmExpr Mir AsmUnit Assembler AsmDirectives AsmOperands X86Isa.
Open Scope Z_scope.

(** ** Names *)

(** The registers of a class, from a number on. *)
Definition numbered (first : Z) (reg_class : ascii) (high_byte : bool) (names : list chars) : list (chars * (Z * ascii * bool)) :=
  imap (fun i name => (name, (first + Z.of_nat i, reg_class, high_byte))) names.
Definition kRegisters : list (chars * (Z * ascii * bool)) :=
  numbered 0 "q" false [str "rax"; str "rcx"; str "rdx"; str "rbx"; str "rsp"; str "rbp"; str "rsi"; str "rdi"; str "r8"; str "r9";
    str "r10"; str "r11"; str "r12"; str "r13"; str "r14"; str "r15"] ++
  numbered 0 "l" false [str "eax"; str "ecx"; str "edx"; str "ebx"; str "esp"; str "ebp"; str "esi"; str "edi"; str "r8d"; str "r9d";
    str "r10d"; str "r11d"; str "r12d"; str "r13d"; str "r14d"; str "r15d"] ++
  numbered 0 "w" false [str "ax"; str "cx"; str "dx"; str "bx"; str "sp"; str "bp"; str "si"; str "di"; str "r8w"; str "r9w"; str "r10w";
    str "r11w"; str "r12w"; str "r13w"; str "r14w"; str "r15w"] ++
  numbered 0 "b" false [str "al"; str "cl"; str "dl"; str "bl"; str "spl"; str "bpl"; str "sil"; str "dil"] ++
  numbered 4 "b" true [str "ah"; str "ch"; str "dh"; str "bh"] ++
  numbered 8 "b" false [str "r8b"; str "r9b"; str "r10b"; str "r11b"; str "r12b"; str "r13b"; str "r14b"; str "r15b"] ++
  numbered 0 "x" false [str "xmm0"; str "xmm1"; str "xmm2"; str "xmm3"; str "xmm4"; str "xmm5"; str "xmm6"; str "xmm7"; str "xmm8";
    str "xmm9"; str "xmm10"; str "xmm11"; str "xmm12"; str "xmm13"; str "xmm14"; str "xmm15"] ++
  [(str "st", (0, "t"%char, false))].
Definition lower (c : ascii) : ascii :=
  if (code "A" <=? code c) && (code c <=? code "Z") then ascii_of_nat (nat_of_ascii c - nat_of_ascii "A" + nat_of_ascii "a") else c.
Definition lowered (text : chars) : chars := map lower text.
Definition with_reg (number : Z) (reg_class : ascii) (high : bool) (o : AsmOperand) : AsmOperand :=
  mkOpnd K_Reg number reg_class high (o_imm o) (o_has_base o) (o_has_index o) (o_rip o) (o_base o) (o_index o) (o_scale o)
    (o_segment o) (o_disp o) (o_sym o) (o_addend o) (o_flavor o) (o_indirect o).
Definition parse_register (text : chars) (operand : AsmOperand) : option AsmOperand :=
  match spelled text kRegisters with
  | Some (number, reg_class, high) => Some (with_reg number reg_class high operand)
  | None => None
  end.
Definition prefixes : list (chars * Z) :=
  [(str "lock", 0xF0); (str "rep", 0xF3); (str "repe", 0xF3); (str "repz", 0xF3); (str "repne", 0xF2); (str "repnz", 0xF2)].
Definition prefix_byte_for (mnemonic : chars) : option Z := spelled mnemonic prefixes.
Definition is_branch_mnemonic (mnemonic : chars) : bool :=
  bool_decide (mnemonic ∈ [str "jmp"; str "jmpq"; str "call"; str "callq"; str "j"]).

(** ** Operands *)

Section Operands.
Context {slot : EmptySlot}.

Definition with_kind (k : OperandKind) (o : AsmOperand) : AsmOperand :=
  mkOpnd k (o_reg o) (o_class o) (o_high_byte o) (o_imm o) (o_has_base o) (o_has_index o) (o_rip o) (o_base o) (o_index o) (o_scale o)
    (o_segment o) (o_disp o) (o_sym o) (o_addend o) (o_flavor o) (o_indirect o).
Definition with_imm (n : Z) (o : AsmOperand) : AsmOperand :=
  mkOpnd K_Imm (o_reg o) (o_class o) (o_high_byte o) n (o_has_base o) (o_has_index o) (o_rip o) (o_base o) (o_index o) (o_scale o)
    (o_segment o) (o_disp o) (o_sym o) (o_addend o) (o_flavor o) (o_indirect o).
Definition with_sym (id : SymId) (addend : Z) (f : SymFlavor) (o : AsmOperand) : AsmOperand :=
  mkOpnd (o_kind o) (o_reg o) (o_class o) (o_high_byte o) (o_imm o) (o_has_base o) (o_has_index o) (o_rip o) (o_base o) (o_index o)
    (o_scale o) (o_segment o) (o_disp o) id addend f (o_indirect o).
Definition with_disp (n : Z) (o : AsmOperand) : AsmOperand :=
  mkOpnd (o_kind o) (o_reg o) (o_class o) (o_high_byte o) (o_imm o) (o_has_base o) (o_has_index o) (o_rip o) (o_base o) (o_index o)
    (o_scale o) (o_segment o) n (o_sym o) (o_addend o) (o_flavor o) (o_indirect o).
Definition with_rip (o : AsmOperand) : AsmOperand :=
  mkOpnd (o_kind o) (o_reg o) (o_class o) (o_high_byte o) (o_imm o) (o_has_base o) (o_has_index o) true (o_base o) (o_index o)
    (o_scale o) (o_segment o) (o_disp o) (o_sym o) (o_addend o) (o_flavor o) (o_indirect o).
Definition with_base (n : Z) (o : AsmOperand) : AsmOperand :=
  mkOpnd (o_kind o) (o_reg o) (o_class o) (o_high_byte o) (o_imm o) true (o_has_index o) (o_rip o) n (o_index o)
    (o_scale o) (o_segment o) (o_disp o) (o_sym o) (o_addend o) (o_flavor o) (o_indirect o).
Definition with_index (n : Z) (o : AsmOperand) : AsmOperand :=
  mkOpnd (o_kind o) (o_reg o) (o_class o) (o_high_byte o) (o_imm o) (o_has_base o) true (o_rip o) (o_base o) n
    (o_scale o) (o_segment o) (o_disp o) (o_sym o) (o_addend o) (o_flavor o) (o_indirect o).
Definition with_scale (n : Z) (o : AsmOperand) : AsmOperand :=
  mkOpnd (o_kind o) (o_reg o) (o_class o) (o_high_byte o) (o_imm o) (o_has_base o) (o_has_index o) (o_rip o) (o_base o) (o_index o)
    n (o_segment o) (o_disp o) (o_sym o) (o_addend o) (o_flavor o) (o_indirect o).
Definition with_segment (n : Z) (o : AsmOperand) : AsmOperand :=
  mkOpnd (o_kind o) (o_reg o) (o_class o) (o_high_byte o) (o_imm o) (o_has_base o) (o_has_index o) (o_rip o) (o_base o) (o_index o)
    (o_scale o) n (o_disp o) (o_sym o) (o_addend o) (o_flavor o) (o_indirect o).
Definition with_indirect (o : AsmOperand) : AsmOperand :=
  mkOpnd (o_kind o) (o_reg o) (o_class o) (o_high_byte o) (o_imm o) (o_has_base o) (o_has_index o) (o_rip o) (o_base o) (o_index o)
    (o_scale o) (o_segment o) (o_disp o) (o_sym o) (o_addend o) (o_flavor o) true.

(** *** [(base, index, scale)] *)
Definition address_register (text : chars) : option Z :=
  match parse_register text default_opnd with
  | Some o => if ceqb (o_class o) "q" then Some (o_reg o) else None
  | None => None
  end.
Definition parse_base (operand : AsmOperand) : Statement (option AsmOperand) :=
  first ← lexing peek;
  if is_punct "%" first then
    _ ← lexing take_token;
    name ← lexing peek;
    if negb (is_kind Tok_Ident name) then wrong name (str "expected a base register")
    else
      base_token ← lexing take_token;
      let text := lowered (text base_token) in
      if bool_decide (text = str "rip") then mret (Some (with_rip operand))
      else
        match address_register text with
        | Some n => mret (Some (with_base n operand))
        | None => wrong base_token (str "memory base '%" ++ text ++ str "' must be a 64-bit register")
        end
  else mret (Some operand).
Definition parse_scale (operand : AsmOperand) : Statement (option AsmOperand) :=
  comma ← lexing peek;
  if is_punct "," comma then
    _ ← lexing take_token;
    scale ← lexing peek;
    if negb (is_kind Tok_Integer scale) then wrong scale (str "expected an index scale")
    else _ ← lexing take_token; mret (Some (with_scale (u8 (tok_value scale)) operand))
  else mret (Some operand).
Definition parse_index (operand : AsmOperand) : Statement (option AsmOperand) :=
  comma ← lexing peek;
  if is_punct "," comma then
    _ ← lexing take_token;
    percent ← lexing peek;
    if o_rip operand then wrong percent (str "rip-relative addressing takes no index")
    else if negb (is_punct "%" percent) then wrong percent (str "expected an index register")
    else
      _ ← lexing take_token;
      name ← lexing peek;
      if negb (is_kind Tok_Ident name) then wrong name (str "expected an index register")
      else
        index_token ← lexing take_token;
        match address_register (lowered (text index_token)) with
        | Some n => parse_scale (with_index n operand)
        | None => wrong index_token (str "memory index must be a 64-bit register")
        end
  else mret (Some operand).
Definition parse_memory_operand (operand : AsmOperand) : Statement (option AsmOperand) :=
  let operand := with_kind K_Mem operand in
  open ← lexing peek;
  if negb (is_punct "(" open) then mret (Some operand)
  else
    _ ← lexing take_token;
    parsed_then (parse_base operand) (fun operand => parsed_then (parse_index operand) (fun operand =>
      close ← lexing peek;
      if negb (is_punct ")" close) then wrong close (str "expected ')'") else _ ← lexing take_token; mret (Some operand))).

(** *** Symbols and immediates *)
(** A suffix gives its flavor; [@plt] gives none, and its mark is not used. *)
Definition relocation_suffixes : list (chars * SymFlavor) := [(str "gotpcrel", GotPcRel); (str "tlvp", TlvPcRel); (str "plt", Plain)].
Definition parse_relocation_suffix : Statement (option SymFlavor) :=
  at_sign ← lexing peek;
  if negb (is_punct "@" at_sign) then mret (Some Plain)
  else
    _ ← lexing take_token;
    name ← lexing peek;
    if negb (is_kind Tok_Ident name) then wrong name (str "expected a relocation suffix")
    else
      suffix ← lexing take_token;
      match spelled (lowered (text suffix)) relocation_suffixes with
      | Some flavor => mret (Some flavor)
      | None => wrong suffix (str "unknown relocation suffix '@" ++ text suffix ++ str "'")
      end.
(** An expression with its suffix; a report on it is where the reference [at] sees. *)
Definition parse_value (subtracted : chars) : Statement (option (ExprValue * SymFlavor)) :=
  _ ← lexing peek;
  value ← parse_expression;
  if negb (ok value) then mret None
  else
    parsed_then parse_relocation_suffix (fun flavor =>
      if is_sym (neg_sym value) then at_token ← first_slot; wrong at_token subtracted else mret (Some (value, flavor))).
Definition parse_immediate (operand : AsmOperand) : Statement (option AsmOperand) :=
  parsed_then (parse_value (str "immediates cannot subtract a symbol")) (fun vf =>
    let '(value, flavor) := vf in
    mret (Some (if is_sym (pos_sym value) then with_kind K_Sym (with_sym (pos_sym value) (constant value) flavor operand)
                else with_imm (constant value) operand))).
Definition parse_expression_operand (operand : AsmOperand) (branch : bool) : Statement (option AsmOperand) :=
  parsed_then (parse_value (str "instruction operands cannot subtract a symbol")) (fun vf =>
    let '(value, flavor) := vf in
    next ← lexing peek;
    if branch && negb (is_punct "(" next) then
      if negb (is_sym (pos_sym value)) then at_token ← first_slot; wrong at_token (str "branch target must be a label or symbol")
      else mret (Some (with_kind K_Sym (with_sym (pos_sym value) (constant value) (o_flavor operand) operand)))
    else
      parse_memory_operand
        (if is_sym (pos_sym value) then with_sym (pos_sym value) (constant value) flavor operand else with_disp (constant value) operand)).

(** *** Registers *)
Definition parse_stack_index (operand : AsmOperand) : Statement (option AsmOperand) :=
  open ← lexing peek;
  if is_punct "(" open then
    _ ← lexing take_token;
    index ← lexing peek;
    if negb (is_kind Tok_Integer index) || (tok_value index <? 0) || (7 <? tok_value index) then
      wrong index (str "expected an x87 stack index 0-7")
    else
      _ ← lexing take_token;
      close ← lexing peek;
      if negb (is_punct ")" close) then wrong close (str "expected ')'")
      else _ ← lexing take_token; mret (Some (with_reg (u8 (tok_value index)) (o_class operand) (o_high_byte operand) operand))
  else mret (Some operand).
Definition is_segment_name (name : chars) : bool := bool_decide (name = str "fs") || bool_decide (name = str "gs").
Definition parse_percent_operand (operand : AsmOperand) : Statement (option AsmOperand) :=
  _ ← lexing take_token;
  name ← lexing peek;
  if negb (is_kind Tok_Ident name) then wrong name (str "expected a register name after '%'")
  else
    let text := lowered (text name) in
    colon ← lexing peek_second;
    if is_segment_name text && is_punct ":" colon then
      _ ← lexing take_token;
      _ ← lexing take_token;
      next ← lexing peek;
      parsed_then (if is_punct "(" next then parse_memory_operand operand else parse_expression_operand operand false) (fun operand =>
        mret (Some (with_segment (if bool_decide (text = str "fs") then 0x64 else 0x65) operand)))
    else
      register_token ← lexing take_token;
      match parse_register text operand with
      | None => wrong register_token (str "unknown register '%" ++ text ++ str "'")
      | Some operand => if ceqb (o_class operand) "t" then parse_stack_index operand else mret (Some operand)
      end.
(** A round takes a star. *)
Fixpoint parse_operand (fuel : nat) (operand : AsmOperand) (branch : bool) : Statement (option AsmOperand) :=
  match fuel with
  | O => out_of_fuel
  | S fuel =>
      t ← lexing peek;
      if is_punct "*" t then
        _ ← lexing take_token;
        parsed_then (parse_operand fuel operand false) (fun operand => mret (Some (with_indirect operand)))
      else if is_punct "$" t then _ ← lexing take_token; parse_immediate operand
      else if is_punct "%" t then parse_percent_operand operand
      else if is_punct "(" t then parse_memory_operand operand
      else parse_expression_operand operand branch
  end.

(** ** Instructions *)

(** The operands, each followed by a comma or not; a round takes a comma. *)
Fixpoint parse_operands (fuel : nat) (branch : bool) (operands : list AsmOperand) : Statement (option (list AsmOperand)) :=
  match fuel with
  | O => out_of_fuel
  | S fuel =>
      s ← get;
      parsed_then (parse_operand (tokens_left s) default_opnd branch) (fun operand =>
        more ← take_comma;
        if (more : bool) then parse_operands fuel branch (operands ++ [operand]) else mret (Some (operands ++ [operand])))
  end.
Definition fixup_kind (f : IsaFixup) : FixupKind :=
  match f with Fix_PcRel32 | Fix_None => PcRel32 | Fix_Abs32 => Abs32 | Fix_Abs64 => Abs64 end.
Definition emit (e : IsaEncoded) (at_token : Token) : M Asm unit :=
  if e_is_branch e then
    append_branch (take (Z.to_nat (e_near_size e)) (e_bytes e)) (e_fixup_offset e) (e_short_opcode e) (e_sym e) (e_addend e) at_token
  else if bool_decide (e_fixup e = Fix_None) then append_inst_bytes (e_bytes e) at_token
  else
    append_inst_bytes_fixup (e_bytes e) (fixup_kind (e_fixup e)) (e_fixup_offset e) (e_sym e) (e_addend e) (e_flavor e) (e_pcrel_extra e)
      at_token.
Definition condition_operand (cond : Z) : AsmOperand := with_reg cond "c" false default_opnd.
(** The mnemonic and the operands that its condition gives. *)
Definition split_mnemonic (mnemonic : chars) : outcome (chars * list AsmOperand) :=
  known ← x86_known_mnemonic mnemonic;
  Done (if (known : bool) then (mnemonic, [])
        else match x86_split_condition mnemonic with Some (stem, cond) => (stem, [condition_operand cond]) | None => (mnemonic, []) end).
Definition parse_mnemonic (mnemonic_token : Token) (spelling : chars) (prefix : Z) : Statement unit :=
  split ← lift (split_mnemonic spelling);
  let '(mnemonic, operands) := split in
  first ← lexing peek;
  s ← get;
  parsed ← (if ends_statement first then mret (Some operands) else parse_operands (tokens_left s) (is_branch_mnemonic mnemonic) operands);
  match parsed with
  | None => skip
  | Some operands =>
      e ← lift (x86_match_and_encode mnemonic operands prefix);
      if negb (e_ok e) then reject mnemonic_token (e_error e) tt
      else _ ← asking (emit e mnemonic_token); operands_end
  end.
(** The instruction after a prefix *)
Definition parse_prefixed (mnemonic_token : Token) (spelling : chars) (prefix : Z) : Statement unit :=
  next ← lexing peek;
  if negb (is_kind Tok_Ident next) then reject next (str "expected an instruction after '" ++ spelling ++ str "'") tt
  else stem_token ← lexing take_token; parse_mnemonic mnemonic_token (lowered (text stem_token)) prefix.
Definition parse_x86 (mnemonic_token : Token) : Statement unit :=
  let spelling := lowered (text mnemonic_token) in
  match prefix_byte_for spelling with
  | Some prefix => parse_prefixed mnemonic_token spelling prefix
  | None => parse_mnemonic mnemonic_token spelling 0
  end.
End Operands.
