(* ===== verification/AsmX86Safe.v ===== *)
(** * The x86-64 instruction parser stays within bounds

    Every parse of an operand keeps the invariant of the assembler and names symbols it
    knows; what the encoder makes of the operands is appended within its bounds. *)
From stdpp Require Import list sets gmap strings.
From S2P Require Import Prelude Vectors Outcome AsmLexer AsmExpr Mir AsmUnit Assembler AsmSafe AsmDirectives AsmStatements AsmOperands SortedTable X86Isa X86IsaProps X86Pack AsmX86.
Open Scope Z_scope.

Section Parser.
Context {slot : EmptySlot}.
Variables limit least : nat.
Hypothesis Hlimit : Z.of_nat limit < no_sym.
Abbreviation W := (AsmStatements.W limit least).
Abbreviation gives := (AsmOperands.gives limit least).
Abbreviation leaves := (AsmStatements.leaves limit least).

(** The symbol of an operand, which an operand of the kind [Sym] has, is known. *)
Definition opnd_known (a : Asm) (o : AsmOperand) : Prop :=
  (is_sym (o_sym o) = true -> known a (o_sym o)) /\ (o_kind o = K_Sym -> is_sym (o_sym o) = true).
Definition value_good (a : Asm) (vf : ExprValue * SymFlavor) : Prop := value_known known a vf.1.
Definition any {A} (a : Asm) (x : A) : Prop := True.
Lemma x86_opnd_grows a a' o : grows known a a' -> opnd_known a o -> opnd_known a' o.
Proof. intros Hg [H1 H2]. split; [|done]. intros H. by apply Hg, H1. Qed.
(** Changes that leave the symbol and are not of the kind [Sym]. *)
Lemma same_symbol a o o' : opnd_known a o -> o_sym o' = o_sym o -> (o_kind o' = o_kind o \/ o_kind o' <> K_Sym) -> opnd_known a o'.
Proof. intros [H1 H2] E Hk. unfold opnd_known. rewrite E. split; [done|]. destruct Hk as [->|Hk]; [done|]. intros H. by destruct Hk. Qed.
Ltac keeps := eapply same_symbol; [eassumption|reflexivity|first [by left|by right]].
Lemma with_sym_known a id k f o : (is_sym id = true -> known a id) -> is_sym id = true -> opnd_known a (with_sym id k f o).
Proof. intros H Hi. by split. Qed.

Lemma x86_plain_known a o : is_sym (o_sym o) = false -> o_kind o <> K_Sym -> opnd_known a o.
Proof. intros H1 H2. split; [congruence|done]. Qed.

Ltac peeked t s H E Hh := apply gives_peek; [done|]; intros t s H E Hh.
Ltac taken t s H E := apply gives_take_any; [done|]; intros t s H E.

Lemma parse_base_gives o n p s : W n p s -> opnd_known (snd s) o -> gives opnd_known (parse_base o) n p s.
Proof.
  intros Hs Ho. peeked t1 s1 H1 E1 Hh1. rewrite <- E1 in Ho. destruct (is_punct _ _); [|by apply gives_ret].
  taken t2 s2 H2 E2. peeked t3 s3 H3 E3 Hh3. destruct (negb _); [by apply gives_wrong|]. taken t4 s4 H4 E4.
  rewrite <- E2, <- E3, <- E4 in Ho. cbn zeta. case_bool_decide; [apply gives_ret; [done|keeps]|].
  destruct (address_register _); [apply gives_ret; [done|keeps]|by apply gives_wrong].
Qed.
Lemma parse_scale_gives o n p s : W n p s -> opnd_known (snd s) o -> gives opnd_known (parse_scale o) n p s.
Proof.
  intros Hs Ho. peeked t1 s1 H1 E1 Hh1. rewrite <- E1 in Ho. destruct (is_punct _ _); [|by apply gives_ret].
  taken t2 s2 H2 E2. peeked t3 s3 H3 E3 Hh3. destruct (negb _); [by apply gives_wrong|]. taken t4 s4 H4 E4.
  rewrite <- E2, <- E3, <- E4 in Ho. apply gives_ret; [done|keeps].
Qed.
Lemma x86_parse_index_gives o n p s : W n p s -> opnd_known (snd s) o -> gives opnd_known (parse_index o) n p s.
Proof.
  intros Hs Ho. peeked t1 s1 H1 E1 Hh1. rewrite <- E1 in Ho. destruct (is_punct _ _); [|by apply gives_ret].
  taken t2 s2 H2 E2. peeked t3 s3 H3 E3 Hh3. destruct (o_rip o); [by apply gives_wrong|]. destruct (negb _); [by apply gives_wrong|].
  taken t4 s4 H4 E4. peeked t5 s5 H5 E5 Hh5. destruct (negb _); [by apply gives_wrong|]. taken t6 s6 H6 E6.
  rewrite <- E2, <- E3, <- E4, <- E5, <- E6 in Ho. destruct (address_register _); [|by apply gives_wrong]. apply parse_scale_gives; [done|keeps].
Qed.
Lemma parse_memory_operand_gives o n p s : W n p s -> (is_sym (o_sym o) = true -> known (snd s) (o_sym o)) ->
  gives opnd_known (parse_memory_operand o) n p s.
Proof.
  intros Hs Hsym. assert (Ho : opnd_known (snd s) (with_kind K_Mem o)) by (by split). unfold parse_memory_operand. cbn zeta.
  generalize dependent (with_kind K_Mem o). clear Hsym o. intros o Ho.
  peeked t1 s1 H1 E1 Hh1. rewrite <- E1 in Ho. destruct (negb _); [by apply gives_ret|]. taken t2 s2 H2 E2. rewrite <- E2 in Ho.
  eapply (gives_then limit least); [by apply parse_base_gives|]. intros o3 s3 H3 _ Ho3.
  eapply (gives_then limit least); [by apply x86_parse_index_gives|]. intros o4 s4 H4 _ Ho4. peeked t5 s5 H5 E5 Hh5.
  destruct (negb _); [by apply gives_wrong|]. taken t6 s6 H6 E6. rewrite <- E5, <- E6 in Ho4. by apply gives_ret.
Qed.
Lemma parse_relocation_suffix_gives n p s : W n p s -> gives (fun a (_ : SymFlavor) => a = snd s) parse_relocation_suffix n p s.
Proof.
  intros Hs. peeked t1 s1 H1 E1 Hh1. destruct (negb _); [by apply gives_ret|]. taken t2 s2 H2 E2. peeked t3 s3 H3 E3 Hh3.
  destruct (negb _); [by apply gives_wrong|]. taken t4 s4 H4 E4. destruct (spelled _ _); [|by apply gives_wrong]. apply gives_ret; [done|congruence].
Qed.
Lemma parse_value_gives m n p s : W n p s -> gives value_good (parse_value m) n p s.
Proof.
  intros Hs. peeked t1 s1 H1 E1 Hh1. apply gives_expression; [done|done|]. intros v s2 H2 Hv. destruct (negb _); [by apply gives_none|].
  eapply (gives_then limit least); [by apply parse_relocation_suffix_gives|]. intros f s3 H3 _ E3.
  destruct (is_sym (neg_sym v)); [apply gives_slot; [done|]; intros t; by apply gives_wrong|]. apply gives_ret; [done|]. unfold value_good. by rewrite E3.
Qed.
Lemma x86_parse_immediate_gives o n p s : W n p s -> opnd_known (snd s) o -> gives opnd_known (parse_immediate o) n p s.
Proof.
  intros Hs Ho. eapply (gives_then limit least); [by apply parse_value_gives|]. intros [v f] s1 H1 Hg [Hv _]. cbn [fst] in Hv. apply gives_ret; [done|].
  destruct (is_sym (pos_sym v)) eqn:Hp.
  - split; cbn; [|done]. intros _. by apply Hv.
  - apply (x86_opnd_grows _ (snd s1)) in Ho; [|done]. keeps.
Qed.
Lemma parse_expression_operand_gives o b n p s : W n p s -> opnd_known (snd s) o -> gives opnd_known (parse_expression_operand o b) n p s.
Proof.
  intros Hs Ho. eapply (gives_then limit least); [by apply parse_value_gives|]. intros [v f] s1 H1 Hg [Hv _]. cbn [fst] in Hv.
  peeked t2 s2 H2 E2 Hh2. rewrite <- E2 in Hv, Hg. destruct (b && _).
  - destruct (is_sym (pos_sym v)) eqn:Hp; cbn [negb]; [|apply gives_slot; [done|]; intros t; by apply gives_wrong].
    apply gives_ret; [done|]. split; cbn; [|done]. intros _. by apply Hv.
  - apply parse_memory_operand_gives; [done|]. apply (x86_opnd_grows _ _ _ Hg) in Ho.
    destruct (is_sym (pos_sym v)) eqn:Hp; cbn; [|by apply Ho]. intros _. by apply Hv.
Qed.
Lemma parse_stack_index_gives o n p s : W n p s -> opnd_known (snd s) o -> gives opnd_known (parse_stack_index o) n p s.
Proof.
  intros Hs Ho. peeked t1 s1 H1 E1 Hh1. rewrite <- E1 in Ho. destruct (is_punct _ _); [|by apply gives_ret].
  taken t2 s2 H2 E2. peeked t3 s3 H3 E3 Hh3. destruct (_ || _); [by apply gives_wrong|]. taken t4 s4 H4 E4. peeked t5 s5 H5 E5 Hh5.
  destruct (negb _); [by apply gives_wrong|]. taken t6 s6 H6 E6. rewrite <- E2, <- E3, <- E4, <- E5, <- E6 in Ho. apply gives_ret; [done|keeps].
Qed.
Lemma parse_percent_operand_gives o n p s : W n p s -> opnd_known (snd s) o -> gives opnd_known (parse_percent_operand o) n p s.
Proof.
  intros Hs Ho. taken t1 s1 H1 E1. peeked t2 s2 H2 E2 Hh2. destruct (negb _); [by apply gives_wrong|]. cbn zeta.
  apply (gives_peek_second limit least _ t2); [done|done|]. intros t3 s3 H3 E3 _ _. rewrite <- E1, <- E2, <- E3 in Ho. destruct (_ && _).
  - taken t4 s4 H4 E4. taken t5 s5 H5 E5. peeked t6 s6 H6 E6 Hh6. rewrite <- E4, <- E5, <- E6 in Ho.
    eapply (gives_then limit least opnd_known).
    + destruct (is_punct _ _); [apply parse_memory_operand_gives; [done|by apply Ho]|by apply parse_expression_operand_gives].
    + intros o7 s7 H7 _ Ho7. apply gives_ret; [done|keeps].
  - taken t4 s4 H4 E4. rewrite <- E4 in Ho. unfold parse_register. destruct (spelled _ _) as [[[number reg_class] high]|]; [|by apply gives_wrong].
    destruct (ceqb _ _); [apply parse_stack_index_gives; [done|keeps]|apply gives_ret; [done|keeps]].
Qed.
Lemma x86_parse_operand_gives : forall fuel o b n p s, W n p s -> opnd_known (snd s) o -> (pending (fst s) < fuel)%nat ->
  gives opnd_known (parse_operand fuel o b) n p s.
Proof.
  induction fuel as [|fuel IH]; intros o b n p s Hs Ho Hf; [lia|]. cbn [parse_operand]. pose proof (W_limit limit least _ _ _ Hs) as Hn.
  apply (gives_weaken limit least _ _ n (pending (fst s))); [|lia|by apply Hs|done]. apply W_exact in Hs.
  peeked t1 s1 H1 E1 Hh1. rewrite <- E1 in Ho.
  destruct (is_punct "*" t1) eqn:Hstar.
  - apply gives_take with t1; [done|done|by eapply punct_not_end|]. intros s2 H2 E2 _ Hn2 Hp2. rewrite <- E2 in Ho.
    eapply (gives_then limit least opnd_known).
    + apply (gives_weaken limit least _ _ (pred n) (pred (pending (fst s)))); [|lia..]. apply IH; [done|done|]. pose proof (proj1 (proj2 (proj2 H2))). lia.
    + intros o3 s3 H3 _ Ho3. apply gives_ret; [done|keeps].
  - destruct (is_punct "$" t1); [taken t2 s2 H2 E2; apply x86_parse_immediate_gives; [done|by rewrite E2]|].
    destruct (is_punct "%" t1); [by apply parse_percent_operand_gives|].
    destruct (is_punct "(" t1); [apply parse_memory_operand_gives; [done|by apply Ho]|by apply parse_expression_operand_gives].
Qed.

(** ** Instructions *)

Definition opnds_known (a : Asm) (l : list AsmOperand) : Prop := Forall (opnd_known a) l.
Lemma x86_opnds_grow a a' l : grows known a a' -> opnds_known a l -> opnds_known a' l.
Proof. intros Hg Hl. eapply list.Forall_impl; [exact Hl|]. intros o. by apply x86_opnd_grows. Qed.
Lemma x86_parse_operands_gives b n : forall fuel p l s, W n p s -> opnds_known (snd s) l -> (pending (fst s) < fuel)%nat ->
  gives opnds_known (parse_operands fuel b l) n p s.
Proof.
  induction fuel as [|fuel IH]; intros p l s Hs Hl Hf; [lia|]. cbn [parse_operands]. pose proof (W_limit limit least _ _ _ Hs) as Hn.
  apply (gives_weaken limit least _ _ n (pending (fst s))); [|lia|by apply Hs|done]. apply W_exact in Hs. apply run_bind, run_get.
  eapply (gives_then limit least); [apply x86_parse_operand_gives; [exact Hs|by apply x86_plain_known|by eapply tokens_left_bound]|]. intros o s1 H1 Hg Ho.
  assert (Hl1 : opnds_known (snd s1) (l ++ [o])) by (apply Forall_app; split; [by eapply x86_opnds_grow|by apply list.Forall_singleton]).
  apply run_bind, (run_comma limit least n (pending (fst s))); [done| |].
  - intros s2 H2 E2 Hn2 Hp2. rewrite <- E2 in Hl1. apply gives_same; [|done].
    apply (gives_weaken limit least _ _ n (pred (pending (fst s)))); [|lia..].
    apply IH; [eapply (W_mono limit least); [exact H2|lia..]|done|]. pose proof (proj1 (proj2 (proj2 H2))). lia.
  - intros s2 H2 E2. apply gives_same; [|done]. apply gives_ret; [done|by rewrite E2].
Qed.
Lemma x86_emit_safe e ops t a : asm_ok limit least a -> encoded_within ops 16 e -> opnds_known a ops ->
  run (emit e t) a (fun _ a' => steady (asm_ok limit least) known weight a a').
Proof.
  intros Ha [Hs Hf Hb] Hops. assert (Hk : e_fixup e <> Fix_None -> known a (e_sym e)).
  { intros Hne. destruct (Hf Hne) as (_ & _ & o & Hin & -> & Ho). unfold opnds_known in Hops. rewrite list.Forall_forall in Hops.
    destruct (Hops _ Hin) as [H1 H2]. apply H1. destruct Ho; auto. }
  unfold emit. destruct (e_is_branch e) eqn:Hbr.
  - destruct (Hb eq_refl) as [Hpc Hn]. destruct Hf as (F1 & F2 & _); [by rewrite Hpc|]. rewrite Hpc in F2. cbn in F2.
    rewrite Hn, firstn_all2 by (unfold size; lia). apply append_branch_safe; [done|apply Hk; by rewrite Hpc|lia|lia].
  - case_bool_decide as Hnone; [by apply append_inst_bytes_safe|]. destruct (Hf Hnone) as (F1 & F2 & _).
    apply append_inst_bytes_fixup_safe; [done|]. specialize (Hk Hnone). split; [done|]. unfold fix_width in F2. unfold fixup_names. destruct (e_fixup e); cbn in *; (split; [done|]); try done; (split; [by apply known_maybe|done]).
Qed.
Lemma x86_split_mnemonic_known name a : exists m l, split_mnemonic name = Done (m, l) /\ opnds_known a l.
Proof.
  unfold split_mnemonic, x86_known_mnemonic. destruct (lower_bound_exact r_mnemonic mnemonic_index name) as (i & Hi & _); [apply sorted_table_sorted|].
  rewrite Hi. cbn [mbind outcome_bind]. destruct (match mnemonic_index !! i with Some r => _ | None => false end).
  - eexists _, _. split; [done|]. by apply list.Forall_nil.
  - destruct (x86_split_condition name) as [[stem cond]|]; eexists _, _; (split; [done|]); [|by apply list.Forall_nil].
    apply list.Forall_singleton. by apply x86_plain_known.
Qed.
Lemma parse_mnemonic_leaves t spelling prefix n p s : W n p s -> leaves (parse_mnemonic t spelling prefix) n p s.
Proof.
  intros Hs. unfold parse_mnemonic. destruct (x86_split_mnemonic_known spelling (snd s)) as (m & l & Hm & Hl). apply run_bind, (run_lift _ (m, l)); [done|].
  apply run_bind, (W_peek limit least n p); [done|]. intros t1 s1 H1 E1 Hh1. apply run_bind, run_get, run_bind. rewrite <- E1 in Hl.
  assert (Hops : gives opnds_known (if ends_statement t1 then mret (Some l) else parse_operands (tokens_left s1) (is_branch_mnemonic m) l) n p s1).
  { destruct (ends_statement t1); [by apply gives_ret|]. apply x86_parse_operands_gives; [done|done|by eapply tokens_left_bound]. }
  eapply run_mono; [exact Hops|]. intros [ops|] s2 [[H2 _] Hk]; [|by apply leaves_skip]. specialize (Hk ops eq_refl).
  destruct (encoder_within m ops prefix) as (e & He & Hw). apply run_bind, (run_lift _ e); [done|].
  destruct (e_ok e); cbn [negb]; [|by apply leaves_reject]. apply leaves_steady; [done| |].
  - eapply x86_emit_safe; [by eapply W_ok|by apply Hw|done].
  - intros _ s3 H3. by apply (operands_end_leaves limit least).
Qed.
Lemma leaves_run {A} (m : Statement A) n p s : leaves m n p s -> run m s (fun _ s' => W n p s').
Proof. exact id. Qed.
Lemma parse_prefixed_leaves t spelling prefix n p s : W n p s -> leaves (parse_prefixed t spelling prefix) n p s.
Proof.
  intros Hs. unfold parse_prefixed. apply run_bind, (W_peek limit least n p); [done|]. intros t1 s1 H1 E1 Hh1.
  destruct (negb _); [by apply leaves_reject|]. apply run_bind, (W_take_any limit least n p); [done|]. intros t2 s2 H2 E2 _ _.
  apply leaves_run, parse_mnemonic_leaves. exact H2.
Qed.
(** The parser stays within bounds, ends, and keeps the invariant. *)
Lemma parse_x86_handles : handles limit least parse_x86.
Proof.
  intros t n p s Hs Hl. apply (leaves_S limit least); [|exact Hs|exact Hl]. clear Hs. intros Hs. unfold parse_x86.
  destruct (prefix_byte_for _) as [prefix|]; [apply parse_prefixed_leaves|apply parse_mnemonic_leaves]; exact Hs.
Qed.
End Parser.
