(* ===== verification/AsmInstructions.v ===== *)
(** * The assembler with its instruction parsers (Assembler::parse_statement of src/assembler/assembler.cpp)

    The target chooses the parser of an instruction. Both keep the assembler's invariant,
    so a whole run of the assembler stays within bounds and ends. *)
From stdpp Require Import list gmap strings.
From S2P Require Import Prelude Vectors Outcome Target AsmLexer AsmExpr Mir AsmUnit Assembler AsmSafe AsmDirectives AsmStatements AsmFinish AsmFinishSafe AsmOperands AsmA64 AsmA64Safe AsmX86 AsmX86Safe.
Open Scope Z_scope.

Section Parsers.
Context {slot : EmptySlot}.

#[export] Instance parse_target_instruction : InstructionParser := fun mnemonic =>
  s ← get; if is_x86_64 (target (options_ (snd s))) then parse_x86 mnemonic else parse_aarch64 mnemonic.
#[export] Instance target_instruction_safe : InstructionParserSafe.
Proof.
  intros limit least Hl t n p s Hs Hn. apply run_bind, run_get. destruct (is_x86_64 _).
  - by apply (parse_x86_handles limit least).
  - by apply (parse_aarch64_handles limit least).
Qed.
End Parsers.

(** Claim C3: the assembler reads and writes nothing out of bounds and ends, whatever the
    text it is given and for both instruction sets: from every source of fewer than
    2^32 - 1 characters, for every target, a run of `assemble_fragment` (the lexer,
    labels, assignments, directives, expressions, the instruction parsers and encoders,
    the layout of deferred fields and the filling of fixups) gives a result or stops
    where a signed number or a vector of bytes grows past its type; a successful result
    has no diagnostics, a failed one no section. *)
Theorem assembler_safe {slot : EmptySlot} (visit : gmap Z LocalLabelState -> list (Z * LocalLabelState)) source o :
  (forall m, visit m ⊆ map_to_list m) -> size source < no_sym ->
  assembled_within_bounds (@assemble_fragment visit parse_target_instruction source o).
Proof. apply assembler_within_bounds. Qed.

(** Two targets. *)
Definition sample_slot : EmptySlot := fun _ => token Tok_End 0 0.
Definition line (l : list string) : chars := flat_map (fun s => str s ++ [newline]) l.
Definition x86_source : chars := line ["f: pushq %rbp"; "movq %rsp, %rbp"; "lock incl 8(%rdi,%r12,4)"; "jne f"; "call g"; "ret"]%string.
Definition a64_source : chars := line ["f: stp x29, x30, [sp, #-16]!"; "mov x0, #5"; "b.ne f"; "bl g"; "ret"]%string.
Definition on (t : TargetInfo) : AsmOptions := mkOptions t (str "f.s") true.
Definition assembled (source : chars) (t : TargetInfo) : outcome FragmentResult :=
  @assemble_fragment map_to_list (@parse_target_instruction sample_slot) source (on t).
Lemma assembler_safe_witness : size x86_source < no_sym /\ assembled_within_bounds (assembled x86_source (make_x86_64_linux (str "x86_64-linux"))).
Proof. split; [vm_compute; reflexivity|]. apply (assembler_safe (slot := sample_slot)); [done|vm_compute; reflexivity]. Defined.
Definition bytes_of (r : outcome FragmentResult) : option (bool * list (list Z)) :=
  match r with Done f => Some (fr_ok f, map fsec_bytes (fr_sections f)) | _ => None end.
Example x86_bytes : bytes_of (assembled x86_source (make_x86_64_linux (str "x86_64-linux"))) =
  Some (true, [[0x55; 0x48; 0x89; 0xE5; 0xF0; 0x42; 0xFF; 0x44; 0xA7; 0x08; 0x75; 0xF4; 0xE8; 0; 0; 0; 0; 0xC3]]).
Proof. vm_compute. reflexivity. Qed.
Example a64_bytes : bytes_of (assembled a64_source (make_aarch64_linux (str "aarch64-linux"))) =
  Some (true, [[0xFD; 0x7B; 0xBF; 0xA9; 0xA0; 0; 0x80; 0xD2; 0xC1; 0xFF; 0xFF; 0x54; 0; 0; 0; 0x94; 0xC0; 0x03; 0x5F; 0xD6]]).
Proof. vm_compute. reflexivity. Qed.

(** What the x86-64 assembler loses without a report. Of an instruction with
    two symbols the encoder keeps one relocation: `movl $a, b(%rip)` gives a fixup of `a`
    alone, and the place of `b` is left as it is. An immediate is cut to the operand's
    width before its range is looked at: `movb $300, %al` moves 44, and
    `addq $0xFFFFFFFF, %rax` adds -1. *)
Example x86_silent_losses :
  match assembled (line ["movl $a, b(%rip)"; "movb $300, %al"; "addq $0xFFFFFFFF, %rax"]%string) (make_x86_64_linux (str "x86_64-linux")) with
  | Done f =>
      fr_ok f = true /\ fr_diagnostics f = [] /\
      map fsec_bytes (fr_sections f) = [[0xC7; 0x05; 0xFC; 0xFF; 0xFF; 0xFF; 0; 0; 0; 0; 0xB0; 44; 0x48; 0x05; 0xFF; 0xFF; 0xFF; 0xFF]] /\
      map (fun s => map (fun u => (ff_symbol u, ff_offset u)) (fsec_unresolved s)) (fr_sections f) = [[(str "a", 6)]]
  | _ => False
  end.
Proof. vm_compute. done. Qed.
